(* ===== verification/_CoqProject ===== *)
-Q . S2P
Prelude.v
Text.v
Ordered.v
Effects.v
Bits.v
Capabilities.v
Packbits.v
ProtocolTypes.v
BrotherRaster.v
Protocol.v
ProtocolFacts.v
MonoRaster.v
MonoRasterFacts.v
Transport.v
Executor.v
ExecutorFacts.v
Replay.v
Ipp.v
IppFacts.v
Administration.v
AdministrationFacts.v
Snmp.v
SnmpFacts.v
Discovery.v
DiscoveryFacts.v
Template.v
TemplateFacts.v
Document.v
DocumentFacts.v
Materialize.v
MaterializeFacts.v
RenderTypes.v
Float.v
Export.v
Sheet.v
SheetFacts.v
ExportFacts.v
Json.v
Importer.v
ImporterFacts.v
BrotherWifi.v
BrotherWifiFacts.v
BrotherSettings.v
BrotherSettingsFacts.v
WirelessSettingsFacts.v
BrotherReport.v
DeviceStatus.v
Probe.v
ProbeFacts.v
BrotherMfp.v
BrotherMfpFacts.v
SnmpClient.v
SnmpClientFacts.v
SnmpProperties.v
SnmpPropertiesFacts.v
IppClient.v
IppClientFacts.v
DnsSd.v
Agent.v
AgentFacts.v
BleTransport.v
BleFacts.v
Barcode.v
Geometry.v
GeometryFacts.v
Canvas.v
CanvasFacts.v
PasteFacts.v
TextDrawing.v
DrawingFacts.v
Resources.v
Media.v
Renderer.v
SheetDocuments.v
RenderSamples.v
DrawingProperties.v
RendererFacts.v
SheetPdfFacts.v
MeasureFacts.v
PrinterRasterFacts.v
