(* ===== verification/Prelude.v ===== *)
(** * MakersBrain printer SDK: verified core

    The SDK turns labels into bytes for label printers and sends them. A host
    renders a document to a monochrome raster, the planner turns the raster
    into a plan, a list of actions for one printer protocol, and the executor
    runs the plan on a transport. Beside this path, the core library speaks
    IPP and SNMP to office printers and imposes labels on paper sheets. This
    development models that core from the Rust sources under src/crates/ and
    proves what it promises. Labels are documents: templates whose texts a
    record fills in. Library code that is not in the repository (the LZO
    compressor, SHA-256, base64, a JSON serializer, the Unicode case tables) is
    a parameter; the larger ones the renderer calls (fonts, images, SVG,
    Code 128 and QR encoders) are type classes with the laws it relies on.

    ** Conventions

    A [Result] is Rust's. Where the code can panic in ways its own checks do
    not exclude, the error type is [Fault E]: an error of the code, or
    [Panicked] (index out of range, division by zero, [chunks(0)]). Integers
    are [Z]; the type of the source gives the bounds ([in_u u32_max n]), and
    arithmetic is checked, saturating or wrapping as in the source; plain
    [+] and [*] wrap as in a release build. Strings are lists of bytes.
    Mutable state is threaded by the monad [EM] of Effects.v, which keeps the
    state reached when an error is returned. Loops are folds over what they
    iterate on, or recursions with fuel: running out of fuel is [Panicked],
    and the totality theorems exclude it.

    ** Files

    - Prelude.v: results, faults, machine integers, byte order, slices,
      decimal text, loops over buffers, with their lemmas and tactics
      ([inv_ok], [blia], [zlen_lia], [size_lia]). Text.v: splitting, trimming
      and parsing of strings. Ordered.v: lexicographic order and the iteration
      of ordered maps. Effects.v: the monad [EM], its specifications and run
      rules. Bits.v: bits of packed rows.
    - Capabilities.v (mb-printer-core/src/capabilities.rs, limits.rs):
      printer definitions, what is derived from them, and limits. The
      embedded catalogue is an argument of [by_id].
    - ProtocolTypes.v, Protocol.v (mb-printer-core/src/protocol.rs): plans,
      options, and the planner: the guards and copies of [plan_inner], one
      definition per protocol ([plan_m_series] to [plan_brother]), limits,
      batches, status plans. Packbits.v and BrotherRaster.v: row compression
      and the framed raster stream of the Brother protocol.
      ProtocolFacts.v: a plan is accepted exactly when its inputs and size
      are, and is its page once per copy in one frame; it never panics; its
      headers announce its payload; batches share one setup. Packbits.v and
      BrotherRaster.v: what a printer decodes is the raster.
    - MonoRaster.v (mb-printer-core/src/raster.rs): gray and monochrome
      rasters. MonoRasterFacts.v: dithering is total and exact on bilevel
      images, rotations compose, placement, blitting and packing do what
      their pixel-wise specifications say.
    - Transport.v (mb-printer-executor/src/transport.rs, error.rs): the
      traits as type classes, and [Traced], an arbitrary transport whose calls
      are recorded. Executor.v (executor.rs): preflight and the action loop,
      with deadlines, cancellation and responses. An [async fn] is a
      computation that calls the transport in order; a race with a
      cancellation or a deadline asks the environment which side won.
      ExecutorFacts.v: a success wrote the plan, exactly and once; a failure
      wrote a prefix, never retried; cancellation before the start writes
      nothing; planner plans pass preflight; retention is bounded.
    - Replay.v (mb-printer-executor/src/replay.rs and the file store of
      mb-printer-native/src/lib.rs): the interface [ReplayStore], the law
      [LawfulStore] that a client needs, its two implementations, and that the
      transport is driven by the executions of successful claims alone, no key
      twice.
    - Ipp.v (mb-printer-core/src/ipp.rs): the IPP codec with all its limits.
      IppFacts.v: decoding is total and inverts encoding; request builders.
    - Administration.v (mb-printer-core/src/administration.rs): planning a
      change of an IPP attribute and validating it before it is written.
      AdministrationFacts.v: what a plan permits, that it goes through while
      nothing changes, that it is never applied to something else.
    - Discovery.v (mb-printer-core/src/discovery.rs): snapshots of printers,
      the reconciliation of identities, the normalisation of IPP and SNMP
      responses, redaction and the output policy. DiscoveryFacts.v: redacted
      output is the same for responses that differ only in sensitive values;
      writes are announced exactly when the printer lists them; identities
      are merged only for a reason.
    - Template.v (mb-printer-core/src/template.rs): expressions in label
      texts. TemplateFacts.v: evaluation is substitution and ends, numbers
      are rounded exactly, dates are calendar dates.
    - Document.v (mb-printer-core/src/document.rs): the label document and
      its validation. DocumentFacts.v: exactly the well-formed documents are
      valid; cycles of groups and zones are found and the check ends.
    - Materialize.v (mb-printer-core/src/materialize.rs): a record put into a
      document, and batches of records in the zones of pages.
      MaterializeFacts.v: only texts change and the result is valid again;
      where a batch puts its records, and that its pages are valid when names
      have no colon; nothing panics.
    - Snmp.v (mb-printer-core/src/snmp.rs): object identifiers, the registry,
      BER encoding and decoding, and evidence. SnmpFacts.v: decoding is total
      and reads back what an agent writes, requests read back, the registry
      only grows; the community is masked in evidence, but only when nothing
      follows the message.
    - Float.v: binary64 numbers over the standard library's [SpecFloat], and
      their text with six decimals. Export.v (mb-printer-core/src/export.rs):
      the PDF writer and its limits; PNG over the type class [PngEncoder].
      ExportFacts.v: a PDF is written exactly when its estimate is within the
      limit, the cross-reference table finds every object, the images have the
      dots of the rasters, and nothing panics.
    - Json.v: JSON values of serde_json as the type class [JsonValue] with laws,
      and an implementation for examples. Importer.v (mb-printer-core/src/
      importer.rs): the import of version 3 documents. ImporterFacts.v: it never
      panics, imported elements are named, typed and sized, resources are stored
      once and found, and groups and children agree. Groups are flattened with
      fuel the depth of the value.
    - Sheet.v (mb-printer-core/src/sheet.rs, and the unit conversion of
      render.rs): layouts, plans, page rasters, cut marks and the PDF of
      rasters. SheetFacts.v: layouts are accepted exactly when slots are
      disjoint and on the paper, plans are the items in slot order, and labels
      on a page never overlap. SheetDocuments.v, which needs the renderer: the
      PDF of documents. SheetPdfFacts.v: every page shows its labels at the
      dots of their slots, within the page, and their cut marks.
    - BrotherWifi.v, BrotherReport.v (mb-printer-core/src/protocol/brother/):
      wireless settings over PJL, and the system report. DeviceStatus.v: IEEE
      1284 identifiers (protocol/ieee1284.rs), the Brother status block and
      Phomemo notifications. BrotherWifiFacts.v: settings are read back as
      written. BrotherReport.v: redaction hides sensitive values.
      DeviceStatus.v: identifiers are read back, status bits are reported.
    - Probe.v (mb-printer-core/src/probe.rs): read-only probes, their registry,
      requests, decoders and reports. ProbeFacts.v: what is registered first
      stays and is safe, registered probes only query, reports hide
      identifiers.
    - BrotherMfp.v (mb-printer-core/src/providers/brother/snmp.rs): the SNMP
      objects of Brother's office printers and the inventory in their firmware
      records. BrotherMfpFacts.v: the catalogue is well-formed and read-only.
    - SnmpClient.v (mb-printer-native/src/transports/snmp.rs): reads, walks and
      the single write over the async-snmp crate, the type class [AsyncSnmp].
      SnmpClientFacts.v: what is asked and returned, whatever the network
      answers; a walk ends and reads the whole subtree of an agent in order.
      SnmpProperties.v, SnmpPropertiesFacts.v (snmp_properties.rs): named
      properties of qualified printers and the firmware inspection.
    - IppClient.v (mb-printer-native/src/transports/ipp.rs): exchanges of IPP
      messages over HTTP, the type class [IppHttp], or USB, the planning and
      application of a confirmed change, and discovery. IppClientFacts.v: a
      change is written at most once and only after validation, and is
      verified when the printer does what it is told; a discovery only reads,
      with distinct request numbers, and its snapshots are merged without loss.
    - DnsSd.v (mb-printer-native/src/transports/dns_sd.rs): discovery of IPP
      printers over the type class [DnsSdBackend]; a discovery asks
      within what is left of its limits, and reports distinct printers
      from the records it was given.
    - Agent.v (mb-printer-agent and mb-printer-agent-proto): the contract of a
      session, the validation of requests, the published printers and the
      three executions, which are IppClient.v and Probe.v behind the guards of
      a policy. AgentFacts.v: requests with one ID write at most once and only
      what was permitted; the initial execution only reads and gives out what
      its output mode releases; only qualified read-only probes are run.
    - BleTransport.v (mb-printer-native/src/transports/ble.rs): the Bluetooth
      transport over a platform with arbitrary answers and notifications.
      BleFacts.v: in every run, and so in every execution of a plan, writes
      stay within the printer's credits and responses keep their order. The
      executor's type class is instantiated with the transport together with
      the calls made on it, so that an execution carries its run.
    - BrotherSettings.v (mb-printer-native/src/brother_device_settings.rs,
      brother_settings.rs): the retrieval of device settings ([DeviceSettings])
      and of wireless settings ([WirelessRetrieval]) over any transport.
      BrotherSettingsFacts.v, WirelessSettingsFacts.v: a retrieval ends,
      writes only its fixed requests, and reads a printer that answers them
      completely, past stale and late replies.

    The renderer (mb-printer-core/src/render.rs, resources.rs, media.rs):
    - RenderTypes.v: errors, options, the pixel budget, ranges and characters,
      and the logic [outcome] of results that do not panic.
    - Barcode.v: EAN symbols are read back by a scanner of the
      standard; Code 39 symbols are not.
    - Geometry.v, GeometryFacts.v: visibility, zones and placement through
      nested groups, the fixed-point rotation, the bounds of ink.
    - Canvas.v: lines, shapes, pictures, rotated layers, fitted rasters.
      CanvasFacts.v: what each paints, by the predicate [plots]. PasteFacts.v:
      the pixels that pictures, layers and fitted rasters show.
    - TextDrawing.v, DrawingFacts.v: wrapping and drawing of text and codes
      over the type class [Typesetter]; where they may change the canvas.
    - Resources.v: pictures decoded by the type class
      [ImageCodec] and composited over white.
    - Media.v: the presets of a model and the preset of a size.
    - Renderer.v: [draw_at], [render_with_limits], [measure_with_limits] and
      [render_for_printer_with_limits]. DrawingProperties.v: what drawing
      promises. RendererFacts.v: rendering ends, and the raster is what the
      visible elements leave on a white canvas in the order of their layers.
      MeasureFacts.v: every visible element is measured by its ink, tightly.
      PrinterRasterFacts.v: for which options the planner accepts what is
      rendered for a printer. RenderSamples.v: small libraries and a label for
      examples.

    ** Bounds and fuel

    IPP decoding has fuel [2 * length + 2]: every value takes at least five
    bytes of the input, and a value and its collection take one step each.
    SNMP bindings and arcs have fuel the length of the input, of which each
    takes at least two bytes or one. Response collection has the source's own
    limits of 16 and 4096 reads. Decimal printing has twenty digits, enough
    for 64 bits, or 39 for 128; base-128 printing has the five bytes of the
    source's buffer. A walk has as many steps as its limits allow, which is the
    source's own loop. The text of a binary64 number has 309 digits before the
    point, enough for every finite one. Template evaluation has fuel the length of the template,
    of which every expression takes four bytes. The search for cycles has two
    more steps than there are zones or elements: it stops at the first name
    that it sees again. The retrieval of settings has the source's attempts
    and, for its reads, the bytes that may be drained or the time that is left.
    A line has as many turns as its longer side and one; the integer square
    root halves an interval below [2 ^ 33], so 33 turns are enough; placement
    follows 32 groups and the scene loops as many as there are elements,
    which are the source's own bounds.

    ** Not modelled

    Reading and writing the JSON of version 4 documents and the import of PDF
    files; the other native transports (USB, serial, RFCOMM, sockets), the
    command-line tools and the WebAssembly bindings. They are I/O, generated
    code, third-party libraries, or parts that build on the ones above. Tracing and Debug output is left out
    of the functions that are modelled. *)

From stdpp Require Import base list strings numbers option.
From Stdlib Require Import Ascii.

#[local] Open Scope Z_scope.

(** ** Results *)

(** [core::result::Result]: every fallible function of the source returns one. *)
Inductive Result (E A : Type) : Type :=
| Ok (a : A)
| Err (e : E).
Arguments Ok {E A} a.
Arguments Err {E A} e.

#[global] Instance Result_eq_dec {E A} `{EqDecision E} `{EqDecision A} :
  EqDecision (Result E A).
Proof. solve_decision. Defined.

Definition rbind {E A B} (r : Result E A) (k : A -> Result E B) : Result E B :=
  match r with Ok a => k a | Err e => Err e end.

Declare Scope rust_scope.
Delimit Scope rust_scope with rust.

(** The [?] operator. *)
Notation "'let?' x := c 'in' k" := (rbind c (fun x => k))
  (at level 10, x name, c at level 100, k at level 200,
   format "'[v' 'let?'  x  :=  c  'in' '/' k ']'") : rust_scope.
Notation "'let?' ' p := c 'in' k" :=
  (rbind c (fun x => match x with p => k end))
  (at level 10, p pattern, c at level 100, k at level 200) : rust_scope.
Open Scope rust_scope.

Definition is_ok {E A} (r : Result E A) : bool :=
  match r with Ok _ => true | Err _ => false end.

(** [Option::ok_or]. *)
Definition ok_or {E A} (o : option A) (e : E) : Result E A :=
  match o with Some a => Ok a | None => Err e end.

(** [bool::then_some(()).ok_or(e)] and [if !b { return Err(e) }]. *)
Definition ensure {E} (b : bool) (e : E) : Result E unit :=
  if b then Ok tt else Err e.

(** [Result::map_err]. *)
Definition map_err {E F A} (f : E -> F) (r : Result E A) : Result F A :=
  match r with Ok a => Ok a | Err e => Err (f e) end.

(** [Result::ok]. *)
Definition result_ok {E A} (r : Result E A) : option A :=
  match r with Ok a => Some a | Err _ => None end.

Lemma rbind_Ok {E A B} (r : Result E A) (k : A -> Result E B) b :
  rbind r k = Ok b <-> exists a, r = Ok a /\ k a = Ok b.
Proof. destruct r; simpl; naive_solver. Qed.

Lemma rbind_assoc {E A B C} (r : Result E A) (f : A -> Result E B) (g : B -> Result E C) :
  rbind (rbind r f) g = rbind r (fun a => rbind (f a) g).
Proof. by destruct r. Qed.

Lemma ensure_Ok {E} b (e : E) u : ensure b e = Ok u <-> b = true.
Proof. destruct b, u; simpl; naive_solver. Qed.

Lemma ok_or_Ok {E A} (o : option A) (e : E) a : ok_or o e = Ok a <-> o = Some a.
Proof. destruct o; simpl; naive_solver. Qed.

Lemma map_err_Ok {E F A} (f : E -> F) (r : Result E A) a :
  map_err f r = Ok a <-> r = Ok a.
Proof. destruct r; simpl; naive_solver. Qed.

(** ** Panics *)

(** A Rust call that does not return [Ok] either returns an error value or
    panics (an out-of-range index, a zero divisor, [chunks(0)]). Operations
    whose panics are not excluded by their own guards return a [Fault]. *)
Inductive Fault (E : Type) :=
| Raised (e : E)
| Panicked.
Arguments Raised {E} e.
Arguments Panicked {E}.

#[global] Instance Fault_eq_dec {E} `{EqDecision E} : EqDecision (Fault E).
Proof. solve_decision. Defined.

(** An error of a callee that cannot panic, propagated by [?]. *)
Definition raising {E A} (r : Result E A) : Result (Fault E) A := map_err Raised r.

Definition fail {E A} (e : E) : Result (Fault E) A := Err (Raised e).

Definition panics {E A} (r : Result (Fault E) A) : bool :=
  match r with Err Panicked => true | _ => false end.

Lemma panics_bind {E A B} (r : Result (Fault E) A) (k : A -> Result (Fault E) B) :
  panics r = false -> (forall a, r = Ok a -> panics (k a) = false) ->
  panics (rbind r k) = false.
Proof. destruct r as [a|[e|]]; simpl; auto. Qed.

Lemma panics_raising {E A} (r : Result E A) : panics (raising r) = false.
Proof. by destruct r. Qed.


Lemma Ok_inj {E A} (a b : A) : @Ok E A a = Ok b -> a = b.
Proof. by injection 1. Qed.

Lemma raising_Ok {E A} (r : Result E A) a : raising r = Ok a <-> r = Ok a.
Proof. apply map_err_Ok. Qed.

(** [map_err] of an error that may be a panic. *)
Definition map_raised {E F A} (f : E -> F) (r : Result (Fault E) A) : Result (Fault F) A :=
  map_err (fun e => match e with Raised e => Raised (f e) | Panicked => Panicked end) r.

Lemma map_raised_Ok {E F A} (f : E -> F) (r : Result (Fault E) A) a : map_raised f r = Ok a <-> r = Ok a.
Proof. apply map_err_Ok. Qed.

Lemma panics_map_raised {E F A} (f : E -> F) (r : Result (Fault E) A) : panics (map_raised f r) = panics r.
Proof. by destruct r as [|[]]. Qed.

Lemma raising_inv {E A} (r : Result E A) a : raising r = Ok a -> r = Ok a.
Proof. apply raising_Ok. Qed.

(** ** Proof automation *)

(** Splits a hypothesis that a chain of [?] returned [Ok] into its steps. *)
Ltac inv_ok H :=
  repeat (cbn beta iota in H;
    match type of H with
    | rbind _ _ = Ok _ =>
        let x := fresh "x" in let Hx := fresh "Hx" in
        apply rbind_Ok in H as (x & Hx & H); inv_ok Hx
    | ensure _ _ = Ok _ => apply ensure_Ok in H
    | ok_or _ _ = Ok _ => apply ok_or_Ok in H
    | map_err _ _ = Ok _ => apply (proj1 (map_err_Ok _ _ _)) in H
    | (if ?b then Err _ else _) = Ok _ =>
        let Hb := fresh "Hb" in destruct b eqn:Hb; [discriminate H|]
    | (if ?b then _ else Err _) = Ok _ =>
        let Hb := fresh "Hb" in destruct b eqn:Hb; [|discriminate H]
    | Ok ?a = Ok ?b =>
        let H' := fresh H in pose proof (Ok_inj a b H) as H'; clear H; rename H' into H
    | raising _ = Ok _ => apply (proj1 (raising_Ok _ _)) in H
    | fail _ = Ok _ => discriminate H
    | (if ?b then fail _ else _) = Ok _ =>
        let Hb := fresh "Hb" in destruct b eqn:Hb; [discriminate H|]
    end).

(** Turns boolean tests of the code into propositions and calls [lia]. *)
Ltac blia :=
  repeat match goal with
  | H : _ && _ = true |- _ => apply andb_true_iff in H as [? ?]
  | H : _ || _ = false |- _ => apply orb_false_iff in H as [? ?]
  | H : negb _ = true |- _ => apply negb_true_iff in H
  | H : negb _ = false |- _ => apply negb_false_iff in H
  end;
  lia.

(** ** Machine integers *)

Definition u8_max : Z := 255.
Definition u16_max : Z := 65535.
Definition u32_max : Z := 4294967295.
Definition u64_max : Z := 18446744073709551615.

(** [usize] on the 64-bit targets of the SDK. *)
Definition usize_max : Z := u64_max.
Definition i16_min : Z := -32768.
Definition i16_max : Z := 32767.
Definition i32_min : Z := -2147483648.
Definition i32_max : Z := 2147483647.
Definition i64_min : Z := -9223372036854775808.
Definition i64_max : Z := 9223372036854775807.

(** Membership in [0 ..= max]. *)
Definition in_u (max z : Z) : Prop := 0 <= z <= max.
Definition in_ub (max z : Z) : bool := (0 <=? z) && (z <=? max).

(** [as u8], [as u16], [as u32]: truncation. *)
Definition as_u8 (z : Z) : Z := z mod 256.
Definition as_u16 (z : Z) : Z := z mod 65536.
Definition as_u32 (z : Z) : Z := z mod 4294967296.

(** [as i16] of a [u16]: two's complement reading. *)
Definition as_i16 (z : Z) : Z := (z + 32768) mod 65536 - 32768.

(** [checked_*]: [None] when the exact result does not fit. *)
Definition checked (max v : Z) : option Z := if in_ub max v then Some v else None.

(** [checked_*] and [as i64] on signed integers. *)
Definition checked_i64 (v : Z) : option Z := if (i64_min <=? v) && (v <=? i64_max) then Some v else None.
Definition as_i64 (z : Z) : Z := (z + 2 ^ 63) mod 2 ^ 64 - 2 ^ 63.

(** [saturating_*] on unsigned integers. *)
Definition saturate (max v : Z) : Z := Z.max 0 (Z.min max v).

(** [Vec::len] and [str::len] as an integer. *)
Definition zlen {A} (l : list A) : Z := Z.of_nat (length l).

Definition byte_ok (b : Z) : Prop := 0 <= b < 256.
Definition bytes_ok (l : list Z) : Prop := Forall byte_ok l.

Lemma in_ub_spec max z : in_ub max z = true <-> in_u max z.
Proof. unfold in_ub, in_u. rewrite andb_true_iff. lia. Qed.

Lemma checked_Some max v w : checked max v = Some w <-> in_u max v /\ w = v.
Proof.
  unfold checked. rewrite <- in_ub_spec. destruct (in_ub max v); naive_solver.
Qed.

Lemma checked_id max v : in_u max v -> checked max v = Some v.
Proof. intros Hv. by apply checked_Some. Qed.

Lemma checked_i64_Some v w : checked_i64 v = Some w <-> i64_min <= v <= i64_max /\ w = v.
Proof.
  unfold checked_i64. rewrite <- !Z.leb_le, <- andb_true_iff. destruct (_ && _); naive_solver.
Qed.

Lemma as_i64_id z : i64_min <= z <= i64_max -> as_i64 z = z.
Proof. unfold as_i64, i64_min, i64_max. intros. rewrite Z.mod_small; lia. Qed.

Lemma saturate_id max v : in_u max v -> saturate max v = v.
Proof. unfold in_u, saturate. lia. Qed.

Lemma as_u8_ok z : byte_ok (as_u8 z).
Proof. unfold byte_ok, as_u8. apply Z.mod_pos_bound. lia. Qed.

Lemma as_u8_id z : byte_ok z -> as_u8 z = z.
Proof. unfold byte_ok, as_u8. apply Z.mod_small. Qed.

Lemma zlen_nonneg {A} (l : list A) : 0 <= zlen l.
Proof. unfold zlen. lia. Qed.

Lemma zlen_nil {A} : zlen (@nil A) = 0.
Proof. reflexivity. Qed.

Lemma zlen_cons {A} (x : A) l : zlen (x :: l) = 1 + zlen l.
Proof. unfold zlen. simpl. lia. Qed.

Lemma zlen_app {A} (l k : list A) : zlen (l ++ k) = zlen l + zlen k.
Proof. unfold zlen. rewrite length_app. lia. Qed.

Create HintDb rust.
Create Rewrite HintDb zlen.
#[export] Hint Resolve as_u8_ok zlen_nonneg panics_raising : rust.
#[export] Hint Rewrite @zlen_nil @zlen_cons @zlen_app : zlen.

(** ** Byte encodings of integers *)

(** [to_le_bytes] of an [n]-byte integer; negative numbers are taken modulo
    [2^(8n)], which is two's complement. *)
Fixpoint to_le_bytes (n : nat) (z : Z) : list Z :=
  match n with
  | O => []
  | S n => z mod 256 :: to_le_bytes n (z / 256)
  end.

Definition to_be_bytes (n : nat) (z : Z) : list Z := reverse (to_le_bytes n z).

(** [from_be_bytes] of an unsigned integer. *)
Definition of_be_bytes (l : list Z) : Z := fold_left (fun acc b => acc * 256 + b) l 0.

Fixpoint of_le_bytes (l : list Z) : Z :=
  match l with
  | [] => 0
  | b :: l => b + 256 * of_le_bytes l
  end.

(** Two's complement reading of an unsigned [8n]-bit integer. *)
Definition to_signed (n : nat) (z : Z) : Z :=
  if z <? 2 ^ (8 * Z.of_nat n - 1) then z else z - 2 ^ (8 * Z.of_nat n).

Lemma length_to_le_bytes n z : length (to_le_bytes n z) = n.
Proof. revert z. induction n; simpl; auto. Qed.

Lemma to_le_bytes_ok n z : bytes_ok (to_le_bytes n z).
Proof.
  unfold bytes_ok. revert z. induction n; simpl; constructor; [|done].
  apply Z.mod_pos_bound. lia.
Qed.

Lemma pow256_succ n : 256 ^ Z.of_nat (S n) = 256 * 256 ^ Z.of_nat n.
Proof. rewrite Nat2Z.inj_succ, Z.pow_succ_r; lia. Qed.

Lemma pow256_pow2 n : 2 ^ (8 * Z.of_nat n) = 256 ^ Z.of_nat n.
Proof. rewrite Z.pow_mul_r by lia. reflexivity. Qed.

Lemma of_to_le_bytes n z : of_le_bytes (to_le_bytes n z) = z mod 256 ^ Z.of_nat n.
Proof.
  revert z. induction n as [|n IH]; intros z; [simpl; by rewrite Z.mod_1_r|].
  cbn [to_le_bytes of_le_bytes]. rewrite IH, pow256_succ.
  rewrite Z.rem_mul_r by lia. lia.
Qed.

Lemma to_of_le_bytes l : bytes_ok l -> to_le_bytes (length l) (of_le_bytes l) = l.
Proof.
  unfold bytes_ok. induction 1 as [|b l Hb Hl IH]; [done|]. cbn [length to_le_bytes of_le_bytes].
  unfold byte_ok in Hb. rewrite (Z.mul_comm 256).
  rewrite Z.mod_add, Z.div_add by lia.
  rewrite Z.mod_small, Z.div_small by lia. f_equal. exact IH.
Qed.

Lemma of_le_bytes_bound l : bytes_ok l -> 0 <= of_le_bytes l < 256 ^ zlen l.
Proof.
  unfold bytes_ok, zlen. induction 1 as [|b l Hb Hl IH]; [simpl; lia|].
  cbn [of_le_bytes length]. rewrite pow256_succ. unfold byte_ok in Hb. lia.
Qed.

Lemma of_be_bytes_le l : of_be_bytes l = of_le_bytes (reverse l).
Proof.
  unfold of_be_bytes. induction l as [|b l IH] using rev_ind; [done|].
  rewrite fold_left_app, reverse_snoc. cbn [fold_left of_le_bytes].
  rewrite IH. lia.
Qed.

Lemma length_to_be_bytes n z : length (to_be_bytes n z) = n.
Proof. unfold to_be_bytes. by rewrite length_reverse, length_to_le_bytes. Qed.

Lemma to_be_bytes_ok n z : bytes_ok (to_be_bytes n z).
Proof. unfold to_be_bytes, bytes_ok. apply Forall_reverse, to_le_bytes_ok. Qed.

Lemma of_to_be_bytes n z : of_be_bytes (to_be_bytes n z) = z mod 256 ^ Z.of_nat n.
Proof.
  rewrite of_be_bytes_le. unfold to_be_bytes. rewrite reverse_involutive.
  apply of_to_le_bytes.
Qed.

Lemma to_of_be_bytes l : bytes_ok l -> to_be_bytes (length l) (of_be_bytes l) = l.
Proof.
  intros Hl. unfold to_be_bytes. rewrite of_be_bytes_le, <- length_reverse.
  rewrite to_of_le_bytes by (by apply Forall_reverse).
  apply reverse_involutive.
Qed.

Lemma of_be_bytes_bound l : bytes_ok l -> 0 <= of_be_bytes l < 256 ^ zlen l.
Proof.
  intros Hl. rewrite of_be_bytes_le. unfold zlen. rewrite <- length_reverse.
  apply of_le_bytes_bound. by apply Forall_reverse.
Qed.

(** Two's complement round trip. *)
Lemma to_signed_mod n z :
  (0 < n)%nat ->
  - 2 ^ (8 * Z.of_nat n - 1) <= z < 2 ^ (8 * Z.of_nat n - 1) ->
  to_signed n (z mod 256 ^ Z.of_nat n) = z.
Proof.
  intros Hn Hz. unfold to_signed. rewrite <- pow256_pow2.
  assert (2 ^ (8 * Z.of_nat n) = 2 * 2 ^ (8 * Z.of_nat n - 1)) as E.
  { rewrite <- Z.pow_succ_r by lia. f_equal. lia. }
  destruct (decide (0 <= z)).
  - rewrite Z.mod_small by lia. destruct (Z.ltb_spec z (2 ^ (8 * Z.of_nat n - 1))); lia.
  - replace (z mod 2 ^ (8 * Z.of_nat n)) with (z + 2 ^ (8 * Z.of_nat n)).
    + destruct (Z.ltb_spec (z + 2 ^ (8 * Z.of_nat n)) (2 ^ (8 * Z.of_nat n - 1))); lia.
    + apply (Z.mod_unique _ _ (-1)); lia.
Qed.

#[export] Hint Resolve to_le_bytes_ok to_be_bytes_ok : rust.

(** ** Slices *)

(** [slice.chunks(n)]: consecutive pieces of [n] elements, the last one
    shorter when the length is not a multiple. The source panics for [n = 0];
    every caller below guards against it, and the model returns []. *)
Fixpoint chunks_fuel {A} (fuel : nat) (n : nat) (l : list A) : list (list A) :=
  match fuel, l with
  | O, _ | _, [] => []
  | S fuel, _ => take n l :: chunks_fuel fuel n (drop n l)
  end.

Definition chunks {A} (n : Z) (l : list A) : list (list A) :=
  if n <=? 0 then [] else chunks_fuel (length l) (Z.to_nat n) l.

(** [slice.get(start..stop)]. *)
Definition get_range {A} (l : list A) (start stop : Z) : option (list A) :=
  if (start <=? stop) && (stop <=? zlen l)
  then Some (take (Z.to_nat (stop - start)) (drop (Z.to_nat start) l))
  else None.

Lemma get_range_app {A} (pre l rest : list A) :
  get_range (pre ++ l ++ rest) (zlen pre) (zlen pre + zlen l) = Some l.
Proof.
  unfold get_range. rewrite !zlen_app. pose proof (zlen_nonneg l). pose proof (zlen_nonneg rest).
  destruct (Z.leb_spec (zlen pre) (zlen pre + zlen l)); [|lia].
  destruct (Z.leb_spec (zlen pre + zlen l) (zlen pre + (zlen l + zlen rest))); [|lia].
  cbn. f_equal. unfold zlen.
  rewrite Nat2Z.id, (Z.add_comm (Z.of_nat (length pre))), Z.add_simpl_r, Nat2Z.id.
  by rewrite drop_app_length, take_app_length.
Qed.

(** [slice.starts_with(prefix)]. *)
Definition starts_with (p l : list Z) : bool := bool_decide (take (length p) l = p).

Lemma chunks_fuel_spec {A} fuel n (l : list A) :
  (0 < n)%nat -> (length l <= fuel)%nat ->
  concat (chunks_fuel fuel n l) = l /\
  Forall (fun c => (0 < length c <= n)%nat) (chunks_fuel fuel n l).
Proof.
  intros Hn. revert l. induction fuel as [|fuel IH]; intros l Hl.
  - destruct l; [done|simpl in Hl; lia].
  - destruct l as [|x l]; [done|]. cbn [chunks_fuel concat].
    destruct (IH (drop n (x :: l))) as [E F].
    { rewrite length_drop. simpl in *. lia. }
    split; [rewrite E; apply take_drop|]. constructor; [|done].
    rewrite length_take. simpl. lia.
Qed.

Lemma concat_chunks {A} n (l : list A) : 0 < n -> concat (chunks n l) = l.
Proof.
  intros Hn. unfold chunks. destruct (Z.leb_spec n 0); [lia|].
  by destruct (chunks_fuel_spec (length l) (Z.to_nat n) l) as [E _]; [lia..|].
Qed.

Lemma chunks_bound {A} n (l : list A) :
  Forall (fun c => 0 < zlen c <= n) (chunks n l).
Proof.
  unfold chunks. destruct (Z.leb_spec n 0); [constructor|].
  destruct (chunks_fuel_spec (length l) (Z.to_nat n) l) as [_ F]; [lia..|].
  eapply Forall_impl; [|exact F]. unfold zlen. simpl. lia.
Qed.

(** ** Text *)

(** A literal of the source as its bytes; all literals modelled are ASCII. *)
Fixpoint str (s : string) : list Z :=
  match s with
  | EmptyString => []
  | String c s => Z.of_nat (nat_of_ascii c) :: str s
  end.

(** [u16::to_string] and the like: decimal digits without leading zeros. *)
Fixpoint dec_digits (fuel : nat) (n : Z) (acc : list Z) : list Z :=
  match fuel with
  | O => acc
  | S fuel =>
      let acc := (48 + n mod 10) :: acc in
      if n <? 10 then acc else dec_digits fuel (n / 10) acc
  end.

(** Twenty digits are enough for a [u64]. *)
Definition show_dec (n : Z) : list Z := dec_digits 20 n [].

Lemma str_ok s : bytes_ok (str s).
Proof.
  induction s as [|c s IH]; simpl; constructor; [|done].
  unfold byte_ok. pose proof (nat_ascii_bounded c). lia.
Qed.

Lemma dec_digits_ok fuel n acc :
  bytes_ok acc -> bytes_ok (dec_digits fuel n acc).
Proof.
  revert n acc. induction fuel as [|fuel IH]; intros n acc Ha; [done|].
  cbn [dec_digits]. assert (byte_ok (48 + n mod 10)).
  { unfold byte_ok. pose proof (Z.mod_pos_bound n 10). lia. }
  destruct (n <? 10); [|apply IH]; by constructor.
Qed.

Lemma show_dec_ok n : bytes_ok (show_dec n).
Proof. apply dec_digits_ok. constructor. Qed.

#[export] Hint Resolve str_ok show_dec_ok : rust.

Lemma zlen_dec_digits fuel n acc :
  zlen (dec_digits fuel n acc) <= Z.of_nat fuel + zlen acc.
Proof.
  revert n acc. induction fuel as [|fuel IH]; intros n acc; [simpl; lia|].
  cbn [dec_digits]. destruct (n <? 10).
  - rewrite zlen_cons. lia.
  - etrans; [apply IH|]. rewrite zlen_cons. lia.
Qed.

Lemma zlen_show_dec n : zlen (show_dec n) <= 20.
Proof. unfold show_dec. etrans; [apply zlen_dec_digits|]. done. Qed.

(** ** Lengths *)

Lemma zlen_str s : zlen (str s) = Z.of_nat (String.length s).
Proof. unfold zlen. f_equal. induction s; simpl; auto. Qed.

Lemma zlen_map {A B} (f : A -> B) l : zlen (map f l) = zlen l.
Proof. unfold zlen. by rewrite length_map. Qed.

Lemma zlen_replicate {A} n (x : A) : zlen (replicate n x) = Z.of_nat n.
Proof. unfold zlen. by rewrite length_replicate. Qed.

Lemma zlen_to_le_bytes n z : zlen (to_le_bytes n z) = Z.of_nat n.
Proof. unfold zlen. by rewrite length_to_le_bytes. Qed.

Lemma zlen_to_be_bytes n z : zlen (to_be_bytes n z) = Z.of_nat n.
Proof. unfold zlen. by rewrite length_to_be_bytes. Qed.

#[export] Hint Rewrite zlen_str @zlen_map @zlen_replicate zlen_to_le_bytes zlen_to_be_bytes : zlen.

(** Normalises lengths and calls [lia]. *)
Ltac zlen_lia := autorewrite with zlen in *; cbn [String.length] in *; lia.

(** A slice of [h] complete rows splits into exactly those rows. *)
Lemma chunks_fuel_exact {A} fuel (w h : nat) (l : list A) :
  (0 < w)%nat -> length l = (w * h)%nat -> (length l <= fuel)%nat ->
  length (chunks_fuel fuel w l) = h /\
  Forall (fun c => length c = w) (chunks_fuel fuel w l).
Proof.
  intros Hw. revert h l. induction fuel as [|fuel IH]; intros h l E Hf.
  - destruct l; [|simpl in Hf; lia]. destruct h; [done|simpl in E; lia].
  - destruct l as [|x l]; [destruct h; [done|simpl in E; lia]|].
    destruct h as [|h]; [simpl in E; lia|]. cbn [chunks_fuel length].
    destruct (IH h (drop w (x :: l))) as [E' F]; [rewrite length_drop; simpl in *; lia..|].
    split; [by rewrite E'|]. constructor; [|done]. rewrite length_take. lia.
Qed.

Lemma chunks_exact {A} w h (l : list A) :
  0 < w -> 0 <= h -> zlen l = w * h ->
  zlen (chunks w l) = h /\ Forall (fun c => zlen c = w) (chunks w l).
Proof.
  intros Hw Hh E. unfold chunks, zlen in *. destruct (Z.leb_spec w 0); [lia|].
  destruct (chunks_fuel_exact (length l) (Z.to_nat w) (Z.to_nat h) l) as [E' F]; [lia..|].
  split; [lia|]. eapply Forall_impl; [|exact F]. simpl. lia.
Qed.

(** ** Loops over mutable buffers *)

(** [for a in l { body }] with a body that may return early or panic. *)
Fixpoint for_each {E S A} (body : A -> S -> Result E S) (l : list A) (s : S) : Result E S :=
  match l with
  | [] => Ok s
  | a :: l => let? s := body a s in for_each body l s
  end.

(** [l[i]] and [l[i] = v], with [i] a [usize]: out of range they panic. *)
Definition index {E A} (l : list A) (i : Z) : Result (Fault E) A :=
  if i <? 0 then Err Panicked
  else match l !! Z.to_nat i with Some v => Ok v | None => Err Panicked end.

Definition assign {E A} (l : list A) (i : Z) (v : A) : Result (Fault E) (list A) :=
  if (0 <=? i) && (i <? zlen l) then Ok (<[Z.to_nat i := v]> l) else Err Panicked.

Lemma for_each_app {E S A} (body : A -> S -> Result E S) l k s :
  for_each body (l ++ k) s = rbind (for_each body l s) (for_each body k).
Proof.
  revert s. induction l as [|a l IH]; intros s; [done|]. cbn [app for_each].
  destruct (body a s); simpl; auto.
Qed.

(** An invariant of the loop body is an invariant of the loop. *)
Lemma for_each_inv {E S A} (body : A -> S -> Result E S) (I : S -> Prop) l s :
  I s -> (forall a s, a ∈ l -> I s -> exists s', body a s = Ok s' /\ I s') ->
  exists s', for_each body l s = Ok s' /\ I s'.
Proof.
  intros Hs Hb. revert s Hs. induction l as [|a l IH]; intros s Hs; [by exists s|].
  destruct (Hb a s) as (s' & E' & Hs'); [left|done|].
  destruct (IH (fun a s H => Hb a s (list_elem_of_further _ _ _ H)) s' Hs') as (s'' & E'' & H'').
  exists s''. split; [|done]. simpl. by rewrite E'.
Qed.

Lemma index_Ok {E A} (l : list A) i v :
  index (E := E) l i = Ok v <-> 0 <= i /\ l !! Z.to_nat i = Some v.
Proof.
  unfold index. destruct (Z.ltb_spec i 0); [split; [done|lia]|].
  destruct (l !! Z.to_nat i); split; intros; naive_solver.
Qed.

Lemma index_in_range {E A} (l : list A) i :
  0 <= i < zlen l -> exists v, index (E := E) l i = Ok v /\ l !! Z.to_nat i = Some v.
Proof.
  intros H. destruct (lookup_lt_is_Some_2 l (Z.to_nat i)) as [v Hv]; [unfold zlen in H; lia|].
  exists v. split; [|done]. apply index_Ok. split; [lia|done].
Qed.

Lemma assign_in_range {E A} (l : list A) i v :
  0 <= i < zlen l -> assign (E := E) l i v = Ok (<[Z.to_nat i := v]> l).
Proof.
  intros H. unfold assign. destruct (Z.leb_spec 0 i), (Z.ltb_spec i (zlen l)); (done || lia).
Qed.

Lemma zlen_insert {A} (l : list A) i v : zlen (<[i := v]> l) = zlen l.
Proof. unfold zlen. by rewrite length_insert. Qed.

#[export] Hint Rewrite @zlen_insert : zlen.

(** What a loop that writes [val a] at the distinct positions [dst a] leaves
    in the buffer. *)
Lemma write_loop {E A B} (l : list A) (dst : A -> Z) (val : A -> B)
    (body : A -> list B -> Result (Fault E) (list B)) (arr : list B) :
  (forall a arr', a ∈ l -> zlen arr' = zlen arr -> body a arr' = assign arr' (dst a) (val a)) ->
  (forall a, a ∈ l -> 0 <= dst a < zlen arr) ->
  NoDup (dst <$> l) ->
  exists arr', for_each body l arr = Ok arr' /\ zlen arr' = zlen arr /\
    (forall a, a ∈ l -> arr' !! Z.to_nat (dst a) = Some (val a)) /\
    (forall i, 0 <= i -> i ∉ (dst <$> l) -> arr' !! Z.to_nat i = arr !! Z.to_nat i).
Proof.
  revert arr. induction l as [|a l IH]; intros arr Hbody Hdst Hnd.
  - exists arr. split_and!; [done|done|intros a Ha; inversion Ha|done].
  - cbn [fmap list_fmap] in Hnd. inversion_clear Hnd as [|? ? Hna Hnd'].
    assert (0 <= dst a < zlen arr) as Ha by (apply Hdst; left).
    cbn [for_each]. rewrite Hbody by (done || left). rewrite assign_in_range by done. cbn [rbind].
    destruct (IH (<[Z.to_nat (dst a) := val a]> arr)) as (arr' & Eq & Hl & Hin & Hout).
    + intros b arr'' Hb Hz. apply Hbody; [by right|by rewrite Hz, zlen_insert].
    + intros b Hb. rewrite zlen_insert. apply Hdst. by right.
    + exact Hnd'.
    + exists arr'. split; [done|]. split; [by rewrite Hl, zlen_insert|]. split.
      * intros b Hb. apply elem_of_cons in Hb as [->|Hb]; [|by apply Hin].
        rewrite Hout by (lia || done). apply list_lookup_insert_eq.
        unfold zlen in Ha. lia.
      * intros i Hi Hni. cbn [fmap list_fmap] in Hni. apply not_elem_of_cons in Hni as [Hne Hni].
        rewrite Hout by done. apply list_lookup_insert_ne. lia.
Qed.

(** ** Bits of bytes *)

(** A decidable fact about bytes holds when it holds of the 256 bytes. *)
Lemma byte_forall (P : Z -> bool) : forallb P (seqZ 0 256) = true -> forall b, byte_ok b -> P b = true.
Proof.
  intros HP b Hb. rewrite forallb_forall in HP. apply HP, list_elem_of_In, elem_of_seqZ.
  unfold byte_ok in Hb. lia.
Qed.

Lemma land_high_bit b : byte_ok b -> (Z.land b 0x80 =? 0) = (b <? 128).
Proof.
  intros Hb. apply Bool.eqb_prop. revert b Hb.
  apply (byte_forall (fun b => Bool.eqb (Z.land b 0x80 =? 0) (b <? 128))). reflexivity.
Qed.

Lemma land_low_bits b : Z.land b 0x7f = b mod 128.
Proof. change 0x7f with (Z.ones 7). by rewrite Z.land_ones. Qed.

Lemma land_shiftl_low a b n : 0 <= n -> 0 <= b < 2 ^ n -> Z.land (Z.shiftl a n) b = 0.
Proof.
  intros Hn Hb. apply Z.bits_inj'. intros i Hi.
  rewrite Z.land_spec, Z.bits_0, Z.shiftl_spec by done. apply andb_false_iff.
  destruct (decide (i < n)); [left; apply Z.testbit_neg_r; lia|right].
  destruct (decide (b = 0)) as [->|]; [apply Z.bits_0|].
  apply Z.bits_above_log2; [lia|]. assert (Z.log2 b < n) by (apply Z.log2_lt_pow2; lia). lia.
Qed.

(** Low bits added to a shifted value. *)
Lemma lor_shiftl_add a b n : 0 <= n -> 0 <= b < 2 ^ n -> Z.lor (Z.shiftl a n) b = a * 2 ^ n + b.
Proof.
  intros Hn Hb. rewrite <- Z.shiftl_mul_pow2 by done. pose proof (land_shiftl_low a b n Hn Hb).
  by rewrite <- Z.lxor_lor, <- Z.add_nocarry_lxor.
Qed.

Lemma of_be_bytes_snoc l b : of_be_bytes (l ++ [b]) = of_be_bytes l * 256 + b.
Proof. unfold of_be_bytes. by rewrite fold_left_app. Qed.

Lemma of_be_bytes_cons b l : of_be_bytes (b :: l) = b * 256 ^ zlen l + of_be_bytes l.
Proof.
  induction l as [|c l IH] using rev_ind; [unfold of_be_bytes, zlen; cbn; lia|].
  rewrite app_comm_cons, !of_be_bytes_snoc, IH, zlen_app. unfold zlen at 3. cbn [length].
  rewrite Z.pow_add_r by (unfold zlen; lia). change (256 ^ Z.of_nat 1) with 256. ring.
Qed.

Lemma of_be_bytes_zeros n l : of_be_bytes (replicate n 0 ++ l) = of_be_bytes l.
Proof. induction n as [|n IH]; [done|]. cbn [replicate app]. rewrite of_be_bytes_cons, IH. lia. Qed.

(** Records that the lengths in sight are not negative, then [zlen_lia]. *)
Ltac know_zlen l :=
  lazymatch goal with
  | _ : 0 <= zlen l |- _ => fail
  | |- _ => pose proof (zlen_nonneg l)
  end.

Ltac size_lia :=
  autorewrite with zlen in *;
  repeat match goal with
  | |- context [zlen ?l] => know_zlen l
  | _ : context [zlen ?l] |- _ => know_zlen l
  end; lia.
