(* ===== verification/Text.v ===== *)
(** Text operations of the Rust standard library that several components use,
    on the UTF-8 bytes of a string: splitting at an ASCII character, trimming,
    prefixes and suffixes, and [str::parse] for unsigned integers. An ASCII
    character is never part of the encoding of another one, so these act on
    bytes as they do on characters. *)

From stdpp Require Import base strings numbers option list.
From S2P Require Import Prelude.

#[local] Open Scope Z_scope.

(** ** Characters *)

(** [u8::is_ascii_digit] and its kin. *)
Definition is_ascii_digit (b : Z) : bool := (48 <=? b) && (b <=? 57).
Definition is_ascii_lowercase (b : Z) : bool := (97 <=? b) && (b <=? 122).
Definition is_ascii_uppercase (b : Z) : bool := (65 <=? b) && (b <=? 90).

Definition DOT : Z := 46.

(** ** Splitting and trimming *)

(** [str::split(sep)]: always at least one piece. *)
Fixpoint split (sep : Z) (s : list Z) : list (list Z) :=
  match s with
  | [] => [[]]
  | b :: s =>
      if b =? sep then [] :: split sep s
      else match split sep s with
           | piece :: pieces => (b :: piece) :: pieces
           | [] => [[b]]
           end
  end.

(** [slice.join(sep)]. *)
Fixpoint join (sep : Z) (pieces : list (list Z)) : list Z :=
  match pieces with
  | [] => []
  | [piece] => piece
  | piece :: pieces => piece ++ sep :: join sep pieces
  end.

(** [str::trim_start_matches(c)] and [str::trim_end_matches(c)]. *)
Fixpoint trim_start_matches (c : Z) (s : list Z) : list Z :=
  match s with
  | b :: s' => if b =? c then trim_start_matches c s' else s
  | [] => []
  end.

Definition trim_end_matches (c : Z) (s : list Z) : list Z :=
  reverse (trim_start_matches c (reverse s)).

(** [str::trim_end_matches] of a set of ASCII characters. *)
Fixpoint drop_where (f : Z -> bool) (s : list Z) : list Z :=
  match s with
  | b :: s' => if f b then drop_where f s' else s
  | [] => []
  end.

Definition trim_end_where (f : Z -> bool) (s : list Z) : list Z := reverse (drop_where f (reverse s)).

Lemma split_cons sep s : exists piece pieces, split sep s = piece :: pieces.
Proof.
  induction s as [|b s (p & ps & E)]; [by eexists _, _|]. cbn. rewrite E.
  destruct (b =? sep); by eexists _, _.
Qed.

Lemma split_none sep s : sep ∉ s -> split sep s = [s].
Proof.
  induction s as [|b s IH]; intros Hs; [done|]. apply not_elem_of_cons in Hs as [Hb Hs].
  cbn. destruct (Z.eqb_spec b sep); [congruence|]. by rewrite IH.
Qed.

Lemma split_app sep s t : sep ∉ s -> split sep (s ++ sep :: t) = s :: split sep t.
Proof.
  induction s as [|b s IH]; intros Hs; cbn.
  - by rewrite Z.eqb_refl.
  - apply not_elem_of_cons in Hs as [Hb Hs]. destruct (Z.eqb_spec b sep); [congruence|].
    by rewrite IH.
Qed.

(** Joining pieces without separators and splitting gives them back. *)
Lemma split_join sep pieces :
  pieces <> [] -> Forall (fun s => sep ∉ s) pieces -> split sep (join sep pieces) = pieces.
Proof.
  intros Hne Hps. induction Hps as [|s ps Hs Hps IH]; [done|]. destruct ps as [|s' ps].
  - by apply split_none.
  - change (join sep (s :: s' :: ps)) with (s ++ sep :: join sep (s' :: ps)).
    rewrite split_app by done. by rewrite IH.
Qed.

(** ** Numbers *)

(** The digits of [str::parse::<u32>] and the like after the sign: an
    accumulator that must stay below [max]. *)
Fixpoint parse_digits (max acc : Z) (s : list Z) : option Z :=
  match s with
  | [] => Some acc
  | b :: s =>
      if is_ascii_digit b then
        acc' ← checked max (acc * 10 + (b - 48)); parse_digits max acc' s
      else None
  end.

(** [str::parse] for an unsigned type with maximum [max]: an optional [+] and
    at least one digit. *)
Definition parse_unsigned (max : Z) (s : list Z) : option Z :=
  match s with
  | [] | [43] => None
  | 43 :: digits | digits => parse_digits max 0 digits
  end.

Lemma is_ascii_digit_48 d : 0 <= d < 10 -> is_ascii_digit (48 + d) = true.
Proof. intros Hd. unfold is_ascii_digit. rewrite andb_true_iff. lia. Qed.

Lemma dec_digits_digits fuel n acc :
  0 <= n -> Forall (fun b => is_ascii_digit b = true) acc ->
  Forall (fun b => is_ascii_digit b = true) (dec_digits fuel n acc).
Proof.
  revert n acc. induction fuel as [|fuel IH]; intros n acc Hn Ha; [done|]. cbn [dec_digits].
  assert (is_ascii_digit (48 + n mod 10) = true) by (by apply is_ascii_digit_48, Z.mod_pos_bound).
  destruct (n <? 10); [by constructor|]. apply IH; [apply Z.div_pos; lia|]. by constructor.
Qed.

Lemma parse_digits_app max s acc :
  forall t a, parse_digits max acc s = Some a ->
  parse_digits max acc (s ++ t) = parse_digits max a t.
Proof.
  revert acc. induction s as [|b s IH]; intros acc t a; cbn; [by intros [= ->]|].
  destruct (is_ascii_digit b); [|done]. destruct (checked _ _); [|done]. apply IH.
Qed.

Lemma parse_dec_digits max fuel n acc :
  0 <= n <= max -> n < 10 ^ Z.of_nat fuel ->
  parse_digits max 0 (dec_digits fuel n acc) = parse_digits max n acc.
Proof.
  revert n acc. induction fuel as [|fuel IH]; intros n acc Hn Hf.
  { cbn in Hf. replace n with 0 by lia. done. }
  cbn [dec_digits]. pose proof (Z.mod_pos_bound n 10 eq_refl).
  pose proof (Z.div_mod n 10). destruct (Z.ltb_spec n 10).
  - rewrite Z.mod_small by lia. cbn [parse_digits].
    rewrite is_ascii_digit_48 by lia.
    assert (checked max (0 * 10 + (48 + n - 48)) = Some n) as ->; [|done].
    apply checked_Some. unfold in_u. lia.
  - rewrite IH.
    + cbn [parse_digits].
      rewrite is_ascii_digit_48 by done.
      assert (checked max (n / 10 * 10 + (48 + n mod 10 - 48)) = Some n) as ->; [|done].
      apply checked_Some. unfold in_u. lia.
    + pose proof (Z.div_le_upper_bound n 10 max). lia.
    + rewrite Nat2Z.inj_succ, Z.pow_succ_r in Hf by lia. apply Z.div_lt_upper_bound; lia.
Qed.

Lemma dec_digits_acc fuel n acc : dec_digits fuel n acc = dec_digits fuel n [] ++ acc.
Proof.
  revert n acc. induction fuel as [|fuel IH]; intros n acc; [done|]. cbn [dec_digits].
  destruct (n <? 10); [done|]. rewrite IH, (IH _ [_]), <- app_assoc. done.
Qed.

Lemma show_dec_digits n : 0 <= n -> Forall (fun b => is_ascii_digit b = true) (show_dec n).
Proof. intros Hn. by apply dec_digits_digits. Qed.

Lemma show_dec_cons n : exists b s, show_dec n = b :: s.
Proof.
  assert (forall fuel, exists b s, dec_digits (S fuel) n [] = b :: s) as H; [|apply (H 19%nat)].
  intros fuel. cbn [dec_digits]. destruct (n <? 10); [by eexists _, _|].
  rewrite dec_digits_acc. destruct (dec_digits fuel (n / 10) []); by eexists _, _.
Qed.

(** Printing a number and parsing it gives it back. *)
Lemma parse_show_dec max n :
  0 <= n <= max -> max <= u64_max -> parse_unsigned max (show_dec n) = Some n.
Proof.
  intros Hn Hmax. unfold u64_max in Hmax.
  assert (parse_digits max 0 (show_dec n) = Some n) as E.
  { unfold show_dec. by rewrite parse_dec_digits by (cbn; lia). }
  destruct (show_dec_cons n) as (b & s & Es). pose proof (show_dec_digits n (proj1 Hn)) as Hd.
  rewrite Es in E, Hd |- *. inversion_clear Hd as [|? ? Hb _]. unfold is_ascii_digit in Hb.
  unfold parse_unsigned. destruct (decide (b = 43)) as [->|Hne]; [done|].
  destruct b as [|b|b]; try done.
  repeat (destruct b as [b|b|]; try (done || exact E)).
Qed.

Lemma digits_not_in c s :
  is_ascii_digit c = false -> Forall (fun b => is_ascii_digit b = true) s -> c ∉ s.
Proof. intros Hc Hs Hel. apply (proj1 (list.Forall_forall _ _) Hs) in Hel. congruence. Qed.

(** ** UTF-8 *)

Definition between (lo hi b : Z) : bool := (lo <=? b) && (b <=? hi).
Definition continuation (b : Z) : bool := between 0x80 0xbf b.

(** [std::str::from_utf8]: the well-formed sequences of one to four bytes. *)
Fixpoint utf8_valid (s : list Z) : bool :=
  match s with
  | [] => true
  | b0 :: s =>
      if between 0 0x7f b0 then utf8_valid s
      else
        match s with
        | [] => false
        | b1 :: s =>
            if between 0xc2 0xdf b0 then continuation b1 && utf8_valid s
            else
              match s with
              | [] => false
              | b2 :: s =>
                  if (((b0 =? 0xe0) && between 0xa0 0xbf b1)
                      || (between 0xe1 0xec b0 && continuation b1)
                      || ((b0 =? 0xed) && between 0x80 0x9f b1)
                      || (between 0xee 0xef b0 && continuation b1))
                  then continuation b2 && utf8_valid s
                  else
                    match s with
                    | [] => false
                    | b3 :: s =>
                        (((b0 =? 0xf0) && between 0x90 0xbf b1)
                         || (between 0xf1 0xf3 b0 && continuation b1)
                         || ((b0 =? 0xf4) && between 0x80 0x8f b1))
                        && continuation b2 && continuation b3 && utf8_valid s
                    end
              end
        end
  end.

Definition from_utf8 (s : list Z) : option (list Z) := if utf8_valid s then Some s else None.

(** [str::eq_ignore_ascii_case]. *)
Definition to_ascii_lowercase (b : Z) : Z := if is_ascii_uppercase b then b + 32 else b.
Definition eq_ignore_ascii_case (s t : list Z) : bool :=
  bool_decide (map to_ascii_lowercase s = map to_ascii_lowercase t).

(** [str::split_once(c)] and [str::strip_suffix]. *)
Fixpoint split_once (c : Z) (s : list Z) : option (list Z * list Z) :=
  match s with
  | [] => None
  | b :: s => if b =? c then Some ([], s) else ' (l, r) ← split_once c s; Some (b :: l, r)
  end.

Definition strip_suffix (s suffix : list Z) : option (list Z) :=
  if bool_decide (drop (length s - length suffix) s = suffix)
  then Some (take (length s - length suffix) s) else None.

(** [str::strip_prefix]. *)
Definition strip_prefix (s prefix : list Z) : option (list Z) :=
  if starts_with prefix s then Some (drop (length prefix) s) else None.

(** [to_string] of a signed integer. *)
Definition show_int (n : Z) : list Z := if n <? 0 then 45 :: show_dec (- n) else show_dec n.

(** ** Decoding with replacement *)

(** The next character of a byte string: whether its bytes are well formed,
    and how many they are; an ill-formed one ends before the first byte that
    cannot continue it. *)
Definition utf8_step (b0 : Z) (s : list Z) : bool * nat :=
  let three (ok : Z -> bool) :=
    match s with
    | b1 :: s =>
        if ok b1 then
          match s with b2 :: _ => if continuation b2 then (true, 3%nat) else (false, 2%nat) | [] => (false, 2%nat) end
        else (false, 1%nat)
    | [] => (false, 1%nat)
    end in
  let four (ok : Z -> bool) :=
    match s with
    | b1 :: s =>
        if ok b1 then
          match s with
          | b2 :: s =>
              if continuation b2 then
                match s with b3 :: _ => if continuation b3 then (true, 4%nat) else (false, 3%nat) | [] => (false, 3%nat) end
              else (false, 2%nat)
          | [] => (false, 2%nat)
          end
        else (false, 1%nat)
    | [] => (false, 1%nat)
    end in
  if between 0 0x7f b0 then (true, 1%nat)
  else if between 0xc2 0xdf b0 then
    match s with b1 :: _ => if continuation b1 then (true, 2%nat) else (false, 1%nat) | [] => (false, 1%nat) end
  else if b0 =? 0xe0 then three (between 0xa0 0xbf)
  else if b0 =? 0xed then three (between 0x80 0x9f)
  else if between 0xe1 0xef b0 then three continuation
  else if b0 =? 0xf0 then four (between 0x90 0xbf)
  else if between 0xf1 0xf3 b0 then four continuation
  else if b0 =? 0xf4 then four (between 0x80 0x8f)
  else (false, 1%nat).

(** U+FFFD, the replacement character. *)
Definition REPLACEMENT : list Z := [0xef; 0xbf; 0xbd].

Fixpoint lossy_loop (fuel : nat) (s : list Z) : list Z :=
  match fuel, s with
  | O, _ | _, [] => []
  | S fuel, b0 :: rest =>
      let '(valid, n) := utf8_step b0 rest in
      (if valid then take n s else REPLACEMENT) ++ lossy_loop fuel (drop n s)
  end.

(** [String::from_utf8_lossy]. *)
Definition from_utf8_lossy (s : list Z) : list Z := lossy_loop (length s) s.

(** ** White space *)

(** The length of the white-space character a string starts with, 0 if none
    ([char::is_whitespace], in UTF-8). *)
Definition white_start (s : list Z) : nat :=
  match s with
  | b0 :: s =>
      if between 9 13 b0 || (b0 =? 32) then 1%nat
      else
        match s with
        | b1 :: s =>
            if (b0 =? 0xc2) && ((b1 =? 0x85) || (b1 =? 0xa0)) then 2%nat
            else
              match s with
              | b2 :: _ =>
                  if ((b0 =? 0xe1) && (b1 =? 0x9a) && (b2 =? 0x80))
                     || ((b0 =? 0xe2) && (b1 =? 0x80)
                         && (between 0x80 0x8a b2 || (b2 =? 0xa8) || (b2 =? 0xa9) || (b2 =? 0xaf)))
                     || ((b0 =? 0xe2) && (b1 =? 0x81) && (b2 =? 0x9f))
                     || ((b0 =? 0xe3) && (b1 =? 0x80) && (b2 =? 0x80))
                  then 3%nat else 0%nat
              | [] => 0%nat
              end
        | [] => 0%nat
        end
  | [] => 0%nat
  end.

(** The same at the end of a string, for the reversed string. *)
Definition white_end (s : list Z) : nat :=
  match s with
  | b0 :: rest =>
      if Nat.eqb (white_start [b0]) 1 then 1%nat
      else
        match rest with
        | b1 :: rest =>
            if Nat.eqb (white_start [b1; b0]) 2 then 2%nat
            else match rest with b2 :: _ => if Nat.eqb (white_start [b2; b1; b0]) 3 then 3%nat else 0%nat | [] => 0%nat end
        | [] => 0%nat
        end
  | [] => 0%nat
  end.

Fixpoint strip_while (width : list Z -> nat) (fuel : nat) (s : list Z) : list Z :=
  match fuel with
  | O => s
  | S fuel => match width s with O => s | n => strip_while width fuel (drop n s) end
  end.

(** [str::trim_start], [str::trim_end] and [str::trim]. *)
Definition trim_start (s : list Z) : list Z := strip_while white_start (length s) s.
Definition trim_end (s : list Z) : list Z := reverse (strip_while white_end (length s) (reverse s)).
Definition trim (s : list Z) : list Z := trim_end (trim_start s).

Definition trim_matches (c : Z) (s : list Z) : list Z := trim_end_matches c (trim_start_matches c s).

(** ** Lines and searches *)

(** [str::lines]: pieces ended by a line feed, without it and without a
    carriage return before it; the last piece only if it is not empty. *)
Definition strip_cr (s : list Z) : list Z :=
  match strip_suffix s [13] with Some s => s | None => s end.

Fixpoint lines_of (pieces : list (list Z)) : list (list Z) :=
  match pieces with
  | [] => []
  | [last] => if bool_decide (last = []) then [] else [last]
  | piece :: pieces => strip_cr piece :: lines_of pieces
  end.

Definition lines (s : list Z) : list (list Z) := lines_of (split 10 s).

(** [str::find] of a string: what starts at its first occurrence. *)
Fixpoint find_from (needle s : list Z) : option (list Z) :=
  if starts_with needle s then Some s
  else match s with [] => None | _ :: s => find_from needle s end.

(** [str::contains] of a string. *)
Definition str_contains (needle s : list Z) : bool :=
  match find_from needle s with Some _ => true | None => false end.

(** [str::replace] of NUL by nothing. *)
Definition without_nul (s : list Z) : list Z := List.filter (fun b => negb (b =? 0)) s.

(** ** More numbers *)

Definition is_ascii_alphabetic (b : Z) : bool := is_ascii_lowercase b || is_ascii_uppercase b.
Definition is_ascii_alphanumeric (b : Z) : bool := is_ascii_alphabetic b || is_ascii_digit b.
Definition to_ascii_uppercase (b : Z) : Z := if is_ascii_lowercase b then b - 32 else b.

(** [char::to_digit(16)]. *)
Definition hex_digit (b : Z) : option Z :=
  if is_ascii_digit b then Some (b - 48)
  else if between 97 102 b then Some (b - 87)
  else if between 65 70 b then Some (b - 55)
  else None.

Definition is_ascii_hexdigit (b : Z) : bool := match hex_digit b with Some _ => true | None => false end.

Fixpoint parse_hex_digits (max acc : Z) (s : list Z) : option Z :=
  match s with
  | [] => Some acc
  | b :: s => d ← hex_digit b; acc' ← checked max (acc * 16 + d); parse_hex_digits max acc' s
  end.

(** [from_str_radix(s, 16)] for an unsigned type with maximum [max]. *)
Definition parse_hex (max : Z) (s : list Z) : option Z :=
  match s with
  | [] | [43] => None
  | 43 :: digits | digits => parse_hex_digits max 0 digits
  end.

(** [{:x}]: lower-case hexadecimal digits without leading zeros, of a byte. *)
Definition hex_char (d : Z) : Z := if d <? 10 then 48 + d else 87 + d.
Definition show_hex_byte (b : Z) : list Z :=
  if b <? 16 then [hex_char b] else [hex_char (b / 16); hex_char (b mod 16)].

(** [{:02x}] of a byte. *)
Definition show_hex_02 (byte : Z) : list Z := [hex_char (byte / 16); hex_char (byte mod 16)].

(** [str::parse] for a signed type: the digits after the sign stay within the
    bounds with that sign. *)
Definition parse_signed (min max : Z) (s : list Z) : option Z :=
  match s with
  | 45 :: [] => None
  | 45 :: digits => n ← parse_digits (- min) 0 digits; Some (- n)
  | _ => parse_unsigned max s
  end.

(** ** Facts about pieces of strings *)

Lemma from_utf8_Some s t : from_utf8 s = Some t <-> utf8_valid s = true /\ t = s.
Proof. unfold from_utf8. destruct (utf8_valid s); naive_solver. Qed.

Lemma starts_with_app p s : starts_with p (p ++ s) = true.
Proof. unfold starts_with. by rewrite take_app_length, bool_decide_true. Qed.

Lemma strip_suffix_Some s suffix base : strip_suffix s suffix = Some base <-> s = base ++ suffix.
Proof.
  unfold strip_suffix. case_bool_decide as E; split.
  - intros [= <-]. rewrite <- (take_drop (length s - length suffix) s) at 1. by rewrite E.
  - intros ->. f_equal. rewrite length_app, Nat.add_sub. apply take_app_length.
  - done.
  - intros ->. destruct E. rewrite length_app, Nat.add_sub. apply drop_app_length.
Qed.

Lemma split_once_app c s t : c ∉ s -> split_once c (s ++ c :: t) = Some (s, t).
Proof.
  induction s as [|b s IH]; intros Hs; cbn; [by rewrite Z.eqb_refl|].
  apply not_elem_of_cons in Hs as [Hb Hs]. destruct (Z.eqb_spec b c); [congruence|]. by rewrite IH.
Qed.

Lemma strip_prefix_app p s : strip_prefix (p ++ s) p = Some s.
Proof. unfold strip_prefix. by rewrite starts_with_app, drop_app_length. Qed.

(** Trimming removes nothing when the character is absent. *)
Lemma trim_start_matches_id c s : head s <> Some c -> trim_start_matches c s = s.
Proof. destruct s as [|b s]; [done|]. cbn. intros H. destruct (Z.eqb_spec b c); [congruence|done]. Qed.

Lemma trim_end_matches_id c s : last s <> Some c -> trim_end_matches c s = s.
Proof.
  intros H. unfold trim_end_matches. rewrite trim_start_matches_id; [apply reverse_involutive|].
  by rewrite head_reverse.
Qed.

Lemma not_in_head (c : Z) s : c ∉ s -> head s <> Some c.
Proof. intros H E. destruct s; [done|]. injection E as ->. apply H. left. Qed.

Lemma not_in_last (c : Z) s : c ∉ s -> last s <> Some c.
Proof. intros H E. by apply last_Some_elem_of in E. Qed.

Lemma trim_matches_id c s : c ∉ s -> trim_matches c s = s.
Proof.
  intros H. unfold trim_matches. rewrite trim_start_matches_id by by apply not_in_head.
  by apply trim_end_matches_id, not_in_last.
Qed.

(** ** Text without white space *)

Definition graphic (b : Z) : Prop := 33 <= b <= 126.

Lemma white_start_graphic b s : graphic b -> white_start (b :: s) = 0%nat.
Proof.
  unfold graphic, white_start, between. intros Hb.
  repeat (case_match; try done); lia.
Qed.

Lemma white_end_graphic b s : graphic b -> white_end (b :: s) = 0%nat.
Proof.
  unfold graphic, white_end, white_start, between. intros Hb.
  repeat (case_match; try done); try lia.
Qed.

Lemma strip_while_id width fuel s : width s = 0%nat -> strip_while width fuel s = s.
Proof. intros H. destruct fuel; cbn; [done|]. by rewrite H. Qed.

(** Trimming removes nothing from a string that starts and ends visibly. *)
Lemma trim_visible s :
  (forall b, head s = Some b -> graphic b) -> (forall b, last s = Some b -> graphic b) -> trim s = s.
Proof.
  intros Hh Hl. unfold trim, trim_end, trim_start. rewrite (strip_while_id white_start).
  - rewrite strip_while_id; [apply reverse_involutive|]. rewrite <- head_reverse in Hl.
    destruct (reverse s) as [|b r]; [done|]. by apply white_end_graphic, Hl.
  - destruct s as [|b s]; [done|]. by apply white_start_graphic, Hh.
Qed.

Lemma trim_graphic s : Forall graphic s -> trim s = s.
Proof.
  rewrite list.Forall_forall. intros Hs. apply trim_visible; intros b Hb; apply Hs.
  - destruct s; [done|]. injection Hb as ->. left.
  - by apply last_Some_elem_of.
Qed.

Lemma lossy_ascii s : Forall (fun b => 0 <= b < 128) s -> from_utf8_lossy s = s.
Proof.
  unfold from_utf8_lossy. induction 1 as [|b s Hb Hs IH]; [done|]. cbn [length lossy_loop].
  assert (utf8_step b s = (true, 1%nat)) as ->.
  { unfold utf8_step, between. destruct (Z.leb_spec 0 b), (Z.leb_spec b 127); (done || lia). }
  cbn [firstn skipn app]. by rewrite drop_0, IH.
Qed.

Lemma utf8_ascii s : Forall (fun b => 0 <= b < 128) s -> utf8_valid s = true.
Proof.
  induction 1 as [|b s Hb Hs IH]; [done|]. cbn [utf8_valid]. unfold between at 1.
  destruct (Z.leb_spec 0 b), (Z.leb_spec b 0x7f); (done || lia).
Qed.

(** *** Trimming around a separator *)

Definition separating (c : Z) (width : list Z -> nat) : Prop :=
  (forall s t, width (s ++ c :: t) = width s) /\ (forall s, (width s <= length s)%nat).

Lemma strip_while_separated c width s t f f' :
  separating c width -> (length s <= f)%nat -> (length s <= f')%nat ->
  strip_while width f (s ++ c :: t) = strip_while width f' s ++ c :: t.
Proof.
  intros [Hw Hl]. revert f f' s. induction f as [|f IH]; intros f' s Hf Hf'.
  { destruct s; [|cbn in Hf; lia]. rewrite (strip_while_id width f'); [done|]. specialize (Hl []). cbn in Hl. lia. }
  cbn [strip_while]. rewrite Hw. specialize (Hl s). destruct (width s) as [|n] eqn:E.
  { by rewrite strip_while_id. }
  destruct f' as [|f']; [lia|]. cbn [strip_while]. rewrite E, drop_app_le by lia.
  apply IH; rewrite length_drop; lia.
Qed.

Lemma white_start_separating c : graphic c -> separating c white_start.
Proof.
  intros Hc. unfold graphic in Hc. split.
  - intros s t. destruct s as [|b0 [|b1 [|b2 s]]]; cbn [app].
    + by apply white_start_graphic.
    + unfold white_start, between. repeat (case_match; try done); lia.
    + unfold white_start, between. repeat (case_match; try done); lia.
    + done.
  - intros s. unfold white_start. repeat case_match; cbn; lia.
Qed.

Lemma white_end_separating c : graphic c -> separating c white_end.
Proof.
  intros Hc. pose proof Hc as Hg. unfold graphic in Hc. split.
  - intros s t. destruct s as [|b0 [|b1 [|b2 s]]]; cbn [app]; [by apply white_end_graphic|..|done].
    + unfold white_end. case_match; [done|]. rewrite white_start_graphic by done. cbn [Nat.eqb].
      destruct t as [|b2 t]; [done|]. assert (white_start [b2; c; b0] <> 3)%nat as H3.
      { unfold white_start, between. repeat (case_match; try done); lia. }
      by apply Nat.eqb_neq in H3 as ->.
    + unfold white_end. case_match; [done|]. case_match; [done|]. by rewrite white_start_graphic.
  - intros s. unfold white_end. repeat case_match; cbn; lia.
Qed.

Lemma trim_start_separated c s t : graphic c -> trim_start (s ++ c :: t) = trim_start s ++ c :: t.
Proof.
  intros Hc. unfold trim_start. apply strip_while_separated; [by apply white_start_separating| |done].
  rewrite length_app. lia.
Qed.

Lemma trim_end_separated c s t : graphic c -> trim_end (s ++ c :: t) = s ++ c :: trim_end t.
Proof.
  intros Hc. unfold trim_end. rewrite reverse_app, reverse_cons, <- app_assoc. cbn [app].
  rewrite (strip_while_separated c _ _ _ _ (length t));
    [|by apply white_end_separating|rewrite length_app, length_reverse; cbn; lia|by rewrite length_reverse].
  rewrite reverse_app, reverse_cons, reverse_involutive, <- app_assoc. done.
Qed.

(** Trimming around a separator trims the two sides. *)
Lemma trim_separated c s t : graphic c -> trim (s ++ c :: t) = trim_start s ++ c :: trim_end t.
Proof. intros Hc. unfold trim. by rewrite trim_start_separated, trim_end_separated. Qed.

Lemma strip_while_suffix width fuel s : exists removed, s = removed ++ strip_while width fuel s.
Proof.
  revert s. induction fuel as [|fuel IH]; intros s; [by exists []|]. cbn [strip_while].
  destruct (width s) as [|n]; [by exists []|]. destruct (IH (drop (S n) s)) as [r E].
  exists (take (S n) s ++ r). by rewrite <- app_assoc, <- E, take_drop.
Qed.

Lemma trim_start_suffix s : exists removed, s = removed ++ trim_start s.
Proof. apply strip_while_suffix. Qed.

(** ** Finding pieces *)

Lemma starts_with_spec p s : starts_with p s = true <-> exists t, s = p ++ t.
Proof.
  split; [|intros [t ->]; apply starts_with_app]. unfold starts_with. rewrite bool_decide_eq_true. intros E.
  exists (drop (length p) s). by rewrite <- E at 1; rewrite take_drop.
Qed.

Lemma strip_prefix_Some s p t : strip_prefix s p = Some t <-> s = p ++ t.
Proof.
  split; [|intros ->; apply strip_prefix_app]. unfold strip_prefix, starts_with. case_bool_decide as E; [|done].
  intros [= <-]. by rewrite <- E at 1; rewrite take_drop.
Qed.

Lemma split_once_Some c s l r : split_once c s = Some (l, r) <-> s = l ++ c :: r /\ c ∉ l.
Proof.
  split; [|intros [-> Hc]; by apply split_once_app]. revert l. induction s as [|b s IH]; intros l; cbn; [done|].
  destruct (Z.eqb_spec b c) as [->|Hb]; [intros [= <- <-]; split; [done|apply not_elem_of_nil]|].
  destruct (split_once c s) as [[l' r']|]; cbn; [|done]. intros [= <- <-].
  destruct (IH l' eq_refl) as [-> Hc]. split; [done|]. apply not_elem_of_cons. by split.
Qed.

Lemma split_once_None c s : split_once c s = None <-> c ∉ s.
Proof.
  split.
  - intros H Hin. apply list_elem_of_split in Hin as (l & r & ->). revert H. induction l as [|b l IH]; cbn.
    + by rewrite Z.eqb_refl.
    + destruct (b =? c); [done|]. by destruct (split_once c _) as [[]|].
  - induction s as [|b s IH]; [done|]. rewrite not_elem_of_cons. intros [Hb Hs]. cbn.
    destruct (Z.eqb_spec b c); [congruence|]. by rewrite IH.
Qed.

Lemma split_spec c s pieces : split c s = pieces <-> s = join c pieces /\ pieces <> [] /\ Forall (fun p => c ∉ p) pieces.
Proof.
  split; [|intros (-> & ? & ?); by apply split_join]. revert pieces. induction s as [|b s IH]; intros pieces <-; cbn.
  { split_and!; [done|done|]. constructor; [apply not_elem_of_nil|constructor]. }
  destruct (IH _ eq_refl) as (E & Hne & Hp). destruct (Z.eqb_spec b c) as [->|Hb].
  - destruct (split c s) as [|p ps]; [done|]. split_and!; [by rewrite E at 1|done|]. constructor; [apply not_elem_of_nil|done].
  - destruct (split c s) as [|p ps]; [done|]. split_and!; [|done|].
    + rewrite E at 1. by destruct ps.
    + inversion_clear Hp. constructor; [|done]. apply not_elem_of_cons. by split.
Qed.
