(* ===== verification/Ordered.v ===== *)
(** Ordered containers of the Rust standard library: the lexicographic order
    of [Vec<u32>], [String] and the like, and the iteration of a [BTreeMap] in
    the order of its keys. The map itself is stdpp's [gmap]. *)

From stdpp Require Import base gmap list sorting numbers option.
From S2P Require Import Prelude.

#[local] Open Scope Z_scope.

(** ** Lexicographic order *)

(** [Ord::cmp] of slices of integers. *)
Fixpoint lex_cmp (s t : list Z) : comparison :=
  match s, t with
  | [], [] => Eq
  | [], _ :: _ => Lt
  | _ :: _, [] => Gt
  | a :: s, b :: t => match a ?= b with Eq => lex_cmp s t | c => c end
  end.

Definition lex_le (s t : list Z) : Prop := lex_cmp s t <> Gt.
Definition lex_lt (s t : list Z) : Prop := lex_cmp s t = Lt.

#[global] Instance lex_le_dec s t : Decision (lex_le s t).
Proof. unfold lex_le. destruct (lex_cmp s t); first [left; congruence | right; congruence]. Defined.
#[global] Instance lex_lt_dec s t : Decision (lex_lt s t).
Proof. unfold lex_lt. destruct (lex_cmp s t); first [left; congruence | right; congruence]. Defined.

Lemma lex_cmp_refl s : lex_cmp s s = Eq.
Proof. induction s as [|a s IH]; [done|]. cbn. by rewrite Z.compare_refl. Qed.

Lemma lex_cmp_eq s t : lex_cmp s t = Eq <-> s = t.
Proof.
  split; [|intros ->; apply lex_cmp_refl]. revert t.
  induction s as [|a s IH]; intros [|b t]; cbn; try done.
  destruct (Z.compare_spec a b) as [->| |]; [|done..]. intros H. f_equal. by apply IH.
Qed.

Lemma lex_cmp_antisym s t : lex_cmp t s = CompOpp (lex_cmp s t).
Proof.
  revert t. induction s as [|a s IH]; intros [|b t]; cbn; try done.
  rewrite (Z.compare_antisym a b), IH. by destruct (a ?= b).
Qed.

Lemma lex_lt_trans s t u : lex_lt s t -> lex_lt t u -> lex_lt s u.
Proof.
  unfold lex_lt. revert t u. induction s as [|a s IH]; intros [|b t] [|c u]; cbn; try done.
  destruct (Z.compare_spec a b), (Z.compare_spec b c); intros H1 H2; try done; subst.
  - rewrite Z.compare_refl. eauto.
  - by apply Z.compare_lt_iff in H0 as ->.
  - by apply Z.compare_lt_iff in H as ->.
  - assert (a < c) as Hac by lia. by apply Z.compare_lt_iff in Hac as ->.
Qed.

Lemma lex_le_lt s t : lex_le s t <-> s = t \/ lex_lt s t.
Proof.
  unfold lex_le, lex_lt. rewrite <- lex_cmp_eq. destruct (lex_cmp s t); intuition congruence.
Qed.

Lemma lex_lt_irrefl s : ~ lex_lt s s.
Proof. unfold lex_lt. by rewrite lex_cmp_refl. Qed.

Lemma lex_not_lt s t : ~ lex_lt s t <-> lex_le t s.
Proof.
  unfold lex_lt, lex_le. rewrite (lex_cmp_antisym s t). destruct (lex_cmp s t); naive_solver.
Qed.

#[global] Instance lex_le_preorder : PreOrder lex_le.
Proof.
  split.
  - intros s. apply lex_le_lt. by left.
  - intros s t u. rewrite !lex_le_lt. intros [->|H1] [->|H2]; eauto using lex_lt_trans.
Qed.

#[global] Instance lex_le_total : Total lex_le.
Proof.
  intros s t. unfold lex_le. rewrite (lex_cmp_antisym s t).
  destruct (lex_cmp s t); [left|left|right]; done.
Qed.

#[global] Instance lex_le_antisymm : AntiSymm (=) lex_le.
Proof.
  intros s t. rewrite !lex_le_lt. intros [?|H1] [?|H2]; auto.
  destruct (lex_lt_irrefl s). eauto using lex_lt_trans.
Qed.

(** A proper extension is greater. *)
Lemma lex_lt_app s t : t <> [] -> lex_lt s (s ++ t).
Proof.
  intros Ht. induction s as [|a s IH]; [by destruct t|]. unfold lex_lt in *. cbn.
  by rewrite Z.compare_refl.
Qed.

(** ** Iteration in key order *)

Section Entries.
Context {V : Type}.

Definition entry_le : relation (list Z * V) := fun p q => lex_le p.1 q.1.

#[local] Instance entry_le_dec p q : Decision (entry_le p q).
Proof. unfold entry_le. apply _. Defined.
#[local] Instance entry_le_total : Total entry_le.
Proof. intros p q. apply lex_le_total. Qed.
#[local] Instance entry_le_trans : Transitive entry_le.
Proof. intros p q r. unfold entry_le. apply transitivity. Qed.

(** [BTreeMap::iter] and [BTreeMap::values]. *)
Definition btree_iter (m : gmap (list Z) V) : list (list Z * V) := merge_sort entry_le (map_to_list m).
Definition btree_values (m : gmap (list Z) V) : list V := map snd (btree_iter m).

Lemma elem_of_btree_iter m k v : (k, v) ∈ btree_iter m <-> m !! k = Some v.
Proof. unfold btree_iter. rewrite merge_sort_Permutation. apply elem_of_map_to_list. Qed.

Lemma elem_of_btree_values m v : v ∈ btree_values m <-> exists k, m !! k = Some v.
Proof.
  unfold btree_values. rewrite list_elem_of_fmap. split.
  - intros ([k w] & -> & H). exists k. by apply elem_of_btree_iter.
  - intros (k & H). exists (k, v). split; [done|]. by apply elem_of_btree_iter.
Qed.

Lemma btree_iter_sorted m : StronglySorted entry_le (btree_iter m).
Proof. apply StronglySorted_merge_sort; apply _. Qed.

Lemma length_btree_iter m : length (btree_iter m) = size m.
Proof. unfold btree_iter. by rewrite merge_sort_Permutation, length_map_to_list. Qed.

Lemma btree_values_nil m : btree_values m = [] <-> m = ∅.
Proof.
  unfold btree_values. rewrite <- length_zero_iff_nil, length_map, length_btree_iter.
  apply map_size_empty_iff.
Qed.
End Entries.
