(* ===== verification/Effects.v ===== *)
(** Stateful, fallible code: the state and error monad of the components that
    borrow something mutably, and rules to reason about it.

    A computation [EM S E A] works on the state [S] it borrows: it returns a
    result, with panics as [Panicked], and the state it leaves, which an early
    return keeps. *)

From stdpp Require Import base list strings numbers option.
From S2P Require Import Prelude.

#[local] Open Scope Z_scope.

(** ** The monad *)

Definition EM (S E A : Type) : Type := S -> Result (Fault E) A * S.

Definition eret {S E A} (a : A) : EM S E A := fun s => (Ok a, s).
Definition ethrow {S E A} (e : E) : EM S E A := fun s => (fail e, s).
Definition epanic {S E A} : EM S E A := fun s => (Err Panicked, s).
Definition eget {S E} : EM S E S := fun s => (Ok s, s).

Definition ebind {S E A B} (m : EM S E A) (k : A -> EM S E B) : EM S E B := fun s =>
  match m s with
  | (Ok a, s) => k a s
  | (Err e, s) => (Err e, s)
  end.

Notation "'let!' x := c 'in' k" := (ebind c (fun x => k))
  (at level 10, x name, c at level 100, k at level 200,
   format "'[v' 'let!'  x  :=  c  'in' '/' k ']'") : rust_scope.
Notation "m ;! k" := (ebind m (fun _ => k))
  (at level 60, right associativity, format "'[v' m  ;! '/' k ']'") : rust_scope.

(** A callee's error without the [?]. *)
Definition etry {S E F A} (m : EM S E A) : EM S F (Result E A) := fun s =>
  match m s with
  | (Ok a, s) => (Ok (Ok a), s)
  | (Err (Raised e), s) => (Ok (Err e), s)
  | (Err Panicked, s) => (Err Panicked, s)
  end.

Definition eresult {S E A} (r : Result E A) : EM S E A := fun s => (raising r, s).

(** A callee's result or error, converted, that may be a panic. *)
Definition efault {S E F A} (f : E -> F) (r : Result (Fault E) A) : EM S F A := fun s => (map_raised f r, s).

(** [map_err] of a computation. *)
Definition emap_err {S E F A} (f : E -> F) (m : EM S E A) : EM S F A := fun s =>
  let '(r, s) := m s in (map_raised f r, s).

(** [for a in l { body }]. *)
Section Loop.
Context {S E A : Type}.
Variable body : A -> EM S E unit.

Fixpoint efor (l : list A) : EM S E unit :=
  match l with
  | [] => eret tt
  | a :: l => body a ;! efor l
  end.
End Loop.

(** ** Reasoning about computations *)

Definition spec {S E A} (m : EM S E A) (s : S) (Q : A -> S -> Prop) (X : Fault E -> S -> Prop) : Prop :=
  match m s with
  | (Ok a, s) => Q a s
  | (Err e, s) => X e s
  end.

Section Spec.
Context {S E : Type}.

Lemma spec_ret {A} (a : A) (s : S) (Q : A -> S -> Prop) (X : Fault E -> S -> Prop) :
  Q a s -> spec (eret a) s Q X.
Proof. done. Qed.

Lemma spec_throw {A} (e : E) (s : S) (Q : A -> S -> Prop) X :
  X (Raised e) s -> spec (ethrow e) s Q X.
Proof. done. Qed.

Lemma spec_bind {A B} (m : EM S E A) (k : A -> EM S E B) s Q X :
  spec m s (fun a s' => spec (k a) s' Q X) X -> spec (ebind m k) s Q X.
Proof. unfold spec, ebind. by destruct (m s) as [[a|e] s']. Qed.

Lemma spec_mono {A} (m : EM S E A) s (Q Q' : A -> S -> Prop) (X X' : Fault E -> S -> Prop) :
  spec m s Q X -> (forall a s', Q a s' -> Q' a s') -> (forall e s', X e s' -> X' e s') ->
  spec m s Q' X'.
Proof. unfold spec. destruct (m s) as [[a|e] s']; auto. Qed.

Lemma spec_result {A} (r : Result E A) s (Q : A -> S -> Prop) (X : Fault E -> S -> Prop) :
  (forall a, r = Ok a -> Q a s) -> (forall e, r = Err e -> X (Raised e) s) ->
  spec (eresult r) s Q X.
Proof. unfold spec, eresult. destruct r; cbn; auto. Qed.
End Spec.

Definition emodify {S E} (f : S -> S) : EM S E unit := fun s => (Ok tt, f s).

(** [if b { return Err(e) }]. *)
Definition ecase {S E A} (b : bool) (e : E) (k : EM S E A) : EM S E A := if b then ethrow e else k.

(** ** Runs that succeed *)

Lemma run_bind {S E A B} (m : EM S E A) (k : A -> EM S E B) s a s' r :
  m s = (Ok a, s') -> k a s' = r -> ebind m k s = r.
Proof. unfold ebind. by intros -> ->. Qed.

Lemma run_bind_inv {S E A B} (m : EM S E A) (k : A -> EM S E B) s b s'' :
  ebind m k s = (Ok b, s'') -> exists a s', m s = (Ok a, s') /\ k a s' = (Ok b, s'').
Proof. unfold ebind. destruct (m s) as [[a|x] s'] eqn:E1; [|done]. eauto. Qed.

Lemma run_ecase_inv {S E A} b (e : E) (k : EM S E A) s a s' :
  ecase b e k s = (Ok a, s') -> b = false /\ k s = (Ok a, s').
Proof. unfold ecase. by destruct b. Qed.

Lemma run_ecase {S E A} b (e : E) (k : EM S E A) s r :
  b = false -> k s = r -> ecase b e k s = r.
Proof. by intros -> <-. Qed.

Lemma run_result_inv {S E A} (r : Result E A) (s s' : S) a :
  eresult r s = (Ok a, s') -> r = Ok a /\ s' = s.
Proof. unfold eresult. destruct r; cbn; by intros [= <- <-]. Qed.

Lemma run_ret_inv {S E A} (a b : A) (s s' : S) : eret (E := E) a s = (Ok b, s') -> b = a /\ s' = s.
Proof. by intros [= -> ->]. Qed.

Lemma run_efault_inv {S E F A} (f : E -> F) (r : Result (Fault E) A) (s s' : S) a :
  efault f r s = (Ok a, s') -> r = Ok a /\ s' = s.
Proof. unfold efault. intros [= H <-]. by apply map_raised_Ok in H. Qed.

Lemma run_emap_err_inv {S E F A} (f : E -> F) (m : EM S E A) s s' a :
  emap_err f m s = (Ok a, s') -> m s = (Ok a, s').
Proof. unfold emap_err. destruct (m s) as [r k]. intros [= H <-]. by apply map_raised_Ok in H as ->. Qed.

(** Splits a successful run into the runs of its parts. *)
Ltac inv_run H :=
  repeat (cbn beta iota in H;
    match type of H with
    | ebind _ _ _ = (Ok _, _) =>
        let x := fresh "x" in let s := fresh "s" in let Hx := fresh "Hx" in
        apply run_bind_inv in H as (x & s & Hx & H); inv_run Hx
    | ecase _ _ _ _ = (Ok _, _) =>
        let Hb := fresh "Hb" in apply run_ecase_inv in H as [Hb H]
    | eresult _ _ = (Ok _, _) =>
        let Hs := fresh "Hs" in apply run_result_inv in H as [H Hs]; subst
    | efault _ _ _ = (Ok _, _) =>
        let Hs := fresh "Hs" in apply run_efault_inv in H as [H Hs]; subst
    | emap_err _ _ _ = (Ok _, _) => apply run_emap_err_inv in H; inv_run H
    | eret _ _ = (Ok _, _) =>
        let Hs := fresh "Hs" in apply run_ret_inv in H as [H Hs]; subst
    | ethrow _ _ = (Ok _, _) => discriminate H
    | emodify _ _ = (Ok _, _) => injection H as H; subst
    end).

Lemma efor_ext {S E A} (f g : A -> EM S E unit) l : (forall a, f a = g a) -> efor f l = efor g l.
Proof. intros Hfg. induction l as [|a l IH]; cbn [efor]; [done|]. by rewrite Hfg, IH. Qed.

(** ** Runs forwards *)

Lemma run_efault {S E F A} (f : E -> F) (r : Result (Fault E) A) (s : S) a :
  r = Ok a -> efault f r s = (Ok a, s).
Proof. by intros ->. Qed.

Lemma run_emap_err {S E F A} (f : E -> F) (m : EM S E A) s s' a :
  m s = (Ok a, s') -> emap_err f m s = (Ok a, s').
Proof. unfold emap_err. by intros ->. Qed.

Lemma run_etry {S E F A} (m : EM S E A) s s' a : m s = (Ok a, s') -> etry (F := F) m s = (Ok (Ok a), s').
Proof. unfold etry. by intros ->. Qed.

Lemma run_eresult {S E A} (r : Result E A) (s : S) a : r = Ok a -> eresult r s = (Ok a, s).
Proof. by intros ->. Qed.

(** What is known of a run includes that it is this run. *)
Lemma spec_self {S E A} (m : EM S E A) s (Q : A -> S -> Prop) (X : Fault E -> S -> Prop) :
  spec m s Q X -> spec m s (fun a s' => m s = (Ok a, s') /\ Q a s') X.
Proof. unfold spec. destruct (m s) as [[a|e] s']; naive_solver. Qed.

Lemma spec_run {S E A} (m : EM S E A) s (Q : A -> S -> Prop) (X : Fault E -> S -> Prop) a s' :
  spec m s Q X -> m s = (Ok a, s') -> Q a s'.
Proof. unfold spec. intros H Em. by rewrite Em in H. Qed.

Lemma spec_efault {S E F A} (f : E -> F) (r : Result (Fault E) A) (s : S) (Q : A -> S -> Prop) (X : Fault F -> S -> Prop) :
  (forall a, r = Ok a -> Q a s) -> (forall e, X e s) -> spec (efault f r) s Q X.
Proof. unfold spec, efault. destruct r; cbn; auto. Qed.

Section SpecMore.
Context {S E F : Type}.

Lemma spec_ecase {A} b (e : E) (k : EM S E A) s Q X :
  (b = true -> X (Raised e) s) -> (b = false -> spec k s Q X) -> spec (ecase b e k) s Q X.
Proof. unfold ecase. destruct b; intros HX HQ; [by apply spec_throw, HX|by apply HQ]. Qed.

Lemma spec_emap_err {A} (f : E -> F) (m : EM S E A) s (Q : A -> S -> Prop) (X : Fault F -> S -> Prop) :
  spec m s Q (fun e s' => forall e', (e = Panicked -> e' = Panicked) -> X e' s') -> spec (emap_err f m) s Q X.
Proof.
  unfold spec, emap_err. destruct (m s) as [[a|[e|]] s']; cbn; [done|intros H; by apply H|intros H; by apply H].
Qed.

(** A caller that handles the callee's error itself. *)
Lemma spec_etry {A} (m : EM S E A) s (Q : Result E A -> S -> Prop) (X : Fault F -> S -> Prop) :
  spec m s (fun a => Q (Ok a)) (fun e s' => match e with Raised e => Q (Err e) s' | Panicked => X Panicked s' end) ->
  spec (etry m) s Q X.
Proof. unfold spec, etry. by destruct (m s) as [[a|[e|]] s']. Qed.
End SpecMore.

(** ** Computations that do not panic and move the state along a relation *)

Definition never_panics {S E A} (m : EM S E A) : Prop := forall s, panics (m s).1 = false.

Definition steady {S E A} (R : relation S) (m : EM S E A) : Prop := forall s, panics (m s).1 = false /\ R s (m s).2.

Section Steady.
Context {S E : Type} {R : relation S} `{!PreOrder R}.

Lemma steady_bind {A B} (m : EM S E A) (k : A -> EM S E B) :
  steady R m -> (forall a, steady R (k a)) -> steady R (ebind m k).
Proof.
  intros Hm Hk s. specialize (Hm s). unfold ebind. destruct (m s) as [[a|[e|]] s']; cbn in *; [|done|naive_solver].
  destruct (Hk a s') as [Hp HR]. split; [done|]. by etrans; [apply Hm|].
Qed.

Lemma steady_case {A} b (e : E) (k : EM S E A) : steady R k -> steady R (ecase b e k).
Proof. intros Hk s. destruct b; [done|apply Hk]. Qed.

Lemma steady_efor {A} (body : A -> EM S E unit) l :
  (forall a, a ∈ l -> steady R (body a)) -> steady R (efor body l).
Proof.
  induction l as [|a l IH]; intros Hb; [done|]. cbn [efor].
  apply steady_bind; [apply Hb; left|]. intros _. apply IH. intros b Hin. apply Hb. by right.
Qed.

Lemma steady_result {A} (r : Result E A) : steady R (eresult r).
Proof. intros s. split; [apply panics_raising|done]. Qed.

Lemma steady_ret {A} (a : A) : steady R (eret (E := E) a).
Proof. done. Qed.
End Steady.

Create HintDb calm.
#[export] Hint Extern 1 (steady _ (ebind _ _)) => apply steady_bind; [|intros ?] : calm.
#[export] Hint Extern 1 (steady _ (ecase _ _ _)) => apply steady_case : calm.
#[export] Hint Extern 1 (steady _ (efor _ _)) => apply steady_efor; intros ? ? : calm.
#[export] Hint Extern 1 (steady _ (eresult _)) => apply steady_result : calm.
#[export] Hint Extern 1 (steady _ (eret _)) => apply steady_ret : calm.
