(* ===== verification/Bits.v ===== *)
(** Most-significant-bit-first addressing of packed one-bit rows, shared by
    the Brother row mirroring of the protocol planner and by the packing of
    monochrome rasters. *)

From stdpp Require Import base list sets numbers.
From S2P Require Import Prelude.

#[local] Open Scope Z_scope.

(** [0x80 >> (i % 8)]. *)
Definition msb_mask (i : nat) : Z := Z.shiftr 128 (Z.of_nat (i mod 8)).

(** [row[i / 8] & (0x80 >> (i % 8)) != 0]. *)
Definition get_bit (row : list Z) (i : nat) : bool :=
  negb (Z.land (nth (i / 8) row 0) (msb_mask i) =? 0).

(** [row[i / 8] |= 0x80 >> (i % 8)]. *)
Definition or_bit (i : nat) (row : list Z) : list Z :=
  alter (fun b => Z.lor b (msb_mask i)) (i / 8)%nat row.

(** A loop [for i in ixs { if test(i) { row[dst(i)] |= ... } }]. *)
Definition or_bits {A} (test : A -> bool) (dst : A -> nat) (ixs : list A) (row : list Z) : list Z :=
  fold_left (fun row i => if test i then or_bit (dst i) row else row) ixs row.

Lemma mod8_lt i : (i mod 8 < 8)%nat.
Proof. apply Nat.mod_upper_bound. lia. Qed.

Lemma msb_mask_pow i : msb_mask i = 2 ^ (7 - Z.of_nat (i mod 8)).
Proof.
  unfold msb_mask. pose proof (mod8_lt i) as H. revert H.
  generalize (i mod 8)%nat. intros k Hk. do 8 (destruct k as [|k]; [reflexivity|]). lia.
Qed.

Lemma msb_mask_ok i : 0 <= msb_mask i < 256.
Proof.
  unfold msb_mask. pose proof (mod8_lt i) as H. revert H.
  generalize (i mod 8)%nat. intros k Hk. do 8 (destruct k as [|k]; [vm_compute; split; congruence|]). lia.
Qed.

Lemma land_pow2_testbit a n : 0 <= n -> negb (Z.land a (2 ^ n) =? 0) = Z.testbit a n.
Proof.
  intros Hn. destruct (Z.eqb_spec (Z.land a (2 ^ n)) 0) as [E|E]; simpl.
  - apply (f_equal (fun z => Z.testbit z n)) in E.
    rewrite Z.land_spec, Z.pow2_bits_true, Z.bits_0, andb_true_r in E by done. done.
  - apply eq_sym, not_false_is_true. intros F. apply E, Z.bits_inj'. intros m Hm.
    rewrite Z.land_spec, Z.bits_0.
    destruct (decide (m = n)) as [->|Hne]; [by rewrite F|].
    rewrite Z.pow2_bits_false by done. apply andb_false_r.
Qed.

Lemma get_bit_testbit row i :
  get_bit row i = Z.testbit (nth (i / 8) row 0) (7 - Z.of_nat (i mod 8)).
Proof.
  unfold get_bit. rewrite msb_mask_pow. apply land_pow2_testbit.
  pose proof (mod8_lt i). lia.
Qed.

Lemma length_or_bit i row : length (or_bit i row) = length row.
Proof. apply length_alter. Qed.

Lemma byte_ok_lor a b : byte_ok a -> byte_ok b -> byte_ok (Z.lor a b).
Proof.
  unfold byte_ok. intros Ha Hb. split; [apply Z.lor_nonneg; lia|].
  destruct (decide (Z.lor a b = 0)) as [->|]; [lia|].
  assert (0 <= Z.lor a b) by (apply Z.lor_nonneg; lia).
  change 256 with (2 ^ 8). apply Z.log2_lt_pow2; [lia|].
  rewrite Z.log2_lor by lia.
  apply Z.max_lub_lt.
  - destruct (decide (a = 0)) as [->|]; [reflexivity|]. apply Z.log2_lt_pow2; lia.
  - destruct (decide (b = 0)) as [->|]; [reflexivity|]. apply Z.log2_lt_pow2; lia.
Qed.

Lemma bytes_ok_or_bit i row : bytes_ok row -> bytes_ok (or_bit i row).
Proof.
  intros H. apply Forall_alter; [done|]. intros b Hb.
  intros. apply byte_ok_lor; [done|]. apply msb_mask_ok.
Qed.

Lemma nth_alter (f : Z -> Z) (row : list Z) (i j : nat) :
  nth j (alter f i row) 0 =
  if decide (i = j /\ (i < length row)%nat) then f (nth j row 0) else nth j row 0.
Proof.
  revert i j. induction row as [|x row IH]; intros i j.
  - destruct (decide _) as [[_ H]|_]; [simpl in H; lia|]. by destruct i, j.
  - destruct i as [|i], j as [|j];
      [| | |change (alter f (S i) (x :: row)) with (x :: alter f i row); cbn [nth];
            rewrite IH];
      repeat destruct (decide _) as [[? ?]|?]; simpl in *; try done; try lia;
      exfalso; naive_solver lia.
Qed.

Lemma bit_index_inj (i j : nat) : (i / 8 = j / 8 -> i mod 8 = j mod 8 -> i = j)%nat.
Proof. intros. rewrite (Nat.div_mod_eq i 8), (Nat.div_mod_eq j 8). lia. Qed.

Lemma bit_byte_lt i n : (i < 8 * n)%nat -> (i / 8 < n)%nat.
Proof. intros. apply Nat.Div0.div_lt_upper_bound. lia. Qed.

Lemma get_or_bit row i j :
  (i < 8 * length row)%nat ->
  get_bit (or_bit i row) j = get_bit row j || (i =? j)%nat.
Proof.
  intros Hi. rewrite !get_bit_testbit. unfold or_bit. rewrite nth_alter.
  pose proof (bit_byte_lt _ _ Hi). pose proof (mod8_lt i). pose proof (mod8_lt j).
  case_decide as D.
  - destruct D as [D _]. rewrite Z.lor_spec, msb_mask_pow. f_equal.
    destruct (Nat.eqb_spec i j) as [->|Hne].
    + apply Z.pow2_bits_true. lia.
    + apply Z.pow2_bits_false. intros E. apply Hne, bit_index_inj; lia.
  - destruct (Nat.eqb_spec i j) as [->|Hne]; [naive_solver|]. by rewrite orb_false_r.
Qed.

Lemma or_bits_cons {A} (test : A -> bool) dst i ixs row :
  or_bits test dst (i :: ixs) row =
  or_bits test dst ixs (if test i then or_bit (dst i) row else row).
Proof. done. Qed.

Lemma length_or_bits {A} (test : A -> bool) dst ixs row : length (or_bits test dst ixs row) = length row.
Proof.
  revert row. induction ixs as [|i ixs IH]; intros row; [done|].
  rewrite or_bits_cons, IH. destruct (test i); [apply length_or_bit|done].
Qed.

Lemma bytes_ok_or_bits {A} (test : A -> bool) dst ixs row :
  bytes_ok row -> bytes_ok (or_bits test dst ixs row).
Proof.
  revert row. induction ixs as [|i ixs IH]; intros row H; [done|]. rewrite or_bits_cons. apply IH.
  destruct (test i); [by apply bytes_ok_or_bit|done].
Qed.

(** What the whole loop computes, bit by bit. *)
Lemma get_or_bits {A} (test : A -> bool) dst ixs row j :
  (forall i, i ∈ ixs -> (dst i < 8 * length row)%nat) ->
  get_bit (or_bits test dst ixs row) j =
  get_bit row j || existsb (fun i => test i && (dst i =? j)%nat) ixs.
Proof.
  revert row. induction ixs as [|i ixs IH]; intros row Hdst.
  - by rewrite orb_false_r.
  - rewrite or_bits_cons, IH; cbn [existsb].
    + destruct (test i); simpl; [|done].
      rewrite get_or_bit by (apply Hdst; set_solver). by rewrite orb_assoc.
    + intros k Hk. assert (dst k < 8 * length row)%nat by (apply Hdst; set_solver).
      destruct (test i); [by rewrite length_or_bit|done].
Qed.

Lemma get_bit_replicate_zero n j : get_bit (replicate n 0) j = false.
Proof.
  rewrite get_bit_testbit. rewrite nth_lookup.
  destruct (replicate n 0 !! (j / 8)%nat) eqn:E; simpl; [|apply Z.bits_0].
  apply lookup_replicate in E as [-> _]. apply Z.bits_0.
Qed.

(** A byte is determined by its eight bits. *)
Lemma byte_ext a b :
  byte_ok a -> byte_ok b ->
  (forall k, 0 <= k < 8 -> Z.testbit a k = Z.testbit b k) -> a = b.
Proof.
  unfold byte_ok. intros Ha Hb H. apply Z.bits_inj'. intros m Hm.
  destruct (decide (m < 8)); [apply H; lia|].
  rewrite <- (Z.mod_small a (2 ^ 8)), <- (Z.mod_small b (2 ^ 8)) by lia.
  rewrite !Z.mod_pow2_bits_high by lia. done.
Qed.

(** Rows of the same length are determined by their bits. *)
Lemma row_bits_ext a b :
  bytes_ok a -> bytes_ok b -> length a = length b ->
  (forall i, (i < 8 * length a)%nat -> get_bit a i = get_bit b i) -> a = b.
Proof.
  intros Ha Hb Hlen H. apply list_eq_same_length with (length a); [done|done|].
  intros k x y Hk Hx Hy.
  apply byte_ext.
  - by eapply (Forall_lookup_1 byte_ok a).
  - by eapply (Forall_lookup_1 byte_ok b).
  - intros m Hm. specialize (H (k * 8 + Z.to_nat (7 - m))%nat ltac:(lia)).
    rewrite !get_bit_testbit in H.
    replace ((k * 8 + Z.to_nat (7 - m)) / 8)%nat with k in H.
    2: { apply Nat.div_unique with (Z.to_nat (7 - m)); lia. }
    replace ((k * 8 + Z.to_nat (7 - m)) mod 8)%nat with (Z.to_nat (7 - m)) in H.
    2: { apply Nat.mod_unique with k; lia. }
    rewrite !nth_lookup, Hx, Hy in H. simpl in H.
    replace (7 - Z.of_nat (Z.to_nat (7 - m))) with m in H by lia. exact H.
Qed.
