(* ===== verification/Capabilities.v ===== *)
(** Printer definitions and resource limits
    (crates/mb-printer-core/src/capabilities.rs and limits.rs). The bundled
    JSON catalogue is data, not code: operations that search it take it as an
    argument. *)

From stdpp Require Import base list strings numbers option.
From S2P Require Import Prelude.

#[local] Open Scope Z_scope.

(** ** Enumerations *)

Inductive Protocol :=
| MSeries | M02 | M04 | M110 | DSeries | P12 | Tspl | Brother.

#[global] Instance Protocol_eq_dec : EqDecision Protocol.
Proof. solve_decision. Defined.

Inductive Alignment := AlignLeft | AlignCenter | AlignRight.

Inductive BleFlowControl := PhomemoCredit.

Inductive BleWriteType := WithoutResponse.

Inductive NotificationRequirement := Optional | Required.

Record BleNotification := {
  characteristic : string;
  requirement : NotificationRequirement;
}.

(** UUIDs are kept in their textual form. *)
Record BleGattCapabilities := {
  write_characteristic : string;
  write_type : BleWriteType;
  notification : option BleNotification;
  flow_control : option BleFlowControl;
}.

Inductive BleSupport :=
| Unsupported_ble
| Gatt (capabilities : BleGattCapabilities).

Inductive PrinterOperation :=
| OpPrint | OpStatus | OpSystemReport | OpWifiStatus | OpWifiScan
| OpWifiConfigure | OpIppStatus | OpDnsSdDiscovery.

#[global] Instance PrinterOperation_eq_dec : EqDecision PrinterOperation.
Proof. solve_decision. Defined.

(** ** Printer definitions *)

Inductive ContinuousCutMode := AfterEach | AfterJob | NoCut.

(** Lengths are [f64], kept as their 64-bit patterns: nothing modelled here
    computes with them. *)
Record ContinuousMediaCapabilities := {
  cm_supported : bool;
  minimum_length_mm : Z;
  maximum_length_mm : Z;
  minimum_extra_feed_mm : Z;
  maximum_extra_feed_mm : Z;
  cut_modes : list ContinuousCutMode;
  automatic_cutter : bool;
  supports_chained_raster : bool;
  required_feed_before_mm : Z;
  required_feed_after_mm : Z;
}.

Record PrinterDefinition := {
  pd_id : string;
  pd_name : string;
  protocol : Protocol;
  ble : BleSupport;
  pd_width_bytes : option Z;
  dpi : Z;
  alignment : Alignment;
  rotated : bool;
  tape : bool;
  group : string;
  description : string;
  name_patterns : list string;
  tape_widths : option (list Z);
  default_tape_width : option Z;
  label_presets : option string;
  builtin : bool;
  additional_offset_r : Z;
  invalidate_bytes : Z;
  compression : bool;
  min_rows : Z;
  max_rows : Z;
  continuous_media : option ContinuousMediaCapabilities;
  operations : list PrinterOperation;
}.

(** Field widths of the Rust struct. *)
Definition printer_ok (p : PrinterDefinition) : Prop :=
  in_u u16_max (dpi p) /\ in_u u16_max (invalidate_bytes p) /\
  in_u u32_max (min_rows p) /\ in_u u32_max (max_rows p).

(** The serde defaults. *)
Definition default_dpi : Z := 203.
Definition default_invalidate : Z := 200.
Definition default_operations : list PrinterOperation := [OpPrint].

Definition ble_gatt (p : PrinterDefinition) : option BleGattCapabilities :=
  match ble p with
  | Gatt capabilities => Some capabilities
  | Unsupported_ble => None
  end.

Definition supports (p : PrinterDefinition) (operation : PrinterOperation) : bool :=
  bool_decide (operation ∈ operations p).

Definition width_px (p : PrinterDefinition) : option Z :=
  (fun x => x * 8) <$> pd_width_bytes p.

Definition chunk_size (p : PrinterDefinition) : Z :=
  match protocol p with
  | Brother => 1024
  | M04 => 256
  | Tspl => 512
  | _ => 128
  end.

Definition chunk_delay_ms (p : PrinterDefinition) : Z :=
  match protocol p with
  | Brother => 0
  | Tspl => 10
  | _ => 20
  end.

(** [by_id] over the catalogue. *)
Definition by_id (bundled : list PrinterDefinition) (id : string) : option PrinterDefinition :=
  List.find (fun p => bool_decide (pd_id p = id)) bundled.

(** ** Limits *)

Record WireLimits := {
  max_input_bytes : Z;
  max_request_documents : Z;
}.

Definition WireLimits_default : WireLimits := {|
  max_input_bytes := 16 * 1024 * 1024;
  max_request_documents := 1000;
|}.

Record ProcessingLimits := {
  max_elements : Z;
  max_resources : Z;
  max_resource_bytes : Z;
  max_decoded_resource_bytes : Z;
  max_resource_pixels : Z;
  max_canvas_pixels : Z;
  max_total_pixels : Z;
  max_pages : Z;
  max_copies : Z;
  max_plan_actions : Z;
  max_plan_bytes : Z;
  max_output_bytes : Z;
  max_sheet_slots : Z;
  max_sheet_items : Z;
}.

Definition ProcessingLimits_default : ProcessingLimits := {|
  max_elements := 10000;
  max_resources := 1000;
  max_resource_bytes := 8 * 1024 * 1024;
  max_decoded_resource_bytes := 8 * 1024 * 1024;
  max_resource_pixels := 25000000;
  max_canvas_pixels := 100000000;
  max_total_pixels := 400000000;
  max_pages := 100;
  max_copies := 1000;
  max_plan_actions := 100000;
  max_plan_bytes := 128 * 1024 * 1024;
  max_output_bytes := 128 * 1024 * 1024;
  max_sheet_slots := 1000;
  max_sheet_items := 10000;
|}.

Lemma chunk_size_pos p : 0 < chunk_size p.
Proof. unfold chunk_size. by destruct (protocol p). Qed.

Lemma chunk_delay_nonneg p : 0 <= chunk_delay_ms p.
Proof. unfold chunk_delay_ms. by destruct (protocol p). Qed.

#[export] Hint Resolve chunk_size_pos chunk_delay_nonneg : rust.
