(* ===== verification/Packbits.v ===== *)
(** TIFF PackBits compression of Brother raster rows and the framed raster
    stream (crates/mb-printer-core/src/protocol.rs: [packbits],
    [brother_raster_lines]), with the decoder a printer runs as reference. *)

From stdpp Require Import base list sets numbers.
From S2P Require Import Prelude Bits.

#[local] Open Scope Z_scope.

(** ** The encoder *)

(** The local variables of the loop; [pos] is the position in the list. *)
Record PbState := {
  pb_result : list Z;
  pb_literal : list Z;
  pb_repeat : Z;
  pb_in_repeat : bool;
}.

Definition flush_literal (result literal : list Z) : list Z * list Z :=
  match literal with
  | [] => (result, [])
  | _ => (result ++ as_u8 (zlen literal - 1) :: literal, [])
  end.

(** One iteration, [x = data[pos]] and [y = data[pos + 1]]. *)
Definition packbits_step (st : PbState) (x y : Z) : PbState :=
  if x =? y then
    if negb (pb_in_repeat st) then
      let (result, literal) := flush_literal (pb_result st) (pb_literal st) in
      {| pb_result := result; pb_literal := literal;
         pb_repeat := 1; pb_in_repeat := true |}
    else
      let '(result, repeat) :=
        if pb_repeat st =? 127
        then (pb_result st ++ [as_u8 (257 - pb_repeat st); x], 0)
        else (pb_result st, pb_repeat st) in
      {| pb_result := result; pb_literal := pb_literal st;
         pb_repeat := repeat + 1; pb_in_repeat := true |}
  else if pb_in_repeat st then
    let repeat := pb_repeat st + 1 in
    {| pb_result := pb_result st ++ [as_u8 (257 - repeat); x];
       pb_literal := pb_literal st; pb_repeat := 0; pb_in_repeat := false |}
  else
    let (result, literal) :=
      if zlen (pb_literal st) =? 127
      then flush_literal (pb_result st) (pb_literal st)
      else (pb_result st, pb_literal st) in
    {| pb_result := result; pb_literal := literal ++ [x];
       pb_repeat := pb_repeat st; pb_in_repeat := false |}.

(** The code after the loop, at the last byte. *)
Definition packbits_finish (st : PbState) (x : Z) : list Z :=
  if pb_in_repeat st then
    let repeat := pb_repeat st + 1 in
    pb_result st ++ [as_u8 (257 - repeat); x]
  else
    let (result, _) := flush_literal (pb_result st) (pb_literal st ++ [x]) in result.

Fixpoint packbits_loop (st : PbState) (x : Z) (rest : list Z) : list Z :=
  match rest with
  | [] => packbits_finish st x
  | y :: rest => packbits_loop (packbits_step st x y) y rest
  end.

Definition packbits (data : list Z) : list Z :=
  match data with
  | [] => []
  | [x] => [0; x]
  | x :: rest =>
      packbits_loop {| pb_result := []; pb_literal := []; pb_repeat := 0;
                       pb_in_repeat := false |} x rest
  end.

(** ** The printer's decoder *)

(** A header [h < 128] is followed by [h + 1] literal bytes, [h > 128] by one
    byte to repeat [257 - h] times, and 128 is skipped. *)
Fixpoint unpackbits_fuel (fuel : nat) (l : list Z) : option (list Z) :=
  match fuel, l with
  | _, [] => Some []
  | O, _ => None
  | S fuel, h :: l =>
      if h <? 128 then
        let n := Z.to_nat (h + 1) in
        if (length l <? n)%nat then None
        else app (take n l) <$> unpackbits_fuel fuel (drop n l)
      else if h =? 128 then unpackbits_fuel fuel l
      else match l with
           | [] => None
           | b :: l => app (replicate (Z.to_nat (257 - h)) b) <$> unpackbits_fuel fuel l
           end
  end.

Definition unpackbits (l : list Z) : option (list Z) := unpackbits_fuel (length l) l.

(** [decodes l d]: the decoder turns [l] into [d], described by its packets. *)
Inductive decodes : list Z -> list Z -> Prop :=
| decodes_nil : decodes [] []
| decodes_literal lit l d :
    0 < zlen lit <= 128 -> decodes l d ->
    decodes ((zlen lit - 1) :: lit ++ l) (lit ++ d)
| decodes_repeat n b l d :
    2 <= n <= 128 -> decodes l d ->
    decodes ((257 - n) :: b :: l) (replicate (Z.to_nat n) b ++ d).

Lemma decodes_app l1 d1 l2 d2 :
  decodes l1 d1 -> decodes l2 d2 -> decodes (l1 ++ l2) (d1 ++ d2).
Proof.
  induction 1; intros H2; [done| |].
  - simpl. rewrite <- !(assoc_L app). constructor; auto.
  - simpl. rewrite <- (assoc_L app). constructor; auto.
Qed.

Lemma decodes_one_literal lit : 0 < zlen lit <= 128 -> decodes ((zlen lit - 1) :: lit) lit.
Proof.
  intros H. pose proof (decodes_literal lit [] [] H decodes_nil) as D.
  by rewrite !app_nil_r in D.
Qed.

Lemma decodes_one_repeat n b : 2 <= n <= 128 -> decodes [257 - n; b] (replicate (Z.to_nat n) b).
Proof.
  intros H. pose proof (decodes_repeat n b [] [] H decodes_nil) as D.
  by rewrite app_nil_r in D.
Qed.

Lemma decodes_fuel l d fuel :
  decodes l d -> (length l <= fuel)%nat -> unpackbits_fuel fuel l = Some d.
Proof.
  intros D. revert fuel. induction D as [|lit l d Hl D IH|n b l d Hn D IH]; intros fuel Hf.
  - by destruct fuel.
  - destruct fuel as [|fuel]; [simpl in Hf; lia|].
    cbn [length] in Hf. rewrite length_app in Hf.
    cbn [unpackbits_fuel]. unfold zlen in *.
    destruct (Z.ltb_spec (Z.of_nat (length lit) - 1) 128); [|lia].
    replace (Z.to_nat (Z.of_nat (length lit) - 1 + 1)) with (length lit) by lia.
    rewrite length_app.
    destruct (Nat.ltb_spec (length lit + length l) (length lit)); [lia|].
    rewrite take_app_length, drop_app_length. rewrite IH by lia. done.
  - destruct fuel as [|fuel]; [simpl in Hf; lia|]. cbn [length] in Hf.
    cbn [unpackbits_fuel].
    destruct (Z.ltb_spec (257 - n) 128); [lia|].
    destruct (Z.eqb_spec (257 - n) 128); [lia|].
    rewrite IH by lia. replace (257 - (257 - n)) with n by lia. done.
Qed.

Lemma decodes_unpackbits l d : decodes l d -> unpackbits l = Some d.
Proof. intros D. by apply decodes_fuel. Qed.

(** ** The loop invariant *)

(** [pre] is the data before the current byte [x]. Outside a run the pending
    bytes are the literal buffer; inside a run they are [repeat] copies of the
    current byte. The last conjuncts bound the expansion: a literal packet
    costs one byte that the following run, or its own length, pays back. *)
Definition pb_inv (st : PbState) (pre : list Z) (x : Z) : Prop :=
  exists d, decodes (pb_result st) d /\
  if pb_in_repeat st then
    pb_literal st = [] /\ 1 <= pb_repeat st <= 127 /\
    pre = d ++ replicate (Z.to_nat (pb_repeat st)) x /\
    3 * zlen (pb_result st) <= 4 * zlen d + 2
  else
    zlen (pb_literal st) <= 127 /\ pre = d ++ pb_literal st /\
    3 * zlen (pb_result st) <= 4 * zlen d.

Lemma flush_literal_decodes result literal d :
  decodes result d -> zlen literal <= 128 ->
  decodes (fst (flush_literal result literal)) (d ++ literal) /\
  snd (flush_literal result literal) = [] /\
  zlen (fst (flush_literal result literal)) =
    zlen result + zlen literal + (if bool_decide (literal = []) then 0 else 1).
Proof.
  intros D H. destruct literal as [|b literal].
  - simpl. rewrite app_nil_r. repeat split; [done|]. rewrite zlen_nil. lia.
  - cbn [flush_literal fst snd]. rewrite as_u8_id.
    2: { unfold byte_ok. autorewrite with zlen in *. pose proof (zlen_nonneg literal). lia. }
    repeat split.
    + apply decodes_app, decodes_one_literal; [done|]. rewrite zlen_cons in *.
      pose proof (zlen_nonneg literal). lia.
    + rewrite bool_decide_eq_false_2 by done. autorewrite with zlen. lia.
Qed.

Lemma decodes_snoc_repeat result d n b :
  decodes result d -> 2 <= n <= 128 ->
  decodes (result ++ [as_u8 (257 - n); b]) (d ++ replicate (Z.to_nat n) b).
Proof.
  intros D Hn. rewrite as_u8_id by (unfold byte_ok; lia).
  apply decodes_app; [done|]. by apply decodes_one_repeat.
Qed.

Lemma replicate_snoc_Z n (b : Z) :
  0 <= n -> replicate (Z.to_nat n) b ++ [b] = replicate (Z.to_nat (n + 1)) b.
Proof.
  intros Hn. rewrite <- (replicate_S_end (Z.to_nat n)). f_equal. lia.
Qed.

Lemma pb_step_inv st pre x y :
  pb_inv st pre x -> pb_inv (packbits_step st x y) (pre ++ [x]) y.
Proof.
  intros (d & D & I). unfold packbits_step, pb_inv.
  destruct (Z.eqb_spec x y) as [<-|Hxy]; destruct (pb_in_repeat st) eqn:Hin; simpl.
  - destruct I as (Hl & Hr & -> & Hb).
    destruct (Z.eqb_spec (pb_repeat st) 127) as [E|E]; simpl.
    + exists (d ++ replicate (Z.to_nat (pb_repeat st)) x). split.
      { apply decodes_snoc_repeat; [done|lia]. }
      repeat split; [done|lia|lia|].
      zlen_lia.
    + exists d. repeat split; [done|done|lia|lia| |lia].
      by rewrite <- (assoc_L app), replicate_snoc_Z by lia.
  - destruct I as (Hl & -> & Hb).
    destruct (flush_literal_decodes _ (pb_literal st) _ D) as (D' & El & Hz); [lia|].
    destruct (flush_literal _ _) as [result literal] eqn:Ef; simpl in *.
    exists (d ++ pb_literal st). repeat split; [done|done|lia|lia|].
    rewrite Hz. autorewrite with zlen. case_bool_decide as Hn.
    { pose proof (zlen_nonneg (pb_literal st)). lia. }
    assert (0 < zlen (pb_literal st)).
    { destruct (pb_literal st); [done|]. rewrite zlen_cons. pose proof (zlen_nonneg l). lia. }
    lia.
  - destruct I as (Hl & Hr & -> & Hb).
    exists (d ++ replicate (Z.to_nat (pb_repeat st + 1)) x). split.
    { apply decodes_snoc_repeat; [done|lia]. }
    rewrite Hl, app_nil_r. repeat split; [rewrite zlen_nil; lia| |].
    + by rewrite <- (assoc_L app), replicate_snoc_Z by lia.
    + zlen_lia.
  - destruct I as (Hl & -> & Hb).
    destruct (Z.eqb_spec (zlen (pb_literal st)) 127) as [E|E].
    + destruct (flush_literal_decodes _ (pb_literal st) _ D) as (D' & El & Hz); [lia|].
      destruct (flush_literal _ _) as [result literal] eqn:Ef; simpl in *.
      exists (d ++ pb_literal st). rewrite El. split_and!; [done|done|done|].
      rewrite Hz. autorewrite with zlen. case_bool_decide; lia.
    + exists d. simpl. split_and!; [done| |by rewrite (assoc_L app)|done].
      autorewrite with zlen. lia.
Qed.

Lemma pb_finish_inv st pre x :
  pb_inv st pre x ->
  decodes (packbits_finish st x) (pre ++ [x]) /\
  3 * zlen (packbits_finish st x) <= 4 * zlen (pre ++ [x]) + 2.
Proof.
  intros (d & D & I). unfold packbits_finish. destruct (pb_in_repeat st) eqn:Hin.
  - destruct I as (Hl & Hr & -> & Hb).
    rewrite <- (assoc_L app), replicate_snoc_Z by lia. split.
    + apply decodes_snoc_repeat; [done|lia].
    + zlen_lia.
  - destruct I as (Hl & -> & Hb).
    destruct (flush_literal_decodes _ (pb_literal st ++ [x]) _ D) as (D' & El & Hz).
    { autorewrite with zlen. lia. }
    destruct (flush_literal _ _) as [result literal] eqn:Ef; simpl in *.
    rewrite <- (assoc_L app). split; [done|]. rewrite Hz. autorewrite with zlen.
    pose proof (zlen_nonneg (pb_literal st)). case_bool_decide; lia.
Qed.

Lemma pb_loop_inv st pre x rest :
  pb_inv st pre x ->
  decodes (packbits_loop st x rest) (pre ++ x :: rest) /\
  3 * zlen (packbits_loop st x rest) <= 4 * zlen (pre ++ x :: rest) + 2.
Proof.
  revert st pre x. induction rest as [|y rest IH]; intros st pre x I.
  - by apply pb_finish_inv.
  - cbn [packbits_loop]. apply (pb_step_inv _ _ _ y), IH in I.
    by rewrite <- (assoc_L app) in I.
Qed.

Lemma packbits_decodes data :
  decodes (packbits data) data /\ 3 * zlen (packbits data) <= 4 * zlen data + 2.
Proof.
  destruct data as [|x [|y rest]].
  - split; [constructor|done].
  - split; [by apply (decodes_one_literal [x])|]. reflexivity || (unfold zlen; simpl; lia).
  - apply (pb_loop_inv _ []). exists []. by repeat split; [constructor|..].
Qed.

(** Every byte of the encoding is a byte, when the data are. *)
Lemma decodes_bytes_ok l d : decodes l d -> bytes_ok d -> bytes_ok l.
Proof.
  unfold bytes_ok. induction 1 as [|lit l d Hl D IH|n b l d Hn D IH]; intros Hd; [done| |].
  - apply Forall_app in Hd as [? ?]. constructor; [unfold byte_ok; lia|].
    apply Forall_app; auto.
  - apply Forall_app in Hd as [Hr ?]. constructor; [unfold byte_ok; lia|]. constructor; [|auto].
    replace (Z.to_nat n) with (S (Z.to_nat (n - 1))) in Hr by lia. by inversion Hr.
Qed.

Lemma packbits_bytes_ok data : bytes_ok data -> bytes_ok (packbits data).
Proof. apply decodes_bytes_ok. apply packbits_decodes. Qed.

(** C6: PackBits round trip. The decoder of the printer recovers the row from
    what [packbits] emits, and the encoding of [n] bytes has at most
    [(4 n + 2) / 3] bytes. *)
Theorem packbits_roundtrip row :
  unpackbits (packbits row) = Some row /\ 3 * zlen (packbits row) <= 4 * zlen row + 2.
Proof.
  destruct (packbits_decodes row) as [D B]. split; [by apply decodes_unpackbits|done].
Qed.
