(* ===== verification/ProtocolTypes.v ===== *)
(** Data of the protocol planner (crates/mb-printer-core/src/protocol.rs):
    actions, plans, rasters, options and errors. *)

From stdpp Require Import base list strings numbers option.
From S2P Require Import Prelude Capabilities.

#[local] Open Scope Z_scope.

Inductive Boundary := Start | End_.

#[global] Instance Boundary_eq_dec : EqDecision Boundary.
Proof. solve_decision. Defined.

Inductive ResponseValidation :=
| AnyNotification
| PhomemoNotification
| BrotherStatus32
| BrotherObjbrnet
| BrotherWifiScan
| BrotherSystemReport.

#[global] Instance ResponseValidation_eq_dec : EqDecision ResponseValidation.
Proof. solve_decision. Defined.

(** Command names are kept as their UTF-8 text, payloads as bytes, times in
    milliseconds. *)
Inductive Action :=
| JobBoundary (kind : Boundary)
| SubscribeNotifications
| CommandWrite (name : string) (bytes : list Z) (atomic : bool)
| RasterWrite (bytes : list Z) (logical_chunk : Z) (delay_after_each_physical_write_ms : Z)
| Delay (milliseconds : Z)
| WaitForResponse (timeout_ms fallback_delay_ms : Z) (validation : ResponseValidation)
| CollectResponse (timeout_ms idle_timeout_ms maximum_bytes : Z) (validation : ResponseValidation).

#[global] Instance Action_eq_dec : EqDecision Action.
Proof. solve_decision. Defined.

Definition SOURCE_COMMIT : string := "1f58d3f0e7f941b9143277cda828380149e56855".

Record Plan := {
  plan_protocol : Protocol;
  source_commit : string;
  actions : list Action;
}.

(** A packed one-bit raster, [width_bytes] bytes per row. *)
Record Raster := {
  width_bytes : Z;
  height : Z;
  data : list Z;
}.

Definition raster_ok (r : Raster) : Prop :=
  in_u u16_max (width_bytes r) /\ in_u u32_max (height r) /\ bytes_ok (data r).

Inductive PhomemoMedia := Gap | Continuous | BlackMark.

Definition media_command (m : PhomemoMedia) : Z :=
  match m with
  | Gap => 0x0a
  | Continuous => 0x0b
  | BlackMark => 0x26
  end.

Record BrotherMedia := {
  width_mm : Z;
  length_mm : Z;
  media_continuous : bool;
  feed_margin : Z;
}.

Record Options := {
  density : Z;
  feed : Z;
  continuous : bool;
  speed : Z;
  copies : Z;
  gap_tenths_mm : Z;
  offset_tenths_mm : Z;
  offset_x : Z;
  offset_y : Z;
  label_width_tenths_mm : option Z;
  label_height_tenths_mm : option Z;
  brother_media : option BrotherMedia;
  cut : bool;
  cut_every : Z;
  compress : bool;
  high_quality : bool;
  streaming : bool;
  lzo : bool;
  phomemo_media_opt : option PhomemoMedia;
}.

Definition Options_default : Options := {|
  density := 6;
  feed := 32;
  continuous := false;
  speed := 5;
  copies := 1;
  gap_tenths_mm := 30;
  offset_tenths_mm := -30;
  offset_x := 0;
  offset_y := 0;
  label_width_tenths_mm := None;
  label_height_tenths_mm := None;
  brother_media := None;
  cut := true;
  cut_every := 1;
  compress := true;
  high_quality := true;
  streaming := false;
  lzo := false;
  phomemo_media_opt := None;
|}.

Definition media_ok (m : BrotherMedia) : Prop :=
  in_u u8_max (width_mm m) /\ in_u u8_max (length_mm m) /\ in_u u16_max (feed_margin m).

(** Field widths of the Rust struct. *)
Definition options_ok (o : Options) : Prop :=
  in_u u8_max (density o) /\ in_u u8_max (feed o) /\ in_u u8_max (speed o) /\
  in_u u16_max (copies o) /\ in_u u8_max (cut_every o) /\
  i16_min <= gap_tenths_mm o <= i16_max /\ i16_min <= offset_tenths_mm o <= i16_max /\
  in_u u16_max (offset_x o) /\ in_u u16_max (offset_y o) /\
  (forall w, label_width_tenths_mm o = Some w -> in_u u16_max w) /\
  (forall h, label_height_tenths_mm o = Some h -> in_u u16_max h) /\
  (forall m, brother_media o = Some m -> media_ok m).

(** [single.copies = 1] on a clone. *)
Definition with_copies (n : Z) (o : Options) : Options := {|
  density := density o; feed := feed o; continuous := continuous o; speed := speed o;
  copies := n;
  gap_tenths_mm := gap_tenths_mm o; offset_tenths_mm := offset_tenths_mm o;
  offset_x := offset_x o; offset_y := offset_y o;
  label_width_tenths_mm := label_width_tenths_mm o;
  label_height_tenths_mm := label_height_tenths_mm o;
  brother_media := brother_media o; cut := cut o; cut_every := cut_every o;
  compress := compress o; high_quality := high_quality o; streaming := streaming o;
  lzo := lzo o; phomemo_media_opt := phomemo_media_opt o;
|}.

Inductive PlanError :=
| RasterLength
| Range (what : string)
| Unsupported (what : string)
| Limit (what : string).

#[global] Instance PlanError_eq_dec : EqDecision PlanError.
Proof. solve_decision. Defined.
