(* ===== verification/BrotherRaster.v ===== *)
(** The Brother raster stream (crates/mb-printer-core/src/protocol.rs:
    [brother_raster_lines]): each row is mirrored, optionally compressed and
    framed by ["g", 0, length]. *)

From stdpp Require Import base list sets numbers.
From S2P Require Import Prelude Bits Capabilities ProtocolTypes Packbits.

#[local] Open Scope Z_scope.

(** The two nested loops over the bits of one row. *)
Definition mirror_row (row : list Z) : list Z :=
  let bits := (length row * 8)%nat in
  or_bits (get_bit row) (fun bit => bits - 1 - bit)%nat (seq 0 bits)
    (replicate (length row) 0).

Definition raster_line (compress : bool) (row : list Z) : list Z :=
  let mirrored := mirror_row row in
  let bytes := if compress then packbits mirrored else mirrored in
  [0x67; 0; as_u8 (zlen bytes)] ++ bytes.

(** [chunks(0)] panics, also on an empty slice. *)
Definition brother_raster_lines (r : Raster) (compress : bool) : Result (Fault PlanError) (list Z) :=
  if width_bytes r =? 0 then Err Panicked
  else Ok (concat (map (raster_line compress) (chunks (width_bytes r) (data r)))).

(** ** What the printer reads back *)

Fixpoint read_lines (fuel : nat) (compressed : bool) (l : list Z) : option (list (list Z)) :=
  match fuel, l with
  | _, [] => Some []
  | S fuel, 0x67 :: 0 :: n :: l =>
      let n := Z.to_nat n in
      if (length l <? n)%nat then None
      else
        row ← (if compressed then unpackbits (take n l) else Some (take n l));
        rows ← read_lines fuel compressed (drop n l);
        Some (mirror_row row :: rows)
  | _, _ => None
  end.

(** The printer's view of a raster stream: the rows in document orientation. *)
Definition printed_rows (compressed : bool) (l : list Z) : option (list (list Z)) :=
  read_lines (length l) compressed l.

(** ** Mirroring *)

Lemma length_mirror_row row : length (mirror_row row) = length row.
Proof. unfold mirror_row. by rewrite length_or_bits, length_replicate. Qed.

Lemma bytes_ok_mirror_row row : bytes_ok (mirror_row row).
Proof.
  apply bytes_ok_or_bits, Forall_replicate. unfold byte_ok. lia.
Qed.

Lemma get_bit_mirror_row row i :
  (i < 8 * length row)%nat ->
  get_bit (mirror_row row) i = get_bit row (8 * length row - 1 - i).
Proof.
  intros Hi. unfold mirror_row. rewrite get_or_bits.
  2: { intros j Hj. apply elem_of_seq in Hj. rewrite length_replicate. lia. }
  rewrite get_bit_replicate_zero, orb_false_l. apply eq_bool_prop_intro.
  rewrite !Is_true_true, existsb_exists. split.
  - intros (j & Hj & E). apply andb_true_iff in E as [E1 E2].
    apply in_seq in Hj. apply Nat.eqb_eq in E2. rewrite <- E1. f_equal. lia.
  - intros E. exists (8 * length row - 1 - i)%nat. rewrite in_seq.
    rewrite E, andb_true_l. split; [lia|]. apply Nat.eqb_eq. lia.
Qed.

Lemma mirror_row_involutive row : bytes_ok row -> mirror_row (mirror_row row) = row.
Proof.
  intros Hr. apply row_bits_ext; [apply bytes_ok_mirror_row|done| |].
  - by rewrite !length_mirror_row.
  - intros i Hi. rewrite !length_mirror_row in Hi.
    rewrite get_bit_mirror_row by (by rewrite length_mirror_row).
    rewrite length_mirror_row. rewrite get_bit_mirror_row by lia. f_equal. lia.
Qed.

(** ** The stream *)

(** A row whose encoding fits the one-byte length field: 191 bytes when
    compressed, since PackBits expands by at most a third. *)
Definition line_capacity (compress : bool) : Z := if compress then 191 else 255.

Lemma read_raster_line compress row rest fuel :
  bytes_ok row -> zlen row <= line_capacity compress ->
  read_lines (S fuel) compress (raster_line compress row ++ rest) =
  cons row <$> read_lines fuel compress rest.
Proof.
  intros Hr Hcap. unfold raster_line.
  set (bytes := if compress then packbits (mirror_row row) else mirror_row row).
  assert (zlen bytes <= 255) as Hb.
  { subst bytes. assert (zlen (mirror_row row) = zlen row) as E.
    { unfold zlen. by rewrite length_mirror_row. }
    destruct compress; simpl in Hcap; [|lia].
    pose proof (packbits_decodes (mirror_row row)) as [_ H]. lia. }
  assert ((if compress then unpackbits bytes else Some bytes) = Some (mirror_row row)) as Hd.
  { subst bytes. destruct compress; [|done]. apply decodes_unpackbits, packbits_decodes. }
  clearbody bytes. pose proof (zlen_nonneg bytes).
  rewrite as_u8_id by (unfold byte_ok; lia). cbn [app read_lines].
  replace (Z.to_nat (zlen bytes)) with (length bytes) by (unfold zlen; lia).
  rewrite length_app. destruct (Nat.ltb_spec (length bytes + length rest) (length bytes)); [lia|].
  rewrite take_app_length, drop_app_length, Hd. simpl.
  rewrite mirror_row_involutive by done. by destruct (read_lines fuel compress rest).
Qed.

Lemma read_raster_lines compress rows fuel :
  Forall (fun row => bytes_ok row /\ zlen row <= line_capacity compress) rows ->
  (length rows <= fuel)%nat ->
  read_lines fuel compress (concat (map (raster_line compress) rows)) = Some rows.
Proof.
  intros H. revert fuel. induction H as [|row rows [Hr Hc] Hrows IH]; intros fuel Hf.
  - by destruct fuel.
  - destruct fuel as [|fuel]; [simpl in Hf; lia|]. cbn [map concat].
    rewrite read_raster_line, IH by (done || simpl in Hf; lia). done.
Qed.

Lemma length_concat_lines compress rows :
  (length rows <= length (concat (map (raster_line compress) rows)))%nat.
Proof.
  induction rows as [|row rows IH]; [done|]. cbn [map concat].
  rewrite length_app. unfold raster_line at 1. simpl length at 2. simpl. lia.
Qed.

Lemma chunks_rows r :
  bytes_ok (data r) ->
  Forall (fun row => bytes_ok row /\ zlen row <= width_bytes r) (chunks (width_bytes r) (data r)).
Proof.
  intros Hd. apply Forall_and.
  - destruct (decide (0 < width_bytes r)).
    + apply Forall_concat. by rewrite concat_chunks.
    + unfold chunks. destruct (Z.leb_spec (width_bytes r) 0); [constructor|lia].
  - eapply Forall_impl; [|apply chunks_bound]. simpl. lia.
Qed.

(** the Brother raster stream prints the raster. Reading the stream back
    the way the printer does (unframe, decompress, mirror) gives [height] rows
    of [width_bytes] bytes that are the raster's data in order, for rows of at
    most 191 bytes when compressing and 255 otherwise. *)
Theorem brother_stream_roundtrip r compress :
  bytes_ok (data r) -> 0 < width_bytes r <= line_capacity compress -> 0 <= height r ->
  zlen (data r) = width_bytes r * height r ->
  exists stream rows, brother_raster_lines r compress = Ok stream /\
    printed_rows compress stream = Some rows /\
    concat rows = data r /\ zlen rows = height r /\
    Forall (fun row => zlen row = width_bytes r) rows.
Proof.
  intros Hd Hw Hh El. unfold brother_raster_lines.
  destruct (Z.eqb_spec (width_bytes r) 0); [lia|].
  exists (concat (map (raster_line compress) (chunks (width_bytes r) (data r)))).
  exists (chunks (width_bytes r) (data r)). split; [done|].
  destruct (chunks_exact (width_bytes r) (height r) (data r)) as [E F]; [lia..|].
  split_and!; [|apply concat_chunks; lia|done|done].
  apply read_raster_lines; [|apply length_concat_lines].
  eapply Forall_impl; [|by apply chunks_rows]. simpl. lia || (intros ? [? ?]; split; [done|lia]).
Qed.

Lemma brother_stream_roundtrip_witness :
  let r := {| width_bytes := 2; height := 2; data := [255; 1; 7; 7] |} in
  exists stream rows, brother_raster_lines r true = Ok stream /\
    printed_rows true stream = Some rows /\
    concat rows = data r /\ zlen rows = height r /\
    Forall (fun row => zlen row = width_bytes r) rows.
Proof.
  apply (brother_stream_roundtrip {| width_bytes := 2; height := 2; data := [255; 1; 7; 7] |} true).
  - repeat constructor; unfold byte_ok; lia.
  - simpl. lia.
  - simpl. lia.
  - reflexivity.
Defined.

(** A 192-byte row of alternating literals and runs compresses to 256 bytes,
    and the one-byte length field of its frame wraps to zero. *)
Definition wrapping_row : list Z := concat (replicate 64 [1; 2; 2]).

Lemma wrapping_row_length :
  zlen wrapping_row = 192 /\
  zlen (packbits (mirror_row wrapping_row)) = 256 /\
  take 3 (raster_line true wrapping_row) = [0x67; 0; 0].
Proof. by vm_compute. Qed.
