(* ===== verification/Protocol.v ===== *)
(** The plan builder (crates/mb-printer-core/src/protocol.rs): from a printer
    definition, a packed raster and options to the list of actions the
    executor runs. *)

From stdpp Require Import base list strings sets numbers option.
From S2P Require Import Prelude Bits Capabilities ProtocolTypes Packbits BrotherRaster.

#[local] Open Scope Z_scope.

(** ** Small helpers *)

Definition cmd (name : string) (bytes : list Z) : Action := CommandWrite name bytes true.

Definition delay (milliseconds : Z) : Action := Delay milliseconds.

Definition raster_paced (p : PrinterDefinition) (bytes : list Z) (streaming : bool) : Action :=
  RasterWrite bytes (chunk_size p) (if streaming then 0 else chunk_delay_ms p).

(** The bodies below panic as [[..][d as usize - 1]] and [[..][density as usize]] do. *)
Abbreviation Actions := (Result (Fault PlanError) (list Action)).

Definition heat (d : Z) : Result (Fault PlanError) (list Z) :=
  let? level := index [40; 60; 80; 100; 120; 140; 160; 200] (d - 1) in
  Ok [0x1b; 0x37; 7; level; 2].

Definition m110_density (d : Z) : Result (Fault PlanError) (list Z) :=
  let? level := index [0; 6; 8; 9; 10; 11; 12; 14; 15] d in
  Ok [0x1b; 0x4e; 4; level].

(** [GS v 0]: the width and the height truncated to 16 bits. *)
Definition header (r : Raster) : list Z :=
  [0x1d; 0x76; 0x30; 0] ++ to_le_bytes 2 (width_bytes r) ++ to_le_bytes 2 (as_u16 (height r)).

Definition round_div (a b : Z) : Z := (a + b / 2) / b.

Definition phomemo_media (o : Options) : PhomemoMedia :=
  match phomemo_media_opt o with
  | Some media => media
  | None => if continuous o then Continuous else Gap
  end.

Definition tspl (s : list Z) : list Z := s ++ [13; 10].

(** [{v / 10}] or [{v / 10}.{v % 10}], signed. *)
Definition decimal (v : Z) : list Z :=
  let sign := if v <? 0 then str "-" else [] in
  let magnitude := Z.abs v in
  if magnitude mod 10 =? 0 then sign ++ show_dec (magnitude / 10)
  else sign ++ show_dec (magnitude / 10) ++ str "." ++ show_dec (magnitude mod 10).

Definition fmt_mm (c : string) (a : Z) (b : option Z) : list Z :=
  match b with
  | Some b => str c ++ str " " ++ decimal (as_i16 a) ++ str " mm, " ++ decimal (as_i16 b) ++ str " mm"
  | None => str c ++ str " " ++ decimal (as_i16 a) ++ str " mm"
  end.

(** A zero [dpi] divides by zero. *)
Definition tspl_tenths_mm (dots dpi : Z) : Result (Fault PlanError) Z :=
  let numerator := saturate u64_max (dots * 2030) in
  let denominator := saturate u64_max (dpi * 8) in
  if denominator =? 0 then Err Panicked
  else
    let v := (numerator + denominator / 2) / denominator in
    Ok (if v <=? u16_max then v else u16_max).

(** ** One definition per protocol arm of [plan_inner] *)

Definition plan_m_series (p : PrinterDefinition) (r : Raster) (o : Options) : Actions :=
  let? heat_command := heat (density o) in
  Ok [ cmd "ESC @ init" [0x1b; 0x40];
       delay 100;
       cmd "ESC 7 heat" heat_command;
       delay 30;
       cmd "GS | density" [0x1d; 0x7c; density o];
       delay 50;
       cmd "GS v 0 raster header" (header r);
       raster_paced p (data r) (streaming o);
       delay 300;
       cmd "ESC J feed" [0x1b; 0x4a; feed o];
       delay 800 ].

Definition plan_m02 (p : PrinterDefinition) (r : Raster) (o : Options) : Actions :=
  let? heat_command := heat (density o) in
  Ok [ cmd "M02 prefix" [0x10; 0xff; 0xfe; 1];
       delay 50;
       cmd "ESC @ init" [0x1b; 0x40];
       delay 100;
       cmd "ESC 7 heat" heat_command;
       delay 30;
       cmd "GS v 0 raster header" (header r);
       raster_paced p (data r) (streaming o);
       delay 300;
       cmd "ESC J feed" [0x1b; 0x4a; Z.min (feed o) 8];
       delay 500 ].

(** [for _ in 0..n { body }]. *)
Definition repeat_actions (n : Z) (body : list Action) : list Action :=
  concat (replicate (Z.to_nat n) body).

Definition plan_m04 (p : PrinterDefinition) (r : Raster) (o : Options) : list Action :=
  [ cmd "M04 density" [0x1f; 0x11; 2; as_u8 (round_div (density o * 15) 8)];
    delay 30;
    cmd "M04 heat" [0x1f; 0x11; 0x37; as_u8 (100 + round_div (as_u8 (density o - 1) * 50) 3)];
    delay 30;
    cmd "M04 init" [0x1f; 0x11; 0x0b];
    delay 30;
    cmd "M04 compression" [0x1f; 0x11; 0x35; 0];
    delay 30;
    cmd "GS v 0 raster header" (header r);
    raster_paced p (data r) (streaming o);
    delay 300 ] ++
  repeat_actions (Z.max (round_div (Z.max (feed o) 1) 16) 1)
    [ cmd "M04 feed" [0x1b; 0x64; 2]; delay 30 ] ++
  [ delay 500 ].

Definition plan_m110 (p : PrinterDefinition) (r : Raster) (o : Options) : Actions :=
  let? density_command := m110_density (density o) in
  Ok [ cmd "M110 speed" [0x1b; 0x4e; 0x0d; speed o];
       delay 30;
       cmd "M110 density" density_command;
       delay 30;
       cmd "media type" [0x1f; 0x11; media_command (phomemo_media o)];
       delay 30;
       cmd "GS v 0 raster header" (header r);
       raster_paced p (data r) (streaming o);
       delay 300;
       cmd "M110 footer" [0x1f; 0xf0; 5; 0; 0x1f; 0xf0; 3; 0];
       delay 500 ].

(** The blank rows appended for continuous media. *)
Definition d_series_raster (r : Raster) (o : Options) : Raster :=
  if continuous o && (0 <? feed o) then
    let extra_rows := 56 + feed o in
    {| width_bytes := width_bytes r;
       height := as_u32 (height r + extra_rows);
       data := data r ++ replicate (Z.to_nat (extra_rows * width_bytes r)) 0 |}
  else r.

Definition plan_d_series (p : PrinterDefinition) (r : Raster) (o : Options) : Actions :=
  let raster_data := d_series_raster r o in
  let? heat_command := heat (density o) in
  Ok [ cmd "ESC 7 heat" heat_command;
       delay 30;
       cmd "media type" [0x1f; 0x11; media_command (phomemo_media o)];
       delay 30;
       cmd "ESC @ init + GS v 0 raster header" ([0x1b; 0x40] ++ header raster_data);
       raster_paced p (data raster_data) (streaming o);
       delay 100;
       cmd "ESC d 0 print + gap detect" [0x1b; 0x64; 0] ].

Definition p12_init_packets : list (list Z) :=
  [ [0x1f; 0x11; 0x38];
    [0x1f; 0x11; 0x11; 0x1f; 0x11; 0x12; 0x1f; 0x11; 9; 0x1f; 0x11; 0x13];
    [0x1f; 0x11; 9];
    [0x1f; 0x11; 0x19; 0x1f; 0x11; 0x11];
    [0x1f; 0x11; 0x19];
    [0x1f; 0x11; 7] ].

Definition plan_p12 (p : PrinterDefinition) (r : Raster) (o : Options) : list Action :=
  [ SubscribeNotifications ] ++
  concat (map (fun packet =>
    [ cmd "P12 init packet" packet; WaitForResponse 500 500 AnyNotification ])
    p12_init_packets) ++
  [ cmd "ESC @ init + GS v 0 raster header" ([0x1b; 0x40] ++ header r);
    raster_paced p (data r) (streaming o);
    delay 100;
    cmd "P12 feed" [0x1b; 0x64; 0x0d];
    delay 50;
    cmd "P12 feed" [0x1b; 0x64; 0x0d] ].

Definition tspl_setup (w h : Z) (o : Options) : list (list Z) :=
  [ fmt_mm "SIZE" w (Some h);
    fmt_mm "GAP" (Z.max (gap_tenths_mm o) 0) (Some 0);
    str "OFFSET " ++ decimal (offset_tenths_mm o) ++ str " mm";
    str "DENSITY " ++ show_dec (round_div (density o * 15) 8);
    str "SPEED " ++ show_dec (speed o);
    str "DIRECTION 0";
    str "CLS" ].

Definition bitmap_header (r : Raster) (o : Options) : list Z :=
  str "BITMAP " ++ show_dec (offset_x o) ++ str "," ++ show_dec (offset_y o) ++ str "," ++
  show_dec (width_bytes r) ++ str "," ++ show_dec (height r) ++ str ",0,".

(** [Option::unwrap_or_else] with a callee that can panic. *)
Definition unwrap_or_else {E A} (o : option A) (f : Result E A) : Result E A :=
  match o with Some a => Ok a | None => f end.

Definition plan_tspl (p : PrinterDefinition) (r : Raster) (o : Options) :
    Result (Fault PlanError) (list Action) :=
  let? w := unwrap_or_else (label_width_tenths_mm o) (tspl_tenths_mm (width_bytes r * 8) (dpi p)) in
  let? h := unwrap_or_else (label_height_tenths_mm o) (tspl_tenths_mm (height r) (dpi p)) in
  Ok (concat (map (fun s => [cmd "TSPL" (tspl s); delay 50]) (tspl_setup w h o)) ++
      [ cmd "BITMAP header" (bitmap_header r o);
        raster_paced p (map (fun x => Z.lxor x 0xff) (data r)) (streaming o);
        cmd "bitmap terminator" [13; 10];
        delay 50;
        cmd "TSPL" (tspl (str "PRINT " ++ show_dec (copies o)));
        delay 50;
        cmd "TSPL" (tspl (str "END")) ]).

(** [ESC i z]: the print-information command. *)
Definition brother_print_info (r : Raster) (o : Options) (media : BrotherMedia) : list Z :=
  let flags := Z.lor (Z.lor (Z.lor (Z.lor 0x80 0x02) 0x04) 0x08)
                     (if high_quality o then 0x40 else 0) in
  [0x1b; 0x69; 0x7a; flags;
   (if media_continuous media then 0x0a else 0x0b);
   width_mm media;
   (if media_continuous media then 0 else length_mm media)] ++
  to_le_bytes 4 (height r) ++ [0; 0].

Definition PRINT_INFO : string := "ESC i z print information".
Definition AUTOCUT : string := "ESC i M autocut".
Definition CUT_EVERY : string := "ESC i A cut every".

Definition plan_brother (p : PrinterDefinition) (r : Raster) (o : Options) :
    Result (Fault PlanError) (list Action) :=
  let? media := raising (ok_or (brother_media o) (Range "brother media")) in
  let compress := compress o && compression p in
  if (0 <? min_rows p) && media_continuous media && (height r <? min_rows p)
  then fail (Range "brother minimum rows")
  else if (0 <? max_rows p) && (max_rows p <? height r)
  then fail (Range "brother maximum rows")
  else
  let? lines := brother_raster_lines r compress in
  Ok ([ cmd "switch to raster mode" [0x1b; 0x69; 0x61; 1];
        cmd "invalidate" (replicate (Z.to_nat (invalidate_bytes p)) 0);
        cmd "ESC @ init" [0x1b; 0x40];
        cmd "switch to raster mode" [0x1b; 0x69; 0x61; 1];
        cmd "ESC i S status request" [0x1b; 0x69; 0x53];
        WaitForResponse 3000 0 BrotherStatus32;
        cmd PRINT_INFO (brother_print_info r o media) ] ++
      (if cut o then
         [ cmd AUTOCUT [0x1b; 0x69; 0x4d; 0x40];
           cmd CUT_EVERY [0x1b; 0x69; 0x41; cut_every o] ]
       else []) ++
      [ cmd "ESC i K expanded mode" [0x1b; 0x69; 0x4b; (if cut o then 8 else 0)];
        cmd "ESC i d margins" ([0x1b; 0x69; 0x64] ++ to_le_bytes 2 (feed_margin media)) ] ++
      (if compress then [ cmd "M compression" [0x4d; 2] ] else []) ++
      [ raster_paced p lines (streaming o);
        cmd "print" [0x1a] ]).

(** The match of [plan_inner] over the protocols. *)
Definition plan_body (p : PrinterDefinition) (r : Raster) (o : Options) :
    Result (Fault PlanError) (list Action) :=
  match protocol p with
  | MSeries => plan_m_series p r o
  | M02 => plan_m02 p r o
  | M04 => Ok (plan_m04 p r o)
  | M110 => plan_m110 p r o
  | DSeries => plan_d_series p r o
  | P12 => Ok (plan_p12 p r o)
  | Tspl => plan_tspl p r o
  | Brother => plan_brother p r o
  end.

(** ** Assembling a plan *)

Definition mk_plan (p : PrinterDefinition) (acts : list Action) : Plan :=
  {| plan_protocol := protocol p; source_commit := SOURCE_COMMIT; actions := acts |}.

(** The checks [plan_inner] makes before it builds anything. *)
Definition plan_guards (r : Raster) (o : Options) (limits : ProcessingLimits) :
    Result PlanError unit :=
  let? h := ok_or (checked usize_max (height r)) (Limit "raster bytes") in
  let? expected_raster_len := ok_or (checked usize_max (width_bytes r * h)) (Limit "raster bytes") in
  if negb (zlen (data r) =? expected_raster_len) then Err RasterLength
  else if negb ((1 <=? density o) && (density o <=? 8)) then Err (Range "density")
  else if copies o =? 0 then Err (Range "copies")
  else if max_copies limits <? copies o then Err (Limit "copies")
  else if cut o && (cut_every o =? 0) then Err (Range "cut every")
  else if lzo o then Err (Unsupported "LZO compression is not qualified for bundled printers")
  else Ok tt.

(** Credit-controlled GATT links subscribe before their first write. *)
Definition subscribe_actions (p : PrinterDefinition) : list Action :=
  match ble_gatt p with
  | Some gatt => if bool_decide (is_Some (flow_control gatt)) then [SubscribeNotifications] else []
  | None => []
  end.

(** The part of [plan_inner] reached by Tspl jobs and by single copies. *)
Definition plan_single (p : PrinterDefinition) (r : Raster) (o : Options) :
    Result (Fault PlanError) Plan :=
  let? body := plan_body p r o in
  Ok (mk_plan p ([JobBoundary Start] ++ (subscribe_actions p ++ body) ++ [JobBoundary End_])).

Definition action_owned_bytes (a : Action) : option Z :=
  match a with
  | CommandWrite name bytes _ => checked usize_max (Z.of_nat (String.length name) + zlen bytes)
  | RasterWrite bytes _ _ => Some (zlen bytes)
  | _ => Some 0
  end.

Fixpoint plan_owned_bytes_from (total : Z) (acts : list Action) : Result PlanError Z :=
  match acts with
  | [] => Ok total
  | a :: acts =>
      let? bytes := ok_or (action_owned_bytes a) (Limit "owned bytes") in
      let? total := ok_or (checked usize_max (total + bytes)) (Limit "owned bytes") in
      plan_owned_bytes_from total acts
  end.

Definition plan_owned_bytes (acts : list Action) : Result PlanError Z :=
  plan_owned_bytes_from 0 acts.

Definition enforce_plan_limits (acts : list Action) (limits : ProcessingLimits) :
    Result PlanError unit :=
  if max_plan_actions limits <? zlen acts then Err (Limit "actions")
  else
    let? bytes := plan_owned_bytes acts in
    if max_plan_bytes limits <? bytes then Err (Limit "owned bytes") else Ok tt.

(** [&actions[1..actions.len() - 1]]: a plan without its job boundaries. *)
Definition plan_inside (pl : Plan) : Actions :=
  match get_range (actions pl) 1 (zlen (actions pl) - 1) with Some l => Ok l | None => Err Panicked end.

(** [plan_inner]. The recursive call is on [single], whose [copies] is 1, so
    it runs the guards again and then takes the other branch. *)
Definition plan_inner (p : PrinterDefinition) (r : Raster) (o : Options)
    (limits : ProcessingLimits) : Result (Fault PlanError) Plan :=
  let? _ := raising (plan_guards r o limits) in
  if negb (bool_decide (protocol p = Tspl)) && (1 <? copies o) then
    let single := with_copies 1 o in
    let? _ := raising (plan_guards r single limits) in
    let? base := plan_single p r single in
    let? body := plan_inside base in
    let? scaled := raising (ok_or (checked usize_max (zlen body * copies o)) (Limit "actions")) in
    let? action_count := raising (ok_or (checked usize_max (scaled + 2)) (Limit "actions")) in
    if max_plan_actions limits <? action_count then fail (Limit "actions")
    else
    let? body_bytes := raising (plan_owned_bytes body) in
    let? expanded_bytes :=
      raising (ok_or (checked usize_max (body_bytes * copies o)) (Limit "owned bytes")) in
    if max_plan_bytes limits <? expanded_bytes then fail (Limit "owned bytes")
    else
    Ok (mk_plan p ([JobBoundary Start] ++ repeat_actions (copies o) body ++ [JobBoundary End_]))
  else plan_single p r o.

Definition plan_with_limits (p : PrinterDefinition) (r : Raster) (o : Options)
    (limits : ProcessingLimits) : Result (Fault PlanError) Plan :=
  let? pl := plan_inner p r o limits in
  let? _ := raising (enforce_plan_limits (actions pl) limits) in
  Ok pl.

Definition plan (p : PrinterDefinition) (r : Raster) (o : Options) : Result (Fault PlanError) Plan :=
  plan_with_limits p r o ProcessingLimits_default.

(** ** Batches *)

Definition is_command (name : string) (a : Action) : bool :=
  match a with
  | CommandWrite n _ _ => bool_decide (n = name)
  | _ => false
  end.

(** [iter().position(p)] followed by the slice from that position. *)
Fixpoint from_position (f : Action -> bool) (acts : list Action) : option (list Action) :=
  match acts with
  | [] => None
  | a :: rest => if f a then Some acts else from_position f rest
  end.

(** What a page after the first contributes. *)
Definition later_page (body : list Action) : Result PlanError (list Action) :=
  let? page := ok_or (from_position (is_command PRINT_INFO) body)
                     (Unsupported "Brother batch page boundary") in
  Ok (List.filter (fun a => negb (is_command AUTOCUT a || is_command CUT_EVERY a)) page).

(** The loop over [rasters.iter().enumerate()]; [index = 0] is [first]. *)
Fixpoint batch_pages (p : PrinterDefinition) (o : Options) (limits : ProcessingLimits)
    (first : bool) (rasters : list Raster) : Result (Fault PlanError) (list Action) :=
  match rasters with
  | [] => Ok []
  | raster :: rasters =>
      let? page := plan_inner p raster o limits in
      let? body := plan_inside page in
      let? acts := if first then Ok (JobBoundary Start :: body) else raising (later_page body) in
      let? rest := batch_pages p o limits false rasters in
      Ok (acts ++ rest)
  end.

Definition plan_batch_with_limits (p : PrinterDefinition) (rasters : list Raster) (o : Options)
    (limits : ProcessingLimits) : Result (Fault PlanError) Plan :=
  if bool_decide (rasters = []) then fail (Range "batch documents")
  else if negb (bool_decide (protocol p = Brother))
  then fail (Unsupported "native variable-raster batch")
  else if negb (copies o =? 1) then fail (Range "batch copies must be expanded")
  else
    let? pages := batch_pages p o limits true rasters in
    let acts := pages ++ [JobBoundary End_] in
    let? _ := raising (enforce_plan_limits acts limits) in
    Ok (mk_plan p acts).

(** ** Status plans *)

Definition brother_status_plan (p : PrinterDefinition) : Plan := {|
  plan_protocol := Brother;
  source_commit := SOURCE_COMMIT;
  actions :=
    [ cmd "invalidate" (replicate (Z.to_nat (invalidate_bytes p)) 0);
      cmd "ESC @ init" [0x1b; 0x40];
      cmd "switch to raster mode" [0x1b; 0x69; 0x61; 1];
      Delay 100;
      cmd "ESC i S status request" [0x1b; 0x69; 0x53];
      WaitForResponse 3000 0 BrotherStatus32 ];
|}.

Definition PHOMEMO_QUERIES : list (string * Z) :=
  [ ("battery query", 0x08); ("paper query", 0x11); ("cover query", 0x12);
    ("firmware query", 0x07); ("serial query", 0x09); ("label query", 0x19) ].

Definition status_plan (p : PrinterDefinition) : Result PlanError Plan :=
  match protocol p with
  | Brother => Ok (brother_status_plan p)
  | MSeries | M02 | M04 | M110 | DSeries | P12 =>
      Ok (mk_plan p
        ([ SubscribeNotifications ] ++
         concat (map (fun '(name, code) =>
           [ cmd name [0x1f; 0x11; code];
             WaitForResponse 800 100 PhomemoNotification ]) PHOMEMO_QUERIES)))
  | Tspl => Err (Unsupported "status request")
  end.

(** ** The LZO container *)

Section Lzo.
(** [lzokay_native::compress]; [None] is its error. *)
Variable lzo_compress : list Z -> option (list Z).

Fixpoint lzo_blocks (blocks : list (list Z)) : Result PlanError (list Z) :=
  match blocks with
  | [] => Ok []
  | block :: blocks =>
      let? compressed := ok_or (lzo_compress block) (Range "lzo compression") in
      let length := zlen compressed in
      let? rest := lzo_blocks blocks in
      Ok ([as_u8 (length mod 256); as_u8 ((length / 256) mod 256);
           as_u8 ((length / 65536) mod 256)] ++ compressed ++ rest)
  end.

Definition lzo_raster (r : Raster) : Result PlanError (list Z) :=
  let? blocks := lzo_blocks (chunks 4096 (data r)) in
  Ok (to_le_bytes 2 (width_bytes r) ++ to_le_bytes 2 (as_u16 (height r)) ++ blocks).
End Lzo.
