(* ===== verification/ProtocolFacts.v ===== *)
(** Properties of the plan builder: framing, limits, copies, panics, the
    consistency of raster headers with their payload, and batches. *)

From stdpp Require Import base list strings sets numbers option.
From S2P Require Import Prelude Bits Capabilities ProtocolTypes Packbits BrotherRaster Protocol.

#[local] Open Scope Z_scope.

(** ** Generic lemmas *)

Definition is_boundary (a : Action) : bool :=
  match a with JobBoundary _ => true | _ => false end.

Lemma plan_inside_mk p l :
  plan_inside (mk_plan p ([JobBoundary Start] ++ l ++ [JobBoundary End_])) = Ok l.
Proof.
  unfold plan_inside, mk_plan. cbn [actions]. rewrite !zlen_app.
  replace (zlen [JobBoundary Start] + (zlen l + zlen [JobBoundary End_]) - 1) with (zlen [JobBoundary Start] + zlen l)
    by (unfold zlen; simpl; lia).
  change 1 with (zlen [JobBoundary Start]). by rewrite get_range_app.
Qed.

Lemma Forall_repeat_actions (P : Action -> Prop) n body :
  Forall P body -> Forall P (repeat_actions n body).
Proof.
  intros H. unfold repeat_actions. apply Forall_concat, Forall_replicate, H.
Qed.

Lemma zlen_repeat_actions n body :
  0 <= n -> zlen (repeat_actions n body) = n * zlen body.
Proof.
  intros Hn. unfold repeat_actions. rewrite <- (Z2Nat.id n) at 2 by done.
  induction (Z.to_nat n) as [|k IH]; [done|]. cbn [replicate concat].
  rewrite zlen_app, IH. lia.
Qed.

Lemma Forall_concat_map {A B} (P : B -> Prop) (f : A -> list B) l :
  Forall (fun x => Forall P (f x)) l -> Forall P (concat (map f l)).
Proof. induction 1; simpl; [constructor|]. apply Forall_app; auto. Qed.

(** Decomposes a [Forall] over the literal lists of the planner. *)
Ltac forall_list :=
  repeat match goal with
  | |- Forall _ [] => constructor
  | |- Forall _ (_ :: _) => constructor
  | |- Forall _ (_ ++ _) => apply Forall_app; split
  | |- Forall _ (concat (map _ _)) => apply Forall_concat_map
  | |- Forall _ (repeat_actions _ _) => apply Forall_repeat_actions
  | |- Forall _ (if ?b then _ else _) => destruct b
  end.

(** ** The density tables *)

Lemma table_entry_ok {E} (l : list Z) i a : bytes_ok l -> @index E Z l i = Ok a -> byte_ok a.
Proof. intros Hl [_ Ha%list_elem_of_lookup_2]%index_Ok. revert a Ha. by apply list.Forall_forall. Qed.

Lemma heat_Ok d bytes : heat d = Ok bytes -> exists level, byte_ok level /\ bytes = [0x1b; 0x37; 7; level; 2].
Proof.
  unfold heat. intros H. inv_ok H. subst bytes. exists x. split; [|done].
  eapply table_entry_ok; [|exact Hx]. repeat constructor; lia.
Qed.

Lemma m110_density_Ok d bytes : m110_density d = Ok bytes -> exists level, byte_ok level /\ bytes = [0x1b; 0x4e; 4; level].
Proof.
  unfold m110_density. intros H. inv_ok H. subst bytes. exists x. split; [|done].
  eapply table_entry_ok; [|exact Hx]. repeat constructor; lia.
Qed.

(** A density that the guards accept has an entry in both tables. *)
Lemma density_in_tables d : 1 <= d <= 8 -> panics (heat d) = false /\ panics (m110_density d) = false.
Proof.
  intros Hd. split; apply panics_bind; try done.
  - by destruct (@index_in_range PlanError _ [40; 60; 80; 100; 120; 140; 160; 200] (d - 1)) as (a & -> & _); [unfold zlen; simpl; lia|].
  - by destruct (@index_in_range PlanError _ [0; 6; 8; 9; 10; 11; 12; 14; 15] d) as (a & -> & _); [unfold zlen; simpl; lia|].
Qed.

(** The page of a protocol with a density table: the entry found. *)
Ltac table_entry H :=
  let level := fresh "level" in let Hlevel := fresh "Hlevel" in
  unfold plan_m_series, plan_m02, plan_m110, plan_d_series in H; inv_ok H;
  match goal with
  | X : heat _ = Ok _ |- _ => apply heat_Ok in X as (level & Hlevel & ->)
  | X : m110_density _ = Ok _ |- _ => apply m110_density_Ok in X as (level & Hlevel & ->)
  end.

(** ** Shape of the actions of one page *)

Definition show_dec_width : Z := 20.

Lemma zlen_decimal v : zlen (decimal v) <= 42.
Proof.
  unfold decimal. pose proof (zlen_show_dec (Z.abs v / 10)).
  pose proof (zlen_show_dec (Z.abs v mod 10)).
  destruct (v <? 0), (_ =? 0); zlen_lia.
Qed.

(** The longest command of a page other than the Brother invalidate preamble. *)
Definition max_command (p : PrinterDefinition) : Z := Z.max 128 (invalidate_bytes p).

(** What every action between the job boundaries looks like. *)
Definition page_action (p : PrinterDefinition) (a : Action) : Prop :=
  match a with
  | JobBoundary _ => False
  | SubscribeNotifications => True
  | CommandWrite _ bytes atomic => atomic = true /\ zlen bytes <= max_command p
  | RasterWrite _ chunk ms => chunk = chunk_size p /\ 0 <= ms <= chunk_delay_ms p
  | Delay ms => 0 <= ms
  | WaitForResponse t f v => 0 < t /\ 0 <= f /\ (v = AnyNotification \/ v = BrotherStatus32)
  | CollectResponse _ _ _ _ => False
  end.

Lemma page_cmd p name bytes :
  zlen bytes <= max_command p -> page_action p (cmd name bytes).
Proof. simpl. auto. Qed.

Lemma page_raster p bytes s : page_action p (raster_paced p bytes s).
Proof. simpl. pose proof (chunk_delay_nonneg p). destruct s; lia. Qed.

Ltac page_side :=
  match goal with
  | |- page_action _ (cmd _ _) => apply page_cmd
  | |- page_action _ (raster_paced _ _ _) => apply page_raster
  | |- page_action _ _ => simpl; intuition lia
  end;
  unfold max_command, header, tspl, brother_print_info, d_series_raster; try zlen_lia.

Lemma tspl_setup_lengths w h o : Forall (fun s => zlen s <= 110) (tspl_setup w h o).
Proof.
  unfold tspl_setup, fmt_mm.
  repeat match goal with
  | |- context [decimal ?v] => let D := fresh "D" in
      pose proof (zlen_decimal v) as D; generalize dependent (decimal v); intros
  | |- context [show_dec ?v] => let D := fresh "D" in
      pose proof (zlen_show_dec v) as D; generalize dependent (show_dec v); intros
  end.
  forall_list; zlen_lia.
Qed.

Lemma bitmap_header_length r o : zlen (bitmap_header r o) <= 110.
Proof.
  unfold bitmap_header.
  pose proof (zlen_show_dec (offset_x o)). pose proof (zlen_show_dec (offset_y o)).
  pose proof (zlen_show_dec (width_bytes r)). pose proof (zlen_show_dec (height r)).
  zlen_lia.
Qed.

Lemma page_tspl p w h r o s n :
  Forall (page_action p)
    (concat (map (fun s => [cmd "TSPL" (tspl s); delay 50]) (tspl_setup w h o)) ++
      [ cmd "BITMAP header" (bitmap_header r o);
        raster_paced p s (streaming o);
        cmd "bitmap terminator" [13; 10];
        delay 50;
        cmd "TSPL" (tspl (str "PRINT " ++ show_dec n));
        delay 50;
        cmd "TSPL" (tspl (str "END")) ]).
Proof.
  pose proof (bitmap_header_length r o). pose proof (zlen_show_dec n).
  apply Forall_app; split.
  - apply Forall_concat_map. eapply Forall_impl; [|apply tspl_setup_lengths].
    intros c Hc. forall_list; page_side.
  - forall_list; page_side.
Qed.

(** Every action of a page body, for every protocol, has the expected shape. *)
Lemma plan_body_actions p r o body :
  plan_body p r o = Ok body -> 0 <= invalidate_bytes p -> Forall (page_action p) body.
Proof.
  intros H Hinv. unfold plan_body in H. destruct (protocol p) eqn:Hp.
  - table_entry H. subst body. forall_list; page_side.
  - table_entry H. subst body. forall_list; page_side.
  - injection H as <-. unfold plan_m04. forall_list; page_side.
  - table_entry H. subst body. forall_list; page_side.
  - table_entry H. subst body. forall_list; page_side.
  - injection H as <-. unfold plan_p12, p12_init_packets. cbn [map concat]. forall_list; page_side.
  - unfold plan_tspl in H. inv_ok H. subst body. apply page_tspl.
  - unfold plan_brother in H. inv_ok H. subst body.
    forall_list; page_side.
Qed.

Lemma subscribe_page p : Forall (page_action p) (subscribe_actions p).
Proof. unfold subscribe_actions. destruct (ble_gatt p); [|constructor]. by forall_list. Qed.

(** ** Guards *)

(** The options and raster a plan is built for. *)
Definition plan_accepted (r : Raster) (o : Options) (limits : ProcessingLimits) : Prop :=
  zlen (data r) = width_bytes r * height r /\
  1 <= density o <= 8 /\
  1 <= copies o <= max_copies limits /\
  (cut o = true -> cut_every o <> 0) /\
  lzo o = false.

Lemma raster_area_fits r : raster_ok r -> in_u usize_max (height r) /\ in_u usize_max (width_bytes r * height r).
Proof. unfold raster_ok, in_u, usize_max, u64_max, u32_max, u16_max. nia. Qed.

Lemma plan_guards_iff r o limits :
  raster_ok r -> 0 <= copies o ->
  plan_guards r o limits = Ok tt <-> plan_accepted r o limits.
Proof.
  intros Hr Hc. destruct (raster_area_fits r Hr) as [Hh Ha].
  unfold plan_guards, plan_accepted.
  rewrite (proj2 (checked_Some usize_max (height r) _)) by done. cbn [ok_or rbind].
  rewrite (proj2 (checked_Some usize_max _ _)) by done. cbn [ok_or rbind].
  repeat match goal with |- context [if ?b then _ else _] => destruct b eqn:? end;
    split; intros H; try discriminate; try reflexivity;
    destruct (cut o); naive_solver blia.
Qed.

(** ** Copies *)

Lemma plan_body_copies p r o n :
  protocol p <> Tspl -> plan_body p r (with_copies n o) = plan_body p r o.
Proof. unfold plan_body. by destruct (protocol p). Qed.

Lemma plan_guards_single r o limits :
  plan_guards r o limits = Ok tt -> 0 <= copies o -> plan_guards r (with_copies 1 o) limits = Ok tt.
Proof.
  unfold plan_guards. intros H Hc. inv_ok H.
  cbn [with_copies density cut cut_every lzo copies].
  rewrite Hx. cbn [ok_or rbind]. rewrite Hx0. cbn [ok_or rbind]. rewrite Hb, Hb0, Hb3, Hb4.
  destruct (Z.ltb_spec (max_copies limits) 1); [lia|]. done.
Qed.

Lemma repeat_actions_1 l : repeat_actions 1 l = l.
Proof. unfold repeat_actions. simpl. apply app_nil_r. Qed.

(** A page: the actions between the boundaries of a single copy. *)
Definition page (p : PrinterDefinition) (body : list Action) : list Action :=
  subscribe_actions p ++ body.

Definition framed (p : PrinterDefinition) (acts : list Action) : Plan :=
  mk_plan p ([JobBoundary Start] ++ acts ++ [JobBoundary End_]).

Lemma plan_inner_Ok p r o limits pl :
  plan_inner p r o limits = Ok pl -> 0 <= copies o ->
  plan_guards r o limits = Ok tt /\
  exists body, plan_body p r o = Ok body /\
    pl = framed p (if bool_decide (protocol p = Tspl) then page p body
                   else repeat_actions (copies o) (page p body)).
Proof.
  unfold plan_inner. intros H Hc. apply rbind_Ok in H as ([] & Hg & H).
  apply (proj1 (raising_Ok _ _)) in Hg. split; [done|].
  destruct (negb _ && _) eqn:Hcond.
  - inv_ok H. subst pl. apply andb_true_iff in Hcond as [Ht Hn].
    case_bool_decide as Hp; [done|].
    unfold plan_single in Hx0. inv_ok Hx0. subst x0.
    rewrite plan_inside_mk in *. simplify_eq. rewrite plan_body_copies in Hx6 by done. eauto.
  - unfold plan_single in H. inv_ok H. subst pl. exists x. split; [done|].
    case_bool_decide as Hp; [done|]. simpl in Hcond.
    assert (copies o = 1) as ->.
    { unfold plan_guards in Hg. inv_ok Hg. blia. }
    by rewrite repeat_actions_1.
Qed.

(** ** Owned bytes *)

(** What a plan holds: command names, command bytes and raster bytes. *)
Definition owned_bytes (acts : list Action) : Z :=
  foldr (fun a n => match a with
                    | CommandWrite name bytes _ => Z.of_nat (String.length name) + zlen bytes
                    | RasterWrite bytes _ _ => zlen bytes
                    | _ => 0
                    end + n) 0 acts.

Lemma owned_bytes_nonneg acts : 0 <= owned_bytes acts.
Proof.
  induction acts as [|[] acts IH]; simpl; try lia; pose proof (zlen_nonneg bytes); lia.
Qed.

Lemma owned_bytes_app l k : owned_bytes (l ++ k) = owned_bytes l + owned_bytes k.
Proof. induction l as [|a l IH]; simpl; [done|]. rewrite IH. lia. Qed.

Lemma owned_bytes_repeat n l : 0 <= n -> owned_bytes (repeat_actions n l) = n * owned_bytes l.
Proof.
  intros Hn. unfold repeat_actions. rewrite <- (Z2Nat.id n) at 2 by done.
  induction (Z.to_nat n) as [|k IH]; [done|]. cbn [replicate concat].
  rewrite owned_bytes_app, IH. lia.
Qed.

Lemma action_owned_bytes_Some a n : action_owned_bytes a = Some n -> n = owned_bytes [a].
Proof.
  destruct a; simpl; intros H; simplify_eq; try lia.
  apply checked_Some in H as [_ ->]. lia.
Qed.

Lemma plan_owned_bytes_from_Ok total acts n :
  plan_owned_bytes_from total acts = Ok n -> n = total + owned_bytes acts.
Proof.
  revert total. induction acts as [|a acts IH]; intros total H.
  - simpl in *. injection H as ->. lia.
  - cbn [plan_owned_bytes_from] in H. inv_ok H.
    apply action_owned_bytes_Some in Hx. apply checked_Some in Hx0 as [_ ->].
    apply IH in H. rewrite (owned_bytes_app [a] acts : owned_bytes (a :: acts) = _). lia.
Qed.

Lemma plan_owned_bytes_from_total total acts :
  0 <= total -> total + owned_bytes acts <= usize_max ->
  plan_owned_bytes_from total acts = Ok (total + owned_bytes acts).
Proof.
  revert total. induction acts as [|a acts IH]; intros total H0 H.
  - simpl. f_equal. lia.
  - rewrite (owned_bytes_app [a] acts : owned_bytes (a :: acts) = _) in *.
    pose proof (owned_bytes_nonneg acts). pose proof (owned_bytes_nonneg [a]).
    cbn [plan_owned_bytes_from].
    assert (action_owned_bytes a = Some (owned_bytes [a])) as ->.
    { destruct a; simpl in *; f_equal; try lia. apply checked_Some. unfold in_u. lia. }
    cbn [ok_or rbind].
    rewrite (proj2 (checked_Some usize_max _ _)) by (unfold in_u; split; [lia|done]).
    cbn [ok_or rbind]. rewrite IH by lia. f_equal. lia.
Qed.

Lemma enforce_plan_limits_iff acts limits :
  max_plan_bytes limits <= usize_max ->
  enforce_plan_limits acts limits = Ok tt <->
  zlen acts <= max_plan_actions limits /\ owned_bytes acts <= max_plan_bytes limits.
Proof.
  intros Hmax. unfold enforce_plan_limits, plan_owned_bytes. split.
  - intros H. inv_ok H. apply plan_owned_bytes_from_Ok in Hx. blia.
  - intros [Ha Hb]. destruct (Z.ltb_spec (max_plan_actions limits) (zlen acts)); [lia|].
    rewrite plan_owned_bytes_from_total by lia. cbn [rbind].
    destruct (Z.ltb_spec (max_plan_bytes limits) (0 + owned_bytes acts)); [lia|done].
Qed.

(** ** The builder against its specification *)

(** How many times the page of a job is sent by the host. TSPL printers repeat
    the page themselves. *)
Definition host_copies (p : PrinterDefinition) (o : Options) : Z :=
  if bool_decide (protocol p = Tspl) then 1 else copies o.

Definition plan_fits (n : Z) (pg : list Action) (limits : ProcessingLimits) : Prop :=
  n * zlen pg + 2 <= max_plan_actions limits /\ n * owned_bytes pg <= max_plan_bytes limits.

Definition limits_ok (limits : ProcessingLimits) : Prop :=
  in_u usize_max (max_plan_actions limits) /\ in_u usize_max (max_plan_bytes limits).

Lemma framed_size p n pg :
  0 <= n ->
  zlen (actions (framed p (repeat_actions n pg))) = n * zlen pg + 2 /\
  owned_bytes (actions (framed p (repeat_actions n pg))) = n * owned_bytes pg.
Proof.
  intros Hn. simpl. rewrite zlen_cons, zlen_app, owned_bytes_app.
  rewrite zlen_repeat_actions, owned_bytes_repeat by done. simpl. unfold zlen at 2. simpl. lia.
Qed.

Lemma repeat_host_copies p o pg :
  (if bool_decide (protocol p = Tspl) then pg else repeat_actions (copies o) pg) =
  repeat_actions (host_copies p o) pg.
Proof.
  unfold host_copies. case_bool_decide; [|done]. symmetry. apply repeat_actions_1.
Qed.

Lemma host_copies_pos p r o limits : plan_accepted r o limits -> 1 <= host_copies p o.
Proof. unfold plan_accepted, host_copies. case_bool_decide; lia. Qed.

(** The pre-allocation checks of the copies branch succeed exactly when the
    expanded plan fits. *)
Lemma plan_inner_complete p r o limits body :
  plan_body p r o = Ok body -> plan_guards r o limits = Ok tt -> 0 <= copies o ->
  limits_ok limits -> plan_fits (host_copies p o) (page p body) limits ->
  plan_inner p r o limits = Ok (framed p (repeat_actions (host_copies p o) (page p body))).
Proof.
  intros Hb Hg Hc [HLa HLb] [Ha Hby]. unfold in_u in *. unfold plan_inner. rewrite Hg.
  cbn [raising map_err rbind].
  pose proof (zlen_nonneg (page p body)). pose proof (owned_bytes_nonneg (page p body)).
  rewrite <- repeat_host_copies. unfold host_copies in *.
  destruct (negb _ && _) eqn:Hcond.
  - apply andb_true_iff in Hcond as [Ht Hn]. case_bool_decide as Hp; [done|].
    rewrite plan_guards_single by done. cbn [raising map_err rbind].
    unfold plan_single. rewrite plan_body_copies, Hb by done. cbn [rbind].
    rewrite plan_inside_mk. cbn [rbind]. fold (page p body).
    rewrite (proj2 (checked_Some usize_max (zlen (page p body) * copies o) _))
      by (split; [unfold in_u; nia|done]). cbn [ok_or raising map_err rbind].
    rewrite (proj2 (checked_Some usize_max _ _)) by (split; [unfold in_u; nia|done]).
    cbn [ok_or raising map_err rbind].
    destruct (Z.ltb_spec (max_plan_actions limits) (zlen (page p body) * copies o + 2)); [lia|].
    unfold plan_owned_bytes. rewrite plan_owned_bytes_from_total by (simpl; nia).
    cbn [ok_or raising map_err rbind]. rewrite Z.add_0_l.
    rewrite (proj2 (checked_Some usize_max _ _)) by (split; [unfold in_u; nia|done]).
    cbn [ok_or raising map_err rbind].
    destruct (Z.ltb_spec (max_plan_bytes limits) (owned_bytes (page p body) * copies o)); [lia|done].
  - unfold plan_single. rewrite Hb. cbn [rbind]. f_equal.
    case_bool_decide as Hp; [done|]. simpl in Hcond.
    assert (copies o = 1) as ->.
    { unfold plan_guards in Hg. inv_ok Hg. blia. }
    by rewrite repeat_actions_1.
Qed.

Lemma plan_with_limits_iff p r o limits body pl :
  plan_body p r o = Ok body -> raster_ok r -> 0 <= copies o -> limits_ok limits ->
  plan_with_limits p r o limits = Ok pl <->
  plan_accepted r o limits /\ plan_fits (host_copies p o) (page p body) limits /\
  pl = framed p (repeat_actions (host_copies p o) (page p body)).
Proof.
  intros Hb Hr Hc HL. unfold plan_with_limits. split.
  - intros H. inv_ok H. subst x. apply plan_inner_Ok in Hx as [Hg (body' & Hb' & ->)]; [|done].
    rewrite Hb in Hb'. apply Ok_inj in Hb' as <-. apply plan_guards_iff in Hg; [|done..].
    rewrite repeat_host_copies in Hx0 |- *. destruct x0.
    apply enforce_plan_limits_iff in Hx0; [|apply HL].
    pose proof (host_copies_pos p _ _ _ Hg).
    destruct (framed_size p (host_copies p o) (page p body)) as [E1 E2]; [lia|].
    split; [done|]. split; [|done]. unfold plan_fits. lia.
  - intros (Hg & Hf & ->). pose proof (host_copies_pos p _ _ _ Hg).
    apply plan_guards_iff in Hg; [|done..].
    rewrite (plan_inner_complete p r o limits body) by done. cbn [rbind].
    rewrite (proj2 (enforce_plan_limits_iff _ limits (proj2 (proj2 HL)))); [done|].
    destruct (framed_size p (host_copies p o) (page p body)) as [-> ->]; [lia|]. exact Hf.
Qed.

(** C3: the plan builder refines its specification. Given the page a protocol
    produces, [plan_with_limits] succeeds exactly when the raster and options
    are acceptable and the expanded job fits the action and byte limits, and
    the plan is then the page repeated once per host-side copy between one
    start and one end boundary. *)
Theorem plan_with_limits_spec p r o limits body pl :
  plan_body p r o = Ok body -> raster_ok r -> 0 <= copies o -> limits_ok limits ->
  plan_with_limits p r o limits = Ok pl <->
  plan_accepted r o limits /\ plan_fits (host_copies p o) (page p body) limits /\
  pl = framed p (repeat_actions (host_copies p o) (page p body)).
Proof. apply plan_with_limits_iff. Qed.

(** What a plan is, however it was obtained. *)
Lemma plan_shape p r o limits pl :
  plan_with_limits p r o limits = Ok pl -> 0 <= copies o -> 0 <= invalidate_bytes p ->
  exists inside, pl = framed p inside /\ Forall (page_action p) inside.
Proof.
  intros H Hc Hi. unfold plan_with_limits in H. inv_ok H. subst x.
  apply plan_inner_Ok in Hx as [Hg (body & Hb & ->)]; [|done].
  eexists. split; [reflexivity|].
  assert (Forall (page_action p) (page p body)).
  { apply Forall_app. split; [apply subscribe_page|by eapply plan_body_actions]. }
  case_bool_decide; [done|]. by apply Forall_repeat_actions.
Qed.

(** framing. Every plan has exactly one start boundary, first, and one end
    boundary, last; between them every command is atomic and at most
    [max_command] bytes, every raster write uses the printer's chunk size and
    at most its chunk delay, and every wait has a positive timeout and a
    fixed-length validator. *)
Theorem plan_framed p r o limits pl :
  plan_with_limits p r o limits = Ok pl -> 0 <= copies o -> 0 <= invalidate_bytes p ->
  exists inside, actions pl = [JobBoundary Start] ++ inside ++ [JobBoundary End_] /\
    Forall (page_action p) inside /\ plan_protocol pl = protocol p.
Proof.
  intros H Hc Hi. destruct (plan_shape p r o limits pl H Hc Hi) as (inside & -> & Hin).
  by exists inside.
Qed.

(** ** Panics *)

Lemma panics_ok_or {E A} (o : option A) (e : E) : panics (raising (ok_or o e)) = false.
Proof. apply panics_raising. Qed.

Lemma tspl_tenths_mm_no_panic dots d : 0 < d -> panics (tspl_tenths_mm dots d) = false.
Proof.
  intros Hd. unfold tspl_tenths_mm, saturate, u64_max.
  destruct (Z.eqb_spec (Z.max 0 (Z.min 18446744073709551615 (d * 8))) 0); [lia|done].
Qed.

Lemma unwrap_or_else_no_panic {E A} (o : option A) (f : Result (Fault E) A) :
  panics f = false -> panics (unwrap_or_else o f) = false.
Proof. by destruct o. Qed.

Lemma brother_raster_lines_no_panic r c :
  width_bytes r <> 0 -> panics (brother_raster_lines r c) = false.
Proof.
  intros H. unfold brother_raster_lines. destruct (Z.eqb_spec (width_bytes r) 0); done.
Qed.

Lemma plan_body_no_panic p r o :
  1 <= density o <= 8 -> 0 < width_bytes r -> 0 < dpi p -> panics (plan_body p r o) = false.
Proof.
  intros Hdensity Hw Hd. destruct (density_in_tables _ Hdensity) as [Hh Hm]. unfold plan_body. destruct (protocol p); try done.
  - by apply panics_bind.
  - by apply panics_bind.
  - by apply panics_bind.
  - by apply panics_bind.
  - unfold plan_tspl. repeat (apply panics_bind; [|intros]); try done;
      by apply unwrap_or_else_no_panic, tspl_tenths_mm_no_panic.
  - unfold plan_brother. apply panics_bind; [apply panics_raising|intros media _].
    destruct (_ && _); [done|]. destruct (_ && _); [done|].
    apply panics_bind; [|done]. apply brother_raster_lines_no_panic. lia.
Qed.

Lemma plan_guards_density r o limits : plan_guards r o limits = Ok tt -> 1 <= density o <= 8.
Proof. unfold plan_guards. intros H. inv_ok H. blia. Qed.

Lemma plan_inner_no_panic p r o limits :
  0 < width_bytes r -> 0 < dpi p -> panics (plan_inner p r o limits) = false.
Proof.
  intros Hw Hd. unfold plan_inner. apply panics_bind; [apply panics_raising|intros [] Hg].
  apply (proj1 (raising_Ok _ _)), plan_guards_density in Hg.
  assert (forall o', density o' = density o -> panics (plan_single p r o') = false) as Hs.
  { intros o' E. unfold plan_single. apply panics_bind; [|done]. apply plan_body_no_panic; [by rewrite E|done..]. }
  destruct (_ && _); [|by apply Hs].
  apply panics_bind; [apply panics_raising|intros _ _]. apply panics_bind; [by apply Hs|intros base Hbase].
  unfold plan_single in Hbase. inv_ok Hbase. subst base. rewrite plan_inside_mk. cbn [rbind].
  repeat match goal with
  | |- panics (rbind (raising _) _) = false => apply panics_bind; [apply panics_raising|intros ? _]
  | |- panics (if ?b then _ else _) = false => destruct b
  end; done.
Qed.

(** C7: no panic. For a raster with at least one byte per row and a printer
    with a non-zero resolution, building a plan always returns: a plan or a
    [PlanError], never a panic. *)
Theorem plan_never_panics p r o limits :
  0 < width_bytes r -> 0 < dpi p -> panics (plan_with_limits p r o limits) = false.
Proof.
  intros Hw Hd. unfold plan_with_limits.
  apply panics_bind; [by apply plan_inner_no_panic|intros pl _].
  apply panics_bind; [apply panics_raising|done].
Qed.

(** ** Which pages there are *)

(** The media of a Brother job and the rows that its printer admits. *)
Definition brother_admits (p : PrinterDefinition) (r : Raster) (o : Options) : Prop :=
  exists media, brother_media o = Some media /\
    (0 < min_rows p -> media_continuous media = true -> min_rows p <= height r) /\
    (0 < max_rows p -> height r <= max_rows p).

Lemma tspl_tenths_mm_Ok dots d : 0 < d -> exists v, tspl_tenths_mm dots d = Ok v.
Proof.
  intros Hd. unfold tspl_tenths_mm, saturate, u64_max.
  destruct (Z.eqb_spec (Z.max 0 (Z.min 18446744073709551615 (d * 8))) 0); [lia|by eexists].
Qed.

Lemma plan_body_iff p r o :
  1 <= density o <= 8 -> 0 < width_bytes r -> 0 < dpi p ->
  (exists body, plan_body p r o = Ok body) <-> (protocol p = Brother -> brother_admits p r o).
Proof.
  intros Hdensity Hw Hd.
  destruct (@index_in_range PlanError _ [40; 60; 80; 100; 120; 140; 160; 200] (density o - 1)) as (h & Hheat & _); [unfold zlen; simpl; lia|].
  destruct (@index_in_range PlanError _ [0; 6; 8; 9; 10; 11; 12; 14; 15] (density o)) as (m & Hm & _); [unfold zlen; simpl; lia|].
  unfold plan_body, plan_m_series, plan_m02, plan_m110, plan_d_series, heat, m110_density. rewrite Hheat, Hm. cbn [rbind].
  destruct (protocol p); try (split; [done|by eexists]).
  - split; [done|]. intros _. unfold plan_tspl.
    destruct (tspl_tenths_mm_Ok (width_bytes r * 8) (dpi p) Hd) as [w Ew]. destruct (tspl_tenths_mm_Ok (height r) (dpi p) Hd) as [l El].
    rewrite Ew, El. destruct (label_width_tenths_mm o), (label_height_tenths_mm o); by eexists.
  - unfold plan_brother, brother_raster_lines, brother_admits. destruct (Z.eqb_spec (width_bytes r) 0); [lia|]. split.
    + intros [body H] _. inv_ok H. exists x. split; [done|]. split.
      * intros Hmin Hcont. rewrite Hcont in Hb. blia.
      * intros Hmax. blia.
    + intros Hb. destruct (Hb eq_refl) as (media & -> & Hmin & Hmax). cbn [ok_or raising map_err rbind].
      destruct ((0 <? min_rows p) && _ && _) eqn:E1; [exfalso; destruct (media_continuous media); [|blia]; specialize (Hmin ltac:(blia) eq_refl); blia|].
      destruct ((0 <? max_rows p) && _) eqn:E2; [exfalso; specialize (Hmax ltac:(blia)); blia|]. by eexists.
Qed.

(** ** Raster headers *)

(** What a printer reads from a [GS v 0] command that ends a write: bytes per
    row and rows. *)
Definition gs_v0_dimensions (bytes : list Z) : option (Z * Z) :=
  match reverse bytes with
  | h1 :: h0 :: w1 :: w0 :: 0 :: 0x30 :: 0x76 :: 0x1d :: _ =>
      Some (of_le_bytes [w0; w1], of_le_bytes [h0; h1])
  | _ => None
  end.

Definition is_raster (a : Action) : bool :=
  match a with RasterWrite _ _ _ => true | _ => false end.

Lemma header_dimensions prefix r :
  in_u u16_max (width_bytes r) -> in_u u16_max (height r) ->
  gs_v0_dimensions (prefix ++ header r) = Some (width_bytes r, height r).
Proof.
  unfold in_u, u16_max. intros Hw Hh. unfold gs_v0_dimensions, header, as_u16.
  rewrite (Z.mod_small (height r)) by lia.
  pose proof (of_to_le_bytes 2 (width_bytes r)) as Ew. rewrite Z.mod_small in Ew by (simpl; lia).
  pose proof (of_to_le_bytes 2 (height r)) as Eh. rewrite Z.mod_small in Eh by (simpl; lia).
  cbn [to_le_bytes] in *. rewrite !reverse_app, !reverse_cons. cbn [reverse rev_append app].
  by rewrite <- Ew at 3; rewrite <- Eh at 3.
Qed.

(** The rows the payload of a page has: continuous D-series media get blank
    rows appended. *)
Definition payload_rows (p : PrinterDefinition) (r : Raster) (o : Options) : Z :=
  height r +
  (if bool_decide (protocol p = DSeries) && continuous o && (0 <? feed o) then 56 + feed o else 0).

(** The conclusion of [header_matches_payload] for one page. *)
Definition header_then_raster (p : PrinterDefinition) (r : Raster) (rows : Z) (body : list Action) : Prop :=
  exists before name bytes payload blank ms after,
    body = before ++ CommandWrite name bytes true :: RasterWrite payload (chunk_size p) ms :: after /\
    gs_v0_dimensions bytes = Some (width_bytes r, rows) /\
    zlen payload = width_bytes r * rows /\
    payload = data r ++ replicate blank 0 /\
    Forall (fun a => is_raster a = false) (before ++ after).

Lemma header_then_raster_intro p r q rows body before name prefix blank s after :
  body = before ++ cmd name (prefix ++ header q) :: raster_paced p (data q) s :: after ->
  in_u u16_max (width_bytes r) -> in_u u16_max rows ->
  width_bytes q = width_bytes r -> height q = rows ->
  data q = data r ++ replicate blank 0 -> zlen (data q) = width_bytes r * rows ->
  Forall (fun a => is_raster a = false) (before ++ after) ->
  header_then_raster p r rows body.
Proof.
  intros -> Hw Hr Ew Eh Ed El Hn. do 7 eexists. split; [reflexivity|].
  split_and!; [|done|done|done].
  rewrite header_dimensions by (rewrite ?Ew, ?Eh; done). by rewrite Ew, Eh.
Qed.

(** raster headers match their payload. For the six Phomemo protocols, a
    page has exactly one raster write; the command just before it announces
    [width_bytes] bytes per row and a number of rows whose product is the
    length of the payload, and the payload starts with the raster's data,
    provided the rows fit the 16-bit field of the header. *)
Theorem header_matches_payload p r o body :
  plan_body p r o = Ok body -> protocol p <> Tspl -> protocol p <> Brother ->
  raster_ok r -> 0 <= feed o -> zlen (data r) = width_bytes r * height r ->
  payload_rows p r o <= u16_max ->
  header_then_raster p r (payload_rows p r o) body.
Proof.
  intros Hb Ht Hbr (Hw & Hh & _) Hf Hlen Hrows.
  assert (in_u u16_max (payload_rows p r o)) as Hr.
  { split; [|done]. unfold payload_rows, in_u in *. destruct (_ && _ && _) eqn:E; blia. }
  assert (data r = data r ++ replicate 0 0) as Hd by (by rewrite app_nil_r).
  unfold plan_body in Hb. destruct (protocol p) eqn:Hp; try done.
  all: try (assert (payload_rows p r o = height r) as E
    by (unfold payload_rows; rewrite Hp; simpl; lia); rewrite E in *).
  - table_entry Hb; subst body.
    eapply (header_then_raster_intro p r r _ _ [_; _; _; _; _; _] "GS v 0 raster header" [] 0 (streaming o)); [reflexivity|done..|by forall_list].
  - table_entry Hb; subst body.
    eapply (header_then_raster_intro p r r _ _ [_; _; _; _; _; _] "GS v 0 raster header" [] 0 (streaming o)); [reflexivity|done..|by forall_list].
  - apply Ok_inj in Hb as <-.
    eapply (header_then_raster_intro p r r _ _ [_; _; _; _; _; _; _; _] "GS v 0 raster header" [] 0 (streaming o)); [reflexivity|done..|by forall_list].
  - table_entry Hb; subst body.
    eapply (header_then_raster_intro p r r _ _ [_; _; _; _; _; _] "GS v 0 raster header" [] 0 (streaming o)); [reflexivity|done..|by forall_list].
  - table_entry Hb. subst body.
    eapply (header_then_raster_intro p r (d_series_raster r o) _ _ [_; _; _; _]
      "ESC @ init + GS v 0 raster header" [0x1b; 0x40]
      (if continuous o && (0 <? feed o) then Z.to_nat ((56 + feed o) * width_bytes r) else 0)
      (streaming o)); [reflexivity|..]; try done.
    all: unfold in_u, u16_max, payload_rows, d_series_raster in *; rewrite ?Hp in *; simpl in *.
    all: destruct (continuous o && _) eqn:Ec; simpl; try done; try lia.
    + unfold as_u32. apply Z.mod_small. lia.
    + rewrite zlen_app, zlen_replicate. nia.
    + by forall_list.
    + by forall_list.
  - apply Ok_inj in Hb as <-.
    eapply (header_then_raster_intro p r r _ _ [_; _; _; _; _; _; _; _; _; _; _; _; _] "ESC @ init + GS v 0 raster header" [0x1b; 0x40] 0 (streaming o)); [reflexivity|done..|by forall_list].
Qed.

(** ** Batches *)

Definition count_command (name : string) (acts : list Action) : nat :=
  length (List.filter (is_command name) acts).

Definition count_boundary (b : Boundary) (acts : list Action) : nat :=
  length (List.filter (fun a => bool_decide (a = JobBoundary b)) acts).

Definition raster_payloads (acts : list Action) : list (list Z) :=
  omap (fun a => match a with RasterWrite bytes _ _ => Some bytes | _ => None end) acts.

Lemma count_command_app name l k :
  count_command name (l ++ k) = (count_command name l + count_command name k)%nat.
Proof. unfold count_command. by rewrite List.filter_app, length_app. Qed.

Lemma count_boundary_app b l k :
  count_boundary b (l ++ k) = (count_boundary b l + count_boundary b k)%nat.
Proof. unfold count_boundary. by rewrite List.filter_app, length_app. Qed.

Lemma raster_payloads_app l k :
  raster_payloads (l ++ k) = raster_payloads l ++ raster_payloads k.
Proof. apply omap_app. Qed.

(** What one page of a batch contains: [setup] of the once-per-job setup
    commands, one print-information and print command and one raster. *)
Definition batch_page (o : Options) (setup : nat) (lines : list Z) (acts : list Action) : Prop :=
  count_command AUTOCUT acts = (if cut o then setup else 0)%nat /\
  count_command CUT_EVERY acts = (if cut o then setup else 0)%nat /\
  count_command "ESC i S status request" acts = setup /\
  count_command PRINT_INFO acts = 1%nat /\
  count_command "print" acts = 1%nat /\
  raster_payloads acts = [lines] /\
  count_boundary End_ acts = 0%nat.

Lemma brother_page p r o body :
  plan_brother p r o = Ok body ->
  exists lines, brother_raster_lines r (compress o && compression p) = Ok lines /\
    batch_page o 1 lines (page p body) /\ count_boundary Start (page p body) = 0%nat /\
    exists later, later_page (page p body) = Ok later /\ batch_page o 0 lines later /\
      count_boundary Start later = 0%nat.
Proof.
  unfold plan_brother. intros H. inv_ok H. subst body. exists x0. split; [done|].
  unfold page, subscribe_actions, batch_page, later_page.
  destruct (ble_gatt p) as [g|]; [destruct (flow_control g)|];
    destruct (cut o); destruct (compress o && compression p);
    (split; [by repeat split|]; split; [done|]; eexists; split; [reflexivity|]; by repeat split).
Qed.

Lemma batch_pages_spec p o limits first rasters acts :
  protocol p = Brother -> copies o = 1 ->
  batch_pages p o limits first rasters = Ok acts ->
  let n := length rasters in
  let setup := if first then (if decide (n = 0%nat) then 0 else 1)%nat else 0%nat in
  count_command AUTOCUT acts = (if cut o then setup else 0)%nat /\
  count_command CUT_EVERY acts = (if cut o then setup else 0)%nat /\
  count_command "ESC i S status request" acts = setup /\
  count_command PRINT_INFO acts = n /\
  count_command "print" acts = n /\
  Forall2 (fun r lines => brother_raster_lines r (compress o && compression p) = Ok lines)
    rasters (raster_payloads acts) /\
  count_boundary End_ acts = 0%nat /\ count_boundary Start acts = setup.
Proof.
  intros Hp Hc. revert first acts.
  induction rasters as [|r rasters IH]; intros first acts H.
  - simpl in H. apply Ok_inj in H as <-. destruct first, (cut o); by repeat split.
  - cbn [batch_pages] in H. apply rbind_Ok in H as (pl & Hpl & H).
    apply plan_inner_Ok in Hpl as [_ (body & Hb & ->)]; [|lia].
    case_bool_decide as Ht; [congruence|]. rewrite Hc, repeat_actions_1 in H.
    unfold framed in H. rewrite plan_inside_mk in H. cbn [rbind] in H.
    unfold plan_body in Hb. rewrite Hp in Hb.
    apply brother_page in Hb as (lines & Hl & P1 & S1 & later & El & P0 & S0).
    rewrite El in H. cbn [raising map_err] in H.
    apply rbind_Ok in H as (here & Hh & H). apply rbind_Ok in H as (rest & Hr & H).
    apply Ok_inj in H as <-. apply IH in Hr. clear IH. cbn zeta in *.
    rewrite !count_command_app, !count_boundary_app, raster_payloads_app.
    destruct Hr as (R1 & R2 & R3 & R4 & R5 & R6 & R7 & R8).
    rewrite R1, R2, R3, R4, R5, R7, R8.
    assert (batch_page o (if first then 1 else 0) lines here /\
            count_boundary Start here = (if first then 1 else 0)%nat) as [P S].
    { destruct first; apply Ok_inj in Hh as <-; [|done]. split; [exact P1|].
      change (JobBoundary Start :: page p body) with ([JobBoundary Start] ++ page p body).
      rewrite count_boundary_app, S1. done. }
    destruct P as (-> & -> & -> & -> & -> & -> & ->). rewrite S. cbn [length app].
    split_and!; try (destruct first, (cut o); simpl; repeat case_decide; done || lia).
    by constructor.
Qed.

(** batches share one setup. A batch plan of [n] rasters has one start and
    one end boundary, asks for the status once, configures the cutter once
    (when cutting), and has [n] print-information commands, [n] print commands
    and [n] raster writes, whose payloads are the framed lines of the rasters
    in order. *)
Theorem batch_shares_setup p rasters o limits pl :
  plan_batch_with_limits p rasters o limits = Ok pl ->
  count_boundary Start (actions pl) = 1%nat /\ count_boundary End_ (actions pl) = 1%nat /\
  count_command "ESC i S status request" (actions pl) = 1%nat /\
  count_command AUTOCUT (actions pl) = (if cut o then 1 else 0)%nat /\
  count_command CUT_EVERY (actions pl) = (if cut o then 1 else 0)%nat /\
  count_command PRINT_INFO (actions pl) = length rasters /\
  count_command "print" (actions pl) = length rasters /\
  Forall2 (fun r lines => brother_raster_lines r (compress o && compression p) = Ok lines)
    rasters (raster_payloads (actions pl)).
Proof.
  unfold plan_batch_with_limits. intros H. inv_ok H. subst pl.
  apply bool_decide_eq_false in Hb as Hn.
  apply negb_false_iff, bool_decide_eq_true in Hb0 as Hp.
  apply batch_pages_spec in Hx; [|done|blia]. cbn zeta in Hx.
  rewrite decide_False in Hx by (by intros ?%length_zero_iff_nil).
  destruct Hx as (E1 & E2 & E3 & E4 & E5 & E6 & E7 & E8). cbn [mk_plan actions].
  rewrite !count_command_app, !count_boundary_app, raster_payloads_app.
  rewrite E1, E2, E3, E4, E5, E7, E8. rewrite app_nil_r.
  split_and!; try done; simpl; try lia; destruct (cut o); lia.
Qed.

(** ** Bytes on the wire *)

(** The payload of a write action. *)
Definition action_bytes (a : Action) : list Z :=
  match a with
  | CommandWrite _ bytes _ => bytes
  | RasterWrite bytes _ _ => bytes
  | _ => []
  end.

Lemma bytes_ok_app l k : bytes_ok (l ++ k) <-> bytes_ok l /\ bytes_ok k.
Proof. apply Forall_app. Qed.

Lemma bytes_ok_cons b l : bytes_ok (b :: l) <-> byte_ok b /\ bytes_ok l.
Proof. apply Forall_cons_iff. Qed.

Lemma bytes_ok_nil : bytes_ok [].
Proof. constructor. Qed.

Lemma bytes_ok_replicate n b : byte_ok b -> bytes_ok (replicate n b).
Proof. apply Forall_replicate. Qed.

Lemma decimal_ok v : bytes_ok (decimal v).
Proof.
  unfold decimal. destruct (v <? 0), (_ =? 0); rewrite ?bytes_ok_app; auto 8 using bytes_ok_nil with rust.
Qed.

Lemma raster_line_ok c row : bytes_ok row -> bytes_ok (raster_line c row).
Proof.
  intros H. unfold raster_line. rewrite bytes_ok_app, !bytes_ok_cons.
  repeat split; try (unfold byte_ok; lia); try apply as_u8_ok; [apply bytes_ok_nil|].
  destruct c; [apply packbits_bytes_ok|]; apply bytes_ok_mirror_row.
Qed.

Lemma brother_raster_lines_ok r c lines :
  bytes_ok (data r) -> brother_raster_lines r c = Ok lines -> bytes_ok lines.
Proof.
  unfold brother_raster_lines. intros Hd H. inv_ok H. subst lines.
  apply Forall_concat_map. eapply Forall_impl; [|by apply chunks_rows].
  intros row [Hr _]. by apply raster_line_ok.
Qed.

Ltac bytes_side :=
  cbn [action_bytes cmd raster_paced delay];
  repeat first
    [ rewrite bytes_ok_app | rewrite bytes_ok_cons
    | match goal with |- _ /\ _ => split end ];
  first
    [ apply bytes_ok_nil | apply to_le_bytes_ok | apply as_u8_ok | apply decimal_ok
    | apply str_ok | apply show_dec_ok | (apply bytes_ok_replicate; unfold byte_ok; lia)
    | assumption
    | (unfold byte_ok; lia) | idtac ].

Lemma header_ok r : bytes_ok (header r).
Proof. unfold header. bytes_side. Qed.

Lemma fmt_mm_ok c a b : bytes_ok (fmt_mm c a b).
Proof. unfold fmt_mm. destruct b; bytes_side. Qed.

Lemma media_command_ok m : byte_ok (media_command m).
Proof. destruct m; unfold byte_ok; simpl; lia. Qed.

Lemma lxor_ff_ok x : byte_ok x -> byte_ok (Z.lxor x 255).
Proof.
  intros Hx. assert (0 <= Z.lxor x 255) by (apply Z.lxor_nonneg; unfold byte_ok in Hx; lia).
  split; [done|]. unfold byte_ok in Hx.
  destruct (decide (Z.lxor x 255 = 0)) as [->|]; [lia|].
  change 256 with (2 ^ 8). apply Z.log2_lt_pow2; [lia|].
  eapply Z.le_lt_trans; [apply Z.log2_lxor; lia|]. apply Z.max_lub_lt; [|reflexivity].
  destruct (decide (x = 0)) as [->|]; [reflexivity|]. apply Z.log2_lt_pow2; lia.
Qed.

Lemma tspl_setup_ok w h o : Forall bytes_ok (tspl_setup w h o).
Proof. unfold tspl_setup. forall_list; first [apply fmt_mm_ok | bytes_side]. Qed.

Lemma brother_info_ok r o m :
  media_ok m -> bytes_ok (brother_print_info r o m).
Proof.
  intros (Hw & Hl & _). unfold brother_print_info, in_u, u8_max in *.
  rewrite !bytes_ok_app, !bytes_ok_cons.
  repeat split; try apply to_le_bytes_ok; try (unfold byte_ok; lia);
    try (destruct (high_quality o); vm_compute; congruence);
    try (destruct (media_continuous m); unfold byte_ok; lia);
    repeat constructor; lia.
Qed.

Lemma plan_body_bytes p r o body :
  plan_body p r o = Ok body -> raster_ok r -> options_ok o ->
  Forall (fun a => bytes_ok (action_bytes a)) body.
Proof.
  intros H (Hw & Hh & Hd) (Hden & Hfeed & Hspeed & Hcop & Hcut & _ & _ & _ & _ & _ & _ & Hmedia).
  unfold in_u, u8_max in *.
  pose proof (media_command_ok (phomemo_media o)).
  unfold plan_body in H. destruct (protocol p) eqn:Hp.
  - table_entry H. subst body. forall_list; bytes_side; apply header_ok.
  - table_entry H. subst body. forall_list; bytes_side; apply header_ok.
  - apply Ok_inj in H as <-. unfold plan_m04. forall_list; bytes_side; apply header_ok.
  - table_entry H. subst body. forall_list; bytes_side; apply header_ok.
  - table_entry H. subst body. forall_list; bytes_side; try apply header_ok.
    unfold d_series_raster. destruct (_ && _); simpl; bytes_side.
  - apply Ok_inj in H as <-. unfold plan_p12, p12_init_packets. cbn [map concat]. forall_list; bytes_side; apply header_ok.
  - unfold plan_tspl in H. inv_ok H. subst body. apply Forall_app; split.
    + apply Forall_concat_map. eapply Forall_impl; [|apply tspl_setup_ok].
      intros s Hs. unfold tspl. forall_list; bytes_side.
    + unfold tspl, bitmap_header. forall_list; bytes_side.
      simpl. apply Forall_map. eapply Forall_impl; [|exact Hd]. apply lxor_ff_ok.
  - unfold plan_brother in H. inv_ok H. subst body.
    apply brother_raster_lines_ok in Hx0; [|done]. apply Hmedia, brother_info_ok with (r := r) (o := o) in Hx.
    forall_list; bytes_side; try done; destruct (cut o); unfold byte_ok; lia.
Qed.

(** well-typed output. For inputs within their Rust field widths every
    byte of every write of a plan is a byte. *)
Theorem plan_bytes_in_range p r o limits pl :
  plan_with_limits p r o limits = Ok pl -> raster_ok r -> options_ok o ->
  Forall (fun a => bytes_ok (action_bytes a)) (actions pl).
Proof.
  intros H Hr Ho. unfold plan_with_limits in H. inv_ok H. subst x.
  assert (0 <= copies o) as Hc by (destruct Ho as (_ & _ & _ & Hc & _); apply Hc).
  apply plan_inner_Ok in Hx as [_ (body & Hb & ->)]; [|done].
  assert (Forall (fun a => bytes_ok (action_bytes a)) (page p body)).
  { apply Forall_app. split; [|by eapply plan_body_bytes].
    unfold subscribe_actions. destruct (ble_gatt p); forall_list; bytes_side. }
  cbn [framed mk_plan actions]. forall_list; bytes_side.
Qed.

(** ** Concrete instances *)

Definition sample_printer (proto : Protocol) : PrinterDefinition := {|
  pd_id := "sample"; pd_name := "sample"; protocol := proto; ble := Unsupported_ble;
  pd_width_bytes := Some 48; dpi := 203; alignment := AlignCenter; rotated := false;
  tape := false; group := ""; description := ""; name_patterns := []; tape_widths := None;
  default_tape_width := None; label_presets := None; builtin := true;
  additional_offset_r := 0; invalidate_bytes := 200; compression := true;
  min_rows := 0; max_rows := 0; continuous_media := None; operations := default_operations;
|}.

Definition sample_raster : Raster :=
  {| width_bytes := 2; height := 3; data := [255; 0; 1; 128; 7; 7] |}.

Definition sample_media : BrotherMedia :=
  {| width_mm := 62; length_mm := 0; media_continuous := true; feed_margin := 35 |}.

Definition sample_options (n : Z) : Options := {|
  density := 6; feed := 32; continuous := true; speed := 5; copies := n;
  gap_tenths_mm := 30; offset_tenths_mm := -30; offset_x := 0; offset_y := 0;
  label_width_tenths_mm := None; label_height_tenths_mm := None;
  brother_media := Some sample_media; cut := true; cut_every := 1; compress := true;
  high_quality := true; streaming := false; lzo := false; phomemo_media_opt := None;
|}.

Definition ok_value {E A} (d : A) (r : Result E A) : A :=
  match r with Ok a => a | Err _ => d end.

Definition sample_plan (proto : Protocol) (n : Z) : Plan :=
  ok_value (framed (sample_printer proto) [])
    (plan_with_limits (sample_printer proto) sample_raster (sample_options n) ProcessingLimits_default).

Definition sample_body (proto : Protocol) (n : Z) : list Action :=
  ok_value [] (plan_body (sample_printer proto) sample_raster (sample_options n)).

Ltac decide_ranges :=
  repeat match goal with
  | |- _ /\ _ => split
  | |- _ <= _ => vm_compute; congruence
  | |- _ < _ => vm_compute; congruence
  | |- in_u _ _ => split
  | |- forall _, _ = Some _ -> _ => let H := fresh in intros ? H; simpl in H; simplify_eq
  | |- bytes_ok _ => repeat constructor
  | |- Forall _ _ => repeat constructor
  end.

Lemma sample_raster_ok : raster_ok sample_raster.
Proof. unfold raster_ok. decide_ranges. Qed.

Lemma sample_options_ok : options_ok (sample_options 2).
Proof. unfold options_ok. decide_ranges. unfold media_ok. decide_ranges. Qed.

Lemma plan_with_limits_spec_witness :
  plan_with_limits (sample_printer M110) sample_raster (sample_options 2) ProcessingLimits_default =
    Ok (sample_plan M110 2) <->
  plan_accepted sample_raster (sample_options 2) ProcessingLimits_default /\
  plan_fits (host_copies (sample_printer M110) (sample_options 2))
    (page (sample_printer M110) (sample_body M110 2)) ProcessingLimits_default /\
  sample_plan M110 2 = framed (sample_printer M110)
    (repeat_actions (host_copies (sample_printer M110) (sample_options 2))
      (page (sample_printer M110) (sample_body M110 2))).
Proof.
  apply plan_with_limits_spec; [reflexivity|apply sample_raster_ok|simpl; lia|].
  unfold limits_ok. decide_ranges.
Defined.

Lemma plan_framed_witness :
  exists inside, actions (sample_plan Brother 2) = [JobBoundary Start] ++ inside ++ [JobBoundary End_] /\
    Forall (page_action (sample_printer Brother)) inside /\
    plan_protocol (sample_plan Brother 2) = Brother.
Proof.
  apply (plan_framed (sample_printer Brother) sample_raster (sample_options 2) ProcessingLimits_default).
  - vm_compute. reflexivity.
  - simpl. lia.
  - simpl. lia.
Defined.

Lemma plan_never_panics_witness :
  panics (plan_with_limits (sample_printer Tspl) sample_raster (sample_options 2)
    ProcessingLimits_default) = false.
Proof. apply plan_never_panics; simpl; lia. Defined.

Lemma header_matches_payload_witness :
  header_then_raster (sample_printer DSeries) sample_raster
    (payload_rows (sample_printer DSeries) sample_raster (sample_options 1)) (sample_body DSeries 1).
Proof.
  apply header_matches_payload; try done; [apply sample_raster_ok].
Defined.

Definition sample_batch : Plan :=
  ok_value (framed (sample_printer Brother) [])
    (plan_batch_with_limits (sample_printer Brother) [sample_raster; sample_raster]
      (sample_options 1) ProcessingLimits_default).

Lemma batch_shares_setup_witness :
  count_boundary Start (actions sample_batch) = 1%nat /\
  count_boundary End_ (actions sample_batch) = 1%nat /\
  count_command "ESC i S status request" (actions sample_batch) = 1%nat /\
  count_command AUTOCUT (actions sample_batch) = 1%nat /\
  count_command CUT_EVERY (actions sample_batch) = 1%nat /\
  count_command PRINT_INFO (actions sample_batch) = 2%nat /\
  count_command "print" (actions sample_batch) = 2%nat /\
  Forall2 (fun r lines => brother_raster_lines r true = Ok lines)
    [sample_raster; sample_raster] (raster_payloads (actions sample_batch)).
Proof.
  apply (batch_shares_setup (sample_printer Brother) [sample_raster; sample_raster]
    (sample_options 1) ProcessingLimits_default).
  vm_compute. reflexivity.
Defined.

Lemma plan_bytes_in_range_witness :
  Forall (fun a => bytes_ok (action_bytes a)) (actions (sample_plan Tspl 2)).
Proof.
  apply (plan_bytes_in_range (sample_printer Tspl) sample_raster (sample_options 2)
    ProcessingLimits_default).
  - vm_compute. reflexivity.
  - apply sample_raster_ok.
  - apply sample_options_ok.
Defined.

(** ** Inputs the guards let through *)

(** A Brother job over a raster with zero bytes per row reaches [chunks(0)]. *)
Lemma zero_width_brother_panics :
  plan_with_limits (sample_printer Brother) {| width_bytes := 0; height := 5; data := [] |}
    (sample_options 1) ProcessingLimits_default = Err Panicked.
Proof. by vm_compute. Qed.

(** A raster of 65536 rows is announced as zero rows. *)
Lemma tall_header_truncated d :
  gs_v0_dimensions (header {| width_bytes := 48; height := 65536; data := d |}) = Some (48, 0).
Proof. done. Qed.

(** A label width beyond 3276.7 mm is announced as a negative size. *)
Lemma wide_label_negative :
  fmt_mm "SIZE" 65535 (Some 300) = str "SIZE -0.1 mm, 30 mm".
Proof. by vm_compute. Qed.
