(* ===== verification/MonoRaster.v ===== *)
(** Gray and monochrome rasters (crates/mb-printer-core/src/raster.rs):
    dithering, rotation, placement on the print head and packing. *)

From stdpp Require Import base list list_numbers sets numbers option.
From S2P Require Import Prelude Bits.

#[local] Open Scope Z_scope.

(** ** Data *)

Record GrayRaster := {
  g_width : Z;
  g_height : Z;
  g_pixels : list Z;
}.

(** One byte per pixel: 0 for white and 1 for black. *)
Record MonoRaster := {
  m_width : Z;
  m_height : Z;
  m_pixels : list Z;
}.

Inductive Dither := Auto | Threshold (t : Z) | Bayer2 | Bayer4 | FloydSteinberg | Atkinson.

Inductive Rotation := Zero | Clockwise90 | Half | CounterClockwise90.

Inductive Fit := FitLeft | FitCenter | FitRight.

Inductive RasterError := Length | HeadWidth | Dimensions | Placement.

Definition Checked (A : Type) : Type := Result (Fault RasterError) A.

(** ** Construction and validation *)

Definition checked_pixel_len (width height max_pixels : Z) : Result RasterError Z :=
  if (width =? 0) || (height =? 0) then Err Dimensions
  else
    let? pixels := ok_or (checked u64_max (width * height)) Dimensions in
    if max_pixels <? pixels then Err Dimensions
    else ok_or (checked usize_max pixels) Dimensions.

Definition gray_try_new (width height white max_pixels : Z) : Result RasterError GrayRaster :=
  let? len := checked_pixel_len width height max_pixels in
  Ok {| g_width := width; g_height := height; g_pixels := replicate (Z.to_nat len) white |}.

Definition gray_new (width height white : Z) : GrayRaster :=
  {| g_width := width; g_height := height; g_pixels := replicate (Z.to_nat (width * height)) white |}.

Definition gray_validate (r : GrayRaster) : Result RasterError unit :=
  let? expected := checked_pixel_len (g_width r) (g_height r) u64_max in
  if zlen (g_pixels r) =? expected then Ok tt else Err Length.

Definition mono_try_new (width height max_pixels : Z) : Result RasterError MonoRaster :=
  let? len := checked_pixel_len width height max_pixels in
  Ok {| m_width := width; m_height := height; m_pixels := replicate (Z.to_nat len) 0 |}.

Definition mono_validate (r : MonoRaster) : Result RasterError unit :=
  let? expected := checked_pixel_len (m_width r) (m_height r) u64_max in
  if (zlen (m_pixels r) =? expected) && forallb (fun x => x <=? 1) (m_pixels r)
  then Ok tt else Err Length.

(** ** Pixel loops *)

(** [for y in 0..h { for x in 0..w { .. } }]. *)
Definition coords (w h : Z) : list (Z * Z) :=
  concat (map (fun y => map (fun x => (x, y)) (seqZ 0 w)) (seqZ 0 h)).

(** [(y * width + x) as usize] in [u32] arithmetic. *)
Definition idx32 (width x y : Z) : Z := as_u32 (y * width + x).

(** ** Dithering *)

Definition bool_u8 (b : bool) : Z := if b then 1 else 0.

Definition ordered (r : GrayRaster) (m : list (list Z)) (levels : Z) (out : list Z) : Checked (list Z) :=
  let n := zlen m in
  for_each (fun '(x, y) out =>
    let? row := index m (y mod n) in
    let? entry := index row (x mod n) in
    let threshold := as_u8 ((entry * 256 + 128) / levels) in
    let? v := index (g_pixels r) (y * g_width r + x) in
    assign out (y * g_width r + x) (bool_u8 (v <? threshold)))
  (coords (g_width r) (g_height r)) out.

Definition bayer2 : list (list Z) := [[0; 2]; [3; 1]].
Definition bayer4 : list (list Z) :=
  [[0; 8; 2; 10]; [12; 4; 14; 6]; [3; 11; 1; 9]; [15; 7; 13; 5]].

Definition threshold_all (r : GrayRaster) (t : Z) (out : list Z) : Checked (list Z) :=
  for_each (fun '(i, v) out => assign out i (bool_u8 (v <? t)))
    (zip (seqZ 0 (zlen (g_pixels r))) (g_pixels r)) out.

(** [work[i] += v]. *)
Definition add_at (work : list Z) (i v : Z) : Checked (list Z) :=
  let? old := index work i in assign work i (old + v).

Definition when (b : bool) (f : list Z -> Checked (list Z)) (work : list Z) : Checked (list Z) :=
  if b then f work else Ok work.

Definition clamp (v lo hi : Z) : Z := if v <? lo then lo else if hi <? v then hi else v.

(** Signed division of [i32] truncates towards zero. *)
Definition floyd_steinberg_pixel (w h : Z) (xy : Z * Z) (s : list Z * list Z) :
    Checked (list Z * list Z) :=
  let '(x, y) := xy in
  let '(work, out) := s in
  let i := y * w + x in
  let? v := index work i in
  let old := clamp v 0 4080 in
  let new := if old <? 2048 then 0 else 4080 in
  let? out := assign out i (bool_u8 (new =? 0)) in
  let e := old - new in
  let? work := when (x + 1 <? w) (fun work => add_at work (i + 1) (Z.quot (e * 7) 16)) work in
  let? work := when (y + 1 <? h) (fun work =>
    let? work := when (0 <? x) (fun work => add_at work (i + w - 1) (Z.quot (e * 3) 16)) work in
    let? work := add_at work (i + w) (Z.quot (e * 5) 16) in
    when (x + 1 <? w) (fun work => add_at work (i + w + 1) (Z.quot e 16)) work) work in
  Ok (work, out).

Definition atkinson_neighbours : list (Z * Z) :=
  [(1, 0); (2, 0); (-1, 1); (0, 1); (1, 1); (0, 2)].

Definition atkinson_pixel (w h : Z) (xy : Z * Z) (s : list Z * list Z) :
    Checked (list Z * list Z) :=
  let '(x, y) := xy in
  let '(work, out) := s in
  let i := y * w + x in
  let? v := index work i in
  let old := clamp v 0 2040 in
  let new := if old <? 1024 then 0 else 2040 in
  let? out := assign out i (bool_u8 (new =? 0)) in
  let error := Z.quot (old - new) 8 in
  let? work := for_each (fun '(dx, dy) work =>
    let nx := x + dx in
    let ny := y + dy in
    when ((0 <=? nx) && (0 <=? ny) && (nx <? w) && (ny <? h))
      (fun work => add_at work (ny * w + nx) error) work) atkinson_neighbours work in
  Ok (work, out).

Definition dither (r : GrayRaster) (mode : Dither) : Checked MonoRaster :=
  let? _ := raising (gray_validate r) in
  let out := replicate (length (g_pixels r)) 0 in
  let w := g_width r in
  let h := g_height r in
  let? pixels :=
    match mode with
    | Auto => ordered r bayer4 16 out
    | Threshold t => threshold_all r t out
    | Bayer2 => ordered r bayer2 4 out
    | Bayer4 => ordered r bayer4 16 out
    | FloydSteinberg =>
        let work := map (fun x => x * 16) (g_pixels r) in
        let? s := for_each (floyd_steinberg_pixel w h) (coords w h) (work, out) in
        Ok (snd s)
    | Atkinson =>
        let work := map (fun x => x * 8) (g_pixels r) in
        let? s := for_each (atkinson_pixel w h) (coords w h) (work, out) in
        Ok (snd s)
    end in
  Ok {| m_width := w; m_height := h; m_pixels := pixels |}.

(** ** Rotation and mirroring *)

(** The quarter turns: pixel [(x, y)] moves to [turn (x, y)]. *)
Definition quarter_turn (clockwise : bool) (r : MonoRaster) (xy : Z * Z) : Z * Z :=
  let '(x, y) := xy in
  if clockwise then (m_height r - 1 - y, x) else (y, m_width r - 1 - x).

Definition rotate (r : MonoRaster) (rot : Rotation) : Checked MonoRaster :=
  match rot with
  | Zero => Ok r
  | Half => Ok {| m_width := m_width r; m_height := m_height r; m_pixels := reverse (m_pixels r) |}
  | Clockwise90 | CounterClockwise90 =>
      let clockwise := match rot with Clockwise90 => true | _ => false end in
      let? pixels := for_each (fun xy out =>
        let '(nx, ny) := quarter_turn clockwise r xy in
        let? v := index (m_pixels r) (idx32 (m_width r) (fst xy) (snd xy)) in
        assign out (idx32 (m_height r) nx ny) v)
        (coords (m_width r) (m_height r)) (replicate (length (m_pixels r)) 0) in
      Ok {| m_width := m_height r; m_height := m_width r; m_pixels := pixels |}
  end.

Definition mirror_horizontal (r : MonoRaster) : Checked MonoRaster :=
  let? pixels := for_each (fun '(x, y) out =>
    let? v := index (m_pixels r) (as_u32 (y * m_width r + m_width r - 1 - x)) in
    assign out (idx32 (m_width r) x y) v)
    (coords (m_width r) (m_height r)) (m_pixels r) in
  Ok {| m_width := m_width r; m_height := m_height r; m_pixels := pixels |}.

(** [dst[start..start + src.len()].copy_from_slice(src)]. *)
Definition copy_slice {E} (dst : list Z) (start : Z) (src : list Z) : Result (Fault E) (list Z) :=
  if start + zlen src <=? zlen dst
  then Ok (take (Z.to_nat start) dst ++ src ++ drop (Z.to_nat (start + zlen src)) dst)
  else Err Panicked.

Definition pad_rows (r : MonoRaster) (before after : Z) : Checked MonoRaster :=
  let height := as_u32 (as_u32 (before + m_height r) + after) in
  let start := as_u32 (before * m_width r) in
  let? pixels := copy_slice (replicate (Z.to_nat (as_u32 (m_width r * height))) 0) start (m_pixels r) in
  Ok {| m_width := m_width r; m_height := height; m_pixels := pixels |}.

(** ** Placement *)

(** Columns skipped in the source and in the destination. *)
Definition fit_src (align : Fit) (width copy : Z) : Z :=
  match align with FitLeft => 0 | FitCenter => (width - copy) / 2 | FitRight => width - copy end.
Definition fit_dst (align : Fit) (head_width copy : Z) : Z :=
  match align with FitLeft => 0 | FitCenter => (head_width - copy) / 2 | FitRight => head_width - copy end.

Definition place_on_head (r : MonoRaster) (head_width : Z) (align : Fit) (offset_x offset_y : Z) :
    Checked MonoRaster :=
  if head_width =? 0 then fail HeadWidth
  else
  let height := as_u32 (m_height r + Z.max offset_y 0) in
  let copy := Z.min (m_width r) head_width in
  let src := fit_src align (m_width r) copy in
  let dst := fit_dst align head_width copy in
  let? pixels := for_each (fun '(x, y) out =>
    let sx := src + x in
    let dx := dst + x + offset_x in
    let dy := y + offset_y in
    if (0 <=? dx) && (0 <=? dy) && (dx <? head_width) && (dy <? height) then
      let? v := index (m_pixels r) (idx32 (m_width r) sx y) in
      assign out (idx32 head_width dx dy) v
    else Ok out)
    (coords copy (m_height r)) (replicate (Z.to_nat (head_width * height)) 0) in
  Ok {| m_width := head_width; m_height := height; m_pixels := pixels |}.

Definition fit_head (r : MonoRaster) (head_width : Z) (align : Fit) : Checked MonoRaster :=
  place_on_head r head_width align 0 0.

(** [u32] as [i32]. *)
Definition as_i32 (z : Z) : Z := to_signed 4 (as_u32 z).

Definition place_on_head_byte_aligned (r : MonoRaster) (head_width : Z) (align : Fit)
    (offset_x offset_y : Z) : Checked MonoRaster :=
  if (head_width =? 0) || (head_width <? m_width r) then fail HeadWidth
  else
  let packed_width := as_u32 ((m_width r + 7) / 8 * 8) in
  let base :=
    match align with
    | FitLeft => 0
    | FitCenter => as_u32 (as_u32 (head_width / 8 - packed_width / 8) / 2 * 8)
    | FitRight => as_u32 (head_width - packed_width)
    end in
  place_on_head r head_width FitLeft (as_i32 (as_i32 base + offset_x)) offset_y.

(** One row of [blit]: the body of its loop. *)
Definition blit_row (self source : MonoRaster) (x y row : Z) (pixels : list Z) : Checked (list Z) :=
  let? source_start := raising (ok_or (checked usize_max (row * m_width source)) Dimensions) in
  let? destination_row := raising (ok_or (checked usize_max (y + row)) Dimensions) in
  let? destination_base :=
    raising (ok_or (checked usize_max (destination_row * m_width self)) Dimensions) in
  let? destination_start := raising (ok_or (checked usize_max (destination_base + x)) Dimensions) in
  match get_range (m_pixels source) source_start (source_start + m_width source) with
  | Some slice => copy_slice pixels destination_start slice
  | None => Err Panicked
  end.

(** Copies a complete source raster at a non-negative origin. *)
Definition blit (self source : MonoRaster) (x y : Z) : Checked MonoRaster :=
  let? _ := raising (mono_validate self) in
  let? _ := raising (mono_validate source) in
  let? right := raising (ok_or (checked u32_max (x + m_width source)) Placement) in
  let? bottom := raising (ok_or (checked u32_max (y + m_height source)) Placement) in
  if (m_width self <? right) || (m_height self <? bottom) then fail Placement
  else
  let? pixels := for_each (blit_row self source x y) (seqZ 0 (m_height source)) (m_pixels self) in
  Ok {| m_width := m_width self; m_height := m_height self; m_pixels := pixels |}.

(** ** Packing *)

Definition stride_of (width : Z) : Z := (width + 7) / 8.

(** [out[y * stride + x / 8] |= 0x80 >> (x % 8)]. *)
Definition pack_pixel (r : MonoRaster) (stride : Z) (xy : Z * Z) (out : list Z) : Checked (list Z) :=
  let '(x, y) := xy in
  let? v := index (m_pixels r) (idx32 (m_width r) x y) in
  if v =? 0 then Ok out
  else
    let i := as_u32 (y * stride + x / 8) in
    let? old := index out i in
    assign out i (Z.lor old (Z.shiftr 128 (x mod 8))).

Definition pack_msb (r : MonoRaster) : Checked (list Z) :=
  let? _ := raising (mono_validate r) in
  let stride := stride_of (m_width r) in
  for_each (pack_pixel r stride) (coords (m_width r) (m_height r))
    (replicate (Z.to_nat (stride * m_height r)) 0).

Record PackedMonoRaster := {
  p_width : Z;
  p_height : Z;
  p_stride : Z;
  p_bytes : list Z;
}.

Definition packed_layout (width height : Z) : Result RasterError (Z * Z) :=
  let? padded := ok_or (checked u32_max (width + 7)) Dimensions in
  let stride := padded / 8 in
  let? area := ok_or (checked u64_max (stride * height)) Dimensions in
  let? expected := ok_or (checked usize_max area) Dimensions in
  Ok (stride, expected).

Definition packed_try_new (width height : Z) (bytes : list Z) (max_pixels : Z) :
    Result RasterError PackedMonoRaster :=
  let? _ := checked_pixel_len width height max_pixels in
  let? 'layout := packed_layout width height in
  let '(stride, expected) := layout in
  if negb (zlen bytes =? expected) then Err Length
  else Ok {| p_width := width; p_height := height; p_stride := stride; p_bytes := bytes |}.

Definition from_mono (r : MonoRaster) (max_pixels : Z) : Checked PackedMonoRaster :=
  let? bytes := pack_msb r in
  raising (packed_try_new (m_width r) (m_height r) bytes max_pixels).

Definition packed_validate (p : PackedMonoRaster) : Result RasterError unit :=
  let? _ := checked_pixel_len (p_width p) (p_height p) u64_max in
  let? layout := packed_layout (p_width p) (p_height p) in
  let '(stride, expected) := layout in
  if (p_stride p =? stride) && (zlen (p_bytes p) =? expected) then Ok tt else Err Length.
