(* ===== verification/MonoRasterFacts.v ===== *)
(** Properties of rasters: totality on valid rasters, exact reproduction of
    bilevel images, inverse rotations, placement, packing. *)

From stdpp Require Import base list list_numbers sets numbers option.
From S2P Require Import Prelude Bits MonoRaster.

#[local] Open Scope Z_scope.

(** ** Coordinates *)

Lemma elem_of_coords w h x y : (x, y) ∈ coords w h <-> 0 <= x < w /\ 0 <= y < h.
Proof.
  unfold coords. rewrite list_elem_of_In, in_concat. split.
  - intros (row & Hrow & Hxy). apply in_map_iff in Hrow as (y' & <- & Hy').
    apply in_map_iff in Hxy as (x' & [= <- <-] & Hx').
    apply list_elem_of_In, elem_of_seqZ in Hx', Hy'. lia.
  - intros [Hx Hy]. exists (map (fun x => (x, y)) (seqZ 0 w)).
    split; apply in_map_iff; eexists; (split; [reflexivity|]);
      apply list_elem_of_In, elem_of_seqZ; lia.
Qed.

Lemma pix_range w h x y : 0 <= x < w -> 0 <= y < h -> 0 <= y * w + x < w * h.
Proof. nia. Qed.

Lemma pix_inj w x y x' y' :
  0 <= x < w -> 0 <= x' < w -> y * w + x = y' * w + x' -> x = x' /\ y = y'.
Proof. intros. assert (y = y') by nia. lia. Qed.

Lemma idx32_small w h x y :
  w * h <= u32_max -> 0 <= x < w -> 0 <= y < h -> idx32 w x y = y * w + x.
Proof.
  intros H Hx Hy. unfold idx32, as_u32. pose proof (pix_range w h x y Hx Hy).
  unfold u32_max in H. apply Z.mod_small. lia.
Qed.

Lemma NoDup_app_map {A B} (f : A -> list B) (l : list A) :
  NoDup l -> (forall a, a ∈ l -> NoDup (f a)) ->
  (forall a b x, a ∈ l -> b ∈ l -> x ∈ f a -> x ∈ f b -> a = b) ->
  NoDup (concat (map f l)).
Proof.
  intros Hnd Hf Hdis. induction l as [|a l IH]; [constructor|].
  inversion_clear Hnd as [|? ? Hna Hnd']. cbn [map concat]. apply list.NoDup_app. split_and!.
  - apply Hf. left.
  - intros x Hx Hin. apply list_elem_of_In, in_concat in Hin as (k & Hk & Hxk).
    apply in_map_iff in Hk as (b & <- & Hb). apply list_elem_of_In in Hb, Hxk.
    apply Hna. rewrite (Hdis a b x); [done|left|by right|done|done].
  - apply IH; [done| |]; intros; [apply Hf; by right|]. eapply Hdis; eauto; by right.
Qed.

Lemma NoDup_coords w h : NoDup (coords w h).
Proof.
  unfold coords. apply NoDup_app_map; [apply NoDup_seqZ| |].
  - intros y _. apply NoDup_fmap_2; [intros x x' [=]; done|apply NoDup_seqZ].
  - intros y y' p _ _ H1 H2.
    apply list_elem_of_In, in_map_iff in H1 as (? & <- & _).
    apply list_elem_of_In, in_map_iff in H2 as (? & [=] & _). done.
Qed.

(** Positions computed from distinct coordinates by an injective map differ. *)
Lemma NoDup_dst {A} (l : list A) (dst : A -> Z) :
  NoDup l -> (forall a b, a ∈ l -> b ∈ l -> dst a = dst b -> a = b) -> NoDup (dst <$> l).
Proof.
  intros Hnd Hinj. induction l as [|a l IH]; [constructor|].
  inversion_clear Hnd as [|? ? Hna Hnd']. cbn [fmap list_fmap]. constructor.
  - intros Hin. apply list_elem_of_fmap in Hin as (b & E & Hb).
    apply Hna. rewrite (Hinj a b); [done|left|by right|done].
  - apply IH; [done|]. intros. apply Hinj; by (done || right).
Qed.

Lemma pixel_ext w h (l k : list Z) :
  0 < w -> zlen l = w * h -> zlen k = w * h ->
  (forall x y, 0 <= x < w -> 0 <= y < h ->
    l !! Z.to_nat (y * w + x) = k !! Z.to_nat (y * w + x)) -> l = k.
Proof.
  intros Hw Hl Hk H. apply list_eq. intros i.
  destruct (decide (Z.of_nat i < w * h)) as [Hi|Hi].
  - specialize (H (Z.of_nat i mod w) (Z.of_nat i / w)).
    pose proof (Z.mod_pos_bound (Z.of_nat i) w Hw).
    rewrite (Z.mul_comm (Z.of_nat i / w)), <- Z.div_mod, Nat2Z.id in H by lia.
    apply H; [done|]. split; [apply Z.div_pos; lia|]. apply Z.div_lt_upper_bound; lia.
  - rewrite !lookup_ge_None_2; [done|unfold zlen in *; lia..].
Qed.

(** ** Valid rasters *)

Definition bit_ok (p : Z) : Prop := p = 0 \/ p = 1.

(** The rasters the operations below are used on: positive dimensions whose
    product fits the [u32] index arithmetic, and one entry per pixel. *)
Definition mono_wf (r : MonoRaster) : Prop :=
  0 < m_width r /\ 0 < m_height r /\ m_width r * m_height r <= u32_max /\
  zlen (m_pixels r) = m_width r * m_height r /\ Forall bit_ok (m_pixels r).

Definition gray_wf (r : GrayRaster) : Prop :=
  0 < g_width r /\ 0 < g_height r /\ g_width r * g_height r <= u32_max /\
  zlen (g_pixels r) = g_width r * g_height r /\ bytes_ok (g_pixels r).

Lemma checked_pixel_len_Ok w h m :
  0 < w -> 0 < h -> w * h <= u32_max -> w * h <= m -> checked_pixel_len w h m = Ok (w * h).
Proof.
  intros Hw Hh Hs Hm. unfold checked_pixel_len, u32_max in *.
  destruct (Z.eqb_spec w 0), (Z.eqb_spec h 0); try lia. cbn [orb].
  rewrite (proj2 (checked_Some u64_max _ _)) by (split; [unfold in_u, u64_max; nia|done]).
  cbn [ok_or rbind]. destruct (Z.ltb_spec m (w * h)); [lia|].
  rewrite (proj2 (checked_Some usize_max _ _)) by (split; [unfold in_u, usize_max, u64_max; nia|done]).
  done.
Qed.

Lemma gray_wf_validate r : gray_wf r -> gray_validate r = Ok tt.
Proof.
  intros (Hw & Hh & Hs & Hl & _). unfold gray_validate.
  rewrite checked_pixel_len_Ok; [|unfold u64_max, u32_max in *; lia..].
  cbn [rbind]. rewrite Hl. by destruct (Z.eqb_spec (g_width r * g_height r) (g_width r * g_height r)).
Qed.

Lemma mono_wf_validate r : mono_wf r -> mono_validate r = Ok tt.
Proof.
  intros (Hw & Hh & Hs & Hl & Hp). unfold mono_validate.
  rewrite checked_pixel_len_Ok; [|unfold u64_max, u32_max in *; lia..].
  cbn [rbind]. rewrite Hl, Z.eqb_refl. cbn [andb].
  assert (forallb (fun x => x <=? 1) (m_pixels r) = true) as ->; [|done].
  apply forallb_forall. intros p Hin.
  rewrite Forall_forall in Hp. destruct (Hp p Hin); lia.
Qed.

(** What [validate] accepts. *)
Lemma mono_validate_Ok r u :
  mono_validate r = Ok u -> bytes_ok (m_pixels r) ->
  m_width r <> 0 /\ m_height r <> 0 /\ zlen (m_pixels r) = m_width r * m_height r /\
  Forall bit_ok (m_pixels r).
Proof.
  unfold mono_validate, checked_pixel_len. intros H Hb.
  apply rbind_Ok in H as (n & Hn & H).
  destruct ((m_width r =? 0) || (m_height r =? 0)) eqn:E; [done|]. inv_ok Hn.
  apply checked_Some in Hx as [_ ->]. apply checked_Some in Hn as [_ ->].
  destruct (_ && _) eqn:Hv in H; [|done].
  apply andb_true_iff in Hv as [Hz Hall]. apply orb_false_iff in E as [E1 E2].
  split_and!; try lia. rewrite Forall_forall. intros p Hin.
  rewrite forallb_forall in Hall. specialize (Hall p Hin).
  unfold bytes_ok in Hb. rewrite Forall_forall in Hb. specialize (Hb p Hin).
  unfold byte_ok in Hb. unfold bit_ok. lia.
Qed.

(** ** Loops over pixel buffers *)

(** A pixel loop that writes [val xy] at [dst xy]. *)
Lemma pixel_loop (w h n : Z) (dst : Z * Z -> Z) (val : Z * Z -> Z) body (arr : list Z) :
  zlen arr = n ->
  (forall xy arr', xy ∈ coords w h -> zlen arr' = n ->
    body xy arr' = assign (E := RasterError) arr' (dst xy) (val xy)) ->
  (forall xy, xy ∈ coords w h -> 0 <= dst xy < n) ->
  (forall p q, p ∈ coords w h -> q ∈ coords w h -> dst p = dst q -> p = q) ->
  exists arr', for_each body (coords w h) arr = Ok arr' /\ zlen arr' = n /\
    (forall xy, xy ∈ coords w h -> arr' !! Z.to_nat (dst xy) = Some (val xy)) /\
    (forall i, 0 <= i -> i ∉ (dst <$> coords w h) -> arr' !! Z.to_nat i = arr !! Z.to_nat i).
Proof.
  intros <- Hbody Hdst Hinj. apply write_loop; [done|done|].
  apply NoDup_dst; [apply NoDup_coords|done].
Qed.

(** The value at a pixel, zero outside. *)
Definition px (l : list Z) (i : Z) : Z := default 0 (l !! Z.to_nat i).

Lemma index_px {E} (l : list Z) i :
  0 <= i < zlen l -> index (E := E) l i = Ok (px l i) /\ l !! Z.to_nat i = Some (px l i).
Proof.
  intros Hi. destruct (index_in_range (E := E) l i Hi) as (v & Hv & Hl).
  unfold px. by rewrite Hl.
Qed.

Lemma Forall_px (P : Z -> Prop) l i : Forall P l -> 0 <= i < zlen l -> P (px l i).
Proof.
  intros HF Hi. destruct (index_px (E := unit) l i Hi) as [_ Hl].
  by eapply Forall_lookup_1.
Qed.

(** ** Ordered dithering *)

Definition bayer_threshold (m : list (list Z)) (levels x y : Z) : Z :=
  as_u8 ((px (default [] (m !! Z.to_nat (y mod zlen m))) (x mod zlen m) * 256 + 128) / levels).

Definition square (m : list (list Z)) : Prop :=
  0 < zlen m /\ Forall (fun row => zlen row = zlen m) m.

Lemma gray_index r x y :
  gray_wf r -> (x, y) ∈ coords (g_width r) (g_height r) -> 0 <= y * g_width r + x < zlen (g_pixels r).
Proof.
  intros (_ & _ & _ & Hl & _) H. apply elem_of_coords in H as [Hx Hy]. rewrite Hl.
  by apply pix_range.
Qed.

Lemma gray_coords_inj r p q :
  p ∈ coords (g_width r) (g_height r) -> q ∈ coords (g_width r) (g_height r) ->
  snd p * g_width r + fst p = snd q * g_width r + fst q -> p = q.
Proof.
  destruct p as [x y], q as [x' y']. intros Hp Hq E.
  apply elem_of_coords in Hp as [Hx Hy], Hq as [Hx' Hy']. simpl in E.
  apply pix_inj in E as [-> ->]; done.
Qed.

Lemma ordered_spec r m levels :
  gray_wf r -> square m ->
  exists out, ordered r m levels (replicate (length (g_pixels r)) 0) = Ok out /\
    zlen out = zlen (g_pixels r) /\
    forall xy, xy ∈ coords (g_width r) (g_height r) ->
      out !! Z.to_nat (snd xy * g_width r + fst xy) =
      Some (bool_u8 (px (g_pixels r) (snd xy * g_width r + fst xy) <?
                     bayer_threshold m levels (fst xy) (snd xy))).
Proof.
  intros Hr [Hm Hrows].
  destruct (pixel_loop (g_width r) (g_height r) (zlen (g_pixels r))
    (fun xy => snd xy * g_width r + fst xy)
    (fun xy => bool_u8 (px (g_pixels r) (snd xy * g_width r + fst xy) <?
                        bayer_threshold m levels (fst xy) (snd xy)))
    (fun '(x, y) out =>
       let? row := index m (y mod zlen m) in
       let? entry := index row (x mod zlen m) in
       let threshold := as_u8 ((entry * 256 + 128) / levels) in
       let? v := index (g_pixels r) (y * g_width r + x) in
       assign out (y * g_width r + x) (bool_u8 (v <? threshold)))
    (replicate (length (g_pixels r)) 0)) as (out & E & Hl & Hin & _).
  - by rewrite zlen_replicate.
  - intros [x y] arr Hxy _. simpl fst; simpl snd.
    pose proof (gray_index r x y Hr Hxy) as Hi.
    destruct (index_in_range (E := RasterError) m (y mod zlen m)) as (row & -> & Hrow).
    { apply Z.mod_pos_bound. lia. }
    cbn [rbind]. assert (zlen row = zlen m) as Hz by (by eapply (Forall_lookup_1 _ _ _ _ Hrows)).
    destruct (index_px (E := RasterError) row (x mod zlen m)) as [-> _].
    { rewrite Hz. apply Z.mod_pos_bound. lia. }
    cbn [rbind]. destruct (index_px (E := RasterError) (g_pixels r) _ Hi) as [-> _]. cbn [rbind].
    unfold bayer_threshold. by rewrite Hrow.
  - intros [x y] Hxy. by apply gray_index.
  - apply gray_coords_inj.
  - exists out. split; [exact E|]. done.
Qed.

(** ** Plain thresholds *)

Lemma threshold_all_spec r t :
  exists out, threshold_all r t (replicate (length (g_pixels r)) 0) = Ok out /\
    out = map (fun v => bool_u8 (v <? t)) (g_pixels r).
Proof.
  assert ((zip (seqZ 0 (zlen (g_pixels r))) (g_pixels r)).*1 = seqZ 0 (zlen (g_pixels r))) as Efst.
  { apply fst_zip. rewrite length_seqZ. unfold zlen. lia. }
  destruct (write_loop (E := RasterError)
    (zip (seqZ 0 (zlen (g_pixels r))) (g_pixels r)) fst (fun iv => bool_u8 (snd iv <? t))
    (fun '(i, v) out => assign out i (bool_u8 (v <? t)))
    (replicate (length (g_pixels r)) 0)) as (out & E & Hl & Hin & _).
  - by intros [i v] arr _ _.
  - intros [i v] Hiv. rewrite zlen_replicate. simpl.
    assert (i ∈ seqZ 0 (zlen (g_pixels r))) as Hs.
    { rewrite <- Efst. apply list_elem_of_fmap. by exists (i, v). }
    apply elem_of_seqZ in Hs. unfold zlen in Hs. lia.
  - rewrite Efst. apply NoDup_seqZ.
  - exists out. split; [exact E|]. rewrite zlen_replicate in Hl.
    apply list_eq_same_length with (length (g_pixels r)).
    + by rewrite length_map.
    + unfold zlen in Hl. lia.
    + intros i a b Hi Ha Hb. rewrite list_lookup_fmap in Hb.
      destruct (g_pixels r !! i) as [v|] eqn:Hv; [|done]. simpl in Hb. simplify_eq.
      specialize (Hin (Z.of_nat i, v)). simpl in Hin. rewrite Nat2Z.id in Hin.
      rewrite Hin in Ha; [by simplify_eq|].
      apply list_elem_of_lookup. exists i. apply lookup_zip_Some. split; [|done].
      apply lookup_seqZ. apply lookup_lt_Some in Hv. unfold zlen. lia.
Qed.

(** ** Error diffusion on any image *)

Lemma add_at_Ok work i v n :
  zlen work = n -> 0 <= i < n -> exists work', add_at work i v = Ok work' /\ zlen work' = n.
Proof.
  intros <- Hi. unfold add_at. destruct (index_px (E := RasterError) work i Hi) as [-> _].
  cbn [rbind]. rewrite assign_in_range by done. eexists. split; [done|]. by rewrite zlen_insert.
Qed.

(** A step of the diffusion keeps the sizes of both buffers and writes bits. *)
Definition diffusion_inv (n : Z) (s : list Z * list Z) : Prop :=
  zlen (fst s) = n /\ zlen (snd s) = n /\ Forall bit_ok (snd s).

Lemma bool_u8_ok b : bit_ok (bool_u8 b).
Proof. destruct b; unfold bit_ok; simpl; auto. Qed.

Lemma when_Ok b f work n :
  zlen work = n ->
  (b = true -> forall work, zlen work = n -> exists work', f work = Ok work' /\ zlen work' = n) ->
  exists work', when b f work = Ok work' /\ zlen work' = n.
Proof. intros Hz Hf. unfold when. destruct b; eauto. Qed.

Ltac step_when Hz :=
  match goal with
  | |- context [when ?b ?f ?work] =>
      let w' := fresh "work" in let E := fresh "E" in let Hz' := fresh "Hz" in
      destruct (when_Ok b f work _ Hz) as (w' & E & Hz');
      [| rewrite E; cbn [rbind]; clear E Hz; rename Hz' into Hz]
  end.

Lemma floyd_steinberg_step w h xy s :
  xy ∈ coords w h -> diffusion_inv (w * h) s ->
  exists s', floyd_steinberg_pixel w h xy s = Ok s' /\ diffusion_inv (w * h) s'.
Proof.
  destruct xy as [x y], s as [work out]. intros Hxy (Hw & Ho & Hb). simpl in *.
  apply elem_of_coords in Hxy as [Hx Hy]. pose proof (pix_range w h x y Hx Hy) as Hi.
  unfold floyd_steinberg_pixel.
  destruct (index_px (E := RasterError) work (y * w + x)) as [-> _]; [by rewrite Hw|].
  cbn [rbind]. rewrite assign_in_range by (by rewrite Ho). cbn [rbind].
  step_when Hw.
  { intros Hlt wk Hwk. apply Z.ltb_lt in Hlt. apply add_at_Ok; [done|nia]. }
  step_when Hw.
  { intros Hlt wk Hwk. apply Z.ltb_lt in Hlt.
    step_when Hwk.
    { intros Hlt' wk' Hwk'. apply Z.ltb_lt in Hlt'. apply add_at_Ok; [done|nia]. }
    match goal with |- context [rbind (add_at ?wk ?i ?v) _] =>
      destruct (add_at_Ok wk i v (w * h)) as (wk2 & -> & Hwk2); [done|nia|] end.
    cbn [rbind].
    step_when Hwk2; [|by eauto].
    intros Hlt' wk' Hwk'. apply Z.ltb_lt in Hlt'. apply add_at_Ok; [done|nia]. }
  eexists. split; [done|]. unfold diffusion_inv. simpl. rewrite zlen_insert.
  split_and!; [done|done|]. apply Forall_insert; [done|apply bool_u8_ok].
Qed.

Lemma atkinson_step w h xy s :
  xy ∈ coords w h -> diffusion_inv (w * h) s ->
  exists s', atkinson_pixel w h xy s = Ok s' /\ diffusion_inv (w * h) s'.
Proof.
  destruct xy as [x y], s as [work out]. intros Hxy (Hw & Ho & Hb). simpl in Hw, Ho, Hb.
  apply elem_of_coords in Hxy as [Hx Hy]. pose proof (pix_range w h x y Hx Hy) as Hi.
  unfold atkinson_pixel.
  destruct (index_px (E := RasterError) work (y * w + x)) as [-> _]; [by rewrite Hw|].
  cbn [rbind]. rewrite assign_in_range by (by rewrite Ho). cbn [rbind].
  match goal with |- context [for_each ?b atkinson_neighbours work] =>
    destruct (for_each_inv b (fun work => zlen work = w * h) atkinson_neighbours work)
      as (work' & -> & Hw'); [done| |] end.
  { intros [dx dy] wk _ Hwk. apply when_Ok; [done|]. intros Hc wk' Hwk'.
    apply add_at_Ok; [done|]. apply pix_range; blia. }
  cbn [rbind]. eexists. split; [done|]. unfold diffusion_inv. simpl. rewrite zlen_insert.
  split_and!; [done|done|]. apply Forall_insert; [done|apply bool_u8_ok].
Qed.

(** ** Dithering never fails on a valid image *)

Lemma bayer2_square : square bayer2.
Proof. split; [done|]. repeat constructor. Qed.

Lemma bayer4_square : square bayer4.
Proof. split; [done|]. repeat constructor. Qed.

Lemma ordered_bits r m levels :
  gray_wf r -> square m ->
  exists out, ordered r m levels (replicate (length (g_pixels r)) 0) = Ok out /\
    zlen out = zlen (g_pixels r) /\ Forall bit_ok out.
Proof.
  intros Hr Hm. destruct (ordered_spec r m levels Hr Hm) as (out & E & Hl & Hin).
  exists out. split_and!; [done|done|]. apply Forall_lookup. intros i v Hv.
  pose proof Hr as (Hw & Hh & _ & Hz & _).
  assert (Z.of_nat i < g_width r * g_height r) as Hi.
  { apply lookup_lt_Some in Hv. unfold zlen in *. lia. }
  specialize (Hin (Z.of_nat i mod g_width r, Z.of_nat i / g_width r)). simpl in Hin.
  rewrite (Z.mul_comm (Z.of_nat i / _)), <- Z.div_mod, Nat2Z.id, Hv in Hin by lia.
  rewrite elem_of_coords in Hin. injection Hin as ->; [apply bool_u8_ok|].
  split; [apply Z.mod_pos_bound; lia|].
  split; [apply Z.div_pos; lia|]. apply Z.div_lt_upper_bound; lia.
Qed.

Lemma diffusion_bits r k (step : Z * Z -> list Z * list Z -> Checked (list Z * list Z)) :
  gray_wf r ->
  (forall xy s, xy ∈ coords (g_width r) (g_height r) ->
    diffusion_inv (g_width r * g_height r) s ->
    exists s', step xy s = Ok s' /\ diffusion_inv (g_width r * g_height r) s') ->
  exists s, for_each step (coords (g_width r) (g_height r))
      (map (fun x => x * k) (g_pixels r), replicate (length (g_pixels r)) 0) = Ok s /\
    zlen (snd s) = zlen (g_pixels r) /\ Forall bit_ok (snd s).
Proof.
  intros (Hw & Hh & _ & Hz & _) Hstep.
  destruct (for_each_inv step (diffusion_inv (g_width r * g_height r))
    (coords (g_width r) (g_height r))
    (map (fun x => x * k) (g_pixels r), replicate (length (g_pixels r)) 0)) as (s & E & _ & Hl & Hb).
  - unfold diffusion_inv. simpl. rewrite zlen_map, zlen_replicate.
    split_and!; [done|unfold zlen in Hz; lia|]. apply Forall_replicate. by left.
  - done.
  - exists s. rewrite Hz. done.
Qed.

(** dithering is total. Every mode turns a valid gray image into a valid
    monochrome raster of the same size: no error, no out-of-range access. *)
Theorem dither_total r mode :
  gray_wf r ->
  exists m, dither r mode = Ok m /\ m_width m = g_width r /\ m_height m = g_height r /\ mono_wf m.
Proof.
  intros Hr. pose proof Hr as (Hw & Hh & Hs & Hz & _). unfold dither.
  rewrite gray_wf_validate by done. cbn [raising map_err rbind].
  match goal with |- context [rbind ?p _] =>
    assert (exists out, p = Ok out /\ zlen out = zlen (g_pixels r) /\ Forall bit_ok out)
      as (out & -> & Hl & Hb) end.
  { destruct mode.
    - apply ordered_bits; [done|apply bayer4_square].
    - destruct (threshold_all_spec r t) as (out & -> & ->). eexists. split; [done|].
      rewrite zlen_map. split; [done|]. apply Forall_map, Forall_true. intros. apply bool_u8_ok.
    - apply ordered_bits; [done|apply bayer2_square].
    - apply ordered_bits; [done|apply bayer4_square].
    - destruct (diffusion_bits r 16 _ Hr (fun xy s => floyd_steinberg_step _ _ xy s))
        as (s & -> & H1 & H2). by exists (snd s).
    - destruct (diffusion_bits r 8 _ Hr (fun xy s => atkinson_step _ _ xy s))
        as (s & -> & H1 & H2). by exists (snd s). }
  cbn [rbind]. eexists. split; [done|]. simpl. unfold mono_wf. simpl.
  rewrite Hl, Hz. done.
Qed.

(** ** Bilevel images *)

Definition bilevel (v : Z) : Prop := v = 0 \/ v = 255.

Definition ink (v : Z) : Z := bool_u8 (v =? 0).

Lemma bilevel_threshold v t : bilevel v -> 0 < t <= 255 -> bool_u8 (v <? t) = ink v.
Proof. intros [->| ->] Ht; unfold ink; f_equal; lia. Qed.

Lemma bayer4_threshold x y : 0 < bayer_threshold bayer4 16 x y <= 255.
Proof.
  unfold bayer_threshold. change (zlen bayer4) with 4.
  pose proof (Z.mod_pos_bound x 4). pose proof (Z.mod_pos_bound y 4).
  assert (forall k, 0 <= k < 4 -> k = 0 \/ k = 1 \/ k = 2 \/ k = 3) as K by lia.
  destruct (K (x mod 4) ltac:(lia)) as [->|[->|[->| ->]]];
    destruct (K (y mod 4) ltac:(lia)) as [->|[->|[->| ->]]];
    vm_compute; split; congruence.
Qed.

Lemma bayer2_threshold x y : 0 < bayer_threshold bayer2 4 x y <= 255.
Proof.
  unfold bayer_threshold. change (zlen bayer2) with 2.
  pose proof (Z.mod_pos_bound x 2). pose proof (Z.mod_pos_bound y 2).
  assert (forall k, 0 <= k < 2 -> k = 0 \/ k = 1) as K by lia.
  destruct (K (x mod 2) ltac:(lia)) as [->| ->];
    destruct (K (y mod 2) ltac:(lia)) as [->| ->]; vm_compute; split; congruence.
Qed.

Lemma map_px (f : Z -> Z) l i : 0 <= i < zlen l -> map f l !! Z.to_nat i = Some (f (px l i)).
Proof.
  intros Hi. destruct (index_px (E := unit) l i Hi) as [_ E].
  change (map f l) with (f <$> l). by rewrite list_lookup_fmap, E.
Qed.

(** A buffer that holds [ink] at every pixel is the inked image. *)
Lemma ink_ext r out :
  gray_wf r -> zlen out = zlen (g_pixels r) ->
  (forall xy, xy ∈ coords (g_width r) (g_height r) ->
    out !! Z.to_nat (snd xy * g_width r + fst xy) =
    Some (ink (px (g_pixels r) (snd xy * g_width r + fst xy)))) ->
  out = map ink (g_pixels r).
Proof.
  intros Hr Hl H. pose proof Hr as (Hw & Hh & _ & Hz & _).
  apply (pixel_ext (g_width r) (g_height r)); [done|lia|by rewrite zlen_map|].
  intros x y Hx Hy. rewrite map_px by (rewrite Hz; by apply pix_range).
  apply (H (x, y)). by apply elem_of_coords.
Qed.

Lemma ordered_bilevel r m levels :
  gray_wf r -> square m -> Forall bilevel (g_pixels r) ->
  (forall x y, 0 < bayer_threshold m levels x y <= 255) ->
  ordered r m levels (replicate (length (g_pixels r)) 0) = Ok (map ink (g_pixels r)).
Proof.
  intros Hr Hm Hb Ht. destruct (ordered_spec r m levels Hr Hm) as (out & -> & Hl & Hin).
  f_equal. apply ink_ext; [done|done|]. intros [x y] Hxy. rewrite Hin by done.
  f_equal. apply bilevel_threshold; [|done]. apply Forall_px; [done|]. by apply gray_index.
Qed.

Lemma add_at_zero work i : 0 <= i < zlen work -> add_at work i 0 = Ok work.
Proof.
  intros Hi. unfold add_at. destruct (index_px (E := RasterError) work i Hi) as [-> E].
  cbn [rbind]. rewrite assign_in_range, Z.add_0_r by done. by rewrite list_insert_id.
Qed.

(** Error diffusion of an image without error leaves the work buffer alone. *)
Definition exact_step (w : Z) (work : list Z)
    (step : Z * Z -> list Z * list Z -> Checked (list Z * list Z)) (xy : Z * Z) : Prop :=
  forall out, step xy (work, out) =
    let? out := assign out (snd xy * w + fst xy) (ink (px work (snd xy * w + fst xy))) in
    Ok (work, out).

Lemma exact_loop w work step l out :
  (forall xy, xy ∈ l -> exact_step w work step xy) ->
  for_each step l (work, out) =
  let? out := for_each (fun xy out =>
    assign out (snd xy * w + fst xy) (ink (px work (snd xy * w + fst xy)))) l out in
  Ok (work, out).
Proof.
  intros H. revert out. induction l as [|xy l IH]; intros out; [done|]. cbn [for_each].
  rewrite (H xy) by left. destruct (assign out _ _) as [out'|e]; cbn [rbind]; [|done].
  apply IH. intros. apply H. by right.
Qed.

Lemma px_map_mul k l i : px (map (fun x => x * k) l) i = px l i * k.
Proof.
  unfold px. change (map ?f l) with (f <$> l). rewrite list_lookup_fmap.
  by destruct (l !! Z.to_nat i).
Qed.

Lemma bilevel_work r k i :
  Forall bilevel (g_pixels r) -> 0 <= i < zlen (g_pixels r) ->
  px (map (fun x => x * k) (g_pixels r)) i = 0 \/
  px (map (fun x => x * k) (g_pixels r)) i = 255 * k.
Proof.
  intros Hb Hi. rewrite px_map_mul. destruct (Forall_px _ _ _ Hb Hi) as [->| ->]; lia.
Qed.

Lemma when_id b f work : (b = true -> f work = Ok work) -> when b f work = Ok work.
Proof. unfold when. destruct b; auto. Qed.

Lemma floyd_steinberg_exact r xy :
  gray_wf r -> Forall bilevel (g_pixels r) -> xy ∈ coords (g_width r) (g_height r) ->
  exact_step (g_width r) (map (fun x => x * 16) (g_pixels r))
    (floyd_steinberg_pixel (g_width r) (g_height r)) xy.
Proof.
  destruct xy as [x y]. intros Hr Hb Hxy out.
  pose proof (gray_index r x y Hr Hxy) as Hi. pose proof Hr as (Hw & Hh & _ & Hz & _).
  apply elem_of_coords in Hxy as [Hx Hy].
  pose proof (bilevel_work r 16 _ Hb Hi) as Hv.
  set (work := map (fun x => x * 16) (g_pixels r)) in *.
  assert (zlen work = g_width r * g_height r) as Hzw by (subst work; by rewrite zlen_map).
  clearbody work. unfold floyd_steinberg_pixel. simpl fst; simpl snd.
  destruct (index_px (E := RasterError) work (y * g_width r + x)) as [-> _]; [lia|].
  cbn [rbind]. set (v := px work (y * g_width r + x)) in *.
  assert (clamp v 0 4080 = v /\ (if v <? 2048 then 0 else 4080) = v) as [-> ->]
    by (destruct Hv as [->| ->]; done).
  change (bool_u8 (v =? 0)) with (ink v). destruct (assign out _ (ink v)) as [out'|e]; [|done].
  cbn [rbind]. rewrite Z.sub_diag, !Z.mul_0_l, !Z.quot_0_l by lia.
  rewrite when_id by (intros Hc%Z.ltb_lt; apply add_at_zero; nia). cbn [rbind].
  rewrite when_id; [done|]. intros Hc%Z.ltb_lt.
  rewrite when_id by (intros Hc'%Z.ltb_lt; apply add_at_zero; nia). cbn [rbind].
  rewrite add_at_zero by nia. cbn [rbind].
  apply when_id. intros Hc'%Z.ltb_lt. apply add_at_zero. nia.
Qed.

Lemma atkinson_exact r xy :
  gray_wf r -> Forall bilevel (g_pixels r) -> xy ∈ coords (g_width r) (g_height r) ->
  exact_step (g_width r) (map (fun x => x * 8) (g_pixels r))
    (atkinson_pixel (g_width r) (g_height r)) xy.
Proof.
  destruct xy as [x y]. intros Hr Hb Hxy out.
  pose proof (gray_index r x y Hr Hxy) as Hi. pose proof Hr as (Hw & Hh & _ & Hz & _).
  apply elem_of_coords in Hxy as [Hx Hy].
  pose proof (bilevel_work r 8 _ Hb Hi) as Hv.
  set (work := map (fun x => x * 8) (g_pixels r)) in *.
  assert (zlen work = g_width r * g_height r) as Hzw by (subst work; by rewrite zlen_map).
  clearbody work. unfold atkinson_pixel. cbn [fst snd].
  destruct (index_px (E := RasterError) work (y * g_width r + x)) as [-> _]; [lia|].
  cbn [rbind]. set (v := px work (y * g_width r + x)) in *.
  assert (clamp v 0 2040 = v /\ (if v <? 1024 then 0 else 2040) = v) as [-> ->]
    by (destruct Hv as [->| ->]; done).
  change (bool_u8 (v =? 0)) with (ink v). destruct (assign out _ (ink v)) as [out'|e]; [|done].
  cbn [rbind]. rewrite Z.sub_diag, Z.quot_0_l by lia.
  match goal with |- context [for_each ?b atkinson_neighbours work] =>
    destruct (for_each_inv b (fun wk => wk = work) atkinson_neighbours work)
      as (work' & -> & ->); [done| |done] end.
  intros [dx dy] wk _ ->. exists work. split; [|done]. apply when_id. intros Hc.
  apply add_at_zero. rewrite Hzw. apply pix_range; blia.
Qed.

Lemma ink_mul v k : 0 < k -> ink (v * k) = ink v.
Proof.
  intros Hk. unfold ink. f_equal.
  destruct (Z.eqb_spec (v * k) 0), (Z.eqb_spec v 0); try done; nia.
Qed.

Lemma diffusion_bilevel r k step :
  gray_wf r -> 0 < k ->
  (forall xy, xy ∈ coords (g_width r) (g_height r) ->
    exact_step (g_width r) (map (fun x => x * k) (g_pixels r)) step xy) ->
  for_each step (coords (g_width r) (g_height r))
    (map (fun x => x * k) (g_pixels r), replicate (length (g_pixels r)) 0) =
  Ok (map (fun x => x * k) (g_pixels r), map ink (g_pixels r)).
Proof.
  intros Hr Hk Hstep. rewrite (exact_loop (g_width r)) by done.
  destruct (pixel_loop (g_width r) (g_height r) (zlen (g_pixels r))
    (fun xy => snd xy * g_width r + fst xy)
    (fun xy => ink (px (map (fun x => x * k) (g_pixels r)) (snd xy * g_width r + fst xy)))
    (fun xy out => assign out (snd xy * g_width r + fst xy)
       (ink (px (map (fun x => x * k) (g_pixels r)) (snd xy * g_width r + fst xy))))
    (replicate (length (g_pixels r)) 0)) as (out & -> & Hl & Hin & _).
  - by rewrite zlen_replicate.
  - done.
  - intros [x y] Hxy. by apply gray_index.
  - apply gray_coords_inj.
  - cbn [rbind]. do 2 f_equal. apply ink_ext; [done|done|].
    intros xy Hxy. rewrite Hin by done. by rewrite px_map_mul, ink_mul.
Qed.

(** bilevel images are reproduced exactly. When every gray level is 0 or
    255, every dithering mode (with a threshold in 1..255) maps black pixels
    to 1 and white pixels to 0 and diffuses no error. *)
Theorem dither_bilevel_exact r mode :
  gray_wf r -> Forall bilevel (g_pixels r) ->
  (forall t, mode = Threshold t -> 0 < t <= 255) ->
  dither r mode =
  Ok {| m_width := g_width r; m_height := g_height r; m_pixels := map ink (g_pixels r) |}.
Proof.
  intros Hr Hb Ht. unfold dither. rewrite gray_wf_validate by done.
  cbn [raising map_err rbind]. destruct mode.
  - rewrite ordered_bilevel; [done|done|apply bayer4_square|done|apply bayer4_threshold].
  - destruct (threshold_all_spec r t) as (out & -> & ->). cbn [rbind]. do 2 f_equal.
    apply map_ext_in. intros v Hv. apply bilevel_threshold; [|by apply Ht].
    rewrite Forall_forall in Hb. by apply Hb.
  - rewrite ordered_bilevel; [done|done|apply bayer2_square|done|apply bayer2_threshold].
  - rewrite ordered_bilevel; [done|done|apply bayer4_square|done|apply bayer4_threshold].
  - rewrite diffusion_bilevel; [done|done|lia|]. intros. by apply floyd_steinberg_exact.
  - rewrite diffusion_bilevel; [done|done|lia|]. intros. by apply atkinson_exact.
Qed.

(** ** Quarter turns *)

(** The pixel of the original that a quarter turn puts at [(x, y)]. *)
Definition turned_from (clockwise : bool) (r : MonoRaster) (x y : Z) : Z :=
  if clockwise then (m_height r - 1 - x) * m_width r + y
  else x * m_width r + (m_width r - 1 - y).

Definition quarter (clockwise : bool) : Rotation :=
  if clockwise then Clockwise90 else CounterClockwise90.

(** Two valid rasters of the same size with the same pixels are equal. *)
Lemma mono_ext r q :
  0 < m_width r -> m_width r = m_width q -> m_height r = m_height q ->
  zlen (m_pixels r) = m_width r * m_height r -> zlen (m_pixels q) = m_width r * m_height r ->
  (forall x y, 0 <= x < m_width r -> 0 <= y < m_height r ->
    m_pixels r !! Z.to_nat (y * m_width r + x) = m_pixels q !! Z.to_nat (y * m_width r + x)) ->
  r = q.
Proof.
  destruct r as [w h l], q as [w' h' l']. simpl. intros Hw -> -> Hl Hl' H.
  f_equal. by eapply pixel_ext.
Qed.

(** Bits survive when every pixel of the result comes from somewhere. *)
Lemma Forall_pixels (P : Z -> Prop) w h (l : list Z) :
  0 < w -> zlen l = w * h ->
  (forall x y, 0 <= x < w -> 0 <= y < h -> exists v, l !! Z.to_nat (y * w + x) = Some v /\ P v) ->
  Forall P l.
Proof.
  intros Hw Hl H. apply Forall_lookup. intros i v Hv.
  assert (Z.of_nat i < w * h) as Hi by (apply lookup_lt_Some in Hv; unfold zlen in Hl; lia).
  destruct (H (Z.of_nat i mod w) (Z.of_nat i / w)) as (v' & Hv' & HP).
  - apply Z.mod_pos_bound. lia.
  - split; [apply Z.div_pos; lia|]. apply Z.div_lt_upper_bound; lia.
  - rewrite (Z.mul_comm (Z.of_nat i / _)), <- Z.div_mod, Nat2Z.id, Hv in Hv' by lia. congruence.
Qed.

Lemma mono_px r i :
  mono_wf r -> 0 <= i < m_width r * m_height r ->
  m_pixels r !! Z.to_nat i = Some (px (m_pixels r) i) /\ bit_ok (px (m_pixels r) i).
Proof.
  intros (_ & _ & _ & Hl & Hb) Hi. split.
  - apply (index_px (E := unit)). by rewrite Hl.
  - apply Forall_px; [done|]. by rewrite Hl.
Qed.

(** A raster whose pixels are known one by one. *)
Lemma mono_of_pixels w h out (f : Z -> Z -> Z) :
  0 < w -> 0 < h -> w * h <= u32_max -> zlen out = w * h ->
  (forall x y, 0 <= x < w -> 0 <= y < h -> out !! Z.to_nat (y * w + x) = Some (f x y)) ->
  (forall x y, 0 <= x < w -> 0 <= y < h -> bit_ok (f x y)) ->
  mono_wf {| m_width := w; m_height := h; m_pixels := out |} /\
  forall x y, 0 <= x < w -> 0 <= y < h -> px out (y * w + x) = f x y.
Proof.
  intros Hw Hh Hs Hz Hpix Hbit. split.
  - unfold mono_wf. cbn. split_and!; try done. apply (Forall_pixels _ w h); [done|done|].
    intros x y Hx Hy. exists (f x y). auto.
  - intros x y Hx Hy. unfold px. by rewrite Hpix.
Qed.

(** The pixel of the source that a quarter turn puts at a place. *)
Definition turned_source (clockwise : bool) (r : MonoRaster) (x y : Z) : Z * Z :=
  if clockwise then (y, m_height r - 1 - x) else (m_width r - 1 - y, x).

Lemma turned_source_spec clockwise r x y :
  0 <= x < m_height r -> 0 <= y < m_width r ->
  turned_source clockwise r x y ∈ coords (m_width r) (m_height r) /\
  quarter_turn clockwise r (turned_source clockwise r x y) = (x, y) /\
  snd (turned_source clockwise r x y) * m_width r + fst (turned_source clockwise r x y) = turned_from clockwise r x y /\
  0 <= turned_from clockwise r x y < m_width r * m_height r.
Proof.
  intros Hx Hy. unfold turned_source, turned_from, quarter_turn. destruct clockwise; cbn [fst snd].
  - split; [apply elem_of_coords; lia|]. split; [f_equal; lia|]. split; [done|]. apply pix_range; lia.
  - split; [apply elem_of_coords; lia|]. split; [f_equal; lia|]. split; [done|]. apply pix_range; lia.
Qed.

Lemma quarter_spec clockwise r :
  mono_wf r ->
  exists q, rotate r (quarter clockwise) = Ok q /\ mono_wf q /\
    m_width q = m_height r /\ m_height q = m_width r /\
    forall x y, 0 <= x < m_height r -> 0 <= y < m_width r ->
      m_pixels q !! Z.to_nat (y * m_height r + x) =
      m_pixels r !! Z.to_nat (turned_from clockwise r x y).
Proof.
  intros Hr. pose proof Hr as (Hw & Hh & Hs & Hl & Hb).
  set (dst := fun xy => let '(nx, ny) := quarter_turn clockwise r xy in ny * m_height r + nx).
  destruct (pixel_loop (m_width r) (m_height r) (m_width r * m_height r) dst
    (fun xy => px (m_pixels r) (snd xy * m_width r + fst xy))
    (fun xy out =>
        let '(nx, ny) := quarter_turn clockwise r xy in
        let? v := index (m_pixels r) (idx32 (m_width r) (fst xy) (snd xy)) in
        assign out (idx32 (m_height r) nx ny) v)
    (replicate (length (m_pixels r)) 0)) as (out & E & Hz & Hin & _).
  - rewrite zlen_replicate. unfold zlen in Hl. lia.
  - intros [x y] arr Hxy _. apply elem_of_coords in Hxy as [Hx Hy]. subst dst. cbn [fst snd].
    destruct (index_px (E := RasterError) (m_pixels r) (y * m_width r + x)) as [Ei _].
    { rewrite Hl. by apply pix_range. }
    rewrite (idx32_small _ (m_height r)), Ei by done.
    unfold quarter_turn; destruct clockwise; cbn [rbind];
      by rewrite (idx32_small _ (m_width r)) by lia.
  - intros [x y] Hxy. apply elem_of_coords in Hxy as [Hx Hy]. subst dst.
    unfold quarter_turn. rewrite (Z.mul_comm (m_width r)).
    destruct clockwise; apply pix_range; lia.
  - intros [x y] [x' y'] Hp Hq Hd. apply elem_of_coords in Hp as [? ?], Hq as [? ?].
    subst dst. unfold quarter_turn in Hd.
    destruct clockwise; apply pix_inj in Hd as [? ?]; try lia; f_equal; lia.
  - assert (forall x y, 0 <= x < m_height r -> 0 <= y < m_width r ->
      out !! Z.to_nat (y * m_height r + x) = Some (px (m_pixels r) (turned_from clockwise r x y))) as Hpix.
    { intros x y Hx Hy. destruct (turned_source_spec clockwise r x y Hx Hy) as (Hsrc & Et & <- & _).
      specialize (Hin _ Hsrc). subst dst. cbn beta in Hin. by rewrite Et in Hin. }
    exists {| m_width := m_height r; m_height := m_width r; m_pixels := out |}.
    split; [by destruct clockwise; simpl; rewrite E|].
    destruct (mono_of_pixels (m_height r) (m_width r) out (fun x y => px (m_pixels r) (turned_from clockwise r x y)))
      as [Hwf _]; try done; [lia|lia| |].
    { intros x y Hx Hy. apply mono_px; [done|]. by apply turned_source_spec. }
    split_and!; try done. intros x y Hx Hy. cbn [m_pixels]. rewrite Hpix by done. symmetry. apply mono_px; [done|].
    by apply turned_source_spec.
Qed.

Lemma rotate_half_spec r :
  mono_wf r ->
  exists q, rotate r Half = Ok q /\ mono_wf q /\ m_width q = m_width r /\ m_height q = m_height r /\
    forall x y, 0 <= x < m_width r -> 0 <= y < m_height r ->
      m_pixels q !! Z.to_nat (y * m_width r + x) =
      m_pixels r !! Z.to_nat ((m_height r - 1 - y) * m_width r + (m_width r - 1 - x)).
Proof.
  intros (Hw & Hh & Hs & Hl & Hb). eexists. split; [reflexivity|]. simpl. split_and!; try done.
  - unfold mono_wf, zlen. simpl. rewrite length_reverse. split_and!; try done.
    by apply Forall_reverse.
  - intros x y Hx Hy. pose proof (pix_range _ _ _ _ Hx Hy). unfold zlen in Hl.
    rewrite reverse_lookup by lia. f_equal. nia.
Qed.

(** Rotations compose. On valid rasters a quarter turn and its opposite
    cancel, in both orders, two half turns cancel, and two clockwise quarter
    turns are a half turn. *)
Theorem rotations_compose r :
  mono_wf r ->
  rbind (rotate r Clockwise90) (fun q => rotate q CounterClockwise90) = Ok r /\
  rbind (rotate r CounterClockwise90) (fun q => rotate q Clockwise90) = Ok r /\
  rbind (rotate r Half) (fun q => rotate q Half) = Ok r /\
  rbind (rotate r Clockwise90) (fun q => rotate q Clockwise90) = rotate r Half.
Proof.
  intros Hr. pose proof Hr as (Hw & Hh & Hs & Hl & Hb).
  assert (forall c, rbind (rotate r (quarter c)) (fun q => rotate q (quarter (negb c))) = Ok r) as Hinv.
  { intros c. destruct (quarter_spec c r Hr) as (q & -> & Hq & Ew & Eh & Hpix). cbn [rbind].
    destruct (quarter_spec (negb c) q Hq) as (p & -> & Hp & Ew' & Eh' & Hpix').
    pose proof Hp as (_ & _ & _ & Hlp & _). rewrite Ew, Eh in *.
    f_equal. symmetry. apply mono_ext; [done|congruence|congruence|done|congruence|].
    intros x y Hx Hy. rewrite Hpix' by done. unfold turned_from. rewrite Ew, Eh.
    destruct c; simpl; rewrite Hpix by lia; unfold turned_from; do 2 f_equal; lia. }
  split_and!; [apply (Hinv true)|apply (Hinv false)| |].
  - simpl. rewrite reverse_involutive. by destruct r.
  - destruct (quarter_spec true r Hr) as (q & Eq & Hq & Ew & Eh & Hpix).
    change (rotate r Clockwise90) with (rotate r (quarter true)). rewrite Eq. cbn [rbind].
    destruct (quarter_spec true q Hq) as (p & Ep & Hp & Ew' & Eh' & Hpix').
    change (rotate q Clockwise90) with (rotate q (quarter true)). rewrite Ep.
    destruct (rotate_half_spec r Hr) as (hf & -> & Hhf & Ewf & Ehf & Hpixf).
    pose proof Hp as (_ & _ & _ & Hlp & _). pose proof Hhf as (_ & _ & _ & Hlf & _).
    rewrite Ew, Eh in *. f_equal. apply mono_ext; try congruence.
    intros x y Hx Hy. rewrite Ew' in *. rewrite Eh' in *.
    rewrite Hpix' by done. rewrite Hpixf by done. unfold turned_from. rewrite Ew, Eh.
    rewrite Hpix by lia. unfold turned_from. do 2 f_equal; lia.
Qed.

(** ** Placement on the head *)

Lemma for_each_filter {E S A} (c : A -> bool) (f : A -> S -> Result E S) l s :
  for_each (fun a s => if c a then f a s else Ok s) l s = for_each f (List.filter c l) s.
Proof.
  revert s. induction l as [|a l IH]; intros s; [done|]. cbn [for_each List.filter].
  destruct (c a); simpl; [|apply IH]. destruct (f a s); simpl; auto.
Qed.

Lemma for_each_ext {E S A} (f g : A -> S -> Result E S) l s :
  (forall a s, f a s = g a s) -> for_each f l s = for_each g l s.
Proof.
  intros H. revert s. induction l as [|a l IH]; intros s; [done|]. cbn [for_each].
  rewrite H. destruct (g a s); simpl; auto.
Qed.

Lemma elem_of_filter_coords c w h x y :
  (x, y) ∈ List.filter c (coords w h) <-> (0 <= x < w /\ 0 <= y < h) /\ c (x, y) = true.
Proof. by rewrite list_elem_of_In, filter_In, <- list_elem_of_In, elem_of_coords. Qed.

Lemma NoDup_list_filter {A} (c : A -> bool) l : NoDup l -> NoDup (List.filter c l).
Proof.
  rewrite !NoDup_ListNoDup. apply List.NoDup_filter.
Qed.

(** The pixel of the source that placement puts at [(x, y)] of the head. *)
Definition placed_pixel (r : MonoRaster) (head_width : Z) (align : Fit) (ox oy x y : Z) : Z :=
  let copy := Z.min (m_width r) head_width in
  let sx := x - fit_dst align head_width copy - ox in
  let sy := y - oy in
  if (0 <=? sx) && (sx <? copy) && (0 <=? sy) && (sy <? m_height r)
  then px (m_pixels r) (sy * m_width r + (fit_src align (m_width r) copy + sx))
  else 0.

Lemma fit_src_range align w copy x :
  0 <= copy <= w -> 0 <= x < copy -> 0 <= fit_src align w copy + x < w.
Proof.
  intros Hc Hx. unfold fit_src. pose proof (Z.div_pos (w - copy) 2).
  pose proof (Z.div_le_upper_bound (w - copy) 2 (w - copy)). destruct align; lia.
Qed.

(** The loop over the pixels that [place_on_head] copies, and those it leaves white. *)
Lemma place_on_head_loop r head_width align ox oy :
  mono_wf r -> 0 < head_width -> head_width * (m_height r + Z.max oy 0) <= u32_max ->
  let height := m_height r + Z.max oy 0 in
  let copy := Z.min (m_width r) head_width in
  let dc := fit_dst align head_width copy in
  exists out,
    for_each (fun xy out =>
        let? v := index (m_pixels r) (idx32 (m_width r) (fit_src align (m_width r) copy + fst xy) (snd xy)) in
        assign (E := RasterError) out (idx32 head_width (dc + fst xy + ox) (snd xy + oy)) v)
      (List.filter (fun xy => (0 <=? dc + fst xy + ox) && (0 <=? snd xy + oy) &&
         (dc + fst xy + ox <? head_width) && (snd xy + oy <? height)) (coords copy (m_height r)))
      (replicate (Z.to_nat (head_width * height)) 0) = Ok out /\
    zlen out = head_width * height /\
    forall x y, 0 <= x < head_width -> 0 <= y < height ->
      out !! Z.to_nat (y * head_width + x) = Some (placed_pixel r head_width align ox oy x y).
Proof.
  intros Hr Hhw Hsize height copy dc. fold height in Hsize. pose proof Hr as (Hw & Hh & Hs & Hl & Hb). assert (0 < height) by lia.
  set (sc := fit_src align (m_width r) copy).
  set (c := fun xy : Z * Z => (0 <=? dc + fst xy + ox) && (0 <=? snd xy + oy) &&
        (dc + fst xy + ox <? head_width) && (snd xy + oy <? height)).
  set (dst := fun xy : Z * Z => (snd xy + oy) * head_width + (dc + fst xy + ox)).
  edestruct (write_loop (E := RasterError) (List.filter c (coords copy (m_height r))) dst
    (fun xy => px (m_pixels r) (snd xy * m_width r + (sc + fst xy)))) as (out & -> & Hz & Hin & Hout).
  - intros [x y] arr Hxy _. apply elem_of_filter_coords in Hxy as [[Hx Hy] Hc].
    subst dst c. cbn [fst snd] in *.
    assert (0 <= sc + x < m_width r) by (apply fit_src_range; lia).
    rewrite (idx32_small _ (m_height r)) by done.
    destruct (index_px (E := RasterError) (m_pixels r) (y * m_width r + (sc + x))) as [-> _].
    { rewrite Hl. by apply pix_range. }
    cbn [rbind]. by rewrite (idx32_small _ height) by blia.
  - intros [x y] Hxy. apply elem_of_filter_coords in Hxy as [[Hx Hy] Hc].
    subst dst c. cbn [fst snd] in *. rewrite zlen_replicate, Z2Nat.id by nia.
    apply pix_range; blia.
  - apply NoDup_dst; [apply NoDup_list_filter, NoDup_coords|].
    intros [x y] [x' y'] Hp Hq E.
    apply elem_of_filter_coords in Hp as [_ Hp], Hq as [_ Hq].
    subst dst c. cbn [fst snd] in *. apply pix_inj in E as [? ?]; [f_equal; lia|blia|blia].
  - rewrite zlen_replicate, Z2Nat.id in Hz by nia. exists out. split; [done|]. split; [done|].
    intros x y Hx Hy. unfold placed_pixel. fold copy sc dc.
    destruct (_ && _) eqn:Hc.
    + specialize (Hin (x - dc - ox, y - oy)). subst dst. cbn [fst snd] in Hin.
      replace (y - oy + oy) with y in Hin by lia.
      replace (dc + (x - dc - ox) + ox) with x in Hin by lia. apply Hin.
      apply elem_of_filter_coords. subst c. cbn [fst snd]. split; [blia|].
      rewrite !andb_true_iff. blia.
    + rewrite Hout; [|nia|].
      * apply lookup_replicate. pose proof (pix_range _ _ _ _ Hx Hy). lia.
      * intros Hel. apply list_elem_of_fmap in Hel as ([x' y'] & E & Hel).
        apply elem_of_filter_coords in Hel as [[Hx' Hy'] Hc'].
        subst dst c. cbn [fst snd] in *. apply pix_inj in E as [? ?]; [|blia|blia].
        rewrite !andb_false_iff in Hc. lia.
Qed.

(** placement on the print head. The placed raster is as wide as the head,
    is taller by the positive part of the vertical offset, and each of its
    pixels is the source pixel that alignment and offsets select, or white. *)
Theorem place_on_head_spec r head_width align ox oy :
  mono_wf r -> 0 < head_width ->
  head_width * (m_height r + Z.max oy 0) <= u32_max ->
  exists q, place_on_head r head_width align ox oy = Ok q /\ mono_wf q /\
    m_width q = head_width /\ m_height q = m_height r + Z.max oy 0 /\
    forall x y, 0 <= x < head_width -> 0 <= y < m_height q ->
      px (m_pixels q) (y * head_width + x) = placed_pixel r head_width align ox oy x y.
Proof.
  intros Hr Hhw Hsize. pose proof Hr as (Hw & Hh & Hs & Hl & Hb). unfold place_on_head.
  destruct (Z.eqb_spec head_width 0); [lia|].
  assert (as_u32 (m_height r + Z.max oy 0) = m_height r + Z.max oy 0) as ->.
  { unfold as_u32. apply Z.mod_small. unfold u32_max in *. nia. }
  set (height := m_height r + Z.max oy 0) in *. set (copy := Z.min (m_width r) head_width).
  set (dc := fit_dst align head_width copy).
  rewrite (for_each_ext _ (fun xy out =>
    if (0 <=? dc + fst xy + ox) && (0 <=? snd xy + oy) && (dc + fst xy + ox <? head_width) && (snd xy + oy <? height)
    then let? v := index (m_pixels r) (idx32 (m_width r) (fit_src align (m_width r) copy + fst xy) (snd xy)) in
         assign out (idx32 head_width (dc + fst xy + ox) (snd xy + oy)) v
    else Ok out)) by (by intros [x y] s).
  rewrite for_each_filter. subst dc copy height.
  destruct (place_on_head_loop r head_width align ox oy Hr Hhw Hsize) as (out & -> & Hz & Hpix).
  cbn [rbind]. eexists. split; [done|].
  destruct (mono_of_pixels head_width (m_height r + Z.max oy 0) out (placed_pixel r head_width align ox oy)) as [Hwf Hpx]; try done; [lia|].
  intros x y Hx Hy. unfold placed_pixel. destruct (_ && _) eqn:Hc; [|by left].
  apply mono_px; [done|]. apply pix_range; [apply fit_src_range; blia|blia].
Qed.

(** ** Packing *)

Lemma stride_bounds w : 0 < w -> 0 < stride_of w <= w /\ w <= 8 * stride_of w < w + 8.
Proof.
  intros Hw. unfold stride_of. pose proof (Z.div_mod (w + 7) 8). pose proof (Z.mod_pos_bound (w + 7) 8).
  lia.
Qed.

(** The bit of the packed rows that holds pixel [(x, y)]. *)
Definition pack_bit (w x y : Z) : Z := 8 * (y * stride_of w) + x.

Lemma pack_bit_range w h x y :
  0 < w -> 0 <= x < 8 * stride_of w -> 0 <= y < h ->
  0 <= pack_bit w x y < 8 * (stride_of w * h) /\
  pack_bit w x y / 8 = y * stride_of w + x / 8 /\ pack_bit w x y mod 8 = x mod 8.
Proof.
  intros Hw Hx Hy. pose proof (stride_bounds w Hw). unfold pack_bit. split_and!; [nia|nia| |].
  - rewrite Z.mul_comm, Z.div_add_l by lia. done.
  - rewrite Z.add_comm, (Z.mul_comm 8), Z.mod_add by lia. done.
Qed.

Lemma alter_insert_px (f : Z -> Z) l i :
  0 <= i < zlen l -> <[Z.to_nat i := f (px l i)]> l = alter f (Z.to_nat i) l.
Proof.
  intros Hi. destruct (index_px (E := unit) l i Hi) as [_ E].
  apply list_eq. intros j. destruct (decide (j = Z.to_nat i)) as [->|Hne].
  - rewrite list_lookup_insert_eq by (by eapply lookup_lt_Some). by rewrite list_lookup_alter_eq, E.
  - by rewrite list_lookup_insert_ne, list_lookup_alter_ne by done.
Qed.

(** The packing loop sets one bit per black pixel. *)
Lemma pack_loop r l out :
  mono_wf r -> zlen out = stride_of (m_width r) * m_height r ->
  (forall xy, xy ∈ l -> xy ∈ coords (m_width r) (m_height r)) ->
  for_each (pack_pixel r (stride_of (m_width r))) l out =
  Ok (or_bits (fun xy => negb (px (m_pixels r) (snd xy * m_width r + fst xy) =? 0))
        (fun xy => Z.to_nat (pack_bit (m_width r) (fst xy) (snd xy))) l out).
Proof.
  intros Hr. pose proof Hr as (Hw & Hh & Hs & Hl & Hb).
  pose proof (stride_bounds _ Hw) as [Hst Hst8]. revert out.
  induction l as [|[x y] l IH]; intros out Hz Hin; [done|]. cbn [for_each].
  rewrite or_bits_cons. cbn [fst snd]. unfold pack_pixel at 1.
  destruct (proj1 (elem_of_coords (m_width r) (m_height r) x y)) as [Hx Hy]; [apply Hin; left|].
  rewrite (idx32_small _ (m_height r)) by done.
  destruct (index_px (E := RasterError) (m_pixels r) (y * m_width r + x)) as [-> _].
  { rewrite Hl. by apply pix_range. }
  cbn [rbind]. destruct (Z.eqb_spec (px (m_pixels r) (y * m_width r + x)) 0); cbn [negb].
  - apply IH; [done|]. intros. apply Hin. by right.
  - destruct (pack_bit_range (m_width r) (m_height r) x y) as (Hr1 & Hr2 & Hr3); [lia..|].
    assert (0 <= y * stride_of (m_width r) + x / 8 < zlen out) as Hi.
    { rewrite Hz, <- Hr2. split; [apply Z.div_pos; lia|]. apply Z.div_lt_upper_bound; lia. }
    assert (as_u32 (y * stride_of (m_width r) + x / 8) = y * stride_of (m_width r) + x / 8) as ->.
    { unfold as_u32, u32_max in *. apply Z.mod_small. nia. }
    destruct (index_px (E := RasterError) out _ Hi) as [-> _]. cbn [rbind].
    rewrite assign_in_range by done. cbn [rbind]. rewrite IH.
    + f_equal. f_equal. unfold or_bit.
      rewrite (alter_insert_px (fun b => Z.lor b (Z.shiftr 128 (x mod 8)))) by done.
      assert (Z.to_nat (pack_bit (m_width r) x y) / 8 =
              Z.to_nat (y * stride_of (m_width r) + x / 8))%nat as ->.
      { rewrite <- Hr2. by rewrite (Z2Nat.inj_div _ 8) by lia. }
      f_equal. unfold msb_mask.
      assert (Z.of_nat (Z.to_nat (pack_bit (m_width r) x y) mod 8) = x mod 8) as ->; [|done].
      rewrite <- Hr3. rewrite <- (Z2Nat.id (pack_bit _ _ _ mod 8)) by (apply Z.mod_pos_bound; lia).
      by rewrite (Z2Nat.inj_mod _ 8) by lia.
    + by rewrite zlen_insert.
    + intros. apply Hin. by right.
Qed.

(** packing. A valid raster packs into [stride] bytes per row; the bit
    addressed by a pixel, most significant first, is set exactly when the
    pixel is black, and the padding bits of each row are clear. *)
Theorem pack_msb_spec r :
  mono_wf r ->
  exists bytes, pack_msb r = Ok bytes /\ bytes_ok bytes /\
    zlen bytes = stride_of (m_width r) * m_height r /\
    forall x y, 0 <= x < 8 * stride_of (m_width r) -> 0 <= y < m_height r ->
      get_bit bytes (Z.to_nat (pack_bit (m_width r) x y)) =
      (x <? m_width r) && (px (m_pixels r) (y * m_width r + x) =? 1).
Proof.
  intros Hr. pose proof Hr as (Hw & Hh & Hs & Hl & Hb). unfold pack_msb.
  pose proof (stride_bounds _ Hw) as [Hst Hst8].
  rewrite mono_wf_validate by done. cbn [raising map_err rbind].
  rewrite pack_loop; [|done|rewrite zlen_replicate; nia|done].
  eexists. split; [done|]. split_and!.
  - apply bytes_ok_or_bits, Forall_replicate. unfold byte_ok. lia.
  - unfold zlen. rewrite length_or_bits, length_replicate. nia.
  - intros x y Hx Hy. rewrite get_or_bits.
    2: { intros [x' y'] Hxy. apply elem_of_coords in Hxy as [Hx' Hy']. cbn [fst snd].
         rewrite length_replicate.
         destruct (pack_bit_range (m_width r) (m_height r) x' y') as (? & _ & _); lia. }
    rewrite get_bit_replicate_zero, orb_false_l. apply eq_bool_prop_intro.
    rewrite !Is_true_true, existsb_exists, andb_true_iff. split.
    + intros ([x' y'] & Hin & E). apply list_elem_of_In, elem_of_coords in Hin as [Hx' Hy'].
      cbn [fst snd] in E. apply andb_true_iff in E as [E1 E2]. apply Nat.eqb_eq in E2.
      destruct (pack_bit_range (m_width r) (m_height r) x' y') as (R1 & _ & _); [lia..|].
      destruct (pack_bit_range (m_width r) (m_height r) x y) as (R2 & _ & _); [lia..|].
      assert (pack_bit (m_width r) x' y' = pack_bit (m_width r) x y) as E by lia.
      unfold pack_bit in E. assert (y' = y) as -> by nia. assert (x' = x) as -> by lia.
      destruct (mono_px r (y * m_width r + x) Hr) as [_ [V|V]]; [by apply pix_range| |];
        rewrite V in *; lia.
    + intros [Hxw Hv]. exists (x, y). rewrite <- list_elem_of_In, elem_of_coords. cbn [fst snd].
      split; [lia|]. rewrite andb_true_iff. split; [|by apply Nat.eqb_eq]. blia.
Qed.

(** ** Blitting *)

Lemma copy_slice_spec {E} dst start src :
  0 <= start -> start + zlen src <= zlen dst ->
  exists out, copy_slice (E := E) dst start src = Ok out /\ zlen out = zlen dst /\
    forall i, 0 <= i -> out !! Z.to_nat i =
      if (start <=? i) && (i <? start + zlen src) then src !! Z.to_nat (i - start)
      else dst !! Z.to_nat i.
Proof.
  intros Hs Hle. unfold copy_slice. destruct (Z.leb_spec (start + zlen src) (zlen dst)); [|lia].
  eexists. split; [done|]. unfold zlen in *. split.
  { rewrite !length_app, length_take, length_drop. lia. }
  intros i Hi. destruct (_ && _) eqn:Hc.
  - rewrite lookup_app_r by (rewrite length_take; blia).
    rewrite lookup_app_l by (rewrite length_take; blia).
    f_equal. rewrite length_take. blia.
  - rewrite andb_false_iff in Hc. destruct (decide (i < start)).
    + rewrite lookup_app_l by (rewrite length_take; lia). apply lookup_take_lt. lia.
    + rewrite lookup_app_r by (rewrite length_take; lia).
      rewrite lookup_app_r by (rewrite length_take; lia).
      rewrite lookup_drop. f_equal. rewrite length_take. lia.
Qed.

Lemma get_range_spec (l : list Z) start len :
  0 <= start -> 0 <= len -> start + len <= zlen l ->
  exists s, get_range l start (start + len) = Some s /\ zlen s = len /\
    forall i, 0 <= i < len -> s !! Z.to_nat i = l !! Z.to_nat (start + i).
Proof.
  intros Hs Hn Hle. unfold get_range.
  destruct (Z.leb_spec start (start + len)); [|lia].
  destruct (Z.leb_spec (start + len) (zlen l)); [|lia]. cbn [andb].
  eexists. split; [done|]. unfold zlen in *. rewrite length_take, length_drop. split; [lia|].
  intros i Hi. rewrite lookup_take_lt by lia. rewrite lookup_drop. f_equal. lia.
Qed.

(** The pixel a blit leaves at [(X, Y)]. *)
Definition blitted (self source : MonoRaster) (x y X Y : Z) : Z :=
  if (x <=? X) && (X <? x + m_width source) && (y <=? Y) && (Y <? y + m_height source)
  then px (m_pixels source) ((Y - y) * m_width source + (X - x))
  else px (m_pixels self) (Y * m_width self + X).

Lemma checked_small v : 0 <= v <= u32_max -> checked usize_max v = Some v.
Proof. intros. apply checked_Some. unfold in_u, usize_max, u64_max, u32_max in *. lia. Qed.

Lemma blit_row_spec self source x y row pixels :
  mono_wf self -> mono_wf source -> 0 <= x -> 0 <= y ->
  x + m_width source <= m_width self -> y + m_height source <= m_height self ->
  0 <= row < m_height source -> zlen pixels = m_width self * m_height self ->
  exists out, blit_row self source x y row pixels = Ok out /\
    zlen out = m_width self * m_height self /\
    forall X Y, 0 <= X < m_width self -> 0 <= Y < m_height self ->
      out !! Z.to_nat (Y * m_width self + X) =
      if (Y =? y + row) && (x <=? X) && (X <? x + m_width source)
      then m_pixels source !! Z.to_nat (row * m_width source + (X - x))
      else pixels !! Z.to_nat (Y * m_width self + X).
Proof.
  intros (Hw & Hh & Hs & Hl & _) (Hw' & Hh' & Hs' & Hl' & _) Hx Hy Hright Hbottom Hrow Hp.
  unfold blit_row.
  repeat (rewrite checked_small by nia; cbn [ok_or raising map_err rbind]).
  destruct (get_range_spec (m_pixels source) (row * m_width source) (m_width source))
    as (s & -> & Hzs & Hps); [nia..|].
  destruct (copy_slice_spec (E := RasterError) pixels ((y + row) * m_width self + x) s)
    as (out & -> & Hzo & Hpo); [nia|nia|].
  exists out. split; [done|]. split; [lia|]. intros X Y HX HY. rewrite Hpo by nia.
  assert (((y + row) * m_width self + x <=? Y * m_width self + X) &&
          (Y * m_width self + X <? (y + row) * m_width self + x + zlen s) =
          (Y =? y + row) && (x <=? X) && (X <? x + m_width source)) as ->.
  { apply eq_bool_prop_intro. rewrite !Is_true_true, !andb_true_iff, Hzs.
    rewrite !Z.leb_le, !Z.ltb_lt, Z.eqb_eq. split; [|nia].
    intros [? ?]. assert (Y = y + row) by nia. subst. lia. }
  destruct (_ && _) eqn:Hd; [|done]. assert (Y = y + row) as -> by blia.
  replace ((y + row) * m_width self + X - ((y + row) * m_width self + x)) with (X - x) by lia.
  rewrite Hps by blia. done.
Qed.

Lemma blit_rows_spec self source x y rows pixels :
  mono_wf self -> mono_wf source -> 0 <= x -> 0 <= y ->
  x + m_width source <= m_width self -> y + m_height source <= m_height self ->
  (forall row, row ∈ rows -> 0 <= row < m_height source) ->
  zlen pixels = m_width self * m_height self ->
  exists out, for_each (blit_row self source x y) rows pixels = Ok out /\
    zlen out = m_width self * m_height self /\
    forall X Y, 0 <= X < m_width self -> 0 <= Y < m_height self ->
      out !! Z.to_nat (Y * m_width self + X) =
      if bool_decide (Y - y ∈ rows) && (x <=? X) && (X <? x + m_width source)
      then m_pixels source !! Z.to_nat ((Y - y) * m_width source + (X - x))
      else pixels !! Z.to_nat (Y * m_width self + X).
Proof.
  intros Hself Hsource Hx Hy Hright Hbottom. revert pixels.
  induction rows as [|row rows IH]; intros pixels Hrows Hp.
  - exists pixels. split; [done|]. split; [done|]. intros X Y _ _.
    by rewrite bool_decide_eq_false_2 by (apply not_elem_of_nil).
  - destruct (blit_row_spec self source x y row pixels) as (mid & Emid & Hzm & Hpm); try done.
    { apply Hrows. left. }
    destruct (IH mid) as (out & Eout & Hzo & Hpo); [intros; apply Hrows; by right|done|].
    exists out. split; [cbn [for_each]; by rewrite Emid|]. split; [done|].
    intros X Y HX HY. rewrite Hpo, Hpm by done.
    destruct (decide (Y - y = row)) as [<-|Hne].
    + rewrite (bool_decide_eq_true_2 (Y - y ∈ (Y - y) :: rows)) by left.
      destruct (Z.eqb_spec Y (y + (Y - y))); [|lia].
      destruct (bool_decide (Y - y ∈ rows)), (x <=? X), (X <? x + m_width source); done.
    + destruct (Z.eqb_spec Y (y + row)); [lia|]. simpl.
      assert (bool_decide (Y - y ∈ rows) = bool_decide (Y - y ∈ row :: rows)) as ->; [|done].
      apply bool_decide_ext. rewrite elem_of_cons. naive_solver.
Qed.

(** The pixels that the rows of a blit leave are those of its specification. *)
Lemma blitted_pixel self source x y (out : list Z) :
  mono_wf self -> mono_wf source -> 
  (forall X Y, 0 <= X < m_width self -> 0 <= Y < m_height self ->
    out !! Z.to_nat (Y * m_width self + X) =
    if bool_decide (Y - y ∈ seqZ 0 (m_height source)) && (x <=? X) && (X <? x + m_width source)
    then m_pixels source !! Z.to_nat ((Y - y) * m_width source + (X - x))
    else m_pixels self !! Z.to_nat (Y * m_width self + X)) ->
  forall X Y, 0 <= X < m_width self -> 0 <= Y < m_height self ->
    out !! Z.to_nat (Y * m_width self + X) = Some (blitted self source x y X Y).
Proof.
  intros Hself Hsource Hpix.
  intros X Y HX HY. rewrite Hpix by done. unfold blitted.
  destruct (mono_px self (Y * m_width self + X) Hself) as [Epx _]; [by apply pix_range|].
  destruct (decide (Y - y ∈ seqZ 0 (m_height source))) as [Hin|Hin].
  - rewrite bool_decide_eq_true_2 by done. apply elem_of_seqZ in Hin. cbn [andb].
    destruct (Z.leb_spec y Y); [|lia]. destruct (Z.ltb_spec Y (y + m_height source)); [|lia].
    rewrite !andb_true_r. destruct (_ && _) eqn:Hd; [|exact Epx].
    apply (mono_px source); [done|]. apply pix_range; blia.
  - rewrite bool_decide_eq_false_2 by done. rewrite elem_of_seqZ in Hin. cbn [andb].
    destruct (_ && _) eqn:Hd in |- *; [|exact Epx]. exfalso. blia.
Qed.

(** The bounds that a blit computes do not overflow when the source fits, and
    it is refused when it does not. *)
Lemma blit_bounds {A} w h right bottom (k : Checked A) :
  in_u u32_max w -> in_u u32_max h -> 0 <= right -> 0 <= bottom ->
  (let? right := raising (ok_or (checked u32_max right) Placement) in
   let? bottom := raising (ok_or (checked u32_max bottom) Placement) in
   if (w <? right) || (h <? bottom) then fail Placement else k) =
  if (right <=? w) && (bottom <=? h) then k else fail Placement.
Proof.
  intros [_ Hw] [_ Hh] Hr Hb.
  destruct (checked u32_max right) as [r|] eqn:Er; cbn [ok_or raising map_err rbind].
  - apply checked_Some in Er as [_ ->].
    destruct (checked u32_max bottom) as [b|] eqn:Eb; cbn [ok_or raising map_err rbind].
    + apply checked_Some in Eb as [_ ->].
      destruct (Z.ltb_spec w right), (Z.ltb_spec h bottom), (Z.leb_spec right w), (Z.leb_spec bottom h); done || lia.
    + destruct (Z.leb_spec bottom h); [|by rewrite andb_false_r].
      rewrite checked_id in Eb by (unfold in_u; lia). done.
  - destruct (Z.leb_spec right w); [|done]. rewrite checked_id in Er by (unfold in_u; lia). done.
Qed.

(** blitting. Copying a valid raster into a valid raster succeeds exactly
    when the source lies inside the destination; the copied pixels are the
    source's, all others are unchanged. Otherwise the error is [Placement]. *)
Theorem blit_spec self source x y :
  mono_wf self -> mono_wf source -> in_u u32_max x -> in_u u32_max y ->
  if (x + m_width source <=? m_width self) && (y + m_height source <=? m_height self)
  then exists q, blit self source x y = Ok q /\ mono_wf q /\
         m_width q = m_width self /\ m_height q = m_height self /\
         forall X Y, 0 <= X < m_width self -> 0 <= Y < m_height self ->
           px (m_pixels q) (Y * m_width self + X) = blitted self source x y X Y
  else blit self source x y = fail Placement.
Proof.
  intros Hself Hsource Hx Hy. pose proof Hself as (Hw & Hh & Hs & Hl & Hb).
  pose proof Hsource as (Hw' & Hh' & _). unfold blit. rewrite !mono_wf_validate by done. cbn [raising map_err rbind].
  unfold in_u in *. rewrite (blit_bounds (m_width self) (m_height self)) by (unfold in_u, u32_max in *; nia).
  destruct (_ && _) eqn:Hc; [|done]. apply andb_true_iff in Hc as [Hc1 Hc2].
  destruct (blit_rows_spec self source x y (seqZ 0 (m_height source)) (m_pixels self))
    as (out & -> & Hz & Hpix); try done; try lia.
  { intros row Hrow. apply elem_of_seqZ in Hrow. lia. }
  cbn [rbind]. eexists. split; [done|].
  destruct (mono_of_pixels (m_width self) (m_height self) out (blitted self source x y)) as [Hwf Hpx]; try done.
  { by apply blitted_pixel. }
  intros X Y HX HY. unfold blitted. destruct (_ && _) eqn:Hd.
  - apply (mono_px source); [done|]. apply pix_range; blia.
  - apply (mono_px self); [done|]. by apply pix_range.
Qed.

(** ** The theorems at a concrete raster *)

Definition sample_gray : GrayRaster :=
  {| g_width := 3; g_height := 2; g_pixels := [0; 255; 255; 255; 0; 0] |}.

Definition sample_mono : MonoRaster :=
  {| m_width := 3; m_height := 2; m_pixels := [1; 0; 0; 0; 1; 1] |}.

Definition sample_dot : MonoRaster := {| m_width := 1; m_height := 1; m_pixels := [1] |}.

Lemma sample_gray_wf : gray_wf sample_gray.
Proof.
  split_and!; [reflexivity..|discriminate|reflexivity|].
  repeat constructor; unfold byte_ok; lia.
Qed.

Lemma sample_mono_wf : mono_wf sample_mono.
Proof.
  split_and!; [reflexivity..|discriminate|reflexivity|].
  repeat constructor; unfold bit_ok; lia.
Qed.

Lemma sample_dot_wf : mono_wf sample_dot.
Proof.
  split_and!; [reflexivity..|discriminate|reflexivity|].
  repeat constructor; unfold bit_ok; lia.
Qed.

Lemma dither_total_witness :
  exists m, dither sample_gray FloydSteinberg = Ok m /\ m_width m = 3 /\ m_height m = 2 /\ mono_wf m.
Proof. exact (dither_total sample_gray FloydSteinberg sample_gray_wf). Defined.

Lemma dither_bilevel_exact_witness : dither sample_gray (Threshold 128) = Ok sample_mono.
Proof.
  refine (dither_bilevel_exact sample_gray (Threshold 128) sample_gray_wf _ _).
  - repeat constructor; unfold bilevel; lia.
  - intros t E. injection E as <-. lia.
Defined.

Lemma rotations_compose_witness :
  rbind (rotate sample_mono Clockwise90) (fun q => rotate q CounterClockwise90) = Ok sample_mono.
Proof. exact (proj1 (rotations_compose sample_mono sample_mono_wf)). Defined.

Lemma place_on_head_spec_witness :
  exists q, place_on_head sample_mono 8 FitCenter 1 2 = Ok q /\ m_width q = 8 /\ m_height q = 4.
Proof.
  destruct (place_on_head_spec sample_mono 8 FitCenter 1 2) as (q & E & _ & Ew & Eh & _).
  - exact sample_mono_wf.
  - reflexivity.
  - discriminate.
  - exists q. exact (conj E (conj Ew Eh)).
Defined.

Lemma pack_msb_spec_witness : exists bytes, pack_msb sample_mono = Ok bytes /\ zlen bytes = 2.
Proof.
  destruct (pack_msb_spec sample_mono sample_mono_wf) as (bytes & E & _ & Ez & _).
  exists bytes. exact (conj E Ez).
Defined.

Lemma blit_spec_witness :
  (exists q, blit sample_mono sample_dot 1 0 = Ok q) /\ blit sample_mono sample_dot 3 0 = fail Placement.
Proof.
  assert (forall v, 0 <= v <= 10 -> in_u u32_max v) as Hu
    by (intros; unfold in_u, u32_max; lia).
  split.
  - destruct (blit_spec sample_mono sample_dot 1 0 sample_mono_wf sample_dot_wf) as (q & E & _);
      [apply Hu; lia..|]. exists q. exact E.
  - exact (blit_spec sample_mono sample_dot 3 0 sample_mono_wf sample_dot_wf
             (Hu 3 ltac:(lia)) (Hu 0 ltac:(lia))).
Defined.
