(* ===== verification/Transport.v ===== *)
(** The executor's boundary (crates/mb-printer-executor/src/transport.rs and
    error.rs): the transport and cancellation traits as type classes, their
    results, and the error type of an execution. *)

From stdpp Require Import base list strings numbers option.
From S2P Require Import Prelude.

#[local] Open Scope Z_scope.

(** ** Errors and results *)

Inductive TransportErrorKind :=
| Connection | Disconnected | Unsupported | InvalidConfiguration
| PermissionDenied | KindTimeout | KindCancelled | Io.

#[global] Instance TransportErrorKind_eq_dec : EqDecision TransportErrorKind.
Proof. solve_decision. Defined.

Record TransportError := {
  kind : TransportErrorKind;
  message : string;
}.

#[global] Instance TransportError_eq_dec : EqDecision TransportError.
Proof. solve_decision. Defined.

Inductive WriteKind := Command | RasterData.

#[global] Instance WriteKind_eq_dec : EqDecision WriteKind.
Proof. solve_decision. Defined.

Inductive NotificationSupport := Subscribed | NotificationsUnavailable.

Inductive WaitOutcome :=
| Response (bytes : list Z)
| TimedOut
| Unavailable.

(** What an execution has done so far; the index is the source's [usize]. *)
Record Progress := {
  last_completed_action : option Z;
  bytes_written : Z;
  potentially_accepted_write : bool;
  responses : list (list Z);
}.

Definition Progress_default : Progress := {|
  last_completed_action := None;
  bytes_written := 0;
  potentially_accepted_write := false;
  responses := [];
|}.

(** [StoreError] is the replay store's own error type. *)
Inductive ExecuteError {StoreError : Type} :=
| AtomicTooLarge (action length limit : Z)
| InvalidPlan (action : Z) (why : string)
| Replay (key : list Z)
| ReplayStoreFailed (source : StoreError)
| CancelledAt (progress : Progress)
| WriteOutcomeUnknown (progress : Progress) (source : option TransportError)
| TransportFailed (progress : Progress) (source : TransportError)
| Timeout (progress : Progress)
| InvalidResponse (progress : Progress) (why : string).
Arguments ExecuteError : clear implicits.

(** ** Operations in flight *)

(** A transport operation is a future that [select] runs against the
    cancellation signal: either it completes with a value, or the signal
    resolves first and the future is dropped, after an unknown part of its
    effect. *)
Record TransportFuture (T A : Type) := {
  complete : T -> A * T;
  dropped : T -> T;
}.
Arguments complete {T A} _ _.
Arguments dropped {T A} _ _.

(** The reads of [&self] methods thread the state: a limit negotiated by the
    device or a flag set by another thread changes between two reads. *)
Class Transport (T : Type) := {
  payload_limit : T -> Z * T;
  payload_limit_usize : forall t, in_u usize_max (fst (payload_limit t));
  command_limit : T -> Z * T;
  subscribe_notifications : TransportFuture T (Result TransportError NotificationSupport);
  write : list Z -> WriteKind -> TransportFuture T (Result TransportError unit);
  wait_response : Z -> TransportFuture T (Result TransportError WaitOutcome);
  delay_for : Z -> TransportFuture T unit;
}.

(** [Instant::now], in nanoseconds; time passes while the transport works. *)
Class Clock (T : Type) := { now : T -> Z * T }.

(** [signalled] says whether [cancelled()] resolves before the operation it
    races against. *)
Class Cancellation (C : Type) := {
  is_cancelled : C -> bool * C;
  signalled : C -> bool * C;
}.

Inductive NeverCancelled := never_cancelled.

#[global] Instance NeverCancelled_Cancellation : Cancellation NeverCancelled := {
  is_cancelled c := (false, c);
  signalled c := (false, c);
}.

(** [CancellationToken]: one flag, set by [cancel] and never cleared. The
    other threads are a schedule of what happens up to each consecutive read:
    whether [cancel] is called, and whether the operation raced against the
    token is ready when [select] polls it, which it does first. *)
Record CancellationToken := {
  flag : bool;
  schedule : list (bool * bool);
}.

Definition cancel (t : CancellationToken) : CancellationToken :=
  {| flag := true; schedule := schedule t |}.

Definition token_step (t : CancellationToken) : bool * CancellationToken :=
  match schedule t with
  | [] => (false, t)
  | (called, ready) :: rest =>
      let t := {| flag := flag t; schedule := rest |} in
      (ready, if called then cancel t else t)
  end.

#[global] Instance CancellationToken_Cancellation : Cancellation CancellationToken := {
  is_cancelled t := let '(_, t) := token_step t in (flag t, t);
  signalled t := let '(ready, t) := token_step t in (flag t && negb ready, t);
}.

(** ** Recording a transport *)

(** What an observer of the transport sees; the outcome is [None] when the
    operation was dropped. *)
Inductive Event :=
| ReadPayloadLimit (limit : Z)
| ReadCommandLimit (limit : Z)
| SubscribeCall (outcome : option (Result TransportError NotificationSupport))
| WriteCall (bytes : list Z) (kind : WriteKind) (outcome : option (Result TransportError unit))
| WaitCall (timeout : Z) (outcome : option (Result TransportError WaitOutcome))
| DelayCall (duration : Z).

(** Any transport with the record of its calls, oldest first. *)
Record Traced (T : Type) := {
  traced : T;
  trace : list Event;
}.
Arguments traced {T} _.
Arguments trace {T} _.

Definition log {T} (e : Event) (t : T) (old : Traced T) : Traced T :=
  {| traced := t; trace := trace old ++ [e] |}.

Definition log_future {T A} (e : option A -> Event) (f : TransportFuture T A) :
    TransportFuture (Traced T) A := {|
  complete t := let '(a, t') := complete f (traced t) in (a, log (e (Some a)) t' t);
  dropped t := log (e None) (dropped f (traced t)) t;
|}.

#[global] Program Instance Traced_Transport {T} `{Transport T} : Transport (Traced T) := {
  payload_limit t := let '(n, t') := payload_limit (traced t) in (n, log (ReadPayloadLimit n) t' t);
  command_limit t := let '(n, t') := command_limit (traced t) in (n, log (ReadCommandLimit n) t' t);
  subscribe_notifications := log_future SubscribeCall subscribe_notifications;
  write bytes kind := log_future (WriteCall bytes kind) (write bytes kind);
  wait_response timeout := log_future (WaitCall timeout) (wait_response timeout);
  delay_for d := log_future (fun _ => DelayCall d) (delay_for d);
}.
Next Obligation.
  intros T Htransport t. pose proof (payload_limit_usize (traced t)) as Hu.
  cbn beta. by destruct (payload_limit (traced t)).
Qed.

#[global] Instance Traced_Clock {T} `{Clock T} : Clock (Traced T) := {
  now t := let '(n, t') := now (traced t) in (n, {| traced := t'; trace := trace t |});
}.
