(* ===== verification/Executor.v ===== *)
(** The plan executor (crates/mb-printer-executor/src/executor.rs): preflight,
    the action loop, writes, response collection and validation.

    An [async fn] is a computation of the [EM] monad on what it borrows
    mutably. *)

From stdpp Require Import base list strings numbers option.
From S2P Require Import Prelude Effects Capabilities ProtocolTypes Transport.

#[local] Open Scope Z_scope.

(** ** Limits and timing *)

Definition MAX_PLAN_ACTIONS : Z := 16384.
Definition MAX_RETAINED_RESPONSE_BYTES : Z := 16 * 1024 * 1024.
Definition MAX_FIXED_RESPONSE_READS : nat := 16.
Definition MAX_MULTIPART_READS : nat := 4096.

Inductive ReferenceTiming :=
| Preserve
| IncreaseBy (extra : Z)
| UnsafeDiagnosticReduceBy (reduction : Z).

(** [Duration::from_millis], in nanoseconds. *)
Definition from_millis (ms : Z) : Z := ms * 1000000.

Definition apply_timing (timing : ReferenceTiming) (reference_ms : Z) : Z :=
  from_millis
    match timing with
    | Preserve => reference_ms
    | IncreaseBy extra => saturate u64_max (reference_ms + extra)
    | UnsafeDiagnosticReduceBy reduction => saturate u64_max (reference_ms - reduction)
    end.

(** ** Preflight *)

Definition is_variable_length (validation : ResponseValidation) : bool :=
  match validation with
  | BrotherObjbrnet | BrotherWifiScan | BrotherSystemReport => true
  | _ => false
  end.

Section Preflight.
Context {StoreError : Type}.
#[local] Abbreviation Error := (ExecuteError StoreError).

Definition preflight_action (command_limit index : Z) (action : Action) (retained : Z) :
    Result Error Z :=
  match action with
  | CommandWrite _ bytes atomic =>
      if atomic && (command_limit <? zlen bytes)
      then Err (AtomicTooLarge index (zlen bytes) command_limit)
      else Ok retained
  | RasterWrite _ logical_chunk _ =>
      if logical_chunk =? 0 then Err (InvalidPlan index "zero logical raster chunk")
      else Ok retained
  | WaitForResponse timeout_ms _ validation =>
      if timeout_ms =? 0 then Err (InvalidPlan index "response timeout must be positive")
      else if is_variable_length validation
      then Err (InvalidPlan index "variable-length validator requires response collection")
      else Ok retained
  | CollectResponse timeout_ms idle_timeout_ms maximum_bytes _ =>
      if (timeout_ms =? 0) || (idle_timeout_ms =? 0) || (maximum_bytes =? 0)
      then Err (InvalidPlan index "response collection bounds must be positive")
      else
        let? retained :=
          ok_or (checked usize_max (retained + maximum_bytes))
                (InvalidPlan index "retained response byte limit overflow") in
        if MAX_RETAINED_RESPONSE_BYTES <? retained
        then Err (InvalidPlan index "retained response bytes exceed executor limit")
        else Ok retained
  | _ => Ok retained
  end.

Fixpoint preflight_actions (command_limit index : Z) (acts : list Action) (retained : Z) :
    Result Error unit :=
  match acts with
  | [] => Ok tt
  | action :: acts =>
      let? retained := preflight_action command_limit index action retained in
      preflight_actions command_limit (index + 1) acts retained
  end.

Definition preflight (plan : Plan) (payload_limit command_limit : Z) : Result Error unit :=
  if payload_limit =? 0 then Err (InvalidPlan 0 "zero transport payload limit")
  else if command_limit =? 0 then Err (InvalidPlan 0 "zero transport command limit")
  else if MAX_PLAN_ACTIONS <? zlen (actions plan)
  then Err (InvalidPlan 0 "plan action count exceeds executor limit")
  else preflight_actions command_limit 0 (actions plan) 0.
End Preflight.

(** ** Validation *)

Fixpoint contains (haystack needle : list Z) : bool :=
  starts_with needle haystack ||
  match haystack with [] => false | _ :: haystack => contains haystack needle end.

Definition valid_response (validation : ResponseValidation) (bytes : list Z) : bool :=
  match validation with
  | AnyNotification => negb (zlen bytes =? 0)
  | PhomemoNotification => (3 <=? zlen bytes) && bool_decide (bytes !! 0%nat = Some 26)
  | BrotherStatus32 => (zlen bytes =? 32) && starts_with [128; 32; 66] bytes
  | BrotherObjbrnet => contains bytes (str "OBJBRNET")
  | BrotherWifiScan => contains bytes (str "AVAILABLEWLAN") || contains bytes (str "VAP,")
  | BrotherSystemReport => contains bytes (str "<<PRINTER CONFIGURATION>>")
  end.

Definition validate {SE} (validation : ResponseValidation) (bytes : list Z) (progress : Progress) :
    Result (ExecuteError SE) unit :=
  if valid_response validation bytes then Ok tt
  else Err (InvalidResponse progress "response did not match declared validator").

Definition retained_bytes (progress : Progress) : Z :=
  foldr Z.add 0 (map zlen (responses progress)).

(** ** Errors of effects *)

Inductive EffectError :=
| EffectCancelled
| EffectTransport (error : TransportError)
| EffectResponse (why : string).

Definition non_write_error {SE} (progress : Progress) (source : TransportError) :
    ExecuteError SE :=
  if decide (kind source = KindCancelled) then CancelledAt progress
  else TransportFailed progress source.

Definition response_effect_error {SE} (progress : Progress) (error : EffectError) :
    ExecuteError SE :=
  match error with
  | EffectCancelled => CancelledAt progress
  | EffectTransport source => non_write_error progress source
  | EffectResponse why => InvalidResponse progress why
  end.

Definition error_progress {SE} (error : ExecuteError SE) : option Progress :=
  match error with
  | CancelledAt progress | WriteOutcomeUnknown progress _ | TransportFailed progress _
  | Timeout progress | InvalidResponse progress _ => Some progress
  | _ => None
  end.

Definition execute_error_code {SE} (error : ExecuteError SE) : string :=
  match error with
  | AtomicTooLarge _ _ _ => "atomic-too-large"
  | InvalidPlan _ _ => "invalid-plan"
  | Replay _ => "replay"
  | ReplayStoreFailed _ => "replay-store"
  | CancelledAt _ => "cancelled"
  | WriteOutcomeUnknown _ _ => "write-outcome-unknown"
  | TransportFailed _ _ => "transport"
  | Timeout _ => "timeout"
  | InvalidResponse _ _ => "response"
  end.

Inductive Race (A : Type) :=
| Completed (a : A)
| RaceCancelled.
Arguments Completed {A} a.
Arguments RaceCancelled {A}.

(** ** Execution *)

(** What an execution borrows: the transport, the cancellation source, and
    the calls made to the progress callback, oldest first. *)
Record Env (T C : Type) := {
  transport : T;
  cancellation : C;
  reported : list Progress;
}.
Arguments transport {T C} _.
Arguments cancellation {T C} _.
Arguments reported {T C} _.

Section Execution.
Context {T C SE : Type} `{Transport T, Clock T, Cancellation C}.
#[local] Abbreviation env := (Env T C).
#[local] Abbreviation Error := (ExecuteError SE).

Definition with_transport (t : T) (e : env) : env :=
  {| transport := t; cancellation := cancellation e; reported := reported e |}.
Definition with_cancellation (c : C) (e : env) : env :=
  {| transport := transport e; cancellation := c; reported := reported e |}.

(** A synchronous method of the transport. *)
Definition read {E A} (f : T -> A * T) : EM env E A := fun e =>
  let '(a, t) := f (transport e) in (Ok a, with_transport t e).

Definition cancel_requested {E} : EM env E bool := fun e =>
  let '(b, c) := is_cancelled (cancellation e) in (Ok b, with_cancellation c e).

(** [select(operation, cancellation.cancelled())]. *)
Definition race {E A} (operation : TransportFuture T A) : EM env E (Race A) := fun e =>
  let '(fired, c) := signalled (cancellation e) in
  let e := with_cancellation c e in
  if fired then (Ok RaceCancelled, with_transport (dropped operation (transport e)) e)
  else
    let '(a, t) := complete operation (transport e) in
    (Ok (Completed a), with_transport t e).

Definition wait (timeout : Z) : EM env EffectError WaitOutcome :=
  let! result := race (wait_response timeout) in
  match result with
  | RaceCancelled => ethrow EffectCancelled
  | Completed (Err error) =>
      if decide (kind error = KindCancelled) then ethrow EffectCancelled
      else ethrow (EffectTransport error)
  | Completed (Ok outcome) => eret outcome
  end.

(** [timeout.saturating_sub(started.elapsed())]. *)
Definition remaining_of (timeout started current : Z) : Z :=
  Z.max 0 (timeout - Z.max 0 (current - started)).

Definition expected_length (validation : ResponseValidation) : Z :=
  match validation with
  | BrotherStatus32 => 32
  | AnyNotification => 1
  | PhomemoNotification => 3
  | _ => usize_max
  end.

Definition is_phomemo (validation : ResponseValidation) : bool :=
  bool_decide (validation = PhomemoNotification).

(** [bytes.iter().position(|byte| *byte == b)] and [split_off] there. *)
Fixpoint from_byte (b : Z) (bytes : list Z) : option (list Z) :=
  match bytes with
  | [] => None
  | x :: rest => if x =? b then Some bytes else from_byte b rest
  end.

(** The complete response in [bytes], if it is already there. *)
Definition complete_response (validation : ResponseValidation) (bytes : list Z) : option (list Z) :=
  if is_phomemo validation then
    match from_byte 26 bytes with
    | Some frame => if expected_length validation <=? zlen frame then Some frame else None
    | None => None
    end
  else if expected_length validation <=? zlen bytes then Some bytes else None.

Definition grow (already len added : Z) : Result EffectError Z :=
  let? value := ok_or (checked usize_max (already + len)) (EffectResponse "response size overflow") in
  ok_or (checked usize_max (value + added)) (EffectResponse "response size overflow").

(** The loop of [collect_response] after [read] reads. *)
Fixpoint collect_reads (reads : nat) (first : bool) (timeout started : Z)
    (validation : ResponseValidation) (already_retained : Z) (bytes : list Z) :
    EM env EffectError WaitOutcome :=
  match reads with
  | O => eret (if is_phomemo validation then TimedOut else Response bytes)
  | S reads =>
      let! current := read now in
      let remaining := remaining_of timeout started current in
      if remaining =? 0 then
        eret (if (zlen bytes =? 0) || is_phomemo validation then TimedOut else Response bytes)
      else
        let! outcome := wait (if first then timeout else remaining) in
        match outcome with
        | Response chunk =>
            let! retained := eresult (grow already_retained (zlen bytes) (zlen chunk)) in
            if MAX_RETAINED_RESPONSE_BYTES <? retained
            then ethrow (EffectResponse "retained response bytes exceed executor limit")
            else
              let bytes := bytes ++ chunk in
              match complete_response validation bytes with
              | Some frame => eret (Response frame)
              | None =>
                  collect_reads reads false timeout started validation already_retained bytes
              end
        | outcome =>
            eret (if (zlen bytes =? 0) || is_phomemo validation then outcome else Response bytes)
        end
  end.

Definition collect_response (timeout : Z) (validation : ResponseValidation)
    (already_retained : Z) : EM env EffectError WaitOutcome :=
  let! started := read now in
  collect_reads MAX_FIXED_RESPONSE_READS true timeout started validation already_retained [].

(** The loop of [collect_multipart_response]: the outcome it returns with, or
    the bytes it breaks with and whether the printer became idle. *)
Fixpoint multipart_reads (reads : nat) (first : bool) (timeout idle_timeout maximum_bytes started : Z)
    (bytes : list Z) : EM env EffectError (WaitOutcome + list Z * bool) :=
  match reads with
  | O => eret (inr (bytes, false))
  | S reads =>
      let! current := read now in
      let remaining := remaining_of timeout started current in
      if remaining =? 0 then eret (inr (bytes, false))
      else
        let! outcome := wait (if first then timeout else Z.min idle_timeout remaining) in
        match outcome with
        | Response [] => eret (inr (bytes, true))
        | Response chunk =>
            let! new_length :=
              eresult (ok_or (checked usize_max (zlen bytes + zlen chunk))
                             (EffectResponse "response size overflow")) in
            if maximum_bytes <? new_length
            then ethrow (EffectResponse "response exceeded declared maximum")
            else
              multipart_reads reads false timeout idle_timeout maximum_bytes started (bytes ++ chunk)
        | outcome => eret (inl (if zlen bytes =? 0 then outcome else Response bytes))
        end
  end.

Definition collect_multipart_response (timeout idle_timeout maximum_bytes : Z) :
    EM env EffectError WaitOutcome :=
  let! started := read now in
  let! ended :=
    multipart_reads MAX_MULTIPART_READS true timeout idle_timeout maximum_bytes started [] in
  match ended with
  | inl outcome => eret outcome
  | inr (bytes, became_idle) =>
      if zlen bytes =? 0 then eret TimedOut
      else if became_idle then eret (Response bytes)
      else
        let! current := read now in
        if Z.max 0 (current - started) <? timeout
        then ethrow (EffectResponse "response did not become idle before the read limit")
        else eret (Response bytes)
  end.

(** *** The action loop *)

(** The environment and the local [progress]. *)
Definition st : Type := env * Progress.

Definition in_env {E A} (m : EM env E A) : EM st E A := fun s =>
  let '(r, e) := m (fst s) in (r, (e, snd s)).

Definition get_progress {E} : EM st E Progress := fun s => (Ok (snd s), s).
Definition set_progress {E} (p : Progress) : EM st E unit := fun s => (Ok tt, (fst s, p)).

Definition throw_at {A} (f : Progress -> Error) : EM st Error A :=
  let! progress := get_progress in ethrow (f progress).

Definition check_cancelled : EM st Error unit :=
  let! requested := in_env cancel_requested in
  if requested then throw_at CancelledAt else eret tt.

(** [if matches!(race(transport.delay(..)), Race::Cancelled) { return .. }]. *)
Definition delay_or_cancel (duration : Z) : EM st Error unit :=
  let! result := in_env (race (delay_for duration)) in
  match result with
  | RaceCancelled => throw_at CancelledAt
  | Completed _ => eret tt
  end.

Definition begin_write (p : Progress) : Progress := {|
  last_completed_action := last_completed_action p;
  bytes_written := bytes_written p;
  potentially_accepted_write := true;
  responses := responses p;
|}.

Definition confirm_write (n : Z) (p : Progress) : Progress := {|
  last_completed_action := last_completed_action p;
  bytes_written := saturate u64_max (bytes_written p + n);
  potentially_accepted_write := potentially_accepted_write p;
  responses := responses p;
|}.

Definition push_response (bytes : list Z) (p : Progress) : Progress := {|
  last_completed_action := last_completed_action p;
  bytes_written := bytes_written p;
  potentially_accepted_write := potentially_accepted_write p;
  responses := responses p ++ [bytes];
|}.

Definition complete_action (index : Z) (p : Progress) : Progress := {|
  last_completed_action := Some index;
  bytes_written := bytes_written p;
  potentially_accepted_write := potentially_accepted_write p;
  responses := responses p;
|}.

Definition modify_progress {E} (f : Progress -> Progress) : EM st E unit :=
  let! progress := get_progress in set_progress (f progress).

Definition write_piece (bytes : list Z) (kind : WriteKind) : EM st Error unit :=
  check_cancelled ;!
  modify_progress begin_write ;!
  let! result := in_env (race (write bytes kind)) in
  match result with
  | RaceCancelled => throw_at (fun p => WriteOutcomeUnknown p None)
  | Completed (Err source) => throw_at (fun p => WriteOutcomeUnknown p (Some source))
  | Completed (Ok _) => modify_progress (confirm_write (zlen bytes))
  end.

Definition raster_piece (timing : ReferenceTiming) (delay_ms : Z) (piece : list Z) : EM st Error unit :=
  check_cancelled ;!
  write_piece piece RasterData ;!
  delay_or_cancel (apply_timing timing delay_ms).

(** [slice.chunks(n)] panics for [n = 0]. *)
Definition chunks_of {E A B} (n : Z) (l : list A) (body : list A -> EM st E unit)
    (k : EM st E B) : EM st E B :=
  if n =? 0 then epanic else efor body (chunks n l) ;! k.

Definition accept_response (validation : ResponseValidation) (bytes : list Z) : EM st Error unit :=
  let! progress := get_progress in
  eresult (validate validation bytes progress) ;!
  modify_progress (push_response bytes).

Definition effect {A} (m : EM env EffectError A) : EM st Error A :=
  let! result := etry (in_env m) in
  match result with
  | Ok a => eret a
  | Err error => throw_at (fun p => response_effect_error p error)
  end.

Definition execute_action (timing : ReferenceTiming) (index : Z) (action : Action) :
    EM st Error unit :=
  match action with
  | JobBoundary _ => eret tt
  | SubscribeNotifications =>
      let! result := in_env (race subscribe_notifications) in
      match result with
      | RaceCancelled => throw_at CancelledAt
      | Completed (Ok _) => eret tt
      | Completed (Err error) => throw_at (fun p => non_write_error p error)
      end
  | Delay milliseconds => delay_or_cancel (apply_timing timing milliseconds)
  | CommandWrite _ bytes _ => write_piece bytes Command
  | RasterWrite bytes logical_chunk delay_ms =>
      let! limit := in_env (read payload_limit) in
      if limit =? 0 then ethrow (InvalidPlan index "zero negotiated transport payload limit")
      else
        chunks_of logical_chunk bytes
          (fun logical => chunks_of limit logical (raster_piece timing delay_ms) (eret tt))
          (eret tt)
  | WaitForResponse timeout_ms fallback_delay_ms validation =>
      let! progress := get_progress in
      let! outcome :=
        effect (collect_response (from_millis timeout_ms) validation (retained_bytes progress)) in
      match outcome with
      | Response bytes => accept_response validation bytes
      | _ =>
          if 0 <? fallback_delay_ms then delay_or_cancel (apply_timing timing fallback_delay_ms)
          else if bool_decide (validation = BrotherStatus32) then eret tt
          else throw_at Timeout
      end
  | CollectResponse timeout_ms idle_timeout_ms maximum_bytes validation =>
      let! outcome :=
        effect (collect_multipart_response (from_millis timeout_ms) (from_millis idle_timeout_ms)
                  maximum_bytes) in
      match outcome with
      | Response bytes => accept_response validation bytes
      | _ => throw_at Timeout
      end
  end.

(** [progress_callback(&progress)]. *)
Definition report {E} : EM st E unit := fun s =>
  let e := fst s in
  (Ok tt, ({| transport := transport e; cancellation := cancellation e;
              reported := reported e ++ [snd s] |}, snd s)).

Fixpoint execute_actions (timing : ReferenceTiming) (index : Z) (acts : list Action) :
    EM st Error Progress :=
  match acts with
  | [] => get_progress
  | action :: acts =>
      check_cancelled ;!
      execute_action timing index action ;!
      modify_progress (complete_action index) ;!
      report ;!
      execute_actions timing (index + 1) acts
  end.

Definition execute_inner (timing : ReferenceTiming) (plan : Plan) : EM env Error Progress :=
  let! payload := read payload_limit in
  let! command := read command_limit in
  eresult (preflight plan payload command) ;!
  (fun e =>
     let '(r, s) := execute_actions timing 0 (actions plan) (e, Progress_default) in (r, fst s)).
End Execution.

(** [execute_with_options]: the callback's calls start empty. *)
Definition execute_with_options {T C SE} `{Transport T, Clock T, Cancellation C}
    (timing : ReferenceTiming) (plan : Plan) (cancellation : C) (transport : T) :
    Result (Fault (ExecuteError SE)) Progress * Env T C :=
  execute_inner timing plan
    {| transport := transport; cancellation := cancellation; reported := [] |}.

Definition execute {T SE} `{Transport T, Clock T} (plan : Plan) (transport : T) :
    Result (Fault (ExecuteError SE)) Progress * Env T NeverCancelled :=
  execute_with_options Preserve plan never_cancelled transport.

(** ** Names recorded in traces *)

Definition effect_outcome (result : Result EffectError WaitOutcome) : string :=
  match result with
  | Ok (Response _) => "response"
  | Ok TimedOut => "timeout"
  | Ok Unavailable => "unavailable"
  | Err EffectCancelled => "cancelled"
  | Err _ => "failed"
  end.

Definition protocol_name (protocol : Protocol) : string :=
  match protocol with
  | MSeries => "m-series" | M02 => "m02" | M04 => "m04" | M110 => "m110"
  | DSeries => "d-series" | P12 => "p12" | Tspl => "tspl" | Brother => "brother"
  end.

Definition timing_name (timing : ReferenceTiming) : string :=
  match timing with
  | Preserve => "preserve"
  | IncreaseBy _ => "increased"
  | UnsafeDiagnosticReduceBy _ => "diagnostic-reduced"
  end.
