(* ===== verification/ExecutorFacts.v ===== *)
(** What an execution does to the printer (crates/mb-printer-executor): the
    bytes written, their order and their confirmation, errors and cancellation.

    All statements are about [Traced] transports: an arbitrary transport whose
    calls are recorded. *)

From stdpp Require Import base list list_numbers strings numbers option.
From S2P Require Import Prelude Effects Capabilities ProtocolTypes Protocol ProtocolFacts Transport Executor.

#[local] Open Scope Z_scope.

Lemma spec_get_progress {T C E} (s : Env T C * Progress) (Q : Progress -> _ -> Prop)
    (X : Fault E -> _ -> Prop) :
  Q (snd s) s -> spec get_progress s Q X.
Proof. done. Qed.

(** ** What a transport saw *)

Definition Attempt : Type := list Z * WriteKind * option (Result TransportError unit).

Definition as_write (e : Event) : option Attempt :=
  match e with WriteCall bytes kind outcome => Some (bytes, kind, outcome) | _ => None end.

Definition writes (evs : list Event) : list Attempt := omap as_write evs.

Definition confirmed (w : list Z * WriteKind) : Attempt := (w, Some (Ok tt)).

(** Calls that neither write nor read the payload limit. *)
Definition silent (e : Event) : bool :=
  match e with WriteCall _ _ _ | ReadPayloadLimit _ => false | _ => true end.

Lemma writes_app l k : writes (l ++ k) = writes l ++ writes k.
Proof. apply omap_app. Qed.

Lemma writes_silent evs : Forall silent evs -> writes evs = [].
Proof. induction 1 as [|[] l Hx Hl IH]; simpl; done. Qed.

(** The payload limit last read, [limit] before any read. *)
Fixpoint last_limit (limit : Z) (evs : list Event) : Z :=
  match evs with
  | [] => limit
  | ReadPayloadLimit limit :: evs => last_limit limit evs
  | _ :: evs => last_limit limit evs
  end.

(** Every raster write is at most as long as the payload limit last read
    before it. *)
Fixpoint fits (limit : Z) (evs : list Event) : bool :=
  match evs with
  | [] => true
  | ReadPayloadLimit limit :: evs => fits limit evs
  | WriteCall bytes RasterData _ :: evs => (zlen bytes <=? limit) && fits limit evs
  | _ :: evs => fits limit evs
  end.

Lemma last_limit_app limit l k : last_limit limit (l ++ k) = last_limit (last_limit limit l) k.
Proof. revert limit. induction l as [|[] l IH]; intros L; cbn; auto. Qed.

Lemma fits_app limit l k : fits limit (l ++ k) = fits limit l && fits (last_limit limit l) k.
Proof.
  revert limit. induction l as [|e l IH]; intros L; [done|].
  destruct e as [n| | |bytes [] o| |]; cbn; rewrite ?IH; try done. by rewrite andb_assoc.
Qed.

Lemma last_limit_silent limit evs : Forall silent evs -> last_limit limit evs = limit.
Proof. induction 1 as [|[] l Hx Hl IH]; cbn; done. Qed.

Lemma fits_silent limit evs : Forall silent evs -> fits limit evs = true.
Proof. induction 1 as [|[] l Hx Hl IH]; cbn; done. Qed.

Section Traces.
Context {T C SE : Type} `{Transport T, Clock T, Cancellation C}.

Definition env_trace (e : Env (Traced T) C) : list Event := trace (transport e).

(** *** Silent computations on the environment *)

(** From [e] to [e'] nothing was written, no payload limit was read and the
    progress callback was not called. *)
Definition silently (e e' : Env (Traced T) C) : Prop :=
  exists evs, Forall silent evs /\ env_trace e' = env_trace e ++ evs /\
    reported e' = reported e.

Lemma silently_refl e : silently e e.
Proof. exists []. by rewrite app_nil_r. Qed.

Lemma silently_trans e1 e2 e3 : silently e1 e2 -> silently e2 e3 -> silently e1 e3.
Proof.
  intros (evs & F & E & R) (evs' & F' & E' & R'). exists (evs ++ evs').
  rewrite E', E, R', R, app_assoc. split; [|done]. by apply Forall_app.
Qed.

Definition quiet {E A} (m : EM (Env (Traced T) C) E A) : Prop :=
  forall e, silently e (snd (m e)) /\ panics (fst (m e)) = false.

Lemma quiet_ret {E A} (a : A) : quiet (E := E) (eret a).
Proof. intros e. split; [apply silently_refl|done]. Qed.

Lemma quiet_throw {E A} (x : E) : quiet (A := A) (ethrow x).
Proof. intros e. split; [apply silently_refl|done]. Qed.

Lemma quiet_result {E A} (r : Result E A) : quiet (eresult r).
Proof. intros e. split; [apply silently_refl|by destruct r]. Qed.

Lemma quiet_bind {E A B} (m : EM _ E A) (k : A -> EM _ E B) :
  quiet m -> (forall a, quiet (k a)) -> quiet (ebind m k).
Proof.
  intros Hm Hk e. destruct (Hm e) as [Hs Hp]. unfold ebind.
  destruct (m e) as [[a|x] e']; [|split; [exact Hs|exact Hp]].
  destruct (Hk a e') as [Hs' Hp']. split; [|exact Hp'].
  eapply silently_trans; [exact Hs|exact Hs'].
Qed.

Lemma quiet_now {E} : quiet (E := E) (read now).
Proof.
  intros e. unfold read, silently, env_trace. cbn.
  destruct (now (traced (transport e))). cbn. split; [|done].
  exists []. by rewrite app_nil_r.
Qed.

Lemma quiet_cancel_requested {E} : quiet (E := E) cancel_requested.
Proof.
  intros e. unfold cancel_requested, silently, env_trace.
  destruct (is_cancelled (cancellation e)). cbn. split; [|done].
  exists []. by rewrite app_nil_r.
Qed.

Lemma quiet_command_limit {E} : quiet (E := E) (read command_limit).
Proof.
  intros e. unfold read, silently, env_trace. cbn.
  destruct (command_limit (traced (transport e))) as [n t]. cbn.
  split; [|done]. exists [ReadCommandLimit n]. split; [|done]. by repeat constructor.
Qed.

Lemma race_logged {E A} (ev : option A -> Event) (f : TransportFuture T A)
    (e : Env (Traced T) C) :
  exists r o, fst (race (E := E) (log_future ev f) e) = Ok r /\
    env_trace (snd (race (E := E) (log_future ev f) e)) = env_trace e ++ [ev o] /\
    reported (snd (race (E := E) (log_future ev f) e)) = reported e /\
    r = match o with Some a => Completed a | None => RaceCancelled end.
Proof.
  unfold race, env_trace. destruct (signalled (cancellation e)) as [[] c]; cbn.
  - exists RaceCancelled, None. done.
  - destruct (complete f (traced (transport e))) as [a t]. cbn.
    exists (Completed a), (Some a). done.
Qed.

Lemma quiet_race {E A} (ev : option A -> Event) (f : TransportFuture T A) :
  (forall o, silent (ev o)) -> quiet (E := E) (race (log_future ev f)).
Proof.
  intros Hs e. destruct (race_logged (E := E) ev f e) as (r & o & Ef & Et & Er & _).
  split; [|by rewrite Ef]. exists [ev o]. rewrite Et, Er. split; [|done]. by repeat constructor.
Qed.

Lemma quiet_wait timeout : quiet (wait timeout).
Proof.
  apply quiet_bind; [by apply quiet_race|]. intros [[a|x]|];
    [apply quiet_ret|case_decide; apply quiet_throw|apply quiet_throw].
Qed.

Create HintDb quiet.
Hint Resolve quiet_ret quiet_throw quiet_result quiet_now quiet_wait quiet_cancel_requested
  quiet_command_limit : quiet.

Ltac quiet_step :=
  match goal with
  | |- quiet (ebind _ _) => apply quiet_bind; [|intros ?]
  | |- quiet (if ?b then _ else _) => destruct b
  | |- quiet (match ?x with _ => _ end) => destruct x
  | |- quiet _ => solve [auto with quiet]
  end.

Lemma quiet_collect_reads reads first timeout started validation already bytes :
  quiet (collect_reads reads first timeout started validation already bytes).
Proof.
  revert first bytes. induction reads as [|reads IH]; intros; cbn [collect_reads];
    repeat quiet_step.
Qed.

Lemma quiet_multipart_reads reads first timeout idle maximum started bytes :
  quiet (multipart_reads reads first timeout idle maximum started bytes).
Proof.
  revert first bytes. induction reads as [|reads IH]; intros; cbn [multipart_reads];
    repeat quiet_step.
Qed.

Lemma quiet_collect_response timeout validation already :
  quiet (collect_response timeout validation already).
Proof.
  unfold collect_response. apply quiet_bind; [apply quiet_now|]. intros.
  apply quiet_collect_reads.
Qed.

Lemma quiet_collect_multipart timeout idle maximum :
  quiet (collect_multipart_response timeout idle maximum).
Proof.
  unfold collect_multipart_response. apply quiet_bind; [apply quiet_now|]. intros.
  apply quiet_bind; [apply quiet_multipart_reads|]. intros. repeat quiet_step.
Qed.
(** *** Accounting *)

#[local] Abbreviation st := (Env (Traced T) C * Progress)%type.
#[local] Abbreviation Error := (ExecuteError SE).

Definition write_log (s : st) : list Attempt := writes (env_trace (fst s)).

Definition sent (ws : list (list Z * WriteKind)) : list Z := concat (map fst ws).

(** After [n] completed actions and the confirmed writes [ws], the progress
    and the progress callback say exactly that. *)
Record accounted (L n : Z) (ws : list (list Z * WriteKind)) (s : st) : Prop := {
  acc_limit : last_limit 0 (env_trace (fst s)) = L;
  acc_fits : fits 0 (env_trace (fst s)) = true;
  acc_log : write_log s = map confirmed ws;
  acc_bytes : bytes_written (snd s) = saturate u64_max (zlen (sent ws));
  acc_flag : potentially_accepted_write (snd s) = negb (bool_decide (ws = []));
  acc_last : last_completed_action (snd s) = if n =? 0 then None else Some (n - 1);
  acc_reported : map last_completed_action (reported (fst s)) = map Some (seqZ 0 n);
}.

(** The source of an unconfirmed write's error. *)
Definition unknown_source (o : option (Result TransportError unit)) : option TransportError :=
  match o with Some (Err e) => Some e | _ => None end.

(** Execution stopped with [err] in an action that was to perform the writes
    [planned] after [ws]: a prefix of them was performed and confirmed, and
    at most one more write was attempted, whose outcome is then reported as
    unknown. *)
Inductive stopped (n : Z) (ws planned : list (list Z * WriteKind)) : Fault Error -> st -> Prop :=
| stopped_clean L done err s :
    done `prefix_of` planned -> accounted L n (ws ++ done) s ->
    error_progress err = Some (snd s) \/ (exists i why, err = InvalidPlan i why) ->
    (forall p source, err <> WriteOutcomeUnknown p source) ->
    stopped n ws planned (Raised err) s
| stopped_unknown done bytes kind outcome s :
    done ++ [(bytes, kind)] `prefix_of` planned ->
    outcome <> Some (Ok tt) -> fits 0 (env_trace (fst s)) = true ->
    write_log s = map confirmed (ws ++ done) ++ [(bytes, kind, outcome)] ->
    bytes_written (snd s) = saturate u64_max (zlen (sent (ws ++ done))) ->
    potentially_accepted_write (snd s) = true ->
    last_completed_action (snd s) = (if n =? 0 then None else Some (n - 1)) ->
    stopped n ws planned (Raised (WriteOutcomeUnknown (snd s) (unknown_source outcome))) s.

Lemma stopped_more n ws w1 w2 e s : stopped n (ws ++ w1) w2 e s -> stopped n ws (w1 ++ w2) e s.
Proof.
  intros [L done err s' Hp Ha He Hu|done bytes kind o s' Hp Ho Hfit Hl Hb Hf Hn].
  - apply (stopped_clean _ _ _ L (w1 ++ done)); [by apply prefix_app|by rewrite app_assoc|done..].
  - apply (stopped_unknown _ _ _ (w1 ++ done) bytes kind); rewrite <- ?app_assoc in *; try done.
    by apply prefix_app.
Qed.

Lemma stopped_weaken n ws w1 w2 e s : stopped n ws w1 e s -> stopped n ws (w1 ++ w2) e s.
Proof.
  intros [L done err s' Hp Ha He Hu|done bytes kind o s' Hp Ho Hfit Hl Hb Hf Hn].
  - apply (stopped_clean _ _ _ L done); [by apply prefix_app_r|done..].
  - apply (stopped_unknown _ _ _ done bytes kind); [by apply prefix_app_r|done..].
Qed.

Lemma stopped_raise L n ws planned err s :
  accounted L n ws s -> error_progress err = Some (snd s) ->
  (forall p source, err <> WriteOutcomeUnknown p source) -> stopped n ws planned (Raised err) s.
Proof.
  intros Ha He Hu. apply (stopped_clean _ _ _ L []); [apply prefix_nil| |by left|done].
  by rewrite app_nil_r.
Qed.

Lemma accounted_env L n ws e e' p p' :
  accounted L n ws (e, p) -> silently e e' -> snd (e, p) = p' -> accounted L n ws (e', p').
Proof.
  intros [HL HF Hl Hb Hf Hn Hr] (evs & F & E & R) <-. split; cbn in *; try done.
  - by rewrite E, last_limit_app, (last_limit_silent _ evs).
  - by rewrite E, fits_app, HF, (fits_silent _ evs).
  - unfold write_log. cbn. rewrite E, writes_app, (writes_silent evs), app_nil_r by done. exact Hl.
  - by rewrite R.
Qed.

Lemma accounted_push L n ws e p bytes : accounted L n ws (e, p) -> accounted L n ws (e, push_response bytes p).
Proof. intros [HL HF Hl Hb Hf Hn Hr]. exact (Build_accounted L n ws (e, push_response bytes p) HL HF Hl Hb Hf Hn Hr). Qed.

(** Infallible computations: reads of the flag, of a limit, and races. *)
Lemma spec_env_total {E A} (m : EM (Env (Traced T) C) E A) L n ws (s : st)
    (Q : A -> st -> Prop) (X : Fault E -> st -> Prop) :
  quiet m -> (forall e, is_ok (fst (m e))) -> accounted L n ws s ->
  (forall a e, accounted L n ws (e, snd s) -> Q a (e, snd s)) ->
  spec (in_env m) s Q X.
Proof.
  intros Hm Hok Ha HQ. unfold spec, in_env. destruct s as [e p]. cbn in *.
  destruct (Hm e) as [Hs _]. specialize (Hok e). destruct (m e) as [[a|x] e']; cbn in *; [|done].
  apply HQ. by eapply accounted_env.
Qed.

Lemma spec_env_quiet {E A} (m : EM (Env (Traced T) C) E A) L n ws (s : st)
    (Q : A -> st -> Prop) (X : Fault E -> st -> Prop) :
  quiet m -> accounted L n ws s ->
  (forall a e, accounted L n ws (e, snd s) -> Q a (e, snd s)) ->
  (forall x e, accounted L n ws (e, snd s) -> X (Raised x) (e, snd s)) ->
  spec (in_env m) s Q X.
Proof.
  intros Hm Ha HQ HX. unfold spec, in_env. destruct s as [e p]. cbn in *.
  destruct (Hm e) as [Hs Hp]. destruct (m e) as [[a|[x|]] e']; cbn in *; [| |done].
  - apply HQ. by eapply accounted_env.
  - apply HX. by eapply accounted_env.
Qed.

Lemma spec_throw_at {A} (f : Progress -> Error) s (Q : A -> st -> Prop) X :
  X (Raised (f (snd s))) s -> spec (throw_at f) s Q X.
Proof. done. Qed.

Lemma spec_effect {A} (m : EM (Env (Traced T) C) EffectError A) L n ws planned (s : st)
    (Q : A -> st -> Prop) :
  quiet m -> accounted L n ws s ->
  (forall a e, accounted L n ws (e, snd s) -> Q a (e, snd s)) ->
  spec (effect (SE := SE) m) s Q (stopped n ws planned).
Proof.
  intros Hm Ha HQ. unfold spec, effect, etry, in_env, ebind. destruct s as [e p]. cbn in *.
  destruct (Hm e) as [Hs Hp]. destruct (m e) as [[a|[x|]] e']; cbn in *; [| |done].
  - apply HQ. by eapply accounted_env.
  - eapply stopped_raise.
    + by eapply accounted_env.
    + destruct x as [|x|x]; cbn; try done. unfold non_write_error. by case_decide.
    + intros q src. destruct x as [|x|x]; cbn; try done. unfold non_write_error. by case_decide.
Qed.

Lemma spec_check_cancelled L n ws planned (s : st) (Q : unit -> st -> Prop) :
  accounted L n ws s -> (forall e, accounted L n ws (e, snd s) -> Q tt (e, snd s)) ->
  spec (check_cancelled (SE := SE)) s Q (stopped n ws planned).
Proof.
  intros Ha HQ. apply spec_bind, (spec_env_total _ L n ws); [apply quiet_cancel_requested| |done|].
  - intros e. unfold cancel_requested. by destruct (is_cancelled _).
  - intros [] e Hacc; [|by apply HQ]. apply spec_throw_at. by eapply stopped_raise.
Qed.

Lemma is_ok_race {E A} (f : TransportFuture (Traced T) A) (e : Env (Traced T) C) :
  is_ok (fst (race (E := E) f e)).
Proof.
  unfold race. destruct (signalled _) as [[] c]; [done|]. by destruct (complete f _).
Qed.

Lemma spec_delay duration L n ws planned (s : st) (Q : unit -> st -> Prop) :
  accounted L n ws s -> (forall e, accounted L n ws (e, snd s) -> Q tt (e, snd s)) ->
  spec (delay_or_cancel (SE := SE) duration) s Q (stopped n ws planned).
Proof.
  intros Ha HQ. apply spec_bind, (spec_env_total _ L n ws);
    [by apply quiet_race|intros; apply is_ok_race|done|].
  intros [[]|] e Hacc; [by apply HQ|]. apply spec_throw_at. by eapply stopped_raise.
Qed.

(** *** Writes *)

Lemma sent_app w1 w2 : sent (w1 ++ w2) = sent w1 ++ sent w2.
Proof. unfold sent. by rewrite map_app, concat_app. Qed.

Lemma saturate_add max a b :
  0 <= a -> 0 <= b -> 0 <= max -> saturate max (saturate max a + b) = saturate max (a + b).
Proof. unfold saturate. lia. Qed.

Lemma spec_write_piece bytes kind L n ws (s : st) :
  (kind = RasterData -> zlen bytes <= L) -> accounted L n ws s ->
  spec (write_piece (SE := SE) bytes kind) s
    (fun _ s' => accounted L n (ws ++ [(bytes, kind)]) s') (stopped n ws [(bytes, kind)]).
Proof.
  intros Hk Ha. apply spec_bind, (spec_check_cancelled L n ws); [done|]. intros e Hacc.
  destruct s as [e0 p]. cbn [snd] in *. clear Ha.
  unfold write_piece, modify_progress, spec, ebind, get_progress, set_progress, in_env. cbn.
  destruct (race_logged (E := Error) (WriteCall bytes kind) (write bytes kind) e)
    as (r & o & Er & Et & Erep & ->).
  destruct (race _ e) as [r e'] eqn:Erace. cbn in Er, Et, Erep. subst r.
  assert (write_log (e', begin_write p) = map confirmed ws ++ [(bytes, kind, o)]) as Hlog.
  { unfold write_log. cbn. rewrite Et, writes_app. cbn. f_equal. apply (acc_log _ _ _ _ Hacc). }
  assert (fits 0 (env_trace e') = true /\ last_limit 0 (env_trace e') = L) as [Hfit HL].
  { destruct Hacc as [HL HF _ _ _ _ _]. cbn in HL, HF.
    rewrite Et, fits_app, last_limit_app, HL, HF. cbn. destruct kind; [done|].
    destruct (Z.leb_spec (zlen bytes) L); [done|]. specialize (Hk eq_refl). lia. }
  pose proof (acc_last _ _ _ _ Hacc) as Hlast. pose proof (acc_bytes _ _ _ _ Hacc) as Hbytes.
  assert (o <> Some (Ok tt) ->
    stopped n ws [(bytes, kind)]
      (Raised (WriteOutcomeUnknown (begin_write p) (unknown_source o))) (e', begin_write p)) as Hun.
  { intros Ho. apply (stopped_unknown n ws _ [] bytes kind o (e', begin_write p));
      rewrite ?app_nil_r; done. }
  destruct o as [[[]|x]|]; cbn; [|by apply Hun|by apply Hun].
  split; cbn; [done|done|by rewrite map_app| |by destruct ws|done|].
  - cbn in Hbytes. rewrite Hbytes, sent_app, saturate_add, zlen_app by (zlen_lia || done || apply zlen_nonneg).
    unfold sent. cbn. by rewrite app_nil_r.
  - rewrite Erep. apply (acc_reported _ _ _ _ Hacc).
Qed.

(** A loop whose body performs the writes [f a]. *)
Lemma spec_efor {A} (l : list A) (body : A -> EM st Error unit) f L n ws (s : st) :
  (forall a ws s, a ∈ l -> accounted L n ws s ->
     spec (body a) s (fun _ s' => accounted L n (ws ++ f a) s') (stopped n ws (f a))) ->
  accounted L n ws s ->
  spec (efor body l) s (fun _ s' => accounted L n (ws ++ concat (map f l)) s')
    (stopped n ws (concat (map f l))).
Proof.
  revert ws s. induction l as [|a l IH]; intros ws s Hbody Ha; cbn [efor map concat].
  - apply spec_ret. by rewrite app_nil_r.
  - apply spec_bind. eapply spec_mono; [apply Hbody; [left|done]| |].
    + intros [] s' Ha'. cbn beta. eapply spec_mono.
      * apply IH; [|exact Ha']. intros. apply Hbody; [by right|done].
      * intros [] s'' Ha''. cbn beta in *. by rewrite app_assoc.
      * intros e s''. apply stopped_more.
    + intros e s'. apply stopped_weaken.
Qed.

Definition piece_write (piece : list Z) : list Z * WriteKind := (piece, RasterData).

(** The physical writes of a raster. *)
Definition raster_writes (logical_chunk limit : Z) (bytes : list Z) : list (list Z * WriteKind) :=
  concat (map (fun logical => map piece_write (chunks limit logical)) (chunks logical_chunk bytes)).

Lemma spec_raster_piece timing delay_ms piece L n ws (s : st) :
  zlen piece <= L -> accounted L n ws s ->
  spec (raster_piece (SE := SE) timing delay_ms piece) s
    (fun _ s' => accounted L n (ws ++ [piece_write piece]) s') (stopped n ws [piece_write piece]).
Proof.
  intros Hle Ha. apply spec_bind, (spec_check_cancelled L n ws); [done|]. intros e Hacc.
  apply spec_bind. eapply spec_mono; [by apply (spec_write_piece _ _ L)| |done].
  intros [] s' Ha'. cbn beta. eapply spec_mono.
  - apply (spec_delay _ L n _ [] _ (fun _ s' => accounted L n (ws ++ [piece_write piece]) s') Ha').
    intros e' H'. exact H'.
  - done.
  - intros x s''. apply (stopped_more n ws [piece_write piece] []).
Qed.

Lemma spec_chunks {A} (l : list A) size (body : list A -> EM st Error unit) f L n ws (s : st) :
  0 < size ->
  (forall c ws s, zlen c <= size -> accounted L n ws s ->
     spec (body c) s (fun _ s' => accounted L n (ws ++ f c) s') (stopped n ws (f c))) ->
  accounted L n ws s ->
  spec (chunks_of size l body (eret tt)) s
    (fun _ s' => accounted L n (ws ++ concat (map f (chunks size l))) s')
    (stopped n ws (concat (map f (chunks size l)))).
Proof.
  intros Hs Hbody Ha. unfold chunks_of. destruct (Z.eqb_spec size 0); [lia|].
  apply spec_bind. eapply spec_mono; [apply spec_efor; [|exact Ha]| |done].
  { intros c ws' s' Hin Ha'. apply Hbody; [|done]. pose proof (chunks_bound size l) as Hb.
    rewrite Forall_forall in Hb. apply list_elem_of_In, Hb in Hin. lia. }
  intros [] s' Ha'. by apply spec_ret.
Qed.

(** *** Actions *)

(** The writes an action performs, for the payload limit read at its start. *)
Definition writes_of_action (limit : Z) (a : Action) : list (list Z * WriteKind) :=
  match a with
  | CommandWrite _ bytes _ => [(bytes, Command)]
  | RasterWrite bytes logical_chunk _ => raster_writes logical_chunk limit bytes
  | _ => []
  end.

(** The part of preflight that the action loop relies on. *)
Definition chunkable (a : Action) : Prop :=
  match a with RasterWrite _ logical_chunk _ => 0 < logical_chunk | _ => True end.

Lemma spec_accept validation bytes L n ws planned (s : st) :
  accounted L n ws s ->
  spec (accept_response (SE := SE) validation bytes) s (fun _ s' => accounted L n ws s')
    (stopped n ws planned).
Proof.
  intros Ha. apply spec_bind, spec_get_progress, spec_bind, spec_result.
  - intros [] _. destruct s as [e p]. by apply accounted_push.
  - intros err He. unfold validate in He. destruct (valid_response _ _); [done|].
    injection He as <-. by eapply stopped_raise.
Qed.

Lemma spec_read_payload L n ws (s : st) (Q : Z -> st -> Prop) (X : Fault Error -> st -> Prop) :
  accounted L n ws s ->
  (forall limit e, limit = fst (payload_limit (traced (transport (fst s)))) ->
     accounted limit n ws (e, snd s) -> Q limit (e, snd s)) ->
  spec (in_env (read payload_limit)) s Q X.
Proof.
  intros Ha HQ. unfold spec, in_env, read. destruct s as [e p]. cbn in *.
  destruct (payload_limit (traced (transport e))) as [limit t]. cbn in *.
  apply HQ; [done|]. destruct Ha as [HL HF Hl Hb Hf Hn Hr]. split; try done.
  - unfold env_trace in *. cbn in *. by rewrite last_limit_app.
  - unfold env_trace in *. cbn in *. by rewrite fits_app, HF.
  - unfold write_log, env_trace in *. cbn in *. by rewrite writes_app, app_nil_r.
Qed.

(** A raster write is cut into the pieces that the transport takes. *)
Lemma spec_write_raster timing index bytes lc ms L n ws (s : st) :
  chunkable (RasterWrite bytes lc ms) -> accounted L n ws s ->
  exists limit, 0 < limit /\ exists L',
    spec (execute_action (SE := SE) timing index (RasterWrite bytes lc ms)) s
      (fun _ s' => accounted L' n (ws ++ writes_of_action limit (RasterWrite bytes lc ms)) s')
      (stopped n ws (writes_of_action limit (RasterWrite bytes lc ms))).
Proof.
  intros Hc Ha. cbn [execute_action writes_of_action]. cbn in Hc.
  pose proof (payload_limit_usize (traced (transport (fst s)))) as [Hu _].
  set (read_limit := fst (payload_limit (traced (transport (fst s))))) in *.
  exists (Z.max 1 read_limit). split; [lia|]. exists read_limit.
  apply spec_bind, (spec_read_payload L n ws); [done|]. fold read_limit.
  intros limit e -> Hacc. destruct (Z.eqb_spec read_limit 0) as [E|E].
  + apply spec_throw, (stopped_clean _ _ _ read_limit []);
      [apply prefix_nil|by rewrite app_nil_r|right; by do 2 eexists|done].
  + replace (Z.max 1 read_limit) with read_limit by lia.
    apply spec_chunks; [done| |done]. intros logical ws' s' _ Hacc'.
    assert (concat (map (fun piece => [piece_write piece]) (chunks read_limit logical)) =
            map piece_write (chunks read_limit logical)) as <-.
    { induction (chunks read_limit logical); [done|]. cbn. by f_equal. }
    apply spec_chunks; [lia| |done]. intros. by apply spec_raster_piece.
Qed.

Lemma spec_execute_action timing index a L n ws (s : st) :
  chunkable a -> accounted L n ws s ->
  exists limit, 0 < limit /\ exists L',
    spec (execute_action (SE := SE) timing index a) s
      (fun _ s' => accounted L' n (ws ++ writes_of_action limit a) s')
      (stopped n ws (writes_of_action limit a)).
Proof.
  intros Hc Ha.
  assert (forall L s', accounted L n ws s' -> accounted L n (ws ++ []) s') as Hnil
    by (intros; by rewrite app_nil_r).
  destruct a as [k| |name bytes atomic|bytes lc ms|ms|t f v|t i m v].
  - exists 1. split; [lia|]. exists L. by apply spec_ret, Hnil.
  - exists 1. split; [lia|]. exists L. apply spec_bind, (spec_env_total _ L n ws);
      [by apply quiet_race|intros; apply is_ok_race|done|].
    intros [[a|x]|] e Hacc; [by apply spec_ret, Hnil|apply spec_throw_at..];
      (eapply stopped_raise; [done| |]); try done;
      unfold non_write_error; by case_decide.
  - exists 1. split; [lia|]. exists L. by apply spec_write_piece.
  - by apply spec_write_raster with L.
  - exists 1. split; [lia|]. exists L. apply (spec_delay _ L n ws); [done|]. intros. by apply Hnil.
  - exists 1. split; [lia|]. exists L. cbn [execute_action writes_of_action].
    apply spec_bind.
    apply spec_get_progress, spec_bind, (spec_effect _ L n ws); [apply quiet_collect_response|done|].
    intros outcome e Hacc.
    assert (spec (if 0 <? f then delay_or_cancel (SE := SE) (apply_timing timing f)
                  else if bool_decide (v = BrotherStatus32) then eret tt
                  else throw_at Timeout) (e, snd s)
              (fun _ s' => accounted L n (ws ++ []) s') (stopped n ws [])) as Hfallback.
    { destruct (0 <? f); [apply (spec_delay _ L n ws); [done|]; intros; by apply Hnil|].
      case_bool_decide; [by apply spec_ret, Hnil|]. apply spec_throw_at. by eapply stopped_raise. }
    destruct outcome; [|done..]. eapply spec_mono; [by eapply spec_accept| |done].
    intros. by apply Hnil.
  - exists 1. split; [lia|]. exists L. cbn [execute_action writes_of_action].
    apply spec_bind, (spec_effect _ L n ws); [apply quiet_collect_multipart|done|].
    intros outcome e Hacc. destruct outcome.
    + eapply spec_mono; [by eapply spec_accept| |done]. intros. by apply Hnil.
    + apply spec_throw_at. by eapply stopped_raise.
    + apply spec_throw_at. by eapply stopped_raise.
Qed.

(** *** The whole plan *)

Definition plan_writes (limits : list Z) (acts : list Action) : list (list Z * WriteKind) :=
  concat (zip_with writes_of_action limits acts).

Lemma plan_writes_cons limit limits a acts :
  plan_writes (limit :: limits) (a :: acts) = writes_of_action limit a ++ plan_writes limits acts.
Proof. done. Qed.

(** Execution stopped with [x] inside some action of [acts], all earlier
    ones being complete. *)
Definition stopped_in (n : Z) (ws : list (list Z * WriteKind)) (acts : list Action)
    (x : Fault Error) (s : st) : Prop :=
  exists pre a post limits limit,
    acts = pre ++ a :: post /\ length limits = length pre /\
    Forall (fun l => 0 < l) (limit :: limits) /\
    stopped (n + zlen pre) (ws ++ plan_writes limits pre) (writes_of_action limit a) x s.

Lemma accounted_complete L n ws (e : Env (Traced T) C) p :
  0 <= n -> accounted L n ws (e, p) ->
  accounted L (n + 1) ws
    ({| transport := transport e; cancellation := cancellation e;
        reported := reported e ++ [complete_action n p] |}, complete_action n p).
Proof.
  intros Hn [HL HF Hl Hb Hf Hlast Hr]. split; try done; cbn in *.
  - destruct (Z.eqb_spec (n + 1) 0); [lia|]. f_equal. lia.
  - rewrite map_app, Hr, seqZ_app, map_app by lia. f_equal.
Qed.

Lemma spec_execute_actions timing n acts L ws (s : st) :
  0 <= n -> Forall chunkable acts -> accounted L n ws s ->
  spec (execute_actions (SE := SE) timing n acts) s
    (fun p s' => p = snd s' /\ exists L' limits, length limits = length acts /\
       Forall (fun l => 0 < l) limits /\
       accounted L' (n + zlen acts) (ws ++ plan_writes limits acts) s')
    (stopped_in n ws acts).
Proof.
  intros Hn Hc. revert n ws L s Hn. induction Hc as [|a acts Ha Hacts IH]; intros n ws L s Hn Hacc.
  - split; [done|]. exists L, []. rewrite Z.add_0_r, app_nil_r. done.
  - cbn [execute_actions]. apply spec_bind. eapply spec_mono.
    { apply (spec_check_cancelled L n ws [] s
               (fun _ s' => accounted L n ws s')); [done|]. intros e He. exact He. }
    2: { intros x s' Hx. exists [], a, acts, [], 1. rewrite Z.add_0_r, app_nil_r.
         do 2 (split; [done|]). split; [by repeat constructor|]. by apply (stopped_weaken _ _ []). }
    intros [] s1 Hacc1. apply spec_bind.
    destruct (spec_execute_action timing n a L n ws s1 Ha Hacc1) as (limit & Hlim & L' & Hspec).
    eapply spec_mono; [exact Hspec| |].
    2: { intros x s' Hx. exists [], a, acts, [], limit. rewrite Z.add_0_r, app_nil_r.
         do 2 (split; [done|]). split; [by repeat constructor|done]. }
    intros [] [e p] Hacc2. cbn beta in Hacc2.
    apply accounted_complete in Hacc2; [|done].
    apply (IH (n + 1)) in Hacc2; [|lia]. unfold spec in Hacc2 |- *.
    unfold ebind, modify_progress, get_progress, set_progress, report in |- *. cbn.
    destruct (execute_actions timing (n + 1) acts _) as [[q|x] s'].
    + destruct Hacc2 as (-> & L'' & limits & Hlen & Hpos & Hfin). split; [done|].
      exists L'', (limit :: limits). rewrite plan_writes_cons, app_assoc, zlen_cons, Z.add_assoc.
      split; [cbn; lia|]. split; [by constructor|done].
    + destruct Hacc2 as (pre & b & post & limits & l & -> & Hlen & Hpos & Hst).
      inversion_clear Hpos. exists (a :: pre), b, post, (limit :: limits), l.
      rewrite plan_writes_cons, app_assoc, zlen_cons, Z.add_assoc.
      split; [done|]. split; [cbn; lia|]. split; [by repeat constructor|done].
Qed.
End Traces.

(** ** Preflight *)

(** [usize] fields. *)
Definition action_typed (a : Action) : Prop :=
  match a with
  | RasterWrite _ logical_chunk _ => 0 <= logical_chunk
  | CollectResponse _ _ maximum_bytes _ => 0 <= maximum_bytes
  | _ => True
  end.

Lemma preflight_actions_chunkable {SE} limit index acts retained u :
  Forall action_typed acts ->
  preflight_actions (StoreError := SE) limit index acts retained = Ok u -> Forall chunkable acts.
Proof.
  intros Ht. revert index retained. induction Ht as [|a acts Ha Hacts IH]; intros index retained E;
    [constructor|].
  cbn [preflight_actions] in E. inv_ok E. constructor; [|by eapply IH].
  destruct a; try done. cbn in Hx, Ha |- *. destruct (Z.eqb_spec logical_chunk 0); [done|lia].
Qed.

Lemma preflight_chunkable {SE} plan payload command u :
  Forall action_typed (actions plan) ->
  preflight (StoreError := SE) plan payload command = Ok u -> Forall chunkable (actions plan).
Proof.
  intros Ht E. unfold preflight in E. inv_ok E. by eapply preflight_actions_chunkable.
Qed.

Lemma sent_pieces limit l : 0 < limit -> sent (map piece_write (chunks limit l)) = l.
Proof.
  intros Hl. unfold sent. rewrite map_map. cbn. rewrite map_id. by apply concat_chunks.
Qed.

Lemma sent_raster chunk limit bytes :
  0 < chunk -> 0 < limit -> sent (raster_writes chunk limit bytes) = bytes.
Proof.
  intros Hc Hl. unfold raster_writes. rewrite <- (concat_chunks chunk bytes Hc) at 2.
  induction (chunks chunk bytes) as [|l ls IH]; [done|]. cbn [map concat].
  by rewrite sent_app, sent_pieces, IH.
Qed.

Lemma sent_plan limits acts :
  length limits = length acts -> Forall (fun l => 0 < l) limits -> Forall chunkable acts ->
  sent (plan_writes limits acts) = concat (map action_bytes acts).
Proof.
  intros Hlen Hpos Hc. revert limits Hlen Hpos.
  induction Hc as [|a acts Ha Hc IH]; intros [|l limits] Hlen Hpos; try done.
  inversion_clear Hpos. rewrite plan_writes_cons, sent_app. cbn [map concat].
  rewrite IH; [|cbn in Hlen; lia|done]. f_equal.
  destruct a; try done; [unfold sent; cbn; by rewrite app_nil_r|by apply sent_raster].
Qed.

Section Runs.
Context {T C SE : Type} `{Transport T, Clock T, Cancellation C}.

(** An execution with a recorder that starts empty. *)
Definition run (timing : ReferenceTiming) (plan : Plan) (c : C) (t : T) :
    Result (Fault (ExecuteError SE)) Progress * Env (Traced T) C :=
  execute_with_options timing plan c {| traced := t; trace := [] |}.

(** Either preflight refused the plan before any write, or the action loop
    ran from the initial accounting. *)
Lemma run_cases timing plan c t :
  Forall action_typed (actions plan) ->
  (exists payload command err,
     preflight (StoreError := SE) plan payload command = Err err /\
     fst (run timing plan c t) = Err (Raised err) /\
     writes (env_trace (snd (run timing plan c t))) = [] /\
     reported (snd (run timing plan c t)) = []) \/
  (Forall chunkable (actions plan) /\
   (exists payload command, preflight (StoreError := SE) plan payload command = Ok tt) /\
   exists L e, accounted (C := C) L 0 [] (e, Progress_default) /\
     cancellation e = c /\
     run timing plan c t =
     let '(r, s) := execute_actions timing 0 (actions plan) (e, Progress_default) in (r, fst s)).
Proof.
  intros Ht. unfold run, execute_with_options, execute_inner, ebind, read. cbn.
  destruct (payload_limit t) as [payload t1]. cbn. destruct (command_limit t1) as [command t2]. cbn.
  unfold eresult. destruct (preflight plan payload command) as [u|err] eqn:Ep; cbn.
  - right. split; [by eapply preflight_chunkable|].
    split; [destruct u; by exists payload, command|]. do 2 eexists. split; [|split; [|done]]; [|done]. by split.
  - left. by exists payload, command, err.
Qed.

Lemma preflight_action_no_progress limit index a retained err :
  preflight_action (StoreError := SE) limit index a retained = Err err -> error_progress err = None.
Proof.
  intros E. unfold preflight_action, ok_or, rbind in E.
  repeat (case_match; simplify_eq; try done).
Qed.

Lemma preflight_no_progress plan payload command err :
  preflight (StoreError := SE) plan payload command = Err err -> error_progress err = None.
Proof.
  unfold preflight. intros E. repeat (case_match; [by injection E as <-|]).
  clear -E. revert E. generalize 0 at 1. generalize 0.
  induction (actions plan) as [|a acts IH]; intros retained index E; [done|].
  cbn [preflight_actions] in E.
  destruct (preflight_action command index a retained) as [r|x] eqn:Ea; cbn in E.
  - by eapply IH.
  - injection E as ->. by eapply preflight_action_no_progress.
Qed.
End Runs.

(** C1: a successful execution wrote the plan. The writes the transport saw
    are exactly those of the plan's actions, in order, each performed once and
    confirmed; raster bytes are split into pieces no longer than the payload
    limit last read from the transport; joined together they are the plan's
    bytes. The progress counts them, and the callback was called once per
    action, in order. *)
Theorem execute_writes_plan {T C SE} `{Transport T, Clock T, Cancellation C}
    timing plan (c : C) (t : T) p e :
  Forall action_typed (actions plan) ->
  run (SE := SE) timing plan c t = (Ok p, e) ->
  let acts := actions plan in
  exists limits, length limits = length acts /\ Forall (fun l => 0 < l) limits /\
    writes (env_trace e) = map confirmed (plan_writes limits acts) /\
    fits 0 (env_trace e) = true /\
    sent (plan_writes limits acts) = concat (map action_bytes acts) /\
    bytes_written p = saturate u64_max (zlen (concat (map action_bytes acts))) /\
    potentially_accepted_write p = negb (bool_decide (plan_writes limits acts = [])) /\
    map last_completed_action (reported e) = map Some (seqZ 0 (zlen acts)).
Proof.
  intros Ht Hrun. destruct (run_cases (SE := SE) timing plan c t Ht)
    as [(pl & cl & err & _ & Er & _)|(Hc & _ & L & e0 & Hacc & _ & Erun)]; rewrite Hrun in *; [done|].
  pose proof (spec_execute_actions (SE := SE) timing 0 (actions plan) L [] (e0, Progress_default)
                ltac:(lia) Hc Hacc) as Hspec.
  unfold spec in Hspec. destruct (execute_actions timing 0 _ _) as [[q|x] [e' p']]; [|done].
  injection Erun as -> ->. destruct Hspec as (-> & L' & limits & Hlen & Hpos & [_ HF Hl Hb Hf _ Hr]).
  exists limits. rewrite <- sent_plan with (limits := limits) by done. by split_and!.
Qed.

(** C2: a failed execution never retries. Either preflight refused the plan
    and nothing was written, or the writes are a prefix of the plan's, in
    order, all confirmed but at most the last one; that one was not attempted
    again, nothing was written after it, and its outcome is reported as
    unknown with the bytes confirmed so far. An execution does not panic. *)
Theorem execute_never_retries {T C SE} `{Transport T, Clock T, Cancellation C}
    timing plan (c : C) (t : T) x e :
  Forall action_typed (actions plan) ->
  run (SE := SE) timing plan c t = (Err x, e) ->
  (exists payload command err, x = Raised err /\
     preflight plan payload command = Err err /\ error_progress err = None /\
     writes (env_trace e) = [] /\ reported e = []) \/
  (exists n limits p, 0 <= n < zlen (actions plan) /\
     length limits = length (actions plan) /\ Forall (fun l => 0 < l) limits /\
     stopped n [] (plan_writes limits (actions plan)) x (e, p)).
Proof.
  intros Ht Hrun. destruct (run_cases (SE := SE) timing plan c t Ht)
    as [(pl & cl & err & Ep & Er & Ew & Erep)|(Hc & _ & L & e0 & Hacc & _ & Erun)]; rewrite Hrun in *.
  { left. exists pl, cl, err. cbn in *. injection Er as ->.
    pose proof (preflight_no_progress _ _ _ _ Ep). done. }
  pose proof (spec_execute_actions (SE := SE) timing 0 (actions plan) L [] (e0, Progress_default)
                ltac:(lia) Hc Hacc) as Hspec.
  unfold spec in Hspec. destruct (execute_actions timing 0 _ _) as [[q|y] [e' p']]; [done|].
  injection Erun as -> ->. right.
  destruct Hspec as (pre & a & post & limits & limit & Ea & Hlen & Hpos & Hst).
  exists (zlen pre), (limits ++ limit :: replicate (length post) 1), p'. rewrite Ea. split_and!.
  - apply zlen_nonneg.
  - autorewrite with zlen. pose proof (zlen_nonneg post). lia.
  - rewrite !length_app. cbn. rewrite length_replicate. lia.
  - inversion_clear Hpos. apply Forall_app. split; [done|]. constructor; [done|].
    apply Forall_replicate. lia.
  - unfold plan_writes. rewrite zip_with_app by done. rewrite concat_app. cbn [zip_with concat].
    apply stopped_more, stopped_weaken. exact Hst.
Qed.

(** ** Plans of the planner *)

Lemma preflight_actions_pass {SE} limit index acts retained :
  Forall (fun a => forall index retained,
     preflight_action (StoreError := SE) limit index a retained = Ok retained) acts ->
  preflight_actions (StoreError := SE) limit index acts retained = Ok tt.
Proof.
  intros Hl. revert index. induction Hl as [|a acts Ha Hl IH]; intros index; [done|].
  cbn [preflight_actions]. rewrite Ha. apply IH.
Qed.

Lemma preflight_page_action {SE} p limit a index retained :
  max_command p <= limit -> page_action p a ->
  preflight_action (StoreError := SE) limit index a retained = Ok retained.
Proof.
  intros Hl. destruct a as [k| |name bytes atomic|bytes lc ms|ms|t f v|t i m v]; cbn; try done.
  - intros [-> Hb]. destruct (Z.ltb_spec limit (zlen bytes)); [lia|done].
  - intros [-> _]. pose proof (chunk_size_pos p). by destruct (Z.eqb_spec (chunk_size p) 0); [lia|].
  - intros (Ht & _ & Hv). destruct (Z.eqb_spec t 0); [lia|]. by destruct Hv as [->| ->].
Qed.

(** the executor accepts what the planner produces. A plan built for a
    printer passes preflight on every transport with a positive payload limit
    that takes the printer's longest command atomically, unless it has more
    than 16384 actions, and then it is refused before anything is written. *)
Theorem planner_plans_pass_preflight {SE} p r o limits pl payload command :
  plan_with_limits p r o limits = Ok pl -> 0 <= copies o -> 0 <= invalidate_bytes p ->
  0 < payload -> max_command p <= command ->
  preflight (StoreError := SE) pl payload command =
  if zlen (actions pl) <=? MAX_PLAN_ACTIONS then Ok tt
  else Err (InvalidPlan 0 "plan action count exceeds executor limit").
Proof.
  intros H Hc Hi Hp Hcmd. destruct (plan_shape p r o limits pl H Hc Hi) as (inside & -> & Hin).
  unfold preflight. destruct (Z.eqb_spec payload 0); [lia|].
  assert (0 < command) by (unfold max_command in Hcmd; lia).
  destruct (Z.eqb_spec command 0); [lia|].
  destruct (Z.ltb_spec MAX_PLAN_ACTIONS (zlen (actions (framed p inside)))),
    (Z.leb_spec (zlen (actions (framed p inside))) MAX_PLAN_ACTIONS); try lia; [done|].
  apply preflight_actions_pass. cbn [framed mk_plan actions].
  apply Forall_app. split; [by repeat constructor|]. apply Forall_app.
  split; [|by repeat constructor]. eapply Forall_impl; [|exact Hin].
  intros. by eapply preflight_page_action.
Qed.

(** ** Retained responses *)

Section Retention.
Context {T C SE : Type} `{Transport T, Clock T, Cancellation C}.
#[local] Abbreviation st := (Env T C * Progress)%type.
#[local] Abbreviation Error := (ExecuteError SE).

(** Computations that retain no response. *)
Definition keeps {E A} (m : EM st E A) : Prop :=
  forall s, responses (snd (snd (m s))) = responses (snd s).

Lemma keeps_bind {E A B} (m : EM st E A) (k : A -> EM st E B) :
  keeps m -> (forall a, keeps (k a)) -> keeps (ebind m k).
Proof.
  intros Hm Hk s. specialize (Hm s). unfold ebind. destruct (m s) as [[a|x] s']; [|done].
  rewrite Hk. exact Hm.
Qed.

Lemma keeps_ret {E A} (a : A) : keeps (E := E) (eret a).
Proof. done. Qed.

Lemma keeps_env {E A} (m : EM (Env T C) E A) : keeps (in_env m).
Proof. intros s. unfold in_env. by destruct (m (fst s)). Qed.

Lemma keeps_throw_at {A} (f : Progress -> Error) : keeps (A := A) (throw_at f).
Proof. done. Qed.

Lemma keeps_modify {E} (f : Progress -> Progress) :
  (forall p, responses (f p) = responses p) -> keeps (E := E) (modify_progress f).
Proof. intros Hf s. apply Hf. Qed.

Lemma keeps_efor {A} (l : list A) (body : A -> EM st Error unit) :
  (forall a, keeps (body a)) -> keeps (efor body l).
Proof.
  intros Hb. induction l as [|a l IH]; cbn [efor]; [apply keeps_ret|by apply keeps_bind].
Qed.

Lemma keeps_chunks {A} n (l : list A) (body : list A -> EM st Error unit) :
  (forall a, keeps (body a)) -> keeps (chunks_of n l body (eret tt)).
Proof.
  intros Hb. unfold chunks_of. destruct (n =? 0); [done|].
  apply keeps_bind; [by apply keeps_efor|done].
Qed.

Lemma keeps_check_cancelled : keeps (check_cancelled (SE := SE)).
Proof. apply keeps_bind; [apply keeps_env|]. by intros []. Qed.

Lemma keeps_delay d : keeps (delay_or_cancel (SE := SE) d).
Proof. apply keeps_bind; [apply keeps_env|]. by intros []. Qed.

Lemma keeps_write_piece bytes kind : keeps (write_piece (SE := SE) bytes kind).
Proof.
  apply keeps_bind; [apply keeps_check_cancelled|intros _].
  apply keeps_bind; [by apply keeps_modify|intros _].
  apply keeps_bind; [apply keeps_env|]. intros [[[]|x]|]; done.
Qed.

Lemma keeps_raster_piece timing ms piece : keeps (raster_piece (SE := SE) timing ms piece).
Proof.
  apply keeps_bind; [apply keeps_check_cancelled|intros _].
  apply keeps_bind; [apply keeps_write_piece|intros _]. apply keeps_delay.
Qed.

Lemma keeps_effect {A} (m : EM (Env T C) EffectError A) : keeps (effect (SE := SE) m).
Proof.
  apply keeps_bind; [|by intros []]. intros s. unfold etry, in_env.
  by destruct (m (fst s)) as [[a|[x|]] e].
Qed.

(** *** Response collection *)

(** What a computation returns, wherever it succeeds. *)
Definition returns {S E A} (m : EM S E A) (P : A -> Prop) : Prop :=
  forall s a s', m s = (Ok a, s') -> P a.

Lemma returns_bind {S E A B} (m : EM S E A) (k : A -> EM S E B) P Q :
  returns m P -> (forall a, P a -> returns (k a) Q) -> returns (ebind m k) Q.
Proof.
  intros Hm Hk s b s' Hr. unfold ebind in Hr. destruct (m s) as [[a|x] s1] eqn:Em; [|done].
  eapply Hk; [|exact Hr]. by eapply Hm.
Qed.

Lemma returns_any {S E A} (m : EM S E A) : returns m (fun _ => True).
Proof. done. Qed.

Lemma returns_ret {S E A} (a : A) (P : A -> Prop) : P a -> returns (S := S) (E := E) (eret a) P.
Proof. intros Ha s b s' E'. by injection E' as <- _. Qed.

Lemma returns_throw {S E A} (x : E) (P : A -> Prop) : returns (S := S) (ethrow x) P.
Proof. done. Qed.

Lemma returns_result {S E A} (r : Result E A) (P : A -> Prop) :
  (forall a, r = Ok a -> P a) -> returns (S := S) (eresult r) P.
Proof.
  intros Hr s a s' E'. unfold eresult in E'. injection E' as E' _. by apply Hr, raising_Ok.
Qed.

Definition response_bytes (outcome : WaitOutcome) : list Z :=
  match outcome with Response bytes => bytes | _ => [] end.

Lemma from_byte_suffix b bytes frame : from_byte b bytes = Some frame -> zlen frame <= zlen bytes.
Proof.
  induction bytes as [|x bytes IH]; cbn; [done|]. destruct (x =? b); intros E'.
  - by injection E' as <-.
  - apply IH in E'. autorewrite with zlen. lia.
Qed.

Lemma complete_response_len validation bytes frame :
  complete_response validation bytes = Some frame -> zlen frame <= zlen bytes.
Proof.
  unfold complete_response. destruct (is_phomemo validation).
  - destruct (from_byte 26 bytes) as [f|] eqn:Ef; [|done]. apply from_byte_suffix in Ef.
    by case_match; intros [= <-].
  - case_match; intros [= <-]; done.
Qed.

Lemma grow_Ok already len added v :
  grow already len added = Ok v -> v = already + len + added.
Proof.
  unfold grow. intros E'. inv_ok E'. apply checked_Some in Hx as [_ ->].
  by apply checked_Some in E' as [_ ->].
Qed.

Lemma collect_reads_bounded reads first timeout started validation already bytes :
  (0 < reads)%nat \/ already + zlen bytes <= MAX_RETAINED_RESPONSE_BYTES ->
  bytes = [] \/ already + zlen bytes <= MAX_RETAINED_RESPONSE_BYTES ->
  returns (collect_reads (T := T) (C := C) reads first timeout started validation already bytes)
    (fun o => forall b, o = Response b ->
       already + zlen b <= MAX_RETAINED_RESPONSE_BYTES).
Proof.
  revert first bytes. induction reads as [|reads IH]; intros first bytes Hr Hb; cbn [collect_reads].
  { destruct Hr as [Hr|Hr]; [lia|]. apply returns_ret. case_match; [done|]. by intros ? [= <-]. }
  eapply returns_bind; [apply returns_any|]. intros current _.
  assert (forall o : WaitOutcome,
    (forall b, o <> Response b) -> forall b,
    (if (zlen bytes =? 0) || is_phomemo validation then o else Response bytes) = Response b ->
    already + zlen b <= MAX_RETAINED_RESPONSE_BYTES) as Hstop.
  { intros o Ho b. destruct (_ || _) eqn:Eb; [intros E'; by apply Ho in E'|intros [= <-]].
    apply orb_false_iff in Eb as [Eb _]. destruct Hb as [->|Hb]; [done|done]. }
  destruct (remaining_of timeout started current =? 0); [apply returns_ret; by apply Hstop|].
  eapply returns_bind; [apply returns_any|]. intros outcome _.
  destruct outcome as [chunk| |]; [|apply returns_ret; by apply Hstop..].
  eapply returns_bind; [apply (returns_result _ (fun v => v = already + zlen bytes + zlen chunk))|].
  { intros v. apply grow_Ok. }
  intros v ->. destruct (Z.ltb_spec MAX_RETAINED_RESPONSE_BYTES (already + zlen bytes + zlen chunk));
    [apply returns_throw|].
  assert (already + zlen (bytes ++ chunk) <= MAX_RETAINED_RESPONSE_BYTES) as Hlen
    by (rewrite zlen_app; lia).
  cbn zeta. destruct (complete_response validation (bytes ++ chunk)) as [frame|] eqn:Ec.
  - apply returns_ret. intros b [= <-]. apply complete_response_len in Ec. lia.
  - apply IH; by right.
Qed.

Lemma multipart_reads_bounded reads first timeout idle maximum started bytes :
  0 <= maximum -> zlen bytes <= maximum ->
  returns (multipart_reads (T := T) (C := C) reads first timeout idle maximum started bytes)
    (fun ended => match ended with
                  | inl o => zlen (response_bytes o) <= maximum
                  | inr (b, _) => zlen b <= maximum
                  end).
Proof.
  intros Hm. revert first bytes.
  induction reads as [|reads IH]; intros first bytes Hb; cbn [multipart_reads];
    [by apply returns_ret|].
  eapply returns_bind; [apply returns_any|]. intros current _.
  destruct (remaining_of timeout started current =? 0); [by apply returns_ret|].
  eapply returns_bind; [apply returns_any|]. intros outcome _.
  destruct outcome as [[|x chunk]| |];
    [by apply returns_ret| |apply returns_ret; by destruct (zlen bytes =? 0)..].
  eapply returns_bind; [apply (returns_result _ (fun v => v = zlen bytes + zlen (x :: chunk)))|].
  { intros v Hv. apply ok_or_Ok, checked_Some in Hv as [_ ->]. done. }
  intros v ->. destruct (Z.ltb_spec maximum (zlen bytes + zlen (x :: chunk))); [apply returns_throw|].
  apply IH. rewrite zlen_app. lia.
Qed.

Lemma collect_multipart_bounded timeout idle maximum :
  0 <= maximum ->
  returns (collect_multipart_response (T := T) (C := C) timeout idle maximum)
    (fun o => zlen (response_bytes o) <= maximum).
Proof.
  intros Hm. eapply returns_bind; [apply returns_any|]. intros started _.
  eapply returns_bind; [by apply multipart_reads_bounded|]. intros [o|[b idle']] Hb;
    [by apply returns_ret|].
  destruct (zlen b =? 0); [by apply returns_ret|]. destruct idle'; [by apply returns_ret|].
  eapply returns_bind; [apply returns_any|]. intros current _.
  destruct (_ <? _); [apply returns_throw|by apply returns_ret].
Qed.

(** *** The bound over a plan *)

Definition collect_max (a : Action) : Z :=
  match a with CollectResponse _ _ maximum_bytes _ => maximum_bytes | _ => 0 end.

Definition collect_total (acts : list Action) : Z := foldr Z.add 0 (map collect_max acts).

Definition retains (B : Z) (s : st) : Prop := retained_bytes (snd s) <= B.

(** [m] leaves at most [B] bytes retained, however it ends. *)
Definition bounded {A} (m : EM st Error A) (s : st) (B : Z) : Prop :=
  spec m s (fun _ s' => retains B s') (fun _ s' => retains B s').

Lemma spec_keeps {E A} (m : EM st E A) s (P : A -> Prop) (Q : A -> st -> Prop) (X : Fault E -> st -> Prop) :
  keeps m -> returns m P ->
  (forall a s', P a -> responses (snd s') = responses (snd s) -> Q a s') ->
  (forall x s', responses (snd s') = responses (snd s) -> X x s') ->
  spec m s Q X.
Proof.
  intros Hk Hp HQ HX. specialize (Hk s). unfold spec.
  destruct (m s) as [[a|x] s'] eqn:Em; cbn in Hk; [|by apply HX].
  apply HQ; [by eapply Hp|done].
Qed.

Lemma retains_same B (s s' : st) : responses (snd s') = responses (snd s) -> retains B s -> retains B s'.
Proof. unfold retains, retained_bytes. by intros ->. Qed.

Lemma bounded_keeps {A} (m : EM st Error A) s B : keeps m -> retains B s -> bounded m s B.
Proof.
  intros Hk Hs. apply (spec_keeps _ _ (fun _ => True)); [done|done|..]; intros;
    by eapply retains_same.
Qed.

Lemma foldr_add_app l k : foldr Z.add 0 (l ++ k) = foldr Z.add 0 l + foldr Z.add 0 k.
Proof. induction l as [|x l IH]; cbn; lia. Qed.

Lemma bounded_accept validation bytes s B :
  retained_bytes (snd s) + zlen bytes <= B ->
  bounded (accept_response (SE := SE) validation bytes) s B.
Proof.
  intros Hb. pose proof (zlen_nonneg bytes).
  apply spec_bind, spec_get_progress, spec_bind, spec_result.
  - intros [] _. unfold spec, modify_progress, ebind, get_progress, set_progress, retains. cbn.
    unfold retained_bytes in *. cbn. rewrite map_app, foldr_add_app. cbn. lia.
  - intros x _. unfold retains. lia.
Qed.

Lemma returns_effect {A} (m : EM (Env T C) EffectError A) (P : A -> Prop) :
  returns m P -> returns (effect (SE := SE) m) P.
Proof.
  intros Hm s a s' E'. unfold effect, etry, in_env, ebind in E'.
  destruct (m (fst s)) as [[b|[x|]] e] eqn:Em; cbn in E'; try done.
  injection E' as -> _. by eapply Hm.
Qed.

Lemma bounded_action timing index a s B :
  0 <= collect_max a -> MAX_RETAINED_RESPONSE_BYTES <= B -> retains B s ->
  bounded (execute_action (SE := SE) timing index a) s (B + collect_max a).
Proof.
  intros Hc HB Hs.
  assert (forall s, retains B s -> retains (B + collect_max a) s) as Hw
    by (unfold retains; intros; lia).
  destruct a as [k| |name bytes atomic|bytes lc ms|ms|t f v|t i m v];
    cbn [execute_action].
  1-5: apply bounded_keeps; [|by apply Hw].
  - apply keeps_ret.
  - apply keeps_bind; [apply keeps_env|]. intros [[a|x]|]; done.
  - apply keeps_write_piece.
  - apply keeps_bind; [apply keeps_env|]. intros limit. destruct (limit =? 0); [done|].
    apply keeps_chunks. intros l. apply keeps_chunks. intros. apply keeps_raster_piece.
  - apply keeps_delay.
  - apply spec_bind, spec_get_progress, spec_bind.
    eapply spec_keeps; [apply keeps_effect| | |].
    { apply returns_effect. eapply returns_bind; [apply returns_any|]. intros started _.
      apply collect_reads_bounded; [left; unfold MAX_FIXED_RESPONSE_READS; lia|by left]. }
    2: { intros x s' Hs'. apply Hw. by eapply retains_same. }
    cbn beta. intros outcome s' Ho Hs'.
    assert (retains B s') as Hr by (by eapply retains_same).
    assert (bounded (if 0 <? f then delay_or_cancel (SE := SE) (apply_timing timing f)
                     else if bool_decide (v = BrotherStatus32) then eret tt
                     else throw_at Timeout) s' (B + collect_max (WaitForResponse t f v))) as Hf.
    { apply bounded_keeps; [|by apply Hw].
      destruct (0 <? f); [apply keeps_delay|]. by case_bool_decide. }
    destruct outcome as [b| |]; [|exact Hf..]. apply bounded_accept.
    specialize (Ho b eq_refl). unfold retained_bytes in *. rewrite Hs'. cbn. lia.
  - apply spec_bind. eapply spec_keeps; [apply keeps_effect| | |].
    { by apply returns_effect, collect_multipart_bounded. }
    2: { intros x s' Hs'. apply Hw. by eapply retains_same. }
    cbn beta. intros outcome s' Ho Hs'.
    assert (retains B s') as Hr by (by eapply retains_same).
    destruct outcome as [b| |]; [|apply bounded_keeps; [done|by apply Hw]..].
    apply bounded_accept. unfold retains in Hr. cbn in Ho |- *. lia.
Qed.

Lemma bounded_actions timing n acts s B :
  Forall action_typed acts -> MAX_RETAINED_RESPONSE_BYTES <= B -> retains B s ->
  bounded (execute_actions (SE := SE) timing n acts) s (B + collect_total acts).
Proof.
  intros Ht. revert n s B. induction Ht as [|a acts Ha Hacts IH]; intros n s B HB Hs.
  - unfold bounded, spec, retains in *. cbn. lia.
  - assert (0 <= collect_max a) by (destruct a; cbn in *; lia).
    assert (0 <= collect_total acts) as Hc.
    { clear -Hacts. induction Hacts as [|b l Hb Hl IH]; cbn; [lia|].
      fold (collect_total l). destruct b; cbn in *; lia. }
    change (collect_total (a :: acts)) with (collect_max a + collect_total acts).
    cbn [execute_actions]. apply spec_bind.
    apply (spec_keeps _ _ (fun _ => True)); [apply keeps_check_cancelled|done| |].
    2: { intros x s' Hs'. apply (retains_same _ _ _ Hs'). unfold retains in *. lia. }
    intros [] s1 _ Hs1. apply (retains_same B) in Hs1; [|done]. apply spec_bind.
    eapply spec_mono; [by apply bounded_action| |].
    2: { intros x s' Hs'. unfold retains in *. lia. }
    intros [] [e p] Hs2. rewrite Z.add_assoc.
    apply (IH (n + 1) _ (B + collect_max a)); [lia|]. exact Hs2.
Qed.
End Retention.

Lemma preflight_collect_total {SE} limit index acts retained :
  Forall action_typed acts -> 0 <= retained <= MAX_RETAINED_RESPONSE_BYTES ->
  preflight_actions (StoreError := SE) limit index acts retained = Ok tt ->
  retained + collect_total acts <= MAX_RETAINED_RESPONSE_BYTES.
Proof.
  intros Ht. revert index retained. induction Ht as [|a acts Ha Hacts IH]; intros index retained Hr E.
  { cbn. lia. }
  cbn [preflight_actions] in E. inv_ok E.
  change (collect_total (a :: acts)) with (collect_max a + collect_total acts).
  assert (x = retained + collect_max a /\ 0 <= x <= MAX_RETAINED_RESPONSE_BYTES) as [-> Hx'].
  { destruct a; cbn in Hx |- *; inv_ok Hx; try (case_match; [done|]); try (injection Hx as <-; lia).
    all: try lia. all: try (apply checked_Some in Hx0 as [? ->]; cbn in Ha; lia). }
  apply IH in E; lia.
Qed.

(** retention is bounded. However an execution ends, the responses in the
    progress it reports total at most twice [MAX_RETAINED_RESPONSE_BYTES]: a
    waited response is counted together with everything retained before it,
    a collected one only against the sum that preflight checked. *)
Theorem retained_responses_bounded {T C SE} `{Transport T, Clock T, Cancellation C}
    timing plan (c : C) (t : T) r e p :
  Forall action_typed (actions plan) ->
  run (SE := SE) timing plan c t = (r, e) ->
  r = Ok p \/ (exists err, r = Err (Raised err) /\ error_progress err = Some p) ->
  retained_bytes p <= 2 * MAX_RETAINED_RESPONSE_BYTES.
Proof.
  intros Ht Hrun Hp. destruct (run_cases (SE := SE) timing plan c t Ht)
    as [(pl & cl & err & Ep & Er & _)|(Hc & (pl & cl & Ep) & L & e0 & Hacc & _ & Erun)];
    rewrite Hrun in *.
  { apply preflight_no_progress in Ep. cbn in Er. destruct Hp as [->|(err' & -> & E)]; [done|].
    injection Er as ->. by rewrite Ep in E. }
  assert (collect_total (actions plan) <= MAX_RETAINED_RESPONSE_BYTES) as Hct.
  { unfold preflight in Ep. inv_ok Ep.
    apply preflight_collect_total in Ep; [lia|done|]. unfold MAX_RETAINED_RESPONSE_BYTES. lia. }
  pose proof (spec_execute_actions (SE := SE) timing 0 (actions plan) L [] (e0, Progress_default)
                ltac:(lia) Hc Hacc) as Hspec.
  pose proof (bounded_actions (SE := SE) timing 0 (actions plan) (e0, Progress_default)
                MAX_RETAINED_RESPONSE_BYTES Ht ltac:(lia) ltac:(done)) as Hb.
  unfold bounded, spec in *. destruct (execute_actions timing 0 _ _) as [[q|x] [e' p']].
  - injection Erun as -> ->. destruct Hspec as [-> _]. unfold retains in Hb.
    cbn [snd] in *. destruct Hp as [[= <-]|(err & ? & _)]; [|done]. lia.
  - injection Erun as -> ->. destruct Hp as [?|(err & [= ->] & E)]; [done|].
    destruct Hspec as (pre & a & post & limits & limit & _ & _ & _ & Hst). unfold retains in Hb.
    remember (e', p') as s' eqn:Es. remember (Raised err) as x eqn:Ex.
    destruct Hst as [L' done_ err' s Hpre Ha [He|(i & why & He)] Hu|done_ bytes k o s Hpre Ho Hfit Hl Hbw Hf Hn];
      injection Ex as <-; subst; cbn in *; simplify_eq; lia.
Qed.

(** an already cancelled execution writes nothing. When the token's flag
    is set before the execution starts, a plan with actions ends in
    [Cancelled] with the initial progress, or in a preflight error; the
    transport sees no write and the callback is not called. *)
Theorem cancelled_token_writes_nothing {T SE} `{Transport T, Clock T}
    timing plan (c : CancellationToken) (t : T) :
  Forall action_typed (actions plan) -> actions plan <> [] -> flag c = true ->
  exists err, fst (run (SE := SE) timing plan c t) = Err (Raised err) /\
    (err = CancelledAt Progress_default \/ error_progress err = None) /\
    writes (env_trace (snd (run (SE := SE) timing plan c t))) = [] /\
    reported (snd (run (SE := SE) timing plan c t)) = [].
Proof.
  intros Ht Hne Hf. destruct (run_cases (SE := SE) timing plan c t Ht)
    as [(pl & cl & err & Ep & Er & Ew & Erep)|(Hc & _ & L & e0 & Hacc & Ec & ->)].
  { exists err. apply preflight_no_progress in Ep. auto. }
  destruct (actions plan) as [|a acts]; [done|]. exists (CancelledAt Progress_default).
  cbn [execute_actions]. unfold check_cancelled, ebind, in_env, cancel_requested.
  cbn [fst snd]. rewrite Ec. cbn. unfold token_step.
  destruct Hacc as [_ _ Hl _ _ _ Hr]. unfold write_log in Hl. cbn in Hl, Hr.
  assert (forall l : list Progress, map last_completed_action l = [] -> l = []) as Hnil
    by (by intros []).
  destruct (schedule c) as [|[[] ready] rest]; cbn; rewrite ?Hf; cbn; auto.
Qed.

(** ** A concrete printer *)

(** A transport of 20-byte payloads that accepts a number of writes, then
    reports a disconnection; it answers every wait with a valid notification. *)
Record Demo := { accepted_writes : nat }.

#[global] Program Instance Demo_Transport : Transport Demo := {
  payload_limit d := (20, d);
  command_limit d := (256, d);
  subscribe_notifications := {| complete d := (Ok Subscribed, d); dropped d := d |};
  write bytes kind := {|
    complete d :=
      match accepted_writes d with
      | O => (Err {| kind := Disconnected; message := "gone" |}, d)
      | S n => (Ok tt, {| accepted_writes := n |})
      end;
    dropped d := d |};
  wait_response timeout := {| complete d := (Ok (Response [26; 1; 2]), d); dropped d := d |};
  delay_for duration := {| complete d := (tt, d); dropped d := d |};
}.
Next Obligation. unfold in_u, usize_max, u64_max. cbn. lia. Qed.

#[global] Instance Demo_Clock : Clock Demo := { now d := (0, d) }.

Definition demo_plan : Plan := {|
  plan_protocol := MSeries;
  source_commit := SOURCE_COMMIT;
  actions := [
    JobBoundary Start; SubscribeNotifications;
    CommandWrite "header" [29; 118; 48; 0] true;
    RasterWrite (replicate 50 255) 32 5;
    WaitForResponse 1000 0 PhomemoNotification;
    CommandWrite "end" [27; 100] true;
    JobBoundary End_ ];
|}.

#[local] Abbreviation demo_run n :=
  (run (SE := Empty_set) Preserve demo_plan never_cancelled {| accepted_writes := n |}).

Lemma demo_typed : Forall action_typed (actions demo_plan).
Proof. repeat constructor; cbn; lia. Qed.

Lemma demo_succeeds : exists p e, demo_run 9 = (Ok p, e) /\ zlen (concat (map action_bytes (actions demo_plan))) = 56.
Proof. do 2 eexists. split; [vm_compute|vm_compute]; reflexivity. Qed.

Lemma demo_fails : exists x e, demo_run 2 = (Err x, e) /\ length (writes (env_trace e)) = 3%nat.
Proof. do 2 eexists. split; [vm_compute; reflexivity|vm_compute; reflexivity]. Qed.

Lemma execute_writes_plan_witness :
  exists p limits, fst (demo_run 9) = Ok p /\ length limits = 7%nat /\
    writes (env_trace (snd (demo_run 9))) = map confirmed (plan_writes limits (actions demo_plan)) /\
    bytes_written p = 56.
Proof.
  destruct demo_succeeds as (p & e & Erun & E56).
  destruct (execute_writes_plan Preserve demo_plan never_cancelled {| accepted_writes := 9 |} p e
              demo_typed Erun) as (limits & Hlen & _ & Hw & _ & _ & Hb & _).
  exists p, limits. rewrite Erun. split; [reflexivity|]. split; [exact Hlen|]. split; [exact Hw|].
  rewrite Hb, E56. reflexivity.
Defined.

(** The third write fails: two writes are confirmed, one is unknown. *)
Lemma execute_never_retries_witness :
  exists x, fst (demo_run 2) = Err x /\
    exists n limits p, stopped n [] (plan_writes limits (actions demo_plan)) x (snd (demo_run 2), p).
Proof.
  destruct demo_fails as (x & e & Erun & E3).
  destruct (execute_never_retries Preserve demo_plan never_cancelled {| accepted_writes := 2 |} x e
              demo_typed Erun) as [(pl & cl & err & _ & _ & _ & Hw & _)|(n & limits & p & _ & _ & _ & Hst)].
  - exfalso. rewrite Hw in E3. discriminate E3.
  - exists x. rewrite Erun. split; [reflexivity|]. exists n, limits, p. exact Hst.
Defined.

Lemma planner_plans_pass_preflight_witness :
  preflight (StoreError := Empty_set) (sample_plan Brother 2) 64 256 = Ok tt.
Proof.
  refine (planner_plans_pass_preflight (sample_printer Brother) sample_raster (sample_options 2)
            ProcessingLimits_default (sample_plan Brother 2) 64 256 _ _ _ _ _).
  - vm_compute. reflexivity.
  - discriminate.
  - discriminate.
  - reflexivity.
  - discriminate.
Defined.

Lemma retained_responses_bounded_witness :
  exists p, fst (demo_run 9) = Ok p /\ retained_bytes p <= 2 * MAX_RETAINED_RESPONSE_BYTES.
Proof.
  destruct demo_succeeds as (p & e & Erun & _).
  exists p. rewrite Erun. split; [reflexivity|].
  exact (retained_responses_bounded Preserve demo_plan never_cancelled {| accepted_writes := 9 |}
           (Ok p) e p demo_typed Erun (or_introl eq_refl)).
Defined.

Lemma cancelled_token_writes_nothing_witness :
  exists err, fst (run (SE := Empty_set) Preserve demo_plan {| flag := true; schedule := [] |}
                     {| accepted_writes := 9 |}) = Err (Raised err).
Proof.
  destruct (cancelled_token_writes_nothing (SE := Empty_set) Preserve demo_plan
              {| flag := true; schedule := [] |} {| accepted_writes := 9 |} demo_typed)
    as (err & E & _); [discriminate|reflexivity|]. exists err. exact E.
Defined.

(** ** Disagreements between the limits *)

Definition long_feed : Options := {|
  density := 6; feed := 255; continuous := true; speed := 5; copies := 1000;
  gap_tenths_mm := 30; offset_tenths_mm := -30; offset_x := 0; offset_y := 0;
  label_width_tenths_mm := None; label_height_tenths_mm := None;
  brother_media := None; cut := false; cut_every := 1; compress := false;
  high_quality := false; streaming := false; lzo := false; phomemo_media_opt := None;
|}.

Definition dot_raster : Raster := {| width_bytes := 1; height := 1; data := [255] |}.

(** The planner's default limits admit a job that no executor accepts. *)
Lemma planner_exceeds_executor :
  is_ok (plan_with_limits (sample_printer M04) dot_raster long_feed ProcessingLimits_default) = true /\
  match plan_with_limits (sample_printer M04) dot_raster long_feed ProcessingLimits_default with
  | Ok pl => preflight (StoreError := Empty_set) pl 512 512
  | Err _ => Ok tt
  end = Err (InvalidPlan 0 "plan action count exceeds executor limit").
Proof. split; vm_compute; reflexivity. Qed.
