(* ===== verification/Replay.v ===== *)
(** Replay protection (crates/mb-printer-executor/src/replay.rs and the
    durable store of crates/mb-printer-native/src/lib.rs): an execution key is
    claimed before its plan reaches the transport. *)

From stdpp Require Import base gmap sets list strings numbers option.
From S2P Require Import Prelude Effects Capabilities ProtocolTypes Transport Executor ExecutorFacts.

#[local] Open Scope Z_scope.

(** ** Stores *)

(** [ReplayStore::claim]: [Ok false] means that the key was already claimed. *)
Class ReplayStore (S : Type) (E : Type) := {
  claim : list Z -> S -> Result E bool * S;
}.

(** What a store promises to its clients: a successful claim of a key is the
    first one, and a claimed key stays claimed, also across failures. *)
Class LawfulStore (S E : Type) `{ReplayStore S E} := {
  claimed : S -> list Z -> Prop;
  claim_fresh : forall key s s', claim key s = (Ok true, s') -> ~ claimed s key /\ claimed s' key;
  claim_refused : forall key s s', claim key s = (Ok false, s') -> claimed s key;
  claim_keeps : forall key other s r s', claim key s = (r, s') -> claimed s other -> claimed s' other;
}.

(** [BTreeSet::insert]. *)
Definition set_insert (key : list Z) (s : gset (list Z)) : bool * gset (list Z) :=
  (bool_decide (key ∉ s), {[key]} ∪ s).

Record MemoryReplayStore := { attempted : gset (list Z) }.

#[global] Instance MemoryReplayStore_ReplayStore : ReplayStore MemoryReplayStore Empty_set := {
  claim key s := let '(fresh, set) := set_insert key (attempted s) in (Ok fresh, {| attempted := set |});
}.

#[global] Program Instance MemoryReplayStore_Lawful : LawfulStore MemoryReplayStore Empty_set := {
  claimed s key := key ∈ attempted s;
}.
Next Obligation. intros key s s' [= Hf <-]. apply bool_decide_eq_true in Hf. cbn. set_solver. Qed.
Next Obligation. intros key s s' [= Hf _]. apply bool_decide_eq_false, dec_stable in Hf. done. Qed.
Next Obligation. intros key other s r s' [= _ <-] Ho. cbn in *. set_solver. Qed.

(** [FileReplayStore]: one file per key, named by the hexadecimal digest of
    the key, in a directory shared by processes. The operating system decides
    at each claim whether opening or writing fails; [create_new] creates the
    file only if no file has that name. *)
Inductive IoStep := IoFine | OpenFails | WriteFails.

Inductive IoError := OpenError | WriteError.

Record FileReplayStore := {
  files : gset (list Z);
  io : list IoStep;
}.

Section FileStore.
(** [format!("{:x}", Sha256::digest(key))], of the sha2 crate. *)
Variable digest : list Z -> list Z.

Definition next_io (s : FileReplayStore) : IoStep * list IoStep :=
  match io s with [] => (IoFine, []) | step :: rest => (step, rest) end.

Definition file_claim (key : list Z) (s : FileReplayStore) : Result IoError bool * FileReplayStore :=
  let '(step, rest) := next_io s in
  let unchanged := {| files := files s; io := rest |} in
  let created := {| files := {[digest key]} ∪ files s; io := rest |} in
  match step with
  | OpenFails => (Err OpenError, unchanged)
  | _ =>
      if bool_decide (digest key ∈ files s) then (Ok false, unchanged)
      else match step with
           | WriteFails => (Err WriteError, created)
           | _ => (Ok true, created)
           end
  end.

Definition FileReplayStore_ReplayStore : ReplayStore FileReplayStore IoError :=
  {| claim := file_claim |}.

#[local] Existing Instance FileReplayStore_ReplayStore.

#[program] Definition FileReplayStore_Lawful : LawfulStore FileReplayStore IoError := {|
  claimed s key := digest key ∈ files s;
|}.
Next Obligation.
  intros key s s'. unfold claim; cbn; unfold file_claim. destruct (next_io s) as [[] rest];
    try case_bool_decide; intros [=]; subst; cbn; set_solver.
Qed.
Next Obligation.
  intros key s s'. unfold claim; cbn; unfold file_claim. destruct (next_io s) as [[] rest];
    try case_bool_decide; intros [=]; done.
Qed.
Next Obligation.
  intros key other s r s'. unfold claim; cbn; unfold file_claim. destruct (next_io s) as [[] rest];
    try case_bool_decide; intros [=] Ho; subst; cbn; set_solver.
Qed.
End FileStore.

(** ** Execution *)

Section Replay.
Context {T St E : Type} `{Transport T, Clock T, ReplayStore St E}.

Definition execute_once_with_store (store : St) (key : list Z) (plan : Plan) (transport : T) :
    Result (Fault (ExecuteError E)) Progress * (St * T) :=
  match claim key store with
  | (Err source, store) => (Err (Raised (ReplayStoreFailed source)), (store, transport))
  | (Ok true, store) =>
      let '(r, e) := execute plan transport in (r, (store, Executor.transport e))
  | (Ok false, store) => (Err (Raised (Replay key)), (store, transport))
  end.

(** [ReplayGuard] keeps its own set. *)
Definition execute_once (guard : gset (list Z)) (key : list Z) (plan : Plan) (transport : T) :
    Result (Fault (ExecuteError E)) Progress * (gset (list Z) * T) :=
  let '(fresh, guard) := set_insert key guard in
  if fresh then
    let '(r, e) := execute plan transport in (r, (guard, Executor.transport e))
  else (Err (Raised (Replay key)), (guard, transport)).

Definition was_attempted (guard : gset (list Z)) (key : list Z) : bool :=
  bool_decide (key ∈ guard).

(** A client that submits requests one after the other. *)
Fixpoint submit (requests : list (list Z * Plan)) (store : St) (transport : T) :
    list (list Z * Result (Fault (ExecuteError E)) Progress) * (St * T) :=
  match requests with
  | [] => ([], (store, transport))
  | (key, plan) :: requests =>
      let '(r, (store, transport)) := execute_once_with_store store key plan transport in
      let '(rs, final) := submit requests store transport in ((key, r) :: rs, final)
  end.
End Replay.

(** A request refused by the replay protection. *)
Definition replay_error {E} (err : ExecuteError E) : bool :=
  match err with Replay _ | ReplayStoreFailed _ => true | _ => false end.

Definition refused {E A} (r : Result (Fault (ExecuteError E)) A) : bool :=
  match r with Err (Raised err) => replay_error err | _ => false end.

(** ** The executor's own errors *)

Section Errors.
Context {T C SE : Type} `{Transport T, Clock T, Cancellation C}.
#[local] Abbreviation st := (Env T C * Progress)%type.
#[local] Abbreviation Error := (ExecuteError SE).

(** The executor itself raises no replay error. *)
Definition own {S A} (m : EM S Error A) : Prop := forall s, refused (fst (m s)) = false.

Lemma own_bind {S A B} (m : EM S Error A) (k : A -> EM S Error B) :
  own m -> (forall a, own (k a)) -> own (ebind m k).
Proof.
  intros Hm Hk s. specialize (Hm s). unfold ebind. destruct (m s) as [[a|x] s']; [apply Hk|done].
Qed.

Lemma own_ret {S A} (a : A) : own (S := S) (eret a).
Proof. done. Qed.

Lemma own_total {A} (m : EM (Env T C) Error A) : (forall e, is_ok (fst (m e))) -> own (in_env m).
Proof. intros Hm s. specialize (Hm (fst s)). unfold in_env. by destruct (m (fst s)) as [[a|x] e]. Qed.

Lemma own_race {A} (f : TransportFuture T A) : own (in_env (race f)).
Proof.
  apply own_total. intros e. unfold race. destruct (signalled _) as [[] c]; [done|].
  by destruct (complete f _).
Qed.

Lemma own_read {A} (f : T -> A * T) : own (in_env (C := C) (read f)).
Proof. apply own_total. intros e. unfold read. by destruct (f _). Qed.

Lemma own_throw_at {A} (f : Progress -> Error) :
  (forall p, replay_error (f p) = false) -> own (throw_at (T := T) (C := C) (A := A) f).
Proof. intros Hf s. apply Hf. Qed.

Lemma own_check_cancelled : own (check_cancelled (T := T) (C := C) (SE := SE)).
Proof.
  apply own_bind; [|by intros []]. apply own_total. intros e. unfold cancel_requested.
  by destruct (is_cancelled _).
Qed.

Lemma own_delay d : own (delay_or_cancel (T := T) (C := C) (SE := SE) d).
Proof. apply own_bind; [apply own_race|]. by intros []. Qed.

Lemma own_write_piece bytes kind : own (write_piece (T := T) (C := C) (SE := SE) bytes kind).
Proof.
  apply own_bind; [apply own_check_cancelled|intros _]. apply own_bind; [done|intros _].
  apply own_bind; [apply own_race|]. by intros [[[]|x]|].
Qed.

Lemma own_efor {A} (l : list A) (body : A -> EM st Error unit) :
  (forall a, own (body a)) -> own (efor body l).
Proof. intros Hb. induction l; cbn [efor]; [done|by apply own_bind]. Qed.

Lemma own_chunks {A} n (l : list A) (body : list A -> EM st Error unit) :
  (forall a, own (body a)) -> own (chunks_of n l body (eret tt)).
Proof.
  intros Hb. unfold chunks_of. destruct (n =? 0); [done|]. apply own_bind; [by apply own_efor|done].
Qed.

Lemma own_effect {A} (m : EM (Env T C) EffectError A) : own (effect (SE := SE) m).
Proof.
  apply own_bind.
  - intros s. unfold etry, in_env. by destruct (m (fst s)) as [[a|[x|]] e].
  - intros [a|x]; [done|]. apply own_throw_at. intros p. destruct x; cbn; try done.
    unfold non_write_error. by case_decide.
Qed.

Lemma own_accept validation bytes : own (accept_response (T := T) (C := C) (SE := SE) validation bytes).
Proof.
  apply own_bind; [done|]. intros p. apply own_bind; [|done].
  intros s. unfold eresult, validate. by destruct (valid_response _ _).
Qed.

Lemma own_execute_action timing index a : own (execute_action (T := T) (C := C) (SE := SE) timing index a).
Proof.
  destruct a as [k| |name bytes atomic|bytes lc ms|ms|t f v|t i m v]; cbn [execute_action].
  - done.
  - apply own_bind; [apply own_race|]. intros [[s|x]|]; [done|apply own_throw_at|done].
    intros p. unfold non_write_error. by case_decide.
  - apply own_write_piece.
  - apply own_bind; [apply own_read|]. intros limit. destruct (limit =? 0); [done|].
    apply own_chunks. intros l. apply own_chunks. intros piece.
    apply own_bind; [apply own_check_cancelled|intros _].
    apply own_bind; [apply own_write_piece|intros _]. apply own_delay.
  - apply own_delay.
  - apply own_bind; [done|]. intros p. apply own_bind; [apply own_effect|].
    intros outcome.
    assert (own (if 0 <? f then delay_or_cancel (T := T) (C := C) (SE := SE) (apply_timing timing f)
                 else if bool_decide (v = BrotherStatus32) then eret tt
                 else throw_at Timeout)) as Hf.
    { destruct (0 <? f); [apply own_delay|]. by case_bool_decide. }
    destruct outcome; [apply own_accept|exact Hf..].
  - apply own_bind; [apply own_effect|]. intros []; [apply own_accept|done..].
Qed.

Lemma own_execute_actions timing n acts : own (execute_actions (T := T) (C := C) (SE := SE) timing n acts).
Proof.
  revert n. induction acts as [|a acts IH]; intros n; cbn [execute_actions]; [done|].
  apply own_bind; [apply own_check_cancelled|intros _].
  apply own_bind; [apply own_execute_action|intros _].
  apply own_bind; [done|intros _]. apply own_bind; [done|intros _]. apply IH.
Qed.

Lemma own_preflight plan payload command :
  refused (raising (preflight (StoreError := SE) plan payload command)) = false.
Proof.
  unfold preflight. do 3 (case_match; [done|]).
  generalize 0 at 1. generalize 0. clear. induction (actions plan) as [|a acts IH];
    intros retained index; [done|]. cbn [preflight_actions].
  assert (refused (raising (preflight_action (StoreError := SE) command index a retained)) = false) as Ha.
  { unfold preflight_action, ok_or, rbind. repeat (case_match; simplify_eq; try done). }
  destruct (preflight_action command index a retained) as [v|x]; [apply IH|exact Ha].
Qed.

Lemma own_execute_inner timing plan : own (execute_inner (T := T) (C := C) (SE := SE) timing plan).
Proof.
  apply own_bind; [intros e; unfold read; by destruct (payload_limit _)|]. intros payload.
  apply own_bind; [intros e; unfold read; by destruct (command_limit _)|]. intros command.
  apply own_bind; [intros e; apply own_preflight|]. intros _ e.
  pose proof (own_execute_actions timing 0 (actions plan) (e, Progress_default)) as Ho.
  by destruct (execute_actions timing 0 (actions plan) _) as [r s].
Qed.
End Errors.

(** ** At most one execution *)

Section AtMostOnce.
Context {T St E : Type} `{Transport T, Clock T, LawfulStore St E}.

(** The answers of the store to the claims of the keys, in order. *)
Fixpoint claim_all (keys : list (list Z)) (store : St) : list (Result E bool) * St :=
  match keys with
  | [] => ([], store)
  | key :: keys =>
      let '(answer, store) := claim key store in
      let '(answers, store) := claim_all keys store in (answer :: answers, store)
  end.

(** The requests whose claim succeeded, in order. *)
Definition accepted (answers : list (Result E bool)) (requests : list (list Z * Plan)) : list (list Z * Plan) :=
  omap (fun '(answer, request) => match answer with Ok true => Some request | _ => None end) (zip answers requests).

(** Executions of the plans, one after the other. *)
Fixpoint run_plans (plans : list Plan) (transport : T) : list (Result (Fault (ExecuteError E)) Progress) * T :=
  match plans with
  | [] => ([], transport)
  | plan :: plans =>
      let '(r, e) := execute plan transport in
      let '(rs, final) := run_plans plans (Executor.transport e) in (r :: rs, final)
  end.

(** The reply to each request: the outcome of its execution, or the refusal. *)
Fixpoint replies (answers : list (Result E bool)) (requests : list (list Z * Plan))
    (outcomes : list (Result (Fault (ExecuteError E)) Progress)) :
    list (list Z * Result (Fault (ExecuteError E)) Progress) :=
  match answers, requests with
  | Ok true :: answers, (key, _) :: requests =>
      match outcomes with
      | r :: outcomes => (key, r) :: replies answers requests outcomes
      | [] => []
      end
  | Ok false :: answers, (key, _) :: requests => (key, Err (Raised (Replay key))) :: replies answers requests outcomes
  | Err source :: answers, (key, _) :: requests =>
      (key, Err (Raised (ReplayStoreFailed source))) :: replies answers requests outcomes
  | _, _ => []
  end.

(** Claims and executions do not depend on each other but for the answers. *)
Lemma submit_runs requests (store : St) (t : T) :
  let '(answers, store') := claim_all (map fst requests) store in
  let '(outcomes, t') := run_plans (map snd (accepted answers requests)) t in
  submit (E := E) requests store t = (replies answers requests outcomes, (store', t')).
Proof.
  revert store t. induction requests as [|[key plan] requests IH]; intros store t; [done|].
  cbn [map fst claim_all submit]. unfold execute_once_with_store. destruct (claim key store) as [answer store1].
  pose proof (fun t => IH store1 t) as IH1. destruct (claim_all (map fst requests) store1) as [answers store'].
  destruct answer as [[]|source]; unfold accepted in *; cbn [zip zip_with omap list_omap map snd run_plans] in *.
  - destruct (execute plan t) as [r e]. specialize (IH1 (Executor.transport e)).
    destruct (run_plans _ (Executor.transport e)) as [outcomes t']. by rewrite IH1.
  - specialize (IH1 t). destruct (run_plans _ t) as [outcomes t']. by rewrite IH1.
  - specialize (IH1 t). destruct (run_plans _ t) as [outcomes t']. by rewrite IH1.
Qed.

(** A store accepts a key at most once, and then holds it. *)
Lemma claim_all_keeps keys (store : St) key : claimed store key -> claimed (snd (claim_all keys store)) key.
Proof.
  revert store. induction keys as [|k keys IH]; intros store Hc; [done|]. cbn [claim_all].
  destruct (claim k store) as [answer store1] eqn:Ec. specialize (IH store1 (claim_keeps _ _ _ _ _ Ec Hc)).
  by destruct (claim_all keys store1).
Qed.

Lemma accepted_keys requests (store : St) :
  let '(answers, store') := claim_all (map fst requests) store in
  let keys := map fst (accepted answers requests) in
  NoDup keys /\ forall key, key ∈ keys -> ~ claimed store key /\ claimed store' key.
Proof.
  revert store. induction requests as [|[key plan] requests IH]; intros store.
  { cbn. split; [constructor|]. intros key Hin. by apply elem_of_nil in Hin. }
  cbn [map fst claim_all]. destruct (claim key store) as [answer store1] eqn:Ec.
  specialize (IH store1). pose proof (claim_all_keeps (map fst requests) store1 key) as Hkeep.
  destruct (claim_all (map fst requests) store1) as [answers store']. cbn [snd] in Hkeep. destruct IH as [Hnd Hkeys].
  assert (forall other, other ∈ map fst (accepted answers requests) -> ~ claimed store other /\ claimed store' other) as Hold.
  { intros other Hin. destruct (Hkeys other Hin) as [Hn Hc]. split; [|done]. intros Ho. apply Hn. by eapply claim_keeps. }
  destruct answer as [[]|source]; unfold accepted in *; cbn [zip zip_with omap list_omap map fst]; [|by split..].
  pose proof (claim_fresh _ _ _ Ec) as [Hfresh Hclaimed]. split.
  - constructor; [|done]. intros Hin. by destruct (Hkeys key Hin).
  - intros other Hin. apply elem_of_cons in Hin as [->|Hin]; [|by apply Hold]. split; [done|by apply Hkeep].
Qed.

Lemma execute_once_cases store key plan (t : T) :
  exists r store' t', execute_once_with_store (E := E) store key plan t = (r, (store', t')) /\
    (forall other, claimed store other -> claimed store' other) /\
    (refused r = true /\ t' = t \/ refused r = false /\ ~ claimed store key /\ claimed store' key).
Proof.
  unfold execute_once_with_store. destruct (claim key store) as [[[]|x] store'] eqn:Ec.
  - pose proof (claim_fresh _ _ _ Ec). destruct (execute plan t) as [r e] eqn:Er.
    do 3 eexists. split; [done|]. split; [intros; by eapply claim_keeps|]. right. split; [|done].
    change r with (fst (r, e)). rewrite <- Er. apply own_execute_inner.
  - do 3 eexists. split; [done|]. split; [intros; by eapply claim_keeps|]. by left.
  - do 3 eexists. split; [done|]. split; [intros; by eapply claim_keeps|]. by left.
Qed.

(** C5: at most one execution per key. Whatever requests a client submits,
    in any order and with any repetitions, and however claims and executions
    fail: the transport is driven by exactly the executions of the requests
    whose claim succeeded, one after the other, and by nothing else, so that a
    refused request does not touch it; every request is answered with the
    outcome of its execution or with the refusal of its claim; no two
    executed requests have the same key, and an executed key was unclaimed
    before and is claimed afterwards. *)
Theorem submit_at_most_once requests (store : St) (t : T) :
  let '(results, (store', t')) := submit (E := E) requests store t in
  let '(answers, claims) := claim_all (map fst requests) store in
  let '(outcomes, driven) := run_plans (map snd (accepted answers requests)) t in
  let executed := map fst (accepted answers requests) in
  t' = driven /\ store' = claims /\ results = replies answers requests outcomes /\
  NoDup executed /\ forall key, key ∈ executed -> ~ claimed store key /\ claimed store' key.
Proof.
  pose proof (submit_runs requests store t) as Hs. pose proof (accepted_keys requests store) as Hk.
  destruct (claim_all (map fst requests) store) as [answers claims].
  destruct (run_plans (map snd (accepted answers requests)) t) as [outcomes driven]. rewrite Hs.
  destruct Hk as [Hnd Hkeys]. cbn zeta. split_and!; [done|done|done|exact Hnd|exact Hkeys].
Qed.

(** a claimed key is refused. A request whose key was claimed before does
    not touch the transport, is refused, and leaves the key claimed. *)
Theorem claimed_key_refused store key plan (t : T) :
  claimed store key ->
  exists r store', execute_once_with_store (E := E) store key plan t = (r, (store', t)) /\
    refused r = true /\ claimed store' key.
Proof.
  intros Hc. destruct (execute_once_cases store key plan t) as (r & store' & t' & E1 & Hk & Hr).
  destruct Hr as [[Er ->]|(_ & Hn & _)]; [|done]. exists r, store'. auto.
Qed.
End AtMostOnce.

(** The in-process guard is the memory store. *)
Lemma guard_is_memory_store {T} `{Transport T, Clock T} guard key plan (t : T) :
  execute_once (E := Empty_set) guard key plan t =
  let '(r, (store, t)) := execute_once_with_store {| attempted := guard |} key plan t in
  (r, (attempted store, t)).
Proof.
  unfold execute_once, execute_once_with_store, claim. cbn. case_bool_decide; [|done].
  by destruct (execute plan t).
Qed.

Lemma claimed_key_refused_witness :
  exists r store', execute_once_with_store (E := Empty_set) {| attempted := {[ [107] ]} |} [107]
      demo_plan {| accepted_writes := 9 |} = (r, (store', {| accepted_writes := 9 |})) /\
    refused r = true.
Proof.
  destruct (claimed_key_refused (E := Empty_set) {| attempted := {[ [107] ]} |} [107] demo_plan
              {| accepted_writes := 9 |}) as (r & store' & E1 & Hr & _).
  - cbn. apply elem_of_singleton. reflexivity.
  - exists r, store'. exact (conj E1 Hr).
Defined.

(** Three requests, the second with the key of the first: two executions. *)
Definition demo_requests : list (list Z * Plan) := [([107], demo_plan); ([107], demo_plan); ([108], demo_plan)].

Example demo_answers : fst (claim_all (E := Empty_set) (map fst demo_requests) {| attempted := ∅ |}) = [Ok true; Ok false; Ok true].
Proof. by vm_compute. Qed.

Lemma submit_at_most_once_witness :
  let '(results, (store', t')) := submit (E := Empty_set) demo_requests {| attempted := ∅ |} {| accepted_writes := 9 |} in
  t' = snd (run_plans (E := Empty_set) [demo_plan; demo_plan] {| accepted_writes := 9 |}) /\
  map (refused ∘ snd) results = [false; true; false] /\ [107] ∈ attempted store'.
Proof.
  pose proof (submit_at_most_once (E := Empty_set) demo_requests {| attempted := ∅ |} {| accepted_writes := 9 |}) as H.
  assert (map (refused ∘ snd) (fst (submit (E := Empty_set) demo_requests {| attempted := ∅ |} {| accepted_writes := 9 |}))
    = [false; true; false]) as Hr by (by vm_compute).
  pose proof demo_answers as Ha.
  destruct (submit _ _ _) as [results [store' t']]. destruct (claim_all _ _) as [answers claims]. cbn [fst] in Hr, Ha. subst answers.
  cbv [accepted demo_requests zip zip_with omap list_omap map fst snd] in H.
  destruct (run_plans _ _) as [outcomes driven]. destruct H as (-> & _ & _ & _ & Hk).
  split_and!; [reflexivity|exact Hr|].
  apply (Hk [107]). by left.
Defined.
