(* ===== verification/Ipp.v ===== *)
(** The IPP message codec (crates/mb-printer-core/src/ipp.rs). *)

From stdpp Require Import base list strings numbers option.
From S2P Require Import Prelude Effects.

#[local] Open Scope Z_scope.

(** ** Constants and limits *)

Definition END_OF_ATTRIBUTES_TAG : Z := 3.
Definition OPERATION_ATTRIBUTES_TAG : Z := 1.
Definition JOB_ATTRIBUTES_TAG : Z := 2.
Definition PRINTER_ATTRIBUTES_TAG : Z := 4.
Definition UNSUPPORTED_ATTRIBUTES_TAG : Z := 5.
Definition GET_PRINTER_ATTRIBUTES : Z := 11.
Definition GET_PRINTER_SUPPORTED_VALUES : Z := 21.
Definition SET_PRINTER_ATTRIBUTES : Z := 19.

Record Limits := {
  max_message_bytes : Z;
  max_groups : Z;
  max_attributes : Z;
  max_values : Z;
  max_name_bytes : Z;
  max_value_bytes : Z;
  max_decoded_bytes : Z;
  max_collection_depth : Z;
  max_collection_members : Z;
}.

Definition Limits_default : Limits := {|
  max_message_bytes := 4 * 1024 * 1024;
  max_groups := 32;
  max_attributes := 4096;
  max_values := 16384;
  max_name_bytes := 1024;
  max_value_bytes := 1024 * 1024;
  max_decoded_bytes := 8 * 1024 * 1024;
  max_collection_depth := 16;
  max_collection_members := 4096;
|}.

(** ** Tags *)

Module ValueTag.
Inductive t :=
| Unsupported | Unknown | NoValue | NotSettable | DeleteAttribute | AdminDefine
| Integer | Boolean | Enum | OctetString | DateTime | Resolution | RangeOfInteger
| BegCollection | TextWithLanguage | NameWithLanguage | EndCollection
| TextWithoutLanguage | NameWithoutLanguage | Keyword | Uri | UriScheme | Charset
| NaturalLanguage | MimeMediaType | MemberAttrName
| Extension (tag : Z).

#[global] Instance eq_dec : EqDecision t.
Proof. solve_decision. Defined.

Definition from_byte (tag : Z) : t :=
  match tag with
  | 16 => Unsupported | 18 => Unknown | 19 => NoValue | 21 => NotSettable
  | 22 => DeleteAttribute | 23 => AdminDefine | 33 => Integer | 34 => Boolean
  | 35 => Enum | 48 => OctetString | 49 => DateTime | 50 => Resolution
  | 51 => RangeOfInteger | 52 => BegCollection | 53 => TextWithLanguage
  | 54 => NameWithLanguage | 55 => EndCollection | 65 => TextWithoutLanguage
  | 66 => NameWithoutLanguage | 68 => Keyword | 69 => Uri | 70 => UriScheme
  | 71 => Charset | 72 => NaturalLanguage | 73 => MimeMediaType
  | 74 => MemberAttrName
  | other => Extension other
  end.

Definition to_byte (tag : t) : Z :=
  match tag with
  | Unsupported => 16 | Unknown => 18 | NoValue => 19 | NotSettable => 21
  | DeleteAttribute => 22 | AdminDefine => 23 | Integer => 33 | Boolean => 34
  | Enum => 35 | OctetString => 48 | DateTime => 49 | Resolution => 50
  | RangeOfInteger => 51 | BegCollection => 52 | TextWithLanguage => 53
  | NameWithLanguage => 54 | EndCollection => 55 | TextWithoutLanguage => 65
  | NameWithoutLanguage => 66 | Keyword => 68 | Uri => 69 | UriScheme => 70
  | Charset => 71 | NaturalLanguage => 72 | MimeMediaType => 73
  | MemberAttrName => 74
  | Extension tag => tag
  end.

Definition is_out_of_band (tag : t) : bool :=
  match tag with
  | Unsupported | Unknown | NoValue | NotSettable | DeleteAttribute | AdminDefine => true
  | _ => false
  end.
End ValueTag.

(** ** Messages *)

Record Version := { major : Z; minor : Z }.

Definition V1_1 : Version := {| major := 1; minor := 1 |}.
Definition V2_0 : Version := {| major := 2; minor := 0 |}.

Inductive Value := mk_Value (v_tag : ValueTag.t) (v_data : ValueData)
with ValueData :=
| OutOfBand
| Integer (value : Z)
| Boolean (value : bool)
| Enum (value : Z)
| DateTime (value : list Z)
| Resolution (cross_feed feed units : Z)
| RangeOfInteger (lower upper : Z)
| Collection (members : list CollectionMember)
| Bytes (bytes : list Z)
with CollectionMember := mk_Member (cm_name : list Z) (cm_values : list Value).

Definition v_tag (v : Value) : ValueTag.t := let (tag, _) := v in tag.
Definition v_data (v : Value) : ValueData := let (_, d) := v in d.
Definition cm_name (m : CollectionMember) : list Z := let (name, _) := m in name.
Definition cm_values (m : CollectionMember) : list Value := let (_, values) := m in values.

Record Attribute := { a_name : list Z; a_values : list Value }.

Record AttributeGroup := { g_tag : Z; g_attributes : list Attribute }.

Record Message := {
  version : Version;
  code : Z;
  request_id : Z;
  groups : list AttributeGroup;
  original_bytes : list Z;
}.

Definition Message_new (version : Version) (code request_id : Z) : Message := {|
  version := version; code := code; request_id := request_id; groups := []; original_bytes := [];
|}.

Definition Attribute_new (name : list Z) (value : Value) : Attribute :=
  {| a_name := name; a_values := [value] |}.

Definition Value_raw (tag : ValueTag.t) (bytes : list Z) : Value := mk_Value tag (Bytes bytes).
Definition Value_integer (value : Z) : Value := mk_Value ValueTag.Integer (Integer value).
Definition Value_enum (value : Z) : Value := mk_Value ValueTag.Enum (Enum value).
Definition Value_boolean (value : bool) : Value := mk_Value ValueTag.Boolean (Boolean value).
Definition Value_collection (members : list CollectionMember) : Value :=
  mk_Value ValueTag.BegCollection (Collection members).

(** ** Requests *)

Definition get_printer_attributes_request (printer_uri : list Z)
    (requested_attributes : list (list Z)) (document_format : option (list Z))
    (request_id : Z) : Message :=
  let attributes := [
    Attribute_new (str "attributes-charset") (Value_raw ValueTag.Charset (str "utf-8"));
    Attribute_new (str "attributes-natural-language") (Value_raw ValueTag.NaturalLanguage (str "en"));
    Attribute_new (str "printer-uri") (Value_raw ValueTag.Uri printer_uri) ] in
  let attributes :=
    match document_format with
    | Some format =>
        attributes ++ [Attribute_new (str "document-format") (Value_raw ValueTag.MimeMediaType format)]
    | None => attributes
    end in
  let requested := map (Value_raw ValueTag.Keyword) requested_attributes in
  let attributes :=
    if bool_decide (requested = []) then attributes
    else attributes ++ [{| a_name := str "requested-attributes"; a_values := requested |}] in
  {| version := V2_0; code := GET_PRINTER_ATTRIBUTES; request_id := request_id;
     groups := [{| g_tag := OPERATION_ATTRIBUTES_TAG; g_attributes := attributes |}];
     original_bytes := [] |}.

Inductive SupportedValuesRequestError := InvalidRequestedAttribute | MissingRequestedAttribute.

(** [str::ends_with]. *)
Definition ends_with (suffix l : list Z) : bool := starts_with (reverse suffix) (reverse l).

Definition get_printer_supported_values_request (printer_uri : list Z)
    (requested_attributes : list (list Z)) (request_id : Z) :
    Result SupportedValuesRequestError Message :=
  if bool_decide (requested_attributes = []) then Err MissingRequestedAttribute
  else if existsb (fun a => negb (ends_with (str "-supported") a) || bool_decide (a = str "all"))
            requested_attributes
  then Err InvalidRequestedAttribute
  else
    let request := get_printer_attributes_request printer_uri requested_attributes None request_id in
    Ok {| version := version request; code := GET_PRINTER_SUPPORTED_VALUES;
          request_id := request_id; groups := groups request;
          original_bytes := original_bytes request |}.

(** ** Errors and counters *)

Module DecodeError.
Inductive t :=
| InvalidLimits
| MessageTooLarge (actual limit : Z)
| Truncated (offset needed : Z)
| MissingGroup (offset tag : Z)
| EndInsideCollection (offset : Z)
| MissingRepeatedAttribute (offset : Z)
| IllegalTag (offset tag : Z) (reason : string)
| InvalidValue (offset tag : Z) (reason : string)
| Limit (kind : string) (actual limit : Z)
| TrailingBytes (offset : Z)
| MissingEndOfAttributes.
End DecodeError.

Module EncodeError.
Inductive t :=
| InvalidLimits
| InvalidStructure (what : string)
| Limit (kind : string) (actual limit : Z)
| WireLengthOverflow
| TagDataMismatch (tag : Z).
End EncodeError.

Definition limits_invalid (l : Limits) : bool :=
  (max_message_bytes l <? 8) || (max_groups l =? 0) || (max_attributes l =? 0) ||
  (max_values l =? 0) || (max_name_bytes l =? 0) || (max_value_bytes l =? 0) ||
  (max_decoded_bytes l =? 0) || (max_collection_depth l =? 0) || (max_collection_members l =? 0).

Definition Limits_validate (l : Limits) : Result DecodeError.t Limits :=
  if limits_invalid l then Err DecodeError.InvalidLimits else Ok l.

Record Counters := {
  n_groups : Z;
  n_attributes : Z;
  n_values : Z;
  n_members : Z;
  n_decoded : Z;
}.

Definition Counters_default : Counters :=
  {| n_groups := 0; n_attributes := 0; n_values := 0; n_members := 0; n_decoded := 0 |}.

(** The counter a limit is named after. *)
Definition counter (kind : string) (c : Counters) : Z :=
  if String.eqb kind "groups" then n_groups c
  else if String.eqb kind "attributes" then n_attributes c
  else if String.eqb kind "values" then n_values c
  else if String.eqb kind "collection members" then n_members c
  else if String.eqb kind "decoded bytes" then n_decoded c
  else 0.

(** [counter += n]. *)
Definition count (kind : string) (n : Z) (c : Counters) : Counters := {|
  n_groups := n_groups c + (if String.eqb kind "groups" then n else 0);
  n_attributes := n_attributes c + (if String.eqb kind "attributes" then n else 0);
  n_values := n_values c + (if String.eqb kind "values" then n else 0);
  n_members := n_members c + (if String.eqb kind "collection members" then n else 0);
  n_decoded := n_decoded c + (if String.eqb kind "decoded bytes" then n else 0);
|}.

Definition is_delimiter_tag (tag : Z) : bool :=
  (1 <=? tag) && (tag <=? 15) && negb (tag =? END_OF_ATTRIBUTES_TAG).

Definition tag_is (tag expected : ValueTag.t) : bool := bool_decide (tag = expected).

(** [i32::from_be_bytes]. *)
Definition i32_of (bytes : list Z) : Z := to_signed 4 (of_be_bytes bytes).

(** ** Decoding *)

Definition exact_i32 (raw : list Z) (tag : ValueTag.t) (offset : Z) : Result DecodeError.t Z :=
  if negb (zlen raw =? 4)
  then Err (DecodeError.InvalidValue offset (ValueTag.to_byte tag)
              "integer and enum values must be exactly 4 bytes")
  else Ok (i32_of raw).

Definition slice (l : list Z) (start stop : nat) : list Z := take (stop - start) (drop start l).

Definition decode_scalar (tag : ValueTag.t) (raw : list Z) (offset : Z) :
    Result DecodeError.t ValueData :=
  let invalid reason := DecodeError.InvalidValue offset (ValueTag.to_byte tag) reason in
  if ValueTag.is_out_of_band tag then
    if negb (zlen raw =? 0) then Err (invalid "out-of-band value must be empty") else Ok OutOfBand
  else
    match tag with
    | ValueTag.Integer => let? v := exact_i32 raw tag offset in Ok (Integer v)
    | ValueTag.Enum => let? v := exact_i32 raw tag offset in Ok (Enum v)
    | ValueTag.Boolean =>
        match raw with
        | [0] => Ok (Boolean false)
        | [1] => Ok (Boolean true)
        | _ => Err (invalid "boolean must be exactly one byte containing zero or one")
        end
    | ValueTag.DateTime =>
        if zlen raw =? 11 then Ok (DateTime raw) else Err (invalid "dateTime must be exactly 11 bytes")
    | ValueTag.Resolution =>
        if zlen raw =? 9
        then Ok (Resolution (i32_of (slice raw 0 4)) (i32_of (slice raw 4 8)) (nth 8 raw 0))
        else Err (invalid "resolution must be exactly 9 bytes")
    | ValueTag.RangeOfInteger =>
        if zlen raw =? 8
        then Ok (RangeOfInteger (i32_of (slice raw 0 4)) (i32_of (slice raw 4 8)))
        else Err (invalid "rangeOfInteger must be exactly 8 bytes")
    | ValueTag.BegCollection => Err (invalid "nested collection was not decoded")
    | _ => Ok (Bytes raw)
    end.

Record Decoder := { offset : Z; counters : Counters }.

(** [slice.last_mut()] followed by an update in place. *)
Fixpoint update_last {A} (f : A -> A) (l : list A) : option (list A) :=
  match l with
  | [] => None
  | [x] => Some [f x]
  | x :: l => cons x <$> update_last f l
  end.

Definition push_value (value : Value) (a : Attribute) : Attribute :=
  {| a_name := a_name a; a_values := a_values a ++ [value] |}.

Definition push_member_value (value : Value) (m : CollectionMember) : CollectionMember :=
  mk_Member (cm_name m) (cm_values m ++ [value]).

Section Decoding.
Variable input : list Z.
Variable limits : Limits.

#[local] Abbreviation Dec := (EM Decoder DecodeError.t).

Definition get_offset : Dec Z := fun d => (Ok (offset d), d).

Definition set_offset (n : Z) : Dec unit :=
  emodify (fun d => {| offset := n; counters := counters d |}).

Definition add_count (kind : string) (n : Z) : Dec unit :=
  emodify (fun d => {| offset := offset d; counters := count kind n (counters d) |}).

Definition byte : Dec Z :=
  let! at_ := get_offset in
  let! b := eresult (ok_or (input !! Z.to_nat at_) (DecodeError.Truncated at_ 1)) in
  set_offset (at_ + 1) ;! eret b.

Definition peek : Dec Z :=
  let! at_ := get_offset in
  eresult (ok_or (input !! Z.to_nat at_) DecodeError.MissingEndOfAttributes).

Definition take_bytes (length : Z) : Dec (list Z) :=
  let! at_ := get_offset in
  let! end_ :=
    eresult (ok_or (checked usize_max (at_ + length)) (DecodeError.Truncated at_ length)) in
  let! bytes :=
    eresult (ok_or (get_range input at_ end_)
                   (DecodeError.Truncated at_ (saturate usize_max (end_ - zlen input)))) in
  set_offset end_ ;! eret bytes.

Definition read_u16 : Dec Z := let! bytes := take_bytes 2 in eret (of_be_bytes bytes).
Definition read_u32 : Dec Z := let! bytes := take_bytes 4 in eret (of_be_bytes bytes).

Definition bump (kind : string) (add limit : Z) : Dec unit := fun d =>
  let actual := saturate usize_max (counter kind (counters d) + add) in
  if limit <? actual then (fail (DecodeError.Limit kind actual limit), d) else (Ok tt, d).

Definition add_decoded_bytes (length : Z) : Dec unit :=
  bump "decoded bytes" length (max_decoded_bytes limits) ;! add_count "decoded bytes" length.
Definition add_attribute : Dec unit :=
  bump "attributes" 1 (max_attributes limits) ;! add_count "attributes" 1.
Definition add_value : Dec unit :=
  bump "values" 1 (max_values limits) ;! add_count "values" 1.

(** The wire part of an entry: tag, name and raw value. *)
Definition entry : Dec (ValueTag.t * list Z * list Z) :=
  let! tag_byte := byte in
  let tag := ValueTag.from_byte tag_byte in
  let! name_length := read_u16 in
  ecase (max_name_bytes limits <? name_length)
    (DecodeError.Limit "name bytes" name_length (max_name_bytes limits))
  (let! name := take_bytes name_length in
   add_decoded_bytes name_length ;!
   let! value_length := read_u16 in
   ecase (max_value_bytes limits <? value_length)
     (DecodeError.Limit "value bytes" value_length (max_value_bytes limits))
   (let! raw := take_bytes value_length in
    add_decoded_bytes value_length ;!
    add_value ;!
    eret (tag, name, raw))).

(** The data of an entry; [members] decodes a collection at a depth. *)
Definition value_data (members : Z -> Dec (list CollectionMember)) (collection_depth entry_offset : Z)
    (tag : ValueTag.t) (raw : list Z) : Dec ValueData :=
  if tag_is tag ValueTag.BegCollection then
    ecase (negb (zlen raw =? 0))
      (DecodeError.InvalidValue entry_offset (ValueTag.to_byte tag)
         "begCollection must have an empty value")
    (let depth := collection_depth + 1 in
     ecase (max_collection_depth limits <? depth)
       (DecodeError.Limit "collection depth" depth (max_collection_depth limits))
     (let! ms := members depth in eret (Collection ms)))
  else eresult (decode_scalar tag raw entry_offset).

(** What a collection does with an entry; [continue_] is the next iteration. *)
Definition member_step (continue_ : list CollectionMember -> Dec (list CollectionMember))
    (members : list CollectionMember) (entry_offset : Z) (item : ValueTag.t * list Z * Value) :
    Dec (list CollectionMember) :=
  match item with
  | (tag, wire_name, value) =>
      let invalid reason := DecodeError.InvalidValue entry_offset (ValueTag.to_byte tag) reason in
      ecase (negb (zlen wire_name =? 0)) (invalid "collection entries must have empty wire names")
      match tag with
      | ValueTag.EndCollection =>
          match v_data value with
          | Bytes [] => eret members
          | _ => ethrow (invalid "endCollection must have an empty value")
          end
      | ValueTag.MemberAttrName =>
          match v_data value with
          | Bytes member_name =>
              ecase (zlen member_name =? 0) (invalid "memberAttrName cannot be empty")
              (ecase (max_name_bytes limits <? zlen member_name)
                 (DecodeError.Limit "name bytes" (zlen member_name) (max_name_bytes limits))
               (bump "collection members" 1 (max_collection_members limits) ;!
                add_count "collection members" 1 ;!
                add_attribute ;!
                continue_ (members ++ [mk_Member member_name []])))
          | _ => epanic
          end
      | _ =>
          let! members :=
            eresult (ok_or (update_last (push_member_value value) members)
                           (invalid "member value precedes memberAttrName")) in
          continue_ members
      end
  end.

(** Recursion consumes [fuel]: an entry and a step of a collection take one
    each, and running out is a panic, as is the source's [unreachable!].
    [decode_never_panics] shows that twice the input length is enough. *)
Fixpoint attribute_value (fuel : nat) (collection_depth : Z) : Dec (ValueTag.t * list Z * Value) :=
  match fuel with
  | O => epanic
  | S fuel =>
      let! entry_offset := get_offset in
      let! wire := entry in
      match wire with
      | (tag, name, raw) =>
          let! data :=
            value_data (fun depth => collection fuel depth []) collection_depth entry_offset tag raw in
          eret (tag, name, mk_Value tag data)
      end
  end
with collection (fuel : nat) (depth : Z) (members : list CollectionMember) :
    Dec (list CollectionMember) :=
  match fuel with
  | O => epanic
  | S fuel =>
      let! entry_offset := get_offset in
      let! next := peek in
      ecase (next =? END_OF_ATTRIBUTES_TAG) (DecodeError.EndInsideCollection entry_offset)
      (ecase (is_delimiter_tag next)
         (DecodeError.IllegalTag entry_offset next "attribute group delimiter inside a collection")
       (let! item := attribute_value fuel depth in
        member_step (fun members => collection fuel depth members) members entry_offset item))
  end.

Definition control_tag (tag : ValueTag.t) : bool :=
  tag_is tag ValueTag.MemberAttrName || tag_is tag ValueTag.EndCollection.

(** The attributes of one group: the [while] loop of [decode]. *)
Fixpoint group_attributes (fuel : nat) (attributes : list Attribute) : Dec (list Attribute) :=
  match fuel with
  | O => epanic
  | S fuel =>
      let! at_ := get_offset in
      if zlen input <=? at_ then eret attributes
      else
        let! next := peek in
        if (next =? END_OF_ATTRIBUTES_TAG) || is_delimiter_tag next then eret attributes
        else
          let! entry_offset := get_offset in
          let! item := attribute_value fuel 0 in
          match item with
          | (value_tag, name, value) =>
              let! attributes :=
                if zlen name =? 0 then
                  eresult (ok_or (update_last (push_value value) attributes)
                                 (DecodeError.MissingRepeatedAttribute entry_offset))
                else
                  add_attribute ;!
                  eret (attributes ++ [Attribute_new name value]) in
              ecase (control_tag value_tag)
                (DecodeError.IllegalTag entry_offset (ValueTag.to_byte value_tag)
                   "collection control tag outside a collection")
              (group_attributes fuel attributes)
          end
  end.

(** [byte()] where running out means a missing end marker. *)
Definition marker : Dec Z := fun d =>
  match byte d with
  | (Err (Raised (DecodeError.Truncated _ _)), d) => (fail DecodeError.MissingEndOfAttributes, d)
  | r => r
  end.

Fixpoint message_groups (fuel : nat) (groups : list AttributeGroup) : Dec (list AttributeGroup) :=
  match fuel with
  | O => epanic
  | S fuel =>
      let! marker_offset := get_offset in
      let! tag := marker in
      if tag =? END_OF_ATTRIBUTES_TAG then
        let! at_ := get_offset in
        ecase (negb (at_ =? zlen input)) (DecodeError.TrailingBytes at_) (eret groups)
      else
        ecase (negb (is_delimiter_tag tag)) (DecodeError.MissingGroup marker_offset tag)
        (bump "groups" 1 (max_groups limits) ;!
         add_count "groups" 1 ;!
         let! attributes := group_attributes fuel [] in
         message_groups fuel (groups ++ [{| g_tag := tag; g_attributes := attributes |}]))
  end.

Definition decoder : Dec Message :=
  let! major := byte in
  let! minor := byte in
  let! code := read_u16 in
  let! request_id := read_u32 in
  let! groups := message_groups (2 * length input + 2) [] in
  eret {| version := {| major := major; minor := minor |}; code := code; request_id := request_id;
          groups := groups; original_bytes := input |}.
End Decoding.

Definition decode (input : list Z) (limits : Limits) : Result (Fault DecodeError.t) Message :=
  let? limits := raising (Limits_validate limits) in
  if max_message_bytes limits <? zlen input
  then fail (DecodeError.MessageTooLarge (zlen input) (max_message_bytes limits))
  else fst (decoder input limits {| offset := 0; counters := Counters_default |}).

(** ** Encoding *)

Definition encode_scalar (value : Value) : Result EncodeError.t (list Z) :=
  let mismatch := EncodeError.TagDataMismatch (ValueTag.to_byte (v_tag value)) in
  let tag := v_tag value in
  match v_data value with
  | OutOfBand => if ValueTag.is_out_of_band tag then Ok [] else Err mismatch
  | Integer z => if tag_is tag ValueTag.Integer then Ok (to_be_bytes 4 z) else Err mismatch
  | Enum z => if tag_is tag ValueTag.Enum then Ok (to_be_bytes 4 z) else Err mismatch
  | Boolean b => if tag_is tag ValueTag.Boolean then Ok [if b then 1 else 0] else Err mismatch
  | DateTime bytes => if tag_is tag ValueTag.DateTime then Ok bytes else Err mismatch
  | Resolution cross_feed feed units =>
      if tag_is tag ValueTag.Resolution
      then Ok (to_be_bytes 4 cross_feed ++ to_be_bytes 4 feed ++ [units]) else Err mismatch
  | RangeOfInteger lower upper =>
      if tag_is tag ValueTag.RangeOfInteger
      then Ok (to_be_bytes 4 lower ++ to_be_bytes 4 upper) else Err mismatch
  | Bytes bytes =>
      if negb (ValueTag.is_out_of_band tag) &&
         negb (existsb (tag_is tag)
                 [ValueTag.Integer; ValueTag.Boolean; ValueTag.Enum; ValueTag.DateTime;
                  ValueTag.Resolution; ValueTag.RangeOfInteger; ValueTag.BegCollection])
      then Ok bytes else Err mismatch
  | Collection _ => Err mismatch
  end.

Record Encoder := { output : list Z; e_counters : Counters }.

Section Encoding.
Variable limits : Limits.

#[local] Abbreviation Enc := (EM Encoder EncodeError.t).

Definition add_output (length : Z) : Enc unit := fun e =>
  let actual := saturate usize_max (zlen (output e) + length) in
  if max_message_bytes limits <? actual
  then (fail (EncodeError.Limit "message bytes" actual (max_message_bytes limits)), e)
  else (Ok tt, e).

Definition append (bytes : list Z) : Enc unit :=
  emodify (fun e => {| output := output e ++ bytes; e_counters := e_counters e |}).

Definition push (byte : Z) : Enc unit := add_output 1 ;! append [byte].
Definition extend (bytes : list Z) : Enc unit := add_output (zlen bytes) ;! append bytes.

(** The [add] check followed by the update its callers make. *)
Definition enc_add (kind : string) (add limit : Z) : Enc unit := fun e =>
  let actual := saturate usize_max (counter kind (e_counters e) + add) in
  if limit <? actual then (fail (EncodeError.Limit kind actual limit), e) else (Ok tt, e).

Definition enc_count (kind : string) (n : Z) : Enc unit :=
  emodify (fun e => {| output := output e; e_counters := count kind n (e_counters e) |}).

Definition enc_bump (kind : string) (n limit : Z) : Enc unit :=
  enc_add kind n limit ;! enc_count kind n.

Definition decoded_bytes (length : Z) : Enc unit :=
  enc_bump "decoded bytes" length (max_decoded_bytes limits).

Definition wire_bytes (bytes : list Z) : Enc unit :=
  ecase (u16_max <? zlen bytes) EncodeError.WireLengthOverflow
  (ecase (max_value_bytes limits <? zlen bytes)
     (EncodeError.Limit "value bytes" (zlen bytes) (max_value_bytes limits))
   (decoded_bytes (zlen bytes) ;!
    extend (to_be_bytes 2 (as_u16 (zlen bytes))) ;!
    extend bytes)).

Definition control (tag : ValueTag.t) (bytes : list Z) : Enc unit :=
  enc_bump "values" 1 (max_values limits) ;!
  push (ValueTag.to_byte tag) ;!
  wire_bytes [] ;!
  wire_bytes bytes.

Definition check_name (name : list Z) : Enc unit :=
  ecase (max_name_bytes limits <? zlen name)
    (EncodeError.Limit "name bytes" (zlen name) (max_name_bytes limits)) (eret tt).

Fixpoint encode_value (name : list Z) (value : Value) (depth : Z) : Enc unit :=
  enc_bump "values" 1 (max_values limits) ;!
  push (ValueTag.to_byte (v_tag value)) ;!
  wire_bytes name ;!
  match value with
  | mk_Value ValueTag.BegCollection (Collection members) =>
      ecase (max_collection_depth limits <? depth + 1)
        (EncodeError.Limit "collection depth" (depth + 1) (max_collection_depth limits))
      (wire_bytes [] ;!
       efor (fun m =>
         match m with
         | mk_Member member_name values =>
             ecase (bool_decide (member_name = []) || bool_decide (length values = 0%nat))
               (EncodeError.InvalidStructure
                  "collection members require a name and at least one value")
             (enc_bump "collection members" 1 (max_collection_members limits) ;!
              enc_bump "attributes" 1 (max_attributes limits) ;!
              check_name member_name ;!
              control ValueTag.MemberAttrName member_name ;!
              efor (fun v => encode_value [] v (depth + 1)) values)
         end) members ;!
       control ValueTag.EndCollection [])
  | value =>
      let! encoded := eresult (encode_scalar value) in
      wire_bytes encoded
  end.

Fixpoint encode_values (name : list Z) (values : list Value) (depth : Z) : Enc unit :=
  match values with
  | [] => eret tt
  | value :: values => encode_value name value depth ;! encode_values [] values depth
  end.

Definition encode_attribute (attribute : Attribute) (depth : Z) : Enc unit :=
  ecase (bool_decide (a_name attribute = []) || bool_decide (length (a_values attribute) = 0%nat))
    (EncodeError.InvalidStructure "attributes require a non-empty name and at least one value")
  (enc_bump "attributes" 1 (max_attributes limits) ;!
   check_name (a_name attribute) ;!
   encode_values (a_name attribute) (a_values attribute) depth).

Definition encode_group (group : AttributeGroup) : Enc unit :=
  ecase (negb (is_delimiter_tag (g_tag group)))
    (EncodeError.InvalidStructure "attribute group has an invalid delimiter tag")
  (enc_bump "groups" 1 (max_groups limits) ;!
   push (g_tag group) ;!
   efor (fun a => encode_attribute a 0) (g_attributes group)).

Definition encoder (message : Message) : Enc unit :=
  push (major (version message)) ;!
  push (minor (version message)) ;!
  extend (to_be_bytes 2 (code message)) ;!
  extend (to_be_bytes 4 (request_id message)) ;!
  efor encode_group (groups message) ;!
  push END_OF_ATTRIBUTES_TAG.
End Encoding.

Definition encode (message : Message) (limits : Limits) : Result (Fault EncodeError.t) (list Z) :=
  let? limits := raising (map_err (fun _ => EncodeError.InvalidLimits) (Limits_validate limits)) in
  match encoder limits message {| output := []; e_counters := Counters_default |} with
  | (Ok _, e) => Ok (output e)
  | (Err x, _) => Err x
  end.
