(* ===== verification/IppFacts.v ===== *)
(** The IPP codec is total and faithful (crates/mb-printer-core/src/ipp.rs):
    decoding never panics, and it is the inverse of encoding. *)

From stdpp Require Import base list list_numbers strings numbers option.
From S2P Require Import Prelude Effects Ipp.

#[local] Open Scope Z_scope.

(** ** Tags *)

Lemma from_byte_Extension b t : ValueTag.from_byte b = ValueTag.Extension t -> t = b.
Proof.
  unfold ValueTag.from_byte. intros E. repeat (case_match; try discriminate E); by injection E as <-.
Qed.

(** tags. Reading a wire tag and writing it back is the identity on bytes;
    writing and reading back is the identity on every tag but an [Extension]
    that carries the byte of a known tag. *)
Theorem value_tag_roundtrip b tag :
  ValueTag.to_byte (ValueTag.from_byte b) = b /\
  (ValueTag.from_byte (ValueTag.to_byte tag) = tag <->
   forall t, tag = ValueTag.Extension t -> ValueTag.from_byte t = ValueTag.Extension t).
Proof.
  split.
  - destruct (ValueTag.from_byte b) as [] eqn:E; try (apply from_byte_Extension in E; by subst).
    all: revert E; unfold ValueTag.from_byte; cbn [ValueTag.to_byte].
    all: repeat (case_match; try discriminate); done.
  - split.
    + intros E t ->. exact E.
    + intros Ht. destruct tag; try reflexivity. by apply Ht.
Qed.

(** ** Decoding is total *)

Definition rem (input : list Z) (d : Decoder) : Z := zlen input - offset d.

(** From [d], [m] returns a result in [Q] or raises an error; it does not
    panic, so in particular its fuel is enough. *)
Definition safe {A} (m : EM Decoder DecodeError.t A) (d : Decoder) (Q : A -> Decoder -> Prop) : Prop :=
  spec m d Q (fun e _ => e <> Panicked).

Section Safety.
Variable input : list Z.
Variable limits : Limits.
Hypothesis input_bytes : bytes_ok input.

Definition in_input (d : Decoder) : Prop := 0 <= offset d <= zlen input.

Lemma safe_bind {A B} (m : EM _ _ A) (k : A -> EM _ _ B) d Q :
  safe m d (fun a d' => safe (k a) d' Q) -> safe (ebind m k) d Q.
Proof. apply spec_bind. Qed.

Lemma safe_mono {A} (m : EM _ _ A) d (Q Q' : A -> Decoder -> Prop) :
  safe m d Q -> (forall a d', Q a d' -> Q' a d') -> safe m d Q'.
Proof. intros Hm HQ. by eapply spec_mono. Qed.

Lemma safe_case {A} b e (k : EM _ _ A) d Q : (b = false -> safe k d Q) -> safe (ecase b e k) d Q.
Proof. destruct b; [done|auto]. Qed.

Lemma safe_result {A} (r : Result _ A) d (Q : A -> Decoder -> Prop) :
  (forall a, r = Ok a -> Q a d) -> safe (eresult r) d Q.
Proof. intros Hr. by apply spec_result. Qed.

(** [m] consumes at least [n] bytes of the input and returns a value in [P]. *)
Definition consumes {A} (n : Z) (P : A -> Prop) (a : A) (d d' : Decoder) : Prop :=
  P a /\ in_input d' /\ rem input d' + n <= rem input d.

Lemma byte_safe d : in_input d -> safe (byte input) d (fun b d' => consumes 1 byte_ok b d d').
Proof.
  intros Hd. unfold byte. apply safe_bind. cbn. apply safe_bind, safe_result. intros b Hb.
  apply ok_or_Ok in Hb. unfold safe, spec, ebind, set_offset, emodify. cbn.
  pose proof (lookup_lt_Some _ _ _ Hb). unfold consumes, in_input, rem, zlen in *. cbn.
  split; [|lia]. by eapply (Forall_lookup_1 byte_ok).
Qed.

Lemma take_safe n d :
  in_input d -> 0 <= n ->
  safe (take_bytes input n) d (fun l d' => consumes n (fun l => zlen l = n /\ bytes_ok l) l d d').
Proof.
  intros Hd Hn. unfold take_bytes. apply safe_bind. cbn. apply safe_bind, safe_result.
  intros e He. apply ok_or_Ok, checked_Some in He as [_ ->].
  apply safe_bind, safe_result. intros l Hl. apply ok_or_Ok in Hl.
  unfold get_range in Hl. destruct (_ && _) eqn:Hc; [|done]. injection Hl as <-.
  apply andb_true_iff in Hc as [Hc1 Hc2]. unfold safe, spec, ebind, set_offset, emodify. cbn.
  unfold consumes, in_input, rem, zlen in *. cbn. split; [|lia]. split.
  - rewrite length_take, length_drop. lia.
  - by apply Forall_take, Forall_drop.
Qed.

Lemma u16_safe d :
  in_input d -> safe (read_u16 input) d (fun n d' => consumes 2 (fun n => 0 <= n) n d d').
Proof.
  intros Hd. apply safe_bind. eapply safe_mono; [by apply take_safe|].
  intros l d' ([Hl Hb] & Hc). split; [|done]. pose proof (of_be_bytes_bound l Hb). lia.
Qed.

Lemma bump_safe kind n limit d (Q : unit -> Decoder -> Prop) :
  Q tt d -> safe (bump kind n limit) d Q.
Proof. intros HQ. unfold safe, spec, bump. destruct (limit <? _); [discriminate|exact HQ]. Qed.

Lemma count_safe kind n d (Q : unit -> Decoder -> Prop) :
  (forall c, Q tt {| offset := offset d; counters := c |}) -> safe (add_count kind n) d Q.
Proof. intros HQ. apply HQ. Qed.

Lemma bump_count_safe kind n limit k d (Q : unit -> Decoder -> Prop) :
  (forall c, Q tt {| offset := offset d; counters := c |}) ->
  safe (bump kind n limit ;! add_count kind k) d Q.
Proof. intros HQ. apply safe_bind, bump_safe. by apply count_safe. Qed.

Lemma entry_safe d :
  in_input d ->
  safe (entry input limits) d (fun w d' => consumes 5 (fun w => bytes_ok (snd w)) w d d').
Proof.
  intros Hd. apply safe_bind. eapply safe_mono; [by apply byte_safe|]. intros b d1 (_ & H1 & R1).
  apply safe_bind. eapply safe_mono; [by apply u16_safe|]. intros n d2 (Hn & H2 & R2).
  apply safe_case. intros _. apply safe_bind. eapply safe_mono; [by apply take_safe|].
  intros name d3 (_ & H3 & R3). apply safe_bind, bump_count_safe. intros c3.
  apply safe_bind. eapply safe_mono; [by apply u16_safe|]. intros n' d4 (Hn' & H4 & R4).
  apply safe_case. intros _. apply safe_bind. eapply safe_mono; [by apply take_safe|].
  intros raw d5 ([_ Hraw] & H5 & R5). apply safe_bind, bump_count_safe. intros c5.
  apply safe_bind, bump_count_safe. intros c6.
  unfold consumes, in_input, rem in *. cbn in *. split; [done|]. lia.
Qed.

Lemma attribute_value_S fuel depth :
  attribute_value input limits (S fuel) depth =
  (let! entry_offset := get_offset in
   let! wire := entry input limits in
   match wire with
   | (tag, name, raw) =>
       let! data := value_data limits (fun depth => collection input limits fuel depth [])
                      depth entry_offset tag raw in
       eret (tag, name, mk_Value tag data)
   end).
Proof. reflexivity. Qed.

Lemma collection_S fuel depth members :
  collection input limits (S fuel) depth members =
  (let! entry_offset := get_offset in
   let! next := peek input in
   ecase (next =? END_OF_ATTRIBUTES_TAG) (DecodeError.EndInsideCollection entry_offset)
   (ecase (is_delimiter_tag next)
      (DecodeError.IllegalTag entry_offset next "attribute group delimiter inside a collection")
    (let! item := attribute_value input limits fuel depth in
     member_step limits (fun members => collection input limits fuel depth members)
       members entry_offset item))).
Proof. reflexivity. Qed.

Lemma safe_get_offset d (Q : Z -> Decoder -> Prop) : Q (offset d) d -> safe get_offset d Q.
Proof. done. Qed.

Lemma safe_peek d (Q : Z -> Decoder -> Prop) : (forall b, Q b d) -> safe (peek input) d Q.
Proof. intros HQ. apply safe_bind, safe_get_offset, safe_result. auto. Qed.

(** A member name decodes as bytes: the [unreachable!] of the source. *)
Lemma decode_member_name raw off :
  decode_scalar ValueTag.MemberAttrName raw off = Ok (Bytes raw).
Proof. reflexivity. Qed.

Definition named_member (item : ValueTag.t * list Z * Value) : Prop :=
  fst (fst item) = ValueTag.MemberAttrName -> exists b, v_data (snd item) = Bytes b.

Lemma collections_safe fuel :
  (forall depth d, in_input d -> 2 * rem input d + 1 <= Z.of_nat fuel ->
     safe (attribute_value input limits fuel depth) d
       (fun item d' => consumes 5 named_member item d d')) /\
  (forall depth members d, in_input d -> 2 * rem input d + 2 <= Z.of_nat fuel ->
     safe (collection input limits fuel depth members) d
       (fun ms d' => consumes 0 (fun _ => True) ms d d')).
Proof.
  induction fuel as [|fuel [IHa IHc]].
  { split; intros; unfold in_input, rem in *; lia. }
  split.
  - intros depth d Hd Hf. rewrite attribute_value_S. apply safe_bind, safe_get_offset.
    apply safe_bind. eapply safe_mono; [by apply entry_safe|].
    intros [[tag name] raw] d1 (_ & H1 & R1). apply safe_bind.
    unfold value_data. destruct (tag_is tag ValueTag.BegCollection) eqn:Et.
    + apply safe_case. intros _. apply safe_case. intros _. apply safe_bind.
      eapply safe_mono; [apply IHc; [done|lia]|]. intros ms d2 (_ & H2 & R2).
      unfold consumes in *. cbn. split; [|split; [done|lia]].
      unfold named_member. cbn [fst snd]. intros ->. by apply bool_decide_eq_true in Et.
    + apply safe_result. intros data Hdata. split; [|done].
      unfold named_member. cbn [fst snd]. intros ->. cbn in Hdata. injection Hdata as <-. by eexists.
  - intros depth members d Hd Hf. rewrite collection_S. apply safe_bind, safe_get_offset.
    apply safe_bind, safe_peek. intros next.
    apply safe_case. intros _. apply safe_case. intros _. apply safe_bind.
    eapply safe_mono; [apply IHa; [done|lia]|]. intros [[tag name] value] d1 (Hm & H1 & R1).
    unfold member_step. apply safe_case. intros _.
    assert (forall ms d2, in_input d2 -> rem input d2 <= rem input d1 ->
      safe (collection input limits fuel depth ms) d2
        (fun ms' d' => consumes 0 (fun _ => True) ms' d d')) as Hloop.
    { intros ms d2 H2 R2. eapply safe_mono; [apply IHc; [done|lia]|].
      intros ms' d3 (_ & H3 & R3). split; [done|]. split; [done|]. lia. }
    assert (safe (let! members := eresult (ok_or (update_last (push_member_value value) members)
               (DecodeError.InvalidValue (offset d) (ValueTag.to_byte tag)
                  "member value precedes memberAttrName")) in
             collection input limits fuel depth members) d1
             (fun ms' d' => consumes 0 (fun _ => True) ms' d d')) as Hpush.
    { apply safe_bind, safe_result. intros ms _. by apply Hloop. }
    assert (consumes 0 (fun _ => True) members d d1) as Hdone by (split; [done|split; [done|lia]]).
    destruct tag; try exact Hpush.
    + destruct (v_data value) as [| | | | | | | |[]]; try discriminate. exact Hdone.
    + destruct (Hm eq_refl) as [b Hb]. cbn in Hb. rewrite Hb.
      apply safe_case. intros _. apply safe_case. intros _.
      apply safe_bind, bump_safe, safe_bind, count_safe. intros c1.
      apply safe_bind, bump_count_safe. intros c2. apply Hloop; [exact H1|].
      unfold rem. cbn. lia.
Qed.

Lemma group_attributes_safe fuel attributes d :
  in_input d -> 2 * rem input d + 2 <= Z.of_nat fuel ->
  safe (group_attributes input limits fuel attributes) d
    (fun l d' => consumes 0 (fun _ => True) l d d').
Proof.
  revert attributes d. induction fuel as [|fuel IH]; intros attributes d Hd Hf.
  { unfold in_input, rem in *; lia. }
  cbn [group_attributes]. apply safe_bind, safe_get_offset.
  assert (consumes 0 (fun _ => True) attributes d d) as Hdone by (split; [done|split; [done|lia]]).
  destruct (zlen input <=? offset d); [exact Hdone|].
  apply safe_bind, safe_peek. intros next.
  destruct (_ || _); [exact Hdone|]. apply safe_bind, safe_get_offset.
  apply safe_bind. eapply safe_mono; [apply (proj1 (collections_safe fuel)); [done|lia]|].
  intros [[tag name] value] d1 (_ & H1 & R1).
  assert (forall l d2, in_input d2 -> rem input d2 <= rem input d1 ->
    safe (ecase (control_tag tag) (DecodeError.IllegalTag (offset d) (ValueTag.to_byte tag)
             "collection control tag outside a collection")
           (group_attributes input limits fuel l)) d2
      (fun l' d' => consumes 0 (fun _ => True) l' d d')) as Hloop.
  { intros l d2 H2 R2. apply safe_case. intros _.
    eapply safe_mono; [apply IH; [done|lia]|]. intros l' d3 (_ & H3 & R3).
    split; [done|]. split; [done|]. lia. }
  apply safe_bind. destruct (zlen name =? 0).
  - apply safe_result. intros l _. by apply Hloop.
  - apply safe_bind, bump_count_safe. intros c. apply Hloop; [exact H1|]. unfold rem. cbn. lia.
Qed.

Lemma marker_safe d :
  in_input d -> safe (marker input) d (fun b d' => consumes 1 (fun _ => True) b d d').
Proof.
  intros Hd. pose proof (byte_safe d Hd) as Hb. unfold safe, spec, marker in *.
  destruct (byte input d) as [[b|[e|]] d']; [|by destruct e|done].
  destruct Hb as (_ & H1 & R1). by split.
Qed.

Lemma message_groups_safe fuel groups d :
  in_input d -> 2 * rem input d + 1 <= Z.of_nat fuel ->
  safe (message_groups input limits fuel groups) d (fun _ _ => True).
Proof.
  revert groups d. induction fuel as [|fuel IH]; intros groups d Hd Hf.
  { unfold in_input, rem in *; lia. }
  cbn [message_groups]. apply safe_bind, safe_get_offset.
  apply safe_bind. eapply safe_mono; [by apply marker_safe|]. intros tag d1 (_ & H1 & R1).
  destruct (tag =? END_OF_ATTRIBUTES_TAG).
  { apply safe_bind, safe_get_offset. by apply safe_case. }
  apply safe_case. intros _. apply safe_bind, bump_safe, safe_bind, count_safe. intros c.
  apply safe_bind. eapply safe_mono.
  { apply group_attributes_safe; [exact H1|]. unfold rem in *. cbn. lia. }
  intros l d2 (_ & H2 & R2). apply IH; [done|]. unfold rem in *. cbn in *. lia.
Qed.

Lemma decoder_safe :
  safe (decoder input limits) {| offset := 0; counters := Counters_default |} (fun _ _ => True).
Proof.
  assert (in_input {| offset := 0; counters := Counters_default |}) as H0
    by (unfold in_input; cbn; pose proof (zlen_nonneg input); lia).
  apply safe_bind. eapply safe_mono; [by apply byte_safe|]. intros b1 d1 (_ & H1 & R1).
  apply safe_bind. eapply safe_mono; [by apply byte_safe|]. intros b2 d2 (_ & H2 & R2).
  apply safe_bind. eapply safe_mono; [by apply u16_safe|]. intros b3 d3 (_ & H3 & R3).
  apply safe_bind. eapply (safe_mono _ _ (fun n d' => consumes 4 (fun _ => True) n d3 d')).
  { apply safe_bind. eapply safe_mono; [by apply take_safe|]. intros l d' (_ & Hc). by split. }
  intros b4 d4 (_ & H4 & R4). apply safe_bind.
  eapply safe_mono; [|done]. apply message_groups_safe; [done|].
  unfold rem, zlen in *. cbn in *. lia.
Qed.
End Safety.

Lemma decode_total input limits : bytes_ok input -> panics (decode input limits) = false.
Proof.
  intros Hi. unfold decode. apply panics_bind; [apply panics_raising|]. intros l _.
  destruct (_ <? _); [done|]. pose proof (decoder_safe input l Hi) as Hs.
  unfold safe, spec in Hs. by destruct (decoder input l _) as [[m|[e|]] d].
Qed.

(** C8: decoding is total. For every byte string and all limits, [decode]
    returns a message or a [DecodeError]: it does not reach the source's
    [unreachable!], never indexes out of range, and its loops end within
    twice the input's length. *)
Theorem decode_never_panics input limits :
  bytes_ok input -> panics (decode input limits) = false.
Proof. apply decode_total. Qed.

Lemma decode_never_panics_witness : panics (decode [1; 1; 0; 11; 0; 0; 0; 1; 52; 0] Limits_default) = false.
Proof. apply decode_never_panics. repeat constructor; unfold byte_ok; lia. Defined.

(** ** Wire form and cost of a value *)

Definition wire_field (bytes : list Z) : list Z := to_be_bytes 2 (zlen bytes) ++ bytes.

Definition wire_entry (tag : ValueTag.t) (name raw : list Z) : list Z :=
  ValueTag.to_byte tag :: wire_field name ++ wire_field raw.

Definition scalar_raw (data : ValueData) : list Z :=
  match data with
  | OutOfBand | Collection _ => []
  | Integer z | Enum z => to_be_bytes 4 z
  | Boolean b => [if b then 1 else 0]
  | DateTime bytes | Bytes bytes => bytes
  | Resolution cross_feed feed units => to_be_bytes 4 cross_feed ++ to_be_bytes 4 feed ++ [units]
  | RangeOfInteger lower upper => to_be_bytes 4 lower ++ to_be_bytes 4 upper
  end.

Fixpoint wire_value (name : list Z) (value : Value) : list Z :=
  wire_entry (v_tag value) name (scalar_raw (v_data value)) ++
  match value with
  | mk_Value _ (Collection members) =>
      concat (map (fun m =>
        match m with
        | mk_Member member_name values =>
            wire_entry ValueTag.MemberAttrName [] member_name ++ concat (map (wire_value []) values)
        end) members) ++
      wire_entry ValueTag.EndCollection [] []
  | _ => []
  end.

Definition wire_member (m : CollectionMember) : list Z :=
  wire_entry ValueTag.MemberAttrName [] (cm_name m) ++ concat (map (wire_value []) (cm_values m)).

Definition cplus (a b : Counters) : Counters := {|
  n_groups := n_groups a + n_groups b;
  n_attributes := n_attributes a + n_attributes b;
  n_values := n_values a + n_values b;
  n_members := n_members a + n_members b;
  n_decoded := n_decoded a + n_decoded b;
|}.

(** What one entry adds to the counters. *)
Definition entry_cost (name raw : list Z) : Counters := {|
  n_groups := 0; n_attributes := 0; n_values := 1; n_members := 0;
  n_decoded := zlen name + zlen raw;
|}.

Definition member_cost : Counters :=
  {| n_groups := 0; n_attributes := 1; n_values := 0; n_members := 1; n_decoded := 0 |}.

Definition csum {A} (f : A -> Counters) (l : list A) : Counters :=
  foldr (fun a c => cplus (f a) c) Counters_default l.

Fixpoint value_cost (name : list Z) (value : Value) : Counters :=
  cplus (entry_cost name (scalar_raw (v_data value)))
  match value with
  | mk_Value _ (Collection members) =>
      cplus
        (csum (fun m =>
          match m with
          | mk_Member member_name values =>
              cplus member_cost
                (cplus (entry_cost [] member_name) (csum (value_cost []) values))
          end) members)
        (entry_cost [] [])
  | _ => Counters_default
  end.

Definition cost_of_member (m : CollectionMember) : Counters :=
  cplus member_cost (cplus (entry_cost [] (cm_name m)) (csum (value_cost []) (cm_values m))).

Lemma wire_collection name tag members :
  wire_value name (mk_Value tag (Collection members)) =
  wire_entry tag name [] ++ concat (map wire_member members) ++ wire_entry ValueTag.EndCollection [] [].
Proof. cbn [wire_value v_tag v_data scalar_raw]. do 3 f_equal. apply map_ext. by intros []. Qed.

Lemma cost_collection name tag members :
  value_cost name (mk_Value tag (Collection members)) =
  cplus (entry_cost name []) (cplus (csum cost_of_member members) (entry_cost [] [])).
Proof.
  cbn [value_cost v_data scalar_raw]. do 2 f_equal. unfold csum. induction members as [|[] l IH]; [done|].
  cbn [foldr]. by rewrite IH.
Qed.

Definition scalar (data : ValueData) : Prop := forall members, data <> Collection members.

Lemma wire_scalar name tag data :
  scalar data -> wire_value name (mk_Value tag data) = wire_entry tag name (scalar_raw data).
Proof. intros Hs. destruct data; cbn; rewrite ?app_nil_r; try done. by destruct (Hs members). Qed.

Lemma cost_scalar name tag data :
  scalar data -> value_cost name (mk_Value tag data) = cplus (entry_cost name (scalar_raw data)) Counters_default.
Proof. intros Hs. destruct data; try done. by destruct (Hs members). Qed.

(** Induction over values and the members nested in them. *)
Section ValueInd.
Variable P : Value -> Prop.
Hypothesis P_scalar : forall tag data, scalar data -> P (mk_Value tag data).
Hypothesis P_collection : forall tag members,
  Forall (fun m => Forall P (cm_values m)) members -> P (mk_Value tag (Collection members)).

Fixpoint value_nested_ind (v : Value) : P v.
Proof.
  destruct v as [tag data]. destruct data as [| | | | | | |members|];
    [apply P_scalar; by intros ?..| |apply P_scalar; by intros ?].
  apply P_collection. induction members as [|[name values] members IH]; constructor; [|exact IH].
  clear IH. cbn. induction values as [|v values IHv]; constructor; [apply value_nested_ind|exact IHv].
Qed.
End ValueInd.

Lemma cplus_assoc a b c : cplus a (cplus b c) = cplus (cplus a b) c.
Proof. unfold cplus. cbn. f_equal; lia. Qed.

Lemma cplus_0_r a : cplus a Counters_default = a.
Proof. unfold cplus. destruct a. cbn. f_equal; lia. Qed.

Lemma cplus_comm a b : cplus a b = cplus b a.
Proof. unfold cplus. f_equal; lia. Qed.

(** ** What a successful encoding did *)

Section Encode.
Variable limits : Limits.

Definition within (c : Counters) : Prop :=
  n_groups c <= max_groups limits /\ n_attributes c <= max_attributes limits /\
  n_values c <= max_values limits /\ n_members c <= max_collection_members limits /\
  n_decoded c <= max_decoded_bytes limits.

(** [usize::MAX] itself is not a limit, so saturated sums exceed every limit. *)
Definition limits_sane : Prop :=
  max_groups limits < usize_max /\ max_attributes limits < usize_max /\
  max_values limits < usize_max /\ max_collection_members limits < usize_max /\
  max_decoded_bytes limits < usize_max /\ max_message_bytes limits < usize_max.

Hypothesis sane : limits_sane.

(** From [e] to [e'] exactly [out] was appended and [c] counted; limits that
    held still hold. *)
Definition emits (out : list Z) (c : Counters) (e e' : Encoder) : Prop :=
  output e' = output e ++ out /\ e_counters e' = cplus (e_counters e) c /\
  (within (e_counters e) -> within (e_counters e')) /\
  (zlen (output e) <= max_message_bytes limits -> zlen (output e') <= max_message_bytes limits).

Lemma emits_refl e : emits [] Counters_default e e.
Proof. unfold emits. by rewrite app_nil_r, cplus_0_r. Qed.

Lemma emits_trans o1 c1 o2 c2 e1 e2 e3 :
  emits o1 c1 e1 e2 -> emits o2 c2 e2 e3 -> emits (o1 ++ o2) (cplus c1 c2) e1 e3.
Proof.
  intros (O1 & C1 & W1 & M1) (O2 & C2 & W2 & M2).
  split_and!; [by rewrite O2, O1, app_assoc|by rewrite C2, C1, cplus_assoc|auto|auto].
Qed.

Lemma emits_eq o c o' c' e e' : emits o c e e' -> o = o' -> c = c' -> emits o' c' e e'.
Proof. by intros H <- <-. Qed.

Lemma saturate_le limit v : limit < usize_max -> (limit <? saturate usize_max v) = false -> v <= limit.
Proof. unfold saturate. intros Hl Hv. apply Z.ltb_ge in Hv. lia. Qed.

Lemma enc_bump_inv kind n limit e u e' :
  enc_bump kind n limit e = (Ok u, e') -> limit < usize_max ->
  e' = {| output := output e; e_counters := count kind n (e_counters e) |} /\
  counter kind (e_counters e) + n <= limit.
Proof.
  intros Hr Hl. unfold enc_bump in Hr. apply run_bind_inv in Hr as ([] & e1 & Hr1 & Hr2).
  unfold enc_add in Hr1. destruct (limit <? _) eqn:Hlt; [done|]. injection Hr1 as <-.
  apply saturate_le in Hlt; [|done]. injection Hr2 as <-. done.
Qed.

Ltac bump_emits H :=
  apply enc_bump_inv in H as [-> H];
  [unfold emits, within, cplus, count, counter in *; cbn in *; rewrite app_nil_r, ?Z.add_0_r;
   split_and!; [reflexivity|reflexivity|lia|lia] | apply sane].

Definition unit_cost (groups attributes values members decoded : Z) : Counters := {|
  n_groups := groups; n_attributes := attributes; n_values := values; n_members := members;
  n_decoded := decoded |}.

Lemma bump_values_inv e u e' :
  enc_bump "values" 1 (max_values limits) e = (Ok u, e') -> emits [] (unit_cost 0 0 1 0 0) e e'.
Proof. intros Hr. bump_emits Hr. Qed.

Lemma bump_attributes_inv e u e' :
  enc_bump "attributes" 1 (max_attributes limits) e = (Ok u, e') -> emits [] (unit_cost 0 1 0 0 0) e e'.
Proof. intros Hr. bump_emits Hr. Qed.

Lemma bump_groups_inv e u e' :
  enc_bump "groups" 1 (max_groups limits) e = (Ok u, e') -> emits [] (unit_cost 1 0 0 0 0) e e'.
Proof. intros Hr. bump_emits Hr. Qed.

Lemma bump_members_inv e u e' :
  enc_bump "collection members" 1 (max_collection_members limits) e = (Ok u, e') ->
  emits [] (unit_cost 0 0 0 1 0) e e'.
Proof. intros Hr. bump_emits Hr. Qed.

Lemma bump_decoded_inv n e u e' :
  enc_bump "decoded bytes" n (max_decoded_bytes limits) e = (Ok u, e') ->
  emits [] (unit_cost 0 0 0 0 n) e e'.
Proof. intros Hr. bump_emits Hr. Qed.

Lemma extend_inv bytes e u e' :
  extend limits bytes e = (Ok u, e') -> emits bytes Counters_default e e'.
Proof.
  intros Hr. unfold extend in Hr. apply run_bind_inv in Hr as ([] & e1 & Hr1 & Hr2).
  unfold add_output in Hr1. destruct (_ <? _) eqn:Hlt; [done|]. injection Hr1 as <-.
  apply saturate_le in Hlt; [|apply sane]. injection Hr2 as <- <-.
  split; [done|]. split; [by rewrite cplus_0_r|]. split; [done|].
  cbn [output]. rewrite zlen_app. lia.
Qed.

Lemma push_inv b e u e' : push limits b e = (Ok u, e') -> emits [b] Counters_default e e'.
Proof. apply (extend_inv [b]). Qed.

Definition field_ok (bytes : list Z) : Prop :=
  zlen bytes <= u16_max /\ zlen bytes <= max_value_bytes limits.

Lemma wire_bytes_inv bytes e u e' :
  wire_bytes limits bytes e = (Ok u, e') ->
  emits (wire_field bytes) (unit_cost 0 0 0 0 (zlen bytes)) e e' /\ field_ok bytes.
Proof.
  intros Hr. unfold wire_bytes, decoded_bytes in Hr. inv_run Hr.
  apply bump_decoded_inv in Hx. apply extend_inv in Hx0, Hr.
  apply Z.ltb_ge in Hb, Hb0. split; [|done].
  assert (as_u16 (zlen bytes) = zlen bytes) as Eu.
  { unfold as_u16. apply Z.mod_small. pose proof (zlen_nonneg bytes). unfold u16_max in Hb. lia. }
  rewrite Eu in Hx0. eapply emits_eq;
    [exact (emits_trans _ _ _ _ _ _ _ Hx (emits_trans _ _ _ _ _ _ _ Hx0 Hr))|done|].
  unfold unit_cost, cplus, Counters_default. cbn. f_equal; lia.
Qed.

(** The structure a successful encoding has checked. *)
Inductive encodable : Z -> Value -> Prop :=
| encodable_scalar depth tag data :
    scalar data -> encode_scalar (mk_Value tag data) = Ok (scalar_raw data) ->
    field_ok (scalar_raw data) -> encodable depth (mk_Value tag data)
| encodable_collection depth members :
    depth + 1 <= max_collection_depth limits ->
    (forall m, m ∈ members ->
       cm_name m <> [] /\ cm_values m <> [] /\ zlen (cm_name m) <= max_name_bytes limits /\
       field_ok (cm_name m)) ->
    (forall m v, m ∈ members -> v ∈ cm_values m -> encodable (depth + 1) v) ->
    encodable depth (mk_Value ValueTag.BegCollection (Collection members)).

Lemma encode_value_scalar name tag data depth :
  scalar data ->
  encode_value limits name (mk_Value tag data) depth =
  (enc_bump "values" 1 (max_values limits) ;!
   push limits (ValueTag.to_byte tag) ;!
   wire_bytes limits name ;!
   let! encoded := eresult (encode_scalar (mk_Value tag data)) in
   wire_bytes limits encoded).
Proof. intros Hs. destruct data; try (by destruct tag). by destruct (Hs members). Qed.

Definition encode_member (depth : Z) (m : CollectionMember) : EM Encoder EncodeError.t unit :=
  ecase (bool_decide (cm_name m = []) || bool_decide (length (cm_values m) = 0%nat))
    (EncodeError.InvalidStructure "collection members require a name and at least one value")
  (enc_bump "collection members" 1 (max_collection_members limits) ;!
   enc_bump "attributes" 1 (max_attributes limits) ;!
   check_name limits (cm_name m) ;!
   control limits ValueTag.MemberAttrName (cm_name m) ;!
   efor (fun v => encode_value limits [] v depth) (cm_values m)).

Lemma encode_value_collection name members depth :
  encode_value limits name (mk_Value ValueTag.BegCollection (Collection members)) depth =
  (enc_bump "values" 1 (max_values limits) ;!
   push limits (ValueTag.to_byte ValueTag.BegCollection) ;!
   wire_bytes limits name ;!
   ecase (max_collection_depth limits <? depth + 1)
     (EncodeError.Limit "collection depth" (depth + 1) (max_collection_depth limits))
   (wire_bytes limits [] ;!
    efor (encode_member (depth + 1)) members ;!
    control limits ValueTag.EndCollection [])).
Proof.
  cbn [encode_value v_tag]. erewrite (efor_ext _ (encode_member (depth + 1))); [done|]. by intros [].
Qed.

(** *** Encoding does not panic and only appends *)

Definition appends (e e' : Encoder) : Prop := output e `prefix_of` output e'.

#[export] Instance appends_preorder : PreOrder appends.
Proof. unfold appends. split; [by intros e|]. intros e e' e'' H1 H2. by etrans. Qed.

#[local] Abbreviation calm := (steady appends).

Lemma append_calm bytes : calm (append bytes).
Proof. intros e. split; [done|]. by exists bytes. Qed.
Lemma enc_count_calm kind n : calm (enc_count kind n).
Proof. intros e. split; [done|]. by exists []; rewrite app_nil_r. Qed.

Lemma enc_add_calm kind n limit : calm (enc_add kind n limit).
Proof. intros e. unfold enc_add. destruct (limit <? _); (split; [done|reflexivity]). Qed.
Lemma add_output_calm n : calm (add_output limits n).
Proof. intros e. unfold add_output. destruct (_ <? _); (split; [done|reflexivity]). Qed.
#[local] Hint Resolve append_calm enc_count_calm enc_add_calm add_output_calm : calm.

Lemma enc_bump_calm kind n limit : calm (enc_bump kind n limit).
Proof. unfold enc_bump. auto with calm. Qed.
Lemma extend_calm bytes : calm (extend limits bytes).
Proof. unfold extend. auto with calm. Qed.
Lemma push_calm b : calm (push limits b).
Proof. unfold push. auto with calm. Qed.
Lemma check_name_calm name : calm (check_name limits name).
Proof. unfold check_name. auto with calm. Qed.
#[local] Hint Resolve enc_bump_calm extend_calm push_calm check_name_calm : calm.

Lemma wire_bytes_calm bytes : calm (wire_bytes limits bytes).
Proof. unfold wire_bytes, decoded_bytes. auto 8 with calm. Qed.
#[local] Hint Resolve wire_bytes_calm : calm.

Lemma control_calm tag bytes : calm (control limits tag bytes).
Proof. unfold control. auto 8 with calm. Qed.
#[local] Hint Resolve control_calm : calm.

Lemma encode_value_calm v : forall name depth, calm (encode_value limits name v depth).
Proof.
  induction v as [tag data Hs|tag members IH] using value_nested_ind; intros name depth.
  { rewrite encode_value_scalar by done. auto 8 with calm. }
  destruct (decide (tag = ValueTag.BegCollection)) as [->|Hne].
  - rewrite encode_value_collection. do 3 (apply steady_bind; [auto with calm|intros _]).
    apply steady_case, steady_bind; [auto with calm|intros _].
    apply steady_bind; [|auto with calm]. apply steady_efor. intros m Hm.
    unfold encode_member. apply steady_case. do 4 (apply steady_bind; [auto with calm|intros _]).
    apply steady_efor. intros v Hv.
    rewrite list.Forall_forall in IH. specialize (IH m Hm). rewrite list.Forall_forall in IH. by apply IH.
  - destruct tag; try done; cbn -[enc_bump push wire_bytes]; auto 8 with calm.
Qed.
#[local] Hint Resolve encode_value_calm : calm.

Lemma encode_values_calm name values depth : calm (encode_values limits name values depth).
Proof. revert name. induction values; intros name; cbn [encode_values]; auto with calm. Qed.
#[local] Hint Resolve encode_values_calm : calm.

Lemma encode_group_calm g : calm (encode_group limits g).
Proof.
  unfold encode_group. apply steady_case. do 2 (apply steady_bind; [auto with calm|intros _]).
  apply steady_efor. intros a _. unfold encode_attribute. auto 8 with calm.
Qed.
#[local] Hint Resolve encode_group_calm : calm.

Lemma encoder_calm m : calm (encoder limits m).
Proof. unfold encoder. auto 12 with calm. Qed.

Lemma encode_value_mismatch name tag members depth e u e' :
  tag <> ValueTag.BegCollection ->
  encode_value limits name (mk_Value tag (Collection members)) depth e <> (Ok u, e').
Proof.
  intros Hne Hr. assert (encode_value limits name (mk_Value tag (Collection members)) depth =
    (enc_bump "values" 1 (max_values limits) ;!
     push limits (ValueTag.to_byte tag) ;!
     wire_bytes limits name ;!
     let! encoded := eresult (Err (EncodeError.TagDataMismatch (ValueTag.to_byte tag))) in
     wire_bytes limits encoded)) as Eq by (by destruct tag).
  rewrite Eq in Hr. inv_run Hr. discriminate.
Qed.

Lemma encode_scalar_raw tag data raw :
  encode_scalar (mk_Value tag data) = Ok raw -> raw = scalar_raw data.
Proof. unfold encode_scalar. destruct data; cbn [v_tag v_data]; try case_match; by intros [= <-]. Qed.

Lemma control_inv tag bytes e u e' :
  control limits tag bytes e = (Ok u, e') ->
  emits (wire_entry tag [] bytes) (entry_cost [] bytes) e e' /\ field_ok bytes.
Proof.
  intros Hr. unfold control in Hr. inv_run Hr. apply bump_values_inv in Hx. apply push_inv in Hx0.
  apply wire_bytes_inv in Hx1 as [Hx1 _], Hr as [Hr Hf]. split; [|done].
  eapply emits_eq.
  - exact (emits_trans _ _ _ _ _ _ _ Hx (emits_trans _ _ _ _ _ _ _ Hx0
             (emits_trans _ _ _ _ _ _ _ Hx1 Hr))).
  - done.
  - unfold entry_cost, unit_cost, cplus, Counters_default. cbn. f_equal; lia.
Qed.

(** A loop whose body emits [out a] and establishes [P a]. *)
Lemma efor_emits {A} (body : A -> EM Encoder EncodeError.t unit) out cost (P : A -> Prop) l e u e' :
  (forall a e u e', a ∈ l -> body a e = (Ok u, e') -> emits (out a) (cost a) e e' /\ P a) ->
  efor body l e = (Ok u, e') ->
  emits (concat (map out l)) (csum cost l) e e' /\ Forall P l.
Proof.
  intros Hb. revert e. induction l as [|a l IH]; intros e Hr; cbn [efor] in Hr.
  - injection Hr as _ <-. split; [apply emits_refl|constructor].
  - inv_run Hr. apply Hb in Hx as [Hx Ha]; [|left].
    apply IH in Hr as [Hr Hl]; [|intros; eapply Hb; [by right|done]].
    split; [|by constructor]. exact (emits_trans _ _ _ _ _ _ _ Hx Hr).
Qed.

(** One member: its name, then its values. *)
Lemma encode_member_inv depth m e u e' :
  (forall v e u e', v ∈ cm_values m -> encode_value limits [] v depth e = (Ok u, e') ->
     emits (wire_value [] v) (value_cost [] v) e e' /\ encodable depth v) ->
  encode_member depth m e = (Ok u, e') ->
  emits (wire_member m) (cost_of_member m) e e' /\
  (cm_name m <> [] /\ cm_values m <> [] /\ zlen (cm_name m) <= max_name_bytes limits /\ field_ok (cm_name m)) /\
  Forall (encodable depth) (cm_values m).
Proof.
  intros Hin Hr. unfold encode_member, check_name in Hr. inv_run Hr. apply orb_false_iff in Hb as [Hb1 Hb2].
  apply bool_decide_eq_false in Hb1, Hb2.
  apply bump_members_inv in Hx. apply bump_attributes_inv in Hx0. apply control_inv in Hx1 as [Hx1 Hf].
  apply (efor_emits _ (wire_value []) (value_cost []) (encodable depth)) in Hr as [Hr Hv].
  2: { intros v e6 u6 e7 Hv Hrv. by eapply Hin. }
  assert (cm_values m <> []) by (intros E; rewrite E in Hb2; done).
  split; [|split; [|done]].
  - eapply emits_eq.
    + exact (emits_trans _ _ _ _ _ _ _ Hx (emits_trans _ _ _ _ _ _ _ Hx0
                (emits_trans _ _ _ _ _ _ _ Hx1 Hr))).
    + done.
    + unfold cost_of_member, member_cost, entry_cost, unit_cost, cplus. cbn. f_equal; lia.
  - split_and!; try done. by apply Z.ltb_ge in Hb0.
Qed.

Lemma encode_value_inv v name depth e u e' :
  encode_value limits name v depth e = (Ok u, e') ->
  emits (wire_value name v) (value_cost name v) e e' /\ (encodable depth v /\ field_ok name).
Proof.
  revert name depth e u e'. induction v as [tag data Hs|tag members IH] using value_nested_ind;
    intros name depth e u e' Hr.
  - rewrite encode_value_scalar in Hr by done. inv_run Hr.
    apply bump_values_inv in Hx. apply push_inv in Hx0. apply wire_bytes_inv in Hx1 as [Hx1 Hn], Hr as [Hr Hf].
    pose proof (encode_scalar_raw _ _ _ Hx2) as ->. split; [|split; [by constructor|done]].
    rewrite wire_scalar, cost_scalar by done. eapply emits_eq.
    + exact (emits_trans _ _ _ _ _ _ _ Hx (emits_trans _ _ _ _ _ _ _ Hx0
               (emits_trans _ _ _ _ _ _ _ Hx1 Hr))).
    + done.
    + unfold entry_cost, unit_cost, cplus, Counters_default. cbn. f_equal; lia.
  - destruct (decide (tag = ValueTag.BegCollection)) as [->|Hne];
      [|by apply encode_value_mismatch in Hr].
    rewrite encode_value_collection in Hr. inv_run Hr.
    apply bump_values_inv in Hx. apply push_inv in Hx0. apply wire_bytes_inv in Hx1 as [Hx1 Hn].
    apply wire_bytes_inv in Hx2 as [Hx2 _]. apply control_inv in Hr as [Hr _].
    apply (efor_emits _ wire_member cost_of_member
      (fun m => (cm_name m <> [] /\ cm_values m <> [] /\ zlen (cm_name m) <= max_name_bytes limits /\
                 field_ok (cm_name m)) /\ Forall (encodable (depth + 1)) (cm_values m))) in Hx3 as [Hx3 Hm].
    + rewrite Forall_forall in Hm. setoid_rewrite <- list_elem_of_In in Hm.
      split; [|split; [|done]].
      * rewrite wire_collection, cost_collection. eapply emits_eq.
        -- exact (emits_trans _ _ _ _ _ _ _ Hx (emits_trans _ _ _ _ _ _ _ Hx0
                    (emits_trans _ _ _ _ _ _ _ Hx1 (emits_trans _ _ _ _ _ _ _ Hx2
                      (emits_trans _ _ _ _ _ _ _ Hx3 Hr))))).
        -- unfold wire_entry. cbn [app]. by rewrite <- !app_assoc.
        -- unfold entry_cost, unit_cost, cplus, Counters_default. cbn. f_equal; lia.
      * apply encodable_collection; [apply Z.ltb_ge in Hb; lia|intros m Hin; by apply Hm|].
        intros m v Hin Hv. destruct (Hm m Hin) as [_ Hvs]. rewrite Forall_forall in Hvs.
        by apply Hvs, list_elem_of_In.
    + intros m e6 u6 e7 Hin. apply encode_member_inv. intros v e8 u8 e9 Hv Hrv.
      rewrite Forall_forall in IH. apply list_elem_of_In, IH in Hin. rewrite Forall_forall in Hin.
      apply list_elem_of_In in Hv. by apply (Hin v Hv) in Hrv as (? & ? & _).
Qed.
End Encode.

(** ** Values that read back *)

(** A tag that denotes itself on the wire and does not end or structure a
    group or a collection. *)
Definition tag_plain (tag : ValueTag.t) : Prop :=
  ValueTag.from_byte (ValueTag.to_byte tag) = tag /\
  ValueTag.to_byte tag <> END_OF_ATTRIBUTES_TAG /\ is_delimiter_tag (ValueTag.to_byte tag) = false /\
  control_tag tag = false.

Definition i32_ok (z : Z) : Prop := i32_min <= z <= i32_max.

(** The Rust types of the payloads. *)
Definition data_typed (data : ValueData) : Prop :=
  match data with
  | Integer z | Enum z => i32_ok z
  | DateTime bytes => zlen bytes = 11
  | Resolution cross_feed feed units => i32_ok cross_feed /\ i32_ok feed
  | RangeOfInteger lower upper => i32_ok lower /\ i32_ok upper
  | _ => True
  end.

Inductive plain : Value -> Prop :=
| plain_scalar tag data :
    scalar data -> tag_plain tag -> data_typed data -> plain (mk_Value tag data)
| plain_collection members :
    (forall m v, m ∈ members -> v ∈ cm_values m -> plain v) ->
    plain (mk_Value ValueTag.BegCollection (Collection members)).

Lemma i32_of_bytes z : i32_ok z -> i32_of (to_be_bytes 4 z) = z.
Proof.
  intros Hz. unfold i32_of. rewrite of_to_be_bytes. apply to_signed_mod; [lia|].
  unfold i32_ok, i32_min, i32_max in Hz. cbn. lia.
Qed.

Lemma slice_first a b : length a = 4%nat -> slice (a ++ b) 0 4 = a.
Proof. intros Ha. unfold slice. cbn [drop Nat.sub]. rewrite <- Ha. apply take_app_length. Qed.

Lemma slice_second a b c : length a = 4%nat -> length b = 4%nat -> slice (a ++ b ++ c) 4 8 = b.
Proof.
  intros Ha Hb. unfold slice. rewrite drop_app_length' by done. by apply take_app_length'.
Qed.

Lemma decode_encode_scalar tag data off :
  scalar data -> data_typed data -> encode_scalar (mk_Value tag data) = Ok (scalar_raw data) ->
  decode_scalar tag (scalar_raw data) off = Ok data.
Proof.
  intros Hs Ht He. unfold encode_scalar in He. cbn [v_tag v_data] in He.
  assert (forall t t', tag_is t t' = true -> t = t') as Htag by (intros t t' E; by apply bool_decide_eq_true in E).
  destruct data as [|z|b|z|bytes|cross feed units|lower upper|members|bytes]; cbn [scalar_raw] in *.
  - unfold decode_scalar. by destruct (ValueTag.is_out_of_band tag).
  - destruct (tag_is tag _) eqn:E in He; [|done]. apply Htag in E as ->.
    unfold decode_scalar, exact_i32. cbn [ValueTag.is_out_of_band].
    rewrite zlen_to_be_bytes. cbn [Z.eqb negb Z.of_nat]. cbn -[to_be_bytes]. by rewrite i32_of_bytes.
  - destruct (tag_is tag _) eqn:E in He; [|done]. apply Htag in E as ->. by destruct b.
  - destruct (tag_is tag _) eqn:E in He; [|done]. apply Htag in E as ->.
    unfold decode_scalar, exact_i32. cbn [ValueTag.is_out_of_band].
    rewrite zlen_to_be_bytes. cbn [Z.eqb negb Z.of_nat]. cbn -[to_be_bytes]. by rewrite i32_of_bytes.
  - destruct (tag_is tag _) eqn:E in He; [|done]. apply Htag in E as ->.
    cbn in *. by rewrite Ht.
  - destruct (tag_is tag _) eqn:E in He; [|done]. apply Htag in E as ->. destruct Ht as [H1 H2].
    unfold decode_scalar. cbn [ValueTag.is_out_of_band]. rewrite !zlen_app, !zlen_to_be_bytes. cbn [Z.eqb].
    rewrite slice_first, slice_second by apply length_to_be_bytes. rewrite !i32_of_bytes by done.
    reflexivity.
  - destruct (tag_is tag _) eqn:E in He; [|done]. apply Htag in E as ->. destruct Ht as [H1 H2].
    unfold decode_scalar. cbn [ValueTag.is_out_of_band]. rewrite !zlen_app, !zlen_to_be_bytes. cbn [Z.eqb].
    rewrite slice_first by apply length_to_be_bytes.
    rewrite <- (app_nil_r (to_be_bytes 4 upper)), slice_second by apply length_to_be_bytes.
    by rewrite !i32_of_bytes.
  - by destruct (Hs members).
  - destruct (_ && _) eqn:E; [|done]. apply andb_true_iff in E as [E1 E2].
    unfold decode_scalar. apply negb_true_iff in E1, E2. rewrite E1. by destruct tag.
Qed.

(** ** Decoding what was encoded *)

Definition advance (n : Z) (c : Counters) (d : Decoder) : Decoder :=
  {| offset := offset d + n; counters := cplus (counters d) c |}.

Lemma advance_0 d : advance 0 Counters_default d = d.
Proof. unfold advance. rewrite cplus_0_r, Z.add_0_r. by destruct d. Qed.

Lemma advance_advance n c m k d : advance n c (advance m k d) = advance (m + n) (cplus k c) d.
Proof. unfold advance. cbn. by rewrite cplus_assoc, Z.add_assoc. Qed.

Definition cnonneg (c : Counters) : Prop :=
  0 <= n_groups c /\ 0 <= n_attributes c /\ 0 <= n_values c /\ 0 <= n_members c /\ 0 <= n_decoded c.

Lemma cnonneg_plus a b : cnonneg a -> cnonneg b -> cnonneg (cplus a b).
Proof. unfold cnonneg, cplus. cbn. lia. Qed.

Lemma cnonneg_0 : cnonneg Counters_default.
Proof. unfold cnonneg. cbn. lia. Qed.

Lemma cnonneg_entry name raw : cnonneg (entry_cost name raw).
Proof.
  unfold cnonneg, entry_cost. cbn -[zlen]. pose proof (zlen_nonneg name). pose proof (zlen_nonneg raw). lia.
Qed.

Lemma cnonneg_sum {A} (f : A -> Counters) l : Forall (fun a => cnonneg (f a)) l -> cnonneg (csum f l).
Proof. induction 1; [apply cnonneg_0|by apply cnonneg_plus]. Qed.

Lemma cnonneg_member m : Forall (fun v => cnonneg (value_cost [] v)) (cm_values m) -> cnonneg (cost_of_member m).
Proof.
  intros Hv. apply cnonneg_plus; [unfold cnonneg; cbn; lia|].
  apply cnonneg_plus; [apply cnonneg_entry|by apply cnonneg_sum].
Qed.

Lemma cnonneg_value name v : cnonneg (value_cost name v).
Proof.
  revert name. induction v as [tag data Hs|tag members IH] using value_nested_ind; intros name.
  - rewrite cost_scalar by done. apply cnonneg_plus; [apply cnonneg_entry|apply cnonneg_0].
  - rewrite cost_collection. apply cnonneg_plus; [apply cnonneg_entry|].
    apply cnonneg_plus; [|apply cnonneg_entry]. apply cnonneg_sum.
    eapply Forall_impl; [|exact IH]. intros m Hm. apply cnonneg_member.
    eapply Forall_impl; [|exact Hm]. intros v Hv. apply Hv.
Qed.

Section Decode.
Variable input : list Z.
Variable limits : Limits.
Hypothesis small : zlen input <= usize_max.
Hypothesis sane : limits_sane limits.

(** The decoder is at [rest]. *)
Definition before (d : Decoder) (rest : list Z) : Prop :=
  0 <= offset d /\ offset d + zlen rest = zlen input /\
  drop (Z.to_nat (offset d)) input = rest.

Lemma before_advance n c d l rest :
  before d (l ++ rest) -> n = zlen l -> before (advance n c d) rest.
Proof.
  intros (H0 & Hl & Hd) ->. unfold before, advance. cbn. rewrite zlen_app in Hl.
  pose proof (zlen_nonneg l). split; [lia|]. split; [lia|].
  replace (Z.to_nat (offset d + zlen l)) with (Z.to_nat (offset d) + length l)%nat
    by (unfold zlen; lia).
  by rewrite <- drop_drop, Hd, drop_app_length.
Qed.

Lemma before_head d b rest : before d (b :: rest) -> input !! Z.to_nat (offset d) = Some b.
Proof.
  intros (_ & _ & Hd). rewrite <- (Nat.add_0_r (Z.to_nat _)), <- lookup_drop, Hd. done.
Qed.

Lemma byte_run d b rest :
  before d (b :: rest) -> byte input d = (Ok b, advance 1 Counters_default d).
Proof.
  intros Hb. unfold byte, ebind, get_offset, eresult. rewrite (before_head _ _ _ Hb).
  cbn. unfold advance. by rewrite cplus_0_r.
Qed.

Lemma peek_run d b rest : before d (b :: rest) -> peek input d = (Ok b, d).
Proof. intros Hb. unfold peek, ebind, get_offset, eresult. by rewrite (before_head _ _ _ Hb). Qed.

Lemma take_run d l rest :
  before d (l ++ rest) -> take_bytes input (zlen l) d = (Ok l, advance (zlen l) Counters_default d).
Proof.
  intros (H0 & Hl & Hd). unfold take_bytes, ebind, get_offset, eresult.
  rewrite zlen_app in Hl. pose proof (zlen_nonneg l). pose proof (zlen_nonneg rest).
  rewrite (proj2 (checked_Some usize_max (offset d + zlen l) (offset d + zlen l)))
    by (unfold in_u; split; [lia|done]). cbn [ok_or raising map_err].
  unfold get_range. destruct (Z.leb_spec (offset d) (offset d + zlen l)); [|lia].
  destruct (Z.leb_spec (offset d + zlen l) (zlen input)); [|lia]. cbn [andb ok_or raising map_err].
  rewrite Hd. replace (Z.to_nat (offset d + zlen l - offset d)) with (length l) by (unfold zlen; lia).
  rewrite take_app_length. unfold set_offset, emodify, eret, advance. by rewrite cplus_0_r.
Qed.

Lemma u16_run d n rest :
  0 <= n <= u16_max -> before d (to_be_bytes 2 n ++ rest) ->
  read_u16 input d = (Ok n, advance 2 Counters_default d).
Proof.
  intros Hn Hb. unfold read_u16. eapply run_bind; [by eapply (take_run d (to_be_bytes 2 n))|].
  unfold eret. rewrite of_to_be_bytes, Z.mod_small by (unfold u16_max in Hn; cbn; lia). done.
Qed.

Lemma u32_run d n rest :
  0 <= n <= u32_max -> before d (to_be_bytes 4 n ++ rest) ->
  read_u32 input d = (Ok n, advance 4 Counters_default d).
Proof.
  intros Hn Hb. unfold read_u32. eapply run_bind; [by eapply (take_run d (to_be_bytes 4 n))|].
  unfold eret. rewrite of_to_be_bytes, Z.mod_small by (unfold u32_max in Hn; cbn; lia). done.
Qed.

(** A checked count within its limit. *)
Lemma bump_run kind n limit d :
  0 <= counter kind (counters d) + n <= limit -> bump kind n limit d = (Ok tt, d).
Proof.
  intros Hl. unfold bump, saturate.
  destruct (Z.ltb_spec limit (Z.max 0 (Z.min usize_max (counter kind (counters d) + n)))); [lia|done].
Qed.

(** The counters stay nonnegative and below the limits along a decoding. *)
Definition counted (c : Counters) : Prop := cnonneg c /\ within limits c.

Lemma counted_prefix a b : counted (cplus a b) -> cnonneg a -> cnonneg b -> counted a.
Proof. unfold counted, within, cnonneg, cplus. cbn. lia. Qed.

Lemma within_prefix a b : within limits (cplus a b) -> cnonneg b -> within limits a.
Proof. unfold within, cnonneg, cplus. cbn. lia. Qed.

Lemma add_decoded_run n d :
  0 <= n -> cnonneg (counters d) -> n_decoded (counters d) + n <= max_decoded_bytes limits ->
  add_decoded_bytes limits n d = (Ok tt, advance 0 (unit_cost 0 0 0 0 n) d).
Proof.
  intros Hn (_ & _ & _ & _ & H0) Hl. unfold add_decoded_bytes.
  eapply run_bind; [apply bump_run; cbn; lia|]. unfold add_count, emodify, advance, count, unit_cost, cplus.
  cbn. by rewrite !Z.add_0_r.
Qed.

Lemma add_value_run d :
  cnonneg (counters d) -> n_values (counters d) + 1 <= max_values limits ->
  add_value limits d = (Ok tt, advance 0 (unit_cost 0 0 1 0 0) d).
Proof.
  intros (_ & _ & H0 & _) Hl. unfold add_value.
  eapply run_bind; [apply bump_run; cbn; lia|]. unfold add_count, emodify, advance, count, unit_cost, cplus.
  cbn. by rewrite !Z.add_0_r.
Qed.

Lemma add_attribute_run d :
  cnonneg (counters d) -> n_attributes (counters d) + 1 <= max_attributes limits ->
  add_attribute limits d = (Ok tt, advance 0 (unit_cost 0 1 0 0 0) d).
Proof.
  intros (_ & H0 & _) Hl. unfold add_attribute.
  eapply run_bind; [apply bump_run; cbn; lia|]. unfold add_count, emodify, advance, count, unit_cost, cplus.
  cbn. by rewrite !Z.add_0_r.
Qed.

Lemma zlen_wire_entry tag name raw : zlen (wire_entry tag name raw) = 5 + zlen name + zlen raw.
Proof. unfold wire_entry, wire_field. autorewrite with zlen. lia. Qed.

Lemma entry_run d tag name raw rest :
  before d (wire_entry tag name raw ++ rest) ->
  ValueTag.from_byte (ValueTag.to_byte tag) = tag ->
  zlen name <= max_name_bytes limits -> field_ok limits name -> field_ok limits raw ->
  cnonneg (counters d) -> within limits (cplus (counters d) (entry_cost name raw)) ->
  entry input limits d =
  (Ok (tag, name, raw), advance (zlen (wire_entry tag name raw)) (entry_cost name raw) d).
Proof.
  intros Hb Ht Hname [Hn16 Hn] [Hr16 Hr] Hc Hw. rewrite zlen_wire_entry.
  unfold wire_entry, wire_field in Hb. cbn [app] in Hb. rewrite <- !app_assoc in Hb.
  pose proof (zlen_nonneg name) as N. pose proof (zlen_nonneg raw) as R.
  destruct Hc as (C1 & C2 & C3 & C4 & C5).
  destruct Hw as (_ & _ & W3 & _ & W5). cbn -[zlen] in W3, W5.
  unfold entry. eapply run_bind; [by eapply byte_run|]. rewrite Ht.
  apply (before_advance 1 Counters_default _ [ValueTag.to_byte tag]) in Hb; [|done].
  eapply run_bind; [eapply u16_run; [|exact Hb]; lia|].
  apply (before_advance 2 Counters_default) in Hb; [|by rewrite zlen_to_be_bytes].
  apply run_ecase; [lia|]. eapply run_bind; [by eapply take_run|].
  apply (before_advance (zlen name) Counters_default) in Hb; [|done].
  eapply run_bind; [apply add_decoded_run; [done|unfold cnonneg; cbn -[zlen]; lia|cbn -[zlen]; lia]|].
  apply (before_advance 0 (unit_cost 0 0 0 0 (zlen name)) _ []) in Hb; [|done].
  eapply run_bind; [eapply u16_run; [|exact Hb]; lia|].
  apply (before_advance 2 Counters_default) in Hb; [|by rewrite zlen_to_be_bytes].
  apply run_ecase; [lia|]. eapply run_bind; [by eapply take_run|].
  apply (before_advance (zlen raw) Counters_default) in Hb; [|done].
  eapply run_bind; [apply add_decoded_run; [done|unfold cnonneg; cbn -[zlen]; lia|cbn -[zlen]; lia]|].
  eapply run_bind; [apply add_value_run; [unfold cnonneg; cbn -[zlen]; lia|cbn -[zlen]; lia]|].
  unfold eret. rewrite !advance_advance. f_equal. unfold advance. f_equal; [lia|].
  f_equal. unfold entry_cost, unit_cost, cplus, Counters_default. cbn -[zlen]. f_equal; lia.
Qed.

(** *** Collections *)

Lemma update_last_snoc {A} (f : A -> A) l x : update_last f (l ++ [x]) = Some (l ++ [f x]).
Proof.
  induction l as [|y l IH]; [done|]. cbn [app]. cbn [update_last]. rewrite IH.
  destruct l; done.
Qed.

(** The first byte of a wire value. *)
Lemma wire_value_head name v :
  exists rest, wire_value name v = ValueTag.to_byte (v_tag v) :: rest.
Proof. destruct v as [tag data]. cbn [wire_value v_tag]. unfold wire_entry. cbn [app]. by eexists. Qed.

Lemma plain_tag v : plain v -> tag_plain (v_tag v).
Proof. by intros [tag data _ Ht _|members _]. Qed.

Lemma peek_value_run v name d rest depth :
  plain v -> before d (wire_value name v ++ rest) ->
  exists b, peek input d = (Ok b, d) /\ (b =? END_OF_ATTRIBUTES_TAG) = false /\
    is_delimiter_tag b = false /\ depth = depth :> Z.
Proof.
  intros Hp Hb. destruct (wire_value_head name v) as [r E]. rewrite E in Hb.
  apply plain_tag in Hp as (_ & H3 & Hd & _). eexists. split; [by eapply peek_run|].
  split; [by apply Z.eqb_neq|done].
Qed.

(** [v] decodes, wherever it stands. *)
Definition decodes_back (v : Value) : Prop :=
  forall name depth rest d fuel,
    before d (wire_value name v ++ rest) -> encodable limits depth v -> plain v ->
    zlen name <= max_name_bytes limits -> field_ok limits name ->
    cnonneg (counters d) -> within limits (cplus (counters d) (value_cost name v)) ->
    2 * zlen (wire_value name v ++ rest) + 1 <= Z.of_nat fuel ->
    attribute_value input limits fuel depth d =
    (Ok (v_tag v, name, v), advance (zlen (wire_value name v)) (value_cost name v) d).

Lemma decodes_scalar tag data : scalar data -> decodes_back (mk_Value tag data).
Proof.
  intros Hs name depth rest d fuel Hb He Hp Hname Hf Hc Hw Hfuel.
  rewrite wire_scalar in * by done. rewrite cost_scalar in * by done. rewrite cplus_0_r in *.
  destruct fuel as [|fuel].
  { pose proof (zlen_nonneg (wire_entry tag name (scalar_raw data) ++ rest)). lia. }
  inversion He as [? ? ? _ Henc Hraw|]; [subst|by subst; destruct (Hs members)].
  inversion Hp as [? ? _ (Ht & _ & _ & Hctl) Htyped|]; [subst|by subst; destruct (Hs members)].
  rewrite attribute_value_S. eapply run_bind; [reflexivity|].
  eapply run_bind; [by eapply entry_run|]. cbn beta iota.
  assert (tag_is tag ValueTag.BegCollection = false) as Hnb.
  { destruct (tag_is tag ValueTag.BegCollection) eqn:E; [|done].
    apply bool_decide_eq_true in E as ->. unfold encode_scalar in Henc. cbn [v_tag v_data] in Henc.
    destruct data; try discriminate Henc. }
  unfold value_data. rewrite Hnb. eapply run_bind.
  { unfold eresult. rewrite decode_encode_scalar by done. reflexivity. }
  done.
Qed.

Lemma zlen_value_pos name v : 0 < zlen (wire_value name v).
Proof. destruct (wire_value_head name v) as [r ->]. rewrite zlen_cons. pose proof (zlen_nonneg r). lia. Qed.

(** The values of a member are pushed onto the member being built. *)
Lemma collection_values_run values name_m acc done_ depth rest d fuel :
  Forall decodes_back values -> (forall v, v ∈ values -> encodable limits depth v /\ plain v) ->
  before d (concat (map (wire_value []) values) ++ rest) ->
  cnonneg (counters d) -> within limits (cplus (counters d) (csum (value_cost []) values)) ->
  0 <= max_name_bytes limits -> 0 <= max_value_bytes limits ->
  2 * zlen (concat (map (wire_value []) values) ++ rest) + 2 <= Z.of_nat fuel ->
  exists fuel', 2 * zlen rest + 2 <= Z.of_nat fuel' /\
    collection input limits fuel depth (acc ++ [mk_Member name_m done_]) d =
    collection input limits fuel' depth (acc ++ [mk_Member name_m (done_ ++ values)])
      (advance (zlen (concat (map (wire_value []) values))) (csum (value_cost []) values) d).
Proof.
  intros Hd. revert done_ d fuel. induction Hd as [|v values Hv Hvs IH];
    intros done_ d fuel Hok Hb Hc Hw Hmn Hmv Hf.
  { exists fuel. cbn [map concat] in *. rewrite app_nil_r. split; [done|].
    change (csum (value_cost []) []) with Counters_default. by rewrite advance_0. }
  cbn [map concat] in *. rewrite <- app_assoc in Hb, Hf.
  change (csum (value_cost []) (v :: values))
    with (cplus (value_cost [] v) (csum (value_cost []) values)) in *.
  destruct (Hok v) as [He Hp]; [left|].
  pose proof (cnonneg_value [] v) as Cv.
  assert (cnonneg (csum (value_cost []) values)) as Cs
    by (apply cnonneg_sum, Forall_forall; intros; apply cnonneg_value).
  pose proof (zlen_value_pos [] v) as Hpos.
  pose proof (zlen_nonneg (concat (map (wire_value []) values) ++ rest)).
  rewrite zlen_app in Hf. rewrite cplus_assoc in Hw.
  destruct fuel as [|fuel]; [lia|].
  destruct (IH (done_ ++ [v]) (advance (zlen (wire_value [] v)) (value_cost [] v) d) fuel)
    as (fuel' & Hf' & Eq).
  - intros; apply Hok; by right.
  - by eapply before_advance.
  - cbn. by apply cnonneg_plus.
  - exact Hw.
  - done.
  - done.
  - lia.
  - exists fuel'. split; [done|].
    rewrite zlen_app, <- advance_advance, <- (app_assoc done_) in *. cbn [app] in Eq. rewrite <- Eq. clear Eq.
    rewrite collection_S. eapply run_bind; [reflexivity|].
    destruct (peek_value_run v [] d _ 0 Hp Hb) as (b & Hpk & H3 & Hdl & _).
    eapply run_bind; [exact Hpk|]. apply run_ecase; [done|]. apply run_ecase; [done|].
    eapply run_bind.
    { eapply Hv; try done; [by eapply within_prefix|zlen_lia]. }
    unfold member_step. apply run_ecase; [done|]. destruct (plain_tag v Hp) as (_ & _ & _ & Hctl).
    destruct (v_tag v); try discriminate Hctl;
      rewrite update_last_snoc; reflexivity.
Qed.

(** A control entry of a collection, read as a value. *)
Lemma control_run tag raw depth rest d fuel :
  control_tag tag = true ->
  before d (wire_entry tag [] raw ++ rest) -> field_ok limits raw ->
  0 <= max_name_bytes limits -> 0 <= max_value_bytes limits ->
  cnonneg (counters d) -> within limits (cplus (counters d) (entry_cost [] raw)) ->
  (0 < fuel)%nat ->
  attribute_value input limits fuel depth d =
  (Ok (tag, [], mk_Value tag (Bytes raw)), advance (zlen (wire_entry tag [] raw)) (entry_cost [] raw) d).
Proof.
  intros Ht Hb Hraw Hmn Hmv Hc Hw Hf. destruct fuel as [|fuel]; [lia|].
  assert (tag = ValueTag.MemberAttrName \/ tag = ValueTag.EndCollection) as Htag.
  { unfold control_tag in Ht. apply orb_true_iff in Ht as [E|E]; apply bool_decide_eq_true in E; auto. }
  rewrite attribute_value_S. eapply run_bind; [reflexivity|]. eapply run_bind.
  { eapply entry_run; try done. by destruct Htag as [->| ->]. }
  cbn beta iota. unfold value_data. by destruct Htag as [->| ->].
Qed.

Lemma peek_control_run tag raw rest d :
  control_tag tag = true -> before d (wire_entry tag [] raw ++ rest) ->
  exists b, peek input d = (Ok b, d) /\ (b =? END_OF_ATTRIBUTES_TAG) = false /\ is_delimiter_tag b = false.
Proof.
  intros Ht Hb. exists (ValueTag.to_byte tag). unfold wire_entry in Hb. cbn [app] in Hb.
  split; [by eapply peek_run|].
  unfold control_tag in Ht.
  apply orb_true_iff in Ht as [E|E]; apply bool_decide_eq_true in E as ->; done.
Qed.

Definition member_ok (depth : Z) (m : CollectionMember) : Prop :=
  (cm_name m <> [] /\ cm_values m <> [] /\ zlen (cm_name m) <= max_name_bytes limits /\
   field_ok limits (cm_name m)) /\
  forall v, v ∈ cm_values m -> encodable limits depth v /\ plain v.

Lemma member_step_name continue_ acc off name d :
  cm_name (mk_Member name []) <> [] -> zlen name <= max_name_bytes limits ->
  cnonneg (counters d) -> within limits (cplus (counters d) member_cost) ->
  member_step limits continue_ acc off
    (ValueTag.MemberAttrName, [], mk_Value ValueTag.MemberAttrName (Bytes name)) d =
  continue_ (acc ++ [mk_Member name []]) (advance 0 member_cost d).
Proof.
  intros Hne Hn Hc Hw. destruct Hc as (C1 & C2 & C3 & C4 & C5). destruct Hw as (_ & W2 & _ & W4 & _).
  cbn in W2, W4. unfold member_step. apply run_ecase; [done|]. cbn [v_data].
  apply run_ecase; [by destruct name|]. apply run_ecase; [lia|].
  eapply run_bind; [apply bump_run; cbn; lia|]. eapply run_bind; [reflexivity|].
  eapply run_bind; [apply add_attribute_run; [unfold cnonneg; cbn; lia|cbn; lia]|].
  f_equal. unfold advance, unit_cost, count, cplus, member_cost. cbn. by rewrite !Z.add_0_r.
Qed.

Lemma collection_end_run acc depth rest d fuel :
  before d (wire_entry ValueTag.EndCollection [] [] ++ rest) ->
  0 <= max_name_bytes limits -> 0 <= max_value_bytes limits ->
  cnonneg (counters d) -> within limits (cplus (counters d) (entry_cost [] [])) ->
  (1 < fuel)%nat ->
  collection input limits fuel depth acc d =
  (Ok acc, advance (zlen (wire_entry ValueTag.EndCollection [] [])) (entry_cost [] []) d).
Proof.
  intros Hb Hmn Hmv Hc Hw Hf. destruct fuel as [|fuel]; [lia|].
  rewrite collection_S. eapply run_bind; [reflexivity|].
  destruct (peek_control_run ValueTag.EndCollection _ _ _ eq_refl Hb) as (b & Hpk & H3 & Hdl).
  eapply run_bind; [exact Hpk|]. apply run_ecase; [done|]. apply run_ecase; [done|].
  eapply run_bind; [eapply control_run; try done; [reflexivity|lia]|]. done.
Qed.

(** Arithmetic on counters and their limits. *)
Ltac within_lia :=
  unfold within, cnonneg, cplus, advance in *;
  cbn -[zlen csum value_cost cost_of_member] in *; lia.

(** One member of a collection: its name and its values. *)
Lemma collection_member_run m acc depth tail d fuel :
  Forall decodes_back (cm_values m) -> member_ok depth m -> before d (wire_member m ++ tail) ->
  0 <= max_name_bytes limits -> 0 <= max_value_bytes limits ->
  cnonneg (counters d) -> within limits (cplus (counters d) (cost_of_member m)) ->
  2 * zlen (wire_member m ++ tail) + 2 <= Z.of_nat fuel ->
  exists fuel', 2 * zlen tail + 2 <= Z.of_nat fuel' /\
    collection input limits fuel depth acc d =
    collection input limits fuel' depth (acc ++ [m]) (advance (zlen (wire_member m)) (cost_of_member m) d).
Proof.
  intros Hm [(Hne & Hvne & Hname & Hfield) Hvok] Hb Hmn Hmv Hc Hw Hf.
  assert (Forall (fun v => cnonneg (value_cost [] v)) (cm_values m)) as Cv
    by (apply Forall_forall; intros; apply cnonneg_value).
  unfold wire_member, cost_of_member in *. rewrite <- app_assoc in Hb, Hf.
  pose proof (cnonneg_entry [] []) as Ce. pose proof (cnonneg_entry [] (cm_name m)) as Cn.
  assert (cnonneg member_cost) as Cm by (unfold cnonneg; cbn; lia).
  pose proof (cnonneg_sum _ _ Cv) as Cvs.
  rewrite zlen_app, zlen_wire_entry in Hf. pose proof (zlen_nonneg (cm_name m)). pose proof (@zlen_nonneg Z []).
  pose proof (zlen_nonneg (concat (map (wire_value []) (cm_values m)) ++ tail)).
  destruct fuel as [|fuel]; [lia|]. rewrite collection_S.
  destruct (peek_control_run ValueTag.MemberAttrName _ _ _ eq_refl Hb) as (b & Hpk & H3 & Hdl).
  erewrite run_bind; [|reflexivity|reflexivity]. erewrite run_bind; [|exact Hpk|reflexivity].
  rewrite H3, Hdl. unfold ecase.
  erewrite run_bind; [|eapply control_run; try done; [reflexivity|within_lia|lia]|reflexivity].
  rewrite member_step_name; [|done|done|by apply cnonneg_plus|within_lia].
  rewrite advance_advance, Z.add_0_r.
  apply (before_advance (zlen (wire_entry ValueTag.MemberAttrName [] (cm_name m)))
           (cplus (entry_cost [] (cm_name m)) member_cost)) in Hb; [|done].
  destruct (collection_values_run (cm_values m) (cm_name m) acc [] depth tail _ fuel Hm Hvok Hb)
    as (fuel' & Hf' & ->); [|within_lia|done|done|lia|].
  { unfold advance. cbn [counters]. by repeat apply cnonneg_plus. }
  exists fuel'. split; [done|]. rewrite advance_advance. cbn [app]. destruct m as [name values].
  cbn [cm_name cm_values] in *. by rewrite zlen_app, (cplus_comm (entry_cost _ _)), cplus_assoc.
Qed.

Lemma collection_members_run members acc depth rest d fuel :
  Forall (fun m => Forall decodes_back (cm_values m)) members ->
  (forall m, m ∈ members -> member_ok depth m) ->
  before d (concat (map wire_member members) ++ wire_entry ValueTag.EndCollection [] [] ++ rest) ->
  0 <= max_name_bytes limits -> 0 <= max_value_bytes limits ->
  cnonneg (counters d) ->
  within limits (cplus (counters d) (cplus (csum cost_of_member members) (entry_cost [] []))) ->
  2 * zlen (concat (map wire_member members) ++ wire_entry ValueTag.EndCollection [] [] ++ rest) + 2
    <= Z.of_nat fuel ->
  collection input limits fuel depth acc d =
  (Ok (acc ++ members),
   advance (zlen (concat (map wire_member members) ++ wire_entry ValueTag.EndCollection [] []))
     (cplus (csum cost_of_member members) (entry_cost [] [])) d).
Proof.
  intros Hd. revert acc d fuel. induction Hd as [|m members Hm Hms IH];
    intros acc d fuel Hok Hb Hmn Hmv Hc Hw Hf.
  { cbn [map concat app] in *. change (csum cost_of_member []) with Counters_default in *.
    rewrite app_nil_r, (cplus_comm Counters_default), cplus_0_r in *.
    eapply collection_end_run; try done. rewrite zlen_app, zlen_wire_entry in Hf.
    pose proof (zlen_nonneg rest). pose proof (@zlen_nonneg Z []). lia. }
  cbn [map concat] in *. change (csum cost_of_member (m :: members))
    with (cplus (cost_of_member m) (csum cost_of_member members)) in *. rewrite <- !app_assoc in *.
  assert (cnonneg (csum cost_of_member members)) as Cms.
  { apply cnonneg_sum, Forall_forall. intros. apply cnonneg_member, Forall_forall. intros. apply cnonneg_value. }
  assert (cnonneg (cost_of_member m)) as Cm by (apply cnonneg_member, Forall_forall; intros; apply cnonneg_value).
  pose proof (cnonneg_entry [] []) as Ce.
  destruct (collection_member_run m acc depth _ d fuel Hm (Hok m (list_elem_of_here _ _)) Hb)
    as (fuel' & Hf' & ->); [done|done|done|within_lia|done|].
  eapply before_advance in Hb; [|reflexivity].
  rewrite (IH _ _ fuel'); try done.
  - rewrite <- app_assoc. cbn [app]. f_equal. rewrite advance_advance, !zlen_app, <- cplus_assoc. f_equal.
  - intros m' Hm'. apply Hok. by right.
  - unfold advance. cbn [counters]. by apply cnonneg_plus.
  - within_lia.
Qed.

Lemma decodes_collection tag members :
  Forall (fun m => Forall decodes_back (cm_values m)) members ->
  decodes_back (mk_Value tag (Collection members)).
Proof.
  intros IH name depth rest d fuel Hb He Hp Hname Hf Hc Hw Hfuel.
  inversion He as [? ? ? Hs|? ms Hdepth Hms Henc]; subst; [by destruct (Hs members)|].
  inversion Hp as [? ? Hs|ms Hplain]; subst; [by destruct (Hs members)|].
  rewrite wire_collection in *. rewrite cost_collection in *.
  rewrite <- !app_assoc in Hb, Hfuel. rewrite !zlen_app, !zlen_wire_entry in Hfuel.
  pose proof (zlen_nonneg name). pose proof (@zlen_nonneg Z []). pose proof (zlen_nonneg rest).
  pose proof (zlen_nonneg (concat (map wire_member members))).
  pose proof Hf as [_ Hf0].
  assert (cnonneg (csum cost_of_member members)) as Cms.
  { apply cnonneg_sum, Forall_forall. intros. apply cnonneg_member, Forall_forall. intros.
    apply cnonneg_value. }
  pose proof (cnonneg_entry [] []) as Ce. pose proof (cnonneg_entry name []) as Cn.
  destruct fuel as [|fuel]; [lia|].
  rewrite attribute_value_S. eapply run_bind; [reflexivity|].
  eapply run_bind.
  { eapply entry_run; try done.
    - split; rewrite zlen_nil; [unfold u16_max|]; lia.
    - rewrite cplus_assoc in Hw. apply (within_prefix _ _ Hw). by apply cnonneg_plus. }
  cbn beta iota. unfold value_data.
  change (tag_is ValueTag.BegCollection ValueTag.BegCollection) with true. cbn iota.
  eapply run_bind; [|reflexivity]. apply run_ecase; [done|]. apply run_ecase; [lia|].
  apply (before_advance (zlen (wire_entry ValueTag.BegCollection name [])) (entry_cost name [])) in Hb;
    [|done].
  eapply run_bind; [eapply collection_members_run; try done|].
  - intros m Hm. split; [by apply Hms|]. intros v Hv. split; [by eapply Henc|by eapply Hplain].
  - lia.
  - lia.
  - unfold advance. cbn [counters]. by apply cnonneg_plus.
  - unfold advance. cbn [counters]. by rewrite cplus_assoc in Hw.
  - rewrite !zlen_app, !zlen_wire_entry. lia.
  - unfold eret. cbn [app]. rewrite advance_advance, !zlen_app, Z.add_assoc. done.
Qed.

Lemma decodes_all v : decodes_back v.
Proof.
  induction v as [tag data Hs|tag members IH] using value_nested_ind;
    [by apply decodes_scalar|by apply decodes_collection].
Qed.

(** *** Attributes and groups *)

Definition wire_attribute (a : Attribute) : list Z :=
  match a_values a with
  | [] => []
  | v :: vs => wire_value (a_name a) v ++ concat (map (wire_value []) vs)
  end.

Definition attribute_cost (a : Attribute) : Counters :=
  cplus (unit_cost 0 1 0 0 0)
  match a_values a with
  | [] => Counters_default
  | v :: vs => cplus (value_cost (a_name a) v) (csum (value_cost []) vs)
  end.

(** What encoding an attribute has checked, and that its values read back. *)
Definition attribute_ok (a : Attribute) : Prop :=
  a_name a <> [] /\ a_values a <> [] /\ zlen (a_name a) <= max_name_bytes limits /\
  field_ok limits (a_name a) /\ (forall v, v ∈ a_values a -> encodable limits 0 v /\ plain v).

Lemma group_attributes_S fuel attributes :
  group_attributes input limits (S fuel) attributes =
  (let! at_ := get_offset in
   if zlen input <=? at_ then eret attributes
   else
     let! next := peek input in
     if (next =? END_OF_ATTRIBUTES_TAG) || is_delimiter_tag next then eret attributes
     else
       let! entry_offset := get_offset in
       let! item := attribute_value input limits fuel 0 in
       match item with
       | (value_tag, name, value) =>
           let! attributes :=
             if zlen name =? 0 then
               eresult (ok_or (update_last (push_value value) attributes)
                              (DecodeError.MissingRepeatedAttribute entry_offset))
             else add_attribute limits ;! eret (attributes ++ [Attribute_new name value]) in
           ecase (control_tag value_tag)
             (DecodeError.IllegalTag entry_offset (ValueTag.to_byte value_tag)
                "collection control tag outside a collection")
             (group_attributes input limits fuel attributes)
       end).
Proof. reflexivity. Qed.

(** One iteration of the attribute loop over a value. *)
Lemma group_value_run fuel attributes name v rest d d' next_attributes :
  before d (wire_value name v ++ rest) -> encodable limits 0 v -> plain v ->
  zlen name <= max_name_bytes limits -> field_ok limits name ->
  cnonneg (counters d) -> within limits (cplus (counters d) (value_cost name v)) ->
  2 * zlen (wire_value name v ++ rest) + 1 <= Z.of_nat fuel ->
  (if zlen name =? 0 then
     eresult (ok_or (update_last (push_value v) attributes)
                    (DecodeError.MissingRepeatedAttribute (offset d)))
   else add_attribute limits ;! eret (attributes ++ [Attribute_new name v]))
    (advance (zlen (wire_value name v)) (value_cost name v) d) = (Ok next_attributes, d') ->
  group_attributes input limits (S fuel) attributes d =
  group_attributes input limits fuel next_attributes d'.
Proof.
  intros Hb He Hp Hname Hf Hc Hw Hfuel Hpush.
  rewrite group_attributes_S. eapply run_bind; [reflexivity|].
  destruct (Z.leb_spec (zlen input) (offset d)).
  { destruct Hb as (_ & Hl & _). rewrite zlen_app in Hl. pose proof (zlen_value_pos name v).
    pose proof (zlen_nonneg rest). lia. }
  destruct (peek_value_run v name d rest 0 Hp Hb) as (b & Hpk & H3 & Hdl & _).
  eapply run_bind; [exact Hpk|]. rewrite H3, Hdl. cbn [orb].
  eapply run_bind; [reflexivity|]. eapply run_bind; [by eapply decodes_all|].
  cbn beta iota. eapply run_bind; [exact Hpush|].
  apply run_ecase; [|done]. by destruct (plain_tag v Hp) as (_ & _ & _ & ?).
Qed.

Lemma group_values_run values name acc done_ rest d fuel :
  (forall v, v ∈ values -> encodable limits 0 v /\ plain v) ->
  before d (concat (map (wire_value []) values) ++ rest) ->
  cnonneg (counters d) -> within limits (cplus (counters d) (csum (value_cost []) values)) ->
  0 <= max_name_bytes limits -> 0 <= max_value_bytes limits ->
  2 * zlen (concat (map (wire_value []) values) ++ rest) + 2 <= Z.of_nat fuel ->
  exists fuel', 2 * zlen rest + 2 <= Z.of_nat fuel' /\
    group_attributes input limits fuel (acc ++ [{| a_name := name; a_values := done_ |}]) d =
    group_attributes input limits fuel' (acc ++ [{| a_name := name; a_values := done_ ++ values |}])
      (advance (zlen (concat (map (wire_value []) values))) (csum (value_cost []) values) d).
Proof.
  revert done_ d fuel. induction values as [|v values IH]; intros done_ d fuel Hok Hb Hc Hw Hmn Hmv Hf.
  { exists fuel. cbn [map concat] in *. rewrite app_nil_r. split; [done|].
    change (csum (value_cost []) []) with Counters_default. by rewrite advance_0. }
  cbn [map concat] in *. rewrite <- app_assoc in Hb, Hf.
  change (csum (value_cost []) (v :: values))
    with (cplus (value_cost [] v) (csum (value_cost []) values)) in *.
  destruct (Hok v) as [He Hp]; [left|]. pose proof (cnonneg_value [] v) as Cv.
  assert (cnonneg (csum (value_cost []) values)) as Cs
    by (apply cnonneg_sum, Forall_forall; intros; apply cnonneg_value).
  pose proof (zlen_value_pos [] v) as Hpos.
  pose proof (zlen_nonneg (concat (map (wire_value []) values) ++ rest)).
  rewrite cplus_assoc in Hw. destruct fuel as [|fuel]; [rewrite zlen_app in Hf; lia|].
  rewrite (group_value_run fuel _ [] v _ d
             (advance (zlen (wire_value [] v)) (value_cost [] v) d)
             (acc ++ [{| a_name := name; a_values := done_ ++ [v] |}]) Hb He Hp); try done.
  - destruct (IH (done_ ++ [v]) (advance (zlen (wire_value [] v)) (value_cost [] v) d) fuel)
      as (fuel' & Hf' & Eq).
    + intros; apply Hok; by right.
    + by eapply before_advance.
    + cbn. by apply cnonneg_plus.
    + exact Hw.
    + done.
    + done.
    + rewrite zlen_app in Hf. lia.
    + exists fuel'. split; [done|]. rewrite Eq.
      by rewrite zlen_app, <- advance_advance, <- (app_assoc done_).
  - by eapply within_prefix.
  - lia.
  - cbn [zlen length Z.of_nat Z.eqb]. rewrite update_last_snoc. done.
Qed.

Lemma cnonneg_attribute a : cnonneg (attribute_cost a).
Proof.
  unfold attribute_cost. apply cnonneg_plus; [unfold cnonneg; cbn; lia|].
  destruct (a_values a); [apply cnonneg_0|]. apply cnonneg_plus; [apply cnonneg_value|].
  apply cnonneg_sum, Forall_forall. intros. apply cnonneg_value.
Qed.

Ltac within_lia ::=
  unfold within, cnonneg, cplus, advance in *;
  cbn -[zlen csum value_cost cost_of_member attribute_cost] in *; lia.

(** One attribute of a group: the value with its name, and the others. *)
Lemma group_attribute_run a acc tail d fuel :
  attribute_ok a -> before d (wire_attribute a ++ tail) ->
  cnonneg (counters d) -> within limits (cplus (counters d) (attribute_cost a)) ->
  0 <= max_name_bytes limits -> 0 <= max_value_bytes limits ->
  2 * zlen (wire_attribute a ++ tail) + 2 <= Z.of_nat fuel ->
  exists fuel', 2 * zlen tail + 2 <= Z.of_nat fuel' /\
    group_attributes input limits fuel acc d =
    group_attributes input limits fuel' (acc ++ [a]) (advance (zlen (wire_attribute a)) (attribute_cost a) d).
Proof.
  intros (Hne & Hvne & Hname & Hfield & Hv) Hb Hc Hw Hmn Hmv Hf.
  destruct a as [name [|v vs]]; unfold wire_attribute, attribute_cost in *; cbn [a_name a_values] in *; [done|].
  destruct (Hv v) as [He Hp]; [left|].
  assert (cnonneg (csum (value_cost []) vs)) as Cvs
    by (apply cnonneg_sum, Forall_forall; intros; apply cnonneg_value).
  pose proof (cnonneg_value name v) as Cv. pose proof (zlen_value_pos name v) as Hpos.
  rewrite <- app_assoc in Hb, Hf. rewrite zlen_app in Hf.
  pose proof (zlen_nonneg (concat (map (wire_value []) vs) ++ tail)).
  destruct fuel as [|fuel]; [lia|].
  set (d1 := advance (zlen (wire_value name v)) (value_cost name v) d).
  set (d2 := advance 0 (unit_cost 0 1 0 0 0) d1).
  assert (cnonneg (counters d1)) as C1 by (unfold d1, advance; cbn [counters]; by apply cnonneg_plus).
  rewrite (group_value_run fuel acc name v (concat (map (wire_value []) vs) ++ tail) d d2
             (acc ++ [{| a_name := name; a_values := [v] |}])); try done; [|within_lia|rewrite zlen_app; lia|].
  2: { assert ((zlen name =? 0) = false) as -> by (by destruct name).
       eapply run_bind; [apply add_attribute_run; [exact C1|unfold d1; within_lia]|done]. }
  assert (before d2 (concat (map (wire_value []) vs) ++ tail)) as Hb2.
  { apply (before_advance 0 _ _ []); [|done]. by eapply before_advance. }
  assert (cnonneg (counters d2)) as C2.
  { unfold d2, advance. cbn [counters]. apply cnonneg_plus; [done|]. unfold cnonneg; cbn; lia. }
  destruct (group_values_run vs name acc [v] tail d2 fuel) as (f1 & Hf1 & ->); try done.
  { intros; apply Hv; by right. }
  { unfold d2, d1; within_lia. }
  { lia. }
  exists f1. split; [done|]. cbn [app]. unfold d2, d1. rewrite !advance_advance, zlen_app. unfold advance.
  do 2 f_equal; lia || (unfold cplus, unit_cost; cbn -[zlen csum value_cost]; f_equal; lia).
Qed.

Lemma group_attributes_run attributes acc rest d fuel :
  (forall a, a ∈ attributes -> attribute_ok a) ->
  before d (concat (map wire_attribute attributes) ++ rest) ->
  cnonneg (counters d) -> within limits (cplus (counters d) (csum attribute_cost attributes)) ->
  0 <= max_name_bytes limits -> 0 <= max_value_bytes limits ->
  2 * zlen (concat (map wire_attribute attributes) ++ rest) + 2 <= Z.of_nat fuel ->
  exists fuel', 2 * zlen rest + 2 <= Z.of_nat fuel' /\
    group_attributes input limits fuel acc d =
    group_attributes input limits fuel' (acc ++ attributes)
      (advance (zlen (concat (map wire_attribute attributes))) (csum attribute_cost attributes) d).
Proof.
  revert acc d fuel. induction attributes as [|a attributes IH]; intros acc d fuel Hok Hb Hc Hw Hmn Hmv Hf.
  { exists fuel. cbn [map concat] in *. rewrite app_nil_r. split; [done|].
    change (csum attribute_cost []) with Counters_default. by rewrite advance_0. }
  cbn [map concat] in *. rewrite <- app_assoc in Hb, Hf.
  change (csum attribute_cost (a :: attributes))
    with (cplus (attribute_cost a) (csum attribute_cost attributes)) in *.
  assert (cnonneg (csum attribute_cost attributes)) as Cas
    by (apply cnonneg_sum, Forall_forall; intros; apply cnonneg_attribute).
  pose proof (cnonneg_attribute a) as Ca.
  destruct (group_attribute_run a acc _ d fuel (Hok a (list_elem_of_here _ _)) Hb) as (f1 & Hf1 & ->);
    [done|within_lia|done..|].
  eapply before_advance in Hb; [|reflexivity].
  destruct (IH (acc ++ [a]) (advance (zlen (wire_attribute a)) (attribute_cost a) d) f1) as (f2 & Hf2 & ->); try done.
  { intros; apply Hok; by right. }
  { unfold advance. cbn [counters]. by apply cnonneg_plus. }
  { within_lia. }
  exists f2. split; [done|]. rewrite <- app_assoc, zlen_app. by rewrite advance_advance.
Qed.

Definition wire_group (g : AttributeGroup) : list Z :=
  g_tag g :: concat (map wire_attribute (g_attributes g)).

Definition group_cost (g : AttributeGroup) : Counters :=
  cplus (unit_cost 1 0 0 0 0) (csum attribute_cost (g_attributes g)).

Definition group_ok (g : AttributeGroup) : Prop :=
  is_delimiter_tag (g_tag g) = true /\ forall a, a ∈ g_attributes g -> attribute_ok a.

Lemma group_end_run tag rest attributes d fuel :
  before d (tag :: rest) -> tag = END_OF_ATTRIBUTES_TAG \/ is_delimiter_tag tag = true ->
  (0 < fuel)%nat ->
  group_attributes input limits fuel attributes d = (Ok attributes, d).
Proof.
  intros Hb Ht Hf. destruct fuel as [|fuel]; [lia|]. rewrite group_attributes_S.
  eapply run_bind; [reflexivity|]. destruct (zlen input <=? offset d); [done|].
  eapply run_bind; [by eapply peek_run|]. by destruct Ht as [->| ->]; rewrite ?orb_true_r.
Qed.

Lemma message_groups_S fuel groups :
  message_groups input limits (S fuel) groups =
  (let! marker_offset := get_offset in
   let! tag := marker input in
   if tag =? END_OF_ATTRIBUTES_TAG then
     let! at_ := get_offset in
     ecase (negb (at_ =? zlen input)) (DecodeError.TrailingBytes at_) (eret groups)
   else
     ecase (negb (is_delimiter_tag tag)) (DecodeError.MissingGroup marker_offset tag)
     (bump "groups" 1 (max_groups limits) ;!
      add_count "groups" 1 ;!
      let! attributes := group_attributes input limits fuel [] in
      message_groups input limits fuel (groups ++ [{| g_tag := tag; g_attributes := attributes |}]))).
Proof. reflexivity. Qed.

Lemma marker_run d b rest :
  before d (b :: rest) -> marker input d = (Ok b, advance 1 Counters_default d).
Proof. intros Hb. unfold marker. by rewrite (byte_run d b rest Hb). Qed.

Ltac within_lia ::=
  unfold within, cnonneg, cplus, advance in *;
  cbn -[zlen csum value_cost cost_of_member attribute_cost group_cost] in *; lia.

Lemma cnonneg_group g : cnonneg (group_cost g).
Proof.
  apply cnonneg_plus; [unfold cnonneg; cbn; lia|]. apply cnonneg_sum, Forall_forall. intros. apply cnonneg_attribute.
Qed.

(** The tag that ends the message, at its end. *)
Lemma message_end_run acc d fuel :
  before d [END_OF_ATTRIBUTES_TAG] -> (0 < fuel)%nat ->
  exists d', message_groups input limits fuel acc d = (Ok acc, d').
Proof.
  intros Hb Hf. destruct fuel as [|fuel]; [lia|].
  eexists. rewrite message_groups_S. eapply run_bind; [reflexivity|].
  eapply run_bind; [by eapply marker_run|]. cbn [END_OF_ATTRIBUTES_TAG Z.eqb Pos.eqb].
  eapply run_bind; [reflexivity|]. apply run_ecase; [|reflexivity].
  destruct Hb as (_ & Hl & _). unfold advance. cbn [offset]. rewrite zlen_cons, zlen_nil in Hl.
  destruct (Z.eqb_spec (offset d + 1) (zlen input)); [done|lia].
Qed.

(** A delimiter starts a group. *)
Lemma group_start_run tag rest acc d fuel :
  is_delimiter_tag tag = true -> tag <> END_OF_ATTRIBUTES_TAG -> before d (tag :: rest) ->
  cnonneg (counters d) -> within limits (cplus (counters d) (unit_cost 1 0 0 0 0)) ->
  message_groups input limits (S fuel) acc d =
  (let! attributes := group_attributes input limits fuel [] in
   message_groups input limits fuel (acc ++ [{| g_tag := tag; g_attributes := attributes |}]))
    (advance 1 (unit_cost 1 0 0 0 0) d).
Proof.
  intros Hdel Hne Hb Hc Hw. rewrite message_groups_S. unfold ebind at 1, get_offset at 1.
  erewrite run_bind; [|by eapply marker_run|reflexivity].
  destruct (Z.eqb_spec tag END_OF_ATTRIBUTES_TAG); [done|]. rewrite Hdel. cbn [negb]. unfold ecase.
  erewrite run_bind; [|apply bump_run; within_lia|reflexivity].
  erewrite run_bind; [|reflexivity|reflexivity]. f_equal.
  unfold advance, count, unit_cost, cplus. cbn. by rewrite !Z.add_0_r.
Qed.

(** What follows a group: another, or the end. *)
Lemma groups_head groups :
  (forall g, g ∈ groups -> group_ok g) ->
  exists b r, concat (map wire_group groups) ++ [END_OF_ATTRIBUTES_TAG] = b :: r /\
    (b = END_OF_ATTRIBUTES_TAG \/ is_delimiter_tag b = true).
Proof.
  intros Hok. destruct groups as [|g groups]; [cbn; eauto|].
  cbn [map concat]. unfold wire_group at 1. cbn [app]. do 2 eexists. split; [done|].
  right. apply (Hok g). left.
Qed.

Lemma message_groups_run groups acc d fuel :
  (forall g, g ∈ groups -> group_ok g) ->
  before d (concat (map wire_group groups) ++ [END_OF_ATTRIBUTES_TAG]) ->
  cnonneg (counters d) -> within limits (cplus (counters d) (csum group_cost groups)) ->
  0 <= max_name_bytes limits -> 0 <= max_value_bytes limits ->
  2 * zlen (concat (map wire_group groups) ++ [END_OF_ATTRIBUTES_TAG]) + 1 <= Z.of_nat fuel ->
  exists d', message_groups input limits fuel acc d = (Ok (acc ++ groups), d').
Proof.
  revert acc d fuel. induction groups as [|g groups IH]; intros acc d fuel Hok Hb Hc Hw Hmn Hmv Hf.
  { cbn [map concat app] in *. rewrite app_nil_r. apply message_end_run; [done|]. rewrite zlen_cons, zlen_nil in Hf. lia. }
  cbn [map concat] in *. rewrite <- app_assoc in Hb, Hf.
  change (csum group_cost (g :: groups)) with (cplus (group_cost g) (csum group_cost groups)) in Hw.
  destruct (Hok g) as [Hdel Hattr]; [left|].
  assert (g_tag g <> END_OF_ATTRIBUTES_TAG) as Hne by (intros E; by rewrite E in Hdel).
  destruct (groups_head groups) as (b & r & Et & Hbt); [intros; apply Hok; by right|].
  assert (cnonneg (csum group_cost groups)) as Cgs by (apply cnonneg_sum, Forall_forall; intros; apply cnonneg_group).
  assert (cnonneg (csum attribute_cost (g_attributes g))) as Cas
    by (apply cnonneg_sum, Forall_forall; intros; apply cnonneg_attribute).
  set (tail := concat (map wire_group groups) ++ [END_OF_ATTRIBUTES_TAG]) in *.
  unfold wire_group in Hb at 1. unfold wire_group in Hf at 1. unfold group_cost in Hw at 1.
  cbn [app] in Hb, Hf. rewrite zlen_cons in Hf.
  pose proof (zlen_nonneg (concat (map wire_attribute (g_attributes g)) ++ tail)). pose proof (zlen_nonneg tail).
  destruct fuel as [|fuel]; [lia|]. rewrite (group_start_run (g_tag g) _ acc d fuel Hdel Hne Hb Hc) by within_lia.
  apply (before_advance 1 (unit_cost 1 0 0 0 0) _ [g_tag g]) in Hb; [|done].
  assert (cnonneg (counters (advance 1 (unit_cost 1 0 0 0 0) d))) as C2.
  { unfold advance. cbn [counters]. apply cnonneg_plus; [done|unfold cnonneg; cbn; lia]. }
  destruct (group_attributes_run (g_attributes g) [] tail (advance 1 (unit_cost 1 0 0 0 0) d) fuel)
    as (f1 & Hf1 & Eq); [done|done|done|within_lia|done|done|lia|].
  eapply before_advance in Hb; [|reflexivity].
  rewrite Et in Hb. erewrite run_bind; [|rewrite Eq; eapply group_end_run; [exact Hb|done|lia]|reflexivity].
  rewrite <- Et in Hb. cbn [app]. destruct g as [gt gas]. cbn [g_tag g_attributes] in *.
  edestruct (IH (acc ++ [{| g_tag := gt; g_attributes := gas |}])) as (d' & Hd');
    [intros; apply Hok; by right|exact Hb|..|exists d'; rewrite <- app_assoc in Hd'; exact Hd'].
  - unfold advance. cbn [counters]. by apply cnonneg_plus.
  - within_lia.
  - done.
  - done.
  - pose proof (zlen_nonneg (concat (map wire_attribute gas))). rewrite zlen_app in Hf. lia.
Qed.
End Decode.

(** ** Messages *)

Section Message.
Variable limits : Limits.
Hypothesis sane : limits_sane limits.

Lemma encode_values_efor depth values :
  forall e, encode_values limits [] values depth e =
    efor (fun v => encode_value limits [] v depth) values e.
Proof.
  induction values as [|v values IH]; intros e; [done|]. cbn [encode_values efor].
  unfold ebind. destruct (encode_value limits [] v depth e) as [[u|x] e']; [apply IH|done].
Qed.

Lemma encode_attribute_inv a e u e' :
  encode_attribute limits a 0 e = (Ok u, e') ->
  emits limits (wire_attribute a) (attribute_cost a) e e' /\
  (a_name a <> [] /\ a_values a <> [] /\ zlen (a_name a) <= max_name_bytes limits /\
   field_ok limits (a_name a) /\ (forall v, v ∈ a_values a -> encodable limits 0 v)).
Proof.
  intros Hr. unfold encode_attribute, check_name in Hr. inv_run Hr.
  apply orb_false_iff in Hb as [Hb1 Hb2]. apply bool_decide_eq_false in Hb1, Hb2.
  destruct a as [name [|v vs]]; cbn [a_name a_values] in *; [done|].
  apply bump_attributes_inv in Hx; [|done]. cbn [encode_values] in Hr. inv_run Hr.
  apply encode_value_inv in Hx0 as (Hx0 & He & Hf); [|done].
  rewrite encode_values_efor in Hr.
  apply (efor_emits limits _ (wire_value []) (value_cost []) (encodable limits 0)) in Hr as [Hr Hvs].
  2: { intros w ew uw ew' _ Hw. apply encode_value_inv in Hw as (? & ? & _); done. }
  split.
  - eapply emits_eq.
    + exact (emits_trans _ _ _ _ _ _ _ _ Hx (emits_trans _ _ _ _ _ _ _ _ Hx0 Hr)).
    + done.
    + done.
  - split_and!; try done; [by apply Z.ltb_ge in Hb0|]. intros w Hw.
    rewrite Forall_forall in Hvs. apply elem_of_cons in Hw as [->|Hw]; [done|].
    by apply Hvs, list_elem_of_In.
Qed.

Lemma encode_group_inv g e u e' :
  encode_group limits g e = (Ok u, e') ->
  emits limits (wire_group g) (group_cost g) e e' /\
  (is_delimiter_tag (g_tag g) = true /\
   Forall (fun a => a_name a <> [] /\ a_values a <> [] /\ zlen (a_name a) <= max_name_bytes limits /\
     field_ok limits (a_name a) /\ (forall v, v ∈ a_values a -> encodable limits 0 v))
     (g_attributes g)).
Proof.
  intros Hr. unfold encode_group in Hr. inv_run Hr. apply negb_false_iff in Hb.
  apply bump_groups_inv in Hx; [|done]. apply push_inv in Hx0; [|done].
  apply (efor_emits limits _ wire_attribute attribute_cost
    (fun a => a_name a <> [] /\ a_values a <> [] /\ zlen (a_name a) <= max_name_bytes limits /\
       field_ok limits (a_name a) /\ (forall v, v ∈ a_values a -> encodable limits 0 v))) in Hr as [Hr Ha].
  2: { intros a ea ua ea' _ H. by apply encode_attribute_inv in H. }
  split; [|done]. eapply emits_eq.
  - exact (emits_trans _ _ _ _ _ _ _ _ Hx (emits_trans _ _ _ _ _ _ _ _ Hx0 Hr)).
  - done.
  - unfold group_cost. done.
Qed.

Definition wire_message (m : Message) : list Z :=
  [major (version m); minor (version m)] ++ to_be_bytes 2 (code m) ++ to_be_bytes 4 (request_id m) ++
  concat (map wire_group (groups m)) ++ [END_OF_ATTRIBUTES_TAG].

(** The Rust types of the header fields, and values that read back. *)
Definition message_plain (m : Message) : Prop :=
  in_u u16_max (code m) /\ in_u u32_max (request_id m) /\
  forall g a v, g ∈ groups m -> a ∈ g_attributes g -> v ∈ a_values a -> plain v.

Lemma encoder_inv m u e' :
  encoder limits m {| output := []; e_counters := Counters_default |} = (Ok u, e') ->
  0 <= max_message_bytes limits -> within limits Counters_default ->
  output e' = wire_message m /\ within limits (csum group_cost (groups m)) /\
  zlen (output e') <= max_message_bytes limits /\
  (message_plain m -> forall g, g ∈ groups m -> group_ok limits g).
Proof.
  intros Hr Hm Hw. unfold encoder in Hr. inv_run Hr.
  apply push_inv in Hx, Hx0, Hr; [|done..]. apply extend_inv in Hx1, Hx2; [|done..].
  apply (efor_emits limits _ wire_group group_cost
    (fun g => is_delimiter_tag (g_tag g) = true /\
       Forall (fun a => a_name a <> [] /\ a_values a <> [] /\ zlen (a_name a) <= max_name_bytes limits /\
         field_ok limits (a_name a) /\ (forall v, v ∈ a_values a -> encodable limits 0 v))
         (g_attributes g))) in Hx3 as [Hx3 Hg].
  2: { intros g eg ug eg' _ H. by apply encode_group_inv in H. }
  destruct (emits_trans _ _ _ _ _ _ _ _ Hx (emits_trans _ _ _ _ _ _ _ _ Hx0
    (emits_trans _ _ _ _ _ _ _ _ Hx1 (emits_trans _ _ _ _ _ _ _ _ Hx2
      (emits_trans _ _ _ _ _ _ _ _ Hx3 Hr))))) as (Eo & Ec & Ew & Em).
  cbn [output e_counters app] in *. split; [exact Eo|].
  assert (e_counters e' = csum group_cost (groups m)) as Ec'.
  { rewrite Ec, !cplus_0_r. rewrite !(cplus_comm Counters_default), !cplus_0_r. done. }
  rewrite <- Ec'. split; [by apply Ew|]. split; [apply Em; exact Hm|].
  intros (_ & _ & Hp) g Hin. rewrite Forall_forall in Hg.
  destruct (Hg g) as [Hd Ha]; [by apply list_elem_of_In|]. split; [done|]. intros a Hina.
  rewrite Forall_forall in Ha. destruct (Ha a) as (H1 & H2 & H3 & H4 & H5); [by apply list_elem_of_In|].
  split_and!; try done. intros v Hv. split; [by apply H5|by eapply Hp].
Qed.
End Message.

(** [usize] fields. *)
Definition limits_typed (limits : Limits) : Prop :=
  0 <= max_name_bytes limits /\ 0 <= max_value_bytes limits /\ within limits Counters_default /\
  limits_sane limits.

Lemma encode_total m limits : panics (encode m limits) = false.
Proof.
  unfold encode. apply panics_bind; [apply panics_raising|]. intros l _.
  destruct (encoder_calm l m {| output := []; e_counters := Counters_default |}) as [Hm _].
  by destruct (encoder l m _) as [[[]|[e|]] e'].
Qed.

Lemma extend_out limits bytes e u e' : extend limits bytes e = (Ok u, e') -> output e' = output e ++ bytes.
Proof.
  intros Hr. unfold extend in Hr. apply run_bind_inv in Hr as ([] & e1 & H1 & H2).
  unfold add_output in H1. destruct (_ <? _) in H1; [done|]. injection H1 as <-. by injection H2 as <- <-.
Qed.

Lemma steady_grows (m : EM Encoder EncodeError.t unit) e u e' :
  steady appends m -> m e = (Ok u, e') -> exists rest, output e' = output e ++ rest.
Proof. intros Hm Hr. destruct (Hm e) as [_ [rest E]]. rewrite Hr in E. by exists rest. Qed.

Lemma encoder_head limits m e u e' :
  encoder limits m e = (Ok u, e') ->
  exists rest, output e' = output e ++ [major (version m); minor (version m)] ++ to_be_bytes 2 (code m) ++ rest.
Proof.
  intros Hr. unfold encoder in Hr. change (push limits) with (fun b => extend limits [b]) in Hr.
  apply run_bind_inv in Hr as ([] & e1 & H1 & Hr). apply run_bind_inv in Hr as ([] & e2 & H2 & Hr).
  apply run_bind_inv in Hr as ([] & e3 & H3 & Hr). apply extend_out in H1, H2, H3.
  apply steady_grows in Hr as [rest E].
  - exists rest. by rewrite E, H3, H2, H1, <- !app_assoc.
  - apply steady_bind; [apply extend_calm|intros _]. apply steady_bind; [|intros _; apply extend_calm].
    apply steady_efor. intros g _. apply encode_group_calm.
Qed.

(** The code of a message is where its reader looks for it. *)
Lemma encode_operation m limits bytes :
  encode m limits = Ok bytes ->
  exists rest, bytes = [major (version m); minor (version m)] ++ to_be_bytes 2 (code m) ++ rest.
Proof.
  intros He. unfold encode in He. apply rbind_Ok in He as (l & _ & He).
  destruct (encoder l m _) as [[u|x] e'] eqn:Er; [|done]. injection He as <-.
  apply encoder_head in Er as (rest & E). by exists rest.
Qed.

(** C4: encoding round-trips. Whatever [encode] accepts, [decode] with the same
    limits accepts and reads back: the message with its groups, attributes,
    values and nested collections, and the encoded bytes as its original
    bytes. It holds for messages of values that denote themselves: known or
    unaliased extension tags that are neither delimiters nor collection
    control tags, with payloads of their Rust type. *)
Theorem encode_decode m limits bytes :
  limits_typed limits -> message_plain m -> encode m limits = Ok bytes ->
  decode bytes limits =
  Ok {| version := version m; code := code m; request_id := request_id m; groups := groups m;
        original_bytes := bytes |}.
Proof.
  intros (Hmn & Hmv & Hw0 & Hsane) Hp He. unfold encode, Limits_validate in He. unfold decode, Limits_validate.
  destruct (limits_invalid limits) eqn:Hinv; [done|]. cbn [map_err raising rbind] in *.
  destruct (encoder limits m _) as [[u|x] e'] eqn:Erun; [|done]. injection He as <-.
  assert (0 <= max_message_bytes limits) as Hmm.
  { unfold limits_invalid in Hinv. repeat apply orb_false_iff in Hinv as [Hinv _]. lia. }
  destruct (encoder_inv limits Hsane m u e' Erun Hmm Hw0) as (Eo & Hw & Hlen & Hok).
  specialize (Hok Hp). destruct (Z.ltb_spec (max_message_bytes limits) (zlen (output e'))); [lia|].
  rewrite Eo in *. clear Eo. set (input := wire_message m) in *.
  assert (zlen input <= usize_max) as Hsmall by (destruct Hsane as (_ & _ & _ & _ & _ & ?); lia).
  set (d0 := {| offset := 0; counters := Counters_default |}).
  assert (before input d0 input) as Hb by (unfold before, d0; cbn; split; [lia|done]).
  destruct Hp as (Hcode & Hreq & _).
  unfold decoder. unfold input at 2 in Hb. unfold wire_message in Hb. cbn [app] in Hb.
  erewrite run_bind; [|by eapply byte_run|reflexivity].
  eapply (before_advance input 1 Counters_default _ [_]) in Hb; [|done].
  erewrite run_bind; [|by eapply byte_run|reflexivity].
  eapply (before_advance input 1 Counters_default _ [_]) in Hb; [|done].
  erewrite run_bind; [|by eapply u16_run|reflexivity].
  eapply (before_advance input 2 Counters_default) in Hb; [|by rewrite zlen_to_be_bytes].
  erewrite run_bind; [|by eapply u32_run|reflexivity].
  eapply (before_advance input 4 Counters_default) in Hb; [|by rewrite zlen_to_be_bytes].
  pose proof Hb as (Hoff & Hrest & _). unfold d0, advance in Hoff, Hrest. cbn [offset] in Hoff, Hrest.
  destruct (message_groups_run input limits Hsmall (groups m) [] _ (2 * length input + 2)%nat Hok Hb)
    as (d' & Hd').
  - unfold cnonneg. cbn. lia.
  - unfold d0, within, cplus, advance in *. cbn -[csum] in *. lia.
  - done.
  - done.
  - assert (Z.of_nat (length input) = zlen input) as El by done. lia.
  - erewrite run_bind; [|exact Hd'|reflexivity]. destruct m as [[mj mi] c r gs o]. done.
Qed.

Definition nested_message : Message := {|
  version := V2_0; code := GET_PRINTER_ATTRIBUTES; request_id := 77;
  groups := [
    {| g_tag := OPERATION_ATTRIBUTES_TAG; g_attributes := [
         {| a_name := str "media-col";
            a_values := [
              Value_collection [
                mk_Member (str "size") [Value_collection [mk_Member (str "x") [Value_integer (-5)]]];
                mk_Member (str "kind") [Value_raw ValueTag.Keyword (str "label"); Value_boolean true]];
              Value_enum 7] |} ] |};
    {| g_tag := PRINTER_ATTRIBUTES_TAG; g_attributes := [] |} ];
  original_bytes := [];
|}.

Lemma nested_message_plain : message_plain nested_message.
Proof.
  assert (forall tag data, scalar data -> tag_plain tag -> data_typed data -> plain (mk_Value tag data))
    as Hs by (intros; by constructor).
  split; [split; discriminate|]. split; [split; discriminate|]. cbn [groups nested_message].
  intros g a v Hg Ha Hv. rewrite !elem_of_cons, elem_of_nil in Hg.
  destruct Hg as [->|[->|[]]]; cbn [g_attributes] in Ha; [|by inversion Ha].
  apply list_elem_of_singleton in Ha as ->. cbn [a_values] in Hv.
  rewrite !elem_of_cons, elem_of_nil in Hv. destruct Hv as [->|[->|[]]].
  2: { apply Hs; [discriminate|done|]. unfold data_typed, i32_ok, i32_min, i32_max. lia. }
  apply plain_collection. intros m v Hm Hv. rewrite !elem_of_cons, elem_of_nil in Hm.
  destruct Hm as [->|[->|[]]]; cbn [cm_values] in Hv; rewrite !elem_of_cons, elem_of_nil in Hv.
  - destruct Hv as [->|[]]. apply plain_collection. intros m v Hm Hv.
    apply list_elem_of_singleton in Hm as ->. apply list_elem_of_singleton in Hv as ->.
    apply Hs; [discriminate|done|]. unfold data_typed, i32_ok, i32_min, i32_max. lia.
  - destruct Hv as [->|[->|[]]]; apply Hs; try discriminate; done.
Qed.

Lemma limits_default_typed : limits_typed Limits_default.
Proof.
  unfold limits_typed, within, limits_sane, Limits_default, usize_max, u64_max, Counters_default. cbn. lia.
Qed.

Lemma encode_decode_witness :
  exists bytes, encode nested_message Limits_default = Ok bytes /\
    exists m, decode bytes Limits_default = Ok m /\ groups m = groups nested_message.
Proof.
  eexists. split; [vm_compute; reflexivity|]. eexists. split.
  - apply (encode_decode nested_message).
    + exact limits_default_typed.
    + exact nested_message_plain.
    + vm_compute. reflexivity.
  - reflexivity.
Defined.

(** The hypothesis on tags is needed: [encode] accepts a value tagged as a
    collection control, whose bytes [decode] refuses. *)
Lemma encode_accepts_control_tag :
  match encode {| version := V1_1; code := 2; request_id := 1; original_bytes := [];
                  groups := [{| g_tag := 1; g_attributes :=
                    [Attribute_new (str "a") (Value_raw ValueTag.EndCollection [])] |}] |} Limits_default with
  | Ok bytes => result_ok (decode bytes Limits_default)
  | Err _ => Some nested_message
  end = None.
Proof. by vm_compute. Qed.

(** ** Requests *)

Lemma map_raw_nil l : bool_decide (map (Value_raw ValueTag.Keyword) l = []) = bool_decide (l = []).
Proof. apply bool_decide_ext. by destruct l. Qed.

(** supported-values requests are explicit. The administrator request is
    built exactly for a non-empty list of attribute names that all end in
    [-supported]; it has operation [Get-Printer-Supported-Values], the given
    request id, and a single operation group whose last attribute,
    [requested-attributes], lists exactly those names in order. *)
Theorem supported_values_request_spec uri names request_id m :
  get_printer_supported_values_request uri names request_id = Ok m <->
  names <> [] /\ Forall (fun n => ends_with (str "-supported") n = true) names /\
  version m = V2_0 /\ code m = GET_PRINTER_SUPPORTED_VALUES /\ Ipp.request_id m = request_id /\
  original_bytes m = [] /\
  groups m = [{| g_tag := OPERATION_ATTRIBUTES_TAG; g_attributes := [
    Attribute_new (str "attributes-charset") (Value_raw ValueTag.Charset (str "utf-8"));
    Attribute_new (str "attributes-natural-language") (Value_raw ValueTag.NaturalLanguage (str "en"));
    Attribute_new (str "printer-uri") (Value_raw ValueTag.Uri uri);
    {| a_name := str "requested-attributes"; a_values := map (Value_raw ValueTag.Keyword) names |} ] |}].
Proof.
  unfold get_printer_supported_values_request.
  assert (existsb (fun a => negb (ends_with (str "-supported") a) || bool_decide (a = str "all")) names = false
          <-> Forall (fun n => ends_with (str "-supported") n = true) names) as Hall.
  { rewrite <- not_true_iff_false, existsb_exists, Forall_forall. split.
    - intros Hn x Hx. destruct (ends_with (str "-supported") x) eqn:E; [done|].
      exfalso. apply Hn. exists x. by rewrite E.
    - intros Hf (x & Hx & E). apply Hf in Hx as Hs. rewrite Hs in E. cbn in E.
      apply bool_decide_eq_true in E as ->. by vm_compute in Hs. }
  case_bool_decide as Hn; [by split; [|intros (? & _)]|].
  destruct (existsb _ names) eqn:Ee.
  - split; [done|]. intros (_ & Hf & _). apply Hall in Hf. done.
  - pose proof (proj1 Hall eq_refl) as Hf. unfold get_printer_attributes_request. rewrite map_raw_nil.
    rewrite bool_decide_eq_false_2 by done. split.
    + intros [= <-]. done.
    + intros (_ & _ & Hv & Hc & Hr & Ho & Hg). destruct m. cbn in *. by subst.
Qed.
