(* ===== verification/Administration.v ===== *)
(** Confirmed printer changes
    (crates/mb-printer-core/src/administration.rs, and [SettingValue] and
    [ProtocolFamily] of discovery.rs): planning a change of an IPP attribute
    from an observation of the printer, and validating it again before it is
    written. SHA-256 and the JSON serializer are parameters. *)

From stdpp Require Import base gmap sets list strings numbers option.
From S2P Require Import Prelude Text Effects Ipp.

#[local] Open Scope Z_scope.

(** ** Data *)

Module SettingValue.
Inductive t :=
| Boolean (value : bool)
| Integer (value : Z)
| Text (value : list Z)
| Keyword (value : list Z)
| Bytes (value : list Z)
| List (values : list t).
End SettingValue.

Inductive ProtocolFamily := FamilyIpp | FamilyPjl | FamilyIeee1284 | FamilyBrother | FamilySnmp | FamilyUnknown.

#[global] Instance ProtocolFamily_eq_dec : EqDecision ProtocolFamily.
Proof. solve_decision. Defined.

Record ConfirmedChangePlan := {
  plan_printer_id : list Z;
  plan_endpoint_generation : Z;
  plan_setting : list Z;
  expected_old_value_hash : list Z;
  plan_requested_value : SettingValue.t;
  requested_protocol_value : Value;
  plan_principal : list Z;
  plan_family : ProtocolFamily;
  plan_expires_at_unix_ms : Z;
}.

Record ChangeBinding := {
  printer_id : list Z;
  endpoint_generation : Z;
  principal : list Z;
  family : ProtocolFamily;
  now_unix_ms : Z;
}.

Module ChangePlanError.
Inductive t :=
| UnsuccessfulObservation
| OperationNotAdvertised
| MissingOrMalformedSettableMetadata
| AttributeNotSettable (name : list Z)
| CurrentValueMissing (name : list Z)
| IncompatibleValue
| SupportedValuesRequired
| MissingValueConstraints
| RequestedValueNotSupported
| Expired
| StaleBinding (what : string)
| StaleValue.
End ChangePlanError.

Record SupportedPrinterValues := {
  attributes : gmap (list Z) (list Value);
  unsupported_attributes : list (list Z);
}.

Inductive SupportedValuesError := Unsuccessful | InvalidAttribute | InvalidName.

Record PlanChangeRequest := {
  req_printer_id : list Z;
  req_endpoint_generation : Z;
  req_setting : list Z;
  req_value : Value;
  req_principal : list Z;
  req_family : ProtocolFamily;
  req_expires_at_unix_ms : Z;
}.

#[local] Abbreviation Res := (Result ChangePlanError.t).

(** ** Equality ([derive(PartialEq)]) *)

Section ListEq.
Context {A B : Type}.
Variable eqb : A -> B -> bool.

Fixpoint list_eqb (l : list A) (k : list B) : bool :=
  match l, k with
  | [], [] => true
  | a :: l, b :: k => eqb a b && list_eqb l k
  | _, _ => false
  end.
End ListEq.

Fixpoint value_eqb (a b : Value) : bool :=
  match a, b with
  | mk_Value tag data, mk_Value tag' data' =>
      bool_decide (tag = tag') &&
      match data, data' with
      | OutOfBand, OutOfBand => true
      | Integer n, Integer n' | Enum n, Enum n' => n =? n'
      | Boolean b, Boolean b' => Bool.eqb b b'
      | DateTime l, DateTime l' | Bytes l, Bytes l' => bool_decide (l = l')
      | Resolution c f u, Resolution c' f' u' => (c =? c') && (f =? f') && (u =? u')
      | RangeOfInteger l u, RangeOfInteger l' u' => (l =? l') && (u =? u')
      | Collection members, Collection members' =>
          list_eqb (fun m m' =>
            match m, m' with
            | mk_Member name values, mk_Member name' values' =>
                bool_decide (name = name') && list_eqb value_eqb values values'
            end) members members'
      | _, _ => false
      end
  end.

Fixpoint setting_eqb (a b : SettingValue.t) : bool :=
  match a, b with
  | SettingValue.Boolean b, SettingValue.Boolean b' => Bool.eqb b b'
  | SettingValue.Integer n, SettingValue.Integer n' => n =? n'
  | SettingValue.Text l, SettingValue.Text l' | SettingValue.Keyword l, SettingValue.Keyword l'
  | SettingValue.Bytes l, SettingValue.Bytes l' => bool_decide (l = l')
  | SettingValue.List l, SettingValue.List l' => list_eqb setting_eqb l l'
  | _, _ => false
  end.

(** ** Reading an observation *)

Definition all_attributes (message : Message) : list Attribute := flat_map g_attributes (groups message).

Definition find_attribute (message : Message) (name : list Z) : option Attribute :=
  List.find (fun a => bool_decide (a_name a = name)) (all_attributes message).

Definition operation_is_advertised (message : Message) (operation : Z) : bool :=
  match find_attribute message (str "operations-supported") with
  | Some attribute =>
      existsb (fun value => match v_data value with Enum n => n =? operation | _ => false end)
        (a_values attribute)
  | None => false
  end.

(** The loop over the values of [printer-settable-attributes-supported]. *)
Fixpoint keyword_names (values : list Value) (names : gset (list Z)) : option (gset (list Z)) :=
  match values with
  | [] => Some names
  | value :: values =>
      if negb (tag_is (v_tag value) ValueTag.Keyword) then None
      else
        match v_data value with
        | Bytes bytes =>
            name ← from_utf8 bytes;
            if bool_decide (name = []) then None else keyword_names values ({[ name ]} ∪ names)
        | _ => None
        end
  end.

Definition settable_attributes (message : Message) : option (gset (list Z)) :=
  attribute ← find_attribute message (str "printer-settable-attributes-supported");
  values ← keyword_names (a_values attribute) ∅;
  if bool_decide (values = ∅) then None else Some values.

Definition compatible_syntax (current requested : ValueTag.t) : bool :=
  bool_decide (current = requested)
  || match current, requested with
     | ValueTag.TextWithLanguage, ValueTag.TextWithoutLanguage
     | ValueTag.TextWithoutLanguage, ValueTag.TextWithLanguage
     | ValueTag.NameWithLanguage, ValueTag.NameWithoutLanguage
     | ValueTag.NameWithoutLanguage, ValueTag.NameWithLanguage => true
     | _, _ => false
     end.

Definition normalized_setting_value (value : Value) : option SettingValue.t :=
  match v_data value with
  | Boolean b => Some (SettingValue.Boolean b)
  | Integer n | Enum n => Some (SettingValue.Integer n)
  | Bytes bytes =>
      match v_tag value with
      | ValueTag.Keyword => SettingValue.Keyword <$> from_utf8 bytes
      | ValueTag.TextWithLanguage | ValueTag.TextWithoutLanguage
      | ValueTag.NameWithLanguage | ValueTag.NameWithoutLanguage => SettingValue.Text <$> from_utf8 bytes
      | _ => Some (SettingValue.Bytes bytes)
      end
  | RangeOfInteger lower upper =>
      Some (SettingValue.List [SettingValue.Integer lower; SettingValue.Integer upper])
  | DateTime value => Some (SettingValue.Bytes value)
  | Resolution cross_feed feed units =>
      Some (SettingValue.Text (show_int cross_feed ++ str "x" ++ show_int feed ++ str "@" ++ show_int units))
  | OutOfBand | Collection _ => None
  end.

(** ** Supported values *)

(** One attribute of one group of the response. *)
Definition parse_attribute (tag : Z) (parsed : SupportedPrinterValues) (attribute : Attribute) :
    Result SupportedValuesError SupportedPrinterValues :=
  let? name := ok_or (from_utf8 (a_name attribute)) InvalidName in
  if tag =? UNSUPPORTED_ATTRIBUTES_TAG then
    Ok {| attributes := attributes parsed;
          unsupported_attributes := unsupported_attributes parsed ++ [name] |}
  else if tag =? PRINTER_ATTRIBUTES_TAG then
    if negb (ends_with (str "-supported") name) then Err InvalidAttribute
    else Ok {| attributes := <[name := a_values attribute]> (attributes parsed);
               unsupported_attributes := unsupported_attributes parsed |}
  else Ok parsed.

Definition parse_group (group : AttributeGroup) (parsed : SupportedPrinterValues) :
    Result SupportedValuesError SupportedPrinterValues :=
  for_each (fun attribute parsed => parse_attribute (g_tag group) parsed attribute) (g_attributes group) parsed.

Definition parse_get_printer_supported_values (response : Message) :
    Result SupportedValuesError SupportedPrinterValues :=
  if 0x0100 <=? code response then Err Unsuccessful
  else for_each parse_group (groups response) {| attributes := ∅; unsupported_attributes := [] |}.

(** The part of a URI before its first colon, compared without case. *)
Definition scheme_matches (uri scheme : list Z) : bool :=
  match (uri ← from_utf8 uri; fst <$> split_once 58 uri), from_utf8 scheme with
  | Some actual, Some allowed => eq_ignore_ascii_case actual allowed
  | _, _ => false
  end.

Definition value_matches (requested allowed : Value) : bool :=
  if tag_is (v_tag allowed) ValueTag.AdminDefine
     && (tag_is (v_tag requested) ValueTag.NameWithLanguage || tag_is (v_tag requested) ValueTag.NameWithoutLanguage)
  then true
  else
    match v_data requested, v_data allowed with
    | _, Boolean true => true
    | Integer value, RangeOfInteger lower upper => (lower <=? value) && (value <=? upper)
    | RangeOfInteger requested_lower requested_upper, RangeOfInteger allowed_lower allowed_upper =>
        (allowed_lower <=? requested_lower) && (requested_upper <=? allowed_upper)
    | Bytes uri, Bytes scheme =>
        if tag_is (v_tag requested) ValueTag.Uri && tag_is (v_tag allowed) ValueTag.UriScheme
        then scheme_matches uri scheme
        else value_eqb requested allowed
    | _, _ => value_eqb requested allowed
    end.

Definition value_matches_any (requested : Value) (allowed : list Value) : bool :=
  existsb (value_matches requested) allowed.

Definition validate_requested_value (observation : Message) (supported_values : option SupportedPrinterValues)
    (setting : list Z) (requested : Value) : Res unit :=
  if ends_with (str "-supported") setting then
    if negb (operation_is_advertised observation GET_PRINTER_SUPPORTED_VALUES)
    then Err ChangePlanError.SupportedValuesRequired
    else
      let? supported_values := ok_or supported_values ChangePlanError.SupportedValuesRequired in
      if existsb (fun name => bool_decide (name = setting)) (unsupported_attributes supported_values)
      then Err ChangePlanError.RequestedValueNotSupported
      else
        let? allowed := ok_or (attributes supported_values !! setting) ChangePlanError.MissingValueConstraints in
        ensure (value_matches_any requested allowed) ChangePlanError.RequestedValueNotSupported
  else
    match strip_suffix setting (str "-default") with
    | Some base =>
        let? allowed := ok_or (a_values <$> find_attribute observation (base ++ str "-supported"))
                              ChangePlanError.MissingValueConstraints in
        ensure (value_matches_any requested allowed) ChangePlanError.RequestedValueNotSupported
    | None => Ok tt
    end.

(** ** Planning and validation *)

Section Hashes.
Variable sha256 : list Z -> list Z.
Variable value_json : ValueData -> list Z.

(** What the two hashes are computed from. *)
Definition hashed_value (value : Value) : list Z :=
  let encoded := value_json (v_data value) in
  ValueTag.to_byte (v_tag value) :: to_be_bytes 8 (zlen encoded) ++ encoded.

Definition hashed_attribute (attribute : Attribute) : list Z :=
  to_be_bytes 8 (zlen (a_name attribute)) ++ a_name attribute ++ flat_map hashed_value (a_values attribute).

Definition attribute_hash (attribute : Attribute) : list Z := sha256 (hashed_attribute attribute).
Definition ipp_value_hash (value : Value) : list Z := sha256 (hashed_value value).

(** The part of planning and of validation that finds the attribute. *)
Definition settable_current (observation : Message) (setting : list Z) : Res Attribute :=
  if negb (operation_is_advertised observation SET_PRINTER_ATTRIBUTES)
  then Err ChangePlanError.OperationNotAdvertised
  else
    let? settable := ok_or (settable_attributes observation) ChangePlanError.MissingOrMalformedSettableMetadata in
    if negb (bool_decide (setting ∈ settable)) then Err (ChangePlanError.AttributeNotSettable setting)
    else ok_or (find_attribute observation setting) (ChangePlanError.CurrentValueMissing setting).

Definition plan_ipp_change_with_supported_values (observation : Message)
    (supported_values : option SupportedPrinterValues) (request : PlanChangeRequest) : Res ConfirmedChangePlan :=
  if 0x0100 <=? code observation then Err ChangePlanError.UnsuccessfulObservation
  else
  let? current := settable_current observation (req_setting request) in
  if bool_decide (a_values current = [])
     || (negb (ends_with (str "-supported") (req_setting request))
         && negb (forallb (fun value => compatible_syntax (v_tag value) (v_tag (req_value request)))
                    (a_values current)))
  then Err ChangePlanError.IncompatibleValue
  else
  let? _ := validate_requested_value observation supported_values (req_setting request) (req_value request) in
  let? requested_value := ok_or (normalized_setting_value (req_value request)) ChangePlanError.IncompatibleValue in
  Ok {| plan_printer_id := req_printer_id request;
        plan_endpoint_generation := req_endpoint_generation request;
        plan_setting := req_setting request;
        expected_old_value_hash := attribute_hash current;
        plan_requested_value := requested_value;
        requested_protocol_value := req_value request;
        plan_principal := req_principal request;
        plan_family := req_family request;
        plan_expires_at_unix_ms := req_expires_at_unix_ms request |}.

Definition plan_ipp_change (observation : Message) (request : PlanChangeRequest) : Res ConfirmedChangePlan :=
  plan_ipp_change_with_supported_values observation None request.

(** The binding of a plan to a printer, a session and a time. *)
Definition check_binding (plan : ConfirmedChangePlan) (binding : ChangeBinding) : Res unit :=
  if plan_expires_at_unix_ms plan <=? now_unix_ms binding then Err ChangePlanError.Expired
  else if negb (bool_decide (printer_id binding = plan_printer_id plan))
  then Err (ChangePlanError.StaleBinding "printer ID")
  else if negb (endpoint_generation binding =? plan_endpoint_generation plan)
  then Err (ChangePlanError.StaleBinding "endpoint generation")
  else if negb (bool_decide (principal binding = plan_principal plan))
  then Err (ChangePlanError.StaleBinding "principal")
  else if negb (bool_decide (family binding = plan_family plan))
  then Err (ChangePlanError.StaleBinding "protocol")
  else Ok tt.

Definition validate_confirmed_ipp_change_with_supported_values (plan : ConfirmedChangePlan)
    (current_observation : Message) (supported_values : option SupportedPrinterValues) (binding : ChangeBinding) :
    Res unit :=
  let? _ := check_binding plan binding in
  let? current := settable_current current_observation (plan_setting plan) in
  if negb (bool_decide (attribute_hash current = expected_old_value_hash plan)) then Err ChangePlanError.StaleValue
  else validate_requested_value current_observation supported_values (plan_setting plan) (requested_protocol_value plan).

Definition validate_confirmed_ipp_change (plan : ConfirmedChangePlan) (current_observation : Message)
    (binding : ChangeBinding) : Res unit :=
  validate_confirmed_ipp_change_with_supported_values plan current_observation None binding.
End Hashes.

Definition confirmed_ipp_plan_from_wire (printer_id : list Z) (endpoint_generation : Z) (setting : list Z)
    (old_value_hash : list Z) (requested_value : Value) (principal : list Z) (expires_at_unix_ms : Z) :
    Res ConfirmedChangePlan :=
  let? normalized := ok_or (normalized_setting_value requested_value) ChangePlanError.IncompatibleValue in
  Ok {| plan_printer_id := printer_id;
        plan_endpoint_generation := endpoint_generation;
        plan_setting := setting;
        expected_old_value_hash := old_value_hash;
        plan_requested_value := normalized;
        requested_protocol_value := requested_value;
        plan_principal := principal;
        plan_family := FamilyIpp;
        plan_expires_at_unix_ms := expires_at_unix_ms |}.

Definition set_printer_attributes_request (printer_uri setting : list Z) (requested_value : Value) (id : Z) : Message :=
  let request := get_printer_attributes_request printer_uri [] None id in
  {| version := version request;
     code := SET_PRINTER_ATTRIBUTES;
     request_id := request_id request;
     groups := groups request ++
       [{| g_tag := PRINTER_ATTRIBUTES_TAG; g_attributes := [Attribute_new setting requested_value] |}];
     original_bytes := original_bytes request |}.

Definition ipp_change_is_applied (plan : ConfirmedChangePlan) (observation : Message) : bool :=
  match find_attribute observation (plan_setting plan) with
  | Some {| a_values := [value] |} =>
      match normalized_setting_value value with
      | Some normalized => setting_eqb normalized (plan_requested_value plan)
      | None => false
      end
  | _ => false
  end.
