(* ===== verification/AdministrationFacts.v ===== *)
(** Properties of confirmed printer changes (Administration.v): what a plan
    permits, that a plan that is still current goes through, and that a plan is
    never applied to something else than what was confirmed. *)

From stdpp Require Import base gmap sets list strings numbers option.
From S2P Require Import Prelude Text Effects Ipp IppFacts Administration.

#[local] Open Scope Z_scope.

(** ** Suffixes *)

Lemma ends_with_app s suffix : ends_with suffix (s ++ suffix) = true.
Proof. unfold ends_with. rewrite reverse_app. apply starts_with_app. Qed.

Lemma ends_with_inv suffix s : ends_with suffix s = true -> exists base, s = base ++ suffix.
Proof.
  unfold ends_with, starts_with. rewrite bool_decide_eq_true. intros E.
  exists (reverse (drop (length (reverse suffix)) (reverse s))).
  apply (inj reverse). rewrite reverse_app, reverse_involutive.
  rewrite <- (take_drop (length (reverse suffix)) (reverse s)) at 1. by rewrite E.
Qed.

(** ** Decidable equalities *)

Lemma list_eqb_spec {A} (eqb : A -> A -> bool) l :
  Forall (fun a => forall b, eqb a b = true <-> a = b) l ->
  forall k, list_eqb eqb l k = true <-> l = k.
Proof.
  induction 1 as [|a l Ha Hl IH]; intros [|b k]; cbn; [done..|].
  rewrite andb_true_iff, Ha, IH. naive_solver.
Qed.

Lemma value_eqb_spec a b : value_eqb a b = true <-> a = b.
Proof.
  revert b. induction a as [tag data Hs|tag members IH] using value_nested_ind; intros [tag' data']; cbn;
    rewrite andb_true_iff, bool_decide_eq_true.
  - destruct data, data';
      rewrite ?andb_true_iff, ?Z.eqb_eq, ?Bool.eqb_true_iff, ?bool_decide_eq_true; try naive_solver.
    by destruct (Hs members).
  - destruct data'; try naive_solver.
    rewrite list_eqb_spec; [naive_solver|]. eapply Forall_impl; [|exact IH].
    intros [name values] Hv [name' values']. cbn in Hv.
    rewrite andb_true_iff, bool_decide_eq_true, (list_eqb_spec value_eqb values Hv). naive_solver.
Qed.

(** Induction over settings and the lists nested in them. *)
Section SettingInd.
Variable P : SettingValue.t -> Prop.
Hypothesis P_atom : forall s, (forall l, s <> SettingValue.List l) -> P s.
Hypothesis P_list : forall l, Forall P l -> P (SettingValue.List l).

Fixpoint setting_nested_ind (s : SettingValue.t) : P s.
Proof.
  destruct s as [| | | | |l]; [apply P_atom; by intros ?..|].
  apply P_list. induction l as [|s l IH]; constructor; [apply setting_nested_ind|exact IH].
Qed.
End SettingInd.

Lemma setting_eqb_spec a b : setting_eqb a b = true <-> a = b.
Proof.
  revert b. induction a as [a Ha|l IH] using setting_nested_ind; intros b.
  - destruct a, b; cbn; rewrite ?Z.eqb_eq, ?Bool.eqb_true_iff, ?bool_decide_eq_true; naive_solver.
  - destruct b; cbn; [naive_solver..|]. rewrite (list_eqb_spec setting_eqb l IH). naive_solver.
Qed.

(** ** What an observation says *)

(** The attribute named [name] holds [value] among its values. *)
Definition holds (m : Message) (name : list Z) (value : Value -> Prop) : Prop :=
  exists a, find_attribute m name = Some a /\ Exists value (a_values a).

Definition advertised (m : Message) (operation : Z) : Prop :=
  holds m (str "operations-supported") (fun v => v_data v = Enum operation).

Definition keyword_of (v : Value) (name : list Z) : Prop :=
  v = Value_raw ValueTag.Keyword name /\ utf8_valid name = true /\ name <> [].

(** The printer lists [setting] as settable, in a well-formed list. *)
Definition settable (m : Message) (setting : list Z) : Prop :=
  exists a, find_attribute m (str "printer-settable-attributes-supported") = Some a /\
    Forall (fun v => exists name, keyword_of v name) (a_values a) /\
    Exists (fun v => keyword_of v setting) (a_values a).

Lemma operation_is_advertised_spec m operation :
  operation_is_advertised m operation = true <-> advertised m operation.
Proof.
  unfold operation_is_advertised, advertised, holds. destruct (find_attribute m _) as [a|]; [|naive_solver].
  rewrite existsb_exists. setoid_rewrite List.Exists_exists. split.
  - intros (v & Hin & E). exists a. split; [done|]. exists v. split; [done|].
    destruct (v_data v); try done. by apply Z.eqb_eq in E as ->.
  - intros (b & [= <-] & v & Hin & E). exists v. split; [done|]. rewrite E. apply Z.eqb_refl.
Qed.

Lemma keyword_names_cons v values names :
  keyword_names (v :: values) names = None \/
  exists name, keyword_of v name /\ keyword_names (v :: values) names = keyword_names values ({[ name ]} ∪ names).
Proof.
  cbn. unfold tag_is. case_bool_decide as Ht; [|by left]. cbn [negb].
  destruct v as [tag data]. cbn in Ht |- *. subst tag. destruct data; try by left.
  destruct (from_utf8 bytes) as [name|] eqn:E; [|by left]. apply from_utf8_Some in E as [Hv ->]. cbn.
  case_bool_decide; [by left|]. right. by exists bytes.
Qed.

Lemma keyword_names_step v name values names :
  keyword_of v name -> keyword_names (v :: values) names = keyword_names values ({[ name ]} ∪ names).
Proof.
  intros (-> & Hv & Hne). cbn. unfold from_utf8. rewrite Hv. cbn. by rewrite bool_decide_false.
Qed.

Lemma keyword_of_inj v name name' : keyword_of v name -> keyword_of v name' -> name = name'.
Proof. intros (-> & _) (E & _). by injection E. Qed.

Lemma keyword_names_total values names :
  Forall (fun v => exists name, keyword_of v name) values -> is_Some (keyword_names values names).
Proof.
  intros Hv. revert names. induction Hv as [|v values [name Hname] _ IH]; intros names; [by eexists|].
  by rewrite (keyword_names_step v name).
Qed.

Lemma keyword_names_inv values names result :
  keyword_names values names = Some result ->
  Forall (fun v => exists name, keyword_of v name) values /\
  forall name, name ∈ result <-> name ∈ names \/ Exists (fun v => keyword_of v name) values.
Proof.
  revert names. induction values as [|v values IH]; intros names E.
  - cbn in E. apply (inj Some) in E as <-. split; [constructor|]. intros name.
    rewrite List.Exists_nil. tauto.
  - destruct (keyword_names_cons v values names) as [En|(n & Hn & En)]; [congruence|].
    rewrite En in E. apply IH in E as [Hall Hin]. split; [by constructor; [exists n|]|].
    intros name. rewrite Hin, elem_of_union, elem_of_singleton, List.Exists_cons.
    assert (name = n <-> keyword_of v name) as <-; [|tauto].
    split; [by intros ->|]. intros H. by apply (keyword_of_inj v).
Qed.

Lemma settable_attributes_spec m setting :
  (exists names, settable_attributes m = Some names /\ setting ∈ names) <-> settable m setting.
Proof.
  unfold settable_attributes, settable. destruct (find_attribute m _) as [a|]; cbn; [|naive_solver]. split.
  - intros (names & E & Hin). destruct (keyword_names (a_values a) ∅) as [k|] eqn:Ek; [|done]. cbn in E.
    case_bool_decide; [done|]. apply (inj Some) in E as <-.
    apply keyword_names_inv in Ek as [Hall Hk]. exists a. split_and!; [done|done|]. apply Hk in Hin as [Hin|Hin]; [|done].
    by apply elem_of_empty in Hin.
  - intros (b & Eb & Hall & Hex). apply (inj Some) in Eb as <-.
    destruct (keyword_names_total (a_values a) ∅ Hall) as [k Ek]. rewrite Ek. cbn.
    apply keyword_names_inv in Ek as [_ Hk]. assert (setting ∈ k) as Hin by (apply Hk; by right).
    rewrite bool_decide_false by (intros ->; by apply elem_of_empty in Hin). by exists k.
Qed.

(** ** Values a printer allows *)

(** One advertised value admits a requested one. *)
Inductive admits : Value -> Value -> Prop :=
| admits_name tag data data' :
    tag = ValueTag.NameWithLanguage \/ tag = ValueTag.NameWithoutLanguage ->
    admits (mk_Value ValueTag.AdminDefine data) (mk_Value tag data')
| admits_anything tag requested : admits (mk_Value tag (Boolean true)) requested
| admits_in_range tag tag' lower upper n :
    lower <= n <= upper -> admits (mk_Value tag (RangeOfInteger lower upper)) (mk_Value tag' (Integer n))
| admits_subrange tag tag' lower upper lower' upper' :
    lower <= lower' -> upper' <= upper ->
    admits (mk_Value tag (RangeOfInteger lower upper)) (mk_Value tag' (RangeOfInteger lower' upper'))
| admits_scheme uri scheme : scheme_matches uri scheme = true ->
    admits (mk_Value ValueTag.UriScheme (Bytes scheme)) (mk_Value ValueTag.Uri (Bytes uri))
| admits_same value : admits value value.

Lemma value_eqb_refl v : value_eqb v v = true.
Proof. by apply value_eqb_spec. Qed.

Lemma value_matches_spec requested allowed : value_matches requested allowed = true <-> admits allowed requested.
Proof.
  split.
  - destruct requested as [tag data], allowed as [tag' data']. unfold value_matches, tag_is. cbn [v_tag v_data].
    destruct (_ && (_ || _)) eqn:Ea.
    { intros _. apply andb_true_iff in Ea as [E1 E2]. apply bool_decide_eq_true in E1 as ->. constructor.
      apply orb_true_iff in E2 as [E2|E2]; apply bool_decide_eq_true in E2; auto. }
    clear Ea. intros E. destruct data, data' as [| |[]| | | | | |];
      try (apply value_eqb_spec in E as <-; apply admits_same); try constructor; try (cbn in E; blia).
    destruct (_ && _) eqn:Et; [|apply value_eqb_spec in E as <-; apply admits_same].
    apply andb_true_iff in Et as [E1 E2]. apply bool_decide_eq_true in E1 as ->, E2 as ->. by constructor.
  - unfold value_matches. intros H. destruct (tag_is (v_tag allowed) _ && _) eqn:Ea; [done|].
    destruct H as [tag data data' [-> | ->]|tag requested| | | |[tag data]]; cbn [v_tag v_data] in *; try done; try lia.
    + by destruct (v_data requested).
    + destruct data as [| |[]| | | | | |]; rewrite ?value_eqb_refl; try done; [rewrite !Z.leb_refl; done|].
      unfold tag_is. case_bool_decide as E1; [|done]. case_bool_decide as E2; [|done]. congruence.
Qed.

(** The constraints the printer advertises for [setting] admit [requested]. *)
Inductive constrained (m : Message) (supported : option SupportedPrinterValues) (setting : list Z) (requested : Value) : Prop :=
| constrained_supported base s allowed :
    setting = base ++ str "-supported" -> advertised m GET_PRINTER_SUPPORTED_VALUES -> supported = Some s ->
    setting ∉ unsupported_attributes s -> attributes s !! setting = Some allowed ->
    Exists (fun v => admits v requested) allowed -> constrained m supported setting requested
| constrained_default base :
    setting = base ++ str "-default" -> holds m (base ++ str "-supported") (fun v => admits v requested) ->
    constrained m supported setting requested
| unconstrained :
    (forall base, setting <> base ++ str "-supported") -> (forall base, setting <> base ++ str "-default") ->
    constrained m supported setting requested.

Lemma suffixes_exclusive s t : s ++ str "-supported" <> t ++ str "-default".
Proof.
  intros E. apply (f_equal reverse) in E. rewrite !reverse_app in E. discriminate E.
Qed.

Lemma ends_with_spec suffix s : ends_with suffix s = true <-> exists base, s = base ++ suffix.
Proof. split; [apply ends_with_inv|]. intros [base ->]. apply ends_with_app. Qed.

Lemma not_ends_with suffix s : ends_with suffix s = false -> forall base, s <> base ++ suffix.
Proof. intros E base ->. by rewrite ends_with_app in E. Qed.

Lemma value_matches_any_spec requested allowed :
  value_matches_any requested allowed = true <-> Exists (fun v => admits v requested) allowed.
Proof.
  unfold value_matches_any. rewrite existsb_exists, List.Exists_exists.
  by setoid_rewrite value_matches_spec.
Qed.

Lemma existsb_name_false (names : list (list Z)) setting :
  existsb (fun name => bool_decide (name = setting)) names = false <-> setting ∉ names.
Proof.
  rewrite <- not_true_iff_false, existsb_exists. f_equiv. rewrite list_elem_of_In. split.
  - intros (x & Hin & E). apply bool_decide_eq_true in E as <-. done.
  - intros Hin. exists setting. by rewrite bool_decide_true.
Qed.

Lemma validate_requested_value_spec m supported setting requested :
  validate_requested_value m supported setting requested = Ok tt <-> constrained m supported setting requested.
Proof.
  unfold validate_requested_value. destruct (ends_with (str "-supported") setting) eqn:Es.
  - apply ends_with_inv in Es as [base ->]. split.
    + intros H. inv_ok H. apply negb_false_iff, operation_is_advertised_spec in Hb.
      apply value_matches_any_spec in H. apply existsb_name_false in Hb0.
      by eapply constrained_supported.
    + intros [base' s allowed _ Ha -> Hu Hl Hv|base' E _|Hn _].
      * apply operation_is_advertised_spec in Ha as ->. apply value_matches_any_spec in Hv.
        apply existsb_name_false in Hu. cbn [negb rbind ok_or]. rewrite Hu, Hl. cbn [rbind ok_or]. by rewrite Hv.
      * by apply suffixes_exclusive in E.
      * by destruct (Hn base).
  - pose proof (not_ends_with _ _ Es) as Hn. destruct (strip_suffix setting (str "-default")) as [base|] eqn:Ed.
    + apply strip_suffix_Some in Ed as ->. split.
      * intros H. inv_ok H. apply value_matches_any_spec in H. apply (constrained_default _ _ _ _ base); [done|].
        apply fmap_Some in Hx as (a & Ea & ->). by exists a.
      * intros [base' s allowed E|base' E (a & Ea & Hv)|_ Hd]; [by destruct (Hn base')| |by destruct (Hd base)].
        apply app_inv_tail in E as ->. rewrite Ea. apply value_matches_any_spec in Hv. cbn [fmap option_fmap option_map rbind ok_or].
        by rewrite Hv.
    + split; [|done]. intros _. apply unconstrained; [done|]. intros base E.
      apply strip_suffix_Some in E. congruence.
Qed.

(** ** Plans *)

Section Plans.
Variable sha256 : list Z -> list Z.
Variable value_json : ValueData -> list Z.

#[local] Abbreviation attribute_hash := (attribute_hash sha256 value_json).
#[local] Abbreviation hashed_attribute := (hashed_attribute value_json).
#[local] Abbreviation make_plan := (plan_ipp_change_with_supported_values sha256 value_json).
#[local] Abbreviation validate := (validate_confirmed_ipp_change_with_supported_values sha256 value_json).

Lemma settable_current_spec m setting current :
  settable_current m setting = Ok current <->
  advertised m SET_PRINTER_ATTRIBUTES /\ settable m setting /\ find_attribute m setting = Some current.
Proof.
  unfold settable_current. rewrite <- operation_is_advertised_spec, <- settable_attributes_spec. split.
  - intros H. inv_ok H. apply negb_false_iff in Hb, Hb0. apply bool_decide_eq_true in Hb0. naive_solver.
  - intros (-> & (names & -> & Hin) & ->). cbn. by rewrite bool_decide_true.
Qed.

(** The values of an attribute that a plan for [setting] may replace. *)
Definition replaceable (setting : list Z) (current : Attribute) (requested : Value) : Prop :=
  a_values current <> [] /\
  ((exists base, setting = base ++ str "-supported") \/
   Forall (fun v => compatible_syntax (v_tag v) (v_tag requested) = true) (a_values current)).

Lemma replaceable_spec setting current requested :
  bool_decide (a_values current = [])
  || (negb (ends_with (str "-supported") setting)
      && negb (forallb (fun value => compatible_syntax (v_tag value) (v_tag requested)) (a_values current))) = false
  <-> replaceable setting current requested.
Proof.
  unfold replaceable. rewrite orb_false_iff, bool_decide_eq_false, andb_false_iff, !negb_false_iff.
  rewrite ends_with_spec, forallb_forall, List.Forall_forall. done.
Qed.

Lemma make_plan_spec m supported request plan :
  make_plan m supported request = Ok plan <->
  code m < 0x0100 /\ advertised m SET_PRINTER_ATTRIBUTES /\ settable m (req_setting request) /\
  constrained m supported (req_setting request) (req_value request) /\
  exists current value,
    find_attribute m (req_setting request) = Some current /\
    replaceable (req_setting request) current (req_value request) /\
    normalized_setting_value (req_value request) = Some value /\
    plan = {| plan_printer_id := req_printer_id request;
              plan_endpoint_generation := req_endpoint_generation request;
              plan_setting := req_setting request;
              expected_old_value_hash := attribute_hash current;
              plan_requested_value := value;
              requested_protocol_value := req_value request;
              plan_principal := req_principal request;
              plan_family := req_family request;
              plan_expires_at_unix_ms := req_expires_at_unix_ms request |}.
Proof.
  unfold plan_ipp_change_with_supported_values. destruct (Z.leb_spec 0x0100 (code m)); [split; [done|lia]|]. split.
  - intros Hp. inv_ok Hp. apply settable_current_spec in Hx as (Ha & Hs & Hf). apply replaceable_spec in Hb.
    destruct x0. apply validate_requested_value_spec in Hx0. split_and!; try done.
    exists x, x1. split_and!; done.
  - intros (_ & Ha & Hs & Hc & current & value & Hf & Hr & Hn & ->).
    rewrite (proj2 (settable_current_spec _ _ current)) by done. cbn [rbind].
    rewrite (proj2 (replaceable_spec _ _ _)) by done.
    rewrite (proj2 (validate_requested_value_spec _ _ _ _)) by done. cbn [rbind].
    by rewrite Hn.
Qed.

(** A change is planned exactly when the printer permits it: the
    observation succeeded, Set-Printer-Attributes is advertised, the attribute
    is listed as settable in a well-formed list and present with values of a
    compatible syntax, and the constraints the printer advertises for it admit
    the requested value. The plan then carries the request and the hash of the
    attribute as it was observed. *)
Theorem plan_change_spec m supported request plan :
  make_plan m supported request = Ok plan <->
  code m < 0x0100 /\ advertised m SET_PRINTER_ATTRIBUTES /\ settable m (req_setting request) /\
  constrained m supported (req_setting request) (req_value request) /\
  exists current value,
    find_attribute m (req_setting request) = Some current /\
    replaceable (req_setting request) current (req_value request) /\
    normalized_setting_value (req_value request) = Some value /\
    plan = {| plan_printer_id := req_printer_id request;
              plan_endpoint_generation := req_endpoint_generation request;
              plan_setting := req_setting request;
              expected_old_value_hash := attribute_hash current;
              plan_requested_value := value;
              requested_protocol_value := req_value request;
              plan_principal := req_principal request;
              plan_family := req_family request;
              plan_expires_at_unix_ms := req_expires_at_unix_ms request |}.
Proof. apply make_plan_spec. Qed.

(** The binding is the one the plan was made for, and the plan has not expired. *)
Definition bound (plan : ConfirmedChangePlan) (binding : ChangeBinding) : Prop :=
  now_unix_ms binding < plan_expires_at_unix_ms plan /\ printer_id binding = plan_printer_id plan /\
  endpoint_generation binding = plan_endpoint_generation plan /\ principal binding = plan_principal plan /\
  family binding = plan_family plan.

Lemma check_binding_spec plan binding : check_binding plan binding = Ok tt <-> bound plan binding.
Proof.
  unfold check_binding, bound. destruct (Z.leb_spec (plan_expires_at_unix_ms plan) (now_unix_ms binding)).
  { split; [done|lia]. }
  destruct (Z.eqb_spec (endpoint_generation binding) (plan_endpoint_generation plan));
    repeat case_bool_decide; cbn; naive_solver.
Qed.

Lemma validate_spec plan m supported binding :
  validate plan m supported binding = Ok tt <->
  bound plan binding /\ advertised m SET_PRINTER_ATTRIBUTES /\ settable m (plan_setting plan) /\
  constrained m supported (plan_setting plan) (requested_protocol_value plan) /\
  exists current, find_attribute m (plan_setting plan) = Some current /\
    attribute_hash current = expected_old_value_hash plan.
Proof.
  unfold validate_confirmed_ipp_change_with_supported_values. rewrite <- check_binding_spec.
  destruct (check_binding plan binding) as [[]|e]; cbn [rbind]; [|naive_solver]. split.
  - intros H. inv_ok H. apply settable_current_spec in Hx as (Ha & Hs & Hf).
    apply negb_false_iff, bool_decide_eq_true in Hb. apply validate_requested_value_spec in H. naive_solver.
  - intros (_ & Ha & Hs & Hc & current & Hf & Hh).
    rewrite (proj2 (settable_current_spec _ _ current)) by done. cbn [rbind].
    rewrite bool_decide_true by done. by apply validate_requested_value_spec.
Qed.

(** Two observations agree on what planning and validation read. *)
Definition agrees (setting : list Z) (m m' : Message) : Prop :=
  find_attribute m' setting = find_attribute m setting /\
  find_attribute m' (str "operations-supported") = find_attribute m (str "operations-supported") /\
  find_attribute m' (str "printer-settable-attributes-supported")
    = find_attribute m (str "printer-settable-attributes-supported") /\
  forall base, setting = base ++ str "-default" ->
    find_attribute m' (base ++ str "-supported") = find_attribute m (base ++ str "-supported").

Lemma planned_validates m m' supported request plan binding :
  make_plan m supported request = Ok plan -> bound plan binding -> agrees (req_setting request) m m' ->
  validate plan m' supported binding = Ok tt.
Proof.
  intros Hp Hb (Es & Eo & Ep & Ed). apply make_plan_spec in Hp as (_ & Ha & Hs & Hc & current & value & Hf & _ & _ & ->).
  apply validate_spec. cbn [plan_setting requested_protocol_value expected_old_value_hash].
  assert (forall n, advertised m n -> advertised m' n) as Hadv by (unfold advertised, holds; by rewrite Eo).
  split_and!; [done|by apply Hadv|unfold settable; by rewrite Ep| |].
  - destruct Hc as [base s allowed E Hg|base E Hh|Hn Hd].
    + by eapply constrained_supported; [..|apply Hadv|idtac|idtac|idtac|idtac].
    + eapply constrained_default; [done|]. unfold holds. by rewrite Ed.
    + by apply unconstrained.
  - exists current. by rewrite Es.
Qed.

Lemma planned_is_applied m supported request plan m' name :
  make_plan m supported request = Ok plan ->
  find_attribute m' (req_setting request) = Some (Attribute_new name (req_value request)) ->
  ipp_change_is_applied plan m' = true.
Proof.
  intros Hp Hf'. apply make_plan_spec in Hp as (_ & _ & _ & _ & current & value & _ & _ & Hn & ->).
  unfold ipp_change_is_applied. cbn [plan_setting plan_requested_value].
  rewrite Hf'. cbn. rewrite Hn. by apply setting_eqb_spec.
Qed.

(** A planned change goes through as long as nothing changes: bound to the
    same printer, endpoint, principal and protocol and before it expires, it is
    still valid against what it was planned from, and once the printer reports
    the requested value, the change counts as applied. *)
Theorem confirmed_change_goes_through m supported request plan binding :
  make_plan m supported request = Ok plan -> bound plan binding ->
  validate plan m supported binding = Ok tt /\
  forall m' name, find_attribute m' (req_setting request) = Some (Attribute_new name (req_value request)) ->
    ipp_change_is_applied plan m' = true.
Proof.
  intros Hp Hb. split; [by eapply planned_validates|]. intros m' name. by apply planned_is_applied with (supported := supported) (m := m).
Qed.

(** ** What the hash of an attribute determines *)

Lemma to_be_bytes_8_inj a b :
  0 <= a < 2 ^ 64 -> 0 <= b < 2 ^ 64 -> to_be_bytes 8 a = to_be_bytes 8 b -> a = b.
Proof.
  intros Ha Hb E. apply (f_equal of_be_bytes) in E. rewrite !of_to_be_bytes in E.
  change (256 ^ Z.of_nat 8) with (2 ^ 64) in E. by rewrite !Z.mod_small in E.
Qed.

(** A length, then as many elements: the elements and what follows are determined. *)
Lemma prefixed_inj (l k l' k' : list Z) :
  zlen l < 2 ^ 64 -> zlen k < 2 ^ 64 ->
  to_be_bytes 8 (zlen l) ++ l ++ l' = to_be_bytes 8 (zlen k) ++ k ++ k' -> l = k /\ l' = k'.
Proof.
  intros Hl Hk E. apply app_inj_1 in E as [El E]; [|by rewrite !length_to_be_bytes].
  apply to_be_bytes_8_inj in El; [|split; [apply zlen_nonneg|done]..].
  apply app_inj_1 in E; [done|]. unfold zlen in El. lia.
Qed.

(** Values as a decoder yields them, whose encoding has a 64-bit length. *)
Definition canonical_value (v : Value) : Prop :=
  ValueTag.from_byte (ValueTag.to_byte (v_tag v)) = v_tag v /\ zlen (value_json (v_data v)) < 2 ^ 64.

Definition canonical (a : Attribute) : Prop := zlen (a_name a) < 2 ^ 64 /\ Forall canonical_value (a_values a).

(** Two different values of the attributes with one encoding. *)
Definition json_collision (a b : Attribute) : Prop :=
  exists v w, v ∈ a_values a /\ w ∈ a_values b /\ v_data v <> v_data w /\ value_json (v_data v) = value_json (v_data w).

Lemma hashed_value_cons v l : exists b s, hashed_value value_json v ++ l = b :: s.
Proof. by eexists _, _. Qed.

Lemma hashed_values_inj vs ws :
  Forall canonical_value vs -> Forall canonical_value ws ->
  flat_map (hashed_value value_json) vs = flat_map (hashed_value value_json) ws ->
  vs = ws \/ exists v w, v ∈ vs /\ w ∈ ws /\ v_data v <> v_data w /\ value_json (v_data v) = value_json (v_data w).
Proof.
  intros Hvs. revert ws. induction Hvs as [|v vs [Hv Hlv] Hvs IH]; intros ws Hws E.
  - destruct ws as [|w ws]; [by left|]. discriminate E.
  - destruct Hws as [|w ws [Hw Hlw] Hws]; [discriminate E|]. cbn [flat_map] in E.
    unfold hashed_value at 1 3 in E. rewrite <- !app_comm_cons, <- !app_assoc in E.
    apply cons_eq_inj in E as [Et E]. apply (f_equal ValueTag.from_byte) in Et. rewrite Hv, Hw in Et.
    apply prefixed_inj in E as [Ej E]; [|done..].
    destruct (IH ws Hws E) as [->|(v' & w' & Hv' & Hw' & Hne & Ee)].
    + destruct v as [tag data], w as [tag' data']. cbn in *. subst tag'.
      destruct (value_eqb (mk_Value tag data) (mk_Value tag data')) eqn:Ed.
      * left. apply value_eqb_spec in Ed. by rewrite Ed.
      * right. eexists _, _. split_and!; [left|left| |exact Ej]. intros [= ->]. by rewrite value_eqb_refl in Ed.
    + right. exists v', w'. split_and!; [by right|by right|done|done].
Qed.

Lemma hashed_attribute_inj a b :
  canonical a -> canonical b -> hashed_attribute a = hashed_attribute b -> a = b \/ json_collision a b.
Proof.
  intros [Ha Hva] [Hb Hvb] E. apply prefixed_inj in E as [En E]; [|done..].
  destruct (hashed_values_inj _ _ Hva Hvb E) as [Ev|]; [left|by right]. destruct a, b. cbn in *. by subst.
Qed.

(** C12: A change is never validated against anything but what was confirmed:
    the binding is that of the request, before its expiry; the printer still
    permits the change; and the attribute is the one the plan was made from,
    name, tags and values, unless two values with one JSON encoding or two
    inputs with one SHA-256 digest are at hand. *)
Theorem validated_change_is_the_confirmed_one m supported request plan m' supported' binding :
  make_plan m supported request = Ok plan -> validate plan m' supported' binding = Ok tt ->
  now_unix_ms binding < req_expires_at_unix_ms request /\ printer_id binding = req_printer_id request /\
  endpoint_generation binding = req_endpoint_generation request /\ principal binding = req_principal request /\
  family binding = req_family request /\
  advertised m' SET_PRINTER_ATTRIBUTES /\ settable m' (req_setting request) /\
  constrained m' supported' (req_setting request) (req_value request) /\
  exists before now,
    find_attribute m (req_setting request) = Some before /\ find_attribute m' (req_setting request) = Some now /\
    (canonical before -> canonical now ->
     now = before \/ json_collision before now \/
     (hashed_attribute before <> hashed_attribute now /\
      sha256 (hashed_attribute before) = sha256 (hashed_attribute now))).
Proof.
  intros Hp Hv. apply make_plan_spec in Hp as (_ & _ & _ & _ & before & value & Hf & _ & _ & ->).
  apply validate_spec in Hv as ((He & Hi & Hg & Hpr & Hfa) & Ha & Hs & Hc & now & Hf' & Hh). cbn in *.
  split_and!; try done. exists before, now. split_and!; [done|done|]. intros Hcb Hcn.
  destruct (decide (hashed_attribute before = hashed_attribute now)) as [E|Hne]; [|by right; right].
  destruct (hashed_attribute_inj _ _ Hcb Hcn E) as [->|]; [by left|by right; left].
Qed.
End Plans.

(** ** Witnesses *)

(** A printer whose default number of copies may be set to 1 to 99. *)
Definition example_printer (copies : Z) : Message := {|
  version := V2_0; code := 0; request_id := 1; original_bytes := [];
  groups := [
    {| g_tag := OPERATION_ATTRIBUTES_TAG; g_attributes := [] |};
    {| g_tag := PRINTER_ATTRIBUTES_TAG; g_attributes := [
         {| a_name := str "operations-supported"; a_values := [Value_enum 2; Value_enum 19] |};
         Attribute_new (str "printer-settable-attributes-supported")
           (Value_raw ValueTag.Keyword (str "copies-default"));
         Attribute_new (str "copies-default") (Value_integer copies);
         Attribute_new (str "copies-supported") (mk_Value ValueTag.RangeOfInteger (RangeOfInteger 1 99)) ] |} ] |}.

Definition example_change : PlanChangeRequest := {|
  req_printer_id := str "p1"; req_endpoint_generation := 7; req_setting := str "copies-default";
  req_value := Value_integer 2; req_principal := str "operator"; req_family := FamilyIpp;
  req_expires_at_unix_ms := 1000 |}.

Definition example_binding : ChangeBinding := {|
  printer_id := str "p1"; endpoint_generation := 7; principal := str "operator"; family := FamilyIpp;
  now_unix_ms := 999 |}.

(** Stand-ins for the hash and the serializer. *)
Definition example_json (data : ValueData) : list Z :=
  match data with Integer n => to_be_bytes 4 n | Enum n => 0 :: to_be_bytes 4 n | _ => [] end.

Definition example_plan : option ConfirmedChangePlan :=
  result_ok (plan_ipp_change (fun l => l) example_json (example_printer 1) example_change).

Lemma confirmed_change_goes_through_witness :
  exists plan,
    validate_confirmed_ipp_change_with_supported_values (fun l => l) example_json plan (example_printer 1) None
      example_binding = Ok tt /\
    ipp_change_is_applied plan (example_printer 2) = true.
Proof.
  destruct example_plan as [plan|] eqn:E; [|vm_compute in E; discriminate E].
  unfold example_plan, plan_ipp_change in E.
  destruct (plan_ipp_change_with_supported_values _ _ _ _ _) as [plan'|e] eqn:Ep; [|discriminate E].
  assert (bound plan' example_binding) as Hb.
  { vm_compute in Ep. apply Ok_inj in Ep as <-. vm_compute. by split_and!. }
  destruct (confirmed_change_goes_through _ _ _ _ _ _ _ Ep Hb) as [Hv Ha].
  exists plan'. split; [exact Hv|]. by apply (Ha (example_printer 2) (str "copies-default")).
Defined.

Lemma validated_change_is_the_confirmed_one_witness :
  exists plan,
    plan_ipp_change_with_supported_values (fun l => l) example_json (example_printer 1) None example_change = Ok plan /\
    validate_confirmed_ipp_change (fun l => l) example_json plan (example_printer 1) example_binding = Ok tt /\
    999 < req_expires_at_unix_ms example_change.
Proof.
  destruct (plan_ipp_change_with_supported_values (fun l => l) example_json (example_printer 1) None example_change)
    as [plan|e] eqn:Ep; [|vm_compute in Ep; discriminate Ep].
  assert (validate_confirmed_ipp_change (fun l => l) example_json plan (example_printer 1) example_binding = Ok tt)
    as Hv.
  { vm_compute in Ep. apply Ok_inj in Ep as <-. by vm_compute. }
  exists plan. split_and!; [done|done|].
  exact (proj1 (validated_change_is_the_confirmed_one _ _ _ _ _ _ _ _ _ Ep Hv)).
Defined.

(** The same printer with another value since the plan was made is refused. *)
Example changed_value_refused :
  (plan ← example_plan;
   Some (validate_confirmed_ipp_change (fun l => l) example_json plan (example_printer 3) example_binding)) =
  Some (Err ChangePlanError.StaleValue).
Proof. by vm_compute. Qed.

(** A failed observation is not noticed by the validation: only planning looks
    at its status code. *)
Example failed_observation_validates :
  let failed := {| version := V2_0; code := 0x0507; request_id := 1; original_bytes := [];
                   groups := groups (example_printer 1) |} in
  (plan ← example_plan;
   Some (validate_confirmed_ipp_change (fun l => l) example_json plan failed example_binding)) = Some (Ok tt).
Proof. by vm_compute. Qed.
