(* ===== verification/Snmp.v ===== *)
(** The SNMPv2c read codec (crates/mb-printer-core/src/snmp.rs): object
    identifiers, the registry of readable objects, BER encoding of requests,
    decoding of responses and the removal of the community from what is kept
    as evidence. SHA-256 and the JSON serializer are parameters.

    A [Cursor] is a value: an error ends the decoding, so the operations that
    advance one return the advanced cursor with their result. *)

From stdpp Require Import base gmap list strings numbers option.
From S2P Require Import Prelude Text.

#[local] Open Scope Z_scope.

Module SnmpError.
Inductive t :=
| InvalidOid | UnregisteredObject | LimitExceeded | Malformed | RequestIdMismatch
| InvalidObjectKey | DuplicateObject | InvalidValue.

#[global] Instance eq_dec : EqDecision t.
Proof. solve_decision. Defined.
End SnmpError.

#[local] Abbreviation Res := (Result SnmpError.t).
#[local] Abbreviation Checked A := (Result (Fault SnmpError.t) A).

(** ** Object identifiers and keys *)

(** [ObjectId(pub Vec<u32>)]. *)
Definition ObjectId := list Z.

(** [arc.parse::<u32>().map_err(..)] on every piece, then [collect]. *)
Fixpoint parse_arcs (pieces : list (list Z)) : Res (list Z) :=
  match pieces with
  | [] => Ok []
  | arc :: pieces =>
      let? arc := ok_or (parse_unsigned u32_max arc) SnmpError.InvalidOid in
      let? arcs := parse_arcs pieces in
      Ok (arc :: arcs)
  end.

(** The test shared by [ObjectId::parse] and [encode_oid]. *)
Definition invalid_oid (arcs : list Z) : bool :=
  match arcs with
  | first :: second :: _ => (2 <? first) || ((first <? 2) && (39 <? second))
  | _ => true
  end.

Definition ObjectId_parse (value : list Z) : Res ObjectId :=
  let? arcs := parse_arcs (split DOT (trim_start_matches DOT value)) in
  if invalid_oid arcs then Err SnmpError.InvalidOid else Ok arcs.

(** [Display]. *)
Definition ObjectId_fmt (oid : ObjectId) : list Z := join DOT (map show_dec oid).

Definition is_within (oid root : ObjectId) : bool := starts_with root oid.

Definition object_key_byte (byte : Z) : bool :=
  is_ascii_lowercase byte || is_ascii_digit byte
  || (byte =? 46) || (byte =? 45) || (byte =? 95).

(** [ObjectKey(String)]. *)
Definition ObjectKey := list Z.

Definition ObjectKey_new (value : list Z) : Res ObjectKey :=
  let valid := negb (zlen value =? 0) && (zlen value <=? 128) && forallb object_key_byte value in
  if valid then Ok value else Err SnmpError.InvalidObjectKey.

(** ** Object definitions *)

Inductive Sensitivity := Public | Identifier | Secret.

Definition is_sensitive (s : Sensitivity) : bool :=
  match s with Public => false | _ => true end.

Inductive ObjectSyntax :=
| SyntaxInteger | SyntaxOctets | SyntaxUtf8 (trim_trailing_nul : bool) | SyntaxIpv4
| SyntaxObjectIdentifier | SyntaxCounter | SyntaxBrotherFirmwareRecord.

Record DeviceQualification := {
  manufacturer : list Z;
  models : list (list Z);
  firmware : option (list Z);
  qualification_id : list Z;
}.

Inductive SetValue :=
| SetInteger (value : Z)
| SetOctets (value : list Z)
| SetText (value : list Z)
| SetIpAddress (value : list Z)
| SetObjectId (value : ObjectId).

#[global] Instance SetValue_eq_dec : EqDecision SetValue.
Proof. solve_decision. Defined.

Inductive ValueConstraint :=
| IntegerRange (minimum maximum : Z)
| OctetLength (minimum maximum : Z)
| Utf8Length (minimum maximum : Z)
| Values (values : list SetValue).

Inductive WriteRisk := Low | Configuration | Connectivity | Destructive.

Inductive Verification :=
| ReadBackSameObject
| ReadBack (key : ObjectKey) (expected : SetValue).

Record WriteDefinition := {
  w_constraint : ValueConstraint;
  w_risk : WriteRisk;
  w_verification : Verification;
}.

Inductive ObjectAccess :=
| ReadOnly
| ConfirmedWrite (definition : WriteDefinition).

Record ObjectDefinition := {
  d_key : ObjectKey;
  d_oid : ObjectId;
  d_syntax : ObjectSyntax;
  d_sensitivity : Sensitivity;
  d_access : ObjectAccess;
  d_qualification : DeviceQualification;
}.

Record RegisteredObject := {
  r_oid : ObjectId;
  semantic_id : list Z;
  sensitive : bool;
}.

(** [validate_set_value]: the syntax admits the kind of value, the object is
    writable, and the value meets the constraint. *)
Definition syntax_matches (syntax : ObjectSyntax) (value : SetValue) : bool :=
  match syntax, value with
  | SyntaxInteger, SetInteger _ | SyntaxOctets, SetOctets _ | SyntaxUtf8 _, SetText _
  | SyntaxIpv4, SetIpAddress _ | SyntaxObjectIdentifier, SetObjectId _ => true
  | _, _ => false
  end.

Definition within (minimum maximum n : Z) : bool := (minimum <=? n) && (n <=? maximum).

Definition constraint_admits (c : ValueConstraint) (value : SetValue) : bool :=
  match c, value with
  | IntegerRange minimum maximum, SetInteger value => within minimum maximum value
  | OctetLength minimum maximum, SetOctets value => within minimum maximum (zlen value)
  | Utf8Length minimum maximum, SetText value => within minimum maximum (zlen value)
  | Values values, value => bool_decide (value ∈ values)
  | _, _ => false
  end.

Definition validate_set_value (definition : ObjectDefinition) (value : SetValue) : Res unit :=
  if negb (syntax_matches (d_syntax definition) value) then Err SnmpError.InvalidValue
  else
    match d_access definition with
    | ReadOnly => Err SnmpError.UnregisteredObject
    | ConfirmedWrite write => ensure (constraint_admits (w_constraint write) value) SnmpError.InvalidValue
    end.

(** ** The registry *)

(** Two [BTreeMap]s. *)
Record ObjectRegistry := {
  objects : gmap ObjectId RegisteredObject;
  definitions : gmap ObjectKey ObjectDefinition;
}.

Definition ObjectRegistry_default : ObjectRegistry := {| objects := ∅; definitions := ∅ |}.

Definition contains_key {K V} `{Countable K} (m : gmap K V) (k : K) : bool := bool_decide (is_Some (m !! k)).

(** [&mut self] methods return the registry they leave. *)
Definition register (r : ObjectRegistry) (object : RegisteredObject) : Res unit * ObjectRegistry :=
  if (zlen (semantic_id object) =? 0) || contains_key (objects r) (r_oid object)
  then (Err SnmpError.UnregisteredObject, r)
  else (Ok tt, {| objects := <[r_oid object := object]> (objects r); definitions := definitions r |}).

Definition registry_get (r : ObjectRegistry) (oid : ObjectId) : option RegisteredObject :=
  objects r !! oid.

Definition register_definition (r : ObjectRegistry) (definition : ObjectDefinition) :
    Res unit * ObjectRegistry :=
  if contains_key (objects r) (d_oid definition) || contains_key (definitions r) (d_key definition)
  then (Err SnmpError.DuplicateObject, r)
  else
    (Ok tt, {|
       objects := <[d_oid definition := {|
         r_oid := d_oid definition;
         semantic_id := d_key definition;
         sensitive := is_sensitive (d_sensitivity definition) |}]> (objects r);
       definitions := <[d_key definition := definition]> (definitions r) |}).

Definition definition (r : ObjectRegistry) (key : ObjectKey) : option ObjectDefinition :=
  definitions r !! key.

(** [values().find(..)]. *)
Definition definition_for_oid (r : ObjectRegistry) (oid : ObjectId) : option ObjectDefinition :=
  List.find (fun d => bool_decide (d_oid d = oid)) (map snd (map_to_list (definitions r))).

(** [keys().any(..)]. *)
Definition permits_root (r : ObjectRegistry) (root : ObjectId) : bool :=
  existsb (fun oid => is_within oid root) (map fst (map_to_list (objects r))).

(** ** Values and responses *)

Module ObjectValue.
Inductive t :=
| Integer (value : Z)
| Bytes (value : list Z)
| Null
| ObjectIdValue (value : ObjectId)
| IpAddress (value : list Z)
| Counter32 (value : Z)
| Gauge32 (value : Z)
| Unsigned32 (value : Z)
| TimeTicks (value : Z)
| Opaque (value : list Z)
| Nsap (value : list Z)
| Counter64 (value : Z)
| Counter (value : Z)
| NoSuchObject
| NoSuchInstance
| EndOfMibView
| Unknown (tag : Z) (bytes : list Z).

#[global] Instance eq_dec : EqDecision t.
Proof. solve_decision. Defined.
End ObjectValue.

Record VarBind := { oid : ObjectId; value : ObjectValue.t }.

Record ResponseEvidence := {
  credential_elided_hash : list Z;
  original_length : Z;
  sanitized_bytes : option (list Z);
}.

Record Response := {
  request_id : Z;
  error_status : Z;
  error_index : Z;
  varbinds : list VarBind;
  evidence : ResponseEvidence;
}.

Record DecodeLimits := {
  maximum_message_bytes : Z;
  maximum_varbinds : Z;
  maximum_value_bytes : Z;
}.

Definition DecodeLimits_default : DecodeLimits := {|
  maximum_message_bytes := 64 * 1024;
  maximum_varbinds := 64;
  maximum_value_bytes := 16 * 1024;
|}.

(** ** Encoding *)

(** The big-endian bytes of a length, from the first one that is not zero. *)
Fixpoint significant (bytes : list Z) : list Z :=
  match bytes with
  | b :: (_ :: _) as rest => if b =? 0 then significant rest else bytes
  | _ => bytes
  end.

Definition tlv_length (n : Z) : list Z :=
  if n <? 128 then [as_u8 n]
  else
    let bytes := significant (to_be_bytes 8 n) in
    Z.lor 0x80 (as_u8 (zlen bytes)) :: bytes.

Definition tlv (tag : Z) (value : list Z) : list Z := tag :: tlv_length (zlen value) ++ value.

Definition sequence (content : list Z) : list Z := tlv 0x30 content.

(** Leading bytes that only repeat the sign, while two are left. *)
Fixpoint minimal_integer (bytes : list Z) : list Z :=
  match bytes with
  | b0 :: (b1 :: _) as rest =>
      if ((b0 =? 0) && (Z.land b1 0x80 =? 0)) || ((b0 =? 0xff) && negb (Z.land b1 0x80 =? 0))
      then minimal_integer rest
      else bytes
  | _ => bytes
  end.

Definition integer_tlv (value : Z) : list Z := tlv 0x02 (minimal_integer (to_be_bytes 8 value)).

(** The loop that fills [encoded] from its end; [acc] is [encoded[index..]]
    and [room] the [index]. *)
Fixpoint base128_digits (room : nat) (value : Z) (acc : list Z) : Checked (list Z) :=
  match room with
  | O => Err Panicked
  | S index =>
      let acc := Z.land value 0x7f :: acc in
      let value := Z.shiftr value 7 in
      if value =? 0 then Ok acc else base128_digits index value acc
  end.

(** [*byte |= 0x80] for all but the last. *)
Fixpoint set_continuation (bytes : list Z) : list Z :=
  match bytes with
  | b :: (_ :: _) as rest => Z.lor b 0x80 :: set_continuation rest
  | _ => bytes
  end.

Definition encode_base128 (value : Z) : Checked (list Z) :=
  let? encoded := base128_digits 5 value [] in
  Ok (set_continuation encoded).

Fixpoint encode_arcs (arcs : list Z) : Checked (list Z) :=
  match arcs with
  | [] => Ok []
  | arc :: arcs =>
      let? encoded := encode_base128 arc in
      let? output := encode_arcs arcs in
      Ok (encoded ++ output)
  end.

Definition encode_oid (oid : ObjectId) : Checked (list Z) :=
  if invalid_oid oid then fail SnmpError.InvalidOid
  else
    match oid with
    | first :: second :: rest =>
        let? head := encode_base128 (as_u32 (as_u32 (first * 40) + second)) in
        let? output := encode_arcs rest in
        Ok (head ++ output)
    | _ => fail SnmpError.InvalidOid
    end.

Definition encode_request (registry : ObjectRegistry) (community : list Z) (request_id : Z)
    (oid : ObjectId) (pdu_tag : Z) : Checked (list Z) :=
  if (zlen community =? 0) || (255 <? zlen community)
     || ((pdu_tag =? 0xa1) && negb (permits_root registry oid))
  then fail SnmpError.UnregisteredObject
  else
    let? encoded := encode_oid oid in
    let varbind := sequence (tlv 0x06 encoded ++ tlv 0x05 []) in
    let varbinds := sequence varbind in
    let pdu := tlv pdu_tag (integer_tlv request_id ++ integer_tlv 0 ++ integer_tlv 0 ++ varbinds) in
    Ok (sequence (integer_tlv 1 ++ tlv 0x04 community ++ pdu)).

Definition encode_get (registry : ObjectRegistry) (community : list Z) (request_id : Z)
    (oid : ObjectId) : Checked (list Z) :=
  match registry_get registry oid with
  | None => fail SnmpError.UnregisteredObject
  | Some _ => encode_request registry community request_id oid 0xa0
  end.

Definition encode_get_next (registry : ObjectRegistry) (community : list Z) (request_id : Z)
    (oid : ObjectId) : Checked (list Z) :=
  encode_request registry community request_id oid 0xa1.

(** ** Primitive values *)

Definition decode_integer (bytes : list Z) : Res Z :=
  if (zlen bytes =? 0) || (8 <? zlen bytes) then Err SnmpError.Malformed
  else
    let fill := if Z.land (nth 0 bytes 0) 0x80 =? 0 then 0 else 0xff in
    Ok (to_signed 8 (of_be_bytes (replicate (8 - length bytes) fill ++ bytes))).

Definition decode_unsigned (bytes : list Z) : Res Z :=
  if (zlen bytes =? 0) || (9 <? zlen bytes) || ((zlen bytes =? 9) && negb (nth 0 bytes 0 =? 0))
  then Err SnmpError.Malformed
  else
    let bytes := match bytes with 0 :: rest => rest | _ => bytes end in
    Ok (of_be_bytes (replicate (8 - length bytes) 0 ++ bytes)).

(** One arc: its value and the bytes after it. *)
Fixpoint decode_arc (bytes : list Z) (value count : Z) : Res (Z * list Z) :=
  match bytes with
  | [] => Err SnmpError.Malformed
  | byte :: bytes =>
      let count := count + 1 in
      if (5 <? count) || (Z.shiftr u32_max 7 <? value) then Err SnmpError.Malformed
      else
        let value := Z.lor (as_u32 (Z.shiftl value 7)) (Z.land byte 0x7f) in
        if Z.land byte 0x80 =? 0 then Ok (value, bytes) else decode_arc bytes value count
  end.

Fixpoint decode_arcs (fuel : nat) (bytes : list Z) : Checked (list Z) :=
  match bytes, fuel with
  | [], _ => Ok []
  | _, O => Err Panicked
  | _, S fuel =>
      let? ' (arc, bytes) := raising (decode_arc bytes 0 0) in
      let? arcs := decode_arcs fuel bytes in
      Ok (arc :: arcs)
  end.

Definition decode_oid (bytes : list Z) : Checked (list Z) :=
  let? arcs := decode_arcs (length bytes) bytes in
  match arcs with
  | [] => fail SnmpError.Malformed
  | first :: arcs =>
      let (first_arc, second_arc) :=
        if first <? 40 then (0, first)
        else if first <? 80 then (1, first - 40)
        else (2, first - 80) in
      Ok (first_arc :: second_arc :: arcs)
  end.

(** [u32::try_from(decode_unsigned(bytes)?).map_err(|_| Malformed)?]. *)
Definition decode_u32 (bytes : list Z) : Res Z :=
  let? n := decode_unsigned bytes in ok_or (checked u32_max n) SnmpError.Malformed.

Definition decode_value (tag : Z) (bytes : list Z) : Checked ObjectValue.t :=
  match tag with
  | 0x02 => let? n := raising (decode_integer bytes) in Ok (ObjectValue.Integer n)
  | 0x04 => Ok (ObjectValue.Bytes bytes)
  | 0x05 => if zlen bytes =? 0 then Ok ObjectValue.Null else fail SnmpError.Malformed
  | 0x06 => let? arcs := decode_oid bytes in Ok (ObjectValue.ObjectIdValue arcs)
  | 0x40 => if zlen bytes =? 4 then Ok (ObjectValue.IpAddress bytes) else fail SnmpError.Malformed
  | 0x41 => let? n := raising (decode_u32 bytes) in Ok (ObjectValue.Counter32 n)
  | 0x42 => let? n := raising (decode_u32 bytes) in Ok (ObjectValue.Gauge32 n)
  | 0x43 => let? n := raising (decode_u32 bytes) in Ok (ObjectValue.TimeTicks n)
  | 0x44 => Ok (ObjectValue.Opaque bytes)
  | 0x45 => Ok (ObjectValue.Nsap bytes)
  | 0x46 => let? n := raising (decode_unsigned bytes) in Ok (ObjectValue.Counter64 n)
  | 0x47 => let? n := raising (decode_u32 bytes) in Ok (ObjectValue.Unsigned32 n)
  | 0x80 => if zlen bytes =? 0 then Ok ObjectValue.NoSuchObject else fail SnmpError.Malformed
  | 0x81 => if zlen bytes =? 0 then Ok ObjectValue.NoSuchInstance else fail SnmpError.Malformed
  | 0x82 => if zlen bytes =? 0 then Ok ObjectValue.EndOfMibView else fail SnmpError.Malformed
  | tag => Ok (ObjectValue.Unknown tag bytes)
  end.

(** ** The cursor *)

Record Cursor := { c_bytes : list Z; c_offset : Z }.

Definition Cursor_new (bytes : list Z) : Cursor := {| c_bytes := bytes; c_offset := 0 |}.

Definition seek (c : Cursor) (offset : Z) : Cursor := {| c_bytes := c_bytes c; c_offset := offset |}.

Definition remaining (c : Cursor) : Checked (list Z) :=
  if c_offset c <=? zlen (c_bytes c) then Ok (drop (Z.to_nat (c_offset c)) (c_bytes c)) else Err Panicked.

(** [bytes.get(offset)] and the advance by one. *)
Definition next_byte (c : Cursor) : Res (Z * Cursor) :=
  let? b := ok_or (c_bytes c !! Z.to_nat (c_offset c)) SnmpError.Malformed in
  Ok (b, seek c (c_offset c + 1)).

(** [checked_add] and [get(offset..end)]. *)
Definition next_bytes (c : Cursor) (length : Z) : Res (list Z * Z) :=
  let? end_ := ok_or (checked usize_max (c_offset c + length)) SnmpError.Malformed in
  let? bytes := ok_or (get_range (c_bytes c) (c_offset c) end_) SnmpError.Malformed in
  Ok (bytes, end_).

(** [(value << 8) | byte] on [usize]. *)
Definition shift_in (value byte : Z) : Z := Z.lor (Z.shiftl value 8 mod 2 ^ 64) byte.

Definition cursor_length (c : Cursor) : Res (Z * Cursor) :=
  let? ' (first, c) := next_byte c in
  if Z.land first 0x80 =? 0 then Ok (first, c)
  else
    let count := Z.land first 0x7f in
    if (count =? 0) || (8 <? count) then Err SnmpError.Malformed
    else
      let? ' (bytes, end_) := next_bytes c count in
      if bool_decide (head bytes = Some 0) then Err SnmpError.Malformed
      else Ok (fold_left shift_in bytes 0, seek c end_).

Definition any (c : Cursor) (maximum : Z) : Res (Z * list Z * Cursor) :=
  let? ' (tag, c) := next_byte c in
  let? ' (length, c) := cursor_length c in
  if maximum <? length then Err SnmpError.LimitExceeded
  else
    let? ' (value, end_) := next_bytes c length in
    Ok (tag, value, seek c end_).

Definition cursor_value (c : Cursor) (tag maximum : Z) : Res (list Z * Cursor) :=
  let? ' (actual, value, c) := any c maximum in
  if actual =? tag then Ok (value, c) else Err SnmpError.Malformed.

(** The nested cursor and the one after it. *)
Definition nested (c : Cursor) (tag : Z) : Res (Cursor * Cursor) :=
  let? ' (value, c) := cursor_value c tag (zlen (c_bytes c)) in
  Ok (Cursor_new value, c).

Definition cursor_integer (c : Cursor) : Res (Z * Cursor) :=
  let? ' (value, c) := cursor_value c 0x02 8 in
  let? n := decode_integer value in
  Ok (n, c).

Definition finish (c : Cursor) : Checked unit :=
  let? rest := remaining c in
  if zlen rest =? 0 then Ok tt else fail SnmpError.Malformed.

(** ** Responses *)

(** [i32::try_from(n).map_err(|_| Malformed)]. *)
Definition to_i32 (n : Z) : Res Z :=
  if (i32_min <=? n) && (n <=? i32_max) then Ok n else Err SnmpError.Malformed.

Definition cursor_i32 (c : Cursor) : Res (Z * Cursor) :=
  let? ' (n, c) := cursor_integer c in
  let? n := to_i32 n in
  Ok (n, c).

(** One turn of the loop over the bindings. *)
Definition decode_varbind (limits : DecodeLimits) (bindings : Cursor) : Checked (VarBind * Cursor) :=
  let? ' (binding, bindings) := raising (nested bindings 0x30) in
  let? ' (raw, binding) := raising (cursor_value binding 0x06 256) in
  let? oid := decode_oid raw in
  let? ' (tag, raw, binding) := raising (any binding (maximum_value_bytes limits)) in
  let? _ := finish binding in
  let? value := decode_value tag raw in
  Ok ({| oid := oid; value := value |}, bindings).

Fixpoint decode_varbinds (fuel : nat) (limits : DecodeLimits) (bindings : Cursor)
    (varbinds : list VarBind) : Checked (list VarBind) :=
  let? rest := remaining bindings in
  if zlen rest =? 0 then Ok varbinds
  else
    match fuel with
    | O => Err Panicked
    | S fuel =>
        if maximum_varbinds limits <=? zlen varbinds then fail SnmpError.LimitExceeded
        else
          let? ' (varbind, bindings) := decode_varbind limits bindings in
          decode_varbinds fuel limits bindings (varbinds ++ [varbind])
    end.

(** [target.fill(b'*')] on [sanitized[start..end]]. *)
Definition mask (start end_ : Z) (bytes : list Z) : option (list Z) :=
  if (start <=? end_) && (end_ <=? zlen bytes) then
    Some (take (Z.to_nat start) bytes ++ replicate (Z.to_nat (end_ - start)) 42 ++
          drop (Z.to_nat end_) bytes)
  else None.

Definition sanitize_v2c_message (bytes : list Z) : Checked (list Z) :=
  let? ' (outer, _) := raising (nested (Cursor_new bytes) 0x30) in
  let? ' (_, outer) := raising (cursor_integer outer) in
  let value_start := c_offset outer in
  let? ' (community, outer) := raising (cursor_value outer 0x04 255) in
  let value_end := c_offset outer in
  let? header_length :=
    raising (ok_or (checked usize_max (value_end - value_start - zlen community)) SnmpError.Malformed) in
  let? outer_header :=
    ok_or (checked usize_max (zlen bytes - zlen (c_bytes outer))) Panicked in
  let start := outer_header + value_start + header_length in
  let? end_ := raising (ok_or (checked usize_max (start + zlen community)) SnmpError.Malformed) in
  raising (ok_or (mask start end_ bytes) SnmpError.Malformed).

Section Evidence.
(** [Sha256] of the sha2 crate and [serde_json::to_vec]. *)
Variable sha256 : list Z -> list Z.
Variable varbinds_json : list VarBind -> list Z.

Definition from_structured (varbinds : list VarBind) : ResponseEvidence := {|
  credential_elided_hash :=
    sha256 (str "mb-printer-snmp-structured-evidence-v1" ++ [0] ++ varbinds_json varbinds);
  original_length := 0;
  sanitized_bytes := None;
|}.

Definition decode_response (bytes : list Z) (expected_request_id : Z) (limits : DecodeLimits) :
    Checked Response :=
  if maximum_message_bytes limits <? zlen bytes then fail SnmpError.LimitExceeded
  else
  let? ' (outer, _) := raising (nested (Cursor_new bytes) 0x30) in
  let? ' (version, outer) := raising (cursor_integer outer) in
  if negb (version =? 1) then fail SnmpError.Malformed
  else
  let? ' (_, outer) := raising (cursor_value outer 0x04 255) in
  let? ' (pdu, outer) := raising (nested outer 0xa2) in
  let? _ := finish outer in
  let? ' (request_id, pdu) := raising (cursor_i32 pdu) in
  if negb (request_id =? expected_request_id) then fail SnmpError.RequestIdMismatch
  else
  let? ' (error_status, pdu) := raising (cursor_i32 pdu) in
  let? ' (error_index, pdu) := raising (cursor_i32 pdu) in
  let? ' (bindings, pdu) := raising (nested pdu 0x30) in
  let? _ := finish pdu in
  let? varbinds := decode_varbinds (length bytes) limits bindings [] in
  let? sanitized := sanitize_v2c_message bytes in
  Ok {| request_id := request_id; error_status := error_status; error_index := error_index;
        varbinds := varbinds;
        evidence := {|
          credential_elided_hash := sha256 (str "mb-printer-snmp-v2c-evidence-v1" ++ [0] ++ sanitized);
          original_length := zlen bytes;
          sanitized_bytes := Some sanitized |} |}.
End Evidence.
