(* ===== verification/SnmpFacts.v ===== *)
(** The SNMP codec is total and faithful (crates/mb-printer-core/src/snmp.rs):
    object identifiers and responses read back as they were written, the
    registry stays consistent, and the community is masked in the evidence. *)

From stdpp Require Import base gmap list list_numbers strings numbers option.
From S2P Require Import Prelude Text Snmp.

#[local] Open Scope Z_scope.

(** ** Lengths *)

Lemma significant_spec l :
  bytes_ok l -> of_be_bytes (significant l) = of_be_bytes l /\ bytes_ok (significant l) /\
  zlen (significant l) <= zlen l /\ (l <> [] -> 0 < zlen (significant l)) /\
  (0 < of_be_bytes l -> head (significant l) <> Some 0).
Proof.
  unfold bytes_ok. induction 1 as [|b l Hb Hl IH]; [by cbn|].
  destruct l as [|b' l].
  { cbn [significant]. split_and!; [done|by constructor|done|unfold zlen; cbn; lia|].
    unfold of_be_bytes. cbn. intros ? [= ->]. lia. }
  change (significant (b :: b' :: l)) with (if b =? 0 then significant (b' :: l) else b :: b' :: l).
  destruct IH as (E & Hok & Hlen & Hpos & Hhd). destruct (Z.eqb_spec b 0) as [->|Hne].
  - rewrite (of_be_bytes_cons 0). rewrite !zlen_cons in *. split_and!; [by rewrite E|done|lia| |].
    + intros _. by apply Hpos.
    + intros Hv. apply Hhd. lia.
  - split_and!; [done|by constructor|lia|rewrite zlen_cons; pose proof (zlen_nonneg (b' :: l)); lia|].
    intros _ [= ->]. done.
Qed.

Lemma shift_in_add value byte :
  0 <= value < 2 ^ 56 -> byte_ok byte -> shift_in value byte = value * 256 + byte.
Proof.
  intros Hv Hb. unfold shift_in, byte_ok in *. rewrite Z.mod_small.
  - by apply (lor_shiftl_add _ _ 8).
  - rewrite Z.shiftl_mul_pow2 by lia. lia.
Qed.

Lemma fold_shift_in l : bytes_ok l -> zlen l <= 8 -> fold_left shift_in l 0 = of_be_bytes l.
Proof.
  induction l as [|b l IH] using rev_ind; intros Hok Hlen; [done|].
  apply Forall_app in Hok as [Hl Hb]. rewrite zlen_app in Hlen.
  rewrite fold_left_app, of_be_bytes_snoc. cbn [fold_left]. unfold zlen at 2 in Hlen. cbn in Hlen.
  rewrite IH by (done || lia). apply shift_in_add; [|by inversion Hb].
  pose proof (of_be_bytes_bound l Hl) as Hbound.
  assert (256 ^ zlen l <= 256 ^ 7) by (apply Z.pow_le_mono_r; lia). lia.
Qed.

(** A cursor that has read [pre] and has [rest] left. *)
Definition cur (pre rest : list Z) : Cursor := {| c_bytes := pre ++ rest; c_offset := zlen pre |}.

Lemma cur_new rest : Cursor_new rest = cur [] rest.
Proof. done. Qed.

Lemma cur_app pre l rest : cur pre (l ++ rest) = {| c_bytes := (pre ++ l) ++ rest; c_offset := zlen pre |}.
Proof. unfold cur. by rewrite <- app_assoc. Qed.

Lemma next_byte_run pre b rest : next_byte (cur pre (b :: rest)) = Ok (b, cur (pre ++ [b]) rest).
Proof.
  unfold next_byte, cur, seek. cbn [c_bytes c_offset]. unfold zlen at 1. rewrite Nat2Z.id.
  rewrite lookup_app_r, Nat.sub_diag by lia. cbn [lookup list_lookup ok_or rbind].
  rewrite <- app_assoc, zlen_app. done.
Qed.

Lemma next_bytes_run pre l rest :
  zlen pre + zlen l <= usize_max ->
  next_bytes (cur pre (l ++ rest)) (zlen l) = Ok (l, zlen (pre ++ l)).
Proof.
  intros Hmax. unfold next_bytes, cur. cbn [c_bytes c_offset].
  assert (checked usize_max (zlen pre + zlen l) = Some (zlen pre + zlen l)) as ->.
  { apply checked_Some. unfold in_u. pose proof (zlen_nonneg pre). pose proof (zlen_nonneg l). lia. }
  cbn [ok_or rbind]. rewrite get_range_app. cbn [ok_or rbind]. by rewrite zlen_app.
Qed.

Lemma tlv_length_shape n :
  0 <= n <= usize_max ->
  (n < 128 /\ tlv_length n = [n]) \/
  (exists l, tlv_length n = (128 + zlen l) :: l /\ bytes_ok l /\ 0 < zlen l <= 8 /\
     of_be_bytes l = n /\ head l <> Some 0).
Proof.
  intros Hn. unfold usize_max, u64_max in Hn. unfold tlv_length. destruct (Z.ltb_spec n 128) as [Hs|Hs].
  - left. split; [done|]. by rewrite as_u8_id by (unfold byte_ok; lia).
  - right. destruct (significant_spec (to_be_bytes 8 n)) as (E & Hok & Hlen & Hpos & Hhd); [auto with rust|].
    rewrite of_to_be_bytes, Z.mod_small in E by (cbn; lia).
    rewrite of_to_be_bytes, Z.mod_small in Hhd by (cbn; lia).
    rewrite zlen_to_be_bytes in Hlen.
    assert (0 < zlen (significant (to_be_bytes 8 n))) by (apply Hpos; by intros [=]%(f_equal length)).
    exists (significant (to_be_bytes 8 n)). split_and!; try done; [|apply Hhd; lia].
    rewrite as_u8_id by (unfold byte_ok; lia). by rewrite (lor_shiftl_add 1 _ 7) by lia.
Qed.

Lemma cursor_length_run pre n rest :
  0 <= n -> zlen pre + zlen (tlv_length n) <= usize_max -> n <= usize_max ->
  cursor_length (cur pre (tlv_length n ++ rest)) = Ok (n, cur (pre ++ tlv_length n) rest).
Proof.
  intros Hn Hmax Hu. unfold cursor_length.
  destruct (tlv_length_shape n) as [[Hs ->]|(l & El & Hok & Hlen & E & Hhd)]; [lia| |].
  - cbn [app]. rewrite next_byte_run. cbn [rbind].
    rewrite land_high_bit by (unfold byte_ok; lia). by destruct (Z.ltb_spec n 128); [|lia].
  - rewrite El in *. cbn [app]. rewrite next_byte_run. cbn [rbind].
    rewrite land_high_bit by (unfold byte_ok; lia).
    destruct (Z.ltb_spec (128 + zlen l) 128); [lia|].
    rewrite land_low_bits. replace ((128 + zlen l) mod 128) with (zlen l)
      by (apply (Z.mod_unique _ _ 1); lia).
    destruct (Z.eqb_spec (zlen l) 0); [lia|]. destruct (Z.ltb_spec 8 (zlen l)); [lia|]. cbn [orb].
    rewrite zlen_cons in Hmax. rewrite next_bytes_run by (rewrite zlen_app; unfold zlen in *; cbn in *; lia).
    cbn [rbind]. rewrite bool_decide_eq_false_2 by done. rewrite fold_shift_in by (done || lia).
    rewrite E. unfold seek, cur. cbn [c_bytes]. by rewrite <- !app_assoc.
Qed.

(** ** Tagged values *)

Definition tlv_ok (pre tag_value : list Z) : Prop := zlen pre + zlen tag_value <= usize_max.

Lemma zlen_tlv tag v : zlen (tlv tag v) = 1 + zlen (tlv_length (zlen v)) + zlen v.
Proof. unfold tlv. rewrite zlen_cons, zlen_app. lia. Qed.

Lemma any_run pre tag v rest maximum :
  tlv_ok pre (tlv tag v) -> zlen v <= maximum ->
  any (cur pre (tlv tag v ++ rest)) maximum = Ok (tag, v, cur (pre ++ tlv tag v) rest).
Proof.
  unfold tlv_ok. rewrite zlen_tlv. intros Hmax Hv. unfold any, tlv. cbn [app].
  pose proof (zlen_nonneg v). pose proof (zlen_nonneg pre). pose proof (zlen_nonneg (tlv_length (zlen v))).
  assert (zlen (pre ++ [tag]) = zlen pre + 1) as Hp by (by rewrite zlen_app).
  rewrite next_byte_run. cbn [rbind]. rewrite <- app_assoc.
  rewrite cursor_length_run by lia. cbn [rbind].
  destruct (Z.ltb_spec maximum (zlen v)); [lia|].
  rewrite next_bytes_run by (rewrite zlen_app, Hp; lia). cbn [rbind].
  unfold seek, cur. cbn [c_bytes]. rewrite <- !app_assoc. cbn [app]. by rewrite <- app_assoc.
Qed.

Lemma value_run pre tag v rest maximum :
  tlv_ok pre (tlv tag v) -> zlen v <= maximum ->
  cursor_value (cur pre (tlv tag v ++ rest)) tag maximum = Ok (v, cur (pre ++ tlv tag v) rest).
Proof. intros. unfold cursor_value. rewrite any_run by done. cbn [rbind]. by rewrite Z.eqb_refl. Qed.

Lemma nested_run pre tag v rest :
  tlv_ok pre (tlv tag v) ->
  nested (cur pre (tlv tag v ++ rest)) tag = Ok (cur [] v, cur (pre ++ tlv tag v) rest).
Proof.
  intros Hmax. unfold nested. rewrite value_run; [done|done|].
  unfold cur. cbn [c_bytes]. rewrite !zlen_app, zlen_tlv.
  pose proof (zlen_nonneg pre). pose proof (zlen_nonneg (tlv_length (zlen v))). pose proof (zlen_nonneg rest). lia.
Qed.

Lemma finish_run pre : finish (cur pre []) = Ok tt.
Proof.
  unfold finish, remaining, cur. cbn [c_bytes c_offset]. rewrite app_nil_r, Z.leb_refl.
  unfold zlen at 1. rewrite Nat2Z.id, drop_all. done.
Qed.

(** ** Integers *)

Definition sign_fill (l : list Z) : Z := if Z.land (nth 0 l 0) 0x80 =? 0 then 0 else 0xff.
Definition sign_extend (l : list Z) : list Z := replicate (8 - length l) (sign_fill l) ++ l.

Lemma minimal_integer_cons b b' l :
  minimal_integer (b :: b' :: l) =
  if ((b =? 0) && (Z.land b' 0x80 =? 0)) || ((b =? 0xff) && negb (Z.land b' 0x80 =? 0))
  then minimal_integer (b' :: l) else b :: b' :: l.
Proof. reflexivity. Qed.

(** Trimming an integer changes neither its sign extension nor its being a
    non-empty suffix. *)
Lemma minimal_integer_spec l :
  l <> [] -> (length l <= 8)%nat ->
  sign_extend (minimal_integer l) = sign_extend l /\ 0 < zlen (minimal_integer l) <= zlen l.
Proof.
  intros Hne Hlen. induction l as [|b l IH]; [done|]. destruct l as [|b' l].
  { cbn. unfold zlen. cbn. by split; [|lia]. }
  rewrite minimal_integer_cons. destruct (_ || _) eqn:Hc.
  - cbn [length] in Hlen. destruct IH as [E Hl]; [done|cbn; lia|].
    rewrite (zlen_cons b). split; [|lia]. rewrite E. unfold sign_extend, sign_fill. cbn [nth length].
    replace (8 - S (length l))%nat with (S (8 - S (S (length l)))) by lia.
    assert ((Z.land b 0x80 =? 0) = (Z.land b' 0x80 =? 0) /\
            b = if Z.land b' 0x80 =? 0 then 0 else 0xff) as [-> Hb].
    { destruct (Z.eqb_spec b 0) as [->|], (Z.land b' 0x80 =? 0); try done;
        destruct (Z.eqb_spec b 0xff) as [->|]; done. }
    rewrite replicate_S_end, <- app_assoc. cbn [app]. by rewrite <- Hb.
  - split; [done|]. pose proof (zlen_nonneg l). rewrite !zlen_cons. lia.
Qed.

Lemma decode_integer_extend l :
  0 < zlen l <= 8 -> decode_integer l = Ok (to_signed 8 (of_be_bytes (sign_extend l))).
Proof.
  intros Hl. unfold decode_integer. destruct (Z.eqb_spec (zlen l) 0); [lia|].
  destruct (Z.ltb_spec 8 (zlen l)); [lia|]. done.
Qed.

Lemma decode_minimal_integer v :
  i64_min <= v <= i64_max -> decode_integer (minimal_integer (to_be_bytes 8 v)) = Ok v.
Proof.
  intros Hv. destruct (minimal_integer_spec (to_be_bytes 8 v)) as [E Hl].
  { by intros [=]%(f_equal length). }
  { by rewrite length_to_be_bytes. }
  rewrite zlen_to_be_bytes in Hl. rewrite decode_integer_extend by lia. rewrite E.
  unfold sign_extend. rewrite length_to_be_bytes. cbn [Nat.sub replicate app].
  rewrite of_to_be_bytes. f_equal. unfold i64_min, i64_max in Hv. apply to_signed_mod; cbn; lia.
Qed.

Lemma zlen_integer v : 0 < zlen (minimal_integer (to_be_bytes 8 v)) <= 8.
Proof.
  destruct (minimal_integer_spec (to_be_bytes 8 v)) as [_ Hl].
  { by intros [=]%(f_equal length). }
  { by rewrite length_to_be_bytes. }
  by rewrite zlen_to_be_bytes in Hl.
Qed.

Lemma integer_run pre v rest :
  tlv_ok pre (integer_tlv v) -> i64_min <= v <= i64_max ->
  cursor_integer (cur pre (integer_tlv v ++ rest)) = Ok (v, cur (pre ++ integer_tlv v) rest).
Proof.
  intros Hmax Hv. unfold cursor_integer, integer_tlv in *. pose proof (zlen_integer v).
  rewrite value_run by (done || lia). cbn [rbind]. by rewrite decode_minimal_integer.
Qed.

Lemma i32_run pre v rest :
  tlv_ok pre (integer_tlv v) -> i32_min <= v <= i32_max ->
  cursor_i32 (cur pre (integer_tlv v ++ rest)) = Ok (v, cur (pre ++ integer_tlv v) rest).
Proof.
  intros Hmax Hv. unfold cursor_i32. unfold i32_min, i32_max in Hv.
  rewrite integer_run by (unfold i64_min, i64_max; done || lia). cbn [rbind]. unfold to_i32.
  destruct (Z.leb_spec i32_min v), (Z.leb_spec v i32_max); unfold i32_min, i32_max in *; (done || lia).
Qed.

(** ** Unsigned integers *)

(** The BER integer of an unsigned value: its bytes after a zero. *)
Definition unsigned_bytes (n : Z) : list Z := minimal_integer (0 :: to_be_bytes 8 n).

Lemma minimal_integer_unsigned l :
  l <> [] -> bytes_ok l -> nth 0 l 0 < 128 ->
  let m := minimal_integer l in
  of_be_bytes m = of_be_bytes l /\ 0 < zlen m <= zlen l /\ nth 0 m 0 < 128 /\ (zlen m = zlen l -> m = l).
Proof.
  intros Hne Hok. induction Hok as [|b l Hb Hl IH]; [done|]. intros Hhd. destruct l as [|b' l].
  { cbn. unfold zlen. cbn. split_and!; try lia; done. }
  rewrite minimal_integer_cons. inversion_clear Hl as [|? ? Hb' _]. cbn in Hhd.
  rewrite !land_high_bit by done. unfold byte_ok in *. destruct (_ || _) eqn:Hc.
  - assert (b = 0 /\ b' < 128) as [-> Hb'']
      by (destruct (Z.eqb_spec b 0), (Z.ltb_spec b' 128), (Z.eqb_spec b 255); (done || lia)).
    destruct IH as (E & Hl & Hh & Hs); [done|done|].
    rewrite (of_be_bytes_cons 0), (zlen_cons 0). split_and!; [by rewrite E|lia|lia|done|lia].
  - pose proof (zlen_nonneg l). rewrite !zlen_cons. split_and!; (done || lia).
Qed.

Lemma zlen_unsigned n : 0 < zlen (unsigned_bytes n) <= 9.
Proof.
  destruct (minimal_integer_unsigned (0 :: to_be_bytes 8 n)) as (_ & Hl & _); [done| |done|].
  - constructor; [unfold byte_ok; lia|apply to_be_bytes_ok].
  - rewrite zlen_cons, zlen_to_be_bytes in Hl. exact Hl.
Qed.

Lemma decode_unsigned_bytes n : in_u u64_max n -> decode_unsigned (unsigned_bytes n) = Ok n.
Proof.
  intros Hn. unfold in_u, u64_max in Hn. pose proof (zlen_unsigned n) as Hlen.
  destruct (minimal_integer_unsigned (0 :: to_be_bytes 8 n)) as (E & _ & Hh & Hs); [done| |done|].
  { constructor; [unfold byte_ok; lia|apply to_be_bytes_ok]. }
  rewrite of_be_bytes_cons, of_to_be_bytes, Z.mod_small in E by (cbn; lia).
  fold (unsigned_bytes n) in *. rewrite zlen_cons, zlen_to_be_bytes in Hs.
  unfold decode_unsigned. destruct (Z.eqb_spec (zlen (unsigned_bytes n)) 0); [lia|].
  destruct (Z.ltb_spec 9 (zlen (unsigned_bytes n))); [lia|]. cbn [orb].
  assert ((zlen (unsigned_bytes n) =? 9) && negb (nth 0 (unsigned_bytes n) 0 =? 0) = false) as ->.
  { destruct (Z.eqb_spec (zlen (unsigned_bytes n)) 9) as [E9|]; [|done]. by rewrite Hs. }
  f_equal. rewrite of_be_bytes_zeros. destruct (unsigned_bytes n) as [|[| |] l]; [done|exact E..].
Qed.

Lemma decode_u32_bytes n : in_u u32_max n -> decode_u32 (unsigned_bytes n) = Ok n.
Proof.
  intros Hn. unfold decode_u32. rewrite decode_unsigned_bytes.
  - cbn [rbind]. apply ok_or_Ok, checked_Some. by split.
  - unfold in_u, u32_max, u64_max in *. lia.
Qed.

(** ** Base-128 arcs *)

Definition of_base128 (value : Z) (l : list Z) : Z := fold_left (fun v d => v * 128 + d) l value.

Definition digits128 (l : list Z) : Prop := Forall (fun d => 0 <= d < 128) l.

Lemma of_base128_split value l : of_base128 value l = value * 128 ^ zlen l + of_base128 0 l.
Proof.
  revert value. induction l as [|d l IH]; intros value; [unfold zlen; cbn; lia|].
  cbn [of_base128 fold_left]. fold (of_base128 (value * 128 + d) l). fold (of_base128 (0 * 128 + d) l).
  rewrite IH, (IH (0 * 128 + d)), zlen_cons, Z.pow_add_r by (unfold zlen; lia). ring.
Qed.

Lemma of_base128_nonneg l : digits128 l -> 0 <= of_base128 0 l.
Proof.
  unfold digits128. induction 1 as [|d l Hd Hl IH]; [done|].
  cbn [of_base128 fold_left]. fold (of_base128 (0 * 128 + d) l). rewrite of_base128_split.
  pose proof (Z.pow_nonneg 128 (zlen l)). lia.
Qed.

Lemma base128_digits_run room v acc :
  0 <= v < 128 ^ Z.of_nat room -> (0 < room)%nat ->
  exists l, base128_digits room v acc = Ok (l ++ acc) /\ l <> [] /\ (length l <= room)%nat /\
    digits128 l /\ of_base128 0 l = v.
Proof.
  revert v acc. induction room as [|room IH]; intros v acc Hv Hr; [lia|]. cbn [base128_digits].
  rewrite land_low_bits. pose proof (Z.mod_pos_bound v 128 eq_refl). pose proof (Z.div_mod v 128).
  rewrite Z.shiftr_div_pow2 by done. change (2 ^ 7) with 128.
  destruct (Z.eqb_spec (v / 128) 0).
  - exists [v mod 128]. split_and!; [done|done|cbn; lia|by constructor|cbn; lia].
  - rewrite Nat2Z.inj_succ, Z.pow_succ_r in Hv by lia.
    assert (0 <= v / 128) by (by apply Z.div_pos; lia).
    destruct room as [|room]; [cbn in Hv; lia|].
    destruct (IH (v / 128) (v mod 128 :: acc)) as (l & -> & Hne & Hlen & Hok & E); [|lia|].
    { split; [lia|]. apply Z.div_lt_upper_bound; lia. }
    exists (l ++ [v mod 128]). split_and!.
    + by rewrite <- app_assoc.
    + by destruct l.
    + rewrite length_app. cbn. lia.
    + apply Forall_app. split; [done|by constructor].
    + unfold of_base128 in *. rewrite fold_left_app, E. cbn. lia.
Qed.

Lemma continuation_byte d :
  0 <= d < 128 ->
  Z.land (Z.lor d 0x80) 0x7f = d /\ (Z.land (Z.lor d 0x80) 0x80 =? 0) = false /\ byte_ok (Z.lor d 0x80).
Proof.
  intros Hd. assert (Z.lor d 0x80 = 128 + d) as ->.
  { rewrite Z.lor_comm. apply (lor_shiftl_add 1 d 7); lia. }
  rewrite land_low_bits.
  rewrite land_high_bit by (unfold byte_ok; lia). split_and!; [|by apply Z.ltb_ge; lia|unfold byte_ok; lia].
  symmetry. apply (Z.mod_unique _ _ 1); lia.
Qed.

Lemma last_byte d : 0 <= d < 128 -> Z.land d 0x7f = d /\ (Z.land d 0x80 =? 0) = true.
Proof.
  intros Hd. rewrite land_low_bits, land_high_bit by (unfold byte_ok; lia).
  split; [by apply Z.mod_small|apply Z.ltb_lt; lia].
Qed.

Lemma decode_arc_run l rest value count :
  digits128 l -> l <> [] -> 0 <= value -> count + zlen l <= 5 -> of_base128 value l <= u32_max ->
  decode_arc (set_continuation l ++ rest) value count = Ok (of_base128 value l, rest).
Proof.
  intros Hok. revert value count. induction Hok as [|d l Hd Hl IH]; intros value count Hne Hv Hc Hmax; [done|].
  assert (value * 128 + d <= u32_max) as Hstep.
  { cbn [of_base128 fold_left] in Hmax. fold (of_base128 (value * 128 + d) l) in Hmax.
    rewrite of_base128_split in Hmax. pose proof (of_base128_nonneg l Hl).
    pose proof (Z.pow_pos_nonneg 128 (zlen l) ltac:(lia) (zlen_nonneg l)). nia. }
  assert (forall b, Z.land b 0x7f = d ->
    Z.lor (as_u32 (Z.shiftl value 7)) (Z.land b 0x7f) = value * 128 + d) as Hval.
  { intros b ->. unfold as_u32, u32_max in *. rewrite Z.shiftl_mul_pow2, Z.mod_small by lia.
    rewrite <- Z.shiftl_mul_pow2 by lia. apply (lor_shiftl_add value d 7); lia. }
  assert ((5 <? count + 1) || (Z.shiftr u32_max 7 <? value) = false) as Hok.
  { pose proof (zlen_nonneg l). rewrite zlen_cons in Hc. apply orb_false_iff.
    rewrite !Z.ltb_ge. change (Z.shiftr u32_max 7) with 33554431. unfold u32_max in *. lia. }
  destruct l as [|d' l].
  - cbn [set_continuation app decode_arc]. rewrite Hok. destruct (last_byte d Hd) as [Hlow Hhigh].
    rewrite Hval by done. by rewrite Hhigh.
  - change (set_continuation (d :: d' :: l)) with (Z.lor d 0x80 :: set_continuation (d' :: l)).
    cbn [app decode_arc]. rewrite Hok. destruct (continuation_byte d Hd) as (Hlow & Hhigh & _).
    rewrite Hval by done. rewrite Hhigh. rewrite IH; [done|done|lia| |exact Hmax].
    rewrite !zlen_cons in *. lia.
Qed.

(** ** Object identifiers *)

Lemma set_continuation_cons d l : exists b m, set_continuation (d :: l) = b :: m /\ length m = length l.
Proof.
  revert d. induction l as [|d' l IH]; intros d; [by eexists _, _|].
  change (set_continuation (d :: d' :: l)) with (Z.lor d 0x80 :: set_continuation (d' :: l)).
  destruct (IH d') as (b & m & -> & E). eexists _, _. split; [done|]. cbn. by rewrite E.
Qed.

Lemma set_continuation_ok l : digits128 l -> bytes_ok (set_continuation l).
Proof.
  intros Hl. induction Hl as [|d l Hd Hl IH]; [constructor|]. destruct l as [|d' l].
  - constructor; [unfold byte_ok; lia|constructor].
  - change (set_continuation (d :: d' :: l)) with (Z.lor d 0x80 :: set_continuation (d' :: l)).
    constructor; [|done]. by destruct (continuation_byte d Hd) as (_ & _ & ?).
Qed.

Lemma encode_base128_run v :
  in_u u32_max v ->
  exists l, encode_base128 v = Ok l /\ bytes_ok l /\ l <> [] /\
    forall rest, decode_arc (l ++ rest) 0 0 = Ok (v, rest).
Proof.
  intros Hv. unfold encode_base128.
  destruct (base128_digits_run 5 v []) as (l & -> & Hne & Hlen & Hok & E);
    [unfold in_u, u32_max in Hv; cbn; lia|lia|].
  rewrite app_nil_r. cbn [rbind]. eexists. split; [done|]. split; [by apply set_continuation_ok|].
  split; [destruct l as [|d l]; [done|]; by destruct (set_continuation_cons d l) as (? & ? & -> & _)|].
  intros rest. rewrite decode_arc_run; [by rewrite E|done|done|lia|unfold zlen; lia|rewrite E; apply Hv].
Qed.

Lemma decode_arcs_step fuel b bytes :
  decode_arcs (S fuel) (b :: bytes) =
  (let? ' (arc, rest) := raising (decode_arc (b :: bytes) 0 0) in
   let? arcs := decode_arcs fuel rest in Ok (arc :: arcs)).
Proof. reflexivity. Qed.

Lemma decode_arcs_app v l rest arcs fuel :
  l <> [] -> (forall rest, decode_arc (l ++ rest) 0 0 = Ok (v, rest)) ->
  (length (l ++ rest) <= S fuel)%nat -> decode_arcs fuel rest = Ok arcs ->
  decode_arcs (S fuel) (l ++ rest) = Ok (v :: arcs).
Proof.
  intros Hne Hl Hf Hr. destruct l as [|b l]; [done|]. cbn [app] in *. rewrite decode_arcs_step.
  rewrite Hl. cbn [raising map_err rbind]. by rewrite Hr.
Qed.

Lemma encode_arcs_run arcs :
  Forall (in_u u32_max) arcs ->
  exists l, encode_arcs arcs = Ok l /\ bytes_ok l /\
    forall fuel, (length l <= fuel)%nat -> decode_arcs fuel l = Ok arcs.
Proof.
  induction 1 as [|v arcs Hv Hs (l & E & Hok & IH)].
  - exists []. split_and!; [done|constructor|]. intros fuel _. by destruct fuel.
  - destruct (encode_base128_run v Hv) as (b & Eb & Hb & Hne & Hd). exists (b ++ l). split_and!.
    + cbn [encode_arcs]. rewrite Eb. cbn [rbind]. by rewrite E.
    + apply Forall_app. by split.
    + intros fuel Hf. destruct fuel as [|fuel]; [destruct b; [done|cbn in Hf; lia]|].
      apply decode_arcs_app; [done|done|done|]. apply IH.
      rewrite length_app in Hf. destruct b; [done|cbn in Hf; lia].
Qed.

(** Identifiers whose first two arcs fit the single number that encodes them. *)
Definition oid_encodable (oid : ObjectId) : Prop :=
  invalid_oid oid = false /\ Forall (in_u u32_max) oid /\
  match oid with first :: second :: _ => first * 40 + second <= u32_max | _ => False end.

Lemma oid_roundtrip_bytes oid :
  oid_encodable oid -> exists l, encode_oid oid = Ok l /\ bytes_ok l /\ decode_oid l = Ok oid.
Proof.
  intros (Hinv & Hok & Hmax). unfold encode_oid. rewrite Hinv.
  destruct oid as [|first [|second rest]]; [done..|].
  inversion_clear Hok as [|? ? Hf Hok']. inversion_clear Hok' as [|? ? Hs Hr].
  cbn in Hinv, Hmax. apply orb_false_iff in Hinv as [H2 H39]. unfold in_u, u32_max in *.
  assert (as_u32 (as_u32 (first * 40) + second) = first * 40 + second) as ->.
  { unfold as_u32. rewrite (Z.mod_small (first * 40)), Z.mod_small by lia. done. }
  destruct (encode_base128_run (first * 40 + second)) as (b & -> & Hb & Hne & Hd);
    [unfold in_u, u32_max; lia|].
  destruct (encode_arcs_run rest Hr) as (l & -> & Hl & Hds). cbn [rbind].
  eexists. split; [done|]. split; [apply Forall_app; by split|].
  unfold decode_oid. destruct (length (b ++ l)) as [|fuel] eqn:Hlen; [by destruct b|].
  rewrite (decode_arcs_app (first * 40 + second) b l rest);
    [|done|done|lia|apply Hds; rewrite length_app in Hlen; destruct b; [done|cbn in Hlen; lia]].
  cbn [rbind].
  apply Z.ltb_ge in H2. apply andb_false_iff in H39. rewrite !Z.ltb_ge in H39.
  destruct (Z.ltb_spec (first * 40 + second) 40), (Z.ltb_spec (first * 40 + second) 80);
    repeat f_equal; lia.
Qed.

(** ** Wire form of a response *)

(** What an agent sends for a value; [None] where the value has no encoding of
    its own. *)
Definition value_wire (v : ObjectValue.t) : option (Z * list Z) :=
  match v with
  | ObjectValue.Integer n => Some (0x02, minimal_integer (to_be_bytes 8 n))
  | ObjectValue.Bytes l => Some (0x04, l)
  | ObjectValue.Null => Some (0x05, [])
  | ObjectValue.ObjectIdValue oid => pair 0x06 <$> result_ok (encode_oid oid)
  | ObjectValue.IpAddress l => Some (0x40, l)
  | ObjectValue.Counter32 n => Some (0x41, unsigned_bytes n)
  | ObjectValue.Gauge32 n => Some (0x42, unsigned_bytes n)
  | ObjectValue.TimeTicks n => Some (0x43, unsigned_bytes n)
  | ObjectValue.Opaque l => Some (0x44, l)
  | ObjectValue.Nsap l => Some (0x45, l)
  | ObjectValue.Counter64 n => Some (0x46, unsigned_bytes n)
  | ObjectValue.Unsigned32 n => Some (0x47, unsigned_bytes n)
  | ObjectValue.NoSuchObject => Some (0x80, [])
  | ObjectValue.NoSuchInstance => Some (0x81, [])
  | ObjectValue.EndOfMibView => Some (0x82, [])
  | ObjectValue.Unknown tag l => Some (tag, l)
  | ObjectValue.Counter _ => None
  end.

Definition known_tags : list Z :=
  [0x02; 0x04; 0x05; 0x06; 0x40; 0x41; 0x42; 0x43; 0x44; 0x45; 0x46; 0x47; 0x80; 0x81; 0x82].

(** Values within their types. *)
Definition value_typed (v : ObjectValue.t) : Prop :=
  match v with
  | ObjectValue.Integer n => i64_min <= n <= i64_max
  | ObjectValue.IpAddress l => zlen l = 4
  | ObjectValue.ObjectIdValue oid => oid_encodable oid
  | ObjectValue.Counter32 n | ObjectValue.Gauge32 n | ObjectValue.TimeTicks n
  | ObjectValue.Unsigned32 n => in_u u32_max n
  | ObjectValue.Counter64 n => in_u u64_max n
  | ObjectValue.Unknown tag _ => tag ∉ known_tags
  | _ => True
  end.

Lemma decode_unknown tag l : tag ∉ known_tags -> decode_value tag l = Ok (ObjectValue.Unknown tag l).
Proof.
  intros Ht. unfold known_tags in Ht. rewrite !not_elem_of_cons in Ht. destruct Ht as (?&?&?&?&?&?&?&?&?&?&?&?&?&?&?&_).
  destruct tag as [|p|p]; [done| |done]. unfold decode_value.
  repeat (destruct p as [p|p|]; try done).
Qed.

Lemma decode_value_wire v tag l :
  value_typed v -> value_wire v = Some (tag, l) -> decode_value tag l = Ok v.
Proof.
  change (value_typed v -> value_wire v = Some (tag, l) -> decode_value (tag, l).1 (tag, l).2 = Ok v).
  generalize (tag, l). clear tag l. intros p Ht Hw.
  destruct v; cbn [value_wire value_typed] in *; try apply (inj Some) in Hw as <-; cbn [fst snd decode_value].
  all: try done.
  - by rewrite decode_minimal_integer.
  - destruct (oid_roundtrip_bytes _ Ht) as (b & Eb & _ & Hd). rewrite Eb in Hw.
    apply (inj Some) in Hw as <-. cbn [fst snd decode_value]. by rewrite Hd.
  - by rewrite Ht.
  - by rewrite decode_u32_bytes.
  - by rewrite decode_u32_bytes.
  - by rewrite decode_u32_bytes.
  - by rewrite decode_u32_bytes.
  - by rewrite decode_unsigned_bytes.
  - by apply decode_unknown.
Qed.

Definition varbind_wire (v : VarBind) : option (list Z) :=
  name ← result_ok (encode_oid (oid v));
  ' (tag, l) ← value_wire (value v);
  Some (sequence (tlv 0x06 name ++ tlv tag l)).

Fixpoint varbinds_wire (l : list VarBind) : option (list Z) :=
  match l with
  | [] => Some []
  | v :: l => b ← varbind_wire v; rest ← varbinds_wire l; Some (b ++ rest)
  end.

(** The content of the message up to the community, and the rest. *)
Definition response_pdu (rid status index : Z) (bindings : list Z) : list Z :=
  tlv 0xa2 (integer_tlv rid ++ integer_tlv status ++ integer_tlv index ++ sequence bindings).

Definition response_wire (community : list Z) (rid status index : Z) (l : list VarBind) : option (list Z) :=
  bindings ← varbinds_wire l;
  Some (sequence (integer_tlv 1 ++ tlv 0x04 community ++ response_pdu rid status index bindings)).

(** ** Responses read back *)

#[local] Hint Rewrite zlen_tlv : zlen.

Definition varbind_ok (limits : DecodeLimits) (v : VarBind) : Prop :=
  oid_encodable (oid v) /\ value_typed (value v) /\
  (forall b, encode_oid (oid v) = Ok b -> zlen b <= 256) /\
  (forall tag l, value_wire (value v) = Some (tag, l) -> zlen l <= maximum_value_bytes limits).

Lemma decode_varbind_run limits v w pre rest :
  varbind_ok limits v -> varbind_wire v = Some w -> zlen pre + zlen w <= usize_max ->
  decode_varbind limits (cur pre (w ++ rest)) = Ok (v, cur (pre ++ w) rest).
Proof.
  intros (Ho & Ht & Hlo & Hlv) Hw Hmax. unfold varbind_wire in Hw.
  destruct (oid_roundtrip_bytes _ Ho) as (name & En & _ & Hd). rewrite En in Hw. cbn [result_ok mbind option_bind] in Hw.
  destruct (value_wire (value v)) as [[tag l]|] eqn:Ev; [|done]. apply (inj Some) in Hw as <-.
  specialize (Hlo _ En). specialize (Hlv _ _ eq_refl). unfold decode_varbind, sequence in *.
  rewrite nested_run by (unfold tlv_ok; size_lia). cbn [raising map_err rbind].
  rewrite value_run by (try unfold tlv_ok; size_lia). cbn [raising map_err rbind]. rewrite Hd. cbn [rbind].
  rewrite <- (app_nil_r (tlv tag l)), any_run by (try unfold tlv_ok; size_lia).
  cbn [raising map_err rbind]. rewrite finish_run. cbn [rbind].
  rewrite (decode_value_wire _ _ _ Ht Ev). cbn [rbind]. rewrite app_nil_r. by destruct v.
Qed.

Lemma remaining_run pre rest : remaining (cur pre rest) = Ok rest.
Proof.
  unfold remaining, cur. cbn [c_bytes c_offset]. destruct (Z.leb_spec (zlen pre) (zlen (pre ++ rest))); [|size_lia].
  unfold zlen. by rewrite Nat2Z.id, drop_app_length.
Qed.

Lemma varbind_wire_pos v w : varbind_wire v = Some w -> 0 < zlen w.
Proof.
  unfold varbind_wire. destruct (result_ok _) as [name|]; [|done]. cbn.
  destruct (value_wire _) as [[tag l]|]; [|done]. intros [= <-]. unfold sequence, tlv. size_lia.
Qed.

Lemma decode_varbinds_run limits l : forall fuel w pre acc,
  Forall (varbind_ok limits) l -> varbinds_wire l = Some w -> zlen pre + zlen w <= usize_max ->
  zlen acc + zlen l <= maximum_varbinds limits -> (length l <= fuel)%nat ->
  decode_varbinds fuel limits (cur pre w) acc = Ok (acc ++ l).
Proof.
  induction l as [|v l IH]; intros fuel w pre acc Hok Hw Hmax Hn Hf.
  - apply (inj Some) in Hw as <-. destruct fuel; cbn [decode_varbinds]; rewrite remaining_run;
      cbn [rbind]; by rewrite app_nil_r.
  - cbn [varbinds_wire] in Hw. destruct (varbind_wire v) as [b|] eqn:Ev; [|done].
    cbn [mbind option_bind] in Hw. destruct (varbinds_wire l) as [rest|] eqn:El; [|done].
    apply (inj Some) in Hw as <-. inversion_clear Hok as [|? ? Hv Hl].
    destruct fuel as [|fuel]; [cbn in Hf; lia|]. pose proof (varbind_wire_pos _ _ Ev) as Hpos.
    cbn [decode_varbinds]. rewrite remaining_run. cbn [rbind].
    destruct (Z.eqb_spec (zlen (b ++ rest)) 0); [size_lia|].
    destruct (Z.leb_spec (maximum_varbinds limits) (zlen acc)); [size_lia|].
    rewrite (decode_varbind_run _ v) by (done || size_lia). cbn [rbind].
    rewrite (IH fuel rest); [by rewrite <- app_assoc|done|done|size_lia|size_lia|cbn in Hf; lia].
Qed.

(** What precedes the community's bytes in a message of [n] content bytes. *)
Definition before_community (n : Z) (community : list Z) : list Z :=
  0x30 :: tlv_length n ++ integer_tlv 1 ++ 0x04 :: tlv_length (zlen community).

Definition message (community rest : list Z) : list Z :=
  sequence (integer_tlv 1 ++ tlv 0x04 community ++ rest).

Definition content_length (community rest : list Z) : Z :=
  zlen (integer_tlv 1 ++ tlv 0x04 community ++ rest).

Lemma message_split community rest :
  message community rest = before_community (content_length community rest) community ++ community ++ rest.
Proof.
  unfold message, content_length, before_community, sequence, tlv.
  cbn [app]. f_equal. by rewrite <- !app_assoc.
Qed.

Lemma sanitize_run community rest trailing :
  zlen community <= 255 -> zlen (message community rest ++ trailing) <= usize_max ->
  let start := zlen (before_community (content_length community rest) community) + zlen trailing in
  sanitize_v2c_message (message community rest ++ trailing) =
  raising (ok_or (mask start (start + zlen community) (message community rest ++ trailing)) SnmpError.Malformed).
Proof.
  intros Hc Hmax start. assert (tlv_ok [] (message community rest)) as Hm
    by (unfold tlv_ok; rewrite zlen_app in Hmax; size_lia).
  unfold sanitize_v2c_message, message, sequence in *. rewrite cur_new.
  rewrite nested_run by done. cbn [raising map_err rbind].
  unfold tlv_ok in Hm. rewrite integer_run by (unfold tlv_ok, i64_min, i64_max; size_lia). cbn [raising map_err rbind].
  rewrite value_run by (try unfold tlv_ok; size_lia). cbn [raising map_err rbind c_offset cur c_bytes app].
  unfold before_community, content_length in start. rewrite <- app_assoc.
  rewrite !checked_id by (unfold in_u; size_lia). cbn [ok_or raising map_err rbind].
  rewrite checked_id by (unfold in_u; size_lia). cbn [ok_or raising map_err rbind].
  replace (_ + _ + _) with start by (subst start; size_lia). done.
Qed.

Lemma mask_exact (pre l rest : list Z) :
  mask (zlen pre) (zlen pre + zlen l) (pre ++ l ++ rest) = Some (pre ++ replicate (length l) 42 ++ rest).
Proof.
  unfold mask. destruct (Z.leb_spec (zlen pre) (zlen pre + zlen l)); [|size_lia].
  destruct (Z.leb_spec (zlen pre + zlen l) (zlen (pre ++ l ++ rest))); [|size_lia]. cbn [andb].
  rewrite Z.add_simpl_l. unfold zlen. rewrite <- Nat2Z.inj_add, !Nat2Z.id, take_app_length.
  by rewrite <- length_app, (app_assoc pre l rest), drop_app_length.
Qed.

(** Without trailing bytes exactly the community is masked. *)
Lemma sanitize_exact community rest :
  zlen community <= 255 -> zlen (message community rest) <= usize_max ->
  sanitize_v2c_message (message community rest) = Ok (message (replicate (length community) 42) rest).
Proof.
  intros Hc Hmax. pose proof (sanitize_run community rest [] Hc) as Hs.
  rewrite app_nil_r, zlen_nil, Z.add_0_r in Hs. rewrite Hs by done.
  rewrite (message_split community), mask_exact. cbn [ok_or raising map_err].
  rewrite (message_split (replicate _ _)). unfold before_community, content_length.
  by rewrite !zlen_app, !zlen_tlv, zlen_replicate.
Qed.

Lemma varbinds_wire_length l w : varbinds_wire l = Some w -> zlen l <= zlen w.
Proof.
  revert w. induction l as [|v l IH]; intros w; cbn [varbinds_wire]; [by intros [= <-]|].
  destruct (varbind_wire v) as [b|] eqn:Ev; [|done]. cbn. destruct (varbinds_wire l) as [rest|]; [|done].
  intros [= <-]. specialize (IH rest eq_refl). pose proof (varbind_wire_pos _ _ Ev). size_lia.
Qed.

Definition i32_ok (n : Z) : Prop := i32_min <= n <= i32_max.

(** Decoding an agent's message, with anything after it. *)
Lemma decode_response_run sha256 limits community rid status index l w trailing :
  zlen community <= 255 -> i32_ok rid -> i32_ok status -> i32_ok index ->
  Forall (varbind_ok limits) l -> zlen l <= maximum_varbinds limits -> varbinds_wire l = Some w ->
  let bytes := message community (response_pdu rid status index w) ++ trailing in
  zlen bytes <= maximum_message_bytes limits -> maximum_message_bytes limits <= usize_max ->
  decode_response sha256 bytes rid limits =
  (let? sanitized := sanitize_v2c_message bytes in
   Ok {| request_id := rid; error_status := status; error_index := index; varbinds := l;
         evidence := {|
           credential_elided_hash := sha256 (str "mb-printer-snmp-v2c-evidence-v1" ++ [0] ++ sanitized);
           original_length := zlen bytes;
           sanitized_bytes := Some sanitized |} |}).
Proof.
  intros Hc Hrid Hst Hix Hok Hn Hw bytes Hlim Hmax. unfold decode_response.
  destruct (Z.ltb_spec (maximum_message_bytes limits) (zlen bytes)); [lia|].
  pose proof (varbinds_wire_length _ _ Hw) as Hlen.
  assert (zlen l <= zlen bytes) as Hfuel.
  { subst bytes. unfold message, response_pdu, sequence. size_lia. }
  generalize (sanitize_v2c_message bytes) as sanitized. intros sanitized.
  assert (zlen bytes <= usize_max) as Hb by lia.
  unfold bytes at 1, message, response_pdu, sequence. unfold bytes, message, response_pdu, sequence in Hb.
  rewrite cur_new, nested_run by (unfold tlv_ok; size_lia). cbn [raising map_err rbind].
  rewrite integer_run by (unfold tlv_ok, i64_min, i64_max; size_lia). cbn [raising map_err rbind Z.eqb negb Pos.eqb].
  rewrite value_run by (try unfold tlv_ok; size_lia). cbn [raising map_err rbind].
  rewrite <- (app_nil_r (tlv 162 _)), nested_run by (unfold tlv_ok; size_lia). cbn [raising map_err rbind].
  rewrite finish_run. cbn [rbind].
  rewrite i32_run by (try unfold tlv_ok; try done; size_lia). cbn [raising map_err rbind]. rewrite Z.eqb_refl. cbn [negb].
  rewrite i32_run by (try unfold tlv_ok; try done; size_lia). cbn [raising map_err rbind].
  rewrite i32_run by (try unfold tlv_ok; try done; size_lia). cbn [raising map_err rbind].
  rewrite <- (app_nil_r (tlv 48 w)), nested_run by (unfold tlv_ok; size_lia). cbn [raising map_err rbind].
  rewrite finish_run. cbn [rbind].
  rewrite (decode_varbinds_run limits l); [done|done|done|size_lia|size_lia|unfold zlen in Hfuel; lia].
Qed.

(** C9: responses read back. What an agent writes for a community of at most
    255 bytes, 32-bit identifiers and typed bindings within the limits is
    decoded to exactly those bindings. The bytes kept as evidence are the same
    message with every byte of the community replaced by a star; the hash is
    of those, and does not depend on the community. *)
Theorem response_roundtrip sha256 limits community rid status index l bytes :
  zlen community <= 255 -> i32_ok rid -> i32_ok status -> i32_ok index ->
  Forall (varbind_ok limits) l -> zlen l <= maximum_varbinds limits ->
  response_wire community rid status index l = Some bytes ->
  zlen bytes <= maximum_message_bytes limits -> maximum_message_bytes limits <= usize_max ->
  exists masked, response_wire (replicate (length community) 42) rid status index l = Some masked /\
    decode_response sha256 bytes rid limits =
    Ok {| request_id := rid; error_status := status; error_index := index; varbinds := l;
          evidence := {|
            credential_elided_hash := sha256 (str "mb-printer-snmp-v2c-evidence-v1" ++ [0] ++ masked);
            original_length := zlen bytes;
            sanitized_bytes := Some masked |} |}.
Proof.
  intros Hc Hrid Hst Hix Hok Hn Hw Hlim Hmax. unfold response_wire in *.
  destruct (varbinds_wire l) as [w|] eqn:El; [|done]. cbn [mbind option_bind] in *.
  apply (inj Some) in Hw. eexists. split; [done|].
  change (message community (response_pdu rid status index w) = bytes) in Hw. subst bytes.
  pose proof (decode_response_run sha256 limits community rid status index l w []) as Hrun.
  rewrite app_nil_r in Hrun. rewrite Hrun by done.
  rewrite sanitize_exact by (done || lia). done.
Qed.

(** C10: bytes after the message defeat the masking. With at least as many
    bytes after the outer sequence as the community has, a response is still
    accepted, but the bytes kept as evidence begin with the message up to and
    including the community, verbatim. *)
Theorem trailing_bytes_leak_community sha256 limits community rid status index l w trailing :
  zlen community <= 255 -> i32_ok rid -> i32_ok status -> i32_ok index ->
  Forall (varbind_ok limits) l -> zlen l <= maximum_varbinds limits -> varbinds_wire l = Some w ->
  let rest := response_pdu rid status index w in
  let bytes := message community rest ++ trailing in
  zlen bytes <= maximum_message_bytes limits -> maximum_message_bytes limits <= usize_max ->
  zlen community <= zlen trailing ->
  exists response kept, decode_response sha256 bytes rid limits = Ok response /\
    sanitized_bytes (evidence response) =
    Some (before_community (content_length community rest) community ++ community ++ kept).
Proof.
  intros Hc Hrid Hst Hix Hok Hn Hw rest bytes Hlim Hmax Htr. subst bytes rest.
  rewrite (decode_response_run sha256 limits community rid status index l w trailing) by done.
  set (rest := response_pdu rid status index w) in *. rewrite sanitize_run by (done || lia).
  rewrite message_split, <- app_assoc in Hlim |- *.
  set (pre := before_community _ _) in *. unfold mask.
  destruct (Z.leb_spec (zlen pre + zlen trailing) (zlen pre + zlen trailing + zlen community)); [|size_lia].
  destruct (Z.leb_spec (zlen pre + zlen trailing + zlen community)
    (zlen (pre ++ (community ++ rest) ++ trailing))); [|size_lia].
  cbn [andb ok_or raising map_err rbind].
  eexists _, _. split; [done|]. cbn [evidence sanitized_bytes]. f_equal.
  rewrite <- (app_assoc community), (app_assoc pre), take_app_ge, <- !app_assoc; [done|].
  unfold zlen in *. rewrite length_app. lia.
Qed.

(** ** Decoding is total *)

Definition in_bytes (c : Cursor) : Prop := 0 <= c_offset c <= zlen (c_bytes c).

(** [c'] is [c] after reading at least [n] bytes. *)
Definition advanced (n : Z) (c c' : Cursor) : Prop :=
  c_bytes c' = c_bytes c /\ c_offset c + n <= c_offset c' <= zlen (c_bytes c).

Lemma advanced_bytes n c c' : advanced n c c' -> c_bytes c' = c_bytes c.
Proof. by intros [E _]. Qed.

Lemma next_byte_inv c b c' : in_bytes c -> next_byte c = Ok (b, c') -> advanced 1 c c'.
Proof.
  unfold next_byte, advanced, in_bytes. intros Hc H. inv_ok H. injection H as <- <-.
  apply lookup_lt_Some in Hx. cbn. unfold zlen in *. split; [done|lia].
Qed.

Lemma next_bytes_inv c n l e :
  next_bytes c n = Ok (l, e) -> c_offset c <= e <= zlen (c_bytes c) /\ zlen l <= zlen (c_bytes c).
Proof.
  unfold next_bytes, get_range. intros H. inv_ok H. injection H as <- <-. 
  destruct (_ && _) eqn:Hr in Hx0; [|done]. apply (inj Some) in Hx0 as <-.
  apply andb_true_iff in Hr as [? ?]. split; [lia|]. unfold zlen. rewrite length_take, length_drop. lia.
Qed.

Lemma advanced_wf n c c' : 0 <= n -> in_bytes c -> advanced n c c' -> in_bytes c'.
Proof. unfold in_bytes, advanced. intros Hn Hc [-> ?]. lia. Qed.

Lemma cursor_length_inv c n c' : in_bytes c -> cursor_length c = Ok (n, c') -> advanced 1 c c'.
Proof.
  unfold cursor_length. intros Hc H. inv_ok H. destruct x as [first c1].
  apply next_byte_inv in Hx as [Eb Ho]; [|done]. destruct (_ =? 0) in H; [by injection H as <- <-|].
  inv_ok H. destruct x as [l e]. apply next_bytes_inv in Hx as [He _]. rewrite Eb in He.
  destruct (bool_decide _) in H; [done|]. injection H as <- <-. unfold advanced, seek. cbn. split; [done|lia].
Qed.

Lemma any_inv c m tag v c' :
  in_bytes c -> any c m = Ok (tag, v, c') -> advanced 2 c c' /\ zlen v <= zlen (c_bytes c).
Proof.
  unfold any. intros Hc H. inv_ok H. destruct x as [t c1]. pose proof (next_byte_inv _ _ _ Hc Hx) as A1.
  inv_ok H. destruct x as [n c2]. pose proof (advanced_wf 1 _ _ ltac:(lia) Hc A1) as W1.
  pose proof (cursor_length_inv _ _ _ W1 Hx0) as A2. inv_ok H. destruct x as [l e].
  apply next_bytes_inv in Hx1 as [He Hl]. injection H as <- <- <-.
  unfold advanced, seek in *. cbn. destruct A1 as [E1 ?], A2 as [E2 ?]. rewrite E2, E1 in *. split; [split; [done|lia]|done].
Qed.

Lemma value_inv c tag m v c' :
  in_bytes c -> cursor_value c tag m = Ok (v, c') -> advanced 2 c c' /\ zlen v <= zlen (c_bytes c).
Proof.
  unfold cursor_value. intros Hc H. inv_ok H. destruct x as [[t l] c1]. inv_ok H.
  injection H as <- <-. by apply any_inv in Hx.
Qed.

Lemma nested_inv c tag inner c' :
  in_bytes c -> nested c tag = Ok (inner, c') ->
  advanced 2 c c' /\ in_bytes inner /\ zlen (c_bytes inner) <= zlen (c_bytes c).
Proof.
  unfold nested. intros Hc H. inv_ok H. destruct x as [v c1]. injection H as <- <-.
  apply value_inv in Hx as [A Hv]; [|done]. split_and!; [done| |done].
  unfold in_bytes, Cursor_new. cbn. pose proof (zlen_nonneg v). lia.
Qed.

Lemma integer_inv c n c' : in_bytes c -> cursor_integer c = Ok (n, c') -> advanced 2 c c'.
Proof.
  unfold cursor_integer. intros Hc H. inv_ok H. destruct x as [v c1]. inv_ok H. injection H as <- <-.
  by apply value_inv in Hx as [A _].
Qed.

Lemma cursor_i32_inv c n c' : in_bytes c -> cursor_i32 c = Ok (n, c') -> advanced 2 c c'.
Proof.
  unfold cursor_i32. intros Hc H. inv_ok H. destruct x as [v c1]. inv_ok H. injection H as <- <-.
  by apply integer_inv in Hx.
Qed.

Lemma finish_total c : in_bytes c -> panics (finish c) = false.
Proof.
  unfold in_bytes, finish, remaining. intros Hc. destruct (Z.leb_spec (c_offset c) (zlen (c_bytes c))); [|lia].
  cbn [rbind]. by destruct (_ =? 0).
Qed.

Lemma decode_arc_shorter bytes value count v rest :
  decode_arc bytes value count = Ok (v, rest) -> (length rest < length bytes)%nat.
Proof.
  revert value count. induction bytes as [|b bytes IH]; intros value count; [done|]. cbn [decode_arc length].
  destruct (_ || _); [done|]. destruct (_ =? 0); [intros [= _ <-]; lia|]. intros H%IH. lia.
Qed.

Lemma decode_arcs_total fuel bytes : (length bytes <= fuel)%nat -> panics (decode_arcs fuel bytes) = false.
Proof.
  revert bytes. induction fuel as [|fuel IH]; intros [|b bytes] Hf; try done; [cbn in Hf; lia|].
  rewrite decode_arcs_step. apply panics_bind; [apply panics_raising|]. intros [arc rest] Ha.
  apply raising_inv, decode_arc_shorter in Ha. apply panics_bind; [apply IH; cbn in *; lia|done].
Qed.

Lemma decode_oid_total bytes : panics (decode_oid bytes) = false.
Proof.
  apply panics_bind; [by apply decode_arcs_total|]. intros [|first arcs] _; [done|].
  destruct (first <? 40); [done|]. by destruct (first <? 80).
Qed.

Lemma decode_value_total tag bytes : panics (decode_value tag bytes) = false.
Proof.
  assert (forall A (r : Result SnmpError.t A) (k : A -> ObjectValue.t),
    panics (let? n := raising r in Ok (k n)) = false) as Hr by (intros A [a|e] k; done).
  assert (forall v : ObjectValue.t, panics (E := SnmpError.t) (if zlen bytes =? 0 then Ok v else fail SnmpError.Malformed) = false) as Hi
    by (intros v; by destruct (_ =? 0)).
  unfold decode_value. destruct tag as [|p|p]; [done| |done].
  repeat (destruct p as [p|p|]; try done; try apply Hr; try apply Hi).
  - apply panics_bind; [apply decode_oid_total|done].
  - by destruct (_ =? 4).
Qed.

Lemma decode_varbind_total limits c : in_bytes c -> panics (decode_varbind limits c) = false.
Proof.
  intros Hc. unfold decode_varbind. apply panics_bind; [apply panics_raising|]. intros [binding c'] H%raising_inv.
  apply nested_inv in H as (_ & Hb & _); [|done].
  apply panics_bind; [apply panics_raising|]. intros [raw b1] H1%raising_inv.
  apply value_inv in H1 as [A1 _]; [|done]. apply (advanced_wf 2) in A1; [|lia|done].
  apply panics_bind; [apply decode_oid_total|]. intros name _.
  apply panics_bind; [apply panics_raising|]. intros [[tag l] b2] H2%raising_inv.
  apply any_inv in H2 as [A2 _]; [|done]. apply (advanced_wf 2) in A2; [|lia|done].
  apply panics_bind; [by apply finish_total|]. intros _ _.
  apply panics_bind; [apply decode_value_total|done].
Qed.

Lemma decode_varbind_inv limits c v c' : in_bytes c -> decode_varbind limits c = Ok (v, c') -> advanced 2 c c'.
Proof.
  unfold decode_varbind. intros Hc H. inv_ok H. destruct x as [binding c1].
  apply (nested_inv _ _ _ _ Hc) in Hx as [A _]. inv_ok H. destruct x as [raw b1].
  inv_ok H. destruct x0 as [[tag l] b2]. inv_ok H. by injection H as _ <-.
Qed.

Lemma decode_varbinds_total limits fuel c acc :
  in_bytes c -> zlen (c_bytes c) - c_offset c <= Z.of_nat fuel ->
  panics (decode_varbinds fuel limits c acc) = false.
Proof.
  assert (forall c, in_bytes c -> exists rest, remaining c = Ok rest /\
    (zlen rest = zlen (c_bytes c) - c_offset c)) as Hrem.
  { intros d Hd. unfold remaining, in_bytes in *. destruct (Z.leb_spec (c_offset d) (zlen (c_bytes d))); [|lia].
    eexists. split; [done|]. unfold zlen in *. rewrite length_drop. lia. }
  revert c acc. induction fuel as [|fuel IH]; intros c acc Hc Hf; cbn [decode_varbinds];
    destruct (Hrem c Hc) as (rest & -> & Hl); cbn [rbind]; pose proof (zlen_nonneg rest).
  - destruct (Z.eqb_spec (zlen rest) 0); [done|lia].
  - destruct (_ =? 0); [done|]. destruct (_ <=? _); [done|].
    apply panics_bind; [by apply decode_varbind_total|]. intros [v c'] Hv.
    apply decode_varbind_inv in Hv; [|done]. destruct Hv as [E Ho]. apply IH.
    + unfold in_bytes in *. rewrite E. lia.
    + rewrite E. lia.
Qed.

Lemma in_bytes_new bytes : in_bytes (Cursor_new bytes).
Proof. unfold in_bytes, Cursor_new. cbn. pose proof (zlen_nonneg bytes). lia. Qed.

Lemma sanitize_total bytes : zlen bytes <= usize_max -> panics (sanitize_v2c_message bytes) = false.
Proof.
  intros Hmax. unfold sanitize_v2c_message.
  apply panics_bind; [apply panics_raising|]. intros [outer c] H%raising_inv.
  apply nested_inv in H as (_ & Ho & Hl); [|apply in_bytes_new]. cbn [Cursor_new c_bytes] in Hl.
  apply panics_bind; [apply panics_raising|]. intros [v o1] H1%raising_inv.
  pose proof (integer_inv _ _ _ Ho H1) as A1. pose proof (advanced_wf 2 _ _ ltac:(lia) Ho A1) as W1.
  apply panics_bind; [apply panics_raising|]. intros [community o2] H2%raising_inv.
  apply value_inv in H2 as [A2 _]; [|done].
  apply panics_bind; [apply panics_raising|]. intros hl _.
  rewrite checked_id.
  - cbn [ok_or rbind]. apply panics_bind; [apply panics_raising|]. intros e _. apply panics_raising.
  - destruct A1 as [E1 _], A2 as [E2 _]. rewrite E2, E1. unfold in_u. pose proof (zlen_nonneg (c_bytes outer)). lia.
Qed.

(** decoding is total. For every datagram and all limits, decoding an
    SNMP response returns a response or an [SnmpError]: it never slices out of
    range or underflows, and its loops end within the datagram's length. *)
Theorem decode_response_never_panics sha256 bytes rid limits :
  maximum_message_bytes limits <= usize_max ->
  panics (decode_response sha256 bytes rid limits) = false.
Proof.
  intros Hmax. unfold decode_response. destruct (Z.ltb_spec (maximum_message_bytes limits) (zlen bytes)); [done|].
  apply panics_bind; [apply panics_raising|]. intros [outer c] H0%raising_inv.
  apply nested_inv in H0 as (_ & Ho & Hl); [|apply in_bytes_new]. cbn [Cursor_new c_bytes] in Hl.
  apply panics_bind; [apply panics_raising|]. intros [v o1] H1%raising_inv.
  apply integer_inv in H1; [|done]. pose proof (advanced_wf 2 _ _ ltac:(lia) Ho H1) as W1.
  destruct (negb _); [done|]. apply panics_bind; [apply panics_raising|]. intros [community o2] H2%raising_inv.
  apply value_inv in H2 as [A2 _]; [|done]. pose proof (advanced_wf 2 _ _ ltac:(lia) W1 A2) as W2.
  apply panics_bind; [apply panics_raising|]. intros [pdu o3] H3%raising_inv.
  apply nested_inv in H3 as (A3 & Hp & Hpl); [|done]. pose proof (advanced_wf 2 _ _ ltac:(lia) W2 A3) as W3.
  apply panics_bind; [by apply finish_total|]. intros _ _.
  apply panics_bind; [apply panics_raising|]. intros [n p1] H4%raising_inv.
  apply cursor_i32_inv in H4; [|done]. pose proof (advanced_wf 2 _ _ ltac:(lia) Hp H4) as P1.
  destruct (negb _); [done|]. apply panics_bind; [apply panics_raising|]. intros [st p2] H5%raising_inv.
  apply cursor_i32_inv in H5; [|done]. pose proof (advanced_wf 2 _ _ ltac:(lia) P1 H5) as P2.
  apply panics_bind; [apply panics_raising|]. intros [ix p3] H6%raising_inv.
  apply cursor_i32_inv in H6; [|done]. pose proof (advanced_wf 2 _ _ ltac:(lia) P2 H6) as P3.
  apply panics_bind; [apply panics_raising|]. intros [bindings p4] H7%raising_inv.
  apply nested_inv in H7 as (A7 & Hb & Hbl); [|done]. pose proof (advanced_wf 2 _ _ ltac:(lia) P3 A7) as P4.
  apply panics_bind; [by apply finish_total|]. intros _ _.
  apply panics_bind.
  - rewrite (advanced_bytes _ _ _ H6), (advanced_bytes _ _ _ H5), (advanced_bytes _ _ _ H4) in Hbl.
    rewrite (advanced_bytes _ _ _ A2), (advanced_bytes _ _ _ H1) in Hpl.
    apply decode_varbinds_total; [done|]. unfold in_bytes in Hb. unfold zlen in *. lia.
  - intros l _. apply panics_bind; [apply sanitize_total; lia|done].
Qed.

(** ** Identifiers as text *)

Lemma parse_arcs_show oid : Forall (in_u u32_max) oid -> parse_arcs (map show_dec oid) = Ok oid.
Proof.
  induction 1 as [|arc oid Ha Ho IH]; [done|]. cbn [map parse_arcs]. unfold in_u, u32_max in Ha.
  rewrite parse_show_dec by (unfold u32_max, u64_max; lia). cbn [ok_or rbind]. by rewrite IH.
Qed.

Lemma show_dec_no_dot n : 0 <= n -> DOT ∉ show_dec n.
Proof. intros Hn. apply digits_not_in; [done|by apply show_dec_digits]. Qed.

Lemma trim_start_fmt oid : Forall (in_u u32_max) oid -> trim_start_matches DOT (ObjectId_fmt oid) = ObjectId_fmt oid.
Proof.
  intros [|arc oid' Ha _]; [done|]. unfold ObjectId_fmt. cbn [map].
  destruct (show_dec_cons arc) as (b & s & E). pose proof (show_dec_digits arc (proj1 Ha)) as Hd.
  rewrite E in Hd |- *. inversion_clear Hd as [|? ? Hb _].
  assert (trim_start_matches DOT (b :: s) = b :: s) as Ht.
  { cbn. destruct (Z.eqb_spec b DOT) as [->|]; [discriminate Hb|done]. }
  destruct (map show_dec oid') as [|p ps]; [done|]. cbn [join app trim_start_matches].
  destruct (Z.eqb_spec b DOT) as [->|]; [discriminate Hb|done].
Qed.

(** object identifiers round-trip. An identifier whose first two arcs fit
    their common number is encoded to bytes that decode to it, and its printed
    form parses to it. *)
Theorem oid_roundtrip oid :
  oid_encodable oid ->
  (exists l, encode_oid oid = Ok l /\ bytes_ok l /\ decode_oid l = Ok oid) /\
  ObjectId_parse (ObjectId_fmt oid) = Ok oid.
Proof.
  intros Ho. split; [by apply oid_roundtrip_bytes|]. destruct Ho as (Hinv & Hok & _).
  unfold ObjectId_parse. rewrite trim_start_fmt by done. unfold ObjectId_fmt. rewrite split_join.
  - rewrite parse_arcs_show by done. cbn [rbind]. by rewrite Hinv.
  - by destruct oid.
  - apply Forall_map. eapply Forall_impl; [|exact Hok]. intros n Hn. apply show_dec_no_dot, Hn.
Qed.

(** The first two arcs wrap around 32 bits: this identifier is requested as
    another one. *)
Lemma wide_second_arc_wraps :
  ObjectId_parse (str "2.4294967295") = Ok [2; 4294967295] /\
  encode_oid [2; 4294967295] = encode_oid [1; 39].
Proof. by vm_compute. Qed.

(** ** Requests *)

Record Request := {
  q_community : list Z;
  q_pdu_tag : Z;
  q_request_id : Z;
  q_oid : ObjectId;
}.

(** How an agent reads a request for one object with a null value. *)
Definition read_request (bytes : list Z) : Result (Fault SnmpError.t) Request :=
  let? ' (outer, datagram) := raising (nested (Cursor_new bytes) 0x30) in
  let? _ := finish datagram in
  let? ' (version, outer) := raising (cursor_integer outer) in
  if negb (version =? 1) then fail SnmpError.Malformed else
  let? ' (community, outer) := raising (cursor_value outer 0x04 255) in
  let? ' (tag, raw, outer) := raising (any outer usize_max) in
  let? _ := finish outer in
  let pdu := Cursor_new raw in
  let? ' (id, pdu) := raising (cursor_i32 pdu) in
  let? ' (_, pdu) := raising (cursor_i32 pdu) in
  let? ' (_, pdu) := raising (cursor_i32 pdu) in
  let? ' (bindings, pdu) := raising (nested pdu 0x30) in
  let? _ := finish pdu in
  let? ' (binding, bindings) := raising (nested bindings 0x30) in
  let? _ := finish bindings in
  let? ' (name, binding) := raising (cursor_value binding 0x06 usize_max) in
  let? ' (null, binding) := raising (cursor_value binding 0x05 0) in
  let? _ := finish binding in
  let? oid := decode_oid name in
  Ok {| q_community := community; q_pdu_tag := tag; q_request_id := id; q_oid := oid |}.

Lemma request_run registry community rid oid tag bytes :
  oid_encodable oid -> i32_ok rid -> encode_request registry community rid oid tag = Ok bytes ->
  zlen bytes <= usize_max ->
  read_request bytes = Ok {| q_community := community; q_pdu_tag := tag; q_request_id := rid; q_oid := oid |}.
Proof.
  intros Ho Hrid He Hmax. unfold encode_request in He. destruct (_ || _) eqn:Hc; [done|].
  apply orb_false_iff in Hc as [Hc _]. apply orb_false_iff in Hc as [_ Hc]. apply Z.ltb_ge in Hc.
  destruct (oid_roundtrip_bytes _ Ho) as (name & En & _ & Hd). rewrite En in He. cbn [rbind] in He.
  apply Ok_inj in He as <-. unfold read_request, sequence in *.
  rewrite cur_new, <- (app_nil_r (tlv 48 (integer_tlv 1 ++ _))), nested_run by (unfold tlv_ok; size_lia).
  cbn [raising map_err rbind]. rewrite finish_run. cbn [rbind].
  rewrite integer_run by (unfold tlv_ok, i64_min, i64_max; size_lia). cbn [raising map_err rbind Z.eqb negb Pos.eqb].
  rewrite value_run by (try unfold tlv_ok; size_lia). cbn [raising map_err rbind].
  rewrite <- (app_nil_r (tlv tag _)), any_run by (try unfold tlv_ok; size_lia). cbn [raising map_err rbind].
  rewrite finish_run. cbn [rbind]. rewrite cur_new.
  do 3 (rewrite i32_run by (try unfold tlv_ok; try done; size_lia); cbn [raising map_err rbind]).
  rewrite <- (app_nil_r (tlv 48 (tlv 48 _))), nested_run by (unfold tlv_ok; size_lia). cbn [raising map_err rbind].
  rewrite finish_run. cbn [rbind].
  rewrite <- (app_nil_r (tlv 48 _)), nested_run by (unfold tlv_ok; size_lia). cbn [raising map_err rbind].
  rewrite finish_run. cbn [rbind].
  rewrite value_run by (try unfold tlv_ok; size_lia). cbn [raising map_err rbind].
  rewrite <- (app_nil_r (tlv 5 [])), value_run by (try unfold tlv_ok; size_lia). cbn [raising map_err rbind].
  rewrite finish_run. cbn [rbind]. by rewrite Hd.
Qed.

(** requests. A GET is built exactly for a registered object and a
    community of 1 to 255 bytes, a GETNEXT exactly below a root the registry
    permits; an agent reads back the community, the kind of request, its
    identifier and the object. *)
Theorem requests_read_back registry community rid oid :
  oid_encodable oid -> i32_ok rid ->
  (is_ok (encode_get registry community rid oid) = true <->
     is_Some (registry_get registry oid) /\ 1 <= zlen community <= 255) /\
  (is_ok (encode_get_next registry community rid oid) = true <->
     permits_root registry oid = true /\ 1 <= zlen community <= 255) /\
  forall tag bytes, zlen bytes <= usize_max ->
    (encode_get registry community rid oid = Ok bytes /\ tag = 0xa0 \/
     encode_get_next registry community rid oid = Ok bytes /\ tag = 0xa1) ->
    read_request bytes = Ok {| q_community := community; q_pdu_tag := tag; q_request_id := rid; q_oid := oid |}.
Proof.
  intros Ho Hrid. destruct (oid_roundtrip_bytes _ Ho) as (name & En & _ & _).
  pose proof (zlen_nonneg community). split_and!.
  - unfold encode_get, encode_request. rewrite En. destruct (registry_get registry oid); cbn.
    + destruct (Z.eqb_spec (zlen community) 0), (Z.ltb_spec 255 (zlen community)); cbn;
        split; try done; intros; try lia; split; try lia; by eexists.
    + split; [done|intros [[? [=]] _]].
  - unfold encode_get_next, encode_request. rewrite En. cbn.
    destruct (Z.eqb_spec (zlen community) 0), (Z.ltb_spec 255 (zlen community)), (permits_root registry oid); cbn;
      split; try done; intros; try lia; by (intuition lia).
  - intros tag bytes Hmax [[He ->]|[He ->]]; [|by eapply request_run].
    unfold encode_get in He. destruct (registry_get _ _); [|done]. by eapply request_run.
Qed.

(** ** The registry *)

Inductive registry_step : ObjectRegistry -> ObjectRegistry -> Prop :=
| step_register r object : registry_step r (snd (register r object))
| step_definition r d : registry_step r (snd (register_definition r d)).

(** Definitions are filed under their key, their object is registered with
    their sensitivity, and no two describe the same object. *)
Definition registry_wf (r : ObjectRegistry) : Prop :=
  (forall oid object, objects r !! oid = Some object -> r_oid object = oid) /\
  (forall key d, definitions r !! key = Some d ->
     d_key d = key /\
     objects r !! d_oid d = Some {| r_oid := d_oid d; semantic_id := key;
                                    sensitive := is_sensitive (d_sensitivity d) |}).

Lemma contains_key_false {K V} `{Countable K} (m : gmap K V) k : contains_key m k = false -> m !! k = None.
Proof. unfold contains_key. intros Hk%bool_decide_eq_false. by apply eq_None_not_Some. Qed.

Lemma registry_step_wf r r' : registry_wf r -> registry_step r r' -> registry_wf r'.
Proof.
  intros Hwf Hs. revert Hwf. destruct Hs; intros [Ho Hd].
  - unfold register. destruct (_ || _) eqn:Hc; cbn [snd]; [by split|].
    apply orb_false_iff in Hc as [_ Hc%contains_key_false]. split; cbn [objects definitions].
    + intros oid obj. rewrite lookup_insert_Some. naive_solver.
    + intros key d Hk. destruct (Hd key d Hk) as [E El]. split; [done|].
      rewrite lookup_insert_ne; [done|]. intros E'. congruence.
  - unfold register_definition. destruct (_ || _) eqn:Hc; cbn [snd]; [by split|].
    apply orb_false_iff in Hc as [Hc1%contains_key_false Hc2%contains_key_false]. split; cbn [objects definitions].
    + intros oid obj. rewrite lookup_insert_Some. naive_solver.
    + intros key d'. rewrite lookup_insert_Some. intros [[<- <-]|[Hne Hk]].
      * split; [done|]. by rewrite lookup_insert_eq.
      * destruct (Hd key d' Hk) as [E El]. split; [done|]. rewrite lookup_insert_ne; [done|]. congruence.
Qed.

Lemma registry_step_subseteq r r' :
  registry_step r r' -> objects r ⊆ objects r' /\ definitions r ⊆ definitions r'.
Proof.
  intros []; cbn.
  - unfold register. destruct (_ || _) eqn:Hc; [done|]. cbn.
    apply orb_false_iff in Hc as [_ Hc%contains_key_false]. split; [by apply insert_subseteq|done].
  - unfold register_definition. destruct (_ || _) eqn:Hc; [done|]. cbn.
    apply orb_false_iff in Hc as [Hc1%contains_key_false Hc2%contains_key_false].
    split; by apply insert_subseteq.
Qed.

Lemma registry_reachable_wf r : rtc registry_step ObjectRegistry_default r -> registry_wf r.
Proof.
  intros Hr. assert (registry_wf ObjectRegistry_default) as H0
    by (split; intros ? ?; cbn; by rewrite lookup_empty).
  revert H0. induction Hr as [|a b c Hab Hbc IH]; [done|]. intros Ha. by eapply IH, registry_step_wf.
Qed.

Lemma registry_steps_subseteq r r' :
  rtc registry_step r r' -> objects r ⊆ objects r' /\ definitions r ⊆ definitions r'.
Proof.
  induction 1 as [|a b c Hab Hbc [IH1 IH2]]; [done|]. destruct (registry_step_subseteq _ _ Hab) as [H1 H2].
  split; by etrans.
Qed.

(** the registry is consistent and only grows. In every registry built
    from the empty one, definitions are filed under their key and registered
    with their sensitivity, and the definition found for an object is the only
    one of that object; what is registered is never changed or removed. *)
Theorem registry_consistent r r' :
  rtc registry_step ObjectRegistry_default r -> rtc registry_step r r' ->
  registry_wf r /\
  (forall oid d, definition_for_oid r oid = Some d <->
     exists key, definition r key = Some d /\ d_oid d = oid) /\
  (forall k k' d d', definition r k = Some d -> definition r k' = Some d' -> d_oid d = d_oid d' -> k = k') /\
  objects r ⊆ objects r' /\ definitions r ⊆ definitions r'.
Proof.
  intros Hr Hr'. assert (registry_wf r) as Hwf.
  { by apply registry_reachable_wf. }
  assert (forall k k' d d', definition r k = Some d -> definition r k' = Some d' ->
    d_oid d = d_oid d' -> k = k') as Huniq.
  { intros k k' d d' H1 H2 E. apply (proj2 Hwf) in H1 as [_ H1]. apply (proj2 Hwf) in H2 as [_ H2].
    rewrite E in H1. congruence. }
  split_and!; [done| |done|..].
  - intros oid d. unfold definition_for_oid. split.
    + intros Hf. apply find_some in Hf as [Hin He]. apply bool_decide_eq_true in He.
      apply in_map_iff in Hin as ([k d'] & <- & Hin). apply list_elem_of_In, elem_of_map_to_list in Hin.
      by exists k.
    + intros (key & Hk & Ho). destruct (List.find _ _) as [d'|] eqn:Hf.
      * apply find_some in Hf as [Hin He]. apply bool_decide_eq_true in He.
        apply in_map_iff in Hin as ([k d''] & <- & Hin). apply list_elem_of_In, elem_of_map_to_list in Hin.
        cbn in *. assert (k = key) as -> by (eapply Huniq; [exact Hin|exact Hk|congruence]). unfold definition in Hk. congruence.
      * pose proof (find_none _ _ Hf d) as Hn. cbn in Hn. rewrite bool_decide_eq_true_2 in Hn by done.
        discriminate Hn. apply in_map_iff. exists (key, d). split; [done|].
        by apply list_elem_of_In, elem_of_map_to_list.
  - by apply registry_steps_subseteq.
  - by apply registry_steps_subseteq.
Qed.

(** ** Witnesses *)

Definition sample_oid : ObjectId := [1; 3; 6; 1; 4; 1; 2435; 4294967295].

Lemma sample_oid_encodable : oid_encodable sample_oid.
Proof. split; [done|]. split; [repeat constructor; unfold in_u, u32_max; lia|]. cbn. unfold u32_max. lia. Qed.

Definition sample_varbinds : list VarBind := [
  {| oid := sample_oid; value := ObjectValue.Integer (-129) |};
  {| oid := [2; 999]; value := ObjectValue.Counter64 u64_max |}].

Definition sample_response (community : list Z) : option (list Z) :=
  response_wire community 42 0 0 sample_varbinds.

Lemma sample_varbinds_ok : Forall (varbind_ok DecodeLimits_default) sample_varbinds.
Proof.
  assert (oid_encodable [2; 999]).
  { split; [done|]. split; [repeat constructor; unfold in_u, u32_max; lia|]. cbn. unfold u32_max. lia. }
  repeat constructor; try (apply sample_oid_encodable || done);
    try (cbn; unfold i64_min, i64_max, in_u, u64_max; lia).
  all: intros; match goal with E : _ = _ |- _ => vm_compute in E; inversion E; subst end; by vm_compute.
Qed.

Lemma response_roundtrip_witness :
  exists bytes response, sample_response (str "public") = Some bytes /\
    decode_response (fun l => l) bytes 42 DecodeLimits_default = Ok response /\
    varbinds response = sample_varbinds.
Proof.
  destruct (sample_response (str "public")) as [bytes|] eqn:E; [|discriminate E].
  destruct (response_roundtrip (fun l => l) DecodeLimits_default (str "public") 42 0 0 sample_varbinds bytes)
    as (masked & _ & Hd).
  1-4: by vm_compute.
  - apply sample_varbinds_ok.
  - by vm_compute.
  - exact E.
  - apply (inj Some) in E as <-. by vm_compute.
  - by vm_compute.
  - exists bytes. eexists. split; [done|]. split; [exact Hd|done].
Defined.

Lemma trailing_bytes_leak_community_witness :
  exists w response kept, varbinds_wire sample_varbinds = Some w /\
    decode_response (fun l => l) (message (str "public") (response_pdu 42 0 0 w) ++ replicate 6 0) 42
      DecodeLimits_default = Ok response /\
    sanitized_bytes (evidence response) =
    Some (before_community (content_length (str "public") (response_pdu 42 0 0 w)) (str "public") ++
          str "public" ++ kept).
Proof.
  destruct (varbinds_wire sample_varbinds) as [w|] eqn:E; [|discriminate E].
  destruct (trailing_bytes_leak_community (fun l => l) DecodeLimits_default (str "public") 42 0 0
              sample_varbinds w (replicate 6 0)) as (response & kept & Hd & Hs).
  1-4: by vm_compute.
  - apply sample_varbinds_ok.
  - by vm_compute.
  - exact E.
  - apply (inj Some) in E as <-. by vm_compute.
  - by vm_compute.
  - by vm_compute.
  - exists w, response, kept. split; [done|]. split; [exact Hd|exact Hs].
Defined.

Lemma decode_response_never_panics_witness :
  panics (decode_response (fun l => l) [48; 3; 2; 1; 1] 0 DecodeLimits_default) = false.
Proof. apply decode_response_never_panics. by vm_compute. Defined.

Lemma oid_roundtrip_witness :
  ObjectId_parse (str "1.3.6.1.4.1.2435.4294967295") = Ok sample_oid /\
  exists l, encode_oid sample_oid = Ok l /\ decode_oid l = Ok sample_oid.
Proof.
  destruct (oid_roundtrip sample_oid sample_oid_encodable) as [(l & He & _ & Hd) Hp].
  split; [exact Hp|]. exists l. split; [exact He|exact Hd].
Defined.

Definition sample_registry : ObjectRegistry :=
  snd (register ObjectRegistry_default
         {| r_oid := sample_oid; semantic_id := str "serial"; sensitive := true |}).

Lemma requests_read_back_witness :
  is_ok (encode_get sample_registry (str "public") 7 sample_oid) = true.
Proof.
  apply (requests_read_back sample_registry (str "public") 7 sample_oid sample_oid_encodable).
  - by vm_compute.
  - split; [by eexists|by vm_compute].
Defined.

Lemma registry_consistent_witness :
  rtc registry_step ObjectRegistry_default sample_registry /\ registry_wf sample_registry.
Proof.
  assert (rtc registry_step ObjectRegistry_default sample_registry) as Hr
    by (apply rtc_once, step_register).
  split; [exact Hr|]. by apply (registry_consistent sample_registry sample_registry Hr).
Defined.
