(* ===== verification/Discovery.v ===== *)
(** Discovery snapshots (crates/mb-printer-core/src/discovery.rs): the
    protocol-neutral description of a printer, the reconciliation of two
    identities, the normalisation of IPP and SNMP responses with the evidence
    for every entry, and the redaction of a snapshot before it leaves.
    [SettingValue] and [ProtocolFamily] are in Administration.v. SHA-256 and
    the JSON serializer are parameters. *)

From stdpp Require Import base gmap sets list strings numbers option.
From S2P Require Import Prelude Text Snmp Effects Ipp Administration.

#[local] Open Scope Z_scope.

(** ** Evidence *)

Inductive TransportKind :=
| TransportIpp | TransportIpps | TransportDnsSd | TransportRawTcp | TransportUsb
| TransportIppOverUsb | TransportSerial | TransportBluetoothRfcomm | TransportBle | TransportSnmp.

Record QualificationMetadata := {
  qm_id : list Z;
  qm_firmware : option (list Z);
  qm_response_hash : option (list Z);
}.

Record ObservationOrigin := {
  o_agent_id : option (list Z);
  o_printer_id : list Z;
  o_endpoint : list Z;
  o_endpoint_generation : Z;
  o_transport : TransportKind;
  o_protocol : ProtocolFamily;
  o_request_id : list Z;
  o_probe_id : option (list Z);
  o_observed_at : list Z;
  o_qualification : option QualificationMetadata;
}.

Inductive ProtocolSource :=
| IppAttribute (name : list Z)
| DnsSdTxt (key : list Z)
| Ieee1284DeviceId
| PjlVariable (name : list Z)
| SnmpObject (oid : list Z)
| RegisteredProbe (probe_id : list Z)
| ModelCatalogue (catalogue : list Z).

Module EvidenceKind.
Inductive t := Advertised | Observed | Inferred | HardwareQualified (qualification_id : list Z).
End EvidenceKind.

Record Evidence := {
  ev_source : ProtocolSource;
  ev_kind : EvidenceKind.t;
  ev_origin : ObservationOrigin;
}.

(** ** Snapshots *)

Record PrinterIdentity := {
  identity_id : list Z;
  uuid : option (list Z);
  serial_number : option (list Z);
  device_id : option (list Z);
  manufacturer : option (list Z);
  model : option (list Z);
}.

Definition PrinterIdentity_default : PrinterIdentity := {|
  identity_id := []; uuid := None; serial_number := None; device_id := None;
  manufacturer := None; model := None;
|}.

Record DeviceState := { state : option (list Z); reasons : list (list Z) }.

Record Supply := {
  supply_id : list Z;
  level_percent : option Z;
  supply_evidence : list Evidence;
}.

Module Constraint.
Inductive t :=
| Values (values : list SettingValue.t)
| IntegerRange (lower upper : Z).
End Constraint.

Record JobCapability := {
  capability_id : list Z;
  current_default : option SettingValue.t;
  supported_values : option Constraint.t;
  format_scope : option (list Z);
  capability_evidence : list Evidence;
}.

Record DeviceSetting := {
  setting_id : list Z;
  current_value : option SettingValue.t;
  setting_sensitive : bool;
  setting_evidence : list Evidence;
}.

Module MutationAccess.
Inductive t := ReadOnly | ConfirmedWrite | Unknown.
End MutationAccess.

Record MutationSupport := {
  mutation_setting : list Z;
  access : MutationAccess.t;
  constraints : option Constraint.t;
  mutation_evidence : list Evidence;
}.

Module Availability.
Inductive t := Advertised | Unavailable | Unknown.
End Availability.

Record OperationCapability := {
  operation : list Z;
  availability : Availability.t;
  operation_evidence : list Evidence;
}.

Record RawProtocolValue := {
  raw_name : list Z;
  raw_tag : option Z;
  raw_value : list Z;
  raw_sensitive : bool;
}.

Record ProtocolObservation := {
  observation_source : ProtocolSource;
  observation_values : list RawProtocolValue;
  observation_bytes : option (list Z);
  observation_evidence : Evidence;
}.

Record DeviceSnapshot := {
  identity : PrinterIdentity;
  device_state : DeviceState;
  supplies : list Supply;
  job_capabilities : list JobCapability;
  device_settings : list DeviceSetting;
  mutation_support : list MutationSupport;
  operations : list OperationCapability;
  observations : list ProtocolObservation;
}.

(** ** Reconciliation of identities *)

Inductive MergeReason := MatchingUuid | CompatibleSerialOrDeviceId | ExplicitUserAssociation.
Inductive MergeDecision := Merge (reason : MergeReason) | IdentityConflict | RequiresUserAssociation.

Definition matches_nonempty (left right : option (list Z)) : bool :=
  match left, right with
  | Some l, Some r => negb (bool_decide (l = [])) && bool_decide (l = r)
  | _, _ => false
  end.

Definition conflicting (left right : option (list Z)) : bool :=
  match left, right with
  | Some l, Some r => negb (bool_decide (l = [])) && negb (bool_decide (r = [])) && negb (bool_decide (l = r))
  | _, _ => false
  end.

Definition reconcile_identity (left right : PrinterIdentity) (explicitly_associated : bool) : MergeDecision :=
  if explicitly_associated then Merge ExplicitUserAssociation
  else if conflicting (uuid left) (uuid right) || conflicting (serial_number left) (serial_number right)
          || conflicting (device_id left) (device_id right)
          || conflicting (manufacturer left) (manufacturer right)
  then IdentityConflict
  else if matches_nonempty (uuid left) (uuid right) then Merge MatchingUuid
  else if matches_nonempty (serial_number left) (serial_number right)
          || matches_nonempty (device_id left) (device_id right)
  then Merge CompatibleSerialOrDeviceId
  else RequiresUserAssociation.

(** ** Reading IPP attributes *)

(** [evidence] *)
Definition advertised_evidence (source : ProtocolSource) (origin : ObservationOrigin) : Evidence :=
  {| ev_source := source; ev_kind := EvidenceKind.Advertised; ev_origin := origin |}.

Definition named (name : list Z) (attribute : Attribute) : bool := bool_decide (a_name attribute = name).

(** [values] *)
Definition attribute_values (attributes : list Attribute) (name : list Z) : list Value :=
  flat_map a_values (List.filter (named name) attributes).

Definition first_value (attributes : list Attribute) (name : list Z) : option Value :=
  attribute ← List.find (named name) attributes; head (a_values attribute).

Definition value_text (value : Value) : option (list Z) :=
  match v_data value with Bytes bytes => from_utf8 bytes | _ => None end.

Definition first_text (attributes : list Attribute) (name : list Z) : option (list Z) :=
  value ← first_value attributes name; value_text value.

Definition value_i64 (value : Value) : option Z :=
  match v_data value with Integer value | Enum value => Some value | _ => None end.

Definition setting_value (value : Value) : option SettingValue.t :=
  match v_data value with
  | OutOfBand => None
  | Integer value | Enum value => Some (SettingValue.Integer value)
  | Boolean value => Some (SettingValue.Boolean value)
  | Bytes bytes =>
      match v_tag value with
      | ValueTag.Keyword => SettingValue.Keyword <$> from_utf8 bytes
      | ValueTag.TextWithLanguage | ValueTag.NameWithLanguage
      | ValueTag.TextWithoutLanguage | ValueTag.NameWithoutLanguage
      | ValueTag.Uri | ValueTag.UriScheme | ValueTag.Charset | ValueTag.NaturalLanguage
      | ValueTag.MimeMediaType => SettingValue.Text <$> from_utf8 bytes
      | _ => Some (SettingValue.Bytes bytes)
      end
  | RangeOfInteger lower upper =>
      Some (SettingValue.List [SettingValue.Integer lower; SettingValue.Integer upper])
  | Resolution cross_feed feed units =>
      Some (SettingValue.Text (show_int cross_feed ++ str "x" ++ show_int feed ++ str "@" ++ show_int units))
  | DateTime bytes => Some (SettingValue.Bytes bytes)
  | Collection _ => None
  end.

Definition format_setting (value : SettingValue.t) : list Z :=
  match value with
  | SettingValue.Boolean value => if value then str "true" else str "false"
  | SettingValue.Integer value => show_int value
  | SettingValue.Text value | SettingValue.Keyword value => value
  | SettingValue.Bytes _ => str "bytes"
  | SettingValue.List _ => str "list"
  end.

Definition ipp_printer_state (value : Value) : option (list Z) :=
  match v_data value with
  | Enum 3 => Some (str "idle")
  | Enum 4 => Some (str "processing")
  | Enum 5 => Some (str "stopped")
  | Enum value => Some (show_int value)
  | _ => format_setting <$> setting_value value
  end.

(** The loop over the values; the set is a [BTreeSet]. *)
Fixpoint settable_names (values : list Value) (result : gset (list Z)) : option (gset (list Z)) :=
  match values with
  | [] => Some result
  | value :: values =>
      if negb (tag_is (v_tag value) ValueTag.Keyword) then None
      else
        name ← value_text value;
        if bool_decide (name = []) then None else settable_names values ({[ name ]} ∪ result)
  end.

Definition valid_settable_attributes (attributes : list Attribute) : option (gset (list Z)) :=
  attribute ← List.find (named (str "printer-settable-attributes-supported")) attributes;
  result ← settable_names (a_values attribute) ∅;
  if bool_decide (result = ∅) then None else Some result.

(** [{:04x}] of an [i64]: two's complement, padded with zeros. *)
Fixpoint hex_digits (fuel : nat) (n : Z) (acc : list Z) : list Z :=
  match fuel with
  | O => acc
  | S fuel => let acc := hex_char (n mod 16) :: acc in if n <? 16 then acc else hex_digits fuel (n / 16) acc
  end.

Definition show_hex_04 (n : Z) : list Z :=
  let digits := hex_digits 16 (n mod 2 ^ 64) [] in replicate (4 - length digits) 48 ++ digits.

Definition ipp_operation_name (operation : Z) : list Z :=
  match checked u16_max operation with
  | Some 11 => str "get-printer-attributes"
  | Some 21 => str "get-printer-supported-values"
  | Some 19 => str "set-printer-attributes"
  | _ => str "ipp-operation-0x" ++ show_hex_04 operation
  end.

Definition scalar_wire_bytes (value : Value) : list Z :=
  match v_data value with
  | OutOfBand | Collection _ => []
  | Integer value | Enum value => to_be_bytes 4 value
  | Boolean value => [Z.b2z value]
  | DateTime value => value
  | Resolution cross_feed feed units => to_be_bytes 4 cross_feed ++ to_be_bytes 4 feed ++ [units]
  | RangeOfInteger lower upper => to_be_bytes 4 lower ++ to_be_bytes 4 upper
  | Bytes bytes => bytes
  end.

Definition SENSITIVE_NEEDLES : list (list Z) :=
  map str ["password"; "credential"; "certificate"; "private-key"; "printer-uuid"; "serial-number";
           "device-id"; "wifi"; "ssid"; "address"]%string.

Definition is_sensitive_ipp_attribute (name : list Z) : bool :=
  let name := map to_ascii_lowercase (from_utf8_lossy name) in
  existsb (fun needle => str_contains needle name) SENSITIVE_NEEDLES.

(** ** IPP responses *)

(** [BTreeSet<i64>]: ascending, without duplicates. *)
Fixpoint btree_insert (n : Z) (s : list Z) : list Z :=
  match s with
  | [] => [n]
  | m :: s' => if n <? m then n :: s else if n =? m then s else m :: btree_insert n s'
  end.

Definition btree_set (l : list Z) : list Z := foldl (fun s n => btree_insert n s) [] l.

Definition filter_map {A B} (f : A -> option B) (l : list A) : list B := omap f l.

Section Ipp.
Variable origin : ObservationOrigin.

Definition attribute_evidence (name : list Z) : list Evidence := [advertised_evidence (IppAttribute name) origin].

Definition ipp_identity (attributes : list Attribute) : PrinterIdentity := {|
  identity_id := o_printer_id origin;
  uuid := first_text attributes (str "printer-uuid");
  serial_number := first_text attributes (str "printer-serial-number");
  device_id := first_text attributes (str "printer-device-id");
  manufacturer := manufacturer PrinterIdentity_default;
  model := first_text attributes (str "printer-make-and-model");
|}.

Definition ipp_state (attributes : list Attribute) : DeviceState := {|
  state := value ← first_value attributes (str "printer-state"); ipp_printer_state value;
  reasons := filter_map value_text (attribute_values attributes (str "printer-state-reasons"));
|}.

(** The level of the marker with an index, when it is a percentage. *)
Definition marker_level (levels : list (option Z)) (index : nat) : option Z :=
  match levels !! index with
  | Some (Some level) => if level <=? 100 then Some level else None
  | _ => None
  end.

Definition ipp_supplies (attributes : list Attribute) : list Supply :=
  let marker_names := filter_map value_text (attribute_values attributes (str "marker-names")) in
  let marker_levels :=
    map (fun value => level ← value_i64 value; checked u8_max level)
      (attribute_values attributes (str "marker-levels")) in
  imap (fun index name => {|
          supply_id := name;
          level_percent := marker_level marker_levels index;
          supply_evidence := attribute_evidence (str "marker-levels") |}) marker_names.

Definition operation_values (attributes : list Attribute) : list Z :=
  btree_set (filter_map value_i64 (attribute_values attributes (str "operations-supported"))).

Definition ipp_operations (attributes : list Attribute) : list OperationCapability :=
  map (fun operation => {|
         operation := ipp_operation_name operation;
         availability := Availability.Advertised;
         operation_evidence := attribute_evidence (str "operations-supported") |})
    (operation_values attributes).

Definition JOB_ATTRIBUTES : list (list Z) :=
  map str ["copies"; "sides"; "orientation-requested"; "print-quality"; "printer-resolution"; "media";
           "media-col"; "print-color-mode"; "print-scaling"; "document-format"; "finishings"]%string.

(** One turn of the loop over [JOB_ATTRIBUTES]. *)
Definition job_capability (attributes : list Attribute) (format : option (list Z)) (base : list Z) :
    option JobCapability :=
  let default_name := base ++ str "-default" in
  let supported_name := base ++ str "-supported" in
  let current_default := value ← first_value attributes default_name; setting_value value in
  let supported := filter_map setting_value (attribute_values attributes supported_name) in
  match current_default, supported with
  | None, [] => None
  | _, _ =>
      Some {| capability_id := base;
              current_default := current_default;
              supported_values := match supported with [] => None | _ => Some (Constraint.Values supported) end;
              format_scope := format;
              capability_evidence :=
                attribute_evidence (match supported with [] => default_name | _ => supported_name end) |}
  end.

Definition media_ready (attributes : list Attribute) (format : option (list Z)) : list JobCapability :=
  match filter_map setting_value (attribute_values attributes (str "media-ready")) with
  | [] => []
  | ready =>
      [{| capability_id := str "media-ready";
          current_default := None;
          supported_values := Some (Constraint.Values ready);
          format_scope := format;
          capability_evidence := attribute_evidence (str "media-ready") |}]
  end.

(** The setting and the mutation support of an attribute, the entries of both loops over names. *)
Definition setting_entries (name : list Z) (value : SettingValue.t) (access : MutationAccess.t) :
    DeviceSetting * MutationSupport :=
  ({| setting_id := name;
      current_value := Some value;
      setting_sensitive := is_sensitive_ipp_attribute name;
      setting_evidence := attribute_evidence name |},
   {| mutation_setting := name;
      access := access;
      constraints := None;
      mutation_evidence := attribute_evidence name |}).

Definition NAMED_SETTINGS : list (list Z) := map str ["printer-name"; "printer-info"; "printer-location"]%string.

Definition attribute_is_settable (attributes : list Attribute) (name : list Z) : bool :=
  existsb (Z.eqb SET_PRINTER_ATTRIBUTES) (operation_values attributes)
  && match valid_settable_attributes attributes with Some names => bool_decide (name ∈ names) | None => false end.

Definition named_setting (attributes : list Attribute) (name : list Z) : option (DeviceSetting * MutationSupport) :=
  value ← first_value attributes name;
  value ← setting_value value;
  Some (setting_entries name value
    (if attribute_is_settable attributes name then MutationAccess.ConfirmedWrite else MutationAccess.ReadOnly)).

Definition OBSERVED_SETTINGS : list (list Z) :=
  map str ["printer-firmware-name"; "printer-firmware-string-version"; "printer-firmware-version";
           "printer-up-time"; "printer-config-change-time"; "uri-authentication-supported";
           "uri-security-supported"; "ipp-features-supported"]%string.

Definition observed_setting (attributes : list Attribute) (name : list Z) : option (DeviceSetting * MutationSupport) :=
  match filter_map setting_value (attribute_values attributes name) with
  | [] => None
  | [value] => Some (setting_entries name value MutationAccess.ReadOnly)
  | observed => Some (setting_entries name (SettingValue.List observed) MutationAccess.ReadOnly)
  end.

Definition attribute_observation (bytes : list Z) (index : nat) (attribute : Attribute) : ProtocolObservation :=
  let source := IppAttribute (from_utf8_lossy (a_name attribute)) in
  {| observation_source := source;
     observation_values :=
       map (fun value => {|
              raw_name := a_name attribute;
              raw_tag := Some (ValueTag.to_byte (v_tag value));
              raw_value := scalar_wire_bytes value;
              raw_sensitive := is_sensitive_ipp_attribute (a_name attribute) |}) (a_values attribute);
     observation_bytes := if Nat.eqb index 0 then Some bytes else None;
     observation_evidence := advertised_evidence source origin |}.

Definition normalize_ipp (message : Message) (format : option (list Z)) : DeviceSnapshot :=
  let attributes := all_attributes message in
  let settings :=
    filter_map (named_setting attributes) NAMED_SETTINGS
    ++ filter_map (observed_setting attributes) OBSERVED_SETTINGS in
  {| identity := ipp_identity attributes;
     device_state := ipp_state attributes;
     supplies := ipp_supplies attributes;
     job_capabilities := filter_map (job_capability attributes format) JOB_ATTRIBUTES ++ media_ready attributes format;
     device_settings := map fst settings;
     mutation_support := map snd settings;
     operations := ipp_operations attributes;
     observations := imap (attribute_observation (original_bytes message)) attributes |}.
End Ipp.

(** ** SNMP responses *)

Definition snmp_setting_value (value : ObjectValue.t) : option SettingValue.t :=
  match value with
  | ObjectValue.Integer value => Some (SettingValue.Integer value)
  | ObjectValue.Bytes value =>
      match from_utf8 value with
      | Some text => Some (SettingValue.Text (trim_end_matches 0 text))
      | None => Some (SettingValue.Bytes value)
      end
  | ObjectValue.ObjectIdValue value => Some (SettingValue.Text (ObjectId_fmt value))
  | ObjectValue.IpAddress value => Some (SettingValue.Text (join DOT (map show_dec value)))
  | ObjectValue.Counter32 value | ObjectValue.Gauge32 value
  | ObjectValue.Unsigned32 value | ObjectValue.TimeTicks value => Some (SettingValue.Integer value)
  | ObjectValue.Counter64 value | ObjectValue.Counter value => SettingValue.Integer <$> checked_i64 value
  | ObjectValue.Opaque value | ObjectValue.Nsap value => Some (SettingValue.Bytes value)
  | ObjectValue.Null => None
  | ObjectValue.NoSuchObject | ObjectValue.NoSuchInstance | ObjectValue.EndOfMibView
  | ObjectValue.Unknown _ _ => None
  end.

Definition snmp_value_tag (value : ObjectValue.t) : Z :=
  match value with
  | ObjectValue.Integer _ => 0x02
  | ObjectValue.Bytes _ => 0x04
  | ObjectValue.Null => 0x05
  | ObjectValue.ObjectIdValue _ => 0x06
  | ObjectValue.IpAddress _ => 0x40
  | ObjectValue.Counter32 _ | ObjectValue.Counter _ => 0x41
  | ObjectValue.Gauge32 _ => 0x42
  | ObjectValue.TimeTicks _ => 0x43
  | ObjectValue.Opaque _ => 0x44
  | ObjectValue.Nsap _ => 0x45
  | ObjectValue.Counter64 _ => 0x46
  | ObjectValue.Unsigned32 _ => 0x47
  | ObjectValue.NoSuchObject => 0x80
  | ObjectValue.NoSuchInstance => 0x81
  | ObjectValue.EndOfMibView => 0x82
  | ObjectValue.Unknown tag _ => tag
  end.

Section Snmp.
Variable value_json : ObjectValue.t -> list Z.
Variable registry : ObjectRegistry.
Variable origin : ObservationOrigin.

Definition observed_evidence (binding : VarBind) : Evidence :=
  {| ev_source := SnmpObject (ObjectId_fmt (oid binding)); ev_kind := EvidenceKind.Observed; ev_origin := origin |}.

(** The setting of a registered object that holds a value. *)
Definition binding_setting (binding : VarBind) : option (DeviceSetting * MutationSupport) :=
  object ← registry_get registry (oid binding);
  value ← snmp_setting_value (Snmp.value binding);
  Some ({| setting_id := semantic_id object;
           current_value := Some value;
           setting_sensitive := sensitive object;
           setting_evidence := [observed_evidence binding] |},
        {| mutation_setting := semantic_id object;
           access := MutationAccess.ReadOnly;
           constraints := None;
           mutation_evidence := [observed_evidence binding] |}).

Definition binding_observation (bytes : option (list Z)) (index : nat) (binding : VarBind) : ProtocolObservation := {|
  observation_source := SnmpObject (ObjectId_fmt (oid binding));
  observation_values := [{|
    raw_name := ObjectId_fmt (oid binding);
    raw_tag := Some (snmp_value_tag (Snmp.value binding));
    raw_value := value_json (Snmp.value binding);
    raw_sensitive :=
      match registry_get registry (oid binding) with Some object => sensitive object | None => false end |}];
  observation_bytes := if Nat.eqb index 0 then bytes else None;
  observation_evidence := observed_evidence binding;
|}.

Definition normalize_snmp (response : Response) : DeviceSnapshot :=
  let settings := filter_map binding_setting (varbinds response) in
  {| identity := {|
       identity_id := o_printer_id origin; uuid := None; serial_number := None; device_id := None;
       manufacturer := None; model := None |};
     device_state := {| state := None; reasons := [] |};
     supplies := [];
     job_capabilities := [];
     device_settings := map fst settings;
     mutation_support := map snd settings;
     operations := [];
     observations := imap (binding_observation (sanitized_bytes (evidence response))) (varbinds response) |}.
End Snmp.

(** ** Output *)

Inductive OutputMode := NormalizedRedacted | LocalRawRedacted | LocalRawSensitive | CloudRawAuthorized.

Record OutputAuthorization := { raw_local : bool; sensitive_values : bool; cloud_raw : bool }.

Record RetentionPolicy := { may_persist : bool; may_log : bool; audit_required : bool }.

Record PreparedSnapshot := {
  prepared_snapshot : DeviceSnapshot;
  prepared_mode : OutputMode;
  retention : RetentionPolicy;
}.

Inductive OutputPolicyError := RawLocalNotAuthorized | SensitiveNotAuthorized | CloudRawNotAuthorized.

Definition REDACTED_TEXT : list Z := str "[REDACTED]".

Definition map_observation_evidence (f : Evidence -> Evidence) (observation : ProtocolObservation) :
    ProtocolObservation := {|
  observation_source := observation_source observation;
  observation_values := observation_values observation;
  observation_bytes := observation_bytes observation;
  observation_evidence := f (observation_evidence observation);
|}.

(** The writes through [all_evidence_mut]: every piece of evidence of a snapshot, once. *)
Definition map_evidence (f : Evidence -> Evidence) (s : DeviceSnapshot) : DeviceSnapshot := {|
  identity := identity s;
  device_state := device_state s;
  supplies := map (fun supply => {|
    supply_id := supply_id supply; level_percent := level_percent supply;
    supply_evidence := map f (supply_evidence supply) |}) (supplies s);
  job_capabilities := map (fun capability => {|
    capability_id := capability_id capability; current_default := current_default capability;
    supported_values := supported_values capability; format_scope := format_scope capability;
    capability_evidence := map f (capability_evidence capability) |}) (job_capabilities s);
  device_settings := map (fun setting => {|
    setting_id := setting_id setting; current_value := current_value setting;
    setting_sensitive := setting_sensitive setting;
    setting_evidence := map f (setting_evidence setting) |}) (device_settings s);
  mutation_support := map (fun mutation => {|
    mutation_setting := mutation_setting mutation; access := access mutation;
    constraints := constraints mutation;
    mutation_evidence := map f (mutation_evidence mutation) |}) (mutation_support s);
  operations := map (fun capability => {|
    operation := operation capability; availability := availability capability;
    operation_evidence := map f (operation_evidence capability) |}) (operations s);
  observations := map (map_observation_evidence f) (observations s);
|}.

Definition with_observations (f : ProtocolObservation -> ProtocolObservation) (s : DeviceSnapshot) : DeviceSnapshot := {|
  identity := identity s; device_state := device_state s; supplies := supplies s;
  job_capabilities := job_capabilities s; device_settings := device_settings s;
  mutation_support := mutation_support s; operations := operations s;
  observations := map f (observations s);
|}.

Section Output.
(** [Sha256] of the sha2 crate. *)
Variable sha256 : list Z -> list Z.

Definition redact_identifier (value : list Z) : list Z := str "sha256:" ++ flat_map show_hex_02 (sha256 value).

Definition redact_identity (identity : PrinterIdentity) : PrinterIdentity := {|
  identity_id := identity_id identity;
  uuid := redact_identifier <$> uuid identity;
  serial_number := redact_identifier <$> serial_number identity;
  device_id := redact_identifier <$> device_id identity;
  manufacturer := manufacturer identity;
  model := model identity;
|}.

Definition redact_setting (setting : DeviceSetting) : DeviceSetting := {|
  setting_id := setting_id setting;
  current_value :=
    if setting_sensitive setting then Some (SettingValue.Text REDACTED_TEXT) else current_value setting;
  setting_sensitive := setting_sensitive setting;
  setting_evidence := setting_evidence setting;
|}.

Definition redact_endpoint (evidence : Evidence) : Evidence :=
  let origin := ev_origin evidence in
  {| ev_source := ev_source evidence;
     ev_kind := ev_kind evidence;
     ev_origin := {|
       o_agent_id := o_agent_id origin; o_printer_id := o_printer_id origin;
       o_endpoint := redact_identifier (o_endpoint origin);
       o_endpoint_generation := o_endpoint_generation origin;
       o_transport := o_transport origin; o_protocol := o_protocol origin;
       o_request_id := o_request_id origin; o_probe_id := o_probe_id origin;
       o_observed_at := o_observed_at origin; o_qualification := o_qualification origin |} |}.

Definition redact_sensitive_snapshot (s : DeviceSnapshot) : DeviceSnapshot :=
  map_evidence redact_endpoint {|
    identity := redact_identity (identity s); device_state := device_state s; supplies := supplies s;
    job_capabilities := job_capabilities s; device_settings := map redact_setting (device_settings s);
    mutation_support := mutation_support s; operations := operations s; observations := observations s |}.

(** The observation of a normalized output: no protocol values. *)
Definition without_values (observation : ProtocolObservation) : ProtocolObservation := {|
  observation_source := observation_source observation;
  observation_values := [];
  observation_bytes := None;
  observation_evidence := observation_evidence observation;
|}.

Definition redact_raw_value (value : RawProtocolValue) : RawProtocolValue := {|
  raw_name := raw_name value; raw_tag := raw_tag value;
  raw_value := if raw_sensitive value then REDACTED_TEXT else raw_value value;
  raw_sensitive := raw_sensitive value;
|}.

(** The observation of a redacted raw output. *)
Definition redact_observation (response_contains_sensitive : bool) (observation : ProtocolObservation) :
    ProtocolObservation := {|
  observation_source := observation_source observation;
  observation_values := map redact_raw_value (observation_values observation);
  observation_bytes := if response_contains_sensitive then None else observation_bytes observation;
  observation_evidence := observation_evidence observation;
|}.

Definition contains_sensitive (s : DeviceSnapshot) : bool :=
  existsb raw_sensitive (flat_map observation_values (observations s)).

Definition prepare_snapshot_output (snapshot : DeviceSnapshot) (mode : OutputMode)
    (authorization : OutputAuthorization) : Result OutputPolicyError PreparedSnapshot :=
  let prepared snapshot retention :=
    Ok {| prepared_snapshot := snapshot; prepared_mode := mode; retention := retention |} in
  match mode with
  | NormalizedRedacted =>
      prepared (with_observations without_values (redact_sensitive_snapshot snapshot))
        {| may_persist := true; may_log := true; audit_required := false |}
  | LocalRawRedacted =>
      if negb (raw_local authorization) then Err RawLocalNotAuthorized
      else
        let snapshot := redact_sensitive_snapshot snapshot in
        prepared (with_observations (redact_observation (contains_sensitive snapshot)) snapshot)
          {| may_persist := true; may_log := false; audit_required := true |}
  | LocalRawSensitive =>
      if negb (raw_local authorization) then Err RawLocalNotAuthorized
      else if negb (sensitive_values authorization) then Err SensitiveNotAuthorized
      else prepared snapshot {| may_persist := false; may_log := false; audit_required := true |}
  | CloudRawAuthorized =>
      if negb (cloud_raw authorization) then Err CloudRawNotAuthorized
      else if negb (sensitive_values authorization) then Err SensitiveNotAuthorized
      else prepared snapshot {| may_persist := false; may_log := false; audit_required := true |}
  end.
End Output.
