(* ===== verification/DiscoveryFacts.v ===== *)
(** Properties of discovery (Discovery.v): when two identities are merged,
    which settings are announced as writable, and that a redacted snapshot
    tells nothing about sensitive values. *)

From stdpp Require Import base gmap sets list strings numbers option.
From S2P Require Import Prelude Text Snmp Effects Ipp Administration AdministrationFacts Discovery.

#[local] Open Scope Z_scope.

(** ** Identities *)

(** Both are known, and equal or different. *)
Definition agree (a b : option (list Z)) : Prop := exists x, x <> [] /\ a = Some x /\ b = Some x.
Definition contradict (a b : option (list Z)) : Prop :=
  exists x y, x <> [] /\ y <> [] /\ x <> y /\ a = Some x /\ b = Some y.

Lemma matches_nonempty_spec a b : matches_nonempty a b = true <-> agree a b.
Proof.
  unfold agree. destruct a as [x|], b as [y|]; cbn; try (split; [done|by intros (? & ? & ? & ?)]).
  rewrite andb_true_iff, negb_true_iff, bool_decide_eq_false, bool_decide_eq_true. split.
  - intros [? ->]. by exists y.
  - intros (? & ? & [= ->] & [= ->]). done.
Qed.

Lemma conflicting_spec a b : conflicting a b = true <-> contradict a b.
Proof.
  unfold contradict.
  destruct a as [x|], b as [y|]; cbn; try (split; [done|by intros (? & ? & ? & ? & ? & ? & ?)]).
  rewrite !andb_true_iff, !negb_true_iff, !bool_decide_eq_false. split.
  - intros [[? ?] ?]. exists x, y. by split_and!.
  - intros (? & ? & ? & ? & ? & [= ->] & [= ->]). done.
Qed.

Lemma agree_sym a b : agree a b -> agree b a.
Proof. intros (x & ? & ? & ?). by exists x. Qed.

Lemma contradict_sym a b : contradict a b -> contradict b a.
Proof. intros (x & y & ? & ? & ? & ? & ?). exists y, x. by split_and!. Qed.

(** Some identifier of the two printers differs. *)
Definition different_printers (l r : PrinterIdentity) : Prop :=
  contradict (uuid l) (uuid r) \/ contradict (serial_number l) (serial_number r)
  \/ contradict (device_id l) (device_id r) \/ contradict (manufacturer l) (manufacturer r).

(** Some identifier of a device is shared. *)
Definition shared_identifier (l r : PrinterIdentity) : Prop :=
  agree (uuid l) (uuid r) \/ agree (serial_number l) (serial_number r) \/ agree (device_id l) (device_id r).

(** What a decision means. *)
Definition justified (l r : PrinterIdentity) (associated : bool) (decision : MergeDecision) : Prop :=
  match decision with
  | Merge ExplicitUserAssociation => associated = true
  | Merge MatchingUuid => associated = false /\ ~ different_printers l r /\ agree (uuid l) (uuid r)
  | Merge CompatibleSerialOrDeviceId =>
      associated = false /\ ~ different_printers l r /\ ~ agree (uuid l) (uuid r) /\
      (agree (serial_number l) (serial_number r) \/ agree (device_id l) (device_id r))
  | IdentityConflict => associated = false /\ different_printers l r
  | RequiresUserAssociation => associated = false /\ ~ different_printers l r /\ ~ shared_identifier l r
  end.

Lemma different_printers_spec l r :
  conflicting (uuid l) (uuid r) || conflicting (serial_number l) (serial_number r)
  || conflicting (device_id l) (device_id r) || conflicting (manufacturer l) (manufacturer r) = true
  <-> different_printers l r.
Proof. unfold different_printers. rewrite !orb_true_iff, !conflicting_spec. tauto. Qed.

Lemma different_printers_sym l r : different_printers l r -> different_printers r l.
Proof. unfold different_printers. intros [|[|[|]]]; auto using contradict_sym. Qed.

Lemma shared_identifier_sym l r : shared_identifier l r -> shared_identifier r l.
Proof. unfold shared_identifier. intros [|[|]]; auto using agree_sym. Qed.

Lemma justified_unique l r associated d d' :
  justified l r associated d -> justified l r associated d' -> d = d'.
Proof.
  destruct associated, d as [[| |]| |], d' as [[| |]| |]; cbn; unfold shared_identifier; try done; naive_solver.
Qed.

Lemma justified_sym l r associated d : justified l r associated d -> justified r l associated d.
Proof.
  assert (different_printers l r <-> different_printers r l) by (split; apply different_printers_sym).
  assert (shared_identifier l r <-> shared_identifier r l) by (split; apply shared_identifier_sym).
  assert (forall a b, agree a b <-> agree b a) as Ha by (split; apply agree_sym).
  destruct d as [[| |]| |]; cbn; rewrite ?(Ha (uuid r)), ?(Ha (serial_number r)), ?(Ha (device_id r)); tauto.
Qed.

Lemma reconcile_justified l r associated : justified l r associated (reconcile_identity l r associated).
Proof.
  unfold reconcile_identity. destruct associated; [done|].
  pose proof (different_printers_spec l r) as Hd. destruct (_ || _); cbn.
  { split; [done|]. by apply Hd. }
  unfold justified, shared_identifier.
  destruct (matches_nonempty (uuid l) (uuid r)) eqn:Eu, (matches_nonempty (serial_number l) (serial_number r)) eqn:Es,
    (matches_nonempty (device_id l) (device_id r)) eqn:Ei; cbn; rewrite <- Hd, <- !matches_nonempty_spec, ?Eu, ?Es, ?Ei;
    intuition congruence.
Qed.

(** Two observations are merged only for a reason: the user said so, or no
    identifier of the printers contradicts and one of them is shared. Every
    other pair is a conflict or left to the user. Network addresses and names
    play no part, and the order of the observations does not matter. *)
Theorem reconcile_identity_spec l r associated decision :
  (reconcile_identity l r associated = decision <-> justified l r associated decision) /\
  reconcile_identity r l associated = reconcile_identity l r associated.
Proof.
  split; [split|].
  - intros <-. apply reconcile_justified.
  - intros H. eapply justified_unique; [apply reconcile_justified|exact H].
  - eapply justified_unique; [apply reconcile_justified|]. by apply justified_sym, reconcile_justified.
Qed.

(** ** Announced writes *)

Lemma btree_insert_spec n s k : k ∈ btree_insert n s <-> k = n \/ k ∈ s.
Proof.
  induction s as [|m s IH]; cbn; [set_solver|]. destruct (n <? m); [set_solver|].
  destruct (Z.eqb_spec n m) as [->|]; set_solver.
Qed.

Lemma btree_set_spec l k : k ∈ btree_set l <-> k ∈ l.
Proof.
  unfold btree_set. assert (forall s, k ∈ foldl (fun s n => btree_insert n s) s l <-> k ∈ s \/ k ∈ l) as H.
  { induction l as [|n l IH]; intros s; cbn; [set_solver|]. rewrite IH, btree_insert_spec. set_solver. }
  rewrite H. set_solver.
Qed.

Lemma settable_names_keywords values result : settable_names values result = keyword_names values result.
Proof.
  revert result. induction values as [|v values IH]; intros result; [done|]. cbn [settable_names keyword_names].
  destruct (negb _); [done|]. unfold value_text. destruct (v_data v); try done.
  destruct (from_utf8 bytes); cbn; [|done]. destruct (bool_decide _); [done|apply IH].
Qed.

(** Discovery and administration read the list of settable attributes alike. *)
Lemma valid_settable_attributes_eq m : valid_settable_attributes (all_attributes m) = settable_attributes m.
Proof.
  unfold valid_settable_attributes, settable_attributes, find_attribute, named.
  destruct (List.find _ _); cbn; [|done]. by rewrite settable_names_keywords.
Qed.

(** The printer lists an operation, as an enum or an integer. *)
Definition operation_listed (m : Message) (n : Z) : Prop :=
  exists a v, a ∈ all_attributes m /\ a_name a = str "operations-supported" /\ v ∈ a_values a /\ value_i64 v = Some n.

Lemma elem_of_attribute_values attributes name v :
  v ∈ attribute_values attributes name <-> exists a, a ∈ attributes /\ a_name a = name /\ v ∈ a_values a.
Proof.
  unfold attribute_values. rewrite list_elem_of_In, in_flat_map. setoid_rewrite filter_In.
  setoid_rewrite <- list_elem_of_In. unfold named. setoid_rewrite bool_decide_eq_true. naive_solver.
Qed.

Lemma operation_values_spec m n : n ∈ operation_values (all_attributes m) <-> operation_listed m n.
Proof.
  unfold operation_values, filter_map, operation_listed. rewrite btree_set_spec, list_elem_of_omap.
  setoid_rewrite elem_of_attribute_values. naive_solver.
Qed.

Lemma advertised_listed m n : advertised m n -> operation_listed m n.
Proof.
  intros (a & Ha & Hv). apply List.Exists_exists in Hv as (v & Hin & E).
  unfold find_attribute in Ha. apply List.find_some in Ha as [Ha Hn]. apply bool_decide_eq_true in Hn.
  exists a, v. rewrite !list_elem_of_In. split_and!; [done..|]. unfold value_i64. by rewrite E.
Qed.

Lemma attribute_is_settable_spec m name :
  attribute_is_settable (all_attributes m) name = true <->
  operation_listed m SET_PRINTER_ATTRIBUTES /\ settable m name.
Proof.
  unfold attribute_is_settable. rewrite andb_true_iff, existsb_exists, <- operation_values_spec.
  rewrite valid_settable_attributes_eq, <- settable_attributes_spec. setoid_rewrite <- list_elem_of_In.
  setoid_rewrite Z.eqb_eq. destruct (settable_attributes m); [rewrite bool_decide_eq_true|]; naive_solver.
Qed.

(** The first value of an attribute, when it has one that can be shown. *)
Definition shown (m : Message) (name : list Z) (value : SettingValue.t) : Prop :=
  exists v, first_value (all_attributes m) name = Some v /\ setting_value v = Some value.

Definition announced (s : DeviceSnapshot) (name : list Z) (a : MutationAccess.t) : Prop :=
  exists mutation, mutation ∈ mutation_support s /\ mutation_setting mutation = name /\ access mutation = a.

Lemma observed_settings_read_only origin attributes name entry :
  observed_setting origin attributes name = Some entry -> access entry.2 = MutationAccess.ReadOnly.
Proof. unfold observed_setting. repeat case_match; by intros [= <-]. Qed.

Lemma announced_write_spec origin m format name :
  announced (normalize_ipp origin m format) name MutationAccess.ConfirmedWrite <->
  name ∈ NAMED_SETTINGS /\ operation_listed m SET_PRINTER_ATTRIBUTES /\ settable m name /\
  exists value, shown m name value.
Proof.
  pose proof (attribute_is_settable_spec m name) as Hs. unfold announced, shown. cbn [mutation_support normalize_ipp].
  split.
  - intros (mutation & Hin & Hn & Ha). apply list_elem_of_In, in_map_iff in Hin as (entry & <- & Hin).
    apply list_elem_of_In, elem_of_app in Hin as [Hin|Hin]; unfold filter_map in Hin;
      apply list_elem_of_omap in Hin as (other & Hin & E).
    + unfold named_setting in E. destruct (first_value _ other) as [v|] eqn:Ev; [|done]. cbn in E.
      destruct (setting_value v) as [value|] eqn:Es; [|done]. apply (inj Some) in E as <-. cbn in Hn, Ha. subst other.
      destruct (attribute_is_settable _ _); [|done]. destruct (proj1 Hs eq_refl) as [Hl Hset]. split_and!; [done..|].
      by exists value, v.
    + apply observed_settings_read_only in E. congruence.
  - intros (Hin & Hl & Hset & value & v & Ev & Es). assert (attribute_is_settable (all_attributes m) name = true) as Ht.
    { by apply Hs. }
    exists (setting_entries origin name value MutationAccess.ConfirmedWrite).2. split; [|done].
    apply list_elem_of_In, in_map_iff. eexists. split; [reflexivity|].
    apply list_elem_of_In, elem_of_app. left. apply list_elem_of_omap. exists name. split; [done|].
    unfold named_setting. rewrite Ev. cbn. rewrite Es. cbn. by rewrite Ht.
Qed.

(** The snapshot of an IPP response announces a confirmed write for an
    attribute exactly when it is one of the three named settings, has a value
    that can be shown, and the printer lists both the operation and the
    attribute. Whatever administration would plan to change among them is
    announced. *)
Theorem announced_writes_spec sha256 value_json origin m format name :
  (announced (normalize_ipp origin m format) name MutationAccess.ConfirmedWrite <->
   name ∈ NAMED_SETTINGS /\ operation_listed m SET_PRINTER_ATTRIBUTES /\ settable m name /\
   exists value, shown m name value) /\
  (forall supported request plan value,
     plan_ipp_change_with_supported_values sha256 value_json m supported request = Ok plan ->
     req_setting request = name -> name ∈ NAMED_SETTINGS -> shown m name value ->
     announced (normalize_ipp origin m format) name MutationAccess.ConfirmedWrite).
Proof.
  split; [apply announced_write_spec|]. intros supported request plan value Hp <- Hn Hv.
  apply announced_write_spec. unfold plan_ipp_change_with_supported_values in Hp.
  destruct (_ <=? _); [done|]. inv_ok Hp.
  apply (proj1 (settable_current_spec sha256 _ _ _)) in Hx as (Ha & Hs & _).
  split_and!; [done|by apply advertised_listed|done|by exists value].
Qed.

(** ** Redaction *)

Lemma map_related {A B} (R : A -> A -> Prop) (f g : A -> B) l k :
  (forall a b, R a b -> f a = g b) -> Forall2 R l k -> map f l = map g k.
Proof. intros Hf. induction 1; cbn; [done|]. f_equal; auto. Qed.

Section Redaction.
Variable sha256 : list Z -> list Z.

#[local] Abbreviation prepare := (prepare_snapshot_output sha256).

(** Two identifiers that are absent together or have the same digest. *)
Definition same_digest (a b : option (list Z)) : Prop := sha256 <$> a = sha256 <$> b.

Lemma redact_same_digest a b : sha256 a = sha256 b -> redact_identifier sha256 a = redact_identifier sha256 b.
Proof. unfold redact_identifier. by intros ->. Qed.

Lemma redact_same_digest_option a b :
  same_digest a b -> redact_identifier sha256 <$> a = redact_identifier sha256 <$> b.
Proof.
  unfold same_digest. destruct a, b; cbn; [|done..]. intros E. injection E as E.
  f_equal. by apply redact_same_digest.
Qed.

(** What two snapshots must share for their redacted outputs to be the same:
    everything but the values of sensitive settings, the identifiers up to
    their digests, and, of the observations, what [R] does not relate. *)
Definition same_identity (a b : PrinterIdentity) : Prop :=
  identity_id a = identity_id b /\ same_digest (uuid a) (uuid b) /\
  same_digest (serial_number a) (serial_number b) /\ same_digest (device_id a) (device_id b) /\
  manufacturer a = manufacturer b /\ model a = model b.

Definition same_setting (a b : DeviceSetting) : Prop :=
  setting_id a = setting_id b /\ setting_sensitive a = setting_sensitive b /\
  setting_evidence a = setting_evidence b /\
  (setting_sensitive a = true \/ current_value a = current_value b).

Definition same_raw_value (a b : RawProtocolValue) : Prop :=
  raw_name a = raw_name b /\ raw_tag a = raw_tag b /\ raw_sensitive a = raw_sensitive b /\
  (raw_sensitive a = true \/ raw_value a = raw_value b).

Definition same_source (a b : ProtocolObservation) : Prop :=
  observation_source a = observation_source b /\ observation_evidence a = observation_evidence b.

Definition same_observation (bytes : bool) (a b : ProtocolObservation) : Prop :=
  same_source a b /\ Forall2 same_raw_value (observation_values a) (observation_values b) /\
  (bytes = true -> observation_bytes a = observation_bytes b).

Record same_public (R : ProtocolObservation -> ProtocolObservation -> Prop) (a b : DeviceSnapshot) : Prop := {
  sp_identity : same_identity (identity a) (identity b);
  sp_state : device_state a = device_state b;
  sp_supplies : supplies a = supplies b;
  sp_capabilities : job_capabilities a = job_capabilities b;
  sp_settings : Forall2 same_setting (device_settings a) (device_settings b);
  sp_mutations : mutation_support a = mutation_support b;
  sp_operations : operations a = operations b;
  sp_observations : Forall2 R (observations a) (observations b);
}.

Lemma redact_same_identity a b : same_identity a b -> redact_identity sha256 a = redact_identity sha256 b.
Proof.
  intros (Ei & Eu & Es & Ed & Em & Eo). unfold redact_identity.
  by rewrite Ei, Em, Eo, !(redact_same_digest_option _ _ Eu), (redact_same_digest_option _ _ Es),
    (redact_same_digest_option _ _ Ed).
Qed.

Lemma redact_same_setting a b : same_setting a b -> redact_setting a = redact_setting b.
Proof.
  intros (Ei & Es & Ee & Ev). unfold redact_setting. rewrite Ei, Es, Ee.
  destruct Ev as [Ev| ->]; [|done]. by rewrite <- Es, Ev.
Qed.

Lemma redact_same_raw_value a b : same_raw_value a b -> redact_raw_value a = redact_raw_value b.
Proof.
  intros (En & Et & Es & Ev). unfold redact_raw_value. rewrite En, Et, Es.
  destruct Ev as [Ev| ->]; [|done]. by rewrite <- Es, Ev.
Qed.

Lemma contains_sensitive_same bytes a b :
  same_public (same_observation bytes) a b -> contains_sensitive a = contains_sensitive b.
Proof.
  intros H. unfold contains_sensitive. destruct H as [_ _ _ _ _ _ _ H].
  induction H as [|x y l k (_ & Hv & _) _ IH]; [done|]. cbn. rewrite !existsb_app, IH. f_equal.
  induction Hv as [|v w vs ws (_ & _ & Es & _) _ IHv]; [done|]. cbn. by rewrite Es, IHv.
Qed.

Lemma redact_parts_eq R a b :
  same_public R a b ->
  redact_identity sha256 (identity a) = redact_identity sha256 (identity b) /\
  map redact_setting (device_settings a) = map redact_setting (device_settings b).
Proof.
  intros H. split; [apply redact_same_identity, H|]. eapply map_related; [apply redact_same_setting|apply H].
Qed.

Lemma contains_sensitive_redacted s : contains_sensitive (redact_sensitive_snapshot sha256 s) = contains_sensitive s.
Proof.
  unfold contains_sensitive. cbn. f_equal. induction (observations s) as [|o os IH]; cbn; [done|]. by rewrite IH.
Qed.

(** Redacted snapshots whose observations are made the same are the same. *)
Lemma redacted_eq R f g a b :
  let redact := map_observation_evidence (redact_endpoint sha256) in
  same_public R a b -> (forall x y, R x y -> f (redact x) = g (redact y)) ->
  with_observations f (redact_sensitive_snapshot sha256 a) = with_observations g (redact_sensitive_snapshot sha256 b).
Proof.
  intros redact H Hf. destruct (redact_parts_eq R a b H) as [Ei Es]. destruct H as [_ Est Esu Ec _ Em Eo Hobs].
  unfold with_observations, redact_sensitive_snapshot, map_evidence.
  cbn [identity device_state supplies job_capabilities device_settings mutation_support operations observations].
  rewrite Ei, Es, Est, Esu, Ec, Em, Eo, !List.map_map. f_equal. by eapply map_related.
Qed.

Definition redacting (mode : OutputMode) : Prop := mode = NormalizedRedacted \/ mode = LocalRawRedacted.

(** The relation on observations that the output of a mode depends on. *)
Definition observed_by (mode : OutputMode) (s : DeviceSnapshot) : ProtocolObservation -> ProtocolObservation -> Prop :=
  match mode with
  | NormalizedRedacted => same_source
  | _ => same_observation (negb (contains_sensitive s))
  end.

Lemma prepare_same mode authorization a b :
  redacting mode -> same_public (observed_by mode a) a b -> prepare a mode authorization = prepare b mode authorization.
Proof.
  intros [-> | ->] H; unfold prepare_snapshot_output; cbn [observed_by] in H.
  - rewrite (redacted_eq _ _ without_values a b H); [done|]. intros x y [Es Ee].
    unfold without_values, map_observation_evidence. cbn. by rewrite Es, Ee.
  - destruct (negb (raw_local authorization)); [done|]. rewrite !contains_sensitive_redacted.
    rewrite <- (contains_sensitive_same _ _ _ H).
    rewrite (redacted_eq _ _ (redact_observation (contains_sensitive a)) a b H); [done|].
    intros x y ([Es Ee] & Hv & Hb). unfold redact_observation, map_observation_evidence. cbn. rewrite Es, Ee.
    rewrite (map_related _ _ _ _ _ redact_same_raw_value Hv).
    destruct (contains_sensitive a); [done|]. by rewrite Hb.
Qed.
End Redaction.

(** ** Redaction of IPP responses *)

#[local] Abbreviation sensitive_name := is_sensitive_ipp_attribute.

(** Two attributes of which only the values differ, when the name is sensitive. *)
Definition same_public_attribute (a b : Attribute) : Prop :=
  a_name a = a_name b /\
  (a_values a = a_values b \/
   (sensitive_name (a_name a) = true /\ map v_tag (a_values a) = map v_tag (a_values b))).

Definition same_public_attributes : list Attribute -> list Attribute -> Prop := Forall2 same_public_attribute.

Lemma public_named a b name : same_public_attribute a b -> named name a = named name b.
Proof. intros [En _]. unfold named. by rewrite En. Qed.

Lemma public_find l k name :
  same_public_attributes l k ->
  option_Forall2 same_public_attribute (List.find (named name) l) (List.find (named name) k).
Proof.
  induction 1 as [|a b l k Hab H IH]; [constructor|]. cbn. rewrite <- (public_named a b) by done.
  destruct (named name a); [by constructor|exact IH].
Qed.

Lemma public_found_values l k name :
  same_public_attributes l k -> sensitive_name name = false ->
  a_values <$> List.find (named name) l = a_values <$> List.find (named name) k.
Proof.
  intros H Hn. pose proof (List.find_some (named name) l) as Hs. destruct (public_find l k name H) as [a b [_ Hv]|]; [|done].
  cbn. f_equal. destruct Hv as [Hv|[Hv _]]; [done|]. destruct (Hs a eq_refl) as [_ E].
  apply bool_decide_eq_true in E. congruence.
Qed.

Lemma public_values l k name :
  same_public_attributes l k -> sensitive_name name = false -> attribute_values l name = attribute_values k name.
Proof.
  intros H Hn. unfold attribute_values. induction H as [|a b l k Hab H IH]; [done|]. cbn.
  rewrite <- (public_named a b) by done. destruct (named name a) eqn:E; [|exact IH]. cbn. rewrite IH.
  destruct Hab as [_ [->|[Hs _]]]; [done|]. apply bool_decide_eq_true in E. congruence.
Qed.

Lemma public_first_value l k name :
  same_public_attributes l k -> sensitive_name name = false -> first_value l name = first_value k name.
Proof.
  intros H Hn. pose proof (public_found_values l k name H Hn) as E. unfold first_value.
  destruct (List.find _ l), (List.find _ k); cbn in E |- *; congruence.
Qed.

Lemma public_first_text l k name :
  same_public_attributes l k -> sensitive_name name = false -> first_text l name = first_text k name.
Proof. intros H Hn. unfold first_text. by rewrite (public_first_value l k). Qed.

Lemma public_settable l k :
  same_public_attributes l k -> valid_settable_attributes l = valid_settable_attributes k.
Proof.
  intros H. pose proof (public_found_values l k (str "printer-settable-attributes-supported") H eq_refl) as E.
  unfold valid_settable_attributes. destruct (List.find _ l), (List.find _ k); cbn in E |- *; congruence.
Qed.

(** The names that an entry of a snapshot reads are not sensitive. *)
Lemma job_names_public :
  Forall (fun base => sensitive_name (base ++ str "-default") = false /\ sensitive_name (base ++ str "-supported") = false)
    JOB_ATTRIBUTES.
Proof. repeat constructor. Qed.

Lemma setting_names_public : Forall (fun name => sensitive_name name = false) (NAMED_SETTINGS ++ OBSERVED_SETTINGS).
Proof. repeat constructor. Qed.

Lemma filter_map_ext {A B} (f g : A -> option B) l :
  Forall (fun a => f a = g a) l -> filter_map f l = filter_map g l.
Proof. unfold filter_map. induction 1 as [|a l E _ IH]; cbn; [done|]. by rewrite E, IH. Qed.

Section PublicEntries.
Context (origin : ObservationOrigin) (l k : list Attribute) (Hlk : same_public_attributes l k).

Lemma public_operation_values : operation_values l = operation_values k.
Proof. unfold operation_values. by rewrite (public_values l k) by done. Qed.

Lemma public_state : ipp_state l = ipp_state k.
Proof. unfold ipp_state. by rewrite (public_first_value l k), (public_values l k) by done. Qed.

Lemma public_supplies : ipp_supplies origin l = ipp_supplies origin k.
Proof. unfold ipp_supplies. by rewrite !(public_values l k) by done. Qed.

Lemma public_operations : ipp_operations origin l = ipp_operations origin k.
Proof. unfold ipp_operations. by rewrite public_operation_values. Qed.

Lemma public_capabilities format :
  filter_map (job_capability origin l format) JOB_ATTRIBUTES ++ media_ready origin l format =
  filter_map (job_capability origin k format) JOB_ATTRIBUTES ++ media_ready origin k format.
Proof.
  f_equal.
  - apply filter_map_ext. eapply Forall_impl; [|exact job_names_public]. intros base [Hd Hs].
    unfold job_capability. by rewrite (public_first_value l k), (public_values l k).
  - unfold media_ready. by rewrite (public_values l k).
Qed.

Lemma public_settings :
  filter_map (named_setting origin l) NAMED_SETTINGS ++ filter_map (observed_setting origin l) OBSERVED_SETTINGS =
  filter_map (named_setting origin k) NAMED_SETTINGS ++ filter_map (observed_setting origin k) OBSERVED_SETTINGS.
Proof.
  pose proof setting_names_public as H. apply Forall_app in H as [Hn Ho].
  f_equal; apply filter_map_ext; eapply Forall_impl; [|exact Hn| |exact Ho]; intros name Hp.
  - unfold named_setting, attribute_is_settable.
    by rewrite (public_first_value l k), public_operation_values, (public_settable l k).
  - unfold observed_setting. by rewrite (public_values l k).
Qed.
End PublicEntries.

Lemma Forall2_imap {A B C D} (R : A -> B -> Prop) (S : C -> D -> Prop) (f : nat -> A -> C) (g : nat -> B -> D) l k :
  (forall i a b, R a b -> S (f i a) (g i b)) -> Forall2 R l k -> Forall2 S (imap f l) (imap g k).
Proof.
  intros Hf H. revert f g Hf. induction H as [|a b l k Hab H IH]; intros f g Hf; cbn; [constructor|].
  constructor; [by apply Hf|]. apply IH. intros i. apply Hf.
Qed.

Lemma Forall2_map_diag {A B C} (R : B -> C -> Prop) (f : A -> B) (g : A -> C) l :
  (forall a, R (f a) (g a)) -> Forall2 R (map f l) (map g l).
Proof. intros H. induction l; cbn; constructor; auto. Qed.

(** The raw values of two attributes of which only sensitive values differ. *)
Lemma public_raw_values origin bytes bytes' i a b :
  same_public_attribute a b ->
  Forall2 same_raw_value (observation_values (attribute_observation origin bytes i a))
    (observation_values (attribute_observation origin bytes' i b)).
Proof.
  intros [En Hv]. cbn [attribute_observation observation_values]. rewrite <- En. destruct Hv as [<-|[Hs Ht]].
  - apply Forall2_map_diag. intros v. split_and!; [done..|by right].
  - rewrite Hs. revert Ht. generalize (a_values b) as vs. induction (a_values a) as [|v l IH]; intros [|w vs] [=]; cbn [map];
      constructor; [|by apply IH]. split_and!; cbn [raw_name raw_tag raw_sensitive]; [done|congruence|done|by left].
Qed.

Lemma public_observations origin m m' format (same_bytes : bool) :
  same_public_attributes (all_attributes m) (all_attributes m') ->
  (same_bytes = true -> original_bytes m = original_bytes m') ->
  Forall2 (same_observation same_bytes) (observations (normalize_ipp origin m format))
    (observations (normalize_ipp origin m' format)).
Proof.
  intros H Hb. eapply Forall2_imap; [|exact H]. intros i a b Hab. split; [|split].
  - destruct Hab as [En _]. unfold same_source. cbn. by rewrite En.
  - by apply public_raw_values.
  - intros E. cbn. by rewrite Hb.
Qed.

(** A value of a sensitive attribute is in the response. *)
Definition holds_sensitive (m : Message) : Prop :=
  exists a, a ∈ all_attributes m /\ sensitive_name (a_name a) = true /\ a_values a <> [].

Lemma contains_sensitive_ipp origin m format :
  holds_sensitive m -> contains_sensitive (normalize_ipp origin m format) = true.
Proof.
  intros (a & Hin & Hs & Hv). unfold contains_sensitive. apply existsb_exists.
  destruct (a_values a) as [|v vs] eqn:Ev; [done|]. apply list_elem_of_lookup in Hin as [i Hi].
  set (o := attribute_observation origin (original_bytes m) i a).
  exists {| raw_name := a_name a; raw_tag := Some (ValueTag.to_byte (v_tag v)); raw_value := scalar_wire_bytes v;
            raw_sensitive := sensitive_name (a_name a) |}. split; [|exact Hs].
  apply in_flat_map. exists o. split.
  - apply list_elem_of_In, list_elem_of_lookup. exists i. unfold normalize_ipp. cbn [observations].
    by rewrite list_lookup_imap, Hi.
  - unfold o. cbn. rewrite Ev. by left.
Qed.

(** C14: Redacted output tells nothing about sensitive attributes of an IPP
    response: two responses with the same attributes, except for the values of
    sensitive ones, give the same redacted output, raw or normalized, up to
    the digests of the three device identifiers. The raw output keeps the
    bytes of a response only when no value of it is sensitive. *)
Theorem redacted_ipp_output sha256 origin m m' format mode authorization :
  redacting mode ->
  same_public_attributes (all_attributes m) (all_attributes m') ->
  Forall (fun name => same_digest sha256 (first_text (all_attributes m) name) (first_text (all_attributes m') name))
    [str "printer-uuid"; str "printer-serial-number"; str "printer-device-id"] ->
  (mode = LocalRawRedacted -> original_bytes m = original_bytes m' \/ holds_sensitive m) ->
  prepare_snapshot_output sha256 (normalize_ipp origin m format) mode authorization =
  prepare_snapshot_output sha256 (normalize_ipp origin m' format) mode authorization.
Proof.
  intros Hmode H Hid Hb. apply prepare_same; [done|].
  rewrite !List.Forall_cons_iff in Hid. destruct Hid as (Hu & Hs & Hd & _).
  split; cbn [identity device_state supplies job_capabilities device_settings mutation_support operations normalize_ipp].
  - split_and!; [done|exact Hu|exact Hs|exact Hd|done|]. apply (public_first_text _ _ _ H). reflexivity.
  - by apply public_state.
  - by apply public_supplies.
  - by apply public_capabilities.
  - rewrite (public_settings origin _ _ H). apply Forall2_map_diag. intros s. split_and!; [done..|by right].
  - by rewrite (public_settings origin _ _ H).
  - by apply public_operations.
  - destruct Hmode as [-> | ->]; cbn [observed_by].
    + eapply List.Forall2_impl; [|by apply (public_observations origin m m' format false)]. by intros ? ? [? _].
    + apply (public_observations origin m m' format); [exact H|]. intros E.
      destruct (Hb eq_refl) as [?|Hc]; [done|]. by rewrite (contains_sensitive_ipp origin m format Hc) in E.
Qed.

(** ** Redaction of SNMP responses *)

Lemma Forall2_filter_map {A B} (R : A -> A -> Prop) (S : B -> B -> Prop) (f : A -> option B) l k :
  (forall a b, R a b -> option_Forall2 S (f a) (f b)) -> Forall2 R l k -> Forall2 S (filter_map f l) (filter_map f k).
Proof.
  intros Hf. unfold filter_map. induction 1 as [|a b l k Hab _ IH]; cbn; [constructor|].
  destruct (Hf a b Hab); [by constructor|exact IH].
Qed.

Lemma Forall2_fmap_1 {A B} (R : B -> B -> Prop) (f : A -> B) l k :
  Forall2 (fun a b => R (f a) (f b)) l k -> Forall2 R (map f l) (map f k).
Proof. induction 1; cbn; by constructor. Qed.

Section SnmpRedaction.
Variable value_json : ObjectValue.t -> list Z.
Variable registry : ObjectRegistry.
Variable origin : ObservationOrigin.

(** The registry declares the object sensitive. *)
Definition secret (oid : ObjectId) : Prop :=
  exists object, registry_get registry oid = Some object /\ sensitive object = true.

(** Two bindings of which only the value differs, when the object is sensitive:
    the kind of value, and whether it can be shown, is the same. *)
Definition same_public_binding (a b : VarBind) : Prop :=
  oid a = oid b /\
  (Snmp.value a = Snmp.value b \/
   (secret (oid a) /\ snmp_value_tag (Snmp.value a) = snmp_value_tag (Snmp.value b) /\
    (snmp_setting_value (Snmp.value a) = None <-> snmp_setting_value (Snmp.value b) = None))).

#[local] Abbreviation normalize := (normalize_snmp value_json registry origin).

Lemma public_binding_setting a b :
  same_public_binding a b ->
  option_Forall2 (fun p q => same_setting p.1 q.1 /\ p.2 = q.2)
    (binding_setting registry origin a) (binding_setting registry origin b).
Proof.
  intros [Eo Hv]. unfold binding_setting, observed_evidence. rewrite <- Eo.
  destruct (registry_get registry (oid a)) as [object|] eqn:Er; cbn; [|constructor].
  destruct Hv as [<-|((object' & Er' & Hs) & _ & Hn)].
  - destruct (snmp_setting_value _); cbn; constructor. split; [|done]. split_and!; [done..|by right].
  - assert (object' = object) as -> by congruence.
    destruct (snmp_setting_value (Snmp.value a)), (snmp_setting_value (Snmp.value b)); cbn;
      [|discriminate (proj2 Hn eq_refl)|discriminate (proj1 Hn eq_refl)|constructor].
    constructor. split; [|done]. split_and!; [done..|by left].
Qed.

Lemma public_binding_observation (bytes bytes' : option (list Z)) (same : bool) i a b :
  (same = true -> bytes = bytes') -> same_public_binding a b ->
  same_observation same (binding_observation value_json registry origin bytes i a)
    (binding_observation value_json registry origin bytes' i b).
Proof.
  intros Hb [Eo Hv]. unfold same_observation, same_source, binding_observation, observed_evidence. cbn. rewrite <- Eo.
  split_and!; [done..| |intros E; by rewrite Hb].
  constructor; [|constructor]. split_and!; cbn; [done| |done|].
  - destruct Hv as [->|(_ & -> & _)]; done.
  - destruct Hv as [->|((object & -> & Hs) & _)]; [by right|by left].
Qed.

Definition holds_secret (r : Response) : Prop := exists b, b ∈ varbinds r /\ secret (oid b).

Lemma contains_sensitive_snmp r : holds_secret r -> contains_sensitive (normalize r) = true.
Proof.
  intros (b & Hin & object & Er & Hs). unfold contains_sensitive. apply existsb_exists.
  apply list_elem_of_lookup in Hin as [i Hi].
  set (o := binding_observation value_json registry origin (sanitized_bytes (evidence r)) i b).
  assert (exists v, observation_values o = [v] /\ raw_sensitive v = true) as (v & Ev & Hv).
  { eexists. split; [reflexivity|]. cbn. by rewrite Er. }
  exists v. split; [|exact Hv]. apply in_flat_map. exists o. rewrite Ev. split; [|by left].
  apply list_elem_of_In, list_elem_of_lookup. exists i. cbn [normalize_snmp observations].
  by rewrite list_lookup_imap, Hi.
Qed.

(** Redacted output tells nothing about the values of SNMP objects that the
    registry declares sensitive: two responses that differ only in such
    values, of the same kind, give the same redacted output, raw or
    normalized. The raw output keeps the bytes of a response only when it has
    no sensitive object. *)
Theorem redacted_snmp_output sha256 r r' mode authorization :
  redacting mode ->
  Forall2 same_public_binding (varbinds r) (varbinds r') ->
  (mode = LocalRawRedacted ->
   sanitized_bytes (evidence r) = sanitized_bytes (evidence r') \/ holds_secret r) ->
  prepare_snapshot_output sha256 (normalize r) mode authorization =
  prepare_snapshot_output sha256 (normalize r') mode authorization.
Proof.
  intros Hmode H Hb. apply prepare_same; [done|].
  pose proof (Forall2_filter_map _ _ _ _ _ public_binding_setting H) as Hs.
  split; try done; cbn [device_settings mutation_support observations normalize_snmp].
  - apply Forall2_fmap_1. eapply List.Forall2_impl; [|exact Hs]. by intros ? ? [? _].
  - eapply map_related; [|exact Hs]. by intros ? ? [_ ?].
  - assert (forall same : bool, (same = true -> sanitized_bytes (evidence r) = sanitized_bytes (evidence r')) ->
      Forall2 (same_observation same) (observations (normalize r)) (observations (normalize r'))) as Ho.
    { intros same Hsame. eapply Forall2_imap; [|exact H]. intros i a b. by apply public_binding_observation. }
    destruct Hmode as [-> | ->]; cbn [observed_by].
    + eapply List.Forall2_impl; [|by apply (Ho false)]. by intros ? ? [? _].
    + apply Ho. intros E. destruct (Hb eq_refl) as [?|Hc]; [done|]. by rewrite (contains_sensitive_snmp r Hc) in E.
Qed.
End SnmpRedaction.

(** ** Witnesses *)

Definition example_origin : ObservationOrigin := {|
  o_agent_id := None; o_printer_id := str "p1"; o_endpoint := str "ipp://10.0.0.7"; o_endpoint_generation := 1;
  o_transport := TransportIpp; o_protocol := FamilyIpp; o_request_id := str "r1"; o_probe_id := None;
  o_observed_at := str "2026-01-01"; o_qualification := None;
|}.

(** A response with a name and the name of a wireless network. *)
Definition example_response (network : string) : Message := {|
  version := V2_0; code := 0; request_id := 1;
  groups := [{| g_tag := PRINTER_ATTRIBUTES_TAG;
    g_attributes := [Attribute_new (str "printer-name") (Value_raw ValueTag.NameWithoutLanguage (str "Lab"));
                     Attribute_new (str "printer-wifi-ssid") (Value_raw ValueTag.TextWithoutLanguage (str network))] |}];
  original_bytes := str network;
|}.

Lemma redacted_ipp_output_witness :
  let sha256 := take 2 : list Z -> list Z in
  let snapshot network := normalize_ipp example_origin (example_response network) None in
  let authorization := {| raw_local := true; sensitive_values := false; cloud_raw := false |} in
  snapshot "home"%string <> snapshot "office"%string /\
  prepare_snapshot_output sha256 (snapshot "home"%string) LocalRawRedacted authorization =
  prepare_snapshot_output sha256 (snapshot "office"%string) LocalRawRedacted authorization.
Proof.
  split.
  - intros E. apply (f_equal observations) in E. vm_compute in E. discriminate E.
  - apply redacted_ipp_output.
    + by right.
    + constructor; [|constructor; [|constructor]]; (split; [reflexivity|]).
      * by left.
      * right. split; reflexivity.
    + repeat constructor.
    + intros _. right. exists (Attribute_new (str "printer-wifi-ssid") (Value_raw ValueTag.TextWithoutLanguage (str "home"))).
      split_and!; [|reflexivity|discriminate]. right. left.
Defined.

(** A registry in which one object is a password. *)
Definition example_registry : ObjectRegistry := {|
  objects := {[ [1; 3; 9] := {| r_oid := [1; 3; 9]; semantic_id := str "admin-password"; sensitive := true |} ]};
  definitions := ∅;
|}.

Definition example_snmp_response (password : string) : Response := {|
  Snmp.request_id := 1; error_status := 0; error_index := 0;
  varbinds := [{| oid := [1; 3; 9]; Snmp.value := ObjectValue.Bytes (str password) |}];
  evidence := {| credential_elided_hash := []; original_length := 0; sanitized_bytes := Some (str password) |};
|}.

Lemma redacted_snmp_output_witness :
  let value_json := fun v : ObjectValue.t => match v with ObjectValue.Bytes bytes => bytes | _ => [] end in
  let snapshot password :=
    normalize_snmp value_json example_registry example_origin (example_snmp_response password) in
  let authorization := {| raw_local := true; sensitive_values := false; cloud_raw := false |} in
  snapshot "secret"%string <> snapshot "hunter2"%string /\
  prepare_snapshot_output (take 2) (snapshot "secret"%string) LocalRawRedacted authorization =
  prepare_snapshot_output (take 2) (snapshot "hunter2"%string) LocalRawRedacted authorization.
Proof.
  assert (secret example_registry [1; 3; 9]) as Hs by (eexists; split; reflexivity).
  split.
  - intros E. apply (f_equal observations) in E. vm_compute in E. discriminate E.
  - apply redacted_snmp_output.
    + by right.
    + constructor; [|constructor]. split; [reflexivity|]. right. split_and!; [exact Hs|reflexivity|].
      split; intros E; vm_compute in E; discriminate E.
    + intros _. right. eexists. split; [left|]. exact Hs.
Defined.

(** ** Limits of the promises *)

(** An operation listed as an integer counts for discovery and not for
    administration: the announced write is refused when it is planned. *)
Example announced_write_refused :
  let m := {|
    version := V2_0; code := 0; request_id := 1;
    groups := [{| g_tag := PRINTER_ATTRIBUTES_TAG;
      g_attributes := [
        Attribute_new (str "operations-supported") (Value_integer SET_PRINTER_ATTRIBUTES);
        Attribute_new (str "printer-settable-attributes-supported") (Value_raw ValueTag.Keyword (str "printer-info"));
        Attribute_new (str "printer-info") (Value_raw ValueTag.TextWithoutLanguage (str "Desk"))] |}];
    original_bytes := [] |} in
  announced (normalize_ipp example_origin m None) (str "printer-info") MutationAccess.ConfirmedWrite /\
  settable_current m (str "printer-info") = Err ChangePlanError.OperationNotAdvertised.
Proof.
  split; [|reflexivity].
  exists (setting_entries example_origin (str "printer-info") (SettingValue.Text (str "Desk")) MutationAccess.ConfirmedWrite).2.
  split_and!; [|reflexivity|reflexivity]. vm_compute. left.
Qed.

(** A password in a member of a collection whose own name is not sensitive:
    redacted raw output keeps the bytes of the response. *)
Example nested_password_kept :
  let m := {|
    version := V2_0; code := 0; request_id := 1;
    groups := [{| g_tag := PRINTER_ATTRIBUTES_TAG;
      g_attributes := [Attribute_new (str "printer-settings-col")
        (Value_collection [mk_Member (str "admin-password") [Value_raw ValueTag.TextWithoutLanguage (str "secret")]])] |}];
    original_bytes := str "...secret..." |} in
  exists prepared,
    prepare_snapshot_output (take 2) (normalize_ipp example_origin m None) LocalRawRedacted
      {| raw_local := true; sensitive_values := false; cloud_raw := false |} = Ok prepared /\
    map observation_bytes (observations (prepared_snapshot prepared)) = [Some (str "...secret...")].
Proof. eexists. split; reflexivity. Qed.
