(* ===== verification/Template.v ===== *)
(** Templates of label texts (crates/mb-printer-core/src/template.rs):
    [{{field | transform | ...}}] expressions over the fields of a record, with
    text transforms, dates and decimal numbers. Strings are their UTF-8 bytes.
    The case mapping of characters beyond ASCII, a table of the Rust standard
    library, is a parameter. *)

From stdpp Require Import base gmap sets list strings numbers option.
From S2P Require Import Prelude Text.

#[local] Open Scope Z_scope.

Module TemplateError.
Inductive t :=
| Unclosed
| Field (name : list Z)
| Transform (name : list Z)
| Limit
| Value (value : list Z).

#[global] Instance eq_dec : EqDecision t.
Proof. solve_decision. Defined.
End TemplateError.

#[local] Abbreviation Res := (Result TemplateError.t).

Record Context := {
  fields : gmap (list Z) (list Z);
  locale : list Z;
  current_date : list Z;
}.

(** ** Strings *)

Definition BAR : Z := 124.
Definition COLON : Z := 58.
Definition QUOTATION : Z := 34.
Definition COMMA : Z := 44.
Definition DASH : Z := 45.
Definition PERCENT : Z := 37.

(** What is before and after the first occurrence of a string, for the slices
    around [str::find]. *)
Fixpoint split_str (needle s : list Z) : option (list Z * list Z) :=
  if starts_with needle s then Some ([], drop (length needle) s)
  else
    match s with
    | [] => None
    | b :: s => ' (l, r) ← split_str needle s; Some (b :: l, r)
    end.

(** [str::replace] of a character by another one. *)
Definition replace_char (from to : Z) (s : list Z) : list Z := map (fun b => if b =? from then to else b) s.

(** [str::splitn(n, c)] *)
Fixpoint splitn (n : nat) (c : Z) (s : list Z) : list (list Z) :=
  match n with
  | O => []
  | S O => [s]
  | S n => match split_once c s with Some (l, r) => l :: splitn n c r | None => [s] end
  end.

(** [to_string] of a [u128]. *)
Definition u128_max : Z := 2 ^ 128 - 1.
Definition show_u128 (n : Z) : list Z := dec_digits 39 n [].

(** ** Numbers *)

(** [digit += 1] from the last digit on, over the reversed digits; the flag is
    the carry out of the first one. *)
Fixpoint increment_digits (rev_digits : list Z) : list Z * bool :=
  match rev_digits with
  | [] => ([], true)
  | digit :: rest =>
      if digit <? 9 then (digit + 1 :: rest, false)
      else let '(rest, carry) := increment_digits rest in (0 :: rest, carry)
  end.

(** [Vec::resize(n, 0)] *)
Definition resize (n : nat) (l : list Z) : list Z := take n l ++ replicate (n - length l) 0.

(** The sign and the two sides of the point. *)
Definition decimal_parts (normalized : list Z) : bool * (list Z * list Z) :=
  let '(negative, unsigned) :=
    match strip_prefix normalized [DASH] with Some v => (true, v) | None => (false, normalized) end in
  (negative, match split_once DOT unsigned with Some p => p | None => (unsigned, []) end).

Definition format_decimal (value : list Z) (decimals : nat) : Res (list Z) :=
  let '(negative, (whole, fraction)) := decimal_parts (replace_char COMMA DOT (trim value)) in
  if bool_decide (whole = []) || negb (forallb is_ascii_digit whole) || negb (forallb is_ascii_digit fraction)
  then Err (TemplateError.Value value)
  else
    let? whole := ok_or (parse_unsigned u128_max whole) (TemplateError.Value value) in
    let kept := resize decimals (map (fun b => b - 48) (take decimals fraction)) in
    let? ' (whole, kept) :=
      (if match fraction !! decimals with Some digit => 53 <=? digit | None => false end then
         let '(rev_kept, carry) := increment_digits (reverse kept) in
         let? whole :=
           (if carry : bool then ok_or (checked u128_max (whole + 1)) (TemplateError.Value value) else Ok whole) in
         Ok (whole, reverse rev_kept)
       else Ok (whole, kept)) in
    let sign :=
      if negative && (negb (whole =? 0) || existsb (fun v => negb (v =? 0)) kept) then [DASH] else [] in
    if Nat.eqb decimals 0 then Ok (sign ++ show_u128 whole)
    else Ok (sign ++ show_u128 whole ++ DOT :: map (fun v => 48 + v) kept).

(** ** Dates *)

Definition is_leap (year : Z) : bool :=
  (year mod 4 =? 0) && (negb (year mod 100 =? 0) || (year mod 400 =? 0)).

Definition days_in_month (year month : Z) : Z :=
  match month with
  | 1 | 3 | 5 | 7 | 8 | 10 | 12 => 31
  | 4 | 6 | 9 | 11 => 30
  | 2 => if is_leap year then 29 else 28
  | _ => 0
  end.

(** The loop over the pattern. *)
Fixpoint expand_pattern (pattern y m d : list Z) : option (list Z) :=
  match pattern with
  | [] => Some []
  | c :: rest =>
      if c =? PERCENT then
        match rest with
        | 89 :: rest => (fun out => y ++ out) <$> expand_pattern rest y m d
        | 109 :: rest => (fun out => m ++ out) <$> expand_pattern rest y m d
        | 100 :: rest => (fun out => d ++ out) <$> expand_pattern rest y m d
        | 37 :: rest => cons PERCENT <$> expand_pattern rest y m d
        | _ => None
        end
      else cons c <$> expand_pattern rest y m d
  end.

Definition format_date (value pattern : list Z) : Res (list Z) :=
  match split DASH value with
  | [y; m; d] =>
      if negb (zlen y =? 4) || negb (zlen m =? 2) || negb (zlen d =? 2) then Err (TemplateError.Value value)
      else
        let? year := ok_or (parse_unsigned u32_max y) (TemplateError.Value value) in
        let? month := ok_or (parse_unsigned u32_max m) (TemplateError.Value value) in
        let? day := ok_or (parse_unsigned u32_max d) (TemplateError.Value value) in
        if (day =? 0) || (days_in_month year month <? day) then Err (TemplateError.Value value)
        else ok_or (expand_pattern pattern y m d) (TemplateError.Transform pattern)
  | _ => Err (TemplateError.Value value)
  end.

(** ** Transforms *)

Section Templates.
(** [str::to_uppercase] and [str::to_lowercase] of strings that are not ASCII. *)
Variables unicode_uppercase unicode_lowercase : list Z -> list Z.

Definition is_ascii (b : Z) : bool := b <? 128.

Definition to_uppercase (s : list Z) : list Z :=
  if forallb is_ascii s then map to_ascii_uppercase s else unicode_uppercase s.
Definition to_lowercase (s : list Z) : list Z :=
  if forallb is_ascii s then map to_ascii_lowercase s else unicode_lowercase s.

(** The number of decimals of [number:] and [decimals:]. *)
Definition parse_decimals (f digits : list Z) : Res nat :=
  let? n := ok_or (parse_unsigned u8_max digits) (TemplateError.Value f) in
  Ok (Z.to_nat (Z.min n 9)).

(** Trailing zeros and a bare point removed, and no negative zero. *)
Definition shorten (out : list Z) : list Z :=
  let out := if bool_decide (DOT ∈ out) then trim_end_matches DOT (trim_end_matches 48 out) else out in
  if bool_decide (out = str "-0") then str "0" else out.

Definition localized (context : Context) (out : list Z) : list Z :=
  if starts_with (str "fr") (locale context) then replace_char DOT COMMA out else out.

Definition transform (f v : list Z) (context : Context) : Res (list Z) :=
  let called name := bool_decide (f = str name) in
  let argument name := strip_prefix f (str name) in
  if called "upper"%string then Ok (to_uppercase v)
  else if called "lower"%string then Ok (to_lowercase v)
  else if called "trim"%string then Ok (trim v)
  else if called "ascii"%string then Ok (List.filter is_ascii v)
  else match argument "default:"%string with
  | Some text => if bool_decide (v = []) then Ok (trim_matches QUOTATION text) else Ok v
  | None =>
  match argument "prefix:"%string with
  | Some text => Ok (trim_matches QUOTATION text ++ v)
  | None =>
  match argument "suffix:"%string with
  | Some text => Ok (v ++ trim_matches QUOTATION text)
  | None =>
  match argument "number:"%string with
  | Some digits =>
      let? decimals := parse_decimals f digits in
      let? out := format_decimal v decimals in
      Ok (localized context out)
  | None =>
  match argument "decimals:"%string with
  | Some digits =>
      let? decimals := parse_decimals f digits in
      let? out := format_decimal v decimals in
      Ok (localized context (shorten out))
  | None =>
  match argument "if-empty:"%string with
  | Some text =>
      match splitn 2 COLON text with
      | [empty; other] => Ok (if bool_decide (v = []) then empty else other)
      | _ => Err (TemplateError.Transform f)
      end
  | None =>
  match argument "if-eq:"%string with
  | Some text =>
      match splitn 3 COLON text with
      | [expected; equal; other] => Ok (if bool_decide (v = expected) then equal else other)
      | _ => Err (TemplateError.Transform f)
      end
  | None =>
  match argument "date:"%string with
  | Some pattern => format_date v pattern
  | None => Err (TemplateError.Transform f)
  end end end end end end end end.

(** ** Evaluation *)

Definition MAXIMUM : Z := 1000000.

Definition OPEN : list Z := str "{{".
Definition CLOSE : list Z := str "}}".

(** The parts of an expression. *)
Definition expression_parts (expression : list Z) : list (list Z) := map trim (split BAR expression).

Definition provides_default (part : list Z) : bool :=
  starts_with (str "default:") part || starts_with (str "if-empty:") part.

(** The value of the field that an expression names. *)
Definition field_value (context : Context) (name : list Z) (transforms : list (list Z)) : Res (list Z) :=
  if bool_decide (name = str "@date") then Ok (current_date context)
  else
    match fields context !! name with
    | Some value => Ok value
    | None => if existsb provides_default transforms then Ok [] else Err (TemplateError.Field name)
    end.

Definition expression_value (context : Context) (expression : list Z) : Res (list Z) :=
  match expression_parts expression with
  | [] => Ok []
  | name :: transforms =>
      let? value := field_value context name transforms in
      for_each (fun f value => transform f value context) transforms value
  end.

(** The loop over the expressions of a template. *)
Fixpoint evaluate_loop (fuel : nat) (context : Context) (out rest : list Z) : Result (Fault TemplateError.t) (list Z) :=
  match split_str OPEN rest with
  | None => Ok (out ++ rest)
  | Some (before, after) =>
      match fuel with
      | O => Err Panicked
      | S fuel =>
          let out := out ++ before in
          let? ' (expression, rest) := raising (ok_or (split_str CLOSE after) TemplateError.Unclosed) in
          let? value := raising (expression_value context expression) in
          let out := out ++ value in
          if MAXIMUM <? zlen out then fail TemplateError.Limit
          else evaluate_loop fuel context out rest
      end
  end.

Definition evaluate_with_context (input : list Z) (context : Context) : Result (Fault TemplateError.t) (list Z) :=
  if MAXIMUM <? zlen input then fail TemplateError.Limit
  else evaluate_loop (length input) context [] input.

Definition evaluate (input : list Z) (fields : gmap (list Z) (list Z)) : Result (Fault TemplateError.t) (list Z) :=
  evaluate_with_context input {| fields := fields; locale := str "en"; current_date := str "1970-01-01" |}.
End Templates.
