(* ===== verification/TemplateFacts.v ===== *)
(** Properties of templates (Template.v): decimal numbers are rounded exactly,
    half away from zero; dates are calendar dates; a template is evaluated
    exactly when it is a sequence of texts and expressions, each of which has
    a value, and evaluation always ends. *)

From stdpp Require Import base gmap sets list strings numbers option.
From S2P Require Import Prelude Text Template.

#[local] Open Scope Z_scope.

(** ** Digits *)

(** The value of a list of digits, and the list of a given length with a value. *)
Definition num (l : list Z) : Z := fold_left (fun acc d => acc * 10 + d) l 0.

Fixpoint fixed_digits (n : nat) (v : Z) : list Z :=
  match n with
  | O => []
  | S n => fixed_digits n (v / 10) ++ [v mod 10]
  end.

Definition is_digit (d : Z) : Prop := 0 <= d < 10.
Definition digits_of (s : list Z) : list Z := map (fun b => b - 48) s.

Lemma num_snoc l d : num (l ++ [d]) = num l * 10 + d.
Proof. unfold num. by rewrite fold_left_app. Qed.

Lemma pow10_succ n : 10 ^ Z.of_nat (S n) = 10 * 10 ^ Z.of_nat n.
Proof. rewrite Nat2Z.inj_succ, Z.pow_succ_r; lia. Qed.

Lemma pow10_pos n : 0 < 10 ^ Z.of_nat n.
Proof. lia. Qed.

Lemma num_app l k : num (l ++ k) = num l * 10 ^ zlen k + num k.
Proof.
  induction k as [|d k IH] using rev_ind; [rewrite app_nil_r; unfold zlen, num; cbn; lia|].
  rewrite app_assoc, !num_snoc, IH, zlen_app. change (zlen [d]) with 1.
  rewrite Z.pow_add_r by (unfold zlen; lia). ring.
Qed.

Lemma num_bound l : Forall is_digit l -> 0 <= num l < 10 ^ zlen l.
Proof.
  induction l as [|d l IH] using rev_ind; [unfold num, zlen; cbn; lia|].
  rewrite Forall_app, Forall_singleton, num_snoc, zlen_app. intros [Hl Hd].
  change (zlen [d]) with 1. rewrite Z.pow_add_r by (unfold zlen; lia). specialize (IH Hl). unfold is_digit in Hd. lia.
Qed.

Lemma num_replicate n : num (replicate n 0) = 0.
Proof. induction n as [|n IH]; [done|]. by rewrite replicate_S_end, num_snoc, IH. Qed.

Lemma fixed_digits_num l : Forall is_digit l -> fixed_digits (length l) (num l) = l.
Proof.
  induction l as [|d l IH] using rev_ind; [done|].
  rewrite Forall_app, Forall_singleton, length_app, num_snoc. intros [Hl Hd]. unfold is_digit in Hd.
  replace (length l + length [d])%nat with (S (length l)) by (cbn; lia). cbn [fixed_digits].
  rewrite Z.div_add_l, Z.div_small, Z.add_0_r by lia.
  rewrite Z.add_comm, Z.mod_add, Z.mod_small, IH by (done || lia). done.
Qed.

Lemma digits_of_ok s : forallb is_ascii_digit s = true -> Forall is_digit (digits_of s).
Proof.
  rewrite forallb_forall. intros H. apply Forall_map, List.Forall_forall. intros b Hb. apply H in Hb.
  unfold is_ascii_digit in Hb. unfold is_digit. lia.
Qed.

Lemma num_nonzero l : Forall is_digit l -> existsb (fun v => negb (v =? 0)) l = negb (num l =? 0).
Proof.
  induction l as [|d l IH] using rev_ind; [done|].
  rewrite Forall_app, Forall_singleton, num_snoc, existsb_app. intros [Hl Hd].
  rewrite IH by done. cbn. pose proof (num_bound l Hl). unfold is_digit in Hd.
  destruct (Z.eqb_spec (num l) 0), (Z.eqb_spec d 0), (Z.eqb_spec (num l * 10 + d) 0); cbn; lia.
Qed.

(** Parsing digits is their value, when it fits. *)
Lemma parse_digits_num max acc s :
  forallb is_ascii_digit s = true -> 0 <= acc <= max ->
  parse_digits max acc s = checked max (acc * 10 ^ zlen s + num (digits_of s)).
Proof.
  revert acc. induction s as [|b s IH]; intros acc Hs Hacc.
  { cbn. unfold zlen, num. cbn. rewrite Z.mul_1_r, Z.add_0_r. symmetry. by apply checked_id. }
  pose proof (digits_of_ok (b :: s) Hs) as Hd. cbn [forallb] in Hs. apply andb_true_iff in Hs as [Hb Hs].
  cbn [parse_digits]. rewrite Hb. cbn [digits_of map] in Hd |- *. fold (digits_of s) in *.
  pose proof Hd as Hd'. inversion_clear Hd' as [|? ? Hb' Hs']. unfold is_digit in Hb'.
  change (b - 48 :: digits_of s) with ([b - 48] ++ digits_of s). rewrite num_app, zlen_cons.
  assert (zlen (digits_of s) = zlen s) as -> by (unfold zlen, digits_of; by rewrite length_map).
  pose proof (num_bound _ Hs') as Hn. unfold zlen in *.
  rewrite Z.pow_add_r, Z.pow_1_r by lia. pose proof (pow10_pos (length s)).
  replace (acc * (10 * 10 ^ Z.of_nat (length s)) + (num [b - 48] * 10 ^ Z.of_nat (length s) + num (digits_of s)))
    with ((acc * 10 + (b - 48)) * 10 ^ Z.of_nat (length s) + num (digits_of s)) by (unfold num at 2; cbn; ring).
  destruct (decide (acc * 10 + (b - 48) <= max)).
  - rewrite checked_id by (unfold in_u; lia). cbn. apply IH; [done|lia].
  - unfold checked, in_ub. rewrite !(proj2 (Z.leb_gt _ max)), !andb_false_r by nia. done.
Qed.

Lemma parse_unsigned_num max s :
  s <> [] -> forallb is_ascii_digit s = true -> 0 <= max -> parse_unsigned max s = checked max (num (digits_of s)).
Proof.
  intros Hne Hs Hmax. assert (parse_digits max 0 s = checked max (num (digits_of s))) as <-.
  { rewrite parse_digits_num by (done || lia). f_equal. }
  destruct s as [|b s]; [done|]. cbn [forallb] in Hs. apply andb_true_iff in Hs as [Hb _].
  assert (b <> 43) by (intros ->; done). unfold parse_unsigned.
  destruct b as [|b|b]; try done. repeat (destruct b as [b|b|]; try done).
Qed.

(** ** Rounding *)

(** Increasing the last of some digits, with the carry out of them. *)
Lemma increment_digits_spec l l' carry :
  Forall is_digit l -> increment_digits l = (l', carry) ->
  length l' = length l /\ Forall is_digit l' /\
  num (reverse l') + (if carry then 10 ^ zlen l else 0) = num (reverse l) + 1.
Proof.
  intros Hl. revert l' carry. induction Hl as [|d l Hd Hl IH]; intros l' carry; cbn [increment_digits].
  - intros [= <- <-]. done.
  - unfold is_digit in Hd. destruct (Z.ltb_spec d 9).
    + intros [= <- <-]. split; [done|]. split; [constructor; [unfold is_digit; lia|done]|].
      rewrite !reverse_cons, !num_snoc. cbn. lia.
    + destruct (increment_digits l) as [k c] eqn:E. intros [= <- <-].
      destruct (IH k c eq_refl) as (Hlen & Hk & Hn). split; [cbn; lia|]. split; [constructor; [unfold is_digit; lia|done]|].
      rewrite !reverse_cons, !num_snoc, zlen_cons, Z.pow_add_r by (unfold zlen; lia).
        assert (d = 9) as -> by lia. rewrite Z.pow_1_r in *. destruct c; lia.
Qed.

(** [n / 10^s] with [d] decimals, half away from zero. *)
Definition round_decimal (n : Z) (s d : nat) : Z :=
  (2 * n * 10 ^ Z.of_nat d + 10 ^ Z.of_nat s) / (2 * 10 ^ Z.of_nat s).

(** Too few decimals are padded. *)
Lemma round_decimal_pad n s d :
  (s <= d)%nat -> round_decimal n s d = n * 10 ^ Z.of_nat (d - s).
Proof.
  intros H. unfold round_decimal. pose proof (pow10_pos s). pose proof (pow10_pos (d - s)).
  replace (10 ^ Z.of_nat d) with (10 ^ Z.of_nat (d - s) * 10 ^ Z.of_nat s)
    by (rewrite <- Z.pow_add_r by lia; f_equal; lia).
  symmetry. apply (Z.div_unique_pos _ _ _ (10 ^ Z.of_nat s)); [lia|ring].
Qed.

(** Of too many, the first digit that is dropped decides. *)
Lemma round_decimal_cut a digit r d k :
  0 <= digit < 10 -> 0 <= r < 10 ^ Z.of_nat k ->
  round_decimal ((a * 10 + digit) * 10 ^ Z.of_nat k + r) (d + S k) d = a + if 5 <=? digit then 1 else 0.
Proof.
  intros Hd Hr. unfold round_decimal. pose proof (pow10_pos k). pose proof (pow10_pos d).
  rewrite Nat2Z.inj_add, Z.pow_add_r, pow10_succ by lia.
  set (p := 10 ^ Z.of_nat k) in *. set (q := 10 ^ Z.of_nat d) in *. symmetry.
  assert (0 <= digit * p <= 9 * p) as Hp by nia.
  destruct (Z.leb_spec 5 digit).
  - assert (5 * p <= digit * p) by nia.
    apply (Z.div_unique_pos _ _ _ (q * (2 * (digit * p) + 2 * r - 10 * p))); [|ring].
    split; [apply Z.mul_nonneg_nonneg; lia|]. replace (2 * (q * (10 * p))) with (q * (20 * p)) by ring.
    apply Zmult_lt_compat_l; lia.
  - assert (digit * p <= 4 * p) by nia.
    apply (Z.div_unique_pos _ _ _ (q * (2 * (digit * p) + 2 * r + 10 * p))); [|ring].
    split; [apply Z.mul_nonneg_nonneg; lia|]. replace (2 * (q * (10 * p))) with (q * (20 * p)) by ring.
    apply Zmult_lt_compat_l; lia.
Qed.

Lemma num_resize d l :
  num (resize d l) = num (take d l) * 10 ^ Z.of_nat (d - length l).
Proof.
  unfold resize. rewrite num_app, num_replicate. unfold zlen. rewrite length_replicate. lia.
Qed.

Lemma resize_digits d l : Forall is_digit l -> Forall is_digit (resize d l) /\ length (resize d l) = d.
Proof.
  intros H. unfold resize. split.
  - apply Forall_app. split; [by apply Forall_take|]. apply Forall_replicate. unfold is_digit. lia.
  - rewrite length_app, length_take, length_replicate. lia.
Qed.

(** What the code keeps of a number and its carry is its rounded value. *)
Lemma kept_rounded whole fraction d :
  forallb is_ascii_digit fraction = true ->
  round_decimal (whole * 10 ^ zlen fraction + num (digits_of fraction)) (length fraction) d =
  whole * 10 ^ Z.of_nat d + num (resize d (digits_of (take d fraction))) +
  (match fraction !! d with Some digit => if 53 <=? digit then 1 else 0 | None => 0 end).
Proof.
  intros Hf. pose proof (digits_of_ok fraction Hf) as Hd. unfold zlen. rewrite num_resize.
  assert (length (digits_of (take d fraction)) = Nat.min d (length fraction)) as Hlen.
  { unfold digits_of. by rewrite length_map, length_take. }
  rewrite take_ge by lia. rewrite Hlen. destruct (decide (length fraction <= d)%nat) as [Hle|Hgt].
  - rewrite round_decimal_pad, lookup_ge_None_2, take_ge by done. rewrite Nat.min_r by done.
    rewrite Z.mul_add_distr_r, <- Z.mul_assoc, <- Z.pow_add_r by lia.
    replace (Z.of_nat (length fraction) + Z.of_nat (d - length fraction)) with (Z.of_nat d) by lia. lia.
  - destruct (fraction !! d) as [digit|] eqn:E; [|apply lookup_ge_None_1 in E; lia].
    pose proof (take_drop_middle fraction d digit E) as Ef.
    set (k := (length fraction - S d)%nat). assert (length fraction = d + S k)%nat as Hl by lia.
    assert (digits_of fraction = digits_of (take d fraction) ++ [digit - 48] ++ digits_of (drop (S d) fraction)) as Es.
    { rewrite <- Ef at 1. unfold digits_of. by rewrite map_app. }
    rewrite Es in Hd |- *. apply Forall_app in Hd as [Ha Hd]. apply Forall_app in Hd as [Hdig Hr].
    inversion_clear Hdig as [|? ? Hdg _]. apply num_bound in Hr.
    assert (zlen (digits_of (drop (S d) fraction)) = Z.of_nat k) as Hk.
    { unfold zlen, digits_of. rewrite length_map, length_drop. done. }
    rewrite Hk in Hr. rewrite !num_app, zlen_app, Hk, Hl. change (zlen [digit - 48]) with 1.
    replace (num [digit - 48]) with (digit - 48) by (unfold num; cbn; lia).
    rewrite Nat.min_l, Nat.sub_diag, Nat2Z.inj_add, Nat2Z.inj_succ by lia.
    rewrite <- Z.add_1_l, !Z.pow_add_r by lia. change (10 ^ 1) with 10.
    transitivity (whole * 10 ^ Z.of_nat d + num (digits_of (take d fraction)) + if 5 <=? digit - 48 then 1 else 0).
    + rewrite <- (round_decimal_cut _ (digit - 48) _ d k Hdg Hr). f_equal. ring.
    + replace (53 <=? digit) with (5 <=? digit - 48); [change (10 ^ Z.of_nat 0) with 1; ring|].
      destruct (Z.leb_spec 5 (digit - 48)), (Z.leb_spec 53 digit); lia.
Qed.

(** ** Decimal numbers *)

(** The text of a number: a sign, digits, and digits after a point or comma. *)
Definition is_number (value : list Z) (negative : bool) (whole fraction : list Z) : Prop :=
  exists tail,
    replace_char COMMA DOT (trim value) = (if negative then [DASH] else []) ++ whole ++ tail /\
    ((tail = [] /\ fraction = []) \/ tail = DOT :: fraction) /\
    whole <> [] /\ forallb is_ascii_digit whole = true /\ forallb is_ascii_digit fraction = true.

Lemma digits_without c s : is_ascii_digit c = false -> forallb is_ascii_digit s = true -> c ∉ s.
Proof.
  intros Hc Hs. apply digits_not_in; [done|]. by apply List.Forall_forall, forallb_forall.
Qed.

Lemma decimal_parts_spec value negative whole fraction :
  is_number value negative whole fraction <->
  decimal_parts (replace_char COMMA DOT (trim value)) = (negative, (whole, fraction)) /\
  bool_decide (whole = []) || negb (forallb is_ascii_digit whole) || negb (forallb is_ascii_digit fraction) = false.
Proof.
  rewrite !orb_false_iff, !negb_false_iff, bool_decide_eq_false. unfold is_number, decimal_parts.
  generalize (replace_char COMMA DOT (trim value)) as s. intros s. split.
  - intros (tail & -> & Ht & Hne & Hw & Hf). split; [|done].
    assert (split_once DOT (whole ++ tail) = match tail with [] => None | _ => Some (whole, fraction) end) as Es.
    { destruct Ht as [[-> _]| ->].
      - rewrite app_nil_r. by apply split_once_None, digits_without.
      - by apply split_once_app, digits_without. }
    destruct negative; cbn [app].
    + change (DASH :: whole ++ tail) with ([DASH] ++ (whole ++ tail)). rewrite strip_prefix_app, Es.
      destruct Ht as [[-> ->]| ->]; [by rewrite app_nil_r|done].
    + destruct (strip_prefix (whole ++ tail) [DASH]) as [t|] eqn:E.
      * apply strip_prefix_Some in E. destruct whole as [|b whole]; [done|]. injection E as -> _. by cbn in Hw.
      * rewrite Es. destruct Ht as [[-> ->]| ->]; [by rewrite app_nil_r|done].
  - intros [E [[Hne Hw] Hf]].
    assert (exists unsigned, s = (if negative then [DASH] else []) ++ unsigned /\
      match split_once DOT unsigned with Some p => p | None => (unsigned, []) end = (whole, fraction)) as (u & -> & Eu).
    { destruct (strip_prefix s [DASH]) as [t|] eqn:Ep; injection E as <- E; [|by exists s].
      apply strip_prefix_Some in Ep. by exists t. }
    destruct (split_once DOT u) as [[l r]|] eqn:Es; injection Eu as <- <-.
    + apply split_once_Some in Es as [-> _]. exists (DOT :: r). split_and!; [done|by right|done..].
    + exists []. rewrite app_nil_r. split_and!; [done|by left|done..].
Qed.

(** How a rounded number is printed. *)
Definition show_decimal (negative : bool) (m : Z) (d : nat) : list Z :=
  (if negative && negb (m =? 0) then [DASH] else []) ++ show_u128 (m / 10 ^ Z.of_nat d)
  ++ match d with O => [] | _ => DOT :: map (fun v => 48 + v) (fixed_digits d (m mod 10 ^ Z.of_nat d)) end.

(** The digits kept by the code, printed. *)
Lemma show_kept negative whole kept d :
  0 <= whole -> Forall is_digit kept -> length kept = d ->
  (let sign := if negative && (negb (whole =? 0) || existsb (fun v => negb (v =? 0)) kept) then [DASH] else [] in
   if Nat.eqb d 0 then sign ++ show_u128 whole
   else sign ++ show_u128 whole ++ DOT :: map (fun v => 48 + v) kept) =
  show_decimal negative (whole * 10 ^ Z.of_nat d + num kept) d.
Proof.
  intros Hw Hk <-. pose proof (num_bound kept Hk) as Hn. unfold zlen in Hn. pose proof (pow10_pos (length kept)).
  unfold show_decimal. rewrite num_nonzero by done.
  rewrite Z.div_add_l, Z.div_small, Z.add_0_r by lia.
  rewrite (Z.add_comm (whole * _)), Z.mod_add, Z.mod_small, fixed_digits_num by (done || lia).
  replace (negb (num kept + whole * 10 ^ Z.of_nat (length kept) =? 0))
    with (negb (whole =? 0) || negb (num kept =? 0)); [by destruct kept; cbn [Nat.eqb length]; rewrite ?app_nil_r|].
  destruct (Z.eqb_spec whole 0), (Z.eqb_spec (num kept) 0),
    (Z.eqb_spec (num kept + whole * 10 ^ Z.of_nat (length kept)) 0); cbn; nia.
Qed.

Lemma split_digits q kept :
  Forall is_digit kept ->
  (q * 10 ^ zlen kept + num kept) / 10 ^ zlen kept = q /\
  fixed_digits (length kept) ((q * 10 ^ zlen kept + num kept) mod 10 ^ zlen kept) = kept.
Proof.
  intros Hk. pose proof (num_bound kept Hk) as Hn. split.
  - rewrite Z.div_add_l, Z.div_small; lia.
  - rewrite Z.add_comm, Z.mod_add, Z.mod_small by lia. by apply fixed_digits_num.
Qed.

Lemma fixed_digits_ok n v :
  length (fixed_digits n v) = n /\ Forall is_digit (fixed_digits n v) /\ num (fixed_digits n v) = v mod 10 ^ Z.of_nat n.
Proof.
  revert v. induction n as [|n IH]; intros v; [by rewrite Z.mod_1_r|]. cbn [fixed_digits].
  destruct (IH (v / 10)) as (Hl & Hd & Hn). split_and!.
  - rewrite length_app, Hl. cbn. lia.
  - apply Forall_app. split; [done|]. constructor; [apply Z.mod_pos_bound; lia|constructor].
  - rewrite num_snoc, Hn, pow10_succ, Z.rem_mul_r by lia. lia.
Qed.

(** The rounding step of the code. *)
Lemma rounded_kept value whole kept (up : bool) d :
  0 <= whole <= u128_max -> Forall is_digit kept -> length kept = d ->
  let m := whole * 10 ^ Z.of_nat d + num kept + (if up then 1 else 0) in
  (if up then
     let '(rev_kept, carry) := increment_digits (reverse kept) in
     let? whole :=
       (if carry : bool then ok_or (checked u128_max (whole + 1)) (TemplateError.Value value) else Ok whole) in
     Ok (whole, reverse rev_kept)
   else Ok (whole, kept)) =
  (if m / 10 ^ Z.of_nat d <=? u128_max
   then Ok (m / 10 ^ Z.of_nat d, fixed_digits d (m mod 10 ^ Z.of_nat d))
   else Err (TemplateError.Value value)).
Proof.
  intros Hw Hk <-. fold (zlen kept). intros m. destruct up.
  - destruct (increment_digits (reverse kept)) as [l carry] eqn:E.
    apply increment_digits_spec in E as (Hl & Hd & E); [|by apply Forall_reverse].
    rewrite length_reverse in Hl. rewrite reverse_involutive in E. apply Forall_reverse in Hd.
    assert (zlen (reverse kept) = zlen kept) as Hz by (unfold zlen; by rewrite length_reverse).
    assert (zlen (reverse l) = zlen kept) as Hr by (unfold zlen; by rewrite length_reverse, Hl).
    assert (m = (whole + if carry then 1 else 0) * 10 ^ zlen (reverse l) + num (reverse l)) as ->.
    { subst m. rewrite Hr. rewrite Hz in E. destruct carry; lia. }
    rewrite <- Hr, <- Hl, <- length_reverse.
    destruct (split_digits (whole + if carry then 1 else 0) (reverse l) Hd) as [-> ->]. destruct carry.
    + unfold checked, in_ub. destruct (Z.leb_spec 0 (whole + 1)); [|lia]. by destruct (whole + 1 <=? u128_max).
    + rewrite Z.add_0_r. destruct (Z.leb_spec whole u128_max); [done|lia].
  - subst m. rewrite Z.add_0_r. destruct (split_digits whole kept Hk) as [-> ->].
    destruct (Z.leb_spec whole u128_max); [done|lia].
Qed.

(** Decimal formatting is exact: the text of a number is printed as its value
    rounded to the decimals asked for. *)
Lemma format_decimal_spec value d :
  (forall negative whole fraction,
     is_number value negative whole fraction ->
     let m := round_decimal (num (digits_of (whole ++ fraction))) (length fraction) d in
     format_decimal value d =
     if m / 10 ^ Z.of_nat d <=? u128_max then Ok (show_decimal negative m d) else Err (TemplateError.Value value)) /\
  ((forall negative whole fraction, ~ is_number value negative whole fraction) ->
   format_decimal value d = Err (TemplateError.Value value)).
Proof.
  split.
  - intros negative whole fraction Hn m. pose proof Hn as (tail & _ & _ & Hne & Hw & Hf).
    apply decimal_parts_spec in Hn as [Ep Hok]. unfold format_decimal. rewrite Ep, Hok.
    rewrite parse_unsigned_num by done.
    pose proof (num_bound _ (digits_of_ok whole Hw)) as Hwb.
    assert (m = num (digits_of whole) * 10 ^ Z.of_nat d + num (resize d (digits_of (take d fraction)))
      + (match fraction !! d with Some digit => if 53 <=? digit then 1 else 0 | None => 0 end)) as Hm.
    { subst m. unfold digits_of at 1. rewrite map_app. fold (digits_of whole) (digits_of fraction). rewrite num_app.
      rewrite <- kept_rounded by done. unfold zlen, digits_of. by rewrite length_map. }
    destruct (resize_digits d (digits_of (take d fraction))) as [Hk Hlen].
    { apply digits_of_ok. rewrite <- (take_drop d fraction), forallb_app in Hf. by apply andb_true_iff in Hf as [-> _]. }
    set (kept := resize d (digits_of (take d fraction))) in *.
    set (up := match fraction !! d with Some digit => 53 <=? digit | None => false end) in *.
    assert (m = num (digits_of whole) * 10 ^ Z.of_nat d + num kept + (if up then 1 else 0)) as Hm'.
    { rewrite Hm. subst up. by destruct (fraction !! d). }
    pose proof (pow10_pos d) as Hp. pose proof (num_bound kept Hk) as Hkb.
    assert (0 <= (if up then 1 else 0)) as Hu by (destruct up; lia).
    assert (num (digits_of whole) * 10 ^ Z.of_nat d <= m) as Hlow by lia.
    destruct (Z.leb_spec (num (digits_of whole)) u128_max).
    + rewrite checked_id by (split; lia). cbn [ok_or rbind]. fold (digits_of (take d fraction)) kept.
      rewrite (rounded_kept value _ kept up d), <- Hm' by (done || lia). destruct (_ <=? u128_max); [|done]. cbn [rbind].
      destruct (fixed_digits_ok d (m mod 10 ^ Z.of_nat d)) as (Hl & Hd & Hv).
      assert (0 <= m / 10 ^ Z.of_nat d) as Hq by (apply Z.div_pos; nia).
      pose proof (show_kept negative (m / 10 ^ Z.of_nat d) _ d Hq Hd Hl) as Hs.
      assert (m / 10 ^ Z.of_nat d * 10 ^ Z.of_nat d + m mod 10 ^ Z.of_nat d = m) as Em.
      { pose proof (Z.div_mod m (10 ^ Z.of_nat d)). lia. }
      rewrite Hv, Z.mod_mod, Em in Hs by lia. rewrite <- Hs. by destruct (Nat.eqb d 0).
    + assert (checked u128_max (num (digits_of whole)) = None) as ->.
      { unfold checked, in_ub. by rewrite (proj2 (Z.leb_gt _ u128_max)), andb_false_r by lia. }
      assert (num (digits_of whole) <= m / 10 ^ Z.of_nat d).
      { apply Z.div_le_lower_bound; lia. }
      by rewrite (proj2 (Z.leb_gt _ u128_max)) by lia.
  - intros Hno. unfold format_decimal. destruct (decimal_parts _) as [negative [whole fraction]] eqn:Ep.
    destruct (_ || _) eqn:Hok; [done|]. exfalso. by apply (Hno negative whole fraction), decimal_parts_spec.
Qed.

(** *** Dropping trailing zeros *)

Lemma trim_start_matches_skip c s : trim_start_matches c (c :: s) = trim_start_matches c s.
Proof. cbn. by rewrite Z.eqb_refl. Qed.

Lemma trim_end_matches_snoc c s : trim_end_matches c (s ++ [c]) = trim_end_matches c s.
Proof. unfold trim_end_matches. by rewrite reverse_snoc, trim_start_matches_skip. Qed.

Lemma trim_end_matches_keep c b s : b <> c -> trim_end_matches c (s ++ [b]) = s ++ [b].
Proof. intros H. apply trim_end_matches_id. rewrite last_snoc. congruence. Qed.

Lemma show_u128_digits n : 0 <= n -> Forall (fun b => is_ascii_digit b = true) (show_u128 n).
Proof. intros H. by apply dec_digits_digits. Qed.

Lemma dec_digits_snoc f n :
  dec_digits (S f) n [] = (if n <? 10 then [] else dec_digits f (n / 10) []) ++ [48 + n mod 10].
Proof. cbn [dec_digits]. destruct (n <? 10); [done|]. by rewrite dec_digits_acc. Qed.

Lemma show_u128_snoc n : exists s, show_u128 n = s ++ [48 + n mod 10].
Proof. unfold show_u128. rewrite (dec_digits_snoc 38). by eexists. Qed.

Lemma show_u128_zero n : 0 <= n -> show_u128 n = [48] -> n = 0.
Proof.
  intros Hn E. unfold show_u128 in E. rewrite (dec_digits_snoc 38) in E. destruct (Z.ltb_spec n 10).
  - injection E as E. pose proof (Z.mod_small n 10). lia.
  - rewrite (dec_digits_snoc 37) in E. apply (f_equal length) in E. rewrite !length_app in E. cbn in E. lia.
Qed.

(** A printed number with its point, also when no digit follows it. *)
Definition pointed (negative : bool) (m : Z) (d : nat) : list Z :=
  (if negative && negb (m =? 0) then [DASH] else []) ++ show_u128 (m / 10 ^ Z.of_nat d)
  ++ DOT :: map (fun v => 48 + v) (fixed_digits d (m mod 10 ^ Z.of_nat d)).

Lemma pointed_succ negative m d :
  0 <= m ->
  pointed negative m (S d) =
  (if negative && negb (m =? 0) then [DASH] else []) ++ show_u128 (m / 10 / 10 ^ Z.of_nat d)
  ++ (DOT :: map (fun v => 48 + v) (fixed_digits d ((m / 10) mod 10 ^ Z.of_nat d))) ++ [48 + m mod 10].
Proof.
  intros Hm. unfold pointed. cbn [fixed_digits]. rewrite map_app, pow10_succ. cbn [map app].
  pose proof (pow10_pos d). rewrite Z.div_div by lia.
  pose proof (Z.mod_pos_bound m 10 eq_refl).
  assert (m mod (10 * 10 ^ Z.of_nat d) = (m / 10) mod 10 ^ Z.of_nat d * 10 + m mod 10) as ->.
  { rewrite Z.rem_mul_r by lia. lia. }
  rewrite Z.div_add_l, (Z.div_small (m mod 10)), Z.add_0_r by lia.
  by rewrite (Z.add_comm (_ * 10)), Z.mod_add, Z.mod_mod by lia.
Qed.

(** Trimming zeros and the point leaves the shortest text of the number. *)
Lemma trim_pointed negative m d :
  0 <= m ->
  exists m' d', (d' <= d)%nat /\ m = m' * 10 ^ Z.of_nat (d - d') /\ (d' = 0%nat \/ m' mod 10 <> 0) /\
    trim_end_matches DOT (trim_end_matches 48 (pointed negative m d)) = show_decimal negative m' d'.
Proof.
  revert m. induction d as [|d IH]; intros m Hm.
  - exists m, 0%nat. split_and!; [done|cbn; lia|by left|]. unfold pointed, show_decimal. cbn [fixed_digits map].
    rewrite Z.div_1_r, app_nil_r, app_assoc. rewrite (trim_end_matches_keep 48 DOT) by done.
    rewrite trim_end_matches_snoc. destruct (show_u128_snoc m) as [s ->]. rewrite app_assoc.
    apply trim_end_matches_keep. pose proof (Z.mod_pos_bound m 10). unfold DOT. lia.
  - rewrite pointed_succ by done. destruct (Z.eqb_spec (m mod 10) 0) as [E|E].
    + destruct (IH (m / 10)) as (m' & d' & Hd & Em & Hmin & Et); [apply Z.div_pos; lia|].
      exists m', d'. split_and!; [lia| |done|].
      * replace (S d - d')%nat with (S (d - d')) by lia. rewrite pow10_succ. pose proof (Z.div_mod m 10). lia.
      * rewrite E, Z.add_0_r, !app_assoc, trim_end_matches_snoc, <- !app_assoc.
        replace (m =? 0) with (m / 10 =? 0); [exact Et|]. pose proof (Z.div_mod m 10).
        destruct (Z.eqb_spec (m / 10) 0), (Z.eqb_spec m 0); lia.
    + exists m, (S d). split_and!; [done|rewrite Nat.sub_diag; cbn; lia|by right|].
      pose proof (Z.mod_pos_bound m 10).
      rewrite !app_assoc, (trim_end_matches_keep 48), (trim_end_matches_keep DOT), <- !app_assoc by (unfold DOT; lia).
      by rewrite <- pointed_succ.
Qed.

Lemma shorten_spec negative m d :
  0 <= m ->
  exists m' d', (d' <= d)%nat /\ m = m' * 10 ^ Z.of_nat (d - d') /\ (d' = 0%nat \/ m' mod 10 <> 0) /\
    shorten (show_decimal negative m d) = show_decimal negative m' d'.
Proof.
  intros Hm.
  assert (exists m' d', (d' <= d)%nat /\ m = m' * 10 ^ Z.of_nat (d - d') /\ (d' = 0%nat \/ m' mod 10 <> 0) /\
    (if bool_decide (DOT ∈ show_decimal negative m d)
     then trim_end_matches DOT (trim_end_matches 48 (show_decimal negative m d)) else show_decimal negative m d)
    = show_decimal negative m' d') as (m' & d' & Hd & Em & Hmin & E).
  { destruct d as [|d].
    - exists m, 0%nat. split_and!; [done|cbn; lia|by left|]. rewrite bool_decide_false; [done|].
      unfold show_decimal. rewrite app_nil_r, Z.div_1_r, elem_of_app. intros [Hin|Hin].
      + destruct (_ && _); [|by apply elem_of_nil in Hin]. by apply list_elem_of_singleton in Hin.
      + by apply (digits_not_in DOT) in Hin; [|done|apply show_u128_digits].
    - rewrite bool_decide_true; [by apply (trim_pointed negative m (S d))|].
      unfold show_decimal. rewrite !elem_of_app. right. right. left. }
  exists m', d'. split_and!; [done..|]. unfold shorten. rewrite E. rewrite bool_decide_false; [done|].
  assert (0 <= m') as Hm' by (pose proof (pow10_pos (d - d')); nia).
  unfold show_decimal. intros Es. destruct (negative && negb (m' =? 0)) eqn:Eneg.
  - apply andb_true_iff in Eneg as [_ Hz]. apply negb_true_iff, Z.eqb_neq in Hz. injection Es as Es.
    destruct d'; [rewrite app_nil_r, Z.div_1_r in Es; by apply show_u128_zero in Es|].
    apply (f_equal length) in Es. rewrite !length_app in Es. destruct (show_u128_snoc (m' / 10 ^ Z.of_nat (S d'))) as [s E'].
    rewrite E', length_app in Es. cbn in Es. lia.
  - cbn [app] in Es. pose proof (show_u128_digits (m' / 10 ^ Z.of_nat d')) as Hd'.
    destruct (show_u128_snoc (m' / 10 ^ Z.of_nat d')) as [s E']. destruct (show_u128 _) as [|b l]; [by destruct s|].
    injection Es as -> _. specialize (Hd' ltac:(apply Z.div_pos; lia)). by inversion Hd'.
Qed.

(** *** The number transforms *)

Section Transforms.
Variables unicode_uppercase unicode_lowercase : list Z -> list Z.

#[local] Abbreviation transform := (transform unicode_uppercase unicode_lowercase).

(** A transform that starts with a name is not one of those listed before it. *)
Lemma transform_number digits v context :
  transform (str "number:" ++ digits) v context =
  (let? d := parse_decimals (str "number:" ++ digits) digits in
   let? out := format_decimal v d in Ok (localized context out)).
Proof. reflexivity. Qed.

Lemma transform_decimals digits v context :
  transform (str "decimals:" ++ digits) v context =
  (let? d := parse_decimals (str "decimals:" ++ digits) digits in
   let? out := format_decimal v d in Ok (localized context (shorten out))).
Proof. reflexivity. Qed.

(** C18: The number transforms round exactly. For a text that is a number,
    [number:n] prints its value rounded to n decimals (at most nine), half away
    from zero and without a negative zero, with the comma of French locales;
    [decimals:n] prints the same value with the fewest decimals. Both fail
    alike on every other text and when the whole part exceeds 128 bits. No
    binary floating point is involved. *)
Theorem number_transforms_spec digits n v context :
  parse_unsigned u8_max digits = Some n ->
  let d := Z.to_nat (Z.min n 9) in
  let results number decimals :=
    transform (str "number:" ++ digits) v context = number /\ transform (str "decimals:" ++ digits) v context = decimals in
  (forall negative whole fraction,
     is_number v negative whole fraction ->
     let m := round_decimal (num (digits_of (whole ++ fraction))) (length fraction) d in
     if m / 10 ^ Z.of_nat d <=? u128_max then
       exists m' d', (d' <= d)%nat /\ m = m' * 10 ^ Z.of_nat (d - d') /\ (d' = 0%nat \/ m' mod 10 <> 0) /\
         results (Ok (localized context (show_decimal negative m d))) (Ok (localized context (show_decimal negative m' d')))
     else results (Err (TemplateError.Value v)) (Err (TemplateError.Value v))) /\
  ((forall negative whole fraction, ~ is_number v negative whole fraction) ->
   results (Err (TemplateError.Value v)) (Err (TemplateError.Value v))).
Proof.
  intros Hn d results. unfold results. rewrite transform_number, transform_decimals. unfold parse_decimals. rewrite Hn.
  cbn [ok_or rbind]. fold d. destruct (format_decimal_spec v d) as [Hnum Hno]. split.
  - intros negative whole fraction Hw. rewrite (Hnum _ _ _ Hw). cbn zeta.
    set (m := round_decimal (num (digits_of (whole ++ fraction))) (length fraction) d). destruct (_ <=? _); [|done].
    destruct (shorten_spec negative m d) as (m' & d' & Hd & Em & Hmin & E).
    { destruct Hw as (_ & _ & _ & _ & Hw & Hf). apply Z.div_pos; [|pose proof (pow10_pos (length fraction)); lia].
      assert (0 <= num (digits_of (whole ++ fraction))); [|nia].
      apply num_bound, digits_of_ok. by rewrite forallb_app, Hw, Hf. }
    exists m', d'. split_and!; try done. cbn [rbind]. by rewrite E.
  - intros H. by rewrite (Hno H).
Qed.
End Transforms.

(** ** Dates *)

(** Days before the first of January of a year, in the Gregorian calendar. *)
Definition days_before (year : Z) : Z := 365 * year + (year + 3) / 4 - (year + 99) / 100 + (year + 399) / 400.

Lemma is_leap_days year : days_before (year + 1) - days_before year = if is_leap year then 366 else 365.
Proof.
  unfold days_before, is_leap.
  assert (forall k, 0 < k -> (year + 1 + (k - 1)) / k - (year + (k - 1)) / k = if year mod k =? 0 then 1 else 0) as Hk.
  { intros k Hk. replace (year + 1 + (k - 1)) with (1 * k + year) by lia. rewrite Z.div_add_l by lia.
    pose proof (Z.div_mod year k). pose proof (Z.mod_pos_bound year k Hk). destruct (Z.eqb_spec (year mod k) 0).
    - rewrite <- (Z.div_unique_pos (year + (k - 1)) k (year / k) (k - 1)) by lia. lia.
    - rewrite <- (Z.div_unique_pos (year + (k - 1)) k (year / k + 1) (year mod k - 1)) by lia. lia. }
  pose proof (Hk 4 eq_refl) as H4. pose proof (Hk 100 eq_refl) as H100. pose proof (Hk 400 eq_refl) as H400. clear Hk.
  change (4 - 1) with 3 in H4. change (100 - 1) with 99 in H100. change (400 - 1) with 399 in H400.
  assert (year mod 400 = 0 -> year mod 100 = 0) by (intros; apply Z.mod_divide in H as [q ->]; [|done];
    replace (q * 400) with (q * 4 * 100) by lia; by apply Z.mod_mul).
  assert (year mod 100 = 0 -> year mod 4 = 0) by (intros H'; apply Z.mod_divide in H' as [q ->]; [|done];
    replace (q * 100) with (q * 25 * 4) by lia; by apply Z.mod_mul).
  destruct (Z.eqb_spec (year mod 4) 0), (Z.eqb_spec (year mod 100) 0), (Z.eqb_spec (year mod 400) 0); cbn; lia.
Qed.

(** The text of a date pattern with its fields replaced. *)
Inductive expands (y m d : list Z) : list Z -> list Z -> Prop :=
| expands_end : expands y m d [] []
| expands_year rest out : expands y m d rest out -> expands y m d (str "%Y" ++ rest) (y ++ out)
| expands_month rest out : expands y m d rest out -> expands y m d (str "%m" ++ rest) (m ++ out)
| expands_day rest out : expands y m d rest out -> expands y m d (str "%d" ++ rest) (d ++ out)
| expands_percent rest out : expands y m d rest out -> expands y m d (str "%%" ++ rest) (PERCENT :: out)
| expands_other c rest out : c <> PERCENT -> expands y m d rest out -> expands y m d (c :: rest) (c :: out).

Lemma expand_pattern_complete y m d pattern out : expands y m d pattern out -> expand_pattern pattern y m d = Some out.
Proof.
  induction 1 as [| | | | |c rest out Hc _ IH]; cbn; rewrite ?IHexpands; [done..|].
  destruct (Z.eqb_spec c PERCENT); [done|]. by rewrite IH.
Qed.

Lemma expand_pattern_sound y m d pattern out : expand_pattern pattern y m d = Some out -> expands y m d pattern out.
Proof.
  remember (length pattern) as n eqn:Hn. revert pattern out Hn.
  induction n as [n IH] using lt_wf_ind. intros pattern out -> E.
  destruct pattern as [|c rest]; [injection E as <-; constructor|]. cbn [expand_pattern] in E.
  destruct (Z.eqb_spec c PERCENT) as [->|Hc].
  - destruct rest as [|f rest]; [done|].
    assert (forall o, expand_pattern rest y m d = Some o -> expands y m d rest o) as IHr.
    { intros o. apply (IH (length rest)); cbn; lia || done. }
    assert (f = 89 \/ f = 109 \/ f = 100 \/ f = 37) as [-> |[-> |[-> | ->]]].
    { destruct f as [|f|f]; try done. repeat (destruct f as [f|f|]; try done; auto). }
    all: destruct (expand_pattern rest y m d) as [o|]; [|done]; injection E as <-.
    + by apply (expands_year y m d rest), IHr.
    + by apply (expands_month y m d rest), IHr.
    + by apply (expands_day y m d rest), IHr.
    + by apply (expands_percent y m d rest), IHr.
  - destruct (expand_pattern rest y m d) as [o|] eqn:Er; [|done]. injection E as <-.
    apply expands_other; [done|]. apply (IH (length rest)); cbn; lia || done.
Qed.

Lemma parse_digits_nonneg max acc s n : 0 <= acc -> parse_digits max acc s = Some n -> 0 <= n.
Proof.
  revert acc. induction s as [|b s IH]; intros acc Hacc; cbn; [by intros [= <-]|].
  destruct (is_ascii_digit b); [|done]. destruct (checked _ _) as [acc'|] eqn:E; [|done]. cbn.
  apply checked_Some in E as [[? _] ->]. by apply IH.
Qed.

Lemma parse_unsigned_nonneg max s n : parse_unsigned max s = Some n -> 0 <= n.
Proof.
  unfold parse_unsigned. repeat case_match; try done; by apply parse_digits_nonneg.
Qed.

(** A date as the code reads it: three parts of four, two and two bytes that
    parse as numbers, and a day of the calendar. *)
Definition reads_as (value y m d : list Z) (year month day : Z) : Prop :=
  value = join DASH [y; m; d] /\ Forall (fun p => DASH ∉ p) [y; m; d] /\
  zlen y = 4 /\ zlen m = 2 /\ zlen d = 2 /\
  parse_unsigned u32_max y = Some year /\ parse_unsigned u32_max m = Some month /\
  parse_unsigned u32_max d = Some day /\ 1 <= day <= days_in_month year month.

(** A date is printed exactly when it is written as year, month and day of
    the calendar, of four, two and two characters, and the pattern has only
    known fields; the fields are replaced by the texts of the parts. The
    lengths of the months are those of the Gregorian calendar: those of a year
    add up to the days from its first of January to the next. *)
Theorem format_date_spec value pattern out :
  (format_date value pattern = Ok out <->
   exists y m d year month day, reads_as value y m d year month day /\ expands y m d pattern out) /\
  (forall year, days_before (year + 1) = days_before year + fold_right Z.add 0 (map (days_in_month year) (seqZ 1 12))).
Proof.
  split; [split|].
  - unfold format_date. destruct (split DASH value) as [|y [|m [|d [|]]]] eqn:Es; try done.
    apply split_spec in Es as (-> & _ & Hp). intros H. inv_ok H. apply expand_pattern_sound in H.
    exists y, m, d, x, x0, x1. split; [|done].
    rewrite !orb_false_iff, !negb_false_iff, !Z.eqb_eq in Hb.
    rewrite orb_false_iff, Z.eqb_neq, Z.ltb_ge in Hb0. unfold reads_as.
    apply parse_unsigned_nonneg in Hx1 as Hday. destruct Hb as [[? ?] ?], Hb0 as [? ?]. split_and!; try (done || lia).
  - intros (y & m & d & year & month & day & (-> & Hp & Hy & Hm & Hd & Ey & Em & Ed & Hday) & Ho).
    unfold format_date. rewrite split_join by done. rewrite Hy, Hm, Hd, Ey, Em, Ed. rewrite !Z.eqb_refl. cbn [negb orb ok_or rbind].
    rewrite (proj2 (Z.eqb_neq day 0)), (proj2 (Z.ltb_ge (days_in_month year month) day)) by lia. cbn [orb].
    by rewrite (expand_pattern_complete _ _ _ _ _ Ho).
  - intros year. pose proof (is_leap_days year) as E. revert E.
    change (seqZ 1 12) with [1; 2; 3; 4; 5; 6; 7; 8; 9; 10; 11; 12]. cbn -[is_leap days_before]. destruct (is_leap year); lia.
Qed.

(** ** Expressions in a template *)

(** A string occurs in another one, or in no place but the end of [l ++ needle]. *)
Definition absent (needle s : list Z) : Prop := forall l r, s <> l ++ needle ++ r.
Definition only_at_end (needle l : list Z) : Prop := forall l1 r1, l ++ needle = l1 ++ needle ++ r1 -> r1 = [].

Lemma starts_with_app_l p x r : (length p <= length x)%nat -> starts_with p (x ++ r) = starts_with p x.
Proof. intros H. unfold starts_with. by rewrite take_app_le. Qed.

Lemma only_at_end_nil needle : only_at_end needle [].
Proof.
  intros l r E. cbn in E. apply (f_equal length) in E. rewrite !length_app in E.
  destruct r; [done|]. cbn in E. lia.
Qed.

Lemma only_at_end_cons needle b l :
  only_at_end needle (b :: l) <-> only_at_end needle l /\ starts_with needle (b :: l ++ needle) = false.
Proof.
  split.
  - intros H. split.
    + intros l1 r1 E. apply (H (b :: l1) r1). cbn. by rewrite E.
    + destruct (starts_with _ _) eqn:E; [|done]. apply starts_with_spec in E as [t E].
      pose proof (H [] t E) as ->. apply (f_equal length) in E. cbn in E. rewrite !length_app in E. cbn in E. lia.
  - intros [Hl Hs] [|c l1] r1 E; cbn in E.
    + by rewrite E, starts_with_app in Hs.
    + injection E as _ E. by apply (Hl l1).
Qed.

Lemma starts_with_before needle b l r : starts_with needle (b :: l ++ needle ++ r) = starts_with needle (b :: l ++ needle).
Proof.
  change (b :: l ++ needle ++ r) with ((b :: l) ++ needle ++ r). rewrite app_assoc.
  apply starts_with_app_l. cbn. rewrite length_app. lia.
Qed.

(** [split_str] finds the first occurrence. *)
Lemma split_str_Some needle s l r :
  split_str needle s = Some (l, r) <-> s = l ++ needle ++ r /\ only_at_end needle l.
Proof.
  split.
  - assert (forall s, starts_with needle s = true -> Some ([], drop (length needle) s) = Some (l, r) ->
      s = l ++ needle ++ r /\ only_at_end needle l) as Hnow.
    { intros s' E [= <- <-]. apply starts_with_spec in E as [t ->]. rewrite drop_app_length.
      split; [done|apply only_at_end_nil]. }
    revert l Hnow. induction s as [|b s IH]; intros l Hnow; cbn [split_str]; destruct (starts_with needle _) eqn:E;
      try done; [by apply Hnow..|].
    destruct (split_str needle s) as [[l' r']|] eqn:E'; cbn; [|done]. intros [= <- <-].
    destruct (IH l') as [-> Hl].
    { intros s' Hs' [= <- <-]. apply starts_with_spec in Hs' as [t ->]. rewrite drop_app_length.
      split; [done|apply only_at_end_nil]. }
    { done. }
    split; [done|]. apply only_at_end_cons. by rewrite starts_with_before in E.
  - intros [-> Hl]. induction l as [|b l IH].
    + cbn [app]. destruct (needle ++ r) eqn:E; cbn [split_str]; rewrite <- E, starts_with_app, drop_app_length; done.
    + apply only_at_end_cons in Hl as [Hl Hs]. cbn. by rewrite starts_with_before, Hs, IH.
Qed.

Lemma split_str_None needle s : split_str needle s = None <-> absent needle s.
Proof.
  split.
  - intros H l r ->. induction l as [|b l IH]; cbn [app] in H.
    + destruct (needle ++ r) eqn:E; cbn [split_str] in H; rewrite <- E, starts_with_app in H; done.
    + cbn [split_str] in H. destruct (starts_with _ _); [done|]. apply IH.
      by destruct (split_str _ _) as [[]|].
  - intros H. destruct (split_str needle s) as [[l r]|] eqn:E; [|done].
    apply split_str_Some in E as [-> _]. by destruct (H l r).
Qed.

(** *** Evaluation *)

(** A template: texts, each followed by an expression in braces, and a last text. *)
Definition print_template (pieces : list (list Z * list Z)) (tail : list Z) : list Z :=
  foldr (fun piece rest => piece.1 ++ OPEN ++ piece.2 ++ CLOSE ++ rest) tail pieces.

(** The braces are where the template has them, and nowhere before. *)
Definition template_ok (pieces : list (list Z * list Z)) (tail : list Z) : Prop :=
  Forall (fun piece => only_at_end OPEN piece.1 /\ only_at_end CLOSE piece.2) pieces /\ absent OPEN tail.

(** The texts with the values of the expressions. *)
Definition filled (pieces : list (list Z * list Z)) (values : list (list Z)) : list Z :=
  concat (zip_with (fun piece value => piece.1 ++ value) pieces values).

Lemma filled_cons piece value pieces values :
  filled (piece :: pieces) (value :: values) = piece.1 ++ value ++ filled pieces values.
Proof. unfold filled. cbn. by rewrite <- app_assoc. Qed.

Section Evaluation.
Variables unicode_uppercase unicode_lowercase : list Z -> list Z.

#[local] Abbreviation expression_value := (expression_value unicode_uppercase unicode_lowercase).
#[local] Abbreviation evaluate_loop := (evaluate_loop unicode_uppercase unicode_lowercase).
#[local] Abbreviation evaluate_with_context := (evaluate_with_context unicode_uppercase unicode_lowercase).

Definition have_values (context : Context) (pieces : list (list Z * list Z)) (values : list (list Z)) : Prop :=
  Forall2 (fun piece value => expression_value context piece.2 = Ok value) pieces values.

Lemma evaluate_loop_sound fuel context out rest result :
  evaluate_loop fuel context out rest = Ok result ->
  exists pieces tail values,
    rest = print_template pieces tail /\ template_ok pieces tail /\ have_values context pieces values /\
    result = out ++ filled pieces values ++ tail /\ (pieces = [] \/ zlen (out ++ filled pieces values) <= MAXIMUM).
Proof.
  revert out rest. induction fuel as [|fuel IH]; intros out rest; cbn [Template.evaluate_loop];
    destruct (split_str OPEN rest) as [[before after]|] eqn:E; intros H; try done.
  1, 3: apply (proj1 (split_str_None _ _)) in E; inv_ok H; exists [], rest, []; split_and!;
      [done|split; [constructor|exact E]|constructor|done|by left].
  apply (proj1 (split_str_Some _ _ _ _)) in E as [-> Hb]. inv_ok H.
  destruct x as [expression rest]. apply (proj1 (split_str_Some _ _ _ _)) in Hx as [-> He].
  inv_ok H. rename x into value. destruct (IH _ _ H) as (pieces & tail & values & -> & [Hok Ht] & Hv & -> & Hlen).
  exists ((before, expression) :: pieces), tail, (value :: values). split_and!.
  - done.
  - split; [by constructor|done].
  - by constructor.
  - rewrite filled_cons. cbn. by rewrite <- !app_assoc.
  - right. rewrite filled_cons, !app_assoc. destruct Hlen as [->|Hlen]; [|done].
    unfold filled. cbn. rewrite app_nil_r. lia.
Qed.

Lemma evaluate_loop_complete context pieces tail values :
  template_ok pieces tail -> have_values context pieces values ->
  forall fuel out, zlen (out ++ filled pieces values) <= MAXIMUM \/ pieces = [] -> (length pieces <= fuel)%nat ->
  evaluate_loop fuel context out (print_template pieces tail) = Ok (out ++ filled pieces values ++ tail).
Proof.
  intros [Hok Ht] Hv. induction Hv as [|[before expression] value pieces values Hval Hv IH]; intros fuel out Hlen Hf.
  - cbn [print_template foldr]. apply split_str_None in Ht. by destruct fuel; cbn [Template.evaluate_loop]; rewrite Ht.
  - destruct fuel as [|fuel]; [cbn in Hf; lia|]. inversion_clear Hok as [|? ? [Hb He] Hok']. cbn in Hb, He.
    cbn [print_template foldr fst snd Template.evaluate_loop].
    rewrite (proj2 (split_str_Some _ _ before (expression ++ CLOSE ++ print_template pieces tail))) by done.
    rewrite (proj2 (split_str_Some _ _ expression (print_template pieces tail))) by done. cbn [ok_or raising map_err rbind].
    cbn in Hval. rewrite Hval. cbn [raising map_err rbind]. destruct Hlen as [Hlen|]; [|done].
    rewrite filled_cons in Hlen. cbn [fst] in Hlen.
    assert (zlen ((out ++ before) ++ value) <= MAXIMUM) as Hm by (rewrite <- app_assoc; unfold zlen in *; rewrite !length_app in *; lia).
    rewrite (proj2 (Z.ltb_ge _ _) Hm), IH.
    + rewrite filled_cons. cbn. by rewrite <- !app_assoc.
    + done.
    + left. by rewrite !app_assoc in Hlen.
    + cbn in Hf. lia.
Qed.

Lemma evaluate_loop_ends fuel context out rest :
  (length rest <= fuel)%nat -> panics (evaluate_loop fuel context out rest) = false.
Proof.
  revert out rest. induction fuel as [|fuel IH]; intros out rest Hf; cbn [Template.evaluate_loop];
    destruct (split_str OPEN rest) as [[before after]|] eqn:E; try done.
  { apply (proj1 (split_str_Some _ _ _ _)) in E as [-> _]. rewrite !length_app in Hf. cbn in Hf. lia. }
  apply (proj1 (split_str_Some _ _ _ _)) in E as [-> _]. rewrite !length_app in Hf. cbn in Hf.
  apply panics_bind; [apply panics_raising|]. intros [expression rest] Hx. inv_ok Hx.
  apply (proj1 (split_str_Some _ _ _ _)) in Hx as [-> _]. rewrite !length_app in Hf.
  apply panics_bind; [apply panics_raising|]. intros value _. destruct (_ <? _); [done|]. apply IH. cbn in Hf. lia.
Qed.

Lemma print_template_length pieces tail : (length pieces <= length (print_template pieces tail))%nat.
Proof.
  induction pieces as [|piece pieces IH]; cbn [print_template foldr length]; [lia|].
  fold (print_template pieces tail). rewrite !length_app. cbn [OPEN str length]. lia.
Qed.

(** What an expression denotes: its parts, separated by bars and trimmed, are
    a name and transforms; the value of the name goes through the transforms
    in order. A missing field is empty when a transform provides for it. *)
Definition name_denotes (context : Context) (name : list Z) (transforms : list (list Z)) (value : list Z) : Prop :=
  (name = str "@date" /\ value = current_date context) \/
  (name <> str "@date" /\ fields context !! name = Some value) \/
  (name <> str "@date" /\ fields context !! name = None /\ value = [] /\
   Exists (fun f => exists rest, f = str "default:" ++ rest \/ f = str "if-empty:" ++ rest) transforms).

Inductive transforms_to (context : Context) : list (list Z) -> list Z -> list Z -> Prop :=
| transforms_none v : transforms_to context [] v v
| transforms_then f transforms v v' v'' :
    transform unicode_uppercase unicode_lowercase f v context = Ok v' ->
    transforms_to context transforms v' v'' -> transforms_to context (f :: transforms) v v''.

Definition denotes (context : Context) (expression value : list Z) : Prop :=
  exists parts name transforms initial,
    expression = join BAR parts /\ parts <> [] /\ Forall (fun part => BAR ∉ part) parts /\
    map trim parts = name :: transforms /\
    name_denotes context name transforms initial /\ transforms_to context transforms initial value.

Lemma provides_default_spec transforms :
  existsb provides_default transforms = true <->
  Exists (fun f => exists rest, f = str "default:" ++ rest \/ f = str "if-empty:" ++ rest) transforms.
Proof.
  rewrite existsb_exists, List.Exists_exists. unfold provides_default.
  setoid_rewrite orb_true_iff. setoid_rewrite starts_with_spec. naive_solver.
Qed.

Lemma field_value_spec context name transforms value :
  field_value context name transforms = Ok value <-> name_denotes context name transforms value.
Proof.
  unfold field_value, name_denotes. rewrite <- provides_default_spec. case_bool_decide; [naive_solver|].
  destruct (fields context !! name); [naive_solver|]. destruct (existsb _ _); naive_solver.
Qed.

Lemma transforms_to_spec context transforms v v' :
  for_each (fun f value => transform unicode_uppercase unicode_lowercase f value context) transforms v = Ok v' <->
  transforms_to context transforms v v'.
Proof.
  split.
  - revert v. induction transforms as [|f transforms IH]; intros v; cbn; [intros [= ->]; constructor|].
    intros H. inv_ok H. econstructor; [exact Hx|]. by apply IH.
  - induction 1 as [|f transforms v w w' E _ IH]; cbn; [done|]. by rewrite E.
Qed.

Lemma expression_value_spec context expression value :
  expression_value context expression = Ok value <-> denotes context expression value.
Proof.
  unfold Template.expression_value, expression_parts, denotes. split.
  - pose proof (proj1 (split_spec BAR expression _) eq_refl) as (E & Hne & Hp).
    destruct (map trim (split BAR expression)) as [|name transforms] eqn:Em.
    { by destruct (split BAR expression). }
    intros H. inv_ok H. apply field_value_spec in Hx. apply transforms_to_spec in H.
    by exists (split BAR expression), name, transforms, x.
  - intros (parts & name & transforms & initial & -> & Hne & Hp & Em & Hn & Ht).
    rewrite split_join, Em by done. apply field_value_spec in Hn as ->. by apply transforms_to_spec.
Qed.

Lemma have_values_denote context pieces values :
  have_values context pieces values <-> Forall2 (fun piece value => denotes context piece.2 value) pieces values.
Proof. split; apply List.Forall2_impl; intros piece value; apply expression_value_spec. Qed.

(** C17: Template evaluation is substitution. A template of at most a million
    bytes has a result exactly when it is a sequence of texts and expressions,
    cut at the first braces, each expression denotes a value (that of its
    field, sent through its transforms in order), and the texts with the
    values are at most a million bytes long; the result is those followed by
    the last text. Evaluation always ends: the loop never runs out of fuel. *)
Theorem evaluate_spec input context result :
  (evaluate_with_context input context = Ok result <->
   zlen input <= MAXIMUM /\
   exists pieces tail values,
     input = print_template pieces tail /\ template_ok pieces tail /\
     Forall2 (fun piece value => denotes context piece.2 value) pieces values /\
     result = filled pieces values ++ tail /\ zlen (filled pieces values) <= MAXIMUM) /\
  panics (evaluate_with_context input context) = false.
Proof.
  setoid_rewrite <- have_values_denote.
  unfold Template.evaluate_with_context. destruct (Z.ltb_spec MAXIMUM (zlen input)) as [Hlt|Hle].
  { split; [split; [done|]|done]. intros [? _]. lia. }
  split; [|by apply evaluate_loop_ends]. split.
  - intros H. split; [done|]. apply evaluate_loop_sound in H as (pieces & tail & values & -> & Hok & Hv & -> & Hlen).
    exists pieces, tail, values. split_and!; try done. destruct Hlen as [->|]; [|done]. unfold filled, zlen, MAXIMUM. cbn. lia.
  - intros (_ & pieces & tail & values & -> & Hok & Hv & -> & Hlen).
    rewrite (evaluate_loop_complete context pieces tail values Hok Hv); [done|by left|apply print_template_length].
Qed.
End Evaluation.

(** ** Witnesses *)

Definition example_context : Context := {| fields := ∅; locale := str "fr-FR"; current_date := str "2026-01-31" |}.

Lemma number_transforms_spec_witness :
  transform id id (str "number:2") (str " 12,995 ") example_context = Ok (str "13,00") /\
  transform id id (str "decimals:2") (str " 12,995 ") example_context = Ok (str "13").
Proof.
  pose proof (number_transforms_spec id id (str "2") 2 (str " 12,995 ") example_context eq_refl) as [H _].
  assert (is_number (str " 12,995 ") false (str "12") (str "995")) as Hn.
  { exists (str ".995"). split_and!; [reflexivity|by right|discriminate|reflexivity|reflexivity]. }
  specialize (H false (str "12") (str "995") Hn). cbv zeta in H.
  assert (round_decimal (num (digits_of (str "12" ++ str "995"))) (length (str "995")) (Z.to_nat (Z.min 2 9)) = 1300) as E
    by reflexivity.
  rewrite E in H. change (1300 / 10 ^ Z.of_nat (Z.to_nat (Z.min 2 9)) <=? u128_max) with true in H. cbv iota in H.
  destruct H as (m' & d' & Hd & Em & Hmin & Hnum & Hdec). split; [exact Hnum|].
  assert (d' = 0%nat) as ->.
  { change (d' <= 2)%nat in Hd. destruct Hmin as [->|Hmin]; [done|]. destruct d' as [|[|[|]]]; [done|..|lia];
      exfalso; apply Hmin.
    - change (1300 = m' * 10) in Em. by replace m' with 130 by lia.
    - change (1300 = m' * 1) in Em. by replace m' with 1300 by lia. }
  change (1300 = m' * 100) in Em. replace m' with 13 in Hdec by lia. exact Hdec.
Defined.

(** A sign is part of a number: a month and a day may start with a plus. *)
Example signed_date_accepted : format_date (str "2024-+1-+2") (str "%d/%m/%Y") = Ok (str "+2/+1/2024").
Proof. reflexivity. Qed.

(** A price tag. *)
Example example_evaluation :
  let fields := <[str "price" := str "4.50"]> {[ str "made" := str "2024-02-29" ]} in
  evaluate id id (str "Price {{price|decimals:2|suffix: EUR}}, {{ made | date:%d.%m.%Y }}{{code|default:}}") fields =
  Ok (str "Price 4.5 EUR, 29.02.2024").
Proof. vm_compute. reflexivity. Qed.
