(* ===== verification/Document.v ===== *)
(** Label documents (crates/mb-printer-core/src/document.rs): the document, its
    media, zones, elements and resources, and validation. The base64 decoder
    and SHA-256 are parameters; so is the type of the JSON values that
    extensions hold. *)

From stdpp Require Import base gmap sets list strings numbers option.
From S2P Require Import Prelude Text Capabilities.

#[local] Open Scope Z_scope.

(** ** Data *)

Inductive Unit_ := Micrometre.
Inductive Orientation := Portrait | Landscape.
Inductive MediaShape := ShapeRectangle | ShapeRound.
Inductive Rounding := HalfAwayFromZero.
Inductive Origin := TopLeft.
Inductive HorizontalAlign := AlignLeft | AlignCenter | AlignRight.
Inductive VerticalAlign := AlignTop | AlignMiddle | AlignBottom.
Inductive TextOverflow := NoWrap | WordWrap | Clip | ShrinkToFit | AutoHeight.
Inductive BarcodeSymbology := Code128 | Ean13 | UpcA | Code39.
Inductive QrCorrection := QrL | QrM | QrQ | QrH.

Record Bounds := { b_x : Z; b_y : Z; b_width : Z; b_height : Z }.

Record Zone := {
  zone_id : list Z;
  zone_bounds : Bounds;
  clone_of : option (list Z);
}.

Record Media := {
  media_width : Z;
  media_height : Z;
  media_unit : Unit_;
  media_dpi : Z;
  orientation : Orientation;
  printable_bounds : Bounds;
  shape : MediaShape;
  continuous : bool;
  zones : list Zone;
}.

Record CoordinateSystem := { cs_unit : Unit_; cs_origin : Origin; cs_rounding : Rounding }.

Record Transform := {
  t_x : Z;
  t_y : Z;
  t_width : Z;
  t_height : Z;
  rotation_millidegrees : Z;
}.

Record Constraints := { preserve_aspect : bool; constraint_zone : option (list Z) }.

Record Common := {
  element_id : list Z;
  element_transform : Transform;
  z_order : Z;
  visible : bool;
  locked : bool;
  group_id : option (list Z);
  element_constraints : option Constraints;
}.

Module Element.
Inductive t :=
| Text (c : Common) (text : list Z) (font_resource : option (list Z)) (font_size : Z)
    (horizontal_align : HorizontalAlign) (vertical_align : VerticalAlign) (overflow : TextOverflow)
| Image (c : Common) (resource : list Z) (crop : option Bounds)
| Svg (c : Common) (resource : list Z)
| Line (c : Common) (stroke_width : Z)
| Rectangle (c : Common) (stroke_width : Z) (fill : bool)
| Ellipse (c : Common) (stroke_width : Z) (fill : bool)
| Triangle (c : Common) (stroke_width : Z) (fill : bool)
| Barcode (c : Common) (data : list Z) (symbology : BarcodeSymbology) (human_readable : bool)
| QrCode (c : Common) (data : list Z) (error_correction : QrCorrection) (quiet_zone : Z)
| Group (c : Common) (children : list (list Z)).
End Element.

Definition default_quiet_zone : Z := 4.

(** [Element::common] and the write through [Element::common_mut]. *)
Definition common (x : Element.t) : Common :=
  match x with
  | Element.Text c _ _ _ _ _ _ | Element.Image c _ _ | Element.Svg c _ | Element.Line c _
  | Element.Rectangle c _ _ | Element.Ellipse c _ _ | Element.Triangle c _ _
  | Element.Barcode c _ _ _ | Element.QrCode c _ _ _ | Element.Group c _ => c
  end.

Definition set_common (c : Common) (x : Element.t) : Element.t :=
  match x with
  | Element.Text _ text font_resource font_size horizontal_align vertical_align overflow =>
      Element.Text c text font_resource font_size horizontal_align vertical_align overflow
  | Element.Image _ resource crop => Element.Image c resource crop
  | Element.Svg _ resource => Element.Svg c resource
  | Element.Line _ stroke_width => Element.Line c stroke_width
  | Element.Rectangle _ stroke_width fill => Element.Rectangle c stroke_width fill
  | Element.Ellipse _ stroke_width fill => Element.Ellipse c stroke_width fill
  | Element.Triangle _ stroke_width fill => Element.Triangle c stroke_width fill
  | Element.Barcode _ data symbology human_readable => Element.Barcode c data symbology human_readable
  | Element.QrCode _ data error_correction quiet_zone => Element.QrCode c data error_correction quiet_zone
  | Element.Group _ children => Element.Group c children
  end.

Definition resource_ids (x : Element.t) : list (list Z) :=
  match x with
  | Element.Text _ _ (Some font_resource) _ _ _ _ => [font_resource]
  | Element.Image _ resource _ | Element.Svg _ resource => [resource]
  | _ => []
  end.

Record Field := { field_key : list Z; field_label : list Z }.

Record Resource := {
  resource_id : list Z;
  media_type : list Z;
  sha256_text : list Z;
  data_base64 : list Z;
}.

(** [extensions] is a [BTreeMap] of JSON values: its entries, by key. *)
Record Document (Json : Type) := {
  version : Z;
  name : list Z;
  media : Media;
  coordinate_system : CoordinateSystem;
  elements : list Element.t;
  resources : list Resource;
  fields : list Field;
  extensions : list (list Z * Json);
}.
Arguments version {Json}. Arguments name {Json}. Arguments media {Json}. Arguments coordinate_system {Json}.
Arguments elements {Json}. Arguments resources {Json}. Arguments fields {Json}. Arguments extensions {Json}.

Module ResourceDecodeError.
Inductive t := EncodedTooLarge | DecodedTooLarge | Invalid.
End ResourceDecodeError.

Module ValidationError.
Inductive t :=
| Version
| Name
| Media
| DuplicateId (id : list Z)
| MissingResource (id : list Z)
| ResourceHash (id : list Z)
| ResourceEncoding (id : list Z)
| Geometry (id : list Z)
| ExtensionNamespace (key : list Z)
| Zone (id : list Z)
| Reference (what : list Z)
| Cycle (what : list Z)
| ResourceMedia (id : list Z)
| Element (id : list Z)
| Limit (what : string).
End ValidationError.

#[local] Abbreviation Errors := (list ValidationError.t).

(** [if condition { e.push(error) }] *)
Definition push_if (condition : bool) (error : ValidationError.t) : Errors := if condition then [error] else [].

(** ** Resources *)

(** [str::strip_prefix] and [split_once]: what follows the comma of a data URI. *)
Definition base64_payload (s : list Z) : list Z :=
  match strip_prefix s (str "data:") with
  | Some value => match split_once 44 value with Some (_, payload) => payload | None => s end
  | None => s
  end.

Definition estimated_decoded_len (payload : list Z) : option Z :=
  n ← checked usize_max (zlen payload + 3);
  checked usize_max (n / 4 * 3).

Section Validation.
(** The decoder of the base64 crate and [Sha256] of the sha2 crate. *)
Variable base64_decode : list Z -> option (list Z).
Variable sha256 : list Z -> list Z.
Context {Json : Type}.

Definition decoded_bytes (r : Resource) : option (list Z) := base64_decode (base64_payload (data_base64 r)).

Definition decoded_bytes_with_limits (r : Resource) (limits : ProcessingLimits) :
    Result ResourceDecodeError.t (list Z) :=
  if max_resource_bytes limits <? zlen (data_base64 r) then Err ResourceDecodeError.EncodedTooLarge
  else
    let payload := base64_payload (data_base64 r) in
    let? estimated := ok_or (estimated_decoded_len payload) ResourceDecodeError.DecodedTooLarge in
    if max_decoded_resource_bytes limits <? estimated then Err ResourceDecodeError.DecodedTooLarge
    else
      let? decoded := ok_or (base64_decode payload) ResourceDecodeError.Invalid in
      if max_decoded_resource_bytes limits <? zlen decoded then Err ResourceDecodeError.DecodedTooLarge else Ok decoded.

(** [{:x}] of a digest. *)
Definition show_digest (digest : list Z) : list Z :=
  flat_map (fun byte => [hex_char (byte / 16); hex_char (byte mod 16)]) digest.

Definition is_lower_hex (byte : Z) : bool := is_ascii_digit byte || between 97 102 byte.

(** The loop that adds up the sizes of the resources; a [break] ends it. *)
Fixpoint resource_totals (limits : ProcessingLimits) (resources : list Resource) (total_encoded total_decoded : Z) :
    Errors * (Z * Z) :=
  match resources with
  | [] => ([], (total_encoded, total_decoded))
  | r :: resources =>
      match checked usize_max (total_encoded + zlen (data_base64 r)) with
      | None => ([ValidationError.Limit "total encoded resource bytes"], (total_encoded, total_decoded))
      | Some total_encoded =>
          match estimated_decoded_len (base64_payload (data_base64 r)) with
          | None => ([ValidationError.Limit "total decoded resource bytes"], (total_encoded, total_decoded))
          | Some decoded =>
              match checked usize_max (total_decoded + decoded) with
              | None => ([ValidationError.Limit "total decoded resource bytes"], (total_encoded, total_decoded))
              | Some total_decoded =>
                  let '(errors, totals) := resource_totals limits resources total_encoded total_decoded in
                  (push_if (max_resource_bytes limits <? zlen (data_base64 r)) (ValidationError.Limit "encoded resource bytes")
                   ++ push_if (max_decoded_resource_bytes limits <? decoded) (ValidationError.Limit "decoded resource bytes")
                   ++ errors, totals)
              end
          end
      end
  end.

Definition size_errors (limits : ProcessingLimits) (resources : list Resource) : Errors :=
  let '(errors, (total_encoded, total_decoded)) := resource_totals limits resources 0 0 in
  errors
  ++ push_if (max_output_bytes limits <? total_encoded) (ValidationError.Limit "total encoded resource bytes")
  ++ push_if (max_output_bytes limits <? total_decoded) (ValidationError.Limit "total decoded resource bytes").

(** The errors of an identifier that must be new: empty, or in [ids] already. *)
Definition is_duplicate (id : list Z) (ids : list (list Z)) : bool := bool_decide (id = []) || bool_decide (id ∈ ids).

(** One turn of the loop over the resources; [ids] are the identifiers so far. *)
Definition resource_errors (limits : ProcessingLimits) (ids : list (list Z)) (r : Resource) : Errors :=
  push_if (is_duplicate (resource_id r) ids) (ValidationError.DuplicateId (resource_id r))
  ++ push_if (negb (zlen (sha256_text r) =? 64) || negb (forallb is_lower_hex (sha256_text r)))
       (ValidationError.ResourceHash (resource_id r))
  ++ match decoded_bytes_with_limits r limits with
     | Ok bytes =>
         push_if (negb (bool_decide (show_digest (sha256 bytes) = sha256_text r)))
           (ValidationError.ResourceHash (resource_id r))
     | Err ResourceDecodeError.Invalid => [ValidationError.ResourceEncoding (resource_id r)]
     | Err ResourceDecodeError.EncodedTooLarge => [ValidationError.Limit "encoded resource bytes"]
     | Err ResourceDecodeError.DecodedTooLarge => [ValidationError.Limit "decoded resource bytes"]
     end.

(** A loop that collects errors and inserts an identifier of each item into a set. *)
Fixpoint each_new {A} (id : A -> list Z) (errors : list (list Z) -> A -> Errors) (ids : list (list Z)) (l : list A) : Errors :=
  match l with
  | [] => []
  | a :: l => errors ids a ++ each_new id errors (id a :: ids) l
  end.

(** ** Media and zones *)

Definition bounds_fit (b : Bounds) (width height : Z) : bool :=
  match checked_i64 (b_x b + b_width b), checked_i64 (b_y b + b_height b) with
  | Some r, Some bottom => (r <=? width) && (bottom <=? height)
  | _, _ => false
  end.

Definition bounds_invalid (b : Bounds) (m : Media) : bool :=
  (b_width b <=? 0) || (b_height b <=? 0) || (b_x b <? 0) || (b_y b <? 0)
  || negb (bounds_fit b (media_width m) (media_height m)).

Definition media_invalid (m : Media) : bool :=
  (media_width m <=? 0) || (media_height m <=? 0) || (media_dpi m =? 0) || bounds_invalid (printable_bounds m) m.

Definition zone_errors (m : Media) (ids : list (list Z)) (z : Zone) : Errors :=
  push_if (is_duplicate (zone_id z) ids) (ValidationError.Zone (zone_id z))
  ++ push_if (bounds_invalid (zone_bounds z) m) (ValidationError.Zone (zone_id z)).

(** [zone_ids]: an empty identifier is not inserted. *)
Definition inserted_zone_ids (zones : list Zone) : list (list Z) :=
  List.filter (fun id => negb (bool_decide (id = []))) (map zone_id zones).

Definition clone_errors (zone_ids : list (list Z)) (z : Zone) : Errors :=
  match clone_of z with
  | Some parent =>
      push_if (negb (bool_decide (parent ∈ zone_ids)))
        (ValidationError.Reference (str "zone " ++ zone_id z ++ str " clones missing " ++ parent))
  | None => []
  end.

(** The loop along the parents of an identifier: the identifier that is seen
    twice, if any. No result when the fuel runs out. *)
Fixpoint parent_loop (parent : list Z -> option (list Z)) (fuel : nat) (seen : list (list Z)) (next : option (list Z)) :
    option (option (list Z)) :=
  match next with
  | None => Some None
  | Some id =>
      match fuel with
      | O => None
      | S fuel => if bool_decide (id ∈ seen) then Some (Some id) else parent_loop parent fuel (id :: seen) (parent id)
      end
  end.

Definition cycle_errors (what : string) (parent : list Z -> option (list Z)) (fuel : nat) (id : list Z) : option Errors :=
  cycle ← parent_loop parent fuel [] (Some id);
  Some (match cycle with Some id => [ValidationError.Cycle (str what ++ id)] | None => [] end).

Definition zone_parent (zones : list Zone) (id : list Z) : option (list Z) :=
  zone ← List.find (fun z => bool_decide (zone_id z = id)) zones; clone_of zone.

(** ** Elements *)

Definition find_element (elements : list Element.t) (id : list Z) : option Element.t :=
  List.find (fun x => bool_decide (element_id (common x) = id)) elements.

Definition group_parent (elements : list Element.t) (id : list Z) : option (list Z) :=
  x ← find_element elements id; group_id (common x).

Definition is_group (x : Element.t) : bool := match x with Element.Group _ _ => true | _ => false end.

(** The [BTreeMap] of resources by identifier keeps the last of equal keys. *)
Definition resource_map (resources : list Resource) (id : list Z) : option Resource :=
  List.find (fun r => bool_decide (resource_id r = id)) (reverse resources).

Definition media_errors (resources : list Resource) (id : list Z) (admits : list Z -> bool) : Errors :=
  match resource_map resources id with
  | Some r => push_if (negb (admits (media_type r))) (ValidationError.ResourceMedia id)
  | None => []
  end.

(** The children of a group; [unique] are those before. *)
Definition child_errors (elements : list Element.t) (group : list Z) (unique : list (list Z)) (child : list Z) : Errors :=
  if bool_decide (child = group) || negb (bool_decide (child ∈ map (fun x => element_id (common x)) elements))
     || bool_decide (child ∈ unique)
  then [ValidationError.Reference (str "group " ++ group ++ str " child " ++ child)]
  else
    push_if (negb (bool_decide (group_parent elements child = Some group)))
      (ValidationError.Reference (str "group " ++ group ++ str " and child " ++ child ++ str " disagree")).

Definition parent_errors (elements : list Element.t) (c : Common) : Errors :=
  match group_id c with
  | None => []
  | Some group =>
      push_if (negb (existsb (fun x => is_group x && bool_decide (element_id (common x) = group)) elements))
        (ValidationError.Reference (element_id c ++ str " has missing/non-group parent " ++ group))
      ++ match find_element elements group with
         | Some (Element.Group _ children) =>
             push_if (negb (bool_decide (element_id c ∈ children)))
               (ValidationError.Reference
                  (element_id c ++ str " names parent " ++ group ++ str ", but is absent from its children"))
         | _ => []
         end
  end.

(** The part of the loop that depends on the kind of element. *)
Definition kind_errors (doc : Document Json) (x : Element.t) : Errors :=
  let id := element_id (common x) in
  match x with
  | Element.Text _ _ font_resource font_size _ _ _ =>
      push_if (font_size <=? 0) (ValidationError.Element id)
      ++ match font_resource with
         | Some font => media_errors (resources doc) font (starts_with (str "font/"))
         | None => []
         end
  | Element.Image _ resource crop =>
      media_errors (resources doc) resource
        (fun t => bool_decide (t = str "image/png") || bool_decide (t = str "image/jpeg"))
      ++ match crop with
         | Some b => push_if ((b_width b <=? 0) || (b_height b <=? 0)) (ValidationError.Element id)
         | None => []
         end
  | Element.Svg _ resource => media_errors (resources doc) resource (fun t => bool_decide (t = str "image/svg+xml"))
  | Element.Line _ stroke_width | Element.Rectangle _ stroke_width _
  | Element.Ellipse _ stroke_width _ | Element.Triangle _ stroke_width _ =>
      push_if (stroke_width <=? 0) (ValidationError.Element id)
  | Element.Group _ children => each_new (fun child => child) (child_errors (elements doc) id) [] children
  | _ => []
  end.

(** [(-360_000..=360_000).contains(..)] *)
Definition within_rotation (r : Z) : bool := between (-360000) 360000 r.

Definition element_errors (doc : Document Json) (ids : list (list Z)) (x : Element.t) : Errors :=
  let c := common x in
  push_if (is_duplicate (element_id c) ids) (ValidationError.DuplicateId (element_id c))
  ++ push_if ((t_width (element_transform c) <=? 0) || (t_height (element_transform c) <=? 0))
       (ValidationError.Geometry (element_id c))
  ++ push_if (negb (within_rotation (rotation_millidegrees (element_transform c)))) (ValidationError.Element (element_id c))
  ++ flat_map (fun id => push_if (negb (bool_decide (id ∈ map resource_id (resources doc)))) (ValidationError.MissingResource id))
       (resource_ids x)
  ++ parent_errors (elements doc) c
  ++ match (constraints ← element_constraints c; constraint_zone constraints) with
     | Some zone =>
         push_if (negb (bool_decide (zone ∈ inserted_zone_ids (zones (media doc)))))
           (ValidationError.Reference (element_id c ++ str " uses missing zone " ++ zone))
     | None => []
     end
  ++ kind_errors doc x.

(** ** Extensions *)

Definition valid_part (part : list Z) : bool :=
  negb (bool_decide (part = []))
  && forallb (fun byte => is_ascii_alphanumeric byte || (byte =? 46) || (byte =? 95) || (byte =? 45)) part.

Definition extension_errors (key : list Z) : Errors :=
  push_if (match split_once 58 key with
           | Some (namespace, name) => negb (valid_part namespace) || negb (valid_part name)
           | None => true
           end) (ValidationError.ExtensionNamespace key).

(** ** Validation *)

Definition count_errors (limits : ProcessingLimits) (doc : Document Json) : Errors :=
  push_if (max_elements limits <? zlen (elements doc)) (ValidationError.Limit "elements")
  ++ push_if (max_resources limits <? zlen (resources doc)) (ValidationError.Limit "resources").

(** The checks after those of the sizes, in order. *)
Definition content_errors (limits : ProcessingLimits) (doc : Document Json) : option Errors :=
  let m := media doc in
  let fuel_zones := S (S (length (zones m))) in
  let fuel_elements := S (S (length (elements doc))) in
  zone_cycles ← mapM (fun z => cycle_errors "zone " (zone_parent (zones m)) fuel_zones (zone_id z)) (zones m);
  group_cycles ←
    mapM (fun x => cycle_errors "group " (group_parent (elements doc)) fuel_elements (element_id (common x))) (elements doc);
  Some (push_if (negb (version doc =? 4)) ValidationError.Version
        ++ push_if (bool_decide (name doc = [])) ValidationError.Name
        ++ push_if (media_invalid m) ValidationError.Media
        ++ each_new resource_id (resource_errors limits) [] (resources doc)
        ++ each_new zone_id (zone_errors m) [] (zones m)
        ++ flat_map (clone_errors (inserted_zone_ids (zones m))) (zones m)
        ++ concat zone_cycles
        ++ each_new (fun x => element_id (common x)) (element_errors doc) (reverse (map resource_id (resources doc)))
             (elements doc)
        ++ concat group_cycles
        ++ flat_map extension_errors (map fst (extensions doc))).

Definition fail_if_any (errors : Errors) : Result (Fault Errors) unit :=
  match errors with [] => Ok tt | _ => fail errors end.

Definition validate_with_limits (doc : Document Json) (limits : ProcessingLimits) : Result (Fault Errors) unit :=
  let? _ := fail_if_any (count_errors limits doc) in
  let? _ := fail_if_any (size_errors limits (resources doc)) in
  let? errors := ok_or (content_errors limits doc) Panicked in
  fail_if_any errors.

Definition validate (doc : Document Json) : Result (Fault Errors) unit := validate_with_limits doc ProcessingLimits_default.
End Validation.
