(* ===== verification/DocumentFacts.v ===== *)
(** Properties of documents (Document.v): validation accepts exactly the
    well-formed documents, and always ends. *)

From stdpp Require Import base gmap sets list strings numbers option.
From S2P Require Import Prelude Text Capabilities Document.

#[local] Open Scope Z_scope.

(** ** Collected errors *)

Lemma push_if_nil condition error : push_if condition error = [] <-> condition = false.
Proof. by destruct condition. Qed.

Lemma app_nil_iff {A} (l k : list A) : l ++ k = [] <-> l = [] /\ k = [].
Proof. split; [apply app_eq_nil|]. by intros [-> ->]. Qed.

Lemma flat_map_nil {A B} (f : A -> list B) l : flat_map f l = [] <-> Forall (fun a => f a = []) l.
Proof.
  induction l as [|a l IH]; cbn; [split; [constructor|done]|]. rewrite app_nil_iff, IH, List.Forall_cons_iff. done.
Qed.

Lemma concat_nil {A} (l : list (list A)) : concat l = [] <-> Forall (fun a => a = []) l.
Proof.
  induction l as [|a l IH]; cbn; [split; [constructor|done]|]. rewrite app_nil_iff, IH, List.Forall_cons_iff. done.
Qed.

Lemma fail_if_any_Ok errors : fail_if_any errors = Ok tt <-> errors = [].
Proof. by destruct errors. Qed.

(** A loop over items with new identifiers finds no error exactly when the
    identifiers are new and different and each item is right. *)
Lemma each_new_nil {A} (id : A -> list Z) (errors : list (list Z) -> A -> list ValidationError.t) (P : A -> Prop) :
  (forall ids a, errors ids a = [] <-> (id a ∉ ids) /\ P a) ->
  forall l ids, each_new id errors ids l = [] <->
    NoDup (map id l) /\ (forall a, a ∈ l -> id a ∉ ids) /\ Forall P l.
Proof.
  intros He. induction l as [|a l IH]; intros ids; cbn [each_new map].
  - split; [|done]. intros _. split_and!; [constructor|by intros a Ha%elem_of_nil|constructor].
  - rewrite app_nil_iff, He, IH, list.NoDup_cons, List.Forall_cons_iff. split.
    + intros ((Ha & Hp) & Hnd & Hnew & Hl). split_and!; try done.
      * intros Hin. apply list_elem_of_In, in_map_iff in Hin as (b & E & Hb).
        apply list_elem_of_In in Hb. apply (Hnew b Hb). rewrite E. left.
      * intros b Hb. apply elem_of_cons in Hb as [->|Hb]; [done|].
        intros Hin. apply (Hnew b Hb). by right.
    + intros ((Ha & Hnd) & Hnew & Hp & Hl). split_and!; try done; [by apply Hnew; left|].
      intros b Hb Hin. apply elem_of_cons in Hin as [E|Hin].
      * apply Ha. rewrite <- E. apply list_elem_of_In, in_map, list_elem_of_In, Hb.
      * apply (Hnew b); [by right|done].
Qed.

Lemma each_new_unique {A} (id : A -> list Z) (errors : list (list Z) -> A -> list ValidationError.t) l ids :
  (forall ids a, errors ids a = [] -> id a ∉ ids) -> each_new id errors ids l = [] ->
  NoDup (map id l) /\ (forall a, a ∈ l -> id a ∉ ids).
Proof.
  intros He. revert ids. induction l as [|a l IH]; intros ids; cbn [each_new map].
  { intros _. split; [constructor|by intros a Ha%elem_of_nil]. }
  rewrite app_nil_iff. intros [Ha Hl]. apply He in Ha. apply IH in Hl as [Hnd Hnew]. split.
  - apply list.NoDup_cons. split; [|done]. intros Hin. apply list_elem_of_In, in_map_iff in Hin as (b & E & Hb).
    apply list_elem_of_In in Hb. apply (Hnew b Hb). rewrite E. left.
  - intros b Hb Hin. apply elem_of_cons in Hb as [->|Hb]; [done|]. apply (Hnew b Hb). by right.
Qed.

Lemma is_duplicate_spec id ids : is_duplicate id ids = false <-> id <> [] /\ (id ∉ ids).
Proof. unfold is_duplicate. by rewrite orb_false_iff, !bool_decide_eq_false. Qed.

(** Looking up by an identifier that is unique. *)
Lemma find_unique {A} (key : A -> list Z) l k a :
  NoDup (map key l) -> (List.find (fun a => bool_decide (key a = k)) l = Some a <-> a ∈ l /\ key a = k).
Proof.
  intros Hnd. split.
  - intros H. apply List.find_some in H as [Hin E]. apply bool_decide_eq_true in E. by rewrite list_elem_of_In.
  - induction l as [|b l IH]; [by intros [Hin%elem_of_nil _]|]. cbn [map] in Hnd. apply list.NoDup_cons in Hnd as [Hb Hnd].
    intros [Hin E]. cbn. apply elem_of_cons in Hin as [->|Hin]; [by rewrite bool_decide_true|].
    rewrite bool_decide_false; [by apply IH|]. intros E'. apply Hb. rewrite E', <- E.
    by apply list_elem_of_In, in_map, list_elem_of_In.
Qed.

Lemma elem_of_ids {A} (key : A -> list Z) l k : k ∈ map key l <-> exists a, a ∈ l /\ key a = k.
Proof. rewrite list_elem_of_In, in_map_iff. setoid_rewrite <- list_elem_of_In. naive_solver. Qed.

(** ** Chains of parents *)

Section Chains.
Variable parent : list Z -> option (list Z).

(** Following the parents of an identifier ends. *)
Inductive ends : list Z -> Prop :=
| ends_root id : parent id = None -> ends id
| ends_child id up : parent id = Some up -> ends up -> ends id.

(** Some steps along the parents. *)
Inductive ancestor : list Z -> list Z -> Prop :=
| ancestor_parent id up : parent id = Some up -> ancestor id up
| ancestor_step id up top : parent id = Some up -> ancestor up top -> ancestor id top.

Lemma ancestor_snoc id mid top : ancestor id mid -> parent mid = Some top -> ancestor id top.
Proof. induction 1; intros E; [by eapply ancestor_step, ancestor_parent|by eapply ancestor_step; eauto]. Qed.

Lemma ends_not_cyclic id : ends id -> ~ ancestor id id.
Proof.
  assert (forall a b, ends a -> ancestor a b -> ends b) as Hup.
  { intros a b Ha Hab. induction Hab; inversion Ha; simplify_eq; auto. }
  induction 1 as [id E|id up E Hup' IH]; intros Hc.
  - inversion Hc; simplify_eq.
  - apply IH. inversion Hc as [? ? E'|? mid ? E' Hm]; simplify_eq.
    + by apply ancestor_parent.
    + by eapply ancestor_snoc.
Qed.

Lemma parent_loop_sound fuel seen next : parent_loop parent fuel seen next = Some None -> forall id, next = Some id -> ends id.
Proof.
  revert seen next. induction fuel as [|fuel IH]; intros seen [id|]; cbn; intros E id' [= <-]; [done|].
  case_bool_decide; [done|]. destruct (parent id) as [up|] eqn:Ep; [|by apply ends_root].
  eapply ends_child; [exact Ep|]. by eapply IH.
Qed.

Lemma parent_loop_complete fuel seen id cycle :
  ends id -> (forall s, s ∈ seen -> ancestor s id) -> parent_loop parent fuel seen (Some id) = Some cycle -> cycle = None.
Proof.
  revert seen id. induction fuel as [|fuel IH]; intros seen id Hid Hseen; cbn; [done|].
  case_bool_decide as Hin.
  { intros _. by destruct (ends_not_cyclic id Hid); apply Hseen. }
  destruct (parent id) as [up|] eqn:E; [|by destruct fuel; intros [= <-]].
  apply IH; [by inversion Hid; simplify_eq|].
  intros s Hs. apply elem_of_cons in Hs as [->|Hs]; [by apply ancestor_parent|].
  by eapply ancestor_snoc; [apply Hseen|].
Qed.

(** The fuel suffices when only the identifiers of a list have parents. *)
Lemma parent_loop_ends dom fuel seen next :
  (forall id up, parent id = Some up -> id ∈ dom) ->
  NoDup seen -> (forall s, s ∈ seen -> s ∈ dom) -> (length dom < fuel + length seen)%nat ->
  is_Some (parent_loop parent fuel seen next).
Proof.
  intros Hdom. revert seen next. induction fuel as [|fuel IH]; intros seen [id|] Hnd Hin Hlen; try by eexists.
  - exfalso. pose proof (submseteq_length _ _ (NoDup_submseteq _ _ Hnd Hin)). lia.
  - cbn. case_bool_decide as Hs; [by eexists|]. destruct (parent id) as [up|] eqn:E; [|by destruct fuel; eexists].
    apply IH; [by apply list.NoDup_cons| |cbn; lia].
    intros s Hs'. apply elem_of_cons in Hs' as [->|Hs']; [by eapply Hdom|by apply Hin].
Qed.

(** The check for cycles finds none exactly when the chain ends. *)
Lemma cycle_errors_spec what dom fuel id :
  (forall id up, parent id = Some up -> id ∈ dom) -> (length dom < fuel)%nat ->
  exists errors, cycle_errors what parent fuel id = Some errors /\ (errors = [] <-> ends id).
Proof.
  intros Hdom Hf. unfold cycle_errors.
  destruct (parent_loop_ends dom fuel [] (Some id) Hdom) as [cycle E];
    [constructor|by intros s Hs%elem_of_nil|cbn; lia|]. rewrite E. cbn. eexists. split; [done|].
  destruct cycle as [cycle|].
  - split; [done|]. intros Hid. apply (parent_loop_complete _ _ _ _ Hid) in E; [done|]. by intros s Hs%elem_of_nil.
  - split; [|done]. intros _. by apply (parent_loop_sound _ _ _ E).
Qed.

Lemma cycle_errors_all {A} what (dom : list (list Z)) fuel (id : A -> list Z) (l : list A) :
  (forall id up, parent id = Some up -> id ∈ dom) -> (length dom < fuel)%nat ->
  exists errors : list (list ValidationError.t), mapM (fun a => cycle_errors what parent fuel (id a)) l = Some errors /\
    (concat errors = [] <-> Forall (fun a => ends (id a)) l).
Proof.
  intros Hdom Hf. induction l as [|a l (es & E & Hes)]; cbn.
  - exists []. split; [done|]. split; [constructor|done].
  - destruct (cycle_errors_spec what dom fuel (id a) Hdom Hf) as (e & -> & He). cbn. rewrite E. cbn.
    exists (e :: es). split; [done|]. cbn. by rewrite app_nil_iff, He, Hes, List.Forall_cons_iff.
Qed.
End Chains.

(** ** Well-formed documents *)

Section WellFormed.
Context {Json : Type}.

(** A resource within the limits: its encoded size, and the estimate of its decoded one. *)
Definition estimate (r : Resource) : option Z := estimated_decoded_len (base64_payload (data_base64 r)).

Definition fits (limits : ProcessingLimits) (r : Resource) : Prop :=
  zlen (data_base64 r) <= max_resource_bytes limits /\
  exists n, estimate r = Some n /\ n <= max_decoded_resource_bytes limits.

Definition total (size : Resource -> Z) (resources : list Resource) : Z :=
  foldr (fun r sum => size r + sum) 0 resources.

Definition encoded_size (r : Resource) : Z := zlen (data_base64 r).
Definition decoded_size (r : Resource) : Z := default 0 (estimate r).

Definition sizes_ok (limits : ProcessingLimits) (resources : list Resource) : Prop :=
  Forall (fits limits) resources /\
  total encoded_size resources <= Z.min usize_max (max_output_bytes limits) /\
  total decoded_size resources <= Z.min usize_max (max_output_bytes limits).

(** The contents of a resource are what its digest says. *)
Definition resource_ok (base64_decode : list Z -> option (list Z)) (sha256 : list Z -> list Z) (limits : ProcessingLimits) (r : Resource) : Prop :=
  resource_id r <> [] /\ zlen (sha256_text r) = 64 /\ forallb is_lower_hex (sha256_text r) = true /\
  exists bytes, decoded_bytes base64_decode r = Some bytes /\
    zlen bytes <= max_decoded_resource_bytes limits /\ show_digest (sha256 bytes) = sha256_text r.

(** A rectangle of positive size within the media. *)
Definition inside (b : Bounds) (m : Media) : Prop :=
  0 < b_width b /\ 0 < b_height b /\ 0 <= b_x b /\ 0 <= b_y b /\
  b_x b + b_width b <= Z.min i64_max (media_width m) /\ b_y b + b_height b <= Z.min i64_max (media_height m).

Definition media_ok (m : Media) : Prop :=
  0 < media_width m /\ 0 < media_height m /\ media_dpi m <> 0 /\ inside (printable_bounds m) m.

(** Zones have their own names, lie on the media, and clone existing zones, not each other in circles. *)
Definition zones_ok (m : Media) : Prop :=
  NoDup (map zone_id (zones m)) /\
  Forall (fun z => zone_id z <> [] /\ inside (zone_bounds z) m) (zones m) /\
  Forall (fun z => forall parent, clone_of z = Some parent -> parent ∈ map zone_id (zones m)) (zones m) /\
  Forall (fun z => ends (zone_parent (zones m)) (zone_id z)) (zones m).

(** An element refers to resources of the right media type. *)
Definition refers (doc : Document Json) (id : list Z) (admits : list Z -> bool) : Prop :=
  exists r, r ∈ resources doc /\ resource_id r = id /\ admits (media_type r) = true.

Definition is_image (t : list Z) : bool := bool_decide (t = str "image/png") || bool_decide (t = str "image/jpeg").
Definition is_svg (t : list Z) : bool := bool_decide (t = str "image/svg+xml").

(** What each kind of element requires; the children of a group are other
    elements, each once, that name the group as theirs. *)
Definition kind_ok (doc : Document Json) (x : Element.t) : Prop :=
  match x with
  | Element.Text _ _ font_resource font_size _ _ _ =>
      0 < font_size /\ forall font, font_resource = Some font -> refers doc font (starts_with (str "font/"))
  | Element.Image _ resource crop =>
      refers doc resource is_image /\ forall b, crop = Some b -> 0 < b_width b /\ 0 < b_height b
  | Element.Svg _ resource => refers doc resource is_svg
  | Element.Line _ stroke_width | Element.Rectangle _ stroke_width _
  | Element.Ellipse _ stroke_width _ | Element.Triangle _ stroke_width _ => 0 < stroke_width
  | Element.Barcode _ _ _ _ | Element.QrCode _ _ _ _ => True
  | Element.Group c children =>
      NoDup children /\
      Forall (fun child => child <> element_id c /\
        exists y, y ∈ elements doc /\ element_id (common y) = child /\ group_id (common y) = Some (element_id c)) children
  end.

(** The group an element names exists and lists it. *)
Definition parent_ok (doc : Document Json) (c : Common) : Prop :=
  forall g, group_id c = Some g ->
  exists gc children, Element.Group gc children ∈ elements doc /\ element_id gc = g /\ element_id c ∈ children.

Definition element_ok (doc : Document Json) (x : Element.t) : Prop :=
  let c := common x in
  element_id c <> [] /\ 0 < t_width (element_transform c) /\ 0 < t_height (element_transform c) /\
  -360000 <= rotation_millidegrees (element_transform c) <= 360000 /\
  parent_ok doc c /\
  (forall k z, element_constraints c = Some k -> constraint_zone k = Some z -> z ∈ map zone_id (zones (media doc))) /\
  kind_ok doc x.

(** A namespaced key: two parts of letters, digits, dots, underscores and dashes around a colon. *)
Definition namespaced (key : list Z) : Prop :=
  exists namespace name, key = namespace ++ 58 :: name /\ valid_part namespace = true /\ valid_part name = true.

(** Identifiers of resources and elements are all different; groups form a forest. *)
Record well_formed (base64_decode : list Z -> option (list Z)) (sha256 : list Z -> list Z) 
    (limits : ProcessingLimits) (doc : Document Json) : Prop := {
  wf_elements_count : zlen (elements doc) <= max_elements limits;
  wf_resources_count : zlen (resources doc) <= max_resources limits;
  wf_sizes : sizes_ok limits (resources doc);
  wf_version : version doc = 4;
  wf_name : name doc <> [];
  wf_media : media_ok (media doc);
  wf_zones : zones_ok (media doc);
  wf_ids : NoDup (map resource_id (resources doc) ++ map (fun x => element_id (common x)) (elements doc));
  wf_resources : Forall (resource_ok base64_decode sha256 limits) (resources doc);
  wf_elements : Forall (element_ok doc) (elements doc);
  wf_groups : Forall (fun x => ends (group_parent (elements doc)) (element_id (common x))) (elements doc);
  wf_extensions : Forall namespaced (map fst (extensions doc));
}.

(** *** Sizes *)

Lemma checked_None max v : checked max v = None <-> ~ in_u max v.
Proof. unfold checked. rewrite <- in_ub_spec. destruct (in_ub max v); naive_solver. Qed.

Lemma estimate_nonneg r n : estimate r = Some n -> 0 <= n.
Proof.
  unfold estimate, estimated_decoded_len. destruct (checked usize_max (zlen _ + 3)); cbn; [|done].
  intros H. apply checked_Some in H as [[? _] ->]. done.
Qed.

Lemma decoded_size_nonneg r : 0 <= decoded_size r.
Proof. unfold decoded_size. destruct (estimate r) eqn:E; cbn; [by apply estimate_nonneg in E|lia]. Qed.

Lemma total_nonneg size l : (forall r, 0 <= size r) -> 0 <= total size l.
Proof. intros H. induction l as [|r l IH]; cbn; [lia|]. specialize (H r). unfold total in IH. lia. Qed.

Lemma resource_totals_spec limits l te td :
  0 <= te <= usize_max -> 0 <= td <= usize_max ->
  (resource_totals limits l te td).1 = [] /\
    (resource_totals limits l te td).2.1 <= max_output_bytes limits /\
    (resource_totals limits l te td).2.2 <= max_output_bytes limits <->
  Forall (fits limits) l /\
    te + total encoded_size l <= Z.min usize_max (max_output_bytes limits) /\
    td + total decoded_size l <= Z.min usize_max (max_output_bytes limits).
Proof.
  revert te td. induction l as [|r l IH]; intros te td Hte Htd; cbn [resource_totals].
  { cbn. split; [|intros (_ & ? & ?); split_and!; (done || lia)].
    intros (_ & ? & ?). split_and!; [constructor|lia|lia]. }
  pose proof (total_nonneg encoded_size l ltac:(intros; apply zlen_nonneg)) as He.
  pose proof (total_nonneg decoded_size l decoded_size_nonneg) as Hd.
  cbn [total foldr]. fold (total encoded_size l) (total decoded_size l).
  pose proof (zlen_nonneg (data_base64 r)) as Hz. pose proof (decoded_size_nonneg r) as Hdr.
  rewrite List.Forall_cons_iff. unfold fits at 1.
  destruct (checked usize_max (te + zlen (data_base64 r))) as [te'|] eqn:Ee.
  2: { apply checked_None in Ee. cbn. split; [by intros [? _]|]. intros (_ & H & _).
       destruct Ee. unfold in_u, encoded_size in *. lia. }
  apply checked_Some in Ee as [Ee ->]. fold (estimate r). destruct (estimate r) as [n|] eqn:En.
  2: { cbn. split; [by intros [? _]|]. intros ((( _ & k & ? & _) & _) & _). congruence. }
  assert (decoded_size r = n) as Hn by (unfold decoded_size; by rewrite En). rewrite Hn in *.
  destruct (checked usize_max (td + n)) as [td'|] eqn:Ed.
  2: { apply checked_None in Ed. cbn. split; [by intros [? _]|]. intros (_ & _ & H). destruct Ed. unfold in_u. lia. }
  apply checked_Some in Ed as [Ed ->]. specialize (IH _ _ Ee Ed).
  destruct (resource_totals limits l (te + zlen (data_base64 r)) (td + n)) as [errors [re rd]].
  cbn [fst snd] in IH |- *. rewrite !app_nil_iff, !push_if_nil, !Z.ltb_ge. unfold encoded_size at 1. split.
  - intros ((H1 & H2 & H3) & H4 & H5). destruct (proj1 IH) as (H6 & H7 & H8); [done|].
    split_and!; [done|by exists n|done|lia|lia].
  - intros ([(H1 & k & E & H2) H3] & H4 & H5). assert (k = n) as -> by congruence.
    destruct (proj2 IH) as (H6 & H7 & H8); [split_and!; [done|lia|lia]|]. split_and!; done.
Qed.

Lemma size_errors_spec limits l : size_errors limits l = [] <-> sizes_ok limits l.
Proof.
  unfold size_errors, sizes_ok. pose proof (resource_totals_spec limits l 0 0 ltac:(done) ltac:(done)) as H.
  rewrite !Z.add_0_l in H. rewrite <- H. destruct (resource_totals limits l 0 0) as [errors [te td]]. cbn.
  by rewrite !app_nil_iff, !push_if_nil, !Z.ltb_ge.
Qed.

(** *** Resources, media and zones *)

Lemma decoded_bytes_with_limits_Ok base64_decode r limits bytes :
  decoded_bytes_with_limits base64_decode r limits = Ok bytes <->
  fits limits r /\ decoded_bytes base64_decode r = Some bytes /\ zlen bytes <= max_decoded_resource_bytes limits.
Proof.
  unfold decoded_bytes_with_limits, fits, decoded_bytes. fold (estimate r).
  destruct (Z.ltb_spec (max_resource_bytes limits) (zlen (data_base64 r))).
  { split; [done|]. intros [[? _] _]. lia. }
  destruct (estimate r) as [n|]; cbn; [|by split; [done|intros [(_ & ? & ? & _) _]]].
  destruct (Z.ltb_spec (max_decoded_resource_bytes limits) n).
  { split; [done|]. intros [(_ & k & [= ->] & ?) _]. lia. }
  destruct (base64_decode _) as [b|]; cbn; [|by split; [done|intros (_ & ? & _)]].
  destruct (Z.ltb_spec (max_decoded_resource_bytes limits) (zlen b)).
  { split; [done|]. intros (_ & [= ->] & ?). lia. }
  split; [intros [= ->]|by intros (_ & [= ->] & _)]. split_and!; try done. by exists n.
Qed.

Lemma resource_errors_nil base64_decode sha256 limits ids r :
  resource_errors base64_decode sha256 limits ids r = [] <->
  (resource_id r ∉ ids) /\ resource_ok base64_decode sha256 limits r /\ fits limits r.
Proof.
  unfold resource_errors, resource_ok. rewrite !app_nil_iff, !push_if_nil, is_duplicate_spec.
  rewrite orb_false_iff, !negb_false_iff, Z.eqb_eq.
  pose proof (decoded_bytes_with_limits_Ok base64_decode r limits) as H.
  destruct (decoded_bytes_with_limits base64_decode r limits) as [bytes|e].
  - destruct (proj1 (H bytes) eq_refl) as (Hf & Hd & Hl). rewrite push_if_nil, negb_false_iff, bool_decide_eq_true. split.
    + intros ((Hne & Hn) & (H64 & Hx) & Hs). split_and!; try done. by exists bytes.
    + intros (Hn & (Hne & H64 & Hx & b & Hb & _ & Hs) & _). rewrite Hb in Hd. injection Hd as ->. done.
  - split.
    + intros (_ & _ & He). by destruct e.
    + intros (_ & (_ & _ & _ & b & Hb & Hl & _) & Hf). by specialize (proj2 (H b)) as E; discriminate E.
Qed.

Lemma bounds_invalid_spec b m : bounds_invalid b m = false <-> inside b m.
Proof.
  unfold bounds_invalid, inside, bounds_fit.
  rewrite !orb_false_iff, negb_false_iff, !Z.leb_gt, !Z.ltb_ge.
  destruct (checked_i64 (b_x b + b_width b)) as [r|] eqn:Er; [destruct (checked_i64 (b_y b + b_height b)) as [bt|] eqn:Eb|].
  - apply checked_i64_Some in Er as [Hr ->], Eb as [Hb ->]. rewrite andb_true_iff, !Z.leb_le. lia.
  - split; [naive_solver|]. intros (? & ? & ? & ? & ? & ?). unfold checked_i64 in Eb.
    rewrite (proj2 (Z.leb_le i64_min _)), (proj2 (Z.leb_le _ i64_max)) in Eb by (unfold i64_min; lia). done.
  - split; [naive_solver|]. intros (? & ? & ? & ? & ? & ?). unfold checked_i64 in Er.
    rewrite (proj2 (Z.leb_le i64_min _)), (proj2 (Z.leb_le _ i64_max)) in Er by (unfold i64_min; lia). done.
Qed.

Lemma media_invalid_spec m : media_invalid m = false <-> media_ok m.
Proof.
  unfold media_invalid, media_ok. rewrite !orb_false_iff, bounds_invalid_spec, !Z.leb_gt, Z.eqb_neq. tauto.
Qed.

Lemma zone_errors_nil m ids z :
  zone_errors m ids z = [] <-> (zone_id z ∉ ids) /\ zone_id z <> [] /\ inside (zone_bounds z) m.
Proof. unfold zone_errors. rewrite app_nil_iff, !push_if_nil, is_duplicate_spec, bounds_invalid_spec. tauto. Qed.

(** With names that are not empty, all are in the set of the code. *)
Lemma elem_of_inserted zones id : id <> [] -> id ∈ inserted_zone_ids zones <-> id ∈ map zone_id zones.
Proof.
  intros Hne. unfold inserted_zone_ids. rewrite !list_elem_of_In, filter_In, negb_true_iff, bool_decide_eq_false. tauto.
Qed.

Lemma inserted_nonempty zones : Forall (fun z => zone_id z <> []) zones -> inserted_zone_ids zones = map zone_id zones.
Proof.
  intros H. unfold inserted_zone_ids. induction H as [|z l Hz _ IH]; [done|]. cbn. by rewrite bool_decide_false, IH.
Qed.

Lemma clone_errors_nil ids z :
  clone_errors ids z = [] <-> forall parent, clone_of z = Some parent -> parent ∈ ids.
Proof.
  unfold clone_errors. destruct (clone_of z) as [p|]; [|done].
  rewrite push_if_nil, negb_false_iff, bool_decide_eq_true. naive_solver.
Qed.

Lemma zone_parent_dom zones id up : zone_parent zones id = Some up -> id ∈ map zone_id zones.
Proof.
  unfold zone_parent. destruct (List.find _ zones) as [z|] eqn:E; [|done]. intros _.
  apply List.find_some in E as [Hin E]. apply bool_decide_eq_true in E. rewrite <- E.
  by apply list_elem_of_In, in_map.
Qed.

Lemma group_parent_dom elements id up :
  group_parent elements id = Some up -> id ∈ map (fun x => element_id (common x)) elements.
Proof.
  unfold group_parent, find_element. destruct (List.find _ elements) as [x|] eqn:E; [|done]. intros _.
  apply List.find_some in E as [Hin E]. apply bool_decide_eq_true in E. rewrite <- E.
  by apply list_elem_of_In, (in_map (fun x => element_id (common x))).
Qed.

Lemma extension_errors_nil key : extension_errors key = [] <-> namespaced key.
Proof.
  unfold extension_errors, namespaced. rewrite push_if_nil. split.
  - destruct (split_once 58 key) as [[namespace name]|] eqn:E; [|done].
    rewrite orb_false_iff, !negb_false_iff. intros [? ?]. exists namespace, name.
    by apply split_once_Some in E as [-> _].
  - intros (namespace & name & -> & Hn & Hm). rewrite split_once_app; [by rewrite Hn, Hm|].
    intros Hin. unfold valid_part in Hn. apply andb_true_iff in Hn as [_ Hn].
    rewrite forallb_forall in Hn. apply list_elem_of_In, Hn in Hin. discriminate Hin.
Qed.

(** *** Elements *)

Context (doc : Document Json).
Hypothesis resources_unique : NoDup (map resource_id (resources doc)).
Hypothesis elements_unique : NoDup (map (fun x => element_id (common x)) (elements doc)).

Lemma find_element_spec id x : find_element (elements doc) id = Some x <-> x ∈ elements doc /\ element_id (common x) = id.
Proof. by apply (find_unique (fun x => element_id (common x))). Qed.

Lemma group_parent_spec id up :
  group_parent (elements doc) id = Some up <->
  exists x, x ∈ elements doc /\ element_id (common x) = id /\ group_id (common x) = Some up.
Proof.
  unfold group_parent. pose proof (find_element_spec id) as H. destruct (find_element (elements doc) id) as [x|]; cbn.
  - destruct (proj1 (H x) eq_refl) as [Hin E]. split; [by exists x|]. intros (y & Hy & Ey & Eg).
    by injection (proj2 (H y) (conj Hy Ey)) as ->.
  - split; [done|]. intros (y & Hy & Ey & _). discriminate (proj2 (H y) (conj Hy Ey)).
Qed.

Lemma resource_map_spec id r : resource_map (resources doc) id = Some r <-> r ∈ resources doc /\ resource_id r = id.
Proof.
  unfold resource_map. rewrite find_unique; [by rewrite elem_of_reverse|].
  assert (map resource_id (reverse (resources doc)) = reverse (map resource_id (resources doc))) as ->.
  { unfold reverse. rewrite <- !List.rev_alt. apply List.map_rev. }
  by rewrite reverse_Permutation.
Qed.

Lemma refers_spec id admits :
  id ∈ map resource_id (resources doc) /\ media_errors (resources doc) id admits = [] <-> refers doc id admits.
Proof.
  unfold media_errors, refers. rewrite elem_of_ids. pose proof (resource_map_spec id) as H.
  destruct (resource_map (resources doc) id) as [r|].
  - rewrite push_if_nil, negb_false_iff. destruct (proj1 (H r) eq_refl) as [Hin E]. split.
    + intros [_ Ha]. by exists r.
    + intros (r' & Hin' & E' & Ha). injection (proj2 (H r') (conj Hin' E')) as ->. split; [by exists r'|done].
  - split; [|intros (r & Hin & E & _); discriminate (proj2 (H r) (conj Hin E))].
    intros [(r & Hin & E) _]. discriminate (proj2 (H r) (conj Hin E)).
Qed.

Lemma parent_errors_nil c : parent_errors (elements doc) c = [] <-> parent_ok doc c.
Proof.
  unfold parent_errors, parent_ok. destruct (group_id c) as [g|]; [|by split].
  rewrite app_nil_iff, push_if_nil, negb_false_iff, existsb_exists. split.
  - intros [(x & Hx & Eg) Hc] ? [= <-]. apply andb_true_iff in Eg as [Eg Ei]. apply bool_decide_eq_true in Ei.
    apply list_elem_of_In in Hx. rewrite (proj2 (find_element_spec g x)) in Hc by done.
    destruct x as [| | | | | | | | |gc children]; try done. exists gc, children.
    rewrite push_if_nil, negb_false_iff, bool_decide_eq_true in Hc. done.
  - intros H. destruct (H g eq_refl) as (gc & children & Hin & E & Hc). split.
    + exists (Element.Group gc children). split; [by apply list_elem_of_In|]. cbn. by apply bool_decide_eq_true.
    + rewrite (proj2 (find_element_spec g (Element.Group gc children))) by done.
      by rewrite push_if_nil, negb_false_iff, bool_decide_eq_true.
Qed.

Lemma child_errors_nil g ids child :
  child_errors (elements doc) g ids child = [] <->
  (child ∉ ids) /\ child <> g /\
  exists y, y ∈ elements doc /\ element_id (common y) = child /\ group_id (common y) = Some g.
Proof.
  unfold child_errors. rewrite <- group_parent_spec.
  destruct (bool_decide (child = g) || _ || _) eqn:E.
  - split; [done|]. intros (Hn & Hne & Hp). exfalso.
    rewrite !orb_true_iff, negb_true_iff, bool_decide_eq_false, !bool_decide_eq_true in E.
    apply group_parent_dom in Hp. tauto.
  - rewrite !orb_false_iff, negb_false_iff, !bool_decide_eq_false, bool_decide_eq_true in E.
    rewrite push_if_nil, negb_false_iff, bool_decide_eq_true. tauto.
Qed.

Lemma kind_errors_nil x :
  flat_map (fun id => push_if (negb (bool_decide (id ∈ map resource_id (resources doc)))) (ValidationError.MissingResource id))
    (resource_ids x) = [] /\ kind_errors doc x = [] <-> kind_ok doc x.
Proof.
  rewrite flat_map_nil. destruct x as [c text [font|] size ha va ov|c r crop|c r|c w|c w f|c w f|c w f|c d s h|c d e q|c children];
    cbn [resource_ids kind_errors kind_ok common]; rewrite ?List.Forall_cons_iff, ?app_nil_iff, ?push_if_nil, ?negb_false_iff,
      ?bool_decide_eq_true, ?Z.leb_gt.
  - pose proof (refers_spec font (starts_with (str "font/"))) as Hr. split.
    + intros ((? & _) & ? & ?). split; [done|]. intros ? [= <-]. by apply Hr.
    + intros [? Hf]. destruct (proj2 Hr (Hf font eq_refl)). by split_and!.
  - split; [by intros (_ & ? & _)|]. intros [? _]. by split_and!.
  - fold (is_image). rewrite <- refers_spec. destruct crop as [b|].
    + rewrite push_if_nil, orb_false_iff, !Z.leb_gt. split.
      * intros ((? & _) & ? & ? & ?). split; [done|]. by intros ? [= <-].
      * intros [[? ?] Hb]. destruct (Hb b eq_refl). by split_and!.
    + split; [by intros ((? & _) & ? & _)|]. intros [[? ?] _]. by split_and!.
  - rewrite <- refers_spec. split; [by intros ((? & _) & ?)|]. intros [? ?]. by split_and!.
  - split; [by intros [_ ?]|done].
  - split; [by intros [_ ?]|done].
  - split; [by intros [_ ?]|done].
  - split; [by intros [_ ?]|done].
  - done.
  - done.
  - rewrite (each_new_nil _ _ _ (child_errors_nil (element_id c))), List.map_id. split.
    + by intros (_ & ? & _ & ?).
    + intros [? ?]. split_and!; try done. by intros ? _ ?%elem_of_nil.
Qed.

Lemma element_errors_nil ids x :
  Forall (fun z => zone_id z <> []) (zones (media doc)) ->
  element_errors doc ids x = [] <-> (element_id (common x) ∉ ids) /\ element_ok doc x.
Proof.
  intros Hz. unfold element_errors, element_ok. rewrite !app_nil_iff, !push_if_nil, is_duplicate_spec, parent_errors_nil.
  rewrite orb_false_iff, !Z.leb_gt, negb_false_iff. unfold within_rotation, between.
  rewrite andb_true_iff, !Z.leb_le, inserted_nonempty by done. rewrite <- kind_errors_nil.
  assert ((match (constraints ← element_constraints (common x); constraint_zone constraints) with
    | Some zone => push_if (negb (bool_decide (zone ∈ map zone_id (zones (media doc)))))
        (ValidationError.Reference (element_id (common x) ++ str " uses missing zone " ++ zone))
    | None => [] end) = [] <->
    (forall k z, element_constraints (common x) = Some k -> constraint_zone k = Some z -> z ∈ map zone_id (zones (media doc)))) as ->.
  { destruct (element_constraints (common x)) as [k|]; cbn; [|by split].
    destruct (constraint_zone k) as [z|] eqn:E; [|split; [intros _ ? ? [= <-]; congruence|done]].
    rewrite push_if_nil, negb_false_iff, bool_decide_eq_true. split.
    - intros Hin ? ? [= <-] E'. congruence.
    - intros H. by apply (H k z). }
  tauto.
Qed.
End WellFormed.

(** ** Validation *)

Section Validate.
Variable base64_decode : list Z -> option (list Z).
Variable sha256 : list Z -> list Z.
Context {Json : Type}.

#[local] Abbreviation validate_with_limits := (validate_with_limits base64_decode sha256).
#[local] Abbreviation content_errors := (content_errors base64_decode sha256).
#[local] Abbreviation well_formed := (well_formed base64_decode sha256).

Lemma content_errors_spec limits (doc : Document Json) :
  exists errors, content_errors limits doc = Some errors /\
    (errors = [] <->
     version doc = 4 /\ name doc <> [] /\ media_ok (media doc) /\
     each_new resource_id (resource_errors base64_decode sha256 limits) [] (resources doc) = [] /\
     each_new zone_id (zone_errors (media doc)) [] (zones (media doc)) = [] /\
     Forall (fun z => clone_errors (inserted_zone_ids (zones (media doc))) z = []) (zones (media doc)) /\
     Forall (fun z => ends (zone_parent (zones (media doc))) (zone_id z)) (zones (media doc)) /\
     each_new (fun x => element_id (common x)) (element_errors doc) (reverse (map resource_id (resources doc)))
       (elements doc) = [] /\
     Forall (fun x => ends (group_parent (elements doc)) (element_id (common x))) (elements doc) /\
     Forall namespaced (map fst (extensions doc))).
Proof.
  destruct (cycle_errors_all (zone_parent (zones (media doc))) "zone " (map zone_id (zones (media doc)))
    (S (S (length (zones (media doc))))) zone_id (zones (media doc))) as (ze & Ez & Hz);
    [apply zone_parent_dom|rewrite length_map; lia|].
  destruct (cycle_errors_all (group_parent (elements doc)) "group " (map (fun x => element_id (common x)) (elements doc))
    (S (S (length (elements doc)))) (fun x => element_id (common x)) (elements doc)) as (ge & Eg & Hg);
    [apply group_parent_dom|rewrite length_map; lia|].
  unfold Document.content_errors. rewrite Ez. cbn [mbind option_bind]. rewrite Eg. cbn [mbind option_bind].
  eexists. split; [done|].
  rewrite !app_nil_iff, !push_if_nil, !flat_map_nil, Hz, Hg, negb_false_iff, Z.eqb_eq, bool_decide_eq_false.
  rewrite media_invalid_spec.
  assert (Forall (fun key => extension_errors key = []) (map fst (extensions doc)) <->
    Forall namespaced (map fst (extensions doc))) as ->; [|done].
  apply Forall_iff. intros key. apply extension_errors_nil.
Qed.

(** The identifiers of the two kinds are different exactly when those of each
    kind are and no element has that of a resource. *)
Lemma ids_unique (doc : Document Json) :
  NoDup (map resource_id (resources doc) ++ map (fun x => element_id (common x)) (elements doc)) <->
  NoDup (map resource_id (resources doc)) /\ NoDup (map (fun x => element_id (common x)) (elements doc)) /\
  (forall x, x ∈ elements doc -> element_id (common x) ∉ reverse (map resource_id (resources doc))).
Proof.
  rewrite list.NoDup_app. setoid_rewrite elem_of_reverse. split.
  - intros (Hr & Hd & He). split; [done|split; [done|]]. intros x Hx Hin. apply (Hd _ Hin).
    apply (proj2 (elem_of_ids (fun x => element_id (common x)) _ _)). by exists x.
  - intros (Hr & He & Hd). split; [done|split; [|done]]. intros id Hid Hin.
    apply (proj1 (elem_of_ids (fun x => element_id (common x)) _ _)) in Hin as (x & Hx & <-). by apply (Hd x).
Qed.

Lemma zones_ok_spec m :
  zones_ok m <->
  each_new zone_id (zone_errors m) [] (zones m) = [] /\
  Forall (fun z => clone_errors (inserted_zone_ids (zones m)) z = []) (zones m) /\
  Forall (fun z => ends (zone_parent (zones m)) (zone_id z)) (zones m).
Proof.
  rewrite (each_new_nil _ _ _ (zone_errors_nil m)). unfold zones_ok.
  assert (Forall (fun z => zone_id z <> [] /\ inside (zone_bounds z) m) (zones m) ->
    Forall (fun z => forall parent, clone_of z = Some parent -> parent ∈ map zone_id (zones m)) (zones m) <->
    Forall (fun z => clone_errors (inserted_zone_ids (zones m)) z = []) (zones m)) as Hc.
  { intros Hz. apply Forall_iff. intros z. rewrite clone_errors_nil, inserted_nonempty; [done|].
    eapply List.Forall_impl; [|exact Hz]. by intros ? [? _]. }
  split.
  - intros (Hnd & Hz & Hcl & He). split; [split; [done|split; [by intros ? _ ?%elem_of_nil|done]]|split; [by apply Hc|done]].
  - intros ((Hnd & _ & Hz) & Hcl & He). split; [done|split; [done|split; [by apply Hc|done]]].
Qed.

Lemma elements_spec (doc : Document Json) :
  zones_ok (media doc) -> NoDup (map resource_id (resources doc)) ->
  each_new (fun x => element_id (common x)) (element_errors doc) (reverse (map resource_id (resources doc))) (elements doc) = []
  <-> NoDup (map (fun x => element_id (common x)) (elements doc)) /\
    (forall x, x ∈ elements doc -> element_id (common x) ∉ reverse (map resource_id (resources doc))) /\
    Forall (element_ok doc) (elements doc).
Proof.
  intros (_ & Hz & _) Hr. assert (Forall (fun z => zone_id z <> []) (zones (media doc))) as Hne.
  { eapply List.Forall_impl; [|exact Hz]. by intros ? [? _]. }
  destruct (decide (NoDup (map (fun x => element_id (common x)) (elements doc)))) as [He|He].
  - by rewrite (each_new_nil _ _ _ (fun ids x => element_errors_nil doc Hr He ids x Hne)).
  - split; [|by intros [? _]]. intros H. destruct He. eapply (each_new_unique (fun x => element_id (common x))); [|exact H].
    intros ids x E. unfold element_errors in E. rewrite app_nil_iff, push_if_nil in E. destruct E as [E _].
    by apply is_duplicate_spec in E as [_ E].
Qed.

(** What the passes over the document find, together. *)
Lemma well_formed_iff limits (doc : Document Json) :
  well_formed limits doc <->
  count_errors limits doc = [] /\ size_errors limits (resources doc) = [] /\
  (version doc = 4 /\ name doc <> [] /\ media_ok (media doc) /\
   each_new resource_id (resource_errors base64_decode sha256 limits) [] (resources doc) = [] /\
   each_new zone_id (zone_errors (media doc)) [] (zones (media doc)) = [] /\
   Forall (fun z => clone_errors (inserted_zone_ids (zones (media doc))) z = []) (zones (media doc)) /\
   Forall (fun z => ends (zone_parent (zones (media doc))) (zone_id z)) (zones (media doc)) /\
   each_new (fun x => element_id (common x)) (element_errors doc) (reverse (map resource_id (resources doc)))
     (elements doc) = [] /\
   Forall (fun x => ends (group_parent (elements doc)) (element_id (common x))) (elements doc) /\
   Forall namespaced (map fst (extensions doc))).
Proof.
  unfold count_errors. rewrite app_nil_iff, !push_if_nil, !Z.ltb_ge, size_errors_spec.
  rewrite (each_new_nil _ _ _ (resource_errors_nil base64_decode sha256 limits)). split.
  - intros [? ? Hs ? ? ? Hz [Hr [He Hd]]%ids_unique Hro Heo ? ?].
    rewrite elements_spec by done. apply zones_ok_spec in Hz as (? & ? & ?).
    assert (Forall (fun r => resource_ok base64_decode sha256 limits r /\ fits limits r) (resources doc)).
    { apply List.Forall_and; [done|]. by destruct Hs. }
    split_and?; try done. by intros ? _ ?%elem_of_nil.
  - intros ([? ?] & ? & ? & ? & ? & (Hr & _ & Hro) & Hz1 & Hz2 & Hz3 & He & ? & ?).
    pose proof (proj2 (zones_ok_spec _) (conj Hz1 (conj Hz2 Hz3))) as Hz.
    apply elements_spec in He as (He & Hd & Heo); [|done|done]. constructor; try done.
    + by apply ids_unique.
    + eapply List.Forall_impl; [|exact Hro]. by intros ? [? _].
Qed.

Lemma validate_accepts limits (doc : Document Json) : validate_with_limits doc limits = Ok tt <-> well_formed limits doc.
Proof.
  unfold Document.validate_with_limits. destruct (content_errors_spec limits doc) as (errors & -> & He).
  rewrite well_formed_iff, <- He. cbn [ok_or rbind].
  destruct (count_errors limits doc), (size_errors limits (resources doc)), errors; cbn; naive_solver.
Qed.

Lemma validate_ends limits (doc : Document Json) : panics (validate_with_limits doc limits) = false.
Proof.
  unfold Document.validate_with_limits. destruct (content_errors_spec limits doc) as (errors & -> & _).
  by destruct (count_errors limits doc), (size_errors limits (resources doc)), errors.
Qed.

(** C15: Validation accepts exactly the well-formed documents: version 4, within
    the limits; resources that are what their digests say; zones inside the
    media that clone existing zones; elements and resources with different
    names; references that resolve to resources of the right media type;
    groups that agree with their children and form a forest; namespaced
    extensions. It always ends: following the parents of a zone or a group
    never runs out of fuel. *)
Theorem document_validation_spec limits (doc : Document Json) :
  (validate_with_limits doc limits = Ok tt <-> well_formed limits doc) /\
  panics (validate_with_limits doc limits) = false.
Proof. split; [apply validate_accepts|apply validate_ends]. Qed.
End Validate.

(** ** Examples *)

Definition example_common (id : string) (group : option (list Z)) : Common := {|
  element_id := str id;
  element_transform := {| t_x := 0; t_y := 0; t_width := 100; t_height := 100; rotation_millidegrees := 0 |};
  z_order := 0; visible := true; locked := false; group_id := group; element_constraints := None |}.

(** Two zones of a label, of which one is a clone of [clone]. *)
Definition example_media (clone : string) : Media := {|
  media_width := 2000; media_height := 1000; media_unit := Micrometre; media_dpi := 203; orientation := Landscape;
  printable_bounds := {| b_x := 0; b_y := 0; b_width := 2000; b_height := 1000 |};
  shape := ShapeRectangle; continuous := false;
  zones := [
    {| zone_id := str "a"; zone_bounds := {| b_x := 0; b_y := 0; b_width := 1000; b_height := 1000 |};
       clone_of := None |};
    {| zone_id := str "b"; zone_bounds := {| b_x := 1000; b_y := 0; b_width := 1000; b_height := 1000 |};
       clone_of := Some (str clone) |}] |}.

(** A group of a text and a picture, with a decoder that reads everything as
    one byte and a digest that is 32 zeros. *)
Definition example_document (clone : string) (group : option (list Z)) : Document unit := {|
  version := 4;
  name := str "label";
  media := example_media clone;
  coordinate_system := {| cs_unit := Micrometre; cs_origin := TopLeft; cs_rounding := HalfAwayFromZero |};
  elements := [
    Element.Group (example_common "g" group) [str "t"; str "i"];
    Element.Text (example_common "t" (Some (str "g"))) (str "{{name}}") None 12 AlignLeft AlignTop Clip;
    Element.Image (example_common "i" (Some (str "g"))) (str "logo") None];
  resources := [
    {| resource_id := str "logo"; media_type := str "image/png"; sha256_text := replicate 64 48;
       data_base64 := str "data:image/png;base64,AA==" |}];
  fields := [];
  extensions := [(str "org.example:note", tt)] |}.

#[local] Abbreviation example_validate :=
  (validate (Json := unit) (fun _ => Some [0]) (fun _ => replicate 32 0)).

Example valid_document : example_validate (example_document "a" None) = Ok tt.
Proof. vm_compute. done. Qed.

(** A zone that clones itself, and a group that is its own parent. *)
Example cyclic_zone : example_validate (example_document "b" None) = fail [ValidationError.Cycle (str "zone b")].
Proof. vm_compute. done. Qed.

Example cyclic_group : example_validate (example_document "a" (Some (str "g"))) =
  fail [ValidationError.Reference (str "g names parent g, but is absent from its children");
        ValidationError.Cycle (str "group g"); ValidationError.Cycle (str "group g"); ValidationError.Cycle (str "group g")].
Proof. vm_compute. done. Qed.
