(* ===== verification/Materialize.v ===== *)
(** Records put into label templates (crates/mb-printer-core/src/materialize.rs):
    the texts of a document evaluated with the fields of a record, and batches
    that share the zones of a page among records. The JSON serializer is a
    parameter, of which only the length of the output matters. *)

From stdpp Require Import base gmap sets list strings numbers option.
From S2P Require Import Prelude Text Capabilities Template Document.

#[local] Open Scope Z_scope.

(** ** Data *)

Record MaterializeOptions := { o_locale : list Z; o_current_date : list Z }.

Definition MaterializeOptions_default : MaterializeOptions :=
  {| o_locale := str "en"; o_current_date := str "1970-01-01" |}.

Module MaterializeError.
Inductive t :=
| InvalidDocument (count : Z)
| Template (element : Z) (source : TemplateError.t)
| LimitExceeded
| NoZones
| DuplicateZone (index : Z)
| UnknownZone (index : Z).

Definition code (e : t) : string :=
  match e with
  | InvalidDocument _ => "materialize.invalid_document"
  | Template _ _ => "materialize.template"
  | LimitExceeded => "materialize.limit_exceeded"
  | NoZones => "batch.no_zones"
  | DuplicateZone _ => "batch.duplicate_zone"
  | UnknownZone _ => "batch.unknown_zone"
  end.
End MaterializeError.

#[local] Abbreviation Res := (Result (Fault MaterializeError.t)).
#[local] Abbreviation Fields := (gmap (list Z) (list Z)).

Record BatchPlacement := { placement_record : Z; placement_page : Z; placement_zone : list Z }.

Record ZoneBatchPlan := { page_count : Z; placements : list BatchPlacement }.

(** A [BTreeMap] of the pairs, a later one replacing an earlier one of the same key. *)
Definition btree_map (pairs : list (list Z * list Z)) : Fields :=
  foldl (fun m pair => <[pair.1 := pair.2]> m) ∅ pairs.

Definition with_elements {Json} (doc : Document Json) (l : list Element.t) : Document Json := {|
  version := version doc; name := name doc; media := media doc; coordinate_system := coordinate_system doc;
  elements := l; resources := resources doc; fields := fields doc; extensions := extensions doc |}.

Definition with_name {Json} (doc : Document Json) (s : list Z) : Document Json := {|
  version := version doc; name := s; media := media doc; coordinate_system := coordinate_system doc;
  elements := elements doc; resources := resources doc; fields := fields doc; extensions := extensions doc |}.

(** ** Fields and texts *)

Definition field_bytes (record : Fields) : option Z :=
  foldl (fun total '(key, value) =>
    total ← total; total ← checked usize_max (total + zlen key); checked usize_max (total + zlen value))
    (Some 0) (map_to_list record).

Definition validate_fields (record : Fields) (limits : ProcessingLimits) : Res unit :=
  if max_elements limits <? zlen (map_to_list record) then fail MaterializeError.LimitExceeded
  else
    match field_bytes record with
    | Some bytes => if max_output_bytes limits <? bytes then fail MaterializeError.LimitExceeded else Ok tt
    | None => fail MaterializeError.LimitExceeded
    end.

(** The text that an element shows or encodes, and its replacement. *)
Definition element_text (x : Element.t) : option (list Z) :=
  match x with
  | Element.Text _ text _ _ _ _ _ => Some text
  | Element.Barcode _ data _ _ | Element.QrCode _ data _ _ => Some data
  | _ => None
  end.

Definition set_text (value : list Z) (x : Element.t) : Element.t :=
  match x with
  | Element.Text c _ font_resource font_size horizontal_align vertical_align overflow =>
      Element.Text c value font_resource font_size horizontal_align vertical_align overflow
  | Element.Barcode c _ symbology human_readable => Element.Barcode c value symbology human_readable
  | Element.QrCode c _ error_correction quiet_zone => Element.QrCode c value error_correction quiet_zone
  | x => x
  end.

Section Materialize.
(** The characters outside ASCII in upper and lower case, base64 and SHA-256. *)
Variables unicode_uppercase unicode_lowercase : list Z -> list Z.
Variable base64_decode : list Z -> option (list Z).
Variable sha256 : list Z -> list Z.
Context {Json : Type}.
(** The lengths of [serde_json::to_vec] of a document and of pages, or its failure. *)
Variable json_len : Document Json -> option Z.
Variable json_len_pages : list (Document Json) -> option Z.

#[local] Abbreviation Doc := (Document Json).

(** The loop over the elements; [element] is the index and [output_bytes] the
    length of the texts so far. *)
Fixpoint evaluate_elements (record : Fields) (options : MaterializeOptions) (limits : ProcessingLimits)
    (element output_bytes : Z) (l : list Element.t) : Res (list Element.t) :=
  match l with
  | [] => Ok []
  | item :: l =>
      match element_text item with
      | None =>
          let? l := evaluate_elements record options limits (element + 1) output_bytes l in
          Ok (item :: l)
      | Some value =>
          let context :=
            {| Template.fields := record; locale := o_locale options; current_date := o_current_date options |} in
          let? value := map_raised (MaterializeError.Template element)
            (evaluate_with_context unicode_uppercase unicode_lowercase value context) in
          let? output_bytes := raising (ok_or (checked usize_max (output_bytes + zlen value)) MaterializeError.LimitExceeded) in
          if max_output_bytes limits <? output_bytes then fail MaterializeError.LimitExceeded
          else
            let? l := evaluate_elements record options limits (element + 1) output_bytes l in
            Ok (set_text value item :: l)
      end
  end.

Definition materialize_unchecked (document : Doc) (record : Fields) (options : MaterializeOptions)
    (limits : ProcessingLimits) : Res Doc :=
  let? l := evaluate_elements record options limits 0 0 (elements document) in
  Ok (with_elements document l).

(** ** Documents *)

Definition check_resource (limits : ProcessingLimits) (resource : Resource) (total_resource_bytes : Z) : Res Z :=
  let encoded := zlen (data_base64 resource) in
  let? decoded := raising (ok_or (bytes ← checked usize_max (encoded + 3); checked usize_max (bytes / 4 * 3))
    MaterializeError.LimitExceeded) in
  if (max_resource_bytes limits <? encoded) || (max_decoded_resource_bytes limits <? decoded)
  then fail MaterializeError.LimitExceeded
  else
    let? total_resource_bytes :=
      raising (ok_or (checked usize_max (total_resource_bytes + encoded)) MaterializeError.LimitExceeded) in
    if max_output_bytes limits <? total_resource_bytes then fail MaterializeError.LimitExceeded
    else Ok total_resource_bytes.

Definition validate_document (document : Doc) (limits : ProcessingLimits) : Res unit :=
  if (max_elements limits <? zlen (elements document)) || (max_resources limits <? zlen (resources document))
  then fail MaterializeError.LimitExceeded
  else
    let? _ := for_each (check_resource limits) (resources document) 0 in
    map_raised (fun errors => MaterializeError.InvalidDocument (zlen errors)) (validate base64_decode sha256 document).

Definition validate_inputs (document : Doc) (record : Fields) (limits : ProcessingLimits) : Res unit :=
  let? _ := validate_document document limits in
  validate_fields record limits.

Definition materialize_record_with_limits (document : Doc) (record : Fields) (options : MaterializeOptions)
    (limits : ProcessingLimits) : Res Doc :=
  let? _ := validate_inputs document record limits in
  let? output := materialize_unchecked document record options limits in
  let? bytes := raising (ok_or (json_len output) MaterializeError.LimitExceeded) in
  if max_output_bytes limits <? bytes then fail MaterializeError.LimitExceeded
  else Ok output.

Definition materialize_record (document : Doc) (record : Fields) (options : MaterializeOptions) : Res Doc :=
  materialize_record_with_limits document record options ProcessingLimits_default.

(** ** Batches *)

(** The closure over the identifiers; [seen] are those before [index]. *)
Fixpoint selected_zones (zones : list Zone) (seen : list (list Z)) (index : Z) (zone_ids : list (list Z)) : Res (list Zone) :=
  match zone_ids with
  | [] => Ok []
  | id :: zone_ids =>
      if bool_decide (id ∈ seen) then fail (MaterializeError.DuplicateZone index)
      else
        let? zone := raising (ok_or (List.find (fun zone => bool_decide (zone_id zone = id)) zones)
          (MaterializeError.UnknownZone index)) in
        let? rest := selected_zones zones (id :: seen) (index + 1) zone_ids in
        Ok (zone :: rest)
  end.

Definition place_record (zones : list Zone) (slots : Z) (record : Z) (placements : list BatchPlacement) :
    Res (list BatchPlacement) :=
  let? zone := index zones (record mod slots) in
  Ok (placements ++ [{| placement_record := record; placement_page := record / slots; placement_zone := zone_id zone |}]).

Definition plan_zone_batch_with_limits (document : Doc) (record_count : Z) (zone_ids : list (list Z))
    (limits : ProcessingLimits) : Res ZoneBatchPlan :=
  if bool_decide (zone_ids = []) then fail MaterializeError.NoZones
  else
    let? _ := validate_document document limits in
    if max_sheet_items limits <? record_count then fail MaterializeError.LimitExceeded
    else
      let? zones := selected_zones (zones (media document)) [] 0 zone_ids in
      let? slots := raising (ok_or (checked u32_max (zlen zones)) MaterializeError.LimitExceeded) in
      let? page_count :=
        (if record_count =? 0 then Ok 0
         else
           let? n := raising (ok_or (checked u32_max (record_count + (slots - 1))) MaterializeError.LimitExceeded) in
           Ok (n / slots)) in
      if max_pages limits <? page_count then fail MaterializeError.LimitExceeded
      else
        let? placements := for_each (place_record zones slots) (seqZ 0 record_count) [] in
        Ok {| page_count := page_count; placements := placements |}.

Definition plan_zone_batch (document : Doc) (record_count : Z) (zone_ids : list (list Z)) : Res ZoneBatchPlan :=
  plan_zone_batch_with_limits document record_count zone_ids ProcessingLimits_default.

(** [format!("{id}:record:{}:zone:{}", ..)] *)
Definition rewritten (placement : BatchPlacement) (id : list Z) : list Z :=
  id ++ str ":record:" ++ show_dec (placement_record placement) ++ str ":zone:" ++ placement_zone placement.

Fixpoint rewritten_ids (placement : BatchPlacement) (limits : ProcessingLimits) (l : list Element.t) :
    Res (list (list Z * list Z)) :=
  match l with
  | [] => Ok []
  | x :: l =>
      let id := element_id (common x) in
      if max_output_bytes limits <? zlen (rewritten placement id) then fail MaterializeError.LimitExceeded
      else
        let? l := rewritten_ids placement limits l in
        Ok ((id, rewritten placement id) :: l)
  end.

Definition new_id (ids : Fields) (id : list Z) : Res (list Z) :=
  raising (ok_or (ids !! id) MaterializeError.LimitExceeded).

Fixpoint new_ids (ids : Fields) (l : list (list Z)) : Res (list (list Z)) :=
  match l with
  | [] => Ok []
  | id :: l =>
      let? id := new_id ids id in
      let? l := new_ids ids l in
      Ok (id :: l)
  end.

Definition rewrite_common (ids : Fields) (zone : list Z) (c : Common) : Res Common :=
  let? id := new_id ids (element_id c) in
  let? group :=
    (match group_id c with
     | Some group => let? group := new_id ids group in Ok (Some group)
     | None => Ok None
     end) in
  Ok {| element_id := id; element_transform := element_transform c; z_order := z_order c; visible := visible c;
        locked := locked c; group_id := group;
        element_constraints :=
          Some {| preserve_aspect := match element_constraints c with Some k => preserve_aspect k | None => false end;
                  constraint_zone := Some zone |} |}.

Definition rewrite_element (ids : Fields) (zone : list Z) (x : Element.t) : Res Element.t :=
  let? c := rewrite_common ids zone (common x) in
  match x with
  | Element.Group _ children =>
      let? children := new_ids ids children in
      Ok (Element.Group c children)
  | x => Ok (set_common c x)
  end.

Fixpoint rewrite_all (ids : Fields) (zone : list Z) (l : list Element.t) : Res (list Element.t) :=
  match l with
  | [] => Ok []
  | x :: l =>
      let? x := rewrite_element ids zone x in
      let? l := rewrite_all ids zone l in
      Ok (x :: l)
  end.

Definition rewrite_elements (l : list Element.t) (placement : BatchPlacement) (limits : ProcessingLimits) :
    Res (list Element.t) :=
  let? pairs := rewritten_ids placement limits l in
  rewrite_all (btree_map pairs) (placement_zone placement) l.

Definition with_z_order (z : Z) (c : Common) : Common := {|
  element_id := element_id c; element_transform := element_transform c; z_order := z; visible := visible c;
  locked := locked c; group_id := group_id c; element_constraints := element_constraints c |}.

Definition push_element (x : Element.t) (page : Doc) : Res Doc :=
  let n := zlen (elements page) in
  if n <=? i32_max
  then Ok (with_elements page (elements page ++ [set_common (with_z_order n (common x)) x]))
  else fail MaterializeError.LimitExceeded.

(** One turn of the loop over the placements. *)
Definition place (document : Doc) (records : list Fields) (options : MaterializeOptions) (limits : ProcessingLimits)
    (placement : BatchPlacement) (pages : list Doc) : Res (list Doc) :=
  let? record := index records (placement_record placement) in
  let? _ := validate_fields record limits in
  let? materialized := materialize_unchecked document record options limits in
  let? l := rewrite_elements (elements materialized) placement limits in
  let? page := index pages (placement_page placement) in
  let? page := for_each push_element l page in
  assign pages (placement_page placement) page.

Definition empty_page (document : Doc) (page : Z) : Doc :=
  with_elements (with_name document (name document ++ str " page " ++ show_dec (page + 1))) [].

Definition materialize_zone_batch_with_limits (document : Doc) (records : list Fields) (zone_ids : list (list Z))
    (options : MaterializeOptions) (limits : ProcessingLimits) : Res (list Doc) :=
  let? record_count := raising (ok_or (checked u32_max (zlen records)) MaterializeError.LimitExceeded) in
  let? plan := plan_zone_batch_with_limits document record_count zone_ids limits in
  if page_count plan =? 0 then Ok []
  else
    let? page_elements :=
      raising (ok_or (checked usize_max (zlen (elements document) * zlen zone_ids)) MaterializeError.LimitExceeded) in
    if max_elements limits <? page_elements then fail MaterializeError.LimitExceeded
    else
      let? document_bytes := raising (ok_or (json_len document) MaterializeError.LimitExceeded) in
      match checked usize_max (document_bytes * page_count plan) with
      | None => fail MaterializeError.LimitExceeded
      | Some bytes =>
          if max_output_bytes limits <? bytes then fail MaterializeError.LimitExceeded
          else
            let pages := map (empty_page document) (seqZ 0 (page_count plan)) in
            let? pages := for_each (place document records options limits) (placements plan) pages in
            let? output_bytes := raising (ok_or (json_len_pages pages) MaterializeError.LimitExceeded) in
            if max_output_bytes limits <? output_bytes then fail MaterializeError.LimitExceeded
            else Ok pages
      end.

Definition materialize_zone_batch (document : Doc) (records : list Fields) (zone_ids : list (list Z))
    (options : MaterializeOptions) : Res (list Doc) :=
  materialize_zone_batch_with_limits document records zone_ids options ProcessingLimits_default.
End Materialize.
