(* ===== verification/MaterializeFacts.v ===== *)
(** Properties of materialisation (Materialize.v): what a record puts into a
    document, where a batch puts its records, and that its pages are valid
    documents again. *)

From stdpp Require Import base gmap sets list strings numbers option.
From S2P Require Import Prelude Text Capabilities Template TemplateFacts Document DocumentFacts Materialize.

#[local] Open Scope Z_scope.

#[local] Abbreviation Fields := (gmap (list Z) (list Z)).

(** A binding of an operation that cannot panic. *)
Lemma panics_bind_raising {E A B} (r : Result E A) (k : A -> Result (Fault E) B) :
  (forall a, r = Ok a -> panics (k a) = false) -> panics (rbind (raising r) k) = false.
Proof. intros H. apply panics_bind; [apply panics_raising|]. intros a Ha. by apply H, raising_Ok. Qed.

Lemma panics_for_each {E S A} (body : A -> S -> Result (Fault E) S) l s :
  (forall a s, a ∈ l -> panics (body a s) = false) -> panics (for_each body l s) = false.
Proof.
  revert s. induction l as [|a l IH]; intros s H; [done|]. cbn [for_each].
  apply panics_bind; [apply H; left|]. intros s' _. apply IH. intros b s'' Hb. apply H. by right.
Qed.

Lemma Forall2_in_l {A B} (R : A -> B -> Prop) l k a : Forall2 R l k -> a ∈ l -> exists b, b ∈ k /\ R a b.
Proof.
  induction 1 as [|x y l k Hxy _ IH]; [by intros Ha%elem_of_nil|]. intros [->|Ha]%elem_of_cons.
  - exists y. split; [left|done].
  - destruct (IH Ha) as (b & Hb & Hab). exists b. split; [by right|done].
Qed.

Lemma Forall2_in_r {A B} (R : A -> B -> Prop) l k b : Forall2 R l k -> b ∈ k -> exists a, a ∈ l /\ R a b.
Proof. intros H Hb. apply Forall2_flip in H. by apply (Forall2_in_l _ _ _ _ H). Qed.

Lemma Forall2_zip {A B} (R : A -> B -> Prop) l k a b : Forall2 R l k -> (a, b) ∈ zip l k -> R a b.
Proof.
  induction 1 as [|x y l k Hxy _ IH]; cbn; [by intros ?%elem_of_nil|]. intros [E|Hin]%elem_of_cons; [|by apply IH].
  by injection E as -> ->.
Qed.

(** A loop keeps an invariant without which its body might panic. *)
Lemma panics_for_each_inv {E S A} (I : S -> Prop) (body : A -> S -> Result (Fault E) S) l s :
  I s -> (forall a s, a ∈ l -> I s -> panics (body a s) = false /\ forall s', body a s = Ok s' -> I s') ->
  panics (for_each body l s) = false.
Proof.
  revert s. induction l as [|a l IH]; intros s Hs H; [done|]. cbn [for_each].
  destruct (H a s) as [Hp Hi]; [left|done|]. apply panics_bind; [done|]. intros s' Es.
  apply IH; [by apply Hi|]. intros b s'' Hb. apply H. by right.
Qed.

Definition sum (l : list Z) : Z := foldr Z.add 0 l.

Lemma sum_nonneg {A} (size : A -> Z) l : (forall a, 0 <= size a) -> 0 <= sum (map size l).
Proof. intros H. induction l as [|a l IH]; cbn; [lia|]. specialize (H a). unfold sum in IH. lia. Qed.

(** ** Records *)

Definition record_size (record : Fields) : Z := sum (map (fun pair => zlen pair.1 + zlen pair.2) (map_to_list record)).

(** A record within the limits of the number of fields and their size. *)
Definition record_ok (limits : ProcessingLimits) (record : Fields) : Prop :=
  zlen (map_to_list record) <= max_elements limits /\
  record_size record <= Z.min usize_max (max_output_bytes limits).

Lemma field_bytes_none (l : list (list Z * list Z)) :
  foldl (fun total '(key, value) =>
    total ← total; total ← checked usize_max (total + zlen key); checked usize_max (total + zlen value)) None l = None.
Proof. induction l as [|[key value] l IH]; [done|]. apply IH. Qed.

Lemma field_bytes_Some record bytes :
  field_bytes record = Some bytes <-> bytes = record_size record /\ record_size record <= usize_max.
Proof.
  unfold field_bytes, record_size. generalize (map_to_list record) as l. intros l.
  assert (forall start, 0 <= start <= usize_max ->
    foldl (fun total '(key, value) =>
      total ← total; total ← checked usize_max (total + zlen key); checked usize_max (total + zlen value)) (Some start) l
    = Some bytes <->
    bytes = start + sum (map (fun pair => zlen pair.1 + zlen pair.2) l) /\
    start + sum (map (fun pair => zlen pair.1 + zlen pair.2) l) <= usize_max) as H; [|rewrite H; [done|by unfold usize_max]].
  induction l as [|[key value] l IH]; intros start Hs; cbn [foldl map].
  { unfold sum. cbn. split; [intros [= <-]; lia|]. intros [-> _]. f_equal. lia. }
  pose proof (sum_nonneg (fun pair => zlen pair.1 + zlen pair.2) l) as Hn. cbn [fst snd].
  assert (0 <= sum (map (fun pair => zlen pair.1 + zlen pair.2) l)) as Hsum.
  { apply Hn. intros pair. pose proof (zlen_nonneg pair.1). pose proof (zlen_nonneg pair.2). lia. }
  pose proof (zlen_nonneg key). pose proof (zlen_nonneg value).
  cbn [sum foldr]. fold (sum (map (fun pair => zlen pair.1 + zlen pair.2) l)). cbn [mbind option_bind].
  destruct (checked usize_max (start + zlen key)) as [n|] eqn:E1; cbn [mbind option_bind].
  2: { apply checked_None in E1. rewrite field_bytes_none. split; [done|]. intros [_ ?]. destruct E1. unfold in_u. lia. }
  apply checked_Some in E1 as [_ ->].
  destruct (checked usize_max (start + zlen key + zlen value)) as [n|] eqn:E2; cbn [mbind option_bind].
  2: { apply checked_None in E2. rewrite field_bytes_none. split; [done|]. intros [_ ?]. destruct E2. unfold in_u. lia. }
  apply checked_Some in E2 as [[_ Hle] ->]. rewrite IH by lia. split; intros [-> ?]; lia.
Qed.

Lemma validate_fields_Ok record limits : validate_fields record limits = Ok tt <-> record_ok limits record.
Proof.
  unfold validate_fields, record_ok. destruct (Z.ltb_spec (max_elements limits) (zlen (map_to_list record))).
  { split; [done|lia]. }
  pose proof (field_bytes_Some record) as Hf. destruct (field_bytes record) as [bytes|].
  - destruct (proj1 (Hf bytes) eq_refl) as [-> ?]. destruct (Z.ltb_spec (max_output_bytes limits) (record_size record)).
    + split; [done|lia].
    + split; [lia|done].
  - split; [done|]. intros [_ ?].
    discriminate (proj2 (Hf (record_size record)) ltac:(lia)).
Qed.

Lemma validate_fields_ends record limits : panics (validate_fields record limits) = false.
Proof. unfold validate_fields. destruct (_ <? _), (field_bytes record); try done. by destruct (_ <? _). Qed.

(** ** Elements with the texts of a record *)

Section Materialized.
Variables unicode_uppercase unicode_lowercase : list Z -> list Z.
Variable base64_decode : list Z -> option (list Z).
Variable sha256 : list Z -> list Z.
Context {Json : Type}.
Variable json_len : Document Json -> option Z.
Variable json_len_pages : list (Document Json) -> option Z.

#[local] Abbreviation Doc := (Document Json).
#[local] Abbreviation evaluate_elements := (evaluate_elements unicode_uppercase unicode_lowercase).
#[local] Abbreviation validate_document := (validate_document base64_decode sha256).
#[local] Abbreviation well_formed := (well_formed base64_decode sha256).

(** The text of an element evaluated with the fields of a record; the rest is the same. *)
Definition filled_in (record : Fields) (options : MaterializeOptions) (x y : Element.t) : Prop :=
  match element_text x with
  | None => y = x
  | Some text =>
      exists value,
        evaluate_with_context unicode_uppercase unicode_lowercase text
          {| Template.fields := record; locale := o_locale options; current_date := o_current_date options |} = Ok value /\
        y = set_text value x
  end.

Definition text_size (x : Element.t) : Z := default 0 (zlen <$> element_text x).

(** The texts together are within the limit. *)
Definition texts_fit (limits : ProcessingLimits) (before : Z) (l : list Element.t) : Prop :=
  Exists (fun x => is_Some (element_text x)) l ->
  before + sum (map text_size l) <= Z.min usize_max (max_output_bytes limits).

Lemma text_size_nonneg x : 0 <= text_size x.
Proof. unfold text_size. destruct (element_text x) as [s|]; cbn; [apply zlen_nonneg|done]. Qed.

Lemma element_text_set value x : is_Some (element_text x) -> element_text (set_text value x) = Some value.
Proof. by destruct x; cbn; intros [? [=]]. Qed.

Lemma filled_in_None record options x y : element_text x = None -> filled_in record options x y <-> y = x.
Proof. unfold filled_in. by intros ->. Qed.

Lemma no_texts_size l : ~ Exists (fun x => is_Some (element_text x)) l -> sum (map text_size l) = 0.
Proof.
  induction l as [|x l IH]; intros H; [done|]. cbn [map sum foldr]. fold (sum (map text_size l)).
  rewrite IH; [|by intros He; apply H; right]. unfold text_size. destruct (element_text x) as [text|] eqn:E; [|done].
  destruct H. left. by eexists.
Qed.

Lemma texts_fit_text limits before x l value :
  element_text x = Some value ->
  texts_fit limits before (x :: l) <->
  before + zlen value <= Z.min usize_max (max_output_bytes limits) /\ texts_fit limits (before + zlen value) l.
Proof.
  intros E. unfold texts_fit. cbn [map sum foldr]. fold (sum (map text_size l)).
  assert (text_size x = zlen value) as -> by (unfold text_size; by rewrite E).
  pose proof (sum_nonneg text_size l text_size_nonneg). split.
  - intros H'. assert (Exists (fun x => is_Some (element_text x)) (x :: l)) as Hx by (left; rewrite E; by eexists).
    specialize (H' Hx). split; lia.
  - intros [H1 H2] _. destruct (decide (Exists (fun x => is_Some (element_text x)) l)) as [He|He].
    + specialize (H2 He). lia.
    + rewrite (no_texts_size l He). lia.
Qed.

Lemma texts_fit_plain limits before x l :
  element_text x = None -> texts_fit limits before (x :: l) <-> texts_fit limits before l.
Proof.
  intros E. unfold texts_fit. rewrite Exists_cons. cbn [map sum foldr]. fold (sum (map text_size l)).
  assert (text_size x = 0) as -> by (unfold text_size; by rewrite E).
  rewrite E, Z.add_0_l. split; [by intros H He; apply H; right|]. intros H [[? [=]]|He]. by apply H.
Qed.

Lemma evaluate_elements_Ok record options limits element before l l' :
  0 <= before ->
  evaluate_elements record options limits element before l = Ok l' <->
  Forall2 (filled_in record options) l l' /\ texts_fit limits before l'.
Proof.
  revert element before l'. induction l as [|x l IH]; intros element before l' Hb; cbn [Materialize.evaluate_elements].
  { split; [intros [= <-]; split; [constructor|by intros He%Exists_nil]|]. intros [H _]. by inversion H. }
  destruct (element_text x) as [text|] eqn:Ex.
  - split.
    + intros H. inv_ok H. apply map_raised_Ok in Hx. apply checked_Some in Hx0 as [[? ?] ->]. apply Z.ltb_ge in Hb0.
      apply IH in Hx1 as [Hf Ht]; [|lia]. subst l'. split.
      * constructor; [|done]. unfold filled_in. rewrite Ex. by exists x0.
      * apply (texts_fit_text _ _ _ _ x0); [by apply element_text_set|]. split; [lia|done].
    + intros [(y & k & Hy & Hf & ->)%list.Forall2_cons_inv_l Ht]. unfold filled_in in Hy. rewrite Ex in Hy. destruct Hy as (value & -> & ->).
      cbn [map_raised map_err rbind]. apply (texts_fit_text _ _ _ _ value) in Ht as [Hle Ht]; [|by apply element_text_set].
      pose proof (zlen_nonneg value). rewrite checked_id by (unfold in_u; lia). cbn [ok_or raising map_err rbind].
      rewrite (proj2 (Z.ltb_ge _ _)) by lia. rewrite (proj2 (IH _ (before + zlen value) k ltac:(lia)) (conj Hf Ht)). done.
  - split.
    + intros H. inv_ok H. apply IH in Hx as [Hf Ht]; [|done]. subst l'. split.
      * constructor; [by apply filled_in_None|done].
      * by apply texts_fit_plain.
    + intros [(y & k & Hy & Hf & ->)%list.Forall2_cons_inv_l Ht]. apply filled_in_None in Hy as ->; [|done].
      apply texts_fit_plain in Ht; [|done]. by rewrite (proj2 (IH _ _ k Hb) (conj Hf Ht)).
Qed.

Lemma evaluate_elements_ends record options limits element before l :
  panics (evaluate_elements record options limits element before l) = false.
Proof.
  revert element before. induction l as [|x l IH]; intros element before; cbn; [done|].
  destruct (element_text x) as [text|]; [|by apply panics_bind].
  apply panics_bind; [rewrite panics_map_raised; unfold evaluate_with_context; destruct (_ <? _); [done|by apply evaluate_loop_ends]|].
  intros value _. apply panics_bind_raising. intros n _. destruct (_ <? _); [done|]. by apply panics_bind.
Qed.

(** *** Documents within the limits *)

(** A valid document whose counts and resources are within the limits given. *)
Definition document_ok (limits : ProcessingLimits) (doc : Doc) : Prop :=
  zlen (elements doc) <= max_elements limits /\ zlen (resources doc) <= max_resources limits /\
  Forall (fun r => (encoded_size r + 3) / 4 * 3 <= Z.min usize_max (max_decoded_resource_bytes limits) /\
    encoded_size r + 3 <= usize_max /\ encoded_size r <= max_resource_bytes limits) (resources doc) /\
  (resources doc <> [] -> sum (map encoded_size (resources doc)) <= Z.min usize_max (max_output_bytes limits)) /\
  well_formed ProcessingLimits_default doc.

Lemma check_resources_Ok limits l before :
  0 <= before ->
  is_ok (for_each (check_resource limits) l before) = true <->
  Forall (fun r => (encoded_size r + 3) / 4 * 3 <= Z.min usize_max (max_decoded_resource_bytes limits) /\
    encoded_size r + 3 <= usize_max /\ encoded_size r <= max_resource_bytes limits) l /\
  (l <> [] -> before + sum (map encoded_size l) <= Z.min usize_max (max_output_bytes limits)).
Proof.
  revert before. induction l as [|r l IH]; intros before Hb; cbn [for_each]; [by split|].
  rewrite List.Forall_cons_iff. cbn [map sum foldr]. fold (sum (map encoded_size l)).
  assert (0 <= sum (map encoded_size l)) as Hs by (apply sum_nonneg; intros; apply zlen_nonneg).
  unfold check_resource at 1. fold (encoded_size r). assert (0 <= encoded_size r) as Hr by apply zlen_nonneg.
  assert (0 <= (encoded_size r + 3) / 4) as Hq by (apply Z.div_pos; lia).
  destruct (checked usize_max (encoded_size r + 3)) as [n|] eqn:E1; cbn [mbind option_bind ok_or raising map_err rbind].
  2: { apply checked_None in E1. split; [done|]. intros [[? _] _]. destruct E1. unfold in_u. lia. }
  apply checked_Some in E1 as [[_ ?] ->].
  destruct (checked usize_max ((encoded_size r + 3) / 4 * 3)) as [n|] eqn:E2; cbn [mbind option_bind ok_or raising map_err rbind].
  2: { apply checked_None in E2. split; [done|]. intros [[? _] _]. destruct E2. unfold in_u. lia. }
  apply checked_Some in E2 as [[_ ?] ->].
  destruct (_ || _) eqn:E3; cbn [rbind].
  { split; [done|]. intros [[? _] _]. apply orb_true_iff in E3 as [?|?]; blia. }
  destruct (checked usize_max (before + encoded_size r)) as [n|] eqn:E4; cbn [ok_or raising map_err rbind].
  2: { apply checked_None in E4. split; [done|]. intros [_ H']. specialize (H' ltac:(done)). destruct E4. unfold in_u. lia. }
  apply checked_Some in E4 as [[_ ?] ->].
  destruct (Z.ltb_spec (max_output_bytes limits) (before + encoded_size r)); cbn [rbind].
  { split; [done|]. intros [_ H']. specialize (H' ltac:(done)). lia. }
  rewrite IH by lia. clear IH. split.
  - intros [Hl Ht]. split; [split; [|done]; blia|]. intros _. destruct l as [|r' l]; [cbn in *; lia|]. specialize (Ht ltac:(done)). lia.
  - intros [[_ Hl] Ht]. split; [done|]. intros _. specialize (Ht ltac:(done)). lia.
Qed.

Lemma validate_document_Ok (doc : Doc) limits : validate_document doc limits = Ok tt <-> document_ok limits doc.
Proof.
  unfold Materialize.validate_document, document_ok. destruct (_ || _) eqn:E.
  { split; [done|]. intros (? & ? & _). apply orb_true_iff in E as [?|?]; blia. }
  pose proof (check_resources_Ok limits (resources doc) 0 ltac:(done)) as H. rewrite Z.add_0_l in H.
  rewrite <- validate_accepts. fold (validate base64_decode sha256 doc).
  destruct (for_each _ _ 0) as [n|e]; cbn [rbind is_ok] in *.
  - rewrite map_raised_Ok. destruct (proj1 H eq_refl). split; [|by intros (_ & _ & _ & _ & ?)]. intros ?. split_and!; (done || blia).
  - split; [done|]. intros (_ & _ & ? & ? & _). by discriminate (proj2 H).
Qed.

Lemma check_resource_ends limits r n : panics (check_resource limits r n) = false.
Proof.
  unfold check_resource. apply panics_bind_raising. intros d _. destruct (_ || _); [done|].
  apply panics_bind_raising. intros t _. by destruct (_ <? _).
Qed.

Lemma validate_document_ends (doc : Doc) limits : panics (validate_document doc limits) = false.
Proof.
  unfold Materialize.validate_document. destruct (_ || _); [done|].
  apply panics_bind; [apply panics_for_each; intros; apply check_resource_ends|]. intros _ _.
  rewrite panics_map_raised. apply validate_ends.
Qed.

Lemma materialize_unchecked_Ok (doc : Doc) record options limits out :
  materialize_unchecked unicode_uppercase unicode_lowercase doc record options limits = Ok out <->
  exists l, out = with_elements doc l /\ Forall2 (filled_in record options) (elements doc) l /\ texts_fit limits 0 l.
Proof.
  unfold materialize_unchecked. rewrite rbind_Ok. setoid_rewrite evaluate_elements_Ok; [|done]. split.
  - intros (l & H & [= <-]). by exists l.
  - intros (l & -> & H). by exists l.
Qed.

(** *** Copies of elements *)

(** The parts of two elements that depend on their kind; [f] renames the children of a group. *)
Definition same_kind (f : list Z -> list Z) (x y : Element.t) : Prop :=
  match x, y with
  | Element.Text _ _ font size _ _ _, Element.Text _ _ font' size' _ _ _ => font' = font /\ size' = size
  | Element.Image _ resource crop, Element.Image _ resource' crop' => resource' = resource /\ crop' = crop
  | Element.Svg _ resource, Element.Svg _ resource' => resource' = resource
  | Element.Line _ stroke, Element.Line _ stroke' => stroke' = stroke
  | Element.Rectangle _ stroke _, Element.Rectangle _ stroke' _ => stroke' = stroke
  | Element.Ellipse _ stroke _, Element.Ellipse _ stroke' _ => stroke' = stroke
  | Element.Triangle _ stroke _, Element.Triangle _ stroke' _ => stroke' = stroke
  | Element.Barcode _ _ _ _, Element.Barcode _ _ _ _ | Element.QrCode _ _ _ _, Element.QrCode _ _ _ _ => True
  | Element.Group _ children, Element.Group _ children' => children' = map f children
  | _, _ => False
  end.

(** [y] is [x] with the names changed by [f], in the same zone or in another zone of the document. *)
Definition copy_of (doc : Doc) (f : list Z -> list Z) (x y : Element.t) : Prop :=
  element_id (common y) = f (element_id (common x)) /\
  element_transform (common y) = element_transform (common x) /\
  group_id (common y) = f <$> group_id (common x) /\
  (element_constraints (common y) = element_constraints (common x) \/
   exists k z, element_constraints (common y) = Some k /\ constraint_zone k = Some z /\ z ∈ map zone_id (zones (media doc))) /\
  same_kind f x y.

Section Copies.
Context (doc doc' : Doc) (parts : list (list Z -> list Z)).
Hypothesis doc_ok : well_formed ProcessingLimits_default doc.

#[local] Abbreviation ids := (map (fun x => element_id (common x)) (elements doc)).

Hypothesis copies_count : zlen (elements doc') <= max_elements ProcessingLimits_default.
Hypothesis copies_unique : NoDup (map (fun x => element_id (common x)) (elements doc')).
Hypothesis copies_from : forall y, y ∈ elements doc' -> exists f x, f ∈ parts /\ x ∈ elements doc /\ copy_of doc f x y.
Hypothesis copies_all : forall f x, f ∈ parts -> x ∈ elements doc -> exists y, y ∈ elements doc' /\ copy_of doc f x y.
Hypothesis names_apart : forall f id id', f ∈ parts -> id ∈ ids -> id' ∈ ids -> f id = f id' -> id = id'.
Hypothesis names_new : forall f id, f ∈ parts -> id ∈ ids -> f id <> [] /\ (f id ∉ map resource_id (resources doc)).
Hypothesis same_version : version doc' = version doc.
Hypothesis same_name : name doc' <> [].
Hypothesis same_media : media doc' = media doc.
Hypothesis same_resources : resources doc' = resources doc.
Hypothesis same_extensions : extensions doc' = extensions doc.

Lemma element_is_ok x : x ∈ elements doc -> element_ok doc x.
Proof. intros Hx. pose proof (wf_elements _ _ _ _ doc_ok) as H. rewrite List.Forall_forall in H. by apply H, list_elem_of_In. Qed.

Lemma id_of x : x ∈ elements doc -> element_id (common x) ∈ ids.
Proof. intros Hx. apply (elem_of_ids (fun x => element_id (common x))). by exists x. Qed.

Lemma copy_refers id admits : refers doc id admits -> refers doc' id admits.
Proof. unfold refers. by rewrite same_resources. Qed.

Lemma copy_parent_ok f x y : f ∈ parts -> x ∈ elements doc -> copy_of doc f x y -> parent_ok doc' (common y).
Proof.
  intros Hf Hx (Eid & _ & Eg & _) g Hg. rewrite Hg in Eg.
  destruct (group_id (common x)) as [g0|] eqn:E0; [|done]. injection Eg as ->.
  destruct (element_is_ok x Hx) as (_ & _ & _ & _ & Hp & _). destruct (Hp g0 E0) as (gc & children & Hin & <- & Hc).
  destruct (copies_all f _ Hf Hin) as (z & Hz & Ez & _ & _ & _ & Hk).
  destruct z as [| | | | | | | | |gc' children']; try done. cbn in Hk, Ez. subst children'.
  exists gc', (map f children). split_and!; [done|done|]. rewrite Eid.
  apply list_elem_of_In, in_map, list_elem_of_In, Hc.
Qed.

Lemma copy_kind_ok f x y : f ∈ parts -> x ∈ elements doc -> copy_of doc f x y -> kind_ok doc' y.
Proof.
  intros Hf Hx (Eid & _ & Eg & _ & Hk). destruct (element_is_ok x Hx) as (_ & _ & _ & _ & _ & _ & Ho).
  destruct x as [c text font size|c r crop|c r|c w|c w fl|c w fl|c w fl|c d s h|c d e q|c children],
    y as [c' text' font' size'|c' r' crop'|c' r'|c' w'|c' w' fl'|c' w' fl'|c' w' fl'|c' d' s' h'|c' d' e' q'|c' children'];
    cbn in Hk; try done.
  - destruct Hk as [-> ->], Ho as [? Hr]. split; [done|]. intros ft Eft. by apply copy_refers, Hr.
  - destruct Hk as [-> ->], Ho as [? Hr]. split; [by apply copy_refers|done].
  - subst r'. by apply copy_refers.
  - by subst w'.
  - by subst w'.
  - by subst w'.
  - by subst w'.
  - subst children'. cbn in Ho, Eid |- *. destruct Ho as [Hnd Hch]. rewrite List.Forall_forall in Hch. split.
    + apply NoDup_fmap_2_strong; [|done]. intros a b Ha Hb E. apply list_elem_of_In in Ha, Hb.
      destruct (Hch a Ha) as (_ & u & Hu & <- & _), (Hch b Hb) as (_ & v & Hv & <- & _).
      eapply (names_apart f); eauto using id_of.
    + apply List.Forall_forall. intros a Ha. apply in_map_iff in Ha as (b & <- & Hb).
      destruct (Hch b Hb) as (Hne & u & Hu & <- & Hgu). split.
      * rewrite Eid. intros E. apply Hne. eapply (names_apart f); eauto using id_of. by apply (id_of (Element.Group c children)).
      * destruct (copies_all f u Hf Hu) as (z & Hz & Ez & _ & Egz & _). exists z. rewrite Egz, Hgu, Eid. done.
Qed.

Lemma copy_ok y : y ∈ elements doc' -> element_ok doc' y.
Proof.
  intros Hy. destruct (copies_from y Hy) as (f & x & Hf & Hx & Hc).
  destruct (element_is_ok x Hx) as (_ & Hw & Hh & Hr & _ & Hz & _). pose proof Hc as (Eid & Et & _ & Ez & _).
  unfold element_ok. rewrite Et. split.
  { rewrite Eid. apply names_new; [done|by apply id_of]. }
  split; [done|]. split; [done|]. split; [done|]. split; [by eapply copy_parent_ok|].
  split; [|by eapply copy_kind_ok]. rewrite same_media. intros k z Ek Ekz. destruct Ez as [Ez|(k' & z' & Ez & Ekz' & Hin)].
  - rewrite Ek in Ez. by eapply Hz.
  - congruence.
Qed.

Lemma copy_group_parent f id : f ∈ parts -> id ∈ ids ->
  group_parent (elements doc') (f id) = f <$> group_parent (elements doc) id.
Proof.
  intros Hf Hid. pose proof (wf_ids _ _ _ _ doc_ok) as Hu. apply ids_unique in Hu as (_ & Hu & _).
  apply (elem_of_ids (fun x => element_id (common x))) in Hid as (x & Hx & <-).
  destruct (copies_all f x Hf Hx) as (y & Hy & Ey & _ & Eg & _).
  unfold group_parent. rewrite (proj2 (find_element_spec doc Hu _ x)) by done.
  rewrite (proj2 (find_element_spec doc' copies_unique _ y)) by done. cbn. by rewrite Eg.
Qed.

Lemma copy_ends f id : f ∈ parts -> id ∈ ids ->
  ends (group_parent (elements doc)) id -> ends (group_parent (elements doc')) (f id).
Proof.
  intros Hf Hid H. induction H as [id E|id up E _ IH].
  - apply ends_root. by rewrite copy_group_parent, E.
  - apply (ends_child _ _ (f up)); [by rewrite copy_group_parent, E|]. apply IH.
    pose proof (wf_ids _ _ _ _ doc_ok) as Hu. apply ids_unique in Hu as (_ & Hu & _).
    apply (group_parent_spec doc Hu) in E as (x & Hx & _ & Eg).
    destruct (element_is_ok x Hx) as (_ & _ & _ & _ & Hp & _). destruct (Hp up Eg) as (gc & ch & Hin & <- & _).
    by apply (id_of (Element.Group gc ch)).
Qed.

(** Copies of the elements of a well-formed document under names that do not
    clash make a well-formed document. *)
Lemma copies_well_formed : well_formed ProcessingLimits_default doc'.
Proof.
  destruct doc_ok as [_ ? ? ? ? ? ? Hids ? _ Hg ?]. constructor; rewrite ?same_resources, ?same_media, ?same_extensions, ?same_version; try done.
  - apply ids_unique in Hids as (Hr & _ & _). apply list.NoDup_app. split; [done|]. split; [|done].
    intros id Hin Hc. apply (elem_of_ids (fun x => element_id (common x))) in Hc as (y & Hy & <-).
    destruct (copies_from y Hy) as (f & x & Hf & Hx & Ey & _). rewrite Ey in Hin.
    by destruct (names_new f _ Hf (id_of x Hx)).
  - apply List.Forall_forall. intros y Hy. by apply copy_ok, list_elem_of_In.
  - apply List.Forall_forall. intros y Hy. apply list_elem_of_In in Hy.
    destruct (copies_from y Hy) as (f & x & Hf & Hx & -> & _). apply copy_ends; [done|by apply id_of|].
    rewrite List.Forall_forall in Hg. by apply Hg, list_elem_of_In.
Qed.
End Copies.

(** *** One record *)

Lemma filled_in_copy doc record options x y : filled_in record options x y -> copy_of doc id x y.
Proof.
  unfold filled_in, copy_of. destruct (element_text x) as [text|] eqn:E.
  - intros (value & _ & ->). destruct x; try done; cbn; split_and!; try done; try (by left); by destruct (group_id c).
  - intros ->. split_and!; try done; [by destruct (group_id (common x))|by left|]. destruct x; try done. cbn. by rewrite List.map_id.
Qed.

Lemma filled_in_ids record options l l' :
  Forall2 (filled_in record options) l l' ->
  map (fun x => element_id (common x)) l' = map (fun x => element_id (common x)) l.
Proof.
  induction 1 as [|x y l l' Hxy _ IH]; [done|]. cbn. f_equal; [|done].
  unfold filled_in in Hxy. destruct (element_text x); [|by subst]. destruct Hxy as (v & _ & ->). by destruct x.
Qed.

(** C16: A record is put into a document exactly when the document is valid and
    within the limits, the record is, every text evaluates with the fields of
    the record, and the texts and the output are within the limits. The result
    is the document with those texts, nothing else changed; it is valid again.
    Materialisation never panics. *)
Theorem materialize_record_spec (doc out : Doc) record options limits :
  (materialize_record_with_limits unicode_uppercase unicode_lowercase base64_decode sha256 json_len doc record options limits = Ok out <->
   document_ok limits doc /\ record_ok limits record /\
   (exists l, out = with_elements doc l /\ Forall2 (filled_in record options) (elements doc) l /\ texts_fit limits 0 l) /\
   exists bytes, json_len out = Some bytes /\ bytes <= max_output_bytes limits) /\
  (materialize_record_with_limits unicode_uppercase unicode_lowercase base64_decode sha256 json_len doc record options limits = Ok out ->
   validate base64_decode sha256 out = Ok tt) /\
  panics (materialize_record_with_limits unicode_uppercase unicode_lowercase base64_decode sha256 json_len doc record options limits) = false.
Proof.
  set (result := materialize_record_with_limits _ _ _ _ _ _ _ _ _).
  assert (result = Ok out <->
   document_ok limits doc /\ record_ok limits record /\
   (exists l, out = with_elements doc l /\ Forall2 (filled_in record options) (elements doc) l /\ texts_fit limits 0 l) /\
   exists bytes, json_len out = Some bytes /\ bytes <= max_output_bytes limits) as Hspec.
  { rewrite <- validate_document_Ok, <- validate_fields_Ok, <- materialize_unchecked_Ok.
    unfold result, materialize_record_with_limits, validate_inputs. split.
    - intros H. inv_ok H. destruct x, x0. subst x1. apply Z.ltb_ge in Hb. split_and!; try done. by exists x2.
    - intros (-> & -> & -> & bytes & E & Hb). cbn [rbind]. rewrite E. cbn. by rewrite (proj2 (Z.ltb_ge _ _)). }
  split; [done|]. split.
  - intros H. apply Hspec in H as (Hdoc & _ & (l & -> & Hl & _) & _). apply validate_accepts.
    destruct Hdoc as (_ & _ & _ & _ & Hwf). pose proof (proj1 (ids_unique doc) (wf_ids _ _ _ _ Hwf)) as (_ & Hu & Hd).
    apply (copies_well_formed doc (with_elements doc l) [id]); try done; cbn [elements with_elements].
    + pose proof (wf_elements_count _ _ _ _ Hwf). unfold zlen in *. by rewrite <- (Forall2_length Hl).
    + by rewrite (filled_in_ids _ _ _ _ Hl).
    + intros y Hy. destruct (Forall2_in_r _ _ _ _ Hl Hy) as (x & Hx & Hxy). exists id, x.
      split; [left|split; [done|by eapply filled_in_copy]].
    + intros f x ->%list_elem_of_singleton Hx. destruct (Forall2_in_l _ _ _ _ Hl Hx) as (y & Hy & Hxy). exists y.
      split; [done|by eapply filled_in_copy].
    + by intros f a b ->%list_elem_of_singleton.
    + intros f a ->%list_elem_of_singleton Ha. apply (elem_of_ids (fun x => element_id (common x))) in Ha as (x & Hx & <-).
      split; [by apply (element_is_ok doc Hwf)|]. intros Hin. by apply (Hd x Hx), elem_of_reverse.
    + by destruct Hwf.
  - unfold result, materialize_record_with_limits, validate_inputs.
    apply panics_bind; [apply panics_bind; [apply validate_document_ends|intros; apply validate_fields_ends]|]. intros _ _.
    apply panics_bind; [apply panics_bind; [apply evaluate_elements_ends|done]|]. intros x _.
    apply panics_bind_raising. intros n _. by destruct (_ <? _).
Qed.

(** *** Plans of batches *)

Lemma selected_zones_Ok zones seen i zone_ids l :
  selected_zones zones seen i zone_ids = Ok l <->
  NoDup zone_ids /\ Forall (fun id => id ∉ seen) zone_ids /\
  Forall2 (fun id z => List.find (fun z => bool_decide (zone_id z = id)) zones = Some z) zone_ids l.
Proof.
  revert seen i l. induction zone_ids as [|id zone_ids IH]; intros seen i l; cbn.
  { split; [intros [= <-]; split_and!; constructor|]. intros (_ & _ & H). by inversion H. }
  rewrite list.NoDup_cons, List.Forall_cons_iff. case_bool_decide as Hs.
  { split; [done|]. tauto. }
  split.
  - intros H. inv_ok H. apply IH in Hx0 as (Hnd & Hnew & Hf). subst l. rewrite List.Forall_forall in Hnew.
    split_and!; try done.
    + intros Hin. apply list_elem_of_In in Hin. apply (Hnew _ Hin). left.
    + apply List.Forall_forall. intros a Ha Hin. apply (Hnew _ Ha). by right.
    + by constructor.
  - intros ((Hid & Hnd) & (_ & Hnew) & (z & k & -> & Hf & ->)%list.Forall2_cons_inv_l). cbn.
    rewrite (proj2 (IH (id :: seen) (i + 1) k)); [done|]. split_and!; try done.
    rewrite List.Forall_forall in *. intros a Ha [->|Hin]%elem_of_cons; [by apply Hid, list_elem_of_In|by apply (Hnew a)].
Qed.

Lemma selected_zones_ends zones seen i zone_ids : panics (selected_zones zones seen i zone_ids) = false.
Proof.
  revert seen i. induction zone_ids as [|id zone_ids IH]; intros seen i; cbn; [done|]. case_bool_decide; [done|].
  apply panics_bind_raising. intros z _. by apply panics_bind.
Qed.

(** The zones that are found have the names asked for. *)
Lemma found_zones zones zone_ids l :
  Forall2 (fun id z => List.find (fun z => bool_decide (zone_id z = id)) zones = Some z) zone_ids l ->
  map zone_id l = zone_ids /\ Forall (fun id => id ∈ map zone_id zones) zone_ids.
Proof.
  induction 1 as [|id z zone_ids l Hz _ [IH1 IH2]]; [by split; [|constructor]|]. cbn. rewrite IH1.
  apply List.find_some in Hz as [Hin E]. apply bool_decide_eq_true in E as <-. split; [done|]. constructor; [|done].
  by apply list_elem_of_In, in_map.
Qed.

Lemma zones_found zones zone_ids :
  Forall (fun id => id ∈ map zone_id zones) zone_ids ->
  exists l, Forall2 (fun id z => List.find (fun z => bool_decide (zone_id z = id)) zones = Some z) zone_ids l.
Proof.
  induction 1 as [|id zone_ids Hid _ (l & IH)]; [by exists []|].
  destruct (List.find (fun z => bool_decide (zone_id z = id)) zones) as [z|] eqn:E; [exists (z :: l); by constructor|].
  apply elem_of_ids in Hid as (z & Hz & Ez). apply list_elem_of_In in Hz.
  apply (List.find_none _ _ E) in Hz. by rewrite bool_decide_true in Hz.
Qed.

(** Record [r] is on page [r / n] in zone [r mod n] of the [n] zones chosen. *)
Definition placement_of (zone_ids : list (list Z)) (r : Z) : BatchPlacement := {|
  placement_record := r;
  placement_page := r / zlen zone_ids;
  placement_zone := default [] (zone_ids !! Z.to_nat (r mod zlen zone_ids)) |}.

Definition pages_needed (n slots : Z) : Z := (n + slots - 1) / slots.

Lemma for_each_snoc {E S A} (f : A -> S) (body : A -> list S -> Result E (list S)) l s :
  (forall a s, a ∈ l -> body a s = Ok (s ++ [f a])) -> for_each body l s = Ok (s ++ map f l).
Proof.
  revert s. induction l as [|a l IH]; intros s H; cbn; [by rewrite app_nil_r|].
  rewrite H by left. cbn. rewrite IH by (intros; apply H; by right). by rewrite <- app_assoc.
Qed.

Lemma place_records zones zone_ids n :
  map zone_id zones = zone_ids -> zone_ids <> [] ->
  for_each (place_record zones (zlen zones)) (seqZ 0 n) [] = Ok (map (placement_of zone_ids) (seqZ 0 n)).
Proof.
  intros <- Hne. apply (for_each_snoc (placement_of (map zone_id zones)) _ _ []). intros r s _. unfold place_record, placement_of. rewrite zlen_map.
  assert (0 < zlen zones) as Hpos by (destruct zones; [done|rewrite zlen_cons; pose proof (zlen_nonneg zones); lia]).
  destruct (index_in_range (E := MaterializeError.t) zones (r mod zlen zones)) as (z & -> & Hz); [apply Z.mod_pos_bound; lia|].
  cbn [rbind]. do 3 f_equal. change (map zone_id zones) with (zone_id <$> zones). by rewrite list_lookup_fmap, Hz.
Qed.

(** What a batch needs: zones that are different and exist, and no more records and pages than allowed. *)
Definition batch_ok (limits : ProcessingLimits) (doc : Doc) (n : Z) (zone_ids : list (list Z)) : Prop :=
  zone_ids <> [] /\ document_ok limits doc /\ n <= max_sheet_items limits /\
  NoDup zone_ids /\ Forall (fun id => id ∈ map zone_id (zones (media doc))) zone_ids /\
  zlen zone_ids <= u32_max /\ (n <> 0 -> n + zlen zone_ids - 1 <= u32_max) /\
  pages_needed n (zlen zone_ids) <= max_pages limits.

Lemma pages_needed_zero slots : 0 < slots -> pages_needed 0 slots = 0.
Proof. intros H. apply Z.div_small. lia. Qed.

Lemma plan_zone_batch_Ok (doc : Doc) n zone_ids limits plan :
  0 <= n ->
  plan_zone_batch_with_limits base64_decode sha256 doc n zone_ids limits = Ok plan <->
  batch_ok limits doc n zone_ids /\
  plan = {| page_count := pages_needed n (zlen zone_ids); placements := map (placement_of zone_ids) (seqZ 0 n) |}.
Proof.
  intros Hn. unfold plan_zone_batch_with_limits, batch_ok. rewrite <- validate_document_Ok. case_bool_decide as He.
  { split; [done|]. by intros [[? _] _]. }
  assert (0 < zlen zone_ids) as Hk by (destruct zone_ids; [done|rewrite zlen_cons; pose proof (zlen_nonneg zone_ids); lia]).
  split.
  - intros H. inv_ok H. destruct x. apply selected_zones_Ok in Hx0 as (Hnd & _ & Hf).
    pose proof (found_zones _ _ _ Hf) as [Em Hz]. apply checked_Some in Hx1 as [Hu ->].
    assert (zlen x0 = zlen zone_ids) as El by (by rewrite <- Em, zlen_map).
    rewrite (place_records _ _ _ Em He) in Hx3. injection Hx3 as <-. rewrite El in *.
    assert (x2 = pages_needed n (zlen zone_ids) /\ (n <> 0 -> n + zlen zone_ids - 1 <= u32_max)) as [-> Hp].
    { destruct (Z.eqb_spec n 0) as [->|Hn0].
      - injection Hx2 as <-. by rewrite pages_needed_zero.
      - inv_ok Hx2. apply checked_Some in Hx0 as [[_ Hle] ->]. subst x2. unfold pages_needed.
        replace (n + (zlen zone_ids - 1)) with (n + zlen zone_ids - 1) in * by lia. done. }
    apply Z.ltb_ge in Hb, Hb0. destruct Hu. by split_and!.
  - intros [(_ & -> & Hi & Hnd & Hz & Hu & Hs & Hp) ->]. cbn [rbind]. rewrite (proj2 (Z.ltb_ge _ _)) by done.
    destruct (zones_found _ _ Hz) as (l & Hf). pose proof (found_zones _ _ _ Hf) as [Em _].
    rewrite (proj2 (selected_zones_Ok _ [] 0 _ l)).
    2: { split_and!; try done. apply List.Forall_forall. by intros a _ Ha%elem_of_nil. }
    assert (zlen l = zlen zone_ids) as El by (by rewrite <- Em, zlen_map).
    cbn [rbind]. rewrite checked_id by (unfold in_u; lia). cbn [ok_or raising map_err rbind].
    rewrite (place_records _ _ _ Em He), El.
    destruct (Z.eqb_spec n 0) as [->|Hn0].
    + rewrite pages_needed_zero in * by done. cbn [rbind]. by rewrite (proj2 (Z.ltb_ge _ _)).
    + rewrite checked_id by (unfold in_u; specialize (Hs Hn0); lia). cbn [ok_or raising map_err rbind].
      replace (n + (zlen zone_ids - 1)) with (n + zlen zone_ids - 1) by lia. fold (pages_needed n (zlen zone_ids)).
      by rewrite (proj2 (Z.ltb_ge _ _)).
Qed.

Lemma plan_zone_batch_ends (doc : Doc) n zone_ids limits :
  panics (plan_zone_batch_with_limits base64_decode sha256 doc n zone_ids limits) = false.
Proof.
  unfold plan_zone_batch_with_limits. case_bool_decide as He; [done|].
  apply panics_bind; [apply validate_document_ends|]. intros _ _. destruct (_ <? _); [done|].
  apply panics_bind; [apply selected_zones_ends|]. intros l Hl. apply selected_zones_Ok in Hl as (_ & _ & Hf).
  apply found_zones in Hf as [Em _].
  apply panics_bind_raising. intros slots Hs. apply ok_or_Ok, checked_Some in Hs as [_ ->].
  apply panics_bind; [destruct (n =? 0); [done|]; by apply panics_bind_raising|]. intros pages _.
  destruct (_ <? _); [done|]. by rewrite (place_records l zone_ids n Em He).
Qed.

(** *** Pages of batches *)

(** An element under new names in the zone of its record. *)
Definition renamed_common (f : list Z -> list Z) (zone : list Z) (c : Common) : Common := {|
  element_id := f (element_id c); element_transform := element_transform c; z_order := z_order c; visible := visible c;
  locked := locked c; group_id := f <$> group_id c;
  element_constraints :=
    Some {| preserve_aspect := match element_constraints c with Some k => preserve_aspect k | None => false end;
            constraint_zone := Some zone |} |}.

Definition renamed (f : list Z -> list Z) (zone : list Z) (x : Element.t) : Element.t :=
  let c := renamed_common f zone (common x) in
  match x with
  | Element.Group _ children => Element.Group c (map f children)
  | x => set_common c x
  end.

Definition restacked (n : Z) (x : Element.t) : Element.t := set_common (with_z_order n (common x)) x.

(** The elements stacked in order from level [n]. *)
Fixpoint stacked (n : Z) (l : list Element.t) : list Element.t :=
  match l with
  | [] => []
  | x :: l => restacked n x :: stacked (n + 1) l
  end.

Lemma rewritten_ids_Ok pl limits l pairs :
  rewritten_ids pl limits l = Ok pairs ->
  pairs = map (fun x => (element_id (common x), rewritten pl (element_id (common x)))) l.
Proof.
  revert pairs. induction l as [|x l IH]; intros pairs; cbn; [by intros [= <-]|].
  intros H. inv_ok H. subst pairs. by rewrite (IH _ Hx).
Qed.

Lemma btree_map_rewritten (f : list Z -> list Z) l id value :
  btree_map (map (fun x => (element_id (common x), f (element_id (common x)))) l) !! id = Some value -> value = f id.
Proof.
  unfold btree_map. assert (forall m : Fields, (forall id value, m !! id = Some value -> value = f id) ->
    forall id value, foldl (fun m pair => <[pair.1 := pair.2]> m) m
      (map (fun x => (element_id (common x), f (element_id (common x)))) l) !! id = Some value -> value = f id) as H.
  { induction l as [|x l IH]; [done|]. intros m Hm. apply IH. intros k v. cbn.
    destruct (decide (k = element_id (common x))) as [->|Hne].
    - rewrite lookup_insert_eq. by intros [= <-].
    - rewrite lookup_insert_ne by done. apply Hm. }
  apply H. intros k v. by rewrite lookup_empty.
Qed.

Section Rewrite.
Variables (ids : Fields) (f : list Z -> list Z).
Hypothesis ids_f : forall id value, ids !! id = Some value -> value = f id.

Lemma new_id_Ok id value : new_id ids id = Ok value -> value = f id.
Proof. unfold new_id. intros H. inv_ok H. by apply ids_f. Qed.

Lemma new_ids_Ok l l' : new_ids ids l = Ok l' -> l' = map f l.
Proof.
  revert l'. induction l as [|id l IH]; intros l'; cbn; [by intros [= <-]|]. intros H. inv_ok H. subst l'.
  apply new_id_Ok in Hx as ->. by rewrite (IH _ Hx0).
Qed.

Lemma rewrite_common_Ok zone c c' : rewrite_common ids zone c = Ok c' -> c' = renamed_common f zone c.
Proof.
  unfold rewrite_common, renamed_common. intros H. inv_ok H. subst c'. apply new_id_Ok in Hx as ->.
  destruct (group_id c) as [g|]; [|by injection Hx0 as <-]. inv_ok Hx0. subst x0. by apply new_id_Ok in Hx as ->.
Qed.

Lemma rewrite_element_Ok zone x x' : rewrite_element ids zone x = Ok x' -> x' = renamed f zone x.
Proof.
  unfold rewrite_element, renamed. intros H. apply rbind_Ok in H as (c & Hc & H). apply rewrite_common_Ok in Hc as ->.
  destruct x; inv_ok H; subst x'; try done. by apply new_ids_Ok in Hx as ->.
Qed.

Lemma rewrite_all_Ok zone l l' : rewrite_all ids zone l = Ok l' -> l' = map (renamed f zone) l.
Proof.
  revert l'. induction l as [|x l IH]; intros l'; cbn; [by intros [= <-]|]. intros H. inv_ok H. subst l'.
  apply rewrite_element_Ok in Hx as ->. by rewrite (IH _ Hx0).
Qed.
End Rewrite.

Lemma rewrite_elements_Ok l pl limits l' :
  rewrite_elements l pl limits = Ok l' -> l' = map (renamed (rewritten pl) (placement_zone pl)) l.
Proof.
  unfold rewrite_elements. intros H. inv_ok H. apply rewritten_ids_Ok in Hx as ->.
  eapply rewrite_all_Ok; [|exact H]. intros id value. apply btree_map_rewritten.
Qed.

Lemma stacked_app n l k : stacked n (l ++ k) = stacked n l ++ stacked (n + zlen l) k.
Proof.
  revert n. induction l as [|x l IH]; intros n; cbn; [by rewrite Z.add_0_r|]. rewrite IH, zlen_cons, Z.add_assoc. done.
Qed.

Lemma with_elements_twice (doc : Doc) l k : with_elements (with_elements doc l) k = with_elements doc k.
Proof. done. Qed.

Lemma push_elements_Ok l (page page' : Doc) :
  for_each push_element l page = Ok page' ->
  page' = with_elements page (elements page ++ stacked (zlen (elements page)) l).
Proof.
  revert page. induction l as [|x l IH]; intros page; cbn [for_each].
  { intros [= <-]. rewrite app_nil_r. by destruct page. }
  unfold push_element at 1. intros H. inv_ok H. destruct (_ <=? _); [|done]. injection Hx as <-.
  apply IH in H as ->. cbn [elements with_elements]. rewrite with_elements_twice, <- app_assoc. cbn [app stacked].
  by rewrite zlen_app.
Qed.

(** What the record of a placement puts on its page. *)
Definition placed (doc : Doc) (records : list Fields) (options : MaterializeOptions) (limits : ProcessingLimits)
    (pl : BatchPlacement) (out : list Element.t) : Prop :=
  exists record l,
    0 <= placement_record pl /\ records !! Z.to_nat (placement_record pl) = Some record /\ record_ok limits record /\
    Forall2 (filled_in record options) (elements doc) l /\ texts_fit limits 0 l /\
    out = map (renamed (rewritten pl) (placement_zone pl)) l.

Lemma place_Ok doc records options limits pl (pages pages' : list Doc) :
  place unicode_uppercase unicode_lowercase doc records options limits pl pages = Ok pages' ->
  exists out page, placed doc records options limits pl out /\
    0 <= placement_page pl /\ pages !! Z.to_nat (placement_page pl) = Some page /\
    pages' = <[Z.to_nat (placement_page pl) := with_elements page (elements page ++ stacked (zlen (elements page)) out)]> pages.
Proof.
  unfold place. intros H. inv_ok H. destruct x0. apply index_Ok in Hx as [Hr Hrec]. apply validate_fields_Ok in Hx0.
  apply materialize_unchecked_Ok in Hx1 as (l & -> & Hl & Ht). apply rewrite_elements_Ok in Hx2. cbn [elements with_elements] in Hx2.
  apply index_Ok in Hx3 as [Hp Hpage]. apply push_elements_Ok in Hx4 as ->.
  rewrite assign_in_range in H by (split; [done|]; apply lookup_lt_Some in Hpage; unfold zlen; lia). injection H as <-.
  exists x2, x3. split_and!; try done. exists x, l. by split_and!.
Qed.

(** What a page holds: the elements of the records placed on it, in order. *)
Definition parts_on_page (p : Z) (parts : list (BatchPlacement * list Element.t)) : list (BatchPlacement * list Element.t) :=
  List.filter (fun part => placement_page part.1 =? p) parts.

Lemma place_all_Ok doc records options limits pls (pages pages' : list Doc) :
  for_each (place unicode_uppercase unicode_lowercase doc records options limits) pls pages = Ok pages' ->
  exists outs, Forall2 (placed doc records options limits) pls outs /\ length pages' = length pages /\
    forall p page, pages !! p = Some page ->
      pages' !! p = Some (with_elements page
        (elements page ++ stacked (zlen (elements page)) (concat (map snd (parts_on_page (Z.of_nat p) (zip pls outs)))))).
Proof.
  revert pages. induction pls as [|pl pls IH]; intros pages; cbn [for_each].
  { intros [= <-]. exists []. split; [constructor|]. split; [done|]. intros p page ->. cbn. rewrite app_nil_r. by destruct page. }
  intros H. inv_ok H. apply place_Ok in Hx as (out & page0 & Hout & Hp & Hpage & ->).
  apply IH in H as (outs & Houts & Hlen & Hpages). exists (out :: outs). split; [by constructor|].
  split; [by rewrite Hlen, length_insert|]. intros p page Epage. cbn [zip zip_with parts_on_page List.filter fst].
  destruct (Z.eqb_spec (placement_page pl) (Z.of_nat p)) as [E|E].
  - assert (p = Z.to_nat (placement_page pl)) as -> by lia. rewrite Hpage in Epage. injection Epage as ->.
    erewrite Hpages by (apply list_lookup_insert_eq; by eapply lookup_lt_Some). f_equal.
    cbn [elements with_elements]. rewrite with_elements_twice. f_equal. rewrite <- app_assoc. f_equal.
    cbn [map snd concat]. rewrite stacked_app, zlen_app. f_equal. f_equal. f_equal. unfold zlen. f_equal.
    clear. generalize (Z.of_nat (length (elements page))). induction out as [|x out IH]; intros n; [done|]. cbn. by rewrite IH.
  - erewrite Hpages; [done|]. rewrite list_lookup_insert_ne by lia. done.
Qed.

(** A name without a colon. *)
Definition plain (id : list Z) : Prop := 58 ∉ id.

Lemma rewritten_split pl id :
  0 <= placement_record pl -> plain id ->
  split_once 58 (rewritten pl id) = Some (id, str "record:" ++ show_dec (placement_record pl) ++ str ":zone:" ++ placement_zone pl) /\
  split_once 58 (show_dec (placement_record pl) ++ str ":zone:" ++ placement_zone pl) =
    Some (show_dec (placement_record pl), str "zone:" ++ placement_zone pl).
Proof.
  intros Hr Hid. split.
  - unfold rewritten. change (str ":record:") with (58 :: str "record:"). by apply split_once_app.
  - change (str ":zone:") with (58 :: str "zone:"). apply split_once_app. apply digits_not_in; [done|by apply show_dec_digits].
Qed.

(** Different names, or the same name in different records, stay different. *)
Lemma rewritten_inj pl pl' id id' :
  0 <= placement_record pl <= u32_max -> 0 <= placement_record pl' <= u32_max -> plain id -> plain id' ->
  rewritten pl id = rewritten pl' id' -> id = id' /\ placement_record pl = placement_record pl'.
Proof.
  intros Hr Hr' Hid Hid' E. destruct (rewritten_split pl id) as [E1 E2]; [lia|done|].
  destruct (rewritten_split pl' id') as [E1' E2']; [lia|done|]. rewrite E, E1' in E1.
  apply (inj Some), pair_equal_spec in E1 as [<- E1]. apply app_inv_head in E1. split; [done|].
  rewrite <- E1, E2' in E2. apply (inj Some), pair_equal_spec in E2 as [E2 _].
  pose proof (parse_show_dec u32_max (placement_record pl) Hr ltac:(done)) as P.
  pose proof (parse_show_dec u32_max (placement_record pl') Hr' ltac:(done)) as P'. congruence.
Qed.

Lemma rewritten_colon pl id : 58 ∈ rewritten pl id.
Proof. unfold rewritten. apply elem_of_app. right. left. Qed.

Lemma rewritten_unique ids pls :
  NoDup ids -> Forall plain ids -> NoDup (map placement_record pls) ->
  Forall (fun pl => 0 <= placement_record pl <= u32_max) pls ->
  NoDup (concat (map (fun pl => map (rewritten pl) ids) pls)).
Proof.
  intros Hids Hplain. rewrite List.Forall_forall in Hplain.
  induction pls as [|pl pls IH]; intros Hnd Hr; [constructor|]. cbn [map concat] in *.
  apply list.NoDup_cons in Hnd as [Hnew Hnd]. apply List.Forall_cons_iff in Hr as [Hpl Hr].
  apply list.NoDup_app. split; [|split; [|by apply IH]].
  - apply NoDup_fmap_2_strong; [|done]. intros a b Ha%list_elem_of_In Hb%list_elem_of_In E.
    by destruct (rewritten_inj pl pl a b Hpl Hpl (Hplain _ Ha) (Hplain _ Hb) E).
  - intros id Hin Hc. apply list_elem_of_In, in_map_iff in Hin as (a & <- & Ha).
    apply list_elem_of_In, in_concat in Hc as (k & Hk & Hin). apply in_map_iff in Hk as (pl' & <- & Hpl').
    apply in_map_iff in Hin as (b & E & Hb). rewrite List.Forall_forall in Hr.
    destruct (rewritten_inj pl' pl b a (Hr _ Hpl') Hpl (Hplain _ Hb) (Hplain _ Ha) E) as [_ Er].
    apply Hnew. rewrite <- Er. by apply list_elem_of_In, in_map.
Qed.

Lemma stacked_ids n l : map (fun x => element_id (common x)) (stacked n l) = map (fun x => element_id (common x)) l.
Proof. revert n. induction l as [|x l IH]; intros n; [done|]. cbn. rewrite IH. f_equal. by destruct x. Qed.

Lemma stacked_restacked n l : Forall2 (fun x y => exists k, y = restacked k x) l (stacked n l).
Proof. revert n. induction l as [|x l IH]; intros n; cbn; constructor; [by exists n|apply IH]. Qed.

Lemma renamed_id f zone x : element_id (common (renamed f zone x)) = f (element_id (common x)).
Proof. by destruct x. Qed.

Lemma renamed_copy doc record options f zone k x y :
  filled_in record options x y -> zone ∈ map zone_id (zones (media doc)) ->
  copy_of doc f x (restacked k (renamed f zone y)).
Proof.
  unfold filled_in, copy_of, restacked. intros H Hz.
  destruct (element_text x) as [text|] eqn:E; [destruct H as (value & _ & ->)|subst y];
    destruct x; try done; cbn; split_and!; try done; right; eexists _, zone; (split; [done|]); done.
Qed.

Lemma zone_count_pos (zone_ids : list (list Z)) : zone_ids <> [] -> 0 < zlen zone_ids.
Proof. intros Hne. destruct zone_ids as [|z l]; [done|]. rewrite zlen_cons. pose proof (zlen_nonneg l). lia. Qed.

Section Page.
Context (doc : Doc) (records : list Fields) (options : MaterializeOptions) (limits : ProcessingLimits).
Context (zone_ids : list (list Z)) (outs : list (list Element.t)) (p : nat).

#[local] Abbreviation ids := (map (fun x => element_id (common x)) (elements doc)).

Definition all_placements : list BatchPlacement := map (placement_of zone_ids) (seqZ 0 (zlen records)).

Hypothesis doc_wf : well_formed ProcessingLimits_default doc.
Hypothesis doc_plain : Forall plain ids.
Hypothesis resources_plain : Forall plain (map resource_id (resources doc)).
Hypothesis zones_given : Forall (fun id => id ∈ map zone_id (zones (media doc))) zone_ids.
Hypothesis some_zone : zone_ids <> [].
Hypothesis count : zlen records <= u32_max.
Hypothesis page_fits : zlen (elements doc) * zlen zone_ids <= max_elements ProcessingLimits_default.
Hypothesis outs_placed : Forall2 (placed doc records options limits) all_placements outs.

(** The placements on the page, with what they put there. *)
#[local] Abbreviation parts := (parts_on_page (Z.of_nat p) (zip all_placements outs)).

Lemma part_placed part : part ∈ parts ->
  placed doc records options limits part.1 part.2 /\ placement_page part.1 = Z.of_nat p /\ part.1 ∈ all_placements.
Proof.
  unfold parts_on_page. rewrite list_elem_of_In, filter_In, Z.eqb_eq. intros [Hin Hp]. split; [|split; [done|]].
  - apply list_elem_of_In in Hin. destruct part. by apply (Forall2_zip _ _ _ _ _ outs_placed).
  - apply list_elem_of_In in Hin. destruct part. by apply elem_of_zip_l in Hin.
Qed.

Lemma placement_facts pl : pl ∈ all_placements ->
  0 <= placement_record pl <= u32_max /\ placement_page pl = placement_record pl / zlen zone_ids /\
  placement_zone pl ∈ map zone_id (zones (media doc)).
Proof.
  pose proof (zone_count_pos zone_ids some_zone) as Hk. unfold all_placements.
  rewrite list_elem_of_In, in_map_iff. intros (r & <- & Hr). apply list_elem_of_In, elem_of_seqZ in Hr.
  cbn [placement_of placement_record placement_page placement_zone]. split; [lia|]. split; [done|].
  destruct (index_in_range (E := MaterializeError.t) zone_ids (r mod zlen zone_ids)) as (z & _ & E); [by apply Z.mod_pos_bound|].
  rewrite E. rewrite List.Forall_forall in zones_given. cbn. apply zones_given, list_elem_of_In. by eapply list_elem_of_lookup_2.
Qed.

Lemma part_records_unique : NoDup (map (fun part => placement_record part.1) parts).
Proof.
  eapply sublist_NoDup; [apply (NoDup_seqZ 0 (zlen records))|].
  assert (seqZ 0 (zlen records) = map (fun part => placement_record part.1) (zip all_placements outs)) as ->.
  { rewrite <- (List.map_map fst placement_record). change (map fst ?l) with (l.*1).
    rewrite fst_zip by (rewrite (Forall2_length outs_placed); lia). unfold all_placements. rewrite List.map_map.
    cbn. by rewrite List.map_id. }
  unfold parts_on_page. generalize (zip all_placements outs) as l. intros l.
  induction l as [|part l IH]; cbn; [constructor|]. destruct (_ =? _); cbn; by constructor.
Qed.

Lemma part_count : zlen parts <= zlen zone_ids.
Proof.
  pose proof (zone_count_pos zone_ids some_zone) as Hk.
  assert (length (map (fun part => placement_record part.1) parts) <= length (seqZ (Z.of_nat p * zlen zone_ids) (zlen zone_ids)))%nat as H.
  { apply submseteq_length, NoDup_submseteq; [apply part_records_unique|]. intros r Hr.
    apply list_elem_of_In, in_map_iff in Hr as (part & <- & Hin). apply list_elem_of_In, part_placed in Hin as (_ & Hp & Hin).
    apply placement_facts in Hin as (_ & Hpage & _). apply elem_of_seqZ. rewrite Hpage in Hp.
    pose proof (Z.div_mod (placement_record part.1) (zlen zone_ids)) as D.
    pose proof (Z.mod_pos_bound (placement_record part.1) (zlen zone_ids) Hk). rewrite Hp in D. nia. }
  rewrite length_map, length_seqZ in H. unfold zlen in *. lia.
Qed.

(** The page as the loop over the placements leaves it. *)
#[local] Abbreviation page :=
  (with_elements (empty_page doc (Z.of_nat p)) (stacked 0 (concat (map snd parts)))).

Lemma page_element y : y ∈ elements page ->
  exists part x, part ∈ parts /\ x ∈ elements doc /\ copy_of doc (rewritten part.1) x y.
Proof.
  intros Hy. destruct (Forall2_in_r _ _ _ _ (stacked_restacked _ _) Hy) as (y' & Hy' & n & ->).
  apply list_elem_of_In, in_concat in Hy' as (out & Hout & Hin). apply in_map_iff in Hout as (part & <- & Hpart).
  apply list_elem_of_In in Hpart, Hin. pose proof (part_placed part Hpart) as ((record & l & _ & _ & _ & Hl & _ & E) & _ & Hpl).
  rewrite E in Hin. apply list_elem_of_In, in_map_iff in Hin as (m & <- & Hm). apply list_elem_of_In in Hm.
  destruct (Forall2_in_r _ _ _ _ Hl Hm) as (x & Hx & Hxm). exists part, x. split; [done|]. split; [done|].
  eapply renamed_copy; [exact Hxm|]. by apply placement_facts.
Qed.

Lemma page_copies part x : part ∈ parts -> x ∈ elements doc ->
  exists y, y ∈ elements page /\ copy_of doc (rewritten part.1) x y.
Proof.
  intros Hpart Hx. pose proof (part_placed part Hpart) as ((record & l & _ & _ & _ & Hl & _ & E) & _ & Hpl).
  destruct (Forall2_in_l _ _ _ _ Hl Hx) as (m & Hm & Hxm).
  assert (renamed (rewritten part.1) (placement_zone part.1) m ∈ concat (map snd parts)) as Hin.
  { apply list_elem_of_In, in_concat. exists part.2. split; [by apply in_map, list_elem_of_In|]. rewrite E.
    by apply in_map, list_elem_of_In. }
  destruct (Forall2_in_l _ _ _ _ (stacked_restacked 0 _) Hin) as (y & Hy & n & ->). exists (restacked n (renamed (rewritten part.1) (placement_zone part.1) m)).
  split; [done|]. eapply renamed_copy; [exact Hxm|]. by apply placement_facts.
Qed.

(** The names on the page: those of the document, rewritten for each record. *)
Lemma page_ids :
  map (fun x => element_id (common x)) (elements page) = concat (map (fun pl => map (rewritten pl) ids) (map fst parts)).
Proof.
  cbn [elements with_elements]. rewrite stacked_ids, concat_map, !List.map_map. f_equal.
  apply List.map_ext_in. intros part Hin. apply list_elem_of_In, part_placed in Hin as ((record & l & _ & _ & _ & Hl & _ & ->) & _).
  rewrite List.map_map. rewrite <- (filled_in_ids _ _ _ _ Hl), List.map_map. apply List.map_ext. intros x. apply renamed_id.
Qed.

Lemma page_unique : NoDup (map (fun x => element_id (common x)) (elements page)).
Proof.
  rewrite page_ids. pose proof (proj1 (ids_unique doc) (wf_ids _ _ _ _ doc_wf)) as (_ & Hu & _).
  apply rewritten_unique; [done|done| |].
  - rewrite List.map_map. apply part_records_unique.
  - apply List.Forall_forall. intros pl Hin. apply in_map_iff in Hin as (part & <- & Hin).
    apply list_elem_of_In, part_placed in Hin as (_ & _ & Hpl). by apply placement_facts.
Qed.

Lemma page_size : zlen (elements page) <= max_elements ProcessingLimits_default.
Proof.
  assert (zlen (elements page) = zlen (elements doc) * zlen parts) as ->.
  { rewrite <- (zlen_map (fun x => element_id (common x))), page_ids, List.map_map.
    generalize parts as l. intros l. induction l as [|part l IH]; cbn [map concat]; [by rewrite Z.mul_0_r|].
    rewrite zlen_app, IH, !zlen_map, zlen_cons. lia. }
  pose proof part_count. pose proof (zlen_nonneg (elements doc)). nia.
Qed.

Lemma page_well_formed : well_formed ProcessingLimits_default page.
Proof.
  pose proof (proj1 (ids_unique doc) (wf_ids _ _ _ _ doc_wf)) as (_ & Hu & _). pose proof doc_plain as Hplain. pose proof resources_plain as Hrplain.
  rewrite List.Forall_forall in Hplain, Hrplain.
  assert (forall f, f ∈ map (fun part => rewritten part.1) parts -> exists part, part ∈ parts /\ f = rewritten part.1) as Hf.
  { intros f Hin. apply list_elem_of_In, in_map_iff in Hin as (part & <- & Hin). exists part. by rewrite list_elem_of_In. }
  apply (copies_well_formed doc page (map (fun part => rewritten part.1) parts)); try done.
  - apply page_size.
  - apply page_unique.
  - intros y Hy. destruct (page_element y Hy) as (part & x & Hpart & Hx & Hc). exists (rewritten part.1), x.
    split; [|done]. by apply list_elem_of_In, (in_map (fun part => rewritten part.1)), list_elem_of_In.
  - intros f x Hin Hx. destruct (Hf f Hin) as (part & Hpart & ->). by apply page_copies.
  - intros f a b Hin Ha%list_elem_of_In Hb%list_elem_of_In E. destruct (Hf f Hin) as (part & Hpart & ->).
    apply part_placed in Hpart as (_ & _ & Hpl). apply placement_facts in Hpl as (Hr & _).
    by destruct (rewritten_inj part.1 part.1 a b Hr Hr (Hplain _ Ha) (Hplain _ Hb) E).
  - intros f a Hin _. destruct (Hf f Hin) as (part & _ & ->). pose proof (rewritten_colon part.1 a) as Hc. split.
    + intros E. rewrite E in Hc. by apply elem_of_nil in Hc.
    + intros Hres. apply list_elem_of_In in Hres. by apply (Hrplain _ Hres).
  - cbn. destruct (name doc); discriminate.
Qed.
End Page.

(** *** Batches never panic *)

Lemma rewritten_ids_ends pl limits l : panics (rewritten_ids pl limits l) = false.
Proof. induction l as [|x l IH]; cbn; [done|]. destruct (_ <? _); [done|]. by apply panics_bind. Qed.

Lemma new_id_ends ids id : panics (new_id ids id) = false.
Proof. apply panics_raising. Qed.

Lemma new_ids_ends ids l : panics (new_ids ids l) = false.
Proof. induction l as [|id l IH]; cbn; [done|]. apply panics_bind; [apply new_id_ends|]. intros. by apply panics_bind. Qed.

Lemma rewrite_element_ends ids zone x : panics (rewrite_element ids zone x) = false.
Proof.
  unfold rewrite_element. apply panics_bind.
  - unfold rewrite_common. apply panics_bind; [apply new_id_ends|]. intros id _. apply panics_bind; [|done].
    destruct (group_id (common x)); [|done]. apply panics_bind; [apply new_id_ends|done].
  - intros c _. destruct x; try done. apply panics_bind; [apply new_ids_ends|done].
Qed.

Lemma rewrite_elements_ends l pl limits : panics (rewrite_elements l pl limits) = false.
Proof.
  unfold rewrite_elements. apply panics_bind; [apply rewritten_ids_ends|]. intros pairs _.
  induction l as [|x l IH]; cbn; [done|]. apply panics_bind; [apply rewrite_element_ends|]. intros. by apply panics_bind.
Qed.

Lemma place_ends doc records options limits pl (pages : list Doc) :
  0 <= placement_record pl < zlen records -> 0 <= placement_page pl < zlen pages ->
  panics (place unicode_uppercase unicode_lowercase doc records options limits pl pages) = false.
Proof.
  intros Hr Hp. unfold place. destruct (index_in_range (E := MaterializeError.t) records _ Hr) as (record & -> & _). cbn [rbind].
  apply panics_bind; [apply validate_fields_ends|]. intros _ _.
  apply panics_bind; [apply panics_bind; [apply evaluate_elements_ends|done]|]. intros m _.
  apply panics_bind; [apply rewrite_elements_ends|]. intros l _.
  destruct (index_in_range (E := MaterializeError.t) pages _ Hp) as (page & -> & _). cbn [rbind].
  apply panics_bind; [|intros; by rewrite assign_in_range].
  apply panics_for_each. intros x page' _. unfold push_element. by destruct (_ <=? _).
Qed.

Lemma page_in_range n slots r : 0 < slots -> 0 <= r < n -> 0 <= r / slots < pages_needed n slots.
Proof.
  intros Hs Hr. split; [by apply Z.div_pos; lia|]. unfold pages_needed. apply Z.lt_le_trans with (r / slots + 1); [lia|].
  apply Z.div_le_lower_bound; [done|]. pose proof (Z.mul_div_le r slots Hs). lia.
Qed.

Lemma zone_batch_ends (doc : Doc) records zone_ids options limits :
  panics (materialize_zone_batch_with_limits unicode_uppercase unicode_lowercase base64_decode sha256 json_len json_len_pages
    doc records zone_ids options limits) = false.
Proof.
  unfold materialize_zone_batch_with_limits. apply panics_bind_raising. intros n Hn. apply ok_or_Ok, checked_Some in Hn as [_ ->].
  apply panics_bind; [apply plan_zone_batch_ends|]. intros plan Hplan.
  apply plan_zone_batch_Ok in Hplan as [Hok ->]; [|apply zlen_nonneg]. cbn [page_count placements].
  destruct (_ =? 0); [done|]. apply panics_bind_raising. intros m _. destruct (_ <? _); [done|].
  apply panics_bind_raising. intros bytes _. destruct (checked _ _); [|done]. destruct (_ <? _); [done|].
  apply panics_bind.
  - apply (panics_for_each_inv (fun pages => zlen pages = pages_needed (zlen records) (zlen zone_ids))).
    + rewrite zlen_map. unfold zlen at 1. rewrite length_seqZ. pose proof (zone_count_pos zone_ids (proj1 Hok)).
      assert (0 <= pages_needed (zlen records) (zlen zone_ids)); [|lia].
      apply Z.div_pos; [|done]. pose proof (zlen_nonneg records). lia.
    + intros pl pages Hpl Hlen. apply list_elem_of_In, in_map_iff in Hpl as (r & <- & Hr).
      apply list_elem_of_In, elem_of_seqZ in Hr. split.
      * apply place_ends; [cbn; lia|]. rewrite Hlen. apply page_in_range; [by apply zone_count_pos, Hok|lia].
      * intros pages' H. apply place_Ok in H as (out & page & _ & _ & _ & ->). by rewrite zlen_insert.
  - intros pages _. apply panics_bind_raising. intros k _. by destruct (_ <? _).
Qed.

(** A batch puts record [r] in zone [r mod n] of page [r / n], in order.
    When it succeeds, the zones chosen are different zones of the document and
    everything is within the limits; each page has the elements of its
    records, filled in, renamed and stacked in order. Every page is a valid
    document, provided that names have no colon (the new names are made with
    colons) and the limit on elements is not above the default, with which
    documents are validated. Batches never panic. *)
Theorem zone_batch_spec (doc : Doc) records zone_ids options limits :
  panics (materialize_zone_batch_with_limits unicode_uppercase unicode_lowercase base64_decode sha256 json_len json_len_pages
    doc records zone_ids options limits) = false /\
  forall pages,
    materialize_zone_batch_with_limits unicode_uppercase unicode_lowercase base64_decode sha256 json_len json_len_pages
      doc records zone_ids options limits = Ok pages ->
    batch_ok limits doc (zlen records) zone_ids /\
    zlen pages = pages_needed (zlen records) (zlen zone_ids) /\
    exists outs,
      Forall2 (placed doc records options limits) (map (placement_of zone_ids) (seqZ 0 (zlen records))) outs /\
      forall p page, pages !! p = Some page ->
        page = with_elements (empty_page doc (Z.of_nat p))
          (stacked 0 (concat (map snd (parts_on_page (Z.of_nat p) (zip (map (placement_of zone_ids) (seqZ 0 (zlen records))) outs))))) /\
        (max_elements limits <= max_elements ProcessingLimits_default ->
         Forall plain (map (fun x => element_id (common x)) (elements doc)) ->
         Forall plain (map resource_id (resources doc)) ->
         validate base64_decode sha256 page = Ok tt).
Proof.
  split; [apply zone_batch_ends|]. unfold materialize_zone_batch_with_limits. intros pages H.
  apply rbind_Ok in H as (n & Hn & H). apply raising_Ok, ok_or_Ok, checked_Some in Hn as [Hn ->].
  apply rbind_Ok in H as (plan & Hplan & H). apply plan_zone_batch_Ok in Hplan as [Hok ->]; [|apply zlen_nonneg].
  split; [done|]. cbn [page_count placements] in H. pose proof (zone_count_pos zone_ids (proj1 Hok)) as Hk.
  pose proof (zlen_nonneg records) as Hz.
  assert (0 <= pages_needed (zlen records) (zlen zone_ids)) as Hpn by (apply Z.div_pos; lia).
  destruct (Z.eqb_spec (pages_needed (zlen records) (zlen zone_ids)) 0) as [E|_].
  { injection H as <-. split; [done|]. exists []. assert (zlen records = 0) as ->.
    { destruct (decide (zlen records = 0)) as [|Hne]; [done|].
      pose proof (page_in_range (zlen records) (zlen zone_ids) 0 Hk). lia. }
    split; [constructor|done]. }
  inv_ok H. apply checked_Some in Hx as [_ ->]. apply Z.ltb_ge in Hb. destruct (checked usize_max _) as [bytes|]; [|done].
  inv_ok H. subst x. apply place_all_Ok in Hx as (outs & Houts & Hlen & Hpages).
  rewrite length_map, length_seqZ in Hlen. split; [unfold zlen in *; lia|]. exists outs. split; [done|].
  intros p page Hpage. assert (Z.of_nat p < pages_needed (zlen records) (zlen zone_ids)) as Hp.
  { apply lookup_lt_Some in Hpage. lia. }
  rewrite (Hpages p (empty_page doc (Z.of_nat p))) in Hpage.
  2: { change (map ?f ?l) with (f <$> l). rewrite list_lookup_fmap, lookup_seqZ_lt by lia. cbn. by rewrite Z.add_0_l. }
  injection Hpage as <-. split; [done|]. intros Hmax Hids Hres. apply validate_accepts.
  destruct Hok as (? & (_ & _ & _ & _ & Hwf) & _ & _ & Hzones & _).
  apply (page_well_formed doc records options limits); try done; [by destruct Hn|lia].
Qed.
End Materialized.

(** ** Examples *)

Definition example_record (who : string) : Fields := {[ str "name" := str who ]}.

(** The example document of DocumentFacts.v with another picture name. *)
Definition example_label (picture : string) : Document unit :=
  let doc := example_document "a" None in {|
    version := version doc; name := name doc; media := media doc; coordinate_system := coordinate_system doc;
    elements := [
      Element.Group (example_common "g" None) [str "t"];
      Element.Text (example_common "t" (Some (str "g"))) (str "{{name|upper}}") None 12 AlignLeft AlignTop Clip];
    resources :=
      [{| resource_id := str picture; media_type := str "image/png"; sha256_text := replicate 64 48;
          data_base64 := str "data:image/png;base64,AA==" |}];
    fields := []; extensions := [] |}.

Definition example_batch (picture : string) : Result (Fault MaterializeError.t) (list (Document unit)) :=
  materialize_zone_batch id id (fun _ => Some [0]) (fun _ => replicate 32 0) (fun _ => Some 500) (fun _ => Some 1000)
    (example_label picture) [example_record "Ada"; example_record "Bob"; example_record "Cid"] [str "b"; str "a"]
    MaterializeOptions_default.

(** Three records in two zones: the third is on a second page. *)
Example batch_of_three :
  (fun pages => map (fun page => (name page, map (fun x => (element_id (common x), element_text x)) (elements page))) pages)
    <$> result_ok (example_batch "logo") =
  Some [
    (str "label page 1", [
      (str "g:record:0:zone:b", None); (str "t:record:0:zone:b", Some (str "ADA"));
      (str "g:record:1:zone:a", None); (str "t:record:1:zone:a", Some (str "BOB"))]);
    (str "label page 2", [
      (str "g:record:2:zone:b", None); (str "t:record:2:zone:b", Some (str "CID"))])].
Proof. vm_compute. done. Qed.

(** A picture may have the name that an element gets: the document is valid,
    and the first page of the batch is not. *)
Example colliding_name :
  validate (fun _ => Some [0]) (fun _ => replicate 32 0) (example_label "t:record:0:zone:b") = Ok tt /\
  (fun pages => map (validate (fun _ => Some [0]) (fun _ => replicate 32 0)) pages)
    <$> result_ok (example_batch "t:record:0:zone:b") =
  Some [fail [ValidationError.DuplicateId (str "t:record:0:zone:b")]; Ok tt].
Proof. vm_compute. done. Qed.
