(* ===== verification/RenderTypes.v ===== *)
(** What the parts of the renderer share (crates/mb-printer-core/src/render.rs):
    errors, options, the pixel budget, [i32] arithmetic and characters.

    A drawing function may panic where an index is out of range, so results
    are [Fault]s. *)

From stdpp Require Import base list list_numbers strings numbers option.
From S2P Require Import Prelude Text MonoRaster.

#[local] Open Scope Z_scope.

Module RenderError.
Inductive t :=
| Validation (why : list Z)
| TooLarge
| Resource (id : list Z)
| Barcode (why : list Z)
| Qr
| Font (why : list Z).
End RenderError.

Definition Render (A : Type) : Type := Result (Fault RenderError.t) A.

Record RenderOptions := { option_dither : Dither; max_pixels : Z }.

Definition RenderOptions_default : RenderOptions :=
  {| option_dither := Threshold 128; max_pixels := 100000000 |}.

(** ** The pixel budget *)

Record RenderBudget := { budget_pixels : Z; budget_limit : Z }.

Definition budget_new (limit : Z) : RenderBudget := {| budget_pixels := 0; budget_limit := limit |}.

Definition budget_add (pixels : Z) (budget : RenderBudget) : Render RenderBudget :=
  let? total := raising (ok_or (checked u64_max (budget_pixels budget + pixels)) RenderError.TooLarge) in
  if budget_limit budget <? total then fail RenderError.TooLarge
  else Ok {| budget_pixels := total; budget_limit := budget_limit budget |}.

(** ** Ranges and characters *)

(** [lo..hi]. *)
Definition range (lo hi : Z) : list Z := seqZ lo (hi - lo).

(** The bytes of the character that starts with [b] in a well-formed string. *)
Definition char_width (b : Z) : nat := if b <? 0x80 then 1 else if b <? 0xe0 then 2 else if b <? 0xf0 then 3 else 4.

Fixpoint chars_loop (fuel : nat) (s : list Z) : list (list Z) :=
  match fuel, s with
  | O, _ | _, [] => []
  | S fuel, b :: _ => take (char_width b) s :: chars_loop fuel (drop (char_width b) s)
  end.

(** [str::chars], each as its bytes. *)
Definition chars (s : list Z) : list (list Z) := chars_loop (length s) s.

(** [iter.enumerate()]. *)
Definition enumerate {A} (l : list A) : list (Z * A) := zip (seqZ 0 (zlen l)) l.

(** ** [i32] *)

Lemma as_i32_id z : i32_min <= z <= i32_max -> as_i32 z = z.
Proof.
  intros Hz. unfold i32_min, i32_max in Hz. unfold as_i32, as_u32.
  change 4294967296 with (256 ^ Z.of_nat 4). apply to_signed_mod; [lia|].
  change (8 * Z.of_nat 4 - 1) with 31. lia.
Qed.

(** ** Results that do not panic *)

(** [r] does not panic, its error is one of [X], and its value satisfies [Q]. *)
Definition outcome {E A} (X : E -> Prop) (Q : A -> Prop) (r : Result (Fault E) A) : Prop :=
  match r with Ok a => Q a | Err (Raised e) => X e | Err Panicked => False end.

(** Any error, and none. *)
Notation safe := (outcome (fun _ => True)).
Notation certain := (outcome (fun _ => False)).

Section Outcomes.
Context {E : Type} (X : E -> Prop).

Lemma outcome_mono {A} (Q Q' : A -> Prop) r : outcome X Q r -> (forall a, Q a -> Q' a) -> outcome X Q' r.
Proof. destruct r as [a|[e|]]; cbn; auto. Qed.

Lemma outcome_bind {A B} (Q : B -> Prop) (P : A -> Prop) (r : Result (Fault E) A) (k : A -> Result (Fault E) B) :
  outcome X P r -> (forall a, P a -> outcome X Q (k a)) -> outcome X Q (let? a := r in k a).
Proof. destruct r as [a|[e|]]; cbn; auto. Qed.

Lemma safe_for_each {A S} (I : S -> Prop) (body : A -> S -> Result (Fault E) S) l s :
  I s -> (forall a s, a ∈ l -> I s -> outcome X I (body a s)) -> outcome X I (for_each body l s).
Proof.
  intros Hs Hb. revert s Hs. induction l as [|a l IH]; intros s Hs; [done|]. cbn [for_each].
  apply (outcome_bind _ I); [apply Hb; [left|done]|]. intros s' Hs'. apply IH; [|done]. intros b s'' Hin. apply Hb. by right.
Qed.

Lemma safe_index {A} (Q : A -> Prop) (l : list A) i : 0 <= i < zlen l -> (forall v, l !! Z.to_nat i = Some v -> Q v) -> outcome X Q (index l i).
Proof. intros Hi HQ. destruct (index_in_range (E := E) l i Hi) as (v & -> & Hv). by apply HQ. Qed.
End Outcomes.

Lemma certain_outcome {E A} (X : E -> Prop) (Q : A -> Prop) r : certain Q r -> outcome X Q r.
Proof. by destruct r as [a|[e|]]. Qed.

Lemma certain_Ok {E A} (Q : A -> Prop) (r : Result (Fault E) A) : certain Q r -> exists a, r = Ok a /\ Q a.
Proof. destruct r as [a|[e|]]; [by exists a|done..]. Qed.

Lemma safe_raising {E A} (Q : A -> Prop) (r : Result E A) : (forall a, r = Ok a -> Q a) -> safe Q (raising r).
Proof. destruct r; cbn; auto. Qed.

Lemma safe_map_raised {E F A} (Q : A -> Prop) (f : E -> F) (r : Result (Fault E) A) :
  panics r = false -> (forall a, r = Ok a -> Q a) -> safe Q (map_raised f r).
Proof. destruct r as [a|[e|]]; cbn; auto; discriminate. Qed.

Lemma safe_panics {E A} (Q : A -> Prop) (r : Result (Fault E) A) : safe Q r -> panics r = false.
Proof. by destruct r as [a|[e|]]. Qed.

Lemma safe_budget (Q : RenderBudget -> Prop) pixels b :
  (forall b', Q b') -> safe Q (budget_add pixels b).
Proof.
  intros HQ. unfold budget_add. destruct (checked _ _); [|done]. cbn [ok_or raising map_err rbind]. destruct (_ <? _); [done|]. apply HQ.
Qed.

Lemma elem_of_range lo hi z : z ∈ range lo hi <-> lo <= z < hi.
Proof. unfold range. rewrite elem_of_seqZ. lia. Qed.

Lemma elem_of_enumerate {A} (l : list A) i a : (i, a) ∈ enumerate l -> 0 <= i < zlen l /\ a ∈ l.
Proof.
  intros Hin. split; [|by apply elem_of_zip_r in Hin]. apply elem_of_zip_l in Hin. by apply elem_of_seqZ in Hin.
Qed.
