(* ===== verification/Float.v ===== *)
(** Binary64 numbers: [spec_float]s of the standard library with the precision
    and exponent range of [f64], their conversions and their decimal text. *)

From stdpp Require Import base list strings numbers option.
From Stdlib Require Import SpecFloat.
From S2P Require Import Prelude.

#[local] Open Scope Z_scope.

Definition f64 : Type := spec_float.

Definition f64_prec : Z := 53.
Definition f64_emax : Z := 1024.

(** [n as f64], rounded to nearest even. *)
Definition f64_of_Z (n : Z) : f64 := binary_normalize f64_prec f64_emax n 0 false.

Definition f64_add : f64 -> f64 -> f64 := SFadd f64_prec f64_emax.
Definition f64_sub : f64 -> f64 -> f64 := SFsub f64_prec f64_emax.
Definition f64_mul : f64 -> f64 -> f64 := SFmul f64_prec f64_emax.
Definition f64_div : f64 -> f64 -> f64 := SFdiv f64_prec f64_emax.
Definition f64_abs : f64 -> f64 := SFabs.
Definition f64_leb : f64 -> f64 -> bool := SFleb.
Definition f64_ltb : f64 -> f64 -> bool := SFltb.
Definition f64_eqb : f64 -> f64 -> bool := SFeqb.

(** A decimal literal: the quotient of two integers that are exact. *)
Definition f64_lit (n d : Z) : f64 := f64_div (f64_of_Z n) (f64_of_Z d).

(** ** Text *)

(** [n / d] to the nearest integer, halves to even. *)
Definition nearest_even (n d : Z) : Z :=
  let q := n / d in
  let r := n mod d in
  if (2 * r <? d) || ((2 * r =? d) && Z.even q) then q else q + 1.

(** Decimal digits, filled up with zeros on the left. *)
Definition show_padded (width : nat) (n : Z) : list Z :=
  let digits := show_dec n in
  repeat 48 (width - length digits) ++ digits.

(** The millionths nearest to the magnitude [m * 2 ^ e]. *)
Definition millionths (m : positive) (e : Z) : Z :=
  if 0 <=? e then Z.pos m * 2 ^ e * 1000000 else nearest_even (Z.pos m * 1000000) (2 ^ (- e)).

(** [format!("{x:.6}")]. A finite number is below [10 ^ 309]. *)
Definition show_f64_6 (x : f64) : list Z :=
  let sign (s : bool) := if s then str "-" else [] in
  match x with
  | S754_zero s => sign s ++ str "0.000000"
  | S754_infinity s => sign s ++ str "inf"
  | S754_nan => str "NaN"
  | S754_finite s m e =>
      let n := millionths m e in
      sign s ++ dec_digits 309 (n / 1000000) [] ++ str "." ++ show_padded 6 (n mod 1000000)
  end.

Example show_points : show_f64_6 (f64_div (f64_mul (f64_of_Z 62000) (f64_of_Z 72)) (f64_of_Z 25400)) = str "175.748031".
Proof. vm_compute. reflexivity. Qed.

Example show_half : show_f64_6 (f64_div (f64_of_Z 1) (f64_of_Z 2)) = str "0.500000".
Proof. vm_compute. reflexivity. Qed.

(** ** Integers *)

(** The nearest integer of [m * 2 ^ e], halves away from zero. *)
Definition nearest_away (m : positive) (e : Z) : Z :=
  if 0 <=? e then Z.pos m * 2 ^ e else (Z.pos m + 2 ^ (- e - 1)) / 2 ^ (- e).

(** [x.round() as T] for an integer type from [lo] to [hi]: the cast saturates, and is 0 for no number. *)
Definition f64_round_as (lo hi : Z) (x : f64) : Z :=
  match x with
  | S754_zero _ | S754_nan => 0
  | S754_infinity s => if s then lo else hi
  | S754_finite s m e => Z.max lo (Z.min hi (if s then - nearest_away m e else nearest_away m e))
  end.

Definition f64_is_finite (x : f64) : bool := match x with S754_zero _ | S754_finite _ _ _ => true | _ => false end.

Example round_203_2 : f64_round_as 0 u64_max (f64_mul (f64_of_Z 8) (f64_lit 254 10)) = 203.
Proof. vm_compute. reflexivity. Qed.
