(* ===== verification/Export.v ===== *)
(** PDF and PNG export of rasters (crates/mb-printer-core/src/export.rs).

    The PNG encoder is a library: a [PngEncoder] that takes the size and the
    density of the image, and its data. *)

From stdpp Require Import base list strings numbers option.
From S2P Require Import Prelude Text Capabilities MonoRaster RenderTypes Float.

#[local] Open Scope Z_scope.

(** ** Data *)

Module ExportError.
Inductive t :=
| Raster (e : RasterError)
| Png (why : list Z)
| EmptyPdf
| InvalidPdfMedia
| InvalidDpi
| OutputTooLarge (limit : Z).
End ExportError.

#[local] Abbreviation Export := (Result ExportError.t).

(** Rasters are packed by code that may panic. *)
Definition Exported (A : Type) : Type := Result (Fault ExportError.t) A.

Record PdfPage := { pdf_raster : MonoRaster; pdf_width_um : Z; pdf_height_um : Z }.

Record PackedPdfPage := {
  page_raster : PackedMonoRaster;
  page_width_um : Z;
  page_height_um : Z;
}.

(** ** Limits *)

Definition dimensions : ExportError.t := ExportError.Raster Dimensions.

Definition raster_pixels (raster : MonoRaster) : Export Z :=
  let? _ := map_err ExportError.Raster (mono_validate raster) in
  ok_or (checked u64_max (m_width raster * m_height raster)) dimensions.

Definition enforce_raster_pixels (raster : MonoRaster) (max_pixels : Z) : Export unit :=
  let? pixels := raster_pixels raster in
  if max_pixels <? pixels then Err dimensions else Ok tt.

Definition enforce_page_count (count : Z) (limits : ProcessingLimits) : Export unit :=
  if count =? 0 then Err ExportError.EmptyPdf
  else if default usize_max (checked usize_max (max_pages limits)) <? count
  then Err (ExportError.OutputTooLarge (max_output_bytes limits)) else Ok tt.

(** ** Objects *)

Definition newline : list Z := [10].

Definition stream (dict data : list Z) : list Z :=
  str "<< " ++ dict ++ str " /Length " ++ show_dec (zlen data) ++ str " >>" ++ newline ++ str "stream" ++ newline
  ++ data ++ newline ++ str "endstream".

Definition bounded_extend (output bytes : list Z) (limit : Z) : Export (list Z) :=
  let? next := ok_or (checked usize_max (zlen output + zlen bytes)) (ExportError.OutputTooLarge limit) in
  if limit <? next then Err (ExportError.OutputTooLarge limit) else Ok (output ++ bytes).

(** The first two lines; the second one marks the file as binary. *)
Definition pdf_header : list Z := str "%PDF-1.4" ++ newline ++ str "%" ++ [0xe2; 0xe3; 0xcf; 0xd3] ++ newline.

Definition object_start (i : Z) : list Z := show_dec i ++ str " 0 obj" ++ newline.
Definition object_end : list Z := newline ++ str "endobj" ++ newline.

(** The body of the loop over the objects: the output and the offsets so far. *)
Definition write_object (limit : Z) (object : Z * list Z) (s : list Z * list Z) : Export (list Z * list Z) :=
  let '(i, object) := object in
  let '(out, offsets) := s in
  let offsets := offsets ++ [zlen out] in
  let? out := bounded_extend out (object_start (i + 1)) limit in
  let? out := bounded_extend out object limit in
  let? out := bounded_extend out object_end limit in
  Ok (out, offsets).

Definition xref_start (count : Z) : list Z :=
  str "xref" ++ newline ++ str "0 " ++ show_dec count ++ newline ++ str "0000000000 65535 f " ++ newline.
Definition xref_entry (offset : Z) : list Z := show_padded 10 offset ++ str " 00000 n " ++ newline.
Definition trailer (count xref : Z) : list Z :=
  str "trailer" ++ newline ++ str "<< /Size " ++ show_dec count ++ str " /Root 1 0 R >>" ++ newline
  ++ str "startxref" ++ newline ++ show_dec xref ++ newline ++ str "%%EOF" ++ newline.

Definition finish_pdf (objects : list (list Z)) (limit : Z) : Export (list Z) :=
  let? 'written := for_each (write_object limit) (enumerate objects) (pdf_header, [0]) in
  let '(out, offsets) := written in
  let xref := zlen out in
  let? out := bounded_extend out (xref_start (zlen objects + 1)) limit in
  let? out := for_each (fun offset out => bounded_extend out (xref_entry offset) limit) (drop 1 offsets) out in
  bounded_extend out (trailer (zlen objects + 1) xref) limit.

(** ** Pages *)

(** [.join(" ")] of the references to the pages. *)
Definition page_references (count : Z) : list Z :=
  join 32 (map (fun index => show_dec (3 + index * 3) ++ str " 0 R") (seqZ 0 count)).

Definition root_objects (count : Z) : list (list Z) :=
  [str "<< /Type /Catalog /Pages 2 0 R >>";
   str "<< /Type /Pages /Kids [" ++ page_references count ++ str "] /Count " ++ show_dec count ++ str " >>"].

Definition image_dict (width height : Z) : list Z :=
  str "/Type /XObject /Subtype /Image /Width " ++ show_dec width ++ str " /Height " ++ show_dec height
  ++ str " /ColorSpace /DeviceGray /BitsPerComponent 1 /Decode [1 0]".

(** The page, its image and its content. *)
Definition page_objects (index : Z) (width_pt height_pt : f64) (width height : Z) (image : list Z) : list (list Z) :=
  let image_id := 4 + index * 3 in
  let content_id := 5 + index * 3 in
  let w := show_f64_6 width_pt in
  let h := show_f64_6 height_pt in
  let content := str "q" ++ newline ++ w ++ str " 0 0 " ++ h ++ str " 0 0 cm" ++ newline ++ str "/Im0 Do" ++ newline
                 ++ str "Q" ++ newline in
  [str "<< /Type /Page /Parent 2 0 R /MediaBox [0 0 " ++ w ++ str " " ++ h ++ str "] /Resources << /XObject << /Im0 "
     ++ show_dec image_id ++ str " 0 R >> >> /Contents " ++ show_dec content_id ++ str " 0 R >>";
   stream (image_dict width height) image;
   stream [] content].

(** [um as f64 * 72.0 / 25_400.0]. *)
Definition points_of_um (um : Z) : f64 := f64_div (f64_mul (f64_of_Z um) (f64_of_Z 72)) (f64_of_Z 25400).

(** [dots as f64 * 72.0 / f64::from(dpi)]. *)
Definition points_of_dots (dots dpi : Z) : f64 := f64_div (f64_mul (f64_of_Z dots) (f64_of_Z 72)) (f64_of_Z dpi).

(** The estimate of the output grows by the data of a page and room for its objects. *)
Definition add_estimate (estimated size limit : Z) : Export Z :=
  ok_or (value ← checked usize_max (estimated + size); checked usize_max (value + 2048)) (ExportError.OutputTooLarge limit).

Definition estimate_page (max_output_bytes : Z) (page : PackedPdfPage) (estimated : Z) : Export Z :=
  let? _ := map_err ExportError.Raster (packed_validate (page_raster page)) in
  if (page_width_um page <=? 0) || (page_height_um page <=? 0) then Err ExportError.InvalidPdfMedia
  else add_estimate estimated (zlen (p_bytes (page_raster page))) max_output_bytes.

Definition packed_page_objects (page : Z * PackedPdfPage) : list (list Z) :=
  let '(index, page) := page in
  let raster := page_raster page in
  page_objects index (points_of_um (page_width_um page)) (points_of_um (page_height_um page))
    (p_width raster) (p_height raster) (p_bytes raster).

Definition pdf_packed_pages_physical (pages : list PackedPdfPage) (max_output_bytes : Z) : Export (list Z) :=
  match pages with
  | [] => Err ExportError.EmptyPdf
  | _ =>
      let? estimated := for_each (estimate_page max_output_bytes) pages 4096 in
      if max_output_bytes <? estimated then Err (ExportError.OutputTooLarge max_output_bytes)
      else finish_pdf (root_objects (zlen pages) ++ flat_map packed_page_objects (enumerate pages)) max_output_bytes
  end.

Definition add_packed_pixels (limits : ProcessingLimits) (page : PackedPdfPage) (total : Z) : Export Z :=
  let? pixels := ok_or (checked u64_max (p_width (page_raster page) * p_height (page_raster page))) dimensions in
  if max_canvas_pixels limits <? pixels then Err dimensions
  else ok_or (checked u64_max (total + pixels)) dimensions.

Definition pdf_packed_pages_physical_with_limits (pages : list PackedPdfPage) (limits : ProcessingLimits) : Export (list Z) :=
  let? _ := enforce_page_count (zlen pages) limits in
  let? total_pixels := for_each (add_packed_pixels limits) pages 0 in
  if max_total_pixels limits <? total_pixels then Err dimensions
  else pdf_packed_pages_physical pages (max_output_bytes limits).

(** [?] on a packed raster. *)
Definition from_raster_fault {A} (r : Result (Fault RasterError) A) : Exported A := map_raised ExportError.Raster r.

Definition pack_page (limits : ProcessingLimits) (page : PdfPage) (s : Z * list PackedPdfPage) : Exported (Z * list PackedPdfPage) :=
  let '(total, packed) := s in
  if (pdf_width_um page <=? 0) || (pdf_height_um page <=? 0) then fail ExportError.InvalidPdfMedia
  else
    let? pixels := raising (raster_pixels (pdf_raster page)) in
    if max_canvas_pixels limits <? pixels then fail dimensions
    else
      let? total := raising (ok_or (checked u64_max (total + pixels)) dimensions) in
      if max_total_pixels limits <? total then fail dimensions
      else
        let? raster := from_raster_fault (from_mono (pdf_raster page) (max_canvas_pixels limits)) in
        Ok (total, packed ++ [{| page_raster := raster; page_width_um := pdf_width_um page; page_height_um := pdf_height_um page |}]).

Definition pdf_pages_physical_with_limits (pages : list PdfPage) (limits : ProcessingLimits) : Exported (list Z) :=
  let? _ := raising (enforce_page_count (zlen pages) limits) in
  let? 'packed := for_each (pack_page limits) pages (0, []) in
  raising (pdf_packed_pages_physical_with_limits (snd packed) limits).

Definition pdf_pages_physical (pages : list PdfPage) : Exported (list Z) :=
  pdf_pages_physical_with_limits pages ProcessingLimits_default.

Definition pdf_physical_with_limits (r : MonoRaster) (width_um height_um : Z) (limits : ProcessingLimits) : Exported (list Z) :=
  pdf_pages_physical_with_limits [{| pdf_raster := r; pdf_width_um := width_um; pdf_height_um := height_um |}] limits.

Definition pdf_physical (r : MonoRaster) (width_um height_um : Z) : Exported (list Z) :=
  pdf_physical_with_limits r width_um height_um ProcessingLimits_default.

(** ** Pages of a density *)

(** A raster with its width and height in points. *)
Definition PointPage : Type := MonoRaster * f64 * f64.

Definition estimate_point_page (limits : ProcessingLimits) (page : PointPage) (s : Z * Z) : Exported (Z * Z) :=
  let '(raster, _, _) := page in
  let '(total, estimated) := s in
  let? pixels := raising (raster_pixels raster) in
  if max_canvas_pixels limits <? pixels then fail dimensions
  else
    let? total := raising (ok_or (checked u64_max (total + pixels)) dimensions) in
    let? image := from_raster_fault (pack_msb raster) in
    let? estimated := raising (add_estimate estimated (zlen image) (max_output_bytes limits)) in
    Ok (total, estimated).

Definition add_point_page (page : Z * PointPage) (objects : list (list Z)) : Exported (list (list Z)) :=
  let '(index, (r, width_pt, height_pt)) := page in
  let? _ := raising (map_err ExportError.Raster (mono_validate r)) in
  let? image := from_raster_fault (pack_msb r) in
  Ok (objects ++ page_objects index width_pt height_pt (m_width r) (m_height r) image).

Definition pdf_pages_points (pages : list PointPage) (limits : ProcessingLimits) : Exported (list Z) :=
  match pages with
  | [] => fail ExportError.EmptyPdf
  | _ =>
      let? 'totals := for_each (estimate_point_page limits) pages (0, 4096) in
      let '(total_pixels, estimated) := totals in
      if (max_total_pixels limits <? total_pixels) || (max_output_bytes limits <? estimated)
      then fail (ExportError.OutputTooLarge (max_output_bytes limits))
      else
        let? objects := for_each add_point_page (enumerate pages) (root_objects (zlen pages)) in
        raising (finish_pdf objects (max_output_bytes limits))
  end.

Definition pdf_pages_with_limits (pages : list (MonoRaster * Z)) (limits : ProcessingLimits) : Exported (list Z) :=
  let? _ := raising (enforce_page_count (zlen pages) limits) in
  if existsb (fun '(_, dpi) => dpi =? 0) pages then fail ExportError.InvalidDpi
  else
    pdf_pages_points (map (fun '(raster, dpi) => (raster, points_of_dots (m_width raster) dpi, points_of_dots (m_height raster) dpi)) pages)
      limits.

Definition pdf_pages (pages : list (MonoRaster * Z)) : Exported (list Z) := pdf_pages_with_limits pages ProcessingLimits_default.

Definition pdf_with_limits (r : MonoRaster) (dpi : Z) (limits : ProcessingLimits) : Exported (list Z) :=
  pdf_pages_with_limits [(r, dpi)] limits.

Definition pdf (r : MonoRaster) (dpi : Z) : Exported (list Z) := pdf_with_limits r dpi ProcessingLimits_default.

(** ** PNG *)

(** [png::Encoder] for one-bit gray images in sRGB without filters, written to a vector. *)
Class PngEncoder := {
  PngWriter : Type;
  (** Width, height and pixels per metre. *)
  write_header : Z -> Z -> Z -> Result (list Z) PngWriter;
  (** The output, which the writer ends when it is dropped. *)
  write_image_data : PngWriter -> list Z -> Result (list Z) (list Z);
}.

Section Png.
Context `{PngEncoder}.

(** [dpi] per inch as dots per metre. *)
Definition pixels_per_metre (dpi : Z) : Z := (dpi * 10000 + 127) / 254.

Definition png_with_limits (r : MonoRaster) (dpi : Z) (limits : ProcessingLimits) : Exported (list Z) :=
  let? _ := raising (map_err ExportError.Raster (mono_validate r)) in
  let? _ := raising (enforce_raster_pixels r (max_canvas_pixels limits)) in
  let? writer := raising (map_err ExportError.Png (write_header (m_width r) (m_height r) (pixels_per_metre dpi))) in
  let? bytes := from_raster_fault (pack_msb r) in
  let packed := map (fun b => 255 - b) bytes in
  let? out := raising (map_err ExportError.Png (write_image_data writer packed)) in
  if max_output_bytes limits <? zlen out then fail (ExportError.OutputTooLarge (max_output_bytes limits)) else Ok out.

Definition png (r : MonoRaster) (dpi : Z) : Exported (list Z) := png_with_limits r dpi ProcessingLimits_default.

End Png.
