(* ===== verification/Sheet.v ===== *)
(** Imposition of labels onto paper sheets
    (crates/mb-printer-core/src/sheet.rs, and [micrometres_to_dots] of
    render.rs): layouts and their validation, the assignment of items to
    slots, the composition of page rasters and their PDF.

    Sheets of documents are in SheetDocuments.v. *)

From stdpp Require Import base list strings numbers option.
From S2P Require Import Prelude Capabilities Document MonoRaster RenderTypes Export.

#[local] Open Scope Z_scope.

Definition MAX_LAYOUT_ID_BYTES : Z := 128.
Definition CUT_MARK_LENGTH_UM : Z := 2000.

(** ** Data *)

Inductive FillOrder := RowMajor | ColumnMajor.

Record SheetSlot := { x_um : Z; y_um : Z; width_um : Z; height_um : Z }.

Record SheetGrid := {
  grid_id : list Z;
  grid_paper_width_um : Z;
  grid_paper_height_um : Z;
  rows : Z;
  columns : Z;
  label_width_um : Z;
  label_height_um : Z;
  margin_left_um : Z;
  margin_top_um : Z;
  gap_x_um : Z;
  gap_y_um : Z;
  fill_order : FillOrder;
}.

Record SheetLayout := {
  layout_id : list Z;
  paper_width_um : Z;
  paper_height_um : Z;
  slots : list SheetSlot;
}.

Inductive SheetDefinition :=
| Grid (grid : SheetGrid)
| Explicit (layout : SheetLayout).

(** [dpi] is a [NonZeroU16]. *)
Record SheetOptions := { first_slot : Z; dpi : Z }.

Record SheetRasterOptions := { cut_marks : bool }.

Record SheetPlanInput := {
  item_count : Z;
  input_width_um : Z;
  input_height_um : Z;
}.

Record SheetPlacement := { item : Z; page : Z; slot : Z }.

Record SheetPlan := {
  page_count : Z;
  layout : SheetLayout;
  placements : list SheetPlacement;
}.

Record SheetRasterItem := {
  item_raster : MonoRaster;
  item_width_um : Z;
  item_height_um : Z;
}.

Module SheetError.
Inductive t :=
| EmptyJob
| EmptyLayout
| InvalidLayoutId
| InvalidPaper (width_um height_um : Z)
| InvalidGrid
| SlotOutsidePaper (index : Z)
| OverlappingSlots (left right : Z)
| InvalidFirstSlot (first_slot : Z)
| LabelSizeMismatch (item actual_width_um actual_height_um expected_width_um expected_height_um : Z)
| RasterTooLarge
| LimitExceeded
| GeometryOverflow
| OutputTooLarge (limit : Z)
| InvalidDocument (item : Z) (errors : list ValidationError.t)
| Render (item : Z) (source : RenderError.t)
| Raster (e : RasterError)
| Export (e : ExportError.t).

Definition code (e : t) : list Z :=
  match e with
  | EmptyJob => str "sheet.empty_job"
  | EmptyLayout => str "sheet.empty_layout"
  | InvalidLayoutId => str "sheet.invalid_layout_id"
  | InvalidPaper _ _ => str "sheet.invalid_paper"
  | InvalidGrid => str "sheet.invalid_grid"
  | SlotOutsidePaper _ => str "sheet.slot_outside_paper"
  | OverlappingSlots _ _ => str "sheet.overlapping_slots"
  | InvalidFirstSlot _ => str "sheet.invalid_first_slot"
  | LabelSizeMismatch _ _ _ _ _ => str "sheet.label_size_mismatch"
  | RasterTooLarge => str "sheet.raster_too_large"
  | OutputTooLarge _ => str "sheet.output_too_large"
  | LimitExceeded => str "sheet.limit_exceeded"
  | GeometryOverflow => str "sheet.geometry_overflow"
  | InvalidDocument _ _ => str "sheet.invalid_document"
  | Render _ _ => str "sheet.render_failed"
  | Raster _ => str "sheet.raster_failed"
  | Export (ExportError.OutputTooLarge _) => str "sheet.output_too_large"
  | Export _ => str "sheet.export_failed"
  end.
End SheetError.

#[local] Abbreviation Res := (Result SheetError.t).

(** ** Layouts *)

Definition slot_right (s : SheetSlot) : Res Z :=
  ok_or (checked_i64 (x_um s + width_um s)) SheetError.GeometryOverflow.
Definition slot_bottom (s : SheetSlot) : Res Z :=
  ok_or (checked_i64 (y_um s + height_um s)) SheetError.GeometryOverflow.

Definition overlaps (left right : SheetSlot) : Res bool :=
  let? left_right := slot_right left in
  let? right_right := slot_right right in
  let? left_bottom := slot_bottom left in
  let? right_bottom := slot_bottom right in
  Ok ((x_um left <? right_right) && (x_um right <? left_right)
      && (y_um left <? right_bottom) && (y_um right <? left_bottom)).

(** The loop over the slots. *)
Fixpoint check_slots (paper_width paper_height index : Z) (slots : list SheetSlot) : Res unit :=
  match slots with
  | [] => Ok tt
  | s :: slots =>
      let? right := slot_right s in
      let? bottom := slot_bottom s in
      if (x_um s <? 0) || (y_um s <? 0) || (width_um s <=? 0) || (height_um s <=? 0)
         || (paper_width <? right) || (paper_height <? bottom)
      then Err (SheetError.SlotOutsidePaper index)
      else check_slots paper_width paper_height (index + 1) slots
  end.

(** The inner and the outer loop over pairs of slots. *)
Fixpoint check_right (left : Z) (s : SheetSlot) (right : Z) (slots : list SheetSlot) : Res unit :=
  match slots with
  | [] => Ok tt
  | s' :: slots =>
      let? o := overlaps s s' in
      if o : bool then Err (SheetError.OverlappingSlots left right) else check_right left s (right + 1) slots
  end.

Fixpoint check_pairs (left : Z) (slots : list SheetSlot) : Res unit :=
  match slots with
  | [] => Ok tt
  | s :: slots =>
      let? _ := check_right left s (left + 1) slots in
      check_pairs (left + 1) slots
  end.

Definition validate_layout_with_limits (layout : SheetLayout) (limits : ProcessingLimits) : Res unit :=
  if (zlen (layout_id layout) =? 0) || (MAX_LAYOUT_ID_BYTES <? zlen (layout_id layout))
  then Err SheetError.InvalidLayoutId
  else if (paper_width_um layout <=? 0) || (paper_height_um layout <=? 0)
  then Err (SheetError.InvalidPaper (paper_width_um layout) (paper_height_um layout))
  else if zlen (slots layout) =? 0 then Err SheetError.EmptyLayout
  else if max_sheet_slots limits <? zlen (slots layout) then Err SheetError.LimitExceeded
  else
    let? _ := check_slots (paper_width_um layout) (paper_height_um layout) 0 (slots layout) in
    check_pairs 0 (slots layout).

Definition validate_layout (layout : SheetLayout) : Res unit :=
  validate_layout_with_limits layout ProcessingLimits_default.

(** The closure [push]: the slot of a row and a column. *)
Definition grid_slot (grid : SheetGrid) (row column : Z) : Res SheetSlot :=
  let overflow := SheetError.GeometryOverflow in
  let? pitch_x := ok_or (checked_i64 (label_width_um grid + gap_x_um grid)) overflow in
  let? pitch_y := ok_or (checked_i64 (label_height_um grid + gap_y_um grid)) overflow in
  let? x_um := ok_or (value ← checked_i64 (column * pitch_x); checked_i64 (margin_left_um grid + value)) overflow in
  let? y_um := ok_or (value ← checked_i64 (row * pitch_y); checked_i64 (margin_top_um grid + value)) overflow in
  Ok {| x_um := x_um; y_um := y_um;
        width_um := label_width_um grid; height_um := label_height_um grid |}.

(** The nested loops: [(row, column)] in the order in which they push. *)
Definition grid_cells (grid : SheetGrid) : list (Z * Z) :=
  match fill_order grid with
  | RowMajor => flat_map (fun row => map (fun column => (row, column)) (seqZ 0 (columns grid))) (seqZ 0 (rows grid))
  | ColumnMajor => flat_map (fun column => map (fun row => (row, column)) (seqZ 0 (rows grid))) (seqZ 0 (columns grid))
  end.

Fixpoint push_all (grid : SheetGrid) (cells : list (Z * Z)) : Res (list SheetSlot) :=
  match cells with
  | [] => Ok []
  | (row, column) :: cells =>
      let? s := grid_slot grid row column in
      let? slots := push_all grid cells in
      Ok (s :: slots)
  end.

Definition invalid_grid (grid : SheetGrid) : bool :=
  (rows grid =? 0) || (columns grid =? 0)
  || (label_width_um grid <=? 0) || (label_height_um grid <=? 0)
  || (margin_left_um grid <? 0) || (margin_top_um grid <? 0)
  || (gap_x_um grid <? 0) || (gap_y_um grid <? 0).

Definition normalize_layout_with_limits (definition : SheetDefinition) (limits : ProcessingLimits) :
    Res SheetLayout :=
  match definition with
  | Explicit layout =>
      let? _ := validate_layout_with_limits layout limits in Ok layout
  | Grid grid =>
      if invalid_grid grid then Err SheetError.InvalidGrid
      else
        let? count := ok_or (checked usize_max (rows grid * columns grid)) SheetError.GeometryOverflow in
        if max_sheet_slots limits <? count then Err SheetError.LimitExceeded
        else
          let? slots := push_all grid (grid_cells grid) in
          let layout := {|
            layout_id := grid_id grid;
            paper_width_um := grid_paper_width_um grid;
            paper_height_um := grid_paper_height_um grid;
            slots := slots |} in
          let? _ := validate_layout_with_limits layout limits in
          Ok layout
  end.

Definition normalize_layout (definition : SheetDefinition) : Res SheetLayout :=
  normalize_layout_with_limits definition ProcessingLimits_default.

(** ** Device units *)

(** Division with halves rounded away from zero; the [i64] cast truncates. *)
Definition round_ratio (n d : Z) : Z :=
  let sign := if n <? 0 then -1 else 1 in
  let n := Z.abs n in
  as_i64 (sign * ((n + d / 2) / d)).

Definition micrometres_to_dots (value dpi : Z) : Z := round_ratio (value * dpi) 25400.

Definition dots_u32 (value_um dpi : Z) : Res Z :=
  ok_or (checked u32_max (micrometres_to_dots value_um dpi)) SheetError.GeometryOverflow.

Definition paper_dots (layout : SheetLayout) (dpi : Z) (limits : ProcessingLimits) : Res (Z * Z) :=
  let? width := dots_u32 (paper_width_um layout) dpi in
  let? height := dots_u32 (paper_height_um layout) dpi in
  let? pixels := ok_or (checked u64_max (width * height)) SheetError.GeometryOverflow in
  if max_canvas_pixels limits <? pixels then Err SheetError.RasterTooLarge else Ok (width, height).

(** ** Planning *)

(** The page and slot of an item. *)
Definition item_position (n first_slot first_capacity item : Z) : Z * Z :=
  if item <? first_capacity then (0, first_slot + item)
  else let offset := item - first_capacity in (1 + offset / n, offset mod n).

Definition ensure_size (item actual_width_um actual_height_um : Z) (target : SheetSlot) : Res unit :=
  if (actual_width_um =? width_um target) && (actual_height_um =? height_um target) then Ok tt
  else Err (SheetError.LabelSizeMismatch item actual_width_um actual_height_um (width_um target) (height_um target)).

Definition no_slot : SheetSlot := {| x_um := 0; y_um := 0; width_um := 0; height_um := 0 |}.

(** [layout.slots[slot]], which the callers keep in range. *)
Definition slot_at (layout : SheetLayout) (slot : Z) : SheetSlot := nth (Z.to_nat slot) (slots layout) no_slot.

(** The loop over the items; the size test is written out in the source. *)
Fixpoint place_items (input : SheetPlanInput) (options : SheetOptions) (layout : SheetLayout)
    (first_capacity : Z) (items : list Z) : Res (list SheetPlacement) :=
  match items with
  | [] => Ok []
  | item :: items =>
      let (page, slot) := item_position (zlen (slots layout)) (first_slot options) first_capacity item in
      let? _ := ensure_size item (input_width_um input) (input_height_um input) (slot_at layout slot) in
      let? placements := place_items input options layout first_capacity items in
      Ok ({| item := item; page := page; slot := slot |} :: placements)
  end.

Definition plan (input : SheetPlanInput) (definition : SheetDefinition) (options : SheetOptions)
    (limits : ProcessingLimits) : Res SheetPlan :=
  if item_count input =? 0 then Err SheetError.EmptyJob
  else if max_sheet_items limits <? item_count input then Err SheetError.LimitExceeded
  else
  let? layout := normalize_layout_with_limits definition limits in
  let n := zlen (slots layout) in
  if n <=? first_slot options then Err (SheetError.InvalidFirstSlot (first_slot options))
  else
  let? ' (paper_width, paper_height) := paper_dots layout (dpi options) limits in
  let? pixels_per_page := ok_or (checked u64_max (paper_width * paper_height)) SheetError.GeometryOverflow in
  let first_capacity := n - first_slot options in
  let remaining := saturate usize_max (item_count input - first_capacity) in
  let additional_pages := if remaining =? 0 then 0 else (remaining + n - 1) / n in
  let? page_count := ok_or (checked usize_max (1 + additional_pages)) SheetError.GeometryOverflow in
  if max_pages limits <? page_count then Err SheetError.LimitExceeded
  else
  let? total_pixels := ok_or (checked u64_max (pixels_per_page * page_count)) SheetError.GeometryOverflow in
  if max_total_pixels limits <? total_pixels then Err SheetError.RasterTooLarge
  else
  let? placements := place_items input options layout first_capacity (seqZ 0 (item_count input)) in
  Ok {| page_count := page_count; layout := layout; placements := placements |}.

(** ** Page rasters *)

#[local] Abbreviation Checked A := (Result (Fault SheetError.t) A).

(** [#[from] RasterError]. *)
Definition from_raster {A} (r : Result (Fault RasterError) A) : Checked A :=
  match r with
  | Ok a => Ok a
  | Err (Raised e) => fail (SheetError.Raster e)
  | Err Panicked => Err Panicked
  end.

(** [checked_sub] and [checked_add] on [u32]. *)
Definition u32_sub (a b : Z) : option Z := checked u32_max (a - b).
Definition u32_add (a b : Z) : option Z := checked u32_max (a + b).

Definition cut_mark_points (left top : Z) (label : MonoRaster) (delta : Z) : list (option Z * option Z) :=
  [(u32_sub left delta, Some top);
   (Some left, u32_sub top delta);
   (x ← u32_add left (m_width label); u32_add x delta, Some top);
   (Some left, y ← u32_add top (m_height label); u32_add y delta)].

Definition draw_point (width height : Z) (point : option Z * option Z) (pixels : list Z) : Checked (list Z) :=
  match point with
  | (Some x, Some y) =>
      if (x <? width) && (y <? height) then
        let? index := raising (ok_or (value ← checked u64_max (y * width); checked u64_max (value + x))
                                     SheetError.GeometryOverflow) in
        assign pixels index 1
      else Ok pixels
  | _ => Ok pixels
  end.

Definition draw_cut_marks (page : MonoRaster) (left top : Z) (label : MonoRaster) (dpi : Z) : Checked MonoRaster :=
  let? dots := raising (dots_u32 CUT_MARK_LENGTH_UM dpi) in
  let length := Z.max dots 1 in
  let? pixels := for_each (draw_point (m_width page) (m_height page))
                   (flat_map (cut_mark_points left top label) (seqZ 0 length)) (m_pixels page) in
  Ok {| m_width := m_width page; m_height := m_height page; m_pixels := pixels |}.

(** What one placement does to its page. *)
Definition place_on_page (items : list SheetRasterItem) (plan : SheetPlan) (options : SheetOptions)
    (raster_options : SheetRasterOptions) (placement : SheetPlacement) (page : MonoRaster) : Checked MonoRaster :=
  let? slot := index (slots (layout plan)) (slot placement) in
  let? x := raising (dots_u32 (x_um slot) (dpi options)) in
  let? y := raising (dots_u32 (y_um slot) (dpi options)) in
  let? label := index items (item placement) in
  let? page := from_raster (blit page (item_raster label) x y) in
  if cut_marks raster_options
  then draw_cut_marks page x y (item_raster label) (dpi options)
  else Ok page.

Definition on_page (page_index : Z) (placement : SheetPlacement) : bool := page placement =? page_index.

(** A page: the body of the loop over the pages. [place] puts one item on its page. *)
Definition compose_page (place : SheetPlacement -> MonoRaster -> Checked MonoRaster) (plan : SheetPlan)
    (limits : ProcessingLimits) (width height page_index : Z) (pages : list PackedPdfPage) :
    Checked (list PackedPdfPage) :=
  let? page :=
    raising (map_err (fun _ => SheetError.RasterTooLarge) (mono_try_new width height (max_canvas_pixels limits))) in
  let? page := for_each place (List.filter (on_page page_index) (placements plan)) page in
  let? raster := from_raster (from_mono page (max_canvas_pixels limits)) in
  Ok (pages ++ [{| page_raster := raster;
                   page_width_um := paper_width_um (layout plan);
                   page_height_um := paper_height_um (layout plan) |}]).

Definition export_pages (pages : list PackedPdfPage) (limits : ProcessingLimits) : Res (list Z) :=
  map_err (fun error => match error with
                        | ExportError.OutputTooLarge limit => SheetError.OutputTooLarge limit
                        | other => SheetError.Export other
                        end)
          (pdf_packed_pages_physical pages (max_output_bytes limits)).

Definition compose_pages (place : SheetPlacement -> MonoRaster -> Checked MonoRaster) (plan : SheetPlan)
    (options : SheetOptions) (limits : ProcessingLimits) : Checked (list PackedPdfPage) :=
  let? ' (page_width, page_height) := raising (paper_dots (layout plan) (dpi options) limits) in
  for_each (compose_page place plan limits page_width page_height) (seqZ 0 (page_count plan)) [].

Definition pdf_rasters_planned (items : list SheetRasterItem) (plan : SheetPlan) (options : SheetOptions)
    (raster_options : SheetRasterOptions) (limits : ProcessingLimits) : Checked (list Z) :=
  let? pages := compose_pages (place_on_page items plan options raster_options) plan options limits in
  raising (export_pages pages limits).

(** The checks of [pdf_rasters] on one item. *)
Definition check_item (plan : SheetPlan) (options : SheetOptions) (item : Z) (raster_item : SheetRasterItem) :
    Checked unit :=
  let? _ := from_raster (raising (mono_validate (item_raster raster_item))) in
  let? placement := index (placements plan) item in
  let? target := index (slots (layout plan)) (slot placement) in
  let? _ := raising (ensure_size item (item_width_um raster_item) (item_height_um raster_item) target) in
  let? expected_width := raising (dots_u32 (item_width_um raster_item) (dpi options)) in
  let? expected_height := raising (dots_u32 (item_height_um raster_item) (dpi options)) in
  if negb (m_width (item_raster raster_item) =? expected_width)
     || negb (m_height (item_raster raster_item) =? expected_height)
  then fail SheetError.RasterTooLarge else Ok tt.

Fixpoint check_items (plan : SheetPlan) (options : SheetOptions) (item : Z) (items : list SheetRasterItem) :
    Checked unit :=
  match items with
  | [] => Ok tt
  | raster_item :: items =>
      let? _ := check_item plan options item raster_item in
      check_items plan options (item + 1) items
  end.

Definition pdf_rasters (items : list SheetRasterItem) (definition : SheetDefinition) (options : SheetOptions)
    (raster_options : SheetRasterOptions) (limits : ProcessingLimits) : Checked (list Z) :=
  match items with
  | [] => fail SheetError.EmptyJob
  | first :: _ =>
      let? count := raising (ok_or (checked u32_max (zlen items)) SheetError.LimitExceeded) in
      let? plan := raising (plan {| item_count := count; input_width_um := item_width_um first;
                                    input_height_um := item_height_um first |} definition options limits) in
      let? _ := check_items plan options 0 items in
      pdf_rasters_planned items plan options raster_options limits
  end.
