(* ===== verification/SheetFacts.v ===== *)
(** What a sheet plan promises (crates/mb-printer-core/src/sheet.rs): valid
    layouts are disjoint slots on the paper, grids that fit are valid, and a
    plan is the items in order over the slots from the first one on. *)

From stdpp Require Import base list list_numbers strings numbers option.
From S2P Require Import Prelude Capabilities MonoRaster Sheet.

#[local] Open Scope Z_scope.

(** ** Layouts *)

(** The point [(X, Y)] of the paper, in micrometres, is part of the slot. *)
Definition covers (s : SheetSlot) (X Y : Z) : Prop :=
  x_um s <= X < x_um s + width_um s /\ y_um s <= Y < y_um s + height_um s.

Definition disjoint_slots (s s' : SheetSlot) : Prop := forall X Y, covers s X Y -> covers s' X Y -> False.

Definition on_paper (width height : Z) (s : SheetSlot) : Prop :=
  0 <= x_um s /\ 0 <= y_um s /\ 0 < width_um s /\ 0 < height_um s /\
  x_um s + width_um s <= width /\ y_um s + height_um s <= height.

Definition valid_slots (width height : Z) (l : list SheetSlot) : Prop :=
  Forall (on_paper width height) l /\ ForallOrdPairs disjoint_slots l.

Definition valid_layout (layout : SheetLayout) (limits : ProcessingLimits) : Prop :=
  0 < zlen (layout_id layout) <= MAX_LAYOUT_ID_BYTES /\
  0 < paper_width_um layout /\ 0 < paper_height_um layout /\
  0 < zlen (slots layout) <= max_sheet_slots limits /\
  valid_slots (paper_width_um layout) (paper_height_um layout) (slots layout).

Lemma slot_edges width height s :
  on_paper width height s -> width <= i64_max -> height <= i64_max ->
  slot_right s = Ok (x_um s + width_um s) /\ slot_bottom s = Ok (y_um s + height_um s).
Proof.
  unfold on_paper, slot_right, slot_bottom, i64_max. intros. split; apply ok_or_Ok, checked_i64_Some;
    unfold i64_min, i64_max; lia.
Qed.

Lemma check_slots_spec width height index l :
  width <= i64_max -> height <= i64_max ->
  check_slots width height index l = Ok tt <-> Forall (on_paper width height) l.
Proof.
  intros Hw Hh. revert index. induction l as [|s l IH]; intros index; [by split|].
  cbn [check_slots]. rewrite Forall_cons_iff. split.
  - intros H. unfold slot_right, slot_bottom in H. inv_ok H.
    apply checked_i64_Some in Hx as [_ ->], Hx0 as [_ ->]. apply IH in H. split; [|done].
    rewrite !orb_false_iff, !Z.ltb_ge, !Z.leb_gt in Hb. unfold on_paper. lia.
  - intros [Hs Hl]. destruct (slot_edges _ _ _ Hs Hw Hh) as [-> ->]. cbn [rbind].
    assert ((x_um s <? 0) || (y_um s <? 0) || (width_um s <=? 0) || (height_um s <=? 0)
      || (width <? x_um s + width_um s) || (height <? y_um s + height_um s) = false) as ->; [|by apply IH].
    rewrite !orb_false_iff, !Z.ltb_ge, !Z.leb_gt. unfold on_paper in Hs. lia.
Qed.

Lemma overlaps_spec width height s s' :
  on_paper width height s -> on_paper width height s' -> width <= i64_max -> height <= i64_max ->
  exists o, overlaps s s' = Ok o /\ (o = false <-> disjoint_slots s s').
Proof.
  intros Hs Hs' Hw Hh. unfold overlaps.
  destruct (slot_edges _ _ _ Hs Hw Hh) as [-> ->], (slot_edges _ _ _ Hs' Hw Hh) as [-> ->]. cbn [rbind].
  eexists. split; [done|]. rewrite !andb_false_iff, !Z.ltb_ge. unfold disjoint_slots, covers, on_paper in *.
  split; [intros; lia|]. intros Hd.
  pose proof (Hd (Z.max (x_um s) (x_um s')) (Z.max (y_um s) (y_um s'))). lia.
Qed.

Lemma check_right_spec width height left s right l :
  on_paper width height s -> Forall (on_paper width height) l -> width <= i64_max -> height <= i64_max ->
  check_right left s right l = Ok tt <-> Forall (disjoint_slots s) l.
Proof.
  intros Hs Hl Hw Hh. revert right. induction Hl as [|s' l Hs' Hl IH]; intros right; [by split|].
  cbn [check_right]. rewrite Forall_cons_iff. destruct (overlaps_spec _ _ _ _ Hs Hs' Hw Hh) as (o & -> & Ho).
  cbn [rbind]. rewrite <- Ho. destruct o; [naive_solver|]. rewrite IH. naive_solver.
Qed.

Lemma check_pairs_spec width height left l :
  Forall (on_paper width height) l -> width <= i64_max -> height <= i64_max ->
  check_pairs left l = Ok tt <-> ForallOrdPairs disjoint_slots l.
Proof.
  intros Hl Hw Hh. revert left. induction Hl as [|s l Hs Hl IH]; intros left.
  { split; [constructor|done]. }
  cbn [check_pairs]. split.
  - intros H. apply rbind_Ok in H as ([] & H1 & H2). apply (check_right_spec width height) in H1; [|done..].
    constructor; [done|]. by apply IH in H2.
  - intros Hp. inversion_clear Hp as [|? ? H1 H2]. apply rbind_Ok. exists tt.
    split; [by apply (check_right_spec width height)|by apply IH].
Qed.

Definition paper_typed (layout : SheetLayout) : Prop :=
  paper_width_um layout <= i64_max /\ paper_height_um layout <= i64_max.

Lemma validate_layout_spec layout limits :
  paper_typed layout ->
  validate_layout_with_limits layout limits = Ok tt <-> valid_layout layout limits.
Proof.
  intros [Hw Hh]. unfold validate_layout_with_limits, valid_layout, valid_slots.
  pose proof (zlen_nonneg (layout_id layout)). pose proof (zlen_nonneg (slots layout)).
  destruct (Z.eqb_spec (zlen (layout_id layout)) 0), (Z.ltb_spec MAX_LAYOUT_ID_BYTES (zlen (layout_id layout)));
    cbn [orb]; try (split; [done|lia]).
  destruct (Z.leb_spec (paper_width_um layout) 0), (Z.leb_spec (paper_height_um layout) 0);
    cbn [orb]; try (split; [done|lia]).
  destruct (Z.eqb_spec (zlen (slots layout)) 0); [split; [done|lia]|].
  destruct (Z.ltb_spec (max_sheet_slots limits) (zlen (slots layout))); [split; [done|lia]|].
  rewrite rbind_Ok. split.
  - intros ([] & Hs & Hp). apply check_slots_spec in Hs; [|done..].
    apply (check_pairs_spec (paper_width_um layout) (paper_height_um layout)) in Hp; [|done..].
    split_and!; (done || lia).
  - intros (_ & _ & _ & _ & Hs & Hp). exists tt. split; [by apply check_slots_spec|].
    by apply (check_pairs_spec (paper_width_um layout) (paper_height_um layout)).
Qed.

(** ** Grids *)

Definition grid_typed (g : SheetGrid) : Prop :=
  in_u u16_max (rows g) /\ in_u u16_max (columns g) /\
  grid_paper_width_um g <= i64_max /\ grid_paper_height_um g <= i64_max /\
  label_width_um g <= i64_max /\ label_height_um g <= i64_max /\
  margin_left_um g <= i64_max /\ margin_top_um g <= i64_max /\
  gap_x_um g <= i64_max /\ gap_y_um g <= i64_max.

Definition valid_grid (g : SheetGrid) : Prop :=
  0 < rows g /\ 0 < columns g /\ 0 < label_width_um g /\ 0 < label_height_um g /\
  0 <= margin_left_um g /\ 0 <= margin_top_um g /\ 0 <= gap_x_um g /\ 0 <= gap_y_um g.

(** Margins, labels and gaps within the paper. *)
Definition grid_fits (g : SheetGrid) : Prop :=
  margin_left_um g + columns g * label_width_um g + (columns g - 1) * gap_x_um g <= grid_paper_width_um g /\
  margin_top_um g + rows g * label_height_um g + (rows g - 1) * gap_y_um g <= grid_paper_height_um g.

Definition cell_slot (g : SheetGrid) (cell : Z * Z) : SheetSlot := {|
  x_um := margin_left_um g + snd cell * (label_width_um g + gap_x_um g);
  y_um := margin_top_um g + fst cell * (label_height_um g + gap_y_um g);
  width_um := label_width_um g;
  height_um := label_height_um g;
|}.

Definition grid_layout (g : SheetGrid) : SheetLayout := {|
  layout_id := grid_id g;
  paper_width_um := grid_paper_width_um g;
  paper_height_um := grid_paper_height_um g;
  slots := map (cell_slot g) (grid_cells g);
|}.

Lemma invalid_grid_spec g : grid_typed g -> invalid_grid g = false <-> valid_grid g.
Proof.
  unfold grid_typed, in_u, invalid_grid, valid_grid. intros H.
  rewrite !orb_false_iff, !Z.ltb_ge, !Z.leb_gt, !Z.eqb_neq. lia.
Qed.

Lemma elem_of_grid_cells g row column :
  (row, column) ∈ grid_cells g <-> 0 <= row < rows g /\ 0 <= column < columns g.
Proof.
  unfold grid_cells. rewrite list_elem_of_In. destruct (fill_order g); rewrite in_flat_map; split.
  - intros (r & Hr & Hc). apply in_map_iff in Hc as (c & [= <- <-] & Hc).
    by apply list_elem_of_In, elem_of_seqZ in Hr, Hc.
  - intros [Hr Hc]. exists row. rewrite in_map_iff. split; [|exists column; split; [done|]];
      apply list_elem_of_In, elem_of_seqZ; lia.
  - intros (c & Hc & Hr). apply in_map_iff in Hr as (r & [= <- <-] & Hr).
    by apply list_elem_of_In, elem_of_seqZ in Hr, Hc.
  - intros [Hr Hc]. exists column. rewrite in_map_iff. split; [|exists row; split; [done|]];
      apply list_elem_of_In, elem_of_seqZ; lia.
Qed.

(** Cells that are distinct have disjoint slots. *)
Lemma cells_disjoint g c c' : valid_grid g -> c <> c' -> disjoint_slots (cell_slot g c) (cell_slot g c').
Proof.
  intros Hg Hne X Y [Hx Hy] [Hx' Hy']. apply Hne. destruct c as [r c], c' as [r' c'], Hg as (_&_&?&?&_&_&?&?).
  cbn in *. f_equal; nia.
Qed.

Lemma NoDup_pairs_disjoint {A} (f : A -> SheetSlot) l :
  NoDup l -> (forall a b, a <> b -> disjoint_slots (f a) (f b)) -> ForallOrdPairs disjoint_slots (map f l).
Proof.
  intros Hnd Hf. induction Hnd as [|a l Ha Hl IH]; [constructor|]. cbn. constructor; [|done].
  apply Forall_map, list.Forall_forall. intros b Hb. apply Hf. by intros ->.
Qed.

Lemma NoDup_flat_map_pair {A B C} (f : A -> B -> C) (la : list A) (lb : list B) :
  NoDup la -> NoDup lb -> (forall a b a' b', f a b = f a' b' -> a = a' /\ b = b') ->
  NoDup (flat_map (fun a => map (f a) lb) la).
Proof.
  intros Ha Hb Hf. induction Ha as [|a la Hn Ha IH]; cbn; [constructor|]. apply list.NoDup_app. split_and!.
  - apply NoDup_fmap_2; [|done]. intros b b' E. by apply Hf in E as [_ ->].
  - intros c Hc Hin. apply list_elem_of_In, in_map_iff in Hc as (b & <- & _).
    apply list_elem_of_In, in_flat_map in Hin as (a' & Ha' & Hin).
    apply in_map_iff in Hin as (b' & E & _). apply Hf in E as [-> _]. by apply Hn, list_elem_of_In.
  - done.
Qed.

Lemma NoDup_grid_cells g : NoDup (grid_cells g).
Proof.
  unfold grid_cells. destruct (fill_order g).
  - apply (NoDup_flat_map_pair (fun row column => (row, column))); [apply NoDup_seqZ..|by intros * [= -> ->]].
  - apply (NoDup_flat_map_pair (fun column row => (row, column))); [apply NoDup_seqZ..|by intros * [= -> ->]].
Qed.

Lemma length_flat_map_pair {A B C} (f : A -> B -> C) (la : list A) (lb : list B) :
  zlen (flat_map (fun a => map (f a) lb) la) = zlen la * zlen lb.
Proof. induction la as [|a la IH]; [done|]. cbn [flat_map]. rewrite zlen_app, zlen_map, IH, zlen_cons. lia. Qed.

Lemma zlen_grid_cells g : grid_typed g -> zlen (grid_cells g) = rows g * columns g.
Proof.
  intros (Hr & Hc & _). unfold in_u in *. unfold grid_cells. destruct (fill_order g).
  - rewrite (length_flat_map_pair (fun row column => (row, column))). unfold zlen. rewrite !length_seqZ. lia.
  - rewrite (length_flat_map_pair (fun column row => (row, column))). unfold zlen. rewrite !length_seqZ. lia.
Qed.

Lemma grid_slot_run g row column :
  grid_typed g -> valid_grid g -> grid_fits g -> 0 <= row < rows g -> 0 <= column < columns g ->
  (label_width_um g + gap_x_um g <= i64_max) -> (label_height_um g + gap_y_um g <= i64_max) ->
  grid_slot g row column = Ok (cell_slot g (row, column)).
Proof.
  intros (Hr & Hc & Hpw & Hph & _) (_ & _ & Hw & Hh & Hl & Ht & Hgx & Hgy) [Hfx Hfy] Hrow Hcol Hx Hy.
  unfold grid_slot, cell_slot. cbn [fst snd].
  assert (forall v, 0 <= v <= i64_max -> checked_i64 v = Some v) as Hchk.
  { intros v Hv. apply checked_i64_Some. unfold i64_min, i64_max in *. lia. }
  assert (0 <= column * (label_width_um g + gap_x_um g) <= i64_max) by nia.
  assert (0 <= row * (label_height_um g + gap_y_um g) <= i64_max) by nia.
  repeat (rewrite Hchk by nia; cbn [ok_or rbind mbind option_bind]). done.
Qed.

(** A grid slot is computed only when nothing overflows. *)
Lemma grid_slot_inv g row column s :
  grid_slot g row column = Ok s ->
  s = cell_slot g (row, column) /\ label_width_um g + gap_x_um g <= i64_max /\
  label_height_um g + gap_y_um g <= i64_max.
Proof.
  unfold grid_slot. intros H. inv_ok H.
  apply checked_i64_Some in Hx as [? ->], Hx0 as [? ->].
  destruct (checked_i64 (column * _)) as [v|] eqn:E1; [|done]. destruct (checked_i64 (row * _)) as [v'|] eqn:E2; [|done].
  cbn [mbind option_bind] in *. apply checked_i64_Some in E1 as [? ->], E2 as [? ->], Hx1 as [? ->], Hx2 as [? ->].
  subst s. split_and!; (done || lia).
Qed.

Lemma push_all_inv g cells l : push_all g cells = Ok l -> l = map (cell_slot g) cells.
Proof.
  revert l. induction cells as [|[row column] cells IH]; intros l; cbn [push_all]; [by intros [= <-]|].
  intros H. inv_ok H. apply grid_slot_inv in Hx as [-> _]. apply IH in Hx0 as ->. by subst l.
Qed.

Lemma pitches_fit g l :
  valid_grid g -> push_all g (grid_cells g) = Ok l ->
  label_width_um g + gap_x_um g <= i64_max /\ label_height_um g + gap_y_um g <= i64_max.
Proof.
  intros (Hr & Hc & _) H. assert ((0, 0) ∈ grid_cells g) as Hin by (apply elem_of_grid_cells; lia).
  destruct (grid_cells g) as [|[row column] cells]; [by apply not_elem_of_nil in Hin|].
  cbn [push_all] in H. inv_ok H. by apply grid_slot_inv in Hx as [_ ?].
Qed.

Lemma push_all_run g cells :
  grid_typed g -> valid_grid g -> grid_fits g ->
  (label_width_um g + gap_x_um g <= i64_max) -> (label_height_um g + gap_y_um g <= i64_max) ->
  (forall row column, (row, column) ∈ cells -> 0 <= row < rows g /\ 0 <= column < columns g) ->
  push_all g cells = Ok (map (cell_slot g) cells).
Proof.
  intros Ht Hv Hf Hx Hy. induction cells as [|[row column] cells IH]; intros Hc; [done|].
  destruct (Hc row column) as [Hr Hcol]; [left|]. cbn [push_all map]. rewrite grid_slot_run by done.
  cbn [rbind]. rewrite IH; [done|]. intros r c Hin. apply Hc. by right.
Qed.

Lemma grid_fits_valid g :
  grid_typed g -> valid_grid g ->
  Forall (on_paper (grid_paper_width_um g) (grid_paper_height_um g)) (slots (grid_layout g)) <-> grid_fits g.
Proof.
  intros Ht Hv. pose proof Hv as (Hr & Hc & Hw & Hh & Hl & Htop & Hgx & Hgy). unfold grid_layout. cbn [slots].
  rewrite Forall_map, list.Forall_forall. unfold on_paper, cell_slot, grid_fits. cbn [x_um y_um width_um height_um]. split.
  - intros H. assert ((rows g - 1, columns g - 1) ∈ grid_cells g) as Hin by (apply elem_of_grid_cells; lia).
    apply H in Hin. cbn [fst snd] in Hin. lia.
  - intros [Hfx Hfy] [row column] Hin%elem_of_grid_cells. cbn [fst snd]. nia.
Qed.

(** grids. A grid is accepted exactly when its counts and sizes are
    positive, its margins and gaps are not negative, its rows and columns with
    margins and gaps fit the paper, its name and number of slots are within
    bounds and its pitches fit 64 bits. Its slots are then the cells in fill
    order: no two can overlap. *)
Theorem grid_layout_spec g limits layout :
  grid_typed g ->
  normalize_layout_with_limits (Grid g) limits = Ok layout <->
  valid_grid g /\ grid_fits g /\ 0 < zlen (grid_id g) <= MAX_LAYOUT_ID_BYTES /\
  rows g * columns g <= max_sheet_slots limits /\
  label_width_um g + gap_x_um g <= i64_max /\ label_height_um g + gap_y_um g <= i64_max /\
  layout = grid_layout g.
Proof.
  intros Ht. pose proof Ht as (Hr & Hc & Hpw & Hph & _). cbn [normalize_layout_with_limits].
  assert (zlen (slots (grid_layout g)) = rows g * columns g) as Hlen
    by (cbn [slots grid_layout]; rewrite zlen_map; by apply zlen_grid_cells).
  assert (checked usize_max (rows g * columns g) = Some (rows g * columns g)) as ->
    by (apply checked_id; unfold in_u, u16_max, usize_max, u64_max in *; nia).
  assert (paper_typed (grid_layout g)) as Hp by done.
  cbn [ok_or rbind]. split.
  - intros H. destruct (invalid_grid g) eqn:Hi; [done|]. apply invalid_grid_spec in Hi; [|done].
    destruct (Z.ltb_spec (max_sheet_slots limits) (rows g * columns g)); [done|]. inv_ok H. subst layout.
    pose proof (pitches_fit _ _ Hi Hx) as [? ?]. apply push_all_inv in Hx as ->. destruct x0. apply (validate_layout_spec (grid_layout g)) in Hx0 as Hval; [|done].
    destruct Hval as (Hid & _ & _ & _ & Hs & _). apply grid_fits_valid in Hs; [|done..].
    split_and!; (done || apply Hid || lia).
  - intros (Hv & Hf & Hid & Hn & Hx & Hy & ->). rewrite (proj2 (invalid_grid_spec g Ht) Hv).
    destruct (Z.ltb_spec (max_sheet_slots limits) (rows g * columns g)); [lia|].
    rewrite push_all_run; [|done..|intros; by apply elem_of_grid_cells]. cbn [rbind].
    fold (grid_layout g). rewrite (proj2 (validate_layout_spec (grid_layout g) limits Hp)); [done|].
    apply grid_fits_valid in Hf as Hs; [|done..]. destruct Hv as (?&?&?&?&?&?&?&?).
    destruct Hf. split_and!; try (done || lia || (cbn; nia)). 
    split; [done|]. apply NoDup_pairs_disjoint; [apply NoDup_grid_cells|]. intros c c'. by apply cells_disjoint.
Qed.

(** ** Plans *)

Lemma validate_nonempty layout limits : validate_layout_with_limits layout limits = Ok tt -> 0 < zlen (slots layout).
Proof.
  unfold validate_layout_with_limits. intros H. pose proof (zlen_nonneg (slots layout)).
  destruct (_ || _) in H; [done|]. destruct (_ || _) in H; [done|].
  destruct (Z.eqb_spec (zlen (slots layout)) 0); [done|lia].
Qed.

Lemma normalize_valid definition limits layout :
  normalize_layout_with_limits definition limits = Ok layout ->
  validate_layout_with_limits layout limits = Ok tt.
Proof.
  destruct definition as [g|l]; cbn [normalize_layout_with_limits]; intros H.
  - destruct (invalid_grid g); [done|]. inv_ok H. subst layout. by destruct x1.
  - inv_ok H. subst layout. by destruct x.
Qed.

(** Slots are filled in order from the first one on, page after page. *)
Definition planned_placement (n first item : Z) : SheetPlacement :=
  {| item := item; page := (first + item) / n; slot := (first + item) mod n |}.

Definition planned (layout : SheetLayout) (first count : Z) : SheetPlan :=
  let n := zlen (slots layout) in
  {| page_count := (first + count + n - 1) / n;
     layout := layout;
     placements := map (planned_placement n first) (seqZ 0 count) |}.

Lemma item_position_spec n first item :
  0 <= first < n -> 0 <= item ->
  item_position n first (n - first) item = ((first + item) / n, (first + item) mod n).
Proof.
  intros Hf Hi. unfold item_position. destruct (Z.ltb_spec item (n - first)).
  - by rewrite Z.div_small, Z.mod_small by lia.
  - replace (first + item) with (item - (n - first) + 1 * n) by lia.
    rewrite Z.div_add, Z.mod_add by lia. f_equal. lia.
Qed.

Lemma page_count_spec n first count :
  0 <= first < n -> 1 <= count <= u32_max -> 
  let remaining := saturate usize_max (count - (n - first)) in
  1 + (if remaining =? 0 then 0 else (remaining + n - 1) / n) = (first + count + n - 1) / n.
Proof.
  intros Hf Hc remaining. subst remaining. unfold saturate, usize_max, u64_max, u32_max in *.
  destruct (Z.eqb_spec (Z.max 0 (Z.min 18446744073709551615 (count - (n - first)))) 0).
  - apply (Z.div_unique _ _ _ (first + count - 1)); lia.
  - replace (Z.max 0 (Z.min 18446744073709551615 (count - (n - first)))) with (count - (n - first)) by lia.
    replace (first + count + n - 1) with (count - (n - first) + n - 1 + 1 * n) by lia.
    rewrite Z.div_add by lia. lia.
Qed.

Definition has_size (width height : Z) (s : SheetSlot) : Prop := width_um s = width /\ height_um s = height.

Lemma ensure_size_spec item width height s : ensure_size item width height s = Ok tt <-> has_size width height s.
Proof.
  unfold ensure_size, has_size. destruct (Z.eqb_spec width (width_um s)), (Z.eqb_spec height (height_um s));
    cbn; split; try done; intros [? ?]; congruence.
Qed.

Lemma place_items_spec input options layout items l :
  let n := zlen (slots layout) in
  0 <= first_slot options < n -> Forall (fun i => 0 <= i) items ->
  place_items input options layout (n - first_slot options) items = Ok l <->
  Forall (fun i => has_size (input_width_um input) (input_height_um input)
                     (slot_at layout ((first_slot options + i) mod n))) items /\
  l = map (planned_placement n (first_slot options)) items.
Proof.
  intros n Hf Hi. revert l. induction Hi as [|i items Hi Hr IH]; intros l.
  { cbn. split; [intros [= <-]; by split|by intros [_ ->]]. }
  cbn [place_items map]. fold n. rewrite item_position_spec by done. rewrite Forall_cons_iff. split.
  - intros H. inv_ok H. destruct x. apply ensure_size_spec in Hx. apply IH in Hx0 as [? ->]. by subst l.
  - intros [[Hs Hl] ->]. rewrite (proj2 (ensure_size_spec i _ _ _) Hs). cbn [rbind].
    rewrite (proj2 (IH _) (conj Hl eq_refl)). done.
Qed.

Definition sheet_limits_typed (limits : ProcessingLimits) : Prop := max_total_pixels limits <= u64_max.

Definition plan_input_typed (input : SheetPlanInput) (options : SheetOptions) : Prop :=
  in_u u32_max (item_count input) /\ in_u usize_max (first_slot options).

(** What a job must meet once its layout is known: some items, within the
    limits, a first slot of the layout, pages and pixels within the limits, and
    every slot that is used of the label's size. *)
Definition job_fits (input : SheetPlanInput) (options : SheetOptions) (limits : ProcessingLimits)
    (layout : SheetLayout) : Prop :=
  let n := zlen (slots layout) in
  let pages := (first_slot options + item_count input + n - 1) / n in
  1 <= item_count input <= max_sheet_items limits /\ first_slot options < n /\
  pages <= max_pages limits /\
  (exists width height, paper_dots layout (dpi options) limits = Ok (width, height) /\
     width * height * pages <= max_total_pixels limits) /\
  forall i, 0 <= i < item_count input ->
    has_size (input_width_um input) (input_height_um input) (slot_at layout ((first_slot options + i) mod n)).

Lemma paper_dots_inv layout dpi limits width height :
  paper_dots layout dpi limits = Ok (width, height) ->
  in_u u32_max width /\ in_u u32_max height /\ checked u64_max (width * height) = Some (width * height).
Proof.
  unfold paper_dots, dots_u32. intros H. inv_ok H. injection H as <- <-.
  apply checked_Some in Hx as [? ->], Hx0 as [? ->], Hx1 as [? ->]. split_and!; [done..|].
  by apply checked_id.
Qed.

Lemma pages_bound n first count :
  0 <= first < n -> 1 <= count <= u32_max -> 1 <= (first + count + n - 1) / n <= usize_max.
Proof.
  intros Hf Hc. unfold u32_max, usize_max, u64_max in *. split.
  - apply Z.div_le_lower_bound; lia.
  - apply Z.div_le_upper_bound; nia.
Qed.

Lemma sheet_plan_inv input definition options limits p :
  plan_input_typed input options -> plan input definition options limits = Ok p ->
  exists layout, normalize_layout_with_limits definition limits = Ok layout /\
    job_fits input options limits layout /\ p = planned layout (first_slot options) (item_count input).
Proof.
  intros [[Hc0 Hc] [Hf0 Hf]] H. unfold plan in H. inv_ok H. destruct x0 as [w h].
  pose proof (paper_dots_inv _ _ _ _ _ Hx0) as (Hw & Hh & Hwh). inv_ok H. rewrite Hwh in Hx1.
  injection Hx1 as <-. apply normalize_valid in Hx as Hv. apply validate_nonempty in Hv as Hpos.
  rename x into l. apply Z.eqb_neq in Hb. apply Z.ltb_ge in Hb0. apply Z.leb_gt in Hb1.
  rewrite page_count_spec in Hx2 by lia. apply checked_Some in Hx2 as [_ ->].
  apply checked_Some in Hx3 as [_ ->]. apply Z.ltb_ge in Hb2, Hb3.
  apply place_items_spec in Hx4 as [Hs ->]; [|lia|apply list.Forall_forall; intros i Hi%elem_of_seqZ; lia].
  exists l. split; [done|]. split; [|by subst p]. unfold job_fits. split_and!; try lia.
  - exists w, h. split; [done|lia].
  - intros i Hi. apply (proj1 (list.Forall_forall _ _) Hs), elem_of_seqZ. lia.
Qed.

Lemma sheet_plan_run input definition options limits layout :
  sheet_limits_typed limits -> plan_input_typed input options ->
  normalize_layout_with_limits definition limits = Ok layout -> job_fits input options limits layout ->
  plan input definition options limits = Ok (planned layout (first_slot options) (item_count input)).
Proof.
  intros Hpx [[Hc0 Hc] [Hf0 Hf]] El (Hcount & Hfirst & Hpages & (w & h & Ed & Htotal) & Hs).
  destruct (paper_dots_inv _ _ _ _ _ Ed) as (Hw & Hh & Hwh). unfold in_u in *.
  assert (Forall (fun i => 0 <= i) (seqZ 0 (item_count input))) as Hitems
    by (apply list.Forall_forall; intros i Hi%elem_of_seqZ; lia).
  assert (Forall (fun i => has_size (input_width_um input) (input_height_um input)
    (slot_at layout ((first_slot options + i) mod zlen (slots layout)))) (seqZ 0 (item_count input))) as Hsizes
    by (apply list.Forall_forall; intros i Hi%elem_of_seqZ; apply Hs; lia).
  pose proof (pages_bound (zlen (slots layout)) (first_slot options) (item_count input)) as Hpb. unfold plan.
  destruct (Z.eqb_spec (item_count input) 0); [lia|].
  destruct (Z.ltb_spec (max_sheet_items limits) (item_count input)); [lia|]. rewrite El. cbn [rbind].
  destruct (Z.leb_spec (zlen (slots layout)) (first_slot options)); [lia|]. rewrite Ed. cbn [rbind].
  rewrite Hwh. cbn [ok_or rbind]. rewrite page_count_spec by lia.
  rewrite checked_id by (unfold in_u; lia). cbn [ok_or rbind].
  destruct (Z.ltb_spec (max_pages limits) ((first_slot options + item_count input + zlen (slots layout) - 1) / zlen (slots layout))); [lia|].
  rewrite checked_id by (unfold in_u, sheet_limits_typed in *; nia). cbn [ok_or rbind].
  destruct (Z.ltb_spec (max_total_pixels limits) (w * h * ((first_slot options + item_count input + zlen (slots layout) - 1) / zlen (slots layout)))); [lia|].
  rewrite (proj2 (place_items_spec input options layout (seqZ 0 (item_count input)) _ ltac:(lia) Hitems)
    (conj Hsizes eq_refl)). done.
Qed.

(** C11: sheet plans. Planning succeeds exactly when the definition is a valid
    layout and the job fits it, and the plan is then the items in order, one
    per slot from the first slot on, on as few pages as hold them: item [i] is
    in slot [(first + i) mod n] of page [(first + i) / n]. *)
Theorem sheet_plan_spec input definition options limits p :
  sheet_limits_typed limits -> plan_input_typed input options ->
  plan input definition options limits = Ok p <->
  exists layout, normalize_layout_with_limits definition limits = Ok layout /\
    job_fits input options limits layout /\ p = planned layout (first_slot options) (item_count input).
Proof.
  intros Hl Hi. split; [by apply sheet_plan_inv|].
  intros (layout & Hn & Hj & ->). by apply sheet_plan_run.
Qed.

Lemma disjoint_slots_sym s s' : disjoint_slots s s' -> disjoint_slots s' s.
Proof. intros H X Y H1 H2. by eapply H. Qed.

Lemma pairs_disjoint_at l i j :
  ForallOrdPairs disjoint_slots l -> (i < length l)%nat -> (j < length l)%nat -> i <> j ->
  disjoint_slots (nth i l no_slot) (nth j l no_slot).
Proof.
  intros Hl. revert i j. induction Hl as [|s l Hs Hl IH]; intros i j Hi Hj Hne; [cbn in Hi; lia|].
  cbn [length] in *. destruct i as [|i], j as [|j]; [done| | |]; cbn [nth].
  - apply (proj1 (List.Forall_forall _ _) Hs), nth_In. lia.
  - apply disjoint_slots_sym, (proj1 (List.Forall_forall _ _) Hs), nth_In. lia.
  - apply IH; lia.
Qed.

(** labels never overlap. In an accepted plan every item has a slot of the
    label's size that lies on the paper, and the slots of two items on the
    same page have no point in common. *)
Theorem labels_never_overlap input definition options limits p a b :
  plan_input_typed input options -> plan input definition options limits = Ok p -> paper_typed (layout p) ->
  a ∈ placements p -> b ∈ placements p -> item a <> item b -> page a = page b ->
  let slot_of c := slot_at (layout p) (slot c) in
  disjoint_slots (slot_of a) (slot_of b) /\
  on_paper (paper_width_um (layout p)) (paper_height_um (layout p)) (slot_of a) /\
  has_size (input_width_um input) (input_height_um input) (slot_of a).
Proof.
  intros Hi H Hp Ha Hb Hne Hpage slot_of. pose proof Hi as [[Hc0 Hc] [Hf0 Hf]].
  apply sheet_plan_inv in H as (l & El & (Hcount & Hfirst & _ & _ & Hs) & ->); [|done]. cbn [planned layout placements] in *.
  apply normalize_valid, validate_layout_spec in El as (_ & _ & _ & _ & Hon & Hd); [|done].
  set (n := zlen (slots l)) in *.
  apply list_elem_of_fmap in Ha as (i & -> & Hi1%elem_of_seqZ), Hb as (j & -> & Hj1%elem_of_seqZ).
  cbn [planned_placement item page slot] in *. subst slot_of. cbn [slot planned_placement].
  pose proof (Z.mod_pos_bound (first_slot options + i) n). pose proof (Z.mod_pos_bound (first_slot options + j) n).
  pose proof (Z.div_mod (first_slot options + i) n). pose proof (Z.div_mod (first_slot options + j) n).
  assert (n = Z.of_nat (length (slots l))) as En by done. split_and!.
  - unfold slot_at. apply pairs_disjoint_at; [done|lia|lia|].
    intros E. apply Hne. rewrite Hpage in *. assert ((first_slot options + i) mod n = (first_slot options + j) mod n) by lia. lia.
  - apply (proj1 (List.Forall_forall _ _) Hon). unfold slot_at. apply nth_In. lia.
  - apply Hs. lia.
Qed.

(** ** Examples *)

Definition sample_grid : SheetGrid := {|
  grid_id := str "test"; grid_paper_width_um := 100000; grid_paper_height_um := 100000;
  rows := 2; columns := 2; label_width_um := 20000; label_height_um := 10000;
  margin_left_um := 5000; margin_top_um := 7000; gap_x_um := 2000; gap_y_um := 3000;
  fill_order := ColumnMajor;
|}.

Definition sample_input : SheetPlanInput :=
  {| item_count := 5; input_width_um := 20000; input_height_um := 10000 |}.

Definition sample_sheet_options : SheetOptions := {| first_slot := 3; dpi := 100 |}.

Definition sample_sheet_plan : SheetPlan := planned (grid_layout sample_grid) 3 5.

Lemma sample_plan_run :
  plan sample_input (Grid sample_grid) sample_sheet_options ProcessingLimits_default = Ok sample_sheet_plan.
Proof. by vm_compute. Qed.

Lemma grid_layout_spec_witness :
  grid_typed sample_grid /\
  normalize_layout_with_limits (Grid sample_grid) ProcessingLimits_default = Ok (grid_layout sample_grid).
Proof.
  assert (grid_typed sample_grid) as Ht by (unfold grid_typed, in_u; vm_compute; intuition congruence).
  split; [exact Ht|]. apply (grid_layout_spec sample_grid ProcessingLimits_default (grid_layout sample_grid) Ht).
  unfold valid_grid, grid_fits. vm_compute. intuition congruence.
Defined.

Lemma sheet_plan_spec_witness :
  exists layout, job_fits sample_input sample_sheet_options ProcessingLimits_default layout /\
    sample_sheet_plan = planned layout 3 5.
Proof.
  destruct (proj1 (sheet_plan_spec sample_input (Grid sample_grid) sample_sheet_options
    ProcessingLimits_default sample_sheet_plan ltac:(by vm_compute)
    ltac:(unfold plan_input_typed, in_u; vm_compute; intuition congruence)) sample_plan_run) as (l & _ & Hj & E).
  exists l. split; [exact Hj|exact E].
Defined.

Lemma labels_never_overlap_witness :
  disjoint_slots (slot_at (grid_layout sample_grid) 0) (slot_at (grid_layout sample_grid) 3).
Proof.
  apply (labels_never_overlap sample_input (Grid sample_grid) sample_sheet_options ProcessingLimits_default
    sample_sheet_plan (planned_placement 4 3 1) (planned_placement 4 3 4)).
  - unfold plan_input_typed, in_u; vm_compute; intuition congruence.
  - exact sample_plan_run.
  - unfold paper_typed; vm_compute; intuition congruence.
  - apply list_elem_of_In. vm_compute. tauto.
  - apply list_elem_of_In. vm_compute. tauto.
  - by vm_compute.
  - by vm_compute.
Defined.

(** Two labels that together are exactly as wide as the paper: the plan is
    accepted, but the dots of each round up and the second does not fit the
    page raster. *)
Definition half_slot (x : Z) : SheetSlot := {| x_um := x; y_um := 0; width_um := 50000; height_um := 125 |}.

Definition two_halves : SheetDefinition := Explicit {|
  layout_id := str "halves"; paper_width_um := 100000; paper_height_um := 125;
  slots := [half_slot 0; half_slot 50000] |}.

Definition half_label : SheetRasterItem := {|
  item_raster := {| m_width := 400; m_height := 1; m_pixels := replicate 400 1 |};
  item_width_um := 50000; item_height_um := 125;
|}.

Lemma rounding_refuses_full_width :
  is_ok (plan {| item_count := 2; input_width_um := 50000; input_height_um := 125 |} two_halves
           {| first_slot := 0; dpi := 203 |} ProcessingLimits_default) = true /\
  pdf_rasters [half_label; half_label] two_halves {| first_slot := 0; dpi := 203 |}
    {| cut_marks := false |} ProcessingLimits_default = fail (SheetError.Raster Placement).
Proof. by vm_compute. Qed.
