(* ===== verification/ExportFacts.v ===== *)
(** What the PDF writer promises (crates/mb-printer-core/src/export.rs): the
    output stays within its limit and is refused only by the estimate, and
    every object is where the cross-reference table says. *)

From stdpp Require Import base list list_numbers strings numbers option.
From S2P Require Import Prelude Bits Text Capabilities MonoRaster MonoRasterFacts RenderTypes Float Export.

#[local] Open Scope Z_scope.

(** ** Output within a limit *)

(** The output, if it is within the limit. *)
Definition bounded (out : list Z) (limit : Z) : Result ExportError.t (list Z) :=
  if zlen out <=? limit then Ok out else Err (ExportError.OutputTooLarge limit).

Section Limit.
Context (limit : Z) (Hlimit : limit <= usize_max).

Lemma bounded_extend_spec out bytes : bounded_extend out bytes limit = bounded (out ++ bytes) limit.
Proof using Hlimit.
  unfold bounded_extend, bounded. rewrite zlen_app. pose proof (zlen_nonneg out). pose proof (zlen_nonneg bytes).
  destruct (checked usize_max (zlen out + zlen bytes)) as [v|] eqn:Ev; cbn [ok_or rbind].
  - apply checked_Some in Ev as [_ ->]. destruct (Z.ltb_spec limit (zlen out + zlen bytes)), (Z.leb_spec (zlen out + zlen bytes) limit); done || lia.
  - destruct (Z.leb_spec (zlen out + zlen bytes) limit); [|done]. rewrite checked_id in Ev by (unfold in_u; lia). done.
Qed.

(** Extending a bounded output: only the last bound counts. *)
Lemma extend_bounded {B} out bytes (k : list Z -> Result ExportError.t B) :
  (let? out := bounded out limit in let? out := bounded_extend out bytes limit in k out) =
  let? out := bounded (out ++ bytes) limit in k out.
Proof using Hlimit.
  destruct (bounded out limit) as [o|e] eqn:E; unfold bounded in E; destruct (Z.leb_spec (zlen out) limit); [|done|done|].
  - injection E as <-. cbn [rbind]. by rewrite bounded_extend_spec.
  - injection E as <-. unfold bounded. rewrite zlen_app. pose proof (zlen_nonneg bytes).
    by destruct (Z.leb_spec (zlen out + zlen bytes) limit); [lia|].
Qed.

(** A continuation of a bounded output sees that output. *)
Lemma rbind_ext_bounded {B} out (k k' : list Z -> Result ExportError.t B) :
  k out = k' out -> (let? o := bounded out limit in k o) = let? o := bounded out limit in k' o.
Proof. intros E. unfold bounded. by destruct (zlen out <=? limit). Qed.

(** ** The file *)

Definition pdf_object (object : Z * list Z) : list Z := object_start (fst object + 1) ++ snd object ++ object_end.

(** Where the objects start that are written from [offset] on. *)
Fixpoint offsets_from (offset : Z) (objects : list (Z * list Z)) : list Z :=
  match objects with
  | [] => []
  | object :: objects => offset :: offsets_from (offset + zlen (pdf_object object)) objects
  end.

Lemma write_objects l out offsets {B} (k : list Z * list Z -> Result ExportError.t B) :
  (let? o := bounded out limit in let? s := for_each (write_object limit) l (o, offsets) in k s) =
  let? o := bounded (out ++ flat_map pdf_object l) limit in k (o, offsets ++ offsets_from (zlen out) l).
Proof using Hlimit.
  revert out offsets. induction l as [|[i object] l IH]; intros out offsets.
  { cbn [flat_map for_each offsets_from rbind]. by rewrite !app_nil_r. }
  cbn [flat_map for_each offsets_from write_object pdf_object fst snd].
  transitivity (let? o := bounded (out ++ pdf_object (i, object)) limit in
                let? s := for_each (write_object limit) l (o, offsets ++ [zlen out]) in k s).
  - unfold pdf_object. cbn [fst snd]. rewrite !app_assoc, <- !extend_bounded.
    destruct (bounded out limit) as [o|e] eqn:Eo; [|done]. cbn [rbind].
    assert (o = out) as -> by (unfold bounded in Eo; destruct (zlen out <=? limit); congruence).
    repeat (destruct (bounded_extend _ _ limit); [|done]; cbn [rbind]). done.
  - rewrite IH, zlen_app. by rewrite <- !app_assoc.
Qed.

Lemma write_entries l out {B} (k : list Z -> Result ExportError.t B) :
  (let? o := bounded out limit in let? o := for_each (fun offset out => bounded_extend out (xref_entry offset) limit) l o in k o) =
  let? o := bounded (out ++ flat_map xref_entry l) limit in k o.
Proof using Hlimit.
  revert out. induction l as [|offset l IH]; intros out; [cbn [flat_map]; by rewrite app_nil_r|].
  cbn [flat_map for_each]. rewrite app_assoc, <- IH, <- extend_bounded.
  destruct (bounded out limit); [|done]. cbn [rbind]. by destruct (bounded_extend _ _ limit).
Qed.

Definition body_of (objects : list (list Z)) : list Z := pdf_header ++ flat_map pdf_object (enumerate objects).
Definition offsets_of (objects : list (list Z)) : list Z := offsets_from (zlen pdf_header) (enumerate objects).

(** The file of the objects. *)
Definition pdf_text (objects : list (list Z)) : list Z :=
  let count := zlen objects + 1 in
  body_of objects ++ xref_start count ++ flat_map xref_entry (offsets_of objects) ++ trailer count (zlen (body_of objects)).

Lemma extend_over out bytes : limit < zlen out -> bounded_extend out bytes limit = Err (ExportError.OutputTooLarge limit).
Proof using Hlimit.
  intros H. rewrite bounded_extend_spec. unfold bounded. rewrite zlen_app. pose proof (zlen_nonneg bytes).
  by destruct (Z.leb_spec (zlen out + zlen bytes) limit); [lia|].
Qed.

(** The header is written without a bound, but whatever follows it is bounded. *)
Lemma finish_pdf_bounded objects :
  finish_pdf objects limit =
  let? o := bounded pdf_header limit in
  let? s := for_each (write_object limit) (enumerate objects) (o, [0]) in
  let? o := bounded_extend (fst s) (xref_start (zlen objects + 1)) limit in
  let? o := for_each (fun offset out => bounded_extend out (xref_entry offset) limit) (drop 1 (snd s)) o in
  bounded_extend o (trailer (zlen objects + 1) (zlen (fst s))) limit.
Proof using Hlimit.
  unfold finish_pdf, bounded. destruct (Z.leb_spec (zlen pdf_header) limit) as [|Hl]; cbn [rbind].
  - by destruct (for_each _ _ _) as [[out offsets]|].
  - destruct (enumerate objects) as [|[i object] l]; cbn [for_each rbind write_object].
    + by rewrite extend_over.
    + by rewrite extend_over.
Qed.

Lemma finish_pdf_spec objects : finish_pdf objects limit = bounded (pdf_text objects) limit.
Proof using Hlimit.
  rewrite finish_pdf_bounded, (write_objects _ _ [0]). cbn [fst snd app drop].
  set (body := pdf_header ++ flat_map pdf_object (enumerate objects)).
  rewrite (rbind_ext_bounded body _ (fun o => let? o := bounded_extend o (xref_start (zlen objects + 1)) limit in
    let? o := for_each (fun offset out => bounded_extend out (xref_entry offset) limit) (offsets_of objects) o in
    bounded_extend o (trailer (zlen objects + 1) (zlen body)) limit)).
  - rewrite extend_bounded, write_entries. 
    transitivity (let? o := bounded ((body ++ xref_start (zlen objects + 1)) ++ flat_map xref_entry (offsets_of objects)) limit in
      let? o := bounded_extend o (trailer (zlen objects + 1) (zlen body)) limit in Ok o).
    { destruct (bounded _ limit); [|done]. cbn [rbind]. by destruct (bounded_extend _ _ limit). }
    rewrite extend_bounded. unfold pdf_text, body_of. fold body. rewrite <- !app_assoc. by destruct (bounded _ limit).
  - done.
Qed.
End Limit.

(** ** The cross-reference table *)

Lemma zlen_dec_digits_pow k fuel n acc : 0 <= n < 10 ^ Z.of_nat k -> (0 < k)%nat -> zlen (dec_digits fuel n acc) <= Z.of_nat k + zlen acc.
Proof.
  revert k n acc. induction fuel as [|fuel IH]; intros k n acc Hn Hk; [cbn [dec_digits]; lia|].
  cbn [dec_digits]. destruct (Z.ltb_spec n 10); [rewrite zlen_cons; lia|].
  destruct k as [|k]; [lia|]. rewrite Nat2Z.inj_succ, Z.pow_succ_r in Hn by lia.
  destruct k as [|k]; [cbn in Hn; lia|]. specialize (IH (S k) (n / 10) (48 + n mod 10 :: acc)).
  rewrite zlen_cons in IH. assert (0 <= n / 10 < 10 ^ Z.of_nat (S k)) as Hd; [|specialize (IH Hd); lia].
  split; [apply Z.div_pos; lia|apply Z.div_lt_upper_bound; lia].
Qed.

Lemma zlen_show_padded k n : 0 <= n < 10 ^ Z.of_nat k -> (0 < k)%nat -> zlen (show_padded k n) = Z.of_nat k.
Proof.
  intros Hn Hk. pose proof (zlen_dec_digits_pow k 20 n [] Hn Hk) as H. unfold show_padded, show_dec. rewrite zlen_app.
  unfold zlen in *. rewrite repeat_length. cbn [length] in H. lia.
Qed.

Lemma zlen_show_padded_le k n : (k <= 20)%nat -> zlen (show_padded k n) <= 20.
Proof.
  intros Hk. pose proof (zlen_show_dec n) as H. unfold show_padded. rewrite zlen_app. unfold zlen in *.
  rewrite repeat_length. lia.
Qed.

Lemma parse_zeros max k s : 0 <= max -> parse_digits max 0 (repeat 48 k ++ s) = parse_digits max 0 s.
Proof.
  intros Hm. induction k as [|k IH]; [done|]. cbn [repeat app parse_digits is_ascii_digit].
  change (is_ascii_digit 48) with true. cbn iota. change (0 * 10 + (48 - 48)) with 0.
  rewrite checked_id by (unfold in_u; lia). exact IH.
Qed.

(** The reader of a number reads what is written. *)
Lemma parse_show_padded k n : 0 <= n <= u64_max -> parse_digits u64_max 0 (show_padded k n) = Some n.
Proof.
  intros Hn. unfold show_padded. rewrite parse_zeros by done. unfold show_dec.
  rewrite parse_dec_digits by (unfold u64_max in *; cbn; lia). done.
Qed.

(** A reader of the file, which knows where the table starts: entry [i] has ten
    digits, the offset of object [i + 1]. *)
Definition read_object (out : list Z) (xref count i : Z) : option (list Z) :=
  let start := xref + zlen (xref_start count) + 20 * i in
  digits ← get_range out start (start + 10);
  offset ← parse_digits u64_max 0 digits;
  Some (drop (Z.to_nat offset) out).

Lemma length_offsets_from o l : length (offsets_from o l) = length l.
Proof. revert o. induction l as [|a l IH]; intros o; cbn [offsets_from length]; [done|]. by rewrite IH. Qed.

Lemma offsets_from_lookup o l i :
  (i < length l)%nat -> offsets_from o l !! i = Some (o + zlen (flat_map pdf_object (take i l))).
Proof.
  revert o i. induction l as [|a l IH]; intros o i Hi; [cbn in Hi; lia|].
  destruct i as [|i]; cbn [offsets_from lookup list_lookup take flat_map length] in *; [f_equal; rewrite zlen_nil; lia|].
  change (offsets_from (o + zlen (pdf_object a)) l !! i = Some (o + zlen (pdf_object a ++ flat_map pdf_object (take i l)))).
  rewrite IH by lia. f_equal. rewrite zlen_app. lia.
Qed.

Lemma enumerate_lookup {A} (l : list A) i a : l !! i = Some a -> enumerate l !! i = Some (Z.of_nat i, a).
Proof.
  intros H. unfold enumerate. pose proof (lookup_lt_Some _ _ _ H) as Hi.
  apply lookup_zip_with_Some. exists (Z.of_nat i), a. split; [done|]. split; [|done].
  rewrite lookup_seqZ. unfold zlen. lia.
Qed.

Lemma length_enumerate {A} (l : list A) : length (enumerate l) = length l.
Proof. unfold enumerate. rewrite length_zip_with, length_seqZ. unfold zlen. lia. Qed.

(** Entries of twenty bytes. *)
Lemma flat_map_entries l :
  Forall (fun o => 0 <= o < 10 ^ 10) l -> zlen (flat_map xref_entry l) = 20 * zlen l.
Proof.
  induction 1 as [|o l Ho Hl IH]; [done|]. cbn [flat_map]. rewrite zlen_app, IH, zlen_cons.
  unfold xref_entry. rewrite !zlen_app, (zlen_show_padded 10) by (cbn; lia). 
  change (zlen (str " 00000 n ")) with 9. change (zlen newline) with 1. lia.
Qed.

Lemma flat_map_take_drop {A B} (f : A -> list B) l i a :
  l !! i = Some a -> flat_map f l = flat_map f (take i l) ++ f a ++ flat_map f (drop (S i) l).
Proof.
  intros H. rewrite <- (take_drop_middle l i a H) at 1. rewrite flat_map_app. done.
Qed.

(** What comes before object [i]. *)
Definition before (objects : list (list Z)) (i : nat) : list Z :=
  pdf_header ++ flat_map pdf_object (take i (enumerate objects)).

Lemma offsets_of_lookup objects i : (i < length objects)%nat -> offsets_of objects !! i = Some (zlen (before objects i)).
Proof.
  intros Hi. unfold offsets_of, before. rewrite offsets_from_lookup by (by rewrite length_enumerate). by rewrite zlen_app.
Qed.

Lemma body_of_split objects i object :
  objects !! i = Some object ->
  body_of objects = before objects i ++ pdf_object (Z.of_nat i, object) ++ flat_map pdf_object (drop (S i) (enumerate objects)).
Proof.
  intros H. unfold body_of, before. rewrite (flat_map_take_drop _ _ i (Z.of_nat i, object)) by (by apply enumerate_lookup).
  by rewrite <- app_assoc.
Qed.

Lemma offsets_of_bound objects : Forall (fun o => 0 <= o <= zlen (body_of objects)) (offsets_of objects).
Proof.
  apply Forall_lookup. intros i o H. pose proof (lookup_lt_Some _ _ _ H) as Hi.
  unfold offsets_of in Hi. rewrite length_offsets_from, length_enumerate in Hi.
  rewrite offsets_of_lookup in H by done. injection H as <-. split; [apply zlen_nonneg|].
  destruct (lookup_lt_is_Some_2 objects i Hi) as [object Ho]. rewrite (body_of_split _ _ _ Ho), zlen_app.
  pose proof (zlen_nonneg (pdf_object (Z.of_nat i, object) ++ flat_map pdf_object (drop (S i) (enumerate objects)))). lia.
Qed.

Lemma drop_zlen_app {A} (l k : list A) : drop (Z.to_nat (zlen l)) (l ++ k) = k.
Proof. unfold zlen. rewrite Nat2Z.id. apply drop_app_length. Qed.

(** The reader finds every object. *)
Lemma objects_located objects i object :
  zlen (body_of objects) < 10 ^ 10 -> objects !! i = Some object ->
  exists rest, read_object (pdf_text objects) (zlen (body_of objects)) (zlen objects + 1) (Z.of_nat i) =
               Some (pdf_object (Z.of_nat i, object) ++ rest).
Proof.
  intros Hb Ho. pose proof (lookup_lt_Some _ _ _ Ho) as Hi. pose proof (offsets_of_lookup objects i Hi) as El.
  pose proof (offsets_of_bound objects) as Hbound. set (o := zlen (before objects i)) in *.
  assert (0 <= o < 10 ^ 10) as Ho10.
  { pose proof (proj1 (Forall_lookup _ _) Hbound i o El). cbn beta in *. lia. }
  set (head := body_of objects ++ xref_start (zlen objects + 1) ++ flat_map xref_entry (take i (offsets_of objects))).
  assert (zlen head = zlen (body_of objects) + zlen (xref_start (zlen objects + 1)) + 20 * Z.of_nat i) as Hhead.
  { unfold head. rewrite !zlen_app, flat_map_entries.
    - unfold zlen. rewrite length_take_le by (apply lookup_lt_Some in El; lia). lia.
    - apply Forall_take. eapply list.Forall_impl; [exact Hbound|]. intros v Hv. cbn beta in Hv. lia. }
  assert (exists after, pdf_text objects = head ++ show_padded 10 o ++ after) as [after Etext].
  { unfold pdf_text, head. cbn zeta. rewrite (flat_map_take_drop xref_entry _ i o El). unfold xref_entry at 2.
    eexists (str " 00000 n " ++ newline ++ flat_map xref_entry (drop (S i) (offsets_of objects)) ++ trailer (zlen objects + 1) (zlen (body_of objects))).
    by rewrite <- !app_assoc. }
  unfold read_object. rewrite <- Hhead. rewrite (f_equal (fun t => get_range t _ _) Etext).
  replace (zlen head + 10) with (zlen head + zlen (show_padded 10 o)) by (rewrite (zlen_show_padded 10) by (cbn; lia); lia).
  rewrite get_range_app. cbn [mbind option_bind]. rewrite parse_show_padded by (unfold u64_max; lia). cbn [mbind option_bind].
  unfold pdf_text. cbn zeta. rewrite (body_of_split _ _ _ Ho). unfold o. rewrite <- !app_assoc, drop_zlen_app. by eexists.
Qed.

(** ** The estimate *)

(** What the parts take at most, beside their data. *)
Definition OBJECT_ROOM : Z := 65.
Definition PAGE_ROOM : Z := 2048.

Definition room_of (objects : list (list Z)) : Z := foldr (fun object room => zlen object + OBJECT_ROOM + room) 0 objects.

Lemma room_of_app l k : room_of (l ++ k) = room_of l + room_of k.
Proof. induction l as [|a l IH]; cbn [app room_of foldr] in *; [done|]. unfold room_of in *. lia. Qed.

Ltac sizes := rewrite ?zlen_app, ?zlen_str; cbn [String.length]; unfold newline; rewrite ?zlen_cons, ?zlen_nil.

Lemma zlen_pdf_object a : zlen (pdf_object a) <= zlen (snd a) + 35.
Proof. unfold pdf_object, object_start, object_end. sizes. pose proof (zlen_show_dec (fst a + 1)). lia. Qed.

Lemma zlen_xref_entry o : zlen (xref_entry o) <= 30.
Proof. unfold xref_entry. sizes. pose proof (zlen_show_padded_le 10 o). lia. Qed.

Lemma room_enumerated (l : list (list Z)) (k : list (Z * list Z)) o :
  map snd k = l -> zlen (flat_map pdf_object k) + zlen (flat_map xref_entry (offsets_from o k)) <= room_of l.
Proof.
  intros <-. revert o. induction k as [|a k IH]; intros o; [done|]. cbn [map flat_map offsets_from room_of foldr].
  rewrite !zlen_app. specialize (IH (o + zlen (pdf_object a))). pose proof (zlen_pdf_object a). pose proof (zlen_xref_entry o).
  unfold room_of, OBJECT_ROOM in *. lia.
Qed.

Lemma map_snd_enumerate {A} (l : list A) : map snd (enumerate l) = l.
Proof. unfold enumerate. apply (snd_zip (seqZ 0 (zlen l)) l). rewrite length_seqZ. unfold zlen. lia. Qed.

Lemma zlen_pdf_text objects : zlen (pdf_text objects) <= 153 + room_of objects.
Proof.
  unfold pdf_text. cbn zeta. unfold body_of, xref_start, trailer, offsets_of.
  pose proof (room_enumerated objects (enumerate objects) (zlen pdf_header) (map_snd_enumerate objects)) as H.
  assert (zlen pdf_header = 15) as Hh by done.
  pose proof (zlen_show_dec (zlen objects + 1)).
  pose proof (zlen_show_dec (zlen (pdf_header ++ flat_map pdf_object (enumerate objects)))). sizes.
  rewrite Hh in *. rewrite zlen_app, Hh in *. lia.
Qed.

Lemma zlen_show_f64_6 x : zlen (show_f64_6 x) <= 317.
Proof.
  assert (forall s : bool, zlen (if s then str "-" else []) <= 1) as Hs by (intros []; done).
  destruct x as [s|s| |s m e]; cbn [show_f64_6]; [specialize (Hs s); sizes; lia..|vm_compute; congruence|].
  specialize (Hs s). pose proof (zlen_dec_digits 309 (millionths m e / 1000000) []) as Hd. rewrite zlen_nil in Hd.
  sizes. rewrite (zlen_show_padded 6) by (cbn; lia || apply Z.mod_pos_bound; lia). lia.
Qed.

Lemma zlen_join_numbers (l : list Z) (f : Z -> list Z) : Forall (fun i => zlen (f i) <= 24) l -> zlen (join 32 (map f l)) <= 25 * zlen l.
Proof.
  induction 1 as [|i l Hi Hl IH]; [done|]. destruct l as [|j l]; cbn [map join] in *; rewrite ?zlen_app, ?zlen_cons, ?zlen_nil in *; lia.
Qed.

Lemma room_root_objects count : 0 <= count -> room_of (root_objects count) <= 3000 + 25 * count.
Proof.
  intros Hc. unfold root_objects, room_of. cbn [foldr]. pose proof (zlen_show_dec count). unfold OBJECT_ROOM.
  assert (zlen (page_references count) <= 25 * count) as Hr.
  { unfold page_references. etrans; [apply zlen_join_numbers|].
    - apply Forall_forall. intros i _. cbv beta. sizes. pose proof (zlen_show_dec (3 + i * 3)). lia.
    - unfold zlen. rewrite length_seqZ. lia. }
  sizes. lia.
Qed.

Lemma room_page_objects index width_pt height_pt width height image :
  room_of (page_objects index width_pt height_pt width height image) <= zlen image + (PAGE_ROOM - 25).
Proof.
  unfold room_of, page_objects. cbn [foldr]. unfold OBJECT_ROOM, PAGE_ROOM, stream, image_dict.
  pose proof (zlen_show_f64_6 width_pt). pose proof (zlen_show_f64_6 height_pt).
  pose proof (zlen_show_dec (4 + index * 3)). pose proof (zlen_show_dec (5 + index * 3)).
  pose proof (zlen_show_dec width). pose proof (zlen_show_dec height). pose proof (zlen_show_dec (zlen image)).
  set (content := str "q" ++ _). pose proof (zlen_show_dec (zlen content)).
  assert (zlen content <= 700) as Hc by (unfold content; sizes; lia). clearbody content.
  sizes. lia.
Qed.

(** ** The pages *)

Definition printable (page : PackedPdfPage) : Prop :=
  packed_validate (page_raster page) = Ok tt /\ 0 < page_width_um page /\ 0 < page_height_um page.

(** The estimate of the pages. *)
Definition room_of_pages (pages : list PackedPdfPage) : Z :=
  foldr (fun page room => zlen (p_bytes (page_raster page)) + PAGE_ROOM + room) 0 pages.

(** The objects of a file: the catalogue, the tree of pages, and three for each page. *)
Definition page_tree (pages : list PackedPdfPage) : list (list Z) :=
  root_objects (zlen pages) ++ flat_map packed_page_objects (enumerate pages).

Lemma room_of_pages_nonneg pages : 0 <= room_of_pages pages.
Proof.
  induction pages as [|page pages IH]; [done|]. cbn [room_of_pages foldr] in *.
  unfold room_of_pages, PAGE_ROOM in *. pose proof (zlen_nonneg (p_bytes (page_raster page))). lia.
Qed.

Lemma packed_validate_unit p u : packed_validate p = Ok u -> packed_validate p = Ok tt.
Proof. by destruct u. Qed.

Lemma estimate_page_spec limit page e v :
  0 <= e ->
  estimate_page limit page e = Ok v <->
  printable page /\ v = e + (zlen (p_bytes (page_raster page)) + PAGE_ROOM) /\ v <= usize_max.
Proof.
  intros He. unfold estimate_page, add_estimate, printable, PAGE_ROOM. pose proof (zlen_nonneg (p_bytes (page_raster page))) as Hz.
  split.
  - intros H. inv_ok H. apply packed_validate_unit in Hx as ->.
    destruct (checked usize_max (e + zlen (p_bytes (page_raster page)))) as [w|] eqn:E1; [|done]. cbn [mbind option_bind] in H.
    apply checked_Some in E1 as [_ ->]. destruct (checked _ _) as [w|] eqn:E2 in H; [|done].
    apply checked_Some in E2 as [Hw ->]. injection H as <-. unfold in_u in Hw. split_and!; [done|blia..].
  - intros ((Hv & Hw & Hh) & -> & Hm). rewrite Hv. cbn [map_err rbind].
    destruct (Z.leb_spec (page_width_um page) 0), (Z.leb_spec (page_height_um page) 0); try lia. cbn [orb].
    rewrite checked_id by (unfold in_u; lia). cbn [mbind option_bind]. rewrite checked_id by (unfold in_u; lia).
    cbn [ok_or]. f_equal. lia.
Qed.

Lemma estimate_pages_spec limit pages e v :
  0 <= e <= usize_max ->
  for_each (estimate_page limit) pages e = Ok v <->
  Forall printable pages /\ v = e + room_of_pages pages /\ v <= usize_max.
Proof.
  revert e. induction pages as [|page pages IH]; intros e He.
  - cbn [for_each room_of_pages foldr]. split; [intros [= <-]; split_and!; [constructor|lia..]|intros (_ & -> & _); f_equal; lia].
  - cbn [for_each room_of_pages foldr]. pose proof (room_of_pages_nonneg pages). fold (room_of_pages pages).
    pose proof (zlen_nonneg (p_bytes (page_raster page))). unfold PAGE_ROOM. rewrite Forall_cons_iff. split.
    + intros E. apply rbind_Ok in E as (e' & E1 & E). apply estimate_page_spec in E1 as (Hp & -> & Hm); [|lia].
      unfold PAGE_ROOM in *. apply IH in E as (Hl & -> & Hv); [|lia]. split_and!; [done|done|lia..].
    + intros ([Hp Hl] & -> & Hv).
      rewrite (proj2 (estimate_page_spec limit page e (e + (zlen (p_bytes (page_raster page)) + PAGE_ROOM)) ltac:(lia))); unfold PAGE_ROOM; [|split_and!; [done|lia..]].
      cbn [rbind]. apply IH; [lia|]. split_and!; [done|lia..].
Qed.

Lemma room_of_page_tree pages : 153 + room_of (page_tree pages) <= 4096 + room_of_pages pages.
Proof.
  unfold page_tree. rewrite room_of_app.
  assert (room_of (flat_map packed_page_objects (enumerate pages)) + 25 * zlen pages <= room_of_pages pages) as H.
  { rewrite <- (map_snd_enumerate pages) at 2 3. generalize (enumerate pages) as l. induction l as [|[i page] l IH]; [done|].
    cbn [flat_map map snd room_of_pages foldr]. rewrite room_of_app, zlen_cons. fold (room_of_pages (map snd l)).
    unfold packed_page_objects at 1. pose proof (room_page_objects i (points_of_um (page_width_um page)) (points_of_um (page_height_um page))
      (p_width (page_raster page)) (p_height (page_raster page)) (p_bytes (page_raster page))). lia. }
  pose proof (room_root_objects (zlen pages) (zlen_nonneg pages)). lia.
Qed.

Lemma pdf_packed_pages_spec pages limit out :
  limit <= usize_max ->
  pdf_packed_pages_physical pages limit = Ok out <->
  pages <> [] /\ Forall printable pages /\ 4096 + room_of_pages pages <= limit /\ out = pdf_text (page_tree pages).
Proof.
  intros Hl. destruct pages as [|page pages]; [split; [discriminate|intros [? _]; congruence]|].
  set (l := page :: pages) in *.
  change (pdf_packed_pages_physical l limit) with
    (let? estimated := for_each (estimate_page limit) l 4096 in
     if limit <? estimated then Err (ExportError.OutputTooLarge limit) else finish_pdf (page_tree l) limit).
  pose proof (zlen_pdf_text (page_tree l)). pose proof (room_of_page_tree l).
  assert (0 <= 4096 <= usize_max) as He by (unfold usize_max, u64_max; lia). split.
  - intros E. apply rbind_Ok in E as (v & E1 & E). apply estimate_pages_spec in E1 as (Hp & -> & Hv); [|done].
    destruct (Z.ltb_spec limit (4096 + room_of_pages l)); [done|]. rewrite finish_pdf_spec in E by done. unfold bounded in E.
    destruct (Z.leb_spec (zlen (pdf_text (page_tree l))) limit); [|lia]. injection E as <-. split_and!; [done|done|lia|done].
  - intros (_ & Hp & Hr & ->). assert (for_each (estimate_page limit) l 4096 = Ok (4096 + room_of_pages l)) as ->
      by (apply estimate_pages_spec; [exact He|split_and!; [exact Hp|reflexivity|lia]]).
    cbn [rbind]. destruct (Z.ltb_spec limit (4096 + room_of_pages l)); [lia|]. rewrite finish_pdf_spec by done. unfold bounded.
    by destruct (Z.leb_spec (zlen (pdf_text (page_tree l))) limit); [|lia].
Qed.

(** The image of page [p] is object [3 * p + 4]. *)
Definition page_image (page : PackedPdfPage) : list Z :=
  let raster := page_raster page in stream (image_dict (p_width raster) (p_height raster)) (p_bytes raster).

Lemma flat_map_thirds {A B} (f : A -> list B) (l : list A) p a j b :
  (forall x, length (f x) = 3%nat) -> l !! p = Some a -> f a !! j = Some b -> flat_map f l !! (3 * p + j)%nat = Some b.
Proof.
  intros Hf. revert p. induction l as [|x l IH]; intros p Hp Hj; [done|]. cbn [flat_map].
  pose proof (lookup_lt_Some _ _ _ Hj) as Hlt. rewrite Hf in Hlt. destruct p as [|p]; cbn [lookup list_lookup] in Hp.
  - injection Hp as <-. rewrite lookup_app_l by (rewrite Hf; lia). by replace (3 * 0 + j)%nat with j by lia.
  - rewrite lookup_app_r by (rewrite Hf; lia). rewrite Hf. replace (3 * S p + j - 3)%nat with (3 * p + j)%nat by lia. by apply IH.
Qed.

Lemma page_tree_image pages p page : pages !! p = Some page -> page_tree pages !! (3 * p + 3)%nat = Some (page_image page).
Proof.
  intros Hp. unfold page_tree. rewrite lookup_app_r by (cbn; lia). cbn [root_objects length].
  replace (3 * p + 3 - 2)%nat with (3 * p + 1)%nat by lia.
  apply (flat_map_thirds packed_page_objects (enumerate pages) p (Z.of_nat p, page)); [by intros []|by apply enumerate_lookup|done].
Qed.

(** C36: the PDF of packed pages. It is written exactly when there is a page,
    every raster is valid, every size is positive and the estimate (4 KiB, and
    2 KiB and the data of each page) is within the limit: the estimate is never
    exceeded. The text ends with the trailer that points to the cross-reference
    table, in which a reader finds every object and so the dots of every page. *)
Theorem pdf_written pages limit out :
  limit <= usize_max ->
  (pdf_packed_pages_physical pages limit = Ok out <->
   pages <> [] /\ Forall printable pages /\ 4096 + room_of_pages pages <= limit /\ out = pdf_text (page_tree pages)) /\
  (pdf_packed_pages_physical pages limit = Ok out -> limit < 10 ^ 10 ->
   zlen out <= 4096 + room_of_pages pages /\
   exists body table,
     out = body ++ table ++ trailer (zlen (page_tree pages) + 1) (zlen body) /\
     (forall i object, page_tree pages !! i = Some object -> exists rest,
        read_object out (zlen body) (zlen (page_tree pages) + 1) (Z.of_nat i) =
        Some (object_start (Z.of_nat i + 1) ++ object ++ object_end ++ rest)) /\
     (forall p page, pages !! p = Some page -> page_tree pages !! (3 * p + 3)%nat = Some (page_image page))).
Proof.
  intros Hl. pose proof (pdf_packed_pages_spec pages limit out Hl) as Hspec. split; [exact Hspec|].
  intros E H10. apply Hspec in E as (_ & _ & Hr & ->). pose proof (zlen_pdf_text (page_tree pages)) as Hz.
  pose proof (room_of_page_tree pages). split; [lia|].
  exists (body_of (page_tree pages)), (xref_start (zlen (page_tree pages) + 1) ++ flat_map xref_entry (offsets_of (page_tree pages))).
  split; [unfold pdf_text; cbn zeta; by rewrite <- !app_assoc|]. split; [|apply page_tree_image].
  intros i object Ho. destruct (objects_located (page_tree pages) i object) as [rest Er]; [|exact Ho|].
  { unfold pdf_text in Hz. cbn zeta in Hz. rewrite zlen_app in Hz. revert Hz. generalize (zlen (body_of (page_tree pages))). intros b Hz.
    match type of Hz with context [zlen (?x ++ ?y)] => pose proof (zlen_nonneg (x ++ y)) end. lia. }
  exists rest. rewrite Er. unfold pdf_object. cbn [fst snd]. by rewrite <- !app_assoc.
Qed.

(** ** Exporting rasters *)

(** A raster of the source's types. *)
Definition raster_typed (r : MonoRaster) : Prop := 0 <= m_width r /\ 0 <= m_height r /\ bytes_ok (m_pixels r).

(** The exporters' limits are below those of the machine. *)
Definition export_limits (limits : ProcessingLimits) : Prop :=
  max_canvas_pixels limits + 7 <= u32_max /\ in_u u64_max (max_total_pixels limits) /\ max_output_bytes limits <= usize_max /\
  in_u usize_max (max_pages limits).

Definition pixels_of (r : MonoRaster) : Z := m_width r * m_height r.

Lemma bits_bytes l : Forall bit_ok l -> bytes_ok l.
Proof. intros H. eapply list.Forall_impl; [exact H|]. intros v [-> | ->]; done. Qed.

Lemma raster_pixels_small r n :
  raster_typed r -> raster_pixels r = Ok n -> n <= u32_max -> mono_wf r /\ n = pixels_of r.
Proof.
  intros (Hw & Hh & Hb) H Hn. unfold raster_pixels in H. inv_ok H. apply checked_Some in H as [_ ->].
  apply mono_validate_Ok in Hx as (Hw0 & Hh0 & Hz & Hbits); [|done]. split; [|done]. unfold mono_wf. split_and!; [lia..|done].
Qed.

Lemma raster_pixels_wf r : mono_wf r -> raster_pixels r = Ok (pixels_of r).
Proof.
  intros Hr. unfold raster_pixels. rewrite mono_wf_validate by done. destruct Hr as (Hw & Hh & Hs & _).
  cbn [map_err rbind]. rewrite checked_id by (unfold in_u, u64_max, u32_max in *; nia). done.
Qed.

(** The packed raster: its rows in whole bytes. *)
Definition packed_of (r : MonoRaster) : PackedMonoRaster := {|
  p_width := m_width r;
  p_height := m_height r;
  p_stride := stride_of (m_width r);
  p_bytes := match pack_msb r with Ok bytes => bytes | Err _ => [] end;
|}.

Lemma packed_layout_wf w h :
  0 < w -> 0 < h -> w * h <= u32_max -> w + 7 <= u32_max -> packed_layout w h = Ok (stride_of w, stride_of w * h).
Proof.
  intros Hw Hh Hs H7. pose proof (stride_bounds w Hw). unfold packed_layout, stride_of in *.
  rewrite checked_id by (unfold in_u; lia). cbn [ok_or rbind].
  do 2 (rewrite checked_id by (unfold in_u, usize_max, u64_max, u32_max in *; nia); cbn [ok_or rbind]). done.
Qed.

Lemma from_mono_wf r m :
  mono_wf r -> m_width r + 7 <= u32_max -> pixels_of r <= m ->
  from_mono r m = Ok (packed_of r) /\ packed_validate (packed_of r) = Ok tt /\
  zlen (p_bytes (packed_of r)) = stride_of (m_width r) * m_height r.
Proof.
  intros Hr H7 Hm. destruct (pack_msb_spec r Hr) as (bytes & Eb & _ & Hz & _). pose proof Hr as (Hw & Hh & Hs & _).
  unfold pixels_of in *. unfold from_mono, packed_try_new, packed_validate, packed_of. cbn [p_width p_height p_stride p_bytes]. rewrite Eb.
  rewrite !checked_pixel_len_Ok, packed_layout_wf by (unfold u64_max, u32_max in *; lia). cbn [rbind raising map_err].
  rewrite Hz, !Z.eqb_refl. done.
Qed.

Definition page_typed (page : PdfPage) : Prop := raster_typed (pdf_raster page).

Definition packed_page (page : PdfPage) : PackedPdfPage :=
  {| page_raster := packed_of (pdf_raster page); page_width_um := pdf_width_um page; page_height_um := pdf_height_um page |}.

(** A page that may be exported on its own. *)
Definition exportable (limits : ProcessingLimits) (page : PdfPage) : Prop :=
  mono_wf (pdf_raster page) /\ pixels_of (pdf_raster page) <= max_canvas_pixels limits /\
  0 < pdf_width_um page /\ 0 < pdf_height_um page.

Definition total_pixels_of (pages : list PdfPage) : Z := foldr (fun page n => pixels_of (pdf_raster page) + n) 0 pages.

Section Exporting.
Context (limits : ProcessingLimits) (Hlimits : export_limits limits).

Lemma width_in_range r : mono_wf r -> pixels_of r <= max_canvas_pixels limits -> 0 < pixels_of r /\ m_width r + 7 <= u32_max.
Proof using Hlimits. intros (Hw & Hh & _) Hp. destruct Hlimits as (Hc & _). unfold pixels_of in *. nia. Qed.

Lemma exportable_packed page :
  exportable limits page ->
  from_mono (pdf_raster page) (max_canvas_pixels limits) = Ok (packed_of (pdf_raster page)) /\ printable (packed_page page).
Proof using Hlimits.
  intros (Hr & Hp & Hw & Hh). destruct (width_in_range _ Hr Hp) as [_ H7].
  destruct (from_mono_wf _ _ Hr H7 Hp) as (E & Hv & _). split; [exact E|]. split_and!; assumption.
Qed.

Lemma pack_page_spec page t acc :
  page_typed page -> 0 <= t <= max_total_pixels limits ->
  panics (pack_page limits page (t, acc)) = false /\
  forall s, pack_page limits page (t, acc) = Ok s <->
    exportable limits page /\ t + pixels_of (pdf_raster page) <= max_total_pixels limits /\
    s = (t + pixels_of (pdf_raster page), acc ++ [packed_page page]).
Proof using Hlimits.
  intros Ht Ht0. pose proof Hlimits as (Hc & [_ Htot] & _). unfold pack_page, exportable.
  destruct (Z.leb_spec (pdf_width_um page) 0), (Z.leb_spec (pdf_height_um page) 0); cbn [orb];
    try (split; [done|]; intros s; split; [done|intros ((_ & _ & ? & ?) & _); lia]).
  destruct (raster_pixels (pdf_raster page)) as [n|e] eqn:En; cbn [raising map_err rbind].
  2: { split; [done|]. intros s. split; [done|]. intros ((Hr & _) & _). rewrite raster_pixels_wf in En by done. done. }
  destruct (Z.ltb_spec (max_canvas_pixels limits) n) as [Hn|Hn].
  { split; [done|]. intros s. split; [done|]. intros ((Hr & Hp & _) & _). rewrite raster_pixels_wf in En by done. injection En as <-. lia. }
  apply raster_pixels_small in En as [Hr ->]; [|exact Ht|lia].
  destruct (width_in_range _ Hr Hn) as [Hpos H7]. rewrite (proj1 (from_mono_wf _ _ Hr H7 Hn)).
  destruct (checked u64_max (t + pixels_of (pdf_raster page))) as [v|] eqn:Ev; cbn [ok_or raising map_err rbind].
  2: { split; [done|]. intros s. split; [done|]. intros (_ & ? & _). rewrite checked_id in Ev by (unfold in_u; lia). done. }
  apply checked_Some in Ev as [_ ->]. destruct (Z.ltb_spec (max_total_pixels limits) (t + pixels_of (pdf_raster page))).
  { split; [done|]. intros s. split; [discriminate|]. intros (_ & ? & _). lia. }
  cbn [from_raster_fault map_raised map_err rbind]. split; [done|]. intros s. split.
  - intros [= <-]. by split_and!.
  - by intros (_ & _ & ->).
Qed.

Lemma pack_pages_spec pages t acc :
  Forall page_typed pages -> 0 <= t <= max_total_pixels limits ->
  panics (for_each (pack_page limits) pages (t, acc)) = false /\
  forall s, for_each (pack_page limits) pages (t, acc) = Ok s <->
    Forall (exportable limits) pages /\ t + total_pixels_of pages <= max_total_pixels limits /\
    s = (t + total_pixels_of pages, acc ++ map packed_page pages).
Proof using Hlimits.
  intros Hp. revert t acc. induction Hp as [|page pages Hpage Hp IH]; intros t acc Ht.
  { cbn [for_each total_pixels_of foldr map]. split; [done|]. intros s. rewrite app_nil_r, Z.add_0_r.
    split; [intros [= <-]; split_and!; [constructor|lia|done]|by intros (_ & _ & ->)]. }
  cbn [for_each total_pixels_of foldr map]. fold (total_pixels_of pages).
  destruct (pack_page_spec page t acc Hpage Ht) as [Hsafe Hspec].
  assert (Forall (exportable limits) pages -> 0 <= total_pixels_of pages) as Hnn.
  { clear. induction 1 as [|q qs (Hr & Hc & _) _ IH]; [done|]. cbn [total_pixels_of foldr]. fold (total_pixels_of qs).
    destruct Hr as (? & ? & _). unfold pixels_of in *. nia. }
  split.
  - apply panics_bind; [exact Hsafe|]. intros [t' acc'] E. apply Hspec in E as (He & Hle & [= -> ->]). apply IH.
    destruct He as ((? & ? & _) & _). unfold pixels_of in *. nia.
  - intros s. rewrite Forall_cons_iff. split.
    + intros E. apply rbind_Ok in E as ([t' acc'] & E1 & E). apply Hspec in E1 as (He & Hle & [= -> ->]).
      apply IH in E as (Hes & Htot & ->).
      * split_and!; [done|done|lia|]. f_equal; [lia|by rewrite <- app_assoc].
      * destruct He as ((? & ? & _) & _). unfold pixels_of in *. nia.
    + intros ([He Hes] & Htot & ->). specialize (Hnn Hes).
      rewrite (proj2 (Hspec (t + pixels_of (pdf_raster page), acc ++ [packed_page page]))) by (split_and!; [done|lia|done]).
      cbn [rbind]. apply IH; [destruct He as ((? & ? & _) & _); unfold pixels_of in *; nia|].
      split_and!; [done|lia|]. f_equal; [lia|by rewrite <- app_assoc].
Qed.

Lemma enforce_page_count_spec count u :
  0 <= count -> enforce_page_count count limits = Ok u <-> 1 <= count <= max_pages limits.
Proof using Hlimits.
  intros Hc. destruct Hlimits as (_ & _ & _ & Hm). unfold enforce_page_count. rewrite checked_id by done. cbv [default from_option id].
  destruct u, (Z.eqb_spec count 0), (Z.ltb_spec (max_pages limits) count); split; intros; done || lia.
Qed.

Lemma total_pixels_nonneg pages : Forall (exportable limits) pages -> 0 <= total_pixels_of pages.
Proof.
  induction 1 as [|q qs (Hr & Hc & _) _ IH]; [done|]. cbn [total_pixels_of foldr]. fold (total_pixels_of qs).
  destruct Hr as (? & ? & _). unfold pixels_of in *. nia.
Qed.

Lemma add_pixels_spec pages t :
  Forall (exportable limits) pages -> 0 <= t -> t + total_pixels_of pages <= u64_max ->
  for_each (add_packed_pixels limits) (map packed_page pages) t = Ok (t + total_pixels_of pages).
Proof.
  intros Hp. revert t. induction Hp as [|page pages He Hp IH]; intros t Ht Hm; [cbn; f_equal; lia|].
  pose proof (total_pixels_nonneg pages Hp). destruct He as (Hr & Hc & _). pose proof Hr as (? & ? & _).
  cbn [map for_each total_pixels_of foldr] in *. fold (total_pixels_of pages) in *.
  unfold add_packed_pixels at 1. unfold packed_page, packed_of. cbn [page_raster p_width p_height]. unfold pixels_of in *.
  assert (0 <= m_width (pdf_raster page) * m_height (pdf_raster page)) as Hn by nia.
  rewrite checked_id by (unfold in_u; lia). cbn [ok_or rbind].
  destruct (Z.ltb_spec (max_canvas_pixels limits) (m_width (pdf_raster page) * m_height (pdf_raster page))); [lia|].
  rewrite checked_id by (unfold in_u; lia). cbn [ok_or rbind]. rewrite IH by lia. f_equal. lia.
Qed.

(** The pages that may be exported together. *)
Definition exportable_pages (pages : list PdfPage) : Prop :=
  1 <= zlen pages <= max_pages limits /\ Forall (exportable limits) pages /\ total_pixels_of pages <= max_total_pixels limits /\
  4096 + room_of_pages (map packed_page pages) <= max_output_bytes limits.

Lemma packed_with_limits_spec pages out :
  Forall (exportable limits) pages -> total_pixels_of pages <= max_total_pixels limits ->
  pdf_packed_pages_physical_with_limits (map packed_page pages) limits = Ok out <->
  exportable_pages pages /\ out = pdf_text (page_tree (map packed_page pages)).
Proof using Hlimits.
  intros He Ht. pose proof Hlimits as (_ & [_ Htot] & Hout & _). unfold pdf_packed_pages_physical_with_limits, exportable_pages.
  rewrite zlen_map. pose proof (zlen_nonneg pages) as Hz.
  assert (for_each (add_packed_pixels limits) (map packed_page pages) 0 = Ok (total_pixels_of pages)) as ->
    by (rewrite add_pixels_spec by (done || lia); f_equal; lia). cbn [rbind].
  destruct (Z.ltb_spec (max_total_pixels limits) (total_pixels_of pages)) as [|_]; [lia|]. split.
  - intros E. apply rbind_Ok in E as (u & E1 & E). apply enforce_page_count_spec in E1; [|done].
    apply pdf_packed_pages_spec in E as (_ & _ & Hr & ->); [|done]. split_and!; done || lia.
  - intros ((Hc & _ & _ & Hr) & ->). rewrite (proj2 (enforce_page_count_spec (zlen pages) tt Hz) Hc). cbn [rbind].
    apply pdf_packed_pages_spec; [done|]. split_and!; [|apply Forall_fmap|done..].
    + destruct pages; [change (zlen (@nil PdfPage)) with 0 in Hc; lia|done].
    + eapply list.Forall_impl; [exact He|]. intros page Hpage. by apply exportable_packed.
Qed.

Lemma pages_physical_spec pages :
  Forall page_typed pages ->
  panics (pdf_pages_physical_with_limits pages limits) = false /\
  forall out, pdf_pages_physical_with_limits pages limits = Ok out <->
    exportable_pages pages /\ out = pdf_text (page_tree (map packed_page pages)).
Proof using Hlimits.
  intros Hp. unfold pdf_pages_physical_with_limits. pose proof (zlen_nonneg pages) as Hz.
  destruct (enforce_page_count (zlen pages) limits) as [u|e] eqn:Ec; cbn [raising map_err rbind].
  2: { split; [done|]. intros out. split; [done|]. intros ((Hc & _) & _).
       rewrite (proj2 (enforce_page_count_spec (zlen pages) tt Hz) Hc) in Ec. done. }
  destruct (pack_pages_spec pages 0 [] Hp) as [Hsafe Hspec]; [destruct Hlimits as (_ & [? _] & _); lia|]. split.
  - apply panics_bind; [exact Hsafe|]. intros s _. apply panics_raising.
  - intros out. split.
    + intros E. apply rbind_Ok in E as (s & E1 & E). apply Hspec in E1 as (He & Ht & ->). cbn [snd app] in E.
      apply raising_Ok, packed_with_limits_spec in E; [exact E|done|lia].
    + intros ((Hc & He & Ht & Hr) & ->). rewrite (proj2 (Hspec (0 + total_pixels_of pages, [] ++ map packed_page pages))) by (by split_and!).
      cbn [rbind snd app]. apply raising_Ok, packed_with_limits_spec; [done|lia|]. by split_and!.
Qed.

(** *** Pages of a density, and PNG *)

Definition point_page_typed (page : PointPage) : Prop := raster_typed (fst (fst page)).

Lemma packable r n :
  raster_typed r -> raster_pixels r = Ok n -> n <= max_canvas_pixels limits -> mono_wf r /\ exists bytes, pack_msb r = Ok bytes.
Proof using Hlimits.
  intros Ht En Hn. destruct Hlimits as (Hc & _). apply raster_pixels_small in En as [Hr _]; [|exact Ht|lia].
  split; [exact Hr|]. destruct (pack_msb_spec r Hr) as (bytes & E & _). by exists bytes.
Qed.

Lemma estimate_points_safe pages s :
  Forall point_page_typed pages ->
  panics (for_each (estimate_point_page limits) pages s) = false /\
  forall s', for_each (estimate_point_page limits) pages s = Ok s' -> Forall (fun page => mono_wf (fst (fst page))) pages.
Proof using Hlimits.
  intros Hp. revert s. induction Hp as [|[[r w] h] pages Hpage Hp IH]; intros [t e]; [by split|].
  assert (panics (estimate_point_page limits (r, w, h) (t, e)) = false /\
          forall s', estimate_point_page limits (r, w, h) (t, e) = Ok s' -> mono_wf r) as [Hsafe Hwf].
  { unfold estimate_point_page. destruct (raster_pixels r) as [n|] eqn:En; cbn [raising map_err rbind]; [|by split].
    destruct (Z.ltb_spec (max_canvas_pixels limits) n); [by split|].
    destruct (packable r n Hpage En) as [Hr [bytes ->]]; [lia|]. split; [|by intros].
    destruct (checked u64_max (t + n)); cbn [ok_or raising map_err rbind from_raster_fault map_raised]; [|done].
    apply panics_bind; [apply panics_raising|done]. }
  cbn [for_each]. split.
  - apply panics_bind; [exact Hsafe|]. intros s' _. apply IH.
  - intros s' E. apply rbind_Ok in E as (s1 & E1 & E). constructor; [by eapply Hwf|by eapply IH].
Qed.

Lemma add_points_safe pages objects :
  Forall (fun page => mono_wf (fst (fst (snd page)))) pages -> panics (for_each add_point_page pages objects) = false.
Proof.
  intros Hp. revert objects. induction Hp as [|[i [[r w] h]] pages Hr Hp IH]; intros objects; [done|].
  cbn [for_each add_point_page fst snd] in *. destruct (pack_msb_spec r Hr) as (bytes & -> & _). rewrite mono_wf_validate by done.
  cbn [map_err raising rbind from_raster_fault map_raised]. apply IH.
Qed.

Lemma pages_points_safe pages : Forall point_page_typed pages -> panics (pdf_pages_points pages limits) = false.
Proof using Hlimits.
  intros Hp. unfold pdf_pages_points. destruct pages as [|page pages]; [done|].
  destruct (estimate_points_safe (page :: pages) (0, 4096) Hp) as [Hsafe Hwf].
  apply panics_bind; [exact Hsafe|]. intros [total estimated] E. apply Hwf in E. clear Hsafe Hwf.
  destruct (_ || _); [done|]. apply panics_bind; [|intros objects _; apply panics_raising].
  apply add_points_safe. apply list.Forall_forall. intros [i q] Hin.
  apply elem_of_enumerate in Hin as [_ Hq]. exact (proj1 (list.Forall_forall _ _) E q Hq).
Qed.

Lemma pages_of_density_safe pages :
  Forall (fun page => raster_typed (fst page)) pages -> panics (pdf_pages_with_limits pages limits) = false.
Proof using Hlimits.
  intros Hp. unfold pdf_pages_with_limits. apply panics_bind; [apply panics_raising|]. intros _ _.
  destruct (existsb _ _); [done|]. apply pages_points_safe. apply Forall_fmap. eapply list.Forall_impl; [exact Hp|].
  by intros [r dpi].
Qed.

Lemma png_safe `{PngEncoder} r dpi : raster_typed r -> panics (png_with_limits r dpi limits) = false.
Proof using Hlimits.
  intros Ht. unfold png_with_limits, enforce_raster_pixels. apply panics_bind; [apply panics_raising|]. intros _ _.
  destruct (raster_pixels r) as [n|] eqn:En; [|done]. cbn [raising map_err rbind].
  destruct (Z.ltb_spec (max_canvas_pixels limits) n); [done|]. cbn [raising map_err rbind].
  apply panics_bind; [apply panics_raising|]. intros writer _.
  destruct (packable r n Ht En) as [_ [bytes ->]]; [lia|]. cbn [from_raster_fault map_raised map_err rbind].
  apply panics_bind; [apply panics_raising|]. intros out _. by destruct (_ <? _).
Qed.

(** C37: exported rasters. The export of pages never panics; it gives a PDF
    exactly when their number, their sizes, their pixels and the estimate are
    within the limits, of images that have the dots of the rasters and clear
    padding. The other exports, by density and to PNG, never panic either. *)
Theorem rasters_exported pages :
  Forall page_typed pages ->
  panics (pdf_pages_physical_with_limits pages limits) = false /\
  (forall out, pdf_pages_physical_with_limits pages limits = Ok out <->
    exportable_pages pages /\ out = pdf_text (page_tree (map packed_page pages))) /\
  (forall page x y, exportable limits page -> let r := pdf_raster page in
    0 <= x < 8 * stride_of (m_width r) -> 0 <= y < m_height r ->
    get_bit (p_bytes (page_raster (packed_page page))) (Z.to_nat (pack_bit (m_width r) x y)) =
    (x <? m_width r) && (px (m_pixels r) (y * m_width r + x) =? 1)) /\
  (forall dpi, panics (pdf_pages_with_limits (map (fun page => (pdf_raster page, dpi page)) pages) limits) = false) /\
  (forall (encoder : PngEncoder) page dpi, page ∈ pages -> panics (png_with_limits (pdf_raster page) dpi limits) = false).
Proof using Hlimits.
  intros Hp. destruct (pages_physical_spec pages Hp) as [Hsafe Hspec]. split_and!; [exact Hsafe|exact Hspec|..].
  - intros page x y (Hr & _) r Hx Hy. destruct (pack_msb_spec _ Hr) as (bytes & E & _ & _ & Hbits).
    unfold packed_page, packed_of. cbn [page_raster p_bytes]. rewrite E. by apply Hbits.
  - intros dpi. apply pages_of_density_safe, Forall_fmap. exact Hp.
  - intros encoder page dpi Hin. apply png_safe. exact (proj1 (list.Forall_forall _ _) Hp page Hin).
Qed.
End Exporting.

(** ** Examples *)

(** A label of 10 mm by 5 mm. *)
Definition sample_pdf_page : PdfPage := {| pdf_raster := sample_mono; pdf_width_um := 10000; pdf_height_um := 5000 |}.

Definition sample_packed_page : PackedPdfPage := packed_page sample_pdf_page.

Example sample_page_object : page_tree [sample_packed_page] !! 2%nat =
  Some (str "<< /Type /Page /Parent 2 0 R /MediaBox [0 0 28.346457 14.173228] /Resources << /XObject << /Im0 4 0 R >> >> /Contents 5 0 R >>").
Proof. by vm_compute. Qed.

Lemma sample_printable : Forall printable [sample_packed_page].
Proof. repeat constructor; by vm_compute. Qed.

Lemma pdf_written_witness :
  pdf_packed_pages_physical [sample_packed_page] 10000 = Ok (pdf_text (page_tree [sample_packed_page])).
Proof.
  apply (pdf_written [sample_packed_page] 10000 (pdf_text (page_tree [sample_packed_page]))); [by vm_compute|].
  split_and!; [done|exact sample_printable|by vm_compute|reflexivity].
Defined.

Lemma default_export_limits : export_limits ProcessingLimits_default.
Proof. unfold export_limits, in_u. vm_compute. intuition congruence. Qed.

Lemma sample_exportable : exportable_pages ProcessingLimits_default [sample_pdf_page].
Proof.
  unfold exportable_pages. split_and!; [by vm_compute|by vm_compute| |by vm_compute|by vm_compute].
  constructor; [|constructor]. unfold exportable. split_and!; [exact sample_mono_wf|by vm_compute..].
Qed.

Lemma rasters_exported_witness :
  pdf_pages_physical_with_limits [sample_pdf_page] ProcessingLimits_default = Ok (pdf_text (page_tree [sample_packed_page])).
Proof.
  apply (rasters_exported ProcessingLimits_default default_export_limits [sample_pdf_page]).
  - constructor; [|constructor]. unfold page_typed, raster_typed. split_and!; [by vm_compute..|].
    exact (bits_bytes _ (proj2 (proj2 (proj2 (proj2 sample_mono_wf))))).
  - split; [exact sample_exportable|reflexivity].
Defined.
