(* ===== verification/Json.v ===== *)
(** JSON values of the serde_json crate: the interface that the importer uses,
    what it relies on, and a small implementation for examples.

    A [Map] is a [BTreeMap] from strings to values. *)

From stdpp Require Import base list strings numbers option.
From S2P Require Import Prelude Text Float.

#[local] Open Scope Z_scope.

(** ** The interface *)

Class JsonValue := {
  Json : Type;
  JsonMap : Type;
  (** [Value::Null] and [json!] of strings, booleans, integers, floats, arrays and maps. *)
  json_null : Json;
  json_string : list Z -> Json;
  json_bool : bool -> Json;
  json_int : Z -> Json;
  json_float : f64 -> Json;
  json_array : list Json -> Json;
  json_map : JsonMap -> Json;
  (** [Value::as_str] and so on. *)
  as_str : Json -> option (list Z);
  as_bool : Json -> option bool;
  as_u64 : Json -> option Z;
  json_as_i64 : Json -> option Z;
  as_f64 : Json -> option f64;
  as_array : Json -> option (list Json);
  as_object : Json -> option JsonMap;
  is_null : Json -> bool;
  (** [Map::new], [Map::get], [Map::insert] and [Map::remove]. *)
  map_new : JsonMap;
  map_get : JsonMap -> list Z -> option Json;
  map_insert : list Z -> Json -> JsonMap -> JsonMap;
  map_remove : list Z -> JsonMap -> JsonMap;
  (** How deep arrays and maps are nested; the parser refuses more than 128. *)
  depth : Json -> nat;
}.

Class LawfulJson `{JsonValue} := {
  as_str_string s : as_str (json_string s) = Some s;
  as_str_null : as_str json_null = None;
  as_array_array l : as_array (json_array l) = Some l;
  as_array_null : as_array json_null = None;
  as_object_map m : as_object (json_map m) = Some m;
  map_get_new k : map_get map_new k = None;
  map_get_insert m key value k : map_get (map_insert key value m) k = if bool_decide (key = k) then Some value else map_get m k;
  map_get_remove m key k : map_get (map_remove key m) k = if bool_decide (key = k) then None else map_get m k;
  depth_item v l w : as_array v = Some l -> w ∈ l -> (depth w < depth v)%nat;
  depth_entry v m k w : as_object v = Some m -> map_get m k = Some w -> (depth w < depth v)%nat;
}.

Section Values.
Context `{JV : JsonValue}.

(** [json!({..})]. *)
Definition json_object (members : list (list Z * Json)) : Json :=
  json_map (foldl (fun m '(k, v) => map_insert k v m) map_new members).

(** [Value::get] and [value[key]]. *)
Definition get (v : Json) (key : list Z) : option Json := m ← as_object v; map_get m key.
Definition at_key (v : Json) (key : list Z) : Json := default json_null (get v key).

(** [value[key] = x], which panics where there is no object. *)
Definition set_key {E} (key : list Z) (x : Json) (v : Json) : Result (Fault E) Json :=
  match as_object v with
  | Some m => Ok (json_map (map_insert key x m))
  | None => if is_null v then Ok (json_map (map_insert key x map_new)) else Err Panicked
  end.

(** [value == text]. *)
Definition is_text (v : Json) (text : list Z) : bool := bool_decide (as_str v = Some text).
End Values.

(** ** An implementation *)

Inductive Tree :=
| TNull
| TBool (b : bool)
| TInt (n : Z)
| TFloat (x : f64)
| TString (s : list Z)
| TArray (l : list Tree)
| TMap (entries : list (list Z * Tree)).

Definition tree_get (entries : list (list Z * Tree)) (key : list Z) : option Tree :=
  snd <$> List.find (fun '(k, _) => bool_decide (k = key)) entries.

Fixpoint tree_depth (v : Tree) : nat :=
  match v with
  | TArray l => S (foldr (fun v n => Nat.max (tree_depth v) n) O l)
  | TMap entries => S (foldr (fun '(_, v) n => Nat.max (tree_depth v) n) O entries)
  | _ => O
  end.

Definition tree_json : JsonValue := {|
  Json := Tree;
  JsonMap := list (list Z * Tree);
  json_null := TNull;
  json_string := TString;
  json_bool := TBool;
  json_int := TInt;
  json_float x := if f64_is_finite x then TFloat x else TNull;
  json_array := TArray;
  json_map := TMap;
  as_str v := match v with TString s => Some s | _ => None end;
  as_bool v := match v with TBool b => Some b | _ => None end;
  as_u64 v := match v with TInt n => if 0 <=? n then Some n else None | _ => None end;
  json_as_i64 v := match v with TInt n => if n <=? i64_max then Some n else None | _ => None end;
  as_f64 v := match v with TInt n => Some (f64_of_Z n) | TFloat x => Some x | _ => None end;
  as_array v := match v with TArray l => Some l | _ => None end;
  as_object v := match v with TMap m => Some m | _ => None end;
  is_null v := match v with TNull => true | _ => false end;
  map_new := [];
  map_get := tree_get;
  map_insert key value entries := (key, value) :: entries;
  map_remove key entries := List.filter (fun '(k, _) => negb (bool_decide (k = key))) entries;
  depth := tree_depth;
|}.

Lemma find_elem {A} (P : A -> bool) l a : List.find P l = Some a -> a ∈ l /\ P a = true.
Proof. intros H. apply List.find_some in H as [H1 H2]. split; [by apply list_elem_of_In|done]. Qed.

Lemma tree_lawful : @LawfulJson tree_json.
Proof.
  split; try done.
  - intros m key value k. cbn. unfold tree_get. cbn [List.find]. by destruct (bool_decide (key = k)).
  - intros m key k. cbn. unfold tree_get. induction m as [|[k' v'] m IH]; cbn [List.filter List.find]; [by destruct (bool_decide (key = k))|].
    destruct (bool_decide_reflect (k' = key)) as [->|Hne]; cbn [negb List.find].
    + rewrite IH. by destruct (bool_decide (key = k)).
    + destruct (bool_decide_reflect (k' = k)) as [->|]; [|exact IH]. by rewrite bool_decide_eq_false_2.
  - intros [| | | | |l|] l' w E Hin; try done. injection E as <-. cbn. induction l as [|v l IH]; [by apply elem_of_nil in Hin|].
    cbn [foldr]. apply elem_of_cons in Hin as [->|Hin]; [lia|]. specialize (IH Hin). lia.
  - intros [| | | | | |m] m' k w E Hg; try done. injection E as <-. cbn in *. unfold tree_get in Hg.
    destruct (List.find _ m) as [[k' v]|] eqn:Ef; [|done]. injection Hg as <-. apply find_elem in Ef as [Hin _]. clear k.
    induction m as [|[k'' v'] m IH]; [by apply elem_of_nil in Hin|].
    cbn [foldr]. apply elem_of_cons in Hin as [[= -> ->]|Hin]; [lia|]. specialize (IH Hin). lia.
Qed.
