(* ===== verification/Importer.v ===== *)
(** Import of version 3 documents (crates/mb-printer-core/src/importer.rs).

    JSON values are those of the type class [JsonValue]; the JSON parser, base64
    and SHA-256 are library code too: arguments of [import_v3]. The parser refuses values nested deeper than 128, so that the
    recursion of [flatten_element] is bounded; its fuel here is the depth of the
    value. *)

From stdpp Require Import base list strings numbers option.
From S2P Require Import Prelude Text Float Json Document RenderTypes.

#[local] Open Scope Z_scope.

Module ImportError.
Inductive t :=
| Json (why : list Z)
| Version
| Dimensions
| Element (what : list Z)
| Resource.
End ImportError.

#[local] Abbreviation Imports A := (Result (Fault ImportError.t) A).

Definition lower (s : list Z) : list Z := map to_ascii_lowercase s.

Section Importing.
Context `{JV : JsonValue}.

(** [v.get(key).and_then(Value::as_str)] and the like. *)
Definition get_str (v : Json) (key : list Z) : option (list Z) := value ← get v key; as_str value.
Definition get_f64 (v : Json) (key : list Z) : option f64 := value ← get v key; as_f64 value.
Definition get_bool (v : Json) (key : list Z) : option bool := value ← get v key; as_bool value.
Definition get_array (v : Json) (key : list Z) : option (list Json) := value ← get v key; as_array value.

(** [a.or_else(|| b)]. *)
Definition or_else {A} (a b : option A) : option A := match a with Some _ => a | None => b end.

(** ** Numbers *)

Definition mm (v : f64) : Z := f64_round_as i64_min i64_max (f64_mul v (f64_of_Z 1000)).

Definition px (v : Json) (k : list Z) (dpmm : f64) : Z := mm (f64_div (default (f64_of_Z 0) (get_f64 v k)) dpmm).

(** The first of the dotted paths that leads to a number. *)
Fixpoint num (v : Json) (keys : list (list Z)) : Result ImportError.t f64 :=
  match keys with
  | [] => Err ImportError.Dimensions
  | k :: keys =>
      match as_f64 (foldl at_key v (split 46 k)) with
      | Some n => Ok n
      | None => num v keys
      end
  end.

(** ** Names *)

Definition align (s : list Z) : list Z :=
  let lower_s := lower s in
  if bool_decide (lower_s = str "centre") || bool_decide (lower_s = str "middle") then str "center"
  else if bool_decide (lower_s = str "end") then str "right"
  else if bool_decide (s = str "center") || bool_decide (s = str "right") then s
  else str "left".

Definition valign (e : Json) : list Z :=
  let s := lower (default (str "top") (value ← or_else (get e (str "verticalAlign")) (get e (str "valign")); as_str value)) in
  if bool_decide (s = str "center") || bool_decide (s = str "centre") then str "middle"
  else if bool_decide (s = str "bottom") || bool_decide (s = str "end") then str "bottom"
  else str "top".

(** The type of an element, by its names in version 3. *)
Definition element_type (raw : list Z) : list Z :=
  if bool_decide (raw = str "qr") || bool_decide (raw = str "qrcode") then str "qr"
  else if bool_decide (raw = str "rect") then str "rectangle"
  else if bool_decide (raw = str "bar-code") then str "barcode"
  else if bool_decide (raw = str "img") then str "image"
  else raw.

Definition symbology (e : Json) : list Z :=
  let raw := default (str "code128") (value ← or_else (get e (str "symbology")) (get e (str "format")); as_str value) in
  let raw := List.filter (fun b => negb ((b =? 32) || (b =? 45))) (lower raw) in
  if bool_decide (raw = str "ean13") then str "ean13"
  else if bool_decide (raw = str "upca") then str "upc-a"
  else if bool_decide (raw = str "code39") then str "code39"
  else str "code128".

(** Field descriptors: the key and its label. *)
Definition import_field (field : Json) : option Json :=
  key ← get_str field (str "key");
  let label := default key (get_str field (str "label")) in
  Some (json_object [(str "key", json_string key); (str "label", json_string label)]).

Definition fields (v : Json) : Json :=
  json_array (omap import_field (default [] (get_array v (str "fields")))).

(** ** Groups *)

(** The body of the loop over the children of a group: their names, and the
    descendants that are objects. *)
Definition flatten_child (flatten : Json -> list Z -> list Json -> Imports (list Json)) (id : list Z)
    (child : Z * Json) (s : list (list Z) * list Json) : Imports (list (list Z) * list Json) :=
  let '(index, child) := child in
  let '(child_ids, output) := s in
  match as_str child with
  | Some child_id => Ok (child_ids ++ [child_id], output)
  | None =>
      let child_id := default (id ++ str "-child-" ++ show_dec index) (get_str child (str "id")) in
      let? output := flatten child child_id output in
      Ok (child_ids ++ [child_id], output)
  end.

Fixpoint flatten_element (fuel : nat) (value : Json) (fallback_id : list Z) (output : list Json) : Imports (list Json) :=
  match fuel with
  | O => Err Panicked
  | S fuel =>
      let? current := raising (ok_or (as_object value) (ImportError.Element (str "non-object"))) in
      let id := default fallback_id (value ← map_get current (str "id"); as_str value) in
      let current := map_insert (str "id") (json_string id) current in
      let raw_type := lower (default [] (value ← map_get current (str "type"); as_str value)) in
      let children :=
        (value ← or_else (map_get current (str "children")) (map_get current (str "elements")); as_array value) in
      if bool_decide (raw_type = str "group") then
        let? 'flattened := for_each (flatten_child (flatten_element fuel) id) (enumerate (default [] children)) ([], output) in
        let '(child_ids, output) := flattened in
        let current := map_insert (str "children") (json_array (map json_string child_ids)) current in
        Ok (output ++ [json_map (map_remove (str "elements") current)])
      else Ok (output ++ [json_map current])
  end.

(** ** Elements *)

(** [STANDARD.decode] and [STANDARD.encode] of the base64 crate, and [Sha256::digest]. *)
Variable base64_decode : list Z -> option (list Z).
Variable base64_encode : list Z -> list Z.
Variable sha256 : list Z -> list Z.

Definition add_resource (data fallback_media : list Z) (resources : list Json) : Imports (list Z * list Json) :=
  let? 'parts :=
    match strip_prefix data (str "data:") with
    | Some rest =>
        let? '(meta, payload) := raising (ok_or (split_once 44 rest) ImportError.Resource) in
        Ok (default fallback_media (head (split 59 meta)), payload)
    | None => Ok (fallback_media, data)
    end in
  let '(media, payload) := parts in
  let? bytes := raising (ok_or (base64_decode payload) ImportError.Resource) in
  let hash := show_digest (sha256 bytes) in
  match List.find (fun r => is_text (at_key r (str "sha256")) hash) resources with
  | Some existing => let? id := raising (ok_or (as_str (at_key existing (str "id"))) ImportError.Resource) in Ok (id, resources)
  | None =>
      match get_range hash 0 16 with
      | None => Err Panicked
      | Some prefix =>
          let id := str "res-" ++ prefix in
          Ok (id, resources ++ [json_object [(str "id", json_string id); (str "mediaType", json_string media);
                                             (str "sha256", json_string hash); (str "dataBase64", json_string (base64_encode bytes))]])
      end
  end.

Definition transform_fields (e : Json) (d : f64) : list (list Z * Json) :=
  [(str "x", json_int (px e (str "x") d)); (str "y", json_int (px e (str "y") d));
   (str "width", json_int (Z.max (px e (str "width") d) 1)); (str "height", json_int (Z.max (px e (str "height") d) 1));
   (str "rotationMillidegrees",
    json_int (f64_round_as i64_min i64_max (f64_mul (default (f64_of_Z 0) (get_f64 e (str "rotation"))) (f64_of_Z 1000))))].

(** The fields that all elements have. *)
Definition common_fields (e : Json) (z : Z) (d : f64) : list (list Z * Json) :=
  [(str "id", json_string (default (str "legacy-" ++ show_dec z) (get_str e (str "id"))));
   (str "transform", json_object (transform_fields e d));
   (str "zOrder", json_int (default z (value ← get e (str "zOrder"); json_as_i64 value)));
   (str "visible", json_bool (default true (get_bool e (str "visible"))));
   (str "locked", json_bool (default false (get_bool e (str "locked"))))].

(** The text of an SVG element as a data URL, unless it is one already. *)
Definition svg_data (data : list Z) : list Z :=
  if starts_with [60] (trim_start data) then str "data:image/svg+xml;base64," ++ base64_encode data else data.

(** The fields of an element of type [ty], and the resources with those it adds. *)
Definition type_fields (ty : list Z) (e : Json) (d : f64) (resources : list Json) : Imports (list (list Z * Json) * list Json) :=
  let empty := json_string [] in
  if bool_decide (ty = str "text") then
    let fields :=
      [(str "text", default empty (get e (str "text"))); (str "fontSize", json_int (px e (str "fontSize") d));
       (str "horizontalAlign", json_string (align (default (str "left") (get_str e (str "align")))));
       (str "verticalAlign", json_string (valign e)); (str "overflow", json_string (str "no-wrap"))] in
    match get_str e (str "fontData") with
    | Some data =>
        let? '(id, resources) := add_resource data (str "font/ttf") resources in
        Ok (fields ++ [(str "fontResource", json_string id)], resources)
    | None => Ok (fields, resources)
    end
  else if bool_decide (ty = str "qr") then
    Ok ([(str "data", default empty (get e (str "qrData"))); (str "errorCorrection", json_string (str "M"))], resources)
  else if bool_decide (ty = str "rectangle") || bool_decide (ty = str "ellipse") || bool_decide (ty = str "triangle")
          || bool_decide (ty = str "line") then
    Ok ((str "strokeWidth", json_int 125) :: (if bool_decide (ty = str "line") then [] else [(str "fill", json_bool false)]), resources)
  else if bool_decide (ty = str "image") then
    let? data := raising (ok_or (value ← or_else (get e (str "imageData")) (get e (str "src")); as_str value) ImportError.Resource) in
    let? '(id, resources) := add_resource data (str "image/png") resources in
    Ok ([(str "resource", json_string id)], resources)
  else if bool_decide (ty = str "svg") then
    let? data := raising (ok_or (value ← or_else (get e (str "svgData")) (get e (str "svg")); as_str value) ImportError.Resource) in
    let? '(id, resources) := add_resource (svg_data data) (str "image/svg+xml") resources in
    Ok ([(str "resource", json_string id)], resources)
  else if bool_decide (ty = str "barcode") then
    Ok ([(str "data", default empty (or_else (get e (str "barcodeData")) (or_else (get e (str "data")) (get e (str "text")))));
         (str "symbology", json_string (symbology e));
         (str "humanReadable", json_bool (default false (get_bool e (str "humanReadable"))))], resources)
  else if bool_decide (ty = str "group") then
    Ok ([(str "children", default (json_array []) (or_else (get e (str "children")) (get e (str "elementIds"))))], resources)
  else fail (ImportError.Element ty).

Definition element (e : Json) (z : Z) (d : f64) (resources : list Json) : Imports (Json * list Json) :=
  let ty := element_type (lower (default [] (get_str e (str "type")))) in
  let type_name := if bool_decide (ty = str "qr") then str "qr-code" else ty in
  let? '(fields, resources) := type_fields ty e d resources in
  Ok (json_object (common_fields e z d ++ (str "type", json_string type_name) :: fields), resources).

(** ** The document *)

(** The body of the loop over the flattened elements. *)
Definition import_element (dpmm : f64) (e : Z * Json) (s : list Json * list Json) : Imports (list Json * list Json) :=
  let '(z, e) := e in
  let '(elements, resources) := s in
  let? '(imported, resources) := element e z dpmm resources in
  Ok (elements ++ [imported], resources).

(** The children of a group, each with the name of the group. *)
Definition memberships_of (g : Json) : list (list Z * list Z) :=
  let group := default [] (as_str (at_key g (str "id"))) in
  omap (fun c => id ← as_str c; Some (id, group)) (default [] (as_array (at_key g (str "children")))).

Definition names_group (e : Json) : bool := is_text (at_key e (str "type")) (str "group").

Definition memberships (elements : list Json) : list (list Z * list Z) := flat_map memberships_of (List.filter names_group elements).

(** [elements.iter_mut().find(..)]: the first element of the name is changed. *)
Fixpoint set_group (membership : list Z * list Z) (elements : list Json) : Imports (list Json) :=
  let '(element_id, group_id) := membership in
  match elements with
  | [] => Ok []
  | e :: elements =>
      if is_text (at_key e (str "id")) element_id
      then let? e := set_key (str "groupId") (json_string group_id) e in Ok (e :: elements)
      else let? elements := set_group membership elements in Ok (e :: elements)
  end.

Definition flatten_root (element : Z * Json) (output : list Json) : Imports (list Json) :=
  let '(index, element) := element in
  flatten_element (S (depth element)) element (str "legacy-" ++ show_dec index) output.

(** The members of the document but its elements and resources. *)
Definition media_members (v : Json) (width height dpmm : f64) : Json :=
  let bounds := json_object [(str "x", json_int 0); (str "y", json_int 0);
                             (str "width", json_int (mm width)); (str "height", json_int (mm height))] in
  json_object
    [(str "width", json_int (mm width)); (str "height", json_int (mm height)); (str "unit", json_string (str "micrometre"));
     (str "dpi", json_int (f64_round_as 0 u64_max (f64_mul dpmm (f64_lit 254 10))));
     (str "orientation", json_string (str "portrait")); (str "printableBounds", bounds);
     (str "shape", json_string (if default false (get_bool v (str "round")) then str "round" else str "rectangle"));
     (str "continuous", json_bool (default false (get_bool v (str "continuous")))); (str "zones", json_array [])].

Definition document_of (v : Json) (width height dpmm : f64) (elements resources : list Json) : Json :=
  json_object
    [(str "version", json_int 4); (str "name", json_string (default (str "Imported v3") (get_str v (str "name"))));
     (str "media", media_members v width height dpmm);
     (str "coordinateSystem", json_object [(str "unit", json_string (str "micrometre")); (str "origin", json_string (str "top-left"));
                                           (str "rounding", json_string (str "half-away-from-zero"))]);
     (str "elements", json_array elements); (str "resources", json_array resources); (str "fields", fields v);
     (str "extensions", json_object [(str "makersbrain:legacy-v3", json_object [(str "dotsPerMm", json_float dpmm)])])].

(** The value of the text is given by the parser. *)
Definition import_value (v : Json) : Imports Json :=
  if negb (bool_decide ((value ← get v (str "version"); as_u64 value) = Some 3)) then fail ImportError.Version
  else
    let? width := raising (num v [str "widthMm"; str "labelSize.width"]) in
    let? height := raising (num v [str "heightMm"; str "labelSize.height"]) in
    let dpmm := default (f64_of_Z 8) (get_f64 v (str "dotsPerMm")) in
    let? legacy_elements := for_each flatten_root (enumerate (default [] (get_array v (str "elements")))) [] in
    let? 'imported := for_each (import_element dpmm) (enumerate legacy_elements) ([], []) in
    let '(elements, resources) := imported in
    let? elements := for_each set_group (memberships elements) elements in
    Ok (document_of v width height dpmm elements resources).

Definition import_v3 (from_str : list Z -> Result (list Z) Json) (input : list Z) : Imports Json :=
  let? v := raising (map_err ImportError.Json (from_str input)) in import_value v.
End Importing.
