(* ===== verification/ImporterFacts.v ===== *)
(** What the import of version 3 documents promises
    (crates/mb-printer-core/src/importer.rs): it ends without a panic, every
    element has a name, a known type and a size, resources are stored once and
    found, and groups and their children agree. *)

From stdpp Require Import base list strings numbers option.
From S2P Require Import Prelude Text Ordered Float Json Document RenderTypes Importer.

#[local] Open Scope Z_scope.

Lemma find_app {A} (P : A -> bool) l k : List.find P (l ++ k) = or_else (List.find P l) (List.find P k).
Proof. induction l as [|a l IH]; [done|]. cbn [app List.find]. by destruct (P a). Qed.

Section Importing.
Context `{JV : JsonValue} `{LJ : !LawfulJson}.

(** The member of an object literal: the last of its name. *)
Lemma get_json_object members k :
  get (json_object members) k = snd <$> List.find (fun '(k', _) => bool_decide (k' = k)) (rev members).
Proof.
  unfold json_object, get. rewrite as_object_map. cbn [mbind option_bind].
  assert (forall acc, map_get (foldl (fun m '(k, v) => map_insert k v m) acc members) k =
    match List.find (fun '(k', _) => bool_decide (k' = k)) (rev members) with Some p => Some (snd p) | None => map_get acc k end) as H.
  { induction members as [|[k' v] members IH]; intros acc; [done|]. cbn [foldl]. rewrite IH. cbn [rev]. rewrite find_app.
    destruct (List.find _ (rev members)); [done|]. cbn [or_else List.find]. rewrite map_get_insert. by destruct (bool_decide (k' = k)). }
  rewrite H. destruct (List.find _ _); [done|]. apply map_get_new.
Qed.

(** ** Groups are flattened *)

(** An object with a name. *)
Definition has_name (v : Json) : Prop := exists m id, as_object v = Some m /\ map_get m (str "id") = Some (json_string id).

Lemma flatten_child_safe flatten id child s :
  (forall child_id output, Forall has_name output -> safe (Forall has_name) (flatten (snd child) child_id output)) ->
  Forall has_name (snd s) -> safe (fun s => Forall has_name (snd s)) (flatten_child flatten id child s).
Proof.
  intros Hf Hs. destruct child as [index child], s as [child_ids output]. unfold flatten_child. cbn [snd] in *.
  destruct (as_str child); [exact Hs|]. eapply outcome_bind; [by apply Hf|]. intros output' H. exact H.
Qed.

Lemma flatten_element_safe fuel value fallback output :
  (depth value < fuel)%nat -> Forall has_name output -> safe (Forall has_name) (flatten_element fuel value fallback output).
Proof.
  revert value fallback output. induction fuel as [|fuel IH]; intros value fallback output Hd Ho; [lia|]. cbn [flatten_element].
  destruct (as_object value) as [entries|] eqn:Ec; [|done].
  cbn [ok_or raising map_err rbind]. set (id := default fallback _). set (current := map_insert (str "id") (json_string id) entries).
  assert (map_get current (str "id") = Some (json_string id)) as Hid by (unfold current; by rewrite map_get_insert, bool_decide_eq_true_2).
  destruct (bool_decide _); [|cbn [outcome]; apply Forall_app_2; [done|]; constructor; [exists current, id; by rewrite as_object_map|constructor]].
  eapply outcome_bind; [apply (safe_for_each _ (fun s => Forall has_name (snd s))); [exact Ho|]|].
  - intros child s Hin Hs. apply flatten_child_safe; [|exact Hs]. intros child_id output' Ho'. apply IH; [|exact Ho'].
    destruct child as [i child]. apply elem_of_enumerate in Hin as [_ Hin]. cbn [snd].
    assert (forall key, key <> str "id" ->
      child ∈ default [] (value ← map_get current key; as_array value) -> (depth child < fuel)%nat) as Hkey.
    { intros key Hne Hc. destruct (map_get current key) as [v|] eqn:Eg; [|by apply elem_of_nil in Hc]. cbn [mbind option_bind] in Hc.
      unfold current in Eg. rewrite map_get_insert, bool_decide_eq_false_2 in Eg by congruence. apply (depth_entry value) in Eg; [|exact Ec].
      destruct (as_array v) as [l|] eqn:El; [|by apply elem_of_nil in Hc]. apply (depth_item v) in Hc; [lia|exact El]. }
    unfold or_else in Hin. destruct (map_get current (str "children")) as [v|] eqn:Eg.
    + apply (Hkey (str "children")); [discriminate|]. rewrite Eg. exact Hin.
    + apply (Hkey (str "elements")); [discriminate|]. exact Hin.
  - intros [child_ids output'] Ho'. cbn [snd] in Ho'. cbn [outcome]. apply Forall_app_2; [done|]. constructor; [|constructor].
    eexists _, id. split; [apply as_object_map|].
    by rewrite map_get_remove, bool_decide_eq_false_2, map_get_insert, bool_decide_eq_false_2 by discriminate.
Qed.

Lemma flatten_roots_safe roots output :
  Forall has_name output -> safe (Forall has_name) (for_each flatten_root roots output).
Proof.
  intros Ho. apply safe_for_each; [exact Ho|]. intros [i v] output' _ Ho'. apply flatten_element_safe; [lia|exact Ho'].
Qed.

(** ** Members of groups *)

Lemma is_text_spec v s : is_text v s = true <-> as_str v = Some s.
Proof using. clear. unfold is_text. apply bool_decide_eq_true. Qed.

(** The names of the element and of the group of a membership. *)
Definition child_of (g : Json) (id : list Z) : Prop :=
  exists children, as_array (at_key g (str "children")) = Some children /\ exists c, c ∈ children /\ as_str c = Some id.

Lemma elem_of_memberships elements id g :
  (id, g) ∈ memberships elements <->
  exists group, group ∈ elements /\ names_group group = true /\ child_of group id /\ g = default [] (as_str (at_key group (str "id"))).
Proof.
  unfold memberships, memberships_of, child_of. rewrite list_elem_of_In, in_flat_map. split.
  - intros (group & [Hin Hg]%List.filter_In & H%list_elem_of_In). apply list_elem_of_omap in H as (c & Hc & E).
    destruct (as_str c) as [s|] eqn:Es; [|done]. cbn in E. injection E as -> <-. exists group. split; [by apply list_elem_of_In|].
    split; [done|]. split; [|done].
    destruct (as_array (at_key group (str "children"))) as [children|]; [|by apply elem_of_nil in Hc]. exists children. split; [done|]. by exists c.
  - intros (group & Hin & Hg & (children & Ec & c & Hc & Es) & ->). exists group. split; [apply List.filter_In; split; [by apply list_elem_of_In|done]|].
    apply list_elem_of_In, list_elem_of_omap. exists c. rewrite Ec, Es. by split.
Qed.

(** [e'] is [e], possibly with another group. *)
Definition same_but_group (e e' : Json) : Prop :=
  is_Some (as_object e') /\ forall k, k <> str "groupId" -> get e' k = get e k.

(** The first element of a name. *)
Definition first_named (elements : list Json) (id : list Z) : option Json :=
  List.find (fun e => is_text (at_key e (str "id")) id) elements.

(** Groups of elements, by the memberships [ms]. *)
Definition grouped (ms : list (list Z * list Z)) (elements : list Json) : Prop :=
  (forall e g, e ∈ elements -> get e (str "groupId") = Some g ->
     exists id group, as_str (at_key e (str "id")) = Some id /\ g = json_string group /\ (id, group) ∈ ms) /\
  (forall id group e, (id, group) ∈ ms -> first_named elements id = Some e ->
     exists g, get e (str "groupId") = Some g).

Definition objects (elements : list Json) : Prop := Forall (fun e => is_Some (as_object e)) elements.

Lemma same_but_group_refl elements : objects elements -> Forall2 same_but_group elements elements.
Proof. intros Hl. induction Hl; constructor; [by split|done]. Qed.

(** What [set_group] does: the first element of the name has the group, all others are unchanged. *)
Record regrouped (id group : list Z) (elements elements' : list Json) : Prop := {
  re_same : Forall2 same_but_group elements elements';
  re_elements : forall e', e' ∈ elements' ->
    e' ∈ elements \/ get e' (str "groupId") = Some (json_string group) /\ as_str (at_key e' (str "id")) = Some id;
  re_first : forall e', first_named elements' id = Some e' -> get e' (str "groupId") = Some (json_string group);
  re_others : forall id' e', first_named elements' id' = Some e' -> id' = id \/ first_named elements id' = Some e';
}.

Lemma set_group_spec id group elements :
  objects elements -> certain (regrouped id group elements) (set_group (id, group) elements).
Proof.
  intros Ho. induction Ho as [|e elements [m Em] Ho IH]; cbn [set_group]; [by repeat constructor|].
  destruct (is_text (at_key e (str "id")) id) eqn:Eid.
  - unfold set_key. rewrite Em. cbn [rbind outcome]. set (e' := json_map (map_insert _ _ _)).
    assert (as_object e' = Some (map_insert (str "groupId") (json_string group) m)) as Em' by apply as_object_map.
    assert (forall k, get e' k = if bool_decide (str "groupId" = k) then Some (json_string group) else get e k) as Hget
      by (intros k; unfold get; rewrite Em, Em'; apply map_get_insert).
    assert (get e' (str "groupId") = Some (json_string group)) as Hgroup by (by rewrite Hget, bool_decide_eq_true_2).
    assert (at_key e' (str "id") = at_key e (str "id")) as Hid by (unfold at_key; by rewrite Hget, bool_decide_eq_false_2 by discriminate).
    split.
    + constructor; [|by apply same_but_group_refl]. split; [by eexists|]. intros k Hk. by rewrite Hget, bool_decide_eq_false_2 by congruence.
    + intros w Hw. apply elem_of_cons in Hw as [->|Hw]; [right|left; by right]. rewrite Hid. split; [done|by apply is_text_spec].
    + intros w Hw. unfold first_named in Hw. cbn [List.find] in Hw. rewrite Hid, Eid in Hw. by injection Hw as <-.
    + intros id' w Hw. unfold first_named in *. cbn [List.find] in *. rewrite Hid in Hw.
      destruct (is_text (at_key e (str "id")) id') eqn:E'; [|by right]. left.
      apply is_text_spec in Eid, E'. congruence.
  - eapply outcome_bind; [exact IH|]. intros elements' [Hs He Hf Hr]. cbn [outcome]. split.
    + constructor; [split; [by eexists|done]|exact Hs].
    + intros w Hw. apply elem_of_cons in Hw as [->|Hw]; [left; by left|]. destruct (He w Hw) as [?|?]; [left; by right|by right].
    + intros w Hw. unfold first_named in Hw. cbn [List.find] in Hw. rewrite Eid in Hw. by apply Hf.
    + intros id' w Hw. unfold first_named in *. cbn [List.find] in *. destruct (is_text _ id'); [by right|by apply Hr].
Qed.

Lemma same_objects elements elements' : Forall2 same_but_group elements elements' -> objects elements'.
Proof. intros H. induction H as [|e e' l l' [He _] _ IH]; constructor; [exact He|exact IH]. Qed.

Lemma same_trans l1 l2 l3 : Forall2 same_but_group l1 l2 -> Forall2 same_but_group l2 l3 -> Forall2 same_but_group l1 l3.
Proof.
  intros H. revert l3. induction H as [|e e' l l' [He Hk] _ IH]; intros l3 H3; inversion_clear H3 as [|? e3 ? ? [He3 Hk3] Hl3]; constructor.
  - split; [exact He3|]. intros k Hne. by rewrite Hk3, Hk.
  - by apply IH.
Qed.

Lemma set_groups_spec elements todo seen current :
  Forall2 same_but_group elements current -> objects current -> grouped seen current ->
  certain (fun final => Forall2 same_but_group elements final /\ grouped (seen ++ todo) final) (for_each set_group todo current).
Proof.
  revert seen current. induction todo as [|[id group] todo IH]; intros seen current Hs Ho Hg; [cbn; by rewrite app_nil_r|].
  cbn [for_each]. eapply outcome_bind; [by apply set_group_spec|]. intros next [Hsame He Hf Hr].
  replace (seen ++ (id, group) :: todo) with ((seen ++ [(id, group)]) ++ todo) by (by rewrite <- app_assoc).
  apply IH; [by eapply same_trans|by eapply same_objects|]. destruct Hg as [Hg1 Hg2]. split.
  - intros e g Hin Eg. destruct (He e Hin) as [Hold|[Enew Eid]].
    + destruct (Hg1 e g Hold Eg) as (i & gr & ? & ? & ?). exists i, gr. split_and!; [done|done|]. apply elem_of_app. by left.
    + rewrite Enew in Eg. injection Eg as <-. exists id, group. split_and!; [done|done|]. apply elem_of_app. right. by left.
  - intros i g e Hin Ef. destruct (decide (i = id)) as [->|Hne]; [rewrite (Hf e Ef); by eexists|].
    destruct (Hr i e Ef) as [?|Ef']; [done|]. apply elem_of_app in Hin as [Hin|Hin]; [by apply (Hg2 i g)|].
    apply list_elem_of_singleton in Hin. congruence.
Qed.

(** ** Resources *)

Definition TYPES : list (list Z) :=
  [str "text"; str "qr-code"; str "rectangle"; str "ellipse"; str "triangle"; str "line"; str "image"; str "svg"; str "barcode"; str "group"].

Section Resources.
Context (base64_decode : list Z -> option (list Z)) (base64_encode : list Z -> list Z) (sha256 : list Z -> list Z).
Hypothesis digest_length : forall bytes, length (sha256 bytes) = 32%nat.

#[local] Abbreviation add_resource := (add_resource base64_decode base64_encode sha256).
#[local] Abbreviation type_fields := (type_fields base64_decode base64_encode sha256).
#[local] Abbreviation element := (element base64_decode base64_encode sha256).

Definition hash_of (bytes : list Z) : list Z := show_digest (sha256 bytes).

(** The resource of some bytes. *)
Definition embedded_resource (media bytes : list Z) : Json :=
  json_object [(str "id", json_string (str "res-" ++ take 16 (hash_of bytes))); (str "mediaType", json_string media);
               (str "sha256", json_string (hash_of bytes)); (str "dataBase64", json_string (base64_encode bytes))].

(** Every resource is that of some bytes, and no bytes are there twice. *)
Definition resources_ok (rs : list Json) : Prop :=
  Forall (fun r => exists media bytes, r = embedded_resource media bytes) rs /\
  NoDup (map (fun r => as_str (at_key r (str "sha256"))) rs).

(** [id] names one of the resources. *)
Definition found (rs : list Json) (id : list Z) : Prop := exists r, r ∈ rs /\ as_str (at_key r (str "id")) = Some id.

Lemma resource_members media bytes :
  as_str (at_key (embedded_resource media bytes) (str "id")) = Some (str "res-" ++ take 16 (hash_of bytes)) /\
  as_str (at_key (embedded_resource media bytes) (str "sha256")) = Some (hash_of bytes).
Proof. unfold at_key, embedded_resource. rewrite !get_json_object. split; apply as_str_string. Qed.

Lemma length_hash bytes : length (hash_of bytes) = 64%nat.
Proof using LJ digest_length.
  unfold hash_of, show_digest. assert (forall l : list Z, length (flat_map (fun byte => [hex_char (byte / 16); hex_char (byte mod 16)]) l) = (2 * length l)%nat) as H.
  { induction l as [|b l IH]; [done|]. cbn [flat_map app length]. rewrite IH. lia. }
  by rewrite H, digest_length.
Qed.

Lemma found_mono rs rs' id : (forall r, r ∈ rs -> r ∈ rs') -> found rs id -> found rs' id.
Proof. intros Hin (r & Hr & E). exists r. auto. Qed.

(** The resources grow, and stay what they are. *)
Definition grown (rs rs' : list Json) : Prop := resources_ok rs' /\ forall r, r ∈ rs -> r ∈ rs'.

Lemma add_resource_safe data fallback rs :
  resources_ok rs -> safe (fun '(id, rs') => grown rs rs' /\ found rs' id) (add_resource data fallback rs).
Proof using LJ digest_length.
  intros [Hrs Hnd]. unfold Importer.add_resource.
  eapply (outcome_bind _ _ (fun _ => True)).
  { destruct (strip_prefix data (str "data:")) as [rest|]; [|done]. by destruct (split_once 44 rest) as [[]|]. }
  intros [media payload] _. destruct (base64_decode payload) as [bytes|]; [|done]. cbn [ok_or raising map_err rbind].
  fold (hash_of bytes). destruct (List.find _ rs) as [existing|] eqn:Ef.
  - apply find_elem in Ef as [Hin _]. destruct (proj1 (list.Forall_forall _ _) Hrs existing Hin) as (m & b & ->).
    destruct (resource_members m b) as [Eid _]. rewrite Eid. cbn [ok_or raising map_err rbind outcome].
    split; [by split|]. exists (embedded_resource m b). by split.
  - assert (get_range (hash_of bytes) 0 16 = Some (take 16 (hash_of bytes))) as ->.
    { unfold get_range, zlen. rewrite length_hash. done. }
    cbn [outcome]. set (r := json_object _). assert (r = embedded_resource media bytes) as Er by done. clearbody r. subst r.
    split; [split; [split|]|].
    + apply Forall_app_2; [done|]. constructor; [by eexists _, _|constructor].
    + rewrite map_app. apply list.NoDup_app. split; [exact Hnd|]. split; [|apply list.NoDup_singleton].
      intros h Hh Hnew. apply list_elem_of_singleton in Hnew as ->. apply list_elem_of_fmap in Hh as (r & E & Hr).
      apply list_elem_of_In, (List.find_none _ _ Ef) in Hr.
      unfold is_text in Hr. rewrite bool_decide_eq_false in Hr. apply Hr. rewrite <- E. apply resource_members.
    + intros r Hr. apply elem_of_app. by left.
    + exists (embedded_resource media bytes). split; [|apply resource_members]. apply elem_of_app. right. by left.
Qed.

(** ** Elements *)

(** A member that is missing or names a resource. *)
Definition no_resource (rs : list Json) (v : option Json) : Prop := v = None \/ exists id, v = Some (json_string id) /\ found rs id.

(** An imported element, before it gets its group. *)
Record element_ok (rs : list Json) (v : Json) : Prop := {
  ok_object : is_Some (as_object v);
  ok_id : exists id, as_str (at_key v (str "id")) = Some id;
  ok_type : exists t, as_str (at_key v (str "type")) = Some t /\ t ∈ TYPES;
  ok_size : exists w h, at_key (at_key v (str "transform")) (str "width") = json_int w /\
                        at_key (at_key v (str "transform")) (str "height") = json_int h /\ 1 <= w /\ 1 <= h;
  ok_resources : no_resource rs (get v (str "resource")) /\ no_resource rs (get v (str "fontResource"));
}.

(** What the fields of a type may name. *)
Definition fields_ok (rs : list Json) (ty : list Z) (fields : list (list Z * Json)) : Prop :=
  (if bool_decide (ty = str "qr") then str "qr-code" else ty) ∈ TYPES /\
  Forall (fun '(k, v) => k ∉ [str "id"; str "type"; str "transform"; str "groupId"] /\
                         ((k = str "resource" \/ k = str "fontResource") -> (exists id, v = json_string id /\ found rs id))) fields.

Ltac known_type := apply list_elem_of_In; vm_compute; tauto.
Ltac plain_field := split; [by apply (bool_decide_unpack _); vm_compute|intros [E|E]; discriminate E].
Ltac plain_fields := repeat (apply Forall_cons_2; [plain_field|]); apply Forall_nil_2.
Ltac resource_field id := split; [by apply (bool_decide_unpack _); vm_compute|intros _; exists id; by split].

(** Decides the comparisons of the type with the known ones. *)
Ltac known_branch :=
  unfold Importer.type_fields;
  repeat first [rewrite bool_decide_eq_true_2 by reflexivity | rewrite bool_decide_eq_false_2 by discriminate]; cbn [orb].

Ltac plain_branch Hsame :=
  known_branch; cbn [outcome]; split; [exact Hsame|]; split; [known_type|]; plain_fields.

Ltac resource_branch :=
  known_branch; eapply (outcome_bind _ _ (fun _ => True)); [by apply safe_raising|]; intros data _;
  eapply outcome_bind; [by apply add_resource_safe|]; intros [id rs'] [Hg Hf]; cbn [outcome]; split; [exact Hg|];
  split; [known_type|]; apply Forall_cons_2; [resource_field id|apply Forall_nil_2].

Lemma type_fields_safe ty e d rs :
  resources_ok rs ->
  safe (fun '(fields, rs') => grown rs rs' /\ fields_ok rs' ty fields) (type_fields ty e d rs).
Proof using LJ digest_length.
  intros Hrs. assert (grown rs rs) as Hsame by (by split).
  destruct (decide (ty = str "text")) as [->|N1].
  { known_branch. destruct (get_str e (str "fontData")) as [data|].
    - eapply outcome_bind; [by apply add_resource_safe|]. intros [id rs'] [Hg Hf]. cbn [outcome]. split; [exact Hg|].
      split; [known_type|]. cbn [app]. repeat (apply Forall_cons_2; [plain_field|]). apply Forall_cons_2; [resource_field id|apply Forall_nil_2].
    - plain_branch Hsame. }
  destruct (decide (ty = str "qr")) as [->|N2]; [plain_branch Hsame|].
  destruct (decide (ty = str "rectangle")) as [->|N3]; [plain_branch Hsame|].
  destruct (decide (ty = str "ellipse")) as [->|N4]; [plain_branch Hsame|].
  destruct (decide (ty = str "triangle")) as [->|N5]; [plain_branch Hsame|].
  destruct (decide (ty = str "line")) as [->|N6]; [plain_branch Hsame|].
  destruct (decide (ty = str "image")) as [->|N7]; [resource_branch|].
  destruct (decide (ty = str "svg")) as [->|N8]; [resource_branch|].
  destruct (decide (ty = str "barcode")) as [->|N9]; [plain_branch Hsame|].
  destruct (decide (ty = str "group")) as [->|N10]; [plain_branch Hsame|].
  unfold Importer.type_fields. by rewrite !bool_decide_eq_false_2 by done.
Qed.

(** Which of the fields of an element is found. *)
Lemma element_member e z d t fields k :
  (forall v, (k, v) ∈ fields -> k ∉ [str "id"; str "type"; str "transform"; str "groupId"]) ->
  k ∈ [str "id"; str "type"; str "transform"; str "groupId"] ->
  get (json_object (common_fields e z d ++ (str "type", t) :: fields)) k = get (json_object (common_fields e z d ++ [(str "type", t)])) k.
Proof.
  intros Hf Hk. rewrite !get_json_object, !rev_app_distr. cbn [rev]. rewrite <- !app_assoc, find_app.
  destruct (List.find _ (rev fields)) as [[k' v]|] eqn:E; [|done]. apply find_elem in E as [Hin E]. rewrite bool_decide_eq_true in E. subst k'.
  apply list_elem_of_In, in_rev, list_elem_of_In in Hin. by destruct (Hf v Hin).
Qed.

Lemma element_safe e z d rs :
  resources_ok rs ->
  safe (fun '(v, rs') => grown rs rs' /\ element_ok rs' v /\ get v (str "groupId") = None) (element e z d rs).
Proof using LJ digest_length.
  intros Hrs. unfold Importer.element. eapply outcome_bind; [by apply type_fields_safe|]. intros [fields rs'] [Hg [Ht Hf]]. cbn [outcome].
  set (ty := element_type _) in *. set (t := if bool_decide (ty = str "qr") then _ else _) in *.
  assert (forall k, k ∈ [str "id"; str "type"; str "transform"; str "groupId"] ->
    get (json_object (common_fields e z d ++ (str "type", json_string t) :: fields)) k = get (json_object (common_fields e z d ++ [(str "type", json_string t)])) k) as Hget.
  { intros k Hk. apply element_member; [|done]. intros v Hin. exact (proj1 (proj1 (list.Forall_forall _ _) Hf (k, v) Hin)). }
  set (v := json_object (_ ++ _)) in *.
  assert (forall k, k = str "resource" \/ k = str "fontResource" -> no_resource rs' (get v k)) as Hres.
  { intros k Hk. unfold v. rewrite get_json_object, rev_app_distr. cbn [rev]. rewrite <- app_assoc, find_app.
    destruct (List.find _ (rev fields)) as [[k' w]|] eqn:E.
    - apply find_elem in E as [Hin E]. rewrite bool_decide_eq_true in E. subst k'. apply list_elem_of_In, in_rev, list_elem_of_In in Hin.
      destruct (proj2 (proj1 (list.Forall_forall _ _) Hf (k, w) Hin) Hk) as (id & -> & Hid). right. by exists id.
    - left. by destruct Hk as [-> | ->]. }
  assert (forall k, k ∈ [str "id"; str "type"; str "transform"; str "groupId"] ->
    get v k = snd <$> List.find (fun '(k', _) => bool_decide (k' = k)) (rev (common_fields e z d ++ [(str "type", json_string t)]))) as Hv
    by (intros k Hk; rewrite Hget by done; apply get_json_object).
  split; [exact Hg|]. split; [|by rewrite Hv by (by apply (bool_decide_unpack _); vm_compute)].
  split.
  - unfold v, json_object. rewrite as_object_map. by eexists.
  - unfold at_key. rewrite Hv by (by apply (bool_decide_unpack _); vm_compute). eexists. apply as_str_string.
  - exists t. unfold at_key. rewrite Hv by (by apply (bool_decide_unpack _); vm_compute). split; [apply as_str_string|exact Ht].
  - exists (Z.max (px e (str "width") d) 1), (Z.max (px e (str "height") d) 1).
    unfold at_key at 2 4. rewrite Hv by (by apply (bool_decide_unpack _); vm_compute). split; [|split; [|lia]].
    + unfold at_key. change (default json_null (snd <$> List.find _ _)) with (json_object (transform_fields e d)). by rewrite get_json_object.
    + unfold at_key. change (default json_null (snd <$> List.find _ _)) with (json_object (transform_fields e d)). by rewrite get_json_object.
  - split; apply Hres; auto.
Qed.

Lemma element_ok_grown rs rs' v : grown rs rs' -> element_ok rs v -> element_ok rs' v.
Proof using LJ.
  clear. intros [_ Hin] [Ho Hi Ht Hs [H1 H2]]. split; try done.
  split; [destruct H1 as [?|(id & ? & Hf)]|destruct H2 as [?|(id & ? & Hf)]]; first [by left | right; exists id; split; [done|by eapply found_mono]].
Qed.

(** The state of the loop over the elements. *)
Definition imported_ok (s : list Json * list Json) : Prop :=
  resources_ok (snd s) /\ Forall (fun v => element_ok (snd s) v /\ get v (str "groupId") = None) (fst s).

Lemma import_elements_safe d es : safe imported_ok (for_each (import_element base64_decode base64_encode sha256 d) es ([], [])).
Proof using LJ digest_length.
  apply safe_for_each; [by repeat constructor|]. intros [z e] [elements rs] _ [Hrs Hes]. unfold import_element. cbn [fst snd] in *.
  eapply outcome_bind; [by apply element_safe|]. intros [v rs'] ([Hrs' Hin] & Hv & Hgroup). cbn [outcome]. split; cbn [fst snd]; [exact Hrs'|].
  apply Forall_app_2; [|apply Forall_cons_2; [by split|apply Forall_nil_2]]. eapply list.Forall_impl; [exact Hes|]. intros w [Hw ?]. split; [|done].
  by apply (element_ok_grown rs rs').
Qed.
End Resources.

(** ** Documents *)

Lemma same_key e e' k : same_but_group e e' -> k <> str "groupId" -> at_key e' k = at_key e k.
Proof. intros [_ H] Hk. unfold at_key. by rewrite H. Qed.

Lemma same_memberships elements elements' : Forall2 same_but_group elements elements' -> memberships elements' = memberships elements.
Proof.
  intros H. induction H as [|e e' l l' He _ IH]; [done|]. unfold memberships in *. cbn [List.filter].
  assert (names_group e' = names_group e) as -> by (unfold names_group; by rewrite (same_key e e') by (done || discriminate)).
  destruct (names_group e); [|exact IH]. cbn [flat_map]. rewrite IH. f_equal. unfold memberships_of.
  by rewrite !(same_key e e') by (done || discriminate).
Qed.

Lemma element_ok_same rs e e' : same_but_group e e' -> element_ok rs e -> element_ok rs e'.
Proof.
  intros Hs [Ho Hi Ht Hsize Hr]. pose proof (fun k Hk => same_key e e' k Hs Hk) as Hk. split.
  - exact (proj1 Hs).
  - by rewrite Hk by discriminate.
  - by rewrite Hk by discriminate.
  - by rewrite Hk by discriminate.
  - by rewrite !(proj2 Hs) by discriminate.
Qed.

(** Groups and children agree: an element in a group is listed by a group of
    that name, and an element that a group lists is in a group; of several
    elements of a name, that is the first. *)
Definition groups_agree (elements : list Json) : Prop :=
  (forall e g, e ∈ elements -> get e (str "groupId") = Some g ->
     exists group name id, group ∈ elements /\ names_group group = true /\ as_str (at_key group (str "id")) = Some name /\
       g = json_string name /\ as_str (at_key e (str "id")) = Some id /\ child_of group id) /\
  (forall group id e, group ∈ elements -> names_group group = true -> child_of group id ->
     first_named elements id = Some e -> exists g, get e (str "groupId") = Some g).

Section Document.
Context (base64_decode : list Z -> option (list Z)) (base64_encode : list Z -> list Z) (sha256 : list Z -> list Z).

Lemma grouped_agree rs elements :
  Forall (element_ok rs) elements -> grouped (memberships elements) elements -> groups_agree elements.
Proof.
  intros Hok [H1 H2]. split.
  - intros e g Hin Eg. destruct (H1 e g Hin Eg) as (id & name & Eid & -> & Hm). apply elem_of_memberships in Hm as (group & Hgroup & Hg & Hc & ->).
    destruct (ok_id _ _ (proj1 (list.Forall_forall _ _) Hok group Hgroup)) as [gid Egid].
    exists group, gid, id. rewrite Egid. by split_and!.
  - intros group id e Hin Hg Hc Ef. apply (H2 id (default [] (as_str (at_key group (str "id")))) e); [|exact Ef].
    apply elem_of_memberships. by exists group.
Qed.

(** C40: imported documents. Importing never panics or runs out of fuel. A success
    is a version 4 document whose elements have a name, a known type and a
    positive size; its resources are the embedded bytes, each once, with their
    digests, and the resources that elements name are among them; groups and
    their children agree. *)
Theorem imported_document v :
  (forall bytes, length (sha256 bytes) = 32%nat) ->
  safe (fun doc => exists elements resources,
          at_key doc (str "version") = json_int 4 /\
          at_key doc (str "elements") = json_array elements /\ at_key doc (str "resources") = json_array resources /\
          Forall (element_ok resources) elements /\ resources_ok base64_encode sha256 resources /\ groups_agree elements)
    (import_value base64_decode base64_encode sha256 v).
Proof.
  intros Hlen. unfold import_value. destruct (negb _); [done|].
  apply (outcome_bind _ _ (fun _ => True)); [by apply safe_raising|]. intros width _.
  apply (outcome_bind _ _ (fun _ => True)); [by apply safe_raising|]. intros height _. cbn zeta.
  set (dpmm := default (f64_of_Z 8) _).
  eapply outcome_bind; [by apply flatten_roots_safe|]. intros legacy _.
  eapply outcome_bind; [by apply import_elements_safe|]. intros [elements resources] [Hrs Hes]. cbn [fst snd] in *.
  assert (Forall (element_ok resources) elements) as Hok by (eapply list.Forall_impl; [exact Hes|]; by intros e [? _]).
  assert (objects elements) as Hobj by (eapply list.Forall_impl; [exact Hok|]; by intros e [? _]).
  eapply outcome_bind; [apply certain_outcome, (set_groups_spec elements (memberships elements) [] elements)|].
  - by apply same_but_group_refl.
  - exact Hobj.
  - split; [|intros id g e H; by apply elem_of_nil in H]. intros e g Hin Eg.
    destruct (proj1 (list.Forall_forall _ _) Hes e Hin) as [_ Hnone]. by rewrite Hnone in Eg.
  - intros final [Hsame Hgrouped]. cbn [app] in Hgrouped. rewrite <- (same_memberships _ _ Hsame) in Hgrouped. cbn [outcome].
    assert (Forall (element_ok resources) final) as Hfinal.
    { clear -Hsame Hok. induction Hsame as [|e e' l l' He _ IH]; [constructor|]. apply Forall_cons_1 in Hok as [H Hok].
      constructor; [by apply (element_ok_same _ e)|by apply IH]. }
    exists final, resources. unfold document_of, at_key. rewrite !get_json_object. split_and!; try reflexivity.
    + exact Hfinal.
    + exact Hrs.
    + by apply (grouped_agree resources).
Qed.
End Document.
End Importing.

(** ** Examples *)

#[local] Existing Instance tree_json.
#[local] Existing Instance tree_lawful.

(** Base64 and SHA-256 replaced by functions that are enough for the examples. *)
Definition sample_decode (s : list Z) : option (list Z) := Some s.
Definition sample_encode (bytes : list Z) : list Z := bytes.
Definition sample_sha256 (bytes : list Z) : list Z := take 32 (bytes ++ replicate 32 0).

Definition text_member (key value : string) : list Z * Json := (str key, json_string (str value)).

Definition sample_v3 (elements : list Json) : Json :=
  json_object [(str "version", json_int 3); (str "widthMm", json_int 62); (str "heightMm", json_int 29); (str "elements", json_array elements)].

(** A group with an embedded image and a reference to a text. *)
Definition sample_elements : list Json :=
  [json_object [text_member "id" "title"; text_member "type" "text"; text_member "text" "Hello"];
   json_object [text_member "id" "box"; text_member "type" "group";
                (str "children", json_array [json_string (str "title"); json_object [text_member "type" "img"; text_member "imageData" "abc"]])]].

Definition group_of (e : Json) : list Z * Json := (default [] (as_str (at_key e (str "id"))), at_key e (str "groupId")).

Lemma imported_document_witness :
  exists doc elements resources,
    import_value sample_decode sample_encode sample_sha256 (sample_v3 sample_elements) = Ok doc /\
    at_key doc (str "elements") = json_array elements /\
    map group_of elements = [(str "title", json_string (str "box")); (str "box-child-1", json_string (str "box")); (str "box", json_null)] /\
    resources_ok sample_encode sample_sha256 resources /\ groups_agree elements.
Proof.
  pose proof (imported_document sample_decode sample_encode sample_sha256 (sample_v3 sample_elements)) as H.
  assert (forall bytes, length (sample_sha256 bytes) = 32%nat) as Hlen.
  { intros bytes. unfold sample_sha256. rewrite length_take, length_app, length_replicate. lia. }
  specialize (H Hlen).
  assert (match import_value sample_decode sample_encode sample_sha256 (sample_v3 sample_elements) with
          | Ok doc => map group_of (default [] (as_array (at_key doc (str "elements")))) =
                      [(str "title", json_string (str "box")); (str "box-child-1", json_string (str "box")); (str "box", json_null)]
          | Err _ => False
          end) as Hrun by (by vm_compute).
  destruct (import_value _ _ _ _) as [doc|[e|]]; [|done|done].
  destruct H as (elements & resources & _ & Ee & _ & _ & Hr & Hg). exists doc, elements, resources.
  rewrite Ee, as_array_array in Hrun. cbn [default from_option id] in Hrun. split_and!; [reflexivity|exact Ee|exact Hrun|exact Hr|exact Hg].
Defined.

(** The children that a group names by [elementIds] are lost: the flattening
    gives every group a member [children], which the import prefers. *)
Lemma element_ids_lost :
  let group := json_object [text_member "id" "box"; text_member "type" "group"; (str "elementIds", json_array [json_string (str "title")])] in
  match import_value sample_decode sample_encode sample_sha256 (sample_v3 (take 1 sample_elements ++ [group])) with
  | Ok doc =>
      map (fun e => (at_key e (str "children"), at_key e (str "groupId"))) (default [] (as_array (at_key doc (str "elements")))) =
      [(json_null, json_null); (json_array [], json_null)]
  | Err _ => False
  end.
Proof. by vm_compute. Qed.
