(* ===== verification/BrotherWifi.v ===== *)
(** Wireless settings of Brother printers
    (crates/mb-printer-core/src/protocol/brother/wifi.rs): the PJL commands
    that write and read OBJBRNET objects, the decoders of their replies, and
    the read-only plans. *)

From stdpp Require Import base list strings numbers option.
From S2P Require Import Prelude Text Capabilities ProtocolTypes.

#[local] Open Scope Z_scope.

Inductive WirelessError :=
| InvalidOid | EmptySsid | MissingPassword | InvalidOpenSecurity | UnknownEncryption | UnknownAuthentication.

(** ** Codes *)

Module WirelessEncryption.
Inductive t := None | Wep | Tkip | Aes | Ckip | Cmic | CkipCmic | TkipAes.

#[global] Instance eq_dec : EqDecision t.
Proof. solve_decision. Defined.

Definition code (e : t) : Z :=
  match e with
  | None => 1 | Wep => 2 | Tkip => 3 | Aes => 4 | Ckip => 5 | Cmic => 6 | CkipCmic => 7 | TkipAes => 8
  end.

Definition of_name (value : string) : Result WirelessError t :=
  (if value =? "none" then Ok None
   else if value =? "wep" then Ok Wep
   else if value =? "tkip" then Ok Tkip
   else if value =? "aes" then Ok Aes
   else if value =? "ckip" then Ok Ckip
   else if value =? "cmic" then Ok Cmic
   else if value =? "ckip-cmic" then Ok CkipCmic
   else if value =? "tkip-aes" then Ok TkipAes
   else Err UnknownEncryption)%string.

Definition of_code (value : Z) : Result WirelessError t :=
  match value with
  | 1 => Ok None | 2 => Ok Wep | 3 => Ok Tkip | 4 => Ok Aes
  | 5 => Ok Ckip | 6 => Ok Cmic | 7 => Ok CkipCmic | 8 => Ok TkipAes
  | _ => Err UnknownEncryption
  end.
End WirelessEncryption.

Module WirelessAuthentication.
Inductive t :=
| Open | SharedKey | WpaPsk | Leap | EapFast | Peap | EapTtls | EapTls | WpaOnly | Wpa2Only.

#[global] Instance eq_dec : EqDecision t.
Proof. solve_decision. Defined.

Definition code (a : t) : Z :=
  match a with
  | Open => 1 | SharedKey => 2 | WpaPsk => 3 | Leap => 7 | EapFast => 13
  | Peap => 15 | EapTtls => 16 | EapTls => 17 | WpaOnly => 18 | Wpa2Only => 19
  end.

Definition uses_psk (a : t) : bool :=
  match a with WpaPsk | WpaOnly | Wpa2Only => true | _ => false end.

Definition of_name (value : string) : Result WirelessError t :=
  (if value =? "open" then Ok Open
   else if value =? "shared-key" then Ok SharedKey
   else if value =? "wpa-psk" then Ok WpaPsk
   else if value =? "leap" then Ok Leap
   else if value =? "eap-fast" then Ok EapFast
   else if value =? "peap" then Ok Peap
   else if value =? "eap-ttls" then Ok EapTtls
   else if value =? "eap-tls" then Ok EapTls
   else if value =? "wpa-only" then Ok WpaOnly
   else if value =? "wpa2-only" then Ok Wpa2Only
   else Err UnknownAuthentication)%string.

Definition of_code (value : Z) : Result WirelessError t :=
  match value with
  | 1 => Ok Open | 2 => Ok SharedKey | 3 => Ok WpaPsk | 7 => Ok Leap | 13 => Ok EapFast
  | 15 => Ok Peap | 16 => Ok EapTtls | 17 => Ok EapTls | 18 => Ok WpaOnly | 19 => Ok Wpa2Only
  | _ => Err UnknownAuthentication
  end.
End WirelessAuthentication.

(** ** Commands *)

Definition CRLF : list Z := [13; 10].
Definition QUOTE : Z := 34.
Definition PJL_HEADER : list Z := 27 :: str "%-12345X@PJL" ++ CRLF.
Definition PJL_FOOTER : list Z := 27 :: str "%-12345X".
Definition REBOOT_COMMAND : list Z :=
  [0x1b; 0x69; 0x58; 0x2a; 0x31; 0x03; 0; 0x01; 0x2e; 0; 0; 0; 0x2c; 0].
Definition PASSWORD_KEY : list Z :=
  [0x0d; 0xae; 0xe4; 0xa1; 0x8b; 0x7f; 0x26; 0x5e; 0x72; 0x5b; 0x17; 0x7a; 0x71; 0xcd; 0xec; 0x4d].

Record WirelessSettings := {
  ssid : list Z;
  password : list Z;
  encryption : WirelessEncryption.t;
  authentication : WirelessAuthentication.t;
  infrastructure : bool;
  wireless_direct : bool;
  reboot : bool;
}.

(** The key byte for the password byte at an index. *)
Definition key_byte (i : nat) : Z := nth (i mod length PASSWORD_KEY) PASSWORD_KEY 0.

Definition xor_password (value : list Z) : list Z := imap (fun index byte => Z.lxor byte (key_byte index)) value.

Definition encode_ssid (value : list Z) : list Z := flat_map (fun byte => 45 :: show_hex_byte byte) value.

Definition flag (b : bool) : list Z := if b then str "1" else str "0".

(** What is written, in order: object identifiers and values. *)
Definition parameters (s : WirelessSettings) : list (list Z * list Z) :=
  [(str "458867", str "0"); (str "458878", str "1"); (str "458877", encode_ssid (ssid s))] ++
  (if WirelessAuthentication.uses_psk (authentication s) then [(str "99458890", xor_password (password s))]
   else if bool_decide (encryption s = WirelessEncryption.Wep)
   then [(str "99458889.1", xor_password (password s))] else []) ++
  [(str "458880", show_dec (WirelessEncryption.code (encryption s)));
   (str "458881", show_dec (WirelessAuthentication.code (authentication s)));
   (str "459138.2", flag (infrastructure s));
   (str "459138.3", flag (wireless_direct s));
   (str "458865", str "1")].

Definition assignment (oid value : list Z) : list Z :=
  str "@PJL DEFAULT OBJBRNET=" ++ [QUOTE] ++ oid ++ [58] ++ value ++ [QUOTE] ++ CRLF.

Definition settings_command (s : WirelessSettings) : Result WirelessError (list Z) :=
  if bool_decide (ssid s = []) then Err EmptySsid
  else if negb (bool_decide (authentication s = WirelessAuthentication.Open)) && bool_decide (password s = [])
  then Err MissingPassword
  else if bool_decide (authentication s = WirelessAuthentication.Open)
          && negb (bool_decide (encryption s = WirelessEncryption.None))
  then Err InvalidOpenSecurity
  else Ok (PJL_HEADER ++ flat_map (fun '(oid, value) => assignment oid value) (parameters s) ++ PJL_FOOTER ++
           (if reboot s then REBOOT_COMMAND else [])).

(** ** Queries *)

Inductive WirelessField := Connected | Ipv4 | Ssid | Encryption | Authentication | Infrastructure | WirelessDirect.

Definition WirelessField_ALL : list WirelessField :=
  [Connected; Ipv4; Ssid; Encryption; Authentication; Infrastructure; WirelessDirect].

Definition oid (f : WirelessField) : list Z :=
  match f with
  | Connected => str "458867"
  | Ipv4 => str "458967.2"
  | Ssid => str "458877"
  | Encryption => str "458880"
  | Authentication => str "458881"
  | Infrastructure => str "459138.2"
  | WirelessDirect => str "459138.3"
  end.

Definition all_digits (s : list Z) : bool := negb (bool_decide (s = [])) && forallb is_ascii_digit s.

Definition valid_oid (oid : list Z) : bool :=
  match split DOT oid with
  | [first] => all_digits first
  | [first; part] => all_digits first && all_digits part
  | _ => false
  end.

Definition inquire_command (oid : list Z) : Result WirelessError (list Z) :=
  if negb (valid_oid oid) then Err InvalidOid
  else Ok (PJL_HEADER ++ str "@PJL DEFAULT OBJBRNET=" ++ [QUOTE] ++ oid ++ [QUOTE] ++ CRLF ++
           str "@PJL INQUIRE OBJBRNET" ++ CRLF ++ PJL_FOOTER).

(** [expect]: a panic is an error of the model. *)
Definition field_command (f : WirelessField) : Result (Fault WirelessError) (list Z) :=
  match inquire_command (oid f) with Ok c => Ok c | Err _ => Err Panicked end.

Definition pjl (command : list Z) : list Z := PJL_HEADER ++ str "@PJL " ++ command ++ CRLF ++ PJL_FOOTER.

Definition wifi_scan_start_command : list Z :=
  pjl (str "DEFAULT OBJBRNET=" ++ [QUOTE] ++ str "458845:31-3a" ++ [QUOTE]).

Definition wifi_scan_result_command : list Z := pjl (str "INFO AVAILABLEWLAN").
Definition wifi_status_command : Result (Fault WirelessError) (list Z) := field_command Connected.
Definition ip_address_command : Result (Fault WirelessError) (list Z) := field_command Ipv4.

(** ** Replies *)

Definition hex_part (part : list Z) : bool :=
  negb (bool_decide (part = []) || (2 <? zlen part)) && forallb is_ascii_hexdigit part.

Definition decode_ssid (value : list Z) : list Z :=
  let parts := split 45 (trim_matches 45 value) in
  if (zlen parts <? 2) || negb (forallb hex_part parts) then value
  else
    match mapM (parse_hex u8_max) parts with
    | Some bytes => match from_utf8 bytes with Some s => s | None => value end
    | None => value
    end.

(** [text.split(['\r', '\n', '\u{c}'])]. *)
Definition is_line_break (b : Z) : bool := (b =? 13) || (b =? 10) || (b =? 12).
Definition reply_lines (text : list Z) : list (list Z) :=
  split 10 (map (fun b => if is_line_break b then 10 else b) text).

(** One line of a reply: the value if it is the object's. *)
Definition line_value (oid line : list Z) : option (list Z) :=
  let line := trim_start_matches QUOTE (trim line) in
  ' (name, value) ← split_once 58 line;
  if negb (bool_decide (trim name = oid)) then None else Some (trim_matches QUOTE (trim value)).

Definition find_map {A B} (f : A -> option B) : list A -> option B :=
  fix go l := match l with [] => None | a :: l => match f a with Some b => Some b | None => go l end end.

Definition parse_oid_value (data oid_ : list Z) : option (list Z) :=
  if negb (valid_oid oid_) then None
  else
    value ← find_map (line_value oid_) (reply_lines (from_utf8_lossy data));
    Some (if bool_decide (oid_ = oid Ssid) then decode_ssid value else value).

Definition parse_flag (value : list Z) : option bool :=
  if bool_decide (value = str "0") then Some false
  else if bool_decide (value = str "1") then Some true else None.

Definition parse_wifi_status (data : list Z) : option bool :=
  value ← parse_oid_value data (oid Connected); parse_flag (trim value).

Definition parse_ip_address (data : list Z) : option (list Z) :=
  value ← parse_oid_value data (oid Ipv4);
  octets ← mapM (parse_hex u8_max) (split 45 (trim_matches 45 value));
  if zlen octets =? 4 then Some (join DOT (map show_dec octets)) else None.

Definition parse_encryption (data : list Z) : option WirelessEncryption.t :=
  value ← parse_oid_value data (oid Encryption);
  code ← parse_unsigned u8_max (trim value);
  result_ok (WirelessEncryption.of_code code).

Definition parse_authentication (data : list Z) : option WirelessAuthentication.t :=
  value ← parse_oid_value data (oid Authentication);
  code ← parse_unsigned u8_max (trim value);
  result_ok (WirelessAuthentication.of_code code).

Definition parse_boolean_field (data : list Z) (field : WirelessField) : option bool :=
  match field with
  | Connected | Infrastructure | WirelessDirect =>
      value ← parse_oid_value data (oid field); parse_flag (trim value)
  | _ => None
  end.

(** ** Access points *)

Record AccessPoint := {
  ap_ssid : list Z;
  channel : Z;
  power : Z;
  enterprise : bool;
  encrypted : bool;
}.

(** The loop over the characters of a line; a quote while quoted looks at the
    next character. *)
Fixpoint csv_loop (characters : list Z) (fields : list (list Z)) (field : list Z) (quoted : bool) : list (list Z) :=
  match characters with
  | [] => fields ++ [field]
  | c :: rest =>
      if (c =? QUOTE) && quoted then
        match rest with
        | d :: rest' =>
            if d =? QUOTE then csv_loop rest' fields (field ++ [QUOTE]) quoted
            else csv_loop rest fields field false
        | [] => csv_loop rest fields field false
        end
      else if c =? QUOTE then csv_loop rest fields field true
      else if (c =? 44) && negb quoted then csv_loop rest (fields ++ [field]) [] quoted
      else csv_loop rest fields (field ++ [c]) quoted
  end.

Definition csv_fields (line : list Z) : list (list Z) := csv_loop line [] [] false.

Definition parse_access_point (line : list Z) : option AccessPoint :=
  match csv_fields line with
  | f0 :: f1 :: _ :: _ :: f4 :: f5 :: f6 :: f7 :: _ =>
      if negb (bool_decide (trim f0 = str "VAP")) then None
      else
        channel ← parse_unsigned u8_max (trim f4);
        power ← parse_signed i16_min i16_max (trim f5);
        Some {| ap_ssid := decode_ssid (trim f1);
                channel := channel;
                power := power;
                enterprise := bool_decide (trim f6 = str "3");
                encrypted := bool_decide (trim f7 = str "2") |}
  | _ => None
  end.

Definition parse_access_points (data : list Z) : list AccessPoint :=
  omap parse_access_point (lines (without_nul (from_utf8_lossy data))).

(** ** Plans *)

Definition command (name : string) (bytes : list Z) : Action := CommandWrite name bytes true.

Definition wireless_field_plan (field : WirelessField) : Result (Fault WirelessError) Plan :=
  let? bytes := field_command field in
  Ok {| plan_protocol := Brother;
        source_commit := SOURCE_COMMIT;
        actions := [command "Brother OBJBRNET inquire" bytes;
                    CollectResponse 2000 200 (4 * 1024) BrotherObjbrnet] |}.

Fixpoint field_actions (fields : list WirelessField) : Result (Fault WirelessError) (list Action) :=
  match fields with
  | [] => Ok []
  | field :: fields =>
      let? plan := wireless_field_plan field in
      let? rest := field_actions fields in
      Ok (actions plan ++ rest)
  end.

Definition wireless_status_plan : Result (Fault WirelessError) Plan :=
  let? actions := field_actions WirelessField_ALL in
  Ok {| plan_protocol := Brother; source_commit := SOURCE_COMMIT; actions := actions |}.

Definition wireless_scan_plan : Plan := {|
  plan_protocol := Brother;
  source_commit := SOURCE_COMMIT;
  actions := [command "Brother WLAN scan start" wifi_scan_start_command;
              Delay 5000;
              command "Brother WLAN scan results" wifi_scan_result_command;
              CollectResponse 8000 300 (16 * 1024) BrotherWifiScan];
|}.
