(* ===== verification/BrotherWifiFacts.v ===== *)
(** Properties of the wireless settings codec (BrotherWifi.v): what is written
    can be read back. *)

From stdpp Require Import base strings numbers option sets list.
From S2P Require Import Prelude Text Capabilities ProtocolTypes BrotherWifi.

#[local] Open Scope Z_scope.

(** ** Codes *)

Lemma encryption_code_of_code e : WirelessEncryption.of_code (WirelessEncryption.code e) = Ok e.
Proof. by destruct e. Qed.

Lemma authentication_code_of_code a : WirelessAuthentication.of_code (WirelessAuthentication.code a) = Ok a.
Proof. by destruct a. Qed.

Lemma encryption_code_bound e : 0 <= WirelessEncryption.code e <= u8_max.
Proof. destruct e; done. Qed.

Lemma authentication_code_bound a : 0 <= WirelessAuthentication.code a <= u8_max.
Proof. destruct a; done. Qed.

(** The password cipher is its own inverse. *)
Lemma xor_password_involutive p : xor_password (xor_password p) = p.
Proof.
  apply list_eq. intros i. unfold xor_password. rewrite !list_lookup_imap.
  destruct (p !! i) as [b|]; [|done]. cbn. f_equal.
  by rewrite Z.lxor_assoc, Z.lxor_nilpotent, Z.lxor_0_r.
Qed.

(** ** Hexadecimal SSIDs *)

Lemma show_hex_byte_facts b : byte_ok b ->
  hex_part (show_hex_byte b) = true /\ parse_hex u8_max (show_hex_byte b) = Some b /\
  Forall (fun c => is_ascii_alphanumeric c = true) (show_hex_byte b).
Proof.
  intros Hb.
  pose proof (byte_forall (fun b => hex_part (show_hex_byte b)
    && bool_decide (parse_hex u8_max (show_hex_byte b) = Some b)
    && forallb is_ascii_alphanumeric (show_hex_byte b)) eq_refl b Hb) as H.
  apply andb_true_iff in H as [[H1 H2]%andb_true_iff H3].
  rewrite bool_decide_eq_true in H2. rewrite forallb_forall in H3.
  split_and!; [done|done|]. by apply List.Forall_forall.
Qed.

Lemma alphanumeric_ne b c : is_ascii_alphanumeric b = true -> is_ascii_alphanumeric c = false -> b <> c.
Proof. congruence. Qed.

Lemma encode_ssid_join b s : encode_ssid (b :: s) = 45 :: join 45 (map show_hex_byte (b :: s)).
Proof.
  revert b. induction s as [|c s IH]; intros b.
  - cbn [encode_ssid flat_map map join]. by rewrite app_nil_r.
  - change (encode_ssid (b :: c :: s)) with ((45 :: show_hex_byte b) ++ encode_ssid (c :: s)).
    by rewrite IH.
Qed.

Lemma join_head sep piece pieces x : head piece = Some x -> head (join sep (piece :: pieces)) = Some x.
Proof. intros H. destruct pieces; [done|]. by destruct piece. Qed.

Lemma join_last sep pieces piece x : last piece = Some x -> last (join sep (pieces ++ [piece])) = Some x.
Proof.
  intros H. induction pieces as [|p pieces IH]; [done|]. cbn [app].
  destruct (pieces ++ [piece]) as [|q qs] eqn:E; [by destruct pieces|].
  change (join sep (p :: q :: qs)) with (p ++ sep :: join sep (q :: qs)).
  rewrite last_app, last_cons, IH. done.
Qed.

Lemma hex_no_dash b : byte_ok b -> 45 ∉ show_hex_byte b.
Proof.
  intros Hb Hin. destruct (show_hex_byte_facts b Hb) as (_ & _ & H).
  rewrite list.Forall_forall in H. by apply H in Hin.
Qed.

Lemma hex_nonempty b : exists x l y k, show_hex_byte b = x :: l /\ show_hex_byte b = k ++ [y].
Proof.
  unfold show_hex_byte. destruct (b <? 16).
  - by eexists _, [], _, [].
  - by eexists _, [_], _, [_].
Qed.

Lemma encode_ssid_split s :
  bytes_ok s -> s <> [] -> split 45 (trim_matches 45 (encode_ssid s)) = map show_hex_byte s.
Proof.
  intros Hs Hne. destruct s as [|b s]; [done|]. rewrite encode_ssid_join. unfold trim_matches.
  cbn [trim_start_matches]. rewrite Z.eqb_refl.
  assert (Forall (fun p => 45 ∉ p) (map show_hex_byte (b :: s))) as Hp.
  { apply Forall_map. eapply Forall_impl; [exact Hs|]. intros c Hc. by apply hex_no_dash. }
  assert (head (join 45 (map show_hex_byte (b :: s))) <> Some 45) as Hh.
  { destruct (hex_nonempty b) as (x & l & _ & _ & E & _). cbn [map].
    rewrite (join_head _ _ _ x) by by rewrite E.
    intros [= ->]. apply (hex_no_dash b); [by inversion Hs|]. rewrite E. left. }
  assert (last (join 45 (map show_hex_byte (b :: s))) <> Some 45) as Hl.
  { destruct (exists_last (l := b :: s)) as (s' & c & Es); [done|].
    rewrite Es in Hs |- *. rewrite map_app.
    destruct (hex_nonempty c) as (_ & _ & y & k & _ & E). cbn [map].
    rewrite (join_last _ _ _ y) by by rewrite E, last_snoc.
    intros [= ->]. apply (hex_no_dash c); [apply Forall_app in Hs as [_ Hs]; by inversion Hs|].
    rewrite E. apply elem_of_app. right. left. }
  rewrite trim_start_matches_id, trim_end_matches_id by done. by apply split_join.
Qed.

(** An SSID of at least two bytes is read back. *)
Lemma decode_encode_ssid s :
  bytes_ok s -> utf8_valid s = true -> 2 <= zlen s -> decode_ssid (encode_ssid s) = s.
Proof.
  intros Hs Hu Hl. unfold decode_ssid. rewrite encode_ssid_split by (done || by intros ->). rewrite zlen_map.
  destruct (Z.ltb_spec (zlen s) 2); [lia|]. cbn [orb].
  assert (forallb hex_part (map show_hex_byte s) = true) as ->.
  { apply forallb_forall, List.Forall_forall, Forall_map. eapply Forall_impl; [exact Hs|].
    intros b Hb. by apply show_hex_byte_facts. }
  assert (mapM (parse_hex u8_max) (map show_hex_byte s) = Some s) as ->.
  { apply mapM_Some. clear Hu Hl H. induction Hs as [|b s Hb Hs IH]; constructor; [|done].
    by apply show_hex_byte_facts. }
  cbn [negb]. unfold from_utf8. by rewrite Hu.
Qed.

(** A one-byte SSID is not: the decoder wants two parts. *)
Example one_byte_ssid_not_decoded : decode_ssid (encode_ssid (str "A")) = str "-41".
Proof. reflexivity. Qed.

(** ** A printer's reply *)

(** The reply that reports objects: a header and one quoted line for each. *)
Definition reply_line (entry : list Z * list Z) : list Z :=
  [QUOTE] ++ entry.1 ++ [58] ++ entry.2 ++ [QUOTE] ++ CRLF.

Definition printer_reply (entries : list (list Z * list Z)) : list Z :=
  str "@PJL INFO OBJBRNET" ++ CRLF ++ flat_map reply_line entries.

Definition value_char (b : Z) : Prop := graphic b /\ b <> QUOTE.
Definition oid_char (b : Z) : Prop := value_char b /\ b <> 58.

Definition entry_ok (entry : list Z * list Z) : Prop :=
  entry.1 <> [] /\ Forall oid_char entry.1 /\ Forall value_char entry.2.

Lemma Forall_not_in {A} (P : A -> Prop) x s : ~ P x -> Forall P s -> x ∉ s.
Proof. intros Hx Hs Hin. rewrite list.Forall_forall in Hs. by apply Hx, Hs. Qed.

Lemma value_char_graphic s : Forall value_char s -> Forall graphic s.
Proof. intros H. eapply Forall_impl; [exact H|]. by intros b []. Qed.

Lemma oid_char_value s : Forall oid_char s -> Forall value_char s.
Proof. intros H. eapply Forall_impl; [exact H|]. by intros b []. Qed.

#[local] Hint Resolve value_char_graphic oid_char_value : core.

Lemma quote_graphic : graphic QUOTE.
Proof. unfold graphic, QUOTE. lia. Qed.

Lemma line_value_entry o entry :
  entry_ok entry ->
  line_value o ([QUOTE] ++ entry.1 ++ [58] ++ entry.2 ++ [QUOTE]) = if decide (entry.1 = o) then Some entry.2 else None.
Proof.
  destruct entry as [o' v]. cbn [fst snd]. intros (Hne & Ho & Hv). cbn [fst snd] in *.
  assert (Forall graphic (v ++ [QUOTE])) as Hvq.
  { apply Forall_app. split; [auto|]. constructor; [apply quote_graphic|done]. }
  unfold line_value. rewrite trim_graphic.
  2: { constructor; [apply quote_graphic|]. apply Forall_app; split; [auto|]. constructor; [unfold graphic; lia|done]. }
  cbn [app trim_start_matches]. rewrite Z.eqb_refl.
  assert (QUOTE ∉ o') as Hq by (eapply Forall_not_in; [|exact Ho]; by intros [[]]).
  rewrite trim_start_matches_id.
  2: { destruct o' as [|b o']; [done|]. apply not_in_head in Hq. by destruct v. }
  rewrite split_once_app by (eapply Forall_not_in; [|exact Ho]; by intros []).
  cbn [mbind option_bind fst snd]. rewrite trim_graphic by auto.
  case_decide; [rewrite bool_decide_true by done|by rewrite bool_decide_false by done].
  cbn [negb]. f_equal. rewrite trim_graphic by done.
  destruct v as [|b v]; [done|].
  assert (QUOTE ∉ b :: v) as Hqv by (eapply Forall_not_in; [|exact Hv]; by intros []).
  unfold trim_matches, trim_end_matches. rewrite (trim_start_matches_id QUOTE ((b :: v) ++ [QUOTE])) by exact (not_in_head _ _ Hqv).
  rewrite reverse_snoc. cbn [trim_start_matches]. rewrite Z.eqb_refl.
  rewrite trim_start_matches_id; [apply reverse_involutive|]. rewrite head_reverse. by apply not_in_last.
Qed.

Lemma find_map_cons {A B} (f : A -> option B) a l :
  find_map f (a :: l) = match f a with Some b => Some b | None => find_map f l end.
Proof. done. Qed.

(** The value reported for an object: that of the first line that names it. *)
Definition reported (o : list Z) (entries : list (list Z * list Z)) : option (list Z) :=
  find_map (fun entry => if decide (entry.1 = o) then Some entry.2 else None) entries.

Lemma value_char_entry entry : entry_ok entry -> Forall graphic ([QUOTE] ++ entry.1 ++ [58] ++ entry.2 ++ [QUOTE]).
Proof.
  intros (_ & Ho & Hv). pose proof quote_graphic. rewrite !Forall_app, !Forall_singleton. split_and!; auto; unfold graphic; lia.
Qed.

(** A line of graphic characters is one piece of the reply. *)
Lemma map_break_graphic s :
  Forall (fun b => 32 <= b <= 126) s -> map (fun b => if is_line_break b then 10 else b) s = s.
Proof.
  unfold is_line_break. induction 1 as [|b s Hb Hs IH]; [done|]. cbn [map]. rewrite IH.
  destruct (Z.eqb_spec b 13), (Z.eqb_spec b 10), (Z.eqb_spec b 12); (lia || done).
Qed.

Lemma reply_lines_cons s t :
  Forall (fun b => 32 <= b <= 126) s -> reply_lines (s ++ CRLF ++ t) = s :: [] :: reply_lines t.
Proof.
  intros Hs. unfold reply_lines. rewrite map_app, map_break_graphic by done.
  change (map _ (CRLF ++ t)) with (10 :: 10 :: map (fun b => if is_line_break b then 10 else b) t).
  rewrite split_app; [reflexivity|]. eapply Forall_not_in; [|exact Hs]. cbn. lia.
Qed.

Lemma reply_line_split entry :
  reply_line entry = ([QUOTE] ++ entry.1 ++ [58] ++ entry.2 ++ [QUOTE]) ++ CRLF.
Proof. unfold reply_line. by rewrite <- !app_assoc. Qed.

Lemma reply_lines_entries o entries :
  Forall entry_ok entries ->
  find_map (line_value o) (reply_lines (flat_map reply_line entries)) = reported o entries.
Proof.
  induction 1 as [|entry entries He Hes IH]; [done|]. cbn [flat_map].
  rewrite reply_line_split, <- app_assoc.
  rewrite reply_lines_cons.
  2: { eapply Forall_impl; [by apply value_char_entry|]. unfold graphic. cbn. lia. }
  unfold reported. rewrite !find_map_cons, (line_value_entry o entry He). case_decide; [done|]. exact IH.
Qed.

Lemma ascii_reply entries : Forall entry_ok entries -> Forall (fun b => 0 <= b < 128) (printer_reply entries).
Proof.
  intros He. unfold printer_reply. apply Forall_app. split; [by repeat constructor|].
  apply Forall_app. split; [by repeat constructor|].
  induction He as [|entry entries He Hes IH]; [constructor|]. cbn [flat_map]. apply Forall_app. split; [|done].
  rewrite reply_line_split. apply Forall_app. split; [|by repeat constructor].
  eapply Forall_impl; [by apply value_char_entry|]. unfold graphic. cbn. lia.
Qed.

(** Parsing a reply gives the value reported for the object, decoded when it is
    an SSID. *)
Lemma parse_reply entries o :
  Forall entry_ok entries -> valid_oid o = true ->
  parse_oid_value (printer_reply entries) o =
  (fun v => if bool_decide (o = oid Ssid) then decode_ssid v else v) <$> reported o entries.
Proof.
  intros He Ho. unfold parse_oid_value. rewrite Ho. cbn [negb]. rewrite lossy_ascii by by apply ascii_reply.
  unfold printer_reply. rewrite reply_lines_cons by (vm_compute; repeat (constructor; [done|]); constructor).
  rewrite !find_map_cons. replace (line_value o (str "@PJL INFO OBJBRNET")) with (@None (list Z)) by reflexivity.
  change (line_value o []) with (@None (list Z)). cbv beta iota. rewrite reply_lines_entries by done.
  by destruct (reported o entries).
Qed.

(** ** What a printer reads *)

(** A printer reads a settings command as lines between the header and the
    escape that leaves PJL; each line assigns a quoted value to an object. *)
Definition read_assignment (line : list Z) : option (list Z * list Z) :=
  line ← strip_suffix line [13];
  line ← (if bool_decide (13 ∈ line) then None else strip_prefix line (str "@PJL DEFAULT OBJBRNET=" ++ [QUOTE]));
  ' (oid, value) ← split_once 58 line;
  value ← strip_suffix value [QUOTE];
  if bool_decide (QUOTE ∈ value) then None else Some (oid, value).

Fixpoint read_lines (fuel : nat) (s : list Z) : option (list (list Z * list Z)) :=
  if starts_with PJL_FOOTER s then Some []
  else
    match fuel with
    | O => None
    | S fuel =>
        ' (line, rest) ← split_once 10 s;
        entry ← read_assignment line;
        entries ← read_lines fuel rest;
        Some (entry :: entries)
    end.

Definition read_assignments (command : list Z) : option (list (list Z * list Z)) :=
  s ← strip_prefix command PJL_HEADER; read_lines (length s) s.

(** A value that cannot end its line or its quotes. *)
Definition line_safe (value : list Z) : Prop := (QUOTE ∉ value) /\ (13 ∉ value) /\ (10 ∉ value).

Definition assignable (entry : list Z * list Z) : Prop := Forall oid_char entry.1 /\ line_safe entry.2.

Lemma oid_char_not_in c s : ~ oid_char c -> Forall oid_char s -> c ∉ s.
Proof. apply Forall_not_in. Qed.

Lemma not_oid_char c : c ∈ [10; 13; 34; 58] -> ~ oid_char c.
Proof. unfold oid_char, value_char, graphic, QUOTE. intros Hc. set_unfold in Hc. lia. Qed.

Lemma read_assignment_line oid value :
  assignable (oid, value) ->
  read_assignment ((str "@PJL DEFAULT OBJBRNET=" ++ [QUOTE]) ++ oid ++ 58 :: value ++ [QUOTE; 13]) = Some (oid, value).
Proof.
  intros [Ho (Hq & Hr & _)]. cbn [fst snd] in *. unfold read_assignment.
  set (prefix := str "@PJL DEFAULT OBJBRNET=" ++ [QUOTE]).
  assert (13 ∉ oid) as Ho13 by (eapply oid_char_not_in; [apply not_oid_char; set_solver|done]).
  rewrite (proj2 (strip_suffix_Some _ [13] (prefix ++ oid ++ 58 :: value ++ [QUOTE]))).
  2: { rewrite <- !app_assoc, <- app_comm_cons, <- !app_assoc. done. }
  cbn [mbind option_bind]. rewrite bool_decide_false.
  2: { assert (13 ∉ prefix) as Hp by (apply (bool_decide_unpack _); done). unfold QUOTE in *. set_solver. }
  rewrite strip_prefix_app. cbn [mbind option_bind]. rewrite split_once_app.
  2: { eapply oid_char_not_in; [apply not_oid_char; set_solver|done]. }
  cbn [mbind option_bind]. rewrite (proj2 (strip_suffix_Some _ _ value)) by done. cbn. by rewrite bool_decide_false.
Qed.

Lemma assignment_line oid value rest :
  assignment oid value ++ rest =
  ((str "@PJL DEFAULT OBJBRNET=" ++ [QUOTE]) ++ oid ++ 58 :: value ++ [QUOTE; 13]) ++ 10 :: rest.
Proof.
  unfold assignment, CRLF. rewrite <- !app_assoc. do 3 f_equal. cbn. f_equal. by rewrite <- !app_assoc.
Qed.

Lemma read_lines_commands fuel entries rest :
  (length entries <= fuel)%nat -> Forall assignable entries ->
  read_lines fuel (flat_map (fun '(oid, value) => assignment oid value) entries ++ PJL_FOOTER ++ rest) = Some entries.
Proof.
  intros Hf He. revert fuel Hf. induction He as [|[o v] entries He Hes IH]; intros fuel Hf.
  { cbn [flat_map app]. destruct fuel; cbn [read_lines]; by rewrite starts_with_app. }
  destruct fuel as [|fuel]; [cbn in Hf; lia|]. cbn [flat_map]. rewrite <- app_assoc, assignment_line.
  cbn [read_lines]. assert (starts_with PJL_FOOTER _ = false) as -> by reflexivity.
  rewrite split_once_app.
  2: { destruct He as [Ho (_ & _ & Hn)]. cbn [fst snd] in *.
       assert (10 ∉ o) by (eapply oid_char_not_in; [apply not_oid_char; set_solver|done]).
       assert (10 ∉ str "@PJL DEFAULT OBJBRNET=" ++ [QUOTE]) as Hp by (apply (bool_decide_unpack _); done).
       unfold QUOTE in *. set_solver. }
  cbn [mbind option_bind]. rewrite read_assignment_line by done. cbn [mbind option_bind].
  rewrite IH by (done || (cbn in Hf; lia)). done.
Qed.

(** ** Settings read back *)

Lemma encode_ssid_chars s : bytes_ok s -> Forall value_char (encode_ssid s).
Proof.
  intros Hs. unfold encode_ssid. induction Hs as [|b s Hb Hs IH]; [constructor|]. cbn [flat_map].
  constructor; [unfold value_char, graphic, QUOTE; lia|]. apply Forall_app. split; [|done].
  destruct (show_hex_byte_facts b Hb) as (_ & _ & H). eapply Forall_impl; [exact H|].
  unfold is_ascii_alphanumeric, is_ascii_alphabetic, is_ascii_lowercase, is_ascii_uppercase, is_ascii_digit,
    value_char, graphic, QUOTE. cbn. intros c Hc. lia.
Qed.

Lemma value_char_safe v : Forall value_char v -> line_safe v.
Proof.
  intros Hv. split_and!; (eapply Forall_not_in; [|exact Hv]; unfold value_char, graphic, QUOTE; lia).
Qed.

(** Literals are checked by evaluation. *)
Definition value_charb (b : Z) : bool := between 33 126 b && negb (b =? QUOTE).

Lemma value_charb_spec s : forallb value_charb s = true -> Forall value_char s.
Proof.
  rewrite forallb_forall, List.Forall_forall. intros H b Hb. specialize (H b Hb).
  unfold value_charb, between, value_char, graphic in *. blia.
Qed.

Definition oid_charb (b : Z) : bool := value_charb b && negb (b =? 58).

Lemma oid_charb_spec s : forallb oid_charb s = true -> Forall oid_char s.
Proof.
  rewrite forallb_forall, List.Forall_forall. intros H b Hb. specialize (H b Hb).
  unfold oid_charb, value_charb, between, oid_char, value_char, graphic in *. blia.
Qed.

(** Parameters: all but the password are plain text. *)
Definition uses_password (s : WirelessSettings) : bool :=
  WirelessAuthentication.uses_psk (authentication s) || bool_decide (encryption s = WirelessEncryption.Wep).

Lemma parameters_assignable s :
  bytes_ok (ssid s) -> (uses_password s = true -> line_safe (xor_password (password s))) ->
  Forall assignable (parameters s).
Proof.
  intros Hs Hp. unfold parameters.
  assert (forall o v, forallb oid_charb o = true -> forallb value_charb v = true -> assignable (o, v)) as Hlit.
  { intros o v Ho Hv. split; [by apply oid_charb_spec|]. by apply value_char_safe, value_charb_spec. }
  assert (assignable (str "458877", encode_ssid (ssid s))) as Hssid.
  { split; [by apply oid_charb_spec|]. by apply value_char_safe, encode_ssid_chars. }
  rewrite !Forall_app. split_and!.
  - rewrite !Forall_cons. split_and!; [by apply Hlit|by apply Hlit|done|constructor].
  - unfold uses_password in Hp. destruct (WirelessAuthentication.uses_psk _); cbn [orb] in Hp;
      [|case_bool_decide; [|constructor]]; (constructor; [|constructor]);
      (split; [by apply oid_charb_spec|by apply Hp]).
  - rewrite !Forall_cons. split_and!; try apply Hlit; try done; try apply List.Forall_nil;
      [by destruct (encryption s)|by destruct (authentication s)|by destruct (infrastructure s)|by destruct (wireless_direct s)].
Qed.

(** The objects a printer reports: the fields that can be queried. *)
Definition is_field (entry : list Z * list Z) : bool :=
  existsb (fun f => bool_decide (entry.1 = oid f)) WirelessField_ALL.

Lemma parameters_fields s :
  List.filter is_field (parameters s) =
  [(str "458867", str "0"); (str "458877", encode_ssid (ssid s));
   (str "458880", show_dec (WirelessEncryption.code (encryption s)));
   (str "458881", show_dec (WirelessAuthentication.code (authentication s)));
   (str "459138.2", flag (infrastructure s)); (str "459138.3", flag (wireless_direct s))].
Proof.
  unfold parameters. destruct (WirelessAuthentication.uses_psk _); [reflexivity|].
  case_bool_decide; reflexivity.
Qed.

Lemma fields_ok s : bytes_ok (ssid s) -> Forall entry_ok (List.filter is_field (parameters s)).
Proof.
  intros Hs. rewrite parameters_fields.
  assert (forall o v, o <> [] -> forallb oid_charb o = true -> Forall value_char v -> entry_ok (o, v)) as H.
  { intros o v Hne Ho Hv. split_and!; [done|by apply oid_charb_spec|done]. }
  rewrite !Forall_cons. split_and!; try (apply H; [done|done|]); try (by apply encode_ssid_chars); try apply List.Forall_nil;
    apply value_charb_spec;
    [done|by destruct (encryption s)|by destruct (authentication s)|by destruct (infrastructure s)|by destruct (wireless_direct s)].
Qed.

(** What is written can be read back: the command for settings whose
    password has no quote or line break once it is enciphered makes a printer
    assign exactly the parameters, and from the fields it then reports the
    library reads the SSID, encryption, authentication and interfaces that were
    set. The password is recovered from its parameter. *)
Theorem wireless_settings_read_back s command :
  settings_command s = Ok command -> bytes_ok (ssid s) -> utf8_valid (ssid s) = true -> 2 <= zlen (ssid s) ->
  (uses_password s = true -> line_safe (xor_password (password s))) ->
  exists written,
    read_assignments command = Some written /\
    (WirelessAuthentication.uses_psk (authentication s) = true ->
     xor_password <$> reported (str "99458890") written = Some (password s)) /\
    (let reply := printer_reply (List.filter is_field written) in
     parse_oid_value reply (oid Ssid) = Some (ssid s) /\
     parse_encryption reply = Some (encryption s) /\
     parse_authentication reply = Some (authentication s) /\
     parse_boolean_field reply Infrastructure = Some (infrastructure s) /\
     parse_boolean_field reply WirelessDirect = Some (wireless_direct s)).
Proof.
  intros Hc Hs Hu Hl Hp. exists (parameters s). split_and!.
  - unfold settings_command in Hc. inv_ok Hc. subst command. unfold read_assignments. rewrite strip_prefix_app.
    cbn [mbind option_bind]. apply read_lines_commands; [|by apply parameters_assignable].
    rewrite length_app. assert (forall l, length l <= length (flat_map (fun '(o, v) => assignment o v) l))%nat as H.
    { induction l as [|[o v] l IH]; [done|]. cbn [flat_map length]. rewrite length_app.
      assert (1 <= length (assignment o v))%nat by (unfold assignment; cbn; lia). lia. }
    specialize (H (parameters s)). lia.
  - intros E. unfold parameters. rewrite E.
    change (Some (xor_password (xor_password (password s))) = Some (password s)). by rewrite xor_password_involutive.
  - intros reply. unfold parse_encryption, parse_authentication, parse_boolean_field, reply.
    rewrite !parse_reply by (done || by apply fields_ok). rewrite parameters_fields. split_and!.
    + change (Some (decode_ssid (encode_ssid (ssid s))) = Some (ssid s)). by rewrite decode_encode_ssid.
    + by destruct (encryption s).
    + by destruct (authentication s).
    + by destruct (infrastructure s).
    + by destruct (wireless_direct s).
Qed.

Definition example_settings (password : list Z) : WirelessSettings := {|
  ssid := str "Caf" ++ [0xc3; 0xa9]; password := password;
  encryption := WirelessEncryption.TkipAes; authentication := WirelessAuthentication.WpaPsk;
  infrastructure := true; wireless_direct := false; reboot := true |}.

Lemma wireless_settings_read_back_witness :
  exists written,
    read_assignments (default [] (result_ok (settings_command (example_settings (str "secret"))))) = Some written /\
    parse_oid_value (printer_reply (List.filter is_field written)) (oid Ssid) = Some (str "Caf" ++ [0xc3; 0xa9]).
Proof.
  destruct (settings_command (example_settings (str "secret"))) as [c|e] eqn:E; [|vm_compute in E; discriminate E].
  destruct (wireless_settings_read_back (example_settings (str "secret")) c) as (w & Hw & _ & Hs & _).
  - exact E.
  - apply Forall_app. split; [apply str_ok|]. repeat (constructor; [unfold byte_ok; lia|]). constructor.
  - reflexivity.
  - vm_compute. discriminate.
  - intros _. unfold line_safe. split_and!; apply (bool_decide_unpack _); reflexivity.
  - exists w. split; [exact Hw|exact Hs].
Defined.

(** The enciphered password is not escaped: one that starts with a slash puts
    a quote into the command, which then no longer reads as an assignment. *)
Example password_with_slash_breaks_command :
  (command ← result_ok (settings_command (example_settings (str "/secret"))); read_assignments command) = None.
Proof. vm_compute. reflexivity. Qed.

(** Replies of the repository's tests. *)
Definition example_reply : list Z :=
  printer_reply [(str "458867 ", str " 1"); (str "458967.2", str "-c0-a8-01-32"); (str "458880", str "8")].

Example status_of_example : parse_wifi_status example_reply = Some true.
Proof. vm_compute. reflexivity. Qed.

Example address_of_example : parse_ip_address example_reply = Some (str "192.168.1.50").
Proof. vm_compute. reflexivity. Qed.

Example access_points_of_example :
  map (fun ap => (ap_ssid ap, channel ap, power ap, enterprise ap, encrypted ap))
    (parse_access_points (str "VAP," ++ [QUOTE] ++ str "-43-61-66-c3-a9" ++ [QUOTE] ++ str ",x,x,6,-42,3,2" ++ CRLF ++
      str "VAP," ++ [QUOTE] ++ str "Cafe, west" ++ [QUOTE] ++ str ",x,x,11,87,0,2" ++ CRLF ++ str "bad,row" ++ CRLF)) =
  [(str "Caf" ++ [0xc3; 0xa9], 6, -42, true, true); (str "Cafe, west", 11, 87, false, true)].
Proof. vm_compute. reflexivity. Qed.
