(* ===== verification/BrotherSettings.v ===== *)
(** Read-only retrieval of the settings of a Brother label printer over a
    transport: the device settings of the Printer Setting Tool
    (crates/mb-printer-native/src/brother_device_settings.rs) and the wireless
    settings over PJL (brother_settings.rs).

    The transport is any instance of the executor's type class. How many
    responses a loop may read before it gives up is the fuel; the code has no
    such limit. *)

From stdpp Require Import base list strings numbers option.
From S2P Require Import Prelude Text Effects Transport Administration BrotherWifi Executor.

#[local] Open Scope Z_scope.

(** ** Calls of the transport *)

(** [TransportErrorKind]'s and [TransportError]'s [Display]. *)
Definition kind_name (k : TransportErrorKind) : list Z :=
  match k with
  | Connection => str "connection"
  | Disconnected => str "disconnected"
  | Unsupported => str "unsupported"
  | InvalidConfiguration => str "invalid configuration"
  | PermissionDenied => str "permission denied"
  | KindTimeout => str "timeout"
  | KindCancelled => str "cancelled"
  | Io => str "I/O"
  end.

Definition transport_error_text (e : TransportError) : list Z := kind_name (kind e) ++ str ": " ++ str (message e).

Definition DRAIN_TIMEOUT_MS : Z := 200.
Definition MAX_DRAIN_BYTES : Z := 32 * 1024.

Section Calls.
Context {T : Type} `{Transport T, Clock T}.

(** A method that borrows the transport, and [operation.await]. *)
Definition borrow {E A} (f : T -> A * T) : EM T E A := fun t => let '(a, t) := f t in (Ok a, t).
Definition await {E A} (operation : TransportFuture T A) : EM T E A := borrow (complete operation).

(** [operation.await.map_err(|error| error.to_string())?]. *)
Definition await_text {A} (operation : TransportFuture T (Result TransportError A)) : EM T (list Z) A :=
  let! result := await operation in
  eresult (map_err transport_error_text result).

(** [started.elapsed()]. *)
Definition elapsed {E} (started : Z) : EM T E Z :=
  let! current := borrow now in eret (Z.max 0 (current - started)).

(** The wait that is left of a deadline, in whole milliseconds, at least one. *)
Definition remaining_wait {E} (deadline started : Z) : EM T E Z :=
  let! spent := elapsed started in
  let remaining := Z.max 0 (deadline - spent) in
  eret (from_millis (Z.max 1 (if remaining / 1000000 <=? u64_max then remaining / 1000000 else u64_max))).

Fixpoint drain_loop (fuel : nat) (drained : Z) : EM T (list Z) unit :=
  match fuel with
  | O => epanic
  | S fuel =>
      let! outcome := await_text (wait_response (from_millis DRAIN_TIMEOUT_MS)) in
      match outcome with
      | Response bytes =>
          let! drained :=
            eresult (ok_or (checked usize_max (drained + zlen bytes)) (str "stale response byte count overflow")) in
          ecase (MAX_DRAIN_BYTES <? drained) (str "stale responses exceeded 32768-byte drain limit")
            (drain_loop fuel drained)
      | TimedOut | Unavailable => eret tt
      end
  end.

Definition drain_stale_responses (fuel : nat) : EM T (list Z) unit := drain_loop fuel 0.
End Calls.

(** ** Device settings *)

Module DeviceSettings.

Definition STATUS_REQUEST : list Z := [0x1b; 0x40; 0x1b; 0x69; 0x53].
Definition ENTER_SETTINGS_MODE : list Z := [0x1b; 0x69; 0x61; 0x01].
Definition EXIT_SETTINGS_MODE : list Z := [0x1b; 0x69; 0x61; 0xff].

(** [Duration::from_secs(3)], in nanoseconds. *)
Definition RESPONSE_TIMEOUT : Z := 3 * 1000000000.

Inductive DeviceSettingKind := CommandMode | AutoCut | PrintDensityColor1 | PrintDensityColor2 | SerializeMode.

#[global] Instance DeviceSettingKind_eq_dec : EqDecision DeviceSettingKind.
Proof. solve_decision. Defined.

Definition COMMON : list DeviceSettingKind := [CommandMode; AutoCut; PrintDensityColor1; SerializeMode].
Definition MULTICOLOR : list DeviceSettingKind :=
  [CommandMode; AutoCut; PrintDensityColor1; PrintDensityColor2; SerializeMode].

Definition setting_id (s : DeviceSettingKind) : list Z :=
  match s with
  | CommandMode => str "command-mode"
  | AutoCut => str "auto-cut"
  | PrintDensityColor1 => str "print-density-color-1"
  | PrintDensityColor2 => str "print-density-color-2"
  | SerializeMode => str "serialize-mode"
  end.

Definition setting_command (s : DeviceSettingKind) : list Z :=
  match s with
  | CommandMode => [0x1b; 0x69; 0x55; 0x61; 0x01]
  | AutoCut => [0x1b; 0x69; 0x58; 0x63; 0x31; 0x00; 0x00]
  | PrintDensityColor1 => [0x1b; 0x69; 0x58; 0x65; 0x31; 0x00; 0x00; 0x01]
  | PrintDensityColor2 => [0x1b; 0x69; 0x58; 0x65; 0x31; 0x00; 0x00; 0x02]
  | SerializeMode => [0x1b; 0x69; 0x58; 0x4f; 0x31; 0x00; 0x00]
  end.

Definition response_size (s : DeviceSettingKind) : Z :=
  match s with
  | CommandMode => 32
  | AutoCut | PrintDensityColor1 | PrintDensityColor2 | SerializeMode => 3
  end.

Record BrotherModelProfile := {
  profile_id : list Z;
  display_name : list Z;
  series_code : Z;
  model_code : Z;
  settings : list DeviceSettingKind;
}.

Definition profile (id display : list Z) (series model : Z) (s : list DeviceSettingKind) : BrotherModelProfile :=
  {| profile_id := id; display_name := display; series_code := series; model_code := model; settings := s |}.

Definition MODEL_PROFILES : list BrotherModelProfile := [
  profile (str "ql-800") (str "Brother QL-800") 0x34 0x38 MULTICOLOR;
  profile (str "ql-810w") (str "Brother QL-810W") 0x34 0x39 MULTICOLOR;
  profile (str "ql-820nwb") (str "Brother QL-820NWB") 0x34 0x41 MULTICOLOR;
  profile (str "ql-1100") (str "Brother QL-1100") 0x34 0x43 COMMON;
  profile (str "ql-1110nwb") (str "Brother QL-1110NWB") 0x34 0x44 COMMON;
  profile (str "ql-1115nwb") (str "Brother QL-1115NWB") 0x34 0x45 COMMON;
  profile (str "ql-1115nwb-cp") (str "Brother QL-1115NWB CP") 0x34 0x45 COMMON;
  profile (str "pt-p710bt") (str "Brother PT-P710BT") 0x30 0x76 COMMON;
  profile (str "pt-p715ebt") (str "Brother PT-P715eBT") 0x30 0x77 COMMON;
  profile (str "pt-e720bt") (str "Brother PT-E720BT") 0x30 0x81 COMMON
].

Definition model_profile (id : list Z) : option BrotherModelProfile :=
  List.find (fun p => eq_ignore_ascii_case (profile_id p) id) MODEL_PROFILES.

Record DeviceSettingObservation := {
  setting : DeviceSettingKind;
  id : list Z;
  value : option SettingValue.t;
  raw_response : option (list Z);
  error : option (list Z);
}.

Record DeviceSettingsInspection := {
  model : list Z;
  identity_response : option (list Z);
  observations : list DeviceSettingObservation;
  inspection_error : option (list Z);
}.

(** [inspection.error = Some(text)] and [inspection.observations.push(o)]. *)
Definition with_error (text : list Z) (i : DeviceSettingsInspection) : DeviceSettingsInspection := {|
  model := model i;
  identity_response := identity_response i;
  observations := observations i;
  inspection_error := Some text;
|}.

Definition push (o : DeviceSettingObservation) (i : DeviceSettingsInspection) : DeviceSettingsInspection := {|
  model := model i;
  identity_response := identity_response i;
  observations := observations i ++ [o];
  inspection_error := inspection_error i;
|}.

(** *** Decoding *)

Definition command_mode (value : Z) : option (list Z) :=
  if value =? 0 then Some (str "esc-p")
  else if value =? 1 then Some (str "raster")
  else if value =? 3 then Some (str "p-touch-template")
  else if value =? 4 then Some (str "cpcl-emulation")
  else if value =? 5 then Some (str "cpcl-line-print-emulation")
  else if value =? 6 then Some (str "sbpl-emulation")
  else if value =? 7 then Some (str "epl")
  else if value =? 8 then Some (str "dpl")
  else None.

Definition auto_cut (value : Z) : option (list Z) :=
  if value =? 0 then Some (str "off")
  else if value =? 1 then Some (str "auto-cut")
  else if value =? 8 then Some (str "cut-at-end")
  else if value =? 9 then Some (str "auto-cut-and-cut-at-end")
  else None.

(** Where a response has its value. *)
Definition value_index (s : DeviceSettingKind) : nat :=
  match s with
  | CommandMode => 30
  | AutoCut | PrintDensityColor1 | PrintDensityColor2 | SerializeMode => 2
  end.

Definition decode_value (s : DeviceSettingKind) (value : Z) : option SettingValue.t :=
  match s with
  | CommandMode => SettingValue.Keyword <$> command_mode value
  | AutoCut => SettingValue.Keyword <$> auto_cut value
  | PrintDensityColor1 | PrintDensityColor2 =>
      if (123 <=? value) && (value <=? 133) then Some (SettingValue.Integer (value - 128)) else None
  | SerializeMode =>
      if value =? 0 then Some (SettingValue.Keyword (str "from-starting-value"))
      else if value =? 1 then Some (SettingValue.Keyword (str "continue-from-last"))
      else None
  end.

Definition decode (s : DeviceSettingKind) (response : list Z) : option SettingValue.t :=
  value ← response !! value_index s; decode_value s value.

(** *** Retrieval *)

Section Retrieval.
Context {T : Type} `{Transport T, Clock T}.

Definition write_command (command : list Z) : EM T (list Z) unit :=
  let! limit := borrow command_limit in
  if limit <? zlen command then
    let! limit := borrow command_limit in
    ethrow (str "command is " ++ show_dec (zlen command) ++ str " bytes but transport command limit is " ++
            show_dec limit)
  else await_text (write command Command).

Definition short_response (expected : Z) (response : list Z) : EM T (list Z) (list Z) :=
  ecase (negb (zlen response =? expected))
    (str "response was " ++ show_dec (zlen response) ++ str " bytes, expected " ++ show_dec expected)
    (eret response).

Fixpoint read_loop (fuel : nat) (expected started : Z) (response : list Z) : EM T (list Z) (list Z) :=
  if zlen response <? expected then
    match fuel with
    | O => epanic
    | S fuel =>
        let! spent := elapsed started in
        if spent <? RESPONSE_TIMEOUT then
          let! timeout := remaining_wait RESPONSE_TIMEOUT started in
          let! outcome := await_text (wait_response timeout) in
          match outcome with
          | Response bytes =>
              ecase (expected <? saturate usize_max (zlen response + zlen bytes))
                (str "response exceeded expected " ++ show_dec expected ++ str "-byte size")
                (read_loop fuel expected started (response ++ bytes))
          | TimedOut | Unavailable => short_response expected response
          end
        else short_response expected response
    end
  else short_response expected response.

Definition read_exact_response (fuel : nat) (expected : Z) : EM T (list Z) (list Z) :=
  let! started := borrow now in
  read_loop fuel expected started [].

Definition answered (s : DeviceSettingKind) (response : list Z) : DeviceSettingObservation :=
  let value := decode s response in
  {| setting := s;
     id := setting_id s;
     value := value;
     raw_response := Some response;
     error := match value with None => Some (str "response contained an unknown value") | Some _ => None end |}.

Definition unanswered (s : DeviceSettingKind) (text : list Z) : DeviceSettingObservation :=
  {| setting := s; id := setting_id s; value := None; raw_response := None; error := Some text |}.

Definition query (fuel : nat) (s : DeviceSettingKind) : EM T (list Z) (list Z) :=
  write_command (setting_command s) ;! read_exact_response fuel (response_size s).

(** The loop over the profile's settings. *)
Fixpoint settings_loop {E} (fuel : nat) (l : list DeviceSettingKind) (inspection : DeviceSettingsInspection) :
    EM T E DeviceSettingsInspection :=
  match l with
  | [] => eret inspection
  | s :: l =>
      let! result := etry (query fuel s) in
      match result with
      | Ok response => settings_loop fuel l (push (answered s response) inspection)
      | Err text =>
          eret (with_error
            (str "stopped after " ++ setting_id s ++
             str " because the response stream can no longer be safely correlated")
            (push (unanswered s text) inspection))
      end
  end.

Definition exit_settings_mode {E} (inspection : DeviceSettingsInspection) : EM T E DeviceSettingsInspection :=
  let! result := etry (write_command EXIT_SETTINGS_MODE) in
  match result with
  | Ok _ => eret inspection
  | Err text =>
      let message := str "could not exit device-settings mode: " ++ text in
      eret (with_error
        match inspection_error inspection with
        | Some previous => previous ++ str "; " ++ message
        | None => message
        end inspection)
  end.

Definition identity_mismatch (p : BrotherModelProfile) (series model : Z) : list Z :=
  str "printer identity mismatch: expected series/model " ++ show_hex_02 (series_code p) ++ str "/" ++
  show_hex_02 (model_code p) ++ str ", got " ++ show_hex_02 series ++ str "/" ++ show_hex_02 model.

Definition retrieve_device_settings {E} (fuel : nat) (p : BrotherModelProfile) : EM T E DeviceSettingsInspection :=
  let inspection :=
    {| model := profile_id p; identity_response := None; observations := []; inspection_error := None |} in
  let! drained := etry (drain_stale_responses fuel) in
  match drained with
  | Err text => eret (with_error (str "input drain failed: " ++ text) inspection)
  | Ok _ =>
  let! requested := etry (write_command STATUS_REQUEST) in
  match requested with
  | Err text => eret (with_error text inspection)
  | Ok _ =>
  let! status := etry (read_exact_response fuel 32) in
  match status with
  | Err text => eret (with_error (str "status request failed: " ++ text) inspection)
  | Ok status =>
  let inspection :=
    {| model := profile_id p; identity_response := Some status; observations := []; inspection_error := None |} in
  match status !! 3%nat, status !! 4%nat with
  | Some series, Some model =>
      if negb (series =? series_code p) || negb (model =? model_code p)
      then eret (with_error (identity_mismatch p series model) inspection)
      else
        let! entered := etry (write_command ENTER_SETTINGS_MODE) in
        match entered with
        | Err text => eret (with_error (str "could not enter device-settings mode: " ++ text) inspection)
        | Ok _ =>
            let! inspection := settings_loop fuel (settings p) inspection in
            exit_settings_mode inspection
        end
  | _, _ => epanic
  end end end end.
End Retrieval.

End DeviceSettings.

(** ** Wireless settings *)

Module WirelessRetrieval.

#[global] Instance WirelessField_eq_dec : EqDecision WirelessField.
Proof. solve_decision. Defined.

Definition MAX_RESPONSE_BYTES : Z := 4000.

(** [Duration::from_secs(10)], in nanoseconds. *)
Definition RESPONSE_TIMEOUT : Z := 10 * 1000000000.
Definition MAX_ATTEMPTS : nat := 2.
Definition INVALIDATE_BYTES : nat := 200.
Definition STATUS_PREAMBLE : list Z := [0x1b; 0x40; 0x1b; 0x69; 0x61; 0x01].
Definition STATUS_REQUEST : list Z := [0x1b; 0x69; 0x53].

Record BrotherSettingObservation := {
  field : WirelessField;
  id : list Z;
  observed_oid : list Z;
  sensitive : bool;
  value : option SettingValue.t;
  raw_response : option (list Z);
  error : option (list Z);
}.

Record BrotherSettingsInspection := { observations : list BrotherSettingObservation }.

Definition field_id (f : WirelessField) : list Z :=
  match f with
  | Connected => str "wireless-state"
  | Ipv4 => str "ipv4-address"
  | Ssid => str "ssid"
  | Encryption => str "encryption"
  | Authentication => str "authentication"
  | Infrastructure => str "infrastructure-enabled"
  | WirelessDirect => str "wireless-direct-enabled"
  end.

Definition is_sensitive (f : WirelessField) : bool :=
  match f with Ipv4 | Ssid => true | _ => false end.

(** *** Decoding *)

Definition encryption_name (value : WirelessEncryption.t) : list Z :=
  match value with
  | WirelessEncryption.None => str "none"
  | WirelessEncryption.Wep => str "wep"
  | WirelessEncryption.Tkip => str "tkip"
  | WirelessEncryption.Aes => str "aes"
  | WirelessEncryption.Ckip => str "ckip"
  | WirelessEncryption.Cmic => str "cmic"
  | WirelessEncryption.CkipCmic => str "ckip-cmic"
  | WirelessEncryption.TkipAes => str "tkip-aes"
  end.

Definition authentication_name (value : WirelessAuthentication.t) : list Z :=
  match value with
  | WirelessAuthentication.Open => str "open"
  | WirelessAuthentication.SharedKey => str "shared-key"
  | WirelessAuthentication.WpaPsk => str "wpa-psk"
  | WirelessAuthentication.Leap => str "leap"
  | WirelessAuthentication.EapFast => str "eap-fast"
  | WirelessAuthentication.Peap => str "peap"
  | WirelessAuthentication.EapTtls => str "eap-ttls"
  | WirelessAuthentication.EapTls => str "eap-tls"
  | WirelessAuthentication.WpaOnly => str "wpa-only"
  | WirelessAuthentication.Wpa2Only => str "wpa2-only"
  end.

Definition decode_field (f : WirelessField) (response : list Z) : option SettingValue.t :=
  match f with
  | Connected =>
      value ← parse_oid_value response (oid f);
      SettingValue.Integer <$> parse_signed i64_min i64_max (trim value)
  | Ipv4 => SettingValue.Text <$> parse_ip_address response
  | Ssid => SettingValue.Text <$> parse_oid_value response (oid f)
  | Encryption => SettingValue.Keyword ∘ encryption_name <$> parse_encryption response
  | Authentication => SettingValue.Keyword ∘ authentication_name <$> parse_authentication response
  | Infrastructure | WirelessDirect => SettingValue.Boolean <$> parse_boolean_field response f
  end.

Definition base_observation (f : WirelessField) : BrotherSettingObservation := {|
  field := f;
  id := field_id f;
  observed_oid := oid f;
  sensitive := is_sensitive f;
  value := None;
  raw_response := None;
  error := None;
|}.

Definition failed_observation (f : WirelessField) (text : list Z) : BrotherSettingObservation := {|
  field := f;
  id := field_id f;
  observed_oid := oid f;
  sensitive := is_sensitive f;
  value := None;
  raw_response := None;
  error := Some text;
|}.

Definition answered (f : WirelessField) (response : list Z) : BrotherSettingObservation :=
  let value := decode_field f response in {|
  field := f;
  id := field_id f;
  observed_oid := oid f;
  sensitive := is_sensitive f;
  value := value;
  raw_response := Some response;
  error :=
    match value with
    | None => Some (str "response did not contain a valid value for the requested OID")
    | Some _ => None
    end;
|}.

(** *** Retrieval *)

Definition reports (response : list Z) (f : WirelessField) : bool :=
  match parse_oid_value response (oid f) with Some _ => true | None => false end.

(** A reply to an earlier query: another field is reported. *)
Definition late_reply (f : WirelessField) (response : list Z) : bool :=
  existsb (fun other => negb (bool_decide (other = f)) && reports response other) WirelessField_ALL.

Section Retrieval.
Context {T : Type} `{Transport T, Clock T}.

Fixpoint matching_loop (fuel : nat) (f : WirelessField) (started : Z) (response : list Z) : EM T (list Z) (list Z) :=
  match fuel with
  | O => epanic
  | S fuel =>
      let! spent := elapsed started in
      if spent <? RESPONSE_TIMEOUT then
        let! timeout := remaining_wait RESPONSE_TIMEOUT started in
        let! outcome := await_text (wait_response timeout) in
        match outcome with
        | Response bytes =>
            ecase (MAX_RESPONSE_BYTES <? saturate usize_max (zlen response + zlen bytes))
              (str "response exceeded 4000-byte limit")
              (let response := response ++ bytes in
               if reports response f then eret response
               else matching_loop fuel f started (if late_reply f response then [] else response))
        | TimedOut | Unavailable => ethrow (str "response timed out")
        end
      else ethrow (str "response timed out")
  end.

Definition read_matching_response (fuel : nat) (f : WirelessField) : EM T (list Z) (list Z) :=
  let! started := borrow now in
  matching_loop fuel f started [].

Definition delay {E} (duration : Z) : EM T E unit := await (delay_for duration).

(** The body of the attempts. *)
Definition attempt (fuel : nat) (f : WirelessField) (command : list Z) : EM T (list Z) (list Z) :=
  await_text (write command Command) ;!
  await_text (write (repeat 0 INVALIDATE_BYTES) Command) ;!
  await_text (write STATUS_PREAMBLE Command) ;!
  delay (from_millis 100) ;!
  await_text (write STATUS_REQUEST Command) ;!
  read_matching_response fuel f.

(** [for _ in 0..attempts]. *)
Fixpoint attempts_loop (fuel attempts : nat) (f : WirelessField) (command last_error : list Z) :
    EM T (list Z) (list Z) :=
  match attempts with
  | O => ethrow last_error
  | S attempts =>
      let! result := etry (attempt fuel f command) in
      match result with
      | Ok response => eret response
      | Err text => attempts_loop fuel attempts f command text
      end
  end.

(** [expect] in [WirelessField::command] is a panic. *)
Definition retrieve_field {E} (fuel : nat) (f : WirelessField) : EM T E BrotherSettingObservation :=
  match field_command f with
  | Err _ => epanic
  | Ok command =>
      let! limit := borrow command_limit in
      if limit <? zlen command then
        let! limit := borrow command_limit in
        eret (failed_observation f
          (str "query is " ++ show_dec (zlen command) ++ str " bytes but transport command limit is " ++
           show_dec limit))
      else
        let! result := etry (attempts_loop fuel MAX_ATTEMPTS f command (str "response timed out")) in
        match result with
        | Ok response => eret (answered f response)
        | Err text => eret (failed_observation f text)
        end
  end.

Definition drain_failed (f : WirelessField) (text : list Z) : BrotherSettingObservation :=
  failed_observation f (str "input drain failed: " ++ text).

Fixpoint fields_loop {E} (fuel : nat) (l : list WirelessField) : EM T E (list BrotherSettingObservation) :=
  match l with
  | [] => eret []
  | f :: l =>
      let! observation := retrieve_field fuel f in
      let! rest := fields_loop fuel l in
      eret (observation :: rest)
  end.

Definition retrieve_wireless_settings {E} (fuel : nat) : EM T E BrotherSettingsInspection :=
  let! drained := etry (drain_stale_responses fuel) in
  match drained with
  | Err text => eret {| observations := map (fun f => drain_failed f text) WirelessField_ALL |}
  | Ok _ =>
      let! l := fields_loop fuel WirelessField_ALL in
      eret {| observations := l |}
  end.

Definition retrieve_wireless_setting {E} (fuel : nat) (f : WirelessField) : EM T E BrotherSettingObservation :=
  let! drained := etry (drain_stale_responses fuel) in
  match drained with
  | Ok _ => retrieve_field fuel f
  | Err text => eret (drain_failed f text)
  end.

(** *** One transport per query *)

(** [open] is the caller's, with its state [O]. A transport is dropped after
    its query; its state is returned with the observation. *)
Section Opening.
Context {O : Type}.
Variable open : O -> Result (list Z) T * O.

Fixpoint opening_loop {E} (fuel : nat) (l : list WirelessField) :
    EM O E (list (BrotherSettingObservation * option T)) := fun o =>
  match l with
  | [] => (Ok [], o)
  | f :: l =>
      let '(opened, o) := open o in
      match opened with
      | Err text =>
          (let! rest := opening_loop fuel l in eret ((failed_observation f text, None) :: rest)) o
      | Ok transport =>
          match retrieve_field fuel f transport with
          | (Ok observation, closed) =>
              (let! rest := opening_loop fuel l in eret ((observation, Some closed) :: rest)) o
          | (Err e, _) => (Err e, o)
          end
      end
  end.

Definition retrieve_wireless_settings_with {E} (fuel : nat) : EM O E BrotherSettingsInspection :=
  let! l := opening_loop fuel WirelessField_ALL in
  eret {| observations := map fst l |}.
End Opening.
End Retrieval.

End WirelessRetrieval.
