(* ===== verification/BrotherSettingsFacts.v ===== *)
(** What the retrieval of settings writes, reports and waits for, whatever the
    transport answers. *)

From stdpp Require Import base list strings numbers option.
From S2P Require Import Prelude Text Effects Transport Administration BrotherWifi Executor BrotherSettings.

#[local] Open Scope Z_scope.

(** ** What a computation writes *)

Definition write_of (e : Event) : option (list Z) :=
  match e with WriteCall bytes _ _ => Some bytes | _ => None end.

(** The writes attempted on a transport, oldest first. *)
Definition written {T} (t : Traced T) : list (list Z) := omap write_of (trace t).

Lemma written_log {T} e (t : T) (old : Traced T) :
  written (log e t old) = written old ++ match write_of e with Some bytes => [bytes] | None => [] end.
Proof. unfold written, log. cbn [trace]. rewrite omap_app. cbn. by destruct (write_of e). Qed.

(** [Q] relates the result of a computation to what it writes. *)
Definition emits {T E A} (Q : Result (Fault E) A -> list (list Z) -> Prop) (m : EM (Traced T) E A) : Prop :=
  forall t, exists ws, written (m t).2 = written t ++ ws /\ Q (m t).1 ws.

Definition silent {T E A} : EM (Traced T) E A -> Prop := emits (fun _ ws => ws = []).

Section Emits.
Context {T E : Type}.

Lemma emits_mono {A} (Q Q' : Result (Fault E) A -> list (list Z) -> Prop) (m : EM (Traced T) E A) :
  emits Q m -> (forall r ws, Q r ws -> Q' r ws) -> emits Q' m.
Proof. intros H HQ t. destruct (H t) as (ws & Hw & Hr). exists ws. auto. Qed.

(** A sequence writes what its parts do; an error ends it. *)
Definition emits_then {A B} (Q : Result (Fault E) A -> list (list Z) -> Prop)
    (Q' : A -> Result (Fault E) B -> list (list Z) -> Prop) (r : Result (Fault E) B) (ws : list (list Z)) : Prop :=
  (exists e, r = Err e /\ Q (Err e) ws) \/
  (exists a w1 w2, ws = w1 ++ w2 /\ Q (Ok a) w1 /\ Q' a r w2).

Lemma emits_bind {A B} Q Q' (m : EM (Traced T) E A) (k : A -> EM (Traced T) E B) :
  emits Q m -> (forall a, emits (Q' a) (k a)) -> emits (emits_then Q Q') (ebind m k).
Proof.
  intros Hm Hk t. destruct (Hm t) as (w1 & Hw & Hr). unfold ebind.
  destruct (m t) as [[a|e] t']; cbn [fst snd] in *.
  - destruct (Hk a t') as (w2 & Hw' & Hr'). exists (w1 ++ w2). rewrite Hw', Hw, app_assoc. split; [done|].
    right. eauto 6.
  - exists w1. split; [done|]. left. eauto.
Qed.

Lemma emits_bind_silent {A B} Q (m : EM (Traced T) E A) (k : A -> EM (Traced T) E B) :
  silent m -> (forall a, emits Q (k a)) -> (forall e, Q (Err e) []) -> emits Q (ebind m k).
Proof.
  intros Hm Hk He. eapply emits_mono; [apply (emits_bind (fun _ ws => ws = []) (fun _ => Q) m k Hm Hk)|].
  intros r ws [(e & -> & ->)|(a & w1 & w2 & -> & -> & H)]; [apply He|done].
Qed.

(** The continuation knows what was written before it. *)
Lemma emits_seq {A B} Q (P : Result (Fault E) B -> list (list Z) -> Prop) (m : EM (Traced T) E A) (k : A -> EM (Traced T) E B) :
  emits Q m -> (forall a w, Q (Ok a) w -> emits (fun r ws => P r (w ++ ws)) (k a)) ->
  (forall e w, Q (Err e) w -> P (Err e) w) -> emits P (ebind m k).
Proof.
  intros Hm Hk He t. destruct (Hm t) as (w1 & Hw & Hr). unfold ebind.
  destruct (m t) as [[a|e] t']; cbn [fst snd] in *; [|eauto].
  destruct (Hk a w1 Hr t') as (w2 & Hw' & Hr'). exists (w1 ++ w2). by rewrite Hw', Hw, app_assoc.
Qed.

Lemma emits_pure {A} (Q : Result (Fault E) A -> list (list Z) -> Prop) (r : Result (Fault E) A) :
  Q r [] -> emits Q (fun t : Traced T => (r, t)).
Proof. intros H t. exists []. by rewrite app_nil_r. Qed.

Lemma emits_borrow {A} (Q : Result (Fault E) A -> list (list Z) -> Prop) (f : Traced T -> A * Traced T) :
  (forall t, exists ws, written (f t).2 = written t ++ ws /\ Q (Ok (f t).1) ws) -> emits Q (borrow f).
Proof. intros H t. destruct (H t) as (ws & ? & ?). exists ws. unfold borrow. by destruct (f t). Qed.
End Emits.

Lemma emits_etry {T E F A} Q Q' (m : EM (Traced T) E A) :
  emits Q m -> (forall a ws, Q (Ok a) ws -> Q' (Ok (Ok a)) ws) -> (forall e ws, Q (Err (Raised e)) ws -> Q' (Ok (Err e)) ws) ->
  (forall ws, Q (Err Panicked) ws -> Q' (Err Panicked) ws) ->
  emits Q' (etry (F := F) m).
Proof.
  intros H HO HE HP t. destruct (H t) as (ws & Hw & Hr). exists ws. unfold etry.
  destruct (m t) as [[a|[e|]] t']; cbn [fst snd] in *; auto.
Qed.

Lemma silent_bind {T E A B} (m : EM (Traced T) E A) (k : A -> EM (Traced T) E B) :
  silent m -> (forall a, silent (k a)) -> silent (ebind m k).
Proof. intros Hm Hk. by apply emits_bind_silent. Qed.

Create HintDb silent.
#[export] Hint Resolve silent_bind : silent.

Section Calls.
Context {T : Type} `{Transport T, Clock T}.

Lemma silent_now {E} : silent (E := E) (borrow (now (T := Traced T))).
Proof. apply emits_borrow. intros t. exists []. rewrite app_nil_r. cbn -[written]. by destruct (now (traced t)). Qed.

Lemma silent_command_limit {E} : silent (E := E) (borrow (command_limit (T := Traced T))).
Proof.
  apply emits_borrow. intros t. exists []. cbn -[log written]. destruct (command_limit (traced t)). split; [apply written_log|done].
Qed.

Lemma silent_wait_response {E} timeout : silent (E := E) (await (wait_response (T := Traced T) timeout)).
Proof.
  apply emits_borrow. intros t. exists []. cbn -[log written]. destruct (complete _ (traced t)). split; [apply written_log|done].
Qed.

Lemma silent_delay {E} d : silent (E := E) (await (delay_for (T := Traced T) d)).
Proof.
  apply emits_borrow. intros t. exists []. cbn -[log written]. destruct (complete _ (traced t)). split; [apply written_log|done].
Qed.

Lemma emits_write {E} bytes kind :
  emits (fun (_ : Result (Fault E) (Result TransportError unit)) ws => ws = [bytes]) (await (write (T := Traced T) bytes kind)).
Proof.
  apply emits_borrow. intros t. exists [bytes]. cbn -[log written]. destruct (complete _ (traced t)). split; [apply written_log|done].
Qed.

Lemma silent_result {E A} (r : Result E A) : silent (T := T) (eresult r).
Proof. by apply emits_pure. Qed.

Lemma silent_ret {E A} (a : A) : silent (T := T) (eret (E := E) a).
Proof. by apply emits_pure. Qed.

Lemma silent_throw {E A} (e : E) : silent (T := T) (ethrow (A := A) e).
Proof. by apply emits_pure. Qed.

Lemma silent_panic {E A} : silent (T := T) (epanic (E := E) (A := A)).
Proof. by apply emits_pure. Qed.

Lemma silent_case {E A} b (e : E) (k : EM (Traced T) E A) : silent k -> silent (ecase b e k).
Proof. intros Hk. destruct b; [apply silent_throw|apply Hk]. Qed.
End Calls.

#[export] Hint Resolve silent_now silent_command_limit silent_wait_response silent_delay silent_result silent_ret
  silent_throw silent_panic silent_case : silent.

Section Loops.
Context {T : Type} `{Transport T, Clock T}.

Lemma silent_await_text {A} (operation : TransportFuture (Traced T) (Result TransportError A)) :
  silent (E := list Z) (await operation) -> silent (await_text operation).
Proof. intros Hq. unfold await_text. apply silent_bind; [done|]. auto with silent. Qed.

Lemma emits_write_text bytes kind : emits (fun _ ws => ws = [bytes]) (await_text (write (T := Traced T) bytes kind)).
Proof.
  unfold await_text. eapply emits_mono; [apply emits_bind; [apply emits_write|intros a; apply silent_result]|].
  by intros r ws [(e & _ & ->)|(a & w1 & w2 & -> & -> & ->)].
Qed.

Lemma silent_elapsed {E} started : silent (E := E) (elapsed (T := Traced T) started).
Proof. unfold elapsed. auto with silent. Qed.

Lemma silent_remaining_wait {E} deadline started : silent (E := E) (remaining_wait (T := Traced T) deadline started).
Proof. unfold remaining_wait. apply silent_bind; [apply silent_elapsed|auto with silent]. Qed.

Lemma silent_drain fuel : silent (drain_stale_responses (T := Traced T) fuel).
Proof.
  unfold drain_stale_responses. generalize 0. induction fuel as [|fuel IH]; intros drained; cbn [drain_loop]; [auto with silent|].
  apply silent_bind; [apply silent_await_text, silent_wait_response|]. intros [bytes| |]; [|auto with silent..].
  apply silent_bind; [auto with silent|]. intros d. apply silent_case, IH.
Qed.
End Loops.

#[export] Hint Resolve silent_await_text silent_elapsed silent_remaining_wait silent_drain : silent.

(** Only the results that are returned matter. *)
Definition returns {E A} (P : A -> list (list Z) -> Prop) (r : Result (Fault E) A) (ws : list (list Z)) : Prop :=
  forall a, r = Ok a -> P a ws.

Lemma returning_ret {T E A} (P : A -> list (list Z) -> Prop) (a : A) : P a [] -> emits (T := T) (returns P) (eret (E := E) a).
Proof. intros HP. apply emits_pure. by intros ? [= <-]. Qed.

Lemma returning_panic {T E A} (P : A -> list (list Z) -> Prop) : emits (T := T) (returns P) (epanic (E := E)).
Proof. by apply emits_pure. Qed.

(** A computation whose error the caller handles. *)
Lemma returning_try {T E F A B} (Q : Result E A -> list (list Z) -> Prop) (P : B -> list (list Z) -> Prop) (m : EM (Traced T) E A)
    (k : Result E A -> EM (Traced T) F B) :
  emits (fun r ws => match r with Ok a => Q (Ok a) ws | Err (Raised e) => Q (Err e) ws | Err Panicked => True end) m ->
  (forall r w, Q r w -> emits (returns (fun b ws => P b (w ++ ws))) (k r)) ->
  emits (returns P) (ebind (etry m) k).
Proof.
  intros Hm Hk.
  apply (emits_seq (fun r ws => match r with Ok r => Q r ws | Err _ => True end)).
  - eapply emits_etry; [apply Hm|done..].
  - intros r w HQ. by apply Hk.
  - done.
Qed.

(** ** When loops end *)

(** A response is a frame with at least one byte. *)
Definition nonempty_frames (T : Type) `{Transport T} : Prop :=
  forall timeout t bytes t', complete (wait_response timeout) t = (Ok (Response bytes), t') -> bytes <> [].

(** A computation that ends, with what it is known to return. *)
Definition ends {T E A} (Q : A -> Prop) (m : EM T E A) : Prop :=
  forall t, spec m t (fun a _ => Q a) (fun e _ => e <> Panicked).

Section Ends.
Context {T E : Type}.

Lemma ends_bind {A B} Q (Q' : B -> Prop) (m : EM T E A) (k : A -> EM T E B) :
  ends Q m -> (forall a, Q a -> ends Q' (k a)) -> ends Q' (ebind m k).
Proof. intros Hm Hk t. apply spec_bind. eapply spec_mono; [apply Hm| |done]. intros a t' HQ. by apply Hk. Qed.

Lemma ends_mono {A} (Q Q' : A -> Prop) (m : EM T E A) : ends Q m -> (forall a, Q a -> Q' a) -> ends Q' m.
Proof. intros Hm HQ t. eapply spec_mono; [apply Hm|auto|done]. Qed.

Lemma ends_ret {A} (Q : A -> Prop) (a : A) : Q a -> ends (T := T) Q (eret (E := E) a).
Proof. intros HQ t. by apply spec_ret. Qed.

Lemma ends_throw {A} (Q : A -> Prop) (e : E) : ends (T := T) Q (ethrow (A := A) e).
Proof. intros t. by apply spec_throw. Qed.

Lemma ends_result {A} (Q : A -> Prop) (r : Result E A) : (forall a, r = Ok a -> Q a) -> ends (T := T) Q (eresult r).
Proof. intros HQ t. by apply spec_result. Qed.

Lemma ends_case {A} (Q : A -> Prop) b (e : E) (k : EM T E A) : (b = false -> ends Q k) -> ends Q (ecase b e k).
Proof. intros Hk t. apply spec_ecase; [done|]. intros Hb. by apply Hk. Qed.

Lemma ends_try {F A} (Q : A -> Prop) (m : EM T F A) :
  ends Q m -> ends (E := E) (fun r => forall a, r = Ok a -> Q a) (etry m).
Proof.
  intros Hm t. apply spec_etry. eapply spec_mono; [apply Hm| |].
  - by intros a t' HQ ? [= <-].
  - by intros [e|] t' He.
Qed.

Lemma ends_borrow {A} (Q : A -> Prop) (f : T -> A * T) : (forall t, Q (f t).1) -> ends (E := E) Q (borrow f).
Proof. intros HQ t. unfold spec, borrow. specialize (HQ t). by destruct (f t). Qed.

Lemma ends_never_panics {A} (Q : A -> Prop) (m : EM T E A) : ends Q m -> never_panics m.
Proof. intros Hm t. specialize (Hm t). unfold spec in Hm. by destruct (m t) as [[a|[e|]] t']. Qed.
End Ends.

Lemma ends_await_text {T A} (Q : A -> Prop) (operation : TransportFuture T (Result TransportError A)) :
  (forall t a t', complete operation t = (Ok a, t') -> Q a) -> ends Q (await_text operation).
Proof.
  intros HQ. apply (ends_bind (fun r => forall a, r = Ok a -> Q a)).
  - apply ends_borrow. intros t a Ha. destruct (complete operation t) as [r t'] eqn:E. cbn in Ha. subst. eauto.
  - intros r Hr. apply ends_result. intros a Ha. apply map_err_Ok in Ha. auto.
Qed.

Section Frames.
Context {T : Type} `{Transport T, Clock T}.
Hypothesis frames : nonempty_frames T.

Lemma ends_wait timeout :
  ends (T := T) (fun outcome => forall bytes, outcome = Response bytes -> 1 <= zlen bytes) (await_text (wait_response timeout)).
Proof.
  apply ends_await_text. intros t a t' E bytes ->. apply frames in E. destruct bytes; [done|]. rewrite zlen_cons. pose proof (zlen_nonneg bytes). lia.
Qed.

Lemma drain_ends fuel : MAX_DRAIN_BYTES < Z.of_nat fuel -> ends (T := T) (fun _ => True) (drain_stale_responses fuel).
Proof.
  unfold drain_stale_responses. intros Hf.
  assert (forall drained, drained <= MAX_DRAIN_BYTES -> MAX_DRAIN_BYTES - drained < Z.of_nat fuel ->
    ends (T := T) (fun _ => True) (drain_loop fuel drained)) as Hloop; [|apply Hloop; unfold MAX_DRAIN_BYTES in *; lia].
  clear Hf. induction fuel as [|fuel IH]; intros drained Hd Hf; [lia|]. cbn [drain_loop].
  eapply ends_bind; [apply ends_wait|]. intros [bytes| |] Hb; [|by apply ends_ret..]. specialize (Hb bytes eq_refl).
  apply (ends_bind (fun d => d = drained + zlen bytes)).
  - apply ends_result. intros d Hd'. by apply ok_or_Ok, checked_Some in Hd' as [_ ->].
  - intros d ->. apply ends_case. intros Hle. apply IH; lia.
Qed.
End Frames.

Lemma traced_frames {T} `{Transport T} : nonempty_frames T -> nonempty_frames (Traced T).
Proof.
  intros Hf timeout t bytes t' E. cbn -[log] in E. destruct (complete (wait_response timeout) (traced t)) as [a t1] eqn:E1.
  injection E as -> <-. eauto.
Qed.

(** ** Device settings *)

Module DeviceSettingsFacts.
Import DeviceSettings.

(** What a session reports of the settings: an answer of the right size to
    each, in order, or a last one that was not answered. *)
Inductive Observed : list DeviceSettingKind -> list DeviceSettingObservation -> bool -> Prop :=
| observed_all : Observed [] [] true
| observed_answer s l response obs complete :
    zlen response = response_size s -> Observed l obs complete ->
    Observed (s :: l) (answered s response :: obs) complete
| observed_stop s l text : Observed (s :: l) [unanswered s text] false.

Definition identifies (p : BrotherModelProfile) (status : list Z) : Prop :=
  zlen status = 32 /\ status !! 3%nat = Some (series_code p) /\ status !! 4%nat = Some (model_code p).

(** The sessions with a printer: what is written and what is reported. *)
Inductive Session (p : BrotherModelProfile) : DeviceSettingsInspection -> list (list Z) -> Prop :=
| not_drained text :
    Session p {| model := profile_id p; identity_response := None; observations := []; inspection_error := Some text |} []
| unidentified text :
    Session p {| model := profile_id p; identity_response := None; observations := []; inspection_error := Some text |}
      [STATUS_REQUEST]
| mismatched status text :
    zlen status = 32 -> ~ identifies p status ->
    Session p {| model := profile_id p; identity_response := Some status; observations := []; inspection_error := Some text |}
      [STATUS_REQUEST]
| not_entered status text :
    identifies p status ->
    Session p {| model := profile_id p; identity_response := Some status; observations := []; inspection_error := Some text |}
      [STATUS_REQUEST; ENTER_SETTINGS_MODE]
| inspected status obs complete error :
    identifies p status -> Observed (settings p) obs complete -> (error = None -> complete = true) ->
    Session p {| model := profile_id p; identity_response := Some status; observations := obs; inspection_error := error |}
      ([STATUS_REQUEST; ENTER_SETTINGS_MODE] ++ map (fun o => setting_command (setting o)) obs ++ [EXIT_SETTINGS_MODE]).

Section Session.
Context {T : Type} `{Transport T, Clock T}.

(** The longest command has eight bytes. *)
Hypothesis roomy : forall t : T, 8 <= (command_limit t).1.

Lemma emits_write_command command :
  zlen command <= 8 -> emits (fun _ ws => ws = [command]) (write_command (T := Traced T) command).
Proof.
  intros Hc. unfold write_command.
  apply (emits_seq (fun r ws => ws = [] /\ exists limit, r = Ok limit /\ 8 <= limit)).
  - apply emits_borrow. intros t. exists []. pose proof (roomy (traced t)) as Hr. cbn -[log written].
    destruct (command_limit (traced t)). split; [apply written_log|eauto].
  - intros limit w [-> (n & [= <-] & Hn)]. replace (limit <? zlen command) with false by lia. apply emits_write_text.
  - by intros e w [_ (n & ? & _)].
Qed.

Lemma read_loop_length fuel expected started response :
  emits (fun r ws => ws = [] /\ forall bytes, r = Ok bytes -> zlen bytes = expected)
    (read_loop (T := Traced T) fuel expected started response).
Proof.
  assert (forall response, emits (T := T) (fun r ws => ws = [] /\ forall bytes, r = Ok bytes -> zlen bytes = expected)
    (short_response expected response)) as Hshort.
  { intros l. unfold short_response, ecase. destruct (zlen l =? expected) eqn:E; cbn [negb];
      apply emits_pure; (split; [done|]); [intros ? [= <-]; lia|done]. }
  revert response. induction fuel as [|fuel IH]; intros response; cbn [read_loop];
    (destruct (zlen response <? expected); [|apply Hshort]); [by apply (emits_pure _ (Err Panicked))|].
  apply emits_bind_silent; [auto with silent| |done]. intros spent.
  destruct (spent <? RESPONSE_TIMEOUT); [|apply Hshort].
  apply emits_bind_silent; [apply silent_remaining_wait| |done]. intros timeout.
  apply emits_bind_silent; [auto with silent| |done]. intros [bytes| |]; [|apply Hshort..].
  unfold ecase. destruct (expected <? _); [by apply (emits_pure _ (fail _))|apply IH].
Qed.

Lemma emits_read_exact fuel expected :
  emits (fun r ws => ws = [] /\ forall bytes, r = Ok bytes -> zlen bytes = expected)
    (read_exact_response (T := Traced T) fuel expected).
Proof.
  apply emits_bind_silent; [auto with silent| |done]. intros started. apply read_loop_length.
Qed.

(** One setting asked. *)
Lemma emits_query fuel s :
  emits (fun r ws => ws = [setting_command s] /\ forall bytes, r = Ok bytes -> zlen bytes = response_size s)
    (query (T := Traced T) fuel s).
Proof.
  apply (emits_seq (fun _ ws => ws = [setting_command s])); [apply emits_write_command; by destruct s| |by intros ? ? ->].
  intros [] ? ->. eapply emits_mono; [apply emits_read_exact|]. by intros r ws [-> Hr].
Qed.

Lemma settings_loop_observes {E} fuel l i :
  emits (E := E) (returns (fun i' ws => exists obs complete,
      Observed l obs complete /\ ws = map (fun o => setting_command (setting o)) obs /\
      model i' = model i /\ identity_response i' = identity_response i /\ observations i' = observations i ++ obs /\
      (inspection_error i' = None -> complete = true)))
    (settings_loop (T := Traced T) fuel l i).
Proof.
  revert i. induction l as [|s l IH]; intros i; cbn [settings_loop].
  { apply returning_ret. exists [], true. rewrite app_nil_r. by split_and!; [constructor|..]. }
  apply (returning_try (fun r ws => ws = [setting_command s] /\ forall bytes, r = Ok bytes -> zlen bytes = response_size s)).
  { eapply emits_mono; [apply emits_query|]. intros [bytes|[text|]] ws [-> Hr]; [|done..]. split; [done|].
    intros ? [= <-]. auto. }
  intros [response|text] w [-> Hr].
  - eapply emits_mono; [apply IH|]. intros r ws Hret i' Hi. destruct (Hret i' Hi) as (obs & c & Hobs & -> & Hm & Hid & Ho & Herr).
    exists (answered s response :: obs), c. rewrite Ho. cbn [observations push]. rewrite <- app_assoc.
    split_and!; eauto using observed_answer.
  - apply returning_ret. exists [unanswered s text], false. cbn [with_error push observations inspection_error].
    by split_and!; [constructor|..].
Qed.

Lemma exit_observes {E} i :
  emits (E := E) (returns (fun i' ws => ws = [EXIT_SETTINGS_MODE] /\ model i' = model i /\
      identity_response i' = identity_response i /\ observations i' = observations i /\
      (inspection_error i' = None -> inspection_error i = None)))
    (exit_settings_mode (T := Traced T) i).
Proof.
  apply (returning_try (fun _ ws => ws = [EXIT_SETTINGS_MODE])).
  { eapply emits_mono; [by apply emits_write_command|]. by intros [?|[?|]] ws. }
  intros [[]|text] w ->; by apply returning_ret.
Qed.

Lemma device_session {E} fuel p :
  emits (E := E) (returns (Session p)) (retrieve_device_settings (T := Traced T) fuel p).
Proof.
  unfold retrieve_device_settings.
  apply (returning_try (fun _ ws => ws = [])).
  { eapply emits_mono; [apply silent_drain|]. by intros [?|[?|]] ws. }
  intros [[]|text] w ->; [|apply returning_ret, not_drained].
  apply (returning_try (fun _ ws => ws = [STATUS_REQUEST])).
  { eapply emits_mono; [by apply emits_write_command|]. by intros [?|[?|]] ws. }
  intros [[]|text] w ->; [|apply returning_ret, unidentified].
  apply (returning_try (fun r ws => ws = [] /\ forall bytes, r = Ok bytes -> zlen bytes = 32)).
  { eapply emits_mono; [apply emits_read_exact|]. intros [bytes|[?|]] ws [-> Hr]; [|done..]. split; [done|]. intros ? [= <-]. auto. }
  intros [status|text] w [-> Hr]; [|apply returning_ret, unidentified]. specialize (Hr status eq_refl).
  destruct (status !! 3%nat) as [series|] eqn:E3; [|apply returning_panic].
  destruct (status !! 4%nat) as [code|] eqn:E4; [|apply returning_panic].
  destruct (_ || _) eqn:Hid.
  { apply returning_ret, mismatched; [done|]. intros (_ & H3 & H4). assert (series = series_code p /\ code = model_code p) by naive_solver. lia. }
  assert (identifies p status) as Hp.
  { split; [done|]. rewrite E3, E4. apply orb_false_iff in Hid as [H3 H4]. split; f_equal; lia. }
  apply (returning_try (fun _ ws => ws = [ENTER_SETTINGS_MODE])).
  { eapply emits_mono; [by apply emits_write_command|]. by intros [?|[?|]] ws. }
  intros [[]|text] w ->; [|by apply returning_ret, not_entered].
  apply (emits_seq _ _ _ _ (settings_loop_observes fuel (settings p) _)); [|done].
  intros i w Hret. destruct (Hret i eq_refl) as (obs & c & Hobs & -> & Hm & Hi & Ho & Herr).
  eapply emits_mono; [apply exit_observes|]. intros r ws Hex i' ->.
  destruct (Hex i' eq_refl) as (-> & Hm' & Hi' & Ho' & Herr'). 
  destruct i, i'. cbn in *. subst. apply (inspected p status obs c); naive_solver.
Qed.
End Session.

(** Reads of at most [size] bytes, each frame at least one. *)
Section Termination.
Context {T : Type} `{Transport T, Clock T}.
Hypothesis frames : nonempty_frames T.

Lemma write_command_ends command : ends (T := T) (fun _ => True) (write_command command).
Proof.
  apply (ends_bind (fun _ => True)); [by apply ends_borrow|]. intros limit _. destruct (limit <? _).
  - apply (ends_bind (fun _ => True)); [by apply ends_borrow|]. intros ? _. apply ends_throw.
  - by apply ends_await_text.
Qed.

Lemma short_response_ends expected response :
  ends (T := T) (fun bytes => zlen bytes = expected) (short_response expected response).
Proof. apply ends_case. intros E. apply ends_ret. lia. Qed.

Lemma read_exact_ends fuel expected :
  expected < Z.of_nat fuel -> ends (T := T) (fun bytes => zlen bytes = expected) (read_exact_response fuel expected).
Proof.
  intros Hf. apply (ends_bind (fun _ => True)); [by apply ends_borrow|]. intros started _.
  assert (forall response, expected - zlen response < Z.of_nat fuel ->
    ends (T := T) (fun bytes => zlen bytes = expected) (read_loop fuel expected started response)) as Hloop;
    [|apply Hloop; rewrite zlen_nil; lia].
  clear Hf. induction fuel as [|fuel IH]; intros response Hf; cbn [read_loop];
    (destruct (zlen response <? expected) eqn:Hlt; [|apply short_response_ends]); [lia|].
  apply (ends_bind (fun _ => True)).
  { apply (ends_bind (fun _ => True)); [by apply ends_borrow|]. intros ? _. by apply ends_ret. }
  intros spent _. destruct (spent <? RESPONSE_TIMEOUT); [|apply short_response_ends].
  apply (ends_bind (fun _ => True)).
  { apply (ends_bind (fun _ => True)); [|intros ? _; by apply ends_ret].
    apply (ends_bind (fun _ => True)); [by apply ends_borrow|]. intros ? _. by apply ends_ret. }
  intros timeout _. eapply ends_bind; [by apply ends_wait|]. intros [bytes| |] Hb; [|apply short_response_ends..].
  specialize (Hb bytes eq_refl). apply ends_case. intros _. apply IH. rewrite zlen_app. lia.
Qed.

Lemma settings_loop_ends {E} fuel l i : 32 < Z.of_nat fuel -> ends (T := T) (E := E) (fun _ => True) (settings_loop fuel l i).
Proof.
  intros Hf. revert i. induction l as [|s l IH]; intros i; cbn [settings_loop]; [by apply ends_ret|].
  eapply (ends_bind _ _ (etry _)).
  - apply ends_try. eapply ends_bind; [apply write_command_ends|]. intros ? _. apply read_exact_ends. destruct s; cbn; lia.
  - intros [response|text] _; [apply IH|by apply ends_ret].
Qed.

Lemma device_retrieval_ends {E} fuel p :
  MAX_DRAIN_BYTES < Z.of_nat fuel -> ends (T := T) (E := E) (fun _ => True) (retrieve_device_settings fuel p).
Proof.
  intros Hf. unfold retrieve_device_settings.
  eapply (ends_bind _ _ (etry _)); [by apply ends_try, drain_ends|]. intros [[]|text] _; [|by apply ends_ret].
  eapply (ends_bind _ _ (etry _)); [by apply ends_try, write_command_ends|]. intros [[]|text] _; [|by apply ends_ret].
  eapply (ends_bind _ _ (etry _)).
  { apply ends_try, (read_exact_ends fuel 32). unfold MAX_DRAIN_BYTES in Hf. lia. }
  intros [status|text] Hs; [|by apply ends_ret]. specialize (Hs status eq_refl). cbn beta in Hs. unfold zlen in Hs.
  destruct (lookup_lt_is_Some_2 status 3) as [series ->]; [lia|]. destruct (lookup_lt_is_Some_2 status 4) as [code ->]; [lia|].
  destruct (_ || _); [by apply ends_ret|].
  eapply (ends_bind _ _ (etry _)); [by apply ends_try, write_command_ends|]. intros [[]|text] _; [|by apply ends_ret].
  eapply ends_bind; [apply settings_loop_ends; unfold MAX_DRAIN_BYTES in Hf; lia|]. intros i _.
  eapply (ends_bind _ _ (etry _)); [by apply ends_try, write_command_ends|]. intros [[]|text] _; by apply ends_ret.
Qed.
End Termination.

(** *** A printer that answers *)

(** A printer of the series: what it holds, and the responses that wait to be
    read. It answers every command it knows with one frame. *)
Record Printer := {
  series : Z;
  code : Z;
  stored : DeviceSettingKind -> Z;
  pending : list (list Z);
}.

Definition status_reply (d : Printer) : list Z := [0; 0; 0; series d; code d] ++ repeat 0 27.

Definition setting_reply (d : Printer) (s : DeviceSettingKind) : list Z :=
  match s with
  | CommandMode => repeat 0 30 ++ [stored d s; 0xff]
  | _ => [0; 0; stored d s]
  end.

Definition reply (d : Printer) (command : list Z) : list (list Z) :=
  if bool_decide (command = STATUS_REQUEST) then [status_reply d]
  else
    match List.find (fun s => bool_decide (setting_command s = command)) MULTICOLOR with
    | Some s => [setting_reply d s]
    | None => []
    end.

Definition queued (l : list (list Z)) (d : Printer) : Printer :=
  {| series := series d; code := code d; stored := stored d; pending := l |}.

(** There are no empty frames. *)
Definition next_response (d : Printer) : Result TransportError WaitOutcome * Printer :=
  match pending d with
  | [] => (Ok TimedOut, d)
  | [] :: rest => (Ok TimedOut, queued rest d)
  | frame :: rest => (Ok (Response frame), queued rest d)
  end.

#[global] Instance Printer_Transport : Transport Printer.
Proof.
  refine {|
    payload_limit d := (4096, d);
    command_limit d := (4096, d);
    subscribe_notifications := {| complete d := (Ok NotificationsUnavailable, d); dropped d := d |};
    write bytes _ := {| complete d := (Ok tt, queued (pending d ++ reply d bytes) d); dropped d := d |};
    wait_response _ := {| complete := next_response; dropped d := d |};
    delay_for _ := {| complete d := (tt, d); dropped d := d |};
  |}.
  abstract done.
Defined.

#[global] Instance Printer_Clock : Clock Printer := { now d := (0, d) }.

Definition idle (d : Printer) : Printer := queued [] d.

(** What a printer of the profile reports. *)
Definition expected_inspection (p : BrotherModelProfile) (d : Printer) : DeviceSettingsInspection := {|
  model := profile_id p;
  identity_response := Some (status_reply d);
  observations := map (fun s => answered s (setting_reply d s)) (settings p);
  inspection_error := None;
|}.

Lemma answered_reply d s v :
  decode_value s (stored d s) = Some v ->
  value (answered s (setting_reply d s)) = Some v /\ error (answered s (setting_reply d s)) = None.
Proof.
  intros Hv. assert (decode s (setting_reply d s) = Some v) as E.
  { unfold decode. destruct s; cbn in *; exact Hv. }
  unfold answered. cbn [value error]. by rewrite E.
Qed.

Lemma write_printer {E} command d :
  zlen command <= 4096 -> etry (F := E) (write_command command) d = (Ok (Ok tt), queued (pending d ++ reply d command) d).
Proof.
  intros Hc. unfold etry, write_command, ebind, borrow. cbn -[zlen].
  replace (4096 <? zlen command) with false by lia. done.
Qed.

Lemma read_printer fuel frame d :
  (1 <= fuel)%nat -> 1 <= zlen frame <= 32 -> pending d = [frame] ->
  read_exact_response fuel (zlen frame) d = (Ok frame, idle d).
Proof.
  intros Hf Hl Hp. unfold read_exact_response, ebind, borrow. cbn [now Printer_Clock].
  destruct fuel as [|fuel]; [lia|]. cbn [read_loop]. rewrite zlen_nil. replace (0 <? zlen frame) with true by lia.
  unfold elapsed, remaining_wait, await_text, await, borrow, ebind, eret, eresult.
  cbn -[zlen read_loop saturate next_response str show_dec]. change (0 `max` (0 - 0) <? RESPONSE_TIMEOUT) with true. cbv iota.
  unfold next_response. rewrite Hp. destruct frame as [|b frame]; [by rewrite zlen_nil in Hl|].
  cbn -[zlen read_loop saturate str show_dec]. unfold ecase.
  rewrite saturate_id by (rewrite ?zlen_nil; unfold in_u, usize_max, u64_max; lia). rewrite ?zlen_nil, Z.add_0_l, Z.ltb_irrefl.
  destruct fuel; cbn [read_loop]; rewrite Z.ltb_irrefl; unfold short_response, ecase; rewrite Z.eqb_refl; done.
Qed.

Lemma settings_loop_printer {E} fuel l i d :
  (1 <= fuel)%nat -> pending d = [] ->
  settings_loop (E := E) fuel l i d =
    (Ok {| model := model i; identity_response := identity_response i;
           observations := observations i ++ map (fun s => answered s (setting_reply d s)) l;
           inspection_error := inspection_error i |}, d).
Proof.
  intros Hf. revert i d. induction l as [|s l IH]; intros i d Hp; cbn [settings_loop].
  { rewrite app_nil_r. by destruct i. }
  assert (etry (F := E) (query fuel s) d = (Ok (Ok (setting_reply d s)), d)) as Hq.
  { pose proof (write_printer (E := list Z) (setting_command s) d) as Hw. unfold etry in Hw. unfold etry, query, ebind.
    destruct (write_command (setting_command s) d) as [[[]|[e|]] d']; [|specialize (Hw ltac:(by destruct s)); discriminate..].
    injection Hw as ->; [|by destruct s]. rewrite Hp.
    assert (reply d (setting_command s) = [setting_reply d s]) as -> by by destruct s.
    assert (response_size s = zlen (setting_reply d s)) as -> by by destruct s.
    rewrite read_printer by (done || by destruct s). destruct d. cbn in *. by subst. }
  unfold ebind at 1. rewrite Hq, IH by done. cbn [push model identity_response observations inspection_error]. by rewrite <- app_assoc.
Qed.
Definition stale_bytes (l : list (list Z)) : Z := foldr (fun frame n => zlen frame + n) 0 l.

Lemma drain_printer fuel d :
  Forall (fun frame => frame <> []) (pending d) -> (length (pending d) < fuel)%nat ->
  stale_bytes (pending d) <= MAX_DRAIN_BYTES ->
  drain_stale_responses fuel d = (Ok tt, idle d).
Proof.
  unfold drain_stale_responses. intros Hn Hf. change (stale_bytes (pending d)) with (0 + stale_bytes (pending d)).
  assert (0 <= 0) as H0 by lia. revert H0. generalize 0 at 2 3 4. revert d Hn Hf.
  induction fuel as [|fuel IH]; intros d Hn Hf drained H0 Hs; [lia|].
  cbn [drain_loop]. unfold await_text, await, borrow, ebind, eresult.
  cbn -[zlen drain_loop next_response str MAX_DRAIN_BYTES checked]. unfold next_response.
  destruct d as [series code stored [|frame rest]]; [done|]. cbn [pending queued stale_bytes foldr length] in *.
  apply Forall_cons_1 in Hn as [Hne Hn]. destruct frame as [|b frame]; [done|]. set (f := b :: frame) in *.
  fold (stale_bytes rest) in Hs. pose proof (zlen_nonneg f).
  assert (0 <= stale_bytes rest) by (clear; unfold stale_bytes; induction rest as [|f rest IH]; cbn [foldr]; [lia|]; pose proof (zlen_nonneg f); lia).
  cbn -[zlen drain_loop str MAX_DRAIN_BYTES checked]. unfold MAX_DRAIN_BYTES in *.
  rewrite checked_id by (unfold in_u, usize_max, u64_max; lia). cbn -[zlen drain_loop str]. unfold ecase.
  replace (32 * 1024 <? drained + zlen f) with false by lia. rewrite IH; [done|done|cbn; lia|lia|]. cbn [pending queued]. lia.
Qed.

(** whatever the transport answers, the retrieval of a printer's settings
    ends and is one of the sessions: it writes the status request, enters the
    settings mode only after the printer identified itself as the chosen
    model, sends the fixed read commands of its profile in order, reports an
    answer of the right size or a last failure for each, and leaves the
    settings mode whenever it entered it. Every frame has a byte and every
    command fits the transport. *)
Theorem device_settings_session {T} `{Transport T, Clock T} fuel p (t : Traced T)
    (Hroomy : forall t : T, 8 <= (command_limit t).1) (Hframes : nonempty_frames T)
    (Hfuel : MAX_DRAIN_BYTES < Z.of_nat fuel) :
  exists i t' ws, retrieve_device_settings (E := False) fuel p t = (Ok i, t') /\ written t' = written t ++ ws /\ Session p i ws.
Proof.
  pose proof (device_retrieval_ends (E := False) (traced_frames Hframes) fuel p Hfuel t) as He.
  destruct (device_session (E := False) Hroomy fuel p t) as (ws & Hw & Hs). unfold spec in He.
  destruct (retrieve_device_settings fuel p t) as [[i|[[]|]] t']; [|done]. exists i, t', ws. auto.
Qed.

(** C26: a printer of the chosen model is read completely: after its stale
    responses are discarded, every setting of the profile is reported with the
    value that the printer holds, without an error, and nothing is left
    unread. *)
Theorem device_settings_read_back {E} fuel p d
    (Hframes : Forall (fun frame => frame <> []) (pending d))
    (Hfuel : (length (pending d) < fuel)%nat)
    (Hstale : stale_bytes (pending d) <= MAX_DRAIN_BYTES)
    (Hseries : series d = series_code p) (Hcode : code d = model_code p) :
  retrieve_device_settings (E := E) fuel p d = (Ok (expected_inspection p d), idle d) /\
  (forall s v, decode_value s (stored d s) = Some v ->
     value (answered s (setting_reply d s)) = Some v /\ error (answered s (setting_reply d s)) = None).
Proof.
  split; [|intros s v; apply answered_reply]. unfold retrieve_device_settings.
  unfold ebind at 1. unfold etry at 1. rewrite drain_printer by done.
  unfold ebind at 1. rewrite write_printer by done.
  change (queued (pending (idle d) ++ reply (idle d) STATUS_REQUEST) (idle d)) with (queued [status_reply d] d).
  unfold ebind at 1. unfold etry at 1. change 32 with (zlen (status_reply d)).
  rewrite read_printer by (done || lia). 
  change (status_reply d !! 3%nat) with (Some (series d)). change (status_reply d !! 4%nat) with (Some (code d)). cbv iota beta.
  replace (series d =? series_code p) with true by lia. replace (code d =? model_code p) with true by lia. cbn [negb orb].
  unfold ebind at 1. rewrite write_printer by done.
  change (queued (pending (idle _) ++ reply (idle _) ENTER_SETTINGS_MODE) (idle _)) with (idle d).
  unfold ebind at 1. rewrite settings_loop_printer by (done || lia).
  unfold exit_settings_mode, ebind. by rewrite write_printer by done.
Qed.

(** A QL-800 that was left with a stale response. *)
Definition example_printer : Printer := {|
  series := 0x34;
  code := 0x38;
  stored s := match s with CommandMode => 1 | AutoCut => 9 | PrintDensityColor1 => 130 | PrintDensityColor2 => 126 | SerializeMode => 1 end;
  pending := [[1; 2; 3]];
|}.

Definition ql_800 : BrotherModelProfile := profile (str "ql-800") (str "Brother QL-800") 0x34 0x38 MULTICOLOR.

Lemma printer_frames : nonempty_frames Printer.
Proof.
  intros timeout d bytes d'. cbn. unfold next_response. destruct (pending d) as [|[|b frame] rest]; [done..|]. by intros [= <- _].
Qed.

Lemma device_settings_session_witness :
  model_profile (str "QL-800") = Some ql_800 /\
  exists i t' ws,
    retrieve_device_settings (E := False) (Z.to_nat 32769) ql_800 {| traced := example_printer; trace := [] |} = (Ok i, t') /\
    written t' = [] ++ ws /\ Session ql_800 i ws.
Proof.
  split; [vm_compute; reflexivity|].
  apply (device_settings_session (T := Printer) (Z.to_nat 32769) ql_800 {| traced := example_printer; trace := [] |}).
  - intros d. cbn. lia.
  - apply printer_frames.
  - unfold MAX_DRAIN_BYTES. lia.
Defined.

Lemma device_settings_read_back_witness :
  map value (observations (expected_inspection ql_800 example_printer)) =
    [Some (SettingValue.Keyword (str "raster")); Some (SettingValue.Keyword (str "auto-cut-and-cut-at-end"));
     Some (SettingValue.Integer 2); Some (SettingValue.Integer (-2)); Some (SettingValue.Keyword (str "continue-from-last"))] /\
  retrieve_device_settings (E := False) 2 ql_800 example_printer =
    (Ok (expected_inspection ql_800 example_printer), idle example_printer) /\
  (forall s v, decode_value s (stored example_printer s) = Some v ->
     value (answered s (setting_reply example_printer s)) = Some v /\
     error (answered s (setting_reply example_printer s)) = None).
Proof.
  split; [vm_compute; reflexivity|].
  apply (device_settings_read_back 2 ql_800 example_printer).
  - repeat constructor. done.
  - cbn. lia.
  - vm_compute. done.
  - reflexivity.
  - reflexivity.
Defined.

End DeviceSettingsFacts.
