(* ===== verification/WirelessSettingsFacts.v ===== *)
(** What the retrieval of wireless settings writes, reports and waits for,
    whatever the transport answers, and what it reads from a printer. *)

From stdpp Require Import base list strings numbers option.
From S2P Require Import Prelude Text Effects Transport Administration BrotherWifi BrotherWifiFacts Executor BrotherSettings BrotherSettingsFacts.

#[local] Open Scope Z_scope.

Import WirelessRetrieval.

(** ** Sessions *)

Definition read_command (f : WirelessField) : list Z := default [] (result_ok (field_command f)).

Lemma read_command_spec f : field_command f = Ok (read_command f).
Proof. by destruct f. Qed.

(** The writes of one attempt to read a field. *)
Definition query (f : WirelessField) : list (list Z) :=
  [read_command f; repeat 0 INVALIDATE_BYTES; STATUS_PREAMBLE; STATUS_REQUEST].

(** A query that was given up after some of its writes. *)
Definition given_up (f : WirelessField) (ws : list (list Z)) : Prop := ws <> [] /\ ws `prefix_of` query f.

(** A reply to the field: it has the object's value, and is bounded. *)
Definition replied (f : WirelessField) (response : list Z) : Prop :=
  is_Some (parse_oid_value response (oid f)) /\ zlen response <= MAX_RESPONSE_BYTES.

Inductive FieldSession (f : WirelessField) : BrotherSettingObservation -> list (list Z) -> Prop :=
| not_sent text : FieldSession f (failed_observation f text) []
| first_reply response : replied f response -> FieldSession f (answered f response) (query f)
| second_reply response ws : given_up f ws -> replied f response -> FieldSession f (answered f response) (ws ++ query f)
| no_reply text ws ws' : given_up f ws -> given_up f ws' -> FieldSession f (failed_observation f text) (ws ++ ws').

(** A session with a printer: nothing, or one query per field. *)
Inductive Retrieval : BrotherSettingsInspection -> list (list Z) -> Prop :=
| drain_failed_retrieval text : Retrieval {| observations := map (fun f => drain_failed f text) WirelessField_ALL |} []
| fields_retrieval obs wss :
    Forall2 (fun f '(o, ws) => FieldSession f o ws) WirelessField_ALL (zip obs wss) -> length obs = length wss ->
    Retrieval {| observations := obs |} (concat wss).

Lemma given_up_query f : given_up f (query f).
Proof. split; [by destruct f|done]. Qed.

Section Retrieval.
Context {T : Type} `{Transport T, Clock T}.

Lemma matching_loop_replies fuel f started response :
  emits (fun r ws => ws = [] /\ forall bytes, r = Ok bytes -> replied f bytes)
    (matching_loop (T := Traced T) fuel f started response).
Proof.
  revert response. induction fuel as [|fuel IH]; intros response; cbn [matching_loop]; [by apply (emits_pure _ (Err Panicked))|].
  apply emits_bind_silent; [auto with silent| |done]. intros spent.
  destruct (spent <? RESPONSE_TIMEOUT); [|by apply (emits_pure _ (fail _))].
  apply emits_bind_silent; [apply silent_remaining_wait| |done]. intros timeout.
  apply emits_bind_silent; [auto with silent| |done]. intros [bytes| |]; [|by apply (emits_pure _ (fail _))..].
  unfold ecase. destruct (MAX_RESPONSE_BYTES <? _) eqn:Hmax; [by apply (emits_pure _ (fail _))|]. cbv zeta.
  destruct (reports (response ++ bytes) f) eqn:Hr; [|apply IH].
  apply (emits_pure _ (Ok (response ++ bytes))). split; [done|]. intros ? [= <-]. split.
  - unfold reports in Hr. by destruct (parse_oid_value _ _).
  - rewrite zlen_app. unfold saturate, MAX_RESPONSE_BYTES, usize_max, u64_max in *. lia.
Qed.

(** What an attempt has written when it ends. *)
Lemma attempt_writes fuel f :
  emits (fun r ws => given_up f ws /\ forall bytes, r = Ok bytes -> ws = query f /\ replied f bytes)
    (attempt (T := Traced T) fuel f (read_command f)).
Proof.
  unfold attempt.
  assert (forall n, (0 < n)%nat -> given_up f (take n (query f))) as Hprefix.
  { intros [|n] Hn; [lia|]. split; [done|]. apply prefix_take. }
  apply (emits_seq _ _ _ _ (emits_write_text _ _)); [intros _ ? ->|intros e ? ->; split; [apply (Hprefix 1%nat); lia|done]].
  apply (emits_seq _ _ _ _ (emits_write_text _ _)); [intros _ ? ->|intros e ? ->; split; [apply (Hprefix 2%nat); lia|done]].
  apply (emits_seq _ _ _ _ (emits_write_text _ _)); [intros _ ? ->|intros e ? ->; split; [apply (Hprefix 3%nat); lia|done]].
  apply emits_bind_silent; [apply silent_delay|intros _|intros e; split; [apply (Hprefix 3%nat); lia|done]].
  apply (emits_seq _ _ _ _ (emits_write_text _ _)); [intros _ ? ->|intros e ? ->; split; [apply given_up_query|done]].
  apply emits_bind_silent; [apply silent_now|intros started|intros e; split; [apply given_up_query|done]].
  eapply emits_mono; [apply matching_loop_replies|]. intros r ws [-> Hr]. split; [apply given_up_query|]. auto.
Qed.

Lemma tried_attempt fuel f :
  emits (fun (r : Result (Fault (list Z)) (Result (list Z) (list Z))) ws => match r with
      | Ok r => given_up f ws /\ forall bytes, r = Ok bytes -> ws = query f /\ replied f bytes
      | Err (Raised _) => False
      | Err Panicked => True
      end)
    (etry (attempt (T := Traced T) fuel f (read_command f))).
Proof. eapply emits_etry; [apply attempt_writes|naive_solver..]. Qed.

Definition attempted (f : WirelessField) (r : Result (list Z) (list Z)) (ws : list (list Z)) : Prop :=
  match r with
  | Ok bytes => replied f bytes /\ (ws = query f \/ exists w, given_up f w /\ ws = w ++ query f)
  | Err _ => exists w w', given_up f w /\ given_up f w' /\ ws = w ++ w'
  end.

Lemma attempts_write fuel f text :
  emits (fun r ws => match r with
      | Ok bytes => attempted f (Ok bytes) ws
      | Err (Raised e) => attempted f (Err e) ws
      | Err Panicked => True
      end)
    (attempts_loop (T := Traced T) fuel MAX_ATTEMPTS f (read_command f) text).
Proof.
  unfold MAX_ATTEMPTS. cbn [attempts_loop].
  apply (emits_seq _ _ _ _ (tried_attempt fuel f)).
  2: { by intros [e|] w Hw. }
  intros [bytes|text1] w [Hg Hr].
  { destruct (Hr bytes eq_refl) as [-> Hb]. apply (emits_pure _ (Ok bytes)). rewrite app_nil_r. by split; [|left]. }
  apply (emits_seq _ _ _ _ (tried_attempt fuel f)).
  2: { by intros [e|] w' Hw. }
  intros [bytes|text2] w' [Hg' Hr'].
  - destruct (Hr' bytes eq_refl) as [-> Hb]. apply (emits_pure _ (Ok bytes)). split; [done|]. right. exists w. by rewrite app_nil_r.
  - apply (emits_pure _ (fail text2)). exists w, w'. by rewrite app_nil_r.
Qed.
End Retrieval.

Section Sessions.
Context {T : Type} `{Transport T, Clock T}.

Lemma retrieve_field_session {E} fuel f :
  emits (E := E) (returns (FieldSession f)) (retrieve_field (T := Traced T) fuel f).
Proof.
  unfold retrieve_field. rewrite read_command_spec.
  apply emits_bind_silent; [apply silent_command_limit| |done]. intros limit. destruct (limit <? _).
  { apply emits_bind_silent; [apply silent_command_limit| |done]. intros limit'. apply returning_ret, not_sent. }
  apply (returning_try (attempted f)); [apply attempts_write|].
  intros [bytes|text] w Hw.
  - apply returning_ret. rewrite app_nil_r. destruct Hw as [Hr [->|(w' & Hg & ->)]]; [by apply first_reply|by apply second_reply].
  - apply returning_ret. rewrite app_nil_r. destruct Hw as (w1 & w2 & H1 & H2 & ->). by apply no_reply.
Qed.

Lemma fields_loop_session {E} fuel l :
  emits (E := E) (returns (fun obs ws => exists wss, ws = concat wss /\ length obs = length wss /\
      Forall2 (fun f '(o, w) => FieldSession f o w) l (zip obs wss)))
    (fields_loop (T := Traced T) fuel l).
Proof.
  induction l as [|f l IH]; cbn [fields_loop]; [apply returning_ret; exists []; by split_and!; [..|constructor]|].
  apply (emits_seq _ _ _ _ (retrieve_field_session fuel f)); [|by intros e w _ ?].
  intros o w Hf. apply (emits_seq _ _ _ _ IH); [|by intros e w' _ ?]. intros obs w' Hl.
  destruct (Hl obs eq_refl) as (wss & -> & Hlen & Hall). apply (emits_pure _ (Ok (o :: obs))). intros ? [= <-].
  exists (w :: wss). cbn. rewrite app_nil_r. split_and!; [done|by rewrite Hlen|]. constructor; [by apply Hf|done].
Qed.

Lemma wireless_session {E} fuel : emits (E := E) (returns Retrieval) (retrieve_wireless_settings (T := Traced T) fuel).
Proof.
  apply (returning_try (fun _ ws => ws = [])).
  { eapply emits_mono; [apply silent_drain|]. by intros [?|[?|]] ws. }
  intros [[]|text] w ->; [|apply returning_ret, drain_failed_retrieval].
  apply (emits_seq _ _ _ _ (fields_loop_session fuel WirelessField_ALL)); [|by intros e w _ ?].
  intros obs w Hl. destruct (Hl obs eq_refl) as (wss & -> & Hlen & Hall). apply returning_ret. rewrite app_nil_r. by apply fields_retrieval.
Qed.

(** With one transport per query every query is a session of its own. *)
Lemma opening_sessions {E O} (open : O -> Result (list Z) (Traced T) * O) fuel l o opened o' :
  (forall o t o', open o = (Ok t, o') -> trace t = []) ->
  opening_loop (E := E) open fuel l o = (Ok opened, o') ->
  Forall2 (fun f '(observation, closed) =>
    match closed with
    | Some t => FieldSession f observation (written t)
    | None => exists text, observation = failed_observation f text
    end) l opened.
Proof.
  intros Hopen. revert o opened o'. induction l as [|f l IH]; intros o opened o'; cbn [opening_loop]; [intros [= <- _]; constructor|].
  destruct (open o) as [[t|text] o1] eqn:Eo.
  - destruct (retrieve_field_session (E := E) fuel f t) as (ws & Hw & Hs).
    destruct (retrieve_field fuel f t) as [[observation|e] t']; [|done]. unfold ebind.
    destruct (opening_loop open fuel l o1) as [[rest|e] o2] eqn:El; [|done]. intros [= <- _]. constructor; [|by eapply IH].
    assert (written t = []) as Ht by (unfold written; by rewrite (Hopen _ _ _ Eo)).
    cbn in Hw. rewrite Hw, Ht. by apply Hs.
  - unfold ebind. destruct (opening_loop open fuel l o1) as [[rest|e] o2] eqn:El; [|done]. intros [= <- _].
    constructor; [eauto|by eapply IH].
Qed.
End Sessions.

(** ** The deadline *)

(** Responses take at least [tick] nanoseconds and the clock does not go back. *)
Record timely (T : Type) `{Transport T, Clock T} (tick : Z) : Prop := {
  tick_positive : 0 < tick;
  frames_take_time : forall timeout t bytes t',
    complete (wait_response timeout) t = (Ok (Response bytes), t') -> (now t).1 + tick <= (now t').1;
  clock_monotone : forall t, (now t).1 <= (now (now t).2).1;
}.

Section Termination.
Context {T : Type} `{Transport T, Clock T}.
Variable tick : Z.
Hypothesis time : timely T tick.

#[local] Abbreviation calm := (fun e _ => e <> Panicked).

Lemma spec_now {E} (t : T) (Q : Z -> T -> Prop) (X : Fault E -> T -> Prop) :
  (forall t', (now t).1 <= (now t').1 -> Q (now t).1 t') -> spec (borrow now) t Q X.
Proof.
  intros HQ. pose proof (clock_monotone T tick time t) as Hc. unfold spec, borrow. destruct (now t) as [n t'] eqn:En.
  cbn in *. apply (HQ t'). done.
Qed.

Lemma matching_loop_ends fuel f started response t :
  (1 <= fuel)%nat -> started + RESPONSE_TIMEOUT <= (now t).1 + tick * (Z.of_nat fuel - 1) ->
  spec (matching_loop fuel f started response) t (fun _ _ => True) calm.
Proof.
  pose proof (tick_positive T tick time) as Ht.
  revert response t. induction fuel as [|fuel IH]; intros response t H1 Hf; [lia|]. cbn [matching_loop].
  apply spec_bind, spec_bind, spec_now. intros t1 Hn1. apply spec_ret.
  destruct (_ <? RESPONSE_TIMEOUT) eqn:Hd; [|by apply spec_throw].
  assert (1 <= fuel)%nat as Hfuel. { destruct fuel; [|lia]. replace (Z.of_nat 1 - 1) with 0 in Hf by lia. lia. }
  apply spec_bind, spec_bind, spec_bind, spec_now. intros t2 Hn2. apply spec_ret, spec_ret. cbv zeta.
  apply spec_bind. unfold await_text, await. apply spec_bind. unfold spec at 1, borrow. destruct (complete _ t2) as [r t3] eqn:E.
  apply spec_result; [|done]. intros outcome Ho. apply map_err_Ok in Ho as ->. destruct outcome as [bytes| |]; [|by apply spec_throw..].
  apply (frames_take_time T tick time) in E. apply spec_ecase; [done|]. intros _.
  destruct (reports _ _); [by apply spec_ret|]. apply IH; [done|]. nia.
Qed.

Definition enough (fuel : nat) : Prop := MAX_DRAIN_BYTES < Z.of_nat fuel /\ RESPONSE_TIMEOUT <= tick * (Z.of_nat fuel - 1).

Lemma retrieve_field_ends {E} fuel f : enough fuel -> ends (T := T) (E := E) (fun _ => True) (retrieve_field fuel f).
Proof.
  intros [Hd Hf]. unfold retrieve_field. rewrite read_command_spec.
  apply (ends_bind (fun _ => True)); [by apply ends_borrow|]. intros limit _. destruct (limit <? _).
  { apply (ends_bind (fun _ => True)); [by apply ends_borrow|]. intros ? _. by apply ends_ret. }
  assert (forall bytes kind, ends (T := T) (fun _ => True) (await_text (write bytes kind))) as Hwrite by (intros; by apply ends_await_text).
  assert (ends (T := T) (fun _ => True) (attempt fuel f (read_command f))) as Hattempt.
  { do 3 (apply (ends_bind (fun _ => True)); [apply Hwrite|]; intros _ _).
    apply (ends_bind (fun _ => True)); [by apply ends_borrow|]; intros _ _.
    apply (ends_bind (fun _ => True)); [apply Hwrite|]; intros _ _.
    intros t. apply spec_bind, spec_now. intros t' Hn. apply matching_loop_ends; unfold MAX_DRAIN_BYTES in Hd; lia. }
  apply (ends_bind (fun _ => True)); [|intros [bytes|text] _; by apply ends_ret].
  eapply ends_mono; [apply ends_try|done]. instantiate (1 := fun _ => True).
  generalize (str "response timed out"). generalize MAX_ATTEMPTS. intros n. induction n as [|n IH]; intros text; cbn [attempts_loop]; [apply ends_throw|].
  apply (ends_bind (fun _ => True)); [eapply ends_mono; [apply ends_try, Hattempt|done]|]. intros [bytes|text'] _; [by apply ends_ret|apply IH].
Qed.

Hypothesis frames : nonempty_frames T.

Lemma wireless_retrieval_ends {E} fuel : enough fuel -> ends (T := T) (E := E) (fun _ => True) (retrieve_wireless_settings fuel).
Proof.
  intros He. apply (ends_bind (fun _ => True)); [eapply ends_mono; [apply ends_try, (drain_ends frames); apply He|done]|].
  intros [[]|text] _; [|by apply ends_ret].
  apply (ends_bind (fun _ => True)); [|intros ? _; by apply ends_ret].
  generalize WirelessField_ALL. intros l. induction l as [|f l IH]; cbn [fields_loop]; [by apply ends_ret|].
  apply (ends_bind (fun _ => True)); [by apply retrieve_field_ends|]. intros o _.
  apply (ends_bind (fun _ => True)); [done|]. intros obs _. by apply ends_ret.
Qed.
End Termination.

Lemma traced_timely {T} `{Transport T, Clock T} tick : timely T tick -> timely (Traced T) tick.
Proof.
  intros [Ht Hf Hm]. split; [done| |].
  - intros timeout t bytes t' E. cbn -[log] in *. destruct (complete (wait_response timeout) (traced t)) as [a t1] eqn:E1.
    injection E as -> <-. specialize (Hf _ _ _ _ E1). cbn [traced log]. by destruct (now (traced t)), (now t1).
  - intros t. specialize (Hm (traced t)). cbn. destruct (now (traced t)) as [n t1]. cbn in *. by destruct (now t1).
Qed.

(** whatever the transport answers, the retrieval of the wireless settings
    ends and is one of the sessions: either the stale input cannot be drained
    and nothing is written, or every field is asked in order with the fixed
    read command, at most twice, and reported with a reply of at most 4000
    bytes that has its own object's value, or with an error. Frames have a
    byte and take a [tick] of time, and the clock does not go back. *)
Theorem wireless_settings_session {T} `{Transport T, Clock T} fuel tick (t : Traced T)
    (Htime : timely T tick) (Hframes : nonempty_frames T) (Hfuel : enough tick fuel) :
  exists i t' ws, retrieve_wireless_settings (E := False) fuel t = (Ok i, t') /\ written t' = written t ++ ws /\ Retrieval i ws.
Proof.
  pose proof (wireless_retrieval_ends (E := False) tick (traced_timely tick Htime) (traced_frames Hframes) fuel Hfuel t) as He.
  destruct (wireless_session (E := False) fuel t) as (ws & Hw & Hs). unfold spec in He.
  destruct (retrieve_wireless_settings fuel t) as [[i|[[]|]] t']; [|done]. exists i, t', ws. auto.
Qed.

(** ** A printer that answers *)

(** What a printer holds for each field; replies to earlier queries may come
    before the reply to a query. *)
Record Printer := {
  held : WirelessField -> list Z;
  late : WirelessField -> list (WirelessField * list Z);
  clock : Z;
  pending : list (list Z);
}.

Definition field_report (f : WirelessField) (v : list Z) : list Z := printer_reply [(oid f, v)].

Definition replies (d : Printer) (f : WirelessField) : list (list Z) :=
  map (fun '(g, v) => field_report g v) (late d f) ++ [field_report f (held d f)].

Definition queued (l : list (list Z)) (d : Printer) : Printer :=
  {| held := held d; late := late d; clock := clock d; pending := l |}.

Definition reply (d : Printer) (bytes : list Z) : list (list Z) :=
  match List.find (fun f => bool_decide (read_command f = bytes)) WirelessField_ALL with
  | Some f => replies d f
  | None => []
  end.

(** A frame takes a second; there are no empty frames. *)
Definition next_response (d : Printer) : Result TransportError WaitOutcome * Printer :=
  match pending d with
  | [] => (Ok TimedOut, d)
  | [] :: rest => (Ok TimedOut, queued rest d)
  | frame :: rest =>
      (Ok (Response frame), {| held := held d; late := late d; clock := clock d + 1000000000; pending := rest |})
  end.

#[global] Instance Printer_Transport : Transport Printer.
Proof.
  refine {|
    payload_limit d := (4096, d);
    command_limit d := (4096, d);
    subscribe_notifications := {| complete d := (Ok NotificationsUnavailable, d); dropped d := d |};
    write bytes _ := {| complete d := (Ok tt, queued (pending d ++ reply d bytes) d); dropped d := d |};
    wait_response _ := {| complete := next_response; dropped d := d |};
    delay_for _ := {| complete d := (tt, d); dropped d := d |};
  |}.
  abstract done.
Defined.

#[global] Instance Printer_Clock : Clock Printer := { now d := (clock d, d) }.

Lemma report_entry f v : Forall value_char v -> Forall entry_ok [(oid f, v)].
Proof.
  intros Hv. repeat constructor; [by destruct f|apply oid_charb_spec; by destruct f|done].
Qed.

Lemma parse_report f g v :
  Forall value_char v ->
  parse_oid_value (field_report g v) (oid f) =
    if decide (g = f) then Some (if decide (f = Ssid) then decode_ssid v else v) else None.
Proof.
  intros Hv. unfold field_report. rewrite parse_reply by (by apply report_entry || by destruct f).
  by destruct f, g.
Qed.

Lemma reports_report f g v : Forall value_char v -> reports (field_report g v) f = bool_decide (g = f).
Proof. intros Hv. unfold reports. rewrite parse_report by done. by case_decide; [rewrite bool_decide_true|rewrite bool_decide_false]. Qed.

Lemma late_report f g v : Forall value_char v -> g <> f -> late_reply f (field_report g v) = true.
Proof.
  intros Hv Hgf. unfold late_reply. apply existsb_exists. exists g. split; [by destruct g; cbn; tauto|].
  rewrite reports_report, (bool_decide_false (g = f)) by done. by rewrite bool_decide_true.
Qed.

Section Reading.
Variable d : Printer.
Hypothesis held_ok : forall f, Forall value_char (held d f) /\ zlen (field_report f (held d f)) <= MAX_RESPONSE_BYTES.
Hypothesis late_ok : forall f, Forall (fun '(g, v) => g <> f /\ Forall value_char v /\ zlen (field_report g v) <= MAX_RESPONSE_BYTES) (late d f).

Definition at_time (c : Z) (l : list (list Z)) : Printer := {| held := held d; late := late d; clock := c; pending := l |}.

Lemma wait_printer timeout c frame rest :
  frame <> [] ->
  await_text (wait_response timeout) (at_time c (frame :: rest)) = (Ok (Response frame), at_time (c + 1000000000) rest).
Proof. by destruct frame. Qed.

(** One turn of the reading loop. *)
Lemma matching_step fuel f started c frame rest :
  frame <> [] -> zlen frame <= MAX_RESPONSE_BYTES -> started <= c < started + RESPONSE_TIMEOUT ->
  matching_loop (S fuel) f started [] (at_time c (frame :: rest)) =
    (if reports frame f then eret frame
     else matching_loop fuel f started (if late_reply f frame then [] else frame)) (at_time (c + 1000000000) rest).
Proof.
  intros Hne Hlen Hc. cbn [matching_loop]. unfold elapsed, remaining_wait, borrow.
  unfold ebind at 1. cbn -[zlen str matching_loop reports late_reply RESPONSE_TIMEOUT await_text wait_response].
  replace (0 `max` (c - started) <? RESPONSE_TIMEOUT) with true by lia.
  unfold elapsed, borrow, ebind. cbn -[zlen str matching_loop reports late_reply RESPONSE_TIMEOUT await_text wait_response].
  rewrite wait_printer by done. cbn -[zlen str matching_loop reports late_reply RESPONSE_TIMEOUT MAX_RESPONSE_BYTES saturate].
  unfold ecase. rewrite zlen_nil, Z.add_0_l.
  rewrite saturate_id by (pose proof (zlen_nonneg frame); unfold in_u, MAX_RESPONSE_BYTES, usize_max, u64_max in *; lia).
  by replace (MAX_RESPONSE_BYTES <? zlen frame) with false by lia.
Qed.

(** The reading loop passes over the late replies. *)
Lemma matching_printer fuel f started c l :
  Forall (fun '(g, v) => g <> f /\ Forall value_char v /\ zlen (field_report g v) <= MAX_RESPONSE_BYTES) l ->
  (length l < fuel)%nat -> started <= c -> c + Z.of_nat (length l) * 1000000000 < started + RESPONSE_TIMEOUT ->
  exists c', c <= c' /\
    matching_loop fuel f started [] (at_time c (map (fun '(g, v) => field_report g v) l ++ [field_report f (held d f)])) =
    (Ok (field_report f (held d f)), at_time c' []).
Proof.
  intros Hl. revert fuel c. induction Hl as [|[g v] l (Hgf & Hv & Hlen) Hl IH]; intros [|fuel] c Hf Hs Hd; cbn [length] in *; try lia.
  - exists (c + 1000000000). split; [lia|]. cbn [map app]. destruct (held_ok f) as [Hok Hsize].
    rewrite matching_step by (done || lia). by rewrite reports_report, bool_decide_true.
  - cbn [map app]. rewrite matching_step by (done || lia). rewrite reports_report, bool_decide_false, late_report by done.
    destruct (IH fuel (c + 1000000000)) as (c' & Hc & ->); [lia..|]. exists c'. split; [lia|done].
Qed.
Lemma write_field_printer c l bytes :
  await_text (write bytes Command) (at_time c l) = (Ok tt, at_time c (l ++ reply d bytes)).
Proof. done. Qed.

Lemma retrieve_field_printer {E} fuel f c :
  (length (late d f) < fuel)%nat -> (length (late d f) < 10)%nat ->
  exists c', c <= c' /\
    retrieve_field (E := E) fuel f (at_time c []) = (Ok (answered f (field_report f (held d f))), at_time c' []).
Proof.
  intros Hf Hd.
  destruct (matching_printer fuel f c c (late d f) (late_ok f) Hf) as (c' & Hc & Hm); [done|unfold RESPONSE_TIMEOUT; lia|].
  assert (attempt fuel f (read_command f) (at_time c []) = (Ok (field_report f (held d f)), at_time c' [])) as Hattempt.
  { unfold attempt. unfold ebind at 1. rewrite write_field_printer.
    unfold ebind at 1. rewrite write_field_printer. unfold ebind at 1. rewrite write_field_printer.
    unfold ebind at 1. change (delay (from_millis 100) ?x) with (@Ok (Fault (list Z)) unit tt, x).
    unfold ebind at 1. rewrite write_field_printer.
    assert ((((([] ++ reply d (read_command f)) ++ reply d (repeat 0 INVALIDATE_BYTES)) ++ reply d STATUS_PREAMBLE) ++
      reply d STATUS_REQUEST) = replies d f) as ->.
    { assert (reply d (read_command f) = replies d f) as -> by by destruct f.
      change (reply d (repeat 0 INVALIDATE_BYTES)) with (@nil (list Z)). change (reply d STATUS_PREAMBLE) with (@nil (list Z)).
      change (reply d STATUS_REQUEST) with (@nil (list Z)). by rewrite !app_nil_r. }
    exact Hm. }
  exists c'. split; [done|]. unfold retrieve_field. rewrite read_command_spec.
  unfold ebind at 1, borrow. cbn -[zlen str attempts_loop answered show_dec].
  replace (4096 <? zlen (read_command f)) with false by by destruct f.
  unfold ebind, etry, MAX_ATTEMPTS. cbn [attempts_loop]. unfold ebind, etry. by rewrite Hattempt.
Qed.

Lemma fields_loop_printer {E} fuel l c :
  Forall (fun f => (length (late d f) < fuel)%nat /\ (length (late d f) < 10)%nat) l ->
  exists c', fields_loop (E := E) fuel l (at_time c []) = (Ok (map (fun f => answered f (field_report f (held d f))) l), at_time c' []).
Proof.
  intros Hl. revert c. induction Hl as [|f l [Hf Hd] Hl IH]; intros c; cbn [fields_loop map]; [by exists c|].
  destruct (retrieve_field_printer (E := E) fuel f c Hf Hd) as (c1 & _ & H1). destruct (IH c1) as (c2 & H2).
  exists c2. unfold ebind at 1. rewrite H1. unfold ebind. by rewrite H2.
Qed.
End Reading.

(** What the object's value decodes to. *)
Definition object_value (f : WirelessField) (v : list Z) : list Z := if decide (f = Ssid) then decode_ssid v else v.

(** C27: a printer is read completely: when it reports every field, each after
    up to nine late replies to queries of other fields, the observation of a
    field is the reply with its own value and no other, decoded. *)
Theorem wireless_settings_read_reported {E} fuel d
    (Hidle : pending d = [])
    (Hheld : forall f, Forall value_char (held d f) /\ zlen (field_report f (held d f)) <= MAX_RESPONSE_BYTES)
    (Hlate : forall f, Forall (fun '(g, v) => g <> f /\ Forall value_char v /\ zlen (field_report g v) <= MAX_RESPONSE_BYTES) (late d f))
    (Hfew : forall f, (length (late d f) < 10)%nat) (Hfuel : (10 <= fuel)%nat) :
  exists d', retrieve_wireless_settings (E := E) fuel d =
      (Ok {| observations := map (fun f => answered f (field_report f (held d f))) WirelessField_ALL |}, d') /\
    (forall f, parse_oid_value (field_report f (held d f)) (oid f) = Some (object_value f (held d f))).
Proof.
  destruct (fields_loop_printer d Hheld Hlate (E := E) fuel WirelessField_ALL (clock d)) as (c & Hc).
  { apply List.Forall_forall. intros f _. specialize (Hfew f). lia. }
  exists (at_time d c []). split.
  - destruct d as [h lt cl pend]. cbn in Hidle. subst pend. unfold retrieve_wireless_settings, drain_stale_responses.
    destruct fuel as [|fuel]; [lia|]. unfold ebind at 1. unfold at_time in *. cbn [held late clock] in *.
    change (etry (drain_loop (S fuel) 0) ?x) with (@Ok (Fault E) _ (@Ok (list Z) unit tt), x). cbv iota beta.
    unfold ebind. by rewrite Hc.
  - intros f. rewrite parse_report by apply Hheld. by rewrite decide_True.
Qed.

Definition example_printer : Printer := {|
  held f := match f with
    | Connected => str "1"
    | Ipv4 => str "c0-a8-01-2a"
    | Ssid => str "-54-65-73-74"
    | Encryption => str "4"
    | Authentication => str "19"
    | Infrastructure => str "1"
    | WirelessDirect => str "0"
    end;
  late f := match f with Ssid => [(Ipv4, str "c0-a8-01-2b"); (Connected, str "0")] | _ => [] end;
  clock := 0;
  pending := [];
|}.

Lemma example_held f : Forall value_char (held example_printer f) /\ zlen (field_report f (held example_printer f)) <= MAX_RESPONSE_BYTES.
Proof. split; [apply value_charb_spec; by destruct f|unfold MAX_RESPONSE_BYTES; by destruct f; vm_compute]. Qed.

Lemma wireless_settings_read_reported_witness :
  map (fun f => value (answered f (field_report f (held example_printer f)))) WirelessField_ALL =
    [Some (SettingValue.Integer 1); Some (SettingValue.Text (str "192.168.1.42")); Some (SettingValue.Text (str "Test"));
     Some (SettingValue.Keyword (str "aes")); Some (SettingValue.Keyword (str "wpa2-only"));
     Some (SettingValue.Boolean true); Some (SettingValue.Boolean false)] /\
  exists d', retrieve_wireless_settings (E := False) 10 example_printer =
      (Ok {| observations := map (fun f => answered f (field_report f (held example_printer f))) WirelessField_ALL |}, d') /\
    (forall f, parse_oid_value (field_report f (held example_printer f)) (oid f) = Some (object_value f (held example_printer f))).
Proof.
  split; [vm_compute; reflexivity|]. apply (wireless_settings_read_reported (E := False) 10 example_printer).
  - reflexivity.
  - apply example_held.
  - intros [| | | | | |]; cbn [late example_printer]; try apply List.Forall_nil.
    repeat constructor; try done; try (apply value_charb_spec; reflexivity); vm_compute; done.
  - intros f. destruct f; cbn; lia.
  - lia.
Defined.

Lemma wireless_printer_frames : nonempty_frames Printer.
Proof.
  intros timeout d bytes d'. cbn. unfold next_response. destruct (pending d) as [|[|b frame] rest]; [done..|]. by intros [= <- _].
Qed.

Lemma printer_timely : timely Printer 1000000000.
Proof.
  split; [done| |done]. intros timeout d bytes d'. cbn. unfold next_response.
  destruct (pending d) as [|[|b frame] rest]; [done..|]. intros [= _ <-]. cbn. lia.
Qed.

Lemma wireless_settings_session_witness :
  exists i t' ws, retrieve_wireless_settings (E := False) (Z.to_nat 40000) {| traced := example_printer; trace := [] |} = (Ok i, t') /\
    written t' = [] ++ ws /\ Retrieval i ws.
Proof.
  apply (wireless_settings_session (T := Printer) (Z.to_nat 40000) 1000000000 {| traced := example_printer; trace := [] |}).
  - apply printer_timely.
  - apply wireless_printer_frames.
  - unfold enough, MAX_DRAIN_BYTES, RESPONSE_TIMEOUT. lia.
Defined.
