(* ===== verification/BrotherReport.v ===== *)
(** The Brother system report
    (crates/mb-printer-core/src/protocol/brother/report.rs): decoding, sections
    and redaction. *)

From stdpp Require Import base gmap strings numbers option list.
From S2P Require Import Prelude Text Capabilities ProtocolTypes.

#[local] Open Scope Z_scope.

Definition SYSTEM_REPORT_COMMAND : list Z := 27 :: str "iXG".
Definition SYSTEM_REPORT_MARKER : list Z := str "<<PRINTER CONFIGURATION>>".
Definition MAX_SYSTEM_REPORT_BYTES : Z := 64 * 1024.
Definition REDACTED : list Z := str "[REDACTED]".

Inductive SystemReportError := ReportTooLarge | MissingMarker.

#[local] Abbreviation Section_ := (gmap (list Z) (list Z)).

Record SystemReport := {
  text : list Z;
  sections : gmap (list Z) Section_;
}.

(** ** Decoding *)

Definition decode_system_report (data : list Z) : Result SystemReportError (list Z) :=
  if MAX_SYSTEM_REPORT_BYTES <? zlen data then Err ReportTooLarge
  else
    let? marked := ok_or (find_from SYSTEM_REPORT_MARKER (without_nul (from_utf8_lossy data))) MissingMarker in
    Ok (trim marked).

(** [entry(section).or_default()]. *)
Definition section_entry (sections : gmap (list Z) Section_) (section : list Z) : Section_ :=
  default ∅ (sections !! section).

Definition section_header (line : list Z) : option (list Z) :=
  line ← strip_prefix line (str "["); strip_suffix line (str "]").

(** One line of the report; [current] is the section it belongs to. *)
Definition report_line (state : gmap (list Z) Section_ * option (list Z)) (raw_line : list Z) :
    gmap (list Z) Section_ * option (list Z) :=
  let '(sections, current) := state in
  let line := trim raw_line in
  match section_header line with
  | Some section =>
      let section := trim section in
      (<[section := section_entry sections section]> sections, Some section)
  | None =>
      match current, split_once 61 line with
      | Some section, Some (key, value) =>
          (<[section := <[trim key := trim value]> (section_entry sections section)]> sections, current)
      | _, _ => state
      end
  end.

Definition report_sections (text : list Z) : gmap (list Z) Section_ := (foldl report_line (∅, None) (lines text)).1.

Definition parse_system_report (data : list Z) : Result SystemReportError SystemReport :=
  let? text := decode_system_report data in
  Ok {| text := text; sections := report_sections text |}.

(** ** Redaction *)

Definition SENSITIVE : list (list Z) :=
  [str "serial"; str "ssid"; str "ipaddress"; str "ipv4"; str "ipv6"; str "gateway"; str "subnet";
   str "macaddress"; str "nodename"; str "bluetoothaddress"; str "password"; str "networkkey"].

Definition normalized_key (key : list Z) : list Z := map to_ascii_lowercase (List.filter is_ascii_alphanumeric key).

Definition sensitive_key (key : list Z) : bool :=
  existsb (fun sensitive => str_contains sensitive (normalized_key key)) SENSITIVE.

Definition redact_line (line : list Z) : list Z :=
  match split_once 61 line with
  | Some (key, _) => if sensitive_key key then trim_end key ++ 61 :: REDACTED else line
  | None => line
  end.

Definition redact_text (text : list Z) : list Z := join 10 (map redact_line (lines text)).

Definition redact_section (values : Section_) : Section_ :=
  map_imap (fun key value => Some (if sensitive_key key then REDACTED else value)) values.

Definition redacted (r : SystemReport) : SystemReport :=
  {| text := redact_text (text r); sections := redact_section <$> sections r |}.

Definition system_report_plan : Plan := {|
  plan_protocol := Brother;
  source_commit := SOURCE_COMMIT;
  actions := [CommandWrite "ESC i X G system report" SYSTEM_REPORT_COMMAND true;
              CollectResponse 5000 300 MAX_SYSTEM_REPORT_BYTES BrotherSystemReport];
|}.

(** ** What redaction hides *)

(** Two lines that differ at most in the value of a sensitive key. *)
Inductive same_public_line : list Z -> list Z -> Prop :=
| same_line line : same_public_line line line
| same_sensitive key value value' :
    61 ∉ key -> sensitive_key key = true -> same_public_line (key ++ 61 :: value) (key ++ 61 :: value').

Lemma redact_same_line l l' : same_public_line l l' -> redact_line l = redact_line l'.
Proof.
  destruct 1 as [|key value value' Hk Hs]; [done|]. unfold redact_line. rewrite !split_once_app by done. cbv beta iota. by rewrite Hs.
Qed.

(** Two sections with the same keys that differ at most in sensitive values. *)
Definition same_public_section (s s' : Section_) : Prop :=
  forall key, s !! key = s' !! key \/ (sensitive_key key = true /\ is_Some (s !! key) /\ is_Some (s' !! key)).

Lemma redact_same_section s s' : same_public_section s s' -> redact_section s = redact_section s'.
Proof.
  intros H. apply map_eq. intros key. unfold redact_section. rewrite !map_lookup_imap.
  destruct (H key) as [->|(Hs & [v ->] & [v' ->])]; [done|]. cbn [mbind option_bind]. by rewrite Hs.
Qed.

Definition same_public_sections (s s' : gmap (list Z) Section_) : Prop :=
  forall name, option_relation same_public_section (fun _ => False) (fun _ => False) (s !! name) (s' !! name).

Lemma redact_same_sections s s' :
  same_public_sections s s' -> redact_section <$> s = redact_section <$> s'.
Proof.
  intros H. apply map_eq. intros name. rewrite !lookup_fmap. specialize (H name).
  destruct (s !! name), (s' !! name); cbn in *; try done. f_equal. by apply redact_same_section.
Qed.

(** *** Reports that agree on public lines have the same public sections *)

Lemma section_entry_same s s' name :
  same_public_sections s s' -> same_public_section (section_entry s name) (section_entry s' name).
Proof.
  intros H. specialize (H name). unfold section_entry. destruct (s !! name), (s' !! name); cbn in *; try done.
  by left.
Qed.

Lemma insert_same_sections s s' name v v' :
  same_public_sections s s' -> same_public_section v v' -> same_public_sections (<[name := v]> s) (<[name := v']> s').
Proof.
  intros H Hv other. destruct (decide (other = name)) as [->|Hne].
  - by rewrite !lookup_insert_eq.
  - rewrite !lookup_insert_ne by done. apply H.
Qed.

Lemma insert_same_section (v v' : Section_) key value value' :
  same_public_section v v' -> value = value' \/ sensitive_key key = true ->
  same_public_section (<[key := value]> v) (<[key := value']> v').
Proof.
  intros H Hs other. destruct (decide (other = key)) as [->|Hne].
  - rewrite !lookup_insert_eq. destruct Hs as [->|Hs]; [by left|right]. by eauto.
  - rewrite !lookup_insert_ne by done. apply H.
Qed.

(** A line that holds a setting, not a section header. *)
Definition setting_line (key : list Z) : Prop := (61 ∉ key) /\ head (trim_start key) <> Some 91.

Lemma trim_setting key value : setting_line key -> sensitive_key key = true ->
  section_header (trim (key ++ 61 :: value)) = None /\
  split_once 61 (trim (key ++ 61 :: value)) = Some (trim_start key, trim_end value).
Proof.
  intros [Hk Hh] Hs. rewrite trim_separated by (unfold graphic; lia). split.
  - unfold section_header, strip_prefix, starts_with. cbn [str length]. rewrite bool_decide_false; [done|].
    destruct (trim_start key) as [|b k] eqn:E; cbn; [done|]. rewrite take_0. intros [= ->]. done.
  - apply split_once_app. intros Hin. apply Hk. destruct (trim_start_suffix key) as [r ->].
    apply elem_of_app. by right.
Qed.

(** Trimming removes no letter or digit. *)
Definition not_normal (b : Z) : bool := negb (is_ascii_alphanumeric b).

Lemma filter_strip width fuel s :
  (forall s, Forall (fun b => is_ascii_alphanumeric b = false) (take (width s) s)) ->
  List.filter is_ascii_alphanumeric (strip_while width fuel s) = List.filter is_ascii_alphanumeric s.
Proof.
  intros Hw. revert s. induction fuel as [|fuel IH]; intros s; [done|]. cbn [strip_while].
  destruct (width s) as [|n] eqn:E; [done|]. rewrite IH. rewrite <- (take_drop (S n) s) at 2.
  rewrite List.filter_app. specialize (Hw s). rewrite E in Hw.
  replace (List.filter is_ascii_alphanumeric (take (S n) s)) with (@nil Z); [done|]. symmetry.
  induction Hw as [|b l Hb Hl IHl]; [done|]. cbn. by rewrite Hb.
Qed.

Lemma alphanumeric_range b : b < 48 \/ 122 < b -> is_ascii_alphanumeric b = false.
Proof.
  unfold is_ascii_alphanumeric, is_ascii_alphabetic, is_ascii_lowercase, is_ascii_uppercase, is_ascii_digit. lia.
Qed.

Lemma white_start_not_normal s : Forall (fun b => is_ascii_alphanumeric b = false) (take (white_start s) s).
Proof.
  unfold white_start, between. repeat (case_match; cbn [take]; try apply List.Forall_nil); rewrite ?take_0;
    repeat (apply List.Forall_cons; [apply alphanumeric_range; lia|]); apply List.Forall_nil.
Qed.

Lemma normalized_trim_start key : normalized_key (trim_start key) = normalized_key key.
Proof. unfold normalized_key, trim_start. by rewrite (filter_strip _ _ _ white_start_not_normal). Qed.

Lemma white_end_not_normal s : Forall (fun b => is_ascii_alphanumeric b = false) (take (white_end s) s).
Proof.
  unfold white_end, white_start, between.
  repeat (case_match; cbn [take]; try apply List.Forall_nil; try discriminate); rewrite ?take_0;
    repeat (apply List.Forall_cons; [apply alphanumeric_range; lia|]); apply List.Forall_nil.
Qed.

Lemma filter_reverse {A} (f : A -> bool) l : List.filter f (reverse l) = reverse (List.filter f l).
Proof. unfold reverse. rewrite <- !List.rev_alt. apply List.filter_rev. Qed.

Lemma normalized_trim key : normalized_key (trim key) = normalized_key key.
Proof.
  rewrite <- (normalized_trim_start key). unfold trim. generalize (trim_start key). intros s.
  unfold normalized_key, trim_end. rewrite filter_reverse, (filter_strip _ _ _ white_end_not_normal).
  by rewrite filter_reverse, reverse_involutive.
Qed.

Lemma sensitive_trim key : sensitive_key (trim key) = sensitive_key key.
Proof. unfold sensitive_key. by rewrite normalized_trim. Qed.

Lemma sensitive_trim_start key : sensitive_key (trim_start key) = sensitive_key key.
Proof. unfold sensitive_key. by rewrite normalized_trim_start. Qed.

(** Two lines of which only the value of a sensitive setting differs. *)
Inductive same_public_setting : list Z -> list Z -> Prop :=
| same_text line : same_public_setting line line
| same_setting key value value' :
    setting_line key -> sensitive_key key = true -> same_public_setting (key ++ 61 :: value) (key ++ 61 :: value').

Lemma same_setting_line l l' : same_public_setting l l' -> same_public_line l l'.
Proof. destruct 1 as [|key value value' []]; by constructor. Qed.

Definition same_public_state (st st' : gmap (list Z) Section_ * option (list Z)) : Prop :=
  same_public_sections st.1 st'.1 /\ st.2 = st'.2.

Lemma report_line_same st st' l l' :
  same_public_setting l l' -> same_public_state st st' -> same_public_state (report_line st l) (report_line st' l').
Proof.
  destruct st as [s current], st' as [s' c']. intros Hl [Hs Hc]. cbn in Hs, Hc. subst c'.
  unfold report_line. destruct Hl as [line|key value value' Hk Hsk].
  - destruct (section_header (trim line)) as [name|].
    + split; [|done]. cbn. apply insert_same_sections; [done|]. by apply section_entry_same.
    + destruct current as [name|]; [|done]. destruct (split_once 61 (trim line)) as [[key value]|]; [|done].
      split; [|done]. cbn. apply insert_same_sections; [done|].
      apply insert_same_section; [by apply section_entry_same|by left].
  - destruct (trim_setting key value Hk Hsk) as [-> ->], (trim_setting key value' Hk Hsk) as [-> ->].
    destruct current as [name|]; [|done]. split; [|done]. cbn. apply insert_same_sections; [done|].
    apply insert_same_section; [by apply section_entry_same|right]. by rewrite sensitive_trim, sensitive_trim_start.
Qed.

Lemma report_sections_same t t' :
  Forall2 same_public_setting (lines t) (lines t') -> same_public_sections (report_sections t) (report_sections t').
Proof.
  intros H. unfold report_sections.
  assert (forall st st', same_public_state st st' ->
    same_public_state (foldl report_line st (lines t)) (foldl report_line st' (lines t'))) as Hf.
  { induction H as [|l l' ls ls' Hl Hls IH]; intros st st' Hst; [done|]. cbn. by apply IH, report_line_same. }
  apply (Hf (∅, None) (∅, None)). split; [|done]. intros name. cbn [fst]. by rewrite !lookup_empty.
Qed.

(** The report of a text. *)
Definition report_of (t : list Z) : SystemReport := {| text := t; sections := report_sections t |}.

Lemma parse_system_report_of d r : parse_system_report d = Ok r -> r = report_of (text r).
Proof. unfold parse_system_report. intros H. inv_ok H. by subst r. Qed.

Lemma redacted_same t t' :
  Forall2 same_public_setting (lines t) (lines t') -> redacted (report_of t) = redacted (report_of t').
Proof.
  intros Hl. unfold redacted. cbn [text sections report_of]. f_equal.
  - unfold redact_text. f_equal. induction Hl as [|l l' ls ls' Hl Hls IH]; [done|]. cbn [map]. rewrite IH. f_equal.
    by apply redact_same_line, same_setting_line.
  - by apply redact_same_sections, report_sections_same.
Qed.

(** Redaction hides what it is meant to hide: two reports whose lines
    differ only in the values of sensitive settings have the same redacted
    report, text and sections. *)
Theorem redaction_hides_sensitive_values d d' r r' :
  parse_system_report d = Ok r -> parse_system_report d' = Ok r' ->
  Forall2 same_public_setting (lines (text r)) (lines (text r')) -> redacted r = redacted r'.
Proof.
  intros ->%parse_system_report_of ->%parse_system_report_of Hl. by apply redacted_same.
Qed.

(** A report with a serial number. *)
Definition example_report (serial : string) : list Z :=
  SYSTEM_REPORT_MARKER ++ [10] ++ str "[Printer]" ++ [10] ++ str "Model = QL-820" ++ [10] ++
  str "Serial No. = " ++ str serial ++ [10].

Lemma redaction_hides_sensitive_values_witness :
  exists r r', parse_system_report (example_report "A1") = Ok r /\ parse_system_report (example_report "B22") = Ok r' /\
    r <> r' /\ redacted r = redacted r'.
Proof.
  destruct (parse_system_report (example_report "A1")) as [r|] eqn:E; [|vm_compute in E; discriminate E].
  destruct (parse_system_report (example_report "B22")) as [r'|] eqn:E'; [|vm_compute in E'; discriminate E'].
  exists r, r'. split_and!; [done|done| |].
  - intros ->. rewrite <- E in E'. vm_compute in E'. discriminate E'.
  - apply (redaction_hides_sensitive_values _ _ _ _ E E').
    unfold parse_system_report in E, E'. inv_ok E. inv_ok E'. subst r r'. cbn [text].
    vm_compute in Hx. vm_compute in Hx0. apply Ok_inj in Hx as <-, Hx0 as <-.
    match goal with |- Forall2 ?R ?a ?b =>
      let a := eval vm_compute in a in let b := eval vm_compute in b in change (Forall2 R a b)
    end.
    repeat (apply List.Forall2_cons; [apply same_text|]).
    apply List.Forall2_cons; [|apply List.Forall2_nil].
    apply (same_setting (str "Serial No. ") (str " A1") (str " B22")); [|vm_compute; reflexivity].
    split; [apply (bool_decide_unpack _); reflexivity|]. vm_compute. discriminate.
Defined.
