(* ===== verification/DeviceStatus.v ===== *)
(** What printers say about themselves: IEEE 1284 device identifiers
    (crates/mb-printer-core/src/protocol/ieee1284.rs), the Brother status block
    (protocol/brother/status.rs) and Phomemo status notifications
    (protocol.rs). *)

From stdpp Require Import base gmap sets strings numbers option list.
From S2P Require Import Prelude Text.

#[local] Open Scope string_scope.
#[local] Open Scope list_scope.
#[local] Open Scope Z_scope.

(** ** IEEE 1284 device identifiers *)

Definition MAX_DEVICE_ID_BYTES : Z := 2048.

Record DeviceId := {
  raw : list Z;
  manufacturer : option (list Z);
  model : option (list Z);
  command_sets : list (list Z);
  fields : gmap (list Z) (list Z);
}.

Inductive DeviceIdError := TooShort | TooLarge | InvalidLength | InvalidUtf8 | Malformed.

(** One field between semicolons: an upper-cased key and a value, both trimmed
    and not empty. *)
Definition parse_field (field : list Z) : option (list Z * list Z) :=
  ' (key, value) ← split_once 58 field;
  let key := map to_ascii_uppercase (trim key) in
  let value := trim value in
  if negb (bool_decide (key = [])) && negb (bool_decide (value = [])) then Some (key, value) else None.

(** [collect::<BTreeMap>()]: later fields replace earlier ones. *)
Definition collect_fields (pairs : list (list Z * list Z)) : gmap (list Z) (list Z) :=
  foldl (fun fields '(key, value) => <[key := value]> fields) ∅ pairs.

(** The value of a field under its short or else its long key. *)
Definition short_or_long (lookup : list Z -> option (list Z)) (short long : list Z) : option (list Z) :=
  match lookup short with Some value => Some value | None => lookup long end.

Definition split_command_sets (value : option (list Z)) : list (list Z) :=
  match value with
  | Some value => List.filter (fun s => negb (bool_decide (s = []))) (map trim (split 44 value))
  | None => []
  end.

(** The decoded text of the identifier. *)
Definition device_id_of_text (text : list Z) : Result DeviceIdError DeviceId :=
  let raw := trim (trim_matches 0 text) in
  if bool_decide (raw = []) || negb (bool_decide (59 ∈ raw)) then Err Malformed
  else
  let fields := collect_fields (omap parse_field (split 59 raw)) in
  if bool_decide (fields = ∅) then Err Malformed
  else
  let field := short_or_long (fun key => fields !! key) in
  Ok {| raw := raw;
        manufacturer := field (str "MFG") (str "MANUFACTURER");
        model := field (str "MDL") (str "MODEL");
        command_sets := split_command_sets (field (str "CMD") (str "COMMAND SET"));
        fields := fields |}.

Definition parse_device_id (data : list Z) : Result DeviceIdError DeviceId :=
  match data with
  | b0 :: b1 :: _ =>
      if MAX_DEVICE_ID_BYTES <? zlen data then Err TooLarge
      else
      let declared := of_be_bytes [b0; b1] in
      if negb ((2 <=? declared) && (declared <=? zlen data)) || (MAX_DEVICE_ID_BYTES <? declared)
      then Err InvalidLength
      else
      let? text := ok_or (from_utf8 (take (Z.to_nat (declared - 2)) (drop 2 data))) InvalidUtf8 in
      device_id_of_text text
  | _ => Err TooShort
  end.

(** ** The Brother status block *)

Record BrotherStatus := {
  series_code : Z;
  model_code : Z;
  country_code : Z;
  error_bytes : Z * Z;
  media_width_mm : Z;
  media_length_mm : Z;
  media_type : string;
  status_byte_14 : Z;
  status_type : string;
  phase : string;
  phase_number : Z;
  notification_number : Z;
  extension_status : Z;
  tape_info : list Z;
  errors : list string;
}.

Definition STATUS_BYTE_8 : list (Z * string) :=
  [(0, "no media"); (1, "end of media"); (2, "cutter jam"); (4, "unit in use"); (5, "printer off");
   (7, "fan failure")].

Definition STATUS_BYTE_9 : list (Z * string) :=
  [(0, "replace media"); (1, "expansion buffer full"); (2, "transmission error");
   (4, "cover opened while printing"); (6, "media cannot be fed"); (7, "system error")].

(** [byte & (1 << bit) != 0] for each named bit. *)
Fixpoint bit_errors (byte : Z) (bits : list (Z * string)) : list string :=
  match bits with
  | [] => []
  | (bit, name) :: bits =>
      if negb (Z.land byte (Z.shiftl 1 bit) =? 0) then name :: bit_errors byte bits else bit_errors byte bits
  end.

Definition media_type_name (b : Z) : string :=
  (if b =? 0 then "no media" else if b =? 0x0a then "continuous" else if b =? 0x0b then "die-cut" else "unknown").

Definition status_type_name (b : Z) : string :=
  (if b =? 0 then "reply to status request" else if b =? 1 then "printing completed" else if b =? 2 then "error"
   else if b =? 4 then "turned off" else if b =? 5 then "notification" else if b =? 6 then "phase change"
   else "unknown").

Definition phase_name (b : Z) : string :=
  (if b =? 0 then "waiting to receive" else if b =? 1 then "printing" else "unknown").

(** Bytes are read with [data[i]]; the length is checked first. *)
Definition parse_status (data : list Z) : Result (Fault string) BrotherStatus :=
  (if negb (zlen data =? 32) then fail "Brother status must be exactly 32 bytes"
   else if negb (starts_with [0x80; 0x20; 0x42] data) then fail "unexpected Brother status header"
   else
   let? b3 := index data 3 in let? b4 := index data 4 in let? b5 := index data 5 in
   let? b8 := index data 8 in let? b9 := index data 9 in let? b10 := index data 10 in
   let? b11 := index data 11 in let? b14 := index data 14 in let? b17 := index data 17 in
   let? b18 := index data 18 in let? b19 := index data 19 in let? b20 := index data 20 in
   let? b21 := index data 21 in let? b22 := index data 22 in let? b24 := index data 24 in
   let? b27 := index data 27 in let? b28 := index data 28 in let? b29 := index data 29 in
   Ok {| series_code := b3;
         model_code := b4;
         country_code := b5;
         error_bytes := (b8, b9);
         media_width_mm := b10;
         media_length_mm := b17;
         media_type := media_type_name b11;
         status_byte_14 := b14;
         status_type := status_type_name b18;
         phase := phase_name b19;
         phase_number := of_le_bytes [b20; b21];
         notification_number := b22;
         extension_status := b24;
         tape_info := [b27; b28; b29];
         errors := bit_errors b8 STATUS_BYTE_8 ++ bit_errors b9 STATUS_BYTE_9 |}).

(** ** Phomemo notifications *)

Record PhomemoStatus := {
  battery : option Z;
  paper : option string;
  cover : option string;
  label : option string;
  heating : option string;
  firmware : option (list Z);
  version : option (list Z);
  serial : option (list Z);
  ph_errors : list string;
}.

Definition PhomemoStatus_default : PhomemoStatus := {|
  battery := None; paper := None; cover := None; label := None; heating := None;
  firmware := None; version := None; serial := None; ph_errors := [];
|}.

Definition dotted (bytes : list Z) : list Z := join DOT (map show_dec bytes).

(** [u8::is_ascii_graphic]. *)
Definition is_ascii_graphic (b : Z) : bool := between 33 126 b.
Definition ascii (bytes : list Z) : list Z := List.filter is_ascii_graphic bytes.

Definition heating_name (value : Z) : string :=
  (if value =? 0xa9 then "over temperature" else if value =? 0xa8 then "ready" else "heating").

Definition battery_level (value : Z) : Z :=
  if value =? 0xa4 then 0 else if value =? 0xa3 then 3 else if value =? 0xa2 then 5 else if value =? 0xa1 then 10
  else value.

Definition cover_name (value : Z) : string :=
  (if value =? 0x98 then "closed" else if value =? 0x99 then "open" else "unknown").

Definition label_name (value : Z) : string :=
  (if value =? 0x0b then "continuous" else if value =? 0x26 then "black-mark" else "gap").

(** The assignment of one frame [1a type payload]; others are skipped. *)
Definition apply_frame (s : PhomemoStatus) (frame : list Z) : PhomemoStatus :=
  match frame with
  | b0 :: kind :: value :: rest =>
      if negb (b0 =? 0x1a) then s
      else
      let payload := value :: rest in
      let set battery paper cover label heating firmware version serial := {|
        battery := battery; paper := paper; cover := cover; label := label; heating := heating;
        firmware := firmware; version := version; serial := serial; ph_errors := ph_errors s |} in
      if kind =? 0x03 then
        set (battery s) (paper s) (cover s) (label s) (Some (heating_name value)) (firmware s) (version s) (serial s)
      else if kind =? 0x04 then
        set (Some (battery_level value)) (paper s) (cover s) (label s) (heating s) (firmware s) (version s) (serial s)
      else if kind =? 0x05 then
        set (battery s) (paper s) (Some (cover_name value)) (label s) (heating s) (firmware s) (version s) (serial s)
      else if kind =? 0x06 then
        set (battery s) (Some (if value =? 0x88 then "out" else "ok")) (cover s) (label s) (heating s)
          (firmware s) (version s) (serial s)
      else if kind =? 0x07 then
        set (battery s) (paper s) (cover s) (label s) (heating s) (Some (dotted payload)) (version s) (serial s)
      else if kind =? 0x08 then
        set (battery s) (paper s) (cover s) (label s) (heating s) (firmware s) (version s) (Some (ascii payload))
      else if kind =? 0x0c then
        set (battery s) (paper s) (cover s) (Some (label_name value)) (heating s) (firmware s) (version s) (serial s)
      else if kind =? 0x11 then
        set (battery s) (paper s) (cover s) (label s) (heating s) (firmware s) (Some (dotted payload)) (serial s)
      else s
  | _ => s
  end.

Definition error_when {A} `{EqDecision A} (o : option A) (a : A) (name : string) : list string :=
  if bool_decide (o = Some a) then [name] else [].

Definition phomemo_parse_status (frames : list (list Z)) : PhomemoStatus :=
  let s := foldl apply_frame PhomemoStatus_default frames in {|
    battery := battery s; paper := paper s; cover := cover s; label := label s; heating := heating s;
    firmware := firmware s; version := version s; serial := serial s;
    ph_errors := (ph_errors s ++ error_when (paper s) "out" "no media"
      ++ error_when (cover s) "open" "cover open"
      ++ error_when (heating s) "over temperature" "print head over temperature") |}.

(** ** Device identifiers are read back *)

(** Printable text that starts and ends visibly. *)
Definition visible (s : list Z) : Prop :=
  s <> [] /\ Forall (fun b => 32 <= b <= 126) s /\
  (forall b, head s = Some b -> graphic b) /\ (forall b, last s = Some b -> graphic b).

Definition field_ok (field : list Z * list Z) : Prop :=
  visible field.1 /\ (58 ∉ field.1) /\ (59 ∉ field.1) /\ Forall (fun b => is_ascii_lowercase b = false) field.1 /\
  visible field.2 /\ (59 ∉ field.2).

Definition write_field (field : list Z * list Z) : list Z := field.1 ++ 58 :: field.2.

Definition write_fields (fields : list (list Z * list Z)) : list Z := flat_map (fun f => write_field f ++ [59]) fields.

(** The identifier a printer sends: its length in two bytes, then its fields. *)
Definition write_device_id (fields : list (list Z * list Z)) : list Z :=
  to_be_bytes 2 (zlen (write_fields fields) + 2) ++ write_fields fields.

Lemma upper_id s : Forall (fun b => is_ascii_lowercase b = false) s -> map to_ascii_uppercase s = s.
Proof.
  induction 1 as [|b s Hb Hs IH]; [done|]. cbn. rewrite IH. unfold to_ascii_uppercase. by rewrite Hb.
Qed.

Lemma parse_write_field field : field_ok field -> parse_field (write_field field) = Some field.
Proof.
  destruct field as [k v]. intros ((Hk & _ & Hkh & Hkl) & H58 & _ & Hu & (Hv & _ & Hvh & Hvl) & _). cbn [fst snd] in *.
  unfold parse_field, write_field. cbn [fst snd]. rewrite split_once_app by done. cbn [mbind option_bind].
  rewrite !trim_visible, upper_id by done. by rewrite !bool_decide_false.
Qed.

Lemma split_fields fields :
  Forall field_ok fields -> split 59 (write_fields fields) = map write_field fields ++ [[]].
Proof.
  induction 1 as [|f fields Hf Hfs IH]; [done|]. cbn [write_fields flat_map map app].
  rewrite <- app_assoc. cbn [app]. rewrite split_app.
  - f_equal. exact IH.
  - destruct Hf as (_ & _ & Hk & _ & _ & Hv). unfold write_field.
    rewrite elem_of_app, elem_of_cons. intros [?|[?|?]]; [done|lia|done].
Qed.

Lemma omap_fields fields : Forall field_ok fields -> omap parse_field (map write_field fields ++ [[]]) = fields.
Proof.
  induction 1 as [|f fields Hf Hfs IH]; [done|]. cbn [map app omap list_omap].
  rewrite parse_write_field by done. f_equal. exact IH.
Qed.

(** The last value given for a key. *)
Definition last_value (key : list Z) (fields : list (list Z * list Z)) : option (list Z) :=
  last (map snd (filter (fun f => f.1 = key) fields)).

Lemma collect_fields_lookup fields key : collect_fields fields !! key = last_value key fields.
Proof.
  unfold collect_fields, last_value. induction fields as [|[k v] fields IH] using rev_ind; [done|].
  rewrite foldl_snoc, filter_app. cbn [filter list_filter fst]. rewrite lookup_insert, map_app.
  case_decide as E; cbn [map]; [by rewrite last_snoc|]. by rewrite app_nil_r, IH.
Qed.

Lemma write_field_ascii f : field_ok f -> Forall (fun b => 0 <= b < 128) (write_field f).
Proof.
  intros ((_ & Hk & _) & _ & _ & _ & (_ & Hv & _) & _). unfold write_field.
  apply Forall_app. split; [|constructor; [lia|]]; (eapply Forall_impl; [eassumption|cbn; lia]).
Qed.

Lemma write_fields_ascii fields : Forall field_ok fields -> Forall (fun b => 0 <= b < 128) (write_fields fields).
Proof.
  induction 1 as [|f fields Hf Hfs IH]; [constructor|]. cbn [write_fields flat_map]. rewrite !Forall_app.
  split_and!; [by apply write_field_ascii|repeat constructor; lia|exact IH].
Qed.

Lemma write_fields_last fields : fields <> [] -> last (write_fields fields) = Some 59.
Proof.
  intros H. destruct fields as [|f fields _] using rev_ind; [done|].
  unfold write_fields. rewrite flat_map_app. cbn [flat_map]. rewrite app_nil_r, last_app, last_snoc. done.
Qed.

Lemma write_fields_head f fields : field_ok f -> exists b, head (write_fields (f :: fields)) = Some b /\ graphic b.
Proof.
  intros ((Hne & _ & Hh & _) & _). destruct f as [[|b k] v]; [done|]. exists b. split; [done|]. by apply Hh.
Qed.

(** The frame of an identifier: the declared length selects the text. *)
Lemma parse_device_id_frame text trailing :
  utf8_valid text = true -> zlen text + zlen trailing + 2 <= MAX_DEVICE_ID_BYTES ->
  parse_device_id (to_be_bytes 2 (zlen text + 2) ++ text ++ trailing) = device_id_of_text text.
Proof.
  intros Hu Hl. unfold MAX_DEVICE_ID_BYTES in Hl.
  pose proof (zlen_nonneg text). pose proof (zlen_nonneg trailing).
  pose proof (length_to_be_bytes 2 (zlen text + 2)) as E. pose proof (of_to_be_bytes 2 (zlen text + 2)) as Ed.
  change (256 ^ Z.of_nat 2) with 65536 in Ed. rewrite Z.mod_small in Ed by lia.
  destruct (to_be_bytes 2 (zlen text + 2)) as [|b0 [|b1 [|]]]; try done. cbn [app]. unfold parse_device_id. rewrite Ed.
  assert (zlen (b0 :: b1 :: text ++ trailing) = zlen text + 2 + zlen trailing) as -> by zlen_lia.
  unfold MAX_DEVICE_ID_BYTES.
  destruct (Z.ltb_spec 2048 (zlen text + 2 + zlen trailing)); [lia|]. destruct (_ || _) eqn:Ev; [lia|]. clear Ev.
  replace (Z.to_nat (zlen text + 2 - 2)) with (length text) by (unfold zlen; lia).
  cbn [drop]. rewrite drop_0, take_app_length. unfold from_utf8. by rewrite Hu.
Qed.

Lemma device_id_of_fields fs :
  fs <> [] -> Forall field_ok fs ->
  trim (trim_matches 0 (write_fields fs)) = write_fields fs /\ 59 ∈ write_fields fs /\
  omap parse_field (split 59 (write_fields fs)) = fs.
Proof.
  intros Hne Hfs. pose proof (write_fields_last fs Hne) as Hlast.
  destruct fs as [|f fs]; [done|]. destruct (write_fields_head f fs) as (b & Hhead & Hb); [by inversion Hfs|].
  split_and!.
  - unfold trim_matches. rewrite trim_start_matches_id.
    + rewrite trim_end_matches_id by by rewrite Hlast. apply trim_visible; intros c Hc.
      * rewrite Hhead in Hc. by injection Hc as <-.
      * rewrite Hlast in Hc. injection Hc as <-. unfold graphic. lia.
    + rewrite Hhead. intros [= ->]. unfold graphic in Hb. lia.
  - by apply last_Some_elem_of.
  - rewrite split_fields by done. by apply omap_fields.
Qed.

(** Reading a device identifier gives back the fields it was written
    from: whatever follows the declared length is ignored, a key given more
    than once has its last value, and manufacturer, model and command sets are
    the values of their short or else their long key. *)
Theorem device_id_roundtrip fs trailing :
  fs <> [] -> Forall field_ok fs -> zlen (write_fields fs) + zlen trailing + 2 <= MAX_DEVICE_ID_BYTES ->
  exists id,
    parse_device_id (write_device_id fs ++ trailing) = Ok id /\ raw id = write_fields fs /\
    (forall key, fields id !! key = last_value key fs) /\
    let value := short_or_long (fun key => last_value key fs) in
    manufacturer id = value (str "MFG") (str "MANUFACTURER") /\ model id = value (str "MDL") (str "MODEL") /\
    command_sets id = split_command_sets (value (str "CMD") (str "COMMAND SET")).
Proof.
  intros Hne Hfs Hlen. unfold write_device_id. rewrite <- app_assoc, parse_device_id_frame.
  2: by apply utf8_ascii, write_fields_ascii.
  2: done.
  destruct (device_id_of_fields fs Hne Hfs) as (Er & H59 & Ef). unfold device_id_of_text. rewrite Er, Ef.
  rewrite bool_decide_false by (intros E; rewrite E in H59; inversion H59). rewrite bool_decide_true by done.
  cbn [negb orb]. rewrite bool_decide_false.
  - eexists. split_and!; [reflexivity|done|cbn; apply collect_fields_lookup|..];
      cbn; unfold short_or_long; by rewrite !collect_fields_lookup.
  - destruct fs as [|[k v] fs _] using rev_ind; [done|]. unfold collect_fields. rewrite foldl_snoc.
    apply insert_non_empty.
Qed.

Definition example_fields : list (list Z * list Z) :=
  [(str "MFG", str "Brother"); (str "CMD", str "PJL,PT-CBP"); (str "MDL", str "QL-820NWB")].

Lemma visible_literal s :
  negb (bool_decide (s = [])) && forallb (between 32 126) s
  && match head s with Some b => between 33 126 b | None => true end
  && match last s with Some b => between 33 126 b | None => true end = true -> visible s.
Proof.
  rewrite !andb_true_iff, negb_true_iff, bool_decide_eq_false, forallb_forall. intros [[[Hn Hf] Hh] Hl].
  unfold between in *. split_and!; [done| | |].
  - apply List.Forall_forall. intros b Hb. specialize (Hf b Hb). cbn in Hf. lia.
  - intros b E. rewrite E in Hh. unfold graphic. lia.
  - intros b E. rewrite E in Hl. unfold graphic. lia.
Qed.

Lemma device_id_roundtrip_witness :
  exists id, parse_device_id (write_device_id example_fields ++ [0; 0]) = Ok id /\
    manufacturer id = Some (str "Brother") /\ command_sets id = [str "PJL"; str "PT-CBP"].
Proof.
  destruct (device_id_roundtrip example_fields [0; 0]) as (id & Hid & _ & _ & Hm & _ & Hc).
  - done.
  - repeat (apply List.Forall_cons; [split_and!; [by apply visible_literal|by apply (bool_decide_unpack _)
      |by apply (bool_decide_unpack _)|by apply (bool_decide_unpack _)|by apply visible_literal
      |by apply (bool_decide_unpack _)]|]). apply List.Forall_nil.
  - vm_compute. discriminate.
  - exists id. split; [exact Hid|]. rewrite Hm, Hc. split; vm_compute; reflexivity.
Defined.

(** ** Status bytes *)

Lemma land_bit byte bit : 0 <= bit -> negb (Z.land byte (Z.shiftl 1 bit) =? 0) = Z.testbit byte bit.
Proof.
  intros Hb. destruct (Z.testbit byte bit) eqn:E.
  - apply negb_true_iff, Z.eqb_neq. intros H. apply (f_equal (fun z => Z.testbit z bit)) in H.
    by rewrite Z.land_spec, Z.shiftl_spec, Z.sub_diag, Z.bits_0, E in H.
  - apply negb_false_iff, Z.eqb_eq, Z.bits_inj'. intros i Hi. rewrite Z.land_spec, Z.bits_0, Z.shiftl_1_l.
    rewrite Z.pow2_bits_eqb by done. destruct (Z.eqb_spec bit i) as [<-|]; [by rewrite E|apply andb_false_r].
Qed.

Lemma bit_errors_spec byte bits name :
  Forall (fun b => 0 <= b.1) bits ->
  name ∈ bit_errors byte bits <-> exists bit, (bit, name) ∈ bits /\ Z.testbit byte bit = true.
Proof.
  induction 1 as [|[bit n] bits Hb Hbs IH]; cbn [bit_errors].
  - split; [intros H; inversion H|intros (b & H & _); inversion H].
  - rewrite land_bit by done. setoid_rewrite elem_of_cons. destruct (Z.testbit byte bit) eqn:E.
    + rewrite elem_of_cons, IH. split.
      * intros [->|(b & Hin & Ht)]; [by exists bit; split; [left|]|exists b; split; [by right|done]].
      * intros (b & [[= -> ->]|Hin] & Ht); [by left|right; by exists b].
    + rewrite IH. split.
      * intros (b & Hin & Ht). exists b. split; [by right|done].
      * intros (b & [[= -> ->]|Hin] & Ht); [congruence|by exists b].
Qed.

(** A status block is accepted exactly when it has 32 bytes and the
    header of a Brother reply, and reading it never goes out of range; an error
    is reported exactly when its bit is set in one of the two error bytes. *)
Theorem parse_status_spec data :
  panics (parse_status data) = false /\
  (is_ok (parse_status data) = true <-> zlen data = 32 /\ exists rest, data = [0x80; 0x20; 0x42] ++ rest) /\
  match parse_status data with
  | Ok s =>
      exists b8 b9, data !! 8%nat = Some b8 /\ data !! 9%nat = Some b9 /\ error_bytes s = (b8, b9) /\
        forall name, name ∈ errors s <->
          (exists bit, (bit, name) ∈ STATUS_BYTE_8 /\ Z.testbit b8 bit = true) \/
          (exists bit, (bit, name) ∈ STATUS_BYTE_9 /\ Z.testbit b9 bit = true)
  | Err _ => True
  end.
Proof.
  unfold parse_status. destruct (Z.eqb_spec (zlen data) 32) as [Hl|Hl]; [|cbn; naive_solver].
  destruct (starts_with [0x80; 0x20; 0x42] data) eqn:Hh; cbn [negb].
  2: { split_and!; [done| |exact I]. split; [done|]. intros (_ & rest & E).
       by rewrite E, starts_with_app in Hh. }
  do 32 (destruct data as [|? data]; [discriminate Hl|]). split_and!; [done| |].
  - split; [intros _|done]. split; [done|]. unfold starts_with in Hh. apply bool_decide_eq_true in Hh. cbn in Hh.
    injection Hh as -> -> ->. by eexists.
  - cbn [index rbind]. eexists _, _. split_and!; [reflexivity|reflexivity|reflexivity|].
    intros name. cbn [errors]. rewrite elem_of_app, !bit_errors_spec; [done|..]; repeat constructor; cbn; lia.
Qed.

(** ** Phomemo frames *)

Definition recognised (frame : list Z) : bool :=
  match frame with
  | b0 :: kind :: _ :: _ => (b0 =? 0x1a) && bool_decide (kind ∈ [3; 4; 5; 6; 7; 8; 0x0c; 0x11])
  | _ => false
  end.

Lemma unrecognised_frame s frame : recognised frame = false -> apply_frame s frame = s.
Proof.
  destruct frame as [|b0 [|kind [|value rest]]]; cbn; [done..|].
  destruct (Z.eqb_spec b0 0x1a); cbn; [|done]. rewrite bool_decide_eq_false. intros Hk.
  repeat match goal with
  | |- context [kind =? ?n] => destruct (Z.eqb_spec kind n); [destruct Hk; subst; apply (bool_decide_unpack _); done|]
  end. done.
Qed.

(** One unrecognised reply does not hide the rest. *)
Lemma unrecognised_frames_ignored frames :
  phomemo_parse_status frames = phomemo_parse_status (List.filter recognised frames).
Proof.
  unfold phomemo_parse_status.
  assert (forall s, foldl apply_frame s frames = foldl apply_frame s (List.filter recognised frames)) as ->; [|done].
  induction frames as [|f frames IH]; intros s; [done|]. cbn [foldl List.filter].
  destruct (recognised f) eqn:E; [apply IH|]. rewrite unrecognised_frame by done. apply IH.
Qed.
