(* ===== verification/Probe.v ===== *)
(** Registered probes (crates/mb-printer-core/src/probe.rs): the registry of
    read-only operations, the requests they are resolved to, the decoding of
    their responses, the report with its redaction, and the built-in Brother
    registry. A registry never holds request bytes: a caller names a probe and
    this module writes the command. SHA-256 is a parameter. *)

From stdpp Require Import base gmap list strings numbers option.
From S2P Require Import Prelude Text Ordered Capabilities ProtocolTypes Protocol Administration Discovery.
From S2P Require Import BrotherWifi BrotherReport DeviceStatus.

#[local] Open Scope list_scope.
#[local] Open Scope Z_scope.

(** ** Definitions *)

(** [ProbeId(pub String)]. *)
Definition ProbeId := list Z.

Inductive PjlInfoKind := InfoId | InfoStatus | InfoConfig | InfoVariables.

(** [RegisteredPjlVariable(pub String)]. *)
Definition RegisteredPjlVariable := list Z.

Module ProbeKind.
Inductive t :=
| Ieee1284DeviceId
| BrotherRasterStatus
| BrotherSystemReport
| BrotherWirelessStatus
| PjlInfo (info : PjlInfoKind)
| PjlDinquire (variable : RegisteredPjlVariable).
End ProbeKind.

Inductive ProbeRisk := ProbeReadOnly | BenignStateChange | ConfigurationWrite | ProbeDestructive.

#[global] Instance ProbeRisk_eq_dec : EqDecision ProbeRisk.
Proof. solve_decision. Defined.

#[global] Instance TransportKind_eq_dec : EqDecision TransportKind.
Proof. solve_decision. Defined.

Record ProbeLimits := {
  timeout_ms : Z;
  idle_timeout_ms : Z;
  maximum_response_bytes : Z;
}.

Record ProbeQualification := {
  pq_qualification_id : list Z;
  manufacturers : list (list Z);
  pq_models : list (list Z);
  firmware_versions : list (list Z);
}.

Record ProbeDefinition := {
  probe_id : ProbeId;
  probe_kind : ProbeKind.t;
  probe_protocols : list ProtocolFamily;
  probe_transports : list TransportKind;
  probe_risk : ProbeRisk;
  probe_limits : ProbeLimits;
  probe_qualification : ProbeQualification;
}.

Record ProbeRegistry := { probe_definitions : gmap ProbeId ProbeDefinition }.

Definition ProbeRegistry_default : ProbeRegistry := {| probe_definitions := ∅ |}.

Module RegistryError.
Inductive t :=
| EmptyId | MissingApplicability | InvalidLimits | UnsafeAutomaticProbe
| Duplicate (id : list Z) | InvalidPjlVariable.
End RegistryError.

(** ** The registry *)

(** The lengths and bytes of the name are those of its UTF-8 encoding. *)
Definition pjl_identifier_byte (byte : Z) : bool :=
  is_ascii_uppercase byte || is_ascii_digit byte || (byte =? 95).

Definition valid_pjl_identifier (variable : list Z) : bool :=
  negb (bool_decide (variable = [])) && (zlen variable <=? 64) && forallb pjl_identifier_byte variable.

Definition invalid_limits (limits : ProbeLimits) : bool :=
  (timeout_ms limits =? 0) || (timeout_ms limits <? idle_timeout_ms limits)
  || (maximum_response_bytes limits =? 0).

(** [if let ProbeKind::PjlDinquire { variable } = .. && !valid_pjl_identifier(..)]. *)
Definition unsafe_variable (kind : ProbeKind.t) : bool :=
  match kind with
  | ProbeKind.PjlDinquire variable => negb (valid_pjl_identifier variable)
  | _ => false
  end.

(** A [&mut self] method: the registry it leaves is returned too. *)
Definition register (r : ProbeRegistry) (definition : ProbeDefinition) :
    Result RegistryError.t unit * ProbeRegistry :=
  if bool_decide (probe_id definition = []) then (Err RegistryError.EmptyId, r)
  else if bool_decide (probe_protocols definition = []) || bool_decide (probe_transports definition = [])
  then (Err RegistryError.MissingApplicability, r)
  else if invalid_limits (probe_limits definition) then (Err RegistryError.InvalidLimits, r)
  else if negb (bool_decide (probe_risk definition = ProbeReadOnly))
          || bool_decide (pq_qualification_id (probe_qualification definition) = [])
  then (Err RegistryError.UnsafeAutomaticProbe, r)
  else if unsafe_variable (probe_kind definition) then (Err RegistryError.InvalidPjlVariable, r)
  else
    match probe_definitions r !! probe_id definition with
    | Some _ => (Err (RegistryError.Duplicate (probe_id definition)), r)
    | None => (Ok tt, {| probe_definitions := <[probe_id definition := definition]> (probe_definitions r) |})
    end.

Definition probe_get (r : ProbeRegistry) (id : ProbeId) : option ProbeDefinition := probe_definitions r !! id.

Definition probe_iter (r : ProbeRegistry) : list (ProbeId * ProbeDefinition) := btree_iter (probe_definitions r).

(** ** Applicability *)

Definition matches_allowlist (allowlist : list (list Z)) (actual : option (list Z)) : bool :=
  bool_decide (allowlist = [])
  || match actual with
     | Some actual => existsb (fun allowed => eq_ignore_ascii_case allowed actual) allowlist
     | None => false
     end.

Definition applies_to (d : ProbeDefinition) (protocol : ProtocolFamily) (transport : TransportKind)
    (manufacturer model firmware : option (list Z)) : bool :=
  bool_decide (probe_risk d = ProbeReadOnly)
  && bool_decide (protocol ∈ probe_protocols d)
  && bool_decide (transport ∈ probe_transports d)
  && matches_allowlist (manufacturers (probe_qualification d)) manufacturer
  && matches_allowlist (pq_models (probe_qualification d)) model
  && matches_allowlist (firmware_versions (probe_qualification d)) firmware.

(** ** Requests *)

Module ProbeRequest.
Inductive t :=
| Ieee1284DeviceId
| ProtocolPlan (plan : Plan)
| Command (bytes : list Z).
End ProbeRequest.

Module ProbeCodecError.
Inductive t :=
| UnknownProbe (id : list Z)
| ResponseTooLarge
| MissingPrinterDefinition
| Malformed (message : list Z).
End ProbeCodecError.

(** [format!("\x1b%-12345X@PJL\r\n@PJL {command}\r\n\x1b%-12345X")]. *)
Definition pjl_job (command : list Z) : list Z :=
  27 :: str "%-12345X@PJL" ++ [13; 10] ++ str "@PJL " ++ command ++ [13; 10] ++ 27 :: str "%-12345X".

Definition info_name (info : PjlInfoKind) : list Z :=
  match info with
  | InfoId => str "ID" | InfoStatus => str "STATUS" | InfoConfig => str "CONFIG" | InfoVariables => str "VARIABLES"
  end.

Definition pjl_info_command (info : PjlInfoKind) : list Z := pjl_job (str "INFO " ++ info_name info).

(** [debug_assert!] panics in a debug build. *)
Definition pjl_dinquire_command (variable : list Z) : Result (Fault ProbeCodecError.t) (list Z) :=
  if valid_pjl_identifier variable then Ok (pjl_job (str "DINQUIRE " ++ variable)) else Err Panicked.

(** A call whose only failure is a panic. *)
Definition or_panic {E F A} (r : Result (Fault E) A) : Result (Fault F) A :=
  match r with Ok a => Ok a | Err _ => Err Panicked end.

(** [registry.get(id).ok_or_else(|| UnknownProbe(id.0.clone()))]. *)
Definition registered (r : ProbeRegistry) (id : ProbeId) : Result (Fault ProbeCodecError.t) ProbeDefinition :=
  raising (ok_or (probe_get r id) (ProbeCodecError.UnknownProbe id)).

Definition prepare_registered_probe (r : ProbeRegistry) (id : ProbeId) (printer : option PrinterDefinition) :
    Result (Fault ProbeCodecError.t) ProbeRequest.t :=
  let? definition := registered r id in
  match probe_kind definition with
  | ProbeKind.Ieee1284DeviceId => Ok ProbeRequest.Ieee1284DeviceId
  | ProbeKind.BrotherRasterStatus =>
      let? printer := raising (ok_or printer ProbeCodecError.MissingPrinterDefinition) in
      Ok (ProbeRequest.ProtocolPlan (brother_status_plan printer))
  | ProbeKind.BrotherSystemReport => Ok (ProbeRequest.ProtocolPlan system_report_plan)
  | ProbeKind.BrotherWirelessStatus =>
      let? bytes := or_panic wifi_status_command in Ok (ProbeRequest.Command bytes)
  | ProbeKind.PjlInfo info => Ok (ProbeRequest.Command (pjl_info_command info))
  | ProbeKind.PjlDinquire variable =>
      let? bytes := pjl_dinquire_command variable in Ok (ProbeRequest.Command bytes)
  end.

(** ** Responses *)

Module ProbeResponse.
Inductive t :=
| Ieee1284DeviceId (id : DeviceId)
| BrotherRasterStatus (status : BrotherStatus)
| BrotherSystemReport (report : SystemReport)
| BrotherWirelessStatus (connected : bool)
| PjlText (text : list Z).
End ProbeResponse.

(** The [Display] of the decoders' errors. *)
Definition DeviceIdError_fmt (e : DeviceIdError) : list Z :=
  match e with
  | TooShort => str "short IEEE-1284 device ID"
  | TooLarge => str "IEEE-1284 device ID exceeds limit"
  | InvalidLength => str "invalid IEEE-1284 device ID length"
  | InvalidUtf8 => str "IEEE-1284 device ID is not UTF-8"
  | Malformed => str "malformed IEEE-1284 device ID"
  end.

Definition SystemReportError_fmt (e : SystemReportError) : list Z :=
  match e with
  | ReportTooLarge => str "Brother system report exceeds the 64 KiB limit"
  | MissingMarker => str "response is not a Brother printer configuration report"
  end.

(** [trim_matches(|c| c == '\0' || c.is_whitespace())]: the width of such a
    character at the start, or of a reversed string at the end. *)
Definition blank_start (s : list Z) : nat := match s with 0 :: _ => 1%nat | _ => white_start s end.
Definition blank_end (s : list Z) : nat := match s with 0 :: _ => 1%nat | _ => white_end s end.

Definition trim_blank (s : list Z) : list Z :=
  let s := strip_while blank_start (length s) s in
  reverse (strip_while blank_end (length s) (reverse s)).

Definition decode_pjl_text (response : list Z) : Result ProbeCodecError.t (list Z) :=
  let? text := ok_or (from_utf8 response) (ProbeCodecError.Malformed (str "PJL response is not UTF-8")) in
  let text := trim_blank text in
  if bool_decide (text = []) then Err (ProbeCodecError.Malformed (str "empty PJL response")) else Ok text.

(** [map_err(|error| Malformed(error.to_string()))] *)
Definition malformed {E A} (fmt : E -> list Z) (r : Result E A) : Result ProbeCodecError.t A :=
  map_err (fun e => ProbeCodecError.Malformed (fmt e)) r.

(** The same for a decoder that indexes. *)
Definition malformed_fault {E A} (fmt : E -> list Z) (r : Result (Fault E) A) : Result (Fault ProbeCodecError.t) A :=
  map_err (fun f => match f with Raised e => Raised (ProbeCodecError.Malformed (fmt e)) | Panicked => Panicked end) r.

Definition decode_registered_response (r : ProbeRegistry) (id : ProbeId) (response : list Z) :
    Result (Fault ProbeCodecError.t) ProbeResponse.t :=
  let? definition := registered r id in
  if maximum_response_bytes (probe_limits definition) <? zlen response
  then fail ProbeCodecError.ResponseTooLarge
  else
    match probe_kind definition with
    | ProbeKind.Ieee1284DeviceId =>
        let? value := raising (malformed DeviceIdError_fmt (parse_device_id response)) in
        Ok (ProbeResponse.Ieee1284DeviceId value)
    | ProbeKind.BrotherRasterStatus =>
        let? value := malformed_fault str (parse_status response) in
        Ok (ProbeResponse.BrotherRasterStatus value)
    | ProbeKind.BrotherSystemReport =>
        let? value := raising (malformed SystemReportError_fmt (parse_system_report response)) in
        Ok (ProbeResponse.BrotherSystemReport value)
    | ProbeKind.BrotherWirelessStatus =>
        let? value := raising (ok_or (parse_wifi_status response)
                                     (ProbeCodecError.Malformed (str "invalid wireless status"))) in
        Ok (ProbeResponse.BrotherWirelessStatus value)
    | ProbeKind.PjlInfo _ | ProbeKind.PjlDinquire _ =>
        let? text := raising (decode_pjl_text response) in
        Ok (ProbeResponse.PjlText text)
    end.

(** ** Reports *)

Definition SENSITIVE_KEYS : list (list Z) := map str ["SERIALNUMBER"; "SERN"; "SN"; "MAC"; "MACADDRESS"]%string.

Definition redact_device_id (value : DeviceId) : DeviceId := {|
  raw := REDACTED;
  manufacturer := manufacturer value;
  model := model value;
  command_sets := command_sets value;
  fields := filter (fun field => field.1 ∉ SENSITIVE_KEYS) (fields value);
|}.

Definition redact_probe_response (response : ProbeResponse.t) : ProbeResponse.t :=
  match response with
  | ProbeResponse.Ieee1284DeviceId value => ProbeResponse.Ieee1284DeviceId (redact_device_id value)
  | ProbeResponse.BrotherSystemReport value => ProbeResponse.BrotherSystemReport (redacted value)
  | ProbeResponse.PjlText _ => ProbeResponse.PjlText REDACTED
  | value => value
  end.

Record ProbeExecutionReport := {
  pr_probe_id : ProbeId;
  pr_qualification_id : list Z;
  pr_printer_id : list Z;
  pr_endpoint : list Z;
  pr_endpoint_generation : Z;
  pr_transport : TransportKind;
  pr_protocol : ProtocolFamily;
  pr_duration_ms : Z;
  pr_limits : ProbeLimits;
  pr_response_bytes : Z;
  pr_response_hash : list Z;
  pr_configuration_changed : bool;
  pr_result : ProbeResponse.t;
  pr_origin : ObservationOrigin;
}.

(** [origin.probe_id = ..; origin.qualification = ..] *)
Definition probed_origin (origin : ObservationOrigin) (id : ProbeId) (qualification : QualificationMetadata) :
    ObservationOrigin := {|
  o_agent_id := o_agent_id origin; o_printer_id := o_printer_id origin;
  o_endpoint := o_endpoint origin; o_endpoint_generation := o_endpoint_generation origin;
  o_transport := o_transport origin; o_protocol := o_protocol origin;
  o_request_id := o_request_id origin; o_probe_id := Some id;
  o_observed_at := o_observed_at origin; o_qualification := Some qualification;
|}.

Section Report.
(** [Sha256] of the sha2 crate. *)
Variable sha256 : list Z -> list Z.

Definition hex_sha256 (bytes : list Z) : list Z := flat_map show_hex_02 (sha256 bytes).

Definition build_read_only_probe_report (r : ProbeRegistry) (id : ProbeId) (response : list Z)
    (origin : ObservationOrigin) (duration_ms : Z) : Result (Fault ProbeCodecError.t) ProbeExecutionReport :=
  let? definition := registered r id in
  let? decoded := decode_registered_response r id response in
  let result := redact_probe_response decoded in
  let response_hash := hex_sha256 response in
  let qualification_id := pq_qualification_id (probe_qualification definition) in
  let origin := probed_origin origin id {|
    qm_id := qualification_id;
    qm_firmware := qualification ← o_qualification origin; qm_firmware qualification;
    qm_response_hash := Some response_hash |} in
  Ok {| pr_probe_id := id;
        pr_qualification_id := qualification_id;
        pr_printer_id := o_printer_id origin;
        pr_endpoint := o_endpoint origin;
        pr_endpoint_generation := o_endpoint_generation origin;
        pr_transport := o_transport origin;
        pr_protocol := o_protocol origin;
        pr_duration_ms := duration_ms;
        pr_limits := probe_limits definition;
        pr_response_bytes := zlen response;
        pr_response_hash := response_hash;
        pr_configuration_changed := false;
        pr_result := result;
        pr_origin := origin |}.
End Report.

(** ** The built-in registry *)

(** [registry.register(..).expect(..)] *)
Definition must_register (r : ProbeRegistry) (definition : ProbeDefinition) :
    Result (Fault RegistryError.t) ProbeRegistry :=
  match register r definition with
  | (Ok _, r) => Ok r
  | (Err _, _) => Err Panicked
  end.

(** The definition both loops write, for an identifier, a kind and a size. *)
Definition builtin_definition (id : list Z) (kind : ProbeKind.t) (protocol : ProtocolFamily)
    (transports : list TransportKind) (maximum : Z) : ProbeDefinition := {|
  probe_id := id;
  probe_kind := kind;
  probe_protocols := [protocol];
  probe_transports := transports;
  probe_risk := ProbeReadOnly;
  probe_limits := {| timeout_ms := 5000; idle_timeout_ms := 300; maximum_response_bytes := maximum |};
  probe_qualification := {|
    pq_qualification_id := id ++ str ".qualified";
    manufacturers := [str "Brother"];
    pq_models := [];
    firmware_versions := [] |};
|}.

Definition BROTHER_PROBES : list ProbeDefinition := [
  builtin_definition (str "ieee1284.device-id.v1") ProbeKind.Ieee1284DeviceId FamilyIeee1284
    [TransportUsb; TransportIppOverUsb] MAX_DEVICE_ID_BYTES;
  builtin_definition (str "brother.raster-status.v1") ProbeKind.BrotherRasterStatus FamilyBrother
    [TransportUsb; TransportRawTcp] 32;
  builtin_definition (str "brother.system-report.v1") ProbeKind.BrotherSystemReport FamilyBrother
    [TransportUsb; TransportRawTcp] MAX_SYSTEM_REPORT_BYTES;
  builtin_definition (str "brother.wireless-status.v1") ProbeKind.BrotherWirelessStatus FamilyBrother
    [TransportUsb; TransportRawTcp] (4 * 1024)
].

Definition info_suffix (info : PjlInfoKind) : list Z :=
  match info with
  | InfoId => str "id" | InfoStatus => str "status" | InfoConfig => str "config" | InfoVariables => str "variables"
  end.

Definition pjl_info_probe (info : PjlInfoKind) : ProbeDefinition :=
  builtin_definition (str "pjl.info-" ++ info_suffix info ++ str ".v1") (ProbeKind.PjlInfo info) FamilyPjl
    [TransportUsb; TransportRawTcp] (64 * 1024).

Definition brother_read_only_registry : Result (Fault RegistryError.t) ProbeRegistry :=
  let? r := for_each (fun definition r => must_register r definition) BROTHER_PROBES ProbeRegistry_default in
  for_each (fun info r => must_register r (pjl_info_probe info)) [InfoId; InfoStatus; InfoConfig; InfoVariables] r.
