(* ===== verification/ProbeFacts.v ===== *)
(** Theorems about registered probes (Probe.v): what a registry holds after
    any sequence of registrations, that the commands of its probes are single
    queries whatever was registered, that the built-in registry is accepted,
    and that a report does not depend on the identifiers in a response. *)

From stdpp Require Import base gmap list strings numbers option.
From S2P Require Import Prelude Text Ordered Capabilities ProtocolTypes Protocol Administration Discovery.
From S2P Require Import BrotherWifi BrotherReport DeviceStatus Probe.

#[local] Open Scope list_scope.
#[local] Open Scope Z_scope.

(** ** What a registry holds *)

(** A PJL variable name: 1 to 64 capital letters, digits and underscores. *)
Definition pjl_identifier (variable : list Z) : Prop :=
  variable <> [] /\ zlen variable <= 64 /\
  Forall (fun b => 65 <= b <= 90 \/ 48 <= b <= 57 \/ b = 95) variable.

(** A definition that may run without asking anyone. *)
Record safe_probe (d : ProbeDefinition) : Prop := {
  safe_id : probe_id d <> [];
  safe_protocols : probe_protocols d <> [];
  safe_transports : probe_transports d <> [];
  safe_timeout : timeout_ms (probe_limits d) <> 0;
  safe_idle : idle_timeout_ms (probe_limits d) <= timeout_ms (probe_limits d);
  safe_maximum : maximum_response_bytes (probe_limits d) <> 0;
  safe_risk : probe_risk d = ProbeReadOnly;
  safe_qualified : pq_qualification_id (probe_qualification d) <> [];
  safe_variable : forall variable, probe_kind d = ProbeKind.PjlDinquire variable -> pjl_identifier variable;
}.

Lemma pjl_identifier_byte_spec b :
  pjl_identifier_byte b = true <-> 65 <= b <= 90 \/ 48 <= b <= 57 \/ b = 95.
Proof.
  unfold pjl_identifier_byte, is_ascii_uppercase, is_ascii_digit.
  rewrite !orb_true_iff, !andb_true_iff, Z.eqb_eq. lia.
Qed.

Lemma valid_pjl_identifier_spec v : valid_pjl_identifier v = true <-> pjl_identifier v.
Proof.
  unfold valid_pjl_identifier, pjl_identifier.
  rewrite !andb_true_iff, negb_true_iff, bool_decide_eq_false, Z.leb_le, forallb_forall, list.Forall_forall.
  setoid_rewrite list_elem_of_In. setoid_rewrite pjl_identifier_byte_spec. tauto.
Qed.

Lemma unsafe_variable_spec kind :
  unsafe_variable kind = false <-> forall v, kind = ProbeKind.PjlDinquire v -> pjl_identifier v.
Proof.
  destruct kind; simpl; try (split; [intros _ v Hv; discriminate Hv|done]).
  rewrite negb_false_iff, valid_pjl_identifier_spec. split; [by intros H v [= <-]|by intros H; apply H].
Qed.

(** The error of a definition that is not safe. *)
Definition refusal (d : ProbeDefinition) : option RegistryError.t :=
  match register ProbeRegistry_default d with (Err e, _) => Some e | (Ok _, _) => None end.

Lemma default_get id : probe_get ProbeRegistry_default id = None.
Proof. apply lookup_empty. Qed.

Ltac split_guard :=
  match goal with
  | |- context [if ?b then _ else _] =>
      let E := fresh "Eg" in destruct b eqn:E;
      rewrite ?orb_true_iff, ?orb_false_iff, ?negb_true_iff, ?negb_false_iff, ?bool_decide_eq_true,
        ?bool_decide_eq_false, ?Z.eqb_eq, ?Z.eqb_neq, ?Z.ltb_lt, ?Z.ltb_ge in E
  end.

Lemma refusal_None d : refusal d = None <-> safe_probe d.
Proof.
  unfold refusal, register, invalid_limits. cbn [probe_definitions ProbeRegistry_default]. rewrite lookup_empty. repeat split_guard.
  all: split; [try (intros ?; discriminate)|try (intros [???????? Hv]; first [tauto|lia|idtac])].
  - apply unsafe_variable_spec in Hv. congruence.
  - intros _. rewrite unsafe_variable_spec in Eg3. split; tauto.
Qed.

(** Registering adds a safe definition with a new identifier and otherwise
    reports why not, leaving the registry as it is. *)
Lemma register_eq r d :
  register r d =
  match refusal d with
  | Some e => (Err e, r)
  | None =>
      match probe_get r (probe_id d) with
      | Some _ => (Err (RegistryError.Duplicate (probe_id d)), r)
      | None => (Ok tt, {| probe_definitions := <[probe_id d := d]> (probe_definitions r) |})
      end
  end.
Proof. unfold refusal, register, probe_get. cbn [probe_definitions ProbeRegistry_default]. rewrite lookup_empty. by repeat split_guard. Qed.

(** A registry after the given registrations, successful or not. *)
Definition register_all (ds : list ProbeDefinition) : ProbeRegistry :=
  foldl (fun r d => (register r d).2) ProbeRegistry_default ds.

#[global] Instance pjl_identifier_dec v : Decision (pjl_identifier v).
Proof. refine (cast_if (decide (valid_pjl_identifier v = true))); by rewrite <- valid_pjl_identifier_spec. Defined.

(** The definitions accepted under an identifier, in order of registration. *)
Definition accepted (id : ProbeId) (ds : list ProbeDefinition) : list ProbeDefinition :=
  List.filter (fun d => bool_decide (refusal d = None) && bool_decide (probe_id d = id)) ds.

Lemma accepted_spec id ds d :
  d ∈ accepted id ds <-> d ∈ ds /\ safe_probe d /\ probe_id d = id.
Proof.
  unfold accepted. rewrite !list_elem_of_In, filter_In, andb_true_iff, !bool_decide_eq_true, refusal_None. tauto.
Qed.

Lemma register_all_get ds id : probe_get (register_all ds) id = head (accepted id ds).
Proof.
  unfold register_all. assert (forall r,
    probe_get (foldl (fun r d => (register r d).2) r ds) id =
    match probe_get r id with Some d => Some d | None => head (accepted id ds) end) as H.
  2: { rewrite H. by rewrite default_get. }
  induction ds as [|d ds IH]; intros r; cbn [foldl].
  { cbn. by destruct (probe_get r id). }
  rewrite IH, register_eq. cbn [accepted List.filter].
  destruct (refusal d) eqn:Er; cbn [snd]; [by rewrite bool_decide_eq_false_2|].
  rewrite bool_decide_eq_true_2 by done. cbn [andb].
  destruct (probe_get r (probe_id d)) as [d'|] eqn:El; cbn [snd].
  - case_bool_decide as Hid; [|done]. by rewrite <- Hid, El.
  - unfold probe_get in *. cbn [probe_definitions]. destruct (decide (probe_id d = id)) as [<-|Hid].
    + rewrite bool_decide_eq_true_2 by done. by rewrite lookup_insert_eq, El.
    + rewrite bool_decide_eq_false_2 by done. by rewrite lookup_insert_ne.
Qed.

(** Whatever definitions are registered, and in whatever order, a registry
    holds under an identifier the first safe definition given for it and
    nothing else: one that reads only, is qualified, has positive limits and
    asks for no variable but a PJL name. *)
Theorem registry_holds_first_safe ds id :
  (exists refused rest d,
     ds = refused ++ d :: rest /\ probe_get (register_all ds) id = Some d /\ safe_probe d /\ probe_id d = id /\
     Forall (fun d => ~ (safe_probe d /\ probe_id d = id)) refused)
  \/ probe_get (register_all ds) id = None /\ Forall (fun d => ~ (safe_probe d /\ probe_id d = id)) ds.
Proof.
  rewrite register_all_get. induction ds as [|d ds IH]; [by right|].
  cbn [accepted List.filter]. destruct (bool_decide (refusal d = None) && bool_decide (probe_id d = id)) eqn:E.
  - left. exists [], ds, d. rewrite andb_true_iff, !bool_decide_eq_true, refusal_None in E. naive_solver.
  - rewrite andb_false_iff, !bool_decide_eq_false, refusal_None in E.
    assert (~ (safe_probe d /\ probe_id d = id)) by tauto.
    destruct IH as [(refused & rest & d' & -> & Hd')|[Hn Hds]].
    + left. exists (d :: refused), rest, d'. naive_solver.
    + right. naive_solver.
Qed.

Definition registry_holds_first_safe_example : list ProbeDefinition :=
  [ builtin_definition (str "x") (ProbeKind.PjlDinquire (str "A B")) FamilyPjl [TransportUsb] 1;
    pjl_info_probe InfoId;
    builtin_definition (str "x") (ProbeKind.PjlDinquire (str "RESOLUTION")) FamilyPjl [TransportUsb] 1;
    builtin_definition (str "x") (ProbeKind.PjlDinquire (str "COPIES")) FamilyPjl [TransportUsb] 1 ].

Example first_safe_is_kept :
  probe_kind <$> probe_get (register_all registry_holds_first_safe_example) (str "x") =
    Some (ProbeKind.PjlDinquire (str "RESOLUTION")) /\
  size (probe_definitions (register_all registry_holds_first_safe_example)) = 2%nat.
Proof. by vm_compute. Qed.

(** ** What a probe asks *)

Definition UEL : list Z := 27 :: str "%-12345X".

(** How a printer reads a PJL job: between two exit sequences, commands on
    lines of their own; an exit sequence in between would start another job. *)
Definition read_pjl_job (bytes : list Z) : option (list (list Z)) :=
  body ← strip_prefix bytes UEL;
  body ← strip_suffix body UEL;
  if bool_decide (27 ∈ body) then None else Some (lines body).

(** The commands that a probe of a kind may give. *)
Inductive query : ProbeKind.t -> list (list Z) -> Prop :=
| query_info info : query (ProbeKind.PjlInfo info) [str "@PJL"; str "@PJL INFO " ++ info_name info]
| query_dinquire variable : pjl_identifier variable ->
    query (ProbeKind.PjlDinquire variable) [str "@PJL"; str "@PJL DINQUIRE " ++ variable]
| query_wireless :
    query ProbeKind.BrotherWirelessStatus
      [str "@PJL"; str "@PJL DEFAULT OBJBRNET=" ++ [QUOTE] ++ oid Connected ++ [QUOTE]; str "@PJL INQUIRE OBJBRNET"].

Inductive asks : ProbeKind.t -> option PrinterDefinition -> ProbeRequest.t -> Prop :=
| asks_device_id printer : asks ProbeKind.Ieee1284DeviceId printer ProbeRequest.Ieee1284DeviceId
| asks_status printer :
    asks ProbeKind.BrotherRasterStatus (Some printer) (ProbeRequest.ProtocolPlan (brother_status_plan printer))
| asks_report printer : asks ProbeKind.BrotherSystemReport printer (ProbeRequest.ProtocolPlan system_report_plan)
| asks_query kind printer bytes commands : read_pjl_job bytes = Some commands -> query kind commands ->
    asks kind printer (ProbeRequest.Command bytes).

Lemma printable_by_test s : forallb (between 32 126) s = true -> Forall (fun b => 32 <= b <= 126) s.
Proof.
  rewrite forallb_forall, list.Forall_forall. intros H b Hb. apply list_elem_of_In, H in Hb.
  unfold between in Hb. blia.
Qed.

Lemma lines_crlf line rest :
  Forall (fun b => 32 <= b <= 126) line -> lines (line ++ 13 :: 10 :: rest) = line :: lines rest.
Proof.
  intros Hl. unfold lines. change (line ++ 13 :: 10 :: rest) with (line ++ [13] ++ 10 :: rest). rewrite app_assoc.
  rewrite split_app.
  - destruct (split_cons 10 rest) as (p & ps & E). rewrite E. cbn [lines_of]. f_equal.
    unfold strip_cr. by rewrite (proj2 (strip_suffix_Some _ [13] line)).
  - rewrite elem_of_app, list_elem_of_singleton. intros [H|H]; [|lia].
    apply (proj1 (list.Forall_forall _ _) Hl) in H. lia.
Qed.

Lemma read_pjl_job_of command :
  Forall (fun b => 32 <= b <= 126) command ->
  read_pjl_job (pjl_job command) = Some [str "@PJL"; str "@PJL " ++ command].
Proof.
  intros Hc. unfold read_pjl_job, pjl_job.
  set (body := str "@PJL" ++ [13; 10] ++ (str "@PJL " ++ command) ++ [13; 10]).
  match goal with |- context [strip_prefix ?x _] => replace x with (UEL ++ body ++ UEL) end.
  2: { unfold body, UEL. by rewrite <- !app_assoc. }
  rewrite strip_prefix_app. cbn [mbind option_bind]. rewrite (proj2 (strip_suffix_Some _ UEL body)) by done.
  assert (Forall (fun b => 32 <= b <= 126) (str "@PJL " ++ command)) as Hp.
  { apply Forall_app. split; [by apply printable_by_test|done]. }
  cbn [mbind option_bind]. rewrite bool_decide_false.
  - unfold body. cbn [app]. rewrite lines_crlf by (by apply printable_by_test).
    rewrite (lines_crlf _ []) by done. done.
  - unfold body. rewrite !elem_of_app. rewrite list.Forall_forall in Hp. intros [H|[H|[H|H]]].
    + pose proof (printable_by_test (str "@PJL") eq_refl) as Hs. rewrite list.Forall_forall in Hs.
      apply Hs in H. lia.
    + rewrite !elem_of_cons, elem_of_nil in H. lia.
    + rewrite <- elem_of_app in H. apply Hp in H. lia.
    + rewrite !elem_of_cons, elem_of_nil in H. lia.
Qed.

Lemma identifier_printable v : pjl_identifier v -> Forall (fun b => 32 <= b <= 126) v.
Proof. intros (_ & _ & H). eapply list.Forall_impl; [exact H|]. simpl. lia. Qed.

Lemma wifi_status_query :
  exists bytes, wifi_status_command = Ok bytes /\
    read_pjl_job bytes = Some [str "@PJL"; str "@PJL DEFAULT OBJBRNET=" ++ [QUOTE] ++ oid Connected ++ [QUOTE]; str "@PJL INQUIRE OBJBRNET"].
Proof. eexists. split; [vm_compute; reflexivity|]. by vm_compute. Qed.

(** C19: For a registry reached by any registrations, a registered probe is
    resolved to a request of its kind: a device identifier, a fixed plan, or
    one PJL job of one query that the registered name cannot break out of. The
    only errors are an unknown identifier and a status probe without printer. *)
Theorem registered_probes_only_query ds id printer :
  let r := register_all ds in
  match probe_get r id with
  | None => prepare_registered_probe r id printer = fail (ProbeCodecError.UnknownProbe id)
  | Some d =>
      (probe_kind d = ProbeKind.BrotherRasterStatus /\ printer = None /\
       prepare_registered_probe r id printer = fail ProbeCodecError.MissingPrinterDefinition)
      \/ exists request, prepare_registered_probe r id printer = Ok request /\ asks (probe_kind d) printer request
  end.
Proof.
  cbn zeta. pose proof (register_all_get ds id) as Hget.
  unfold prepare_registered_probe, registered. destruct (probe_get (register_all ds) id) as [d|] eqn:E; [|done].
  symmetry in Hget. apply head_Some_elem_of, accepted_spec in Hget as (_ & Hsafe & _).
  cbn [ok_or raising map_err rbind]. destruct (probe_kind d) as [| | | |info|v] eqn:Ek.
  - right. eexists. split; [done|constructor].
  - destruct printer as [p|]; [right|by left]. eexists. split; [done|constructor].
  - right. eexists. split; [done|constructor].
  - right. destruct wifi_status_query as (bytes & -> & Hb). eexists. split; [done|].
    econstructor; [exact Hb|constructor].
  - right. eexists. split; [done|]. econstructor; [apply read_pjl_job_of; by destruct info; apply printable_by_test|].
    constructor.
  - right. pose proof (safe_variable d Hsafe v Ek) as Hv. unfold pjl_dinquire_command.
    rewrite (proj2 (valid_pjl_identifier_spec v) Hv). eexists. split; [done|].
    econstructor; [apply read_pjl_job_of|by constructor].
    apply Forall_app. split; [by apply printable_by_test|by apply identifier_printable].
Qed.

(** ** What a report shows *)

(** Two device identifiers that differ only in what identifies the device: its
    serial number and its hardware address, under any of their keys. *)
Definition identifying (key : list Z) : Prop :=
  key = str "SERIALNUMBER" \/ key = str "SERN" \/ key = str "SN" \/ key = str "MAC" \/ key = str "MACADDRESS".

Definition same_public_id (a b : DeviceId) : Prop :=
  forall key, ~ identifying key -> fields a !! key = fields b !! key.

Lemma not_identifying key : key ∉ SENSITIVE_KEYS -> ~ identifying key.
Proof. intros Hk H. apply Hk. unfold SENSITIVE_KEYS. cbn [map]. rewrite !elem_of_cons. unfold identifying in H. tauto. Qed.

Lemma parsed_id_fields data id :
  parse_device_id data = Ok id ->
  let value := short_or_long (fun key => fields id !! key) in
  manufacturer id = value (str "MFG") (str "MANUFACTURER") /\ model id = value (str "MDL") (str "MODEL") /\
  command_sets id = split_command_sets (value (str "CMD") (str "COMMAND SET")).
Proof.
  unfold parse_device_id, device_id_of_text. destruct data as [|b0 [|b1 data]]; [done..|]. intros H. inv_ok H.
  by subst id.
Qed.

Lemma redact_same_id data data' a b :
  parse_device_id data = Ok a -> parse_device_id data' = Ok b -> same_public_id a b ->
  redact_device_id a = redact_device_id b.
Proof.
  intros Ha%parsed_id_fields Hb%parsed_id_fields Hs. cbn zeta in Ha, Hb.
  destruct Ha as (Ma & Oa & Ca), Hb as (Mb & Ob & Cb).
  assert (forall key, bool_decide (key ∈ SENSITIVE_KEYS) = false -> fields a !! key = fields b !! key) as Hk.
  { intros key Hk%bool_decide_eq_false. by apply Hs, not_identifying. }
  unfold short_or_long in *. unfold redact_device_id.
  rewrite Ma, Oa, Ca, Mb, Ob, Cb, !Hk by (vm_compute; reflexivity). f_equal.
  apply map_eq. intros key. apply option_eq. intros value. rewrite !map_lookup_filter_Some. cbn [fst].
  split; intros [Hv Hn]; (split; [|done]); [rewrite <- Hs|rewrite Hs]; auto using not_identifying.
Qed.

(** Two responses to a probe that differ only in what identifies the device,
    as the probe's decoder reads them. *)
Inductive same_public_response : list Z -> list Z -> ProbeResponse.t -> ProbeResponse.t -> Prop :=
| same_id data data' a b :
    parse_device_id data = Ok a -> parse_device_id data' = Ok b -> same_public_id a b ->
    same_public_response data data' (ProbeResponse.Ieee1284DeviceId a) (ProbeResponse.Ieee1284DeviceId b)
| same_report data data' r r' :
    parse_system_report data = Ok r -> parse_system_report data' = Ok r' ->
    Forall2 same_public_setting (lines (BrotherReport.text r)) (lines (BrotherReport.text r')) ->
    same_public_response data data' (ProbeResponse.BrotherSystemReport r) (ProbeResponse.BrotherSystemReport r')
| same_pjl data data' t t' : same_public_response data data' (ProbeResponse.PjlText t) (ProbeResponse.PjlText t')
| same_other data data' response : same_public_response data data' response response.

Lemma redact_same_response data data' response response' :
  same_public_response data data' response response' ->
  redact_probe_response response = redact_probe_response response'.
Proof.
  intros [d d' a b Ha Hb Hs|d d' r r' Hr%parse_system_report_of Hr'%parse_system_report_of Hl|d d' t t'|d d' s];
    cbn; [|rewrite Hr, Hr'; f_equal; by apply redacted_same|done|done].
  f_equal. by apply (redact_same_id d d').
Qed.

(** A report with the size and the digest of another response. *)
Definition with_digest (size : Z) (hash : list Z) (rep : ProbeExecutionReport) : ProbeExecutionReport := {|
  pr_probe_id := pr_probe_id rep; pr_qualification_id := pr_qualification_id rep;
  pr_printer_id := pr_printer_id rep; pr_endpoint := pr_endpoint rep;
  pr_endpoint_generation := pr_endpoint_generation rep; pr_transport := pr_transport rep;
  pr_protocol := pr_protocol rep; pr_duration_ms := pr_duration_ms rep; pr_limits := pr_limits rep;
  pr_response_bytes := size; pr_response_hash := hash;
  pr_configuration_changed := pr_configuration_changed rep; pr_result := pr_result rep;
  pr_origin := probed_origin (pr_origin rep) (pr_probe_id rep) {|
    qm_id := pr_qualification_id rep;
    qm_firmware := qualification ← o_qualification (pr_origin rep); qm_firmware qualification;
    qm_response_hash := Some hash |};
|}.

(** Of two responses to a probe that differ only in what identifies the
    device (its serial number and hardware addresses, the sensitive settings of
    a system report, the text of a PJL answer), the reports are the same but
    for the size and the digest of the response. *)
Theorem probe_report_hides_identifiers sha256 r id origin duration data data' response response' :
  decode_registered_response r id data = Ok response -> decode_registered_response r id data' = Ok response' ->
  same_public_response data data' response response' ->
  exists rep, build_read_only_probe_report sha256 r id data origin duration = Ok rep /\
    build_read_only_probe_report sha256 r id data' origin duration =
      Ok (with_digest (zlen data') (hex_sha256 sha256 data') rep).
Proof.
  intros Hd Hd' Hs. unfold build_read_only_probe_report. rewrite Hd, Hd'.
  unfold registered.
  destruct (probe_get r id) as [d|] eqn:E; [|unfold decode_registered_response, registered in Hd; by rewrite E in Hd].
  cbn [ok_or raising map_err rbind]. eexists. split; [reflexivity|].
  by rewrite (redact_same_response _ _ _ _ Hs).
Qed.

(** ** The built-in registry *)

Definition PJL_PROBES : list ProbeDefinition := map pjl_info_probe [InfoId; InfoStatus; InfoConfig; InfoVariables].

(** The built-in registry is built without a panic and holds exactly its
    eight probes; each applies to the printers that call themselves Brother, in
    any case, on the transports and protocol it names. *)
Theorem builtin_registry_spec :
  exists r, brother_read_only_registry = Ok r /\
    (forall id d, probe_get r id = Some d <-> d ∈ BROTHER_PROBES ++ PJL_PROBES /\ probe_id d = id) /\
    (forall d protocol transport maker model firmware, d ∈ BROTHER_PROBES ++ PJL_PROBES ->
       applies_to d protocol transport maker model firmware = true <->
       probe_protocols d = [protocol] /\ transport ∈ probe_transports d /\
       exists name, maker = Some name /\ eq_ignore_ascii_case (str "Brother") name = true).
Proof.
  exists (register_all (BROTHER_PROBES ++ PJL_PROBES)). split; [vm_compute; reflexivity|split].
  - intros id d. rewrite register_all_get. split.
    + intros H%head_Some_elem_of. apply accepted_spec in H. tauto.
    + intros [Hd <-]. cbn [app BROTHER_PROBES PJL_PROBES map] in Hd.
      repeat (apply elem_of_cons in Hd as [->|Hd]; [by vm_compute|]). by apply elem_of_nil in Hd.
  - intros d protocol transport maker model firmware Hd.
    assert (exists id kind family transports maximum, d = builtin_definition id kind family transports maximum)
      as (id & kind & family & transports & maximum & ->).
    { cbn [app BROTHER_PROBES PJL_PROBES map] in Hd.
      repeat (apply elem_of_cons in Hd as [->|Hd]; [by repeat eexists|]). by apply elem_of_nil in Hd. }
    unfold applies_to, matches_allowlist, builtin_definition.
    cbn [probe_risk probe_protocols probe_transports probe_qualification manufacturers pq_models firmware_versions].
    rewrite !andb_true_iff, !orb_true_iff, !bool_decide_eq_true, list_elem_of_singleton.
    destruct maker as [name|]; [|naive_solver]. cbn [existsb]. rewrite orb_false_r. naive_solver.
Qed.

Definition example_id (serial : string) : list Z :=
  write_device_id [(str "MFG", str "Brother"); (str "MDL", str "QL-820NWB"); (str "SN", str serial)].

Lemma probe_report_hides_identifiers_witness :
  let r := register_all BROTHER_PROBES in
  let id := str "ieee1284.device-id.v1" in
  let origin := {|
    o_agent_id := None; o_printer_id := str "p"; o_endpoint := str "usb"; o_endpoint_generation := 1;
    o_transport := TransportUsb; o_protocol := FamilyIeee1284; o_request_id := str "1"; o_probe_id := None;
    o_observed_at := str "0"; o_qualification := None |} in
  example_id "A1" <> example_id "B22" /\
  exists rep, build_read_only_probe_report (fun bytes => bytes) r id (example_id "A1") origin 7 = Ok rep /\
    build_read_only_probe_report (fun bytes => bytes) r id (example_id "B22") origin 7 =
      Ok (with_digest (zlen (example_id "B22")) (hex_sha256 (fun bytes => bytes) (example_id "B22")) rep).
Proof.
  intros r id origin. split; [by vm_compute|].
  destruct (parse_device_id (example_id "A1")) as [a|] eqn:Ea; [|vm_compute in Ea; discriminate Ea].
  destruct (parse_device_id (example_id "B22")) as [b|] eqn:Eb; [|vm_compute in Eb; discriminate Eb].
  apply (probe_report_hides_identifiers _ r id origin 7 _ _ (ProbeResponse.Ieee1284DeviceId a) (ProbeResponse.Ieee1284DeviceId b)).
  - unfold r, id. rewrite <- (Ok_inj _ _ Ea). vm_compute. reflexivity.
  - unfold r, id. rewrite <- (Ok_inj _ _ Eb). vm_compute. reflexivity.
  - apply same_id; [done..|]. intros key Hk.
    assert (key <> str "SN") as Hsn by (intros ->; apply Hk; unfold identifying; tauto).
    rewrite <- (lookup_delete_ne (fields a) (str "SN") key), <- (lookup_delete_ne (fields b) (str "SN") key) by done.
    f_equal. vm_compute in Ea, Eb. apply Ok_inj in Ea as <-, Eb as <-. vm_compute. reflexivity.
Defined.
