(* ===== verification/BrotherMfp.v ===== *)
(** The Brother firmware inventory over SNMP
    (crates/mb-printer-core/src/providers/brother/snmp.rs): the frozen
    catalogues of objects and the parsing of the firmware records that the
    printer returns for them. *)

From stdpp Require Import base gmap list strings numbers option.
From S2P Require Import Prelude Text Effects Ipp Snmp Administration Discovery.

#[local] Open Scope list_scope.
#[local] Open Scope Z_scope.

Definition FIRMWARE_RECORD_BASE : list Z := str "1.3.6.1.4.1.2435.2.4.3.99.3.1.6.1.2".
Definition MAX_FIRMWARE_RECORDS : nat := 16.

(** ** Observed fields *)

Record Observed (T : Type) := { observed_value : T; observed_evidence : list Evidence }.
Arguments Build_Observed {T} _ _.
Arguments observed_value {T} _.
Arguments observed_evidence {T} _.

Module FieldResult.
Inductive t (T : Type) :=
| Field (o : Observed T)
| Unsupported
| Missing
| Malformed (evidence : list Evidence)
| Conflict (observations : list (Observed T)).
Arguments Field {T} _.
Arguments Unsupported {T}.
Arguments Missing {T}.
Arguments Malformed {T} _.
Arguments Conflict {T} _.
End FieldResult.

Record FirmwareComponent := {
  component_id : list Z;
  component_version : list Z;
  compatibility_key : FieldResult.t (list Z);
  component_evidence : list Evidence;
}.

Record FirmwareInventory := {
  update_model : FieldResult.t (list Z);
  specification : FieldResult.t (list Z);
  schema_version : FieldResult.t (list Z);
  components : FieldResult.t (list FirmwareComponent);
  diagnostic_records : list (Observed (list Z));
}.

(** ** Catalogues *)

(** The object of the [index]-th record, from 1. *)
Definition record_oid_text (index : nat) : list Z := FIRMWARE_RECORD_BASE ++ DOT :: show_dec (Z.of_nat index).

(** One turn of a loop: key and identifier are checked, then the definition is
    registered. *)
Definition add_object (qualification : DeviceQualification) (key oid : list Z) (syntax : ObjectSyntax)
    (sensitivity : Sensitivity) (r : ObjectRegistry) : Result SnmpError.t ObjectRegistry :=
  let? key := ObjectKey_new key in
  let? oid := ObjectId_parse oid in
  let '(result, r) := register_definition r {|
    d_key := key; d_oid := oid; d_syntax := syntax; d_sensitivity := sensitivity;
    d_access := ReadOnly; d_qualification := qualification |} in
  let? _ := result in
  Ok r.

Definition mfp_inventory_catalogue (qualification : DeviceQualification) : Result SnmpError.t ObjectRegistry :=
  for_each (fun index =>
      add_object qualification (str "brother.firmware.record." ++ show_dec (Z.of_nat index)) (record_oid_text index)
        SyntaxBrotherFirmwareRecord Public)
    (seq 1 MAX_FIRMWARE_RECORDS) ObjectRegistry_default.

Definition MFP_OBJECTS : list (string * string * ObjectSyntax * Sensitivity) := [
  ("printer.serial-number", "1.3.6.1.2.1.43.5.1.1.17.1", SyntaxUtf8 true, Identifier);
  ("printer.system-contact", "1.3.6.1.2.1.1.4.0", SyntaxUtf8 true, Identifier);
  ("printer.system-name", "1.3.6.1.2.1.1.5.0", SyntaxUtf8 true, Identifier);
  ("printer.system-location", "1.3.6.1.2.1.1.6.0", SyntaxUtf8 true, Identifier);
  ("brother.firmware-update.supported", "1.3.6.1.4.1.2435.2.4.3.2435.5.101.1.0", SyntaxInteger, Public);
  ("brother.firmware-update.enabled", "1.3.6.1.4.1.2435.2.4.3.2435.5.101.2.0", SyntaxInteger, Public);
  ("brother.phoenix.capabilities", "1.3.6.1.4.1.2435.2.4.3.2435.5.39.1.0", SyntaxOctets, Public);
  ("brother.firmware-update.keyword-count", "1.3.6.1.4.1.2435.2.3.9.4.2.1.5.5.55.1.0", SyntaxInteger, Public)
]%string.

Definition mfp_read_catalogue (qualification : DeviceQualification) : Result SnmpError.t ObjectRegistry :=
  let? registry := mfp_inventory_catalogue qualification in
  for_each (fun '(key, oid, syntax, sensitivity) => add_object qualification (str key) (str oid) syntax sensitivity)
    MFP_OBJECTS registry.

(** ** The inventory *)

(** [singular_field]: one value, however often it was observed. *)
Definition singular_field (observations : list (Observed (list Z))) : FieldResult.t (list Z) :=
  match observations with
  | [] => FieldResult.Missing
  | first :: _ =>
      if forallb (fun o => bool_decide (observed_value o = observed_value first)) observations
      then FieldResult.Field {| observed_value := observed_value first;
                                   observed_evidence := flat_map observed_evidence observations |}
      else FieldResult.Conflict observations
  end.

(** The variables of the loop. *)
Record InventoryState := {
  models_ : list (Observed (list Z));
  specifications : list (Observed (list Z));
  ids : list (Observed (list Z));
  versions : list (Observed (list Z));
  malformed_evidence : list Evidence;
  malformed : bool;
  diagnostics : list (Observed (list Z));
}.

Definition InventoryState_default : InventoryState := {|
  models_ := []; specifications := []; ids := []; versions := [];
  malformed_evidence := []; malformed := false; diagnostics := [] |}.

Definition is_record_end (b : Z) : bool := (b =? 0) || (b =? 13) || (b =? 10).

Definition DOUBLE_QUOTE : Z := 34.

(** [match key], with the state extended by the observation. *)
Definition push_record (st : InventoryState) (key : list Z) (o : Observed (list Z)) : InventoryState :=
  if bool_decide (key = str "MODEL") then
    {| models_ := models_ st ++ [o]; specifications := specifications st; ids := ids st; versions := versions st;
       malformed_evidence := malformed_evidence st; malformed := malformed st; diagnostics := diagnostics st |}
  else if bool_decide (key = str "SPEC") then
    {| models_ := models_ st; specifications := specifications st ++ [o]; ids := ids st; versions := versions st;
       malformed_evidence := malformed_evidence st; malformed := malformed st; diagnostics := diagnostics st |}
  else if bool_decide (key = str "FIRMID") then
    {| models_ := models_ st; specifications := specifications st; ids := ids st ++ [o]; versions := versions st;
       malformed_evidence := malformed_evidence st; malformed := malformed st; diagnostics := diagnostics st |}
  else if bool_decide (key = str "FIRMVER") then
    {| models_ := models_ st; specifications := specifications st; ids := ids st; versions := versions st ++ [o];
       malformed_evidence := malformed_evidence st; malformed := malformed st; diagnostics := diagnostics st |}
  else
    {| models_ := models_ st; specifications := specifications st; ids := ids st; versions := versions st;
       malformed_evidence := malformed_evidence st; malformed := malformed st;
       diagnostics := diagnostics st ++
         [{| observed_value := key ++ 61 :: observed_value o; observed_evidence := observed_evidence o |}] |}.

Section Inventory.
(** [evidence_for] of the caller. *)
Variable evidence_for : ObjectId -> list Evidence.

(** [malformed = true; malformed_evidence.extend(..)] *)
Definition mark_malformed (st : InventoryState) (oid : ObjectId) : InventoryState := {|
  models_ := models_ st; specifications := specifications st; ids := ids st; versions := versions st;
  malformed_evidence := malformed_evidence st ++ evidence_for oid; malformed := true; diagnostics := diagnostics st |}.

(** The text of a record, or how the loop ends without one: [Some true] for a
    malformed binding, [Some false] for the end of the records. *)
Definition record_text (binding : VarBind) : Result bool (list Z) :=
  match value binding with
  | ObjectValue.Bytes bytes => ok_or (from_utf8 bytes) true
  | ObjectValue.NoSuchObject | ObjectValue.NoSuchInstance | ObjectValue.EndOfMibView => Err false
  | _ => Err true
  end.

(** One turn: the state, and whether the loop goes on. The identifier is
    parsed with [expect]. *)
Definition inventory_step (offset : nat) (binding : VarBind) (st : InventoryState) :
    Result (Fault SnmpError.t) (InventoryState * bool) :=
  match ObjectId_parse (record_oid_text (offset + 1)) with
  | Err _ => Err Panicked
  | Ok expected_oid =>
      if negb (bool_decide (oid binding = expected_oid)) then Ok (mark_malformed st (oid binding), false)
      else
        match record_text binding with
        | Err true => Ok (mark_malformed st (oid binding), false)
        | Err false => Ok (st, false)
        | Ok record =>
            match split_once 61 (trim_end_where is_record_end record) with
            | None => Ok (st, false)
            | Some (key, raw_value) =>
                let value := trim_matches DOUBLE_QUOTE (trim raw_value) in
                if bool_decide (value = []) then Ok (mark_malformed st (oid binding), true)
                else
                  Ok (push_record st key
                        {| observed_value := value; observed_evidence := evidence_for (oid binding) |}, true)
            end
        end
  end.

Fixpoint inventory_loop (offset : nat) (bindings : list VarBind) (st : InventoryState) :
    Result (Fault SnmpError.t) InventoryState :=
  match bindings with
  | [] => Ok st
  | binding :: bindings =>
      let? ' (st, go_on) := inventory_step offset binding st in
      if go_on then inventory_loop (S offset) bindings st else Ok st
  end.

Definition paired (id version : Observed (list Z)) : FirmwareComponent := {|
  component_id := observed_value id;
  component_version := observed_value version;
  compatibility_key := FieldResult.Unsupported;
  component_evidence := observed_evidence id ++ observed_evidence version;
|}.

Definition component_field (st : InventoryState) : FieldResult.t (list FirmwareComponent) :=
  if malformed st || negb (Nat.eqb (length (ids st)) (length (versions st)))
  then FieldResult.Malformed (malformed_evidence st ++ flat_map observed_evidence (ids st)
                                                    ++ flat_map observed_evidence (versions st))
  else if bool_decide (ids st = []) then FieldResult.Missing
  else FieldResult.Field {| observed_value := zip_with paired (ids st) (versions st); observed_evidence := [] |}.

Definition parse_mfp_inventory (bindings : list VarBind) : Result (Fault SnmpError.t) FirmwareInventory :=
  let? st := inventory_loop 0 (take MAX_FIRMWARE_RECORDS bindings) InventoryState_default in
  Ok {| update_model := singular_field (models_ st);
        specification := singular_field (specifications st);
        schema_version := FieldResult.Unsupported;
        components := component_field st;
        diagnostic_records := diagnostics st |}.
End Inventory.
