(* ===== verification/BrotherMfpFacts.v ===== *)
(** Theorems about the Brother firmware inventory (BrotherMfp.v): the
    catalogues are built, hold only readable objects of their qualification,
    and the records that a printer writes are read back. *)

From stdpp Require Import base gmap list strings numbers option.
From S2P Require Import Prelude Text Effects Ipp Snmp Administration Discovery BrotherMfp.

#[local] Open Scope list_scope.
#[local] Open Scope Z_scope.

(** ** The catalogues *)

(** Every definition of a registry is a readable object of the qualification,
    filed under its key, and its object is registered. *)
Definition read_only_for (q : DeviceQualification) (r : ObjectRegistry) : Prop :=
  (forall key d, definition r key = Some d ->
     d_key d = key /\ d_access d = ReadOnly /\ d_qualification d = q) /\
  (forall o object, registry_get r o = Some object -> exists d, definition r (semantic_id object) = Some d /\ d_oid d = o).

Lemma add_object_read_only q key oid syntax sensitivity r r' :
  read_only_for q r -> add_object q key oid syntax sensitivity r = Ok r' -> read_only_for q r'.
Proof.
  intros [Hd Ho] H. unfold add_object in H. inv_ok H. rename x into k, x0 into o.
  unfold register_definition in H. cbn [d_oid d_key] in H.
  destruct (contains_key (objects r) o || contains_key (definitions r) k) eqn:E; [discriminate H|].
  apply orb_false_iff in E as [_ Ek]. unfold contains_key in Ek. apply bool_decide_eq_false in Ek.
  inv_ok H. subst r'. unfold read_only_for, definition, registry_get in *. cbn [objects definitions d_oid d_key]. split.
  - intros key' d. destruct (decide (k = key')) as [<-|Hne].
    + rewrite lookup_insert_eq. by intros [= <-].
    + rewrite lookup_insert_ne by done. apply Hd.
  - intros o' object. destruct (decide (o = o')) as [<-|Hne].
    + rewrite lookup_insert_eq. intros [= <-]. eexists. cbn. by rewrite lookup_insert_eq.
    + rewrite lookup_insert_ne by done. intros H%Ho. destruct H as (d & Hs & Hd').
      exists d. split; [|done]. rewrite lookup_insert_ne; [done|]. intros E. apply Ek. exists d. by rewrite E.
Qed.

Lemma for_each_preserves {E S A} (body : A -> S -> Result E S) (I : S -> Prop) l s s' :
  (forall a s s', I s -> body a s = Ok s' -> I s') -> I s -> for_each body l s = Ok s' -> I s'.
Proof.
  intros Hb. revert s. induction l as [|a l IH]; intros s Hs H; cbn in H; [by injection H as <-|].
  apply rbind_Ok in H as (t & Ht & H). eauto.
Qed.

Lemma catalogue_built q : exists r, mfp_read_catalogue q = Ok r /\
  size (definitions r) = 24%nat /\ size (objects r) = 24%nat.
Proof.
  assert (match mfp_read_catalogue q with
          | Ok r => (size (definitions r), size (objects r)) = (24, 24)%nat | Err _ => False end) as H.
  { vm_compute. reflexivity. }
  destruct (mfp_read_catalogue q) as [r|]; [|done]. injection H as Hd Ho. by exists r.
Qed.

(** For every qualification the catalogue of Brother multifunction
    printers is built: 24 objects, each readable and only readable, carrying
    that qualification and filed under its key; setting any of them is refused
    whatever the value. *)
Theorem mfp_catalogue_is_read_only q :
  exists r, mfp_read_catalogue q = Ok r /\ size (definitions r) = 24%nat /\ read_only_for q r /\
    forall key d v, definition r key = Some d -> is_ok (validate_set_value d v) = false.
Proof.
  destruct (catalogue_built q) as (r & Hr & Hs & _). exists r.
  assert (read_only_for q r) as Hro.
  { unfold mfp_read_catalogue, mfp_inventory_catalogue in Hr. inv_ok Hr.
    eapply for_each_preserves; [|eapply for_each_preserves; [| |exact Hx]|exact Hr].
    - intros [[[key oid] syntax] sensitivity] s s'. apply add_object_read_only.
    - intros index s s'. apply add_object_read_only.
    - by split. }
  split_and!; [done..|]. intros key d v Hd. apply Hro in Hd as (_ & Ha & _).
  unfold validate_set_value. rewrite Ha. by destruct (syntax_matches _ _).
Qed.

(** ** The records of a printer *)

(** A record that a printer writes: [KEY="value"] and a line end. *)
Definition printable (s : list Z) : Prop := Forall (fun b => 32 <= b <= 126) s.

Record record_ok (record : list Z * list Z) : Prop := {
  key_printable : printable record.1;
  key_no_equals : 61 ∉ record.1;
  value_printable : printable record.2;
  value_no_quote : DOUBLE_QUOTE ∉ record.2;
  value_nonempty : record.2 <> [];
}.

Definition write_record (record : list Z * list Z) : list Z :=
  record.1 ++ 61 :: DOUBLE_QUOTE :: record.2 ++ [DOUBLE_QUOTE; 13; 10].

Definition record_oid (offset : nat) : ObjectId :=
  [1; 3; 6; 1; 4; 1; 2435; 2; 4; 3; 99; 3; 1; 6; 1; 2; Z.of_nat (S offset)].

Definition record_binding (offset : nat) (record : list Z * list Z) : VarBind :=
  {| oid := record_oid offset; value := ObjectValue.Bytes (write_record record) |}.

Lemma record_oid_parses offset :
  (offset < MAX_FIRMWARE_RECORDS)%nat -> ObjectId_parse (record_oid_text (offset + 1)) = Ok (record_oid offset).
Proof.
  unfold MAX_FIRMWARE_RECORDS. intros H. do 16 (destruct offset as [|offset]; [by vm_compute|]). lia.
Qed.

Lemma drop_where_id f s : (forall b, head s = Some b -> f b = false) -> drop_where f s = s.
Proof. destruct s as [|b s]; [done|]. cbn. intros H. by rewrite H. Qed.

Lemma write_record_read record :
  record_ok record ->
  from_utf8 (write_record record) = Some (write_record record) /\
  split_once 61 (trim_end_where is_record_end (write_record record)) =
    Some (record.1, DOUBLE_QUOTE :: record.2 ++ [DOUBLE_QUOTE]) /\
  trim_matches DOUBLE_QUOTE (trim (DOUBLE_QUOTE :: record.2 ++ [DOUBLE_QUOTE])) = record.2.
Proof.
  intros [Hk He Hv Hq Hn]. destruct record as [key v]. cbn [fst snd] in *. unfold write_record. cbn [fst snd].
  assert (forall l, Forall (fun b => 32 <= b <= 126) l -> Forall (fun b => 0 <= b < 128) l) as Hascii.
  { intros l Hl. eapply list.Forall_impl; [exact Hl|]. simpl. lia. }
  split_and!.
  - unfold from_utf8. rewrite utf8_ascii; [done|]. unfold DOUBLE_QUOTE.
    repeat first [apply Forall_app; split | apply List.Forall_cons; [lia|] | by apply Hascii | by constructor].
  - unfold trim_end_where. change (v ++ [DOUBLE_QUOTE; 13; 10]) with (v ++ [DOUBLE_QUOTE] ++ [13; 10]).
    rewrite app_assoc. change (key ++ 61 :: DOUBLE_QUOTE :: (v ++ [DOUBLE_QUOTE]) ++ [13; 10])
      with (key ++ (61 :: DOUBLE_QUOTE :: v ++ [DOUBLE_QUOTE]) ++ [13; 10]). rewrite app_assoc, reverse_app.
    change (reverse [13; 10]) with [10; 13]. cbn [drop_where app].
    cbn [is_record_end orb Z.eqb Pos.eqb]. rewrite drop_where_id.
    + rewrite reverse_involutive. by apply split_once_app.
    + change (61 :: DOUBLE_QUOTE :: v ++ [DOUBLE_QUOTE]) with ((61 :: DOUBLE_QUOTE :: v) ++ [DOUBLE_QUOTE]).
      rewrite app_assoc, reverse_app. by intros b [= <-].
  - rewrite trim_visible.
    + unfold trim_matches. change (DOUBLE_QUOTE :: v ++ [DOUBLE_QUOTE]) with ([DOUBLE_QUOTE] ++ v ++ [DOUBLE_QUOTE]).
      cbn [app trim_start_matches]. rewrite Z.eqb_refl. rewrite trim_start_matches_id.
      * unfold trim_end_matches. rewrite reverse_app.
        change (reverse [DOUBLE_QUOTE]) with [DOUBLE_QUOTE]. cbn [app trim_start_matches]. rewrite Z.eqb_refl.
        rewrite trim_start_matches_id; [apply reverse_involutive|]. apply not_in_head. by rewrite elem_of_reverse.
      * destruct v as [|b v]; [done|]. cbn. intros [= ->]. apply Hq. left.
    + intros b [= <-]. unfold graphic, DOUBLE_QUOTE. lia.
    + intros b. change (DOUBLE_QUOTE :: v ++ [DOUBLE_QUOTE]) with ((DOUBLE_QUOTE :: v) ++ [DOUBLE_QUOTE]). rewrite last_snoc.
      intros [= <-]. unfold graphic, DOUBLE_QUOTE. lia.
Qed.

Section ReadBack.
Variable evidence_for : ObjectId -> list Evidence.

(** The values of the records with a key, with the evidence of their objects;
    the records start at [offset]. *)
Fixpoint observed (key : list Z) (offset : nat) (rs : list (list Z * list Z)) : list (Observed (list Z)) :=
  match rs with
  | [] => []
  | r :: rs =>
      (if bool_decide (r.1 = key)
       then [{| observed_value := r.2; observed_evidence := evidence_for (record_oid offset) |}] else [])
      ++ observed key (S offset) rs
  end.

Definition RECORD_KEYS : list (list Z) := map str ["MODEL"; "SPEC"; "FIRMID"; "FIRMVER"]%string.

(** The records with other keys, as they were written but for the quotes. *)
Fixpoint other_records (offset : nat) (rs : list (list Z * list Z)) : list (Observed (list Z)) :=
  match rs with
  | [] => []
  | r :: rs =>
      (if bool_decide (r.1 ∈ RECORD_KEYS) then []
       else [{| observed_value := r.1 ++ 61 :: r.2; observed_evidence := evidence_for (record_oid offset) |}])
      ++ other_records (S offset) rs
  end.

Definition extended (st : InventoryState) (offset : nat) (rs : list (list Z * list Z)) : InventoryState := {|
  models_ := models_ st ++ observed (str "MODEL") offset rs;
  specifications := specifications st ++ observed (str "SPEC") offset rs;
  ids := ids st ++ observed (str "FIRMID") offset rs;
  versions := versions st ++ observed (str "FIRMVER") offset rs;
  malformed_evidence := malformed_evidence st;
  malformed := malformed st;
  diagnostics := diagnostics st ++ other_records offset rs;
|}.

(** What follows the records: nothing, or the agent's answer that there is no
    such record. *)
Inductive records_end (offset : nat) : list VarBind -> Prop :=
| end_of_bindings : records_end offset []
| end_of_records v rest :
    v = ObjectValue.NoSuchObject \/ v = ObjectValue.NoSuchInstance \/ v = ObjectValue.EndOfMibView ->
    records_end offset ({| oid := record_oid offset; value := v |} :: rest).

Lemma extended_cons st offset r rs :
  extended (push_record st r.1 {| observed_value := r.2; observed_evidence := evidence_for (record_oid offset) |})
    (S offset) rs = extended st offset (r :: rs).
Proof.
  destruct r as [key v]. unfold extended, push_record. cbn [observed other_records fst snd].
  repeat case_bool_decide; cbn; rewrite ?app_nil_r, <- ?app_assoc; try done; subst; try discriminate.
  all: exfalso; match goal with
       | H : _ ∉ RECORD_KEYS |- _ => apply H; apply (bool_decide_unpack _); by vm_compute
       | H : _ ∈ RECORD_KEYS |- _ => apply list_elem_of_In in H; cbn in H; naive_solver
       end.
Qed.

Lemma inventory_loop_records rs offset st rest :
  Forall record_ok rs -> (offset + length rs <= MAX_FIRMWARE_RECORDS)%nat ->
  records_end (offset + length rs) rest ->
  (offset + length rs + length rest <= MAX_FIRMWARE_RECORDS)%nat ->
  inventory_loop evidence_for offset (imap (fun i => record_binding (offset + i)) rs ++ rest) st = Ok (extended st offset rs).
Proof.
  intros Hrs. revert offset st. induction Hrs as [|r rs Hr Hrs IH]; intros offset st Hl He Hm; cbn [length] in *.
  - rewrite Nat.add_0_r in *. cbn [imap app]. destruct He as [|v rest Hv].
    + cbn. unfold extended. cbn. rewrite !app_nil_r. by destruct st.
    + cbn [length] in Hm. cbn [inventory_loop]. unfold inventory_step. rewrite record_oid_parses by lia.
      cbn [oid]. rewrite bool_decide_true by done. cbn [negb].
      unfold extended. cbn [observed other_records]. rewrite !app_nil_r.
      destruct st. destruct Hv as [->|[->| ->]]; reflexivity.
  - rewrite imap_cons. cbn [app inventory_loop]. unfold inventory_step.
    rewrite record_oid_parses by lia. rewrite Nat.add_0_r. cbn [oid record_binding].
    rewrite bool_decide_true by done. cbn [negb]. unfold record_text. cbn [value record_binding].
    destruct (write_record_read r Hr) as (Eu & Es & Ev). rewrite Eu. cbn [ok_or]. rewrite Es, Ev.
    rewrite bool_decide_false by apply Hr. cbn [rbind].
    rewrite <- extended_cons. rewrite <- IH by (rewrite ?Nat.add_succ_l, <- ?Nat.add_succ_r; (done || lia)).
    f_equal. f_equal. apply imap_ext. intros i x _. cbn. by rewrite Nat.add_succ_r.
Qed.

(** The inventory that records spell: model and specification when all records
    agree on them, the components in the order of their identifiers and
    versions when there are as many of both, and every other record; each
    value carries the evidence of its own object. *)
Definition inventory_of (rs : list (list Z * list Z)) : FirmwareInventory :=
  let ids := observed (str "FIRMID") 0 rs in
  let versions := observed (str "FIRMVER") 0 rs in
  {| update_model := singular_field (observed (str "MODEL") 0 rs);
     specification := singular_field (observed (str "SPEC") 0 rs);
     schema_version := FieldResult.Unsupported;
     components :=
       if negb (Nat.eqb (length ids) (length versions))
       then FieldResult.Malformed (flat_map observed_evidence ids ++ flat_map observed_evidence versions)
       else if bool_decide (ids = []) then FieldResult.Missing
       else FieldResult.Field {| observed_value := zip_with paired ids versions; observed_evidence := [] |};
     diagnostic_records := other_records 0 rs |}.

(** The records that a printer writes are read back. *)
Lemma inventory_read_back rs rest :
  Forall record_ok rs -> (length rs <= MAX_FIRMWARE_RECORDS)%nat ->
  (length rs = MAX_FIRMWARE_RECORDS \/ records_end (length rs) rest) ->
  parse_mfp_inventory evidence_for (imap record_binding rs ++ rest) = Ok (inventory_of rs).
Proof.
  intros Hrs Hl He. unfold parse_mfp_inventory.
  assert (exists rest', take MAX_FIRMWARE_RECORDS (imap record_binding rs ++ rest) = imap record_binding rs ++ rest' /\
            records_end (length rs) rest' /\ (length rs + length rest' <= MAX_FIRMWARE_RECORDS)%nat) as (rest' & -> & He' & Hl').
  { rewrite take_app, length_imap, take_ge by (by rewrite length_imap). eexists. split; [reflexivity|].
    rewrite length_take. destruct He as [E|He]; [rewrite E, Nat.sub_diag; split; [constructor|lia]|].
    split; [|lia]. destruct He as [|v rest Hv]; [rewrite take_nil; constructor|].
    destruct (MAX_FIRMWARE_RECORDS - length rs)%nat; [constructor|by constructor]. }
  pose proof (inventory_loop_records rs 0 InventoryState_default rest' Hrs Hl He' Hl') as Hloop.
  change (imap (fun i => record_binding (0 + i)) rs) with (imap record_binding rs) in Hloop.
  by rewrite Hloop.
Qed.
End ReadBack.

Definition example_records : list (list Z * list Z) :=
  map (fun r => (str r.1, str r.2))
    [("MODEL", "HL-L2375DW"); ("SPEC", "0001"); ("FIRMID", "MAIN"); ("FIRMVER", "ZC2105270000");
     ("FIRMID", "SUB1"); ("FIRMVER", "1.05"); ("TYPE", "A")]%string.

Lemma record_ok_by_test record :
  forallb (between 32 126) record.1 && forallb (between 32 126) record.2 && bool_decide (61 ∉ record.1)
  && bool_decide (DOUBLE_QUOTE ∉ record.2) && bool_decide (record.2 <> []) = true -> record_ok record.
Proof.
  rewrite !andb_true_iff, !bool_decide_eq_true, !forallb_forall. intros [[[[Hk Hv] He] Hq] Hn].
  split; try done; unfold printable; apply list.Forall_forall; intros b Hb%list_elem_of_In;
    [apply Hk in Hb|apply Hv in Hb]; unfold between in Hb; blia.
Qed.

Example example_inventory :
  components (inventory_of (fun _ => []) example_records) = FieldResult.Field {|
    observed_value := [
      {| component_id := str "MAIN"; component_version := str "ZC2105270000";
         compatibility_key := FieldResult.Unsupported; component_evidence := [] |};
      {| component_id := str "SUB1"; component_version := str "1.05";
         compatibility_key := FieldResult.Unsupported; component_evidence := [] |}];
    observed_evidence := [] |}.
Proof. by vm_compute. Qed.
