(* ===== verification/SnmpClient.v ===== *)
(** The SNMP manager (crates/mb-printer-native/src/transports/snmp.rs): reads of
    registered objects, walks below a permitted root, and the single write that
    is never retried, over the async-snmp client. That crate and tokio's timers
    are the type class [AsyncSnmp]: its constructors are the ones the source
    names; the answers, whatever they are, come from a world [W]. SHA-256 and
    the JSON serializer are parameters. *)

From stdpp Require Import base gmap sets list strings numbers option.
From S2P Require Import Prelude Text Ordered Effects Snmp.

#[local] Open Scope list_scope.
#[local] Open Scope Z_scope.

(** ** Credentials, limits and errors *)

Module ClientError.
Inductive t :=
| InvalidLimits | UnregisteredObject | Timeout | ResponseTooLarge | Protocol (e : SnmpError.t)
| Agent | WalkLimit | Transport | AmbiguousWrite.
End ClientError.

#[global] Instance ClientError_eq_dec : EqDecision ClientError.t.
Proof. solve_decision. Defined.

(** [Community(Vec<u8>)]. *)
Record Community := { expose : list Z }.

Definition Community_new (value : list Z) : Result ClientError.t Community :=
  if (zlen value =? 0) || (255 <? zlen value) then Err ClientError.InvalidLimits
  else Ok {| expose := value |}.

Inductive V3Authentication := Sha256 (password : list Z) | Sha512 (password : list Z).
Inductive V3Privacy := Aes128 (password : list Z) | Aes256Blumenthal (password : list Z).

Record V3Credentials := {
  username : list Z;
  authentication : V3Authentication;
  privacy : V3Privacy;
}.

Inductive Credentials := V2c (community : Community) | V3 (credentials : V3Credentials).

(** Durations are in nanoseconds. *)
Definition from_secs (s : Z) : Z := s * 1000000000.

Record ClientLimits := {
  timeout : Z;
  retries : Z;
  cl_maximum_response_bytes : Z;
  maximum_walk_steps : Z;
  maximum_oids_per_request : Z;
  decode_limits : DecodeLimits;
}.

Definition ClientLimits_default : ClientLimits := {|
  timeout := from_secs 2;
  retries := 1;
  cl_maximum_response_bytes := 65507;
  maximum_walk_steps := 128;
  maximum_oids_per_request := 16;
  decode_limits := DecodeLimits_default;
|}.

Definition limits_refused (l : ClientLimits) : bool :=
  (timeout l =? 0)
  || (from_secs 300 <? timeout l)
  || (5 <? retries l)
  || (cl_maximum_response_bytes l <? 484)
  || (65507 <? cl_maximum_response_bytes l)
  || (maximum_message_bytes (decode_limits l) <? cl_maximum_response_bytes l)
  || (maximum_walk_steps l =? 0)
  || (4096 <? maximum_walk_steps l)
  || (maximum_oids_per_request l =? 0)
  || (maximum_varbinds (decode_limits l) <? maximum_oids_per_request l).

Definition ClientLimits_validate (l : ClientLimits) : Result ClientError.t ClientLimits :=
  if limits_refused l then Err ClientError.InvalidLimits else Ok l.

Record ReadResult := {
  rr_varbinds : list VarBind;
  rr_evidence : ResponseEvidence;
}.

(** ** What the async-snmp crate offers *)

(** [async_snmp::ErrorKind], as far as the source tells kinds apart. *)
Module ErrorKind.
Inductive t :=
| Timeout | ConstructionTimeout | OutboundMessageTooLarge | Snmp | Auth | Report | Decode
| MalformedResponse | ResponseShape | InvalidMessage | InvalidOid | Config | Other.
End ErrorKind.

(** [async_snmp::Value], whose object identifiers are lists of arcs. *)
Module WireValue.
Inductive t :=
| Integer (value : Z) | OctetString (value : list Z) | Null | ObjectIdentifier (arcs : list Z)
| IpAddress (value : list Z) | Counter32 (value : Z) | Gauge32 (value : Z) | UInteger32 (value : Z)
| TimeTicks (value : Z) | Opaque (value : list Z) | Nsap (value : list Z) | Counter64 (value : Z)
| NoSuchObject | NoSuchInstance | EndOfMibView | Unknown (tag : Z) (data : list Z) | Other.
End WireValue.

Record WireVarBind := { wire_oid : list Z; wire_value : WireValue.t }.

(** A response: its bindings, whether anomalies were reported, and the [Debug]
    texts of the decoder's anomalies. *)
Record WireResponse := {
  wire_varbinds : list WireVarBind;
  anomalies_empty : bool;
  decode_anomalies : list (list Z);
}.

Inductive Auth := AuthV2c (community : list Z) | AuthUsm (credentials : V3Credentials).

(** [SocketAddr]: its family and its text. *)
Record SocketAddr := { is_ipv4 : bool; address : list Z }.

(** A client by what it was built with; [client_retries] is [None] for
    [Retry::none()]. *)
Record Client := {
  client_endpoint : SocketAddr;
  client_auth : Auth;
  strict_source : bool;
  exact_community : bool;
  request_timeout : Z;
  client_retries : option Z;
  client_maximum_oids : Z;
  strict_shape : bool;
  bind_address : string;
  max_message_size : Z;
}.

Inductive WireRequest :=
| GetMany (oids : list (list Z))
| GetNext (oid : list Z)
| SetOne (oid : list Z) (value : WireValue.t).

(** [tokio::time::timeout] and [timeout_at]. *)
Inductive TimeBound := For (duration : Z) | Until (deadline : Z).

Inductive Answer := Elapsed | Failed (kind : ErrorKind.t) | Replied (response : WireResponse).

Class AsyncSnmp (W : Type) := {
  oid_valid : list Z -> bool;
  retry_fixed : Z -> bool;
  usm_valid : V3Credentials -> bool;
  value_from_octets : list Z -> WireValue.t;
  value_from_text : list Z -> WireValue.t;
  into_single : WireResponse -> option WireVarBind;
  now : W -> Z * W;
  bind : string -> Z -> W -> option ErrorKind.t * W;
  build_with : Client -> W -> bool * W;
  call : Client -> WireRequest -> TimeBound -> W -> Answer * W;
}.

(** ** Errors of that crate *)

Definition map_read_error (kind : ErrorKind.t) : ClientError.t :=
  match kind with
  | ErrorKind.Timeout | ErrorKind.ConstructionTimeout => ClientError.Timeout
  | ErrorKind.OutboundMessageTooLarge => ClientError.ResponseTooLarge
  | ErrorKind.Snmp | ErrorKind.Auth | ErrorKind.Report => ClientError.Agent
  | ErrorKind.Decode | ErrorKind.MalformedResponse | ErrorKind.ResponseShape
  | ErrorKind.InvalidMessage | ErrorKind.InvalidOid => ClientError.Protocol SnmpError.Malformed
  | _ => ClientError.Transport
  end.

Definition map_write_error (kind : ErrorKind.t) : ClientError.t :=
  match kind with
  | ErrorKind.Snmp | ErrorKind.Auth | ErrorKind.Report => ClientError.Agent
  | ErrorKind.OutboundMessageTooLarge | ErrorKind.Config | ErrorKind.InvalidMessage | ErrorKind.InvalidOid =>
      ClientError.InvalidLimits
  | _ => ClientError.AmbiguousWrite
  end.

(** ** Conversions *)

Definition from_wire_value (value : WireValue.t) : Result ClientError.t ObjectValue.t :=
  match value with
  | WireValue.Integer value => Ok (ObjectValue.Integer value)
  | WireValue.OctetString value => Ok (ObjectValue.Bytes value)
  | WireValue.Null => Ok ObjectValue.Null
  | WireValue.ObjectIdentifier arcs => Ok (ObjectValue.ObjectIdValue arcs)
  | WireValue.IpAddress value => Ok (ObjectValue.IpAddress value)
  | WireValue.Counter32 value => Ok (ObjectValue.Counter32 value)
  | WireValue.Gauge32 value => Ok (ObjectValue.Gauge32 value)
  | WireValue.UInteger32 value => Ok (ObjectValue.Unsigned32 value)
  | WireValue.TimeTicks value => Ok (ObjectValue.TimeTicks value)
  | WireValue.Opaque value => Ok (ObjectValue.Opaque value)
  | WireValue.Nsap value => Ok (ObjectValue.Nsap value)
  | WireValue.Counter64 value => Ok (ObjectValue.Counter64 value)
  | WireValue.NoSuchObject => Ok ObjectValue.NoSuchObject
  | WireValue.NoSuchInstance => Ok ObjectValue.NoSuchInstance
  | WireValue.EndOfMibView => Ok ObjectValue.EndOfMibView
  | WireValue.Unknown tag data => Ok (ObjectValue.Unknown tag data)
  | WireValue.Other => Err (ClientError.Protocol SnmpError.Malformed)
  end.

Definition from_wire_varbind (binding : WireVarBind) : Result ClientError.t VarBind :=
  let? value := from_wire_value (wire_value binding) in
  Ok {| oid := wire_oid binding; value := value |}.

(** [iter().map(f).collect::<Result<Vec<_>, _>>()]. *)
Fixpoint collect {E A B} (f : A -> Result E B) (l : list A) : Result E (list B) :=
  match l with
  | [] => Ok []
  | a :: l => let? b := f a in let? bs := collect f l in Ok (b :: bs)
  end.

(** The payload that the size estimate_binding counts for a value. *)
Definition value_bytes (value : ObjectValue.t) : Z :=
  match value with
  | ObjectValue.Bytes value | ObjectValue.Opaque value | ObjectValue.Nsap value
  | ObjectValue.Unknown _ value => zlen value
  | ObjectValue.ObjectIdValue value => saturate usize_max (zlen value * 5)
  | _ => 8
  end.

Definition estimate_binding (limits : ClientLimits) (binding : VarBind) (total : Z) : Result ClientError.t Z :=
  let bytes := value_bytes (value binding) in
  if maximum_value_bytes (decode_limits limits) <? bytes then Err ClientError.ResponseTooLarge
  else
    Ok (saturate usize_max
          (saturate usize_max
             (saturate usize_max (total + saturate usize_max (zlen (oid binding) * 5)) + bytes) + 16)).

Definition enforce_decoded_limits (varbinds : list VarBind) (limits : ClientLimits) : Result ClientError.t unit :=
  if maximum_varbinds (decode_limits limits) <? zlen varbinds then Err ClientError.ResponseTooLarge
  else
    let? estimated := for_each (estimate_binding limits) varbinds 64 in
    if cl_maximum_response_bytes limits <? estimated then Err ClientError.ResponseTooLarge else Ok tt.

Section Evidence.
Variable sha256 : list Z -> list Z.
(** [serde_json::to_vec] of the bindings. *)
Variable varbinds_json : list VarBind -> list Z.

Definition EVIDENCE_DOMAIN : list Z := str "mb-printer-async-snmp-evidence-v1" ++ [0].

Definition structured_evidence (varbinds : list VarBind) (anomalies : list (list Z)) : ResponseEvidence := {|
  credential_elided_hash := sha256 (EVIDENCE_DOMAIN ++ varbinds_json varbinds ++ concat anomalies);
  original_length := 0;
  sanitized_bytes := None;
|}.
End Evidence.

(** ** The client *)

Section Client.
Variable sha256 : list Z -> list Z.
Variable varbinds_json : list VarBind -> list Z.
Context {W : Type} `{AsyncSnmp W}.

#[local] Abbreviation IO := (EM W ClientError.t).

(** [Oid::from_slice(..)] and [validate()]. *)
Definition to_wire_oid (oid : ObjectId) : Result ClientError.t (list Z) :=
  if oid_valid oid then Ok oid else Err (ClientError.Protocol SnmpError.InvalidOid).

Definition to_wire_set_value (value : SetValue) : Result ClientError.t WireValue.t :=
  match value with
  | SetInteger value =>
      if (i32_min <=? value) && (value <=? i32_max) then Ok (WireValue.Integer value)
      else Err (ClientError.Protocol SnmpError.InvalidValue)
  | SetOctets value => Ok (value_from_octets value)
  | SetText value => Ok (value_from_text value)
  | SetIpAddress value => Ok (WireValue.IpAddress value)
  | SetObjectId value => let? oid := to_wire_oid value in Ok (WireValue.ObjectIdentifier oid)
  end.

Definition credentials_auth (credentials : Credentials) : Result ClientError.t Auth :=
  match credentials with
  | V2c community => Ok (AuthV2c (expose community))
  | V3 credentials => if usm_valid credentials then Ok (AuthUsm credentials) else Err ClientError.InvalidLimits
  end.

(** Calls of the crate as computations. *)
Definition do_bind (address : string) (size : Z) : IO unit := fun w =>
  match bind address size w with
  | (None, w) => (Ok tt, w)
  | (Some kind, w) => (fail (map_read_error kind), w)
  end.

Definition do_build (client : Client) : IO Client := fun w =>
  match build_with client w with
  | (true, w) => (Ok client, w)
  | (false, w) => (fail ClientError.Transport, w)
  end.

Definition do_now : IO Z := fun w => let '(t, w) := now w in (Ok t, w).

(** A request under a timer, with the errors of its caller. *)
Definition do_call (elapsed : ClientError.t) (map_error : ErrorKind.t -> ClientError.t)
    (client : Client) (request : WireRequest) (bound : TimeBound) : IO WireResponse := fun w =>
  match call client request bound w with
  | (Elapsed, w) => (fail elapsed, w)
  | (Failed kind, w) => (fail (map_error kind), w)
  | (Replied response, w) => (Ok response, w)
  end.

Definition build_client (endpoint : SocketAddr) (credentials : Credentials) (limits : ClientLimits)
    (write : bool) : IO Client :=
  let! retry :=
    eresult (if write then Ok None
             else if retry_fixed (retries limits) then Ok (Some (retries limits))
             else Err ClientError.InvalidLimits) in
  let bind_address := if is_ipv4 endpoint then "0.0.0.0:0"%string else "[::]:0"%string in
  do_bind bind_address (cl_maximum_response_bytes limits) ;!
  let! auth := eresult (credentials_auth credentials) in
  do_build {|
    client_endpoint := endpoint;
    client_auth := auth;
    strict_source := true;
    exact_community := true;
    request_timeout := timeout limits;
    client_retries := retry;
    client_maximum_oids := maximum_oids_per_request limits;
    strict_shape := true;
    bind_address := bind_address;
    max_message_size := cl_maximum_response_bytes limits |}.

(** What reading and writing do with a response: no anomalies, every binding
    converted. *)
Definition accepted_varbinds (response : WireResponse) : IO (list VarBind) :=
  ecase (negb (anomalies_empty response)) (ClientError.Protocol SnmpError.Malformed)
    (eresult (collect from_wire_varbind (wire_varbinds response))).

Definition mismatched (registry : ObjectRegistry) (requested : gset ObjectId) (binding : VarBind) (expected : ObjectId) : bool :=
  negb (bool_decide (oid binding = expected))
  || negb (bool_decide (oid binding ∈ requested))
  || negb (bool_decide (is_Some (registry_get registry (oid binding)))).

Definition get_many (endpoint : SocketAddr) (registry : ObjectRegistry) (credentials : Credentials)
    (oids : list ObjectId) (limits : ClientLimits) : IO ReadResult :=
  let! limits := eresult (ClientLimits_validate limits) in
  ecase ((zlen oids =? 0) || (maximum_oids_per_request limits <? zlen oids)
         || existsb (fun oid => negb (bool_decide (is_Some (registry_get registry oid)))) oids)
    ClientError.UnregisteredObject
  (let requested : gset ObjectId := list_to_set oids in
   ecase (negb (Nat.eqb (size requested) (length oids))) (ClientError.Protocol SnmpError.Malformed)
  (let! wire_oids := eresult (collect to_wire_oid oids) in
   let! client := build_client endpoint credentials limits false in
   let! response := do_call ClientError.Timeout map_read_error client (GetMany wire_oids) (For (timeout limits)) in
   let! varbinds := accepted_varbinds response in
   ecase (negb (Nat.eqb (length varbinds) (length oids))
          || existsb (fun '(binding, expected) => mismatched registry requested binding expected) (zip varbinds oids))
     (ClientError.Protocol SnmpError.Malformed)
  (eresult (enforce_decoded_limits varbinds limits) ;!
   eret {| rr_varbinds := varbinds;
           rr_evidence := structured_evidence sha256 varbinds_json varbinds (decode_anomalies response) |}))).

Definition get (endpoint : SocketAddr) (registry : ObjectRegistry) (community : Community) (oid : ObjectId)
    (limits : ClientLimits) : IO (list VarBind) :=
  let! result := get_many endpoint registry (V2c community) [oid] limits in
  eret (rr_varbinds result).

(** One turn of the walk after the answer: whether the walk is over, and
    otherwise where it goes on and what it has found. *)
Definition walk_answer (registry : ObjectRegistry) (root : ObjectId) (limits : ClientLimits)
    (current : list Z) (output : list VarBind) (converted : VarBind) : Result ClientError.t (option (list Z * list VarBind)) :=
  if negb (is_within (oid converted) root) || bool_decide (value converted = ObjectValue.EndOfMibView)
  then Ok None
  else if bool_decide (lex_le (oid converted) current) then Err (ClientError.Protocol SnmpError.Malformed)
  else
    let? current := to_wire_oid (oid converted) in
    if bool_decide (is_Some (registry_get registry (oid converted))) then
      let output := output ++ [converted] in
      let? _ := enforce_decoded_limits output limits in
      Ok (Some (current, output))
    else Ok (Some (current, output)).

(** [for _ in 0..limits.maximum_walk_steps]. *)
Fixpoint walk_loop (steps : nat) (client : Client) (registry : ObjectRegistry) (root : ObjectId)
    (limits : ClientLimits) (deadline : Z) (current : list Z) (output : list VarBind) : IO (list VarBind) :=
  match steps with
  | O => ethrow ClientError.WalkLimit
  | S steps =>
      let! response := do_call ClientError.Timeout map_read_error client (GetNext current) (Until deadline) in
      let! binding := eresult (ok_or (into_single response) (ClientError.Protocol SnmpError.Malformed)) in
      let! converted := eresult (from_wire_varbind binding) in
      let! next := eresult (walk_answer registry root limits current output converted) in
      match next with
      | None => eret output
      | Some (current, output) => walk_loop steps client registry root limits deadline current output
      end
  end.

Definition walk (endpoint : SocketAddr) (registry : ObjectRegistry) (community : Community) (root : ObjectId)
    (limits : ClientLimits) : IO (list VarBind) :=
  let! limits := eresult (ClientLimits_validate limits) in
  ecase (negb (permits_root registry root)) ClientError.UnregisteredObject
  (let! client := build_client endpoint (V2c community) limits false in
   let! current := eresult (to_wire_oid root) in
   let! start := do_now in
   walk_loop (Z.to_nat (maximum_walk_steps limits)) client registry root limits (start + timeout limits) current []).

(** The write: nothing is sent for an object that cannot be written, and what
    is sent is sent once. *)
Definition set_once (endpoint : SocketAddr) (definition : ObjectDefinition) (credentials : Credentials)
    (value : SetValue) (limits : ClientLimits) : IO ReadResult :=
  eresult (map_err ClientError.Protocol (validate_set_value definition value)) ;!
  let! limits := eresult (ClientLimits_validate limits) in
  let! client := build_client endpoint credentials limits true in
  let! oid := eresult (to_wire_oid (d_oid definition)) in
  let! wire_value := eresult (to_wire_set_value value) in
  let! response :=
    do_call ClientError.AmbiguousWrite map_write_error client (SetOne oid wire_value) (For (timeout limits)) in
  let! varbinds := accepted_varbinds response in
  eresult (enforce_decoded_limits varbinds limits) ;!
  eret {| rr_varbinds := varbinds;
          rr_evidence := structured_evidence sha256 varbinds_json varbinds (decode_anomalies response) |}.
End Client.
