(* ===== verification/SnmpClientFacts.v ===== *)
(** Theorems about the SNMP manager (SnmpClient.v): what it sends to a printer,
    whatever the printer and the network answer; that what it returns is what
    was asked for; and that a walk reads the whole subtree of an agent that
    keeps its objects in order. *)

From stdpp Require Import base gmap sets list sorting strings numbers option.
From S2P Require Import Prelude Text Ordered Effects Snmp SnmpClient.

#[local] Open Scope list_scope.
#[local] Open Scope Z_scope.

(** ** Recording the requests *)

(** An arbitrary async-snmp client, with the requests it was given. *)
Definition Log := list (Client * WireRequest * TimeBound).

Section Recorded.
Context {W : Type} `{AsyncSnmp W}.

#[export] Instance Recorded : AsyncSnmp (W * Log) := {|
  oid_valid := oid_valid;
  retry_fixed := retry_fixed;
  usm_valid := usm_valid;
  value_from_octets := value_from_octets;
  value_from_text := value_from_text;
  into_single := into_single;
  now := fun '(w, log) => let '(t, w) := now w in (t, (w, log));
  bind := fun address size '(w, log) => let '(r, w) := bind address size w in (r, (w, log));
  build_with := fun client '(w, log) => let '(r, w) := build_with client w in (r, (w, log));
  call := fun client request bound '(w, log) =>
    let '(r, w) := call client request bound w in (r, (w, log ++ [(client, request, bound)]));
|}.

(** How a client of the manager is built, for reading and for writing. *)
Definition client_for (endpoint : SocketAddr) (auth : Auth) (limits : ClientLimits) (write : bool) : Client := {|
  client_endpoint := endpoint; client_auth := auth; strict_source := true; exact_community := true;
  request_timeout := timeout limits; client_retries := if write then None else Some (retries limits);
  client_maximum_oids := maximum_oids_per_request limits; strict_shape := true;
  bind_address := if is_ipv4 endpoint then "0.0.0.0:0"%string else "[::]:0"%string;
  max_message_size := cl_maximum_response_bytes limits |}.

Lemma limits_spec limits (s : W * Log) Q (X : Fault ClientError.t -> W * Log -> Prop) :
  (limits_refused limits = false -> Q limits s) -> X (Raised ClientError.InvalidLimits) s ->
  spec (eresult (ClientLimits_validate limits)) s Q X.
Proof. intros HQ HX. unfold ClientLimits_validate, spec, eresult. destruct (limits_refused limits); cbn; auto. Qed.

(** Building a client asks the printer nothing. *)
Lemma build_client_spec endpoint credentials limits write (s : W * Log) :
  spec (build_client endpoint credentials limits write) s
    (fun client s' => s'.2 = s.2 /\ exists auth, credentials_auth credentials = Ok auth /\
       client = client_for endpoint auth limits write)
    (fun f s' => s'.2 = s.2 /\ exists e, f = Raised e /\ e <> ClientError.AmbiguousWrite).
Proof.
  destruct s as [w log]. unfold build_client.
  apply spec_bind, spec_result.
  2: { destruct write; [done|]. destruct (retry_fixed _); [done|]. intros e [= <-]. by split; [|eexists]. }
  intros retry Hretry. apply spec_bind. unfold spec, do_bind. cbn [bind Recorded].
  destruct (bind _ _ w) as [[kind|] w1]; cbn [snd]; [split; [done|eexists; split; [done|by destruct kind]]|].
  unfold ebind, eresult. destruct (credentials_auth credentials) as [auth|e] eqn:Ea; cbn [raising map_err].
  2: { split; [done|]. eexists. split; [done|]. destruct credentials as [|c]; [done|]. cbn in Ea.
       destruct (usm_valid c); [done|]. by injection Ea as <-. }
  unfold do_build. cbn [build_with Recorded].
  destruct (build_with _ w1) as [[|] w2]; cbn [snd]; [|by split; [|eexists]].
  split; [done|]. exists auth. split; [done|]. unfold client_for. f_equal.
  destruct write; [by injection Hretry as <-|]. destruct (retry_fixed _); [by injection Hretry as <-|done].
Qed.

(** A request is recorded, whatever becomes of it. *)
Lemma do_call_spec elapsed map_error client request bound (s : W * Log) :
  spec (do_call elapsed map_error client request bound) s
    (fun _ s' => s'.2 = s.2 ++ [(client, request, bound)])
    (fun e s' => s'.2 = s.2 ++ [(client, request, bound)] /\
       (e = Raised elapsed \/ exists kind, e = Raised (map_error kind))).
Proof.
  destruct s as [w log]. unfold spec, do_call. cbn [call Recorded].
  destruct (call _ _ _ w) as [[|kind|response] w']; cbn [snd]; [split; [done|by left]| |done].
  split; [done|]. right. by exists kind.
Qed.

Lemma collect_Forall2 {E A B} (f : A -> Result E B) l bs : collect f l = Ok bs -> Forall2 (fun a b => f a = Ok b) l bs.
Proof.
  revert bs. induction l as [|a l IH]; intros bs Hl; cbn in Hl; [injection Hl as <-; constructor|].
  apply rbind_Ok in Hl as (b & Hb & Hl). apply rbind_Ok in Hl as (bs' & Hbs & Hl). injection Hl as <-.
  constructor; auto.
Qed.

Lemma collect_wire_oids oids wire : collect to_wire_oid oids = Ok wire -> wire = oids.
Proof.
  intros Hc%collect_Forall2. induction Hc as [|a b l k Hab Hc IH]; [done|]. unfold to_wire_oid in Hab.
  destruct (oid_valid a); [|done]. by injection Hab as <-; rewrite IH.
Qed.

(** *** Reading *)

(** What may be asked: registered objects, distinct, no more than allowed. *)
Record askable (registry : ObjectRegistry) (limits : ClientLimits) (oids : list ObjectId) : Prop := {
  askable_limits : limits_refused limits = false;
  askable_some : oids <> [];
  askable_count : zlen oids <= maximum_oids_per_request limits;
  askable_registered : Forall (fun o => is_Some (registry_get registry o)) oids;
  askable_distinct : NoDup oids;
}.

Lemma size_oids_le (oids : list ObjectId) : (size (list_to_set oids : gset ObjectId) <= length oids)%nat.
Proof.
  induction oids as [|o oids IH]; cbn [list_to_set length]; [by rewrite size_empty|].
  pose proof (size_union_alt ({[o]} : gset ObjectId) (list_to_set oids)) as E.
  assert (size (list_to_set oids ∖ {[o]} : gset ObjectId) <= size (list_to_set oids : gset ObjectId))%nat
    by (apply subseteq_size; set_solver).
  rewrite E, size_singleton. lia.
Qed.

Lemma size_distinct (oids : list ObjectId) :
  size (list_to_set oids : gset ObjectId) = length oids -> NoDup oids.
Proof.
  induction oids as [|o oids IH]; [constructor|]. cbn [list_to_set length]. intros Hs.
  pose proof (size_oids_le oids) as Hle. destruct (decide (o ∈ oids)) as [Hin|Hin].
  - assert ({[o]} ∪ list_to_set oids = (list_to_set oids : gset ObjectId)) as E by set_solver.
    rewrite E in Hs. lia.
  - rewrite size_union, size_singleton in Hs by set_solver. constructor; [done|]. apply IH. lia.
Qed.

Lemma askable_guards registry limits oids :
  limits_refused limits = false ->
  (zlen oids =? 0) || (maximum_oids_per_request limits <? zlen oids)
    || existsb (fun oid => negb (bool_decide (is_Some (registry_get registry oid)))) oids = false ->
  negb (Nat.eqb (size (list_to_set oids : gset ObjectId)) (length oids)) = false ->
  askable registry limits oids.
Proof.
  rewrite !orb_false_iff. intros Hl [[E0 Em] Ereg] Hs. split.
  - done.
  - intros ->. discriminate E0.
  - by apply Z.ltb_ge in Em.
  - apply list.Forall_forall. intros o Ho. apply list_elem_of_In in Ho.
    rewrite <- not_true_iff_false, existsb_exists in Ereg.
    destruct (decide (is_Some (registry_get registry o))) as [|Hn]; [done|]. destruct Ereg. exists o. split; [done|].
    by rewrite bool_decide_false.
  - by apply size_distinct, Nat.eqb_eq, negb_false_iff.
Qed.

Lemma matched_bindings registry requested varbinds oids :
  negb (Nat.eqb (length varbinds) (length oids))
    || existsb (fun '(binding, expected) => mismatched registry requested binding expected) (zip varbinds oids) = false ->
  map oid varbinds = oids.
Proof.
  rewrite orb_false_iff. intros [El Ez]. apply negb_false_iff, Nat.eqb_eq in El.
  rewrite <- not_true_iff_false, existsb_exists in Ez.
  apply list_eq_same_length with (length oids); [done|by rewrite length_map|].
  intros i x y Hi Hx Hy. rewrite list_lookup_fmap in Hx. destruct (varbinds !! i) as [b|] eqn:Hb; [|done].
  injection Hx as <-. destruct (decide (oid b = y)) as [|Hne]; [done|]. destruct Ez. exists (b, y). split.
  - apply list_elem_of_In, list_elem_of_lookup. exists i. rewrite lookup_zip_with, Hb. cbn. by rewrite Hy.
  - unfold mismatched. by rewrite bool_decide_false.
Qed.

Section Reading.
Variable sha256 : list Z -> list Z.
Variable varbinds_json : list VarBind -> list Z.

(** The one request of a read, and what its success means. *)
Definition read_request (endpoint : SocketAddr) (credentials : Credentials) (limits : ClientLimits)
    (oids : list ObjectId) (request : Client * WireRequest * TimeBound) : Prop :=
  exists auth, credentials_auth credentials = Ok auth /\
    request = (client_for endpoint auth limits false, GetMany oids, For (timeout limits)).

Definition asked_once (endpoint : SocketAddr) (registry : ObjectRegistry) (credentials : Credentials)
    (oids : list ObjectId) (limits : ClientLimits) (log log' : Log) : Prop :=
  exists request, log' = log ++ [request] /\ read_request endpoint credentials limits oids request /\
    askable registry limits oids.

Lemma asked_once_longer endpoint registry credentials oids limits log :
  ~ asked_once endpoint registry credentials oids limits log log.
Proof.
  intros (request & E & _). apply (f_equal length) in E. rewrite length_app in E. cbn in E. lia.
Qed.

Lemma get_many_spec endpoint registry credentials oids limits (w : W) log :
  spec (get_many sha256 varbinds_json endpoint registry credentials oids limits) (w, log)
    (fun result s => asked_once endpoint registry credentials oids limits log s.2 /\
       map oid (rr_varbinds result) = oids /\ enforce_decoded_limits (rr_varbinds result) limits = Ok tt)
    (fun e s => (s.2 = log \/ asked_once endpoint registry credentials oids limits log s.2) /\ e <> Panicked).
Proof.
  unfold get_many. apply spec_bind, limits_spec; [intros Hl|by split; [left|]].
  unfold ecase. destruct (_ || existsb _ _) eqn:E1; [by split; [left|]|].
  destruct (negb (Nat.eqb _ _)) eqn:E2; [by split; [left|]|].
  apply spec_bind, spec_result; [|by intros e _; split; [left|]]. intros wire Hw%collect_wire_oids. subst wire.
  apply spec_bind. eapply spec_mono; [apply build_client_spec| |intros f s' [Hs' (e & -> & _)]; by split; [left|]].
  intros client [w1 log1] (Hs1 & auth & Ha & ->). cbn [snd] in Hs1. subst log1.
  assert (forall s : W * Log, s.2 = log ++ [(client_for endpoint auth limits false, GetMany oids, For (timeout limits))] ->
    asked_once endpoint registry credentials oids limits log s.2) as Hgood.
  { intros s Hs. eexists. split; [exact Hs|]. split; [by eexists|].
    by apply askable_guards. }
  apply spec_bind. eapply spec_mono; [apply do_call_spec| |].
  2: { intros e s2 [Hs2 He]. split; [right; auto|]. destruct He as [->|[k ->]]; done. }
  intros response s2 Hs2%Hgood. unfold accepted_varbinds, ecase.
  apply spec_bind. destruct (negb (anomalies_empty response)); [by split; [right|]|].
  apply spec_result; [|by intros e _; split; [right|]]. intros varbinds _.
  destruct (negb (Nat.eqb (length varbinds) (length oids)) || _) eqn:E3; [by split; [right|]|].
  apply spec_bind, spec_result; [|by intros e _; split; [right|]]. intros [] He. apply spec_ret.
  split_and!; [done| |done]. by eapply matched_bindings.
Qed.

(** Whatever the printer and the network do, reading sends at most one
    request, for distinct registered objects within the limits and exactly the
    ones given; and when it succeeds it has sent that request and returns one
    binding for each of them, in their order and within the size limits. *)
Theorem get_many_reads_what_was_asked endpoint registry credentials oids limits (w w' : W) log log' r :
  get_many sha256 varbinds_json endpoint registry credentials oids limits (w, log) = (r, (w', log')) ->
  r <> Err Panicked /\
  (log' = log \/ asked_once endpoint registry credentials oids limits log log') /\
  (forall result, r = Ok result ->
     log' <> log /\ map oid (rr_varbinds result) = oids /\
     enforce_decoded_limits (rr_varbinds result) limits = Ok tt).
Proof.
  intros Hrun. pose proof (get_many_spec endpoint registry credentials oids limits w log) as Hspec.
  unfold spec in Hspec. rewrite Hrun in Hspec. cbn [snd] in Hspec. destruct r as [result|e].
  - destruct Hspec as (Hg & Ho & He). split_and!; [done|by right|]. intros result' [= <-]. split_and!; [|done..].
    intros ->. by apply asked_once_longer in Hg.
  - split_and!; [naive_solver|tauto|done].
Qed.
End Reading.

(** *** Walking *)

(** What a walk that stands at [current] may still find. *)
Record found_after (registry : ObjectRegistry) (root : ObjectId) (current : list Z) (more : list VarBind) : Prop := {
  found_increasing : StronglySorted lex_lt (map oid more);
  found_greater : Forall (fun b => lex_lt current (oid b)) more;
  found_within : Forall (fun b => is_within (oid b) root = true) more;
  found_registered : Forall (fun b => is_Some (registry_get registry (oid b))) more;
}.

(** The requests of a walk: each asks for what follows a greater identifier. *)
Definition walk_requests (client : Client) (deadline : Z) (currents : list (list Z)) : Log :=
  map (fun current => (client, GetNext current, Until deadline)) currents.

Lemma found_after_nil registry root current : found_after registry root current [].
Proof. split; constructor. Qed.

Lemma found_after_later registry root current next more :
  lex_lt current next -> found_after registry root next more -> found_after registry root current more.
Proof.
  intros Hlt [Hs Hg Hw Hr]. split; try done. eapply list.Forall_impl; [exact Hg|]. eauto using lex_lt_trans.
Qed.

Lemma found_after_cons registry root current b more :
  lex_lt current (oid b) -> is_within (oid b) root = true -> is_Some (registry_get registry (oid b)) ->
  found_after registry root (oid b) more -> found_after registry root current (b :: more).
Proof.
  intros Hlt Hw Hr Hf. pose proof (found_after_later _ _ _ _ _ Hlt Hf) as [_ Hg' _ _]. destruct Hf as [Hs Hg Hws Hrs].
  split; [|by constructor..]. cbn. constructor; [done|]. by rewrite Forall_map.
Qed.

Lemma walk_answer_spec registry root limits current output converted next :
  walk_answer registry root limits current output converted = Ok (Some next) ->
  next.1 = oid converted /\ lex_lt current (oid converted) /\ is_within (oid converted) root = true /\
  (next.2 = output \/
   next.2 = output ++ [converted] /\ is_Some (registry_get registry (oid converted)) /\
   enforce_decoded_limits (output ++ [converted]) limits = Ok tt).
Proof.
  unfold walk_answer. destruct (negb (is_within _ _) || _) eqn:E1; [done|]. apply orb_false_iff in E1 as [Ew _].
  apply negb_false_iff in Ew. case_bool_decide as El; [done|]. intros H1.
  apply rbind_Ok in H1 as (c & Hc & H1). unfold to_wire_oid in Hc. destruct (oid_valid _); [|done]. injection Hc as <-.
  assert (lex_lt current (oid converted)).
  { destruct (decide (lex_lt current (oid converted))) as [|Hn]; [done|]. by apply lex_not_lt in Hn. }
  case_bool_decide; [|injection H1 as <-; cbn [fst snd]; split_and!; [done..|by left]].
  apply rbind_Ok in H1 as ([] & He & H1). injection H1 as <-. cbn [fst snd]. split_and!; [done..|by right].
Qed.

(** The postcondition of the walk's loop from [current] and [output]. *)
Definition walk_post (steps : nat) (client : Client) (registry : ObjectRegistry) (root : ObjectId) (limits : ClientLimits)
    (deadline : Z) (current : list Z) (output : list VarBind) (log : Log) (r : option (list VarBind)) (s : W * Log) : Prop :=
  (exists currents, s.2 = log ++ walk_requests client deadline currents /\ (length currents <= steps)%nat /\
     StronglySorted lex_lt currents /\ Forall (lex_le current) currents) /\
  (forall found, r = Some found -> exists more, found = output ++ more /\ found_after registry root current more /\
     (more = [] \/ enforce_decoded_limits found limits = Ok tt)).

(** A loop that ends with its first answer, and one that goes on. *)
Lemma walk_post_one steps client registry root limits deadline current output log r (s' : W * Log) :
  s'.2 = log ++ [(client, GetNext current, Until deadline)] -> (forall found, r = Some found -> found = output) ->
  walk_post (S steps) client registry root limits deadline current output log r s'.
Proof.
  intros Hs' Hr. split.
  - exists [current]. split_and!; [done|cbn; lia| |]; constructor; try constructor. reflexivity.
  - intros found ->%Hr. exists []. rewrite app_nil_r. split_and!; [done|apply found_after_nil|by left].
Qed.

Lemma walk_post_step steps client registry root limits deadline current output log converted output' log1 r s' :
  log1 = log ++ [(client, GetNext current, Until deadline)] ->
  lex_lt current (oid converted) -> is_within (oid converted) root = true ->
  (output' = output \/
   output' = output ++ [converted] /\ is_Some (registry_get registry (oid converted)) /\
   enforce_decoded_limits (output ++ [converted]) limits = Ok tt) ->
  walk_post steps client registry root limits deadline (oid converted) output' log1 r s' ->
  walk_post (S steps) client registry root limits deadline current output log r s'.
Proof.
  intros -> Hlt Hw Ho [(currents & Hs' & Hl & Hsort & Hle) Hf]. split.
  - exists (current :: currents). rewrite Hs', <- app_assoc. split_and!; [done|cbn; lia| |].
    + constructor; [done|]. eapply list.Forall_impl; [exact Hle|]. intros c. rewrite lex_le_lt.
      intros [<-|Hc]; [done|]. eauto using lex_lt_trans.
    + constructor; [reflexivity|]. eapply list.Forall_impl; [exact Hle|]. intros c Hc.
      apply lex_le_lt. right. apply lex_le_lt in Hc as [<-|Hc]; [done|]. eauto using lex_lt_trans.
  - intros found Hr. destruct (Hf found Hr) as (more & -> & Hm & Hlim). destruct Ho as [->|(-> & Hreg & Henf)].
    + exists more. split_and!; [done|by eapply found_after_later|done].
    + exists (converted :: more). rewrite <- app_assoc. split_and!; [done|by apply found_after_cons|].
      right. destruct Hlim as [->|Hlim]; [done|by rewrite <- app_assoc in Hlim].
Qed.

Lemma walk_loop_spec steps client registry root limits deadline current output (s : W * Log) :
  spec (walk_loop steps client registry root limits deadline current output) s
    (fun found => walk_post steps client registry root limits deadline current output s.2 (Some found))
    (fun e s' => walk_post steps client registry root limits deadline current output s.2 None s' /\ e <> Panicked).
Proof.
  revert current output s. induction steps as [|steps IH]; intros current output s; cbn [walk_loop].
  { apply spec_throw. split; [|done]. split; [exists []; split_and!; (by rewrite app_nil_r || constructor || (cbn; lia))|done]. }
  apply spec_bind. eapply spec_mono; [apply do_call_spec| |].
  2: { intros e s1 [Hs1 He]. split; [by apply walk_post_one|]. destruct He as [->|[k ->]]; done. }
  intros response s1 Hs1. apply spec_bind, spec_result; [|by intros e _; split; [apply walk_post_one|]].
  intros binding _. apply spec_bind, spec_result; [|by intros e _; split; [apply walk_post_one|]].
  intros converted _. apply spec_bind, spec_result; [|by intros e _; split; [apply walk_post_one|]].
  intros [[next output']|] Ha; [|by apply spec_ret, walk_post_one; [|intros found [= <-]]].
  apply walk_answer_spec in Ha as (En & Hlt & Hw & Ho). cbn [fst snd] in En, Ho. subst next.
  eapply spec_mono; [apply IH| |].
  - intros found s'. by apply walk_post_step.
  - intros e s' [Hp He]. split; [|done]. by apply (walk_post_step _ _ _ _ _ _ _ _ _ converted output' s1.2).
Qed.

(** C20: Whatever the agent answers, a walk ends: it asks at most the permitted
    number of times, on one client, each time for what follows an identifier
    greater than the one before, beginning with a root the registry permits.
    What it finds are registered objects below the root in increasing order,
    each once, within the size limits. *)
Theorem walk_stays_below_its_root endpoint registry community root limits (w w' : W) log log' r :
  walk endpoint registry community root limits (w, log) = (r, (w', log')) ->
  r <> Err Panicked /\
  (log' = log \/
   exists deadline currents,
     log' = log ++ walk_requests (client_for endpoint (AuthV2c (expose community)) limits false) deadline currents /\
     (length currents <= Z.to_nat (maximum_walk_steps limits))%nat /\
     StronglySorted lex_lt currents /\ Forall (lex_le root) currents /\ permits_root registry root = true) /\
  (forall found, r = Ok found -> found_after registry root root found /\
     (found = [] \/ enforce_decoded_limits found limits = Ok tt)).
Proof.
  intros Hrun.
  pose (good := fun log' : Log => exists deadline currents,
     log' = log ++ walk_requests (client_for endpoint (AuthV2c (expose community)) limits false) deadline currents /\
     (length currents <= Z.to_nat (maximum_walk_steps limits))%nat /\
     StronglySorted lex_lt currents /\ Forall (lex_le root) currents /\ permits_root registry root = true).
  assert (spec (walk endpoint registry community root limits) (w, log)
    (fun found s => good s.2 /\ found_after registry root root found /\
       (found = [] \/ enforce_decoded_limits found limits = Ok tt))
    (fun e s => (s.2 = log \/ good s.2) /\ e <> Panicked)) as Hspec.
  2: { unfold spec in Hspec. rewrite Hrun in Hspec. cbn [snd] in Hspec.
       destruct r as [found|e]; [|by split_and!; [naive_solver|tauto|]].
       split_and!; [done|tauto|]. intros found' [= <-]. tauto. }
  unfold walk. apply spec_bind, limits_spec; [intros Hl|by split; [left|]].
  unfold ecase. destruct (negb (permits_root registry root)) eqn:Hp; [by split; [left|]|]. apply negb_false_iff in Hp.
  apply spec_bind. eapply spec_mono; [apply build_client_spec| |intros f s' [Hs' (e & -> & _)]; by split; [left|]].
  intros client [w1 log1] (Hs1 & auth & Ha & ->). cbn [snd] in Hs1. subst log1. injection Ha as <-.
  apply spec_bind, spec_result; [|by intros e _; split; [left|]]. intros current Hc.
  unfold to_wire_oid in Hc. destruct (oid_valid root); [|done]. injection Hc as <-.
  apply spec_bind. unfold spec at 1, do_now. cbn [now Recorded]. destruct (now w1) as [start w2].
  eapply spec_mono; [apply walk_loop_spec| |].
  - intros found s [(currents & Hs & Hn & Hsort & Hle) Hf]. split; [by eexists _, currents|].
    destruct (Hf found eq_refl) as (more & -> & Hm). exact Hm.
  - intros e s [[(currents & Hs & Hn & Hsort & Hle) _] He]. split; [|done]. right. by eexists _, currents.
Qed.

(** *** Writing *)

(** The one request of a write: for an object and a value that may be
    written, on a client without retries. *)
Definition write_request (endpoint : SocketAddr) (definition : ObjectDefinition) (credentials : Credentials)
    (value : SetValue) (limits : ClientLimits) (request : Client * WireRequest * TimeBound) : Prop :=
  validate_set_value definition value = Ok tt /\
  exists auth wire, credentials_auth credentials = Ok auth /\ to_wire_set_value value = Ok wire /\
    client_retries request.1.1 = None /\
    request = (client_for endpoint auth limits true, SetOne (d_oid definition) wire, For (timeout limits)).

(** The errors of a write that was sent. *)
Definition sent_error (e : ClientError.t) : Prop :=
  e = ClientError.AmbiguousWrite \/ (exists kind, e = map_write_error kind) \/
  e = ClientError.Protocol SnmpError.Malformed \/ e = ClientError.ResponseTooLarge.

Lemma collect_error {A B} (f : A -> Result ClientError.t B) P l e :
  (forall a e, f a = Err e -> P e) -> collect f l = Err e -> P e.
Proof.
  intros Hf. induction l as [|a l IH]; cbn; [done|]. destruct (f a) eqn:Ea; cbn; [|intros [= <-]; eauto].
  destruct (collect f l); cbn; [done|]. intros [= <-]. by apply IH.
Qed.

Lemma from_wire_error binding e : from_wire_varbind binding = Err e -> e = ClientError.Protocol SnmpError.Malformed.
Proof. unfold from_wire_varbind. destruct (wire_value binding); cbn; congruence. Qed.

Lemma enforce_error varbinds limits e :
  enforce_decoded_limits varbinds limits = Err e -> e = ClientError.ResponseTooLarge.
Proof.
  unfold enforce_decoded_limits. destruct (_ <? zlen varbinds); [congruence|].
  assert (forall l n e, for_each (estimate_binding limits) l n = Err e -> e = ClientError.ResponseTooLarge) as Hl.
  { induction l as [|b l IH]; intros n e'; cbn; [done|]. unfold estimate_binding at 1. destruct (_ <? _); cbn; [congruence|]. apply IH. }
  destruct (for_each _ _ _) eqn:E; cbn; [destruct (_ <? _); congruence|]. intros [= <-]. by eapply Hl.
Qed.

Lemma wire_set_error value e :
  to_wire_set_value value = Err e -> e = ClientError.Protocol SnmpError.InvalidValue \/ e = ClientError.Protocol SnmpError.InvalidOid.
Proof.
  destruct value; cbn; try done; [destruct (_ && _); [done|]; intros [= <-]; by left|].
  unfold to_wire_oid. destruct (oid_valid _); [done|]. intros [= <-]. by right.
Qed.

Section Writing.
Variable sha256 : list Z -> list Z.
Variable varbinds_json : list VarBind -> list Z.

(** What is done with the answer to a write. *)
Lemma write_reply_spec response limits (s : W * Log) (sent : W * Log -> Prop) :
  sent s ->
  spec (let! varbinds := accepted_varbinds response in
        eresult (enforce_decoded_limits varbinds limits) ;!
        eret {| rr_varbinds := varbinds;
                rr_evidence := structured_evidence sha256 varbinds_json varbinds (decode_anomalies response) |}) s
    (fun _ => sent) (fun f s => exists e, f = Raised e /\ sent s /\ sent_error e).
Proof.
  intros Hs. unfold accepted_varbinds, ecase. apply spec_bind.
  destruct (negb (anomalies_empty response)).
  { apply spec_throw. eexists. split_and!; [done..|]. right; right; by left. }
  apply spec_result.
  2: { intros e He. eexists. split_and!; [done..|]. right; right; left. revert He.
       apply (collect_error _ (fun e => e = ClientError.Protocol SnmpError.Malformed)). intros a e'. apply from_wire_error. }
  intros varbinds _. apply spec_bind, spec_result; [by intros []|].
  intros e He%enforce_error. subst e. eexists. split_and!; [done..|]. by right; right; right.
Qed.

(** C21: Whatever the printer and the network do, a write sends at most one
    request, without retries, and only for an object that may be written and a
    value its constraint admits. If nothing was sent the error is definite;
    when a request was sent and not answered, the error is ambiguous unless the
    agent or the encoder refused it. *)
Theorem set_once_writes_at_most_once endpoint definition credentials value limits (w w' : W) log log' r :
  set_once sha256 varbinds_json endpoint definition credentials value limits (w, log) = (r, (w', log')) ->
  r <> Err Panicked /\
  (log' = log /\ (exists e, r = Err (Raised e) /\ e <> ClientError.AmbiguousWrite) \/
   exists request, log' = log ++ [request] /\
     write_request endpoint definition credentials value limits request /\
     (forall e, r = Err (Raised e) -> sent_error e)).
Proof.
  intros Hrun.
  pose (sent := fun s : W * Log => exists request, s.2 = log ++ [request] /\
     write_request endpoint definition credentials value limits request).
  pose (unsent := fun (f : Fault ClientError.t) (s : W * Log) =>
     s.2 = log /\ exists e, f = Raised e /\ e <> ClientError.AmbiguousWrite).
  assert (spec (set_once sha256 varbinds_json endpoint definition credentials value limits) (w, log)
    (fun _ => sent) (fun f s => unsent f s \/ exists e, f = Raised e /\ sent s /\ sent_error e)) as Hspec.
  2: { unfold spec in Hspec. rewrite Hrun in Hspec. destruct r as [result|f].
       - split; [done|]. right. destruct Hspec as (request & Hl & Hw). by exists request.
       - destruct Hspec as [(Hl & e & -> & He)|(e & -> & (request & Hl & Hw) & He)]; (split; [done|]).
         + left. eauto.
         + right. exists request. split_and!; [done..|]. by intros e' [= <-]. }
  unfold set_once. apply spec_bind, spec_result.
  2: { intros e He. destruct (validate_set_value _ _); [done|]. injection He as <-. left. split; [done|]. by eexists. }
  intros [] Hval%map_err_Ok. apply spec_bind, limits_spec; [intros _|left; split; [done|]; by eexists].
  apply spec_bind. eapply spec_mono; [apply build_client_spec| |intros f s' Hs'; by left].
  intros client [w1 log1] (Hs1 & auth & Ha & ->). cbn [snd] in Hs1. subst log1.
  apply spec_bind, spec_result; unfold to_wire_oid.
  2: { intros e. destruct (oid_valid _); [done|]. intros [= <-]. left. split; [done|]. by eexists. }
  intros o Ho. destruct (oid_valid _); [|done]. injection Ho as <-. apply spec_bind, spec_result.
  2: { intros e He. left. split; [done|]. eexists. split; [done|]. by apply wire_set_error in He as [->| ->]. }
  intros wire Hwire. apply spec_bind. eapply spec_mono; [apply do_call_spec| |].
  2: { intros f s [Hs Hf]. right. assert (sent s).
       { eexists. split; [exact Hs|]. split; [done|]. by exists auth, wire. }
       destruct Hf as [->|[k ->]]; eexists; (split_and!; [done..|]); [by left|right; left; by exists k]. }
  intros response s Hs. eapply spec_mono; [apply (write_reply_spec _ _ _ sent)|done|intros f s'; by right].
  eexists. split; [exact Hs|]. split; [done|]. by exists auth, wire.
Qed.
End Writing.
End Recorded.

(** ** An agent that keeps its objects in order *)

(** What is between two identifiers below a root is below it. *)
Lemma is_within_app o root : is_within o root = true <-> exists t, o = root ++ t.
Proof.
  unfold is_within, starts_with. rewrite bool_decide_eq_true. split.
  - intros E. exists (drop (length root) o). rewrite <- E at 1. by rewrite take_drop.
  - intros [t ->]. apply take_app_length.
Qed.

Lemma within_convex root a b c :
  is_within a root = true -> is_within c root = true -> lex_lt a b -> lex_lt b c -> is_within b root = true.
Proof.
  rewrite !is_within_app. intros [ta ->] [tc ->]. revert b.
  induction root as [|x root IH]; intros b Hab Hbc; [by exists b|].
  unfold lex_lt in *. destruct b as [|y b]; [done|]. cbn in Hab, Hbc.
  revert Hab Hbc. destruct (Z.compare_spec x y) as [<-|Hxy|Hxy]; [|intros _|done].
  - rewrite Z.compare_refl. intros Hab Hbc. destruct (IH b Hab Hbc) as [t ->]. by exists t.
  - destruct (Z.compare_spec y x); (done || lia).
Qed.

Lemma within_refl root : is_within root root = true.
Proof. apply is_within_app. exists []. by rewrite app_nil_r. Qed.

(** The size limits hold of a prefix. *)
Lemma saturate_mono total x : 0 <= total <= usize_max -> 0 <= x -> total <= saturate usize_max (total + x) <= usize_max.
Proof. unfold saturate. lia. Qed.

Lemma estimate_mono limits b n n' : 0 <= n <= usize_max -> estimate_binding limits b n = Ok n' -> n <= n' <= usize_max.
Proof.
  intros Hn. unfold estimate_binding. destruct (_ <? _); [done|]. intros [= <-].
  pose proof (saturate_mono n (saturate usize_max (zlen (oid b) * 5)) Hn) as H1.
  assert (0 <= saturate usize_max (zlen (oid b) * 5)) as H0 by (unfold saturate; lia). specialize (H1 H0).
  pose proof (saturate_mono (saturate usize_max (n + saturate usize_max (zlen (oid b) * 5))) (value_bytes (value b))) as H2.
  assert (0 <= value_bytes (value b)) as Hv.
  { destruct (value b); cbn; try apply zlen_nonneg; try lia. unfold saturate. lia. }
  specialize (H2 ltac:(lia) Hv). pose proof (saturate_mono _ 16 ltac:(split; [|exact (proj2 H2)]; lia)). lia.
Qed.

Lemma estimates_mono limits l n n' : 0 <= n <= usize_max -> for_each (estimate_binding limits) l n = Ok n' -> n <= n' <= usize_max.
Proof.
  revert n. induction l as [|b l IH]; intros n Hn Hl; cbn in Hl; [injection Hl as <-; lia|].
  apply rbind_Ok in Hl as (m & Hm & Hl). apply estimate_mono in Hm; [|done]. apply IH in Hl; lia.
Qed.

Lemma enforce_prefix l k limits : enforce_decoded_limits (l ++ k) limits = Ok tt -> enforce_decoded_limits l limits = Ok tt.
Proof.
  unfold enforce_decoded_limits. rewrite zlen_app, for_each_app. pose proof (zlen_nonneg k).
  destruct (Z.ltb_spec (maximum_varbinds (decode_limits limits)) (zlen l + zlen k)); [done|].
  destruct (Z.ltb_spec (maximum_varbinds (decode_limits limits)) (zlen l)); [lia|].
  destruct (for_each (estimate_binding limits) l 64) as [n|] eqn:El; cbn [rbind]; [|done].
  destruct (for_each (estimate_binding limits) k n) as [m|] eqn:Ek; cbn [rbind]; [|done].
  apply estimates_mono in El; [|unfold usize_max, u64_max; lia]. apply estimates_mono in Ek; [|lia].
  destruct (Z.ltb_spec (cl_maximum_response_bytes limits) m); [done|].
  destruct (Z.ltb_spec (cl_maximum_response_bytes limits) n); [lia|done].
Qed.

Section Mib.
(** The objects of an agent. *)
Variable mib : list WireVarBind.

Definition following (current : list Z) : option WireVarBind :=
  List.find (fun b => bool_decide (lex_lt current (wire_oid b))) mib.

Definition instance (o : list Z) : WireVarBind :=
  default {| wire_oid := o; wire_value := WireValue.NoSuchInstance |}
    (List.find (fun b => bool_decide (wire_oid b = o)) mib).

(** An agent that answers from its objects: the value of a named one, and the
    first one after another. *)
Definition mib_answer (request : WireRequest) : list WireVarBind :=
  match request with
  | GetMany oids => map instance oids
  | GetNext current => [default {| wire_oid := current; wire_value := WireValue.EndOfMibView |} (following current)]
  | SetOne _ _ => []
  end.

Definition mib_agent : AsyncSnmp unit := {|
  oid_valid := fun _ => true;
  retry_fixed := fun _ => true;
  usm_valid := fun _ => true;
  value_from_octets := WireValue.OctetString;
  value_from_text := WireValue.OctetString;
  into_single := fun response => match wire_varbinds response with [b] => Some b | _ => None end;
  now := fun w => (0, w);
  bind := fun _ _ w => (None, w);
  build_with := fun _ w => (true, w);
  call := fun _ request _ w =>
    (Replied {| wire_varbinds := mib_answer request; anomalies_empty := true; decode_anomalies := [] |}, w);
|}.

Record mib_ok : Prop := {
  mib_sorted : StronglySorted lex_lt (map wire_oid mib);
  mib_values : Forall (fun b => wire_value b <> WireValue.Other /\ wire_value b <> WireValue.EndOfMibView) mib;
}.

(** The objects below a root after an identifier. *)
Definition below (root current : list Z) : list WireVarBind :=
  List.filter (fun b => is_within (wire_oid b) root && bool_decide (lex_lt current (wire_oid b))) mib.

Lemma following_split l b current :
  StronglySorted lex_lt (map wire_oid l) ->
  List.find (fun b => bool_decide (lex_lt current (wire_oid b))) l = Some b ->
  exists l1 l2, l = l1 ++ b :: l2 /\ lex_lt current (wire_oid b) /\
    Forall (fun x => lex_le (wire_oid x) current) l1 /\ Forall (fun x => lex_lt (wire_oid b) (wire_oid x)) l2.
Proof.
  induction l as [|a l IH]; [done|]. cbn [map List.find]. intros Hs Hf. inversion Hs as [|? ? Hs' Ha]; subst.
  case_bool_decide as Hlt.
  - injection Hf as ->. exists [], l. split_and!; [done..|constructor|by rewrite Forall_map in Ha].
  - destruct (IH Hs' Hf) as (l1 & l2 & -> & Hb & H1 & H2). exists (a :: l1), l2.
    split_and!; [done..| |done]. constructor; [by apply lex_not_lt|done].
Qed.

Lemma filter_none {A} (f : A -> bool) l : Forall (fun x => f x = false) l -> List.filter f l = [].
Proof. induction 1 as [|x l Hx Hl IH]; cbn; [done|]. by rewrite Hx. Qed.

Lemma following_below root current :
  mib_ok -> is_within current root = true ->
  match following current with
  | None => below root current = []
  | Some b =>
      b ∈ mib /\ lex_lt current (wire_oid b) /\
      below root current = if is_within (wire_oid b) root then b :: below root (wire_oid b) else []
  end.
Proof.
  intros [Hsorted _] Hw. unfold following, below.
  destruct (List.find _ mib) as [b|] eqn:Ef.
  2: { apply filter_none, list.Forall_forall. intros x Hx%list_elem_of_In. rewrite (find_none _ _ Ef x Hx). apply andb_false_r. }
  apply following_split in Ef as (l1 & l2 & Em & Hb & H1 & H2); [|done]. rewrite Em. split_and!; [set_solver|done|].
  assert (forall c x, lex_le (wire_oid x) c ->
    is_within (wire_oid x) root && bool_decide (lex_lt c (wire_oid x)) = false) as Hle.
  { intros c x Hx%lex_not_lt. rewrite bool_decide_false by done. apply andb_false_r. }
  rewrite !filter_app. rewrite (filter_none _ l1).
  2: { eapply list.Forall_impl; [exact H1|]. intros x. apply Hle. }
  rewrite (filter_none _ l1).
  2: { eapply list.Forall_impl; [exact H1|]. intros x Hx. apply Hle. etrans; [exact Hx|]. apply lex_le_lt. by right. }
  cbn [app List.filter]. rewrite bool_decide_true by done. rewrite andb_true_r.
  rewrite (Hle (wire_oid b) b) by reflexivity. destruct (is_within (wire_oid b) root) eqn:Eb.
  - f_equal. apply filter_ext_in. intros x Hx. f_equal. rewrite list.Forall_forall in H2.
    apply list_elem_of_In, H2 in Hx. rewrite !bool_decide_true; eauto using lex_lt_trans.
  - apply filter_none. eapply list.Forall_impl; [exact H2|]. intros x Hx. cbn beta.
    destruct (is_within (wire_oid x) root) eqn:Ex; [|done].
    by rewrite (within_convex root current (wire_oid b) (wire_oid x)) in Eb.
Qed.

Variable sha256 : list Z -> list Z.
Variable varbinds_json : list VarBind -> list Z.
#[local] Existing Instance mib_agent.

Lemma build_client_mib endpoint credentials limits write :
  exists client, build_client endpoint credentials limits write tt = (Ok client, tt).
Proof.
  unfold build_client, ebind, eresult, do_bind, do_build.
  destruct write, credentials; cbn; eexists; reflexivity.
Qed.

Definition is_registered (registry : ObjectRegistry) (b : VarBind) : bool :=
  bool_decide (is_Some (registry_get registry (oid b))).

Lemma from_wire_oid b v : from_wire_varbind b = Ok v -> oid v = wire_oid b.
Proof. unfold from_wire_varbind. destruct (from_wire_value _); cbn; [by intros [= <-]|done]. Qed.

Lemma from_wire_end b v :
  wire_value b <> WireValue.EndOfMibView -> from_wire_varbind b = Ok v -> value v <> ObjectValue.EndOfMibView.
Proof. unfold from_wire_varbind. destruct (wire_value b); cbn; intros Hb [= <-]; done. Qed.

(** One turn of the walk when the agent has another object below the root. *)
Lemma walk_answer_next registry root limits current output v :
  is_within (oid v) root = true -> value v <> ObjectValue.EndOfMibView -> lex_lt current (oid v) ->
  (is_registered registry v = true -> enforce_decoded_limits (output ++ [v]) limits = Ok tt) ->
  walk_answer registry root limits current output v =
    Ok (Some (oid v, if is_registered registry v then output ++ [v] else output)).
Proof.
  intros Hw Hv Hlt He. unfold walk_answer, to_wire_oid. rewrite Hw, bool_decide_false by done.
  cbn [negb orb]. rewrite bool_decide_false by by rewrite <- lex_not_lt; auto.
  cbn [oid_valid mib_agent rbind]. unfold is_registered in *. case_bool_decide; [|done]. by rewrite He.
Qed.

Lemma run_result {A B E} (a : A) (k : A -> EM unit E B) s : ebind (eresult (Ok a)) k s = k a s.
Proof. done. Qed.

Lemma run_call {B} elapsed map_error client request bound (k : WireResponse -> EM unit ClientError.t B) s :
  ebind (do_call elapsed map_error client request bound) k s =
  k {| wire_varbinds := mib_answer request; anomalies_empty := true; decode_anomalies := [] |} s.
Proof. done. Qed.

Lemma walk_loop_mib steps client registry root limits deadline current output entries :
  mib_ok -> is_within current root = true ->
  collect from_wire_varbind (below root current) = Ok entries -> (length entries < steps)%nat ->
  enforce_decoded_limits (output ++ List.filter (is_registered registry) entries) limits = Ok tt ->
  walk_loop steps client registry root limits deadline current output tt =
    (Ok (output ++ List.filter (is_registered registry) entries), tt).
Proof.
  intros Hok. revert current output entries. induction steps as [|steps IH]; intros current output entries Hw Hc Hn He; [lia|].
  cbn [walk_loop]. rewrite run_call. cbn [into_single mib_agent wire_varbinds mib_answer ok_or]. rewrite run_result.
  pose proof (following_below root current Hok Hw) as Hb.
  destruct (following current) as [b|]; cbn [from_option id].
  2: { rewrite Hb in Hc. injection Hc as <-. cbn [from_wire_varbind wire_value wire_oid from_wire_value rbind]. rewrite run_result.
       unfold walk_answer. cbn [oid value]. rewrite bool_decide_true, orb_true_r by done.
       rewrite run_result. cbn. by rewrite app_nil_r. }
  destruct Hb as (Hin & Hlt & Hb). destruct (proj1 (list.Forall_forall _ _) (mib_values Hok) b Hin) as [Ho He'].
  destruct (from_wire_varbind b) as [v|e] eqn:Ev.
  2: { unfold from_wire_varbind in Ev. by destruct (wire_value b). }
  pose proof (from_wire_oid b v Ev) as Eo. rewrite Hb in Hc. rewrite run_result. rewrite <- Eo in *.
  destruct (is_within (oid v) root) eqn:Ew.
  2: { injection Hc as <-. unfold walk_answer. rewrite Ew. cbn [negb orb]. rewrite run_result. cbn. by rewrite app_nil_r. }
  cbn [collect] in Hc. rewrite Ev in Hc. cbn [rbind] in Hc. apply rbind_Ok in Hc as (rest & Hc & Hr). injection Hr as <-.
  cbn [List.filter length] in *. rewrite walk_answer_next; [| done|by eapply from_wire_end|done|].
  - rewrite run_result. destruct (is_registered registry v).
    + rewrite (IH (oid v) (output ++ [v]) rest); [by rewrite <- app_assoc|done..|lia|by rewrite <- app_assoc].
    + by rewrite (IH (oid v) output rest); [|done..|lia|].
  - intros Hr. rewrite Hr in He. apply enforce_prefix with (k := List.filter (is_registered registry) rest).
    by rewrite <- app_assoc.
Qed.

(** With an agent that keeps its objects in order, a walk of a permitted
    root reads every registered object below it, in order, as long as the
    subtree has fewer objects than the walk has steps and what is found is
    within the size limits. *)
Theorem walk_reads_the_subtree endpoint registry community root limits entries :
  mib_ok -> limits_refused limits = false -> permits_root registry root = true ->
  collect from_wire_varbind (below root root) = Ok entries ->
  zlen entries < maximum_walk_steps limits ->
  enforce_decoded_limits (List.filter (is_registered registry) entries) limits = Ok tt ->
  walk endpoint registry community root limits tt = (Ok (List.filter (is_registered registry) entries), tt).
Proof.
  intros Hok Hl Hp Hc Hn He. unfold walk, ClientLimits_validate. rewrite Hl. unfold ebind at 1. cbn [eresult raising map_err].
  unfold ecase. rewrite Hp. cbn [negb]. unfold ebind at 1.
  destruct (build_client_mib endpoint (V2c community) limits false) as [client ->].
  unfold ebind, eresult, do_now. cbn [to_wire_oid oid_valid mib_agent raising map_err now].
  rewrite (walk_loop_mib _ _ _ _ _ _ _ [] entries); [done|done|apply within_refl|done| |done].
  unfold zlen in Hn. lia.
Qed.

(** Reading from such an agent returns what it has under the identifiers. *)
Lemma instance_oid o : wire_oid (instance o) = o.
Proof.
  unfold instance. destruct (List.find _ mib) as [b|] eqn:E; [|done]. apply find_some in E as [_ E].
  by apply bool_decide_eq_true in E.
Qed.

Lemma instances_oids oids varbinds : collect from_wire_varbind (map instance oids) = Ok varbinds -> map oid varbinds = oids.
Proof.
  revert varbinds. induction oids as [|o oids IH]; intros varbinds Hc; cbn in Hc; [by injection Hc as <-|].
  apply rbind_Ok in Hc as (v & Hv & Hc). apply rbind_Ok in Hc as (vs & Hvs & Hc). injection Hc as <-.
  cbn. rewrite (from_wire_oid _ _ Hv), instance_oid. by rewrite (IH vs).
Qed.

Lemma collect_to_wire oids : collect to_wire_oid oids = Ok oids.
Proof. induction oids as [|o oids IH]; [done|]. cbn. by rewrite IH. Qed.

Lemma size_NoDup (oids : list ObjectId) : NoDup oids -> size (list_to_set oids : gset ObjectId) = length oids.
Proof. intros Hd. by apply size_list_to_set. Qed.

Lemma askable_runs registry limits oids :
  askable registry limits oids ->
  ClientLimits_validate limits = Ok limits /\
  (zlen oids =? 0) || (maximum_oids_per_request limits <? zlen oids)
    || existsb (fun oid => negb (bool_decide (is_Some (registry_get registry oid)))) oids = false /\
  negb (Nat.eqb (size (list_to_set oids : gset ObjectId)) (length oids)) = false.
Proof.
  intros [Hl Hs Hc Hr Hd]. split_and!.
  - unfold ClientLimits_validate. by rewrite Hl.
  - rewrite !orb_false_iff. split_and!.
    + apply Z.eqb_neq. unfold zlen. destruct oids; [done|]. cbn. lia.
    + by apply Z.ltb_ge.
    + apply not_true_iff_false. rewrite existsb_exists. intros (o & Ho & E). apply negb_true_iff, bool_decide_eq_false in E.
      rewrite list.Forall_forall in Hr. by apply E, Hr, list_elem_of_In.
  - by rewrite size_NoDup, Nat.eqb_refl.
Qed.

Lemma matched_runs registry varbinds oids :
  map oid varbinds = oids -> Forall (fun o => is_Some (registry_get registry o)) oids ->
  negb (Nat.eqb (length varbinds) (length oids))
    || existsb (fun '(binding, expected) => mismatched registry (list_to_set oids) binding expected) (zip varbinds oids) = false.
Proof.
  intros <- Hr. rewrite length_map, Nat.eqb_refl. cbn [negb orb]. apply not_true_iff_false. rewrite existsb_exists.
  intros ([b o] & Hin%list_elem_of_In & Hm). apply list_elem_of_lookup in Hin as (i & Hi).
  rewrite lookup_zip_with, list_lookup_fmap in Hi. destruct (varbinds !! i) as [v|] eqn:Ev; [|done]. injection Hi as <- <-.
  rewrite list.Forall_forall in Hr. assert (oid v ∈ map oid varbinds) as Ho by (apply list_elem_of_fmap_2; by eapply list_elem_of_lookup_2).
  unfold mismatched in Hm. rewrite !bool_decide_true in Hm; [done|by apply Hr|by apply elem_of_list_to_set|done].
Qed.

Lemma get_many_mib endpoint registry credentials limits oids varbinds :
  askable registry limits oids -> collect from_wire_varbind (map instance oids) = Ok varbinds ->
  enforce_decoded_limits varbinds limits = Ok tt ->
  get_many sha256 varbinds_json endpoint registry credentials oids limits tt =
    (Ok {| rr_varbinds := varbinds; rr_evidence := structured_evidence sha256 varbinds_json varbinds [] |}, tt).
Proof.
  intros Ha Hc He. pose proof (instances_oids oids varbinds Hc) as Ho.
  destruct (askable_runs _ _ _ Ha) as (Hl & Hg & Hd). unfold get_many. rewrite Hl, run_result.
  unfold ecase at 1. rewrite Hg. unfold ecase at 1. rewrite Hd. rewrite collect_to_wire, run_result.
  destruct (build_client_mib endpoint credentials limits false) as [client Hb].
  erewrite run_bind; [|exact Hb|reflexivity]. rewrite run_call.
  unfold accepted_varbinds, ecase at 1. cbn [anomalies_empty negb wire_varbinds mib_answer]. rewrite Hc, run_result.
  unfold ecase. rewrite matched_runs by (done || apply Ha). by rewrite He, run_result.
Qed.
End Mib.

(** ** Examples *)

Definition example_entry (arc : Z) (text : string) : WireVarBind :=
  {| wire_oid := [1; 3; 6; 1; arc]; wire_value := WireValue.OctetString (str text) |}.

Definition example_mib : list WireVarBind := [example_entry 1 "a"; example_entry 2 "b"; example_entry 4 "c"].

Definition example_definition (arc : Z) (access : ObjectAccess) : ObjectDefinition := {|
  d_key := show_dec arc; d_oid := [1; 3; 6; 1; arc]; d_syntax := SyntaxInteger; d_sensitivity := Public; d_access := access;
  d_qualification := {| manufacturer := str "Brother"; models := []; firmware := None; qualification_id := str "q" |} |}.

Definition example_access : ObjectAccess := ConfirmedWrite {|
  w_constraint := IntegerRange 0 9; w_risk := Low; w_verification := ReadBackSameObject |}.

Definition example_objects : ObjectRegistry :=
  (register_definition (register_definition ObjectRegistry_default (example_definition 1 ReadOnly)).2
     (example_definition 4 ReadOnly)).2.

Definition example_endpoint : SocketAddr := {| is_ipv4 := true; address := str "192.0.2.1:161" |}.
Definition example_community : Community := {| expose := str "public" |}.

Lemma example_mib_ok : mib_ok example_mib.
Proof. split; repeat constructor; done. Qed.

Lemma walk_reads_the_subtree_witness :
  exists entries,
    @walk unit (mib_agent example_mib) example_endpoint example_objects example_community [1; 3; 6] ClientLimits_default tt =
      (Ok (List.filter (is_registered example_objects) entries), tt) /\
    map oid (List.filter (is_registered example_objects) entries) = [[1; 3; 6; 1; 1]; [1; 3; 6; 1; 4]].
Proof.
  destruct (collect from_wire_varbind (below example_mib [1; 3; 6] [1; 3; 6])) as [entries|] eqn:E; [|vm_compute in E; discriminate E].
  exists entries. split.
  - apply walk_reads_the_subtree; [apply example_mib_ok|by vm_compute|by vm_compute|exact E|..];
      vm_compute in E; apply Ok_inj in E as <-; by vm_compute.
  - vm_compute in E. apply Ok_inj in E as <-. by vm_compute.
Defined.

Lemma get_many_reads_what_was_asked_witness :
  exists r w' log',
    @get_many (fun b => b) (fun _ => []) _ (@Recorded unit (mib_agent example_mib)) example_endpoint example_objects
      (V2c example_community) [[1; 3; 6; 1; 4]] ClientLimits_default (tt, []) = (r, (w', log')) /\
    is_ok r = true /\ r <> Err Panicked /\ length log' = 1%nat.
Proof.
  destruct (@get_many (fun b => b) (fun _ => []) _ (@Recorded unit (mib_agent example_mib)) example_endpoint example_objects
      (V2c example_community) [[1; 3; 6; 1; 4]] ClientLimits_default (tt, [])) as [r [w' log']] eqn:E.
  exists r, w', log'. pose proof E as Hp. apply get_many_reads_what_was_asked in Hp as (Hp & _).
  vm_compute in E. injection E as Er _ El. split; [reflexivity|]. rewrite <- Er, <- El. split; [reflexivity|]. split; [by rewrite Er|reflexivity].
Defined.

Lemma walk_stays_below_its_root_witness :
  exists r w' log',
    @walk _ (@Recorded unit (mib_agent example_mib)) example_endpoint example_objects example_community [1; 3; 6]
      ClientLimits_default (tt, []) = (r, (w', log')) /\
    is_ok r = true /\ r <> Err Panicked /\ length log' = 4%nat.
Proof.
  destruct (@walk _ (@Recorded unit (mib_agent example_mib)) example_endpoint example_objects example_community [1; 3; 6]
      ClientLimits_default (tt, [])) as [r [w' log']] eqn:E.
  exists r, w', log'. pose proof E as Hp. apply walk_stays_below_its_root in Hp as (Hp & _).
  vm_compute in E. injection E as Er _ El. split; [reflexivity|]. rewrite <- Er, <- El. split; [reflexivity|]. split; [by rewrite Er|reflexivity].
Defined.

Lemma set_once_writes_at_most_once_witness :
  exists r w' log',
    @set_once (fun b => b) (fun _ => []) _ (@Recorded unit (mib_agent [])) example_endpoint
      (example_definition 4 example_access) (V2c example_community) (SetInteger 5) ClientLimits_default (tt, []) = (r, (w', log')) /\
    is_ok r = true /\ r <> Err Panicked /\ length log' = 1%nat.
Proof.
  destruct (@set_once (fun b => b) (fun _ => []) _ (@Recorded unit (mib_agent [])) example_endpoint
      (example_definition 4 example_access) (V2c example_community) (SetInteger 5) ClientLimits_default (tt, [])) as [r [w' log']] eqn:E.
  exists r, w', log'. pose proof E as Hp. apply set_once_writes_at_most_once in Hp as (Hp & _).
  vm_compute in E. injection E as Er _ El. split; [reflexivity|]. rewrite <- Er, <- El. split; [reflexivity|]. split; [by rewrite Er|reflexivity].
Defined.

(** A write that was answered, with anomalies, is reported as a definite
    error although the printer may have carried it out. *)
Definition anomalous_agent : AsyncSnmp unit := {|
  oid_valid := fun _ => true; retry_fixed := fun _ => true; usm_valid := fun _ => true;
  value_from_octets := WireValue.OctetString; value_from_text := WireValue.OctetString;
  into_single := fun _ => None; now := fun w => (0, w); bind := fun _ _ w => (None, w); build_with := fun _ w => (true, w);
  call := fun _ _ _ w => (Replied {| wire_varbinds := []; anomalies_empty := false; decode_anomalies := [] |}, w) |}.

Example answered_write_reported_definite :
  (@set_once (fun b => b) (fun _ => []) _ anomalous_agent example_endpoint (example_definition 4 example_access)
     (V2c example_community) (SetInteger 5) ClientLimits_default tt).1 = fail (ClientError.Protocol SnmpError.Malformed).
Proof. by vm_compute. Qed.
