(* ===== verification/SnmpProperties.v ===== *)
(** Qualified printers over SNMP
    (crates/mb-printer-native/src/snmp_properties.rs): named properties and the
    firmware inventory, read only from a printer that matches the
    qualification of the catalogue. The clock is a parameter. *)

From stdpp Require Import base gmap sorting list strings numbers option.
From S2P Require Import Prelude Text Ordered Effects Ipp Snmp Administration Discovery BrotherMfp SnmpClient.

#[local] Open Scope list_scope.
#[local] Open Scope Z_scope.

Record QualifiedPrinter := {
  qp_printer_id : list Z;
  qp_endpoint : SocketAddr;
  qp_endpoint_generation : Z;
  qp_manufacturer : list Z;
  qp_model : list Z;
  qp_firmware : option (list Z);
  qp_qualification : DeviceQualification;
  qp_credentials : Credentials;
}.

Module PropertyValue.
Inductive t :=
| Integer (value : Z)
| Octets (value : list Z)
| Text (value : list Z)
| Ipv4 (value : list Z)
| ObjectIdentifier (value : list Z)
| Counter (value : Z)
| VendorRecord (value : list Z).
End PropertyValue.

Record PropertyObservation := {
  po_property : ObjectKey;
  po_value : PropertyValue.t;
  po_evidence : list Evidence;
}.

Module ReadPropertyError.
Inductive t := Unsupported | QualificationMismatch | Client (e : ClientError.t).
End ReadPropertyError.

(** [transport] is a unit struct. *)
Record PrinterClient := { pc_registry : ObjectRegistry; pc_limits : ClientLimits }.

Definition PrinterClient_new (registry : ObjectRegistry) (limits : ClientLimits) : PrinterClient :=
  {| pc_registry := registry; pc_limits := limits |}.

Definition brother_mfp (qualification : DeviceQualification) (limits : ClientLimits) : Result SnmpError.t PrinterClient :=
  let? registry := mfp_read_catalogue qualification in
  Ok (PrinterClient_new registry limits).

(** ** Qualification *)

(** ASCII letters and digits, in lower case. *)
Definition normalized (value : list Z) : list Z :=
  map to_ascii_lowercase (List.filter is_ascii_alphanumeric value).

Definition normalized_model (value : list Z) : list Z :=
  let value := normalized value in
  default value (strip_prefix value (str "brother")).

Definition firmware_matches (required actual : option (list Z)) : bool :=
  match required with
  | None => true
  | Some required => match actual with Some actual => bool_decide (actual = required) | None => false end
  end.

(** The qualification of the first definition in key order. *)
Definition check_qualification (client : PrinterClient) (printer : QualifiedPrinter) : Result ReadPropertyError.t unit :=
  let? selected := ok_or (head (btree_values (definitions (pc_registry client)))) ReadPropertyError.Unsupported in
  let qualification := d_qualification selected in
  let manufacturer_matches :=
    bool_decide (normalized (qp_manufacturer printer) = normalized (Snmp.manufacturer qualification)) in
  let model_matches :=
    existsb (fun model => bool_decide (normalized_model model = normalized_model (qp_model printer)))
      (models qualification) in
  let firmware_matches := firmware_matches (firmware qualification) (qp_firmware printer) in
  let binding_matches :=
    bool_decide (qualification_id (qp_qualification printer) = qualification_id qualification) in
  ensure (manufacturer_matches && model_matches && firmware_matches && binding_matches)
    ReadPropertyError.QualificationMismatch.

(** ** Values *)

Definition malformed_value : ReadPropertyError.t := ReadPropertyError.Client (ClientError.Protocol SnmpError.Malformed).

Definition convert_value (syntax : ObjectSyntax) (value : ObjectValue.t) : Result ReadPropertyError.t PropertyValue.t :=
  match syntax, value with
  | SyntaxInteger, ObjectValue.Integer value => Ok (PropertyValue.Integer value)
  | SyntaxOctets, ObjectValue.Bytes value => Ok (PropertyValue.Octets value)
  | SyntaxUtf8 trim_trailing_nul, ObjectValue.Bytes value =>
      let? value := ok_or (from_utf8 value) malformed_value in
      Ok (PropertyValue.Text (if trim_trailing_nul then trim_end_matches 0 value else value))
  | SyntaxIpv4, ObjectValue.IpAddress value => Ok (PropertyValue.Ipv4 value)
  | SyntaxObjectIdentifier, ObjectValue.ObjectIdValue value => Ok (PropertyValue.ObjectIdentifier (ObjectId_fmt value))
  | SyntaxCounter, (ObjectValue.Counter32 value | ObjectValue.Gauge32 value
                    | ObjectValue.Unsigned32 value | ObjectValue.TimeTicks value) => Ok (PropertyValue.Counter value)
  | SyntaxCounter, (ObjectValue.Counter64 value | ObjectValue.Counter value) => Ok (PropertyValue.Counter value)
  | SyntaxBrotherFirmwareRecord, ObjectValue.Bytes value =>
      let? value := ok_or (from_utf8 value) malformed_value in
      Ok (PropertyValue.VendorRecord (trim_end_where is_record_end value))
  | _, (ObjectValue.NoSuchObject | ObjectValue.NoSuchInstance | ObjectValue.EndOfMibView) =>
      Err ReadPropertyError.Unsupported
  | _, _ => Err malformed_value
  end.

(** ** Reading *)

Definition property_response_hash (response : ResponseEvidence) : list Z :=
  flat_map show_hex_02 (credential_elided_hash response).

(** The clock's text is an argument. *)
Definition property_evidence (printer : QualifiedPrinter) (oid : list Z) (response : ResponseEvidence)
    (observed_at : list Z) : Evidence := {|
  ev_source := SnmpObject oid;
  ev_kind := EvidenceKind.HardwareQualified (qualification_id (qp_qualification printer));
  ev_origin := {|
    o_agent_id := None;
    o_printer_id := qp_printer_id printer;
    o_endpoint := address (qp_endpoint printer);
    o_endpoint_generation := qp_endpoint_generation printer;
    o_transport := TransportSnmp;
    o_protocol := FamilySnmp;
    o_request_id := property_response_hash response;
    o_probe_id := None;
    o_observed_at := observed_at;
    o_qualification := Some {|
      qm_id := qualification_id (qp_qualification printer);
      qm_firmware := qp_firmware printer;
      qm_response_hash := Some (property_response_hash response) |} |};
|}.

Section Client.
Variable sha256 : list Z -> list Z.
Variable varbinds_json : list VarBind -> list Z.
(** [SystemTime::now()] in milliseconds, when the evidence for an object is
    written: once for every object of a call. *)
Variable observed_at : ObjectId -> list Z.
Context {W : Type} `{AsyncSnmp W}.

(** The errors of the transport, by [From]. *)
Definition from_client {A} (m : EM W ClientError.t A) : EM W ReadPropertyError.t A := fun w =>
  match m w with
  | (Ok a, w) => (Ok a, w)
  | (Err (Raised e), w) => (fail (ReadPropertyError.Client e), w)
  | (Err Panicked, w) => (Err Panicked, w)
  end.

Definition read_property (client : PrinterClient) (printer : QualifiedPrinter) (property : ObjectKey) :
    EM W ReadPropertyError.t PropertyObservation :=
  eresult (check_qualification client printer) ;!
  let! definition := eresult (ok_or (definition (pc_registry client) property) ReadPropertyError.Unsupported) in
  let! result :=
    from_client (get_many sha256 varbinds_json (qp_endpoint printer) (pc_registry client) (qp_credentials printer)
                   [d_oid definition] (pc_limits client)) in
  let! binding := eresult (ok_or (head (rr_varbinds result)) (ReadPropertyError.Client ClientError.Transport)) in
  let! value := eresult (convert_value (d_syntax definition) (value binding)) in
  eret {| po_property := property;
          po_value := value;
          po_evidence := [property_evidence printer (ObjectId_fmt (oid binding)) (rr_evidence result)
                            (observed_at (oid binding))] |}.

(** The identifiers of the firmware records of a catalogue, sorted. *)
Definition firmware_oids (registry : ObjectRegistry) : list ObjectId :=
  merge_sort lex_le
    (map d_oid (List.filter (fun d => starts_with (str "brother.firmware.record.") (d_key d))
                  (btree_values (definitions registry)))).

(** [expect]s of the inventory are panics. *)
Definition inventory_result {A} (r : Result (Fault SnmpError.t) A) : EM W ReadPropertyError.t A := fun w =>
  match r with Ok a => (Ok a, w) | Err _ => (Err Panicked, w) end.

Definition inspect_firmware (client : PrinterClient) (printer : QualifiedPrinter) :
    EM W ReadPropertyError.t FirmwareInventory :=
  eresult (check_qualification client printer) ;!
  let oids := firmware_oids (pc_registry client) in
  ecase (bool_decide (oids = [])) ReadPropertyError.Unsupported
  (let! result :=
     from_client (get_many sha256 varbinds_json (qp_endpoint printer) (pc_registry client) (qp_credentials printer)
                    oids (pc_limits client)) in
   inventory_result
     (parse_mfp_inventory
        (fun oid => [property_evidence printer (ObjectId_fmt oid) (rr_evidence result) (observed_at oid)])
        (rr_varbinds result))).
End Client.
