(* ===== verification/SnmpPropertiesFacts.v ===== *)
(** Theorems about qualified printers over SNMP (SnmpProperties.v): nothing is
    asked of a printer that does not match the qualification, what is asked is
    the named object alone, and the firmware inventory of a qualified printer
    is read from its records through the catalogue, the client and the
    parser. *)

From stdpp Require Import base gmap sorting list strings numbers option.
From S2P Require Import Prelude Text Ordered Effects Ipp Snmp Administration Discovery.
From S2P Require Import BrotherMfp BrotherMfpFacts SnmpClient SnmpClientFacts SnmpProperties.

#[local] Open Scope list_scope.
#[local] Open Scope Z_scope.

(** ** Qualification *)

(** A printer that matches a qualification. *)
Record qualified_for (q : DeviceQualification) (printer : QualifiedPrinter) : Prop := {
  same_manufacturer : normalized (qp_manufacturer printer) = normalized (Snmp.manufacturer q);
  same_model : exists model, model ∈ models q /\ normalized_model model = normalized_model (qp_model printer);
  same_firmware : forall required, firmware q = Some required -> qp_firmware printer = Some required;
  same_qualification : qualification_id (qp_qualification printer) = qualification_id q;
}.

Lemma check_qualification_spec client printer d :
  head (btree_values (definitions (pc_registry client))) = Some d ->
  check_qualification client printer = Ok tt <-> qualified_for (d_qualification d) printer.
Proof.
  intros Hd. unfold check_qualification. rewrite Hd. cbn [ok_or rbind]. rewrite ensure_Ok, !andb_true_iff, !bool_decide_eq_true, existsb_exists.
  assert (firmware_matches (firmware (d_qualification d)) (qp_firmware printer) = true <->
    forall required, firmware (d_qualification d) = Some required -> qp_firmware printer = Some required) as Hf.
  { unfold firmware_matches. destruct (firmware _) as [required|]; [|naive_solver].
    destruct (qp_firmware printer); [rewrite bool_decide_eq_true|]; naive_solver. }
  rewrite Hf. setoid_rewrite <- list_elem_of_In. setoid_rewrite bool_decide_eq_true. split.
  - intros [[[Hm Hmod] Hfw] Hq]. by split.
  - by intros [].
Qed.

(** ** One property *)

(** The kind of value that a syntax has. *)
Definition value_fits (syntax : ObjectSyntax) (value : PropertyValue.t) : Prop :=
  match syntax, value with
  | SyntaxInteger, PropertyValue.Integer _ | SyntaxOctets, PropertyValue.Octets _ | SyntaxUtf8 _, PropertyValue.Text _
  | SyntaxIpv4, PropertyValue.Ipv4 _ | SyntaxObjectIdentifier, PropertyValue.ObjectIdentifier _
  | SyntaxCounter, PropertyValue.Counter _ | SyntaxBrotherFirmwareRecord, PropertyValue.VendorRecord _ => True
  | _, _ => False
  end.

Lemma convert_value_fits syntax v w : convert_value syntax v = Ok w -> value_fits syntax w.
Proof.
  destruct syntax, v; cbn; try discriminate; try (by intros [= <-]); destruct (from_utf8 _); cbn; try discriminate; by intros [= <-].
Qed.

Section Recorded.
Context {W : Type} `{AsyncSnmp W}.
Variable sha256 : list Z -> list Z.
Variable varbinds_json : list VarBind -> list Z.
Variable observed_at : ObjectId -> list Z.

Lemma from_client_spec {A} (m : EM (W * Log) ClientError.t A) s Q (X : Fault ReadPropertyError.t -> W * Log -> Prop) :
  spec m s Q (fun f s => f <> Panicked /\ forall e, X (Raised e) s) -> spec (from_client m) s Q X.
Proof. unfold spec, from_client. destruct (m s) as [[a|[e|]] s']; [done|naive_solver|naive_solver]. Qed.

(** A property is read only from a printer that matches the qualification:
    otherwise, or for a name that is not in the catalogue, nothing is sent. At
    most one request is sent, for the object of the name alone; a success
    returns a value of the object's syntax with evidence that names the object
    and the qualification. *)
Theorem read_property_asks_only_its_object client printer property (w w' : W) log log' r :
  read_property sha256 varbinds_json observed_at client printer property (w, log) = (r, (w', log')) ->
  r <> Err Panicked /\
  (log' = log \/
   exists d request, definition (pc_registry client) property = Some d /\ log' = log ++ [request] /\
     check_qualification client printer = Ok tt /\
     read_request (qp_endpoint printer) (qp_credentials printer) (pc_limits client) [d_oid d] request) /\
  (forall observation, r = Ok observation ->
     exists d, definition (pc_registry client) property = Some d /\ po_property observation = property /\
       value_fits (d_syntax d) (po_value observation) /\ log' <> log /\
       exists response, po_evidence observation =
         [property_evidence printer (ObjectId_fmt (d_oid d)) response (observed_at (d_oid d))]).
Proof.
  intros Hrun. unfold read_property in Hrun. unfold ebind at 1, eresult at 1 in Hrun.
  destruct (check_qualification client printer) as [[]|e] eqn:Eq; cbn [raising map_err] in Hrun.
  2: { injection Hrun as <- _ <-. split_and!; [done|by left|done]. }
  unfold ebind at 1, eresult at 1 in Hrun.
  destruct (definition (pc_registry client) property) as [d|]; cbn [ok_or raising map_err] in Hrun.
  2: { injection Hrun as <- _ <-. split_and!; [done|by left|done]. }
  pose proof (get_many_spec sha256 varbinds_json (qp_endpoint printer) (pc_registry client) (qp_credentials printer)
                [d_oid d] (pc_limits client) w log) as Hspec. unfold spec in Hspec.
  unfold ebind at 1, from_client in Hrun. destruct (get_many _ _ _ _ _ _ _ _) as [[result|f] [w1 log1]]; cbn [snd] in Hspec.
  2: { destruct Hspec as [Hlog Hf]. destruct f as [e|]; [|done]. injection Hrun as <- _ <-. split_and!; [done| |done].
       destruct Hlog as [->|(request & -> & Hr & _)]; [by left|right; by exists d, request]. }
  destruct Hspec as (Hasked & Ho & _). pose proof Hasked as (request & El & Hr & _).
  assert (log1 <> log) as Hne by by intros ->; apply asked_once_longer in Hasked.
  unfold ebind, eresult in Hrun. destruct (rr_varbinds result) as [|binding [|]]; [done| |done]. injection Ho as Ho.
  cbn [head ok_or raising map_err] in Hrun.
  destruct (convert_value (d_syntax d) (value binding)) as [v|e] eqn:Ev; cbn [raising map_err] in Hrun;
    injection Hrun as <- _ <-; (split_and!; [done|right; by exists d, request|]); [|done].
  intros observation [= <-]. exists d.
  split_and!; [done..|by eapply convert_value_fits|done|]. exists (rr_evidence result). cbn. by rewrite Ho.
Qed.
End Recorded.

(** ** The firmware of a qualified printer *)

Definition firmware_objects : list ObjectId := map record_oid (seq 0 MAX_FIRMWARE_RECORDS).

Lemma catalogue_firmware q registry : mfp_read_catalogue q = Ok registry ->
  firmware_oids registry = firmware_objects /\
  exists d, head (btree_values (definitions registry)) = Some d /\ d_qualification d = q.
Proof.
  intros Hr.
  assert (match mfp_read_catalogue q with
          | Ok r => (firmware_oids r, d_qualification <$> head (btree_values (definitions r)))
          | Err _ => ([], None) end = (firmware_objects, Some q)) as H by (vm_compute; reflexivity).
  rewrite Hr in H. apply pair_equal_spec in H as [Hf Hh]. split; [exact Hf|].
  destruct (head _) as [d|]; [|discriminate Hh]. exists d. split; [reflexivity|]. exact (Some_inj _ _ Hh).
Qed.

Lemma catalogue_registers q registry : mfp_read_catalogue q = Ok registry ->
  Forall (fun o => is_Some (registry_get registry o)) firmware_objects.
Proof.
  intros Hr.
  assert (match mfp_read_catalogue q with
          | Ok r => forallb (fun o => bool_decide (is_Some (registry_get r o))) firmware_objects
          | Err _ => false end = true) as H by (vm_compute; reflexivity).
  rewrite Hr in H. rewrite forallb_forall in H. apply list.Forall_forall. intros o Ho.
  by apply list_elem_of_In, H, bool_decide_eq_true in Ho.
Qed.

Lemma firmware_askable q registry limits :
  mfp_read_catalogue q = Ok registry -> limits_refused limits = false -> 16 <= maximum_oids_per_request limits ->
  askable registry limits firmware_objects.
Proof.
  intros Hr Hl Hm. split; [done|done|by unfold zlen; cbn|by eapply catalogue_registers|].
  apply (bool_decide_unpack _). by vm_compute.
Qed.

(** What is small is within the default limits. *)
Lemma small_estimates limits l n :
  maximum_value_bytes (decode_limits limits) >= 1024 -> 0 <= n -> n + 1200 * zlen l <= usize_max ->
  Forall (fun b => zlen (oid b) <= 17 /\ value_bytes (value b) <= 1024) l ->
  exists m, for_each (estimate_binding limits) l n = Ok m /\ m <= n + 1200 * zlen l.
Proof.
  intros Hm. revert n. induction l as [|b l IH]; intros n H0 Hn Hl; cbn [for_each]; [exists n; split; [done|]; zlen_lia|].
  inversion_clear Hl as [|? ? [Ho Hv] Hl']. rewrite zlen_cons in *. pose proof (zlen_nonneg l). pose proof (zlen_nonneg (oid b)).
  assert (0 <= value_bytes (value b)) as Hv0.
  { destruct (value b); cbn; try apply zlen_nonneg; try lia. unfold saturate. lia. }
  assert (exists m, estimate_binding limits b n = Ok m /\ 0 <= m <= n + 1125) as (m & Hm' & Hle).
  { unfold estimate_binding. destruct (Z.ltb_spec (maximum_value_bytes (decode_limits limits)) (value_bytes (value b))); [lia|].
    eexists. split; [reflexivity|]. unfold saturate. lia. }
  rewrite Hm'. cbn [rbind]. destruct (IH m) as (m' & -> & Hle'); [lia..|done|]. exists m'. split; [done|]. lia.
Qed.

Section Firmware.
Variable sha256 : list Z -> list Z.
Variable varbinds_json : list VarBind -> list Z.
Variable observed_at : ObjectId -> list Z.
Variable mib : list WireVarBind.
#[local] Instance agent : AsyncSnmp unit := mib_agent mib.

(** What an agent of the family keeps: the records, and nothing under the
    identifiers after them. *)
Record keeps_records (rs : list (list Z * list Z)) : Prop := {
  keeps_ok : Forall record_ok rs;
  keeps_count : (length rs <= MAX_FIRMWARE_RECORDS)%nat;
  keeps_short : Forall (fun r => zlen (write_record r) <= 1024) rs;
  keeps_values : forall i r, rs !! i = Some r -> wire_value (instance mib (record_oid i)) = WireValue.OctetString (write_record r);
  keeps_nothing_else : forall i, (length rs <= i < MAX_FIRMWARE_RECORDS)%nat -> wire_value (instance mib (record_oid i)) = WireValue.NoSuchInstance;
}.

Definition absent_record (i : nat) : VarBind := {| oid := record_oid i; value := ObjectValue.NoSuchInstance |}.

Definition record_bindings (rs : list (list Z * list Z)) : list VarBind :=
  imap record_binding rs ++ map absent_record (seq (length rs) (MAX_FIRMWARE_RECORDS - length rs)).

Lemma from_wire_instance o :
  from_wire_varbind (instance mib o) =
  (let? v := from_wire_value (wire_value (instance mib o)) in Ok {| oid := o; value := v |}).
Proof. unfold from_wire_varbind. by rewrite instance_oid. Qed.

Lemma collect_map {A B C E} (f : B -> Result E C) (g : A -> B) (h : A -> C) l :
  (forall a, a ∈ l -> f (g a) = Ok (h a)) -> collect f (map g l) = Ok (map h l).
Proof.
  induction l as [|a l IH]; intros Hf; [done|]. cbn. rewrite Hf by left. cbn. rewrite IH; [done|]. intros b Hb. apply Hf. by right.
Qed.

Lemma record_bindings_read rs :
  keeps_records rs -> collect from_wire_varbind (map (instance mib) firmware_objects) = Ok (record_bindings rs).
Proof.
  intros [_ Hc _ Hv Hn]. unfold firmware_objects. rewrite map_map.
  rewrite (collect_map _ _ (fun i => match rs !! i with Some r => record_binding i r | None => absent_record i end)).
  - f_equal. unfold record_bindings. replace MAX_FIRMWARE_RECORDS with (length rs + (MAX_FIRMWARE_RECORDS - length rs))%nat at 1 by lia.
    rewrite seq_app, map_app. f_equal.
    + apply list_eq. intros i. rewrite list_lookup_fmap, list_lookup_imap.
      destruct (rs !! i) as [r|] eqn:Er.
      * rewrite lookup_seq_lt by by eapply lookup_lt_Some. cbn. by rewrite Er.
      * by rewrite lookup_seq_ge by by apply lookup_ge_None.
    + apply map_ext_in. intros i Hi%in_seq. by rewrite lookup_ge_None_2 by lia.
  - intros i Hi. rewrite from_wire_instance. destruct (rs !! i) as [r|] eqn:Er.
    + by rewrite (Hv i r Er).
    + apply lookup_ge_None in Er. apply elem_of_seq in Hi. by rewrite (Hn i) by lia.
Qed.

Lemma record_bindings_small rs : keeps_records rs -> enforce_decoded_limits (record_bindings rs) ClientLimits_default = Ok tt.
Proof.
  intros [_ Hc Hs _ _].
  assert (length (record_bindings rs) = MAX_FIRMWARE_RECORDS) as Hlen.
  { unfold record_bindings. rewrite length_app, length_imap, length_map, length_seq. lia. }
  unfold enforce_decoded_limits, zlen. rewrite Hlen. cbn [maximum_varbinds decode_limits ClientLimits_default DecodeLimits_default].
  change (64 <? Z.of_nat MAX_FIRMWARE_RECORDS) with false. cbn match.
  destruct (small_estimates ClientLimits_default (record_bindings rs) 64) as (m & -> & Hm).
  - by vm_compute.
  - lia.
  - unfold zlen. rewrite Hlen. by vm_compute.
  - unfold record_bindings. apply Forall_app. split.
    + apply list.Forall_forall. intros b Hb. apply elem_of_lookup_imap in Hb as (i & r & -> & Hr).
      rewrite list.Forall_forall in Hs. split; [by cbn|]. apply Hs. by eapply list_elem_of_lookup_2.
    + apply list.Forall_forall. intros b Hb. apply list_elem_of_In, in_map_iff in Hb as (i & <- & _). by split.
  - unfold zlen in Hm. rewrite Hlen in Hm. cbn [cl_maximum_response_bytes ClientLimits_default rbind].
    unfold MAX_FIRMWARE_RECORDS in Hm. destruct (Z.ltb_spec 65507 m); [lia|done].
Qed.

(** Inspecting a qualified printer with the built-in catalogue and the
    default limits returns the inventory that its firmware records spell: the
    components in order, with the evidence that names the object of each
    record, the printer and the qualification. *)
Theorem inspect_firmware_reads_records q printer rs :
  qualified_for q printer -> keeps_records rs ->
  exists client response,
    brother_mfp q ClientLimits_default = Ok client /\
    inspect_firmware sha256 varbinds_json observed_at client printer tt =
      (Ok (inventory_of (fun o => [property_evidence printer (ObjectId_fmt o) response (observed_at o)]) rs), tt).
Proof.
  intros Hq Hk. destruct (catalogue_built q) as (registry & Hr & _).
  pose (response := structured_evidence sha256 varbinds_json (record_bindings rs) []).
  exists (PrinterClient_new registry ClientLimits_default), response.
  destruct (catalogue_firmware q registry Hr) as (Ho & d & Hd & Hdq).
  split; [unfold brother_mfp; by rewrite Hr|].
  unfold inspect_firmware. rewrite (proj2 (check_qualification_spec (PrinterClient_new registry _) _ _ Hd)) by by rewrite Hdq.
  cbn [pc_registry pc_limits PrinterClient_new]. rewrite Ho, run_result.
  unfold ecase. rewrite bool_decide_false by done. unfold ebind, from_client.
  rewrite (get_many_mib mib sha256 varbinds_json _ _ _ _ _ (record_bindings rs));
    [|by eapply firmware_askable|by apply record_bindings_read|by apply record_bindings_small].
  unfold inventory_result. cbn [rr_varbinds rr_evidence]. fold response. unfold record_bindings.
  rewrite inventory_read_back; [done|apply Hk..|].
  right. destruct (MAX_FIRMWARE_RECORDS - length rs)%nat; [constructor|]. apply end_of_records. by right; left.
Qed.
End Firmware.

(** ** Examples *)

Definition example_qualification : DeviceQualification := {|
  Snmp.manufacturer := str "Brother"; models := [str "HL-L2375DW"]; firmware := None; qualification_id := str "q1" |}.

Definition example_printer : QualifiedPrinter := {|
  qp_printer_id := str "p"; qp_endpoint := example_endpoint; qp_endpoint_generation := 1;
  qp_manufacturer := str "BROTHER"; qp_model := str "Brother HL-L2375DW"; qp_firmware := None;
  qp_qualification := example_qualification; qp_credentials := V2c example_community |}.

Definition example_serial : WireVarBind :=
  {| wire_oid := [1; 3; 6; 1; 2; 1; 43; 5; 1; 1; 17; 1]; wire_value := WireValue.OctetString (str "A1" ++ [0]) |}.

Definition example_agent : list WireVarBind :=
  example_serial :: imap (fun i r => {| wire_oid := record_oid i; wire_value := WireValue.OctetString (write_record r) |}) example_records.

Lemma example_printer_qualified : qualified_for example_qualification example_printer.
Proof.
  split; [by vm_compute| |done|done]. exists (str "HL-L2375DW"). split; [left|by vm_compute].
Qed.

Lemma inspect_firmware_reads_records_witness :
  exists client response,
    brother_mfp example_qualification ClientLimits_default = Ok client /\
    @inspect_firmware (fun b => b) (fun _ => []) (fun _ => []) unit (mib_agent example_agent) client example_printer tt =
      (Ok (inventory_of (fun o => [property_evidence example_printer (ObjectId_fmt o) response []]) example_records), tt).
Proof.
  apply (inspect_firmware_reads_records (fun b => b) (fun _ => []) (fun _ => []) example_agent
           example_qualification example_printer example_records).
  - apply example_printer_qualified.
  - split.
    + unfold example_records. cbn [map].
      repeat (apply List.Forall_cons; [by apply record_ok_by_test; vm_compute|]). constructor.
    + by apply (bool_decide_unpack _); vm_compute.
    + repeat (apply List.Forall_cons; [by vm_compute|]). constructor.
    + intros i r Hi. do 7 (destruct i as [|i]; [injection Hi as <-; vm_compute; reflexivity|]). discriminate Hi.
    + unfold MAX_FIRMWARE_RECORDS. intros i Hi. cbn [length example_records map] in Hi.
      do 7 (destruct i as [|i]; [lia|]). do 9 (destruct i as [|i]; [vm_compute; reflexivity|]). lia.
Defined.

Definition example_read (client : PrinterClient) : Result (Fault ReadPropertyError.t) PropertyObservation * (unit * Log) :=
  @read_property (fun b => b) (fun _ => []) (fun _ => []) _ (@Recorded unit (mib_agent example_agent)) client example_printer
    (str "printer.serial-number") (tt, []).

Lemma read_property_asks_only_its_object_witness :
  exists client r w' log',
    brother_mfp example_qualification ClientLimits_default = Ok client /\ example_read client = (r, (w', log')) /\
    po_value <$> result_ok r = Some (PropertyValue.Text (str "A1")) /\ r <> Err Panicked /\ length log' = 1%nat.
Proof.
  assert (match brother_mfp example_qualification ClientLimits_default with
          | Ok client => let '(r, (w', log')) := example_read client in (po_value <$> result_ok r, length log')
          | Err _ => (None, O) end = (Some (PropertyValue.Text (str "A1")), 1%nat)) as H by (vm_compute; reflexivity).
  destruct (brother_mfp example_qualification ClientLimits_default) as [client|]; [|discriminate H].
  destruct (example_read client) as [r [w' log']] eqn:E. exists client, r, w', log'.
  pose proof E as Hp. apply read_property_asks_only_its_object in Hp as (Hp & _).
  apply pair_equal_spec in H as [Hv Hl]. split_and!; [reflexivity|exact E|exact Hv|exact Hp|exact Hl].
Defined.
