(* ===== verification/IppClient.v ===== *)
(** The IPP client (crates/mb-printer-native/src/transports/ipp.rs): bounded
    requests over HTTP or IPP-over-USB, the planning and the single application
    of a confirmed change, and discovery by several queries whose snapshots are
    merged. The reqwest crate with tokio's timers is the type class [IppHttp],
    the USB backend of the caller [AsyncIppOverUsbBackend]; their answers,
    whatever they are, come from a world [W]. SHA-256 and the JSON serializer
    are parameters. *)

From stdpp Require Import base gmap sets list strings numbers option.
From S2P Require Import Prelude Text Effects Ipp Administration Discovery.

#[local] Open Scope list_scope.
#[local] Open Scope Z_scope.

(** ** Endpoints, limits and errors *)

Module IppClientError.
Inductive t :=
| InvalidEndpoint | InvalidLimits | Encode (e : EncodeError.t) | Transport | Timeout
| HttpStatus (status : Z) | ResponseTooLarge (limit : Z) | Decode (e : DecodeError.t)
| RequestIdMismatch (expected actual : Z).
End IppClientError.

Inductive IppScheme := SchemeIpp | SchemeIpps.

Definition scheme_str (scheme : IppScheme) : list Z :=
  match scheme with SchemeIpp => str "ipp" | SchemeIpps => str "ipps" end.

Definition http_scheme (scheme : IppScheme) : list Z :=
  match scheme with SchemeIpp => str "http" | SchemeIpps => str "https" end.

Record IppEndpoint := {
  ie_scheme : IppScheme;
  ie_host : list Z;
  ie_port : Z;
  ie_resource : list Z;
}.

Definition endpoint_ipp (host : list Z) (port : Z) (resource : list Z) : IppEndpoint :=
  {| ie_scheme := SchemeIpp; ie_host := host; ie_port := port; ie_resource := resource |}.

Definition endpoint_ipps (host : list Z) (port : Z) (resource : list Z) : IppEndpoint :=
  {| ie_scheme := SchemeIpps; ie_host := host; ie_port := port; ie_resource := resource |}.

(** [str::contains] with an array of characters. *)
Definition contains_any (chars s : list Z) : bool := existsb (fun b => bool_decide (b ∈ chars)) s.

Definition endpoint_validate (endpoint : IppEndpoint) : Result IppClientError.t unit :=
  if bool_decide (ie_host endpoint = [])
     || contains_any [13; 10; 47; 64] (ie_host endpoint)
     || (ie_port endpoint =? 0)
     || negb (starts_with (str "/") (ie_resource endpoint))
     || contains_any [13; 10] (ie_resource endpoint)
  then Err IppClientError.InvalidEndpoint
  else Ok tt.

Definition bracket_ipv6 (host : list Z) : list Z :=
  if contains_any [58] host && negb (starts_with (str "[") host && ends_with (str "]") host)
  then str "[" ++ host ++ str "]"
  else host.

(** The [format!] of the two addresses. *)
Definition format_address (scheme : list Z) (endpoint : IppEndpoint) : list Z :=
  scheme ++ str "://" ++ bracket_ipv6 (ie_host endpoint) ++ str ":" ++ show_dec (ie_port endpoint) ++ ie_resource endpoint.

Definition printer_uri (endpoint : IppEndpoint) : Result IppClientError.t (list Z) :=
  let? _ := endpoint_validate endpoint in
  Ok (format_address (scheme_str (ie_scheme endpoint)) endpoint).

(** Durations are in nanoseconds. *)
Record InspectLimits := {
  il_timeout : Z;
  maximum_response_bytes : Z;
  codec : Limits;
}.

Definition InspectLimits_default : InspectLimits := {|
  il_timeout := 10 * 1000000000;
  maximum_response_bytes := max_message_bytes Limits_default;
  codec := Limits_default;
|}.

Definition InspectLimits_validate (l : InspectLimits) : Result IppClientError.t InspectLimits :=
  if (il_timeout l =? 0)
     || (maximum_response_bytes l <? 8)
     || (max_message_bytes (codec l) <? maximum_response_bytes l)
  then Err IppClientError.InvalidLimits
  else Ok l.

(** ** What the HTTP client offers *)

Record HttpRequest := {
  http_url_of : list Z;
  header_content_type : list Z;
  header_accept : list Z;
  http_body : list Z;
}.

(** What the stream of a body yields: a chunk, an error, or nothing in time.
    The stream is over at the end of the list; a stream of empty chunks that
    never ends is not considered. *)
Inductive BodyItem := Chunk (bytes : list Z) | BodyFailed | BodyElapsed.

Record HttpResponse := {
  status : Z;
  content_length : option Z;
  bytes_stream : list BodyItem;
}.

Inductive HttpAnswer := SendElapsed | SendFailed | Responded (response : HttpResponse).

(** [post] sends a request under [tokio::time::timeout]; the same timeout
    guards every chunk of the response. [parse_url] is [reqwest::Url::parse],
    [is_success] is [StatusCode::is_success]. *)
Class IppHttp (W : Type) := {
  parse_url : list Z -> option (list Z);
  is_success : Z -> bool;
  post : HttpRequest -> Z -> W -> HttpAnswer * W;
}.

(** The loop over the chunks of a response. *)
Fixpoint read_body (limit : Z) (stream : list BodyItem) (bytes : list Z) : Result IppClientError.t (list Z) :=
  match stream with
  | [] => Ok bytes
  | BodyElapsed :: _ => Err IppClientError.Timeout
  | BodyFailed :: _ => Err IppClientError.Transport
  | Chunk chunk :: stream =>
      let new_length := saturate usize_max (zlen bytes + zlen chunk) in
      if limit <? new_length then Err (IppClientError.ResponseTooLarge limit)
      else read_body limit stream (bytes ++ chunk)
  end.

(** ** IPP over USB *)

Module IppOverUsbError.
Inductive t :=
| InvalidLimits | Encode (e : EncodeError.t) | Timeout | Transport (message : list Z)
| ResponseTooLarge (limit : Z) | Decode (e : DecodeError.t) | RequestIdMismatch (expected actual : Z).
End IppOverUsbError.

Inductive UsbAnswer := UsbElapsed | UsbFailed (message : list Z) | UsbReplied (bytes : list Z).

(** The trait [AsyncIppOverUsbBackend], under [tokio::time::timeout]. *)
Class AsyncIppOverUsbBackend (W : Type) := {
  transact : list Z -> Z -> Z -> W -> UsbAnswer * W;
}.

Section Usb.
Context {W : Type} `{AsyncIppOverUsbBackend W}.

Definition do_transact (encoded : list Z) (maximum_response_bytes timeout : Z) :
    EM W IppOverUsbError.t (list Z) := fun w =>
  match transact encoded maximum_response_bytes timeout w with
  | (UsbElapsed, w) => (fail IppOverUsbError.Timeout, w)
  | (UsbFailed message, w) => (fail (IppOverUsbError.Transport message), w)
  | (UsbReplied bytes, w) => (Ok bytes, w)
  end.

Definition usb_inspect (request : Message) (limits : InspectLimits) : EM W IppOverUsbError.t Message :=
  let! limits := eresult (map_err (fun _ => IppOverUsbError.InvalidLimits) (InspectLimits_validate limits)) in
  let expected_request_id := request_id request in
  let! encoded := efault IppOverUsbError.Encode (encode request (codec limits)) in
  let! bytes := do_transact encoded (maximum_response_bytes limits) (il_timeout limits) in
  ecase (maximum_response_bytes limits <? zlen bytes)
    (IppOverUsbError.ResponseTooLarge (maximum_response_bytes limits))
  (let! response := efault IppOverUsbError.Decode (decode bytes (codec limits)) in
   ecase (negb (request_id response =? expected_request_id))
     (IppOverUsbError.RequestIdMismatch expected_request_id (request_id response))
     (eret response)).
End Usb.

(** ** Changes: outcomes and errors *)

Module ApplyChangeOutcome.
Inductive t :=
| Verified (write_response observation : Message)
| Rejected (write_response : Message)
| ReadBackMismatch (write_response observation : Message)
| Ambiguous (stage : string) (error : IppClientError.t).
End ApplyChangeOutcome.

Module ApplyChangeError.
Inductive t :=
| PreWriteRead (e : IppClientError.t)
| InvalidPlan (e : ChangePlanError.t)
| SupportedValues (e : SupportedValuesError)
| SupportedValuesRequest (e : SupportedValuesRequestError)
| Endpoint (e : IppClientError.t).
End ApplyChangeError.

Module PlanChangeError.
Inductive t :=
| Endpoint (e : IppClientError.t)
| Read (e : IppClientError.t)
| SupportedValues (e : SupportedValuesError)
| SupportedValuesRequest (e : SupportedValuesRequestError)
| InvalidPlan (e : ChangePlanError.t).
End PlanChangeError.

Record DiscoveryOptions := {
  maximum_formats : Z;
  maximum_focused_queries : Z;
  inspect_limits : InspectLimits;
}.

Definition DiscoveryOptions_default : DiscoveryOptions := {|
  maximum_formats := 16;
  maximum_focused_queries := 8;
  inspect_limits := InspectLimits_default;
|}.

Record IppDiscoveryResult := {
  base_response : Message;
  focused_responses : list Message;
  format_responses : gmap (list Z) Message;
  snapshot : DeviceSnapshot;
  focused_queries_truncated : bool;
  formats_truncated : bool;
}.

(** The attributes that planning and applying a change read. *)
Definition requested_for (setting : list Z) : list (list Z) :=
  [setting; str "operations-supported"; str "printer-settable-attributes-supported"]
  ++ match strip_suffix setting (str "-default") with
     | Some base => [base ++ str "-supported"]
     | None => []
     end.

(** ** Queries and merging of discovery *)

Definition text_attribute_values (message : Message) (name : list Z) : list (list Z) :=
  filter_map value_text
    (flat_map a_values (List.filter (named name) (all_attributes message))).

Definition has_format_varying_attributes (message : Message) : bool :=
  existsb (fun value => negb (bool_decide (value = [])) && negb (bool_decide (value = str "none")))
    (text_attribute_values message (str "document-format-varying-attributes")).

Definition STATE : list (list Z) := map str ["printer-state"; "printer-state-reasons"; "printer-alert"]%string.
Definition SUPPLIES : list (list Z) :=
  map str ["marker-names"; "marker-types"; "marker-colors"; "marker-levels"; "marker-high-levels";
           "marker-low-levels"]%string.
Definition MEDIA_READY : list (list Z) := map str ["media-ready"; "media-col-ready"]%string.
Definition SECURITY : list (list Z) :=
  map str ["uri-authentication-supported"; "uri-security-supported"; "ipp-features-supported"]%string.

Definition present (message : Message) (name : list Z) : bool :=
  bool_decide (is_Some (find_attribute message name)).

Definition focused_query_sets (message : Message) : list (list (list Z)) :=
  let advertised : gset (list Z) :=
    list_to_set (text_attribute_values message (str "requested-attributes-supported")) in
  List.filter (fun group =>
    let indicated := existsb (fun name => bool_decide (name ∈ advertised) || present message name) group in
    indicated && existsb (fun name => negb (present message name)) group)
    [STATE; SUPPLIES; MEDIA_READY; SECURITY].

Section MergeUnique.
Context {T K : Type} `{EqDecision K}.
Variable key : T -> K.

Definition merge_unique_by (target supplemental : list T) : list T :=
  foldl (fun target value =>
    let value_key := key value in
    if existsb (fun existing => bool_decide (key existing = value_key)) target then target
    else target ++ [value]) target supplemental.
End MergeUnique.

(** [if target.is_none() { target = supplemental }]. *)
Definition or_supplement {A} (target supplemental : option A) : option A :=
  match target with None => supplemental | Some _ => target end.

Definition merge_identity (target supplemental : PrinterIdentity) : PrinterIdentity := {|
  identity_id := identity_id target;
  uuid := or_supplement (uuid target) (uuid supplemental);
  serial_number := or_supplement (serial_number target) (serial_number supplemental);
  device_id := or_supplement (device_id target) (device_id supplemental);
  manufacturer := or_supplement (manufacturer target) (manufacturer supplemental);
  model := or_supplement (model target) (model supplemental);
|}.

Definition merge_state (target supplemental : DeviceState) : DeviceState := {|
  state := or_supplement (state target) (state supplemental);
  reasons := foldl (fun reasons reason => if bool_decide (reason ∈ reasons) then reasons else reasons ++ [reason])
               (reasons target) (reasons supplemental);
|}.

Definition merge_supplemental_snapshot (target supplemental : DeviceSnapshot) : DeviceSnapshot := {|
  identity := merge_identity (identity target) (identity supplemental);
  device_state := merge_state (device_state target) (device_state supplemental);
  supplies := merge_unique_by supply_id (supplies target) (supplies supplemental);
  job_capabilities :=
    merge_unique_by (fun value => (capability_id value, format_scope value))
      (job_capabilities target) (job_capabilities supplemental);
  device_settings := merge_unique_by setting_id (device_settings target) (device_settings supplemental);
  mutation_support := merge_unique_by mutation_setting (mutation_support target) (mutation_support supplemental);
  operations := merge_unique_by operation (operations target) (operations supplemental);
  observations := observations target ++ observations supplemental;
|}.

(** What a query for one document format adds. *)
Definition extend_snapshot (target normalized : DeviceSnapshot) : DeviceSnapshot := {|
  identity := identity target; device_state := device_state target; supplies := supplies target;
  job_capabilities := job_capabilities target ++ job_capabilities normalized;
  device_settings := device_settings target; mutation_support := mutation_support target;
  operations := operations target;
  observations := observations target ++ observations normalized;
|}.

Definition with_request_id (origin : ObservationOrigin) (id : list Z) : ObservationOrigin := {|
  o_agent_id := o_agent_id origin; o_printer_id := o_printer_id origin; o_endpoint := o_endpoint origin;
  o_endpoint_generation := o_endpoint_generation origin; o_transport := o_transport origin;
  o_protocol := o_protocol origin; o_request_id := id; o_probe_id := o_probe_id origin;
  o_observed_at := o_observed_at origin; o_qualification := o_qualification origin;
|}.

Definition fnv_step (hash byte : Z) : Z := Z.lxor hash byte * 16777619 mod 2 ^ 32.

Definition request_number (seed : list Z) (offset : Z) : Z :=
  (foldl fnv_step 2166136261 seed + offset) mod 2 ^ 32.

(** ** The client *)

Section Client.
Variable sha256 : list Z -> list Z.
(** [serde_json::to_vec] of a value. *)
Variable value_json : ValueData -> list Z.
Context {W : Type} `{IppHttp W}.

Definition http_url (endpoint : IppEndpoint) : Result IppClientError.t (list Z) :=
  let? _ := endpoint_validate endpoint in
  ok_or (parse_url (format_address (http_scheme (ie_scheme endpoint)) endpoint)) IppClientError.InvalidEndpoint.

Definition do_post (request : HttpRequest) (timeout : Z) : EM W IppClientError.t HttpResponse := fun w =>
  match post request timeout w with
  | (SendElapsed, w) => (fail IppClientError.Timeout, w)
  | (SendFailed, w) => (fail IppClientError.Transport, w)
  | (Responded response, w) => (Ok response, w)
  end.

Definition ipp_post (url body : list Z) : HttpRequest := {|
  http_url_of := url;
  header_content_type := str "application/ipp";
  header_accept := str "application/ipp";
  http_body := body;
|}.

Definition inspect (endpoint : IppEndpoint) (request : Message) (limits : InspectLimits) :
    EM W IppClientError.t Message :=
  let! limits := eresult (InspectLimits_validate limits) in
  let! url := eresult (http_url endpoint) in
  let expected_request_id := request_id request in
  let! body := efault IppClientError.Encode (encode request (codec limits)) in
  let! response := do_post (ipp_post url body) (il_timeout limits) in
  ecase (negb (is_success (status response))) (IppClientError.HttpStatus (status response))
  (ecase (match content_length response with
          | Some length => maximum_response_bytes limits <? length
          | None => false
          end) (IppClientError.ResponseTooLarge (maximum_response_bytes limits))
  (let! bytes := eresult (read_body (maximum_response_bytes limits) (bytes_stream response) []) in
   let! response := efault IppClientError.Decode (decode bytes (codec limits)) in
   ecase (negb (request_id response =? expected_request_id))
     (IppClientError.RequestIdMismatch expected_request_id (request_id response))
     (eret response))).

(** *** Changes *)

(** The read of Get-Printer-Supported-Values for a settable "-supported"
    attribute, before planning with request number 2, before applying with 3. *)
Definition read_supported {E} (request_error : SupportedValuesRequestError -> E) (read_error : IppClientError.t -> E)
    (parse_error : SupportedValuesError -> E) (endpoint : IppEndpoint) (uri setting : list Z) (number : Z)
    (limits : InspectLimits) : EM W E (option SupportedPrinterValues) :=
  if ends_with (str "-supported") setting then
    let! request := eresult (map_err request_error (get_printer_supported_values_request uri [setting] number)) in
    let! response := emap_err read_error (inspect endpoint request limits) in
    let! supported := eresult (map_err parse_error (parse_get_printer_supported_values response)) in
    eret (Some supported)
  else eret None.

Definition plan_change (endpoint : IppEndpoint) (request : PlanChangeRequest) (limits : InspectLimits) :
    EM W PlanChangeError.t ConfirmedChangePlan :=
  let! uri := eresult (map_err PlanChangeError.Endpoint (printer_uri endpoint)) in
  let requested := requested_for (req_setting request) in
  let read := get_printer_attributes_request uri requested None 1 in
  let! observation := emap_err PlanChangeError.Read (inspect endpoint read limits) in
  let! supported :=
    read_supported PlanChangeError.SupportedValuesRequest PlanChangeError.Read PlanChangeError.SupportedValues
      endpoint uri (req_setting request) 2 limits in
  eresult (map_err PlanChangeError.InvalidPlan
    (plan_ipp_change_with_supported_values sha256 value_json observation supported request)).

(** From the write on: what can no longer be taken back. *)
Definition write_and_verify (endpoint : IppEndpoint) (plan : ConfirmedChangePlan) (uri : list Z)
    (read_request : Message) (limits : InspectLimits) : EM W ApplyChangeError.t ApplyChangeOutcome.t :=
  let write_request := set_printer_attributes_request uri (plan_setting plan) (requested_protocol_value plan) 2 in
  let! written := etry (inspect endpoint write_request limits) in
  match written with
  | Err error => eret (ApplyChangeOutcome.Ambiguous "write" error)
  | Ok write_response =>
      if 0x0100 <=? code write_response then eret (ApplyChangeOutcome.Rejected write_response)
      else
        let! read := etry (inspect endpoint read_request limits) in
        match read with
        | Err error => eret (ApplyChangeOutcome.Ambiguous "verification-read" error)
        | Ok observation =>
            if ipp_change_is_applied plan observation
            then eret (ApplyChangeOutcome.Verified write_response observation)
            else eret (ApplyChangeOutcome.ReadBackMismatch write_response observation)
        end
  end.

Definition apply_confirmed_change (endpoint : IppEndpoint) (plan : ConfirmedChangePlan) (binding : ChangeBinding)
    (limits : InspectLimits) : EM W ApplyChangeError.t ApplyChangeOutcome.t :=
  let! uri := eresult (map_err ApplyChangeError.Endpoint (printer_uri endpoint)) in
  let requested := requested_for (plan_setting plan) in
  let read_request := get_printer_attributes_request uri requested None 1 in
  let! supported :=
    read_supported ApplyChangeError.SupportedValuesRequest ApplyChangeError.PreWriteRead
      ApplyChangeError.SupportedValues endpoint uri (plan_setting plan) 3 limits in
  let! immediately_current := emap_err ApplyChangeError.PreWriteRead (inspect endpoint read_request limits) in
  eresult (map_err ApplyChangeError.InvalidPlan
    (validate_confirmed_ipp_change_with_supported_values sha256 value_json plan immediately_current supported binding)) ;!
  write_and_verify endpoint plan uri read_request limits.

(** *** Discovery *)

(** [index as u32 + 2]. *)
Definition focused_number (origin : ObservationOrigin) (index : nat) : Z :=
  request_number (o_request_id origin) ((Z.of_nat index mod 2 ^ 32 + 2) mod 2 ^ 32).

(** [index as u32 + maximum_focused_queries as u32 + 2]. *)
Definition format_number (origin : ObservationOrigin) (options : DiscoveryOptions) (index : nat) : Z :=
  request_number (o_request_id origin)
    ((Z.of_nat index mod 2 ^ 32 + maximum_focused_queries options mod 2 ^ 32 + 2) mod 2 ^ 32).

Definition focused_origin (origin : ObservationOrigin) (index : nat) : ObservationOrigin :=
  with_request_id origin (o_request_id origin ++ str ":focused:" ++ show_dec (Z.of_nat index + 1)).

Definition format_origin (origin : ObservationOrigin) (format : list Z) : ObservationOrigin :=
  with_request_id origin (o_request_id origin ++ str ":format:" ++ format).

Fixpoint focused_loop (endpoint : IppEndpoint) (uri : list Z) (origin : ObservationOrigin) (limits : InspectLimits)
    (index : nat) (queries : list (list (list Z))) (snapshot : DeviceSnapshot) (responses : list Message) :
    EM W IppClientError.t (DeviceSnapshot * list Message) :=
  match queries with
  | [] => eret (snapshot, responses)
  | attributes :: queries =>
      let request := get_printer_attributes_request uri attributes None (focused_number origin index) in
      let! response := inspect endpoint request limits in
      let normalized := normalize_ipp (focused_origin origin index) response None in
      focused_loop endpoint uri origin limits (S index) queries
        (merge_supplemental_snapshot snapshot normalized) (responses ++ [response])
  end.

Fixpoint format_loop (endpoint : IppEndpoint) (uri : list Z) (origin : ObservationOrigin) (options : DiscoveryOptions)
    (index : nat) (formats : list (list Z)) (snapshot : DeviceSnapshot) (responses : gmap (list Z) Message) :
    EM W IppClientError.t (DeviceSnapshot * gmap (list Z) Message) :=
  match formats with
  | [] => eret (snapshot, responses)
  | format :: formats =>
      let request :=
        get_printer_attributes_request uri [str "all"] (Some format) (format_number origin options index) in
      let! response := inspect endpoint request (inspect_limits options) in
      let normalized := normalize_ipp (format_origin origin format) response (Some format) in
      format_loop endpoint uri origin options (S index) formats
        (extend_snapshot snapshot normalized) (<[format := response]> responses)
  end.

Definition discovery_formats (base_response : Message) : list (list Z) :=
  if has_format_varying_attributes base_response
  then text_attribute_values base_response (str "document-format-supported")
  else [].

Definition discover (endpoint : IppEndpoint) (origin : ObservationOrigin) (options : DiscoveryOptions) :
    EM W IppClientError.t IppDiscoveryResult :=
  ecase ((maximum_formats options =? 0) || (maximum_focused_queries options =? 0)) IppClientError.InvalidLimits
  (let! uri := eresult (printer_uri endpoint) in
   let base_request :=
     get_printer_attributes_request uri [str "all"] None (request_number (o_request_id origin) 1) in
   let! base_response := inspect endpoint base_request (inspect_limits options) in
   let base_snapshot := normalize_ipp origin base_response None in
   let focused_queries := focused_query_sets base_response in
   let! focused :=
     focused_loop endpoint uri origin (inspect_limits options) 0
       (take (Z.to_nat (maximum_focused_queries options)) focused_queries) base_snapshot [] in
   let formats := discovery_formats base_response in
   let! formatted :=
     format_loop endpoint uri origin options 0
       (take (Z.to_nat (maximum_formats options)) formats) focused.1 ∅ in
   eret {| base_response := base_response;
           focused_responses := focused.2;
           format_responses := formatted.2;
           snapshot := formatted.1;
           focused_queries_truncated := maximum_focused_queries options <? zlen focused_queries;
           formats_truncated := maximum_formats options <? zlen formats |}).
End Client.
