(* ===== verification/IppClientFacts.v ===== *)
(** Theorems about the IPP client (IppClient.v): which responses it accepts,
    what it sends to a printer, whatever the printer and the network answer,
    and that a confirmed change is written once, after the validation of what
    was just read, and verified. *)

From stdpp Require Import base gmap sets list strings numbers option.
From S2P Require Import Prelude Text Effects Ipp IppFacts Administration AdministrationFacts Discovery IppClient.

#[local] Open Scope list_scope.
#[local] Open Scope Z_scope.

(** ** Bounded responses *)

(** The chunks of a stream, as far as it has nothing else. *)
Lemma read_body_Ok limit stream bytes result :
  0 <= limit < usize_max -> zlen bytes <= limit ->
  read_body limit stream bytes = Ok result <->
  exists chunks, stream = map Chunk chunks /\ result = bytes ++ concat chunks /\ zlen result <= limit.
Proof.
  intros Hl. revert bytes. induction stream as [|item stream IH]; intros bytes Hb; cbn [read_body].
  { split.
    - intros [= <-]. exists []. by rewrite app_nil_r.
    - intros ([|] & E & -> & _); [|done]. by rewrite app_nil_r. }
  destruct item as [chunk| |]; cycle 1.
  1,2: split; [done|]; intros ([|] & E & _); done.
  pose proof (zlen_nonneg bytes). pose proof (zlen_nonneg chunk).
  assert ((limit <? saturate usize_max (zlen bytes + zlen chunk)) = (limit <? zlen (bytes ++ chunk))) as ->.
  { rewrite zlen_app. unfold saturate. apply eq_bool_prop_intro. rewrite !Is_true_true, !Z.ltb_lt. lia. }
  destruct (Z.ltb_spec limit (zlen (bytes ++ chunk))) as [Hlt|Hle].
  - split; [done|]. intros ([|c chunks] & E & -> & Hz); [done|]. injection E as -> E.
    cbn [concat] in Hz. rewrite app_assoc, zlen_app in Hz. pose proof (zlen_nonneg (concat chunks)). lia.
  - rewrite IH by lia. split.
    + intros (chunks & -> & -> & Hz). exists (chunk :: chunks). cbn [map concat]. by rewrite app_assoc.
    + intros ([|c chunks] & E & -> & Hz); [done|]. injection E as -> ->. exists chunks.
      cbn [concat] in *. by rewrite app_assoc in *.
Qed.

(** What a response must be for a request of [expected] to be answered by it. *)
Record answers (limits : InspectLimits) (success : Z -> bool) (expected : Z) (response : HttpResponse) (m : Message) : Prop := {
  answers_status : success (status response) = true;
  answers_length : forall n, content_length response = Some n -> n <= maximum_response_bytes limits;
  answers_body : exists chunks, bytes_stream response = map Chunk chunks /\
    zlen (concat chunks) <= maximum_response_bytes limits /\ decode (concat chunks) (codec limits) = Ok m;
  answers_id : request_id m = expected;
}.

Section Inspect.
Context {W : Type} `{IppHttp W}.

Lemma do_post_inv request timeout (w w' : W) response :
  do_post request timeout w = (Ok response, w') <-> post request timeout w = (Responded response, w').
Proof. unfold do_post. destruct (post _ _ w) as [[]]; naive_solver. Qed.

(** A request is accepted as answered exactly when its limits and its
    endpoint are valid, it is encoded, one POST of it was answered with
    success, within the announced and the actual size, by chunks that are an
    IPP message with the number of the request; the message is the answer. *)
Theorem inspect_accepts_its_answer endpoint request limits (w w' : W) m :
  maximum_response_bytes limits < usize_max ->
  inspect endpoint request limits w = (Ok m, w') <->
  InspectLimits_validate limits = Ok limits /\
  exists url body response, http_url endpoint = Ok url /\ encode request (codec limits) = Ok body /\
    post (ipp_post url body) (il_timeout limits) w = (Responded response, w') /\
    answers limits is_success (request_id request) response m.
Proof.
  intros Hmax. split.
  - intros Hr. unfold inspect in Hr. inv_run Hr. rename x0 into url, x1 into body, x2 into response, x3 into bytes.
    assert (x = limits) as ->. { unfold InspectLimits_validate in Hx. destruct (_ || _); [done|by injection Hx]. }
    pose proof Hx as Hv. unfold InspectLimits_validate in Hv. destruct (_ || _) eqn:Hlim in Hv; [done|].
    rewrite !orb_false_iff, !Z.ltb_ge in Hlim. split; [done|]. apply do_post_inv in Hx2.
    exists url, body, response. split_and!; [done..|]. apply negb_false_iff in Hb, Hb1. apply Z.eqb_eq in Hb1.
    apply read_body_Ok in Hx3 as (chunks & Hc & -> & Hz); [|rewrite ?zlen_nil; lia..]. split; [done| |by exists chunks|done].
    intros n En. rewrite En in Hb0. by apply Z.ltb_ge.
  - intros (Hv & url & body & response & Hu & He & Hp & [Hs Hl (chunks & Hc & Hz & Hd) Hid]).
    pose proof Hv as Hlim. unfold InspectLimits_validate in Hlim. destruct (_ || _) eqn:Hlim' in Hlim; [done|].
    rewrite !orb_false_iff, !Z.ltb_ge in Hlim'. unfold inspect.
    eapply run_bind; [by apply run_eresult|]. eapply run_bind; [by apply run_eresult|].
    eapply run_bind; [by apply run_efault|]. eapply run_bind; [by apply do_post_inv|].
    apply run_ecase; [by rewrite Hs|]. apply run_ecase.
    { destruct (content_length response); [|done]. by apply Z.ltb_ge, Hl. }
    eapply run_bind.
    { apply run_eresult. apply read_body_Ok; [lia|rewrite zlen_nil; lia|]. exists chunks. by rewrite Hc. }
    eapply run_bind; [by apply run_efault|]. apply run_ecase; [by rewrite Hid, Z.eqb_refl|done].
Qed.
End Inspect.

(** ** Recording the requests *)

(** An arbitrary HTTP client, with the requests it was given. *)
Section Recorded.
Context {W : Type} `{IppHttp W}.

#[export] Instance Recorded : IppHttp (W * list HttpRequest) := {|
  parse_url := parse_url;
  is_success := is_success;
  post := fun request timeout '(w, log) =>
    let '(answer, w) := post request timeout w in (answer, (w, log ++ [request]));
|}.

(** An HTTP request carries an IPP message to the endpoint. *)
Definition carries (endpoint : IppEndpoint) (limits : InspectLimits) (m : Message) (request : HttpRequest) : Prop :=
  exists url body, http_url endpoint = Ok url /\ encode m (codec limits) = Ok body /\ request = ipp_post url body.

#[local] Abbreviation St := (W * list HttpRequest)%type.

(** [n] at most of the messages [ms] were sent since [log], in their order. *)
Definition sent (endpoint : IppEndpoint) (limits : InspectLimits) (ms : list Message) (log log' : list HttpRequest) : Prop :=
  exists qs, log' = log ++ qs /\ Forall2 (carries endpoint limits) ms qs.

Lemma sent_nil endpoint limits log : sent endpoint limits [] log log.
Proof. exists []. by rewrite app_nil_r. Qed.

Lemma sent_trans endpoint limits ms ms' log log' log'' :
  sent endpoint limits ms log log' -> sent endpoint limits ms' log' log'' -> sent endpoint limits (ms ++ ms') log log''.
Proof.
  intros (qs & -> & H1) (qs' & -> & H2). exists (qs ++ qs'). rewrite app_assoc. split; [done|]. by apply Forall2_app.
Qed.

(** A message is sent at most once, and exactly once for an answer. *)
Lemma inspect_spec endpoint m limits (s : St) :
  spec (inspect endpoint m limits) s
    (fun response s' => inspect endpoint m limits s = (Ok response, s') /\ sent endpoint limits [m] s.2 s'.2)
    (fun e s' => sent endpoint limits [] s.2 s'.2 \/ sent endpoint limits [m] s.2 s'.2).
Proof.
  apply spec_self. pose proof (sent_nil endpoint limits s.2) as Hnone. unfold inspect.
  apply spec_bind, spec_result; [intros l Hl|by left].
  assert (l = limits) as ->. { unfold InspectLimits_validate in Hl. destruct (_ || _); [done|by injection Hl]. }
  apply spec_bind, spec_result; [intros url Hu|by left].
  apply spec_bind, spec_efault; [intros body He|by left].
  apply spec_bind. destruct s as [w log]. unfold spec at 1, do_post. cbn [post Recorded].
  assert (sent endpoint limits [m] log (log ++ [ipp_post url body])) as Hsent.
  { exists [ipp_post url body]. split; [done|]. constructor; [by exists url, body|constructor]. }
  destruct (post _ _ w) as [[| |response] w'] eqn:Ep; cbn -[sent]; [by right..|].
  apply spec_ecase; [by right|]. intros _. apply spec_ecase; [by right|]. intros _.
  apply spec_bind, spec_result; [intros bytes _|by right]. apply spec_bind, spec_efault; [intros r _|by right].
  apply spec_ecase; [by right|]. intros _. by apply spec_ret.
Qed.

(** *** One application of a change *)

Section Apply.
Variable sha256 : list Z -> list Z.
Variable value_json : ValueData -> list Z.

(** The items of a response's stream are bytes. *)
Hypothesis stream_bytes : forall q t (w w' : W) response,
  post q t w = (Responded response, w') ->
  Forall (fun item => match item with Chunk bytes => bytes_ok bytes | _ => True end) (bytes_stream response).

Lemma read_body_bytes limit stream bytes result :
  Forall (fun item => match item with Chunk bytes => bytes_ok bytes | _ => True end) stream ->
  bytes_ok bytes -> read_body limit stream bytes = Ok result -> bytes_ok result.
Proof.
  intros Hs. revert bytes. induction Hs as [|[chunk| |] stream Hc _ IH]; intros bytes Hb; cbn [read_body];
    [by intros [= <-]| |done..].
  destruct (_ <? _); [done|]. apply IH. by apply Forall_app.
Qed.

Lemma inspect_calm endpoint m limits : never_panics (inspect (W := W * list HttpRequest) endpoint m limits).
Proof.
  intros [w log]. unfold inspect. unfold ebind at 1, eresult at 1.
  destruct (InspectLimits_validate limits) as [l|]; [|done]. cbn [raising map_err].
  unfold ebind at 1, eresult at 1. destruct (http_url endpoint) as [url|]; [|done]. cbn [raising map_err].
  unfold ebind at 1, efault at 1. pose proof (encode_total m (codec l)) as He.
  destruct (encode m (codec l)) as [body|[|]]; cbn [map_raised map_err]; [|done..].
  unfold ebind at 1, do_post. cbn [post Recorded]. destruct (post _ _ w) as [[| |response] w'] eqn:Ep; [done..|].
  unfold ecase. destruct (negb _); [done|]. destruct (match content_length response with Some _ => _ | None => _ end); [done|].
  unfold ebind at 1, eresult at 1. destruct (read_body _ _ _) as [bytes|] eqn:Eb; [|done]. cbn [raising map_err].
  unfold ebind, efault. pose proof (decode_total bytes (codec l)) as Hd. apply read_body_bytes in Eb;
    [|by eapply stream_bytes|constructor]. specialize (Hd Eb).
  destruct (decode bytes (codec l)) as [r|[|]]; cbn [map_raised map_err]; [|done..]. by destruct (negb _).
Qed.

(** The two messages after which the printer may have changed. *)
Definition read_of (plan : ConfirmedChangePlan) (uri : list Z) : Message :=
  get_printer_attributes_request uri (requested_for (plan_setting plan)) None 1.
Definition write_of (plan : ConfirmedChangePlan) (uri : list Z) : Message :=
  set_printer_attributes_request uri (plan_setting plan) (requested_protocol_value plan) 2.

(** What was sent from the write on, for every outcome. *)
Definition outcome_sent (plan : ConfirmedChangePlan) (uri : list Z) (outcome : ApplyChangeOutcome.t)
    (sent : list Message) : Prop :=
  match outcome with
  | ApplyChangeOutcome.Verified response observation =>
      sent = [write_of plan uri; read_of plan uri] /\ code response < 0x0100 /\ ipp_change_is_applied plan observation = true
  | ApplyChangeOutcome.ReadBackMismatch response observation =>
      sent = [write_of plan uri; read_of plan uri] /\ code response < 0x0100 /\ ipp_change_is_applied plan observation = false
  | ApplyChangeOutcome.Rejected response => sent = [write_of plan uri] /\ 0x0100 <= code response
  | ApplyChangeOutcome.Ambiguous stage _ =>
      (stage = "write"%string /\ sent `prefix_of` [write_of plan uri]) \/
      (stage = "verification-read"%string /\ [write_of plan uri] `prefix_of` sent /\
       sent `prefix_of` [write_of plan uri; read_of plan uri])
  end.

(** The exchanges from the write on, one after the other, and the answers that
    the outcome reports: the observation is the answer to the read that follows
    the accepted write. *)
Definition outcome_seen (endpoint : IppEndpoint) (plan : ConfirmedChangePlan) (uri : list Z) (limits : InspectLimits)
    (s : St) (outcome : ApplyChangeOutcome.t) (s' : St) : Prop :=
  let accepted response s1 :=
    inspect endpoint (write_of plan uri) limits s = (Ok response, s1) /\ code response < 0x0100 in
  match outcome with
  | ApplyChangeOutcome.Verified response observation =>
      exists s1, accepted response s1 /\ inspect endpoint (read_of plan uri) limits s1 = (Ok observation, s') /\
        ipp_change_is_applied plan observation = true
  | ApplyChangeOutcome.ReadBackMismatch response observation =>
      exists s1, accepted response s1 /\ inspect endpoint (read_of plan uri) limits s1 = (Ok observation, s') /\
        ipp_change_is_applied plan observation = false
  | ApplyChangeOutcome.Rejected response =>
      inspect endpoint (write_of plan uri) limits s = (Ok response, s') /\ 0x0100 <= code response
  | ApplyChangeOutcome.Ambiguous stage error =>
      stage = "write"%string /\ inspect endpoint (write_of plan uri) limits s = (Err (Raised error), s') \/
      stage = "verification-read"%string /\ exists response s1, accepted response s1 /\
        inspect endpoint (read_of plan uri) limits s1 = (Err (Raised error), s')
  end.

Lemma write_and_verify_spec endpoint plan uri limits (s : St) :
  spec (write_and_verify endpoint plan uri (read_of plan uri) limits) s
    (fun outcome s' => exists ms, sent endpoint limits ms s.2 s'.2 /\ outcome_sent plan uri outcome ms /\
       outcome_seen endpoint plan uri limits s outcome s')
    (fun _ _ => False).
Proof.
  unfold write_and_verify. fold (write_of plan uri). apply spec_bind, spec_etry.
  pose proof (inspect_calm endpoint (write_of plan uri) limits s) as Hcalm.
  pose proof (inspect_spec endpoint (write_of plan uri) limits s) as Hs.
  unfold spec at 1. unfold spec at 1 in Hs.
  destruct (inspect endpoint (write_of plan uri) limits s) as [[response|[error|]] s1] eqn:Ew; [|clear Hcalm|done].
  2: { apply spec_ret. destruct Hs as [Hs|Hs]; eexists; (split; [exact Hs|]); (split; [|by left]); left; split; try done.
       by apply prefix_nil. }
  destruct Hs as [_ Hs]. destruct (Z.leb_spec 0x0100 (code response)).
  { apply spec_ret. eexists. split; [exact Hs|]. by split. }
  apply spec_bind, spec_etry. clear Hcalm.
  pose proof (inspect_calm endpoint (read_of plan uri) limits s1) as Hcalm.
  pose proof (inspect_spec endpoint (read_of plan uri) limits s1) as Hr.
  unfold spec at 1. unfold spec at 1 in Hr.
  destruct (inspect endpoint (read_of plan uri) limits s1) as [[observation|[error|]] s2] eqn:Er; [|clear Hcalm|done].
  - destruct Hr as [_ Hr]. pose proof (sent_trans _ _ _ _ _ _ _ Hs Hr) as Hsr.
    destruct (ipp_change_is_applied plan observation) eqn:Ea; apply spec_ret; eexists; (split; [exact Hsr|]); (split; [done|]);
      by exists s1.
  - apply spec_ret. destruct Hr as [Hr|Hr]; pose proof (sent_trans _ _ _ _ _ _ _ Hs Hr) as Hsr;
      eexists; (split; [exact Hsr|]); (split; [right; split; [done|]; split|right; split; [done|]; by exists response, s1]); try done;
      by exists [read_of plan uri].
Qed.

(** The messages that only read. *)
Definition reading (m : Message) : Prop := code m = GET_PRINTER_ATTRIBUTES \/ code m = GET_PRINTER_SUPPORTED_VALUES.

(** The supported values are read, and only for an attribute that lists some. *)
Definition supported_seen (endpoint : IppEndpoint) (uri setting : list Z) (number : Z) (limits : InspectLimits)
    (s : St) (supported : option SupportedPrinterValues) (s' : St) : Prop :=
  if ends_with (str "-supported") setting then
    exists request response values, get_printer_supported_values_request uri [setting] number = Ok request /\
      inspect endpoint request limits s = (Ok response, s') /\
      parse_get_printer_supported_values response = Ok values /\ supported = Some values
  else supported = None /\ s' = s.

Lemma read_supported_spec {E} request_error read_error parse_error endpoint uri setting number limits (s : St) :
  spec (read_supported (E := E) request_error read_error parse_error endpoint uri setting number limits) s
    (fun supported s' => (exists ms, sent endpoint limits ms s.2 s'.2 /\ Forall reading ms /\ (length ms <= 1)%nat) /\
       supported_seen endpoint uri setting number limits s supported s')
    (fun _ s' => exists ms, sent endpoint limits ms s.2 s'.2 /\ Forall reading ms /\ (length ms <= 1)%nat).
Proof.
  assert (exists ms, sent endpoint limits ms s.2 s.2 /\ Forall reading ms /\ (length ms <= 1)%nat) as Hnone.
  { exists []. split_and!; [apply sent_nil|constructor|cbn; lia]. }
  unfold read_supported, supported_seen. destruct (ends_with _ setting); [|by apply spec_ret].
  apply spec_bind, spec_result; [|done]. intros request Hrequest.
  assert (code request = GET_PRINTER_SUPPORTED_VALUES) as Hcode.
  { unfold get_printer_supported_values_request in Hrequest. destruct (bool_decide _); [done|].
    destruct (existsb _ _); [done|]. by injection Hrequest as <-. }
  assert (forall ms (s' : St), (ms = [] \/ ms = [request]) -> sent endpoint limits ms s.2 s'.2 ->
    exists ms, sent endpoint limits ms s.2 s'.2 /\ Forall reading ms /\ (length ms <= 1)%nat) as Hms.
  { intros ms s' [->| ->] Hs; eexists; (split; [exact Hs|]); split; [constructor|cbn; lia| |cbn; lia].
    constructor; [by right|constructor]. }
  apply spec_bind, spec_emap_err. eapply spec_mono; [apply inspect_spec|..]; cbn beta.
  - intros response s' [Hread Hs]. apply spec_bind, spec_result; [intros supported Hparse; apply spec_ret; split|intros e _];
      [eapply Hms; [|exact Hs]; by right| |eapply Hms; [|exact Hs]; by right].
    exists request, response, supported. apply map_err_Ok in Hrequest. apply map_err_Ok in Hparse. done.
  - intros e s' [Hs|Hs] e' _; eapply Hms; try exact Hs; [by left|by right].
Qed.

(** What is known when an application has an outcome: the exchanges in their
    order, from [s] to [s'], and the plan that was valid for what was read. *)
Definition applied (endpoint : IppEndpoint) (plan : ConfirmedChangePlan) (binding : ChangeBinding) (limits : InspectLimits)
    (reads writes : list Message) (s : St) (outcome : ApplyChangeOutcome.t) (s' : St) : Prop :=
  exists uri supported observation (s1 s2 : St), printer_uri endpoint = Ok uri /\
    supported_seen endpoint uri (plan_setting plan) 3 limits s supported s1 /\
    inspect endpoint (read_of plan uri) limits s1 = (Ok observation, s2) /\ sent endpoint limits reads s.2 s2.2 /\
    validate_confirmed_ipp_change_with_supported_values sha256 value_json plan observation supported binding = Ok tt /\
    outcome_sent plan uri outcome writes /\ outcome_seen endpoint plan uri limits s2 outcome s'.

Lemma apply_spec endpoint plan binding limits (s : St) :
  spec (apply_confirmed_change sha256 value_json endpoint plan binding limits) s
    (fun outcome s' => exists reads writes, sent endpoint limits (reads ++ writes) s.2 s'.2 /\
       Forall reading reads /\ (length reads <= 2)%nat /\ applied endpoint plan binding limits reads writes s outcome s')
    (fun _ s' => exists reads, sent endpoint limits reads s.2 s'.2 /\ Forall reading reads /\ (length reads <= 2)%nat).
Proof.
  assert (exists reads, sent endpoint limits reads s.2 s.2 /\ Forall reading reads /\ (length reads <= 2)%nat) as Hnone.
  { exists []. split_and!; [apply sent_nil|constructor|cbn; lia]. }
  unfold apply_confirmed_change. apply spec_bind, spec_result; [|done]. intros uri Huri. apply map_err_Ok in Huri.
  fold (read_of plan uri). apply spec_bind. eapply spec_mono; [apply read_supported_spec|..]; cbn beta.
  2: { intros e s' (ms & Hs & Hm & Hl). exists ms. split_and!; [done..|lia]. }
  intros supported s1 [(ms & Hs & Hm & Hl) Hsup]. apply spec_bind, spec_emap_err.
  assert (Forall reading (ms ++ [read_of plan uri])) as Hm'.
  { apply Forall_app. split; [done|]. constructor; [by left|constructor]. }
  assert (length (ms ++ [read_of plan uri]) <= 2)%nat as Hl' by (rewrite length_app; cbn; lia).
  eapply spec_mono; [apply inspect_spec|..]; cbn beta.
  2: { intros e s' [Hr|Hr] e' _; pose proof (sent_trans _ _ _ _ _ _ _ Hs Hr) as Hsr; eexists; (split; [exact Hsr|]).
       - rewrite app_nil_r. split; [done|lia].
       - by split. }
  intros observation s2 [Hobs Hr]. pose proof (sent_trans _ _ _ _ _ _ _ Hs Hr) as Hsr.
  apply spec_bind, spec_result; [|intros e _; by eexists]. intros [] Hval. apply map_err_Ok in Hval.
  eapply spec_mono; [apply write_and_verify_spec|..]; cbn beta; [|done].
  intros outcome s3 (writes & Hw & Hout & Hseen). exists (ms ++ [read_of plan uri]), writes.
  split_and!; [by eapply sent_trans|done..|]. exists uri, supported, observation, s1, s2. done.
Qed.

Lemma plan_change_reads endpoint request limits (s : St) :
  spec (plan_change sha256 value_json endpoint request limits) s
    (fun _ s' => exists reads, sent endpoint limits reads s.2 s'.2 /\ Forall reading reads)
    (fun _ s' => exists reads, sent endpoint limits reads s.2 s'.2 /\ Forall reading reads).
Proof.
  unfold plan_change. apply spec_bind, spec_result.
  2: { intros e _. exists []. split; [apply sent_nil|constructor]. }
  intros uri Huri. apply spec_bind, spec_emap_err. eapply spec_mono; [apply inspect_spec|..]; cbn beta.
  2: { intros e s' [Hr|Hr] e' _; (eexists; split; [exact Hr|]); [constructor|]. constructor; [by left|constructor]. }
  intros observation s1 [_ H1]. apply spec_bind.
  assert (forall (s' : St), (exists ms, sent endpoint limits ms s1.2 s'.2 /\ Forall reading ms /\ (length ms <= 1)%nat) ->
    exists reads, sent endpoint limits reads s.2 s'.2 /\ Forall reading reads) as Hend.
  { intros s' (ms & H2 & Hm & _). eexists. split; [by eapply sent_trans|]. constructor; [by left|done]. }
  eapply spec_mono; [apply read_supported_spec|..]; cbn beta; [|intros e s'; apply Hend].
  intros supported s2 [Hs _]. apply spec_result; intros; by apply Hend.
Qed.

(** C22: Whatever the printer and the network answer, applying a change sends
    reads and then at most one write. If it fails, nothing was written. If it
    has an outcome, the plan was valid for the supported values and the answer
    of the last read before the write, and the outcome reports what followed: a
    rejected write is one that was answered with an error; a change is verified
    or mismatched by the answer to a read after the accepted write; and only
    when the write or that read has no answer is the outcome ambiguous. *)
Theorem apply_writes_at_most_once endpoint plan binding limits (w w' : W) log log' result :
  apply_confirmed_change sha256 value_json endpoint plan binding limits (w, log) = (result, (w', log')) ->
  exists reads writes, sent endpoint limits (reads ++ writes) log log' /\ Forall reading reads /\ (length reads <= 2)%nat /\
  match result with
  | Err _ => writes = []
  | Ok outcome =>
      exists uri supported observation (s1 s2 : St), printer_uri endpoint = Ok uri /\
        supported_seen endpoint uri (plan_setting plan) 3 limits (w, log) supported s1 /\
        inspect endpoint (read_of plan uri) limits s1 = (Ok observation, s2) /\ sent endpoint limits reads log s2.2 /\
        validate_confirmed_ipp_change_with_supported_values sha256 value_json plan observation supported binding = Ok tt /\
        outcome_sent plan uri outcome writes /\ outcome_seen endpoint plan uri limits s2 outcome (w', log')
  end.
Proof.
  intros Hrun. pose proof (apply_spec endpoint plan binding limits (w, log)) as Hspec.
  unfold spec in Hspec. rewrite Hrun in Hspec. destruct result as [outcome|e]; [exact Hspec|].
  destruct Hspec as (reads & Hs & Hm & Hl). exists reads, []. by rewrite app_nil_r.
Qed.
End Apply.
End Recorded.

(** ** Discovery *)

(** *** Merging *)

Section MergeUnique.
Context {T K : Type} `{EqDecision K}.
Variable key : T -> K.

Lemma merge_unique_cons target value supplemental :
  merge_unique_by key target (value :: supplemental) =
  merge_unique_by key (if bool_decide (key value ∈ map key target) then target else target ++ [value]) supplemental.
Proof.
  unfold merge_unique_by. cbn [foldl]. f_equal.
  assert (existsb (fun existing => bool_decide (key existing = key value)) target = bool_decide (key value ∈ map key target))
    as ->; [|done].
  apply eq_bool_prop_intro. rewrite bool_decide_spec, Is_true_true, existsb_exists, list_elem_of_fmap. split.
  - intros (x & Hin & E). apply bool_decide_eq_true in E. exists x. by rewrite list_elem_of_In.
  - intros (x & E & Hin). exists x. rewrite <- list_elem_of_In. split; [done|]. by apply bool_decide_eq_true.
Qed.

(** The target stays in front, what is added has new keys, and no key is missing. *)
Lemma merge_unique_by_spec target supplemental :
  exists added, merge_unique_by key target supplemental = target ++ added /\
    added ⊆ supplemental /\ NoDup (map key added) /\ (forall v, v ∈ added -> key v ∉ map key target) /\
    (forall v, v ∈ supplemental -> key v ∈ map key (target ++ added)).
Proof.
  revert target. induction supplemental as [|value supplemental IH]; intros target.
  { exists []. rewrite app_nil_r. split_and!; [done|done|constructor|set_solver|set_solver]. }
  rewrite merge_unique_cons. case_bool_decide as Hin.
  - destruct (IH target) as (added & -> & Hsub & Hnd & Hnew & Hall). exists added.
    split_and!; [done|set_solver|done|done|]. intros v [-> |Hv]%elem_of_cons; [|by apply Hall].
    rewrite map_app. apply elem_of_app. by left.
  - destruct (IH (target ++ [value])) as (added & -> & Hsub & Hnd & Hnew & Hall). exists (value :: added).
    rewrite <- !app_assoc in *. cbn [app] in *. rewrite map_app in Hnew.
    split_and!; [done|set_solver| | |].
    + cbn [map]. constructor; [|done]. intros (v & E & Hv)%list_elem_of_fmap. apply (Hnew v Hv).
      rewrite <- E. apply elem_of_app. right. cbn. by left.
    + intros v [-> |Hv]%elem_of_cons; [done|]. intros Hv'. apply (Hnew v Hv). apply elem_of_app. by left.
    + intros v [-> |Hv]%elem_of_cons; [|by apply Hall]. rewrite map_app. apply elem_of_app. right. cbn. by left.
Qed.

Lemma merge_unique_prefix target supplemental : target `prefix_of` merge_unique_by key target supplemental.
Proof. destruct (merge_unique_by_spec target supplemental) as (added & -> & _). by exists added. Qed.

Lemma merge_unique_NoDup target supplemental :
  NoDup (map key target) -> NoDup (map key (merge_unique_by key target supplemental)).
Proof.
  intros Ht. destruct (merge_unique_by_spec target supplemental) as (added & -> & _ & Hnd & Hnew & _).
  rewrite map_app. apply list.NoDup_app. split_and!; [done| |done]. intros k Hk (v & -> & Hv)%list_elem_of_fmap.
  by apply (Hnew v Hv).
Qed.

Lemma merge_unique_complete target supplemental v :
  v ∈ supplemental -> key v ∈ map key (merge_unique_by key target supplemental).
Proof. destruct (merge_unique_by_spec target supplemental) as (added & -> & _ & _ & _ & Hall). apply Hall. Qed.
End MergeUnique.

(** A snapshot with more in it: nothing that was known is changed or lost. *)
Definition kept {A} (o o' : option A) : Prop := forall a, o = Some a -> o' = Some a.

Record supplements (target s : DeviceSnapshot) : Prop := {
  same_printer : identity_id (identity s) = identity_id (identity target);
  kept_identity : kept (uuid (identity target)) (uuid (identity s)) /\
    kept (serial_number (identity target)) (serial_number (identity s)) /\
    kept (device_id (identity target)) (device_id (identity s)) /\
    kept (manufacturer (identity target)) (manufacturer (identity s)) /\
    kept (model (identity target)) (model (identity s));
  kept_state : kept (state (device_state target)) (state (device_state s)) /\
    reasons (device_state target) `prefix_of` reasons (device_state s);
  kept_supplies : supplies target `prefix_of` supplies s;
  kept_capabilities : job_capabilities target `prefix_of` job_capabilities s;
  kept_settings : device_settings target `prefix_of` device_settings s;
  kept_mutations : mutation_support target `prefix_of` mutation_support s;
  kept_operations : operations target `prefix_of` operations s;
  kept_observations : observations target `prefix_of` observations s;
}.

#[export] Instance kept_preorder {A} : PreOrder (@kept A).
Proof. split; [by intros o a|]. intros o o' o'' H1 H2 a Ha. by apply H2, H1. Qed.

#[export] Instance supplements_preorder : PreOrder supplements.
Proof.
  split; [by intros s; split; split_and?|].
  intros s s' s'' [A1 [? [? [? [? ?]]]] [? ?] A4 A5 A6 A7 A8 A9] [B1 [? [? [? [? ?]]]] [? ?] B4 B5 B6 B7 B8 B9].
  split; [congruence|split_and!; by etrans|split; by etrans|..]; by etrans.
Qed.

Lemma or_supplement_kept {A} (o o' : option A) : kept o (or_supplement o o').
Proof. intros a ->. done. Qed.

Lemma reasons_prefix (reasons added : list (list Z)) :
  reasons `prefix_of`
  foldl (fun reasons reason => if bool_decide (reason ∈ reasons) then reasons else reasons ++ [reason]) reasons added.
Proof.
  revert reasons. induction added as [|reason added IH]; intros reasons; [done|]. cbn [foldl].
  case_bool_decide; [apply IH|]. etrans; [|apply IH]. by exists [reason].
Qed.

Lemma merge_supplements target supplemental : supplements target (merge_supplemental_snapshot target supplemental).
Proof.
  split; cbn; try apply merge_unique_prefix; [done| |split; [apply or_supplement_kept|apply reasons_prefix]|by eexists].
  split_and!; apply or_supplement_kept.
Qed.

Lemma extend_supplements target normalized : supplements target (extend_snapshot target normalized).
Proof. split; cbn; try done; by eexists. Qed.

(** The tables of a snapshot that have one entry for a key. *)
Definition keyed (s : DeviceSnapshot) : Prop :=
  NoDup (map supply_id (supplies s)) /\ NoDup (map setting_id (device_settings s)) /\
  NoDup (map mutation_setting (mutation_support s)) /\ NoDup (map operation (operations s)).

(** [s] has an entry for every key of [from]. *)
Definition covers (from s : DeviceSnapshot) : Prop :=
  map supply_id (supplies from) ⊆ map supply_id (supplies s) /\
  map setting_id (device_settings from) ⊆ map setting_id (device_settings s) /\
  map mutation_setting (mutation_support from) ⊆ map mutation_setting (mutation_support s) /\
  map operation (operations from) ⊆ map operation (operations s).

Lemma merge_keyed target supplemental : keyed target -> keyed (merge_supplemental_snapshot target supplemental).
Proof. intros (?&?&?&?). unfold keyed. cbn. split_and!; by apply merge_unique_NoDup. Qed.

Lemma merge_unique_covers {T K} `{EqDecision K} (key : T -> K) target supplemental :
  map key supplemental ⊆ map key (merge_unique_by key target supplemental).
Proof. intros k (v & -> & Hv)%list_elem_of_fmap. by apply merge_unique_complete. Qed.

Lemma merge_covers target supplemental : covers supplemental (merge_supplemental_snapshot target supplemental).
Proof. unfold covers. cbn. split_and!; apply merge_unique_covers. Qed.

Lemma prefix_map_subset {A B} (f : A -> B) l k : l `prefix_of` k -> map f l ⊆ map f k.
Proof. intros [m ->]. rewrite map_app. set_solver. Qed.

Lemma covers_supplements from s s' : covers from s -> supplements s s' -> covers from s'.
Proof.
  intros (?&?&?&?) [_ _ _ ? _ ? ? ? _]. unfold covers. split_and!; (etrans; [done|]); by apply prefix_map_subset.
Qed.

(** *** Queries *)

Definition focused_messages (uri : list Z) (origin : ObservationOrigin) (index : nat) (queries : list (list (list Z))) :
    list Message :=
  imap (fun i attributes => get_printer_attributes_request uri attributes None (focused_number origin (index + i))) queries.

Definition format_messages (uri : list Z) (origin : ObservationOrigin) (options : DiscoveryOptions) (index : nat)
    (formats : list (list Z)) : list Message :=
  imap (fun i format => get_printer_attributes_request uri [str "all"] (Some format) (format_number origin options (index + i)))
    formats.

(** Everything a discovery asks, given the answer to its first question. *)
Definition discovery_messages (uri : list Z) (origin : ObservationOrigin) (options : DiscoveryOptions) (base : Message) :
    list Message :=
  get_printer_attributes_request uri [str "all"] None (request_number (o_request_id origin) 1)
  :: focused_messages uri origin 0 (take (Z.to_nat (maximum_focused_queries options)) (focused_query_sets base))
  ++ format_messages uri origin options 0 (take (Z.to_nat (maximum_formats options)) (discovery_formats base)).

Lemma focused_messages_cons uri origin index attributes queries :
  focused_messages uri origin index (attributes :: queries) =
  get_printer_attributes_request uri attributes None (focused_number origin index)
  :: focused_messages uri origin (S index) queries.
Proof.
  unfold focused_messages. rewrite imap_cons, Nat.add_0_r. f_equal. apply imap_ext. intros i x _. cbn.
  by rewrite Nat.add_succ_r.
Qed.

Lemma format_messages_cons uri origin options index format formats :
  format_messages uri origin options index (format :: formats) =
  get_printer_attributes_request uri [str "all"] (Some format) (format_number origin options index)
  :: format_messages uri origin options (S index) formats.
Proof.
  unfold format_messages. rewrite imap_cons, Nat.add_0_r. f_equal. apply imap_ext. intros i x _. cbn.
  by rewrite Nat.add_succ_r.
Qed.

Section Discover.
Context {W : Type} `{IppHttp W}.
#[local] Abbreviation St := (W * list HttpRequest)%type.

Lemma sent_cons endpoint limits m ms log log' log'' :
  sent endpoint limits [m] log log' -> sent endpoint limits ms log' log'' -> sent endpoint limits (m :: ms) log log''.
Proof. apply (sent_trans _ _ [m]). Qed.

(** The merging of the answers to the focused queries. *)
Definition merged (origin : ObservationOrigin) (index : nat) (snap : DeviceSnapshot) (answers : list Message)
    (snap' : DeviceSnapshot) : Prop :=
  supplements snap snap' /\ (keyed snap -> keyed snap') /\
  forall i r, answers !! i = Some r -> covers (normalize_ipp (focused_origin origin (index + i)) r None) snap'.

Lemma merged_cons origin index snap answer answers snap' :
  merged origin (S index) (merge_supplemental_snapshot snap (normalize_ipp (focused_origin origin index) answer None))
    answers snap' ->
  merged origin index snap (answer :: answers) snap'.
Proof.
  intros (Hs & Hk & Hc). split_and!.
  - etrans; [apply merge_supplements|exact Hs].
  - intros Hkey. by apply Hk, merge_keyed.
  - intros [|i] r Hr; cbn in Hr.
    + injection Hr as <-. rewrite Nat.add_0_r. eapply covers_supplements; [apply merge_covers|exact Hs].
    + rewrite Nat.add_succ_r. by apply (Hc i).
Qed.

Lemma focused_loop_spec endpoint uri origin limits queries index snap responses (s : St) :
  spec (focused_loop endpoint uri origin limits index queries snap responses) s
    (fun result s' => exists answers, result.2 = responses ++ answers /\ length answers = length queries /\
       sent endpoint limits (focused_messages uri origin index queries) s.2 s'.2 /\
       merged origin index snap answers result.1)
    (fun _ s' => exists ms, ms `prefix_of` focused_messages uri origin index queries /\
       sent endpoint limits ms s.2 s'.2).
Proof.
  revert index snap responses s. induction queries as [|attributes queries IH]; intros index snap responses s.
  { apply spec_ret. exists []. split_and!; [by rewrite app_nil_r|done|apply sent_nil|]. by split_and!. }
  cbn [focused_loop]. rewrite focused_messages_cons. apply spec_bind. eapply spec_mono; [apply inspect_spec|..]; cbn beta.
  - intros response s1 [_ H1]. eapply spec_mono; [apply IH|..]; cbn beta.
    + intros result s2 (answers & E & El & H2 & Hm). exists (response :: answers).
      split_and!; [by rewrite E, <- app_assoc|cbn; lia|by eapply sent_cons|by apply merged_cons].
    + intros e s2 (ms & Hp & H2). eexists. split; [by apply prefix_cons|]. by eapply sent_cons.
  - intros e s1 [H1|H1]; (eexists; split; [|exact H1]); [apply prefix_nil|]. by apply prefix_cons, prefix_nil.
Qed.

Lemma format_loop_spec endpoint uri origin options formats index snap responses (s : St) :
  spec (format_loop endpoint uri origin options index formats snap responses) s
    (fun result s' => dom result.2 = dom responses ∪ list_to_set formats /\
       sent endpoint (inspect_limits options) (format_messages uri origin options index formats) s.2 s'.2 /\
       supplements snap result.1 /\ (keyed snap -> keyed result.1))
    (fun _ s' => exists ms, ms `prefix_of` format_messages uri origin options index formats /\
       sent endpoint (inspect_limits options) ms s.2 s'.2).
Proof.
  revert index snap responses s. induction formats as [|format formats IH]; intros index snap responses s.
  { apply spec_ret. split_and!; [cbn; set_solver|apply sent_nil|done|done]. }
  cbn [format_loop]. rewrite format_messages_cons. apply spec_bind. eapply spec_mono; [apply inspect_spec|..]; cbn beta.
  - intros response s1 [_ H1]. eapply spec_mono; [apply IH|..]; cbn beta.
    + intros result s2 (E & H2 & Hs & Hk). split_and!; [|by eapply sent_cons| |].
      * rewrite E, dom_insert_L. cbn [list_to_set]. set_solver.
      * etrans; [apply extend_supplements|exact Hs].
      * exact Hk.
    + intros e s2 (ms & Hp & H2). eexists. split; [by apply prefix_cons|]. by eapply sent_cons.
  - intros e s1 [H1|H1]; (eexists; split; [|exact H1]); [apply prefix_nil|]. by apply prefix_cons, prefix_nil.
Qed.
(** *** Request numbers *)

Lemma request_number_inj seed m n :
  0 <= m < 2 ^ 32 -> 0 <= n < 2 ^ 32 -> request_number seed m = request_number seed n -> m = n.
Proof.
  unfold request_number. generalize (foldl fnv_step 2166136261 seed). intros h Hm Hn E.
  pose proof (Z.div_mod (h + m) (2 ^ 32) ltac:(done)). pose proof (Z.div_mod (h + n) (2 ^ 32) ltac:(done)).
  rewrite E in *. nia.
Qed.

Definition offsets (options : DiscoveryOptions) (queries formats : nat) : list Z :=
  1 :: map (fun i => Z.of_nat i + 2) (seq 0 queries)
  ++ map (fun i => Z.of_nat i + maximum_focused_queries options + 2) (seq 0 formats).

Lemma imap_map_seq {A B} (f : nat -> B) (l : list A) : imap (fun i _ => f i) l = map f (seq 0 (length l)).
Proof.
  apply list_eq. intros i. rewrite list_lookup_imap, list_lookup_fmap.
  destruct (l !! i) as [a|] eqn:Ea.
  - apply lookup_lt_Some in Ea. by rewrite lookup_seq_lt.
  - apply lookup_ge_None in Ea. by rewrite lookup_seq_ge.
Qed.

Lemma discovery_ids uri origin options base :
  0 <= maximum_focused_queries options -> 0 <= maximum_formats options ->
  maximum_focused_queries options + maximum_formats options + 2 <= 2 ^ 32 ->
  exists queries formats, Z.of_nat queries <= maximum_focused_queries options /\
    Z.of_nat formats <= maximum_formats options /\
    map request_id (discovery_messages uri origin options base)
      = map (request_number (o_request_id origin)) (offsets options queries formats).
Proof.
  intros Hq Hf Hmax.
  set (qs := take (Z.to_nat (maximum_focused_queries options)) (focused_query_sets base)).
  set (fs := take (Z.to_nat (maximum_formats options)) (discovery_formats base)).
  assert (Z.of_nat (length qs) <= maximum_focused_queries options) as Hql by (unfold qs; rewrite length_take; lia).
  assert (Z.of_nat (length fs) <= maximum_formats options) as Hfl by (unfold fs; rewrite length_take; lia).
  exists (length qs), (length fs). split_and!; [done..|].
  unfold discovery_messages, offsets. fold qs fs. cbn [map]. f_equal. rewrite !map_app, !map_map. f_equal.
  - unfold focused_messages. rewrite fmap_imap, <- (imap_map_seq (fun i => request_number _ (Z.of_nat i + 2))).
    apply imap_ext. intros i x Hi. apply lookup_lt_Some in Hi. cbn. unfold focused_number. f_equal.
    rewrite (Z.mod_small (Z.of_nat i)), Z.mod_small; lia.
  - unfold format_messages.
    rewrite fmap_imap, <- (imap_map_seq (fun i => request_number _ (Z.of_nat i + maximum_focused_queries options + 2))).
    apply imap_ext. intros i x Hi. apply lookup_lt_Some in Hi. cbn. unfold format_number. f_equal.
    rewrite (Z.mod_small (Z.of_nat i)), (Z.mod_small (maximum_focused_queries options)), Z.mod_small; lia.
Qed.

Lemma offsets_NoDup options queries formats :
  Z.of_nat queries <= maximum_focused_queries options -> NoDup (offsets options queries formats).
Proof.
  intros Hq. unfold offsets. constructor.
  - intros [(i & E & _)%list_elem_of_fmap|(i & E & _)%list_elem_of_fmap]%elem_of_app; lia.
  - apply list.NoDup_app. split_and!.
    + apply NoDup_fmap_2; [intros i j; lia|apply NoDup_seq].
    + intros n (i & -> & Hi)%list_elem_of_fmap (j & E & Hj)%list_elem_of_fmap. apply elem_of_seq in Hi. lia.
    + apply NoDup_fmap_2; [intros i j; lia|apply NoDup_seq].
Qed.

Lemma discovery_ids_distinct uri origin options base :
  0 <= maximum_focused_queries options -> 0 <= maximum_formats options ->
  maximum_focused_queries options + maximum_formats options + 2 <= 2 ^ 32 ->
  NoDup (map request_id (discovery_messages uri origin options base)).
Proof.
  intros Hq Hf Hmax. destruct (discovery_ids uri origin options base Hq Hf Hmax) as (queries & formats & Hql & Hfl & ->).
  apply NoDup_fmap_2_strong; [|by apply offsets_NoDup].
  assert (forall n, n ∈ offsets options queries formats -> 0 <= n < 2 ^ 32) as Hr.
  { unfold offsets. intros n [->|[(i & -> & Hi)%list_elem_of_fmap|(i & -> & Hi)%list_elem_of_fmap]%elem_of_app]%elem_of_cons;
      [lia|apply elem_of_seq in Hi; lia..]. }
  intros m n Hm Hn. apply request_number_inj; by apply Hr.
Qed.

Lemma discovery_messages_read uri origin options base :
  Forall (fun m => code m = GET_PRINTER_ATTRIBUTES) (discovery_messages uri origin options base).
Proof.
  unfold discovery_messages. constructor; [done|]. apply Forall_app.
  split; apply list.Forall_forall; intros m (i & x & -> & _)%elem_of_lookup_imap; done.
Qed.

Definition discovered (endpoint : IppEndpoint) (origin : ObservationOrigin) (options : DiscoveryOptions)
    (log log' : list HttpRequest) (r : IppDiscoveryResult) : Prop :=
  let base := base_response r in
  let queries := take (Z.to_nat (maximum_focused_queries options)) (focused_query_sets base) in
  let formats := take (Z.to_nat (maximum_formats options)) (discovery_formats base) in
  exists uri, printer_uri endpoint = Ok uri /\
    sent endpoint (inspect_limits options) (discovery_messages uri origin options base) log log' /\
    length (focused_responses r) = length queries /\
    dom (format_responses r) = (list_to_set formats : gset (list Z)) /\
    focused_queries_truncated r = (maximum_focused_queries options <? zlen (focused_query_sets base)) /\
    formats_truncated r = (maximum_formats options <? zlen (discovery_formats base)) /\
    merged origin 0 (normalize_ipp origin base None) (focused_responses r) (snapshot r).

Lemma discover_spec endpoint origin options (s : St) :
  spec (discover endpoint origin options) s
    (fun r s' => discovered endpoint origin options s.2 s'.2 r)
    (fun _ s' => exists ms, sent endpoint (inspect_limits options) ms s.2 s'.2 /\
       (ms = [] \/ exists uri base, ms `prefix_of` discovery_messages uri origin options base)).
Proof.
  assert (exists ms, sent endpoint (inspect_limits options) ms s.2 s.2 /\
    (ms = [] \/ exists uri base, ms `prefix_of` discovery_messages uri origin options base)) as Hnone.
  { exists []. split; [apply sent_nil|by left]. }
  unfold discover. apply spec_ecase; [done|]. intros _. apply spec_bind, spec_result; [|done]. intros uri Huri.
  apply spec_bind. eapply spec_mono; [apply inspect_spec|..]; cbn beta.
  2: { intros e s1 [H1|H1]; (eexists; split; [exact H1|]); [by left|right]. exists uri, (Message_new V2_0 0 0).
       apply prefix_cons, prefix_nil. }
  intros base s1 [_ H1]. apply spec_bind. eapply spec_mono; [apply focused_loop_spec|..]; cbn beta.
  2: { intros e s2 (ms & Hp & H2). eexists. split; [eapply sent_cons; [exact H1|exact H2]|]. right. exists uri, base.
       apply prefix_cons. etrans; [exact Hp|]. by eexists. }
  intros [snap responses] s2 (answers & Er & El & H2 & Hm). cbn [fst snd] in Er, Hm. subst responses.
  pose proof (sent_cons _ _ _ _ _ _ _ H1 H2) as H12.
  apply spec_bind. eapply spec_mono; [apply format_loop_spec|..]; cbn beta.
  2: { intros e s3 (ms & Hp & H3). eexists. split; [eapply sent_trans; [exact H12|exact H3]|]. right. exists uri, base.
       cbn [app]. apply prefix_cons, prefix_app, Hp. }
  intros [snap' formatted] s3 (Ed & H3 & Hs & Hk). cbn [fst snd] in *.
  apply spec_ret. exists uri. cbn [base_response focused_responses format_responses snapshot focused_queries_truncated
    formats_truncated app]. split_and!; [done|by apply (sent_trans _ _ _ _ _ _ _ H12 H3)|done| |done|done|].
  - rewrite Ed. set_solver.
  - destruct Hm as (Hm1 & Hm2 & Hm3). split_and!; [by etrans|auto|]. intros i r Hr.
    eapply covers_supplements; [by apply Hm3|done].
Qed.

(** A discovery only reads. It sends at most one request and one for each
    focused query and format it is allowed, with distinct request numbers, so
    that no answer is taken for that of another of its requests; a success has
    sent all of them, has the answers, and says what was left out. *)
Theorem discovery_asks_distinct_reads endpoint origin options (w w' : W) log log' result :
  0 <= maximum_focused_queries options -> 0 <= maximum_formats options ->
  maximum_focused_queries options + maximum_formats options + 2 <= 2 ^ 32 ->
  discover endpoint origin options (w, log) = (result, (w', log')) ->
  exists ms, sent endpoint (inspect_limits options) ms log log' /\
    Forall (fun m => code m = GET_PRINTER_ATTRIBUTES) ms /\ NoDup (map request_id ms) /\
    zlen ms <= 1 + maximum_focused_queries options + maximum_formats options /\
    forall r, result = Ok r ->
      discovered endpoint origin options log log' r /\
      zlen ms = 1 + Z.min (maximum_focused_queries options) (zlen (focused_query_sets (base_response r)))
                  + Z.min (maximum_formats options) (zlen (discovery_formats (base_response r))).
Proof.
  intros Hq Hf Hmax Hrun.
  assert (forall uri base, zlen (discovery_messages uri origin options base)
    = 1 + Z.min (maximum_focused_queries options) (zlen (focused_query_sets base))
        + Z.min (maximum_formats options) (zlen (discovery_formats base))) as Hlen.
  { intros uri base. unfold discovery_messages, focused_messages, format_messages.
    rewrite zlen_cons, zlen_app. unfold zlen. rewrite !length_imap, !length_take. lia. }
  pose proof (discover_spec endpoint origin options (w, log)) as Hs. unfold spec in Hs. rewrite Hrun in Hs.
  cbn [snd] in Hs. destruct result as [r|e].
  - pose proof Hs as (uri & _ & Hsent & _). exists (discovery_messages uri origin options (base_response r)).
    split_and!; [done|apply discovery_messages_read|by apply discovery_ids_distinct|rewrite Hlen; lia|].
    intros r' [= <-]. by rewrite Hlen.
  - destruct Hs as (ms & Hsent & [->|(uri & base & rest & E)]).
    { exists []. split_and!; [done|constructor|constructor|rewrite zlen_nil; lia|done]. }
    pose proof (discovery_messages_read uri origin options base) as Hr.
    pose proof (discovery_ids_distinct uri origin options base Hq Hf Hmax) as Hd.
    specialize (Hlen uri base). rewrite E in Hr, Hd, Hlen. exists ms. rewrite map_app in Hd.
    apply Forall_app in Hr as [Hr _]. apply list.NoDup_app in Hd as (Hd & _). rewrite zlen_app in Hlen.
    pose proof (zlen_nonneg rest). split_and!; [done..|lia|done].
Qed.

(** The snapshot of a discovery supplements that of the printer's first
    answer: nothing in it is changed or lost, every supply, setting and
    operation of a later answer to a focused query is there, and no table gets
    two entries for one key. *)
Theorem discovery_merges_supplements endpoint origin options (w w' : W) log log' r :
  discover endpoint origin options (w, log) = (Ok r, (w', log')) ->
  let base := normalize_ipp origin (base_response r) None in
  supplements base (snapshot r) /\ (keyed base -> keyed (snapshot r)) /\
  forall i answer, focused_responses r !! i = Some answer ->
    covers (normalize_ipp (focused_origin origin i) answer None) (snapshot r).
Proof.
  intros Hrun. pose proof (discover_spec endpoint origin options (w, log)) as Hs. unfold spec in Hs.
  rewrite Hrun in Hs. by destruct Hs as (uri & _ & _ & _ & _ & _ & _ & Hm).
Qed.
End Discover.

(** ** A change that goes through *)

Section Verified.
Variable sha256 : list Z -> list Z.
Variable value_json : ValueData -> list Z.
Context {W : Type} `{IppHttp W}.

#[local] Abbreviation make_plan := (plan_ipp_change_with_supported_values sha256 value_json).

(** C23: A change planned from what a printer reports, within its binding, is
    applied and verified, if the printer still reports the same when it is
    applied, accepts the write and then reports the value it was given. *)
Theorem confirmed_change_is_verified endpoint request limits uri observation supported plan
    binding current response after name (w0 w1 w2 w3 w4 w5 w6 w7 : W) :
  let setting := req_setting request in
  let read := get_printer_attributes_request uri (requested_for setting) None 1 in
  printer_uri endpoint = Ok uri ->
  inspect endpoint read limits w0 = (Ok observation, w1) ->
  read_supported PlanChangeError.SupportedValuesRequest PlanChangeError.Read PlanChangeError.SupportedValues
    endpoint uri setting 2 limits w1 = (Ok supported, w2) ->
  make_plan observation supported request = Ok plan -> bound plan binding ->
  read_supported ApplyChangeError.SupportedValuesRequest ApplyChangeError.PreWriteRead ApplyChangeError.SupportedValues
    endpoint uri setting 3 limits w3 = (Ok supported, w4) ->
  inspect endpoint read limits w4 = (Ok current, w5) -> agrees setting observation current ->
  inspect endpoint (set_printer_attributes_request uri setting (req_value request) 2) limits w5 = (Ok response, w6) ->
  code response < 0x0100 ->
  inspect endpoint read limits w6 = (Ok after, w7) ->
  find_attribute after setting = Some (Attribute_new name (req_value request)) ->
  plan_change sha256 value_json endpoint request limits w0 = (Ok plan, w2) /\
  apply_confirmed_change sha256 value_json endpoint plan binding limits w3
    = (Ok (ApplyChangeOutcome.Verified response after), w7).
Proof.
  cbn zeta. intros Huri Hobs Hsup Hp Hb Hsup' Hcur Hag Hw Hcode Hafter Hf.
  assert (plan_setting plan = req_setting request /\ requested_protocol_value plan = req_value request) as [Es Ev].
  { pose proof Hp as H'. apply make_plan_spec in H' as (_ & _ & _ & _ & ? & ? & _ & _ & _ & ->). done. }
  split.
  - unfold plan_change. eapply run_bind; [apply run_eresult; by rewrite Huri|].
    eapply run_bind; [by apply run_emap_err|]. eapply run_bind; [exact Hsup|]. apply run_eresult. by rewrite Hp.
  - unfold apply_confirmed_change. eapply run_bind; [apply run_eresult; by rewrite Huri|]. rewrite Es.
    eapply run_bind; [exact Hsup'|]. eapply run_bind; [by apply run_emap_err|].
    eapply run_bind; [apply run_eresult; by rewrite (planned_validates _ _ _ _ _ _ _ _ Hp Hb Hag)|].
    unfold write_and_verify. rewrite Es, Ev. eapply run_bind; [by apply run_etry|].
    cbn beta iota. rewrite (proj2 (Z.leb_gt _ _) Hcode). cbn beta iota. eapply run_bind; [by apply run_etry|].
    cbn beta iota. by rewrite (planned_is_applied _ _ _ _ _ _ _ _ Hp Hf).
Qed.
End Verified.

(** *** A scripted printer *)

(** Answers given one after the other, whatever is asked; chunks are bytes. *)
Definition octets (item : BodyItem) : BodyItem :=
  match item with Chunk bytes => Chunk (map as_u8 bytes) | item => item end.

Definition delivered (answer : HttpAnswer) : HttpAnswer :=
  match answer with
  | Responded response =>
      Responded {| status := status response; content_length := content_length response;
                   bytes_stream := map octets (bytes_stream response) |}
  | answer => answer
  end.

#[local] Instance Scripted : IppHttp (list HttpAnswer) := {|
  parse_url := Some;
  is_success := fun status => (200 <=? status) && (status <? 300);
  post := fun _ _ script =>
    match script with [] => (SendFailed, []) | answer :: script => (delivered answer, script) end;
|}.

Lemma scripted_bytes q t (w w' : list HttpAnswer) response :
  post q t w = (Responded response, w') ->
  Forall (fun item => match item with Chunk bytes => bytes_ok bytes | _ => True end) (bytes_stream response).
Proof.
  destruct w as [|[| |r] w]; cbn; [done..|]. intros [= <- <-]. cbn. apply Forall_map, list.Forall_true.
  intros [bytes| |]; cbn; [|done..]. apply Forall_map, list.Forall_true. apply as_u8_ok.
Qed.

Definition wire (m : Message) : list Z :=
  match encode m Limits_default with Ok bytes => bytes | Err _ => [] end.

Definition reply (m : Message) : HttpAnswer :=
  Responded {| status := 200; content_length := None; bytes_stream := [Chunk (take 9 (wire m)); Chunk (drop 9 (wire m))] |}.

Definition received (m : Message) : Message := {|
  version := version m; code := code m; request_id := request_id m; groups := groups m; original_bytes := wire m |}.

Definition example_endpoint : IppEndpoint := endpoint_ipp (str "printer.local") 631 (str "/ipp/print").

(** The printer's answer to the write. *)
Definition accepted : Message := {|
  version := V2_0; code := 0; request_id := 2; original_bytes := [];
  groups := [{| g_tag := OPERATION_ATTRIBUTES_TAG; g_attributes := [] |}] |}.

Definition example_script : list HttpAnswer :=
  [reply (example_printer 1); reply accepted; reply (example_printer 2)].

Lemma confirmed_change_is_verified_witness : exists plan,
  plan_change (fun l => l) example_json example_endpoint example_change InspectLimits_default [reply (example_printer 1)]
    = (Ok plan, []) /\
  apply_confirmed_change (fun l => l) example_json example_endpoint plan example_binding InspectLimits_default example_script
    = (Ok (ApplyChangeOutcome.Verified (received accepted) (received (example_printer 2))), []).
Proof.
  destruct (plan_ipp_change_with_supported_values (fun l => l) example_json (received (example_printer 1)) None example_change)
    as [plan|e] eqn:Ep; [|vm_compute in Ep; discriminate Ep].
  exists plan.
  apply (confirmed_change_is_verified (fun l => l) example_json example_endpoint example_change InspectLimits_default
    (str "ipp://printer.local:631/ipp/print") (received (example_printer 1)) None plan example_binding
    (received (example_printer 1)) (received accepted) (received (example_printer 2)) (str "copies-default")
    [reply (example_printer 1)] [] [] example_script example_script
    [reply accepted; reply (example_printer 2)] [reply (example_printer 2)] []).
  - reflexivity.
  - by vm_compute.
  - by vm_compute.
  - exact Ep.
  - vm_compute in Ep. apply Ok_inj in Ep as <-. vm_compute. by split_and!.
  - by vm_compute.
  - by vm_compute.
  - by split_and!.
  - by vm_compute.
  - done.
  - by vm_compute.
  - by vm_compute.
Defined.

Lemma inspect_accepts_its_answer_witness : exists body response,
  encode (Message_new V2_0 GET_PRINTER_ATTRIBUTES 2) Limits_default = Ok body /\
  post (ipp_post (str "http://printer.local:631/ipp/print") body) (10 * 1000000000) [reply accepted] = (Responded response, []) /\
  answers InspectLimits_default is_success 2 response (received accepted).
Proof.
  assert (inspect example_endpoint (Message_new V2_0 GET_PRINTER_ATTRIBUTES 2) InspectLimits_default [reply accepted]
    = (Ok (received accepted), [])) as Hr by (by vm_compute).
  apply inspect_accepts_its_answer in Hr as (_ & url & body & response & Hu & He & Hp & Ha); [|done].
  apply (f_equal result_ok) in Hu. vm_compute in Hu. injection Hu as <-. by exists body, response.
Defined.

(** A plan for the scripted printer. *)
Definition scripted_plan : ConfirmedChangePlan := {|
  plan_printer_id := str "p1"; plan_endpoint_generation := 7; plan_setting := str "copies-default";
  expected_old_value_hash := hashed_attribute example_json (Attribute_new (str "copies-default") (Value_integer 1));
  plan_requested_value := SettingValue.Integer 2; requested_protocol_value := Value_integer 2;
  plan_principal := str "operator"; plan_family := FamilyIpp; plan_expires_at_unix_ms := 1000 |}.

Lemma apply_writes_at_most_once_witness : exists reads writes log',
  sent (W := list HttpAnswer) example_endpoint InspectLimits_default (reads ++ writes) [] log' /\
  outcome_sent scripted_plan (str "ipp://printer.local:631/ipp/print")
    (ApplyChangeOutcome.Verified (received accepted) (received (example_printer 2))) writes.
Proof.
  assert ((apply_confirmed_change (W := list HttpAnswer * list HttpRequest) (fun l => l) example_json example_endpoint
    scripted_plan example_binding InspectLimits_default (example_script, [])).1
    = Ok (ApplyChangeOutcome.Verified (received accepted) (received (example_printer 2)))) as Hv
    by (vm_compute; reflexivity).
  destruct (apply_confirmed_change (W := list HttpAnswer * list HttpRequest) (fun l => l) example_json example_endpoint
    scripted_plan example_binding InspectLimits_default (example_script, [])) as [result [w' log']] eqn:Erun in Hv.
  cbn [fst] in Hv. subst result.
  destruct (apply_writes_at_most_once (fun l => l) example_json scripted_bytes example_endpoint scripted_plan
    example_binding InspectLimits_default example_script w' [] log' _ Erun)
    as (reads & writes & Hs & _ & _ & uri & supported & observation & s & s' & Hu & _ & _ & _ & _ & Ho & _).
  assert (Ok (E := IppClientError.t) uri = Ok (str "ipp://printer.local:631/ipp/print")) as Eu
    by (rewrite <- Hu; vm_compute; reflexivity).
  injection Eu as ->. exists reads, writes, log'. split; [exact Hs|exact Ho].
Defined.

(** *** A scripted discovery *)

Definition example_origin : ObservationOrigin := {|
  o_agent_id := None; o_printer_id := str "p1"; o_endpoint := str "ipp://printer.local:631/ipp/print";
  o_endpoint_generation := 7; o_transport := TransportIpp; o_protocol := FamilyIpp; o_request_id := str "r";
  o_probe_id := None; o_observed_at := str "now"; o_qualification := None |}.

Definition answer_of (offset : Z) (attributes : list Attribute) : Message := {|
  version := V2_0; code := 0; request_id := request_number (str "r") offset; original_bytes := [];
  groups := [{| g_tag := PRINTER_ATTRIBUTES_TAG; g_attributes := attributes |}] |}.

(** A printer that answers about its state only when it is asked for it. *)
Definition discovery_script : list HttpAnswer :=
  [reply (answer_of 1 [Attribute_new (str "requested-attributes-supported")
                         (Value_raw ValueTag.Keyword (str "printer-state"))]);
   reply (answer_of 2 [Attribute_new (str "printer-state") (Value_enum 3);
                       Attribute_new (str "printer-name") (Value_raw ValueTag.NameWithoutLanguage (str "desk"))])].

(** What is read of a discovery's result. *)
Definition summary (r : IppDiscoveryResult) : Z * Z * option (list Z) * list (list Z) :=
  (zlen (focused_query_sets (base_response r)), zlen (discovery_formats (base_response r)),
   state (device_state (snapshot r)), map setting_id (device_settings (snapshot r))).

Lemma discovery_asks_distinct_reads_witness : exists ms log',
  sent (W := list HttpAnswer) example_endpoint InspectLimits_default ms [] log' /\ zlen ms = 2 /\ NoDup (map request_id ms).
Proof.
  assert (summary <$> result_ok (discover (W := list HttpAnswer * list HttpRequest) example_endpoint example_origin
    DiscoveryOptions_default (discovery_script, [])).1 = Some (1, 0, Some (str "idle"), [str "printer-name"]))
    as Hv by (vm_compute; reflexivity).
  destruct (discover (W := list HttpAnswer * list HttpRequest) example_endpoint example_origin
    DiscoveryOptions_default (discovery_script, [])) as [result [w' log']] eqn:Erun in Hv.
  cbn [fst] in Hv. destruct result as [r|e]; [|discriminate Hv].
  destruct (discovery_asks_distinct_reads example_endpoint example_origin DiscoveryOptions_default discovery_script w' []
    log' (Ok r) ltac:(done) ltac:(done) ltac:(done) Erun) as (ms & Hs & _ & Hd & _ & Hr).
  destruct (Hr r eq_refl) as [_ Hl]. cbn in Hv. injection Hv as Eq Ef _ _. rewrite Eq, Ef in Hl.
  exists ms, log'. split; [exact Hs|]. split; [exact Hl|exact Hd].
Defined.

Lemma discovery_merges_supplements_witness : exists r : IppDiscoveryResult,
  map setting_id (device_settings (snapshot r)) = [str "printer-name"] /\
  supplements (normalize_ipp example_origin (base_response r) None) (snapshot r).
Proof.
  assert (summary <$> result_ok (discover (W := list HttpAnswer * list HttpRequest) example_endpoint example_origin
    DiscoveryOptions_default (discovery_script, [])).1 = Some (1, 0, Some (str "idle"), [str "printer-name"]))
    as Hv by (vm_compute; reflexivity).
  destruct (discover (W := list HttpAnswer * list HttpRequest) example_endpoint example_origin
    DiscoveryOptions_default (discovery_script, [])) as [result [w' log']] eqn:Erun in Hv.
  cbn [fst] in Hv. destruct result as [r|e]; [|discriminate Hv].
  destruct (discovery_merges_supplements example_endpoint example_origin DiscoveryOptions_default discovery_script w' []
    log' r Erun) as [Hs _].
  cbn in Hv. injection Hv as _ _ _ Es. exists r. split; [exact Es|exact Hs].
Defined.

(** *** A write that is not sent *)

Definition located_printer : Message := {|
  version := V2_0; code := 0; request_id := 1; original_bytes := [];
  groups := [{| g_tag := PRINTER_ATTRIBUTES_TAG; g_attributes := [
    Attribute_new (str "operations-supported") (Value_enum 19);
    Attribute_new (str "printer-settable-attributes-supported") (Value_raw ValueTag.Keyword (str "printer-location"));
    Attribute_new (str "printer-location") (Value_raw ValueTag.TextWithoutLanguage (str "hall"))] |}] |}.

(** A value whose data does not fit its tag. *)
Definition unencodable_plan : ConfirmedChangePlan := {|
  plan_printer_id := str "p1"; plan_endpoint_generation := 7; plan_setting := str "printer-location";
  expected_old_value_hash :=
    hashed_attribute example_json
      (Attribute_new (str "printer-location") (Value_raw ValueTag.TextWithoutLanguage (str "hall")));
  plan_requested_value := SettingValue.Text (str "desk"); requested_protocol_value := mk_Value ValueTag.Integer (Bytes []);
  plan_principal := str "operator"; plan_family := FamilyIpp; plan_expires_at_unix_ms := 1000 |}.

(** A write that cannot be encoded is reported as one that may have reached
    the printer, although only the read before it was sent. *)
Lemma unsent_write_is_ambiguous :
  let run := apply_confirmed_change (W := list HttpAnswer * list HttpRequest) (fun l => l) example_json example_endpoint
    unencodable_plan example_binding InspectLimits_default ([reply located_printer], []) in
  run.1 = Ok (ApplyChangeOutcome.Ambiguous "write" (IppClientError.Encode (EncodeError.TagDataMismatch 33))) /\
  length run.2.2 = 1%nat.
Proof. by vm_compute. Qed.
