(* ===== verification/DnsSd.v ===== *)
(** Discovery of IPP printers by DNS-SD
    (crates/mb-printer-native/src/transports/dns_sd.rs).

    The backend and the clock are the type classes [DnsSdBackend] and [Clock];
    [MdnsSdBackend] is modelled on the events that its receiver yields. An
    [IpAddr] is its octets, four or sixteen.

    What a discovery by DNS-SD promises: bounded requests to the backend, and
    distinct, bounded printers from its records. *)

From stdpp Require Import base gmap sets list sorting strings numbers option.
From S2P Require Import Prelude Effects Text Ordered Transport IppClient.

#[local] Open Scope Z_scope.

Definition IPP_SERVICE_TYPE : list Z := str "_ipp._tcp.local.".
Definition IPPS_SERVICE_TYPE : list Z := str "_ipps._tcp.local.".
Definition MAX_DNS_NAME_BYTES : Z := 1024.
Definition MAX_RESOURCE_BYTES : Z := 1024.

(** ** Data *)

Record DiscoveryLimits := {
  timeout_ms : Z;
  maximum_services : Z;
  maximum_txt_bytes : Z;
  maximum_addresses : Z;
}.

Definition DiscoveryLimits_default : DiscoveryLimits :=
  {| timeout_ms := 3000; maximum_services := 64; maximum_txt_bytes := 4096; maximum_addresses := 16 |}.

Module DiscoveryError.
Inductive t := InvalidLimits | Backend (why : list Z).
End DiscoveryError.

Definition IpAddr : Type := list Z.

Record ResolvedService := {
  service_type : list Z;
  fullname : list Z;
  host : list Z;
  port : Z;
  addresses : list IpAddr;
  txt : list (list Z * list Z);
}.

(** [BTreeSet<IpAddr>] and [BTreeMap<String, Vec<u8>>], which the code does not iterate over. *)
Record DiscoveredIppPrinter := {
  printer_fullname : list Z;
  printer_endpoint : IppEndpoint;
  printer_addresses : gset (list Z);
  printer_txt : gmap (list Z) (list Z);
}.

Definition lowercase (s : list Z) : list Z := map to_ascii_lowercase s.

Definition txt_utf8 (printer : DiscoveredIppPrinter) (key : list Z) : option (list Z) :=
  value ← printer_txt printer !! lowercase key;
  if utf8_valid value then Some value else None.

(** ** One record *)

Definition record_refused (record : ResolvedService) (limits : DiscoveryLimits) : bool :=
  bool_decide (fullname record = []) || (MAX_DNS_NAME_BYTES <? zlen (fullname record))
  || bool_decide (host record = []) || (MAX_DNS_NAME_BYTES <? zlen (host record))
  || (port record =? 0)
  || bool_decide (addresses record = []) || (maximum_addresses limits <? zlen (addresses record)).

(** The loop over the TXT entries. *)
Fixpoint txt_entries (limits : DiscoveryLimits) (entries : list (list Z * list Z)) (txt_size : Z)
    (txt : gmap (list Z) (list Z)) : option (gmap (list Z) (list Z)) :=
  match entries with
  | [] => Some txt
  | (key, value) :: entries =>
      if bool_decide (key = []) then None
      else
        size ← checked usize_max (txt_size + zlen key);
        txt_size ← checked usize_max (size + zlen value);
        if maximum_txt_bytes limits <? txt_size then None
        else txt_entries limits entries txt_size (<[lowercase key := value]> txt)
  end.

Definition resource_of (txt : gmap (list Z) (list Z)) : option (list Z) :=
  match txt !! str "rp" with
  | Some value =>
      if negb (utf8_valid value) then None
      else
        let value := trim value in
        if bool_decide (value = []) || (MAX_RESOURCE_BYTES <? zlen value) || contains_any [13; 10] value then None
        else if starts_with (str "/") value then Some value else Some (str "/" ++ value)
  | None => Some (str "/ipp/print")
  end.

Definition scheme_of (service_type : list Z) : option IppScheme :=
  if bool_decide (service_type = IPP_SERVICE_TYPE) then Some SchemeIpp
  else if bool_decide (service_type = IPPS_SERVICE_TYPE) then Some SchemeIpps
  else None.

Definition normalize (record : ResolvedService) (limits : DiscoveryLimits) : option DiscoveredIppPrinter :=
  scheme ← scheme_of (service_type record);
  if record_refused record limits then None
  else
    txt ← txt_entries limits (txt record) 0 ∅;
    resource ← resource_of txt;
    Some {| printer_fullname := fullname record;
            printer_endpoint := {| ie_scheme := scheme; ie_host := host record; ie_port := port record; ie_resource := resource |};
            printer_addresses := list_to_set (addresses record);
            printer_txt := txt |}.

(** ** Discovery *)

Class DnsSdBackend (B : Type) := {
  browse : list Z -> DiscoveryLimits -> B -> Result (list Z) (list ResolvedService) * B;
}.

(** [BTreeMap<(IppScheme, String), _>]: the order of the keys is that of the scheme and then of the name. *)
Abbreviation Discovered := (gmap (list Z) DiscoveredIppPrinter).

Definition scheme_rank (scheme : IppScheme) : Z := match scheme with SchemeIpp => 0 | SchemeIpps => 1 end.

Definition printer_key (printer : DiscoveredIppPrinter) : list Z :=
  scheme_rank (ie_scheme (printer_endpoint printer)) :: lowercase (printer_fullname printer).

Definition count (discovered : Discovered) : Z := Z.of_nat (size discovered).

(** The loop over the records of one service type. *)
Fixpoint take_records (limits : DiscoveryLimits) (records : list ResolvedService) (discovered : Discovered) : Discovered :=
  match records with
  | [] => discovered
  | record :: records =>
      match normalize record limits with
      | None => take_records limits records discovered
      | Some printer =>
          let discovered := <[printer_key printer := printer]> discovered in
          if maximum_services limits <=? count discovered then discovered
          else take_records limits records discovered
      end
  end.

Definition as_millis (duration : Z) : Z := duration / 1000000.

(** [u64::try_from(remaining.as_millis()).unwrap_or(u64::MAX).max(1) / (2 - index)]. *)
Definition share_ms (remaining index : Z) : Z :=
  Z.max 1 (default u64_max (checked u64_max (as_millis remaining))) / (2 - index).

(** A call of the backend or of the clock, which cannot fail by itself. *)
Definition borrowed {B E A} (call : B -> A * B) : EM B E A := fun b => let '(a, b) := call b in (Ok a, b).

Section Discover.
Context {B : Type} `{DnsSdBackend B} `{Clock B}.

(** The loop over the service types: [break] ends it. *)
Fixpoint browse_types (limits : DiscoveryLimits) (started : Z) (types : list (Z * list Z)) (discovered : Discovered) :
    EM B DiscoveryError.t Discovered :=
  match types with
  | [] => eret discovered
  | (index, service_type) :: types =>
      let! current := borrowed now in
      let elapsed := Z.max 0 (current - started) in
      let remaining := Z.max 0 (timeout_ms limits * 1000000 - elapsed) in
      if (remaining =? 0) || (maximum_services limits <=? count discovered) then eret discovered
      else
        let asked := {| timeout_ms := Z.max (share_ms remaining index) 1;
                        maximum_services := maximum_services limits - count discovered;
                        maximum_txt_bytes := maximum_txt_bytes limits;
                        maximum_addresses := maximum_addresses limits |} in
        let! answer := borrowed (browse service_type asked) in
        let! records := eresult (map_err DiscoveryError.Backend answer) in
        browse_types limits started types (take_records limits records discovered)
  end.

Definition discover_with_backend (limits : DiscoveryLimits) : EM B DiscoveryError.t (list DiscoveredIppPrinter) :=
  if (timeout_ms limits =? 0) || (maximum_services limits =? 0)
     || (maximum_txt_bytes limits =? 0) || (maximum_addresses limits =? 0)
  then ethrow DiscoveryError.InvalidLimits
  else
    let! started := borrowed now in
    let! discovered := browse_types limits started [(0, IPP_SERVICE_TYPE); (1, IPPS_SERVICE_TYPE)] ∅ in
    eret (btree_values discovered).
End Discover.

(** ** The mDNS backend *)

(** What the mdns-sd crate resolves, with its properties, a missing value being empty. *)
Record MdnsService := {
  ty_domain : list Z;
  get_fullname : list Z;
  get_hostname : list Z;
  get_port : Z;
  get_addresses : list IpAddr;
  get_properties : list (list Z * list Z);
}.

Inductive ServiceEvent := ServiceResolved (service : MdnsService) | OtherEvent.

(** The loop over the properties: [None] when they are too long. *)
Fixpoint copy_properties (limits : DiscoveryLimits) (properties : list (list Z * list Z)) (txt_size : Z)
    (txt : list (list Z * list Z)) : option (list (list Z * list Z)) :=
  match properties with
  | [] => Some txt
  | (key, value) :: properties =>
      new_size ← (size ← checked usize_max (txt_size + zlen key); checked usize_max (size + zlen value));
      if maximum_txt_bytes limits <? new_size then None
      else copy_properties limits properties new_size (txt ++ [(key, value)])
  end.

Definition resolve (limits : DiscoveryLimits) (service : MdnsService) : option ResolvedService :=
  if maximum_addresses limits <? zlen (get_addresses service) then None
  else
    txt ← copy_properties limits (get_properties service) 0 [];
    Some {| service_type := ty_domain service; fullname := get_fullname service; host := get_hostname service;
            port := get_port service; addresses := get_addresses service; txt := txt |}.

(** The loop of [MdnsSdBackend::browse] over the events received before the
    time is up or the receiver fails. *)
Fixpoint receive_services (limits : DiscoveryLimits) (events : list ServiceEvent) (services : list ResolvedService) :
    list ResolvedService :=
  match events with
  | [] => services
  | OtherEvent :: events => receive_services limits events services
  | ServiceResolved service :: events =>
      match resolve limits service with
      | None => receive_services limits events services
      | Some resolved =>
          let services := services ++ [resolved] in
          if maximum_services limits <=? zlen services then services
          else receive_services limits events services
      end
  end.

(** * Properties *)

(** ** One record *)

Definition txt_bytes (entries : list (list Z * list Z)) : Z :=
  foldr (fun '(key, value) n => zlen key + zlen value + n) 0 entries.

Lemma txt_bytes_nonneg entries : 0 <= txt_bytes entries.
Proof.
  induction entries as [|[key value] entries IH]; [done|]. cbn [txt_bytes foldr] in *. unfold txt_bytes in *.
  pose proof (zlen_nonneg key). pose proof (zlen_nonneg value). lia.
Qed.

(** The map that the entries make: a later entry replaces an earlier one of the same name. *)
Definition txt_map (entries : list (list Z * list Z)) (txt : gmap (list Z) (list Z)) : gmap (list Z) (list Z) :=
  foldl (fun txt '(key, value) => <[lowercase key := value]> txt) txt entries.

Lemma txt_entries_spec limits entries size txt txt' :
  maximum_txt_bytes limits <= usize_max -> 0 <= size ->
  txt_entries limits entries size txt = Some txt' <->
  Forall (fun '(key, _) => key <> []) entries /\ (entries = [] \/ size + txt_bytes entries <= maximum_txt_bytes limits) /\
  txt' = txt_map entries txt.
Proof.
  intros Hmax. revert size txt. induction entries as [|[key value] entries IH]; intros size txt Hs.
  { cbn. split; [intros [= <-]; split_and!; [constructor|by left|done]|by intros (_ & _ & ->)]. }
  cbn [txt_entries txt_map foldl]. fold (txt_map entries (<[lowercase key := value]> txt)).
  change (txt_bytes ((key, value) :: entries)) with (zlen key + zlen value + txt_bytes entries).
  pose proof (zlen_nonneg key). pose proof (zlen_nonneg value). pose proof (txt_bytes_nonneg entries). rewrite Forall_cons_iff.
  destruct (bool_decide_reflect (key = [])) as [->|Hkey]; [split; [done|intros ([? _] & _); done]|].
  destruct (checked usize_max (size + zlen key)) as [a|] eqn:Ea; cbn [mbind option_bind].
  2: { split; [done|]. intros (_ & [?|?] & _); [done|]. rewrite checked_id in Ea by (unfold in_u; lia). done. }
  apply checked_Some in Ea as [_ ->].
  destruct (checked usize_max (size + zlen key + zlen value)) as [b|] eqn:Eb; cbn [mbind option_bind].
  2: { split; [done|]. intros (_ & [?|?] & _); [done|]. rewrite checked_id in Eb by (unfold in_u; lia). done. }
  apply checked_Some in Eb as [_ ->].
  destruct (Z.ltb_spec (maximum_txt_bytes limits) (size + zlen key + zlen value)); [split; [done|intros (_ & [?|?] & _); [done|lia]]|].
  rewrite IH by lia. split.
  - intros (Hk & Hb & ->). split_and!; [done|done| |done]. right. destruct Hb as [-> |]; [cbn; lia|lia].
  - intros ([_ Hk] & [?|Hb] & ->); [done|]. split_and!; [done|right; lia|done].
Qed.

(** A resource path that a request may name. *)
Definition good_resource (resource : list Z) : Prop :=
  starts_with (str "/") resource = true /\ contains_any [13; 10] resource = false /\ zlen resource <= MAX_RESOURCE_BYTES + 1.

Lemma resource_of_good txt resource : resource_of txt = Some resource -> good_resource resource.
Proof.
  unfold resource_of, good_resource. destruct (txt !! str "rp") as [value|]; [|intros [= <-]; by vm_compute].
  destruct (negb (utf8_valid value)); [done|]. cbn zeta.
  destruct (bool_decide (trim value = []) || (MAX_RESOURCE_BYTES <? zlen (trim value)) || contains_any [13; 10] (trim value)) eqn:Hbad; [done|].
  apply orb_false_iff in Hbad as [Hbad Hc]. apply orb_false_iff in Hbad as [_ Hz]. apply Z.ltb_ge in Hz.
  destruct (starts_with (str "/") (trim value)) eqn:Hs; intros [= <-]; [split_and!; [done|done|lia]|].
  split_and!; [done|exact Hc|]. rewrite zlen_cons. cbn [app]. lia.
Qed.

(** A printer that a discovery may report. *)
Record good_printer (limits : DiscoveryLimits) (record : ResolvedService) (printer : DiscoveredIppPrinter) : Prop := {
  good_name : printer_fullname printer = fullname record /\ 0 < zlen (fullname record) <= MAX_DNS_NAME_BYTES;
  good_scheme : scheme_of (service_type record) = Some (ie_scheme (printer_endpoint printer));
  good_host : ie_host (printer_endpoint printer) = host record /\ 0 < zlen (host record) <= MAX_DNS_NAME_BYTES;
  good_port : ie_port (printer_endpoint printer) = port record /\ port record <> 0;
  good_path : good_resource (ie_resource (printer_endpoint printer));
  good_addresses : printer_addresses printer = list_to_set (addresses record) /\ 0 < zlen (addresses record) <= maximum_addresses limits;
  good_txt : printer_txt printer = txt_map (txt record) ∅ /\ (txt record = [] \/ txt_bytes (txt record) <= maximum_txt_bytes limits);
}.

Lemma zlen_pos {A} (l : list A) : l <> [] -> 0 < zlen l.
Proof. destruct l; [done|]. intros _. rewrite zlen_cons. pose proof (zlen_nonneg l). lia. Qed.

Lemma normalize_good limits record printer :
  maximum_txt_bytes limits <= usize_max -> normalize record limits = Some printer -> good_printer limits record printer.
Proof.
  intros Hmax E. unfold normalize in E. destruct (scheme_of (service_type record)) as [scheme|] eqn:Es; [|done]. cbn [mbind option_bind] in E.
  destruct (record_refused record limits) eqn:Hr; [done|]. unfold record_refused in Hr. rewrite !orb_false_iff in Hr.
  destruct Hr as ((((((H1 & H2) & H3) & H4) & H5) & H6) & H7). rewrite bool_decide_eq_false in H1, H3, H6.
  apply Z.ltb_ge in H2, H4, H7. apply Z.eqb_neq in H5. apply zlen_pos in H1, H3, H6.
  destruct (txt_entries limits (txt record) 0 ∅) as [m|] eqn:Et; [|done]. cbn [mbind option_bind] in E.
  apply txt_entries_spec in Et as (_ & Hb & ->); [|done|done]. rewrite Z.add_0_l in Hb.
  destruct (resource_of (txt_map (txt record) ∅)) as [resource|] eqn:Ep; [|done]. cbn [mbind option_bind] in E. injection E as <-.
  apply resource_of_good in Ep. by split.
Qed.

(** ** Collecting records *)

(** Every printer of the map is under its key, and comes from one of the records. *)
Definition collected (limits : DiscoveryLimits) (records : list ResolvedService) (d : Discovered) : Prop :=
  count d <= maximum_services limits /\
  forall k printer, d !! k = Some printer ->
    k = printer_key printer /\ exists record, record ∈ records /\ normalize record limits = Some printer.

Lemma collected_mono limits records records' d :
  (forall r, r ∈ records -> r ∈ records') -> collected limits records d -> collected limits records' d.
Proof.
  intros Hin [Hc Hd]. split; [done|]. intros k printer H. destruct (Hd k printer H) as (-> & r & Hr & En). split; [done|]. exists r. auto.
Qed.

Lemma take_records_collected limits seen records d :
  count d < maximum_services limits -> collected limits seen d -> collected limits (seen ++ records) (take_records limits records d).
Proof.
  revert seen d. induction records as [|record records IH]; intros seen d Hc Hd; [by rewrite app_nil_r|]. cbn [take_records].
  assert (collected limits (seen ++ [record]) d) as Hd' by (eapply collected_mono; [|exact Hd]; intros r Hr; apply elem_of_app; by left).
  replace (seen ++ record :: records) with ((seen ++ [record]) ++ records) by (by rewrite <- app_assoc).
  destruct (normalize record limits) as [printer|] eqn:En; [|by apply IH]. set (d' := <[printer_key printer := printer]> d).
  assert (count d' <= count d + 1) as Hsize.
  { unfold count, d'. pose proof (map_size_insert (printer_key printer) printer d) as E.
    destruct (d !! printer_key printer); cbv beta iota delta [id] in E; lia. }
  assert (collected limits (seen ++ [record]) d') as Hcollected.
  { split; [lia|]. intros k p H. unfold d' in H. apply lookup_insert_Some in H as [[<- <-]|[_ H]]; [|by apply Hd'].
    split; [done|]. exists record. split; [apply elem_of_app; right; by left|done]. }
  destruct (Z.leb_spec (maximum_services limits) (count d')) as [Hfull|Hfull]; [|by apply IH].
  eapply collected_mono; [|exact Hcollected]. intros r Hr. apply elem_of_app. by left.
Qed.

(** ** The calls of the backend *)

(** A backend that records what it is asked and what it answers. *)
Record Browsed := { asked_type : list Z; asked_limits : DiscoveryLimits; answered : Result (list Z) (list ResolvedService) }.

#[global] Instance recorded_backend {B} `{DnsSdBackend B} : DnsSdBackend (B * list Browsed) := {
  browse service_type limits b :=
    let '(answer, env) := browse service_type limits (fst b) in
    (answer, (env, snd b ++ [{| asked_type := service_type; asked_limits := limits; answered := answer |}]));
}.

#[global] Instance recorded_clock {B} `{Clock B} : Clock (B * list Browsed) := {
  now b := let '(t, env) := now (fst b) in (t, (env, snd b));
}.

(** The records of the answers. *)
Definition records_of (log : list Browsed) : list ResolvedService :=
  flat_map (fun b => match answered b with Ok records => records | Err _ => [] end) log.

(** A request asks for what is left, and for at most half of the time, or the rest. *)
Definition asked_within (limits : DiscoveryLimits) (index : Z) (b : Browsed) : Prop :=
  1 <= timeout_ms (asked_limits b) <= Z.max 1 (timeout_ms limits / (2 - index)) /\
  1 <= maximum_services (asked_limits b) <= maximum_services limits /\
  maximum_txt_bytes (asked_limits b) = maximum_txt_bytes limits /\ maximum_addresses (asked_limits b) = maximum_addresses limits.

Definition limits_typed (limits : DiscoveryLimits) : Prop :=
  in_u u64_max (timeout_ms limits) /\ 0 <= maximum_services limits /\ in_u usize_max (maximum_txt_bytes limits).

Lemma share_bounds limits index elapsed :
  limits_typed limits -> 0 <= index <= 1 -> 0 <= elapsed ->
  let remaining := Z.max 0 (timeout_ms limits * 1000000 - elapsed) in
  1 <= Z.max (share_ms remaining index) 1 <= Z.max 1 (timeout_ms limits / (2 - index)).
Proof.
  intros ([Ht0 Ht] & _) Hi He remaining. unfold share_ms, as_millis.
  assert (0 <= remaining / 1000000 <= timeout_ms limits) as Hr.
  { split; [apply Z.div_pos; lia|]. apply Z.div_le_upper_bound; lia. }
  rewrite checked_id by (unfold in_u; lia). cbv [default from_option id].
  assert (Z.max 1 (remaining / 1000000) / (2 - index) <= Z.max 1 (timeout_ms limits) / (2 - index)) as H1 by (apply Z.div_le_mono; lia).
  assert (index = 0 \/ index = 1) as [-> | ->] by lia; change (2 - 0) with 2 in *; change (2 - 1) with 1 in *; rewrite ?Z.div_1_r in *.
  - destruct (Z.max_spec 1 (timeout_ms limits)) as [[_ E]|[_ E]]; rewrite E in *; [lia|]. change (1 / 2) with 0 in H1. lia.
  - lia.
Qed.

Section Discovery.
Context {B : Type} `{DB : DnsSdBackend B} `{CB : Clock B} (limits : DiscoveryLimits) (Hlimits : limits_typed limits).

Definition log_ok (log : list Browsed) (d : Discovered) : Prop := collected limits (records_of log) d.

Lemma browse_types_spec started types d (s : B * list Browsed) :
  Forall (fun '(index, _) => 0 <= index <= 1) types -> log_ok (snd s) d ->
  spec (browse_types limits started types d) s
    (fun d' s' => exists new, snd s' = snd s ++ new /\ Forall2 (fun t b => t.2 = asked_type b /\ asked_within limits t.1 b) (take (length new) types) new /\ log_ok (snd s') d')
    (fun e s' => (exists why, e = Raised (DiscoveryError.Backend why)) /\ exists new, snd s' = snd s ++ new /\ Forall2 (fun t b => t.2 = asked_type b /\ asked_within limits t.1 b) (take (length new) types) new).
Proof using Hlimits.
  intros Ht. revert d s. induction Ht as [|[index service_type] types Hi Ht IH]; intros d [b log] Hd; unfold spec; cbn [browse_types].
  { exists []. by rewrite app_nil_r. }
  unfold ebind, borrowed. cbn [now recorded_clock fst snd]. destruct (now b) as [current b1].
  destruct (_ || _) eqn:Hstop; [exists []; by rewrite app_nil_r|]. apply orb_false_iff in Hstop as [_ Hroom]. apply Z.leb_gt in Hroom.
  cbn [browse recorded_backend fst snd]. set (asked := {| timeout_ms := _; maximum_services := _ |}).
  destruct (browse service_type asked b1) as [answer b2]. set (call := {| asked_type := service_type; asked_limits := asked; answered := answer |}).
  assert (asked_within limits index call) as Hasked.
  { unfold asked_within. cbn [asked_limits call asked timeout_ms maximum_services maximum_txt_bytes maximum_addresses].
    split; [apply share_bounds; [done|done|lia]|]. split; [|done]. unfold count in *. lia. }
  destruct answer as [records|why]; cbn [eresult raising map_err].
  2: { split; [by eexists|]. exists [call]. split; [done|]. cbn [length take]. by constructor. }
  assert (log_ok (log ++ [call]) (take_records limits records d)) as Hd'.
  { unfold log_ok, records_of. rewrite flat_map_app. cbn [flat_map call answered]. rewrite app_nil_r. by apply take_records_collected. }
  specialize (IH (take_records limits records d) (b2, log ++ [call]) Hd'). unfold spec in IH. cbn [snd] in IH.
  destruct (browse_types limits started types _ _) as [[d'|e] s'].
  - destruct IH as (new & -> & Hnew & Hlog). exists (call :: new). rewrite <- app_assoc in *. split_and!; [done| |done].
    cbn [length take]. by constructor.
  - destruct IH as (He & new & -> & Hnew). split; [done|]. exists (call :: new). rewrite <- app_assoc. split; [done|].
    cbn [length take]. by constructor.
Qed.

(** The printers of a map, in the strict order of their keys. *)
Lemma btree_iter_strict {V} (m : gmap (list Z) V) : StronglySorted (fun p q => lex_lt p.1 q.1) (btree_iter m).
Proof using.
  clear. assert (NoDup (btree_iter m).*1) as Hnd.
  { unfold btree_iter. rewrite merge_sort_Permutation. apply NoDup_fst_map_to_list. }
  pose proof (btree_iter_sorted m) as Hs. induction Hs as [|p l Hl IH Hp]; [constructor|].
  cbn [fmap list_fmap] in Hnd. inversion_clear Hnd as [|? ? Hnot Hnd']. constructor; [by apply IH|].
  apply list.Forall_forall. intros q Hq. pose proof (proj1 (list.Forall_forall _ _) Hp q Hq) as Hle.
  unfold entry_le in Hle. apply lex_le_lt in Hle as [E|]; [|done]. destruct Hnot. rewrite E. by apply list_elem_of_fmap_2.
Qed.

Lemma StronglySorted_map_mono {A V} (R : A -> A -> Prop) (R' : V -> V -> Prop) (f : A -> V) l :
  (forall a b, a ∈ l -> b ∈ l -> R a b -> R' (f a) (f b)) -> StronglySorted R l -> StronglySorted R' (map f l).
Proof using.
  clear. intros Hf Hs. induction Hs as [|a l Hl IH Ha]; [constructor|]. cbn [map]. constructor.
  - apply IH. intros b c Hb Hc. apply Hf; by right.
  - apply list.Forall_forall. intros v (b & -> & Hb)%list_elem_of_fmap. apply Hf; [left|by right|].
    exact (proj1 (list.Forall_forall _ _) Ha b Hb).
Qed.

Lemma collected_values records d :
  collected limits records d ->
  zlen (btree_values d) <= maximum_services limits /\
  StronglySorted (fun p q => lex_lt (printer_key p) (printer_key q)) (btree_values d) /\
  Forall (fun p => exists record, record ∈ records /\ good_printer limits record p) (btree_values d).
Proof using Hlimits.
  intros [Hc Hd]. split_and!.
  - unfold btree_values. rewrite zlen_map. unfold zlen. rewrite length_btree_iter. exact Hc.
  - apply (StronglySorted_map_mono (fun p q => lex_lt p.1 q.1)); [|apply btree_iter_strict].
    intros [k p] [k' q] Hp%elem_of_btree_iter Hq%elem_of_btree_iter. cbn [fst snd].
    by rewrite (proj1 (Hd k p Hp)), (proj1 (Hd k' q Hq)).
  - apply list.Forall_forall. intros p (k & Hp)%elem_of_btree_values. destruct (Hd k p Hp) as (_ & r & Hr & En).
    exists r. split; [done|]. apply normalize_good; [|done]. by destruct Hlimits as (_ & _ & ? & ?).
Qed.

(** A discovery asks the backend at most twice, first for IPP with at most half
    of the time and then for IPPS, and never for more than is left; whatever it
    answers, the discovery ends without a panic. What it reports are at most the
    permitted number of printers, in the order of scheme and name and none
    twice, each from a record of the answers and within all limits. *)
Theorem discovery_bounded (b : B) :
  let '(r, (_, log)) := discover_with_backend limits (b, []) in
  panics r = false /\
  Forall2 (fun t call => t.2 = asked_type call /\ asked_within limits t.1 call)
    (take (length log) [(0, IPP_SERVICE_TYPE); (1, IPPS_SERVICE_TYPE)]) log /\
  forall printers, r = Ok printers ->
    zlen printers <= maximum_services limits /\
    StronglySorted (fun p q => lex_lt (printer_key p) (printer_key q)) printers /\
    Forall (fun p => exists record, record ∈ records_of log /\ good_printer limits record p) printers.
Proof using Hlimits.
  unfold discover_with_backend. destruct (_ || _); [cbn; split_and!; [done|constructor|done]|].
  unfold ebind at 1, borrowed. cbn [now recorded_clock fst snd]. destruct (now b) as [started b1].
  assert (log_ok [] ∅) as Hempty.
  { split; [unfold count; rewrite map_size_empty; destruct Hlimits as (_ & ? & _); lia|]. intros k p H. by rewrite lookup_empty in H. }
  pose proof (browse_types_spec started [(0, IPP_SERVICE_TYPE); (1, IPPS_SERVICE_TYPE)] ∅ (b1, [])) as H.
  unfold spec in H. unfold ebind. destruct (browse_types limits started _ ∅ (b1, [])) as [[d|e] [b2 log]].
  - destruct H as (new & E & Hnew & Hlog); [by repeat constructor|exact Hempty|]. cbn [snd app] in E, Hlog. subst new.
    cbn [eret]. split_and!; [done|exact Hnew|]. intros printers [= <-]. by apply collected_values.
  - destruct H as ((why & ->) & new & E & Hnew); [by repeat constructor|exact Hempty|]. cbn [snd app] in E. subst new. by split_and!.
Qed.
End Discovery.

(** ** Example *)

(** A backend that has one printer for IPP, announced twice. *)
Definition sample_service (name : string) : ResolvedService := {|
  service_type := IPP_SERVICE_TYPE; fullname := str name; host := str "printer.local."; port := 631;
  addresses := [[192; 168; 0; 7]]; txt := [(str "RP", str "ipp/labels")] |}.

Definition sample_backend : DnsSdBackend unit := {|
  browse service_type limits b :=
    (Ok (if bool_decide (service_type = IPP_SERVICE_TYPE) then [sample_service "Label"; sample_service "LABEL"] else []), b) |}.

Definition sample_clock : Clock unit := {| now b := (0, b) |}.

#[local] Existing Instances sample_backend sample_clock.

Example discovered_once :
  match fst (discover_with_backend DiscoveryLimits_default tt) with
  | Ok [printer] => Some (printer_fullname printer, ie_resource (printer_endpoint printer))
  | _ => None
  end = Some (str "LABEL", str "/ipp/labels").
Proof. by vm_compute. Qed.

(** ** The mDNS backend *)

(** The services that the mDNS backend returns are within the limits. *)
Lemma copy_properties_spec limits properties size acc txt :
  copy_properties limits properties size acc = Some txt -> 0 <= size ->
  txt = acc ++ properties /\ (properties = [] \/ size + txt_bytes properties <= maximum_txt_bytes limits).
Proof.
  revert size acc. induction properties as [|[key value] properties IH]; intros size acc E Hs; cbn [copy_properties] in E.
  { injection E as <-. split; [by rewrite app_nil_r|by left]. }
  pose proof (zlen_nonneg key). pose proof (zlen_nonneg value).
  destruct (checked usize_max (size + zlen key)) as [a|] eqn:Ea; [|done]. cbn [mbind option_bind] in E. apply checked_Some in Ea as [_ ->].
  destruct (checked usize_max (size + zlen key + zlen value)) as [c|] eqn:Ec; [|done]. cbn [mbind option_bind] in E.
  apply checked_Some in Ec as [_ ->]. destruct (Z.ltb_spec (maximum_txt_bytes limits) (size + zlen key + zlen value)); [done|].
  apply IH in E as [-> Hb]; [|lia]. split; [by rewrite <- app_assoc|]. right.
  change (txt_bytes ((key, value) :: properties)) with (zlen key + zlen value + txt_bytes properties).
  destruct Hb as [-> | ]; [cbn; lia|lia].
Qed.

Definition service_within (limits : DiscoveryLimits) (service : ResolvedService) : Prop :=
  zlen (addresses service) <= maximum_addresses limits /\
  (txt service = [] \/ txt_bytes (txt service) <= maximum_txt_bytes limits).

Lemma received_within limits events services :
  1 <= maximum_services limits -> zlen services < maximum_services limits -> Forall (service_within limits) services ->
  zlen (receive_services limits events services) <= maximum_services limits /\
  Forall (service_within limits) (receive_services limits events services).
Proof.
  intros Hm. revert services. induction events as [|[service|] events IH]; intros services Hn Hs; cbn [receive_services]; [split; [lia|done]| |by apply IH].
  destruct (resolve limits service) as [resolved|] eqn:Er; [|by apply IH].
  assert (Forall (service_within limits) (services ++ [resolved])) as Hs'.
  { apply Forall_app_2; [done|]. constructor; [|constructor]. unfold resolve in Er.
    destruct (Z.ltb_spec (maximum_addresses limits) (zlen (get_addresses service))); [done|].
    destruct (copy_properties limits (get_properties service) 0 []) as [txt|] eqn:Et; [|done]. cbn [mbind option_bind] in Er.
    injection Er as <-. apply copy_properties_spec in Et as [-> Hb]; [|done]. by split. }
  assert (zlen (services ++ [resolved]) = zlen services + 1) as E by (by rewrite zlen_app).
  destruct (Z.leb_spec (maximum_services limits) (zlen (services ++ [resolved]))); [split; [lia|done]|]. apply IH; [lia|done].
Qed.
