(* ===== verification/Agent.v ===== *)
(** The printer agent (crates/mb-printer-agent and mb-printer-agent-proto): the
    wire contract of a session, the validation of requests, the executor with
    its published printers and consumed write requests, and its three
    executions: the read-only IPP inspection, guarded changes and registered
    probes. The IPP client is that of IppClient.v over an arbitrary HTTP client;
    cancellation and the runner of probes are the type class [AgentEnv].
    SHA-256, the JSON of the results and the JSON of requested values are
    parameters. *)

From stdpp Require Import base gmap sets list strings numbers option.
From S2P Require Import Prelude Text Ordered Effects Capabilities Ipp Administration Discovery Probe IppClient.

#[local] Open Scope list_scope.
#[local] Open Scope Z_scope.

(** ** The wire contract (agent_session.proto) *)

Inductive OperationKind :=
| KindUnspecified | KindIppInspect | KindReadSetting | KindRunProbe | KindPlanChange | KindApplyChange.

#[global] Instance OperationKind_eq_dec : EqDecision OperationKind.
Proof. solve_decision. Defined.

(** [as i32]. *)
Definition operation_kind_i32 (kind : OperationKind) : Z :=
  match kind with
  | KindUnspecified => 0 | KindIppInspect => 1 | KindReadSetting => 2
  | KindRunProbe => 3 | KindPlanChange => 4 | KindApplyChange => 5
  end.

Inductive WireOutputMode := WireNormalizedRedacted | WireRawRedacted | WireRawSensitive.

Definition wire_output_mode_i32 (mode : WireOutputMode) : Z :=
  match mode with WireNormalizedRedacted => 0 | WireRawRedacted => 1 | WireRawSensitive => 2 end.

(** [WireOutputMode::try_from]. *)
Definition wire_output_mode (mode : Z) : option WireOutputMode :=
  match mode with
  | 0 => Some WireNormalizedRedacted
  | 1 => Some WireRawRedacted
  | 2 => Some WireRawSensitive
  | _ => None
  end.

Inductive RejectionReason :=
| ReasonUnspecified | UnsupportedVersion | UnsupportedOperationReason | UnknownPrinter | StaleEndpoint
| ExpiredReason | Unauthorized | LimitExceeded | PolicyReason.

Inductive ResultOutcome :=
| OutcomeUnspecified | Succeeded | OutcomeRejected | OutcomeCancelled | TimedOut | ResponseTooLargeOutcome
| Disconnected | AmbiguousWrite | OutcomeFailed.

Record ProtocolOperationLimits := { lim_timeout_ms : Z; lim_maximum_response_bytes : Z }.

Record IppInspect := {
  requested_attributes : list (list Z);
  document_format : option (list Z);
  inspect_output_mode : Z;
}.

Record PlanChange := {
  pc_setting_id : list Z;
  pc_requested_value : list Z;
  pc_protocol : list Z;
}.

Record ApplyChange := {
  ac_setting_id : list Z;
  ac_expected_old_value_hash : list Z;
  ac_requested_value : list Z;
  ac_protocol : list Z;
  ac_plan_expires_at_unix_ms : Z;
  ac_expected_requested_value_hash : list Z;
}.

(** The [oneof operation] of a request. *)
Module Operation.
Inductive t :=
| IppInspect (operation : IppInspect)
| ReadSetting (setting_id : list Z)
| RunProbe (probe_id : list Z)
| PlanChange (operation : PlanChange)
| ApplyChange (operation : ApplyChange).
End Operation.

Record ProtocolRequest := {
  pr_request_id : list Z;
  pr_contract_version : Z;
  authenticated_principal : list Z;
  pr_target : list Z;
  pr_generation : Z;
  expires_at_unix_ms : Z;
  pr_operation_limits : option ProtocolOperationLimits;
  pr_operation : option Operation.t;
}.

Record ProtocolRequestAccepted := { accepted_request_id : list Z; accepted_at_unix_ms : Z }.

Record ProtocolRequestRejected := {
  rejected_request_id : list Z;
  rejected_reason : RejectionReason;
  safe_message : list Z;
}.

Record EvidenceOrigin := {
  eo_agent_id : list Z;
  eo_printer_id : list Z;
  eo_endpoint : list Z;
  eo_endpoint_generation : Z;
  eo_transport : list Z;
  eo_protocol : list Z;
  eo_request_id : list Z;
  eo_probe_id : option (list Z);
  eo_qualification_id : option (list Z);
}.

Record ProtocolResult := {
  res_request_id : list Z;
  outcome : ResultOutcome;
  bounded_response : list Z;
  res_evidence : list EvidenceOrigin;
  res_output_mode : Z;
  safe_error : list Z;
  persistence_allowed : bool;
  logging_allowed : bool;
}.

Record WirePublishedPrinter := {
  wp_printer_id : list Z;
  wp_endpoint_generation : Z;
  wp_operations : list Z;
}.

Record AgentCapabilities := {
  cap_agent_id : list Z;
  contract_versions : list Z;
  cap_operations : list Z;
  cap_transports : list (list Z);
  cap_maximum_response_bytes : Z;
  cap_maximum_timeout_ms : Z;
  supports_redaction : bool;
  cap_printers : list WirePublishedPrinter;
}.

(** ** Validation of requests *)

Module ContractError.
Inductive t :=
| MissingIdentity | Expired | InvalidLimits | MissingOperation | UnsupportedOperation | InitialReleaseIppInspectOnly.
End ContractError.

(** The [Display] of a contract error. *)
Definition ContractError_fmt (e : ContractError.t) : list Z :=
  match e with
  | ContractError.MissingIdentity => str "request identity and principal fields must be non-empty"
  | ContractError.Expired => str "request has expired"
  | ContractError.InvalidLimits => str "request limits are missing, zero, or exceed agent capabilities"
  | ContractError.MissingOperation => str "operation is missing"
  | ContractError.UnsupportedOperation => str "operation is not enabled by this agent session"
  | ContractError.InitialReleaseIppInspectOnly => str "initial cloud release accepts only IppInspect"
  end.

Definition operation_kind (operation : Operation.t) : OperationKind :=
  match operation with
  | Operation.IppInspect _ => KindIppInspect
  | Operation.ReadSetting _ => KindReadSetting
  | Operation.RunProbe _ => KindRunProbe
  | Operation.PlanChange _ => KindPlanChange
  | Operation.ApplyChange _ => KindApplyChange
  end.

Definition identity_missing (request : ProtocolRequest) : bool :=
  bool_decide (pr_request_id request = []) || bool_decide (authenticated_principal request = [])
  || bool_decide (pr_target request = []) || (pr_contract_version request =? 0).

Definition limits_exceeded (limits : ProtocolOperationLimits) (maximum_timeout_ms maximum_response_bytes : Z) : bool :=
  (lim_timeout_ms limits =? 0) || (lim_maximum_response_bytes limits =? 0)
  || (maximum_timeout_ms <? lim_timeout_ms limits) || (maximum_response_bytes <? lim_maximum_response_bytes limits).

Definition validate_request (request : ProtocolRequest) (now_unix_ms maximum_timeout_ms maximum_response_bytes : Z)
    (enabled_operations : list OperationKind) : Result ContractError.t unit :=
  if identity_missing request then Err ContractError.MissingIdentity
  else if expires_at_unix_ms request <=? now_unix_ms then Err ContractError.Expired
  else
    let? limits := ok_or (pr_operation_limits request) ContractError.InvalidLimits in
    if limits_exceeded limits maximum_timeout_ms maximum_response_bytes then Err ContractError.InvalidLimits
    else
      let? operation := ok_or (pr_operation request) ContractError.MissingOperation in
      ensure (bool_decide (operation_kind operation ∈ enabled_operations)) ContractError.UnsupportedOperation.

Definition validate_initial_release_request (request : ProtocolRequest) : Result ContractError.t unit :=
  match pr_operation request with
  | Some (Operation.IppInspect _) => Ok tt
  | _ => Err ContractError.InitialReleaseIppInspectOnly
  end.

(** ** The executor *)

Record AgentPolicy := {
  agent_id : list Z;
  contract_version : Z;
  maximum_timeout_ms : Z;
  policy_response_bytes : Z;
  allow_cloud_raw_redacted : bool;
  allow_cloud_raw_sensitive : bool;
}.

Record PublishedPrinter := {
  pp_printer_id : list Z;
  pp_generation : Z;
  pp_endpoint : IppEndpoint;
}.

(** Persistent IPP attributes separately approved by local policy. *)
Record GuardedWritePolicy := { allowed_settings : gset (list Z) }.

Record CloudChangeReceipt := {
  rc_printer_id : list Z;
  rc_endpoint_generation : Z;
  rc_setting : list Z;
  rc_expected_old_value_hash : list Z;
  rc_expected_requested_value_hash : list Z;
  rc_principal : list Z;
  rc_protocol : ProtocolFamily;
  rc_expires_at_unix_ms : Z;
}.

Record PublishedProbeTarget := {
  pt_printer_id : list Z;
  pt_endpoint_generation : Z;
  pt_endpoint_identity : list Z;
  pt_transport : TransportKind;
  pt_protocol : ProtocolFamily;
  pt_manufacturer : option (list Z);
  pt_model : option (list Z);
  pt_firmware : option (list Z);
  pt_printer_definition : option PrinterDefinition;
}.

Record ProbeRunOutput := { probe_response : list Z; run_duration_ms : Z }.

(** [InitialExecution]. *)
Module InitialExecution.
Inductive t :=
| Rejected (rejected : ProtocolRequestRejected)
| Accepted (accepted : ProtocolRequestAccepted) (result : ProtocolResult).
End InitialExecution.

(** The fields behind the executor's locks; the client has no state of its own. *)
Record AgentExecutor := {
  policy : AgentPolicy;
  printers : gmap (list Z) PublishedPrinter;
  guarded_write_requests : gset (list Z);
}.

Module AgentBuildError.
Inductive t := InvalidPolicy | Client (e : IppClientError.t).
End AgentBuildError.

Definition policy_invalid (policy : AgentPolicy) : bool :=
  bool_decide (agent_id policy = []) || (contract_version policy =? 0)
  || (maximum_timeout_ms policy =? 0) || (policy_response_bytes policy <? 8).

(** [new], given what building the HTTP client returned. *)
Definition AgentExecutor_new (policy : AgentPolicy) (client : Result IppClientError.t unit) :
    Result AgentBuildError.t AgentExecutor :=
  if policy_invalid policy then Err AgentBuildError.InvalidPolicy
  else
    let? _ := map_err AgentBuildError.Client client in
    Ok {| policy := policy; printers := ∅; guarded_write_requests := ∅ |}.

Definition with_client (policy : AgentPolicy) : Result AgentBuildError.t AgentExecutor :=
  if policy_invalid policy then Err AgentBuildError.InvalidPolicy
  else Ok {| policy := policy; printers := ∅; guarded_write_requests := ∅ |}.

Definition publish (agent : AgentExecutor) (printer : PublishedPrinter) : Result (list Z) unit * AgentExecutor :=
  if bool_decide (pp_printer_id printer = []) || (pp_generation printer =? 0)
  then (Err (str "published printer identity and generation must be valid"), agent)
  else (Ok tt, {| policy := policy agent;
                  printers := <[pp_printer_id printer := printer]> (printers agent);
                  guarded_write_requests := guarded_write_requests agent |}).

Definition capabilities (agent : AgentExecutor) : AgentCapabilities := {|
  cap_agent_id := agent_id (policy agent);
  contract_versions := [contract_version (policy agent)];
  cap_operations := [operation_kind_i32 KindIppInspect];
  cap_transports := [str "ipp"; str "ipps"];
  cap_maximum_response_bytes := policy_response_bytes (policy agent);
  cap_maximum_timeout_ms := maximum_timeout_ms (policy agent);
  supports_redaction := true;
  cap_printers :=
    map (fun printer => {|
           wp_printer_id := pp_printer_id printer;
           wp_endpoint_generation := pp_generation printer;
           wp_operations := [operation_kind_i32 KindIppInspect] |}) (btree_values (printers agent));
|}.

(** The operations a later phase adds, for the agent and for every printer. *)
Definition with_operations (kinds : list OperationKind) (c : AgentCapabilities) : AgentCapabilities := {|
  cap_agent_id := cap_agent_id c;
  contract_versions := contract_versions c;
  cap_operations := cap_operations c ++ map operation_kind_i32 kinds;
  cap_transports := cap_transports c;
  cap_maximum_response_bytes := cap_maximum_response_bytes c;
  cap_maximum_timeout_ms := cap_maximum_timeout_ms c;
  supports_redaction := supports_redaction c;
  cap_printers :=
    map (fun printer => {|
           wp_printer_id := wp_printer_id printer;
           wp_endpoint_generation := wp_endpoint_generation printer;
           wp_operations := wp_operations printer ++ map operation_kind_i32 kinds |}) (cap_printers c);
|}.

Definition guarded_ipp_capabilities (agent : AgentExecutor) (guard : GuardedWritePolicy) : AgentCapabilities :=
  let capabilities := capabilities agent in
  if bool_decide (allowed_settings guard = ∅) then capabilities
  else with_operations [KindPlanChange; KindApplyChange] capabilities.

Definition registered_probe_capabilities (agent : AgentExecutor) (registry : ProbeRegistry) : AgentCapabilities :=
  let capabilities := capabilities agent in
  match probe_iter registry with
  | [] => capabilities
  | _ :: _ => with_operations [KindRunProbe] capabilities
  end.

(** ** Results *)

Definition terminal (request_id : list Z) (outcome : ResultOutcome) (message : string) : ProtocolResult := {|
  res_request_id := request_id;
  outcome := outcome;
  bounded_response := [];
  res_evidence := [];
  res_output_mode := wire_output_mode_i32 WireNormalizedRedacted;
  safe_error := str message;
  persistence_allowed := false;
  logging_allowed := false;
|}.

Definition reject (request_id : list Z) (reason : RejectionReason) (message : list Z) : ProtocolRequestRejected :=
  {| rejected_request_id := request_id; rejected_reason := reason; safe_message := message |}.

Definition rejection (request_id : list Z) (error : ContractError.t) : ProtocolRequestRejected :=
  let reason :=
    match error with
    | ContractError.Expired => ExpiredReason
    | ContractError.InvalidLimits => LimitExceeded
    | ContractError.UnsupportedOperation | ContractError.InitialReleaseIppInspectOnly => UnsupportedOperationReason
    | ContractError.MissingIdentity | ContractError.MissingOperation => PolicyReason
    end in
  reject request_id reason (ContractError_fmt error).

(** The result of a value by its JSON, [None] when it cannot be serialized. *)
Definition bounded_json_result (request_id : list Z) (json : option (list Z)) (maximum_response_bytes : Z) :
    ProtocolResult :=
  match json with
  | Some bytes =>
      if zlen bytes <=? maximum_response_bytes then {|
        res_request_id := request_id;
        outcome := Succeeded;
        bounded_response := bytes;
        res_evidence := [];
        res_output_mode := wire_output_mode_i32 WireNormalizedRedacted;
        safe_error := [];
        persistence_allowed := false;
        logging_allowed := false |}
      else terminal request_id ResponseTooLargeOutcome "response exceeds configured limit"
  | None => terminal request_id OutcomeFailed "response serialization failed"
  end.

Definition probe_result (request_id : list Z) (json : option (list Z)) (maximum_response_bytes : Z) : ProtocolResult :=
  bounded_json_result request_id json maximum_response_bytes.

(** [serde_json::json!({ verified: true })] as bytes; 34 is the quote. *)
Definition VERIFIED_JSON : list Z := str "{" ++ [34] ++ str "verified" ++ [34] ++ str ":true}".

Definition success_empty (request_id : list Z) : ProtocolResult :=
  bounded_json_result request_id (Some VERIFIED_JSON) 1024.

Definition safe_client_error (error : IppClientError.t) : ResultOutcome * string :=
  match error with
  | IppClientError.Timeout => (TimedOut, "IPP request timed out"%string)
  | IppClientError.ResponseTooLarge _ => (ResponseTooLargeOutcome, "IPP response exceeded the configured limit"%string)
  | IppClientError.Decode _ => (OutcomeFailed, "IPP response was malformed"%string)
  | IppClientError.RequestIdMismatch _ _ => (OutcomeFailed, "IPP response correlation failed"%string)
  | _ => (OutcomeFailed, "IPP transport failed"%string)
  end.

Definition output_authorized (mode : Z) (policy : AgentPolicy) : bool :=
  match wire_output_mode mode with
  | Some WireNormalizedRedacted => true
  | Some WireRawRedacted => allow_cloud_raw_redacted policy
  | Some WireRawSensitive => allow_cloud_raw_sensitive policy
  | None => false
  end.

Definition OutputAuthorization_default : OutputAuthorization :=
  {| raw_local := false; sensitive_values := false; cloud_raw := false |}.

Definition output_policy (mode : Z) (policy : AgentPolicy) : option (OutputMode * OutputAuthorization) :=
  mode ← wire_output_mode mode;
  Some match mode with
       | WireNormalizedRedacted => (NormalizedRedacted, OutputAuthorization_default)
       | WireRawRedacted =>
           (LocalRawRedacted,
            {| raw_local := allow_cloud_raw_redacted policy; sensitive_values := false; cloud_raw := false |})
       | WireRawSensitive =>
           (CloudRawAuthorized,
            {| raw_local := false; sensitive_values := allow_cloud_raw_sensitive policy;
               cloud_raw := allow_cloud_raw_sensitive policy |})
       end.

(** [request_number] of the agent: the hash of the client's without its offset. *)
Definition agent_request_number (request_id : list Z) : Z := foldl fnv_step 2166136261 request_id.

(** ** The environment of an execution *)

(** How the race of a call with the cancellation goes, which is polled first:
    cancelled before the call does anything, cancelled while it waits, so that
    its result is dropped, or finished. *)
Inductive CancelRace := CancelledFirst | CancelledDuring | Finished.

(** The caller's [CancellationToken] and [RegisteredProbeRunner]. *)
Class AgentEnv (W : Type) := {
  is_cancelled : W -> bool * W;
  race_cancelled : W -> CancelRace * W;
  run_probe : ProbeRequest.t -> ProbeLimits -> W -> Result (list Z) ProbeRunOutput * W;
}.

Section Execution.
Variable sha256 : list Z -> list Z.
(** [serde_json::to_vec] of a value, a receipt, a snapshot and a report, and
    [from_slice] of a value. *)
Variable value_json : ValueData -> list Z.
Variable receipt_json : CloudChangeReceipt -> option (list Z).
Variable snapshot_json : DeviceSnapshot -> option (list Z).
Variable report_json : ProbeExecutionReport -> option (list Z).
Variable parse_value : list Z -> option Value.
Context {W : Type} `{IppHttp W} `{AgentEnv W}.

#[local] Abbreviation S := (AgentExecutor * W)%type.
#[local] Abbreviation Exec := (EM S ProtocolRequestRejected).

Definition agent_get {E} : EM S E AgentExecutor := fun s => (Ok s.1, s).

Definition on_world {E A} (m : EM W E A) : EM S E A := fun '(agent, w) =>
  let '(r, w) := m w in (r, (agent, w)).

Definition ask_cancelled {E} : EM W E bool := fun w => let '(b, w) := is_cancelled w in (Ok b, w).

(** [tokio::select!] of the cancellation and a call: [None] when cancelled. *)
Definition select_cancelled {E F A} (m : EM W E A) : EM W F (option (Result E A)) := fun w =>
  let '(race, w) := race_cancelled w in
  match race with
  | CancelledFirst => (Ok None, w)
  | CancelledDuring => let '(_, w) := m w in (Ok None, w)
  | Finished => (let! r := etry m in eret (Some r)) w
  end.

(** The guards that every execution begins with. *)
Definition admitted (agent : AgentExecutor) (request : ProtocolRequest) (now_unix_ms : Z)
    (enabled : list OperationKind) (also : Result ContractError.t unit) :
    Result ProtocolRequestRejected PublishedPrinter :=
  let id := pr_request_id request in
  let? _ :=
    map_err (rejection id)
      (let? _ := validate_request request now_unix_ms (maximum_timeout_ms (policy agent))
                   (policy_response_bytes (policy agent)) enabled in also) in
  let? _ := ensure (pr_contract_version request =? contract_version (policy agent))
              (reject id UnsupportedVersion (str "unsupported contract version")) in
  ok_or (printers agent !! pr_target request) (reject id UnknownPrinter (str "unknown published printer")).

Definition stale (request : ProtocolRequest) : ProtocolRequestRejected :=
  reject (pr_request_id request) StaleEndpoint (str "stale endpoint generation").

Definition accept (request : ProtocolRequest) (now_unix_ms : Z) : ProtocolRequestAccepted :=
  {| accepted_request_id := pr_request_id request; accepted_at_unix_ms := now_unix_ms |}.

Definition cancelled_result (request : ProtocolRequest) : ProtocolResult :=
  terminal (pr_request_id request) OutcomeCancelled "cancelled".

Definition request_limits (request : ProtocolRequest) : Result ProtocolRequestRejected ProtocolOperationLimits :=
  ok_or (pr_operation_limits request) (rejection (pr_request_id request) ContractError.InvalidLimits).

(** The limits of a request for the IPP client. *)
Definition limits_for (limits : ProtocolOperationLimits) : InspectLimits := {|
  il_timeout := lim_timeout_ms limits * 1000000;
  IppClient.maximum_response_bytes := lim_maximum_response_bytes limits;
  codec := {|
    max_message_bytes := lim_maximum_response_bytes limits;
    max_groups := max_groups Limits_default;
    max_attributes := max_attributes Limits_default;
    max_values := max_values Limits_default;
    max_name_bytes := max_name_bytes Limits_default;
    max_value_bytes := max_value_bytes Limits_default;
    max_decoded_bytes := max_decoded_bytes Limits_default;
    max_collection_depth := max_collection_depth Limits_default;
    max_collection_members := max_collection_members Limits_default |};
|}.

(** An execution's result, with the rejections returned early. *)
Definition execution (m : Exec (ProtocolRequestAccepted * ProtocolResult)) : EM S Empty_set InitialExecution.t :=
  let! r := etry m in
  eret match r with
       | Ok (accepted, result) => InitialExecution.Accepted accepted result
       | Err rejected => InitialExecution.Rejected rejected
       end.

(** ** The initial, read-only execution *)

Definition transport_of (endpoint : IppEndpoint) : TransportKind :=
  match ie_scheme endpoint with SchemeIpp => TransportIpp | SchemeIpps => TransportIpps end.

Definition inspect_origin (agent : AgentExecutor) (request : ProtocolRequest) (printer : PublishedPrinter)
    (uri : list Z) (now_unix_ms : Z) : ObservationOrigin := {|
  o_agent_id := Some (agent_id (policy agent));
  o_printer_id := pp_printer_id printer;
  o_endpoint := uri;
  o_endpoint_generation := pp_generation printer;
  o_transport := transport_of (pp_endpoint printer);
  o_protocol := FamilyIpp;
  o_request_id := pr_request_id request;
  o_probe_id := None;
  o_observed_at := show_dec now_unix_ms;
  o_qualification := None;
|}.

Definition result_endpoint (snapshot : DeviceSnapshot) : list Z :=
  match observations snapshot with
  | observation :: _ => o_endpoint (ev_origin (observation_evidence observation))
  | [] => str "[REDACTED]"
  end.

(** From the answer of the printer on. *)
Definition inspect_result (agent : AgentExecutor) (request : ProtocolRequest) (printer : PublishedPrinter)
    (operation : IppInspect) (limits : ProtocolOperationLimits) (uri : list Z) (now_unix_ms : Z) (response : Message) :
    ProtocolResult :=
  let id := pr_request_id request in
  let origin := inspect_origin agent request printer uri now_unix_ms in
  let snapshot := normalize_ipp origin response (document_format operation) in
  match output_policy (inspect_output_mode operation) (policy agent) with
  | None => terminal id OutcomeFailed "output policy rejected the response"
  | Some (mode, authorization) =>
      match prepare_snapshot_output sha256 snapshot mode authorization with
      | Err _ => terminal id OutcomeFailed "output policy rejected the response"
      | Ok prepared =>
          match snapshot_json (prepared_snapshot prepared) with
          | Some response =>
              if zlen response <=? lim_maximum_response_bytes limits then
                let normalized := inspect_output_mode operation =? wire_output_mode_i32 WireNormalizedRedacted in
                {| res_request_id := id;
                   outcome := Succeeded;
                   bounded_response := response;
                   res_evidence := [{|
                     eo_agent_id := agent_id (policy agent);
                     eo_printer_id := o_printer_id origin;
                     eo_endpoint := result_endpoint (prepared_snapshot prepared);
                     eo_endpoint_generation := o_endpoint_generation origin;
                     eo_transport := scheme_str (ie_scheme (pp_endpoint printer));
                     eo_protocol := str "ipp";
                     eo_request_id := id;
                     eo_probe_id := None;
                     eo_qualification_id := None |}];
                   res_output_mode := inspect_output_mode operation;
                   safe_error := [];
                   persistence_allowed := normalized && may_persist (retention prepared);
                   logging_allowed := normalized && may_log (retention prepared) |}
              else terminal id ResponseTooLargeOutcome "normalized response exceeds configured limit"
          | None => terminal id OutcomeFailed "response serialization failed"
          end
      end
  end.

Definition inspect_operation (request : ProtocolRequest) : Result ProtocolRequestRejected IppInspect :=
  match pr_operation request with
  | Some (Operation.IppInspect operation) => Ok operation
  | _ => Err (rejection (pr_request_id request) ContractError.MissingOperation)
  end.

Definition initial_body (request : ProtocolRequest) (now_unix_ms : Z) :
    Exec (ProtocolRequestAccepted * ProtocolResult) :=
  let id := pr_request_id request in
  let! agent := agent_get in
  let! printer :=
    eresult (admitted agent request now_unix_ms [KindIppInspect] (validate_initial_release_request request)) in
  eresult (ensure (pp_generation printer =? pr_generation request) (stale request)) ;!
  let! operation := eresult (inspect_operation request) in
  eresult (ensure (output_authorized (inspect_output_mode operation) (policy agent))
             (reject id Unauthorized (str "requested output mode is not authorized"))) ;!
  let accepted := accept request now_unix_ms in
  let! cancelled := on_world ask_cancelled in
  if cancelled then eret (accepted, cancelled_result request)
  else
  let! limits := eresult (request_limits request) in
  match printer_uri (pp_endpoint printer) with
  | Err _ => eret (accepted, terminal id OutcomeFailed "published printer endpoint is invalid")
  | Ok uri =>
      let requested :=
        if bool_decide (requested_attributes operation = []) then [str "all"] else requested_attributes operation in
      let ipp_request :=
        get_printer_attributes_request uri requested (document_format operation) (agent_request_number id) in
      let! response :=
        on_world (select_cancelled (inspect (pp_endpoint printer) ipp_request (limits_for limits))) in
      match response with
      | None => eret (accepted, cancelled_result request)
      | Some (Err error) =>
          let '(outcome, safe_message) := safe_client_error error in
          eret (accepted, terminal id outcome safe_message)
      | Some (Ok response) =>
          eret (accepted, inspect_result agent request printer operation limits uri now_unix_ms response)
      end
  end.

Definition execute_initial (request : ProtocolRequest) (now_unix_ms : Z) : EM S Empty_set InitialExecution.t :=
  execution (initial_body request now_unix_ms).

(** ** Guarded changes *)

Definition receipt_of (plan : ConfirmedChangePlan) : CloudChangeReceipt := {|
  rc_printer_id := plan_printer_id plan;
  rc_endpoint_generation := plan_endpoint_generation plan;
  rc_setting := plan_setting plan;
  rc_expected_old_value_hash := expected_old_value_hash plan;
  rc_expected_requested_value_hash := ipp_value_hash sha256 value_json (requested_protocol_value plan);
  rc_principal := plan_principal plan;
  rc_protocol := plan_family plan;
  rc_expires_at_unix_ms := plan_expires_at_unix_ms plan;
|}.

Definition plan_cloud_change {E} (request : ProtocolRequest) (printer : PublishedPrinter) (operation : PlanChange)
    (limits : InspectLimits) : EM W E ProtocolResult :=
  let id := pr_request_id request in
  if negb (bool_decide (pc_protocol operation = str "ipp")) then eret (terminal id OutcomeFailed "protocol must be IPP")
  else
  match parse_value (pc_requested_value operation) with
  | None => eret (terminal id OutcomeFailed "requested IPP value is malformed")
  | Some requested_value =>
      let! planned := etry (plan_change sha256 value_json (pp_endpoint printer) {|
        req_printer_id := pr_target request;
        req_endpoint_generation := pr_generation request;
        req_setting := pc_setting_id operation;
        req_value := requested_value;
        req_principal := authenticated_principal request;
        req_family := FamilyIpp;
        req_expires_at_unix_ms := expires_at_unix_ms request |} limits) in
      eret match planned with
           | Ok plan => bounded_json_result id (receipt_json (receipt_of plan)) (IppClient.maximum_response_bytes limits)
           | Err (PlanChangeError.Read error) =>
               let '(outcome, safe) := safe_client_error error in terminal id outcome safe
           | Err (PlanChangeError.Endpoint _) => terminal id OutcomeFailed "published printer endpoint is invalid"
           | Err _ => terminal id OutcomeRejected "printer does not confirm this change"
           end
  end.

(** The fields of an apply request that are wrong on their own. *)
Definition confirmation_invalid (request : ProtocolRequest) (operation : ApplyChange) : bool :=
  negb (bool_decide (ac_protocol operation = str "ipp"))
  || negb (zlen (ac_expected_old_value_hash operation) =? 32)
  || negb (zlen (ac_expected_requested_value_hash operation) =? 32)
  || (expires_at_unix_ms request <? ac_plan_expires_at_unix_ms operation).

Definition apply_binding (request : ProtocolRequest) (now_unix_ms : Z) : ChangeBinding := {|
  printer_id := pr_target request;
  endpoint_generation := pr_generation request;
  principal := authenticated_principal request;
  family := FamilyIpp;
  now_unix_ms := now_unix_ms;
|}.

Definition apply_result (id : list Z) (applied : Result ApplyChangeError.t ApplyChangeOutcome.t) : ProtocolResult :=
  match applied with
  | Ok (ApplyChangeOutcome.Verified _ _) => success_empty id
  | Ok (ApplyChangeOutcome.Rejected _) => terminal id OutcomeRejected "printer rejected the change"
  | Ok (ApplyChangeOutcome.ReadBackMismatch _ _) => terminal id OutcomeFailed "post-write verification did not match"
  | Ok (ApplyChangeOutcome.Ambiguous _ _) =>
      terminal id AmbiguousWrite "write outcome is ambiguous and will not be retried"
  | Err _ => terminal id OutcomeRejected "confirmed change became stale or could not be read"
  end.

(** The checks of an apply request up to the plan that it confirms. *)
Definition confirmed_plan (request : ProtocolRequest) (operation : ApplyChange) : Result ProtocolResult ConfirmedChangePlan :=
  let id := pr_request_id request in
  if confirmation_invalid request operation
  then Err (terminal id OutcomeRejected "confirmed change fields are invalid")
  else
  let? requested_value := ok_or (parse_value (ac_requested_value operation))
                            (terminal id OutcomeRejected "requested IPP value is malformed") in
  if negb (bool_decide (ac_expected_requested_value_hash operation = ipp_value_hash sha256 value_json requested_value))
  then Err (terminal id OutcomeRejected "requested value no longer matches the confirmation")
  else
  map_err (fun _ => terminal id OutcomeRejected "confirmed change value is invalid")
    (confirmed_ipp_plan_from_wire (pr_target request) (pr_generation request) (ac_setting_id operation)
       (ac_expected_old_value_hash operation) requested_value (authenticated_principal request)
       (ac_plan_expires_at_unix_ms operation)).

Definition apply_cloud_change {E} (request : ProtocolRequest) (printer : PublishedPrinter) (operation : ApplyChange)
    (now_unix_ms : Z) (limits : InspectLimits) : EM W E ProtocolResult :=
  match confirmed_plan request operation with
  | Err result => eret result
  | Ok plan =>
      let! applied := etry (apply_confirmed_change sha256 value_json (pp_endpoint printer) plan
                              (apply_binding request now_unix_ms) limits) in
      eret (apply_result (pr_request_id request) applied)
  end.

Definition operation_setting (operation : Operation.t) : option (list Z) :=
  match operation with
  | Operation.PlanChange operation => Some (pc_setting_id operation)
  | Operation.ApplyChange operation => Some (ac_setting_id operation)
  | _ => None
  end.

(** The insertion into the set of consumed requests, refused when it is there. *)
Definition consume_request (operation : Operation.t) (id : list Z) : Exec unit := fun '(agent, w) =>
  match operation with
  | Operation.ApplyChange _ =>
      if bool_decide (id ∈ guarded_write_requests agent)
      then (fail (reject id PolicyReason (str "guarded write request ID was already consumed")), (agent, w))
      else (Ok tt, ({| policy := policy agent; printers := printers agent;
                       guarded_write_requests := {[ id ]} ∪ guarded_write_requests agent |}, w))
  | _ => (Ok tt, (agent, w))
  end.

Definition guarded_body (request : ProtocolRequest) (now_unix_ms : Z) (guard : GuardedWritePolicy) :
    Exec (ProtocolRequestAccepted * ProtocolResult) :=
  let id := pr_request_id request in
  let! agent := agent_get in
  let! printer := eresult (admitted agent request now_unix_ms [KindPlanChange; KindApplyChange] (Ok tt)) in
  eresult (ensure (pp_generation printer =? pr_generation request) (stale request)) ;!
  let! operation := eresult (ok_or (pr_operation request) (rejection id ContractError.MissingOperation)) in
  let! setting := eresult (ok_or (operation_setting operation) (rejection id ContractError.UnsupportedOperation)) in
  eresult (ensure (bool_decide (setting ∈ allowed_settings guard))
             (reject id Unauthorized (str "setting is not authorized by local policy"))) ;!
  consume_request operation id ;!
  let accepted := accept request now_unix_ms in
  let! cancelled := on_world ask_cancelled in
  if cancelled then eret (accepted, cancelled_result request)
  else
  let! limits := eresult (request_limits request) in
  let inspect_limits := limits_for limits in
  let! result :=
    match operation with
    | Operation.PlanChange operation => on_world (plan_cloud_change request printer operation inspect_limits)
    | Operation.ApplyChange operation =>
        on_world (apply_cloud_change request printer operation now_unix_ms inspect_limits)
    | _ => ethrow (rejection id ContractError.UnsupportedOperation)
    end in
  eret (accepted, result).

(** [execute_guarded_ipp_change] is this with a token that is never cancelled. *)
Definition execute_guarded_ipp_change_with_cancellation (request : ProtocolRequest) (now_unix_ms : Z)
    (guard : GuardedWritePolicy) : EM S Empty_set InitialExecution.t :=
  execution (guarded_body request now_unix_ms guard).

(** ** Registered probes *)

Definition probe_operation (request : ProtocolRequest) : Result ProtocolRequestRejected ProbeId :=
  match pr_operation request with
  | Some (Operation.RunProbe id) => Ok id
  | _ => Err (rejection (pr_request_id request) ContractError.MissingOperation)
  end.

Definition probe_origin (agent : AgentExecutor) (request : ProtocolRequest) (target : PublishedProbeTarget)
    (definition : ProbeDefinition) (id : ProbeId) (now_unix_ms : Z) : ObservationOrigin := {|
  o_agent_id := Some (agent_id (policy agent));
  o_printer_id := pr_target request;
  o_endpoint := pt_endpoint_identity target;
  o_endpoint_generation := pt_endpoint_generation target;
  o_transport := pt_transport target;
  o_protocol := pt_protocol target;
  o_request_id := pr_request_id request;
  o_probe_id := Some id;
  o_observed_at := show_dec now_unix_ms;
  o_qualification :=
    (fun firmware => {| qm_id := pq_qualification_id (probe_qualification definition);
                        qm_firmware := Some firmware; qm_response_hash := None |}) <$> pt_firmware target;
|}.

(** The report with its endpoints replaced by their hash. *)
Definition redact_report (report : ProbeExecutionReport) : ProbeExecutionReport :=
  let endpoint := redact_identifier sha256 (pr_endpoint report) in
  let origin := pr_origin report in
  {| pr_probe_id := pr_probe_id report; pr_qualification_id := pr_qualification_id report;
     pr_printer_id := pr_printer_id report; pr_endpoint := endpoint;
     pr_endpoint_generation := pr_endpoint_generation report; pr_transport := pr_transport report;
     pr_protocol := pr_protocol report; pr_duration_ms := pr_duration_ms report; pr_limits := pr_limits report;
     pr_response_bytes := pr_response_bytes report; pr_response_hash := pr_response_hash report;
     pr_configuration_changed := pr_configuration_changed report; pr_result := pr_result report;
     pr_origin := {|
       o_agent_id := o_agent_id origin; o_printer_id := o_printer_id origin; o_endpoint := endpoint;
       o_endpoint_generation := o_endpoint_generation origin; o_transport := o_transport origin;
       o_protocol := o_protocol origin; o_request_id := o_request_id origin; o_probe_id := o_probe_id origin;
       o_observed_at := o_observed_at origin; o_qualification := o_qualification origin |} |}.

(** From the runner's answer on. *)
Definition probe_outcome (agent : AgentExecutor) (registry : ProbeRegistry) (request : ProtocolRequest)
    (target : PublishedProbeTarget) (definition : ProbeDefinition) (id : ProbeId) (limits : ProtocolOperationLimits)
    (now_unix_ms : Z) (output : Result (list Z) ProbeRunOutput) : Result (Fault ProtocolRequestRejected) ProtocolResult :=
  let request_id := pr_request_id request in
  match output with
  | Err _ => Ok (terminal request_id OutcomeFailed "registered probe execution failed")
  | Ok output =>
      if zlen (probe_response output) <=? Probe.maximum_response_bytes (probe_limits definition) then
        match build_read_only_probe_report sha256 registry id (probe_response output)
                (probe_origin agent request target definition id now_unix_ms) (run_duration_ms output) with
        | Err Panicked => Err Panicked
        | Err (Raised _) => Ok (terminal request_id OutcomeFailed "registered probe response was malformed")
        | Ok report =>
            Ok (probe_result request_id (report_json (redact_report report)) (lim_maximum_response_bytes limits))
        end
      else Ok (terminal request_id ResponseTooLargeOutcome "probe response exceeded its registered limit")
  end.

Definition run_registered_probe {E} (prepared : ProbeRequest.t) (limits : ProbeLimits) :
    EM W E (Result (list Z) ProbeRunOutput) := fun w =>
  let '(r, w) := run_probe prepared limits w in (Ok r, w).

(** A result that may be a panic. *)
Definition efault_result {E A} (r : Result (Fault E) A) : EM S E A := fun s => (r, s).

Definition probe_body (request : ProtocolRequest) (now_unix_ms : Z) (registry : ProbeRegistry)
    (target : PublishedProbeTarget) : Exec (ProtocolRequestAccepted * ProtocolResult) :=
  let id := pr_request_id request in
  let! agent := agent_get in
  let! published := eresult (admitted agent request now_unix_ms [KindRunProbe] (Ok tt)) in
  eresult (ensure ((pp_generation published =? pr_generation request)
                   && bool_decide (pt_printer_id target = pr_target request)
                   && (pt_endpoint_generation target =? pr_generation request)) (stale request)) ;!
  let! probe := eresult (probe_operation request) in
  let! definition :=
    eresult (ok_or (probe_get registry probe) (reject id UnsupportedOperationReason (str "probe is not registered"))) in
  eresult (ensure (applies_to definition (pt_protocol target) (pt_transport target) (pt_manufacturer target)
                     (pt_model target) (pt_firmware target))
             (reject id PolicyReason (str "probe is not qualified for this target"))) ;!
  let! prepared :=
    efault (fun _ => reject id PolicyReason (str "registered probe could not be prepared"))
      (prepare_registered_probe registry probe (pt_printer_definition target)) in
  let! limits := eresult (request_limits request) in
  eresult (ensure ((timeout_ms (probe_limits definition) <=? lim_timeout_ms limits)
                   && (Probe.maximum_response_bytes (probe_limits definition) <=? lim_maximum_response_bytes limits))
             (reject id LimitExceeded (str "request limits are below the registered probe limits"))) ;!
  let accepted := accept request now_unix_ms in
  let! cancelled := on_world ask_cancelled in
  if cancelled then eret (accepted, cancelled_result request)
  else
  let! output :=
    on_world (select_cancelled (E := Empty_set) (run_registered_probe prepared (probe_limits definition))) in
  match output with
  | None | Some (Err _) => eret (accepted, cancelled_result request)
  | Some (Ok output) =>
      let! result :=
        efault_result (probe_outcome agent registry request target definition probe limits now_unix_ms output) in
      eret (accepted, result)
  end.

Definition execute_registered_probe (request : ProtocolRequest) (now_unix_ms : Z) (registry : ProbeRegistry)
    (target : PublishedProbeTarget) : EM S Empty_set InitialExecution.t :=
  execution (probe_body request now_unix_ms registry target).
End Execution.
