(* ===== verification/AgentFacts.v ===== *)
(** Theorems about the printer agent (Agent.v): which requests are valid; that
    the initial execution only reads and gives out only what policy allows; and
    that a guarded change is written at most once for a request, and only when
    policy, publication and the confirmed plan permit it. *)

From stdpp Require Import base gmap sets list strings numbers option.
From S2P Require Import Prelude Text Ordered Effects Ipp IppFacts Administration AdministrationFacts Discovery Probe.
From S2P Require Import IppClient IppClientFacts Agent.

#[local] Open Scope list_scope.
#[local] Open Scope Z_scope.

(** ** Valid requests *)

(** A request is valid exactly when it names itself, its principal, its
    printer and its contract, has not expired, asks within the limits of the
    agent, and for an operation that the session has enabled. *)
Theorem validate_request_spec request now_unix_ms timeout bytes enabled :
  validate_request request now_unix_ms timeout bytes enabled = Ok tt <->
  pr_request_id request <> [] /\ authenticated_principal request <> [] /\ pr_target request <> [] /\
  pr_contract_version request <> 0 /\ now_unix_ms < expires_at_unix_ms request /\
  (exists limits, pr_operation_limits request = Some limits /\
     lim_timeout_ms limits <> 0 /\ lim_maximum_response_bytes limits <> 0 /\
     lim_timeout_ms limits <= timeout /\ lim_maximum_response_bytes limits <= bytes) /\
  exists operation, pr_operation request = Some operation /\ operation_kind operation ∈ enabled.
Proof.
  unfold validate_request, identity_missing, limits_exceeded. split.
  - intros H. inv_ok H. apply bool_decide_eq_true in H. rewrite !orb_false_iff in Hb, Hb1.
    rewrite !bool_decide_eq_false in Hb. destruct Hb as [[[? ?] ?] ?]. destruct Hb1 as [[[? ?] ?] ?].
    split_and!; try done; [blia|blia|exists x; split_and!; [done|blia..]|by exists x0].
  - intros (H1 & H2 & H3 & H4 & H5 & (limits & -> & ? & ? & ? & ?) & operation & -> & Hin).
    rewrite !bool_decide_false by done. cbn [orb ok_or rbind].
    rewrite (proj2 (Z.eqb_neq _ _) H4). destruct (Z.leb_spec (expires_at_unix_ms request) now_unix_ms); [lia|].
    rewrite (proj2 (Z.eqb_neq (lim_timeout_ms limits) 0)), (proj2 (Z.eqb_neq (lim_maximum_response_bytes limits) 0)) by done.
    destruct (Z.ltb_spec timeout (lim_timeout_ms limits)); [lia|].
    destruct (Z.ltb_spec bytes (lim_maximum_response_bytes limits)); [lia|]. cbn [orb ok_or rbind].
    by rewrite bool_decide_true.
Qed.

(** ** What is sent *)

(** An HTTP request that asks the printer to set an attribute, told by the
    operation code of the message in its body. *)
Definition is_write (q : HttpRequest) : bool :=
  bool_decide (take 2 (drop 2 (http_body q)) = to_be_bytes 2 SET_PRINTER_ATTRIBUTES).

Definition writes_in (qs : list HttpRequest) : nat := length (List.filter is_write qs).

Lemma writes_in_app qs qs' : writes_in (qs ++ qs') = (writes_in qs + writes_in qs')%nat.
Proof. unfold writes_in. by rewrite List.filter_app, length_app. Qed.

Section Sent.
Context {W : Type} `{IppHttp W}.

Lemma carries_code endpoint limits m q :
  carries endpoint limits m q -> take 2 (drop 2 (http_body q)) = to_be_bytes 2 (code m).
Proof.
  intros (url & body & _ & He & ->). cbn [http_body ipp_post]. apply encode_operation in He as (rest & ->).
  change (take 2 (to_be_bytes 2 (code m) ++ rest) = to_be_bytes 2 (code m)).
  by rewrite take_app_length' by by rewrite length_to_be_bytes.
Qed.

(** The messages among [ms] that ask to set an attribute. *)
Definition sets (m : Message) : bool := bool_decide (to_be_bytes 2 (code m) = to_be_bytes 2 SET_PRINTER_ATTRIBUTES).
Definition setting_in (ms : list Message) : nat := length (List.filter sets ms).

Lemma setting_in_app ms ms' : setting_in (ms ++ ms') = (setting_in ms + setting_in ms')%nat.
Proof. unfold setting_in. by rewrite List.filter_app, length_app. Qed.

Lemma setting_in_reads ms : Forall reading ms -> setting_in ms = 0%nat.
Proof. unfold setting_in. induction 1 as [|m ms [Hm|Hm] _ IH]; [done|..]; cbn [List.filter]; unfold sets at 1; by rewrite Hm. Qed.

Definition to_endpoint (endpoint : IppEndpoint) (qs : list HttpRequest) : Prop :=
  Forall (fun q => http_url endpoint = Ok (http_url_of q)) qs.

Lemma sent_wire endpoint limits ms log log' :
  sent endpoint limits ms log log' ->
  exists qs, log' = log ++ qs /\ length qs = length ms /\ writes_in qs = setting_in ms /\ to_endpoint endpoint qs.
Proof.
  intros (qs & -> & Hqs). exists qs. split; [done|]. clear log. unfold writes_in, setting_in, to_endpoint.
  induction Hqs as [|m q ms qs Hq Hqs IH]; [done|].
  destruct IH as (El & Ew & Hurl). cbn [List.filter].
  assert (is_write q = sets m) as -> by (unfold is_write, sets; by rewrite (carries_code _ _ _ _ Hq)).
  split_and!; [cbn [length]; lia|destruct (sets m); cbn [length]; lia|]. constructor; [|done]. by destruct Hq as (url & body & ? & _ & ->).
Qed.

Lemma outcome_sets plan uri outcome writes : outcome_sent plan uri outcome writes -> (setting_in writes <= 1)%nat.
Proof.
  assert (forall ms, ms `prefix_of` [write_of plan uri; read_of plan uri] -> (setting_in ms <= 1)%nat) as Hp.
  { intros ms [rest E]. pose proof (setting_in_app ms rest) as E'. rewrite <- E in E'.
    assert (setting_in [write_of plan uri; read_of plan uri] = 1%nat) as E1 by reflexivity. lia. }
  intros Ho. apply Hp. destruct outcome; cbn in Ho.
  - by destruct Ho as (-> & _).
  - destruct Ho as (-> & _). by exists [read_of plan uri].
  - by destruct Ho as (-> & _).
  - destruct Ho as [(_ & Ho)|(_ & _ & Ho)]; [|done]. etrans; [exact Ho|]. by exists [read_of plan uri].
Qed.
End Sent.

(** ** Runs of an execution *)

Section Runs.
Context {V : Type}.
#[local] Abbreviation St := (AgentExecutor * V)%type.

Lemma spec_on_world {E A} (m : EM V E A) agent s (Q : A -> St -> Prop) (X : Fault E -> St -> Prop) :
  spec m s (fun a s' => Q a (agent, s')) (fun e s' => X e (agent, s')) -> spec (on_world m) (agent, s) Q X.
Proof. unfold spec, on_world. by destruct (m s) as [[a|e] s']. Qed.

Lemma spec_agent_get {E} (agent : AgentExecutor) (s : V) (Q : AgentExecutor -> St -> Prop) (X : Fault E -> St -> Prop) :
  Q agent (agent, s) -> spec agent_get (agent, s) Q X.
Proof. done. Qed.

Lemma spec_execution (m : EM St ProtocolRequestRejected (ProtocolRequestAccepted * ProtocolResult)) s
    (Q : InitialExecution.t -> St -> Prop) (X : Fault Empty_set -> St -> Prop) :
  spec m s (fun a s' => Q (InitialExecution.Accepted a.1 a.2) s')
    (fun e s' => match e with Raised e => Q (InitialExecution.Rejected e) s' | Panicked => X Panicked s' end) ->
  spec (execution m) s Q X.
Proof.
  intros Hm. unfold execution. apply spec_bind, spec_etry. eapply spec_mono; [exact Hm|..]; cbn beta.
  - by intros [accepted result] s'.
  - intros [e|] s'; [|done]. intros HQ. by apply spec_ret.
Qed.

(** A log of the world that the cancellation leaves alone. *)
Context `{AgentEnv V} {L : Type}.
Variable log : V -> L.
Hypothesis cancelled_log : forall s, log (is_cancelled s).2 = log s.
Hypothesis race_log : forall s, log (race_cancelled s).2 = log s.

Lemma spec_ask_cancelled {E} s (Q : bool -> V -> Prop) (X : Fault E -> V -> Prop) :
  (forall b s', log s' = log s -> Q b s') -> spec ask_cancelled s Q X.
Proof.
  intros HQ. unfold spec, ask_cancelled. pose proof (cancelled_log s) as E1.
  destruct (is_cancelled s) as [b s']. by apply HQ.
Qed.

(** A race with the cancellation: nothing was done, or the call was made. *)
Lemma spec_select {E F A} (m : EM V E A) s (Q : option (Result E A) -> V -> Prop) (X : Fault F -> V -> Prop) :
  (forall s', log s' = log s -> Q None s') ->
  (forall s', log s' = log s ->
     spec m s' (fun a s'' => Q (Some (Ok a)) s'' /\ Q None s'')
       (fun e s'' => Q None s'' /\ match e with Raised e => Q (Some (Err e)) s'' | Panicked => X Panicked s'' end)) ->
  spec (select_cancelled m) s Q X.
Proof.
  intros Hnone Hm. unfold spec, select_cancelled. pose proof (race_log s) as E1.
  destruct (race_cancelled s) as [[| |] s']; [by apply Hnone|specialize (Hm s' E1)..]; unfold spec in Hm.
  - destruct (m s') as [[a|e] s'']; by apply Hm.
  - unfold ebind, etry. destruct (m s') as [[a|[e|]] s'']; cbn; by apply Hm.
Qed.
End Runs.

(** A world with a log, in which probes are logged by [f]. *)
Section Recorded.
Context {W L : Type} `{AgentEnv W}.
Variable f : ProbeRequest.t -> ProbeLimits -> L -> L.

Definition recorded_env : AgentEnv (W * L) := {|
  is_cancelled := fun '(w, log) => let '(b, w) := is_cancelled w in (b, (w, log));
  race_cancelled := fun '(w, log) => let '(race, w) := race_cancelled w in (race, (w, log));
  run_probe := fun request limits '(w, log) =>
    let '(r, w) := run_probe request limits w in (r, (w, f request limits log));
|}.

Lemma recorded_cancelled (s : W * L) : (is_cancelled (AgentEnv := recorded_env) s).2.2 = s.2.
Proof. destruct s as [w log]. cbn. by destruct (is_cancelled w). Qed.

Lemma recorded_race (s : W * L) : (race_cancelled (AgentEnv := recorded_env) s).2.2 = s.2.
Proof. destruct s as [w log]. cbn. by destruct (race_cancelled w). Qed.
End Recorded.

(** HTTP requests are logged by IppClientFacts.v; probes are not. *)
#[export] Instance RecordedEnv {W} `{AgentEnv W} : AgentEnv (W * list HttpRequest) :=
  recorded_env (fun _ _ log => log).

(** ** Guarded changes *)

Section Guarded.
Variable sha256 : list Z -> list Z.
Variable value_json : ValueData -> list Z.
Variable receipt_json : CloudChangeReceipt -> option (list Z).
Variable parse_value : list Z -> option Value.
Context {W : Type} `{IppHttp W} `{AgentEnv W}.

(** The items of a response's stream are bytes. *)
Hypothesis stream_bytes : forall q t (w w' : W) response,
  post q t w = (Responded response, w') ->
  Forall (fun item => match item with Chunk bytes => bytes_ok bytes | _ => True end) (bytes_stream response).

#[local] Abbreviation World := (W * list HttpRequest)%type.
#[local] Abbreviation St := (AgentExecutor * World)%type.
#[local] Abbreviation guarded := (execute_guarded_ipp_change_with_cancellation (W := World) sha256 value_json receipt_json parse_value).

(** What a write of the requests [qs] needs: the request is valid, for this
    contract and a published printer of this generation; its setting is allowed
    by local policy; it carries the hash of its value and confirms a plan; the
    plan was valid for an observation of the printer; and it is that printer
    that was written to. *)
Definition permitted (agent : AgentExecutor) (request : ProtocolRequest) (now_unix_ms : Z) (guard : GuardedWritePolicy)
    (qs : list HttpRequest) : Prop :=
  exists printer operation plan observation supported,
    validate_request request now_unix_ms (maximum_timeout_ms (policy agent)) (policy_response_bytes (policy agent))
      [KindPlanChange; KindApplyChange] = Ok tt /\
    pr_contract_version request = contract_version (policy agent) /\
    printers agent !! pr_target request = Some printer /\ pp_generation printer = pr_generation request /\
    pr_operation request = Some (Operation.ApplyChange operation) /\ ac_setting_id operation ∈ allowed_settings guard /\
    confirmed_plan sha256 value_json parse_value request operation = Ok plan /\
    validate_confirmed_ipp_change_with_supported_values sha256 value_json plan observation supported
      (apply_binding request now_unix_ms) = Ok tt /\
    to_endpoint (pp_endpoint printer) qs.

(** The effect of one execution on the agent and on the wire. *)
Definition guarded_effect (request : ProtocolRequest) (now_unix_ms : Z) (guard : GuardedWritePolicy) (st st' : St) : Prop :=
  let id := pr_request_id request in
  exists qs, st'.2.2 = st.2.2 ++ qs /\ (writes_in qs <= 1)%nat /\
    policy st'.1 = policy st.1 /\ printers st'.1 = printers st.1 /\
    guarded_write_requests st.1 ⊆ guarded_write_requests st'.1 /\
    guarded_write_requests st'.1 ⊆ {[ id ]} ∪ guarded_write_requests st.1 /\
    (writes_in qs <> 0%nat ->
     permitted st.1 request now_unix_ms guard qs /\
     (id ∉ guarded_write_requests st.1) /\ id ∈ guarded_write_requests st'.1).

(** An agent that has at most consumed a request, and has written nothing. *)
Definition consumes_only (request : ProtocolRequest) (agent agent' : AgentExecutor) : Prop :=
  policy agent' = policy agent /\ printers agent' = printers agent /\
  guarded_write_requests agent ⊆ guarded_write_requests agent' /\
  guarded_write_requests agent' ⊆ {[ pr_request_id request ]} ∪ guarded_write_requests agent.

Lemma effect_of_reads request now_unix_ms guard (st st' : St) qs :
  consumes_only request st.1 st'.1 -> st'.2.2 = st.2.2 ++ qs -> writes_in qs = 0%nat ->
  guarded_effect request now_unix_ms guard st st'.
Proof. intros (H1 & H2 & H3 & H4) Hq Hw. exists qs. split_and!; first [done|lia|by intros []]. Qed.

Lemma consumes_refl request agent : consumes_only request agent agent.
Proof. split_and!; try done. set_solver. Qed.

Lemma effect_none request now_unix_ms guard (st st' : St) :
  consumes_only request st.1 st'.1 -> st'.2.2 = st.2.2 -> guarded_effect request now_unix_ms guard st st'.
Proof. intros Hc Hl. apply effect_of_reads with (qs := []); [done|by rewrite app_nil_r|done]. Qed.

Lemma consume_spec operation request (agent : AgentExecutor) (s : World) :
  spec (consume_request operation (pr_request_id request)) (agent, s)
    (fun _ st' => st'.2 = s /\ consumes_only request agent st'.1 /\
       forall op, operation = Operation.ApplyChange op ->
         (pr_request_id request ∉ guarded_write_requests agent) /\ pr_request_id request ∈ guarded_write_requests st'.1)
    (fun _ st' => st' = (agent, s)).
Proof.
  unfold spec, consume_request. destruct operation; try (split_and!; [done|apply consumes_refl|done]).
  case_bool_decide as Hin; [done|]. split_and!; [done| |].
  - split_and!; try done; cbn; set_solver.
  - intros op _. cbn. set_solver.
Qed.

Lemma plan_cloud_spec request printer operation limits (s : World) :
  spec (plan_cloud_change (E := ProtocolRequestRejected) sha256 value_json receipt_json parse_value request printer operation limits) s
    (fun _ s' => exists qs, s'.2 = s.2 ++ qs /\ writes_in qs = 0%nat)
    (fun _ s' => exists qs, s'.2 = s.2 ++ qs /\ writes_in qs = 0%nat).
Proof.
  assert (exists qs, s.2 = s.2 ++ qs /\ writes_in qs = 0%nat) as Hnone by (exists []; by rewrite app_nil_r).
  assert (forall reads (s' : World), sent (pp_endpoint printer) limits reads s.2 s'.2 -> Forall reading reads ->
    exists qs, s'.2 = s.2 ++ qs /\ writes_in qs = 0%nat) as Hreads.
  { intros reads s' Hs Hr. apply sent_wire in Hs as (qs & E & _ & Ew & _). exists qs.
    by rewrite Ew, setting_in_reads. }
  unfold plan_cloud_change. destruct (negb _); [by apply spec_ret|].
  destruct (parse_value _) as [value|]; [|by apply spec_ret].
  apply spec_bind, spec_etry. eapply spec_mono; [apply plan_change_reads|..]; cbn beta.
  - intros plan s' (reads & Hs & Hr). apply spec_ret. eauto.
  - intros [e|] s' (reads & Hs & Hr); [apply spec_ret|]; eauto.
Qed.

Lemma apply_cloud_spec request printer operation now_unix_ms limits (s : World) :
  spec (apply_cloud_change (E := ProtocolRequestRejected) sha256 value_json parse_value request printer operation now_unix_ms limits) s
    (fun _ s' => exists qs, s'.2 = s.2 ++ qs /\ to_endpoint (pp_endpoint printer) qs /\ (writes_in qs <= 1)%nat /\
       (writes_in qs <> 0%nat -> exists plan observation supported,
          confirmed_plan sha256 value_json parse_value request operation = Ok plan /\
          validate_confirmed_ipp_change_with_supported_values sha256 value_json plan observation supported
            (apply_binding request now_unix_ms) = Ok tt))
    (fun _ s' => exists qs, s'.2 = s.2 ++ qs /\ writes_in qs = 0%nat).
Proof.
  unfold apply_cloud_change. destruct (confirmed_plan _ _ _ request operation) as [plan|result] eqn:Ep.
  2: { apply spec_ret. exists []. rewrite app_nil_r. split_and!; [done|constructor|cbn; lia|by intros []]. }
  apply spec_bind, spec_etry. eapply spec_mono; [by apply apply_spec|..]; cbn beta.
  - intros outcome s' (reads & writes & Hs & Hr & _ & uri & supported & observation & _ & _ & _ & _ & _ & _ & Hval & Ho & _).
    apply sent_wire in Hs as (qs & E & _ & Ew & Hurl). apply spec_ret. exists qs.
    rewrite setting_in_app, (setting_in_reads reads), Nat.add_0_l in Ew by done.
    pose proof (outcome_sets _ _ _ _ Ho). split_and!; [done..|lia|]. intros _. by exists plan, observation, supported.
  - intros [e|] s' (reads & Hs & Hr & _); apply sent_wire in Hs as (qs & E & _ & Ew & Hurl);
      rewrite setting_in_reads in Ew by done.
    + apply spec_ret. exists qs. split_and!; [done..|lia|lia].
    + by exists qs.
Qed.

Lemma guarded_body_spec request now_unix_ms guard (st : St) :
  spec (guarded_body sha256 value_json receipt_json parse_value request now_unix_ms guard) st
    (fun _ st' => guarded_effect request now_unix_ms guard st st')
    (fun _ st' => guarded_effect request now_unix_ms guard st st').
Proof.
  destruct st as [agent s].
  assert (forall s', s'.2 = s.2 -> guarded_effect request now_unix_ms guard (agent, s) (agent, s')) as Hnone.
  { intros s' Hs. apply effect_none; [apply consumes_refl|done]. }
  unfold guarded_body. apply spec_bind, spec_agent_get.
  apply spec_bind, spec_result; [|by auto]. intros printer Hadm.
  unfold admitted in Hadm. inv_ok Hadm. destruct x0, x1. apply Z.eqb_eq in Hx1.
  apply spec_bind, spec_result; [|by auto]. intros [] Hgen. apply ensure_Ok, Z.eqb_eq in Hgen.
  apply spec_bind, spec_result; [|by auto]. intros operation Hop. apply ok_or_Ok in Hop.
  apply spec_bind, spec_result; [|by auto]. intros setting Hset. apply ok_or_Ok in Hset.
  apply spec_bind, spec_result; [|by auto]. intros [] Hall. apply ensure_Ok, bool_decide_eq_true in Hall.
  apply spec_bind. eapply spec_mono; [apply consume_spec|..]; cbn beta; [|intros e st' ->; by auto].
  intros _ [agent' s1] (E1 & Hc & Hfresh). cbn [fst snd] in *. subst s1.
  apply spec_bind, spec_on_world, (spec_ask_cancelled snd (recorded_cancelled _)). intros cancelled s2 E2.
  destruct cancelled; [apply spec_ret, effect_none; [done|exact E2]|].
  apply spec_bind, spec_result; [|intros e _; apply effect_none; [done|exact E2]]. intros limits Hlim.
  apply spec_bind.
  assert (forall s3, (exists qs, s3.2 = s2.2 ++ qs /\ writes_in qs = 0%nat) ->
    guarded_effect request now_unix_ms guard (agent, s) (agent', s3)) as Hreads.
  { intros s3 (qs & E3 & Ew). apply effect_of_reads with (qs := qs); [done| |done]. cbn. by rewrite E3, E2. }
  destruct operation as [op| | |op|op]; try (apply spec_throw, effect_none; [done|exact E2]).
  - apply spec_on_world. eapply spec_mono; [apply plan_cloud_spec|..]; cbn beta; intros; [apply spec_ret|]; by apply Hreads.
  - apply spec_on_world. eapply spec_mono; [apply apply_cloud_spec|..]; cbn beta; [|intros; by apply Hreads].
    intros result s3 (qs & E3 & Hurl & Hle & Hw). apply spec_ret.
    destruct (Hfresh op eq_refl) as [Hf1 Hf2]. destruct Hc as (Hc1 & Hc2 & Hc3 & Hc4). injection Hset as <-.
    exists qs. cbn [fst snd]. split_and!; [by rewrite E3, E2|done..|]. intros Hne. split; [|done].
    destruct (Hw Hne) as (plan & observation & supported & Hp & Hv).
    exists printer, op, plan, observation, supported. done.
Qed.

Lemma guarded_spec request now_unix_ms guard (st : St) :
  spec (guarded request now_unix_ms guard) st
    (fun _ st' => guarded_effect request now_unix_ms guard st st')
    (fun _ st' => guarded_effect request now_unix_ms guard st st').
Proof.
  apply spec_execution. eapply spec_mono; [apply guarded_body_spec|done|]. by intros [e|] st'.
Qed.

Lemma guarded_run request now_unix_ms guard (st st' : St) r :
  guarded request now_unix_ms guard st = (r, st') -> guarded_effect request now_unix_ms guard st st'.
Proof.
  intros Hr. pose proof (guarded_spec request now_unix_ms guard st) as Hs. unfold spec in Hs. rewrite Hr in Hs.
  by destruct r.
Qed.

(** C24: Whatever printer, network and caller do, one guarded execution puts at
    most one write on the wire, and only to the published printer, for an
    unexpired request of this contract, a setting that local policy allows, a
    confirmed value, a plan that was valid for an observation of the printer,
    and a request ID that was not consumed before and is consumed now. Neither
    policy nor the published printers change. *)
Theorem guarded_write_is_permitted request now_unix_ms guard agent (w w' : W) log agent' log' r :
  guarded request now_unix_ms guard (agent, (w, log)) = (r, (agent', (w', log'))) ->
  exists qs, log' = log ++ qs /\ (writes_in qs <= 1)%nat /\
    policy agent' = policy agent /\ printers agent' = printers agent /\
    (writes_in qs <> 0%nat ->
     permitted agent request now_unix_ms guard qs /\
     (pr_request_id request ∉ guarded_write_requests agent) /\ pr_request_id request ∈ guarded_write_requests agent').
Proof.
  intros Hr. apply guarded_run in Hr as (qs & E & Hle & Hp & Hpr & _ & _ & Hw). by exists qs.
Qed.

(** Requests served one after the other, each with what it sent. *)
Fixpoint serve (calls : list (ProtocolRequest * Z * GuardedWritePolicy)) (st : St) :
    list (list Z * list HttpRequest) * St :=
  match calls with
  | [] => ([], st)
  | (request, now_unix_ms, guard) :: calls =>
      let st1 := (guarded request now_unix_ms guard st).2 in
      let '(served, st2) := serve calls st1 in
      ((pr_request_id request, drop (length st.2.2) st1.2.2) :: served, st2)
  end.

(** The writes sent for the requests with one ID. *)
Definition writes_for (id : list Z) (served : list (list Z * list HttpRequest)) : nat :=
  writes_in (concat (map snd (List.filter (fun p => bool_decide (p.1 = id)) served))).

Lemma writes_for_cons id id' qs served :
  writes_for id ((id', qs) :: served) = ((if bool_decide (id' = id) then writes_in qs else 0) + writes_for id served)%nat.
Proof.
  unfold writes_for. cbn [List.filter fst]. case_bool_decide; [|done]. cbn [map concat snd]. by rewrite writes_in_app.
Qed.

(** C25: However many requests an agent serves, in whatever order and with
    whatever outcome, all that have the same ID put at most one write on the
    wire, and none when the ID was consumed before. *)
Theorem request_id_writes_once calls (st st' : St) served id :
  serve calls st = (served, st') ->
  (writes_for id served <= if bool_decide (id ∈ guarded_write_requests st.1) then 0 else 1)%nat.
Proof.
  revert st served. induction calls as [|[[request now_unix_ms] guard] calls IH]; intros st served Hs; cbn [serve] in Hs.
  { injection Hs as <- _. cbn. lia. }
  destruct (guarded request now_unix_ms guard st) as [r st1] eqn:Er. cbn [snd] in Hs.
  destruct (serve calls st1) as [served' st2] eqn:Es. injection Hs as <- ->.
  apply guarded_run in Er as (qs & E & Hle & _ & _ & Hsub & _ & Hw).
  specialize (IH st1 served' Es). rewrite E, drop_app_length, writes_for_cons.
  assert (id ∈ guarded_write_requests st.1 -> id ∈ guarded_write_requests st1.1) as Hin by set_solver.
  destruct (decide (writes_in qs = 0%nat)) as [E0|Hne].
  - rewrite E0. repeat case_bool_decide; lia || naive_solver lia.
  - destruct (Hw Hne) as (_ & Hfresh & Hnow). destruct (decide (pr_request_id request = id)) as [<-|Eid].
    + rewrite (bool_decide_true _ Hnow) in IH. rewrite (bool_decide_false _ Hfresh), bool_decide_true by done. lia.
    + rewrite (bool_decide_false _ Eid). repeat case_bool_decide; lia || naive_solver lia.
Qed.
End Guarded.

(** ** The initial execution *)

Section Initial.
Variable sha256 : list Z -> list Z.
Variable snapshot_json : DeviceSnapshot -> option (list Z).
Context {W : Type} `{IppHttp W} `{AgentEnv W}.

#[local] Abbreviation World := (W * list HttpRequest)%type.
#[local] Abbreviation St := (AgentExecutor * World)%type.
#[local] Abbreviation initial := (execute_initial (W := World) sha256 snapshot_json).

(** What an output mode lets out of a snapshot, and what it needs. *)
Definition released (mode : WireOutputMode) (snapshot : DeviceSnapshot) : DeviceSnapshot :=
  let redacted := redact_sensitive_snapshot sha256 snapshot in
  match mode with
  | WireNormalizedRedacted => with_observations without_values redacted
  | WireRawRedacted => with_observations (redact_observation (contains_sensitive redacted)) redacted
  | WireRawSensitive => snapshot
  end.

Definition mode_allowed (mode : WireOutputMode) (policy : AgentPolicy) : Prop :=
  match mode with
  | WireNormalizedRedacted => True
  | WireRawRedacted => allow_cloud_raw_redacted policy = true
  | WireRawSensitive => allow_cloud_raw_sensitive policy = true
  end.

(** A result that succeeded is the released part of a snapshot of the published
    printer's answer, in an allowed mode and within the request's limit; only
    normalized output may be kept or logged. *)
Definition released_result (agent : AgentExecutor) (request : ProtocolRequest) (now_unix_ms : Z) (result : ProtocolResult) :
    Prop :=
  exists printer operation limits mode uri response,
    validate_request request now_unix_ms (maximum_timeout_ms (policy agent)) (policy_response_bytes (policy agent))
      [KindIppInspect] = Ok tt /\
    printers agent !! pr_target request = Some printer /\ pp_generation printer = pr_generation request /\
    pr_operation request = Some (Operation.IppInspect operation) /\ pr_operation_limits request = Some limits /\
    wire_output_mode (inspect_output_mode operation) = Some mode /\ mode_allowed mode (policy agent) /\
    printer_uri (pp_endpoint printer) = Ok uri /\
    (let snapshot := normalize_ipp (inspect_origin agent request printer uri now_unix_ms) response (document_format operation) in
     snapshot_json (released mode snapshot) = Some (bounded_response result)) /\
    zlen (bounded_response result) <= lim_maximum_response_bytes limits /\
    (persistence_allowed result || logging_allowed result = true -> mode = WireNormalizedRedacted).

Lemma wire_output_mode_inv mode : wire_output_mode mode = Some WireNormalizedRedacted <-> mode = 0.
Proof. unfold wire_output_mode. destruct mode as [|[p|p|]|p]; try destruct p; split; (done || by intros [=]). Qed.

(** An authorized mode has a policy, under which a snapshot is prepared. *)
Lemma output_policy_released m mode policy :
  wire_output_mode m = Some mode -> output_authorized m policy = true ->
  mode_allowed mode policy /\
  exists output_mode authorization, output_policy m policy = Some (output_mode, authorization) /\
    forall snapshot, exists prepared, prepare_snapshot_output sha256 snapshot output_mode authorization = Ok prepared /\
      prepared_snapshot prepared = released mode snapshot.
Proof.
  unfold output_authorized, output_policy. intros Em. rewrite Em. intros Hauth. cbn [mbind option_bind].
  split; [by destruct mode|].
  destruct mode; (do 2 eexists; split; [done|]); intros snapshot;
    cbn [prepare_snapshot_output raw_local cloud_raw sensitive_values]; rewrite ?Hauth; cbn [negb]; by eexists.
Qed.

Lemma inspect_result_released agent request printer operation limits uri now_unix_ms response :
  validate_request request now_unix_ms (maximum_timeout_ms (policy agent)) (policy_response_bytes (policy agent))
    [KindIppInspect] = Ok tt ->
  printers agent !! pr_target request = Some printer -> pp_generation printer = pr_generation request ->
  pr_operation request = Some (Operation.IppInspect operation) -> pr_operation_limits request = Some limits ->
  printer_uri (pp_endpoint printer) = Ok uri -> output_authorized (inspect_output_mode operation) (policy agent) = true ->
  outcome (inspect_result sha256 snapshot_json agent request printer operation limits uri now_unix_ms response) = Succeeded ->
  released_result agent request now_unix_ms
    (inspect_result sha256 snapshot_json agent request printer operation limits uri now_unix_ms response).
Proof.
  intros Hv Hp Hg Hop Hlim Huri Hauth.
  destruct (wire_output_mode (inspect_output_mode operation)) as [mode|] eqn:Em.
  2: { unfold output_authorized in Hauth. by rewrite Em in Hauth. }
  destruct (output_policy_released _ _ _ Em Hauth) as (Hallow & output_mode & authorization & Hpol & Hprep).
  unfold inspect_result. rewrite Hpol. set (snapshot := normalize_ipp _ response _).
  destruct (Hprep snapshot) as (prepared & -> & ->).
  destruct (snapshot_json (released mode snapshot)) as [bytes|] eqn:Ej; [|done].
  destruct (Z.leb_spec (zlen bytes) (lim_maximum_response_bytes limits)) as [Hle|]; [|done]. intros _.
  exists printer, operation, limits, mode, uri, response. cbn [bounded_response persistence_allowed logging_allowed].
  split_and!; try done. rewrite orb_true_iff, !andb_true_iff.
  intros [[E _]|[E _]]; apply Z.eqb_eq, wire_output_mode_inv in E; rewrite Em in E; by injection E.
Qed.

Lemma initial_body_spec request now_unix_ms (st : St) :
  spec (initial_body sha256 snapshot_json request now_unix_ms) st
    (fun result st' => st'.1 = st.1 /\
       (exists qs, st'.2.2 = st.2.2 ++ qs /\ (length qs <= 1)%nat /\ writes_in qs = 0%nat) /\
       (outcome result.2 = Succeeded -> released_result st.1 request now_unix_ms result.2))
    (fun _ st' => st'.1 = st.1 /\ exists qs, st'.2.2 = st.2.2 ++ qs /\ (length qs <= 1)%nat /\ writes_in qs = 0%nat).
Proof.
  destruct st as [agent s].
  assert (forall s' : World, s'.2 = s.2 -> exists qs, s'.2 = s.2 ++ qs /\ (length qs <= 1)%nat /\ writes_in qs = 0%nat) as Hnone.
  { intros s' E. exists []. rewrite app_nil_r. split_and!; [done|cbn; lia|done]. }
  unfold initial_body. apply spec_bind, spec_agent_get.
  apply spec_bind, spec_result; [|by auto]. intros printer Hadm.
  unfold admitted in Hadm. inv_ok Hadm. destruct x0, x1. apply Z.eqb_eq in Hx1.
  apply spec_bind, spec_result; [|by auto]. intros [] Hgen. apply ensure_Ok, Z.eqb_eq in Hgen.
  apply spec_bind, spec_result; [|by auto]. intros operation Hop.
  apply spec_bind, spec_result; [|by auto]. intros [] Hauth. apply ensure_Ok in Hauth.
  apply spec_bind, spec_on_world, (spec_ask_cancelled snd (recorded_cancelled _)). intros cancelled s1 E1.
  destruct cancelled; [apply spec_ret; cbn; split_and!; [done|by apply Hnone|done]|].
  apply spec_bind, spec_result; [|cbn; by auto]. intros limits Hlim. apply ok_or_Ok in Hlim.
  destruct (printer_uri (pp_endpoint printer)) as [uri|] eqn:Euri;
    [|apply spec_ret; cbn; split_and!; [done|by apply Hnone|done]].
  apply spec_bind, spec_on_world, (spec_select snd (recorded_race _)).
  { intros s2 E2. apply spec_ret. cbn. split_and!; [done|apply Hnone; congruence|done]. }
  intros s2 E2.
  assert (forall ms (s3 : World), (length ms <= 1)%nat -> Forall reading ms ->
    sent (pp_endpoint printer) (limits_for limits) ms s2.2 s3.2 ->
    exists qs, s3.2 = s.2 ++ qs /\ (length qs <= 1)%nat /\ writes_in qs = 0%nat) as Hsent.
  { intros ms s3 Hl Hm Hs. apply sent_wire in Hs as (qs & E3 & El & Ew & _). exists qs.
    rewrite E3, E2, E1, El, Ew, setting_in_reads by done. done. }
  eapply spec_mono; [apply inspect_spec|..]; cbn beta.
  - intros response s3 [_ Hs]. apply Hsent in Hs; [|cbn; lia|constructor; [by left|constructor]].
    split; apply spec_ret; cbn [fst snd]; (split_and!; [done|exact Hs|]); [|done].
    unfold inspect_operation in Hop. destruct (pr_operation request) as [[op| | | |]|] eqn:Eop; try done.
    injection Hop as ->. by apply inspect_result_released.
  - intros e s3 [Hs|Hs]; (apply Hsent in Hs; [|cbn; lia|repeat constructor]); [|].
    all: split; [apply spec_ret; cbn; split_and!; [done|exact Hs|done]|].
    all: destruct e as [e|]; [|cbn; by split].
    all: destruct (safe_client_error e) as [o m] eqn:Ee; apply spec_ret; cbn; split_and!; [done|exact Hs|].
    all: intros ->; by destruct e.
Qed.

(** The initial execution only reads: it puts at most one request on the
    wire, never a write, and leaves the agent as it was. When it succeeds, it
    gives out what its output mode releases of a snapshot of the published
    printer's answer, redacted unless policy allows sensitive output, within
    the limit of the request, and only normalized output may be kept. *)
Theorem initial_only_reads request now_unix_ms agent (w w' : W) log agent' log' r :
  initial request now_unix_ms (agent, (w, log)) = (r, (agent', (w', log'))) ->
  agent' = agent /\
  (exists qs, log' = log ++ qs /\ (length qs <= 1)%nat /\ writes_in qs = 0%nat) /\
  forall accepted result, r = Ok (InitialExecution.Accepted accepted result) -> outcome result = Succeeded ->
    released_result agent request now_unix_ms result.
Proof.
  intros Hrun.
  assert (spec (initial request now_unix_ms) (agent, (w, log))
    (fun x st' => st'.1 = agent /\ (exists qs, st'.2.2 = log ++ qs /\ (length qs <= 1)%nat /\ writes_in qs = 0%nat) /\
       forall accepted result, x = InitialExecution.Accepted accepted result -> outcome result = Succeeded ->
         released_result agent request now_unix_ms result)
    (fun _ st' => st'.1 = agent /\ exists qs, st'.2.2 = log ++ qs /\ (length qs <= 1)%nat /\ writes_in qs = 0%nat)) as Hs.
  { apply spec_execution. eapply spec_mono; [apply initial_body_spec|..]; cbn beta.
    - intros [accepted result] st' (H1 & H2 & H3). split_and!; [done..|]. by intros ? ? [= <- <-].
    - intros [e|] st' [H1 H2]; [|done]. split_and!; done. }
  unfold spec in Hs. rewrite Hrun in Hs. destruct r as [x|e]; cbn in Hs.
  - destruct Hs as (H1 & H2 & H3). split_and!; [done..|]. intros accepted result [= ->]. by apply (H3 accepted).
  - destruct Hs as (H1 & H2). by split_and!.
Qed.
End Initial.

(** ** Registered probes *)

Section Probes.
Variable sha256 : list Z -> list Z.
Variable report_json : ProbeExecutionReport -> option (list Z).
Context {W : Type} `{AgentEnv W}.

(** The probes that were run, with their limits. *)
#[export] Instance RecordedProbes : AgentEnv (W * list (ProbeRequest.t * ProbeLimits)) :=
  recorded_env (fun request limits log => log ++ [(request, limits)]).

#[local] Abbreviation World := (W * list (ProbeRequest.t * ProbeLimits))%type.
#[local] Abbreviation probe := (execute_registered_probe (W := World) sha256 report_json).

(** A run that the agent admits: of a read-only probe that the registry holds
    under the name in the request and that is qualified for the target, with
    the limits it was registered with, for a valid request that grants them. *)
Definition admitted_run (agent : AgentExecutor) (request : ProtocolRequest) (now_unix_ms : Z) (registry : ProbeRegistry)
    (target : PublishedProbeTarget) (run : ProbeRequest.t * ProbeLimits) : Prop :=
  exists printer id definition granted,
    validate_request request now_unix_ms (maximum_timeout_ms (policy agent)) (policy_response_bytes (policy agent))
      [KindRunProbe] = Ok tt /\
    printers agent !! pr_target request = Some printer /\ pp_generation printer = pr_generation request /\
    pt_printer_id target = pr_target request /\ pt_endpoint_generation target = pr_generation request /\
    pr_operation request = Some (Operation.RunProbe id) /\ probe_get registry id = Some definition /\
    probe_risk definition = ProbeReadOnly /\
    applies_to definition (pt_protocol target) (pt_transport target) (pt_manufacturer target) (pt_model target)
      (pt_firmware target) = true /\
    prepare_registered_probe registry id (pt_printer_definition target) = Ok run.1 /\ run.2 = probe_limits definition /\
    pr_operation_limits request = Some granted /\ timeout_ms run.2 <= lim_timeout_ms granted /\
    Probe.maximum_response_bytes run.2 <= lim_maximum_response_bytes granted.

(** A result that succeeded is a redacted report within the granted limit. *)
Definition reported (request : ProtocolRequest) (result : ProtocolResult) : Prop :=
  exists report granted, pr_operation_limits request = Some granted /\
    report_json (redact_report sha256 report) = Some (bounded_response result) /\
    zlen (bounded_response result) <= lim_maximum_response_bytes granted /\
    persistence_allowed result = false /\ logging_allowed result = false.

Lemma applies_to_read_only definition protocol transport manufacturer model firmware :
  applies_to definition protocol transport manufacturer model firmware = true -> probe_risk definition = ProbeReadOnly.
Proof. unfold applies_to. rewrite !andb_true_iff, bool_decide_eq_true. tauto. Qed.

Lemma probe_outcome_reported agent registry request target definition id limits now_unix_ms output result :
  pr_operation_limits request = Some limits ->
  probe_outcome sha256 report_json agent registry request target definition id limits now_unix_ms output = Ok result ->
  outcome result = Succeeded -> reported request result.
Proof.
  intros Hlim. unfold probe_outcome. destruct output as [output|]; [|by intros [= <-]].
  destruct (_ <=? _); [|by intros [= <-]].
  destruct (build_read_only_probe_report _ _ _ _ _ _) as [report|[e|]]; [|by intros [= <-]|done].
  intros [= <-]. unfold probe_result, bounded_json_result. destruct (report_json _) as [bytes|] eqn:Ej; [|done].
  destruct (Z.leb_spec (zlen bytes) (lim_maximum_response_bytes limits)); [|done].
  intros _. by exists report, limits.
Qed.

Lemma run_registered_probe_spec {E} prepared limits (s : World) :
  spec (run_registered_probe (E := E) prepared limits) s (fun _ s' => s'.2 = s.2 ++ [(prepared, limits)]) (fun _ _ => False).
Proof. destruct s as [w log]. unfold spec, run_registered_probe. cbn. by destruct (run_probe prepared limits w). Qed.

(** What one execution may do. *)
Definition probe_effect (request : ProtocolRequest) (now_unix_ms : Z) (registry : ProbeRegistry)
    (target : PublishedProbeTarget) (st st' : AgentExecutor * World) : Prop :=
  st'.1 = st.1 /\ exists runs, st'.2.2 = st.2.2 ++ runs /\ (length runs <= 1)%nat /\
    Forall (admitted_run st.1 request now_unix_ms registry target) runs.

Lemma probe_body_spec request now_unix_ms registry target (st : AgentExecutor * World) :
  spec (probe_body sha256 report_json request now_unix_ms registry target) st
    (fun result st' => probe_effect request now_unix_ms registry target st st' /\
       (outcome result.2 = Succeeded -> reported request result.2))
    (fun _ st' => probe_effect request now_unix_ms registry target st st').
Proof.
  destruct st as [agent s].
  assert (forall s' : World, s'.2 = s.2 -> probe_effect request now_unix_ms registry target (agent, s) (agent, s')) as Hnone.
  { intros s' E. split; [done|]. exists []. rewrite app_nil_r. split_and!; [done|cbn; lia|constructor]. }
  unfold probe_body. apply spec_bind, spec_agent_get.
  apply spec_bind, spec_result; [|by auto]. intros printer Hadm.
  unfold admitted in Hadm. inv_ok Hadm. destruct x0, x1. apply Z.eqb_eq in Hx1.
  apply spec_bind, spec_result; [|by auto]. intros [] Hgen. apply ensure_Ok in Hgen.
  rewrite !andb_true_iff, !Z.eqb_eq, bool_decide_eq_true in Hgen. destruct Hgen as [[Hg1 Hg2] Hg3].
  apply spec_bind, spec_result; [|by auto]. intros id Hid. unfold probe_operation in Hid.
  destruct (pr_operation request) as [[| |id'| |]|] eqn:Eop; try done. injection Hid as ->.
  apply spec_bind, spec_result; [|by auto]. intros definition Hdef. apply ok_or_Ok in Hdef.
  apply spec_bind, spec_result; [|by auto]. intros [] Happ. apply ensure_Ok in Happ.
  apply spec_bind, spec_efault; [|by auto]. intros prepared Hprep.
  apply spec_bind, spec_result; [|by auto]. intros limits Hlim. apply ok_or_Ok in Hlim.
  apply spec_bind, spec_result; [|by auto]. intros [] Hle. apply ensure_Ok in Hle.
  rewrite andb_true_iff, !Z.leb_le in Hle. destruct Hle as [Hle1 Hle2].
  apply spec_bind, spec_on_world, (spec_ask_cancelled snd (recorded_cancelled _)). intros cancelled s1 E1.
  destruct cancelled; [apply spec_ret; split; [by apply Hnone|done]|].
  apply spec_bind, spec_on_world, (spec_select snd (recorded_race _)).
  { intros s2 E2. apply spec_ret. split; [apply Hnone; congruence|done]. }
  intros s2 E2. eapply spec_mono; [apply run_registered_probe_spec|..]; cbn beta; [|done].
  intros output s3 E3.
  assert (probe_effect request now_unix_ms registry target (agent, s) (agent, s3)) as Heff.
  { split; [done|]. exists [(prepared, probe_limits definition)]. cbn [fst snd]. split_and!; [congruence|done|].
    constructor; [|constructor]. exists printer, id, definition, limits. cbn [fst snd].
    split_and!; try done. by eapply applies_to_read_only. }
  split; [|by apply spec_ret]. apply spec_bind.
  destruct (probe_outcome _ _ _ _ _ _ _ _ _ _ _) as [result|e] eqn:Er; unfold spec, efault_result; cbn; [|done].
  split; [done|]. by eapply probe_outcome_reported.
Qed.

(** An execution of a probe runs at most one, and only one that is
    registered under the requested name, read-only and qualified for the
    target, as it was prepared and with its registered limits, which the
    request grants, for a valid request to a published printer; a success is a
    report with its endpoints hashed, within the granted limit, that is
    neither kept nor logged. *)
Theorem registered_probe_runs_admitted request now_unix_ms registry target agent (w w' : W) log agent' log' r :
  probe request now_unix_ms registry target (agent, (w, log)) = (r, (agent', (w', log'))) ->
  agent' = agent /\
  (exists runs, log' = log ++ runs /\ (length runs <= 1)%nat /\
     Forall (admitted_run agent request now_unix_ms registry target) runs) /\
  forall accepted result, r = Ok (InitialExecution.Accepted accepted result) -> outcome result = Succeeded ->
    reported request result.
Proof.
  intros Hrun.
  assert (spec (probe request now_unix_ms registry target) (agent, (w, log))
    (fun x st' => probe_effect request now_unix_ms registry target (agent, (w, log)) st' /\
       forall accepted result, x = InitialExecution.Accepted accepted result -> outcome result = Succeeded ->
         reported request result)
    (fun _ st' => probe_effect request now_unix_ms registry target (agent, (w, log)) st')) as Hs.
  { apply spec_execution. eapply spec_mono; [apply probe_body_spec|..]; cbn beta.
    - intros [accepted result] st' (H1 & H2). split; [done|]. by intros ? ? [= <- <-].
    - intros [e|] st' H1; [|done]. by split. }
  unfold spec in Hs. rewrite Hrun in Hs. destruct r as [x|e]; cbn in Hs.
  - destruct Hs as ((H1 & H2) & H3). split_and!; [done..|]. intros accepted result [= ->]. by apply (H3 accepted).
  - destruct Hs as (H1 & H2). by split_and!.
Qed.
End Probes.

(** ** A scripted session *)

#[local] Existing Instance Scripted.

(** Nothing is cancelled, and a probe is answered with a device identifier. *)
Definition uncancelled {W} : AgentEnv W := {|
  is_cancelled := fun w => (false, w);
  race_cancelled := fun w => (Finished, w);
  run_probe := fun _ _ w => (Ok {| probe_response := [0; 15] ++ str "MFG:B;MDL:Q;;"; run_duration_ms := 5 |}, w);
|}.

#[local] Instance ScriptedEnv : AgentEnv (list HttpAnswer) := uncancelled.
#[local] Instance UnitEnv : AgentEnv unit := uncancelled.

(** Stand-ins for the parameters; the digest has the length of SHA-256's. *)
Definition digest32 (l : list Z) : list Z := take 32 (drop 30 l ++ replicate 32 0).
Definition no_receipt (_ : CloudChangeReceipt) : option (list Z) := None.
Definition setting_names (s : DeviceSnapshot) : option (list Z) := Some (concat (map setting_id (device_settings s))).
Definition report_endpoint (report : ProbeExecutionReport) : option (list Z) := Some (pr_endpoint report).
Definition two (_ : list Z) : option Value := Some (Value_integer 2).

Definition session_agent : AgentExecutor := {|
  policy := {| agent_id := str "a"; contract_version := 1; maximum_timeout_ms := 5000; policy_response_bytes := 65536;
               allow_cloud_raw_redacted := false; allow_cloud_raw_sensitive := false |};
  printers := {[ str "p1" := {| pp_printer_id := str "p1"; pp_generation := 7; pp_endpoint := example_endpoint |} ]};
  guarded_write_requests := ∅ |}.

Definition session_request (operation : Operation.t) : ProtocolRequest := {|
  pr_request_id := str "r"; pr_contract_version := 1; authenticated_principal := str "operator"; pr_target := str "p1";
  pr_generation := 7; expires_at_unix_ms := 2000;
  pr_operation_limits := Some {| lim_timeout_ms := 1000; lim_maximum_response_bytes := 65536 |};
  pr_operation := Some operation |}.

Definition session_change : ProtocolRequest := session_request (Operation.ApplyChange {|
  ac_setting_id := str "copies-default";
  ac_expected_old_value_hash :=
    attribute_hash digest32 example_json (Attribute_new (str "copies-default") (Value_integer 1));
  ac_requested_value := []; ac_protocol := str "ipp"; ac_plan_expires_at_unix_ms := 1500;
  ac_expected_requested_value_hash := ipp_value_hash digest32 example_json (Value_integer 2) |}).

Definition session_guard : GuardedWritePolicy := {| allowed_settings := {[ str "copies-default" ]} |}.

Lemma guarded_write_is_permitted_witness : exists qs : list HttpRequest,
  writes_in qs = 1%nat /\
  permitted (W := list HttpAnswer) digest32 example_json two session_agent session_change 1000 session_guard qs.
Proof.
  assert (writes_in (execute_guarded_ipp_change_with_cancellation (W := list HttpAnswer * list HttpRequest) digest32
    example_json no_receipt two session_change 1000 session_guard (session_agent, (example_script, []))).2.2.2 = 1%nat)
    as Hv by (vm_compute; reflexivity).
  destruct (execute_guarded_ipp_change_with_cancellation (W := list HttpAnswer * list HttpRequest) digest32
    example_json no_receipt two session_change 1000 session_guard (session_agent, (example_script, [])))
    as [r [agent' [w' log']]] eqn:Erun in Hv.
  destruct (guarded_write_is_permitted digest32 example_json no_receipt two scripted_bytes session_change 1000
    session_guard session_agent example_script w' [] agent' log' r Erun) as (qs & Eq & _ & _ & _ & Hw).
  cbn [fst snd app] in Hv, Eq. subst log'. exists qs. split; [exact Hv|]. apply Hw. rewrite Hv. discriminate.
Defined.

(** The same request twice: the second is refused. *)
Lemma request_id_writes_once_witness : exists served,
  length served = 2%nat /\ writes_for (str "r") served = 1%nat /\
  (writes_for (str "r") served <= 1)%nat.
Proof.
  assert (let served := (serve (W := list HttpAnswer) digest32 example_json no_receipt two
      [(session_change, 1000, session_guard); (session_change, 1000, session_guard)]
      (session_agent, (example_script ++ example_script, []))).1 in
    length served = 2%nat /\ writes_for (str "r") served = 1%nat) as Hv by (vm_compute; split; reflexivity).
  destruct (serve (W := list HttpAnswer) digest32 example_json no_receipt two
      [(session_change, 1000, session_guard); (session_change, 1000, session_guard)]
      (session_agent, (example_script ++ example_script, []))) as [served st'] eqn:Erun in Hv.
  pose proof (request_id_writes_once digest32 example_json no_receipt two scripted_bytes
    [(session_change, 1000, session_guard); (session_change, 1000, session_guard)]
    (session_agent, (example_script ++ example_script, [])) st' served (str "r") Erun) as Hle.
  cbn [fst] in Hv. destruct Hv as [Hl Hw]. exists served. split; [exact Hl|]. split; [exact Hw|].
  exact Hle.
Defined.

Definition session_inspect : ProtocolRequest :=
  session_request (Operation.IppInspect {| requested_attributes := []; document_format := None; inspect_output_mode := 0 |}).

Definition inspected_printer : Message := {|
  version := V2_0; code := 0; request_id := agent_request_number (str "r"); original_bytes := [];
  groups := [{| g_tag := PRINTER_ATTRIBUTES_TAG; g_attributes :=
    [Attribute_new (str "printer-name") (Value_raw ValueTag.NameWithoutLanguage (str "desk"))] |}] |}.

Lemma initial_only_reads_witness : exists result,
  bounded_response result = str "printer-name" /\
  released_result digest32 setting_names session_agent session_inspect 1000 result.
Proof.
  assert (match (execute_initial (W := list HttpAnswer * list HttpRequest) digest32 setting_names session_inspect 1000
      (session_agent, ([reply inspected_printer], []))).1 with
    | Ok (InitialExecution.Accepted _ result) => outcome result = Succeeded /\ bounded_response result = str "printer-name"
    | _ => False
    end) as Hv by (vm_compute; split; reflexivity).
  destruct (execute_initial (W := list HttpAnswer * list HttpRequest) digest32 setting_names session_inspect 1000
      (session_agent, ([reply inspected_printer], []))) as [r [agent' [w' log']]] eqn:Erun in Hv.
  destruct (initial_only_reads digest32 setting_names session_inspect 1000 session_agent [reply inspected_printer] w' []
    agent' log' r Erun) as (_ & _ & Hrel).
  cbn [fst] in Hv. destruct r as [[rejected|accepted result]|]; [destruct Hv| |destruct Hv].
  destruct Hv as [Ho Hb]. exists result. split; [exact Hb|]. exact (Hrel accepted result eq_refl Ho).
Defined.

Definition id_probe : ProbeDefinition :=
  builtin_definition (str "id") ProbeKind.Ieee1284DeviceId FamilyIeee1284 [TransportUsb] 64.

Definition id_registry : ProbeRegistry := {| probe_definitions := {[ str "id" := id_probe ]} |}.

Definition id_target : PublishedProbeTarget := {|
  pt_printer_id := str "p1"; pt_endpoint_generation := 7; pt_endpoint_identity := str "usb:1";
  pt_transport := TransportUsb; pt_protocol := FamilyIeee1284; pt_manufacturer := Some (str "Brother"); pt_model := None;
  pt_firmware := None; pt_printer_definition := None |}.

Definition session_probe : ProtocolRequest := {|
  pr_request_id := str "r"; pr_contract_version := 1; authenticated_principal := str "operator"; pr_target := str "p1";
  pr_generation := 7; expires_at_unix_ms := 2000;
  pr_operation_limits := Some {| lim_timeout_ms := 5000; lim_maximum_response_bytes := 65536 |};
  pr_operation := Some (Operation.RunProbe (str "id")) |}.

Lemma registered_probe_runs_admitted_witness : exists runs result,
  length runs = 1%nat /\ Forall (admitted_run session_agent session_probe 1000 id_registry id_target) runs /\
  reported digest32 report_endpoint session_probe result.
Proof.
  assert (let run := execute_registered_probe (W := unit * list (ProbeRequest.t * ProbeLimits)) digest32 report_endpoint
      session_probe 1000 id_registry id_target (session_agent, (tt, [])) in
    match run.1 with
    | Ok (InitialExecution.Accepted _ result) => outcome result = Succeeded /\ length run.2.2.2 = 1%nat
    | _ => False
    end) as Hv by (vm_compute; split; reflexivity).
  destruct (execute_registered_probe (W := unit * list (ProbeRequest.t * ProbeLimits)) digest32 report_endpoint
      session_probe 1000 id_registry id_target (session_agent, (tt, []))) as [r [agent' [w' log']]] eqn:Erun in Hv.
  destruct (registered_probe_runs_admitted digest32 report_endpoint session_probe 1000 id_registry id_target session_agent
    tt w' [] agent' log' r Erun) as (_ & (runs & El & _ & Hruns) & Hrep).
  cbn [fst snd app] in Hv, El. destruct r as [[rejected|accepted result]|]; [destruct Hv| |destruct Hv].
  destruct Hv as [Ho Hl]. subst log'. exists runs, result. split; [exact Hl|]. split; [exact Hruns|].
  exact (Hrep accepted result eq_refl Ho).
Defined.
