(* ===== verification/BleTransport.v ===== *)
(** The Bluetooth Low Energy transport
    (crates/mb-printer-native/src/transports/ble.rs): characteristic selection,
    notification states, and the credit flow of Phomemo printers. The GATT
    stack is a parameter: its characteristics, the answers of its calls and the
    notifications it delivers. *)

From stdpp Require Import base list strings numbers option.
From S2P Require Import Prelude Capabilities Transport.

#[local] Open Scope Z_scope.

Definition NOTIFICATION_QUEUE_CAPACITY : Z := 32.

Definition ble_error (kind : TransportErrorKind) (message : string) : TransportError :=
  {| kind := kind; message := message |}.

(** ** Credit flow *)

Record CreditFlowState := {
  credits : Z;
  maximum_payload : option Z;
  pending_responses : list (list Z);
}.

Definition CreditFlowState_default : CreditFlowState :=
  {| credits := 0; maximum_payload := None; pending_responses := [] |}.

Definition with_credits (n : Z) (flow : CreditFlowState) : CreditFlowState :=
  {| credits := n; maximum_payload := maximum_payload flow; pending_responses := pending_responses flow |}.

Definition with_pending (l : list (list Z)) (flow : CreditFlowState) : CreditFlowState :=
  {| credits := credits flow; maximum_payload := maximum_payload flow; pending_responses := l |}.

(** Whether a notification was a control frame, and the state after it. *)
Definition observe (flow : CreditFlowState) (bytes : list Z) : bool * CreditFlowState :=
  match bytes with
  | [0x01; n] => (true, with_credits (saturate usize_max (credits flow + n)) flow)
  | [0x02; low; high] =>
      let limit := of_le_bytes [low; high] in
      (true,
       if limit =? 0 then flow
       else {| credits := credits flow; maximum_payload := Some limit; pending_responses := pending_responses flow |})
  | _ => (false, flow)
  end.

(** What the notification channel delivers, in order. [Quiet] is a moment
    without a notification: a timeout that is running fires, and a race
    against a cancellation can be lost there. After the last one, the stream
    has ended. *)
Inductive Arrival := Frame (bytes : list Z) | Quiet.

(** What a future did: its result, or [None] when it was dropped at a quiet
    moment; the notifications it took; and what is left of the channel. *)
Record Received (A : Type) := {
  outcome : option (Result TransportError A);
  flow : CreditFlowState;
  left : list Arrival;
  taken : list (list Z);
}.
Arguments outcome {A} _.
Arguments flow {A} _.
Arguments left {A} _.
Arguments taken {A} _.

Definition received {A} (outcome : option (Result TransportError A)) (flow : CreditFlowState)
    (left : list Arrival) : Received A :=
  {| outcome := outcome; flow := flow; left := left; taken := [] |}.

Definition take {A} (bytes : list Z) (r : Received A) : Received A :=
  {| outcome := outcome r; flow := flow r; left := left r; taken := bytes :: taken r |}.

Definition stream_ended : TransportError := ble_error Disconnected "BLE notification stream ended".

(** [while flow.credits == 0 { .. }  flow.credits -= 1]. *)
Fixpoint receive_for_credit (dropping : bool) (flow : CreditFlowState) (arrivals : list Arrival) : Received unit :=
  if negb (credits flow =? 0) then received (Some (Ok tt)) (with_credits (credits flow - 1) flow) arrivals
  else
    match arrivals with
    | [] => received (Some (Err stream_ended)) flow []
    | Quiet :: arrivals => if dropping then received None flow arrivals else receive_for_credit dropping flow arrivals
    | Frame bytes :: arrivals =>
        let '(control, flow) := observe flow bytes in
        take bytes
          (if control then receive_for_credit dropping flow arrivals
           else if zlen (pending_responses flow) =? NOTIFICATION_QUEUE_CAPACITY
           then received (Some (Err (ble_error Io "BLE response queue is full while waiting for write credit"))) flow
                  arrivals
           else receive_for_credit dropping (with_pending (pending_responses flow ++ [bytes]) flow) arrivals)
    end.

(** The loop under the timeout. *)
Fixpoint response_loop (dropping : bool) (flow : CreditFlowState) (arrivals : list Arrival) : Received WaitOutcome :=
  match arrivals with
  | [] => received (Some (Err stream_ended)) flow []
  | Quiet :: arrivals => received (if dropping then None else Some (Ok TimedOut)) flow arrivals
  | Frame bytes :: arrivals =>
      let '(control, flow) := observe flow bytes in
      take bytes
        (if control then response_loop dropping flow arrivals
         else received (Some (Ok (Response bytes))) flow arrivals)
  end.

Definition receive_flow_response (dropping : bool) (flow : CreditFlowState) (arrivals : list Arrival) :
    Received WaitOutcome :=
  match pending_responses flow with
  | bytes :: pending => received (Some (Ok (Response bytes))) (with_pending pending flow) arrivals
  | [] => response_loop dropping flow arrivals
  end.

(** ** Notification states *)

Module NotificationState.
Inductive t := Unsupported | Available | Subscribed | Disconnected.

#[global] Instance eq_dec : EqDecision t.
Proof. solve_decision. Defined.
End NotificationState.

Definition disconnected_error : TransportError := ble_error Disconnected "BLE transport is disconnected".

Definition validate_write_state (state : NotificationState.t) (length limit : Z) : Result TransportError unit :=
  if bool_decide (state = NotificationState.Disconnected) then Err disconnected_error
  else if limit <? length
  then Err (ble_error InvalidConfiguration "BLE write exceeds the declared payload limit")
  else Ok tt.

(** The state after waiting, what the wait returned and took, and the channel. *)
Definition wait_notification_state (dropping : bool) (state : NotificationState.t)
    (notifications : option (list Arrival)) :
    option (Result TransportError WaitOutcome) * NotificationState.t * option (list Arrival) * list (list Z) :=
  match state with
  | NotificationState.Unsupported | NotificationState.Available => (Some (Ok Unavailable), state, notifications, [])
  | NotificationState.Disconnected => (Some (Err disconnected_error), state, notifications, [])
  | NotificationState.Subscribed =>
      match notifications with
      | None =>
          (Some (Err (ble_error InvalidConfiguration "BLE notification state is inconsistent")), state, notifications, [])
      | Some [] => (Some (Err stream_ended), NotificationState.Disconnected, notifications, [])
      | Some (Quiet :: arrivals) => (if dropping then None else Some (Ok TimedOut), state, Some arrivals, [])
      | Some (Frame bytes :: arrivals) => (Some (Ok (Response bytes)), state, Some arrivals, [bytes])
      end
  end.

(** ** The platform *)

(** A notification of the peripheral, of any of its characteristics. *)
Inductive Incoming := Notification (from : string) (value : list Z) | Idle.

(** What a platform call asks of the device, with its answer when known. *)
Inductive PlatformCall :=
| OpenStream (ok : bool)
| Subscribe (ok : bool)
| Heard (bytes : list Z)
| Wrote (bytes : list Z) (ok : option bool)
| Disconnect (ok : bool).

(** The platform's answers in order (success when none is left), the
    notifications it will deliver once subscribed, its clock, and what was
    asked of it so far. *)
Record Platform := {
  answers : list bool;
  incoming : list Incoming;
  instants : list Z;
  calls : list PlatformCall;
}.

Definition record (c : list PlatformCall) (p : Platform) : Platform :=
  {| answers := answers p; incoming := incoming p; instants := instants p; calls := calls p ++ c |}.

Definition answer (p : Platform) : bool * Platform :=
  match answers p with
  | [] => (true, p)
  | ok :: rest => (ok, {| answers := rest; incoming := incoming p; instants := instants p; calls := calls p |})
  end.

Definition ask (call : bool -> PlatformCall) (p : Platform) : bool * Platform :=
  let '(ok, p) := answer p in (ok, record [call ok] p).

(** The forwarding task: notifications of one characteristic, in order. *)
Definition forward (expected_uuid : string) (incoming : list Incoming) : list Arrival :=
  omap (fun i =>
    match i with
    | Notification from value => if String.eqb from expected_uuid then Some (Frame value) else None
    | Idle => Some Quiet
    end) incoming.

(** ** The transport *)

Section Ble.
(** A characteristic of the GATT stack: its UUID and its two properties. *)
Context {Characteristic : Type}.
Variable uuid : Characteristic -> string.
Variables can_write_without_response can_notify : Characteristic -> bool.

Definition select_notification (characteristics : list Characteristic) (profile : BleNotification) :
    Result TransportError (option Characteristic) :=
  match List.find (fun item => String.eqb (uuid item) (characteristic profile)) characteristics with
  | Some item =>
      if can_notify item then Ok (Some item)
      else Err (ble_error InvalidConfiguration "BLE notification characteristic does not support notifications")
  | None =>
      match requirement profile with
      | Optional => Ok None
      | Required => Err (ble_error Connection "required BLE notification characteristic was not found")
      end
  end.

Definition select_characteristics (characteristics : list Characteristic) (capabilities : BleGattCapabilities) :
    Result TransportError (Characteristic * option Characteristic) :=
  match write_type capabilities with
  | WithoutResponse =>
      let named item := String.eqb (uuid item) (write_characteristic capabilities) in
      let? write :=
        match List.find (fun item => named item && can_write_without_response item) characteristics with
        | Some write => Ok write
        | None =>
            if existsb named characteristics
            then Err (ble_error InvalidConfiguration "BLE write characteristic does not support write without response")
            else Err (ble_error Connection "BLE write characteristic was not found")
        end in
      let? notification :=
        match notification capabilities with
        | None => Ok None
        | Some profile => select_notification characteristics profile
        end in
      match flow_control capabilities, notification with
      | Some _, None => Err (ble_error Connection "BLE flow control requires a notification characteristic")
      | _, _ => Ok (write, notification)
      end
  end.

Record BtleplugTransport := {
  write_to : Characteristic;
  notify : option Characteristic;
  notification_state : NotificationState.t;
  notifications : option (list Arrival);
  forwarding_task : bool;
  declared_limit : Z;
  credit_flow : option CreditFlowState;
}.

#[local] Abbreviation St := (BtleplugTransport * Platform)%type.

Definition with_state (state : NotificationState.t) (t : BtleplugTransport) : BtleplugTransport := {|
  write_to := write_to t; notify := notify t; notification_state := state; notifications := notifications t;
  forwarding_task := forwarding_task t; declared_limit := declared_limit t; credit_flow := credit_flow t |}.

Definition with_channel (channel : option (list Arrival)) (task : bool) (t : BtleplugTransport) : BtleplugTransport := {|
  write_to := write_to t; notify := notify t; notification_state := notification_state t; notifications := channel;
  forwarding_task := task; declared_limit := declared_limit t; credit_flow := credit_flow t |}.

Definition with_flow (flow : CreditFlowState) (channel : list Arrival) (t : BtleplugTransport) : BtleplugTransport := {|
  write_to := write_to t; notify := notify t; notification_state := notification_state t;
  notifications := Some channel; forwarding_task := forwarding_task t; declared_limit := declared_limit t;
  credit_flow := Some flow |}.

(** [connect], once the peripheral is connected and its services discovered. *)
Definition connect (characteristics : list Characteristic) (capabilities : BleGattCapabilities) (payload_limit : Z)
    (p : Platform) : Result TransportError BtleplugTransport * Platform :=
  match select_characteristics characteristics capabilities with
  | Err error => let '(_, p) := ask Disconnect p in (Err error, p)
  | Ok (write, notify) =>
      (Ok {| write_to := write;
             notify := notify;
             notification_state :=
               match notify with Some _ => NotificationState.Available | None => NotificationState.Unsupported end;
             notifications := None;
             forwarding_task := false;
             declared_limit := payload_limit;
             credit_flow :=
               match flow_control capabilities with Some PhomemoCredit => Some CreditFlowState_default | None => None end |},
       p)
  end.

Definition subscribe_inner (s : St) : Result TransportError NotificationSupport * St :=
  let '(t, p) := s in
  match notification_state t with
  | NotificationState.Unsupported => (Ok NotificationsUnavailable, s)
  | NotificationState.Subscribed => (Ok Subscribed, s)
  | NotificationState.Disconnected => (Err disconnected_error, s)
  | NotificationState.Available =>
      match notify t with
      | None => (Err (ble_error InvalidConfiguration "BLE notification characteristic is missing"), s)
      | Some characteristic =>
          let '(opened, p) := ask OpenStream p in
          if negb opened then (Err (ble_error Connection "could not open BLE notification stream"), (t, p))
          else
          let '(subscribed, p) := ask Subscribe p in
          if negb subscribed then (Err (ble_error Connection "could not subscribe to BLE notifications"), (t, p))
          else
            (Ok Subscribed,
             (with_state NotificationState.Subscribed
                (with_channel (Some (forward (uuid characteristic) (incoming p))) true t), p))
      end
  end.

(** [peripheral.write]: dropped, it may or may not have reached the device. *)
Definition platform_write (dropping : bool) (bytes : list Z) (s : St) : option (Result TransportError unit) * St :=
  let '(t, p) := s in
  if dropping then (None, (t, record [Wrote bytes None] p))
  else
    let '(ok, p) := ask (fun ok => Wrote bytes (Some ok)) p in
    (Some (if ok : bool then Ok tt else Err (ble_error Io "BLE write failed")), (t, p)).

Definition write_inner (dropping : bool) (bytes : list Z) (s : St) : option (Result TransportError unit) * St :=
  let '(t, p) := s in
  match validate_write_state (notification_state t) (zlen bytes) (declared_limit t) with
  | Err error => (Some (Err error), s)
  | Ok _ =>
      match credit_flow t with
      | None => platform_write dropping bytes s
      | Some flow_ =>
          if negb (bool_decide (notification_state t = NotificationState.Subscribed))
          then (Some (Err (ble_error InvalidConfiguration
                  "BLE credit flow requires notification subscription before writing")), s)
          else
          match notifications t with
          | None => (Some (Err (ble_error InvalidConfiguration "BLE credit notification receiver is missing")), s)
          | Some arrivals =>
              let r := receive_for_credit dropping flow_ arrivals in
              let t := with_flow (flow r) (left r) t in
              let p := record (map Heard (taken r)) p in
              match outcome r with
              | None => (None, (t, p))
              | Some (Err error) => (Some (Err error), (with_state NotificationState.Disconnected t, p))
              | Some (Ok _) =>
                  if match maximum_payload (flow r) with Some maximum => maximum <? zlen bytes | None => false end
                  then (Some (Err (ble_error InvalidConfiguration
                          "BLE write exceeds the printer-advertised flow limit")), (t, p))
                  else platform_write dropping bytes (t, p)
              end
          end
      end
  end.

Definition wait_inner (dropping : bool) (s : St) : option (Result TransportError WaitOutcome) * St :=
  let '(t, p) := s in
  match credit_flow t with
  | Some flow_ =>
      if negb (bool_decide (notification_state t = NotificationState.Subscribed)) then (Some (Ok Unavailable), s)
      else
      match notifications t with
      | None => (Some (Err (ble_error InvalidConfiguration "BLE credit notification receiver is missing")), s)
      | Some arrivals =>
          let r := receive_flow_response dropping flow_ arrivals in
          let t := with_flow (flow r) (left r) t in
          let p := record (map Heard (taken r)) p in
          match outcome r with
          | Some (Err error) =>
              (Some (Err error),
               (if bool_decide (kind error = Disconnected) then with_state NotificationState.Disconnected t else t, p))
          | o => (o, (t, p))
          end
      end
  | None =>
      let '(o, state, channel, taken) := wait_notification_state dropping (notification_state t) (notifications t) in
      (o, (with_state state (with_channel channel (forwarding_task t) t), record (map Heard taken) p))
  end.

Definition disconnect_inner (s : St) : Result TransportError unit * St :=
  let '(t, p) := s in
  if bool_decide (notification_state t = NotificationState.Disconnected) then (Ok tt, s)
  else
    let t := with_channel None false (with_state NotificationState.Disconnected t) in
    let '(ok, p) := ask Disconnect p in
    (if ok then Ok tt else Err (ble_error Connection "could not disconnect BLE peripheral"), (t, p)).

(** [Transport::payload_limit]. *)
Definition effective_limit (t : BtleplugTransport) : Z :=
  match (flow ← credit_flow t; maximum_payload flow) with
  | Some maximum => Z.min maximum (declared_limit t)
  | None => declared_limit t
  end.
End Ble.

(** ** Runs *)

Section Runs.
Context {Characteristic : Type}.
Variable uuid : Characteristic -> string.

#[local] Abbreviation St := (BtleplugTransport (Characteristic := Characteristic) * Platform)%type.

(** A subscription dropped while the platform works on it: the transport's
    state is only set once both calls have succeeded. *)
Definition subscribe_dropped (s : St) : St :=
  let '(t, p) := s in
  match notification_state t, notify t with
  | NotificationState.Available, Some _ => let '(_, p) := ask OpenStream p in (t, p)
  | _, _ => s
  end.

(** One call of the transport by its client, completed or dropped. *)
Inductive ble_step : St -> Event -> St -> Prop :=
| step_subscribe s r s' : subscribe_inner uuid s = (r, s') -> ble_step s (SubscribeCall (Some r)) s'
| step_subscribe_dropped s : ble_step s (SubscribeCall None) (subscribe_dropped s)
| step_write s dropping bytes kind o s' :
    write_inner dropping bytes s = (o, s') -> ble_step s (WriteCall bytes kind o) s'
| step_wait s dropping timeout o s' : wait_inner dropping s = (o, s') -> ble_step s (WaitCall timeout o) s'
| step_delay s duration : ble_step s (DelayCall duration) s.

Definition tick (p : Platform) : Z * Platform :=
  match instants p with
  | [] => (0, p)
  | now :: rest => (now, {| answers := answers p; incoming := incoming p; instants := rest; calls := calls p |})
  end.

(** The calls made in order, from a connected transport. *)
Inductive ble_run (start : St) : list Event -> St -> Prop :=
| run_start : ble_run start [] start
| run_call events s e s' : ble_run start events s -> ble_step s e s' -> ble_run start (events ++ [e]) s'
| run_disconnect events s : ble_run start events s -> ble_run start events (disconnect_inner s).2
| run_tick events s : ble_run start events s -> ble_run start events (s.1, (tick s.2).2).
End Runs.
