(* ===== verification/BleFacts.v ===== *)
(** Properties of the Bluetooth Low Energy transport (BleTransport.v): a write
    never outruns the printer's credits, and responses are delivered in order,
    in every run of the transport and so in every execution of a plan on it. *)

From stdpp Require Import base strings numbers option list.
From S2P Require Import Prelude Effects Capabilities ProtocolTypes Transport Executor BleTransport.

#[local] Open Scope Z_scope.

(** ** Notifications *)

(** Control frames grant credits or set a limit; others are responses. *)
Definition is_control (bytes : list Z) : bool := (observe CreditFlowState_default bytes).1.

Definition grant (bytes : list Z) : Z := match bytes with [0x01; n] => n | _ => 0 end.

Definition granted (heard : list (list Z)) : Z := foldr (fun bytes n => grant bytes + n) 0 heard.

Definition responses_of (heard : list (list Z)) : list (list Z) := List.filter (fun b => negb (is_control b)) heard.

Definition frames (arrivals : list Arrival) : list (list Z) :=
  omap (fun a => match a with Frame bytes => Some bytes | Quiet => None end) arrivals.

Definition frame_ok (a : Arrival) : Prop := match a with Frame bytes => bytes_ok bytes | Quiet => True end.

(** The field widths of the source, and its bound on waiting responses. *)
Definition flow_ok (f : CreditFlowState) : Prop :=
  in_u usize_max (credits f) /\ (forall m, maximum_payload f = Some m -> in_u u16_max m) /\
  zlen (pending_responses f) <= NOTIFICATION_QUEUE_CAPACITY.

Lemma granted_app l k : granted (l ++ k) = granted l + granted k.
Proof. unfold granted. induction l as [|b l IH]; cbn; [done|]. rewrite IH. lia. Qed.

Lemma responses_of_app l k : responses_of (l ++ k) = responses_of l ++ responses_of k.
Proof. apply List.filter_app. Qed.

Lemma responses_of_cons b l : responses_of (b :: l) = (if is_control b then [] else [b]) ++ responses_of l.
Proof. unfold responses_of. cbn. by destruct (is_control b). Qed.

(** The three forms of a notification. *)
Inductive frame_form : list Z -> Prop :=
| form_credit n : frame_form [0x01; n]
| form_limit low high : frame_form [0x02; low; high]
| form_response bytes : (forall f, observe f bytes = (false, f)) -> grant bytes = 0 -> frame_form bytes.

Lemma frame_forms bytes : frame_form bytes.
Proof.
  destruct bytes as [|b [|c l]]; [by apply form_response|apply form_response; cbn; repeat case_match; done|].
  destruct (decide (b = 1)) as [->|H1]; [destruct l; [apply form_credit|by apply form_response]|].
  destruct (decide (b = 2)) as [->|H2].
  - destruct l as [|d [|e l]]; [by apply form_response|apply form_limit|by apply form_response].
  - apply form_response; cbn; repeat case_match; done.
Qed.

Lemma observe_spec f bytes :
  bytes_ok bytes -> flow_ok f ->
  let '(control, f') := observe f bytes in
  control = is_control bytes /\ flow_ok f' /\ pending_responses f' = pending_responses f /\
  credits f' <= credits f + grant bytes /\ 0 <= grant bytes /\ (control = false -> f' = f).
Proof.
  intros Hb (Hc & Hm & Hp). destruct (frame_forms bytes) as [n|low high|bytes Hf Hg].
  - cbn. inversion_clear Hb as [|? ? _ Hb']. inversion_clear Hb' as [|? ? Hn _]. unfold byte_ok, in_u, saturate in *.
    split_and!; try done; try lia. cbn. unfold flow_ok, in_u. cbn. split_and!; (done || lia).
  - inversion_clear Hb as [|? ? _ Hb']. pose proof (of_le_bytes_bound _ Hb') as Hl.
    change (256 ^ zlen [low; high]) with 65536 in Hl. cbn [observe grant].
    destruct (of_le_bytes [low; high] =? 0); split_and!; try done; cbn [credits]; try lia.
    split_and!; [done| |done]. cbn [maximum_payload]. intros m [= <-]. unfold in_u, u16_max. cbn in Hl. lia.
  - unfold is_control. rewrite !Hf, Hg. split_and!; (done || lia).
Qed.

(** ** Waiting for credit and for responses *)

Definition ok_outcome {A} (o : option (Result TransportError A)) : Z := match o with Some (Ok _) => 1 | _ => 0 end.

(** What holds of every receive: widths are kept, nothing the channel delivers
    is skipped, credits only come from grants. *)
Definition received_ok {A} (f : CreditFlowState) (arrivals : list Arrival) (spent : Z) (r : Received A) : Prop :=
  flow_ok (flow r) /\ Forall frame_ok (left r) /\ frames arrivals = taken r ++ frames (left r) /\
  credits (flow r) + spent <= credits f + granted (taken r).

Lemma received_ok_take {A} f f' arrivals spent bytes (r : Received A) :
  credits f' <= credits f + grant bytes -> received_ok f' arrivals spent r ->
  received_ok f (Frame bytes :: arrivals) spent (BleTransport.take bytes r).
Proof.
  intros Hc (H1 & H2 & H3 & H4). unfold received_ok. cbn [flow left taken BleTransport.take].
  change (frames (Frame bytes :: arrivals)) with (bytes :: frames arrivals).
  change (granted (bytes :: taken r)) with (grant bytes + granted (taken r)).
  rewrite H3. split_and!; (done || lia).
Qed.

Lemma received_ok_now {A} f (o : option (Result TransportError A)) arrivals :
  flow_ok f -> Forall frame_ok arrivals -> received_ok f arrivals 0 (received o f arrivals).
Proof. intros Hf Ha. unfold received_ok. cbn. split_and!; (done || lia). Qed.

Lemma flow_ok_spend f : flow_ok f -> credits f <> 0 -> flow_ok (with_credits (credits f - 1) f).
Proof.
  intros (Hc & Hm & Hp) E. unfold flow_ok, in_u in *. cbn. split_and!; (done || lia).
Qed.

(** What was waiting and what is received: all of it is waiting afterwards, but
    for the last one when the queue was full. *)
Definition queued {A} (f : CreditFlowState) (r : Received A) : Prop :=
  exists lost, pending_responses f ++ responses_of (taken r) = pending_responses (flow r) ++ lost /\
    (lost <> [] -> exists e, outcome r = Some (Err e)).

Lemma queued_now {A} f (o : option (Result TransportError A)) arrivals f' :
  pending_responses f' = pending_responses f -> queued f (received o f' arrivals).
Proof. intros E. exists []. cbn. by rewrite E, !app_nil_r. Qed.

Lemma queued_take {A} f f' bytes (r : Received A) :
  pending_responses f' = pending_responses f ++ (if is_control bytes then [] else [bytes]) ->
  queued f' r -> queued f (BleTransport.take bytes r).
Proof.
  intros E (lost & Hl & He). exists lost. cbn [taken flow outcome BleTransport.take].
  rewrite responses_of_cons, app_assoc, <- E. done.
Qed.

Lemma receive_for_credit_ok dropping f arrivals :
  Forall frame_ok arrivals -> flow_ok f ->
  let r := receive_for_credit dropping f arrivals in
  received_ok f arrivals (ok_outcome (outcome r)) r /\ queued f r.
Proof.
  intros Ha. revert f. induction Ha as [|a arrivals Ha Has IH]; intros f Hf;
    cbn [receive_for_credit]; destruct (Z.eqb_spec (credits f) 0) as [E|E]; cbn [negb].
  - split; [by apply received_ok_now|by apply queued_now].
  - split; [|by apply queued_now]. unfold received_ok. cbn. split_and!; [by apply flow_ok_spend|done|done|lia].
  - destruct a as [bytes|].
    2: { destruct dropping; [|exact (IH f Hf)]. split; [exact (received_ok_now f None arrivals Hf Has)|by apply queued_now]. }
    pose proof (observe_spec f bytes Ha Hf) as Ho. destruct (observe f bytes) as [control f'].
    destruct Ho as (Hcon & Hf' & Hp' & Hc' & Hg & Hsame). destruct control.
    + destruct (IH f' Hf') as [Hr Hq]. split; [by apply (received_ok_take _ f')|].
      apply (queued_take _ f'); [|done]. by rewrite <- Hcon, app_nil_r.
    + rewrite Hsame in * by done. clear f' Hsame Hf' Hp' Hc'.
      destruct (Z.eqb_spec (zlen (pending_responses f)) NOTIFICATION_QUEUE_CAPACITY) as [Eq|Eq].
      * split; [apply (received_ok_take _ f); [lia|by apply received_ok_now]|].
        exists [bytes]. cbn [taken flow outcome BleTransport.take received]. rewrite responses_of_cons, <- Hcon. split; [done|]. by eexists.
      * destruct (IH (with_pending (pending_responses f ++ [bytes]) f)) as [Hr Hq].
        { destruct Hf as (Hc & Hm & Hp). unfold flow_ok. cbn. split_and!; try done. zlen_lia. }
        split; [eapply received_ok_take; [|exact Hr]; cbn; lia|].
        eapply queued_take; [|exact Hq]. by rewrite <- Hcon.
  - split; [|by apply queued_now]. unfold received_ok. cbn.
    split_and!; [by apply flow_ok_spend|by constructor|done|lia].
Qed.

(** The response a wait returned. *)
Definition delivered_by (o : option (Result TransportError WaitOutcome)) : list (list Z) :=
  match o with Some (Ok (Response bytes)) => [bytes] | _ => [] end.

Lemma response_loop_ok dropping f arrivals :
  Forall frame_ok arrivals -> flow_ok f ->
  let r := response_loop dropping f arrivals in
  received_ok f arrivals 0 r /\ pending_responses (flow r) = pending_responses f /\
  responses_of (taken r) = delivered_by (outcome r).
Proof.
  intros Ha. revert f. induction Ha as [|a arrivals Ha Has IH]; intros f Hf; cbn [response_loop].
  - by split_and!; [apply received_ok_now|..].
  - destruct a as [bytes|]; [|by split_and!; [exact (received_ok_now f _ arrivals Hf Has)|..|destruct dropping]].
    pose proof (observe_spec f bytes Ha Hf) as Ho. destruct (observe f bytes) as [control f'].
    destruct Ho as (Hcon & Hf' & Hp' & Hc' & Hg & Hsame). destruct control.
    + destruct (IH f' Hf') as (Hr & Hq & Hd). split_and!; [by apply (received_ok_take _ f')|by cbn; rewrite Hq|].
      cbn [taken BleTransport.take outcome]. by rewrite responses_of_cons, <- Hcon.
    + split_and!; [apply (received_ok_take _ f'); [done|by apply received_ok_now]|done|].
      cbn [taken BleTransport.take outcome received]. by rewrite responses_of_cons, <- Hcon.
Qed.

Lemma receive_flow_response_ok dropping f arrivals :
  Forall frame_ok arrivals -> flow_ok f ->
  let r := receive_flow_response dropping f arrivals in
  received_ok f arrivals 0 r /\
  pending_responses f ++ responses_of (taken r) = delivered_by (outcome r) ++ pending_responses (flow r).
Proof.
  intros Ha Hf. unfold receive_flow_response. destruct (pending_responses f) as [|b pending] eqn:E.
  - destruct (response_loop_ok dropping f arrivals Ha Hf) as (Hr & Hp & Hd). split; [done|].
    by rewrite Hp, E, Hd, app_nil_r.
  - destruct Hf as (Hc & Hm & Hp). split; [|cbn; by rewrite app_nil_r]. unfold received_ok. cbn.
    split_and!; try done; try lia. unfold flow_ok. cbn. split_and!; try done.
    rewrite E, zlen_cons in Hp. lia.
Qed.

(** ** Runs of the transport *)

Definition heard (calls : list PlatformCall) : list (list Z) :=
  omap (fun c => match c with Heard bytes => Some bytes | _ => None end) calls.

Definition writes (calls : list PlatformCall) : list (list Z) :=
  omap (fun c => match c with Wrote bytes _ => Some bytes | _ => None end) calls.

Definition accepted (calls : list PlatformCall) : list (list Z) :=
  omap (fun c => match c with Wrote bytes (Some true) => Some bytes | _ => None end) calls.

(** What the client got: its responses and its confirmed writes. *)
Definition delivered (events : list Event) : list (list Z) :=
  flat_map (fun e => match e with WaitCall _ o => delivered_by o | _ => [] end) events.

Definition confirmed (events : list Event) : list (list Z) :=
  flat_map (fun e => match e with WriteCall bytes _ (Some (Ok _)) => [bytes] | _ => [] end) events.

Definition incoming_ok (i : Incoming) : Prop := match i with Notification _ value => bytes_ok value | Idle => True end.

Section Runs.
Context {Characteristic : Type}.
Variable uuid : Characteristic -> string.

#[local] Abbreviation Tr := (BtleplugTransport (Characteristic := Characteristic)).
#[local] Abbreviation St := (Tr * Platform)%type.

(** The states of a transport are consistent. *)
Record consistent (t : Tr) (p : Platform) : Prop := {
  limit_ok : 0 < declared_limit t <= usize_max;
  channel_ok : forall a, notifications t = Some a -> Forall frame_ok a;
  incoming_ok_all : Forall incoming_ok (incoming p);
  subscribed_channel : notification_state t = NotificationState.Subscribed -> is_Some (notifications t);
  available_characteristic : notification_state t = NotificationState.Available -> is_Some (notify t);
}.

(** Credits: every write so far and every credit left was granted. *)
Definition credit_safe (t : Tr) (p : Platform) : Prop :=
  match credit_flow t with
  | Some f => flow_ok f /\ credits f + zlen (writes (calls p)) <= granted (heard (calls p))
  | None => True
  end.

(** Responses: what was delivered and what waits is what was received, in
    order; at most one response is lost, and then the transport is closed. *)
Definition in_order (given : list (list Z)) (t : Tr) (p : Platform) : Prop :=
  match credit_flow t with
  | Some f => exists lost, responses_of (heard (calls p)) = given ++ pending_responses f ++ lost /\
                (lost <> [] -> notification_state t = NotificationState.Disconnected)
  | None => heard (calls p) = given
  end.

Definition run_inv (events : list Event) (s : St) : Prop :=
  consistent s.1 s.2 /\ credit_safe s.1 s.2 /\ in_order (delivered events) s.1 s.2 /\
  accepted (calls s.2) = confirmed events.

Lemma heard_app l k : heard (l ++ k) = heard l ++ heard k.
Proof. apply omap_app. Qed.

Lemma issued_app l k : writes (l ++ k) = writes l ++ writes k.
Proof. apply omap_app. Qed.

Lemma accepted_app l k : accepted (l ++ k) = accepted l ++ accepted k.
Proof. apply omap_app. Qed.

Lemma heard_map l : heard (map Heard l) = l.
Proof. induction l; cbn; [done|]. by f_equal. Qed.

Lemma writes_heard l : writes (map Heard l) = [].
Proof. by induction l. Qed.

Lemma accepted_heard l : accepted (map Heard l) = [].
Proof. by induction l. Qed.

Lemma delivered_snoc events e :
  delivered (events ++ [e]) = delivered events ++ match e with WaitCall _ o => delivered_by o | _ => [] end.
Proof. unfold delivered. rewrite flat_map_app. cbn. by rewrite app_nil_r. Qed.

Lemma confirmed_snoc events e :
  confirmed (events ++ [e]) =
  confirmed events ++ match e with WriteCall bytes _ (Some (Ok _)) => [bytes] | _ => [] end.
Proof. unfold confirmed. rewrite flat_map_app. cbn. by rewrite app_nil_r. Qed.

(** Platform calls that neither deliver nor write. *)
Definition idle_call (c : PlatformCall) : Prop := match c with Heard _ | Wrote _ _ => False | _ => True end.

(** A state whose flow is unchanged and whose platform made only idle calls. *)
Lemma run_inv_idle events e t p t' p' :
  run_inv events (t, p) -> consistent t' p' -> credit_flow t' = credit_flow t ->
  (notification_state t = NotificationState.Disconnected -> notification_state t' = NotificationState.Disconnected) ->
  (exists c, calls p' = calls p ++ c /\ Forall idle_call c) ->
  delivered (events ++ e) = delivered events -> confirmed (events ++ e) = confirmed events ->
  run_inv (events ++ e) (t', p').
Proof.
  intros (Hc & Hs & Ho & Ha) Hc' Hf Hd (c & Ec & Hi) Ed Ef. cbn [fst snd] in *.
  assert (heard c = [] /\ writes c = [] /\ accepted c = []) as (E1 & E2 & E3).
  { clear Ec. induction Hi as [|x c Hx Hi (IH1 & IH2 & IH3)]; [done|]. destruct x; done. }
  unfold run_inv, credit_safe, in_order in *. cbn [fst snd].
  rewrite Hf, Ec, Ed, Ef, heard_app, issued_app, accepted_app, E1, E2, E3, !app_nil_r.
  split_and!; try done. destruct (credit_flow t); [|done]. destruct Ho as (lost & Hl & Hd'). exists lost. naive_solver.
Qed.

Lemma forward_ok u l : Forall incoming_ok l -> Forall frame_ok (forward u l).
Proof.
  unfold forward. induction 1 as [|i l Hi Hl IH]; [constructor|]. cbn.
  destruct i as [from value|]; [destruct (String.eqb from u); [by constructor|done]|by constructor].
Qed.

Lemma ask_spec call p ok p' :
  ask call p = (ok, p') -> incoming p' = incoming p /\ calls p' = calls p ++ [call ok].
Proof.
  unfold ask, answer. destruct (answers p) as [|a rest]; cbn; by intros [= <- <-].
Qed.

Lemma subscribe_inv events s r s' :
  run_inv events s -> subscribe_inner uuid s = (r, s') -> run_inv (events ++ [SubscribeCall (Some r)]) s'.
Proof.
  destruct s as [t p]. intros Hi E.
  assert (run_inv (events ++ [SubscribeCall (Some r)]) (t, p)) as Hsame.
  { apply (run_inv_idle events _ t p); try done; [by destruct Hi|by exists []; rewrite app_nil_r
      |by rewrite delivered_snoc, app_nil_r|by rewrite confirmed_snoc, app_nil_r]. }
  unfold subscribe_inner in E. destruct (notification_state t) eqn:En; try by injection E as _ <-.
  destruct (notify t) as [c|] eqn:Ec; [|by injection E as _ <-].
  destruct (ask OpenStream p) as [ok p1] eqn:E1. apply ask_spec in E1 as [I1 C1].
  destruct Hi as (Hc & Hi'). pose proof Hc as [H1 H2 H3 H4 H5]. cbn [fst snd] in *.
  destruct ok; cbn [negb] in E.
  2: { injection E as <- <-. apply (run_inv_idle events _ t p); try done.
       - split; try done. by rewrite I1.
       - eexists. split; [exact C1|by repeat constructor].
       - by rewrite delivered_snoc, app_nil_r.
       - by rewrite confirmed_snoc, app_nil_r. }
  destruct (ask Subscribe p1) as [ok p2] eqn:E2. apply ask_spec in E2 as [I2 C2].
  assert (exists c, calls p2 = calls p ++ c /\ Forall idle_call c) as Hcalls.
  { eexists. split; [by rewrite C2, C1, <- app_assoc|by repeat constructor]. }
  destruct ok; cbn [negb] in E; injection E as <- <-.
  - apply (run_inv_idle events _ t p); try done.
    + split; cbn; try done.
      * intros a [= <-]. apply forward_ok. by rewrite I2, I1.
      * by rewrite I2, I1.
    + by rewrite En.
    + by rewrite delivered_snoc, app_nil_r.
    + by rewrite confirmed_snoc, app_nil_r.
  - apply (run_inv_idle events _ t p); try done.
    + split; try done. by rewrite I2, I1.
    + by rewrite delivered_snoc, app_nil_r.
    + by rewrite confirmed_snoc, app_nil_r.
Qed.

(** The platform write, with a credit to spend. *)
Definition may_write (t : Tr) (p : Platform) : Prop :=
  match credit_flow t with
  | Some f => flow_ok f /\ credits f + 1 + zlen (writes (calls p)) <= granted (heard (calls p))
  | None => True
  end.

Lemma platform_write_inv events dropping bytes kind t p o s' :
  consistent t p -> may_write t p -> in_order (delivered events) t p -> accepted (calls p) = confirmed events ->
  platform_write dropping bytes (t, p) = (o, s') -> run_inv (events ++ [WriteCall bytes kind o]) s'.
Proof.
  intros Hc Hm Ho Ha E.
  assert (exists p' answer, s' = (t, p') /\ incoming p' = incoming p /\
    calls p' = calls p ++ [Wrote bytes answer] /\
    match o with Some (Ok _) => [bytes] | _ => [] end = match answer with Some true => [bytes] | _ => [] end)
    as (p' & a & -> & Hi & Hcalls & Hoa).
  { unfold platform_write in E. destruct dropping.
    - injection E as <- <-. by eexists _, None.
    - destruct (ask _ p) as [ok p1] eqn:E1. apply ask_spec in E1 as [I1 C1]. injection E as <- <-.
      exists p1, (Some ok). by destruct ok. }
  unfold run_inv, credit_safe, in_order, may_write in *. cbn [fst snd].
  rewrite Hcalls, heard_app, issued_app, accepted_app, delivered_snoc, confirmed_snoc, !app_nil_r, Ha, Hoa.
  split_and!; [|destruct (credit_flow t) as [f|]; [split; [apply Hm|]|done]|done|by destruct a as [[]|]].
  - destruct Hc as [H1 H2 H3 H4 H5]. split; try done. by rewrite Hi.
  - change (writes [Wrote bytes a]) with [bytes]. rewrite zlen_app. change (zlen [bytes]) with 1. lia.
Qed.

(** What a receive leaves: its transport, and its platform with what it took. *)
Definition after {A} (r : Received A) (t : Tr) : Tr := with_flow (flow r) (left r) t.
Definition heard_by {A} (r : Received A) (p : Platform) : Platform := record (map Heard (taken r)) p.

Lemma record_heard l p :
  heard (calls (record (map Heard l) p)) = heard (calls p) ++ l /\
  writes (calls (record (map Heard l) p)) = writes (calls p) /\
  accepted (calls (record (map Heard l) p)) = accepted (calls p).
Proof.
  cbn. by rewrite heard_app, issued_app, accepted_app, heard_map, writes_heard, accepted_heard, !app_nil_r.
Qed.

Lemma after_consistent {A} f a spent (r : Received A) t p :
  consistent t p -> received_ok f a spent r -> consistent (after r t) (heard_by r p).
Proof.
  intros [H1 H2 H3 H4 H5] (Hf & Hl & _ & _). split; cbn; try done. by intros ? [= <-].
Qed.

(** Closing a transport keeps the invariants. *)
Lemma close_consistent t p : consistent t p -> consistent (with_state NotificationState.Disconnected t) p.
Proof. intros [H1 H2 H3 H4 H5]. by split. Qed.

Lemma with_state_self (t : Tr) : with_state (notification_state t) t = t.
Proof. by destruct t. Qed.

(** After a receive that wrote nothing. *)
Lemma after_receive_inv {A} events e state f a spent (r : Received A) t p :
  consistent t p -> credit_flow t = Some f -> credit_safe t p -> accepted (calls p) = confirmed events ->
  received_ok f a spent r -> 0 <= spent -> state = notification_state t \/ state = NotificationState.Disconnected ->
  in_order (delivered (events ++ [e])) (with_state state (after r t)) (heard_by r p) ->
  confirmed (events ++ [e]) = confirmed events ->
  run_inv (events ++ [e]) (with_state state (after r t), heard_by r p).
Proof.
  intros Hc Ef Hs Ha Hr Hspent Hst Ho He. unfold credit_safe in Hs. rewrite Ef in Hs. destruct Hs as [_ Hg].
  pose proof (after_consistent _ _ _ _ _ _ Hc Hr) as Hc1. destruct Hr as (Hf1 & _ & _ & Hg1).
  destruct (record_heard (taken r) p) as (Eh & Ew & Eacc). fold (heard_by r p) in Eh, Ew, Eacc.
  unfold run_inv, credit_safe. cbn [fst snd]. split_and!; [| |done|by rewrite Eacc, Ha].
  - destruct Hst as [-> | ->]; [|by apply close_consistent].
    change (notification_state t) with (notification_state (after r t)). by rewrite with_state_self.
  - cbn [credit_flow after with_flow with_state]. split; [done|]. rewrite Eh, Ew, granted_app. lia.
Qed.

(** Receiving for a credit keeps the responses in order. *)
Lemma after_credit_in_order given state f r (t : Tr) p :
  credit_flow t = Some f -> notification_state t = NotificationState.Subscribed -> in_order given t p -> queued f r ->
  (forall e, outcome (A := unit) r = Some (Err e) -> state = NotificationState.Disconnected) ->
  in_order given (with_state state (after r t)) (heard_by r p).
Proof.
  intros Ef En Ho (lost' & Hl' & He) Hstate. unfold in_order in *. rewrite Ef in Ho.
  cbn [credit_flow with_state after with_flow notification_state].
  destruct (record_heard (taken r) p) as (Eh & _). fold (heard_by r p) in Eh.
  destruct Ho as (lost & Hl & Hd). destruct (decide (lost = [])) as [->|Hne]; [|by rewrite Hd in En].
  exists lost'. rewrite Eh, responses_of_app, Hl, app_nil_r, <- app_assoc, Hl'.
  split; [done|]. intros Hne. destruct (He Hne) as [e He']. by eapply Hstate.
Qed.

(** A call that returns at once changes nothing. *)
Lemma run_inv_refused events e s :
  run_inv events s -> delivered (events ++ [e]) = delivered events -> confirmed (events ++ [e]) = confirmed events ->
  run_inv (events ++ [e]) s.
Proof.
  destruct s as [t p]. intros Hi Hd Hf.
  apply (run_inv_idle events _ t p); try done; [by destruct Hi|by exists []; rewrite app_nil_r].
Qed.

Lemma write_inv events dropping bytes kind s o s' :
  run_inv events s -> write_inner dropping bytes s = (o, s') -> run_inv (events ++ [WriteCall bytes kind o]) s'.
Proof.
  destruct s as [t p]. intros Hi E.
  assert (forall e, run_inv (events ++ [WriteCall bytes kind (Some (Err e))]) (t, p)) as Hsame.
  { intros e. apply run_inv_refused; [done|by rewrite delivered_snoc, app_nil_r|by rewrite confirmed_snoc, app_nil_r]. }
  destruct Hi as (Hc & Hs & Ho & Ha). cbn [fst snd] in *.
  unfold write_inner in E. destruct (validate_write_state _ _ _); [|by injection E as <- <-].
  destruct (credit_flow t) as [f|] eqn:Ef.
  2: { eapply platform_write_inv; [exact Hc|unfold may_write; by rewrite Ef|exact Ho|exact Ha|exact E]. }
  case_bool_decide as En; cbn [negb] in E; [|by injection E as <- <-].
  destruct (notifications t) as [arr|] eqn:Ech; [|by injection E as <- <-].
  pose proof Hs as Hs'. unfold credit_safe in Hs'. rewrite Ef in Hs'. destruct Hs' as [Hf Hg].
  destruct (receive_for_credit_ok dropping f arr (channel_ok _ _ Hc arr Ech) Hf) as [Hr Hq].
  set (r := receive_for_credit dropping f arr) in *. fold (after r t) (heard_by r p) in E.
  assert (0 <= ok_outcome (outcome r)) as Hspent by by destruct (outcome r) as [[]|].
  assert (forall state, (forall e, outcome r = Some (Err e) -> state = NotificationState.Disconnected) ->
    in_order (delivered events) (with_state state (after r t)) (heard_by r p)) as Ho1.
  { intros state Hstate. by apply (after_credit_in_order _ _ f). }
  assert (forall e state, state = notification_state t \/ state = NotificationState.Disconnected ->
    (forall err, outcome r = Some (Err err) -> state = NotificationState.Disconnected) ->
    delivered (events ++ [e]) = delivered events -> confirmed (events ++ [e]) = confirmed events ->
    run_inv (events ++ [e]) (with_state state (after r t), heard_by r p)) as Hafter.
  { intros e state Hst Herr Hd Hcf. eapply after_receive_inv; try done. rewrite Hd. by apply Ho1. }
  pose proof (with_state_self (after r t)) as Eself. cbn [notification_state after with_flow] in Eself. fold (after r t) in Eself.
  destruct (outcome r) as [[[]|e]|] eqn:Eo.
  - destruct (match maximum_payload (flow r) with Some m => m <? zlen bytes | None => false end).
    + injection E as <- <-. rewrite <- Eself. apply Hafter; rewrite ?delivered_snoc, ?confirmed_snoc, ?app_nil_r; auto; done.
    + eapply platform_write_inv; [by eapply after_consistent| |rewrite <- Eself; by apply Ho1| |exact E].
      * unfold may_write. cbn [credit_flow after with_flow]. destruct Hr as (Hf1 & _ & _ & Hg1). split; [done|].
        destruct (record_heard (taken r) p) as (Eh & Ew & _). fold (heard_by r p) in Eh, Ew.
        rewrite Eh, Ew, granted_app. cbn [ok_outcome] in Hg1. lia.
      * destruct (record_heard (taken r) p) as (_ & _ & Eacc). fold (heard_by r p) in Eacc. by rewrite Eacc.
  - injection E as <- <-. apply Hafter; rewrite ?delivered_snoc, ?confirmed_snoc, ?app_nil_r; auto.
  - injection E as <- <-. rewrite <- Eself. apply Hafter; rewrite ?delivered_snoc, ?confirmed_snoc, ?app_nil_r; auto; done.
Qed.

Lemma wait_flow_inv events dropping timeout f arr t p :
  run_inv events (t, p) -> credit_flow t = Some f -> notification_state t = NotificationState.Subscribed ->
  notifications t = Some arr -> forall state,
  state = notification_state t \/ state = NotificationState.Disconnected ->
  let r := receive_flow_response dropping f arr in
  run_inv (events ++ [WaitCall timeout (outcome r)]) (with_state state (after r t), heard_by r p).
Proof.
  intros (Hc & Hs & Ho & Ha) Ef En Ech state Hst. cbn [fst snd] in *.
  pose proof Hs as Hs'. unfold credit_safe in Hs'. rewrite Ef in Hs'. destruct Hs' as [Hf Hg].
  destruct (receive_flow_response_ok dropping f arr (channel_ok _ _ Hc arr Ech) Hf) as [Hr Hq].
  set (r := receive_flow_response dropping f arr) in *.
  eapply after_receive_inv; try done; [|by rewrite confirmed_snoc, app_nil_r].
  unfold in_order in *. rewrite Ef in Ho. cbn [credit_flow with_state after with_flow notification_state].
  destruct (record_heard (taken r) p) as (Eh & _). fold (heard_by r p) in Eh.
  destruct Ho as (lost & Hl & Hd). destruct (decide (lost = [])) as [->|Hne]; [|by rewrite Hd in En].
  exists []. rewrite Eh, responses_of_app, Hl, delivered_snoc, !app_nil_r, <- !app_assoc, Hq. done.
Qed.

Lemma wait_inv events dropping timeout s o s' :
  run_inv events s -> wait_inner dropping s = (o, s') -> run_inv (events ++ [WaitCall timeout o]) s'.
Proof.
  destruct s as [t p]. intros Hi E. unfold wait_inner in E. destruct (credit_flow t) as [f|] eqn:Ef.
  - case_bool_decide as En; cbn [negb] in E.
    2: { injection E as <- <-. apply run_inv_refused; [done|by rewrite delivered_snoc, app_nil_r|by rewrite confirmed_snoc, app_nil_r]. }
    destruct (notifications t) as [arr|] eqn:Ech.
    2: { injection E as <- <-. apply run_inv_refused; [done|by rewrite delivered_snoc, app_nil_r|by rewrite confirmed_snoc, app_nil_r]. }
    pose proof (wait_flow_inv events dropping timeout f arr t p Hi Ef En Ech) as Hw. cbn zeta in Hw.
    set (r := receive_flow_response dropping f arr) in *. fold (after r t) (heard_by r p) in E.
    pose proof (with_state_self (after r t)) as Eself. cbn [notification_state after with_flow] in Eself. fold (after r t) in Eself.
    destruct (outcome r) as [[w|e]|]; try (injection E as <- <-; rewrite <- Eself; by apply Hw; left).
    injection E as <- <-. case_bool_decide; [by apply Hw; right|rewrite <- Eself; by apply Hw; left].
  - destruct Hi as (Hc & Hs & Ho & Ha). cbn [fst snd] in *. unfold in_order in Ho. rewrite Ef in Ho.
    destruct (wait_notification_state _ _ _) as [[[o' state] channel] tk] eqn:Ew. injection E as <- <-.
    destruct (record_heard tk p) as (Eh & Ewr & Eacc).
    unfold run_inv, credit_safe, in_order. cbn [fst snd credit_flow with_state with_channel].
    rewrite Ef, Eh, Eacc, delivered_snoc, confirmed_snoc, app_nil_r, Ho. split_and!; try done.
    + pose proof Hc as [H1 H2 H3 H4 H5]. unfold wait_notification_state in Ew.
      destruct (notification_state t) eqn:En; [..|by injection Ew as <- <- <- <-; split; try done; rewrite En in *];
        try (injection Ew as <- <- <- <-; split; try done; cbn; by rewrite ?En in *).
      destruct (notifications t) as [[|[b|] arr]|] eqn:Ech; injection Ew as <- <- <- <-;
        (split; try done; cbn; try (intros a' [= <-]; specialize (H2 _ eq_refl); by inversion H2); by rewrite ?En, ?Ech in *).
    + unfold wait_notification_state in Ew.
      destruct (notification_state t); try by injection Ew as <- <- <- <-.
      destruct (notifications t) as [[|[b|] arr]|]; injection Ew as <- <- <- <-; try done. by destruct dropping.
Qed.

Lemma subscribe_dropped_inv events s :
  run_inv events s -> run_inv (events ++ [SubscribeCall None]) (subscribe_dropped s).
Proof.
  destruct s as [t p]. intros Hi.
  assert (run_inv (events ++ [SubscribeCall None]) (t, p)) as Hsame.
  { apply run_inv_refused; [done|by rewrite delivered_snoc, app_nil_r|by rewrite confirmed_snoc, app_nil_r]. }
  unfold subscribe_dropped. destruct (notification_state t) eqn:En; try exact Hsame.
  destruct (notify t) as [c|] eqn:Ec; [|exact Hsame].
  destruct (ask OpenStream p) as [ok p1] eqn:E1. apply ask_spec in E1 as [I1 C1].
  destruct Hi as (Hc & Hi'). pose proof Hc as [H1 H2 H3 H4 H5]. cbn [fst snd] in *.
  apply (run_inv_idle events _ t p); try done.
  - split; try done. by rewrite I1.
  - eexists. split; [exact C1|by repeat constructor].
  - by rewrite delivered_snoc, app_nil_r.
  - by rewrite confirmed_snoc, app_nil_r.
Qed.

Lemma disconnect_inv events s : run_inv events s -> run_inv events (disconnect_inner s).2.
Proof.
  destruct s as [t p]. intros Hi. unfold disconnect_inner. case_bool_decide as En; [exact Hi|].
  destruct (ask Disconnect p) as [ok p1] eqn:E1. apply ask_spec in E1 as [I1 C1]. cbn [snd].
  rewrite <- (app_nil_r events). pose proof Hi as (Hc & _). pose proof Hc as [H1 H2 H3 H4 H5]. cbn [fst snd] in *.
  apply (run_inv_idle events [] t p); rewrite ?app_nil_r; try done.
  - split; try done. by rewrite I1.
  - eexists. split; [exact C1|by repeat constructor].
Qed.

Lemma tick_inv events s : run_inv events s -> run_inv events (s.1, (tick s.2).2).
Proof.
  destruct s as [t p]. intros Hi. unfold tick. cbn [fst snd]. destruct (instants p) as [|now rest]; [exact Hi|]. cbn [snd].
  destruct Hi as ([H1 H2 H3 H4 H5] & Hi). split; [by split|exact Hi].
Qed.

Lemma step_inv events s e s' : run_inv events s -> ble_step uuid s e s' -> run_inv (events ++ [e]) s'.
Proof.
  intros Hi Hs. destruct Hs as [s r s' E|s|s dropping bytes kind o s' E|s dropping timeout o s' E|s duration].
  - by eapply subscribe_inv.
  - by apply subscribe_dropped_inv.
  - by eapply write_inv.
  - by eapply wait_inv.
  - apply run_inv_refused; [done|by rewrite delivered_snoc, app_nil_r|by rewrite confirmed_snoc, app_nil_r].
Qed.

Lemma run_invariant start events s : run_inv [] start -> ble_run uuid start events s -> run_inv events s.
Proof.
  intros H0. induction 1 as [|events s e s' Hr IH Hs|events s Hr IH|events s Hr IH].
  - done.
  - by eapply step_inv.
  - by apply disconnect_inv.
  - by apply tick_inv.
Qed.

(** ** From connecting on *)

Variables can_write can_notify : Characteristic -> bool.

(** A fresh platform, and a transport connected to it with a [NonZeroUsize]
    payload limit. *)
Definition connected (characteristics : list Characteristic) (capabilities : BleGattCapabilities) (limit : Z) (s : St) : Prop :=
  0 < limit <= usize_max /\
  exists p, calls p = [] /\ Forall incoming_ok (incoming p) /\
    connect uuid can_write can_notify characteristics capabilities limit p = (Ok s.1, s.2).

Lemma connected_inv characteristics capabilities limit s :
  connected characteristics capabilities limit s -> run_inv [] s.
Proof.
  destruct s as [t p']. intros (Hl & p & Hcalls & Hin & E). cbn [fst snd] in E. unfold connect in E.
  destruct (select_characteristics _ _ _ _ _) as [[write notify]|e]; [|by destruct (ask Disconnect p)].
  injection E as <- <-. unfold run_inv, credit_safe, in_order. cbn [fst snd credit_flow]. rewrite Hcalls.
  split_and!; [| | |done].
  - split; cbn; try done; by destruct notify.
  - destruct (flow_control capabilities) as [[]|]; [|done]. split; [|done]. unfold flow_ok, in_u, usize_max, u64_max. cbn. done.
  - destruct (flow_control capabilities) as [[]|]; [|done]. by exists [].
Qed.

(** With credit flow, the transport never writes to the printer without a
    credit: in every run, whatever calls are made, completed or dropped, and
    whatever the platform answers, the writes so far are at most the credits
    granted by the notifications received so far. The writes confirmed to the
    client are exactly those the platform accepted, in order, each once. *)
Theorem ble_writes_within_credit characteristics capabilities limit start events t p :
  connected characteristics capabilities limit start -> ble_run uuid start events (t, p) ->
  (credit_flow t <> None -> zlen (writes (calls p)) <= granted (heard (calls p))) /\
  confirmed events = accepted (calls p).
Proof.
  intros Hc Hr. apply connected_inv in Hc. destruct (run_invariant _ _ _ Hc Hr) as (_ & Hs & _ & Ha).
  cbn [fst snd] in *. split; [|done]. unfold credit_safe in Hs. destruct (credit_flow t) as [f|]; [|done].
  intros _. destruct Hs as [[Hf _] Hg]. unfold in_u in Hf. lia.
Qed.

(** Responses reach the client in the order received, and control frames
    never do: with credit flow, what was delivered followed by what waits in
    the queue is exactly the responses received, unless the transport was
    closed because the queue overflowed; without, it is what was received. The
    queue never holds more than its capacity. *)
Theorem ble_responses_in_order characteristics capabilities limit start events t p :
  connected characteristics capabilities limit start -> ble_run uuid start events (t, p) ->
  match credit_flow t with
  | Some flow =>
      (exists lost, responses_of (heard (calls p)) = delivered events ++ pending_responses flow ++ lost /\
         (lost <> [] -> notification_state t = NotificationState.Disconnected)) /\
      zlen (pending_responses flow) <= NOTIFICATION_QUEUE_CAPACITY
  | None => heard (calls p) = delivered events
  end.
Proof.
  intros Hc Hr. apply connected_inv in Hc. destruct (run_invariant _ _ _ Hc Hr) as (_ & Hs & Ho & _).
  cbn [fst snd] in *. unfold in_order, credit_safe in *. destruct (credit_flow t) as [f|]; [|done].
  split; [exact Ho|]. by destruct Hs as [(_ & _ & Hp) _].
Qed.
End Runs.

(** ** Executions on the transport *)

Section Execution.
Context {Characteristic : Type}.
Variable uuid : Characteristic -> string.
Variables can_write can_notify : Characteristic -> bool.

#[local] Abbreviation St := (BtleplugTransport (Characteristic := Characteristic) * Platform)%type.

(** A future that is not dropped ends with a result. *)
Lemma receive_for_credit_ends f arrivals : is_Some (outcome (receive_for_credit false f arrivals)).
Proof.
  revert f. induction arrivals as [|a arrivals IH]; intros f; cbn [receive_for_credit];
    destruct (negb (credits f =? 0)); try by eexists.
  destruct a as [bytes|]; [|apply IH]. destruct (observe f bytes) as [[] f']; [apply IH|].
  cbn [outcome BleTransport.take]. destruct (_ =? _); [by eexists|apply IH].
Qed.

Lemma response_loop_ends f arrivals : is_Some (outcome (response_loop false f arrivals)).
Proof.
  revert f. induction arrivals as [|[bytes|] arrivals IH]; intros f; cbn [response_loop]; try by eexists.
  destruct (observe f bytes) as [[] f']; [apply IH|by eexists].
Qed.

Lemma write_ends bytes (s : St) : is_Some (write_inner false bytes s).1.
Proof.
  destruct s as [t p]. unfold write_inner. destruct (validate_write_state _ _ _); [|by eexists].
  assert (forall s : St, is_Some (platform_write false bytes s).1) as Hp.
  { intros [t' p']. unfold platform_write. destruct (ask _ p'). by eexists. }
  destruct (credit_flow t); [|apply Hp]. destruct (negb _); [by eexists|]. destruct (notifications t); [|by eexists].
  destruct (receive_for_credit_ends c l) as [o Ho]. cbv zeta. rewrite Ho. destruct o as [[]|]; [|by eexists].
  destruct (match maximum_payload _ with Some m => _ | None => _ end); [by eexists|apply Hp].
Qed.

Lemma wait_ends (s : St) : is_Some (wait_inner false s).1.
Proof.
  destruct s as [t p]. unfold wait_inner. destruct (credit_flow t) as [f|].
  - destruct (negb _); [by eexists|]. destruct (notifications t) as [l|]; [|by eexists]. cbv zeta.
    assert (is_Some (outcome (receive_flow_response false f l))) as [o ->].
    { unfold receive_flow_response. destruct (pending_responses f); [apply response_loop_ends|by eexists]. }
    destruct o; by eexists.
  - unfold wait_notification_state.
    destruct (notification_state t); try (by eexists). destruct (notifications t) as [[|[] l]|]; by eexists.
Qed.

Variable start : St.
Variables (characteristics : list Characteristic) (capabilities : BleGattCapabilities) (limit : Z).
Hypothesis is_connected : connected uuid can_write can_notify characteristics capabilities limit start.

(** The transport with the calls made on it since it was connected. *)
Record BleRun := { state : St; events : list Event; is_run : ble_run uuid start events state }.

Definition advance (x : BleRun) (e : Event) (s : St) (H : ble_step uuid (state x) e s) : BleRun :=
  {| state := s; events := events x ++ [e]; is_run := run_call uuid start _ _ _ _ (is_run x) H |}.

Definition or_ended {A} (o : option (Result TransportError A)) : Result TransportError A := default (Err stream_ended) o.

Definition push_write (x : BleRun) (dropping : bool) (bytes : list Z) (kind : WriteKind) : BleRun :=
  advance x _ _ (step_write uuid (state x) dropping bytes kind _ _ (surjective_pairing (write_inner dropping bytes (state x)))).

Definition push_wait (x : BleRun) (dropping : bool) (timeout : Z) : BleRun :=
  advance x _ _ (step_wait uuid (state x) dropping timeout _ _ (surjective_pairing (wait_inner dropping (state x)))).

Lemma effective_limit_ok x : in_u usize_max (effective_limit (state x).1).
Proof.
  pose proof (run_invariant uuid _ _ _ (connected_inv _ _ _ _ _ _ _ is_connected) (is_run x)) as (Hc & Hs & _).
  destruct (state x) as [t p]. cbn [fst snd] in *. pose proof (limit_ok _ _ Hc) as Hl.
  unfold effective_limit, credit_safe in *. destruct (credit_flow t) as [f|]; cbn [mbind option_bind]; [|unfold in_u; lia].
  destruct (maximum_payload f) as [m|] eqn:Em; [|unfold in_u; lia].
  destruct Hs as [(_ & Hm & _) _]. specialize (Hm m Em). unfold in_u, u16_max in *. lia.
Qed.

#[export] Program Instance BleRun_Transport : Transport BleRun := {
  payload_limit x := (effective_limit (state x).1, x);
  command_limit x := (effective_limit (state x).1, x);
  subscribe_notifications := {|
    complete x :=
      let r := subscribe_inner uuid (state x) in
      (r.1, advance x _ _ (step_subscribe uuid (state x) r.1 r.2 (surjective_pairing r)));
    dropped x := advance x _ _ (step_subscribe_dropped uuid (state x)) |};
  write bytes kind := {|
    complete x := (or_ended (write_inner false bytes (state x)).1, push_write x false bytes kind);
    dropped x := push_write x true bytes kind |};
  wait_response timeout := {|
    complete x := (or_ended (wait_inner false (state x)).1, push_wait x false timeout);
    dropped x := push_wait x true timeout |};
  delay_for duration := {|
    complete x := (tt, advance x _ _ (step_delay uuid (state x) duration));
    dropped x := advance x _ _ (step_delay uuid (state x) duration) |};
}.
Next Obligation. intros x. apply effective_limit_ok. Qed.

#[export] Instance BleRun_Clock : Clock BleRun := {
  now x := ((tick (state x).2).1,
            {| state := ((state x).1, (tick (state x).2).2); events := events x;
               is_run := run_tick uuid start _ _ (is_run x) |});
}.

(** C13: Whatever plan is executed on the transport, with whatever timing,
    cancellation and platform behaviour, and however the execution ends: the
    writes that reached the platform never exceed the credits the printer
    granted, the payload of every confirmed write was accepted by the platform,
    and no response is lost or delivered out of order while the transport is
    open. *)
Theorem ble_execution_safe {C SE} `{Cancellation C} timing plan (cancellation : C) :
  let fresh := {| state := start; events := []; is_run := run_start uuid start |} in
  let final := transport (execute_with_options (SE := SE) timing plan cancellation fresh).2 in
  let '(t, p) := state final in
  (credit_flow t <> None -> zlen (writes (calls p)) <= granted (heard (calls p))) /\
  confirmed (events final) = accepted (calls p) /\
  (notification_state t <> NotificationState.Disconnected ->
   match credit_flow t with
   | Some flow => responses_of (heard (calls p)) = delivered (events final) ++ pending_responses flow
   | None => heard (calls p) = delivered (events final)
   end).
Proof.
  intros fresh final. pose proof (run_invariant uuid _ _ _ (connected_inv _ _ _ _ _ _ _ is_connected) (is_run final)) as Hi.
  destruct (state final) as [t p]. destruct Hi as (_ & Hs & Ho & Ha). cbn [fst snd] in *.
  unfold credit_safe, in_order in *. split_and!; [|done|].
  - destruct (credit_flow t) as [f|]; [|done]. intros _. destruct Hs as [[Hf _] Hg]. unfold in_u in Hf. lia.
  - intros Hn. destruct (credit_flow t) as [f|]; [|done]. destruct Ho as (lost & -> & Hd).
    destruct (decide (lost = [])) as [->|Hne]; [by rewrite app_nil_r|]. by destruct Hn, Hd.
Qed.
End Execution.

(** ** Witnesses *)

Definition Gatt_characteristic : Type := string * (bool * bool).
Definition gatt_uuid (c : Gatt_characteristic) : string := c.1.
Definition gatt_write (c : Gatt_characteristic) : bool := c.2.1.
Definition gatt_notify (c : Gatt_characteristic) : bool := c.2.2.

Definition example_characteristics : list Gatt_characteristic :=
  [("ff02"%string, (true, false)); ("ff03"%string, (false, true))].

Definition example_capabilities : BleGattCapabilities := {|
  write_characteristic := "ff02";
  write_type := WithoutResponse;
  notification := Some {| characteristic := "ff03"; requirement := Optional |};
  flow_control := Some PhomemoCredit |}.

(** A printer that sets a limit of 20 bytes, reports its serial number, and
    grants one credit. *)
Definition example_platform : Platform := {|
  answers := []; instants := []; calls := [];
  incoming := [Notification "ff03" [0x02; 20; 0]; Notification "other" [9]; Notification "ff03" [0x1a; 8; 0xa2];
               Notification "ff03" [0x01; 1]; Idle] |}.

Definition example_transport : BtleplugTransport (Characteristic := Gatt_characteristic) := {|
  write_to := ("ff02"%string, (true, false)); notify := Some ("ff03"%string, (false, true));
  notification_state := NotificationState.Available; notifications := None; forwarding_task := false;
  declared_limit := 180; credit_flow := Some CreditFlowState_default |}.

Lemma example_connected :
  connected gatt_uuid gatt_write gatt_notify example_characteristics example_capabilities 180
    (example_transport, example_platform).
Proof.
  split; [unfold usize_max, u64_max; lia|]. exists example_platform. split_and!; [done| |reflexivity].
  repeat (constructor; [cbn; unfold bytes_ok, byte_ok; repeat (constructor; [lia|]); constructor|]).
  constructor.
Qed.

(** Subscribing, then writing three bytes, then waiting. *)
Definition example_steps : BtleplugTransport (Characteristic := Gatt_characteristic) * Platform :=
  (wait_inner false (write_inner false [1; 2; 3]
     (subscribe_inner gatt_uuid (example_transport, example_platform)).2).2).2.

Definition example_events : list Event :=
  [SubscribeCall (Some (Ok Subscribed)); WriteCall [1; 2; 3] Command (Some (Ok tt));
   WaitCall 0 (Some (Ok (Response [0x1a; 8; 0xa2])))].

Lemma example_run : ble_run gatt_uuid (example_transport, example_platform) example_events example_steps.
Proof.
  change example_events with ((([] ++ [SubscribeCall (Some (Ok Subscribed))]) ++ [WriteCall [1; 2; 3] Command (Some (Ok tt))])
    ++ [WaitCall 0 (Some (Ok (Response [0x1a; 8; 0xa2])))]).
  eapply run_call; [eapply run_call; [eapply run_call; [apply run_start|]|]|].
  - by apply step_subscribe.
  - by apply (step_write _ _ false).
  - by apply (step_wait _ _ false).
Qed.

Lemma ble_writes_within_credit_witness :
  zlen (writes (calls example_steps.2)) <= granted (heard (calls example_steps.2)) /\
  confirmed example_events = [[1; 2; 3]] /\ accepted (calls example_steps.2) = [[1; 2; 3]].
Proof.
  destruct (ble_writes_within_credit gatt_uuid gatt_write gatt_notify _ _ _ _ example_events example_steps.1 example_steps.2
    example_connected) as [Hw Hc].
  - exact example_run.
  - split; [apply Hw; vm_compute; discriminate|]. split; [reflexivity|]. rewrite <- Hc. reflexivity.
Defined.

Lemma ble_responses_in_order_witness :
  exists lost, responses_of (heard (calls example_steps.2)) = delivered example_events ++ lost /\
    delivered example_events = [[0x1a; 8; 0xa2]] /\ lost = [].
Proof.
  pose proof (ble_responses_in_order gatt_uuid gatt_write gatt_notify _ _ _ _ example_events example_steps.1 example_steps.2
    example_connected example_run) as H.
  destruct H as [(lost & Hl & Hd) _]. exists lost. split; [exact Hl|]. split; [reflexivity|].
  destruct lost as [|b lost]; [reflexivity|]. assert (b :: lost <> []) as Hne by discriminate.
  specialize (Hd Hne). vm_compute in Hd. discriminate Hd.
Defined.

Definition example_plan : Plan := {|
  plan_protocol := M110; source_commit := SOURCE_COMMIT;
  actions := [JobBoundary Start; SubscribeNotifications; CommandWrite "query" [0x1f; 0x11; 8] true; JobBoundary End_] |}.

Definition example_final :=
  transport (execute_with_options (SE := unit) Preserve example_plan never_cancelled
    {| state := (example_transport, example_platform); events := [];
       is_run := run_start gatt_uuid (example_transport, example_platform) |}
    (H := BleRun_Transport gatt_uuid gatt_write gatt_notify _ _ _ _ example_connected)).2.

Lemma ble_execution_safe_witness :
  let p := (state gatt_uuid _ example_final).2 in
  confirmed (events gatt_uuid _ example_final) = accepted (calls p).
Proof.
  pose proof (ble_execution_safe gatt_uuid gatt_write gatt_notify (example_transport, example_platform)
    example_characteristics example_capabilities 180 example_connected (SE := unit) Preserve example_plan never_cancelled) as H.
  cbn zeta in H. fold example_final in H. destruct (state gatt_uuid _ example_final) as [t p]. exact (proj1 (proj2 H)).
Defined.

(** The execution succeeds: its command is written with the credit. *)
Example example_execution :
  confirmed (events gatt_uuid _ example_final) = [[0x1f; 0x11; 8]].
Proof. vm_compute. reflexivity. Qed.

(** A write above the limit the printer sets while it waits for its credit is
    refused, but its credit is spent. *)
Example refused_write_spends_credit :
  let s := (subscribe_inner gatt_uuid (example_transport, example_platform)).2 in
  let '(o, (t, p)) := write_inner false (replicate 21 0) s in
  o = Some (Err (ble_error InvalidConfiguration "BLE write exceeds the printer-advertised flow limit")) /\
  credits <$> credit_flow t = Some 0 /\ granted (heard (calls p)) = 1 /\ writes (calls p) = [].
Proof. vm_compute. by split_and!. Qed.

(** After the response queue overflowed, disconnecting succeeds without
    telling the platform. *)
Example overflow_keeps_link :
  let platform := {| answers := []; instants := []; calls := [];
    incoming := replicate 33 (Notification "ff03" [0x1a; 8; 0xa2]) |} in
  let s := (write_inner false [0] (subscribe_inner gatt_uuid (example_transport, platform)).2).2 in
  let '(r, (t, p)) := disconnect_inner s in
  r = Ok tt /\ notification_state t = NotificationState.Disconnected /\ forwarding_task t = true /\
  List.filter (fun c => match c with Disconnect _ => true | _ => false end) (calls p) = [].
Proof. vm_compute. by split_and!. Qed.
