(* ===== verification/Barcode.v ===== *)
(** Linear barcodes (crates/mb-printer-core/src/render.rs): the modules of
    Code 39, EAN-13 and UPC-A symbols, a bar for [true] and a space for
    [false].

    Symbols are read back: a reader of EAN-13 and UPC-A symbols, and what the
    Code 39 encoder writes against the tables of the symbology. *)

From stdpp Require Import base list strings numbers option.
From S2P Require Import Prelude Text RenderTypes.

#[local] Open Scope Z_scope.

(** ** Code 39 *)

Definition CHARS : list Z := str "0123456789ABCDEFGHIJKLMNOPQRSTUVWXYZ-. $/+%*".

Definition PAT : list Z := [
  0x034; 0x121; 0x061; 0x160; 0x031; 0x130; 0x070; 0x025; 0x124; 0x064; 0x109; 0x049; 0x148;
  0x019; 0x118; 0x058; 0x00d; 0x10c; 0x04c; 0x01c; 0x103; 0x043; 0x142; 0x013; 0x112; 0x052;
  0x007; 0x106; 0x046; 0x016; 0x181; 0x0c1; 0x1c0; 0x091; 0x190; 0x0d0; 0x085; 0x184; 0x0c4;
  0x094; 0x0a8; 0x0a2; 0x08a; 0x02a
].

(** [CHARS.find(ch)]: the characters of [CHARS] are one byte each. *)
Definition find_char (ch : list Z) : option Z :=
  fst <$> List.find (fun '(_, c) => bool_decide ([c] = ch)) (enumerate CHARS).

(** The nine elements of a pattern, bars and spaces in turn, wide ones three modules. *)
Definition pattern_modules (p : Z) : list bool :=
  flat_map (fun i => repeat (i mod 2 =? 0) (if negb (Z.land p (Z.shiftl 1 (8 - i)) =? 0) then 3 else 1)) (range 0 9).

Definition code39 (data : list Z) : Render (list bool) :=
  let full := str "*" ++ map to_ascii_uppercase data ++ str "*" in
  for_each (fun '(ch_i, ch) out =>
    let? idx := raising (ok_or (find_char ch) (RenderError.Barcode (str "unsupported Code 39 character " ++ ch))) in
    let? p := index PAT idx in
    Ok (out ++ pattern_modules p ++ (if ch_i + 1 <? zlen full then [false] else [])))
  (enumerate (chars full)) [].

(** ** EAN-13 and UPC-A *)

Definition bits (s : string) : list bool := map (fun b => b =? 49) (str s).

Definition EAN_L : list (list bool) := map bits [
  "0001101"; "0011001"; "0010011"; "0111101"; "0100011"; "0110001"; "0101111"; "0111011"; "0110111"; "0001011"]%string.
Definition EAN_G : list (list bool) := map bits [
  "0100111"; "0110011"; "0011011"; "0100001"; "0011101"; "0111001"; "0000101"; "0010001"; "0001001"; "0010111"]%string.
Definition EAN_R : list (list bool) := map bits [
  "1110010"; "1100110"; "1101100"; "1000010"; "1011100"; "1001110"; "1010000"; "1000100"; "1001000"; "1110100"]%string.
Definition EAN_PAR : list (list Z) := map str [
  "LLLLLL"; "LLGLGG"; "LLGGLG"; "LLGGGL"; "LGLLGG"; "LGGLLG"; "LGGGLL"; "LGLGLG"; "LGLGGL"; "LGGLGL"]%string.

(** The weighted sum of the digits before the last, from the right. *)
Definition check_sum (digits : list Z) : Z :=
  foldr Z.add 0 (map (fun '(i, d) => d * (if i mod 2 =? 0 then 3 else 1)) (enumerate (reverse digits))).

Definition ean_left (len first : Z) (digits : list Z) (s : list bool) : Render (list bool) :=
  for_each (fun '(i, d) s =>
    let? g :=
      if len =? 13 then
        let? row := index EAN_PAR first in
        let? parity := index row i in
        Ok (parity =? 71)
      else Ok false in
    let? symbol := index (if (g : bool) then EAN_G else EAN_L) d in
    Ok (s ++ symbol)) (enumerate digits) s.

Definition ean_right (digits : list Z) (s : list bool) : Render (list bool) :=
  for_each (fun d s => let? symbol := index EAN_R d in Ok (s ++ symbol)) digits s.

Definition ean (data : list Z) (len : Z) : Render (list bool) :=
  if negb (zlen data =? len) || negb (forallb is_ascii_digit data)
  then fail (RenderError.Barcode (str "expected " ++ show_dec len ++ str " digits"))
  else
    let digits := map (fun b => b - 48) data in
    let check := check_sum (take (Z.to_nat (len - 1)) digits) in
    let? last := index digits (len - 1) in
    if negb ((10 - check mod 10) mod 10 =? last) then fail (RenderError.Barcode (str "check digit mismatch"))
    else
      let? first := if len =? 13 then index digits 0 else Ok 0 in
      let '(left_digits, right_digits) :=
        if len =? 13 then (take 6 (drop 1 digits), drop 7 digits) else (take 6 digits, drop 6 digits) in
      let? s := ean_left len first left_digits (bits "101") in
      let? s := ean_right right_digits (s ++ bits "01010") in
      Ok (s ++ bits "101").

(** * Properties *)

Example ean_of_test : is_ok (ean (str "4006381333931") 13) = true.
Proof. reflexivity. Qed.
Example upc_of_test : is_ok (ean (str "036000291452") 12) = true.
Proof. reflexivity. Qed.
Example wrong_check_digit : is_ok (ean (str "4006381333930") 13) = false.
Proof. reflexivity. Qed.

(** ** Reading EAN symbols *)

Definition strip_modules (prefix modules : list bool) : option (list bool) :=
  if decide (take (length prefix) modules = prefix) then Some (drop (length prefix) modules) else None.

Definition find_symbol (table : list (list bool)) (m : list bool) : option Z :=
  fst <$> List.find (fun '(_, s) => bool_decide (s = m)) (enumerate table).

(** The digits of ISO/IEC 15420 as the widths of a space, a bar, a space and a
    bar. A symbol of even parity is mirrored and has its colours exchanged;
    on the right of the centre only the colours are. *)
Definition digit_widths : list (list nat) :=
  [[3; 2; 1; 1]; [2; 2; 2; 1]; [2; 1; 2; 2]; [1; 4; 1; 1]; [1; 1; 3; 2]; [1; 2; 3; 1]; [1; 1; 1; 4]; [1; 3; 1; 2]; [1; 2; 1; 3]; [3; 1; 1; 2]]%nat.

Fixpoint of_widths (black : bool) (widths : list nat) : list bool :=
  match widths with
  | [] => []
  | n :: widths => repeat black n ++ of_widths (negb black) widths
  end.

Definition standard_odd : list (list bool) := map (of_widths false) digit_widths.
Definition standard_right : list (list bool) := map (map negb) standard_odd.
Definition standard_even : list (list bool) := map (fun m => reverse (map negb m)) standard_odd.

(** The parities of the left digits for a first digit, even ones [true]: three
    of six for all but zero, the first one always odd. *)
Definition standard_parities : list (list bool) := map bits [
  "000000"; "001011"; "001101"; "001110"; "010011"; "011001"; "011100"; "010101"; "010110"; "011010"]%string.

(** A left digit and whether it has even parity. *)
Definition read_left (m : list bool) : option (Z * bool) :=
  match find_symbol standard_odd m with
  | Some d => Some (d, false)
  | None => (fun d => (d, true)) <$> find_symbol standard_even m
  end.

Fixpoint read_symbols {A} (f : list bool -> option A) (n : nat) (modules : list bool) : option (list A * list bool) :=
  match n with
  | O => Some ([], modules)
  | S n =>
      a ← f (take 7 modules);
      ' (l, rest) ← read_symbols f n (drop 7 modules);
      Some (a :: l, rest)
  end.

Definition parities (row : list Z) : list bool := map (fun p => p =? 71) row.

(** The first digit is given by the parities of the left ones. *)
Definition first_digit (l : list bool) : option Z :=
  fst <$> List.find (fun '(_, row) => bool_decide (row = l)) (enumerate standard_parities).

(** A scanner of EAN-13: the thirteen digits as text. *)
Definition read_ean (modules : list bool) : option (list Z) :=
  rest ← strip_modules (bits "101") modules;
  ' (l, rest) ← read_symbols read_left 6 rest;
  first ← first_digit (map snd l);
  rest ← strip_modules (bits "01010") rest;
  ' (r, rest) ← read_symbols (find_symbol standard_right) 6 rest;
  if decide (rest = bits "101") then Some (map (fun d => d + 48) (first :: map fst l ++ r)) else None.

Definition is_digit (d : Z) : Prop := 0 <= d <= 9.

Lemma digit_cases (P : Z -> Prop) : Forall P (seqZ 0 10) -> forall d, is_digit d -> P d.
Proof. intros H d Hd. rewrite Forall_forall in H. apply H. apply list_elem_of_In, elem_of_seqZ. unfold is_digit in Hd. lia. Qed.

(** The symbol of a left digit. *)
Definition left_symbol (dg : Z * bool) : list bool :=
  default [] ((if dg.2 then EAN_G else EAN_L) !! Z.to_nat dg.1).
Definition right_symbol (d : Z) : list bool := default [] (EAN_R !! Z.to_nat d).

Ltac digit_by_digit := intros d Hd; revert d Hd; apply digit_cases; vm_compute; repeat (constructor; [done|]); constructor.

Lemma left_symbol_read d g : is_digit d -> length (left_symbol (d, g)) = 7%nat /\ read_left (left_symbol (d, g)) = Some (d, g).
Proof. destruct g; revert d; digit_by_digit. Qed.

Lemma right_symbol_read d : is_digit d -> length (right_symbol d) = 7%nat /\ find_symbol standard_right (right_symbol d) = Some d.
Proof. revert d. digit_by_digit. Qed.

Lemma index_left d (g : bool) : is_digit d -> index (E := RenderError.t) (if g then EAN_G else EAN_L) d = Ok (left_symbol (d, g)).
Proof. destruct g; revert d; digit_by_digit. Qed.

Lemma index_right d : is_digit d -> index (E := RenderError.t) EAN_R d = Ok (right_symbol d).
Proof. revert d. digit_by_digit. Qed.

(** The row of parities of a first digit. *)
Definition parity_row (d : Z) : list Z := default [] (EAN_PAR !! Z.to_nat d).

Lemma parity_row_read d :
  is_digit d -> index (E := RenderError.t) EAN_PAR d = Ok (parity_row d) /\ length (parity_row d) = 6%nat /\
    first_digit (parities (parity_row d)) = Some d.
Proof. revert d. digit_by_digit. Qed.

Lemma read_symbols_concat {A} (f : list bool -> option A) (symbol : A -> list bool) l rest :
  Forall (fun a => length (symbol a) = 7%nat /\ f (symbol a) = Some a) l ->
  read_symbols f (length l) (concat (map symbol l) ++ rest) = Some (l, rest).
Proof.
  induction 1 as [|a l [Hlen Hf] Hl IH]; [done|]. cbn [length map concat read_symbols].
  rewrite <- app_assoc, take_app_length' by done. rewrite Hf. cbn [mbind option_bind].
  by rewrite drop_app_length', IH by done.
Qed.

(** ** Building EAN symbols *)

Lemma ean_left_spec len first (row : list Z) digits s i :
  (len =? 13 = true -> index (E := RenderError.t) EAN_PAR first = Ok row) ->
  (len =? 13 = true -> (Z.to_nat i + length digits <= length row)%nat) -> 0 <= i -> Forall is_digit digits ->
  for_each (fun '(i, d) s =>
    let? g :=
      if len =? 13 then
        let? row := index EAN_PAR first in
        let? parity := index row i in
        Ok (parity =? 71)
      else Ok false in
    let? symbol := index (if (g : bool) then EAN_G else EAN_L) d in
    Ok (s ++ symbol)) (zip (seqZ i (zlen digits)) digits) s =
  Ok (E := Fault RenderError.t) (s ++ concat (map left_symbol
    (zip digits (if len =? 13 then parities (drop (Z.to_nat i) row) else repeat false (length digits))))).
Proof.
  intros Hrow Hlen Hi Hd. revert i s Hlen Hi. induction Hd as [|d digits Hd Hds IH]; intros i s Hlen Hi.
  { cbn. by rewrite app_nil_r. }
  rewrite zlen_cons, seqZ_cons by (pose proof (zlen_nonneg digits); lia). cbn [zip zip_with for_each].
  replace (Z.pred (1 + zlen digits)) with (zlen digits) by lia.
  destruct (len =? 13) eqn:E13.
  - pose proof (Hrow eq_refl) as Hr. rewrite Hr. rewrite Hr in IH. cbn [rbind] in *. specialize (Hlen eq_refl). cbn [length] in Hlen.
    destruct (lookup_lt_is_Some_2 row (Z.to_nat i)) as [c Hc]; [lia|].
    assert (index (E := RenderError.t) row i = Ok c) as -> by (by apply index_Ok). cbn [rbind].
    rewrite index_left by done. cbn [rbind]. rewrite IH by (done || lia).
    rewrite (drop_S _ _ _ Hc). unfold parities. cbn [map zip zip_with concat]. rewrite <- app_assoc.
    by replace (Z.to_nat (Z.succ i)) with (S (Z.to_nat i)) by lia.
  - cbn [rbind]. rewrite (index_left d false) by done. cbn [rbind]. rewrite IH by (done || lia).
    cbn [length repeat zip zip_with map concat]. by rewrite <- app_assoc.
Qed.

Lemma ean_right_spec digits s : Forall is_digit digits -> ean_right digits s = Ok (s ++ concat (map right_symbol digits)).
Proof.
  intros Hd. unfold ean_right. revert s. induction Hd as [|d digits Hd Hds IH]; intros s; cbn [for_each map concat].
  { by rewrite app_nil_r. }
  rewrite index_right by done. cbn [rbind]. by rewrite IH, <- app_assoc.
Qed.

(** The modules of the digits: [None] as first digit of a UPC-A symbol. *)
Definition ean_modules (row : list bool) (left right : list Z) : list bool :=
  bits "101" ++ concat (map left_symbol (zip left row)) ++ bits "01010" ++ concat (map right_symbol right) ++ bits "101".

Definition digits_of (data : list Z) : list Z := map (fun b => b - 48) data.

Lemma digits_ok data : forallb is_ascii_digit data = true -> Forall is_digit (digits_of data).
Proof.
  intros H. apply Forall_map, List.Forall_forall. intros b Hb. rewrite forallb_forall in H. specialize (H b Hb).
  unfold is_ascii_digit in H. unfold is_digit. cbn. lia.
Qed.

Lemma digits_text data : map (fun d => d + 48) (digits_of data) = data.
Proof. unfold digits_of. rewrite map_map. rewrite <- (map_id data) at 2. apply map_ext. intros b. lia. Qed.

(** The weights of GS1: 1 for the last digit, 3 for the one before, and so on. *)
Fixpoint gs1_sum (digits : list Z) : Z :=
  match digits with
  | [] => 0
  | d :: digits => d * (if Nat.even (length digits) then 1 else 3) + gs1_sum digits
  end.

(** A number that has [len] digits, the last of which checks the others. *)
Definition gs1_number (len : Z) (data : list Z) : Prop :=
  zlen data = len /\ forallb is_ascii_digit data = true /\ gs1_sum (digits_of data) mod 10 = 0.

Lemma check_digit check last : is_digit last -> negb ((10 - check mod 10) mod 10 =? last) = false <-> (check + last) mod 10 = 0.
Proof.
  unfold is_digit. intros Hl. rewrite negb_false_iff, Z.eqb_eq. pose proof (Z.mod_pos_bound check 10 ltac:(lia)).
  pose proof (Z.div_mod check 10 ltac:(lia)) as Hd. set (q := check / 10) in *. set (r := check mod 10) in *.
  rewrite Hd. replace (10 * q + r + last) with (r + last + q * 10) by lia. rewrite Z.mod_add by lia.
  destruct (decide (r = 0)) as [->|Hr].
  - change ((10 - 0) mod 10) with 0. rewrite Z.add_0_l, Z.mod_small by lia. lia.
  - rewrite (Z.mod_small (10 - r)) by lia. split; [intros <-; by replace (r + (10 - r)) with 10 by lia|].
    intros Hm. assert (r + last = 10 \/ r + last < 10 \/ 10 < r + last) as [?|[?|?]] by lia; [lia| |].
    + rewrite Z.mod_small in Hm by lia. lia.
    + replace (r + last) with ((r + last - 10) + 1 * 10) in Hm by lia. rewrite Z.mod_add, Z.mod_small in Hm by lia. lia.
Qed.

(** The shape of a number of thirteen digits. *)
Lemma thirteen (l : list Z) : length l = 13%nat -> exists a left right, l = a :: left ++ right /\ length left = 6%nat /\ length right = 6%nat.
Proof.
  destruct l as [|a l]; [done|]. intros [= Hl]. exists a, (take 6 l), (drop 6 l).
  rewrite take_drop, length_take, length_drop, Hl. done.
Qed.

(** Weights that alternate, starting with 3 or 1. *)
Fixpoint alternate (three : bool) (l : list Z) : Z :=
  match l with
  | [] => 0
  | d :: l => d * (if three then 3 else 1) + alternate (negb three) l
  end.

Lemma alternate_enumerated l i :
  0 <= i ->
  foldr Z.add 0 (map (fun '(i, d) => d * (if i mod 2 =? 0 then 3 else 1)) (zip (seqZ i (zlen l)) l)) = alternate (i mod 2 =? 0) l.
Proof.
  revert i. induction l as [|d l IH]; intros i Hi; [done|].
  rewrite zlen_cons, seqZ_cons by (pose proof (zlen_nonneg l); lia). cbn [zip zip_with map foldr alternate].
  replace (Z.pred (1 + zlen l)) with (zlen l) by lia. fold (zip (seqZ (Z.succ i) (zlen l)) l). rewrite IH by lia.
  assert ((Z.succ i mod 2 =? 0) = negb (i mod 2 =? 0)) as ->; [|done].
  pose proof (Z.mod_pos_bound i 2 ltac:(lia)). pose proof (Z.mod_pos_bound (Z.succ i) 2 ltac:(lia)).
  pose proof (Z.div_mod i 2 ltac:(lia)). pose proof (Z.div_mod (Z.succ i) 2 ltac:(lia)).
  destruct (Z.eqb_spec (i mod 2) 0), (Z.eqb_spec (Z.succ i mod 2) 0); cbn; lia.
Qed.

Lemma alternate_snoc three l d :
  alternate three (l ++ [d]) = alternate three l + d * (if Bool.eqb three (Nat.even (length l)) then 3 else 1).
Proof.
  revert three. induction l as [|x l IH]; intros three; cbn [app alternate length].
  - destruct three; cbn; lia.
  - rewrite IH, Nat.even_succ, <- Nat.negb_even. destruct three, (Nat.even (length l)); cbn; lia.
Qed.

Lemma gs1_check (l : list Z) last : gs1_sum (l ++ [last]) = check_sum l + last.
Proof.
  unfold check_sum, enumerate. rewrite alternate_enumerated by lia. change (0 mod 2 =? 0) with true.
  induction l as [|d l IH]; [cbn; lia|]. cbn [app gs1_sum]. rewrite IH, reverse_cons, alternate_snoc, length_app, length_reverse.
  cbn [length]. rewrite Nat.add_1_r, Nat.even_succ, <- Nat.negb_even. destruct (Nat.even (length l)); cbn; lia.
Qed.

(** The test of the check digit. *)
Lemma ean_check len data :
  len = 13 \/ len = 12 -> zlen data = len -> forallb is_ascii_digit data = true ->
  exists last, index (E := RenderError.t) (digits_of data) (len - 1) = Ok last /\
    (negb ((10 - check_sum (take (Z.to_nat (len - 1)) (digits_of data)) mod 10) mod 10 =? last) = false <->
     gs1_sum (digits_of data) mod 10 = 0).
Proof.
  intros Hlen Hz Hd. pose proof (digits_ok data Hd) as Hdig.
  assert (exists init last, digits_of data = init ++ [last] /\ length init = Z.to_nat (len - 1)) as (init & last & Hsplit & Hinit).
  { destruct (digits_of data) as [|x l] eqn:E using rev_ind.
    - assert (length (digits_of data) = length data) as Hl by (apply length_map). rewrite E in Hl. unfold zlen in Hz. cbn in Hl. lia.
    - exists l, x. split; [done|]. assert (length (digits_of data) = length data) as Hl by (apply length_map).
      rewrite E, length_app in Hl. unfold zlen in Hz. cbn in Hl. lia. }
  exists last. split.
  { apply index_Ok. split; [lia|]. rewrite Hsplit, <- Hinit, lookup_app_r, Nat.sub_diag by lia. done. }
  rewrite Hsplit at 1. rewrite take_app_length' by done.
  assert (is_digit last) as Hlast. { rewrite Hsplit in Hdig. apply Forall_app in Hdig as [_ Hdig]. by inversion Hdig. }
  pose proof (check_digit (check_sum init) last Hlast) as Hcheck. by rewrite <- gs1_check, <- Hsplit in Hcheck.
Qed.

Lemma ean_spec len data :
  len = 13 \/ len = 12 ->
  forall m, ean data len = Ok m <->
    gs1_number len data /\
    exists first left right, digits_of data = (if len =? 13 then first :: left ++ right else left ++ right) /\
      length left = 6%nat /\ length right = 6%nat /\
      m = ean_modules (if len =? 13 then parities (parity_row first) else repeat false 6) left right.
Proof.
  intros Hlen m. unfold ean, gs1_number.
  destruct (Z.eqb_spec (zlen data) len) as [Hz|Hz]; [|cbn; split; [done|by intros [(? & _) _]]]. cbn [negb orb].
  destruct (forallb is_ascii_digit data) eqn:Hd; [|cbn; split; [done|by intros [(_ & ? & _) _]]]. cbn [negb].
  fold (digits_of data). pose proof (digits_ok data Hd) as Hdig.
  destruct (ean_check len data Hlen Hz Hd) as (last & -> & Hcheck). cbn [rbind].
  destruct (negb _) eqn:Hc.
  { split; [done|]. intros [(_ & _ & Hs) _]. apply Hcheck in Hs. congruence. }
  assert (gs1_sum (digits_of data) mod 10 = 0) as Hsum by by apply Hcheck.
  assert (length (digits_of data) = Z.to_nat len) as Hl by (unfold digits_of; rewrite length_map; unfold zlen in Hz; lia).
  clear Hcheck Hc last. destruct (len =? 13) eqn:E13.
  - assert (len = 13) as -> by lia. destruct (thirteen (digits_of data) Hl) as (first & left & right & Hf & Hleft & Hright).
    rewrite Hf in Hdig |- *. apply Forall_cons_1 in Hdig as [Hfirst Hdig]. apply Forall_app in Hdig as [Hdl Hdr].
    assert (index (E := RenderError.t) (first :: left ++ right) 0 = Ok first) as -> by done. cbn [rbind].
    destruct (parity_row_read first Hfirst) as (Hrow & Hrl & _).
    change (drop 1 (first :: left ++ right)) with (left ++ right). change (drop 7 (first :: left ++ right)) with (drop 6 (left ++ right)).
    rewrite take_app_length', drop_app_length' by done.
    unfold ean_left, enumerate. rewrite (ean_left_spec 13 first (parity_row first)) by (done || lia). cbn [rbind].
    rewrite ?drop_0, ean_right_spec by done. cbn [rbind]. rewrite <- !app_assoc.
    split.
    + intros [= <-]. split; [by rewrite <- Hf|]. by exists first, left, right.
    + intros [_ (f' & l' & r' & [= <- Heq] & Hl' & _ & ->)]. apply app_inj_1 in Heq as [-> ->]; [done|lia].
  - assert (len = 12) as -> by lia. rewrite <- (take_drop 6 (digits_of data)) in Hdig. apply Forall_app in Hdig as [Hdl Hdr].
    cbn [rbind]. unfold ean_left, enumerate. rewrite (ean_left_spec 12 0 []) by (done || lia). cbn [rbind].
    rewrite ean_right_spec by done. cbn [rbind]. rewrite <- !app_assoc, length_take, Hl.
    split.
    + intros [= <-]. split; [done|]. exists 0, (take 6 (digits_of data)), (drop 6 (digits_of data)).
      by rewrite take_drop, length_take, length_drop, Hl.
    + intros [_ (f' & l' & r' & Heq & Hl' & _ & ->)]. by rewrite Heq, take_app_length', drop_app_length' by done.
Qed.

Lemma ean_total len data : len = 13 \/ len = 12 -> gs1_number len data -> exists m, ean data len = Ok m.
Proof.
  intros Hlen Hn. pose proof Hn as (Hz & _). assert (length (digits_of data) = Z.to_nat len) as Hl by (unfold digits_of; rewrite length_map; unfold zlen in Hz; lia).
  pose proof (ean_spec len data Hlen) as H. destruct Hlen as [-> | ->]; cbn [Z.eqb Pos.eqb] in H.
  - destruct (thirteen (digits_of data)) as (f & l & r & Hf & ? & ?); [done|]. eexists. apply H. split; [done|]. by exists f, l, r.
  - eexists. apply H. split; [done|]. exists 0, (take 6 (digits_of data)), (drop 6 (digits_of data)).
    by rewrite take_drop, length_take, length_drop, Hl.
Qed.

Lemma ean_ends len data : len = 13 \/ len = 12 -> panics (ean data len) = false.
Proof.
  intros Hlen. destruct (decide (zlen data = len)) as [Hz|Hz]; [destruct (forallb is_ascii_digit data) eqn:Hd|].
  2,3: unfold ean; rewrite ?Hd, ?(proj2 (Z.eqb_neq _ _) Hz), ?orb_true_r; done.
  destruct (ean_check len data Hlen Hz Hd) as (last & Hlast & Hcheck). destruct (negb _) eqn:Hc in Hcheck.
  - unfold ean. rewrite Hz, Z.eqb_refl, Hd. cbn [negb orb]. fold (digits_of data). rewrite Hlast. cbn [rbind]. by rewrite Hc.
  - destruct (ean_total len data Hlen) as [m ->]; [|done]. split_and!; [done|done|]. by apply Hcheck.
Qed.

Lemma concat_length_7 (l : list (list bool)) : Forall (fun m => length m = 7%nat) l -> length (concat l) = (7 * length l)%nat.
Proof. induction 1 as [|m l Hm Hl IH]; [done|]. cbn [concat length]. rewrite length_app, Hm, IH. lia. Qed.

(** Every symbol has 95 modules. *)
Lemma ean_length len data m : len = 13 \/ len = 12 -> ean data len = Ok m -> zlen m = 95.
Proof.
  intros Hlen Hm. apply ean_spec in Hm as [(_ & Hd & _) (f & l & r & Hf & Hl & Hr & ->)]; [|done].
  pose proof (digits_ok data Hd) as Hdig. rewrite Hf in Hdig.
  assert (Forall is_digit l /\ Forall is_digit r /\ length (if len =? 13 then parities (parity_row f) else repeat false 6) = 6%nat) as (Hdl & Hdr & Hrow).
  { destruct (len =? 13).
    - apply Forall_cons_1 in Hdig as [Hdf Hdig]. apply Forall_app in Hdig as [? ?]. split_and!; [done..|].
      unfold parities. rewrite length_map. by destruct (parity_row_read f Hdf) as (_ & ? & _).
    - apply Forall_app in Hdig as [? ?]. done. }
  unfold zlen, ean_modules. rewrite !length_app, !concat_length_7.
  - rewrite !length_map, length_zip_with, Hrow, Hl, Hr. done.
  - apply Forall_map. eapply list.Forall_impl; [exact Hdr|]. intros d Hd'. cbn. by apply right_symbol_read.
  - apply Forall_map, list.Forall_forall. intros [d g] Hin. apply elem_of_zip_l in Hin. rewrite list.Forall_forall in Hdl. cbn.
    by apply left_symbol_read, Hdl.
Qed.

(** ** Reading back *)

Lemma read_modules first left right :
  is_digit first -> Forall is_digit left -> Forall is_digit right -> length left = 6%nat -> length right = 6%nat ->
  read_ean (ean_modules (parities (parity_row first)) left right) = Some (map (fun d => d + 48) (first :: left ++ right)).
Proof.
  intros Hf Hl Hr Hll Hrl. destruct (parity_row_read first Hf) as (_ & Hrow & Hfirst).
  assert (length (parities (parity_row first)) = 6%nat) as Hpar by (unfold parities; by rewrite length_map).
  assert (length (zip left (parities (parity_row first))) = 6%nat) as Hzip by (rewrite length_zip_with; lia).
  unfold read_ean, ean_modules, strip_modules.
  rewrite take_app_length', drop_app_length', decide_True by done. cbn [mbind option_bind].
  rewrite <- Hzip. rewrite (read_symbols_concat read_left left_symbol).
  2: { apply Forall_forall. intros [d g] Hin. apply list_elem_of_In, elem_of_zip_l in Hin. rewrite list.Forall_forall in Hl.
       apply left_symbol_read. by apply Hl. }
  cbn [mbind option_bind]. rewrite snd_zip, Hfirst by lia. cbn [mbind option_bind].
  rewrite take_app_length', drop_app_length', decide_True by done. cbn [mbind option_bind].
  rewrite Hzip, <- Hrl. rewrite (read_symbols_concat (find_symbol standard_right) right_symbol).
  2: { eapply list.Forall_impl; [exact Hr|]. intros d. apply right_symbol_read. }
  cbn [mbind option_bind]. rewrite decide_True by done. by rewrite fst_zip by lia.
Qed.

(** The parities of the digit zero are those of a UPC-A symbol. *)
Lemma upc_row : repeat false 6 = parities (parity_row 0).
Proof. reflexivity. Qed.

(** C32: an EAN-13 symbol is drawn exactly for thirteen digits whose last one
    checks the others by the weights of GS1, a UPC-A symbol for twelve, and a
    scanner with the tables of the standard reads the digits back; a UPC-A symbol is the EAN-13 symbol of the
    number with a zero in front. *)
Theorem ean_read_back data :
  ((exists m, ean data 13 = Ok m) <-> gs1_number 13 data) /\
  (forall m, ean data 13 = Ok m -> read_ean m = Some data) /\
  ((exists m, ean data 12 = Ok m) <-> gs1_number 12 data) /\
  (forall m, ean data 12 = Ok m -> ean (48 :: data) 13 = Ok m /\ read_ean m = Some (48 :: data)).
Proof.
  pose proof (ean_spec 13 data (or_introl eq_refl)) as H13. pose proof (ean_spec 12 data (or_intror eq_refl)) as H12.
  cbn [Z.eqb Pos.eqb] in H13, H12.
  assert (forall d, gs1_number 13 d -> forall m, ean d 13 = Ok m -> read_ean m = Some d) as Hread.
  { intros d (_ & Hd & _) m Hm. apply (ean_spec 13 d (or_introl eq_refl)) in Hm as [_ (f & l & r & Hf & Hl & Hr & ->)].
    cbn [Z.eqb Pos.eqb] in *. pose proof (digits_ok d Hd) as Hdig. rewrite Hf in Hdig.
    apply Forall_cons_1 in Hdig as [Hdf Hdig]. apply Forall_app in Hdig as [Hdl Hdr].
    by rewrite read_modules, <- Hf, digits_text. }
  assert (gs1_number 12 data -> gs1_number 13 (48 :: data)) as Hzero.
  { intros (Hz & Hd & Hs). split_and!; [rewrite zlen_cons; lia|by cbn|]. cbn [digits_of map gs1_sum]. by rewrite Z.sub_diag. }
  split_and!.
  - split; [intros [m Hm]; by apply H13 in Hm as [? _]|apply ean_total; by left].
  - intros m Hm. pose proof Hm as Hm'. apply H13 in Hm' as [Hn _]. by apply Hread.
  - split; [intros [m Hm]; by apply H12 in Hm as [? _]|apply ean_total; by right].
  - intros m Hm. apply H12 in Hm as [Hn (f & l & r & Hf & Hl & Hr & ->)].
    assert (ean (48 :: data) 13 = Ok (ean_modules (repeat false 6) l r)) as Hm.
    { apply (ean_spec 13 (48 :: data) (or_introl eq_refl)). split; [by apply Hzero|]. exists 0, l, r. cbn [digits_of map].
      rewrite Z.sub_diag. fold (digits_of data). by rewrite Hf. }
    split; [done|]. apply Hread; [by apply Hzero|done].
Qed.

(** ** Code 39 *)

(** The characters of ISO/IEC 16388 and their patterns, the start and stop
    character last. *)
Definition standard_39 : list (Z * Z) :=
  zip (str "0123456789ABCDEFGHIJKLMNOPQRSTUVWXYZ-. $/+%*") [
    0x034; 0x121; 0x061; 0x160; 0x031; 0x130; 0x070; 0x025; 0x124; 0x064; 0x109; 0x049; 0x148;
    0x019; 0x118; 0x058; 0x00d; 0x10c; 0x04c; 0x01c; 0x103; 0x043; 0x142; 0x013; 0x112; 0x052;
    0x007; 0x106; 0x046; 0x016; 0x181; 0x0c1; 0x1c0; 0x091; 0x190; 0x0d0; 0x085; 0x184; 0x0c4;
    0x0a8; 0x0a2; 0x08a; 0x02a; 0x094].

(** The source's own characters and patterns. *)
Definition source_39 : list (Z * Z) := zip CHARS PAT.

Definition scan_character (table : list (Z * Z)) (m : list bool) : option Z :=
  fst <$> List.find (fun '(_, p) => bool_decide (pattern_modules p = m)) table.

(** A scanner: characters of fifteen modules with narrow gaps between them,
    the start and stop characters included in the result. *)
Fixpoint scan_39 (table : list (Z * Z)) (fuel : nat) (modules : list bool) : option (list Z) :=
  match fuel with
  | O => None
  | S fuel =>
      c ← scan_character table (take 15 modules);
      match drop 15 modules with
      | [] => Some [c]
      | false :: rest => cons c <$> scan_39 table fuel rest
      | true :: _ => None
      end
  end.

(** What a scanner of the standard reads where the source writes [c]. *)
Definition misread (c : Z) : Z :=
  if c =? 36 then 42 else if c =? 47 then 36 else if c =? 43 then 47 else if c =? 37 then 43 else if c =? 42 then 37 else c.

Definition in_39 (c : Z) : bool := bool_decide (c ∈ CHARS).

Definition symbol_39 (c : Z) : list bool :=
  match find_char [c] with Some i => pattern_modules (default 0 (PAT !! Z.to_nat i)) | None => [] end.

Fixpoint symbols_39 (l : list Z) : list bool :=
  match l with
  | [] => []
  | [c] => symbol_39 c
  | c :: l => symbol_39 c ++ [false] ++ symbols_39 l
  end.

Definition character_facts (c : Z) : Prop :=
  length (symbol_39 c) = 15%nat /\ scan_character source_39 (symbol_39 c) = Some c /\
  scan_character standard_39 (symbol_39 c) = Some (misread c) /\
  (i ← find_char [c]; (fun p => pattern_modules p) <$> PAT !! Z.to_nat i) = Some (symbol_39 c) /\ (char_width c = 1)%nat.

#[local] Instance character_facts_dec c : Decision (character_facts c).
Proof. unfold character_facts. apply _. Defined.

Lemma character_in c : c ∈ CHARS -> character_facts c.
Proof.
  revert c. apply list.Forall_forall, (bool_decide_unpack _). vm_compute. exact I.
Qed.

(** The pattern of a character that is found. *)
Lemma find_symbol_39 c :
  c ∈ CHARS -> exists i p, find_char [c] = Some i /\ index (E := RenderError.t) PAT i = Ok p /\ pattern_modules p = symbol_39 c.
Proof.
  intros Hc. destruct (character_in c Hc) as (_ & _ & _ & Hf & _).
  destruct (find_char [c]) as [i|] eqn:Hi; [|done]. cbn [mbind option_bind] in Hf.
  destruct (PAT !! Z.to_nat i) as [p|] eqn:Hp; [|done]. injection Hf as Hf. exists i, p. split_and!; [done| |done].
  apply index_Ok. split; [|done]. unfold find_char in Hi. apply fmap_Some in Hi as ([j x] & Hi & ->).
  apply find_some in Hi as [Hi _]. apply list_elem_of_In, elem_of_zip_l, elem_of_seqZ in Hi. cbn. lia.
Qed.

Lemma found_39 ch i : find_char ch = Some i -> exists c, ch = [c] /\ c ∈ CHARS.
Proof.
  unfold find_char. intros Hi. apply fmap_Some in Hi as ([j c] & Hi & _). apply find_some in Hi as [Hi Hc].
  apply bool_decide_eq_true in Hc. exists c. split; [done|]. by apply list_elem_of_In, elem_of_zip_r in Hi.
Qed.

(** The body of the loop of [code39]. *)
Definition code39_body (len : Z) : Z * list Z -> list bool -> Render (list bool) := fun '(ch_i, ch) out =>
  let? idx := raising (ok_or (find_char ch) (RenderError.Barcode (str "unsupported Code 39 character " ++ ch))) in
  let? p := index PAT idx in
  Ok (out ++ pattern_modules p ++ (if ch_i + 1 <? len then [false] else [])).

Lemma code39_body_found len i c out :
  c ∈ CHARS -> code39_body len (i, [c]) out = Ok (out ++ symbol_39 c ++ (if i + 1 <? len then [false] else [])).
Proof. intros Hc. unfold code39_body. destruct (find_symbol_39 c Hc) as (j & p & -> & Hp & <-). simpl. by rewrite Hp. Qed.

Lemma code39_loop len l i out :
  Forall (fun c => c ∈ CHARS) l -> 0 <= i -> i + zlen l = len ->
  for_each (code39_body len) (zip (seqZ i (zlen (map (fun c => [c]) l))) (map (fun c => [c]) l)) out = Ok (out ++ symbols_39 l).
Proof.
  intros Hl. revert i out. induction Hl as [|c l Hc Hl IH]; intros i out Hi Hlen; [by rewrite app_nil_r|].
  cbn [map]. rewrite !zlen_cons in *. rewrite seqZ_cons by (pose proof (zlen_nonneg (map (fun c => [c]) l)); lia).
  cbn [zip zip_with for_each]. rewrite code39_body_found by done. cbn [rbind].
  replace (Z.pred (1 + zlen (map (fun c => [c]) l))) with (zlen (map (fun c => [c]) l)) by lia.
  rewrite IH by lia. destruct l as [|d l].
  - cbn [symbols_39]. rewrite (proj2 (Z.ltb_ge _ _)) by (change (zlen (@nil Z)) with 0 in Hlen; lia). by rewrite !app_nil_r.
  - rewrite zlen_cons in Hlen. rewrite (proj2 (Z.ltb_lt _ _)) by (pose proof (zlen_nonneg l); lia).
    cbn [symbols_39]. by rewrite <- !app_assoc.
Qed.

Lemma code39_accepted len l i out m :
  for_each (code39_body len) (zip (seqZ i (zlen l)) l) out = Ok m -> Forall (fun ch => exists c, ch = [c] /\ c ∈ CHARS) l.
Proof.
  revert i out. induction l as [|ch l IH]; intros i out; [constructor|].
  rewrite zlen_cons, seqZ_cons by (pose proof (zlen_nonneg l); lia). replace (Z.pred (1 + zlen l)) with (zlen l) by lia.
  cbn [zip zip_with for_each]. destruct (code39_body len (i, ch) out) as [out'|] eqn:Hb; [|done]. cbn [rbind]. intros Hm.
  constructor; [|by eapply IH]. unfold code39_body in Hb. destruct (find_char ch) as [j|] eqn:Hj; [by eapply found_39|done].
Qed.

Lemma chars_concat s fuel : (length s <= fuel)%nat -> concat (chars_loop fuel s) = s.
Proof.
  revert s. induction fuel as [|fuel IH]; intros [|b s] Hf; cbn [length] in Hf; [done|lia|done|].
  cbn [chars_loop concat]. rewrite IH, take_drop; [done|]. rewrite length_drop. cbn [length].
  unfold char_width. repeat case_match; lia.
Qed.

Lemma chars_single l fuel : Forall (fun c => c ∈ CHARS) l -> (length l <= fuel)%nat -> chars_loop fuel l = map (fun c => [c]) l.
Proof.
  intros Hl. revert fuel. induction Hl as [|c l Hc Hl IH]; intros [|fuel] Hf; cbn [length] in Hf; [done|done|lia|].
  cbn [chars_loop map]. destruct (character_in c Hc) as (_ & _ & _ & _ & ->). cbn [take drop]. by rewrite IH by lia.
Qed.

Lemma code39_loop_ends len l out : panics (for_each (code39_body len) l out) = false.
Proof.
  revert out. induction l as [|[i ch] l IH]; intros out; [done|]. cbn [for_each]. unfold code39_body at 1.
  destruct (find_char ch) as [j|] eqn:Hj; [|done]. apply found_39 in Hj as Hc. destruct Hc as (c & -> & Hc).
  destruct (find_symbol_39 c Hc) as (j' & p & Hj' & Hp & _). rewrite Hj in Hj'. injection Hj' as <-.
  cbn [ok_or raising map_err rbind]. rewrite Hp. apply IH.
Qed.

Lemma code39_ends data : panics (code39 data) = false.
Proof. apply code39_loop_ends. Qed.

(** The whole text of the symbol. *)
Definition text_39 (data : list Z) : list Z := str "*" ++ map to_ascii_uppercase data ++ str "*".

Lemma code39_spec data m : code39 data = Ok m <-> Forall (fun c => c ∈ CHARS) (text_39 data) /\ m = symbols_39 (text_39 data).
Proof.
  unfold code39. fold (text_39 data). fold (code39_body (zlen (text_39 data))). unfold enumerate. split.
  - intros Hm. pose proof (code39_accepted _ _ _ _ _ Hm) as Hall.
    assert (Forall (fun c => c ∈ CHARS) (text_39 data)) as Htext.
    { rewrite <- (chars_concat (text_39 data) (length (text_39 data))) by done. fold (chars (text_39 data)).
      apply Forall_concat. eapply list.Forall_impl; [exact Hall|]. intros ch (c & -> & Hc). by constructor. }
    split; [done|]. assert (chars (text_39 data) = map (fun c => [c]) (text_39 data)) as Hchars by by apply chars_single.
    rewrite Hchars in Hm. rewrite (code39_loop (zlen (text_39 data))) in Hm by (done || lia). by injection Hm.
  - intros [Htext ->]. assert (chars (text_39 data) = map (fun c => [c]) (text_39 data)) as Hchars by by apply chars_single.
    rewrite Hchars. by rewrite (code39_loop (zlen (text_39 data))) by (done || lia).
Qed.

Lemma scan_symbols table (f : Z -> Z) l fuel :
  Forall (fun c => length (symbol_39 c) = 15%nat /\ scan_character table (symbol_39 c) = Some (f c)) l ->
  l <> [] -> (length l <= fuel)%nat -> scan_39 table fuel (symbols_39 l) = Some (map f l).
Proof.
  intros Hl Hne. revert fuel. induction Hl as [|c l [Hc Hs] Hl IH]; intros [|fuel] Hf; cbn [length] in Hf; [done|done|lia|].
  cbn [scan_39]. destruct l as [|d l].
  - cbn [symbols_39]. rewrite take_ge, drop_ge, Hs by lia. done.
  - cbn [symbols_39]. rewrite take_app_length', drop_app_length', Hs by done. cbn [mbind option_bind app].
    rewrite IH by (done || (cbn [length] in *; lia)). done.
Qed.

Lemma symbols_length l : Forall (fun c => c ∈ CHARS) l -> (length l <= length (symbols_39 l))%nat.
Proof.
  induction 1 as [|c l Hc Hl IH]; [done|]. destruct (character_in c Hc) as [Hlen _]. destruct l as [|d l]; [cbn [symbols_39 length]; lia|].
  change (symbols_39 (c :: d :: l)) with (symbol_39 c ++ [false] ++ symbols_39 (d :: l)). rewrite !length_app.
  cbn [length] in *. lia.
Qed.

(** C33: Code 39 accepts exactly the texts whose upper case has only the
    characters of its table (the start and stop character among them). A
    scanner that has the table of the source reads the upper-case text
    between asterisks. A scanner of ISO/IEC 16388 never finds the start and
    stop character there, because the last five patterns of the source are
    rotated by one: it reads [%] in their place, and [*], [$], [/] and [+]
    where the text has [$], [/], [+] and [%]; letters, digits, [-], [.] and
    spaces it reads as they are. *)
Theorem code39_scanned data :
  let text := map to_ascii_uppercase data in
  ((exists m, code39 data = Ok m) <-> forallb in_39 text = true) /\
  (forall m, code39 data = Ok m ->
    scan_39 source_39 (length m) m = Some (str "*" ++ text ++ str "*") /\
    scan_39 standard_39 (length m) m = Some (str "%" ++ map misread text ++ str "%") /\
    (forall c, is_ascii_digit c = true \/ 65 <= c <= 90 \/ c ∈ str "-. " -> misread c = c)).
Proof.
  intros text. assert (Forall (fun c => c ∈ CHARS) (text_39 data) <-> forallb in_39 text = true) as Hin.
  { assert (42 ∈ CHARS) as Hstar by (apply (bool_decide_eq_true_1 _); reflexivity).
    unfold text_39. fold text. change (str "*") with [42]. rewrite !Forall_app, !Forall_singleton, forallb_forall, list.Forall_forall. unfold in_39.
    split; [intros (_ & H & _) c Hc; by apply bool_decide_eq_true, H, list_elem_of_In|].
    intros H. split_and!; [done| |done]. intros c Hc. apply list_elem_of_In in Hc. by apply H, bool_decide_eq_true in Hc. }
  split; [rewrite <- Hin; split; [intros [m Hm]; by apply code39_spec in Hm as [? _]|intros H; eexists; by apply code39_spec]|].
  intros m Hm. apply code39_spec in Hm as [Htext ->]. pose proof (symbols_length _ Htext) as Hlen.
  split_and!.
  - rewrite (scan_symbols _ id) by (done || (eapply list.Forall_impl; [exact Htext|]; intros c Hc; by destruct (character_in c Hc) as (? & ? & _))).
    by rewrite map_id.
  - rewrite (scan_symbols _ misread) by (done || (eapply list.Forall_impl; [exact Htext|]; intros c Hc; by destruct (character_in c Hc) as (? & ? & ? & _))).
    unfold text_39. by rewrite !map_app.
  - intros c. unfold misread, is_ascii_digit. intros [Hc|[Hc|Hc]].
    + repeat (case_match; [lia|]). done.
    + repeat (case_match; [lia|]). done.
    + revert c Hc. apply list.Forall_forall. repeat (constructor; [reflexivity|]). constructor.
Qed.
