(* ===== verification/Geometry.v ===== *)
(** Where elements are drawn (crates/mb-printer-core/src/render.rs): which are
    visible, the zones they belong to, their placement in dots under nested
    rotated groups, the fixed-point rotation, and physical bounds.

    Parents are looked up by identifier along chains whose length the code
    bounds. Plain arithmetic wraps at the width of its type. *)

From stdpp Require Import base list strings numbers option.
From S2P Require Import Prelude Text MonoRaster Document Sheet RenderTypes.

#[local] Open Scope Z_scope.

(** ** Fixed-point rotation *)

Definition TRIG_SCALE : Z := 1000000000.

Definition ATAN_MDEG : list Z :=
  [45000; 26565; 14036; 7125; 3576; 1790; 895; 448; 224; 112; 56; 28; 14; 7; 3; 2; 1].

(** One turn of the CORDIC loop; no value leaves its type. *)
Definition cordic_step (s : Z * Z * Z) (shift_step : Z * Z) : Z * Z * Z :=
  let '(x, y, remaining) := s in
  let '(shift, step) := shift_step in
  let divisor := Z.shiftl 1 shift in
  let '(next_x, next_y) :=
    if 0 <=? remaining then (x - Z.quot y divisor, y + Z.quot x divisor)
    else (x + Z.quot y divisor, y - Z.quot x divisor) in
  (next_x, next_y, remaining + (if 0 <=? remaining then - step else step)).

(** The cosine and the sine, in units of [1 / TRIG_SCALE]. *)
Definition fixed_trig (millidegrees : Z) : Z * Z :=
  let angle := millidegrees mod 360000 in
  if angle =? 0 then (TRIG_SCALE, 0)
  else if angle =? 90000 then (0, TRIG_SCALE)
  else if angle =? 180000 then (- TRIG_SCALE, 0)
  else if angle =? 270000 then (0, - TRIG_SCALE)
  else
    let angle := if 180000 <? angle then angle - 360000 else angle in
    let '(angle, sign) :=
      if 90000 <? angle then (angle - 180000, -1)
      else if angle <? -90000 then (angle + 180000, -1)
      else (angle, 1) in
    let '(x, y, _) := fold_left cordic_step (enumerate ATAN_MDEG) (607252935, 0, angle) in
    (x * sign, y * sign).

Definition rotate_fixed (x y angle : Z) : Z * Z :=
  let '(cos, sin) := fixed_trig angle in
  (round_ratio (cos * x - sin * y) TRIG_SCALE, round_ratio (sin * x + cos * y) TRIG_SCALE).

(** The loop of [integer_sqrt_ceil]; [None] when the fuel runs out. *)
Fixpoint sqrt_loop (fuel : nat) (value low high : Z) : option Z :=
  if low <? high then
    match fuel with
    | O => None
    | S fuel =>
        let middle := low + (high - low) / 2 in
        if value <=? saturate u64_max (middle * middle) then sqrt_loop fuel value low middle
        else sqrt_loop fuel value (middle + 1) high
    end
  else Some low.

Definition integer_sqrt_ceil (value : Z) : Render Z :=
  if value <=? 1 then Ok value else ok_or (sqrt_loop 33 value 1 (Z.min value (u32_max + 1))) Panicked.

(** ** Groups, visibility and zones *)

Section Scene.
Context {Json : Type}.
Implicit Types (doc : Document Json) (e : Element.t).

Definition is_none {A} (o : option A) : bool := match o with None => true | Some _ => false end.

(** The element that a group reference names, if any. *)
Definition group_element doc (group : option (list Z)) : option Element.t :=
  id ← group; find_element (elements doc) id.

Fixpoint visible_loop doc (n : nat) (group : option (list Z)) : bool :=
  match n with
  | O => is_none group
  | S n =>
      match group_element doc group with
      | None => is_none group
      | Some parent => if negb (visible (common parent)) then false else visible_loop doc n (group_id (common parent))
      end
  end.

Definition effectively_visible e doc : bool :=
  if negb (visible (common e)) then false else visible_loop doc (length (elements doc)) (group_id (common e)).

Definition own_zone (c : Common) : option (list Z) := constraints ← element_constraints c; constraint_zone constraints.

Fixpoint zone_loop doc (n : nat) (current : option Element.t) : option (list Z) :=
  match n with
  | O => None
  | S n =>
      item ← current;
      match own_zone (common item) with
      | Some zone => Some zone
      | None => zone_loop doc n (group_element doc (group_id (common item)))
      end
  end.

Definition effective_zone e doc : option (list Z) := zone_loop doc (S (length (elements doc))) (Some e).

Definition find_zone (zones : list Zone) (id : list Z) : option Zone :=
  List.find (fun z => bool_decide (zone_id z = id)) zones.

Fixpoint clones_loop (zones : list Zone) (source : list Z) (n : nat) (next : option (list Z)) : bool :=
  match n with
  | O => false
  | S n =>
      match next with
      | Some id => if bool_decide (id = source) then true else clones_loop zones source n (z ← find_zone zones id; clone_of z)
      | None => false
      end
  end.

Definition zone_clones (zones : list Zone) (candidate source : list Z) : bool :=
  clones_loop zones source (length zones) (z ← find_zone zones candidate; clone_of z).

(** ** Placement *)

Record Placement := {
  pl_x : Z;
  pl_y : Z;
  pl_w : Z;
  pl_h : Z;
  pl_rotation : Z;
}.

(** The loop over the groups around an element: its doubled centre and its rotation. *)
Fixpoint placement_loop doc (depth : nat) (group : option (list Z)) (cx2 cy2 rotation : Z) : Z * Z * Z :=
  match depth, group_element doc group with
  | O, _ | _, None => (cx2, cy2, rotation)
  | S depth, Some g =>
      let gt := element_transform (common g) in
      let '(dx, dy) := rotate_fixed (as_i64 (cx2 - t_width gt)) (as_i64 (cy2 - t_height gt)) (rotation_millidegrees gt) in
      placement_loop doc depth (group_id (common g))
        (as_i64 (2 * t_x gt + t_width gt + dx)) (as_i64 (2 * t_y gt + t_height gt + dy))
        (as_i32 (rotation + rotation_millidegrees gt))
  end.

Definition or_else {A} (a b : option A) : option A := match a with Some x => Some x | None => b end.

Definition placement_px (c : Common) (dpi : Z) doc (zone_override : option (list Z)) : Placement :=
  let t := element_transform c in
  let '(cx2, cy2, rotation) :=
    placement_loop doc 32 (group_id c) (as_i64 (2 * t_x t + t_width t)) (as_i64 (2 * t_y t + t_height t))
      (rotation_millidegrees t) in
  let '(cx2, cy2) :=
    match (id ← or_else zone_override (own_zone c); find_zone (zones (media doc)) id) with
    | Some zone => (as_i64 (cx2 + 2 * b_x (zone_bounds zone)), as_i64 (cy2 + 2 * b_y (zone_bounds zone)))
    | None => (cx2, cy2)
    end in
  let w := as_i32 (Z.max (micrometres_to_dots (t_width t) dpi) 1) in
  let h := as_i32 (Z.max (micrometres_to_dots (t_height t) dpi) 1) in
  let center_x := as_i32 (round_ratio (cx2 * dpi) 50800) in
  let center_y := as_i32 (round_ratio (cy2 * dpi) 50800) in
  {| pl_x := as_i32 (center_x - Z.quot w 2); pl_y := as_i32 (center_y - Z.quot h 2);
     pl_w := w; pl_h := h; pl_rotation := rotation mod 360000 |}.

End Scene.

(** ** Physical bounds *)

Definition dots_to_micrometres_floor (value dpi : Z) : Render Z :=
  if dpi =? 0 then Err Panicked else Ok (default i64_max (checked_i64 (value * 25400 / dpi))).

(** [a.div_ceil(b)] of unsigned integers. *)
Definition div_ceil (a b : Z) : Z := (a + b - 1) / b.

Definition dots_to_micrometres_ceil (value dpi : Z) : Render Z :=
  if dpi =? 0 then Err Panicked else Ok (default i64_max (checked_i64 (div_ceil (value * 25400) dpi))).

Definition union_physical_bounds (l r : Bounds) : Bounds :=
  let x := Z.min (b_x l) (b_x r) in
  let y := Z.min (b_y l) (b_y r) in
  let right_edge := Z.max (as_i64 (b_x l + b_width l)) (as_i64 (b_x r + b_width r)) in
  let bottom_edge := Z.max (as_i64 (b_y l + b_height l)) (as_i64 (b_y r + b_height r)) in
  {| b_x := x; b_y := y; b_width := as_i64 (right_edge - x); b_height := as_i64 (bottom_edge - y) |}.

(** What the loop of [gray_ink_bounds] keeps: left, top, right, bottom and whether there is ink. *)
Definition ink_extent (raster : GrayRaster) : Render (Z * Z * Z * Z * bool) :=
  for_each (fun '(x, y) s =>
    let '(min_x, min_y, max_x, max_y, found) := s in
    let? v := index (g_pixels raster) (idx32 (g_width raster) x y) in
    if v <? 255 then Ok (Z.min min_x x, Z.min min_y y, Z.max max_x (x + 1), Z.max max_y (y + 1), true) else Ok s)
  (coords (g_width raster) (g_height raster)) (g_width raster, g_height raster, 0, 0, false).

Definition gray_ink_bounds (raster : GrayRaster) (dpi : Z) : Render (option Bounds) :=
  let? 'extent := ink_extent raster in
  let '(min_x, min_y, max_x, max_y, found) := extent in
  if negb found then Ok None
  else
    let? x := dots_to_micrometres_floor min_x dpi in
    let? y := dots_to_micrometres_floor min_y dpi in
    let? right_um := dots_to_micrometres_ceil max_x dpi in
    let? bottom_um := dots_to_micrometres_ceil max_y dpi in
    Ok (Some {| b_x := x; b_y := y; b_width := as_i64 (right_um - x); b_height := as_i64 (bottom_um - y) |}).
