(* ===== verification/GeometryFacts.v ===== *)
(** Groups, zones and square roots: the bounded loops of Geometry.v compute
    what they stand for on every valid document. *)

From stdpp Require Import base list sets strings numbers option.
From S2P Require Import Prelude Text Capabilities MonoRaster Document DocumentFacts Sheet RenderTypes Geometry.

#[local] Open Scope Z_scope.

(** ** Chains of groups *)

Section Groups.
Context {Json : Type}.
Variable doc : Document Json.

(** The groups around an element, innermost first: [l] for the reference [group]. *)
Inductive path : option (list Z) -> list Element.t -> Prop :=
| path_nil : path None []
| path_cons id g l : find_element (elements doc) id = Some g -> path (group_id (common g)) l -> path (Some id) (g :: l).

Lemma path_unique group l k : path group l -> path group k -> l = k.
Proof.
  intros Hl. revert k. induction Hl as [|id g l Hg Hl IH]; intros k Hk; inversion Hk; simplify_eq; [done|].
  f_equal. by apply IH.
Qed.

Lemma visible_loop_path n group l :
  path group l -> (length l <= n)%nat -> visible_loop doc n group = forallb (fun g => visible (common g)) l.
Proof.
  intros Hl. revert n. induction Hl as [|id g l Hg Hl IH]; intros [|n] Hn; cbn [length] in Hn; [done|done|lia|].
  cbn [visible_loop group_element mbind option_bind forallb]. rewrite Hg.
  destruct (visible (common g)); cbn [negb andb]; [apply IH; lia|done].
Qed.

Lemma zone_loop_path n e l :
  path (group_id (common e)) l -> (length l < n)%nat ->
  zone_loop doc n (Some e) = head (omap (fun g => own_zone (common g)) (e :: l)).
Proof.
  revert e l. induction n as [|n IH]; intros e l Hl Hn; [lia|]. cbn [zone_loop mbind option_bind omap list_omap].
  destruct (own_zone (common e)); [done|]. inversion Hl as [E1 E2|id g l' Hg Hl' E1 E2]; subst.
  - cbn [group_element mbind option_bind]. by destruct n.
  - cbn [group_element mbind option_bind]. rewrite Hg. apply IH; [done|cbn [length] in Hn; lia].
Qed.

(** The part of well-formedness that the chains need. *)
Hypothesis unique : NoDup (map (fun x => element_id (common x)) (elements doc)).
Hypothesis parents : Forall (fun x => parent_ok doc (common x)) (elements doc).

Lemma path_exists_from id :
  ends (group_parent (elements doc)) id -> forall e, e ∈ elements doc -> element_id (common e) = id ->
  exists l, path (group_id (common e)) l /\ (forall g, g ∈ l -> g ∈ elements doc) /\
    (forall g, g ∈ l -> ancestor (group_parent (elements doc)) id (element_id (common g))) /\
    NoDup (map (fun x => element_id (common x)) (e :: l)).
Proof.
  induction 1 as [id Hroot|id up Hup Hends IH]; intros e He Hid.
  - assert (group_id (common e) = None) as ->.
    { destruct (group_id (common e)) as [g|] eqn:Eg; [|done].
      rewrite (proj2 (group_parent_spec doc unique id g)) in Hroot; [done|by exists e]. }
    exists []. split_and!; [constructor|by intros ? ?%elem_of_nil|by intros ? ?%elem_of_nil|apply NoDup_singleton].
  - apply (group_parent_spec doc unique) in Hup as Hup'. destruct Hup' as (e' & He' & Hid' & Hg).
    assert (e' = e) as ->.
    { pose proof (proj2 (find_element_spec doc unique id e') (conj He' Hid')) as F.
      rewrite (proj2 (find_element_spec doc unique id e) (conj He Hid)) in F. by injection F. }
    rewrite list.Forall_forall in parents. destruct (parents e He up Hg) as (gc & children & Hgroup & Hgid & _).
    destruct (IH (Element.Group gc children) Hgroup Hgid) as (l & Hl & Hin & Hanc & Hnd).
    exists (Element.Group gc children :: l). rewrite Hg. split_and!.
    + econstructor; [by apply (find_element_spec doc unique)|done].
    + intros g [->|Hg']%elem_of_cons; [done|by apply Hin].
    + intros g [->|Hg']%elem_of_cons; [cbn [common]; rewrite Hgid; by apply ancestor_parent|].
      eapply ancestor_step; [exact Hup|by apply Hanc].
    + cbn [map] in *. apply list.NoDup_cons. split; [|done]. rewrite Hid. intros Hin'.
      assert (ancestor (group_parent (elements doc)) id id) as Hc.
      { apply elem_of_cons in Hin' as [E|Hin'].
        - cbn [common] in E. apply ancestor_parent. congruence.
        - apply elem_of_ids in Hin' as (g & Hgl & <-). eapply ancestor_step; [exact Hup|by apply Hanc]. }
      revert Hc. apply ends_not_cyclic. by eapply ends_child.
Qed.

Lemma path_exists e :
  e ∈ elements doc -> ends (group_parent (elements doc)) (element_id (common e)) ->
  exists l, path (group_id (common e)) l /\ (length l < length (elements doc))%nat.
Proof.
  intros He Hends. destruct (path_exists_from _ Hends e He eq_refl) as (l & Hl & Hin & _ & Hnd).
  exists l. split; [done|].
  assert (length (map (fun x => element_id (common x)) (e :: l)) <= length (map (fun x => element_id (common x)) (elements doc)))%nat as Hle.
  { apply submseteq_length, NoDup_submseteq; [done|]. intros id (g & Hg & <-)%elem_of_ids. apply elem_of_ids. exists g. split; [|done].
    apply elem_of_cons in Hg as [->|Hg]; [done|by apply Hin]. }
  rewrite !length_map in Hle. cbn [length] in Hle. lia.
Qed.
End Groups.

(** ** Clones of zones *)

Lemma clones_loop_spec zones source n next :
  clones_loop zones source n next = true ->
  exists id, next = Some id /\ (id = source \/ ancestor (zone_parent zones) id source).
Proof.
  revert next. induction n as [|n IH]; intros [id|]; cbn; try done.
  case_bool_decide as E; [intros _; exists id; auto|]. intros H. exists id. split; [done|]. right.
  apply IH in H as (up & Hup & [->|H]); [by apply ancestor_parent|by eapply ancestor_step].
Qed.

Lemma clones_loop_found zones source id seen n :
  (forall id up, zone_parent zones id = Some up -> up ∈ map zone_id zones) ->
  ends (zone_parent zones) id -> NoDup seen -> (forall s, s ∈ seen -> ancestor (zone_parent zones) s id) ->
  (forall s, s ∈ seen -> s ∈ map zone_id zones) ->
  (length (map zone_id zones) <= n + length seen)%nat ->
  id = source \/ ancestor (zone_parent zones) id source -> id ∈ map zone_id zones ->
  clones_loop zones source n (Some id) = true.
Proof.
  intros Hclosed. revert id seen. induction n as [|n IH]; intros id seen Hends Hnd Hanc Hin Hlen Hsource Hid.
  { exfalso. assert (id ∉ seen) as Hns by (intros Hs; by apply (ends_not_cyclic _ _ Hends), Hanc).
    assert (length (id :: seen) <= length (map zone_id zones))%nat as Hle; [|cbn [length] in Hle; lia].
    apply submseteq_length, NoDup_submseteq; [by apply list.NoDup_cons|]. intros s [->|Hs]%elem_of_cons; [done|by apply Hin]. }
  cbn [clones_loop]. case_bool_decide as E; [done|]. destruct Hsource as [?|Hsource]; [done|].
  assert (exists up, zone_parent zones id = Some up /\ (up = source \/ ancestor (zone_parent zones) up source)) as (up & Hup & Hs).
  { inversion Hsource; subst; eauto. }
  change (z ← find_zone zones id; clone_of z) with (zone_parent zones id). rewrite Hup.
  eapply (IH up (id :: seen)); [by inversion Hends; simplify_eq| | | |cbn [length]; lia|done|by eapply Hclosed].
  - apply list.NoDup_cons. split; [|done]. intros Hs'. by apply (ends_not_cyclic _ _ Hends), Hanc.
  - intros s [->|Hs']%elem_of_cons; [by apply ancestor_parent|by eapply ancestor_snoc; [apply Hanc|]].
  - intros s [->|Hs']%elem_of_cons; [done|by apply Hin].
Qed.

Lemma zone_parent_closed m id up :
  zones_ok m -> zone_parent (zones m) id = Some up -> up ∈ map zone_id (zones m).
Proof.
  intros (_ & _ & Hclone & _). unfold zone_parent. destruct (List.find _ (zones m)) as [z|] eqn:Hz; cbn; [|done].
  apply find_some in Hz as [Hz _]. rewrite list.Forall_forall in Hclone. by apply Hclone, list_elem_of_In.
Qed.

Lemma zone_clones_spec m candidate source :
  zones_ok m -> candidate ∈ map zone_id (zones m) ->
  (zone_clones (zones m) candidate source = true <-> ancestor (zone_parent (zones m)) candidate source).
Proof.
  intros Hm Hc. unfold zone_clones. change (z ← find_zone (zones m) candidate; clone_of z) with (zone_parent (zones m) candidate).
  split.
  - intros H. apply clones_loop_spec in H as (up & Hup & [->|H]); [by apply ancestor_parent|by eapply ancestor_step].
  - intros H. assert (exists up, zone_parent (zones m) candidate = Some up /\ (up = source \/ ancestor (zone_parent (zones m)) up source))
      as (up & Hup & Hs) by (inversion H; subst; eauto).
    rewrite Hup. pose proof Hm as (_ & _ & _ & Hends). rewrite list.Forall_forall in Hends.
    assert (ends (zone_parent (zones m)) candidate) as Hcand by (apply elem_of_ids in Hc as (z & Hz & <-); by apply Hends).
    apply (clones_loop_found (zones m) source up [candidate]); [by intros; eapply zone_parent_closed| | | | | |done|by eapply zone_parent_closed].
    + by inversion Hcand; simplify_eq.
    + apply NoDup_singleton.
    + intros s ->%list_elem_of_singleton. by apply ancestor_parent.
    + by intros s ->%list_elem_of_singleton.
    + rewrite length_map. cbn [length]. lia.
Qed.

(** ** Upright groups *)

Lemma round_ratio_exact d x : 0 < d -> i64_min <= x <= i64_max -> round_ratio (d * x) d = x.
Proof.
  intros Hd Hx. unfold round_ratio.
  assert (0 <= d / 2 < d) as Hh by (split; [apply Z.div_pos; lia|apply Z.div_lt; lia]).
  assert ((Z.abs (d * x) + d / 2) / d = Z.abs x) as ->.
  { rewrite Z.abs_mul, (Z.abs_eq d), (Z.mul_comm d), Z.add_comm, Z.div_add, Z.div_small by lia. lia. }
  rewrite <- (as_i64_id x Hx) at 3. f_equal. destruct (Z.ltb_spec (d * x) 0); nia.
Qed.

Lemma rotate_upright x y angle :
  angle mod 360000 = 0 -> i64_min <= x <= i64_max -> i64_min <= y <= i64_max -> rotate_fixed x y angle = (x, y).
Proof.
  intros Ha Hx Hy. unfold rotate_fixed, fixed_trig. rewrite Ha. cbn [Z.eqb]. cbn beta iota zeta.
  replace (TRIG_SCALE * x - 0 * y) with (TRIG_SCALE * x) by lia. replace (0 * x + TRIG_SCALE * y) with (TRIG_SCALE * y) by lia.
  by rewrite !round_ratio_exact by (done || (unfold TRIG_SCALE; lia)).
Qed.

(** Coordinates of less than a kilometre. *)
Definition modest (t : Transform) : Prop :=
  Z.abs (t_x t) <= 2 ^ 30 /\ Z.abs (t_y t) <= 2 ^ 30 /\ Z.abs (t_width t) <= 2 ^ 30 /\ Z.abs (t_height t) <= 2 ^ 30 /\
  Z.abs (rotation_millidegrees t) <= 360000.

Definition upright (g : Element.t) : Prop := rotation_millidegrees (element_transform (common g)) mod 360000 = 0.

Definition origin_x (l : list Element.t) : Z := foldr (fun g sum => t_x (element_transform (common g)) + sum) 0 l.
Definition origin_y (l : list Element.t) : Z := foldr (fun g sum => t_y (element_transform (common g)) + sum) 0 l.

Lemma placement_loop_upright {Json} (doc : Document Json) depth group l cx2 cy2 rotation :
  path doc group l -> (length l <= depth)%nat -> (length l <= 32)%nat ->
  Forall (fun g => upright g /\ modest (element_transform (common g))) l ->
  Z.abs cx2 + 2 ^ 34 * Z.of_nat (length l) <= 2 ^ 50 -> Z.abs cy2 + 2 ^ 34 * Z.of_nat (length l) <= 2 ^ 50 ->
  Z.abs rotation + 360000 * Z.of_nat (length l) <= 360000 * 40 ->
  exists r, placement_loop doc depth group cx2 cy2 rotation = (cx2 + 2 * origin_x l, cy2 + 2 * origin_y l, r) /\
    r mod 360000 = rotation mod 360000.
Proof.
  intros Hl. revert depth cx2 cy2 rotation. induction Hl as [|id g l Hg Hl IH]; intros depth cx2 cy2 rotation Hd H32 Hall Hx Hy Hr.
  - exists rotation. cbn [origin_x origin_y foldr]. rewrite !Z.add_0_r. by destruct depth.
  - apply Forall_cons_1 in Hall as [[Hup (Mx & My & Mw & Mh & Mr)] Hall]. destruct depth as [|depth]; cbn [length] in *; [lia|].
    cbn [placement_loop group_element mbind option_bind]. rewrite Hg. cbn zeta.
    set (gt := element_transform (common g)) in *.
    rewrite (as_i64_id (cx2 - t_width gt)), (as_i64_id (cy2 - t_height gt)) by (unfold i64_min, i64_max; lia).
    rewrite rotate_upright by (done || (unfold i64_min, i64_max; lia)). cbn beta iota.
    rewrite !as_i64_id by (unfold i64_min, i64_max; lia). rewrite as_i32_id by (unfold i32_min, i32_max; lia).
    destruct (IH depth (2 * t_x gt + t_width gt + (cx2 - t_width gt)) (2 * t_y gt + t_height gt + (cy2 - t_height gt))
      (rotation + rotation_millidegrees gt)) as (r & -> & Hmod); [lia|lia|done|lia|lia|lia|].
    exists r. split.
    + cbn [origin_x origin_y foldr]. fold gt. f_equal. f_equal; unfold origin_x, origin_y; lia.
    + unfold upright in Hup. fold gt in Hup. rewrite Hmod, Z.add_mod, Hup, Z.add_0_r, Z.mod_mod by lia. done.
Qed.

(** An element moved by [dx] and [dy] and out of its group. *)
Definition moved (c : Common) (dx dy : Z) : Common :=
  let t := element_transform c in
  {| element_id := element_id c;
     element_transform := {| t_x := t_x t + dx; t_y := t_y t + dy; t_width := t_width t; t_height := t_height t;
                             rotation_millidegrees := rotation_millidegrees t |};
     z_order := z_order c; visible := visible c; locked := locked c; group_id := None;
     element_constraints := element_constraints c |}.

Lemma placement_upright {Json} (doc : Document Json) c dpi zone l :
  path doc (group_id c) l -> (length l <= 32)%nat -> modest (element_transform c) ->
  Forall (fun g => upright g /\ modest (element_transform (common g))) l ->
  placement_px c dpi doc zone = placement_px (moved c (origin_x l) (origin_y l)) dpi doc zone.
Proof.
  intros Hl H32 (Mx & My & Mw & Mh & Mr) Hall. unfold placement_px. cbn [element_transform moved t_x t_y t_width t_height rotation_millidegrees group_id].
  set (t := element_transform c) in *.
  assert (forall f : Element.t -> Z, (forall g, g ∈ l -> Z.abs (f g) <= 2 ^ 30) ->
    Z.abs (foldr (fun g sum => f g + sum) 0 l) <= 2 ^ 30 * Z.of_nat (length l)) as Hsum.
  { intros f Hf. clear -Hf. induction l as [|g l IH]; [cbn; lia|]. cbn [foldr length].
    pose proof (Hf g (list_elem_of_here _ _)) as Hg. specialize (IH (fun g Hg => Hf g (list_elem_of_further _ _ _ Hg))). lia. }
  rewrite list.Forall_forall in Hall.
  assert (Z.abs (origin_x l) <= 2 ^ 30 * Z.of_nat (length l)) as Hox by (apply Hsum; intros g Hg; by destruct (Hall g Hg) as (_ & ? & _)).
  assert (Z.abs (origin_y l) <= 2 ^ 30 * Z.of_nat (length l)) as Hoy by (apply Hsum; intros g Hg; by destruct (Hall g Hg) as (_ & _ & ? & _)).
  destruct (placement_loop_upright doc 32 (group_id c) l (as_i64 (2 * t_x t + t_width t)) (as_i64 (2 * t_y t + t_height t))
    (rotation_millidegrees t)) as (r & -> & Hr); [done|done|done|by apply list.Forall_forall| | | |];
    [rewrite ?as_i64_id by (unfold i64_min, i64_max; lia); lia..|].
  cbn [placement_loop group_element mbind option_bind]. cbn beta iota.
  rewrite !as_i64_id by (unfold i64_min, i64_max; lia).
  replace (2 * (t_x t + origin_x l) + t_width t) with (2 * t_x t + t_width t + 2 * origin_x l) by lia.
  replace (2 * (t_y t + origin_y l) + t_height t) with (2 * t_y t + t_height t + 2 * origin_y l) by lia.
  change (own_zone (moved c (origin_x l) (origin_y l))) with (own_zone c).
  destruct (id ← or_else zone (own_zone c); find_zone (zones (media doc)) id); by rewrite Hr.
Qed.

(** ** Square roots *)

Lemma saturate_square m : 0 <= m -> forall v, v <= u64_max -> (v <=? saturate u64_max (m * m)) = (v <=? m * m).
Proof. intros Hm v Hv. unfold saturate. destruct (Z.leb_spec v (m * m)); nia. Qed.

Lemma sqrt_loop_spec fuel v low high :
  1 <= low <= high -> v <= u64_max -> high - low < 2 ^ Z.of_nat fuel ->
  (low = 1 \/ (low - 1) * (low - 1) < v) -> v <= high * high ->
  exists r, sqrt_loop fuel v low high = Some r /\ low <= r <= high /\ (r = 1 \/ (r - 1) * (r - 1) < v) /\ v <= r * r.
Proof.
  revert low high. induction fuel as [|fuel IH]; intros low high Hlh Hv Hf Hlow Hhigh; cbn [sqrt_loop].
  - cbn in Hf. destruct (Z.ltb_spec low high); [lia|]. exists low. assert (low = high) as <- by lia. split_and!; done || lia.
  - rewrite Nat2Z.inj_succ, Z.pow_succ_r in Hf by lia. destruct (Z.ltb_spec low high) as [Hlt|Hge].
    + assert (low <= low + (high - low) / 2 < high) as Hmid.
      { pose proof (Z.div_mod (high - low) 2). pose proof (Z.mod_pos_bound (high - low) 2). lia. }
      assert (2 * ((high - low) / 2) <= high - low <= 2 * ((high - low) / 2) + 1) as Hhalf.
      { pose proof (Z.div_mod (high - low) 2). pose proof (Z.mod_pos_bound (high - low) 2). lia. }
      set (middle := low + (high - low) / 2) in *. rewrite saturate_square by lia.
      destruct (Z.leb_spec v (middle * middle)) as [Hle|Hgt].
      * destruct (IH low middle) as (r & -> & Hr & ? & ?); [lia|done|lia|done|done|]. exists r. split_and!; done || lia.
      * destruct (IH (middle + 1) high) as (r & -> & Hr & ? & ?); [lia|done|lia| |done|].
        { right. by replace (middle + 1 - 1) with middle by lia. }
        exists r. split_and!; done || lia.
    + exists low. assert (low = high) as <- by lia. split_and!; done || lia.
Qed.

(** The fuel of [integer_sqrt_ceil] suffices: the least square root from above. *)
Lemma integer_sqrt_ceil_spec v :
  in_u u64_max v -> exists r, integer_sqrt_ceil v = Ok r /\ 0 <= r <= u32_max + 1 /\ v <= r * r /\ forall k, 0 <= k -> v <= k * k -> r <= k.
Proof.
  intros [H0 Hv]. unfold integer_sqrt_ceil. destruct (Z.leb_spec v 1) as [Hle|Hgt].
  - exists v. split; [done|]. assert (v = 0 \/ v = 1) as [-> | ->] by lia; (split_and!; [done|done|done|intros; nia]).
  - destruct (sqrt_loop_spec 33 v 1 (Z.min v (u32_max + 1))) as (r & -> & Hr & Hlow & Hhigh).
    + unfold u32_max. lia.
    + done.
    + unfold u32_max. change (2 ^ Z.of_nat 33) with 8589934592. lia.
    + by left.
    + unfold u32_max, u64_max in *. destruct (Z.min_spec v (4294967295 + 1)) as [[? ->]|[? ->]]; nia.
    + exists r. cbn [ok_or]. split_and!; [done|lia|lia|done|]. intros k Hk Hvk. destruct (Z.le_gt_cases r k) as [?|Hrk]; [done|exfalso].
      assert (k * k <= (r - 1) * (r - 1)) by (apply Z.mul_le_mono_nonneg; lia). destruct Hlow as [->|Hlow]; lia.
Qed.

(** ** Scenes *)

(** C31: In a valid document the groups around an element are a finite chain,
    and the bounded loops over it see all of it: an element is drawn exactly
    when it and every group around it are visible; its zone is the nearest one
    named on the chain; a zone repeats another exactly when it clones it in some
    number of steps. When at most 32 groups are around it, they are not rotated
    and coordinates are below about a kilometre, it is placed like the element
    that is moved by the sum of their origins. *)
Theorem groups_resolved {Json} base64_decode sha256 limits (doc : Document Json) e :
  validate_with_limits base64_decode sha256 doc limits = Ok tt -> e ∈ elements doc ->
  exists l, path doc (group_id (common e)) l /\
    effectively_visible e doc = forallb (fun g => visible (common g)) (e :: l) /\
    effective_zone e doc = head (omap (fun g => own_zone (common g)) (e :: l)) /\
    (forall candidate source, candidate ∈ map zone_id (zones (media doc)) ->
      zone_clones (zones (media doc)) candidate source = true <-> ancestor (zone_parent (zones (media doc))) candidate source) /\
    (forall dpi zone, (length l <= 32)%nat -> modest (element_transform (common e)) ->
      Forall (fun g => upright g /\ modest (element_transform (common g))) l ->
      placement_px (common e) dpi doc zone = placement_px (moved (common e) (origin_x l) (origin_y l)) dpi doc zone).
Proof.
  intros Hv He. apply validate_accepts in Hv as [_ _ _ _ _ _ Hzones Hids _ Helems Hgroups _].
  apply list.NoDup_app in Hids as (_ & _ & Hids).
  assert (Forall (fun x => parent_ok doc (common x)) (elements doc)) as Hparents.
  { eapply list.Forall_impl; [exact Helems|]. intros x Hx. apply Hx. }
  rewrite list.Forall_forall in Hgroups.
  destruct (path_exists doc Hids Hparents e He (Hgroups e He)) as (l & Hl & Hlen). exists l. split; [done|]. split_and!.
  - unfold effectively_visible. cbn [forallb]. destruct (visible (common e)); [|done]. cbn [negb andb].
    apply visible_loop_path; [done|lia].
  - apply zone_loop_path; [done|lia].
  - intros candidate source Hc. by apply zone_clones_spec.
  - intros dpi zone H32 Hm Hall. by apply placement_upright.
Qed.

Lemma groups_resolved_witness :
  let doc := example_document "a" None in
  exists e, e ∈ elements doc /\ group_id (common e) = Some (str "g") /\
  exists l, path doc (group_id (common e)) l /\ effectively_visible e doc = forallb (fun g => visible (common g)) (e :: l).
Proof.
  cbn zeta. eexists. split; [right; left|]. split; [reflexivity|].
  edestruct (groups_resolved (fun _ => Some [0]) (fun _ => replicate 32 0) ProcessingLimits_default (example_document "a" None))
    as (l & Hl & Hv & _); [vm_compute; reflexivity|right; left|]. by exists l.
Defined.
