(* ===== verification/Canvas.v ===== *)
(** Drawing on a gray canvas (crates/mb-printer-core/src/render.rs): lines,
    rectangles, ellipses, triangles, pasted images, rotated layers and the
    scaling of a finished raster.

    Coordinates are [i32] and wrap; a pixel outside the canvas is not drawn. *)

From stdpp Require Import base list strings numbers option.
From S2P Require Import Prelude MonoRaster Document Sheet RenderTypes Geometry.

#[local] Open Scope Z_scope.

Definition with_pixels (c : GrayRaster) (pixels : list Z) : GrayRaster :=
  {| g_width := g_width c; g_height := g_height c; g_pixels := pixels |}.

(** [GrayRaster::try_new(..).map_err(|_| RenderError::TooLarge)?]. *)
Definition new_canvas (width height max_pixels : Z) : Render GrayRaster :=
  raising (map_err (fun _ => RenderError.TooLarge) (gray_try_new width height 255 max_pixels)).

Definition set (x y v : Z) (c : GrayRaster) : Render GrayRaster :=
  if (0 <=? x) && (0 <=? y) && (x <? g_width c) && (y <? g_height c) then
    let? pixels := assign (g_pixels c) (idx32 (g_width c) x y) v in
    Ok (with_pixels c pixels)
  else Ok c.

(** [for y in ys { for x in xs { body } }]. *)
Definition for_grid {E S} (xs ys : list Z) (body : Z -> Z -> S -> Result E S) (s : S) : Result E S :=
  for_each (fun y s => for_each (fun x s => body x y s) xs s) ys s.

(** ** Lines *)

(** The square pen: [-(t / 2)..=(t / 2)] in both directions. *)
Definition pen (t : Z) : list Z := range (- Z.quot t 2) (Z.quot t 2 + 1).

Definition stamp (x0 y0 t : Z) (c : GrayRaster) : Render GrayRaster :=
  for_grid (pen t) (pen t) (fun xx yy c => set (as_i32 (x0 + xx)) (as_i32 (y0 + yy)) 0 c) c.

Fixpoint line_loop (fuel : nat) (x0 y0 x1 y1 dx dy sx sy err t : Z) (c : GrayRaster) : Render GrayRaster :=
  match fuel with
  | O => Err Panicked
  | S fuel =>
      let? c := stamp x0 y0 t c in
      if (x0 =? x1) && (y0 =? y1) then Ok c
      else
        let e := as_i32 (2 * err) in
        let '(err, x0) := if dy <=? e then (as_i32 (err + dy), as_i32 (x0 + sx)) else (err, x0) in
        let '(err, y0) := if e <=? dx then (as_i32 (err + dx), as_i32 (y0 + sy)) else (err, y0) in
        line_loop fuel x0 y0 x1 y1 dx dy sx sy err t c
  end.

Definition line (x0 y0 x1 y1 t : Z) (c : GrayRaster) : Render GrayRaster :=
  let dx := as_i32 (Z.abs (as_i32 (x1 - x0))) in
  let sx := if x0 <? x1 then 1 else -1 in
  let dy := as_i32 (- Z.abs (as_i32 (y1 - y0))) in
  let sy := if y0 <? y1 then 1 else -1 in
  line_loop (S (Z.to_nat (Z.max dx (- dy)))) x0 y0 x1 y1 dx dy sx sy (as_i32 (dx + dy)) t c.

(** ** Shapes *)

Definition rect (x y w h : Z) (fill : bool) (t : Z) (c : GrayRaster) : Render GrayRaster :=
  if fill then for_grid (range x (as_i32 (x + w))) (range y (as_i32 (y + h))) (fun xx yy c => set xx yy 0 c) c
  else
    for_each (fun i c =>
      let? c := line x (as_i32 (y + i)) (as_i32 (x + w - 1)) (as_i32 (y + i)) 1 c in
      let? c := line x (as_i32 (y + h - 1 - i)) (as_i32 (x + w - 1)) (as_i32 (y + h - 1 - i)) 1 c in
      let? c := line (as_i32 (x + i)) y (as_i32 (x + i)) (as_i32 (y + h - 1)) 1 c in
      line (as_i32 (x + w - 1 - i)) y (as_i32 (x + w - 1 - i)) (as_i32 (y + h - 1)) 1 c)
    (range 0 t) c.

Definition ellipse (x y w h : Z) (fill : bool) (t : Z) (c : GrayRaster) : Render GrayRaster :=
  let rx := w in
  let ry := h in
  let cx := 2 * x + w - 1 in
  let cy := 2 * y + h - 1 in
  let edge := as_i32 (Z.max t 1 * 4) in
  for_grid (range x (as_i32 (x + w))) (range y (as_i32 (y + h))) (fun xx yy c =>
    let dx := 2 * xx - cx in
    let dy := 2 * yy - cy in
    let lhs := as_i64 (dx * dx * ry * ry + dy * dy * rx * rx) in
    let rhs := as_i64 (rx * rx * ry * ry) in
    if (lhs <=? rhs) && (fill || (as_i64 (rhs - lhs) <=? as_i64 (edge * Z.max (as_i64 (rx * ry)) 1)))
    then set xx yy 0 c else Ok c) c.

Definition triangle (x y w h : Z) (fill : bool) (t : Z) (c : GrayRaster) : Render GrayRaster :=
  let '(ax, ay) := (as_i32 (x + Z.quot w 2), y) in
  let '(bx, by_) := (x, as_i32 (y + h - 1)) in
  let '(dx, dy) := (as_i32 (x + w - 1), as_i32 (y + h - 1)) in
  if fill then
    for_each (fun yy c =>
      let rel := as_i32 (yy - y) in
      let half := Z.quot (Z.quot (as_i32 (rel * w)) 2) (Z.max h 1) in
      for_each (fun xx c => set xx yy 0 c) (range (as_i32 (ax - half)) (as_i32 (ax + half) + 1)) c)
    (range y (as_i32 (y + h))) c
  else
    let? c := line ax ay bx by_ t c in
    let? c := line bx by_ dx dy t c in
    line dx dy ax ay t c.

(** ** Images *)

Definition crop_source (source : GrayRaster) (b : Bounds) (max_pixels : Z) : Render GrayRaster :=
  let x := as_u32 (Z.min (Z.max (b_x b) 0) (g_width source)) in
  let y := as_u32 (Z.min (Z.max (b_y b) 0) (g_height source)) in
  let w := as_u32 (Z.min (Z.max (b_width b) 1) (saturate u32_max (g_width source - x))) in
  let h := as_u32 (Z.min (Z.max (b_height b) 1) (saturate u32_max (g_height source - y))) in
  let? out := new_canvas w h max_pixels in
  let? pixels := for_each (fun yy pixels =>
    let from := as_u32 ((y + yy) * g_width source + x) in
    let to := as_u32 (yy * w) in
    match get_range (g_pixels source) from (from + w) with
    | Some slice => copy_slice pixels to slice
    | None => Err Panicked
    end) (range 0 h) (g_pixels out) in
  Ok (with_pixels out pixels).

Definition paste_scaled (source : GrayRaster) (x y w h : Z) (c : GrayRaster) : Render GrayRaster :=
  for_grid (range 0 w) (range 0 h) (fun xx yy c =>
    let sx := Z.min (xx * g_width source / w) (saturate u32_max (g_width source - 1)) in
    let sy := Z.min (yy * g_height source / h) (saturate u32_max (g_height source - 1)) in
    let? v := index (g_pixels source) (idx32 (g_width source) sx sy) in
    set (as_i32 (x + xx)) (as_i32 (y + yy)) v c) c.

(** [i64] division; a zero divisor panics. *)
Definition div_i64 (a b : Z) : Render Z := if b =? 0 then Err Panicked else Ok (Z.quot a b).

Definition paste_fit (source : GrayRaster) (x y w h : Z) (preserve : bool) (c : GrayRaster) : Render GrayRaster :=
  if negb preserve then paste_scaled source x y w h c
  else
    let sw := g_width source in
    let sh := g_height source in
    let scale_num := Z.min (w * sh) (h * sw) in
    let? out_w := div_i64 (as_i64 (sw * scale_num)) (as_i64 (sw * sh)) in
    let? out_h := div_i64 (as_i64 (sh * scale_num)) (as_i64 (sw * sh)) in
    let out_w := as_i32 (Z.max out_w 1) in
    let out_h := as_i32 (Z.max out_h 1) in
    paste_scaled source (as_i32 (x + Z.quot (as_i32 (w - out_w)) 2)) (as_i32 (y + Z.quot (as_i32 (h - out_h)) 2))
      out_w out_h c.

(** ** Rotated layers *)

(** [u64::try_from(w.pow(2) + h.pow(2)).unwrap_or(u64::MAX)] in [i64]. *)
Definition diagonal_squared (p : Placement) : Z := default u64_max (checked u64_max (as_i64 (pl_w p ^ 2 + pl_h p ^ 2))).

(** The pixel of the layer that turns onto the pixel [dx], [dy] of the canvas. *)
Definition rotated_point (p : Placement) (dx dy : Z) : Z * Z :=
  let '(cos, sin) := fixed_trig (pl_rotation p) in
  let cx2 := as_i32 (2 * pl_x p + pl_w p - 1) in
  let cy2 := as_i32 (2 * pl_y p + pl_h p - 1) in
  let vx2 := as_i32 (2 * dx) - cx2 in
  let vy2 := as_i32 (2 * dy) - cy2 in
  let sx2 := as_i64 (cx2 + round_ratio (cos * vx2 + sin * vy2) TRIG_SCALE) in
  let sy2 := as_i64 (cy2 + round_ratio (- sin * vx2 + cos * vy2) TRIG_SCALE) in
  (as_i32 (round_ratio sx2 2), as_i32 (round_ratio sy2 2)).

(** The body of the loop of [rotate_layer]. *)
Definition rotate_pixel (layer : GrayRaster) (p : Placement) (dx dy : Z) (c : GrayRaster) : Render GrayRaster :=
  let '(sx, sy) := rotated_point p dx dy in
  if (0 <=? sx) && (0 <=? sy) && (sx <? as_i32 (g_width layer)) && (sy <? as_i32 (g_height layer)) then
    let? source := index (g_pixels layer) (sy * g_width layer + sx) in
    if source <? 255 then
      let target := dy * g_width c + dx in
      let? old := index (g_pixels c) target in
      let? pixels := assign (g_pixels c) target (Z.min old source) in
      Ok (with_pixels c pixels)
    else Ok c
  else Ok c.

Definition rotate_layer (layer : GrayRaster) (p : Placement) (c : GrayRaster) : Render GrayRaster :=
  let? root := integer_sqrt_ceil (diagonal_squared p) in
  let radius := as_i32 (as_i32 (div_ceil root 2) + 2) in
  let min_x := Z.max (as_i32 (pl_x p + Z.quot (pl_w p) 2 - radius)) 0 in
  let max_x := Z.min (as_i32 (pl_x p + Z.quot (pl_w p) 2 + radius)) (as_i32 (as_i32 (g_width c) - 1)) in
  let min_y := Z.max (as_i32 (pl_y p + Z.quot (pl_h p) 2 - radius)) 0 in
  let max_y := Z.min (as_i32 (pl_y p + Z.quot (pl_h p) 2 + radius)) (as_i32 (as_i32 (g_height c) - 1)) in
  for_grid (range min_x (max_x + 1)) (range min_y (max_y + 1)) (rotate_pixel layer p) c.

(** ** Fitting a finished raster *)

(** The size of the scaled copy, before it is made at least one dot. *)
Definition scaled_size (image : MonoRaster) (width height : Z) : Z * Z :=
  if width * m_height image <=? height * m_width image
  then (width, as_u32 ((m_height image * width + m_width image / 2) / m_width image))
  else (as_u32 ((m_width image * height + m_height image / 2) / m_height image), height).

(** The loop that fills the scaled copy. *)
Definition scale_pixels (image scaled : MonoRaster) : Render (list Z) :=
  for_each (fun '(x, y) pixels =>
    let source_x := x * m_width image / m_width scaled in
    let source_y := y * m_height image / m_height scaled in
    let? v := index (m_pixels image) (as_u32 (as_u32 source_y * m_width image + as_u32 source_x)) in
    assign pixels (idx32 (m_width scaled) x y) v)
  (coords (m_width scaled) (m_height scaled)) (m_pixels scaled).

Definition fit_mono_to_box (image : MonoRaster) (width height : Z) : Render MonoRaster :=
  if (width =? 0) || (height =? 0) || (m_width image =? 0) || (m_height image =? 0) then fail RenderError.TooLarge
  else
    let size := scaled_size image width height in
    let? scaled := raising (map_err (fun _ => RenderError.TooLarge)
      (mono_try_new (Z.max (fst size) 1) (Z.max (snd size) 1) (width * height))) in
    let? scaled_pixels := scale_pixels image scaled in
    let? output := raising (map_err (fun _ => RenderError.TooLarge) (mono_try_new width height (width * height))) in
    let x0 := as_u32 (width - m_width scaled) / 2 in
    let y0 := as_u32 (height - m_height scaled) / 2 in
    let? pixels := for_each (fun y pixels =>
      let source := as_u32 (y * m_width scaled) in
      let destination := as_u32 (as_u32 (y0 + y) * width + x0) in
      match get_range scaled_pixels source (source + m_width scaled) with
      | Some slice => copy_slice pixels destination slice
      | None => Err Panicked
      end) (range 0 (m_height scaled)) (m_pixels output) in
    Ok {| m_width := width; m_height := height; m_pixels := pixels |}.
