(* ===== verification/CanvasFacts.v ===== *)
(** What the drawing operations of Canvas.v leave on a canvas: which pixels
    they change and to what, for coordinates that do not wrap. *)

From stdpp Require Import base list list_numbers sets numbers option.
From S2P Require Import Prelude MonoRaster MonoRasterFacts Document Sheet RenderTypes Geometry Canvas GeometryFacts.

#[local] Open Scope Z_scope.

(** ** Plots *)

(** The pixel at [x], [y]. *)
Definition pixel (c : GrayRaster) (x y : Z) : Z := px (g_pixels c) (y * g_width c + x).

Section Plots.
(** The size of the canvas, and what a drawn pixel becomes; drawing it twice changes nothing. *)
Context (W H : Z) (g : Z -> Z -> Z -> Z).

Definition on_canvas (x y : Z) : Prop := 0 <= x < W /\ 0 <= y < H.

(** [f] draws the pixels of [P] and leaves the others; it does not fail. *)
Definition plots (P : Z -> Z -> Prop) (f : GrayRaster -> Render GrayRaster) : Prop :=
  forall c, gray_wf c -> g_width c = W -> g_height c = H ->
  exists c', f c = Ok c' /\ gray_wf c' /\ g_width c' = W /\ g_height c' = H /\
    forall x y, on_canvas x y ->
      (P x y -> pixel c' x y = g x y (pixel c x y)) /\ (pixel c' x y = pixel c x y \/ P x y).

Lemma plots_ext P Q f : plots P f -> (forall x y, on_canvas x y -> P x y <-> Q x y) -> plots Q f.
Proof.
  intros Hf HPQ c Hc Hw Hh. destruct (Hf c Hc Hw Hh) as (c' & E & Hc' & Hw' & Hh' & Hp). exists c'. split_and!; [done..|].
  intros x y Hxy. destruct (Hp x y Hxy) as [H1 H2]. split; [intros Hq; by apply H1, HPQ|].
  destruct H2; [by left|right; by apply HPQ].
Qed.

(** The size of the canvas may be used. *)
Lemma plots_sized P f h : (forall c, g_width c = W -> g_height c = H -> f c = h c) -> plots P h -> plots P f.
Proof. intros Hfh Hh c Hc Ew Eh. rewrite Hfh by done. by apply Hh. Qed.

Lemma plots_none f : (forall c, f c = Ok c) -> plots (fun _ _ => False) f.
Proof. intros Hf c Hc Hw Hh. exists c. rewrite Hf. split_and!; [done..|]. intros x y _. split; [done|by left]. Qed.

Lemma plots_if (b : bool) P f : (b = true -> plots P f) -> plots (fun x y => b = true /\ P x y) (fun c => if b then f c else Ok c).
Proof.
  intros Hf. destruct b.
  - eapply plots_ext; [by apply Hf|]. intros; naive_solver.
  - eapply plots_ext; [by apply plots_none|]. intros; naive_solver.
Qed.

(** Drawing a pixel of the canvas. *)
Lemma plots_write x0 y0 f :
  (forall c, gray_wf c -> g_width c = W -> g_height c = H -> on_canvas x0 y0 ->
    0 <= g x0 y0 (pixel c x0 y0) < 256 /\
    f c = Ok (with_pixels c (<[Z.to_nat (y0 * W + x0) := g x0 y0 (pixel c x0 y0)]> (g_pixels c)))) ->
  (forall c, ~ on_canvas x0 y0 -> g_width c = W -> g_height c = H -> f c = Ok c) ->
  plots (fun x y => x = x0 /\ y = y0) f.
Proof.
  intros Hin Hout c Hc Hw Hh. destruct (decide (0 <= x0 < W)) as [Hx|Hx]; [destruct (decide (0 <= y0 < H)) as [Hy|Hy]|].
  2,3: exists c; rewrite Hout by (done || (unfold on_canvas; tauto)); split_and!; try done;
    intros x y [Hx' Hy']; (split; [intros [-> ->]; tauto|by left]).
  destruct (Hin c Hc Hw Hh (conj Hx Hy)) as [Hb ->]. eexists. split; [done|].
  destruct Hc as (Hwp & Hhp & Hs & Hl & Hbytes). pose proof (pix_range W H x0 y0 Hx Hy) as Hr.
  split_and!; [|done|done|].
  - unfold gray_wf, with_pixels. cbn [g_width g_height g_pixels]. rewrite zlen_insert. split_and!; try done.
    by apply Forall_insert.
  - intros x y [Hx' Hy']. unfold pixel, with_pixels. cbn [g_width g_pixels]. rewrite Hw. unfold px. pose proof (pix_range W H x y Hx' Hy') as Hr'.
    split.
    + intros [-> ->]. rewrite list_lookup_insert_eq; [done|]. unfold zlen in Hl. rewrite Hw, Hh in Hl. lia.
    + destruct (decide (x = x0 /\ y = y0)) as [?|Hne]; [by right|left]. rewrite list_lookup_insert_ne; [done|].
      intros E. apply Hne. apply (pix_inj W); [done|done|lia].
Qed.

Hypothesis idempotent : forall x y v, g x y (g x y v) = g x y v.

Lemma plots_seq P Q f h : plots P f -> plots Q h -> plots (fun x y => P x y \/ Q x y) (fun c => let? c := f c in h c).
Proof.
  intros Hf Hg c Hc Hw Hh. destruct (Hf c Hc Hw Hh) as (c' & -> & Hc' & Hw' & Hh' & Hp). cbn [rbind].
  destruct (Hg c' Hc' Hw' Hh') as (c'' & -> & Hc'' & Hw'' & Hh'' & Hq). exists c''. split_and!; [done..|].
  intros x y Hxy. destruct (Hp x y Hxy) as [P1 P2], (Hq x y Hxy) as [Q1 Q2]. split.
  - intros [HP|HQ].
    + destruct Q2 as [Q2|HQ]; [by rewrite Q2, P1|by rewrite Q1, P1, idempotent].
    + rewrite Q1 by done. destruct P2 as [P2|HP]; [by rewrite P2|by rewrite P1, idempotent].
  - destruct Q2 as [Q2|?]; [rewrite Q2|]; tauto.
Qed.

Lemma plots_for_each {A} (P : A -> Z -> Z -> Prop) (f : A -> GrayRaster -> Render GrayRaster) l :
  (forall a, a ∈ l -> plots (P a) (f a)) -> plots (fun x y => exists a, a ∈ l /\ P a x y) (for_each f l).
Proof.
  induction l as [|a l IH]; intros Hl.
  - eapply plots_ext; [by apply plots_none|]. intros x y _. split; [done|]. by intros (a & Ha%elem_of_nil & _).
  - eapply plots_ext.
    + apply (plots_seq (P a) (fun x y => exists b, b ∈ l /\ P b x y) (f a) (for_each f l)); [apply Hl; left|apply IH; intros b Hb; apply Hl; by right].
    + intros x y _. cbn beta. setoid_rewrite elem_of_cons. naive_solver.
Qed.

Lemma plots_for_grid (P : Z -> Z -> Z -> Z -> Prop) (f : Z -> Z -> GrayRaster -> Render GrayRaster) xs ys :
  (forall a b, a ∈ xs -> b ∈ ys -> plots (P a b) (f a b)) ->
  plots (fun x y => exists a b, a ∈ xs /\ b ∈ ys /\ P a b x y) (for_grid xs ys f).
Proof.
  intros Hf. eapply plots_ext.
  - apply (plots_for_each (fun b x y => exists a, a ∈ xs /\ P a b x y)). intros b Hb. apply plots_for_each. intros a Ha. by apply Hf.
  - intros x y _. cbn beta. naive_solver.
Qed.

End Plots.

(** ** Black shapes *)

(** Drawing black. *)
Definition black (_ _ _ : Z) : Z := 0.

Lemma black_idempotent x y v : black x y (black x y v) = black x y v.
Proof. done. Qed.

#[export] Hint Resolve black_idempotent : rust.

Section Shapes.
Context (W H : Z).
#[local] Abbreviation paints := (plots W H black).

Lemma plots_set (g : Z -> Z -> Z -> Z) v x y :
  0 <= v < 256 -> (forall old, g x y old = v) -> plots W H g (fun px py => px = x /\ py = y) (set x y v).
Proof.
  intros Hv Hg. apply plots_write.
  - intros c Hc Hw Hh [Hx Hy]. rewrite Hg. split; [done|]. unfold set. rewrite Hw, Hh.
    destruct (Z.leb_spec 0 x), (Z.leb_spec 0 y), (Z.ltb_spec x W), (Z.ltb_spec y H); try lia. cbn [andb].
    destruct Hc as (Hwp & Hhp & Hs & Hl & Hb). rewrite Hw, Hh in *.
    rewrite (idx32_small W H) by done. rewrite assign_in_range; [done|]. rewrite Hl. by apply pix_range.
  - intros c Hn Hw Hh. unfold set. rewrite Hw, Hh.
    destruct (Z.leb_spec 0 x), (Z.leb_spec 0 y), (Z.ltb_spec x W), (Z.ltb_spec y H); try done. exfalso. apply Hn. split; lia.
Qed.

Lemma paints_seq P Q f h : paints P f -> paints Q h -> paints (fun x y => P x y \/ Q x y) (fun c => let? c := f c in h c).
Proof. apply plots_seq. done. Qed.

Lemma paints_set x y : paints (fun px py => px = x /\ py = y) (set x y 0).
Proof. by apply plots_set. Qed.

(** Coordinates that leave room for the sums of the drawing operations. *)
Definition small (z : Z) : Prop := Z.abs z <= 2 ^ 28.

Lemma small_i32 z : Z.abs z < 2 ^ 31 -> as_i32 z = z.
Proof. intros. apply as_i32_id. unfold i32_min, i32_max. lia. Qed.

Ltac unwrap32 := rewrite ?small_i32 by (unfold small in *; lia).

Lemma quot2 t : 0 <= t -> Z.quot t 2 = t / 2.
Proof. intros. by apply Z.quot_div_nonneg. Qed.

(** The square of the pen. *)
Definition near (t x y px py : Z) : Prop := Z.abs (px - x) <= t / 2 /\ Z.abs (py - y) <= t / 2.

Lemma paints_stamp x y t : small x -> small y -> 0 <= t <= 2 ^ 28 -> paints (near t x y) (stamp x y t).
Proof.
  intros Hx Hy Ht. unfold stamp, pen. rewrite quot2 by lia.
  assert (0 <= t / 2 <= 2 ^ 28) as Hh. { split; [apply Z.div_pos; lia|apply Z.div_le_upper_bound; lia]. }
  eapply plots_ext.
  - apply (plots_for_grid _ _ _ black_idempotent (fun a b px py => px = x + a /\ py = y + b)). intros a b Ha%elem_of_range Hb%elem_of_range.
    unwrap32. apply paints_set.
  - intros px py _. cbn beta. setoid_rewrite elem_of_range. unfold near. split.
    + intros (a & b & Ha & Hb & -> & ->). lia.
    + intros [Hpx Hpy]. exists (px - x), (py - y). lia.
Qed.

(** ** Lines *)

(** [k * a / n] to the nearest dot, halves up. *)
Definition nearest (k a n : Z) : Z := (2 * k * a + n) / (2 * n).

Lemma nearest_spec k a n : 0 < n -> 2 * n * nearest k a n <= 2 * k * a + n < 2 * n * (nearest k a n + 1).
Proof.
  intros Hn. unfold nearest. pose proof (Z.div_mod (2 * k * a + n) (2 * n)). pose proof (Z.mod_pos_bound (2 * k * a + n) (2 * n)). lia.
Qed.

Lemma nearest_unique k a n j : 0 < n -> 2 * n * j <= 2 * k * a + n < 2 * n * (j + 1) -> nearest k a n = j.
Proof. intros Hn Hj. pose proof (nearest_spec k a n Hn). nia. Qed.

Lemma nearest_main k n : 0 < n -> nearest k n n = k.
Proof. intros Hn. apply nearest_unique; nia. Qed.

(** One turn of the loop of [line] moves to the next dot. *)
Lemma line_turn k a b n :
  0 <= a -> 0 <= b -> n = Z.max a b -> 0 < n ->
  let i := nearest k a n in
  let j := nearest k b n in
  let err := (j + 1) * a - (i + 1) * b in
  nearest (k + 1) a n = (if - b <=? 2 * err then i + 1 else i) /\
  nearest (k + 1) b n = (if 2 * err <=? a then j + 1 else j).
Proof.
  intros Ha Hb Hn Hpos i j err.
  destruct (Z.max_spec a b) as [[Hab Hmax]|[Hab Hmax]]; rewrite Hmax in Hn; subst n.
  - (* steep *)
    pose proof (nearest_spec k a b Hpos) as Hi. fold i in Hi. assert (j = k) as Hj by by apply nearest_main.
    assert (2 * err <= a) as Hy by (subst err; nia). rewrite (proj2 (Z.leb_le _ _) Hy), nearest_main, Hj by done. split; [|done].
    destruct (Z.leb_spec (- b) (2 * err)); apply nearest_unique; subst err; rewrite Hj in *; nia.
  - pose proof (nearest_spec k b a Hpos) as Hj. fold j in Hj. assert (i = k) as Hi by by apply nearest_main.
    assert (- b <= 2 * err) as Hx by (subst err; nia). rewrite (proj2 (Z.leb_le _ _) Hx), nearest_main, Hi by done. split; [done|].
    destruct (Z.leb_spec (2 * err) a); apply nearest_unique; subst err; rewrite Hi in *; nia.
Qed.

Lemma nearest_bounds k a n : 0 < n -> 0 <= a <= n -> 0 <= k <= n -> 0 <= nearest k a n <= a.
Proof. intros Hn Ha Hk. pose proof (nearest_spec k a n Hn). split; nia. Qed.

Lemma nearest_end a n : 0 <= a <= n -> nearest n a n = a.
Proof.
  intros Ha. destruct (decide (n = 0)) as [->|Hn]; [by replace a with 0 by lia|]. apply nearest_unique; nia.
Qed.

Lemma nearest_zero a n : 0 <= n -> nearest 0 a n = 0.
Proof. intros Hn. destruct (decide (n = 0)) as [->|?]; [done|]. apply nearest_unique; nia. Qed.

(** A direction. *)
Definition unit_step (s : Z) : Prop := s = 1 \/ s = -1.

(** A conditional move of an error term and a coordinate. *)
Lemma move_unwrapped (test : bool) e d z s :
  Z.abs e < 2 ^ 30 + 2 ^ 29 -> Z.abs d <= 2 ^ 29 -> small z -> unit_step s ->
  (if test then (as_i32 (e + d), as_i32 (z + s)) else (e, z)) = (if test then e + d else e, if test then z + s else z).
Proof. intros He Hd Hz Hs. destruct test; [|done]. unfold small in Hz. by rewrite !small_i32 by (destruct Hs as [-> | ->]; lia). Qed.

Lemma line_loop_turn fuel x y x1 y1 dx dy sx sy err t :
  line_loop (S fuel) x y x1 y1 dx dy sx sy err t = fun c =>
    let? c := stamp x y t c in
    if (x =? x1) && (y =? y1) then Ok c
    else
      let e := as_i32 (2 * err) in
      let '(err, x) := if dy <=? e then (as_i32 (err + dy), as_i32 (x + sx)) else (err, x) in
      let '(err, y) := if e <=? dx then (as_i32 (err + dx), as_i32 (y + sy)) else (err, y) in
      line_loop fuel x y x1 y1 dx dy sx sy err t c.
Proof. reflexivity. Qed.

Section Line.
Context (x0 y0 sx sy a b t : Z).
Let n := Z.max a b.
Hypotheses (Hsx : unit_step sx) (Hsy : unit_step sy) (Ha : 0 <= a) (Hb : 0 <= b).
Hypotheses (Hx0 : small x0) (Hy0 : small y0) (Hx1 : small (x0 + sx * a)) (Hy1 : small (y0 + sy * b)) (Ht : 0 <= t <= 2 ^ 28).

(** The dot at [k] steps from the start. *)
Definition dot_x (k : Z) : Z := x0 + sx * nearest k a n.
Definition dot_y (k : Z) : Z := y0 + sy * nearest k b n.

Lemma dots_small k : 0 <= k <= n -> small (dot_x k) /\ small (dot_y k).
Proof.
  intros Hk. unfold dot_x, dot_y. destruct (decide (n = 0)) as [Hz|Hn].
  - replace k with 0 by lia. rewrite !nearest_zero by lia. by rewrite !Z.mul_0_r, !Z.add_0_r.
  - pose proof (nearest_bounds k a n ltac:(lia) ltac:(lia) Hk). pose proof (nearest_bounds k b n ltac:(lia) ltac:(lia) Hk).
    unfold small in *. destruct Hsx as [-> | ->], Hsy as [-> | ->]; lia.
Qed.

Lemma dots_end k : 0 <= k <= n -> (dot_x k =? x0 + sx * a) && (dot_y k =? y0 + sy * b) = (k =? n).
Proof.
  intros Hk. unfold dot_x, dot_y. destruct (Z.eqb_spec k n) as [->|Hne].
  - rewrite !nearest_end by lia. by rewrite !Z.eqb_refl.
  - apply andb_false_iff. rewrite !Z.eqb_neq. assert (a = n \/ b = n) as [E|E] by lia; rewrite E, nearest_main by lia; [left|right];
      [destruct Hsx as [-> | ->]|destruct Hsy as [-> | ->]]; lia.
Qed.

Lemma plots_line_loop m k :
  0 <= k -> k + Z.of_nat m = n ->
  paints (fun px py => exists k', k <= k' <= n /\ near t (dot_x k') (dot_y k') px py)
    (line_loop (S m) (dot_x k) (dot_y k) (x0 + sx * a) (y0 + sy * b) a (- b) sx sy
       ((nearest k b n + 1) * a - (nearest k a n + 1) * b) t).
Proof.
  revert k. induction m as [|m IH]; intros k Hk Hkn; (destruct (dots_small k) as [Sx Sy]; [lia|]);
    set (i := nearest k a n); set (j := nearest k b n); rewrite line_loop_turn, dots_end by lia.
  - rewrite (proj2 (Z.eqb_eq k n)) by lia. eapply plots_ext.
    + apply (paints_seq (near t (dot_x k) (dot_y k)) (fun _ _ => False)); [by apply paints_stamp|by apply plots_none].
    + intros px py _. cbn beta. split; [intros [?|[]]; exists k; split; [lia|done]|]. intros (k' & Hk' & ?). left. by replace k with k' by lia.
  - rewrite (proj2 (Z.eqb_neq k n)) by lia. cbn zeta.
    destruct (line_turn k a b n Ha Hb eq_refl ltac:(lia)) as [Ti Tj]. fold i j in Ti, Tj.
    set (err := (j + 1) * a - (i + 1) * b) in *.
    pose proof (nearest_spec k a n ltac:(lia)) as Hi. pose proof (nearest_spec k b n ltac:(lia)) as Hj. fold i in Hi. fold j in Hj.
    assert (Z.abs err < 2 ^ 30) as Herr.
    { clear -Hsx Hsy Ha Hb Hx0 Hy0 Hx1 Hy1 Hi Hj Hk Hkn. unfold small in *. assert (n <= 2 ^ 29) as Hn29 by (destruct Hsx as [-> | ->], Hsy as [-> | ->]; lia).
      assert (2 * Z.abs (j * a - i * b) <= n) as Hd; [|lia].
      destruct (Z.max_spec a b) as [[Hab Hmax]|[Hab Hmax]]; fold n in Hmax; rewrite Hmax in *.
      - assert (j = k) as -> by nia. nia.
      - assert (i = k) as -> by nia. nia. }
    eapply plots_ext.
    + apply (paints_seq (near t (dot_x k) (dot_y k))); [by apply paints_stamp|].
      specialize (IH (k + 1) ltac:(lia) ltac:(lia)). destruct (dots_small (k + 1)) as [Sx' Sy']; [lia|].
      assert (n <= 2 ^ 29) as Hn29 by (clear -Hsx Hsy Ha Hb Hx0 Hy0 Hx1 Hy1; unfold small in *; destruct Hsx as [-> | ->], Hsy as [-> | ->]; lia).
      unfold dot_x, dot_y in IH, Sx', Sy', Sx, Sy |- *. rewrite Ti in IH, Sx'. rewrite Tj in IH, Sy'. fold i j.
      rewrite (small_i32 (2 * err)) by lia.
      rewrite move_unwrapped by (fold i in Sx; (done || lia)). cbn beta iota.
      rewrite move_unwrapped by (fold j in Sy; (done || (destruct (_ <=? _); lia))). cbn beta iota.
      match goal with |- context [line_loop _ ?X ?Y _ _ _ _ _ _ ?E] =>
        replace X with (x0 + sx * (if - b <=? 2 * err then i + 1 else i)) by (destruct (_ <=? _); lia);
        replace Y with (y0 + sy * (if 2 * err <=? a then j + 1 else j)) by (clear; destruct (2 * err <=? a); ring);
        replace E with (((if 2 * err <=? a then j + 1 else j) + 1) * a - ((if - b <=? 2 * err then i + 1 else i) + 1) * b)
          by (destruct (- b <=? 2 * err), (2 * err <=? a); unfold err; ring)
      end.
      exact IH.
    + intros px py _. cbn beta. split.
      * intros [Hp|(k' & Hk' & Hp)]; [exists k|exists k']; (split; [lia|done]).
      * intros (k' & Hk' & Hp). destruct (decide (k' = k)) as [->|?]; [by left|right]. exists k'. split; [lia|done].
Qed.
End Line.

Definition direction (z0 z1 : Z) : Z := if z0 <? z1 then 1 else -1.

Lemma direction_unit z0 z1 : unit_step (direction z0 z1).
Proof. unfold direction. destruct (z0 <? z1); [by left|by right]. Qed.

Lemma direction_end z0 z1 : z0 + direction z0 z1 * Z.abs (z1 - z0) = z1.
Proof. unfold direction. destruct (Z.ltb_spec z0 z1); lia. Qed.

(** The dots of a line: as many as the longer of the two distances, and one;
    each is the nearest one to its point of the segment. *)
Definition line_dot (x0 y0 x1 y1 k : Z) : Z * Z :=
  let a := Z.abs (x1 - x0) in
  let b := Z.abs (y1 - y0) in
  (x0 + direction x0 x1 * nearest k a (Z.max a b), y0 + direction y0 y1 * nearest k b (Z.max a b)).

Definition on_line (x0 y0 x1 y1 t px py : Z) : Prop :=
  exists k, 0 <= k <= Z.max (Z.abs (x1 - x0)) (Z.abs (y1 - y0)) /\
    near t (line_dot x0 y0 x1 y1 k).1 (line_dot x0 y0 x1 y1 k).2 px py.

Lemma paints_line x0 y0 x1 y1 t :
  small x0 -> small y0 -> small x1 -> small y1 -> 0 <= t <= 2 ^ 28 ->
  paints (on_line x0 y0 x1 y1 t) (line x0 y0 x1 y1 t).
Proof.
  intros Hx0 Hy0 Hx1 Hy1 Ht.
  pose proof (plots_line_loop x0 y0 (direction x0 x1) (direction y0 y1) (Z.abs (x1 - x0)) (Z.abs (y1 - y0)) t
    (direction_unit _ _) (direction_unit _ _) ltac:(lia) ltac:(lia) Hx0 Hy0) as Hloop.
  rewrite !direction_end in Hloop.
  specialize (Hloop Hx1 Hy1 Ht (Z.to_nat (Z.max (Z.abs (x1 - x0)) (Z.abs (y1 - y0)))) 0 ltac:(lia) ltac:(lia)).
  unfold dot_x at 2 in Hloop. unfold dot_y at 2 in Hloop. rewrite !nearest_zero, !Z.mul_0_r, !Z.add_0_r, !Z.mul_1_l in Hloop by lia.
  unfold line. unfold small in *. rewrite !(small_i32 (x1 - x0)), !(small_i32 (y1 - y0)) by lia.
  rewrite (small_i32 (Z.abs (x1 - x0))), (small_i32 (- Z.abs (y1 - y0))) by lia.
  rewrite small_i32, Z.opp_involutive by lia. exact Hloop.
Qed.

Lemma on_hline x0 x1 y px py : x0 <= x1 -> on_line x0 y x1 y 1 px py <-> py = y /\ x0 <= px <= x1.
Proof.
  intros Hx. unfold on_line, line_dot, near. rewrite Z.sub_diag, Z.max_l by lia. change (1 / 2) with 0. change (Z.abs 0) with 0. cbn [fst snd].
  assert (forall k, 0 <= k <= Z.abs (x1 - x0) ->
    direction x0 x1 * nearest k (Z.abs (x1 - x0)) (Z.abs (x1 - x0)) = k /\ nearest k 0 (Z.abs (x1 - x0)) = 0) as Hk.
  { intros k Hk. destruct (decide (x0 = x1)) as [->|Hne].
    - assert (k = 0) as -> by lia. rewrite Z.sub_diag, !nearest_zero by lia. split; [apply Z.mul_0_r|done].
    - rewrite nearest_main by lia. unfold direction. destruct (Z.ltb_spec x0 x1); [|lia]. split; [lia|apply nearest_unique; nia]. }
  split.
  - intros (k & Hb & Hpx & Hpy). destruct (Hk k Hb) as [E1 E2]. rewrite E1 in Hpx. rewrite E2 in Hpy. lia.
  - intros [-> Hpx]. exists (px - x0). assert (0 <= px - x0 <= Z.abs (x1 - x0)) as Hb by lia. destruct (Hk _ Hb) as [-> ->]. lia.
Qed.

Lemma on_vline x y0 y1 px py : y0 <= y1 -> on_line x y0 x y1 1 px py <-> px = x /\ y0 <= py <= y1.
Proof.
  intros Hy. pose proof (on_hline y0 y1 x py px Hy) as Hh. rewrite <- Hh. unfold on_line, line_dot, near.
  rewrite (Z.max_comm (Z.abs (x - x))). cbn [fst snd]. naive_solver.
Qed.

(** ** Boxes *)

Definition in_box (x y w h px py : Z) : Prop := x <= px < x + w /\ y <= py < y + h.

(** A box whose coordinates do not wrap. *)
Definition box_ok (x y w h : Z) : Prop :=
  Z.abs x <= 2 ^ 26 /\ Z.abs y <= 2 ^ 26 /\ 1 <= w <= 2 ^ 26 /\ 1 <= h <= 2 ^ 26.

Lemma paints_filled_rect x y w h t : box_ok x y w h -> paints (in_box x y w h) (rect x y w h true t).
Proof.
  intros (Hx & Hy & Hw & Hh). unfold rect. rewrite !small_i32 by lia. eapply plots_ext.
  - apply (plots_for_grid _ _ _ black_idempotent (fun a b px py => px = a /\ py = b)). intros a b _ _. apply paints_set.
  - intros px py _. cbn beta. setoid_rewrite elem_of_range. unfold in_box. naive_solver.
Qed.

(** The strokes along the four sides, [t] dots thick. *)
Definition on_outline (x y w h t px py : Z) : Prop :=
  (x <= px < x + w /\ (0 <= py - y < t \/ 0 <= y + h - 1 - py < t)) \/
  (y <= py < y + h /\ (0 <= px - x < t \/ 0 <= x + w - 1 - px < t)).

Lemma paints_outline x y w h t : box_ok x y w h -> 0 <= t <= 2 ^ 26 -> paints (on_outline x y w h t) (rect x y w h false t).
Proof.
  intros (Hx & Hy & Hw & Hh) Ht. unfold rect. eapply plots_ext.
  - apply (plots_for_each _ _ _ black_idempotent (fun i px py =>
      on_line x (y + i) (x + w - 1) (y + i) 1 px py \/ on_line x (y + h - 1 - i) (x + w - 1) (y + h - 1 - i) 1 px py \/
      on_line (x + i) y (x + i) (y + h - 1) 1 px py \/ on_line (x + w - 1 - i) y (x + w - 1 - i) (y + h - 1) 1 px py)).
    intros i Hi%elem_of_range. rewrite !small_i32 by lia.
    repeat (apply paints_seq; [apply paints_line; unfold small; lia|]). apply paints_line; unfold small; lia.
  - intros px py _. cbn beta. setoid_rewrite elem_of_range. unfold on_outline. split.
    + intros (i & Hi & [Hp|[Hp|[Hp|Hp]]]); apply on_hline in Hp || apply on_vline in Hp; lia.
    + intros [[Hpx [Hp|Hp]]|[Hpy [Hp|Hp]]];
        [exists (py - y)|exists (y + h - 1 - py)|exists (px - x)|exists (x + w - 1 - px)]; (split; [lia|]);
        [left|right; left|right; right; left|right; right; right]; (apply on_hline || apply on_vline); lia.
Qed.

(** The doubled offset from the centre of a box. *)
Definition offset (z len p : Z) : Z := 2 * p - (2 * z + len - 1).

(** Inside the ellipse that the box encloses, or near its edge when it is not filled. *)
Definition in_ellipse (x y w h : Z) (fill : bool) (t px py : Z) : Prop :=
  let d := offset x w px * offset x w px * (h * h) + offset y h py * offset y h py * (w * w) in
  in_box x y w h px py /\ d <= w * w * (h * h) /\ (fill = true \/ w * w * (h * h) - d <= 4 * Z.max t 1 * (w * h)).

(** The test of [ellipse] at a pixel of the box. *)
Lemma ellipse_test x y w h fill t a b :
  box_ok x y w h -> w * h <= 2 ^ 29 -> 0 <= t <= 2 ^ 26 -> in_box x y w h a b ->
  let dx := 2 * a - (2 * x + w - 1) in
  let dy := 2 * b - (2 * y + h - 1) in
  let lhs := as_i64 (dx * dx * h * h + dy * dy * w * w) in
  let rhs := as_i64 (w * w * h * h) in
  (lhs <=? rhs) && (fill || (as_i64 (rhs - lhs) <=? as_i64 (as_i32 (Z.max t 1 * 4) * Z.max (as_i64 (w * h)) 1))) = true <->
  in_ellipse x y w h fill t a b.
Proof.
  intros (Hx & Hy & Hw & Hh) Hwh Ht Hbox dx dy lhs rhs. pose proof Hbox as [Ha Hb].
  assert (forall d len, - len < d < len -> 0 <= d * d <= len * len) as Hsquare by (intros; nia).
  pose proof (Hsquare dx w ltac:(unfold dx; lia)) as Hdx. pose proof (Hsquare dy h ltac:(unfold dy; lia)) as Hdy.
  assert (forall p q r, 0 <= p <= q -> 0 <= r -> 0 <= p * r <= q * r) as Hmono by (intros; nia).
  assert (1 <= w * h) as Hpos by nia.
  assert (1 <= (w * w) * (h * h) <= 2 ^ 58) as Hwwhh.
  { replace ((w * w) * (h * h)) with ((w * h) * (w * h)) by ring. clear -Hpos Hwh. nia. }
  pose proof (Hmono _ _ (h * h) Hdx ltac:(lia)) as Hl1. pose proof (Hmono _ _ (w * w) Hdy ltac:(lia)) as Hl2.
  assert (h * h * (w * w) = w * w * (h * h)) as Ecomm by ring. rewrite Ecomm in Hl2.
  assert (0 <= Z.max t 1 * 4 * (w * h) <= 2 ^ 28 * 2 ^ 29) as Hedge by (split; [apply Z.mul_nonneg_nonneg; lia|apply Z.mul_le_mono_nonneg; lia]).
  assert (lhs = dx * dx * (h * h) + dy * dy * (w * w)) as El by (unfold lhs; rewrite as_i64_id; [ring|unfold i64_min, i64_max; lia]).
  assert (rhs = w * w * (h * h)) as Er by (unfold rhs; rewrite as_i64_id; [ring|unfold i64_min, i64_max; lia]).
  clearbody lhs rhs. rewrite (as_i64_id (w * h)), small_i32, (Z.max_l (w * h)) by (unfold i64_min, i64_max; lia).
  rewrite !as_i64_id by (unfold i64_min, i64_max; lia). rewrite andb_true_iff, orb_true_iff, !Z.leb_le. unfold in_ellipse, offset.
  fold dx dy. rewrite El, Er. replace (4 * Z.max t 1) with (Z.max t 1 * 4) by lia. tauto.
Qed.

Lemma paints_ellipse x y w h fill t :
  box_ok x y w h -> w * h <= 2 ^ 29 -> 0 <= t <= 2 ^ 26 -> paints (in_ellipse x y w h fill t) (ellipse x y w h fill t).
Proof.
  intros Hbox Hwh Ht. pose proof Hbox as (Hx & Hy & Hw & Hh). unfold ellipse. rewrite (small_i32 (x + w)), (small_i32 (y + h)) by lia.
  eapply plots_ext.
  - apply (plots_for_grid _ _ _ black_idempotent (fun a b px py => in_ellipse x y w h fill t a b /\ (px = a /\ py = b))).
    intros a b Ha%elem_of_range Hb%elem_of_range. eapply plots_ext; [apply plots_if; intros _; apply paints_set|].
    intros px py _. cbn beta. by rewrite (ellipse_test x y w h fill t a b).
  - intros px py _. cbn beta. split.
    + intros (a & b & _ & _ & He & -> & ->). done.
    + intros He. exists px, py. pose proof He as ([? ?] & _). rewrite !elem_of_range. done.
Qed.

(** The row [py] of a filled triangle: half its width at that height on both sides of the apex. *)
Definition in_triangle (x y w h px py : Z) : Prop :=
  y <= py < y + h /\ Z.abs (px - (x + w / 2)) <= (py - y) * w / 2 / h.

Lemma paints_filled_triangle x y w h t :
  box_ok x y w h -> w * h <= 2 ^ 30 -> paints (in_triangle x y w h) (triangle x y w h true t).
Proof.
  intros (Hx & Hy & Hw & Hh) Hwh. unfold triangle. rewrite quot2 by lia.
  assert (0 <= w / 2 <= w) as Hw2. { split; [apply Z.div_pos; lia|apply Z.div_le_upper_bound; lia]. }
  rewrite !(small_i32 (x + w / 2)), (small_i32 (y + h)) by lia. eapply plots_ext.
  - apply (plots_for_each _ _ _ black_idempotent (fun b px py => exists a, a ∈ range (x + w / 2 - (b - y) * w / 2 / h)
      (x + w / 2 + (b - y) * w / 2 / h + 1) /\ (px = a /\ py = b))).
    intros b Hb%elem_of_range. assert (0 <= (b - y) * w <= w * h) as Hrel by nia.
    rewrite (small_i32 (b - y)), (small_i32 ((b - y) * w)) by lia. rewrite quot2, Z.max_l by lia.
    assert (0 <= (b - y) * w / 2 <= w * h) as Hhalf. { split; [apply Z.div_pos; lia|apply Z.div_le_upper_bound; lia]. }
    rewrite Z.quot_div_nonneg by lia.
    assert (0 <= (b - y) * w / 2 / h <= w) as Hq. { split; [apply Z.div_pos; lia|apply Z.div_le_upper_bound; nia]. }
    rewrite !small_i32 by lia. apply plots_for_each; [done|]. intros a _. apply paints_set.
  - intros px py _. cbn beta. unfold in_triangle. setoid_rewrite elem_of_range. split.
    + intros (b & Hb & a & Ha & -> & ->). lia.
    + intros [Hpy Hpx]. exists py. split; [done|]. exists px. lia.
Qed.

(** The three sides. *)
Definition on_triangle (x y w h t px py : Z) : Prop :=
  on_line (x + w / 2) y x (y + h - 1) t px py \/ on_line x (y + h - 1) (x + w - 1) (y + h - 1) t px py \/
  on_line (x + w - 1) (y + h - 1) (x + w / 2) y t px py.

Lemma paints_triangle x y w h t :
  box_ok x y w h -> 0 <= t <= 2 ^ 26 -> paints (on_triangle x y w h t) (triangle x y w h false t).
Proof.
  intros (Hx & Hy & Hw & Hh) Ht. unfold triangle. rewrite quot2 by lia.
  assert (0 <= w / 2 <= w) as Hw2. { split; [apply Z.div_pos; lia|apply Z.div_le_upper_bound; lia]. }
  rewrite (small_i32 (x + w / 2)), (small_i32 (y + h - 1)), (small_i32 (x + w - 1)) by lia.
  repeat (apply paints_seq; [apply paints_line; unfold small; lia|]). apply paints_line; unfold small; lia.
Qed.
End Shapes.
