(* ===== verification/PasteFacts.v ===== *)
(** Pasted images, rotated layers and fitted rasters: the pixels that the
    operations of Canvas.v take from another raster. *)

From stdpp Require Import base list list_numbers sets numbers option.
From S2P Require Import Prelude MonoRaster MonoRasterFacts Document Sheet RenderTypes Geometry Canvas GeometryFacts CanvasFacts.

#[local] Open Scope Z_scope.

Lemma gray_pixel (c : GrayRaster) x y :
  gray_wf c -> 0 <= x < g_width c -> 0 <= y < g_height c ->
  index (E := RenderError.t) (g_pixels c) (y * g_width c + x) = Ok (pixel c x y) /\ 0 <= pixel c x y < 256.
Proof.
  intros (Hw & Hh & Hs & Hl & Hb) Hx Hy. pose proof (pix_range _ _ _ _ Hx Hy) as Hr. rewrite <- Hl in Hr.
  split; [by apply index_px|]. by apply (Forall_px byte_ok).
Qed.

(** ** Images *)

(** The pixel of [source] that a box shows at [px], [py]. *)
Definition sample (source : GrayRaster) (x y w h px py : Z) : Z :=
  pixel source ((px - x) * g_width source / w) ((py - y) * g_height source / h).

Lemma scaled_position a w s : 0 <= a < w -> 0 < s -> 0 <= a * s / w < s.
Proof. intros Ha Hs. split; [apply Z.div_pos; nia|apply Z.div_lt_upper_bound; nia]. Qed.

Section Paste.
Context (W H : Z).

Lemma plots_paste source x y w h :
  gray_wf source -> Z.abs x <= 2 ^ 27 -> Z.abs y <= 2 ^ 27 -> 1 <= w <= 2 ^ 26 -> 1 <= h <= 2 ^ 26 ->
  plots W H (fun px py _ => sample source x y w h px py) (in_box x y w h) (paste_scaled source x y w h).
Proof.
  intros Hs Hx Hy Hw Hh. pose proof Hs as (Hsw & Hsh & Harea & _). unfold u32_max in Harea.
  assert (g_width source <= 4294967295 /\ g_height source <= 4294967295) as [Hsw' Hsh'] by nia.
  unfold paste_scaled. eapply plots_ext.
  - apply (plots_for_grid _ _ (fun px py _ => sample source x y w h px py) ltac:(done) (fun a b px py => px = x + a /\ py = y + b)).
    intros a b Ha%elem_of_range Hb%elem_of_range.
    pose proof (scaled_position a w (g_width source) ltac:(lia) Hsw) as Ga. pose proof (scaled_position b h (g_height source) ltac:(lia) Hsh) as Gb.
    unfold saturate, u32_max. rewrite !Z.max_r, !(Z.min_r 4294967295), !Z.min_l by lia.
    rewrite (idx32_small _ (g_height source)) by (done || (unfold u32_max; lia)).
    destruct (gray_pixel source _ _ Hs Ga Gb) as [-> Hbyte]. cbn [rbind]. rewrite !small_i32 by lia.
    apply plots_set; [done|]. intros _. unfold sample. by replace (x + a - x) with a by lia; replace (y + b - y) with b by lia.
  - intros px py _. cbn beta. setoid_rewrite elem_of_range. unfold in_box. split.
    + intros (a & b & Ha & Hb & -> & ->). lia.
    + intros [Hpx Hpy]. exists (px - x), (py - y). lia.
Qed.

(** The largest box of the shape of [source] that fits in [w] by [h]: one side is the whole one. *)
Definition fit_width (source : GrayRaster) (w h : Z) : Z :=
  Z.max 1 (Z.min (w * g_height source) (h * g_width source) / g_height source).
Definition fit_height (source : GrayRaster) (w h : Z) : Z :=
  Z.max 1 (Z.min (w * g_height source) (h * g_width source) / g_width source).

Lemma fit_sides source w h :
  gray_wf source -> 1 <= w -> 1 <= h ->
  1 <= fit_width source w h <= w /\ 1 <= fit_height source w h <= h /\ (fit_width source w h = w \/ fit_height source w h = h).
Proof.
  intros (Hsw & Hsh & _) Hw Hh. unfold fit_width, fit_height. set (sw := g_width source) in *. set (sh := g_height source) in *.
  assert (forall a b m : Z, 0 < b -> 0 <= m <= a * b -> 0 <= m / b <= a) as Hdiv.
  { intros a b m Hb Hm. split; [apply Z.div_pos; lia|apply Z.div_le_upper_bound; lia]. }
  assert (0 <= Z.min (w * sh) (h * sw)) as H0 by nia.
  pose proof (Hdiv w sh (Z.min (w * sh) (h * sw)) Hsh ltac:(lia)). pose proof (Hdiv h sw (Z.min (w * sh) (h * sw)) Hsw ltac:(lia)).
  split; [lia|]. split; [lia|]. destruct (Z.min_spec (w * sh) (h * sw)) as [[_ ->]|[_ ->]]; [left|right]; rewrite Z.div_mul by lia; lia.
Qed.

Lemma plots_paste_fit source x y w h (preserve : bool) :
  gray_wf source -> box_ok x y w h ->
  let ow := if preserve then fit_width source w h else w in
  let oh := if preserve then fit_height source w h else h in
  let ox := x + (w - ow) / 2 in
  let oy := y + (h - oh) / 2 in
  plots W H (fun px py _ => sample source ox oy ow oh px py) (in_box ox oy ow oh) (paste_fit source x y w h preserve).
Proof.
  intros Hs Hbox ow oh ox oy. pose proof Hbox as (Hx & Hy & Hw & Hh). unfold paste_fit. destruct preserve; cbn [negb].
  - destruct (fit_sides source w h Hs ltac:(lia) ltac:(lia)) as (Fw & Fh & _). pose proof Hs as (Hsw & Hsh & Harea & _). unfold u32_max in Harea.
    fold ow in Fw. fold oh in Fh. set (sw := g_width source) in *. set (sh := g_height source) in *.
    assert (0 <= Z.min (w * sh) (h * sw)) as H0 by nia. set (k := Z.min (w * sh) (h * sw)) in *.
    assert (sw * k <= 2 ^ 26 * (sw * sh) /\ sh * k <= 2 ^ 26 * (sw * sh)) as [Hk1 Hk2] by (unfold k; split; nia).
    assert (1 <= sw * sh) as Hpos by nia. assert (0 <= sw * k /\ 0 <= sh * k) as [? ?] by nia.
    rewrite !as_i64_id by (unfold i64_min, i64_max; lia). unfold div_i64. rewrite (proj2 (Z.eqb_neq (sw * sh) 0)) by lia. cbn [rbind].
    rewrite (Z.quot_div_nonneg (sw * k)), (Z.quot_div_nonneg (sh * k)), Z.div_mul_cancel_l, (Z.mul_comm sw sh), Z.div_mul_cancel_l by lia.
    rewrite (Z.max_comm (k / sh)), (Z.max_comm (k / sw)).
    change (Z.max 1 (k / sh)) with ow. change (Z.max 1 (k / sw)) with oh.
    assert (0 <= (w - ow) / 2 <= w) as Hcx. { split; [apply Z.div_pos; lia|apply Z.div_le_upper_bound; lia]. }
    assert (0 <= (h - oh) / 2 <= h) as Hcy. { split; [apply Z.div_pos; lia|apply Z.div_le_upper_bound; lia]. }
    rewrite (small_i32 ow), (small_i32 oh) by lia. rewrite (small_i32 (w - ow)), (small_i32 (h - oh)), !quot2 by lia. rewrite !small_i32 by lia.
    fold ox oy. apply plots_paste; [done|unfold ox, oy; lia..].
  - unfold ox, oy, ow, oh. rewrite !Z.sub_diag. change (0 / 2) with 0. rewrite !Z.add_0_r. apply plots_paste; done || lia.
Qed.
End Paste.

(** ** Rotated layers *)

(** The darker of a pixel and the one of the layer that turns onto it. *)
Definition darker (W H : Z) (layer : GrayRaster) (p : Placement) (dx dy old : Z) : Z :=
  let '(sx, sy) := rotated_point p dx dy in
  if (0 <=? sx) && (0 <=? sy) && (sx <? W) && (sy <? H) then Z.min old (pixel layer sx sy) else old.

Definition placement_ok (p : Placement) : Prop := box_ok (pl_x p) (pl_y p) (pl_w p) (pl_h p).

(** The square that the loop visits: it holds the circle around the box. *)
Definition within_reach (p : Placement) (radius dx dy : Z) : Prop :=
  Z.abs (dx - (pl_x p + pl_w p / 2)) <= radius /\ Z.abs (dy - (pl_y p + pl_h p / 2)) <= radius.

Section Rotate.
Context (W H : Z) (layer : GrayRaster) (p : Placement).
Hypotheses (HW : W <= 2 ^ 26) (HH : H <= 2 ^ 26).
Hypotheses (Hlayer : gray_wf layer) (Hlw : g_width layer = W) (Hlh : g_height layer = H) (Hp : placement_ok p).

Lemma darker_idempotent dx dy old : darker W H layer p dx dy (darker W H layer p dx dy old) = darker W H layer p dx dy old.
Proof. unfold darker. destruct (rotated_point p dx dy) as [sx sy]. destruct (_ && _); lia. Qed.

Lemma diagonal_bounds :
  exists r, integer_sqrt_ceil (diagonal_squared p) = Ok r /\ 0 <= r <= 2 ^ 27 /\ pl_w p ^ 2 + pl_h p ^ 2 <= r * r.
Proof.
  destruct Hp as (_ & _ & Hw & Hh). assert (0 <= pl_w p ^ 2 + pl_h p ^ 2 <= 2 ^ 53) as Hsum by nia.
  unfold diagonal_squared. rewrite as_i64_id by (unfold i64_min, i64_max; lia). rewrite checked_id by (unfold in_u, u64_max; lia).
  cbn [default]. destruct (integer_sqrt_ceil_spec (pl_w p ^ 2 + pl_h p ^ 2)) as (r & E & Hr & Hle & Hleast); [unfold in_u, u64_max; lia|].
  exists r. split_and!; [done|lia| |done]. apply Hleast; [lia|]. nia.
Qed.

Lemma plots_rotate_pixel a b :
  on_canvas W H a b -> plots W H (darker W H layer p) (fun px py => px = a /\ py = b) (rotate_pixel layer p a b).
Proof.
  intros Hab. pose proof Hab as [Hx Hy]. pose proof Hlayer as (Hw & Hh & Harea & Hl & Hbytes).
  apply plots_write; [|done]. intros c Hc Ew Eh _.
  assert (with_pixels c (<[Z.to_nat (b * W + a):=pixel c a b]> (g_pixels c)) = c) as Hsame.
  { destruct c as [cw ch cp]. cbn [g_width g_height g_pixels] in *. subst cw. unfold with_pixels. cbn [g_width g_height g_pixels]. f_equal.
    apply list_insert_id. unfold pixel. cbn [g_width g_pixels]. apply (index_px (E := unit)). destruct Hc as (_ & _ & _ & Hlc & _).
    cbn [g_width g_height g_pixels] in Hlc. rewrite Hlc, Eh. by apply pix_range. }
  destruct (gray_pixel c a b Hc) as [Hi Hb]; [by rewrite Ew|by rewrite Eh|].
  unfold rotate_pixel, darker. destruct (rotated_point p a b) as [sx sy]. rewrite Hlw, Hlh, !small_i32 by lia.
  destruct (_ && _ && _ && _) eqn:Hin; [|by rewrite Hsame].
  rewrite !andb_true_iff, !Z.leb_le, !Z.ltb_lt in Hin. destruct Hin as [[[? ?] ?] ?].
  destruct (gray_pixel layer sx sy Hlayer) as [His Hbs]; [lia|lia|]. rewrite Hlw in His. rewrite His. cbn [rbind].
  destruct (Z.ltb_spec (pixel layer sx sy) 255).
  - rewrite Hi. cbn [rbind]. rewrite Ew, assign_in_range. { split; [lia|done]. }
    destruct Hc as (_ & _ & _ & -> & _). rewrite Ew, Eh. by apply pix_range.
  - rewrite Z.min_l by lia. by rewrite Hsame.
Qed.

Lemma plots_rotate :
  exists radius, 0 <= radius <= 2 ^ 27 /\ pl_w p ^ 2 + pl_h p ^ 2 <= (2 * radius) ^ 2 /\
    plots W H (darker W H layer p) (within_reach p radius) (rotate_layer layer p).
Proof.
  destruct diagonal_bounds as (r & Er & Hr & Hdiag). destruct Hp as (Hx & Hy & Hw & Hh).
  assert (r <= 2 * div_ceil r 2 <= r + 1) as Hceil.
  { unfold div_ceil. pose proof (Z.div_mod (r + 2 - 1) 2 ltac:(lia)). pose proof (Z.mod_pos_bound (r + 2 - 1) 2 ltac:(lia)). lia. }
  assert (0 <= pl_w p / 2 <= pl_w p) as Hw2. { split; [apply Z.div_pos; lia|apply Z.div_le_upper_bound; lia]. }
  assert (0 <= pl_h p / 2 <= pl_h p) as Hh2. { split; [apply Z.div_pos; lia|apply Z.div_le_upper_bound; lia]. }
  exists (div_ceil r 2 + 2). split; [lia|]. split; [nia|].
  pose proof Hlayer as (HW0 & HH0 & _). rewrite Hlw in HW0. rewrite Hlh in HH0.
  eapply plots_ext.
  - eapply plots_sized.
    + intros c Ew Eh. unfold rotate_layer. rewrite Er. cbn [rbind]. rewrite Ew, Eh, !quot2 by lia.
      rewrite (small_i32 W), (small_i32 H), (small_i32 (W - 1)), (small_i32 (H - 1)) by lia.
      rewrite (small_i32 (div_ceil r 2)), (small_i32 (div_ceil r 2 + 2)) by lia. rewrite !small_i32 by lia. reflexivity.
    + apply (plots_for_grid _ _ _ darker_idempotent (fun a b px py => px = a /\ py = b)). intros a b Ha%elem_of_range Hb%elem_of_range.
      apply plots_rotate_pixel. unfold on_canvas. lia.
  - intros px py [Hpx Hpy]. cbn beta. setoid_rewrite elem_of_range. unfold within_reach. split.
    + intros (a & b & Ha & Hb & -> & ->). lia.
    + intros [Hdx Hdy]. exists px, py. lia.
Qed.

(** A half turn is exact: a point comes from its reflection in the centre of the box. *)
Lemma half_turn dx dy :
  pl_rotation p = 180000 -> 0 <= dx < W -> 0 <= dy < H ->
  rotated_point p dx dy = (2 * pl_x p + pl_w p - 1 - dx, 2 * pl_y p + pl_h p - 1 - dy).
Proof.
  intros Hrot Hdx Hdy. destruct Hp as (Hx & Hy & Hw & Hh). unfold rotated_point. rewrite Hrot.
  change (fixed_trig 180000) with (- TRIG_SCALE, 0). cbn beta iota zeta.
  rewrite (small_i32 (2 * pl_x p + pl_w p - 1)), (small_i32 (2 * pl_y p + pl_h p - 1)), (small_i32 (2 * dx)), (small_i32 (2 * dy)) by lia.
  set (cx2 := 2 * pl_x p + pl_w p - 1) in *. set (cy2 := 2 * pl_y p + pl_h p - 1) in *.
  assert (forall u v : Z, - TRIG_SCALE * u + 0 * v = TRIG_SCALE * - u) as E1 by (intros; ring).
  assert (forall u v : Z, - (0) * v + - TRIG_SCALE * u = TRIG_SCALE * - u) as E2 by (intros; ring). rewrite E1, E2.
  rewrite !round_ratio_exact by (done || (unfold i64_min, i64_max, cx2, cy2; lia)).
  rewrite !as_i64_id by (unfold i64_min, i64_max, cx2, cy2; lia).
  replace (cx2 + - (2 * dx - cx2)) with (2 * (cx2 - dx)) by ring. replace (cy2 + - (2 * dy - cy2)) with (2 * (cy2 - dy)) by ring.
  rewrite !round_ratio_exact by (done || (unfold i64_min, i64_max, cx2, cy2; lia)).
  by rewrite !small_i32 by (unfold cx2, cy2; lia).
Qed.
End Rotate.

(** ** Copied rows *)

Lemma for_each_ext_in {E S A} (f g : A -> S -> Result E S) l s :
  (forall a s, a ∈ l -> f a s = g a s) -> for_each f l s = for_each g l s.
Proof.
  intros H. revert s. induction l as [|a l IH]; intros s; [done|]. cbn [for_each]. rewrite H by left.
  destruct (g a s); [|done]. cbn [rbind]. apply IH. intros b s' Hb. apply H. by right.
Qed.

Section CopyRows.
(** [len] pixels of each of [n] rows go from [sx], [sy] of a source of width
    [SW] to [x], [y] of a destination of size [W] by [H]. *)
Context (src : list Z) (SW sx sy W H x y len n : Z).
Hypotheses (Hsx : 0 <= sx) (Hsy : 0 <= sy) (Hx : 0 <= x) (Hy : 0 <= y) (Hlen : 0 < len) (Hn : 0 < n).
Hypotheses (Hsfit : sx + len <= SW) (Hsrc : (sy + n) * SW <= zlen src).
Hypotheses (Hfit : x + len <= W) (Hbottom : y + n <= H).

Definition copy_row (row : Z) (pixels : list Z) : Render (list Z) :=
  match get_range src ((sy + row) * SW + sx) ((sy + row) * SW + sx + len) with
  | Some slice => copy_slice pixels ((y + row) * W + x) slice
  | None => Err Panicked
  end.

Lemma copy_row_spec row pixels :
  0 <= row < n -> zlen pixels = W * H ->
  exists out, copy_row row pixels = Ok out /\ zlen out = W * H /\
    forall X Y, 0 <= X < W -> 0 <= Y < H ->
      out !! Z.to_nat (Y * W + X) =
      if (Y =? y + row) && (x <=? X) && (X <? x + len) then src !! Z.to_nat ((sy + row) * SW + sx + (X - x))
      else pixels !! Z.to_nat (Y * W + X).
Proof.
  intros Hrow Hp. unfold copy_row.
  destruct (get_range_spec src ((sy + row) * SW + sx) len) as (s & -> & Hzs & Hps); [nia..|].
  destruct (copy_slice_spec (E := RenderError.t) pixels ((y + row) * W + x) s) as (out & -> & Hzo & Hpo); [nia|nia|].
  exists out. split; [done|]. split; [lia|]. intros X Y HX HY. rewrite Hpo by nia.
  assert (((y + row) * W + x <=? Y * W + X) && (Y * W + X <? (y + row) * W + x + zlen s) =
          (Y =? y + row) && (x <=? X) && (X <? x + len)) as ->.
  { apply eq_bool_prop_intro. rewrite !Is_true_true, !andb_true_iff, Hzs, !Z.leb_le, !Z.ltb_lt, Z.eqb_eq. split; [|nia].
    intros [? ?]. assert (Y = y + row) by nia. subst. lia. }
  destruct (_ && _) eqn:Hd; [|done]. assert (Y = y + row) as -> by blia.
  replace ((y + row) * W + X - ((y + row) * W + x)) with (X - x) by lia. by rewrite Hps by blia.
Qed.

Lemma copy_rows_spec rows pixels :
  (forall row, row ∈ rows -> 0 <= row < n) -> zlen pixels = W * H ->
  exists out, for_each copy_row rows pixels = Ok out /\ zlen out = W * H /\
    forall X Y, 0 <= X < W -> 0 <= Y < H ->
      out !! Z.to_nat (Y * W + X) =
      if bool_decide (Y - y ∈ rows) && (x <=? X) && (X <? x + len) then src !! Z.to_nat ((sy + (Y - y)) * SW + sx + (X - x))
      else pixels !! Z.to_nat (Y * W + X).
Proof.
  revert pixels. induction rows as [|row rows IH]; intros pixels Hrows Hp.
  - exists pixels. split; [done|]. split; [done|]. intros X Y _ _. by rewrite bool_decide_eq_false_2 by (apply not_elem_of_nil).
  - destruct (copy_row_spec row pixels) as (mid & Emid & Hzm & Hpm); [apply Hrows; left|done|].
    destruct (IH mid) as (out & Eout & Hzo & Hpo); [intros; apply Hrows; by right|done|].
    exists out. split; [cbn [for_each]; by rewrite Emid|]. split; [done|]. intros X Y HX HY. rewrite Hpo, Hpm by done.
    destruct (decide (Y - y = row)) as [<-|Hne].
    + rewrite (bool_decide_eq_true_2 (Y - y ∈ (Y - y) :: rows)) by left. destruct (Z.eqb_spec Y (y + (Y - y))); [|lia].
      by destruct (bool_decide (Y - y ∈ rows)), (x <=? X), (X <? x + len).
    + destruct (Z.eqb_spec Y (y + row)); [lia|]. cbn [andb].
      assert (bool_decide (Y - y ∈ rows) = bool_decide (Y - y ∈ row :: rows)) as ->; [|done].
      apply bool_decide_ext. rewrite elem_of_cons. naive_solver.
Qed.
End CopyRows.

(** ** Cropping *)

(** The corner and the size of a crop within a source. *)
Definition crop_x (source : GrayRaster) (b : Bounds) : Z := Z.min (Z.max (b_x b) 0) (g_width source).
Definition crop_y (source : GrayRaster) (b : Bounds) : Z := Z.min (Z.max (b_y b) 0) (g_height source).
Definition crop_width (source : GrayRaster) (b : Bounds) : Z := Z.min (Z.max (b_width b) 1) (g_width source - crop_x source b).
Definition crop_height (source : GrayRaster) (b : Bounds) : Z := Z.min (Z.max (b_height b) 1) (g_height source - crop_y source b).

(** A white canvas. *)
Definition blank (w h : Z) : GrayRaster := {| g_width := w; g_height := h; g_pixels := replicate (Z.to_nat (w * h)) 255 |}.

Lemma new_canvas_spec w h limit :
  0 <= w -> 0 <= h -> w * h <= u32_max ->
  new_canvas w h limit =
    (if (w =? 0) || (h =? 0) || (limit <? w * h) then fail RenderError.TooLarge
     else Ok (blank w h)).
Proof.
  intros Hw Hh Hs. unfold new_canvas, gray_try_new, checked_pixel_len. destruct ((w =? 0) || (h =? 0)) eqn:Hz; [done|]. cbn [orb].
  rewrite checked_id by (unfold in_u, u64_max, u32_max in *; nia). cbn [ok_or rbind]. destruct (limit <? w * h); [done|].
  by rewrite checked_id by (unfold in_u, usize_max, u64_max, u32_max in *; nia).
Qed.

Lemma blank_wf w h : 0 < w -> 0 < h -> w * h <= u32_max ->
  gray_wf (blank w h).
Proof.
  intros Hw Hh Hs. unfold gray_wf, blank. cbn [g_width g_height g_pixels]. split_and!; try done.
  - unfold zlen. rewrite length_replicate. nia.
  - by apply Forall_replicate.
Qed.

Lemma crop_source_spec source b limit :
  gray_wf source ->
  let w := crop_width source b in
  let h := crop_height source b in
  if (w =? 0) || (h =? 0) || (limit <? w * h) then crop_source source b limit = fail RenderError.TooLarge
  else exists out, crop_source source b limit = Ok out /\ gray_wf out /\ g_width out = w /\ g_height out = h /\
    forall X Y, 0 <= X < w -> 0 <= Y < h -> pixel out X Y = pixel source (crop_x source b + X) (crop_y source b + Y).
Proof.
  intros Hs w h. pose proof Hs as (Hsw & Hsh & Harea & Hl & Hb). unfold u32_max in Harea.
  assert (g_width source <= 4294967295 /\ g_height source <= 4294967295) as [? ?] by nia.
  assert (0 <= crop_x source b <= g_width source /\ 0 <= crop_y source b <= g_height source) as [Hx Hy] by (unfold crop_x, crop_y; lia).
  assert (0 <= w <= g_width source - crop_x source b /\ 0 <= h <= g_height source - crop_y source b) as [Hw Hh] by (unfold w, h, crop_width, crop_height; lia).
  assert (0 <= w * h <= g_width source * g_height source) as Hwh by nia.
  unfold crop_source, as_u32. fold (crop_x source b) (crop_y source b). rewrite !(Z.mod_small (crop_x source b)), !(Z.mod_small (crop_y source b)) by lia.
  rewrite !saturate_id by (unfold in_u, u32_max; lia). fold (crop_width source b) (crop_height source b).
  change (crop_width source b) with w. change (crop_height source b) with h. rewrite !(Z.mod_small w), !(Z.mod_small h) by lia.
  rewrite new_canvas_spec by (unfold u32_max; lia). destruct (_ || _) eqn:Hz; [done|].
  apply orb_false_iff in Hz as [[Hw0 Hh0]%orb_false_iff _]. apply Z.eqb_neq in Hw0, Hh0. cbn [rbind]. unfold blank. cbn [g_pixels].
  destruct (copy_rows_spec (g_pixels source) (g_width source) (crop_x source b) (crop_y source b) w h 0 0 w h) with (rows := range 0 h)
    (pixels := replicate (Z.to_nat (w * h)) 255) as (out & Eout & Hzo & Hpo); try lia.
  { nia. } { intros row. rewrite elem_of_range. lia. } { unfold zlen. rewrite length_replicate. nia. }
  rewrite (for_each_ext_in _ (copy_row (g_pixels source) (g_width source) (crop_x source b) (crop_y source b) w 0 0 w)).
  2: { intros row pixels Hrow%elem_of_range. unfold copy_row. rewrite !Z.mod_small by nia. by rewrite Z.add_0_l, Z.add_0_r. }
  cbn [g_pixels]. rewrite Eout. cbn [rbind]. eexists. split; [done|].
  assert (forall X Y, 0 <= X < w -> 0 <= Y < h ->
    out !! Z.to_nat (Y * w + X) = Some (pixel source (crop_x source b + X) (crop_y source b + Y))) as Hpix.
  { intros X Y HX HY. rewrite Hpo by done. rewrite Z.sub_0_r, Z.sub_0_r, bool_decide_eq_true_2 by (apply elem_of_range; lia).
    destruct (Z.leb_spec 0 X), (Z.ltb_spec X (0 + w)); try lia. cbn [andb].
    destruct (gray_pixel source (crop_x source b + X) (crop_y source b + Y) Hs) as [Hi%index_Ok _]; [lia|lia|].
    destruct Hi as [_ Hi]. rewrite <- Hi. f_equal. lia. }
  split_and!; [|done|done|].
  - unfold gray_wf, with_pixels, u32_max. cbn [g_width g_height g_pixels]. split_and!; try lia.
    apply Forall_lookup. intros i v Hi. assert (Z.of_nat i < w * h) as Hlt by (apply lookup_lt_Some in Hi; unfold zlen in Hzo; lia).
    pose proof (Hpix (Z.of_nat i mod w) (Z.of_nat i / w)) as Hv. pose proof (Z.div_mod (Z.of_nat i) w ltac:(lia)) as Hdm.
    pose proof (Z.mod_pos_bound (Z.of_nat i) w ltac:(lia)) as Hm.
    assert (0 <= Z.of_nat i / w < h) as Hq. { split; [apply Z.div_pos; lia|apply Z.div_lt_upper_bound; lia]. }
    replace (Z.of_nat i / w * w + Z.of_nat i mod w) with (Z.of_nat i) in Hv by lia. rewrite Nat2Z.id in Hv.
    specialize (Hv Hm Hq). rewrite Hi in Hv. injection Hv as ->. apply gray_pixel; [done|lia|lia].
  - intros X Y HX HY. unfold pixel at 1, with_pixels, px. cbn [g_width g_pixels]. by rewrite Hpix.
Qed.

(** ** Fitted rasters *)

(** The size of an image that is scaled into a box. *)
Definition box_scale (image : MonoRaster) (width height : Z) : Z * Z :=
  if width * m_height image <=? height * m_width image
  then (width, Z.max 1 ((m_height image * width + m_width image / 2) / m_width image))
  else (Z.max 1 ((m_width image * height + m_height image / 2) / m_height image), height).

(** The pixel of a box that shows [image] in its middle, and white around it. *)
Definition boxed (image : MonoRaster) (width height X Y : Z) : Z :=
  let '(w, h) := box_scale image width height in
  let x := X - (width - w) / 2 in
  let y := Y - (height - h) / 2 in
  if (0 <=? x) && (x <? w) && (0 <=? y) && (y <? h)
  then px (m_pixels image) (y * m_height image / h * m_width image + x * m_width image / w) else 0.

Lemma rounded_side a b n : 0 < b -> 0 <= n <= a * b -> 0 <= (n + b / 2) / b <= a.
Proof.
  intros Hb Hn. assert (0 <= b / 2 < b) by (split; [apply Z.div_pos; lia|apply Z.div_lt; lia]).
  split; [apply Z.div_pos; lia|]. apply Z.lt_succ_r, Z.div_lt_upper_bound; lia.
Qed.

Lemma box_scale_fits image width height :
  mono_wf image -> 0 < width -> 0 < height ->
  1 <= (box_scale image width height).1 <= width /\ 1 <= (box_scale image width height).2 <= height /\
  ((box_scale image width height).1 = width \/ (box_scale image width height).2 = height).
Proof.
  intros (Hiw & Hih & _) Hw Hh. unfold box_scale. destruct (Z.leb_spec (width * m_height image) (height * m_width image)); cbn [fst snd].
  - pose proof (rounded_side height (m_width image) (m_height image * width) Hiw ltac:(nia)). lia.
  - pose proof (rounded_side width (m_height image) (m_width image * height) Hih ltac:(nia)). lia.
Qed.

Lemma mono_blank w h limit :
  0 < w -> 0 < h -> w * h <= u32_max -> w * h <= limit ->
  mono_try_new w h limit = Ok {| m_width := w; m_height := h; m_pixels := replicate (Z.to_nat (w * h)) 0 |}.
Proof. intros. unfold mono_try_new. by rewrite checked_pixel_len_Ok. Qed.

(** The scaled copy of an image: nearest pixels. *)
Lemma scaled_pixels_spec image w h :
  mono_wf image -> 0 < w -> 0 < h -> w * h <= u32_max ->
  exists out, scale_pixels image {| m_width := w; m_height := h; m_pixels := replicate (Z.to_nat (w * h)) 0 |} = Ok out /\
    zlen out = w * h /\
    forall x y, 0 <= x < w -> 0 <= y < h ->
      out !! Z.to_nat (y * w + x) = Some (px (m_pixels image) (y * m_height image / h * m_width image + x * m_width image / w)).
Proof.
  intros Hi Hw Hh Hs. pose proof Hi as (Hiw & Hih & Harea & Hl & _). unfold u32_max in *.
  unfold scale_pixels. cbn [m_width m_height m_pixels].
  edestruct (write_loop (E := RenderError.t) (coords w h) (fun xy => snd xy * w + fst xy)
    (fun xy => px (m_pixels image) (snd xy * m_height image / h * m_width image + fst xy * m_width image / w)))
    as (out & Eout & Hz & Hin & _); [| | |exists out; split; [exact Eout|split]].
  - intros [x y] arr [Hx Hy]%elem_of_coords _. cbn [fst snd].
    pose proof (scaled_position x w (m_width image) Hx Hiw) as Gx. pose proof (scaled_position y h (m_height image) Hy Hih) as Gy.
    pose proof (pix_range _ _ _ _ Gx Gy) as Hr. assert (m_width image <= 4294967295 /\ m_height image <= 4294967295) as [? ?] by nia.
    unfold as_u32. rewrite !(Z.mod_small (_ / _)) by lia. rewrite Z.mod_small by lia.
    destruct (index_px (E := RenderError.t) (m_pixels image) (y * m_height image / h * m_width image + x * m_width image / w)) as [-> _]; [lia|].
    cbn [rbind]. by rewrite (idx32_small w h).
  - intros [x y] [Hx Hy]%elem_of_coords. cbn [fst snd]. unfold zlen. rewrite length_replicate. pose proof (pix_range _ _ _ _ Hx Hy). lia.
  - apply NoDup_dst; [apply NoDup_coords|]. intros [x y] [x' y'] [Hx Hy]%elem_of_coords [Hx' Hy']%elem_of_coords. cbn [fst snd].
    intros E. apply pix_inj in E as [-> ->]; done.
  - rewrite Hz. unfold zlen. rewrite length_replicate. nia.
  - intros x y Hx Hy. apply (Hin (x, y)). by apply elem_of_coords.
Qed.

Lemma scaled_size_box image width height :
  mono_wf image -> 0 < width -> 0 < height -> width * height <= u32_max ->
  box_scale image width height = (Z.max (fst (scaled_size image width height)) 1, Z.max (snd (scaled_size image width height)) 1).
Proof.
  intros (Hiw & Hih & _) Hw Hh Hs. unfold u32_max in Hs. assert (width <= 4294967295 /\ height <= 4294967295) as [? ?] by nia.
  unfold box_scale, scaled_size, as_u32. destruct (Z.leb_spec (width * m_height image) (height * m_width image)); cbn [fst snd].
  - pose proof (rounded_side height (m_width image) (m_height image * width) Hiw ltac:(nia)). rewrite Z.mod_small by lia. f_equal; lia.
  - pose proof (rounded_side width (m_height image) (m_width image * height) Hih ltac:(nia)). rewrite Z.mod_small by lia. f_equal; lia.
Qed.

Lemma fit_mono_spec image width height :
  mono_wf image -> 0 < width -> 0 < height -> width * height <= u32_max ->
  exists out, fit_mono_to_box image width height = Ok out /\ mono_wf out /\ m_width out = width /\ m_height out = height /\
    forall X Y, 0 <= X < width -> 0 <= Y < height -> px (m_pixels out) (Y * width + X) = boxed image width height X Y.
Proof.
  intros Hi Hw Hh Hs. pose proof Hi as (Hiw & Hih & Harea & Hl & _). pose proof (box_scale_fits image width height Hi Hw Hh) as (Fw & Fh & _).
  assert (width <= 4294967295 /\ height <= 4294967295) as [Hw32 Hh32] by (unfold u32_max in Hs; nia).
  unfold fit_mono_to_box, boxed. rewrite !(proj2 (Z.eqb_neq _ 0)) by lia. cbn [orb]. rewrite scaled_size_box in * by done. cbn [fst snd] in Fw, Fh.
  set (w := Z.max (fst (scaled_size image width height)) 1) in *. set (h := Z.max (snd (scaled_size image width height)) 1) in *.
  assert (1 <= w * h <= width * height) as Hwh by nia.
  rewrite !mono_blank by lia. cbn [map_err raising rbind].
  destruct (scaled_pixels_spec image w h Hi) as (scaled & -> & Hzs & Hps); [lia..|]. cbn [rbind m_width m_height m_pixels].
  assert (0 <= (width - w) / 2 <= width - w) as Hx0. { split; [apply Z.div_pos; lia|apply Z.div_le_upper_bound; lia]. }
  assert (0 <= (height - h) / 2 <= height - h) as Hy0. { split; [apply Z.div_pos; lia|apply Z.div_le_upper_bound; lia]. }
  destruct (copy_rows_spec scaled w 0 0 width height ((width - w) / 2) ((height - h) / 2) w h) with (rows := range 0 h)
    (pixels := replicate (Z.to_nat (width * height)) 0) as (out & Eout & Hzo & Hpo); try lia.
  { intros row. rewrite elem_of_range. lia. } { unfold zlen. rewrite length_replicate. nia. }
  rewrite (for_each_ext_in _ (copy_row scaled w 0 0 width ((width - w) / 2) ((height - h) / 2) w)).
  2: { intros row pixels Hrow%elem_of_range. unfold copy_row, as_u32, u32_max in *. rewrite !(Z.mod_small (_ - _)) by lia.
       rewrite (Z.mod_small (row * w)) by nia. rewrite (Z.mod_small (_ + row)) by lia.
       assert (0 <= ((height - h) / 2 + row) * width <= (height - 1) * width) as Hrows.
       { split; [apply Z.mul_nonneg_nonneg; lia|apply Z.mul_le_mono_nonneg_r; lia]. }
       rewrite Z.mod_small by lia.
       by rewrite Z.add_0_l, Z.add_0_r. }
  rewrite Eout. cbn [rbind]. eexists. split; [done|].
  set (f := fun X Y =>
    let x := X - (width - w) / 2 in
    let y := Y - (height - h) / 2 in
    if (0 <=? x) && (x <? w) && (0 <=? y) && (y <? h)
    then px (m_pixels image) (y * m_height image / h * m_width image + x * m_width image / w) else 0).
  destruct (mono_of_pixels width height out f) as [Hwf Hpx]; [done|done|done|done| | |by split_and!].
  - intros X Y HX HY. rewrite Hpo by done. subst f. cbn beta zeta.
    rewrite (bool_decide_ext _ (0 <= Y - (height - h) / 2 < h) (elem_of_range _ _ _)).
    destruct (decide (0 <= Y - (height - h) / 2 < h /\ 0 <= X - (width - w) / 2 < w)) as [[HY' HX']|Hout].
    + rewrite bool_decide_eq_true_2 by done. rewrite !(proj2 (Z.leb_le _ _)), !(proj2 (Z.ltb_lt _ _)) by lia. cbn [andb].
      rewrite <- Hps by done. f_equal. f_equal. lia.
    + assert (bool_decide (0 <= Y - (height - h) / 2 < h) && ((width - w) / 2 <=? X) && (X <? (width - w) / 2 + w) = false) as ->.
      { apply not_true_iff_false. rewrite !andb_true_iff, bool_decide_eq_true, Z.leb_le, Z.ltb_lt. lia. }
      assert ((0 <=? X - (width - w) / 2) && (X - (width - w) / 2 <? w) && (0 <=? Y - (height - h) / 2) && (Y - (height - h) / 2 <? h) = false) as ->.
      { apply not_true_iff_false. rewrite !andb_true_iff, !Z.leb_le, !Z.ltb_lt. lia. }
      apply lookup_replicate_2. pose proof (pix_range _ _ _ _ HX HY). lia.
  - intros X Y HX HY. subst f. cbn beta zeta. destruct (_ && _ && _ && _) eqn:Hin; [|by left].
    rewrite !andb_true_iff, !Z.leb_le, !Z.ltb_lt in Hin. apply (mono_px image); [done|]. apply pix_range; apply scaled_position; lia.
Qed.
