(* ===== verification/TextDrawing.v ===== *)
(** Text, barcodes and QR codes on a canvas (crates/mb-printer-core/src/render.rs).

    Shaping, rasterising and unpacking fonts, the bitmap font, the Code 128
    encoder and the QR encoder are libraries: a [Typesetter]. A size that the
    code passes as [f32] is passed as the integer it is made from. *)

From stdpp Require Import base list strings numbers option.
From S2P Require Import Prelude Text Capabilities MonoRaster Document Sheet RenderTypes Barcode Geometry Canvas.

#[local] Open Scope Z_scope.

(** ** Libraries *)

(** A glyph of rustybuzz: its index and position. *)
Record Glyph := { glyph_id : Z; x_advance : Z; x_offset : Z; y_offset : Z }.

(** The metrics of a glyph of fontdue. *)
Record Metrics := { metrics_xmin : Z; metrics_ymin : Z; metrics_width : Z; metrics_height : Z }.

Class Typesetter := {
  Face : Type;
  face_from_slice : list Z -> option Face;
  units_per_em : Face -> Z;
  shape_text : Face -> list Z -> list Glyph;
  Font : Type;
  font_from_bytes : list Z -> Result (list Z) Font;
  rasterize_indexed : Font -> Z -> Z -> Metrics * list Z;
  decompress_woff1 : list Z -> option (list Z);
  decompress_woff2 : list Z -> option (list Z);
  (** The eight rows of a character of the bitmap font. *)
  basic_font : list Z -> option (list Z);
  code128 : list Z -> Result (list Z) (list Z);
  (** The width of a QR code and its dark modules. *)
  qr_code : list Z -> QrCorrection -> option (Z * (Z -> Z -> bool));
}.

(** ** Words *)

Definition is_white (ch : list Z) : bool := negb (white_start ch =? 0)%nat.

Definition nonempty (s : list Z) : bool := match s with [] => false | _ => true end.

Fixpoint words_loop (cs : list (list Z)) (word : list Z) : list (list Z) :=
  match cs with
  | [] => if nonempty word then [word] else []
  | c :: cs =>
      if is_white c then (if nonempty word then word :: words_loop cs [] else words_loop cs [])
      else words_loop cs (word ++ c)
  end.

Definition split_whitespace (s : list Z) : list (list Z) := words_loop (chars s) [].

(** [chars().count()]. *)
Definition char_count (s : list Z) : Z := zlen (chars s).

Definition wrap_char (max : Z) (s : list (list Z) * list Z) (ch : list Z) : list (list Z) * list Z :=
  let '(lines, line) := s in
  let '(lines, line) := if char_count line =? max then (lines ++ [line], []) else (lines, line) in
  (lines, line ++ ch).

Definition wrap_word (max : Z) (s : list (list Z) * list Z) (word : list Z) : list (list Z) * list Z :=
  let '(lines, line) := s in
  let '(lines, line) :=
    if nonempty line && (max <? char_count line + 1 + char_count word) then (lines ++ [line], []) else (lines, line) in
  let line := if nonempty line then line ++ [32] else line in
  fold_left (wrap_char max) (chars word) (lines, line).

Definition wrap (s : list Z) (max : Z) : list (list Z) :=
  let '(lines, line) := fold_left (wrap_word max) (split_whitespace s) ([], []) in
  if nonempty line || bool_decide (lines = []) then lines ++ [line] else lines.

(** ** Layout *)

Record TextLayout := {
  l_x : Z;
  l_y : Z;
  l_w : Z;
  l_h : Z;
  l_size : Z;
  l_horizontal : HorizontalAlign;
  l_vertical : VerticalAlign;
  l_overflow : TextOverflow;
}.

Definition with_size (size : Z) (l : TextLayout) : TextLayout :=
  {| l_x := l_x l; l_y := l_y l; l_w := l_w l; l_h := l_h l; l_size := size;
     l_horizontal := l_horizontal l; l_vertical := l_vertical l; l_overflow := l_overflow l |}.

Definition is_auto_height (o : TextOverflow) : bool := match o with AutoHeight => true | _ => false end.
Definition is_shrink (o : TextOverflow) : bool := match o with ShrinkToFit => true | _ => false end.
Definition wraps (o : TextOverflow) : bool := match o with WordWrap | AutoHeight => true | _ => false end.

(** Where a line of [extent] starts in a span of [len] dots at [origin]. *)
Definition align_horizontal (a : HorizontalAlign) (origin len extent : Z) : Z :=
  match a with
  | AlignLeft => origin
  | AlignCenter => as_i32 (origin + Z.quot (as_i32 (len - extent)) 2)
  | AlignRight => as_i32 (origin + len - extent)
  end.

Definition align_vertical (a : VerticalAlign) (origin len extent : Z) : Z :=
  match a with
  | AlignTop => origin
  | AlignMiddle => as_i32 (origin + Z.quot (as_i32 (len - extent)) 2)
  | AlignBottom => as_i32 (origin + len - extent)
  end.

(** The clip of every text: auto-height text may run below its box. *)
Definition in_text_box (l : TextLayout) (px py : Z) : bool :=
  (l_x l <=? px) && (px <? as_i32 (l_x l + l_w l)) && (l_y l <=? py)
  && (is_auto_height (l_overflow l) || (py <? as_i32 (l_y l + l_h l))).

(** [while value > 1 && too_large(value) { value -= 1 }]. *)
Fixpoint shrink_loop {E} (fuel : nat) (too_large : Z -> Result E bool) (value : Z) : Result E Z :=
  match fuel with
  | O => Ok value
  | S fuel =>
      if value <=? 1 then Ok value
      else
        let? large := too_large value in
        if (large : bool) then shrink_loop fuel too_large (value - 1) else Ok value
  end.

(** The fuel of a loop that counts down from [value] to one. *)
Definition shrink {E} (too_large : Z -> Result E bool) (value : Z) : Result E Z :=
  shrink_loop (Z.to_nat value) too_large value.

Section Typeset.
Context `{Typesetter}.

(** ** The bitmap font *)

(** The pixels of a character at [cx], [cy]. *)
Definition draw_char (l : TextLayout) (scale cx cy : Z) (rows : list Z) (c : GrayRaster) : Render GrayRaster :=
  for_each (fun '(row, bits) c =>
    for_each (fun col c =>
      if Z.land bits (Z.shiftl 1 col) =? 0 then Ok c
      else for_grid (range 0 scale) (range 0 scale) (fun xx yy c =>
        let px := as_i32 (cx + col * scale + xx) in
        let py := as_i32 (cy + row * scale + yy) in
        if in_text_box l px py then set px py 0 c else Ok c) c)
    (range 0 8) c) (enumerate rows) c.

Definition draw_text_line (l : TextLayout) (scale cy : Z) (line_text : list Z) (c : GrayRaster) : Render GrayRaster :=
  let line_width := as_i32 (char_count line_text * 8 * scale) in
  let cx := align_horizontal (l_horizontal l) (l_x l) (l_w l) line_width in
  let? 'result := for_each (fun ch s =>
    let '(c, cx) := s in
    match basic_font ch with
    | None => Ok (c, as_i32 (cx + 8 * scale))
    | Some rows => let? c := draw_char l scale cx cy rows c in Ok (c, as_i32 (cx + 8 * scale))
    end) (chars line_text) (c, cx) in
  Ok (fst result).

Definition text_scale (l : TextLayout) (s : list Z) : Render Z :=
  let scale := Z.max (Z.quot (l_size l) 8) 1 in
  if is_shrink (l_overflow l) then
    shrink (fun scale => Ok ((l_w l <? as_i32 (char_count s * 8 * scale)) || (l_h l <? as_i32 (8 * scale)))) scale
  else Ok scale.

Definition text_lines (l : TextLayout) (s : list Z) (scale : Z) : list (list Z) :=
  let max_chars := Z.max (Z.quot (l_w l) (as_i32 (8 * scale))) 1 in
  let lines := if wraps (l_overflow l) then wrap s max_chars else [concat (take (Z.to_nat max_chars) (chars s))] in
  if is_auto_height (l_overflow l) then lines
  else take (Z.to_nat (Z.max (Z.quot (l_h l) (as_i32 (8 * scale))) 1)) lines.

Definition text (l : TextLayout) (s : list Z) (c : GrayRaster) : Render GrayRaster :=
  let? scale := text_scale l s in
  let lines := text_lines l s scale in
  let total := as_i32 (zlen lines * 8 * scale) in
  let cy := align_vertical (l_vertical l) (l_y l) (l_h l) total in
  let? 'result := for_each (fun line_text s =>
    let '(c, cy) := s in
    let? c := draw_text_line l scale cy line_text c in
    Ok (c, as_i32 (cy + 8 * scale))) lines (c, cy) in
  Ok (fst result).

(** ** Embedded fonts *)

Definition sfnt_bytes (bytes : list Z) (limits : ProcessingLimits) : Render (list Z) :=
  let check (unwrapped : list Z) :=
    if max_decoded_resource_bytes limits <? zlen unwrapped
    then fail (RenderError.Font (str "decoded face is too large")) else Ok unwrapped in
  if starts_with (str "wOFF") bytes then
    let? unwrapped := raising (ok_or (decompress_woff1 bytes) (RenderError.Font (str "cannot decode WOFF face"))) in check unwrapped
  else if starts_with (str "wOF2") bytes then
    let? unwrapped := raising (ok_or (decompress_woff2 bytes) (RenderError.Font (str "cannot decode WOFF2 face"))) in check unwrapped
  else Ok bytes.

(** [round_ratio(units * size, face.units_per_em()) as i32]; a zero divisor panics. *)
Definition scale_units (face : Face) (size units : Z) : Render Z :=
  if units_per_em face =? 0 then Err Panicked else Ok (as_i32 (round_ratio (units * size) (units_per_em face))).

Definition embedded_advance (face : Face) (text : list Z) (size : Z) : Render Z :=
  scale_units face size (as_i64 (foldr Z.add 0 (map x_advance (shape_text face text)))).

(** The loop over the characters of a word that is too long for a line. *)
Definition embedded_wrap_char (face : Face) (size width : Z) (character : list Z) (s : list (list Z) * list Z) :
    Render (list (list Z) * list Z) :=
  let '(lines, line) := s in
  let candidate := line ++ character in
  let? breaks :=
    if nonempty line then let? advance := embedded_advance face candidate size in Ok (width <? advance) else Ok false in
  let '(lines, line) := if (breaks : bool) then (lines ++ [line], []) else (lines, line) in
  Ok (lines, line ++ character).

Definition embedded_wrap_word (face : Face) (size width : Z) (word : list Z) (s : list (list Z) * list Z) :
    Render (list (list Z) * list Z) :=
  let '(lines, line) := s in
  let candidate := if nonempty line then line ++ [32] ++ word else word in
  let? advance := embedded_advance face candidate size in
  if advance <=? width then Ok (lines, candidate)
  else
    let '(lines, line) := if nonempty line then (lines ++ [line], []) else (lines, line) in
    for_each (embedded_wrap_char face size width) (chars word) (lines, line).

Definition embedded_wrap (face : Face) (text : list Z) (size width : Z) : Render (list (list Z)) :=
  let? lines := for_each (fun paragraph lines =>
    let? 'result := for_each (embedded_wrap_word face size width) (split_whitespace paragraph) (lines, []) in
    Ok (fst result ++ [snd result])) (split 10 text) [] in
  Ok (if bool_decide (lines = []) then [[]] else lines).

Definition draw_glyph (l : TextLayout) (face : Face) (font : Font) (origin baseline : Z) (info : Glyph)
    (s : GrayRaster * Z) : Render (GrayRaster * Z) :=
  let '(c, pen_units) := s in
  let '(metrics, bitmap) := rasterize_indexed font (as_u16 (glyph_id info)) (l_size l) in
  let? right_of := scale_units face (l_size l) (as_i64 (pen_units + x_offset info)) in
  let gx := as_i32 (origin + right_of + metrics_xmin metrics) in
  let? above := scale_units face (l_size l) (y_offset info) in
  let gy := as_i32 (baseline - above - as_i32 (metrics_height metrics) - metrics_ymin metrics) in
  let? c := for_grid (range 0 (metrics_width metrics)) (range 0 (metrics_height metrics)) (fun xx yy c =>
    let px := as_i32 (gx + as_i32 xx) in
    let py := as_i32 (gy + as_i32 yy) in
    if in_text_box l px py then
      let? alpha := index bitmap (yy * metrics_width metrics + xx) in
      if 0 <? alpha then set px py (255 - alpha) c else Ok c
    else Ok c) c in
  Ok (c, as_i64 (pen_units + x_advance info)).

Definition draw_embedded_line (l : TextLayout) (face : Face) (font : Font) (text : list Z) (baseline : Z)
    (c : GrayRaster) : Render GrayRaster :=
  let? advance := embedded_advance face text (l_size l) in
  let origin := align_horizontal (l_horizontal l) (l_x l) (l_w l) advance in
  let? 'result := for_each (draw_glyph l face font origin baseline) (shape_text face text) (c, 0) in
  Ok (fst result).

Definition text_embedded (l : TextLayout) (s bytes : list Z) (c : GrayRaster) : Render GrayRaster :=
  let? face := raising (ok_or (face_from_slice bytes) (RenderError.Font (str "cannot parse OpenType face"))) in
  let? font := raising (map_err RenderError.Font (font_from_bytes bytes)) in
  let? size :=
    if is_shrink (l_overflow l) then
      shrink (fun size => let? advance := embedded_advance face s size in
                          Ok ((l_w l <? advance) || (l_h l <? size))) (l_size l)
    else Ok (l_size l) in
  let l := with_size size l in
  let? lines := if wraps (l_overflow l) then embedded_wrap face s (l_size l) (l_w l) else Ok [s] in
  let lines :=
    if is_auto_height (l_overflow l) then lines
    else take (Z.to_nat (Z.max (Z.quot (l_h l) (Z.max (l_size l) 1)) 1)) lines in
  let total_height := as_i32 (zlen lines * l_size l) in
  let top := align_vertical (l_vertical l) (l_y l) (l_h l) total_height in
  for_each (fun '(line_index, line) c =>
    draw_embedded_line l face font line (as_i32 (top + line_index * l_size l + l_size l)) c) (enumerate lines) c.

(** ** Barcodes *)

(** ["Ɓ"], which selects code set B. *)
Definition CODE_B : list Z := [0xc6; 0x81].

Definition barcode_bits (symbology : BarcodeSymbology) (data : list Z) : Render (list bool) :=
  match symbology with
  | Code39 => code39 data
  | Ean13 => ean data 13
  | UpcA => ean data 12
  | Code128 =>
      let? encoded := raising (map_err RenderError.Barcode (code128 (CODE_B ++ data))) in
      Ok (map (fun x => negb (x =? 0)) encoded)
  end.

Definition div_i32 (a b : Z) : Render Z := if b =? 0 then Err Panicked else Ok (as_i32 (Z.quot a b)).

Definition barcode (x y w h : Z) (symbology : BarcodeSymbology) (human_readable : bool) (data : list Z)
    (c : GrayRaster) : Render GrayRaster :=
  let? bits := barcode_bits symbology data in
  let? quotient := div_i32 w (as_i32 (zlen bits)) in
  let module := Z.max quotient 1 in
  let total := as_i32 (module * as_i32 (zlen bits)) in
  let start := as_i32 (x + Z.quot (as_i32 (w - total)) 2) in
  let bar_height := if human_readable then Z.max (as_i32 (h - 10)) 1 else h in
  let? c := for_each (fun '(i, b) c =>
    if (b : bool) then rect (as_i32 (start + as_i32 i * module)) y module bar_height true 1 c else Ok c)
    (enumerate bits) c in
  if human_readable then
    text {| l_x := x; l_y := as_i32 (y + bar_height); l_w := w; l_h := as_i32 (h - bar_height); l_size := 8;
            l_horizontal := AlignCenter; l_vertical := AlignBottom; l_overflow := ShrinkToFit |} data c
  else Ok c.

Definition qr (x y w h : Z) (data : list Z) (level : QrCorrection) (quiet_zone : Z) (c : GrayRaster) : Render GrayRaster :=
  let? 'code := raising (ok_or (qr_code data level) RenderError.Qr) in
  let '(width, dark) := code in
  let n := as_i32 width in
  let margin := Z.min quiet_zone 16 in
  let total := as_i32 (n + 2 * margin) in
  let? quotient := div_i32 (Z.min w h) total in
  let scale := Z.max quotient 1 in
  let ox := as_i32 (x + Z.quot (as_i32 (w - total * scale)) 2 + margin * scale) in
  let oy := as_i32 (y + Z.quot (as_i32 (h - total * scale)) 2 + margin * scale) in
  for_grid (range 0 n) (range 0 n) (fun xx yy c =>
    if dark xx yy then rect (as_i32 (ox + xx * scale)) (as_i32 (oy + yy * scale)) scale scale true 1 c else Ok c) c.

End Typeset.
