(* ===== verification/DrawingFacts.v ===== *)
(** Drawing never panics and stays where it should: every operation on a
    canvas leaves a canvas of the same size, whatever the coordinates, except
    that strokes need coordinates that do not wrap. *)

From stdpp Require Import base list list_numbers sets strings numbers option.
From S2P Require Import Prelude Text Capabilities MonoRaster MonoRasterFacts Document Sheet RenderTypes Barcode Geometry GeometryFacts Canvas CanvasFacts PasteFacts TextDrawing.

#[local] Open Scope Z_scope.

Section Drawn.
(** The size of the canvas, the canvas at the start, and the area that may change. *)
Context (X : RenderError.t -> Prop) (W H : Z) (c0 : GrayRaster) (B : Z -> Z -> Prop).

Record drawn (c : GrayRaster) : Prop := {
  drawn_wf : gray_wf c;
  drawn_width : g_width c = W;
  drawn_height : g_height c = H;
  drawn_outside : forall x y, on_canvas W H x y -> ~ B x y -> pixel c x y = pixel c0 x y;
}.

Lemma drawn_plots g P f c : plots W H g P f -> (forall x y, P x y -> B x y) -> drawn c -> outcome X drawn (f c).
Proof.
  intros Hf HP [Hwf Hw Hh Hout]. destruct (Hf c Hwf Hw Hh) as (c' & -> & Hwf' & Hw' & Hh' & Hp). cbn. split; [done..|].
  intros x y Hxy Hb. rewrite <- Hout by done. destruct (Hp x y Hxy) as [_ [?|HP']]; [done|]. by destruct Hb; apply HP.
Qed.

Lemma drawn_set x y v c : drawn c -> 0 <= v < 256 -> B x y -> outcome X drawn (set x y v c).
Proof. intros Hc Hv Hb. eapply (drawn_plots (fun _ _ _ => v)); [by apply plots_set| |done]. by intros ? ? [-> ->]. Qed.

Lemma drawn_grid xs ys (f : Z -> Z -> GrayRaster -> Render GrayRaster) c :
  drawn c -> (forall x y c, x ∈ xs -> y ∈ ys -> drawn c -> outcome X drawn (f x y c)) -> outcome X drawn (for_grid xs ys f c).
Proof. intros Hc Hf. apply safe_for_each; [done|]. intros y c' Hy Hc'. apply safe_for_each; [done|]. intros x c'' Hx Hc''. by apply Hf. Qed.
End Drawn.

(** ** Text *)

Section Text.
Context (X : RenderError.t -> Prop) (W H : Z) (c0 : GrayRaster) (l : TextLayout).
Let B x y := in_text_box l x y = true.
#[local] Abbreviation ok := (drawn W H c0 B).

(** Law of the libraries: what the renderer relies on. *)
Context `{TS : Typesetter}.

Lemma draw_char_safe scale cx cy rows c : ok c -> outcome X ok (draw_char l scale cx cy rows c).
Proof.
  intros Hc. apply safe_for_each; [done|]. intros [row bits] c' _ Hc'. apply safe_for_each; [done|]. intros col c'' _ Hc''.
  destruct (_ =? 0); [done|]. apply drawn_grid; [done|]. intros xx yy c3 _ _ Hc3. cbn zeta.
  match goal with |- context [in_text_box l ?a ?b] => destruct (in_text_box l a b) eqn:Hin end; [|done].
  by apply drawn_set.
Qed.

Lemma draw_text_line_safe scale cy line_text c : ok c -> outcome X ok (draw_text_line l scale cy line_text c).
Proof.
  intros Hc. unfold draw_text_line. apply (outcome_bind _ _ (fun s => ok (fst s))); [|by intros [c' cx']].
  apply safe_for_each; [done|]. intros ch [c' cx'] _ Hc'. cbn [fst] in *. destruct (basic_font ch) as [rows|]; [|done].
  apply (outcome_bind _ _ ok); [by apply draw_char_safe|done].
Qed.

Lemma shrink_safe too_large v : (forall v, outcome X (fun _ => True) (too_large v)) -> outcome X (fun _ => True) (shrink (E := Fault RenderError.t) too_large v).
Proof.
  intros Ht. unfold shrink. generalize (Z.to_nat v). intros fuel. revert v. induction fuel as [|fuel IH]; intros v; [done|]. cbn [shrink_loop].
  destruct (v <=? 1); [done|]. apply (outcome_bind _ _ (fun _ => True)); [apply Ht|]. intros [|] _; [apply IH|done].
Qed.

Lemma text_safe s c : ok c -> outcome X ok (text l s c).
Proof.
  intros Hc. unfold text. apply (outcome_bind _ _ (fun _ => True)).
  { unfold text_scale. destruct (is_shrink _); [by apply shrink_safe|done]. }
  intros scale _. apply (outcome_bind _ _ (fun s => ok (fst s))); [|by intros [c' cy']].
  apply safe_for_each; [done|]. intros line_text [c' cy'] _ Hc'. cbn [fst] in *.
  apply (outcome_bind _ _ ok); [by apply draw_text_line_safe|done].
Qed.
End Text.

(** ** Libraries *)

(** What the renderer relies on: a parsed face has a scale, a glyph has as
    many coverage bytes as its size says, a Code 128 symbol has eleven modules
    for each character and for its start, check and stop characters (two more for
    the last), and a QR code has a size. *)
Class LawfulTypesetter `{Typesetter} : Prop := {
  face_scaled bytes face : face_from_slice bytes = Some face -> 0 < units_per_em face;
  glyph_covered font index size metrics bitmap :
    rasterize_indexed font index size = (metrics, bitmap) ->
    zlen bitmap = metrics_width metrics * metrics_height metrics /\ bytes_ok bitmap;
  code128_length data bits : code128 data = Ok bits -> 0 < zlen bits <= 11 * (zlen data + 3) + 2;
  qr_width data level width dark : qr_code data level = Some (width, dark) -> 21 <= width <= 177;
}.

(** ** Embedded fonts *)

Section Embedded.
Context `{TS : Typesetter} `{LT : !LawfulTypesetter}.
Context (face : Face) (Hface : 0 < units_per_em face).

Lemma scale_units_ok size units : exists v, scale_units face size units = Ok v.
Proof. unfold scale_units. rewrite (proj2 (Z.eqb_neq _ 0)) by lia. by eexists. Qed.

Lemma embedded_advance_ok text size : exists v, embedded_advance face text size = Ok v.
Proof. apply scale_units_ok. Qed.

Lemma embedded_wrap_safe text size width : safe (fun _ => True) (embedded_wrap face text size width).
Proof.
  unfold embedded_wrap. apply (outcome_bind _ _ (fun _ => True)); [|done]. apply safe_for_each; [done|]. intros paragraph lines _ _.
  apply (outcome_bind _ _ (fun _ => True)); [|done]. apply safe_for_each; [done|]. intros word [ls line] _ _.
  unfold embedded_wrap_word. destruct (embedded_advance_ok (if nonempty line then line ++ [32] ++ word else word) size) as [a ->].
  cbn [rbind]. destruct (a <=? width); [done|].
  destruct (if nonempty line then (ls ++ [line], []) else (ls, line)) as [ls' line']. apply safe_for_each; [done|].
  intros ch [ls2 line2] _ _. unfold embedded_wrap_char. destruct (nonempty line2).
  - destruct (embedded_advance_ok (line2 ++ ch) size) as [b ->]. cbn [rbind]. by destruct (width <? b).
  - done.
Qed.

Section Layout.
Context (W H : Z) (c0 : GrayRaster) (l : TextLayout).
Let B x y := in_text_box l x y = true.
#[local] Abbreviation ok := (drawn W H c0 B).

Lemma draw_glyph_safe font origin baseline info s : ok (fst s) -> safe (fun s => ok (fst s)) (draw_glyph l face font origin baseline info s).
Proof.
  destruct s as [c pen]. cbn [fst]. intros Hc. unfold draw_glyph. destruct (rasterize_indexed _ _ _) as [metrics bitmap] eqn:Hr.
  apply glyph_covered in Hr as [Hlen Hbytes]. destruct (scale_units_ok (l_size l) (as_i64 (pen + x_offset info))) as [u ->]. cbn [rbind].
  destruct (scale_units_ok (l_size l) (y_offset info)) as [v ->]. cbn [rbind]. apply (outcome_bind _ _ ok); [|done].
  apply drawn_grid; [done|]. intros xx yy c' Hx%elem_of_range Hy%elem_of_range Hc'. cbn zeta.
  match goal with |- context [in_text_box l ?a ?b] => destruct (in_text_box l a b) eqn:Hin end; [|done].
  apply (outcome_bind _ _ byte_ok).
  - apply safe_index; [rewrite Hlen; nia|]. intros a Ha. by eapply Forall_lookup_1.
  - intros alpha Ha. unfold byte_ok in Ha. destruct (Z.ltb_spec 0 alpha); [|done]. apply drawn_set; [done|lia|done].
Qed.

Lemma draw_embedded_line_safe font text baseline c : ok c -> safe ok (draw_embedded_line l face font text baseline c).
Proof.
  intros Hc. unfold draw_embedded_line. destruct (embedded_advance_ok text (l_size l)) as [a ->]. cbn [rbind].
  apply (outcome_bind _ _ (fun s => ok (fst s))); [|done]. apply safe_for_each; [done|]. intros info s _. apply draw_glyph_safe.
Qed.
End Layout.
End Embedded.

Section EmbeddedText.
Context `{TS : Typesetter} `{LT : !LawfulTypesetter} (W H : Z) (c0 : GrayRaster) (l : TextLayout).
Let B x y := in_text_box l x y = true.
#[local] Abbreviation ok := (drawn W H c0 B).

Lemma text_embedded_safe s bytes c : ok c -> safe ok (text_embedded l s bytes c).
Proof.
  intros Hc. unfold text_embedded. apply (outcome_bind _ _ (fun face => 0 < units_per_em face)).
  { apply safe_raising. intros face Hf%ok_or_Ok. by eapply face_scaled. }
  intros face Hface. apply (outcome_bind _ _ (fun _ => True)); [by apply safe_raising|]. intros font _.
  apply (outcome_bind _ _ (fun _ => True)).
  { destruct (is_shrink _); [|done]. apply shrink_safe. intros size. destruct (embedded_advance_ok face Hface s size) as [a ->]. done. }
  intros size _. cbn zeta. apply (outcome_bind _ _ (fun _ => True)).
  { destruct (wraps _); [by apply embedded_wrap_safe|done]. }
  intros lines _. apply safe_for_each; [done|]. intros [i line] c' _ Hc'.
  change (fun x y => in_text_box l x y = true) with (fun x y => in_text_box (with_size size l) x y = true) in *.
  by apply draw_embedded_line_safe.
Qed.
End EmbeddedText.

(** ** Barcodes *)

Section Codes.
Context `{TS : Typesetter} `{LT : !LawfulTypesetter} (W H : Z) (c0 : GrayRaster).
Let anywhere (x y : Z) := True.
#[local] Abbreviation ok := (drawn W H c0 anywhere).

(** Where everything may change, only the size is kept. *)
Lemma drawn_anywhere c1 B c : drawn W H c1 B c -> ok c.
Proof. intros [? ? ? ?]. split; [done..|]. intros x y _ Hn. by destruct Hn. Qed.

Lemma drawn_start B c : ok c -> drawn W H c B c.
Proof. intros [? ? ? ?]. by split. Qed.

Lemma filled_rect_safe {X} x y w h t c : ok c -> outcome X ok (rect x y w h true t c).
Proof. intros Hc. unfold rect. apply drawn_grid; [done|]. intros xx yy c' _ _ Hc'. by apply drawn_set. Qed.

Lemma symbols_length_le l : Forall (fun c => c ∈ CHARS) l -> zlen (symbols_39 l) <= 16 * zlen l.
Proof.
  induction 1 as [|c l Hc Hl IH]; [done|]. destruct (character_in c Hc) as [Hlen _].
  rewrite zlen_cons. destruct l as [|d l].
  - unfold zlen. cbn [symbols_39 length]. rewrite Hlen. cbn. lia.
  - change (symbols_39 (c :: d :: l)) with (symbol_39 c ++ [false] ++ symbols_39 (d :: l)). rewrite !zlen_app.
    unfold zlen at 1 2. rewrite Hlen. cbn [length]. lia.
Qed.

Lemma safe_of {A} (Q : A -> Prop) (r : Render A) : panics r = false -> (forall a, r = Ok a -> Q a) -> safe Q r.
Proof. destruct r as [a|[e|]]; cbn; auto; discriminate. Qed.

Lemma barcode_bits_length symbology data : safe (fun bits => 0 < zlen bits <= 16 * (zlen data + 8)) (barcode_bits symbology data).
Proof.
  destruct symbology; cbn [barcode_bits].
  - apply (outcome_bind _ _ (fun e => 0 < zlen e <= 11 * (zlen (CODE_B ++ data) + 3) + 2)).
    + apply safe_raising. intros e He. apply map_err_Ok in He. by eapply code128_length.
    + intros e He. cbn. unfold zlen in *. rewrite length_map. rewrite length_app in He. cbn [CODE_B length] in He. lia.
  - pose proof (zlen_nonneg data). apply safe_of; [apply ean_ends; by left|]. intros m Hm. rewrite (ean_length 13 data m) by (done || by left). lia.
  - pose proof (zlen_nonneg data). apply safe_of; [apply ean_ends; by right|]. intros m Hm. rewrite (ean_length 12 data m) by (done || by right). lia.
  - apply safe_of; [apply code39_ends|]. intros m Hm. apply code39_spec in Hm as [Htext ->].
    pose proof (symbols_length_le _ Htext) as Hle. pose proof (symbols_length _ Htext) as Hge. unfold text_39 in *.
    rewrite !zlen_app in Hle. rewrite !length_app in Hge. unfold zlen in *. rewrite length_map in *. cbn [length str] in *. lia.
Qed.

Lemma text_anywhere {X} l s c : ok c -> outcome X ok (text l s c).
Proof.
  intros Hc. eapply outcome_mono; [by apply (text_safe X W H c l s c), drawn_start|]. intros c'. apply drawn_anywhere.
Qed.

Lemma text_embedded_anywhere l s bytes c : ok c -> safe ok (text_embedded l s bytes c).
Proof.
  intros Hc. eapply outcome_mono; [by apply (text_embedded_safe W H c l s bytes c), drawn_start|]. intros c'. apply drawn_anywhere.
Qed.

Lemma barcode_safe x y w h symbology human_readable data c :
  zlen data <= 2 ^ 26 -> ok c -> safe ok (barcode x y w h symbology human_readable data c).
Proof.
  intros Hdata Hc. unfold barcode. eapply outcome_bind; [apply barcode_bits_length|]. intros bits Hbits. cbn beta in Hbits.
  rewrite small_i32 by lia. unfold div_i32. rewrite (proj2 (Z.eqb_neq _ 0)) by lia. cbn [rbind].
  apply (outcome_bind _ _ ok).
  - apply safe_for_each; [done|]. intros [i b] c' _ Hc'. destruct b; [by apply filled_rect_safe|done].
  - intros c' Hc'. destruct human_readable; [by apply text_anywhere|done].
Qed.

Lemma qr_safe x y w h data level quiet_zone c : 0 <= quiet_zone -> ok c -> safe ok (qr x y w h data level quiet_zone c).
Proof.
  intros Hq Hc. unfold qr. apply (outcome_bind _ _ (fun code => 21 <= fst code <= 177)).
  { apply safe_raising. intros [n dark] Hn%ok_or_Ok. by eapply qr_width. }
  intros [n dark] Hn. cbn [fst] in Hn. rewrite (small_i32 n), (small_i32 (n + 2 * Z.min quiet_zone 16)) by lia.
  unfold div_i32. rewrite (proj2 (Z.eqb_neq _ 0)) by lia. cbn [rbind]. apply drawn_grid; [done|].
  intros xx yy c' _ _ Hc'. destruct (dark xx yy); [by apply filled_rect_safe|done].
Qed.

(** ** Shapes *)

Lemma plots_anywhere {X} g P f c : plots W H g P f -> ok c -> outcome X ok (f c).
Proof. intros Hf Hc. by eapply drawn_plots. Qed.

Lemma ellipse_safe {X} x y w h fill t c : ok c -> outcome X ok (ellipse x y w h fill t c).
Proof.
  intros Hc. unfold ellipse. apply drawn_grid; [done|]. intros xx yy c' _ _ Hc'. cbn zeta. destruct (_ && _); [by apply drawn_set|done].
Qed.

Lemma filled_triangle_safe {X} x y w h t c : ok c -> outcome X ok (triangle x y w h true t c).
Proof.
  intros Hc. unfold triangle. apply safe_for_each; [done|]. intros yy c' _ Hc'. apply safe_for_each; [done|]. intros xx c'' _ Hc''.
  by apply drawn_set.
Qed.

(** ** Pictures *)

Lemma paste_scaled_safe source x y w h c : gray_wf source -> ok c -> safe ok (paste_scaled source x y w h c).
Proof.
  intros Hs Hc. pose proof Hs as (Hsw & Hsh & Harea & _). unfold paste_scaled. apply drawn_grid; [done|].
  intros xx yy c' Hx%elem_of_range Hy%elem_of_range Hc'. cbn zeta.
  assert (forall a n s, 0 <= a < n -> 0 < s -> 0 <= Z.min (a * s / n) (saturate u32_max (s - 1)) < s) as Hin.
  { intros a n s Ha Hn. pose proof (scaled_position a n s Ha Hn). unfold saturate, u32_max. lia. }
  pose proof (Hin xx w (g_width source) Hx Hsw) as Gx. pose proof (Hin yy h (g_height source) Hy Hsh) as Gy.
  rewrite (idx32_small _ (g_height source)) by done. destruct (gray_pixel source _ _ Hs Gx Gy) as [-> Hb]. cbn [rbind]. by apply drawn_set.
Qed.

Lemma paste_fit_safe source x y w h preserve c : gray_wf source -> ok c -> safe ok (paste_fit source x y w h preserve c).
Proof.
  intros Hs Hc. pose proof Hs as (Hsw & Hsh & Harea & _). unfold u32_max in Harea. unfold paste_fit.
  destruct preserve; [|by apply paste_scaled_safe]. cbn [negb].
  assert (1 <= g_width source * g_height source) as Hpos by nia.
  rewrite (as_i64_id (g_width source * g_height source)) by (unfold i64_min, i64_max; lia).
  unfold div_i64. rewrite (proj2 (Z.eqb_neq _ 0)) by lia. cbn [rbind]. by apply paste_scaled_safe.
Qed.

Lemma rotate_pixel_safe layer p dx dy c :
  gray_wf layer -> g_width layer = W -> g_height layer = H -> on_canvas W H dx dy -> ok c -> safe ok (rotate_pixel layer p dx dy c).
Proof.
  intros Hl Hlw Hlh [Hx Hy] Hc. pose proof Hc as [Hwf Hw Hh _]. unfold rotate_pixel. destruct (rotated_point p dx dy) as [sx sy].
  assert (forall v, 0 < v <= u32_max -> as_i32 v <= v) as Hcast.
  { intros v Hv. unfold as_i32, as_u32, u32_max in *. rewrite Z.mod_small by lia. unfold to_signed. case_match; lia. }
  pose proof Hl as (HW & HH & Harea & _). unfold u32_max in *.
  assert (g_width layer <= 4294967295 /\ g_height layer <= 4294967295) as [? ?] by nia.
  pose proof (Hcast (g_width layer) ltac:(lia)). pose proof (Hcast (g_height layer) ltac:(lia)).
  destruct (_ && _ && _ && _) eqn:Hin; [|done]. rewrite !andb_true_iff, !Z.leb_le, !Z.ltb_lt in Hin.
  destruct (gray_pixel layer sx sy Hl) as [-> Hbs]; [lia|lia|]. cbn [rbind]. destruct (_ <? 255); [|done].
  destruct (gray_pixel c dx dy Hwf) as [-> Hb]; [by rewrite Hw|by rewrite Hh|]. cbn [rbind].
  rewrite assign_in_range by (destruct Hwf as (_ & _ & _ & -> & _); rewrite Hw, Hh; by apply pix_range). cbn [rbind safe].
  split; try done. unfold gray_wf, with_pixels in *. cbn [g_width g_height g_pixels]. rewrite zlen_insert.
  destruct Hwf as (? & ? & ? & ? & ?). split_and!; try done. apply Forall_insert; [done|unfold byte_ok; lia].
Qed.

Lemma rotate_layer_safe layer p c :
  gray_wf layer -> g_width layer = W -> g_height layer = H -> ok c -> safe ok (rotate_layer layer p c).
Proof.
  intros Hl Hlw Hlh Hc. pose proof Hc as [Hwf Hw Hh _]. pose proof Hl as (HW & HH & Harea & _). unfold rotate_layer.
  assert (in_u u64_max (diagonal_squared p)) as Hd.
  { unfold diagonal_squared. destruct (checked u64_max _) as [v|] eqn:Hv; [by apply checked_Some in Hv as [? ->]|done]. }
  destruct (integer_sqrt_ceil_spec _ Hd) as (r & -> & _). cbn [rbind]. rewrite Hw, Hh. apply drawn_grid; [done|].
  assert (forall v, 0 < v <= u32_max -> as_i32 (as_i32 v - 1) + 1 <= v) as Hcast.
  { intros v Hv. unfold as_i32, as_u32, u32_max in *. rewrite (Z.mod_small v) by lia. unfold to_signed at 2. case_match eqn:Hlt.
    - rewrite Z.mod_small by lia. unfold to_signed. case_match; lia.
    - destruct (decide (v = 2147483648)) as [->|Hne]; [done|]. change (8 * Z.of_nat 4 - 1) with 31 in Hlt. apply Z.ltb_ge in Hlt.
      change (2 ^ (8 * Z.of_nat 4)) with 4294967296 in *. rewrite <- (Z_mod_plus_full _ 1). rewrite Z.mod_small by lia. unfold to_signed. case_match; lia. }
  unfold u32_max in *. assert (W <= 4294967295 /\ H <= 4294967295) as [? ?] by nia.
  pose proof (Hcast W ltac:(lia)). pose proof (Hcast H ltac:(lia)).
  intros dx dy c' Hx%elem_of_range Hy%elem_of_range Hc'. apply rotate_pixel_safe; try done. unfold on_canvas. lia.
Qed.
End Codes.
