(* ===== verification/Resources.v ===== *)
(** Images and drawings embedded in documents as gray rasters
    (crates/mb-printer-core/src/resources.rs).

    The image decoder and the SVG renderer are libraries: an [ImageCodec].

    Decoded pictures are within the pixel limit, well formed, and composited over
    white. *)

From stdpp Require Import base list list_numbers sets strings numbers option.
From S2P Require Import Prelude Text Capabilities MonoRaster MonoRasterFacts Document DocumentFacts.

#[local] Open Scope Z_scope.

(** ** Libraries *)

(** [image::Limits] as the source sets them. *)
Record ImageLimits := { max_image_width : option Z; max_image_height : option Z; max_alloc : option Z }.

(** [image::ImageError]: whether a limit was exceeded, and its text. *)
Record ImageError := { is_limits : bool; image_error_text : list Z }.

(** Four bytes of a pixel: red, green, blue and alpha. *)
Abbreviation Pixel := (Z * Z * Z * Z)%type.

Class ImageCodec := {
  ImageReader : Type;
  with_guessed_format : list Z -> Result ImageError ImageReader;
  DynamicImage : Type;
  decode_reader : ImageReader -> ImageLimits -> Result ImageError DynamicImage;
  has_alpha : DynamicImage -> bool;
  to_luma8 : DynamicImage -> GrayRaster;
  (** Width, height and pixels of [to_rgba8]. *)
  to_rgba8 : DynamicImage -> Z * Z * list Pixel;
  (** [GrayImage::from_raw]. *)
  gray_from_raw : Z -> Z -> list Z -> option GrayRaster;
  SvgTree : Type;
  tree_from_str : list Z -> Result (list Z) SvgTree;
  (** [tree.size().to_int_size()]. *)
  int_size : SvgTree -> Z * Z;
  (** [Pixmap::new], and the pixels of [resvg::render] over white. *)
  pixmap_fits : Z -> Z -> bool;
  render_tree : SvgTree -> Z -> Z -> list Pixel;
}.

(** ** Errors *)

Module ResourceError.
Inductive t :=
| Base64
| MediaType (media : list Z)
| Image (e : ImageError)
| Svg (why : list Z)
| TooLarge.

(** Its [Display]. *)
Definition show (e : t) : list Z :=
  match e with
  | Base64 => str "invalid base64 resource"
  | MediaType media => str "unsupported media type: " ++ media
  | Image e => str "image decode failed: " ++ image_error_text e
  | Svg why => str "SVG parse failed: " ++ why
  | TooLarge => str "resource raster is too large"
  end.
End ResourceError.

Definition Normalized (A : Type) : Type := Result (Fault ResourceError.t) A.

(** ** UTF-8 errors *)

(** The [Display] of the [Utf8Error] of an ill-formed string. *)
Fixpoint utf8_error_loop (fuel : nat) (i : Z) (s : list Z) : option (list Z) :=
  match fuel, s with
  | O, _ | _, [] => None
  | S fuel, b0 :: rest =>
      let '(valid, n) := utf8_step b0 rest in
      if valid then utf8_error_loop fuel (i + Z.of_nat n) (drop n s)
      else if (n =? length s)%nat && between 0xc2 0xf4 b0
      then Some (str "incomplete utf-8 byte sequence from index " ++ show_dec i)
      else Some (str "invalid utf-8 sequence of " ++ show_dec (Z.of_nat n) ++ str " bytes from index " ++ show_dec i)
  end.

(** [std::str::from_utf8(..).map_err(|e| e.to_string())]. *)
Definition checked_utf8 (s : list Z) : Result (list Z) (list Z) :=
  match utf8_error_loop (length s) 0 s with Some e => Err e | None => Ok s end.

Section Normalize.
Context `{ImageCodec}.
Variable base64_decode : list Z -> option (list Z).

(** ** Raster images *)

(** The luminance of a pixel over white, in [u32]. *)
Definition luma_on_white (p : Pixel) : Z :=
  let '(r, g, b, a) := p in
  let luma := (2126 * r + 7152 * g + 722 * b) / 10000 in
  as_u8 ((luma * a + 255 * (255 - a) + 127) / 255).

Definition flatten_on_white (image : DynamicImage) : Normalized GrayRaster :=
  if negb (has_alpha image) then Ok (to_luma8 image)
  else
    let '(width, height, pixels) := to_rgba8 image in
    ok_or (gray_from_raw width height (map luma_on_white pixels)) Panicked.

Definition decode_image (bytes : list Z) (max_pixels : Z) : Normalized GrayRaster :=
  let? reader := raising (map_err ResourceError.Image (with_guessed_format bytes)) in
  let maximum_dimension := default u32_max (checked u32_max max_pixels) in
  let decode_limits :=
    {| max_image_width := Some maximum_dimension; max_image_height := Some maximum_dimension;
       max_alloc := checked u64_max (max_pixels * 8) |} in
  let? image := raising (map_err (fun error => if is_limits error then ResourceError.TooLarge else ResourceError.Image error)
                           (decode_reader reader decode_limits)) in
  let? image := flatten_on_white image in
  if max_pixels <? g_width image * g_height image then fail ResourceError.TooLarge else Ok image.

(** ** Drawings *)

Definition forbidden : list (list Z) :=
  let quote := [34] in
  [str "href=" ++ quote ++ str "http://"; str "href=" ++ quote ++ str "https://"; str "href='http://"; str "href='https://";
   str "url(http://"; str "url(https://"; str "href=" ++ quote ++ str "file:"; str "href='file:"].

(** The weights of the color channels, in [u16]. *)
Definition svg_luma (p : Pixel) : Z :=
  let '(r, g, b, _) := p in as_u8 (as_u16 (r * 54 + g * 183 + b * 19 + 128) / 256).

Definition decode_svg (bytes : list Z) (max_pixels : Z) : Normalized GrayRaster :=
  let? text := raising (map_err ResourceError.Svg (checked_utf8 bytes)) in
  if existsb (fun needle => str_contains needle text) forbidden
  then fail (ResourceError.Svg (str "external resources are forbidden"))
  else
    let? tree := raising (map_err ResourceError.Svg (tree_from_str text)) in
    let '(width, height) := int_size tree in
    if max_pixels <? width * height then fail ResourceError.TooLarge
    else if negb (pixmap_fits width height) then fail ResourceError.TooLarge
    else Ok {| g_width := width; g_height := height; g_pixels := map svg_luma (render_tree tree width height) |}.

(** ** Resources *)

Definition decode_error (error : ResourceDecodeError.t) : ResourceError.t :=
  match error with
  | ResourceDecodeError.Invalid => ResourceError.Base64
  | ResourceDecodeError.EncodedTooLarge | ResourceDecodeError.DecodedTooLarge => ResourceError.TooLarge
  end.

Definition normalize_with_limits (resource : Resource) (limits : ProcessingLimits) : Normalized GrayRaster :=
  let? bytes := raising (map_err decode_error (decoded_bytes_with_limits base64_decode resource limits)) in
  let media := media_type resource in
  if bool_decide (media = str "image/png") || bool_decide (media = str "image/jpeg")
  then decode_image bytes (max_resource_pixels limits)
  else if bool_decide (media = str "image/svg+xml") then decode_svg bytes (max_resource_pixels limits)
  else fail (ResourceError.MediaType media).

Definition with_max_resource_pixels (max_pixels : Z) (l : ProcessingLimits) : ProcessingLimits :=
  {| max_elements := max_elements l; max_resources := max_resources l; max_resource_bytes := max_resource_bytes l;
     max_decoded_resource_bytes := max_decoded_resource_bytes l; max_resource_pixels := max_pixels;
     max_canvas_pixels := max_canvas_pixels l; max_total_pixels := max_total_pixels l; max_pages := max_pages l;
     max_copies := max_copies l; max_plan_actions := max_plan_actions l; max_plan_bytes := max_plan_bytes l;
     max_output_bytes := max_output_bytes l; max_sheet_slots := max_sheet_slots l; max_sheet_items := max_sheet_items l |}.

Definition normalize (resource : Resource) (max_pixels : Z) : Normalized GrayRaster :=
  normalize_with_limits resource (with_max_resource_pixels max_pixels ProcessingLimits_default).

End Normalize.

(** * Properties *)

(** A raster of positive size with a byte for each of its pixels. *)
Definition raster_of_size (r : GrayRaster) : Prop :=
  0 < g_width r /\ 0 < g_height r /\ zlen (g_pixels r) = g_width r * g_height r /\ bytes_ok (g_pixels r).

Definition pixel_ok (p : Pixel) : Prop :=
  let '(r, g, b, a) := p in byte_ok r /\ byte_ok g /\ byte_ok b /\ byte_ok a.

(** What the renderer relies on: decoded images and drawings have a positive
    size and as many pixels as it says; [from_raw] wraps them. *)
Class LawfulCodec `{ImageCodec} : Prop := {
  luma8_sized image : raster_of_size (to_luma8 image);
  rgba8_sized image width height pixels :
    to_rgba8 image = (width, height, pixels) ->
    0 < width /\ 0 < height /\ zlen pixels = width * height /\ Forall pixel_ok pixels;
  from_raw_wraps width height pixels :
    zlen pixels = width * height ->
    gray_from_raw width height pixels = Some {| g_width := width; g_height := height; g_pixels := pixels |};
  int_size_positive tree width height : int_size tree = (width, height) -> 0 < width /\ 0 < height;
  rendered_sized tree width height :
    pixmap_fits width height = true -> zlen (render_tree tree width height) = width * height;
}.

(** ** Luminance *)

Definition luma (r g b : Z) : Z := (2126 * r + 7152 * g + 722 * b) / 10000.

Lemma luma_bounds r g b : byte_ok r -> byte_ok g -> byte_ok b -> 0 <= luma r g b <= 255.
Proof. unfold byte_ok, luma. intros. split; [apply Z.div_pos; lia|apply Z.div_le_upper_bound; lia]. Qed.

(** The mix of the luminance and white by alpha, to the nearest of 255 parts. *)
Lemma luma_on_white_spec r g b a :
  pixel_ok (r, g, b, a) ->
  luma_on_white (r, g, b, a) = (luma r g b * a + 255 * (255 - a) + 127) / 255 /\
  byte_ok (luma_on_white (r, g, b, a)) /\ luma r g b <= luma_on_white (r, g, b, a).
Proof.
  intros (Hr & Hg & Hb & Ha). pose proof (luma_bounds r g b Hr Hg Hb) as Hl. unfold luma_on_white. fold (luma r g b).
  set (l := luma r g b) in *. unfold byte_ok in Ha.
  assert (l <= (l * a + 255 * (255 - a) + 127) / 255 <= 255) as Hv.
  { split; [apply Z.div_le_lower_bound; nia|]. apply Z.lt_succ_r, Z.div_lt_upper_bound; nia. }
  rewrite as_u8_id by (unfold byte_ok; lia). unfold byte_ok. split_and!; lia.
Qed.

Lemma luma_transparent r g b : pixel_ok (r, g, b, 0) -> luma_on_white (r, g, b, 0) = 255.
Proof. intros Hp. rewrite (proj1 (luma_on_white_spec r g b 0 Hp)). by rewrite Z.mul_0_r. Qed.

Lemma luma_opaque r g b : pixel_ok (r, g, b, 255) -> luma_on_white (r, g, b, 255) = luma r g b.
Proof.
  intros Hp. rewrite (proj1 (luma_on_white_spec r g b 255 Hp)). destruct Hp as (Hr & Hg & Hb & _).
  rewrite Z.sub_diag, Z.mul_0_r, Z.add_0_r, Z.add_comm, Z.div_add by lia. by rewrite Z.div_small by lia.
Qed.

Lemma svg_luma_byte p : byte_ok (svg_luma p).
Proof. destruct p as [[[r g] b] a]. apply as_u8_ok. Qed.

(** ** Decoding *)

Section Codec.
Context `{IC : ImageCodec} `{LC : !LawfulCodec}.
Variable base64_decode : list Z -> option (list Z).

(** A picture that the renderer may paste. *)
Definition picture (max_pixels : Z) (r : GrayRaster) : Prop := raster_of_size r /\ g_width r * g_height r <= max_pixels.

(** [r] does not panic, and its value satisfies [Q]. *)
Definition decodes (Q : GrayRaster -> Prop) (r : Normalized GrayRaster) : Prop := panics r = false /\ forall a, r = Ok a -> Q a.

Lemma decodes_err Q e : decodes Q (fail e).
Proof. done. Qed.

Lemma decodes_raised {A} Q (r : Result ResourceError.t A) k :
  (forall a, r = Ok a -> decodes Q (k a)) -> decodes Q (let? a := raising r in k a).
Proof. destruct r as [a|e]; intros Hk; [by apply Hk|done]. Qed.

Lemma flatten_sized image : exists r, flatten_on_white image = Ok r /\ raster_of_size r.
Proof.
  unfold flatten_on_white. destruct (has_alpha image); cbn [negb].
  - destruct (to_rgba8 image) as [[w h] pixels] eqn:E. destruct (rgba8_sized _ _ _ _ E) as (Hw & Hh & Hl & Hp).
    rewrite from_raw_wraps by (unfold zlen in *; rewrite length_map; lia). eexists. split; [done|].
    unfold raster_of_size. cbn [g_width g_height g_pixels]. split_and!; [done|done|unfold zlen in *; rewrite length_map; lia|].
    apply Forall_map. eapply list.Forall_impl; [exact Hp|]. intros [[[r g] b] a] Hpx. by apply luma_on_white_spec.
  - eexists. split; [done|apply luma8_sized].
Qed.

Lemma decode_image_spec bytes max_pixels : decodes (picture max_pixels) (decode_image bytes max_pixels).
Proof.
  unfold decode_image. apply decodes_raised. intros reader _. cbn zeta. apply decodes_raised. intros image _.
  destruct (flatten_sized image) as (r & -> & Hr). cbn [rbind]. destruct (Z.ltb_spec max_pixels (g_width r * g_height r)); [done|].
  split; [done|]. intros a [= <-]. by split.
Qed.

Lemma decode_svg_spec bytes max_pixels : decodes (picture max_pixels) (decode_svg bytes max_pixels).
Proof.
  unfold decode_svg. apply decodes_raised. intros text _. destruct (existsb _ _); [done|]. apply decodes_raised. intros tree _.
  destruct (int_size tree) as [w h] eqn:E. destruct (int_size_positive _ _ _ E) as [Hw Hh].
  destruct (Z.ltb_spec max_pixels (w * h)); [done|]. destruct (pixmap_fits w h) eqn:Hf; cbn [negb]; [|done].
  split; [done|]. intros a [= <-]. split; [|done]. unfold raster_of_size. cbn [g_width g_height g_pixels]. split_and!; [done|done| |].
  - unfold zlen. rewrite length_map. by apply rendered_sized.
  - apply Forall_map, list.Forall_forall. intros p _. apply svg_luma_byte.
Qed.

Lemma normalize_spec resource limits :
  decodes (picture (max_resource_pixels limits)) (normalize_with_limits base64_decode resource limits).
Proof.
  unfold normalize_with_limits. apply decodes_raised. intros bytes _. destruct (_ || _); [apply decode_image_spec|].
  case_bool_decide; [apply decode_svg_spec|apply decodes_err].
Qed.
End Codec.
