(* ===== verification/Media.v ===== *)
(** The media catalogue (crates/mb-printer-core/src/media.rs): which media a
    model carries, and the preset of a reported size.

    The bundled JSON catalogues are data: a
    [MediaCatalogues] is what they parse to.

    The preset of a reported size is the first that matches. *)

From stdpp Require Import base list sets strings numbers option.
From S2P Require Import Prelude Capabilities Float.

#[local] Open Scope Z_scope.

(** ** Catalogues *)

Record MediaPreset := {
  preset_id : string;
  preset_name : string;
  width_mm : f64;
  height_mm : f64;
  preset_shape : string;
  tape_width_mm : option Z;
  printable_width_dots : option Z;
  printable_length_dots : option Z;
  offset_right_dots : option Z;
  feed_margin_dots : option Z;
}.

(** The models of each catalogue by identifier. *)
Record MediaCatalogues := {
  brother_models : string -> option (list MediaPreset);
  phomemo_models : string -> option (list MediaPreset);
  phomemo_max_width_mm : string -> option f64;
}.

Section Catalogue.
Variable catalogues : MediaCatalogues.

Definition head_width_mm (printer : PrinterDefinition) : option f64 :=
  (fun bytes => f64_div (f64_mul (f64_mul (f64_of_Z bytes) (f64_of_Z 8)) (f64_lit 254 10)) (f64_of_Z (dpi printer)))
    <$> pd_width_bytes printer.

Definition max_media_width_mm (printer : PrinterDefinition) : option f64 :=
  match phomemo_max_width_mm catalogues (pd_id printer) with
  | Some w => Some w
  | None => head_width_mm printer
  end.

(** On tape it is the tape width that crosses the head. *)
Definition across (preset : MediaPreset) : f64 :=
  match tape_width_mm preset with Some w => f64_of_Z w | None => width_mm preset end.

Definition accepts (widest : option f64) (preset : MediaPreset) : bool :=
  match widest with None => true | Some widest => f64_leb (across preset) (f64_add widest (f64_of_Z 1)) end.

Definition presets_for (printer : PrinterDefinition) : list MediaPreset :=
  if bool_decide (label_presets printer = Some "dk"%string) then default [] (brother_models catalogues (pd_id printer))
  else
    match phomemo_models catalogues (pd_id printer) with
    | None => []
    | Some catalogue => List.filter (accepts (max_media_width_mm printer)) catalogue
    end.

Definition TOLERANCE : f64 := f64_lit 3 2.

Definition close (l r : f64) : bool := f64_leb (f64_abs (f64_sub l r)) TOLERANCE.

Definition die_cut_matches (w h : f64) (preset : MediaPreset) : bool :=
  f64_ltb (f64_of_Z 0) (height_mm preset)
  && ((close (width_mm preset) w && close (height_mm preset) h)
      || (close (width_mm preset) h && close (height_mm preset) w)).

Definition continuous_matches (w : f64) (preset : MediaPreset) : bool :=
  f64_eqb (height_mm preset) (f64_of_Z 0) && close (width_mm preset) w.

Definition match_media (printer : PrinterDefinition) (w h : f64) : option MediaPreset :=
  let presets := presets_for printer in
  match List.find (die_cut_matches w h) presets with
  | Some preset => Some preset
  | None => List.find (continuous_matches w) presets
  end.

End Catalogue.

(** * Properties *)

(** ** The first of a list *)

Lemma find_first {A} (f : A -> bool) l a :
  List.find f l = Some a <-> exists before after, l = before ++ a :: after /\ f a = true /\ Forall (fun b => f b = false) before.
Proof.
  induction l as [|x l IH]; cbn [List.find].
  - split; [done|]. intros (before & after & E & _). by destruct before.
  - destruct (f x) eqn:Hx.
    + split.
      * intros [= <-]. by exists [], l.
      * intros ([|y before] & after & E & Ha & Hb); injection E as -> ->; [done|]. apply Forall_cons_1 in Hb as [Hy _]. congruence.
    + rewrite IH. split.
      * intros (before & after & -> & Ha & Hb). exists (x :: before), after. split_and!; [done|done|by constructor].
      * intros ([|y before] & after & E & Ha & Hb); injection E as -> ->; [congruence|]. apply Forall_cons_1 in Hb as [_ Hb]. eauto.
Qed.

Lemma find_none {A} (f : A -> bool) l : List.find f l = None <-> Forall (fun a => f a = false) l.
Proof.
  induction l as [|x l IH]; cbn [List.find]; [by split|]. destruct (f x) eqn:Hx.
  - split; [done|]. intros H%Forall_cons_1. destruct H. congruence.
  - rewrite IH. split; [by constructor|by intros [_ ?]%Forall_cons_1].
Qed.

Lemma find_ext {A} (f g : A -> bool) l : (forall a, f a = g a) -> List.find f l = List.find g l.
Proof. intros Hfg. induction l as [|x l IH]; cbn [List.find]; [done|]. by rewrite Hfg, IH. Qed.

(** ** Matching *)

Lemma die_cut_turned w h preset : die_cut_matches w h preset = die_cut_matches h w preset.
Proof. unfold die_cut_matches. by rewrite orb_comm. Qed.

(** [preset] is the first of [presets] that satisfies [f]. *)
Definition first_match (f : MediaPreset -> bool) (presets : list MediaPreset) (preset : MediaPreset) : Prop :=
  exists before after, presets = before ++ preset :: after /\ f preset = true /\ Forall (fun b => f b = false) before.

(** The preset of a reported size is the first die-cut label of the model
    that matches it in either orientation; when there is none, the first
    continuous roll of its width; and none only when neither matches. A model
    with a catalogue of its own is offered all of it, any other only the media
    that is at most a millimetre wider than the widest it accepts: the stated
    width, or else the head. *)
Theorem media_matched catalogues printer w h :
  let presets := presets_for catalogues printer in
  (forall preset, match_media catalogues printer w h = Some preset <->
    first_match (die_cut_matches w h) presets preset \/
    (Forall (fun p => die_cut_matches w h p = false) presets /\ first_match (continuous_matches w) presets preset)) /\
  (match_media catalogues printer w h = None <->
    Forall (fun p => die_cut_matches w h p = false /\ continuous_matches w p = false) presets) /\
  (forall preset, die_cut_matches w h preset = die_cut_matches h w preset) /\
  (forall preset, preset ∈ presets ->
    if bool_decide (label_presets printer = Some "dk"%string)
    then exists l, brother_models catalogues (pd_id printer) = Some l /\ preset ∈ l
    else exists l, phomemo_models catalogues (pd_id printer) = Some l /\ preset ∈ l /\
         accepts (max_media_width_mm catalogues printer) preset = true).
Proof.
  cbn zeta. split; [|split; [|split; [intros; apply die_cut_turned|]]].
  - intros preset. unfold match_media, first_match. destruct (List.find (die_cut_matches w h) _) as [p|] eqn:Hd.
    + pose proof Hd as Hfirst. apply find_first in Hfirst. split; [intros [= <-]; by left|].
      intros [Hp|[Hnone _]]; [by apply find_first in Hp; rewrite <- Hp|]. apply find_none in Hnone. congruence.
    + pose proof Hd as Hnone. apply find_none in Hnone. rewrite find_first. split; [by right|].
      intros [Hp|[_ Hp]]; [apply find_first in Hp; congruence|done].
  - unfold match_media. destruct (List.find (die_cut_matches w h) _) as [p|] eqn:Hd.
    + split; [done|]. intros Hall. apply find_first in Hd as (before & after & E & Hp & _). rewrite E in Hall.
      apply list.Forall_app in Hall as [_ [[? _] _]%Forall_cons_1]. congruence.
    + apply find_none in Hd. rewrite find_none. rewrite !list.Forall_forall in *. naive_solver.
  - intros preset. unfold presets_for. case_bool_decide.
    + destruct (brother_models _ _) as [l|]; [|by intros ?%elem_of_nil]. intros Hp. by exists l.
    + destruct (phomemo_models _ _) as [l|]; [|by intros ?%elem_of_nil]. intros [Hp Ha]%list_elem_of_In%filter_In.
      exists l. split; [done|]. by split; [apply list_elem_of_In|].
Qed.
