(* ===== verification/Renderer.v ===== *)
(** Documents to rasters (crates/mb-printer-core/src/render.rs): drawing the
    elements in order under a pixel budget, measuring their ink, and the raster
    that a printer receives.

    The canvas and the budget that the code passes by mutable reference are a
    pair that every drawing step returns. *)

From stdpp Require Import base list strings numbers option.
From S2P Require Import Prelude Text Capabilities ProtocolTypes MonoRaster Document Sheet RenderTypes Barcode Geometry Canvas TextDrawing Resources Float Media.

#[local] Open Scope Z_scope.

(** [serde_json::Value]: the accessors that the renderer uses. *)
Class JsonView (Json : Type) := {
  json_get : Json -> list Z -> option Json;
  json_as_str : Json -> option (list Z);
  json_as_bool : Json -> option bool;
  json_as_u64 : Json -> option Z;
}.

(** ** Errors of validation *)

(** The [Display] of a [ValidationError]. *)
Definition show_validation_error (e : ValidationError.t) : list Z :=
  match e with
  | ValidationError.Version => str "document version must be 4"
  | ValidationError.Name => str "document name must not be empty"
  | ValidationError.Media => str "media dimensions, DPI and printable bounds must be positive and contained"
  | ValidationError.DuplicateId id => str "duplicate or empty identifier: " ++ id
  | ValidationError.MissingResource id => str "missing resource: " ++ id
  | ValidationError.ResourceHash id => str "resource hash mismatch: " ++ id
  | ValidationError.ResourceEncoding id => str "invalid resource encoding: " ++ id
  | ValidationError.Geometry id => str "element geometry must be positive: " ++ id
  | ValidationError.ExtensionNamespace key => str "extension key must be namespaced: " ++ key
  | ValidationError.Zone id => str "invalid zone: " ++ id
  | ValidationError.Reference what => str "invalid group/reference: " ++ what
  | ValidationError.Cycle what => str "group or zone cycle: " ++ what
  | ValidationError.ResourceMedia id => str "resource has incompatible media type: " ++ id
  | ValidationError.Element id => str "invalid element property: " ++ id
  | ValidationError.Limit what => str "document exceeds processing limit: " ++ str what
  end.

(** [errors.iter().map(ToString::to_string).join("; ")]. *)
Fixpoint join_errors (errors : list ValidationError.t) : list Z :=
  match errors with
  | [] => []
  | [e] => show_validation_error e
  | e :: errors => show_validation_error e ++ str "; " ++ join_errors errors
  end.

(** ** Drawing order *)

Section SortByKey.
Context {A : Type} (key : A -> Z).

Fixpoint insert_by_key (x : A) (l : list A) : list A :=
  match l with
  | [] => [x]
  | y :: l' => if key x <=? key y then x :: l else y :: insert_by_key x l'
  end.

(** [slice::sort_by_key], which is stable. *)
Definition sort_by_key (l : list A) : list A := foldr insert_by_key [] l.
End SortByKey.

Section Render.
Context `{Typesetter} `{ImageCodec} {Json : Type} `{JsonView Json}.
Variable base64_decode : list Z -> option (list Z).
Variable sha256 : list Z -> list Z.
Implicit Types (doc : Document Json) (e : Element.t).

(** [doc.extensions.get(key)]. *)
Definition extension doc (key : list Z) : option Json :=
  snd <$> List.find (fun '(k, _) => bool_decide (k = key)) (extensions doc).

Definition options_for_document doc : RenderOptions :=
  let setting := extension doc (str "makersbrain.render:dither") in
  let algorithm := (value ← setting; value ← json_get value (str "algorithm"); json_as_str value) in
  let threshold := default 128 (value ← setting; value ← json_get value (str "threshold"); value ← json_as_u64 value;
                                checked u8_max value) in
  let dither :=
    match algorithm with
    | Some name =>
        if bool_decide (name = str "auto") then Auto
        else if bool_decide (name = str "threshold") then Threshold threshold
        else if bool_decide (name = str "bayer") then Bayer4
        else if bool_decide (name = str "floyd-steinberg") then FloydSteinberg
        else if bool_decide (name = str "atkinson") then Atkinson
        else option_dither RenderOptions_default
    | None => option_dither RenderOptions_default
    end in
  {| option_dither := dither; max_pixels := max_pixels RenderOptions_default |}.

Definition image_is_inverted doc (element_id : list Z) : bool :=
  default false (value ← extension doc (str "makersbrain.render:images");
                 value ← json_get value element_id; value ← json_get value (str "invert"); json_as_bool value).

(** ** One element *)

Definition find_resource doc (id : list Z) : option Resource :=
  List.find (fun r => bool_decide (resource_id r = id)) (resources doc).

Definition stroke_dots (stroke_width dpi : Z) : Z := as_i32 (Z.max (micrometres_to_dots stroke_width dpi) 1).

Definition font_bytes doc (limits : ProcessingLimits) (id : list Z) : Render (list Z) :=
  let? resource := raising (ok_or (find_resource doc id) (RenderError.Resource id)) in
  let? bytes := raising (map_err (fun _ => RenderError.Font id) (decoded_bytes_with_limits base64_decode resource limits)) in
  sfnt_bytes bytes limits.

Definition normalized_image doc (limits : ProcessingLimits) (id : list Z) : Render GrayRaster :=
  let? item := raising (ok_or (find_resource doc id) (RenderError.Resource id)) in
  map_raised (fun error => RenderError.Resource (ResourceError.show error)) (normalize_with_limits base64_decode item limits).

Definition invert (image : GrayRaster) : GrayRaster := with_pixels image (map (fun pixel => 255 - pixel) (g_pixels image)).

Definition preserves_aspect (c : Common) : bool :=
  match element_constraints c with Some constraints => preserve_aspect constraints | None => false end.

Definition pixel_count (image : GrayRaster) : Z := g_width image * g_height image.

(** The canvas and the budget after drawing. *)
Definition Drawn : Type := GrayRaster * RenderBudget.

(** A drawing that does not touch the budget. *)
Definition unpaid (draw : GrayRaster -> Render GrayRaster) (s : Drawn) : Render Drawn :=
  let? c := draw (fst s) in Ok (c, snd s).

Definition text_layout (p : Placement) (font_size dpi : Z) (ha : HorizontalAlign) (va : VerticalAlign) (o : TextOverflow) :
    TextLayout :=
  {| l_x := pl_x p; l_y := pl_y p; l_w := pl_w p; l_h := pl_h p; l_size := as_i32 (Z.max (micrometres_to_dots font_size dpi) 8);
     l_horizontal := ha; l_vertical := va; l_overflow := o |}.

Definition draw_at e (dpi : Z) doc (p : Placement) (limits : ProcessingLimits) (s : Drawn) : Render Drawn :=
  let x := pl_x p in
  let y := pl_y p in
  let w := pl_w p in
  let h := pl_h p in
  match e with
  | Element.Line _ stroke_width =>
      unpaid (line x y (as_i32 (x + w - 1)) (as_i32 (y + h - 1)) (stroke_dots stroke_width dpi)) s
  | Element.Rectangle _ stroke_width fill => unpaid (rect x y w h fill (stroke_dots stroke_width dpi)) s
  | Element.Ellipse _ stroke_width fill => unpaid (ellipse x y w h fill (stroke_dots stroke_width dpi)) s
  | Element.Triangle _ stroke_width fill => unpaid (triangle x y w h fill (stroke_dots stroke_width dpi)) s
  | Element.Text _ value font_resource font_size ha va overflow =>
      let layout := text_layout p font_size dpi ha va overflow in
      match font_resource with
      | Some id => let? bytes := font_bytes doc limits id in unpaid (text_embedded layout value bytes) s
      | None => unpaid (text layout value) s
      end
  | Element.Barcode _ data symbology human_readable => unpaid (barcode x y w h symbology human_readable data) s
  | Element.QrCode _ data error_correction quiet_zone => unpaid (qr x y w h data error_correction quiet_zone) s
  | Element.Image c resource crop =>
      let? image := normalized_image doc limits resource in
      let? budget := budget_add (pixel_count image) (snd s) in
      let? 'result :=
        match crop with
        | Some bounds =>
            let? cropped := crop_source image bounds (max_resource_pixels limits) in
            let? budget := budget_add (pixel_count cropped) budget in
            Ok (cropped, budget)
        | None => Ok (image, budget)
        end in
      let '(cropped, budget) := result in
      let cropped := if image_is_inverted doc (element_id c) then invert cropped else cropped in
      unpaid (paste_fit cropped x y w h (preserves_aspect c)) (fst s, budget)
  | Element.Svg c resource =>
      let? image := normalized_image doc limits resource in
      let? budget := budget_add (pixel_count image) (snd s) in
      unpaid (paste_fit image x y w h (preserves_aspect c)) (fst s, budget)
  | Element.Group _ _ => Ok s
  end.

Definition draw e (dpi : Z) doc (zone_override : option (list Z)) (limits : ProcessingLimits) (s : Drawn) : Render Drawn :=
  if is_group e then Ok s
  else
    let placement := placement_px (common e) dpi doc zone_override in
    if pl_rotation placement =? 0 then draw_at e dpi doc placement limits s
    else
      let '(c, budget) := s in
      let? pixels := raising (ok_or (checked u64_max (g_width c * g_height c)) RenderError.TooLarge) in
      let? budget := budget_add pixels budget in
      let? layer := new_canvas (g_width c) (g_height c) (max_canvas_pixels limits) in
      let? 'drawn := draw_at e dpi doc placement limits (layer, budget) in
      let '(layer, budget) := drawn in
      let? c := rotate_layer layer placement c in
      Ok (c, budget).

(** ** The document *)

Definition validated doc (limits : ProcessingLimits) : Render unit :=
  map_raised (fun errors => RenderError.Validation (join_errors errors)) (validate_with_limits base64_decode sha256 doc limits).

(** The zones other than [source] that clone it. *)
Definition cloning_zones doc (source : list Z) : list Zone :=
  List.filter (fun zone => negb (bool_decide (zone_id zone = source)) && zone_clones (zones (media doc)) (zone_id zone) source)
    (zones (media doc)).

Definition by_z_order doc : list Element.t := sort_by_key (fun e => z_order (common e)) (elements doc).

(** The body of the loop over the elements: the element, and its clones. *)
Definition draw_with_clones doc (limits : ProcessingLimits) e (s : Drawn) : Render Drawn :=
  if negb (effectively_visible e doc) then Ok s
  else
    let source := effective_zone e doc in
    let dpi := media_dpi (media doc) in
    let? s := draw e dpi doc source limits s in
    match source with
    | Some source => for_each (fun zone => draw e dpi doc (Some (zone_id zone)) limits) (cloning_zones doc source) s
    | None => Ok s
    end.

Definition u32_dots (value : Z) : Render Z := raising (ok_or (checked u32_max value) RenderError.TooLarge).

Definition canvas_pixels (width height : Z) : Render Z :=
  raising (ok_or (checked u64_max (width * height)) RenderError.TooLarge).

Definition render_with_limits doc (options : RenderOptions) (limits : ProcessingLimits) : Render MonoRaster :=
  let? _ := validated doc limits in
  let m := media doc in
  let? width := u32_dots (micrometres_to_dots (media_width m) (media_dpi m)) in
  let? height := u32_dots (micrometres_to_dots (media_height m) (media_dpi m)) in
  let max_pixels := Z.min (max_pixels options) (max_canvas_pixels limits) in
  let? pixels := canvas_pixels width height in
  let budget := budget_new (max_total_pixels limits) in
  let? budget := budget_add pixels budget in
  let? budget := budget_add pixels budget in
  let? canvas := new_canvas width height max_pixels in
  let? 'drawn := for_each (draw_with_clones doc limits) (by_z_order doc) (canvas, budget) in
  map_raised (fun _ => RenderError.TooLarge) (dither (fst drawn) (option_dither options)).

Definition render doc (options : RenderOptions) : Render MonoRaster := render_with_limits doc options ProcessingLimits_default.

Definition render_with_resource_limit doc (options : RenderOptions) (max_resource_pixels : Z) : Render MonoRaster :=
  render_with_limits doc options (with_max_resource_pixels max_resource_pixels ProcessingLimits_default).

(** ** Measurement *)

Record MeasuredElementBounds := {
  instance_id : list Z;
  source_element_id : list Z;
  measured_zone_id : option (list Z);
  measured_bounds : Bounds;
}.

Definition LAYOUT_VERSION : string := "mb-printer-layout-v1".

Record DocumentMeasurement := {
  measured_elements : list MeasuredElementBounds;
  content_bounds : option Bounds;
  layout_version : string;
}.

(** The zones an element is drawn in: its own, and those that clone it. *)
Definition element_zones doc e : list (option (list Z)) :=
  let source := effective_zone e doc in
  source :: match source with Some id => map (fun zone => Some (zone_id zone)) (cloning_zones doc id) | None => [] end.

Definition stroke_extension_dots e (dpi : Z) : Z :=
  match e with
  | Element.Line _ stroke_width | Element.Rectangle _ stroke_width _
  | Element.Ellipse _ stroke_width _ | Element.Triangle _ stroke_width _ => Z.quot (as_i32 (stroke_dots stroke_width dpi + 1)) 2
  | _ => 0
  end.

Definition auto_height_dots e (p : Placement) doc (limits : ProcessingLimits) : Render (option Z) :=
  match e with
  | Element.Text _ text font_resource font_size _ _ AutoHeight =>
      let size := as_i32 (Z.max (micrometres_to_dots font_size (media_dpi (media doc))) 8) in
      let? extent :=
        match font_resource with
        | Some id =>
            let? bytes := font_bytes doc limits id in
            let? face := raising (ok_or (face_from_slice bytes) (RenderError.Font (str "cannot parse OpenType face"))) in
            let? lines := embedded_wrap face text size (pl_w p) in
            Ok (as_i32 (zlen lines * size))
        | None =>
            let scale := Z.max (Z.quot size 8) 1 in
            Ok (as_i32 (zlen (wrap text (Z.max (Z.quot (pl_w p) (as_i32 (8 * scale))) 1)) * 8 * scale))
        end in
      Ok (Some (Z.max extent (pl_h p)))
  | _ => Ok None
  end.

(** The lowest dot that an element may reach. *)
Definition bottom_candidate e (p : Placement) doc (limits : ProcessingLimits) : Render Z :=
  if pl_rotation p =? 0 then
    let? extent := auto_height_dots e p doc limits in
    Ok (pl_y p + default (pl_h p) extent + stroke_extension_dots e (media_dpi (media doc)) + 2)
  else
    let? diagonal := integer_sqrt_ceil (diagonal_squared p) in
    let? half := raising (ok_or (checked_i64 (div_ceil diagonal 2)) RenderError.TooLarge) in
    Ok (as_i32 (pl_y p + Z.quot (pl_h p) 2) + half + 3).

Definition measurement_height_dots doc (limits : ProcessingLimits) : Render Z :=
  let m := media doc in
  let? bottom := for_each (fun e bottom =>
    if is_group e || negb (effectively_visible e doc) then Ok bottom
    else for_each (fun zone bottom =>
      let? candidate := bottom_candidate e (placement_px (common e) (media_dpi m) doc zone) doc limits in
      Ok (Z.max bottom candidate)) (element_zones doc e) bottom)
    (elements doc) (Z.max (micrometres_to_dots (media_height m) (media_dpi m)) 1) in
  u32_dots (Z.max bottom 1).

(** The ink of an element in one zone, on a layer of its own. *)
Definition measure_in_zone doc (limits : ProcessingLimits) (width height : Z) e (zone : option (list Z))
    (found : list MeasuredElementBounds) : Render (list MeasuredElementBounds) :=
  let dpi := media_dpi (media doc) in
  let? layer := new_canvas width height (max_canvas_pixels limits) in
  let? 'drawn := draw e dpi doc zone limits (layer, budget_new (max_total_pixels limits)) in
  let? ink := gray_ink_bounds (fst drawn) dpi in
  match ink with
  | Some bounds =>
      let source_id := element_id (common e) in
      Ok (found ++ [{| instance_id := match zone with None => source_id | Some zone => source_id ++ [64] ++ zone end;
                       source_element_id := source_id; measured_zone_id := zone; measured_bounds := bounds |}])
  | None => Ok found
  end.

(** [iter.reduce(union_physical_bounds)]. *)
Definition reduce_bounds (bounds : list Bounds) : option Bounds :=
  match bounds with
  | [] => None
  | b :: bounds => Some (fold_left union_physical_bounds bounds b)
  end.

Definition measure_with_limits doc (limits : ProcessingLimits) : Render DocumentMeasurement :=
  let? _ := validated doc limits in
  let m := media doc in
  let? width := u32_dots (micrometres_to_dots (media_width m) (media_dpi m)) in
  let? height := measurement_height_dots doc limits in
  let? pixels := canvas_pixels width height in
  if max_canvas_pixels limits <? pixels then fail RenderError.TooLarge
  else
    let? found := for_each (fun e found =>
      if is_group e || negb (effectively_visible e doc) then Ok found
      else for_each (measure_in_zone doc limits width height e) (element_zones doc e) found) (by_z_order doc) [] in
    Ok {| measured_elements := found; content_bounds := reduce_bounds (map measured_bounds found);
          layout_version := LAYOUT_VERSION |}.

(** ** For a printer *)

Variable catalogues : MediaCatalogues.

Definition brother_media (printer : PrinterDefinition) doc : option MediaPreset :=
  match protocol printer with
  | Brother =>
      let m := media doc in
      match_media catalogues printer (f64_div (f64_of_Z (media_width m)) (f64_of_Z 1000))
        (if continuous m then f64_of_Z 0 else f64_div (f64_of_Z (media_height m)) (f64_of_Z 1000))
  | _ => None
  end.

(** [option.filter(|height| *height > 0)]. *)
Definition positive (o : option Z) : option Z := v ← o; if 0 <? v then Some v else None.

Definition fit_of (alignment : Alignment) : Fit :=
  match alignment with
  | Capabilities.AlignLeft => FitLeft
  | Capabilities.AlignCenter => FitCenter
  | Capabilities.AlignRight => FitRight
  end.

(** Every error of placing and packing is [TooLarge]. *)
Definition too_large {A} (r : Checked A) : Render A := map_raised (fun _ => RenderError.TooLarge) r.

Definition render_for_printer_with_limits doc (printer : PrinterDefinition) (options : RenderOptions)
    (limits : ProcessingLimits) : Render Raster :=
  let? raster := render_with_limits doc options limits in
  let preset := brother_media printer doc in
  let? raster :=
    match preset ≫= printable_width_dots with
    | Some printable_width =>
        let printable_height := default (m_height raster) (positive (preset ≫= printable_length_dots)) in
        fit_mono_to_box raster printable_width printable_height
    | None => Ok raster
    end in
  let? raster := if rotated printer then too_large (rotate raster Clockwise90) else Ok raster in
  let? head := raising (ok_or (width_px printer) (RenderError.Resource (str "printer has media-dependent head width"))) in
  let? fitted_pixels := raising (ok_or (checked u64_max (head * m_height raster)) RenderError.TooLarge) in
  if (max_canvas_pixels limits <? fitted_pixels) || (max_total_pixels limits <? fitted_pixels) then fail RenderError.TooLarge
  else
    let? fitted :=
      match preset ≫= offset_right_dots with
      | Some offset_right =>
          let? offset_right := raising (ok_or (checked i32_max offset_right) RenderError.TooLarge) in
          too_large (place_on_head raster head FitRight (- offset_right) 0)
      | None => too_large (place_on_head_byte_aligned raster head (fit_of (alignment printer)) 0 0)
      end in
    let? data := too_large (pack_msb fitted) in
    Ok {| width_bytes := as_u16 (div_ceil head 8); height := m_height fitted; data := data |}.

Definition render_for_printer doc (printer : PrinterDefinition) (options : RenderOptions) : Render Raster :=
  render_for_printer_with_limits doc printer options ProcessingLimits_default.

End Render.
