(* ===== verification/SheetDocuments.v ===== *)
(** Sheets of documents (crates/mb-printer-core/src/sheet.rs, [pdf] and what
    only it calls): every document is checked, rendered at the density of the
    sheet and put on its slot. *)

From stdpp Require Import base list strings numbers option.
From S2P Require Import Prelude Text Capabilities ProtocolTypes MonoRaster Document RenderTypes Export Geometry Canvas TextDrawing Resources Media Renderer Sheet.

#[local] Open Scope Z_scope.

Section SheetDocuments.
Context `{TS : Typesetter} `{IC : ImageCodec} {Json : Type} `{JV : JsonView Json}.
Variable base64_decode : list Z -> option (list Z).
Variable sha256 : list Z -> list Z.

#[local] Abbreviation Checked A := (Result (Fault SheetError.t) A).

(** The body of the loop over the resources. *)
Definition check_encoded_size (limits : ProcessingLimits) (resource : Resource) (_ : unit) : Result SheetError.t unit :=
  let encoded := zlen (data_base64 resource) in
  if max_resource_bytes limits <? encoded then Err SheetError.LimitExceeded
  else
    let? estimated_decoded := ok_or (value ← checked usize_max (encoded + 3); checked usize_max (value / 4 * 3))
                                    SheetError.LimitExceeded in
    if max_decoded_resource_bytes limits <? estimated_decoded then Err SheetError.LimitExceeded else Ok tt.

Definition validate_document_limits (document : Document Json) (limits : ProcessingLimits) : Result SheetError.t unit :=
  if (max_elements limits <? zlen (elements document)) || (max_resources limits <? zlen (resources document))
  then Err SheetError.LimitExceeded
  else for_each (check_encoded_size limits) (resources document) tt.

(** [render_document.media.dpi = dpi]. *)
Definition media_with_dpi (m : Media) (dpi : Z) : Media := {|
  media_width := media_width m;
  media_height := media_height m;
  media_unit := media_unit m;
  media_dpi := dpi;
  orientation := orientation m;
  printable_bounds := printable_bounds m;
  shape := shape m;
  continuous := continuous m;
  zones := zones m;
|}.

Definition with_dpi (document : Document Json) (dpi : Z) : Document Json := {|
  version := version document;
  name := name document;
  media := media_with_dpi (media document) dpi;
  coordinate_system := coordinate_system document;
  elements := elements document;
  resources := resources document;
  fields := fields document;
  extensions := extensions document;
|}.

(** The label of a document. *)
Definition render_label (item : Z) (document : Document Json) (options : SheetOptions) (limits : ProcessingLimits) :
    Checked MonoRaster :=
  let render_document := with_dpi document (dpi options) in
  let render_options :=
    {| option_dither := option_dither (options_for_document render_document); max_pixels := max_canvas_pixels limits |} in
  map_raised (SheetError.Render item)
    (render_with_resource_limit base64_decode sha256 render_document render_options (max_resource_pixels limits)).

(** What one placement does to its page. *)
Definition place_document (documents : list (Document Json)) (plan : SheetPlan) (options : SheetOptions)
    (limits : ProcessingLimits) (placement : SheetPlacement) (page : MonoRaster) : Checked MonoRaster :=
  let? document := index documents (item placement) in
  let? raster := render_label (item placement) document options limits in
  let? slot := index (slots (layout plan)) (slot placement) in
  let? x := raising (dots_u32 (x_um slot) (dpi options)) in
  let? y := raising (dots_u32 (y_um slot) (dpi options)) in
  from_raster (blit page raster x y).

Definition pdf_documents_planned (documents : list (Document Json)) (plan : SheetPlan) (options : SheetOptions)
    (limits : ProcessingLimits) : Checked (list Z) :=
  let? pages := compose_pages (place_document documents plan options limits) plan options limits in
  raising (export_pages pages limits).

(** The checks on one document: the body of the loop in [pdf]. *)
Definition check_document (plan : SheetPlan) (limits : ProcessingLimits) (document : Z * Document Json) (_ : unit) :
    Checked unit :=
  let '(item, document) := document in
  let? _ := raising (validate_document_limits document limits) in
  let? _ := map_raised (SheetError.InvalidDocument item) (validate base64_decode sha256 document) in
  let? placement := index (placements plan) item in
  let? target := index (slots (layout plan)) (slot placement) in
  raising (ensure_size item (media_width (media document)) (media_height (media document)) target).

Definition pdf (documents : list (Document Json)) (definition : SheetDefinition) (options : SheetOptions)
    (limits : ProcessingLimits) : Checked (list Z) :=
  match documents with
  | [] => fail SheetError.EmptyJob
  | first :: _ =>
      if max_sheet_items limits <? zlen documents then fail SheetError.LimitExceeded
      else
        let? count := raising (ok_or (checked u32_max (zlen documents)) SheetError.LimitExceeded) in
        let? plan := raising (plan {| item_count := count; input_width_um := media_width (media first);
                                      input_height_um := media_height (media first) |} definition options limits) in
        let? _ := for_each (check_document plan limits) (enumerate documents) tt in
        pdf_documents_planned documents plan options limits
  end.
End SheetDocuments.
