(* ===== verification/RenderSamples.v ===== *)
(** Libraries and documents for examples: a font whose characters are blocks,
    a decoder whose pictures are single dots, and a label of three elements. *)

From stdpp Require Import base list list_numbers sets strings numbers option.
From S2P Require Import Prelude Text Capabilities MonoRaster MonoRasterFacts Document DocumentFacts Sheet RenderTypes Geometry Canvas CanvasFacts TextDrawing DrawingFacts Resources Media Renderer.

#[local] Open Scope Z_scope.

(** ** Libraries *)

(** A face is its number of units; a glyph is one dot; every character is a block. *)
Definition sample_typesetter : Typesetter := {|
  Face := Z;
  face_from_slice bytes := if bool_decide (bytes = []) then None else Some 1000;
  units_per_em face := face;
  shape_text _ s := map (fun ch => {| glyph_id := zlen ch; x_advance := 600; x_offset := 0; y_offset := 0 |}) (chars s);
  Font := list Z;
  font_from_bytes bytes := Ok bytes;
  rasterize_indexed _ _ _ := ({| metrics_xmin := 0; metrics_ymin := 0; metrics_width := 1; metrics_height := 1 |}, [255]);
  decompress_woff1 bytes := Some (drop 4 bytes);
  decompress_woff2 _ := None;
  basic_font ch := if is_white ch then None else Some (replicate 8 255);
  code128 data := if bool_decide (data = []) then Err [] else Ok (replicate (11 * length data + 35) 1);
  qr_code data _ := if bool_decide (data = []) then None else Some (21, fun x y => Z.even (x + y));
|}.

#[export] Instance sample_typesetter_lawful : @LawfulTypesetter sample_typesetter.
Proof.
  split; cbn.
  - intros bytes face Hf. case_bool_decide; [done|]. by injection Hf as <-.
  - intros font index size metrics bitmap [= <- <-]. split; [done|]. by repeat constructor.
  - intros data bits Hd. case_bool_decide; [done|]. injection Hd as <-. unfold zlen. rewrite length_replicate. lia.
  - intros data level width dark Hd. case_bool_decide; [done|]. by injection Hd as <- _.
Qed.

(** A picture is a transparent pixel, a drawing a black dot. *)
Definition sample_codec : ImageCodec := {|
  ImageReader := list Z;
  with_guessed_format bytes := Ok bytes;
  DynamicImage := unit;
  decode_reader _ _ := Ok ();
  has_alpha _ := true;
  to_luma8 _ := {| g_width := 1; g_height := 1; g_pixels := [0] |};
  to_rgba8 _ := (1, 1, [(0, 0, 0, 0)]);
  gray_from_raw width height pixels :=
    if zlen pixels =? width * height then Some {| g_width := width; g_height := height; g_pixels := pixels |} else None;
  SvgTree := unit;
  tree_from_str _ := Ok ();
  int_size _ := (1, 1);
  pixmap_fits width height := (width =? 1) && (height =? 1);
  render_tree _ _ _ := [(0, 0, 0, 255)];
|}.

#[export] Instance sample_codec_lawful : @LawfulCodec sample_codec.
Proof.
  split; cbn.
  - intros _. unfold raster_of_size. cbn. split_and!; [lia|lia|done|by repeat constructor].
  - intros _ w h pixels [= <- <- <-]. split_and!; [done|done|done|]. repeat constructor; unfold byte_ok; lia.
  - intros w h pixels Hl. by rewrite (proj2 (Z.eqb_eq _ _)).
  - intros _ w h [= <- <-]. done.
  - intros _ w h [->%Z.eqb_eq ->%Z.eqb_eq]%andb_true_iff. done.
Qed.

(** Extensions without values. *)
Definition sample_json : JsonView unit := {|
  json_get _ _ := None; json_as_str _ := None; json_as_bool _ := None; json_as_u64 _ := None |}.

(** ** A label *)

Definition sample_element (id : string) (order x width height : Z) : Common := {|
  element_id := str id;
  element_transform := {| t_x := x; t_y := 0; t_width := width; t_height := height; rotation_millidegrees := 0 |};
  z_order := order; visible := true; locked := false; group_id := None; element_constraints := None |}.

(** Sixteen by eight dots: a line over a box, and a character. *)
Definition sample_label : Document unit := {|
  version := 4;
  name := str "label";
  media := {| media_width := 2000; media_height := 1000; media_unit := Micrometre; media_dpi := 203; orientation := Landscape;
              printable_bounds := {| b_x := 0; b_y := 0; b_width := 2000; b_height := 1000 |};
              shape := ShapeRectangle; continuous := false; zones := [] |};
  coordinate_system := {| cs_unit := Micrometre; cs_origin := TopLeft; cs_rounding := HalfAwayFromZero |};
  elements := [
    Element.Line (sample_element "line" 1 0 800 800) 125;
    Element.Rectangle (sample_element "box" 0 0 800 800) 125 false;
    Element.Text (sample_element "text" 0 1000 1000 1000) (str "A") None 1000 AlignLeft AlignTop Clip];
  resources := [];
  fields := [];
  extensions := [] |}.

(** Nothing in the catalogues. *)
Definition sample_catalogues : MediaCatalogues := {|
  brother_models _ := None; phomemo_models _ := None; phomemo_max_width_mm _ := None |}.

(** Where the label has its elements: nothing depends on a zone. *)
Lemma sample_placement c zone :
  placement_px c 203 sample_label zone = placement_px c 203 sample_label None.
Proof.
  assert (forall o : option (list Z), (id ← o; find_zone (zones (media sample_label)) id) = None) as Hnone by by intros [].
  unfold placement_px. by rewrite !Hnone.
Qed.
