(* ===== verification/DrawingProperties.v ===== *)
(** What drawing promises: lines and shapes paint the dots of their geometry,
    pictures keep their shape, layers turn about the centre of their box, text
    stays in its box, and decoded pictures are composited over white. *)

From stdpp Require Import base list list_numbers sets strings numbers option.
From S2P Require Import Prelude Text Capabilities MonoRaster MonoRasterFacts Document DocumentFacts Sheet RenderTypes Geometry GeometryFacts Canvas CanvasFacts PasteFacts TextDrawing DrawingFacts Resources Media Renderer RenderSamples.

#[local] Open Scope Z_scope.

(** ** Lines *)

(** [v] is within half a dot of [k / n] of the way from [z0] to [z1]. *)
Definition half_a_dot (z0 z1 k n v : Z) : Prop := Z.abs (2 * n * (v - z0) - 2 * k * (z1 - z0)) <= n.

Lemma nearest_half_a_dot z0 z1 k n : 0 < n -> half_a_dot z0 z1 k n (z0 + direction z0 z1 * nearest k (Z.abs (z1 - z0)) n).
Proof.
  intros Hn. pose proof (nearest_spec k (Z.abs (z1 - z0)) n Hn). unfold half_a_dot, direction.
  destruct (Z.ltb_spec z0 z1); [rewrite (Z.abs_eq (z1 - z0)) in * by lia|rewrite (Z.abs_neq (z1 - z0)) in * by lia]; lia.
Qed.

(** The last step of a line. *)
Definition line_steps (x0 y0 x1 y1 : Z) : Z := Z.max (Z.abs (x1 - x0)) (Z.abs (y1 - y0)).

Lemma line_dot_ends x0 y0 x1 y1 :
  line_dot x0 y0 x1 y1 0 = (x0, y0) /\ line_dot x0 y0 x1 y1 (line_steps x0 y0 x1 y1) = (x1, y1).
Proof.
  unfold line_dot, line_steps. rewrite !nearest_zero, !nearest_end by lia. rewrite !direction_end.
  split; [|done]. f_equal; lia.
Qed.

Lemma nearest_step a n k : 0 <= a <= n -> 0 < n -> nearest k a n <= nearest (k + 1) a n <= nearest k a n + 1.
Proof. intros Ha Hn. pose proof (nearest_spec k a n Hn). pose proof (nearest_spec (k + 1) a n Hn). nia. Qed.

Lemma direction_abs z0 z1 u v : Z.abs (z0 + direction z0 z1 * u - (z0 + direction z0 z1 * v)) = Z.abs (u - v).
Proof. unfold direction. destruct (z0 <? z1); lia. Qed.

(** Both dots at most one dot apart in each direction. *)
Definition adjacent (p q : Z * Z) : Prop := Z.abs (p.1 - q.1) <= 1 /\ Z.abs (p.2 - q.2) <= 1.

Lemma line_dots_adjacent x0 y0 x1 y1 k :
  0 <= k < line_steps x0 y0 x1 y1 -> adjacent (line_dot x0 y0 x1 y1 k) (line_dot x0 y0 x1 y1 (k + 1)).
Proof.
  unfold line_steps, adjacent, line_dot. intros Hk. cbn [fst snd]. rewrite !direction_abs.
  pose proof (nearest_step (Z.abs (x1 - x0)) (Z.max (Z.abs (x1 - x0)) (Z.abs (y1 - y0))) k ltac:(lia) ltac:(lia)).
  pose proof (nearest_step (Z.abs (y1 - y0)) (Z.max (Z.abs (x1 - x0)) (Z.abs (y1 - y0))) k ltac:(lia) ltac:(lia)). lia.
Qed.

(** C34: A line whose ends and pen are within [2 ^ 28] dots ends, and paints
    black exactly the dots under a square pen that visits a connected chain of dots from the first end to the
    other: as many as the longer of the two distances and one, each within
    half a dot of the segment in both directions. Other dots keep their
    values; those outside the canvas are clipped. *)
Theorem line_drawn W H x0 y0 x1 y1 t :
  small x0 -> small y0 -> small x1 -> small y1 -> 0 <= t <= 2 ^ 28 ->
  plots W H black (on_line x0 y0 x1 y1 t) (line x0 y0 x1 y1 t) /\
  line_dot x0 y0 x1 y1 0 = (x0, y0) /\ line_dot x0 y0 x1 y1 (line_steps x0 y0 x1 y1) = (x1, y1) /\
  (forall k, 0 <= k < line_steps x0 y0 x1 y1 -> adjacent (line_dot x0 y0 x1 y1 k) (line_dot x0 y0 x1 y1 (k + 1))) /\
  (forall k, 0 < line_steps x0 y0 x1 y1 ->
    half_a_dot x0 x1 k (line_steps x0 y0 x1 y1) (line_dot x0 y0 x1 y1 k).1 /\
    half_a_dot y0 y1 k (line_steps x0 y0 x1 y1) (line_dot x0 y0 x1 y1 k).2).
Proof.
  intros. destruct (line_dot_ends x0 y0 x1 y1) as [E0 E1].
  split; [by apply paints_line|]. split; [done|]. split; [done|]. split; [apply line_dots_adjacent|].
  intros k Hn. split; by apply nearest_half_a_dot.
Qed.

(** A line along a row of [2 ^ 31] dots leaves the row at its first step, as
    twice the distance wraps. *)
Lemma far_line_leaves_its_row fuel c :
  line_loop (S fuel) 0 0 i32_max 0 i32_max 0 1 (-1) i32_max 0 c =
  (let? c := stamp 0 0 0 c in line_loop fuel 0 (-1) i32_max 0 i32_max 0 1 (-1) (-2) 0 c).
Proof. done. Qed.

Lemma line_drawn_witness :
  exists c, line 0 0 4 2 1 (blank 5 3) = Ok c /\ pixel c 0 0 = 0 /\ pixel c 2 1 = 0 /\ pixel c 4 0 = 255.
Proof.
  destruct (line_drawn 5 3 0 0 4 2 1) as [Hp _]; [unfold small; lia..|].
  destruct (Hp (blank 5 3)) as (c & E & _ & _ & _ & Hc); [by apply blank_wf|done|done|].
  exists c. split; [exact E|]. split; [|split].
  - apply (Hc 0 0); [unfold on_canvas; lia|]. exists 0. vm_compute. by split_and!.
  - apply (Hc 2 1); [unfold on_canvas; lia|]. exists 2. vm_compute. by split_and!.
  - revert E. vm_compute. intros [= <-]. reflexivity.
Defined.

(** ** Shapes *)

(** C35: Shapes paint black exactly the dots of their geometry, for boxes
    whose coordinates and areas do not wrap: a filled rectangle its box; an outlined
    one, four strokes of its width inside the box; a filled ellipse the
    dots of the box inside the inscribed ellipse, an outlined one those of them
    near its edge; a filled triangle the dots between its sides at each
    height, an outlined one its three lines. No filled shape paints outside
    its box but for the foot of the triangle, which may be one dot wider. *)
Theorem shapes_drawn W H x y w h t :
  box_ok x y w h -> w * h <= 2 ^ 29 -> 0 <= t <= 2 ^ 26 ->
  plots W H black (in_box x y w h) (rect x y w h true t) /\
  plots W H black (on_outline x y w h t) (rect x y w h false t) /\
  (forall fill, plots W H black (in_ellipse x y w h fill t) (ellipse x y w h fill t)) /\
  plots W H black (in_triangle x y w h) (triangle x y w h true t) /\
  plots W H black (on_triangle x y w h t) (triangle x y w h false t) /\
  (forall px py, in_ellipse x y w h true t px py -> in_box x y w h px py) /\
  (forall px py, in_triangle x y w h px py -> in_box x y (w + 1) h px py) /\
  (2 * t <= w -> 2 * t <= h -> forall px py, on_outline x y w h t px py -> in_box x y w h px py).
Proof.
  intros Hbox Hwh Ht. pose proof Hbox as (_ & _ & Hw & Hh). split; [by apply paints_filled_rect|]. split; [by apply paints_outline|].
  split; [intros fill; by apply paints_ellipse|]. split; [apply paints_filled_triangle; [done|lia]|]. split; [by apply paints_triangle|].
  split; [by intros px py [? _]|]. split; [|unfold on_outline, in_box; intros; lia].
  intros px py [Hy Hx]. unfold in_box. split; [|done].
  assert ((py - y) * w / 2 / h <= w / 2) as Hhalf.
  { rewrite Z.div_div, (Z.mul_comm 2 h), <- Z.div_div by lia. apply Z.div_le_mono; [lia|]. apply Z.div_le_upper_bound; nia. }
  pose proof (Z.div_mod w 2 ltac:(lia)). pose proof (Z.mod_pos_bound w 2 ltac:(lia)). lia.
Qed.

Lemma shapes_drawn_witness :
  exists c, triangle 0 0 4 2 true 1 (blank 5 3) = Ok c /\ pixel c 2 0 = 0 /\ in_box 0 0 5 2 2 0.
Proof.
  destruct (shapes_drawn 5 3 0 0 4 2 1) as (_ & _ & _ & Hp & _ & _ & Hin & _); [unfold box_ok; lia|lia..|].
  destruct (Hp (blank 5 3)) as (c & E & _ & _ & _ & Hc); [by apply blank_wf|done|done|].
  assert (in_triangle 0 0 4 2 2 0) as Ht by (unfold in_triangle; vm_compute; split_and!; done).
  exists c. split; [exact E|]. split; [by apply (Hc 2 0); [unfold on_canvas|]|by apply Hin].
Defined.

(** ** Pictures *)

(** A picture is decoded, cropped and pasted: the crop is the part of the
    picture that its corner and size select, or an error when it is empty
    or too large; the box it fills is the whole box of the element, or the
    largest box of the shape of the picture that fits, one side whole, in the
    middle; each of its dots shows the pixel at the same fraction of the
    picture, and no other dot changes. *)
Theorem picture_pasted W H source crop limit x y w h (preserve : bool) :
  gray_wf source -> box_ok x y w h ->
  (let cw := crop_width source crop in
   let ch := crop_height source crop in
   if (cw =? 0) || (ch =? 0) || (limit <? cw * ch) then crop_source source crop limit = fail RenderError.TooLarge
   else exists out, crop_source source crop limit = Ok out /\ gray_wf out /\ g_width out = cw /\ g_height out = ch /\
     forall X Y, 0 <= X < cw -> 0 <= Y < ch -> pixel out X Y = pixel source (crop_x source crop + X) (crop_y source crop + Y)) /\
  (let ow := if preserve then fit_width source w h else w in
   let oh := if preserve then fit_height source w h else h in
   let ox := x + (w - ow) / 2 in
   let oy := y + (h - oh) / 2 in
   plots W H (fun px py _ => sample source ox oy ow oh px py) (in_box ox oy ow oh) (paste_fit source x y w h preserve) /\
   1 <= ow <= w /\ 1 <= oh <= h /\ (ow = w \/ oh = h)).
Proof.
  intros Hs Hbox. split; [by apply crop_source_spec|]. cbn zeta. split; [by apply plots_paste_fit|].
  destruct Hbox as (_ & _ & Hw & Hh). destruct preserve; [|lia]. apply fit_sides; [done|lia|lia].
Qed.

(** Two pixels, one dark. *)
Definition two_pixels : GrayRaster := {| g_width := 2; g_height := 1; g_pixels := [10; 200] |}.

Lemma picture_pasted_witness :
  exists c, paste_fit two_pixels 0 0 4 4 true (blank 4 4) = Ok c /\
  pixel c 1 1 = 10 /\ pixel c 2 2 = 200.
Proof.
  destruct (picture_pasted 4 4 two_pixels {| b_x := 0; b_y := 0; b_width := 1; b_height := 1 |} 10 0 0 4 4 true) as (_ & Hp & _).
  { unfold gray_wf. cbn. split_and!; [done..|]. repeat constructor; unfold byte_ok; lia. } { unfold box_ok. lia. }
  destruct (Hp (blank 4 4)) as (c & E & _ & _ & _ & Hc); [by apply blank_wf|done|done|].
  exists c. split; [exact E|]. clear E Hp. split.
  - destruct (Hc 1 1) as [Hv _]; [unfold on_canvas; lia|]. rewrite Hv; [vm_compute; reflexivity|vm_compute; by split_and!].
  - destruct (Hc 2 2) as [Hv _]; [unfold on_canvas; lia|]. rewrite Hv; [vm_compute; reflexivity|vm_compute; by split_and!].
Defined.

(** A rotated element is drawn on a layer that is then turned: every dot
    of the canvas within the circle around the box becomes the darker of
    itself and the dot of the layer that the rotation takes to it, and no
    other dot changes; the square root that bounds the circle always ends.
    A half turn is exact: it takes each dot to its reflection in the centre. *)
Theorem layer_turned W H layer p :
  W <= 2 ^ 26 -> H <= 2 ^ 26 -> gray_wf layer -> g_width layer = W -> g_height layer = H -> placement_ok p ->
  (exists radius, 0 <= radius <= 2 ^ 27 /\ pl_w p ^ 2 + pl_h p ^ 2 <= (2 * radius) ^ 2 /\
    plots W H (darker W H layer p) (within_reach p radius) (rotate_layer layer p)) /\
  (pl_rotation p = 180000 -> forall dx dy, on_canvas W H dx dy ->
    rotated_point p dx dy = (2 * pl_x p + pl_w p - 1 - dx, 2 * pl_y p + pl_h p - 1 - dy)).
Proof.
  intros HW HH Hl Hlw Hlh Hp. split; [by apply plots_rotate|]. intros Hr dx dy [Hx Hy]. by apply (half_turn W H).
Qed.

(** A layer of three by one dots, of which the first is black. *)
Definition dark_corner : GrayRaster := {| g_width := 3; g_height := 1; g_pixels := [0; 255; 255] |}.

Definition turned_box : Placement := {| pl_x := 0; pl_y := 0; pl_w := 3; pl_h := 1; pl_rotation := 180000 |}.

Lemma layer_turned_witness :
  exists c, rotate_layer dark_corner turned_box (blank 3 1) = Ok c /\ pixel c 2 0 = 0 /\ rotated_point turned_box 2 0 = (0, 0).
Proof.
  destruct (layer_turned 3 1 dark_corner turned_box) as [(radius & Hr & Hd & Hp) Hhalf]; [lia|lia| |done|done| |].
  { unfold gray_wf. cbn. split_and!; [done..|]. repeat constructor; unfold byte_ok; lia. } { unfold placement_ok, box_ok. cbn. lia. }
  destruct (Hp (blank 3 1)) as (c & E & _ & _ & _ & Hc); [by apply blank_wf|done|done|].
  exists c. split; [exact E|]. clear E Hp. split; [|rewrite (Hhalf eq_refl 2 0); [vm_compute; reflexivity|unfold on_canvas; lia]].
  destruct (Hc 2 0) as [Hv _]; [unfold on_canvas; lia|]. rewrite Hv; [vm_compute; reflexivity|].
  unfold within_reach. cbn in *. change (3 / 2) with 1. change (1 / 2) with 0. nia.
Defined.

(** ** Text *)

(** Text never leaves its box: with the bitmap font it is always drawn,
    and with an embedded font it is drawn or an error; the canvas keeps its
    size, and no dot changes outside the clip, which is the box of the
    element, open below when its height follows the text. *)
Theorem text_confined `{TS : Typesetter} `{LT : !LawfulTypesetter} W H l s font c :
  gray_wf c -> g_width c = W -> g_height c = H ->
  let clip x y := in_text_box l x y = true in
  certain (drawn W H c clip) (text l s c) /\ safe (drawn W H c clip) (text_embedded l s font c).
Proof.
  intros Hc Hw Hh clip. assert (drawn W H c clip c) as Hstart by by split. split; [by apply text_safe|by apply text_embedded_safe].
Qed.

Definition sample_layout : TextLayout := {|
  l_x := 1; l_y := 0; l_w := 8; l_h := 8; l_size := 8; l_horizontal := AlignLeft; l_vertical := AlignTop; l_overflow := Clip |}.

Lemma text_confined_witness :
  certain (fun c => pixel c 0 3 = 255) (text (H := sample_typesetter) sample_layout (str "A") (blank 12 8)).
Proof.
  destruct (text_confined (TS := sample_typesetter) 12 8 sample_layout (str "A") [] (blank 12 8)) as [Hdrawn _]; [by apply blank_wf|done|done|].
  eapply outcome_mono; [exact Hdrawn|]. intros c [_ _ _ Hout].
  rewrite Hout; [vm_compute; reflexivity|unfold on_canvas; lia|vm_compute; discriminate].
Defined.

(** ** Decoded pictures *)

(** Decoding a resource never panics: it is an error, or a raster of
    positive size within the pixel limit with a byte for each pixel. A pixel
    with alpha is mixed with white by its alpha, to the nearest of 255 parts,
    so it never gets darker than its luminance; a transparent one is white
    whatever its colour, and an opaque one its luminance. *)
Theorem picture_decoded `{IC : ImageCodec} `{LC : !LawfulCodec} base64_decode resource limits :
  decodes (picture (max_resource_pixels limits)) (normalize_with_limits base64_decode resource limits) /\
  (forall r g b a, pixel_ok (r, g, b, a) ->
    luma_on_white (r, g, b, a) = (luma r g b * a + 255 * (255 - a) + 127) / 255 /\
    luma r g b <= luma_on_white (r, g, b, a) <= 255 /\
    (a = 0 -> luma_on_white (r, g, b, a) = 255) /\ (a = 255 -> luma_on_white (r, g, b, a) = luma r g b)).
Proof.
  split; [apply normalize_spec|]. intros r g b a Hp. destruct (luma_on_white_spec r g b a Hp) as (E & Hbyte & Hle). unfold byte_ok in Hbyte.
  split_and!; [done|done|lia|intros ->; by apply luma_transparent|intros ->; by apply luma_opaque].
Qed.

Lemma picture_decoded_witness :
  let svg := {| resource_id := []; media_type := str "image/svg+xml"; sha256_text := []; data_base64 := str "data:image/svg+xml;base64,AA==" |} in
  decodes (picture 25000000) (normalize_with_limits (H := sample_codec) (fun _ => Some [65]) svg ProcessingLimits_default) /\
  luma_on_white (10, 20, 30, 0) = 255.
Proof.
  cbn zeta. split; [exact (proj1 (picture_decoded (IC := sample_codec) (fun _ => Some [65]) _ ProcessingLimits_default))|].
  apply (picture_decoded (IC := sample_codec) (fun _ => Some [65])
    {| resource_id := []; media_type := []; sha256_text := []; data_base64 := [] |} ProcessingLimits_default); unfold pixel_ok, byte_ok; lia.
Defined.
