(* ===== verification/RendererFacts.v ===== *)
(** Rendering as a whole: it never panics, what it returns has the size of
    the media, elements are drawn in the order of their layers, and a printer
    receives packed rows of its head. *)

From stdpp Require Import base list list_numbers sets sorting strings numbers option.
From S2P Require Import Prelude Text Capabilities ProtocolTypes MonoRaster MonoRasterFacts Document DocumentFacts Sheet RenderTypes Barcode Geometry GeometryFacts Canvas CanvasFacts PasteFacts TextDrawing DrawingFacts Resources Media Renderer RenderSamples.

#[local] Open Scope Z_scope.

(** ** Order *)

Section Sorted.
Context {A : Type} (key : A -> Z).

(** Equal keys keep their order. *)
Definition in_order (a b : A) : Prop := key a <= key b.

Lemma insert_by_key_Permutation x l : insert_by_key key x l ≡ₚ x :: l.
Proof.
  induction l as [|y l IH]; [done|]. cbn [insert_by_key]. destruct (key x <=? key y); [done|]. rewrite IH. by apply Permutation_swap.
Qed.

Lemma sort_by_key_Permutation l : sort_by_key key l ≡ₚ l.
Proof. induction l as [|x l IH]; [done|]. cbn [sort_by_key foldr]. by rewrite insert_by_key_Permutation, IH. Qed.

Lemma insert_by_key_sorted x l : StronglySorted in_order l -> StronglySorted in_order (insert_by_key key x l).
Proof.
  induction 1 as [|y l Hl IH Hy]; cbn [insert_by_key]; [repeat constructor|].
  destruct (Z.leb_spec (key x) (key y)) as [Hle|Hgt].
  - constructor; [by constructor|]. constructor; [done|]. eapply list.Forall_impl; [exact Hy|]. unfold in_order. lia.
  - constructor; [done|]. rewrite insert_by_key_Permutation. constructor; [unfold in_order; lia|done].
Qed.

Lemma sort_by_key_sorted l : StronglySorted in_order (sort_by_key key l).
Proof. induction l as [|x l IH]; [constructor|]. by apply insert_by_key_sorted. Qed.

(** The elements of one key, in their order. *)
Definition of_key (k : Z) (l : list A) : list A := List.filter (fun a => key a =? k) l.

Lemma insert_by_key_stable k x l : of_key k (insert_by_key key x l) = of_key k (x :: l).
Proof.
  induction l as [|y l IH]; [done|]. cbn [insert_by_key]. destruct (Z.leb_spec (key x) (key y)); [done|].
  unfold of_key in *. cbn [List.filter] in *. rewrite IH. destruct (Z.eqb_spec (key y) k), (Z.eqb_spec (key x) k); done || lia.
Qed.

Lemma sort_by_key_stable k l : of_key k (sort_by_key key l) = of_key k l.
Proof.
  induction l as [|x l IH]; [done|]. cbn [sort_by_key foldr]. fold (sort_by_key key l). rewrite insert_by_key_stable.
  unfold of_key in *. cbn [List.filter]. by rewrite IH.
Qed.
End Sorted.

Lemma for_each_map {E A B S} (f : A -> B) (body : B -> S -> Result E S) l s :
  for_each body (map f l) s = for_each (fun a => body (f a)) l s.
Proof. revert s. induction l as [|a l IH]; intros s; [done|]. cbn [map for_each]. destruct (body (f a) s); [apply IH|done]. Qed.

Lemma for_each_flat_map {E A B S} (f : A -> list B) (body : B -> S -> Result E S) l s :
  for_each body (flat_map f l) s = for_each (fun a => for_each body (f a)) l s.
Proof.
  revert s. induction l as [|a l IH]; intros s; [done|]. cbn [flat_map for_each]. rewrite for_each_app.
  destruct (for_each body (f a) s); [apply IH|done].
Qed.

Section Rendering.
Context `{TS : Typesetter} `{LT : !LawfulTypesetter} `{IC : ImageCodec} `{LC : !LawfulCodec} {Json : Type} `{JV : JsonView Json}.
Variable base64_decode : list Z -> option (list Z).
Variable sha256 : list Z -> list Z.
Implicit Types (doc : Document Json) (e : Element.t).

(** ** One element *)

(** A stroke whose coordinates do not wrap. *)
Definition stroke_ok (p : Placement) (stroke_width dpi : Z) : Prop := placement_ok p /\ 0 <= stroke_dots stroke_width dpi <= 2 ^ 26.

(** What an element must satisfy to be drawn without wrapping: only strokes
    and the number of modules of a barcode need a bound. *)
Definition drawable (dpi : Z) (p : Placement) e : Prop :=
  match e with
  | Element.Line _ stroke_width => stroke_ok p stroke_width dpi
  | Element.Rectangle _ stroke_width fill | Element.Triangle _ stroke_width fill => fill = true \/ stroke_ok p stroke_width dpi
  | Element.Barcode _ data _ _ => zlen data <= 2 ^ 26
  | Element.QrCode _ _ _ quiet_zone => 0 <= quiet_zone
  | _ => True
  end.

Section Element.
Context (W H : Z) (doc : Document Json) (limits : ProcessingLimits).
Hypothesis resource_pixels : max_resource_pixels limits <= u32_max.

(** The canvas keeps its size. *)
Definition canvas_ok (s : Drawn) : Prop := drawn W H (fst s) (fun _ _ => True) (fst s).

Lemma canvas_ok_iff c budget : canvas_ok (c, budget) <-> gray_wf c /\ g_width c = W /\ g_height c = H.
Proof. unfold canvas_ok. cbn [fst]. split; [by intros [? ? ? _]|]. intros (? & ? & ?). by split. Qed.

Lemma unpaid_safe {X} draw s :
  canvas_ok s -> (forall c, drawn W H (fst s) (fun _ _ => True) c -> outcome X (drawn W H (fst s) (fun _ _ => True)) (draw c)) ->
  outcome X canvas_ok (unpaid draw s).
Proof.
  destruct s as [c budget]. intros Hs Hd. unfold unpaid. apply (outcome_bind _ _ (drawn W H c (fun _ _ => True))); [by apply Hd|].
  intros c' [? ? ? _]. by apply canvas_ok_iff.
Qed.

Lemma font_bytes_safe id : safe (fun _ => True) (font_bytes base64_decode doc limits id).
Proof.
  unfold font_bytes. apply (outcome_bind _ _ (fun _ => True)); [by apply safe_raising|]. intros r _.
  apply (outcome_bind _ _ (fun _ => True)); [by apply safe_raising|]. intros bytes _. unfold sfnt_bytes.
  assert (forall b : list Z, safe (fun _ => True) (if max_decoded_resource_bytes limits <? zlen b
    then fail (RenderError.Font (str "decoded face is too large")) else Ok b)) as Hcheck by (intros b; by destruct (_ <? _)).
  destruct (starts_with _ bytes); [|destruct (starts_with _ bytes); [|done]];
    (apply (outcome_bind _ _ (fun _ => True)); [by apply safe_raising|intros b _; apply Hcheck]).
Qed.

Lemma picture_wf r : picture (max_resource_pixels limits) r -> gray_wf r.
Proof. intros [(? & ? & ? & ?) ?]. unfold gray_wf. split_and!; done || lia. Qed.

Lemma normalized_image_safe id : safe gray_wf (normalized_image base64_decode doc limits id).
Proof.
  unfold normalized_image. apply (outcome_bind _ _ (fun _ => True)); [by apply safe_raising|]. intros item _.
  destruct (normalize_spec base64_decode item limits) as [Hp Hq]. apply safe_map_raised; [done|]. intros a Ha. by apply picture_wf, Hq.
Qed.

Lemma invert_wf r : gray_wf r -> gray_wf (invert r).
Proof.
  intros (? & ? & ? & Hl & Hb). unfold gray_wf, invert, with_pixels. cbn [g_width g_height g_pixels]. split_and!; try done.
  - unfold zlen in *. by rewrite length_map.
  - apply Forall_map. eapply list.Forall_impl; [exact Hb|]. unfold byte_ok. cbn. lia.
Qed.

Lemma crop_source_safe source b limit : gray_wf source -> safe gray_wf (crop_source source b limit).
Proof.
  intros Hs. pose proof (crop_source_spec source b limit Hs) as H'. cbn zeta in H'. destruct (_ || _) in H'; [by rewrite H'|].
  destruct H' as (out & -> & Hout & _). done.
Qed.

Lemma line_safe {X} p stroke_width dpi c0 c :
  stroke_ok p stroke_width dpi -> drawn W H c0 (fun _ _ => True) c ->
  outcome X (drawn W H c0 (fun _ _ => True))
    (line (pl_x p) (pl_y p) (as_i32 (pl_x p + pl_w p - 1)) (as_i32 (pl_y p + pl_h p - 1)) (stroke_dots stroke_width dpi) c).
Proof.
  intros [(Hx & Hy & Hw & Hh) Ht] Hc. rewrite !small_i32 by lia. eapply (plots_anywhere W H c0 _ _ (line _ _ _ _ _)); [|done].
  apply paints_line; unfold small; lia.
Qed.

(** Shapes, and text in the bitmap font: nothing can go wrong. *)
Definition is_plain e : bool :=
  match e with
  | Element.Text _ _ None _ _ _ _ | Element.Line _ _ | Element.Rectangle _ _ _ | Element.Ellipse _ _ _ | Element.Triangle _ _ _
  | Element.Group _ _ => true
  | _ => false
  end.

Lemma draw_at_plain {X} e dpi p s :
  is_plain e = true -> drawable dpi p e -> canvas_ok s -> outcome X canvas_ok (draw_at base64_decode e dpi doc p limits s).
Proof.
  intros Hp Hd Hs. destruct e; cbn [draw_at drawable is_plain] in *; try discriminate Hp.
  - destruct font_resource as [id|]; [discriminate Hp|]. apply unpaid_safe; [done|]. intros. by apply text_anywhere.
  - apply unpaid_safe; [done|]. intros c1 Hc. by apply line_safe.
  - apply unpaid_safe; [done|]. intros c1 Hc. destruct fill; [by apply filled_rect_safe|]. destruct Hd as [Hf|[Hbox Ht]]; [discriminate Hf|].
    eapply (plots_anywhere W H _ _ _ (rect _ _ _ _ _ _)); [by apply paints_outline|done].
  - apply unpaid_safe; [done|]. intros. by apply ellipse_safe.
  - apply unpaid_safe; [done|]. intros c1 Hc. destruct fill; [by apply filled_triangle_safe|]. destruct Hd as [Hf|[Hbox Ht]]; [discriminate Hf|].
    eapply (plots_anywhere W H _ _ _ (triangle _ _ _ _ _ _)); [by apply paints_triangle|done].
  - exact Hs.
Qed.

Lemma draw_at_safe e dpi p s : drawable dpi p e -> canvas_ok s -> safe canvas_ok (draw_at base64_decode e dpi doc p limits s).
Proof.
  intros Hd Hs. destruct (is_plain e) eqn:Hp; [by apply draw_at_plain|]. destruct e; cbn [draw_at drawable is_plain] in *; try discriminate Hp.
  - destruct font_resource as [id|]; [|discriminate Hp]. apply (outcome_bind _ _ (fun _ => True)); [apply font_bytes_safe|]. intros bytes _.
    apply unpaid_safe; [done|]. intros. by apply text_embedded_anywhere.
  - apply (outcome_bind _ _ gray_wf); [apply normalized_image_safe|]. intros image Hi.
    apply (outcome_bind _ _ (fun _ => True)); [by apply safe_budget|]. intros b _.
    apply (outcome_bind _ _ (fun r => gray_wf (fst r))).
    + destruct crop as [bounds|]; [|done]. apply (outcome_bind _ _ gray_wf); [by apply crop_source_safe|]. intros cropped Hc.
      apply (outcome_bind _ _ (fun _ => True)); [by apply safe_budget|done].
    + intros [cropped b'] Hc. cbn [fst] in Hc. apply unpaid_safe; [done|]. intros. apply paste_fit_safe; [|done].
      destruct (image_is_inverted _ _); [by apply invert_wf|done].
  - apply (outcome_bind _ _ gray_wf); [apply normalized_image_safe|]. intros image Hi.
    apply (outcome_bind _ _ (fun _ => True)); [by apply safe_budget|]. intros b _. apply unpaid_safe; [done|]. intros. by apply paste_fit_safe.
  - apply unpaid_safe; [done|]. intros. by apply barcode_safe.
  - apply unpaid_safe; [done|]. intros. by apply qr_safe.
Qed.
End Element.

(** ** Layers *)

Lemma new_canvas_safe w h limit :
  0 <= w -> 0 <= h -> limit <= u32_max ->
  safe (fun c => gray_wf c /\ g_width c = w /\ g_height c = h /\ w * h <= limit) (new_canvas w h limit).
Proof.
  intros Hw Hh Hl. destruct (decide (w * h <= u32_max)) as [Hs|Hs].
  - rewrite new_canvas_spec by done. destruct (_ || _) eqn:Hz; [done|]. apply orb_false_iff in Hz as [[Hw0 Hh0]%orb_false_iff Hle].
    cbn. split_and!; [apply blank_wf; blia|done|done|blia].
  - unfold new_canvas, gray_try_new, checked_pixel_len. destruct (_ || _); [done|]. destruct (checked u64_max (w * h)) as [n|] eqn:Hn; [|done].
    apply checked_Some in Hn as [_ ->]. cbn [ok_or rbind]. destruct (Z.ltb_spec limit (w * h)); [done|lia].
Qed.

Section Drawing.
Context (W H : Z) (doc : Document Json) (limits : ProcessingLimits).
Hypotheses (resource_pixels : max_resource_pixels limits <= u32_max) (canvas_limit : max_canvas_pixels limits <= u32_max).

Lemma draw_safe e dpi zone s :
  drawable dpi (placement_px (common e) dpi doc zone) e -> canvas_ok W H s -> safe (canvas_ok W H) (draw base64_decode e dpi doc zone limits s).
Proof.
  intros Hd Hs. unfold draw. destruct (is_group e); [done|]. cbn zeta. destruct (pl_rotation _ =? 0); [by apply draw_at_safe|].
  destruct s as [c budget]. apply canvas_ok_iff in Hs as (Hc & Hw & Hh). pose proof Hc as (Hw0 & Hh0 & _).
  apply (outcome_bind _ _ (fun _ => True)); [by apply safe_raising|]. intros pixels _.
  apply (outcome_bind _ _ (fun _ => True)); [by apply safe_budget|]. intros b _.
  eapply outcome_bind; [apply new_canvas_safe; [lia|lia|done]|]. intros layer (Hl & Hlw & Hlh & _).
  apply (outcome_bind _ _ (canvas_ok W H)).
  - apply draw_at_safe; [done|done|]. apply canvas_ok_iff. by rewrite Hlw, Hlh.
  - intros [layer' b'] (Hl' & Hlw' & Hlh')%canvas_ok_iff.
    apply (outcome_bind _ _ (drawn W H c (fun _ _ => True))); [apply rotate_layer_safe; try done; by split|].
    intros c' [? ? ? _]. by apply canvas_ok_iff.
Qed.

(** Every element can be drawn in every zone. *)
Definition drawable_document : Prop :=
  Forall (fun e => forall zone, drawable (media_dpi (media doc)) (placement_px (common e) (media_dpi (media doc)) doc zone) e) (elements doc).

Hypothesis all_drawable : drawable_document.

Lemma draw_with_clones_safe e s : e ∈ elements doc -> canvas_ok W H s -> safe (canvas_ok W H) (draw_with_clones base64_decode doc limits e s).
Proof.
  intros He Hs. unfold drawable_document in all_drawable. rewrite list.Forall_forall in all_drawable. unfold draw_with_clones.
  destruct (effectively_visible e doc); [|done]. cbn [negb]. cbn zeta. apply (outcome_bind _ _ (canvas_ok W H)); [by apply draw_safe; [apply all_drawable|]|].
  intros s' Hs'. destruct (effective_zone e doc); [|done]. apply safe_for_each; [done|]. intros zone s'' _ Hs''. by apply draw_safe; [apply all_drawable|].
Qed.
End Drawing.

(** The order of the layers, and of the document among the elements of one layer. *)
Definition drawing_order doc (layers : list Element.t) : Prop :=
  layers ≡ₚ elements doc /\ StronglySorted (in_order (fun e => z_order (common e))) layers /\
  forall z, of_key (fun e => z_order (common e)) z layers = of_key (fun e => z_order (common e)) z (elements doc).

Lemma by_z_order_spec doc : drawing_order doc (by_z_order doc).
Proof.
  split_and!; [apply sort_by_key_Permutation|apply sort_by_key_sorted|]. intros z. apply sort_by_key_stable.
Qed.

(** What is drawn of an element: nothing when it is hidden, else the element in
    its own zone and in the zones that clone it. *)
Definition instances doc e : list (Element.t * option (list Z)) :=
  if effectively_visible e doc then map (pair e) (element_zones doc e) else [].

Definition draw_instance doc limits (i : Element.t * option (list Z)) : Drawn -> Render Drawn :=
  draw base64_decode (fst i) (media_dpi (media doc)) doc (snd i) limits.

Lemma draw_with_clones_instances doc limits e s :
  draw_with_clones base64_decode doc limits e s = for_each (draw_instance doc limits) (instances doc e) s.
Proof.
  unfold draw_with_clones, instances, element_zones. destruct (effectively_visible e doc); [|done]. cbn [negb map for_each]. cbn zeta.
  unfold draw_instance at 1. cbn [fst snd]. destruct (draw _ _ _ _ _ _ s) as [s'|]; [|done]. cbn [rbind].
  destruct (effective_zone e doc) as [source|]; [|done]. by rewrite !for_each_map.
Qed.

Lemma new_canvas_blank w h limit c :
  0 <= w -> 0 <= h -> limit <= u32_max -> new_canvas w h limit = Ok c -> c = blank w h /\ gray_wf c.
Proof.
  intros Hw Hh Hl E. pose proof (new_canvas_safe w h limit Hw Hh Hl) as Hs. rewrite E in Hs. destruct Hs as (Hwf & _ & _ & Hlim).
  split; [|done]. rewrite new_canvas_spec in E by lia. destruct (_ || _) in E; [done|]. by injection E as <-.
Qed.

Lemma budget_add_Ok n b b' : budget_add n b = Ok b' -> b' = {| budget_pixels := budget_pixels b + n; budget_limit := budget_limit b |}.
Proof.
  unfold budget_add. destruct (checked _ _) as [total|] eqn:E; [|done]. apply checked_Some in E as [_ ->]. cbn [ok_or raising map_err rbind].
  destruct (_ <? _); [done|]. by intros [= <-].
Qed.

Lemma validated_safe doc limits : safe (fun _ => validate_with_limits base64_decode sha256 doc limits = Ok tt) (validated base64_decode sha256 doc limits).
Proof. apply safe_map_raised; [apply validate_ends|]. by intros []. Qed.

Lemma u32_dots_safe v : safe (fun n => n = v /\ 0 <= v <= u32_max) (u32_dots v).
Proof. apply safe_raising. intros n Hn%ok_or_Ok%checked_Some. destruct Hn as [? ->]. done. Qed.

(** The size of the media in dots. *)
Definition media_dots doc : Z * Z :=
  (micrometres_to_dots (media_width (media doc)) (media_dpi (media doc)), micrometres_to_dots (media_height (media doc)) (media_dpi (media doc))).

Lemma render_safe doc options limits :
  max_resource_pixels limits <= u32_max -> max_canvas_pixels limits <= u32_max -> drawable_document doc ->
  safe (fun m => mono_wf m /\ (m_width m, m_height m) = media_dots doc /\
                 m_width m * m_height m <= Z.min (max_pixels options) (max_canvas_pixels limits))
    (render_with_limits base64_decode sha256 doc options limits).
Proof.
  intros Hr Hl Hd. unfold render_with_limits. eapply outcome_bind; [apply validated_safe|]. intros _ _. cbn zeta.
  eapply outcome_bind; [apply u32_dots_safe|]. intros w [-> Hw]. eapply outcome_bind; [apply u32_dots_safe|]. intros h [-> Hh].
  unfold media_dots. set (w := micrometres_to_dots (media_width _) _) in *. set (h := micrometres_to_dots (media_height _) _) in *.
  apply (outcome_bind _ _ (fun _ => True)); [by apply safe_raising|]. intros pixels _.
  do 2 (apply (outcome_bind _ _ (fun _ => True)); [by apply safe_budget|]; intros ? _).
  eapply outcome_bind; [apply new_canvas_safe; [lia|lia|lia]|]. intros canvas (Hc & Hcw & Hch & Hlim).
  apply (outcome_bind _ _ (canvas_ok w h)).
  - apply safe_for_each; [by apply canvas_ok_iff|]. intros e s He Hs. apply draw_with_clones_safe; try done.
    unfold by_z_order in He. by rewrite sort_by_key_Permutation in He.
  - intros [c b] (Hwf & Ew & Eh)%canvas_ok_iff. cbn [fst].
    destruct (dither_total c (option_dither options) Hwf) as (m & -> & Hmw & Hmh & Hm). cbn. rewrite Hmw, Hmh, Ew, Eh. done.
Qed.

(** The raster returned is what the instances leave on a white canvas, drawn
    one over the other in the order of the layers. *)
Definition drawn_in_layers doc (options : RenderOptions) limits (m : MonoRaster) : Prop :=
  let '(w, h) := media_dots doc in
  exists layers c budget, drawing_order doc layers /\
    for_each (draw_instance doc limits) (flat_map (instances doc) layers)
      (blank w h, {| budget_pixels := 2 * (w * h); budget_limit := max_total_pixels limits |}) = Ok (c, budget) /\
    dither c (option_dither options) = Ok m.

Lemma render_in_layers doc options limits m :
  max_canvas_pixels limits <= u32_max -> render_with_limits base64_decode sha256 doc options limits = Ok m -> drawn_in_layers doc options limits m.
Proof.
  intros Hl E. unfold render_with_limits, u32_dots, canvas_pixels in E. inv_ok E. apply checked_Some in Hx0 as [Hw ->], Hx1 as [Hh ->], Hx2 as [_ ->].
  apply budget_add_Ok in Hx3 as ->. apply budget_add_Ok in Hx4 as ->. apply new_canvas_blank in Hx5 as [-> _]; [|unfold in_u in *; lia..].
  destruct x6 as [c budget]. unfold drawn_in_layers, media_dots. exists (by_z_order doc), c, budget.
  split; [apply by_z_order_spec|]. cbn [fst budget_pixels budget_limit budget_new] in *. split.
  - rewrite for_each_flat_map. rewrite <- (for_each_ext (draw_with_clones base64_decode doc limits)) by apply draw_with_clones_instances.
    match goal with Hf : for_each _ _ _ = Ok (c, budget) |- _ => etrans; [|exact Hf] end. do 3 f_equal. lia.
  - destruct (dither c (option_dither options)) as [m'|[|]]; by try injection E as <-.
Qed.

(** ** Plain documents *)

(** Every element is plain and upright in every zone. *)
Definition plain_document doc : Prop :=
  Forall (fun e => is_plain e = true /\ forall zone, pl_rotation (placement_px (common e) (media_dpi (media doc)) doc zone) = 0) (elements doc).

(** The media has at least a dot, and the limits admit its canvas twice. *)
Definition canvas_admitted doc (options : RenderOptions) (limits : ProcessingLimits) : Prop :=
  let '(w, h) := media_dots doc in
  1 <= w <= u32_max /\ 1 <= h <= u32_max /\ w * h <= Z.min (max_pixels options) (max_canvas_pixels limits) /\
  2 * (w * h) <= max_total_pixels limits <= u64_max.

Lemma draw_plain W H doc limits e zone s :
  is_plain e = true -> pl_rotation (placement_px (common e) (media_dpi (media doc)) doc zone) = 0 ->
  drawable (media_dpi (media doc)) (placement_px (common e) (media_dpi (media doc)) doc zone) e -> canvas_ok W H s ->
  certain (canvas_ok W H) (draw base64_decode e (media_dpi (media doc)) doc zone limits s).
Proof.
  intros Hp Hr Hd Hs. unfold draw. destruct (is_group e); [done|]. cbn zeta. rewrite Hr. by apply draw_at_plain.
Qed.

Lemma budget_admits n limit : 0 <= n -> 2 * n <= limit <= u64_max ->
  exists b b', budget_add n (budget_new limit) = Ok b /\ budget_add n b = Ok b'.
Proof.
  intros Hn Hl. unfold budget_add, budget_new. cbn [budget_pixels budget_limit]. rewrite checked_id by (unfold in_u; lia). cbn [ok_or raising map_err rbind].
  destruct (Z.ltb_spec limit (0 + n)); [lia|]. eexists _, _. split; [done|]. cbn [budget_pixels budget_limit].
  rewrite checked_id by (unfold in_u; lia). cbn [ok_or raising map_err rbind]. by destruct (Z.ltb_spec limit (0 + n + n)); [lia|].
Qed.

Lemma render_plain doc options limits :
  validate_with_limits base64_decode sha256 doc limits = Ok tt -> max_canvas_pixels limits <= u32_max ->
  drawable_document doc -> plain_document doc -> canvas_admitted doc options limits ->
  exists m, render_with_limits base64_decode sha256 doc options limits = Ok m.
Proof.
  intros Hv Hl Hd Hp. unfold canvas_admitted, render_with_limits, validated, media_dots. rewrite Hv. cbn [map_raised map_err rbind].
  set (w := micrometres_to_dots (media_width _) _). set (h := micrometres_to_dots (media_height _) _). intros (Hw & Hh & Hlim & Htotal).
  unfold u32_dots. rewrite !checked_id by (unfold in_u; lia). cbn [ok_or raising map_err rbind].
  unfold canvas_pixels. rewrite checked_id by (unfold in_u, u32_max, u64_max in *; nia). cbn [ok_or raising map_err rbind].
  destruct (budget_admits (w * h) (max_total_pixels limits)) as (b & b' & E1 & E2); [nia|lia|]. rewrite E1. cbn [rbind]. rewrite E2. cbn [rbind].
  rewrite new_canvas_spec by lia. rewrite !(proj2 (Z.eqb_neq _ 0)), (proj2 (Z.ltb_ge _ _)) by lia. cbn [orb rbind].
  pose proof (blank_wf w h ltac:(lia) ltac:(lia) ltac:(lia)) as Hblank.
  unfold drawable_document, plain_document in *. rewrite list.Forall_forall in Hd. rewrite list.Forall_forall in Hp.
  assert (certain (canvas_ok w h) (for_each (draw_with_clones base64_decode doc limits) (by_z_order doc)
    (blank w h, b'))) as Hdrawn.
  { apply safe_for_each; [by apply canvas_ok_iff|]. intros e s He Hs. unfold by_z_order in He. rewrite sort_by_key_Permutation in He.
    destruct (Hp e He) as [Hplain Hrot]. pose proof (Hd e He) as Hde. unfold draw_with_clones. destruct (effectively_visible e doc); [|done].
    cbn [negb]. cbn zeta. apply (outcome_bind _ _ (canvas_ok w h)); [by apply draw_plain|]. intros s' Hs'. destruct (effective_zone e doc); [|done].
    apply safe_for_each; [done|]. intros zone s'' _ Hs''. by apply draw_plain. }
  apply certain_Ok in Hdrawn as ([c b''] & -> & (Hc & _)%canvas_ok_iff). cbn [rbind fst].
  destruct (dither_total c (option_dither options) Hc) as (m & -> & _). by exists m.
Qed.

(** C28: Rendering never panics or runs out of fuel, for any document, fonts and
    pictures, as long as no stroke has coordinates that wrap: it returns an
    error or a raster of the size of the media in dots within the limits. The
    raster is what a white canvas shows after the visible elements are drawn in
    their zones, one over the other in the order of their layers, those of one
    layer in the order of the document. Rendering does return a raster for every
    valid document of upright shapes and bitmap texts whose canvas the limits
    admit. *)
Theorem rendering_ends doc options limits :
  max_resource_pixels limits <= u32_max -> max_canvas_pixels limits <= u32_max -> drawable_document doc ->
  safe (fun m => mono_wf m /\ (m_width m, m_height m) = media_dots doc /\
                 m_width m * m_height m <= Z.min (max_pixels options) (max_canvas_pixels limits) /\
                 drawn_in_layers doc options limits m)
    (render_with_limits base64_decode sha256 doc options limits) /\
  (validate_with_limits base64_decode sha256 doc limits = Ok tt -> plain_document doc -> canvas_admitted doc options limits ->
   is_ok (render_with_limits base64_decode sha256 doc options limits) = true).
Proof.
  intros Hr Hl Hd. split.
  - pose proof (render_safe doc options limits Hr Hl Hd) as Hs. pose proof (render_in_layers doc options limits) as Hlayers.
    destruct (render_with_limits _ _ _ _ _) as [m|]; [|done]. destruct Hs as (? & ? & ?). split_and!; [done..|]. by apply Hlayers.
  - intros Hv Hp Ha. by destruct (render_plain doc options limits Hv Hl Hd Hp Ha) as [m ->].
Qed.
End Rendering.

(** ** The sample label *)

#[local] Existing Instances sample_typesetter sample_codec sample_json.

Lemma sample_drawable : drawable_document sample_label.
Proof.
  unfold drawable_document. repeat apply Forall_cons_2; [| | |apply Forall_nil_2]; intros zone; cbn [common]; rewrite sample_placement; cbn [drawable].
  - vm_compute. split_and!; done.
  - right. vm_compute. split_and!; done.
  - done.
Qed.

Lemma sample_plain : plain_document sample_label.
Proof.
  unfold plain_document. repeat apply Forall_cons_2; [| | |apply Forall_nil_2]; (split; [done|]); intros zone; cbn [common]; by rewrite sample_placement.
Qed.

Lemma rendering_ends_witness :
  exists m, render_with_limits (fun _ => None) (fun _ => []) sample_label RenderOptions_default ProcessingLimits_default = Ok m /\
    drawn_in_layers (fun _ => None) sample_label RenderOptions_default ProcessingLimits_default m.
Proof.
  destruct (rendering_ends (fun _ => None) (fun _ => []) sample_label RenderOptions_default ProcessingLimits_default)
    as (Hs & Hok); [done|done|exact sample_drawable|].
  assert (is_ok (render_with_limits (fun _ => None) (fun _ => []) sample_label RenderOptions_default ProcessingLimits_default) = true) as H.
  { clear Hs. apply Hok; [vm_compute; reflexivity|exact sample_plain|]. clear Hok. vm_compute. split_and!; done. }
  clear Hok. set (r := render_with_limits (fun _ => None) (fun _ => []) sample_label RenderOptions_default ProcessingLimits_default) in *.
  clearbody r. destruct r as [m|]; [|discriminate H]. exists m. split; [reflexivity|]. apply Hs.
Defined.
