(* ===== verification/SheetPdfFacts.v ===== *)
(** What sheets show (crates/mb-printer-core/src/sheet.rs): every page of the
    PDF is the labels of its placements, each within the page at its slot, and
    their cut marks; composing pages never panics. *)

From stdpp Require Import base list list_numbers strings numbers option.
From S2P Require Import Prelude Bits Text Capabilities ProtocolTypes MonoRaster MonoRasterFacts Document DocumentFacts RenderTypes Export ExportFacts Sheet SheetFacts Geometry Canvas TextDrawing DrawingFacts Resources Media Renderer RenderSamples RendererFacts SheetDocuments.

#[local] Open Scope Z_scope.

(** ** A page *)

Definition dot (r : MonoRaster) (X Y : Z) : Z := px (m_pixels r) (Y * m_width r + X).

(** [label] at [(x, y)] over a dot [v]. *)
Definition over (label : MonoRaster) (x y X Y v : Z) : Z :=
  if (x <=? X) && (X <? x + m_width label) && (y <=? Y) && (Y <? y + m_height label) then dot label (X - x) (Y - y) else v.

(** A valid raster of [w] by [h] dots that shows [f]. *)
Definition page_ok (w h : Z) (f : Z -> Z -> Z) (page : MonoRaster) : Prop :=
  mono_wf page /\ m_width page = w /\ m_height page = h /\
  forall X Y, 0 <= X < w -> 0 <= Y < h -> dot page X Y = f X Y.

Definition within (w h : Z) (label : MonoRaster) (x y : Z) : Prop :=
  0 <= x /\ 0 <= y /\ x + m_width label <= w /\ y + m_height label <= h.

Lemma mono_wf_dims r : mono_wf r -> in_u u32_max (m_width r) /\ in_u u32_max (m_height r).
Proof. intros (Hw & Hh & Hs & _). unfold in_u. nia. Qed.

Lemma blit_page w h f page label x y :
  page_ok w h f page -> raster_typed label -> in_u u32_max x -> in_u u32_max y ->
  safe (fun page => page_ok w h (fun X Y => over label x y X Y (f X Y)) page /\ within w h label x y) (from_raster (blit page label x y)).
Proof.
  intros (Hp & <- & <- & Hf) (Hlw & Hlh & Hlb) Hx Hy. pose proof (mono_wf_dims page Hp) as [Hpw Hph].
  destruct (mono_validate label) as [u|e] eqn:Ev.
  2: { unfold blit. rewrite mono_wf_validate by done. by rewrite Ev. }
  destruct ((x + m_width label <=? m_width page) && (y + m_height label <=? m_height page)) eqn:Hfit.
  - assert (mono_wf label) as Hl.
    { apply mono_validate_Ok in Ev as (Hw0 & Hh0 & Hz & Hbits); [|done]. destruct Hp as (? & ? & Hs & _).
      unfold mono_wf. split_and!; [lia|lia| |exact Hz|exact Hbits]. unfold in_u in *.
      assert (m_width label <= m_width page /\ m_height label <= m_height page) as [? ?] by blia. nia. }
    pose proof (blit_spec page label x y Hp Hl Hx Hy) as H. rewrite Hfit in H.
    destruct H as (q & -> & Hq & Eqw & Eqh & Hdots). cbn. unfold within. unfold in_u in *. split; [|blia]. split_and!; [done..|].
    intros X Y HX HY. unfold dot at 1. rewrite Eqw, Hdots by done. rewrite <- Hf by done. done.
  - unfold blit. rewrite mono_wf_validate by done. rewrite Ev. cbn [raising map_err rbind]. unfold in_u in *.
    rewrite (blit_bounds (m_width page) (m_height page)) by (unfold in_u; lia). by rewrite Hfit.
Qed.

(** ** Cut marks *)

(** The points of the cut marks around a label. *)
Definition cut_marks_of (left top : Z) (label : MonoRaster) (dpi : Z) : list (option Z * option Z) :=
  flat_map (cut_mark_points left top label) (seqZ 0 (Z.max (micrometres_to_dots CUT_MARK_LENGTH_UM dpi) 1)).

Definition marked (points : list (option Z * option Z)) (X Y : Z) : bool := bool_decide ((Some X, Some Y) ∈ points).

Definition point_ok (point : option Z * option Z) : Prop :=
  from_option (fun x => 0 <= x) True (fst point) /\ from_option (fun y => 0 <= y) True (snd point).

Definition with_pixels (w h : Z) (pixels : list Z) : MonoRaster := {| m_width := w; m_height := h; m_pixels := pixels |}.

(** A page with one dot set. *)
Lemma page_ok_set w h f pixels x y :
  page_ok w h f (with_pixels w h pixels) -> 0 <= x < w -> 0 <= y < h ->
  page_ok w h (fun X Y => if marked [(Some x, Some y)] X Y then 1 else f X Y) (with_pixels w h (<[Z.to_nat (y * w + x) := 1]> pixels)).
Proof.
  intros (Hwf & _ & _ & Hf) Hx Hy. pose proof Hwf as (Hw & Hh & Hs & Hz & _). cbn [m_width m_height m_pixels with_pixels] in *.
  pose proof (pix_range w h x y Hx Hy) as Hr.
  destruct (mono_of_pixels w h (<[Z.to_nat (y * w + x) := 1]> pixels) (fun X Y => if marked [(Some x, Some y)] X Y then 1 else f X Y)) as [Hq Hpx];
    [done|done|done|by rewrite zlen_insert| | |].
  - intros X Y HX HY. pose proof (pix_range w h X Y HX HY) as HR. unfold marked. destruct (decide ((X, Y) = (x, y))) as [E|Hne].
    + injection E as -> ->. rewrite bool_decide_eq_true_2 by (by left). apply list_lookup_insert_eq. unfold zlen in Hz. lia.
    + rewrite bool_decide_eq_false_2 by (rewrite list_elem_of_singleton; congruence). rewrite list_lookup_insert_ne.
      * rewrite <- Hf by done. by apply (mono_px (with_pixels w h pixels)).
      * intros E. apply Hne. destruct (pix_inj w X Y x y) as [-> ->]; [lia..|done].
  - intros X Y HX HY. destruct (marked _ _ _); [by right|]. rewrite <- Hf by done.
    apply (mono_px (with_pixels w h pixels)); [done|by apply pix_range].
  - split_and!; [exact Hq|done|done|exact Hpx].
Qed.

Lemma page_ok_ext w h f g page :
  page_ok w h f page -> (forall X Y, 0 <= X < w -> 0 <= Y < h -> f X Y = g X Y) -> page_ok w h g page.
Proof. intros (Hwf & Hw & Hh & Hf) E. split_and!; [done..|]. intros X Y HX HY. by rewrite Hf, E. Qed.

Lemma draw_point_ok w h f pixels point :
  page_ok w h f (with_pixels w h pixels) -> point_ok point ->
  safe (fun pixels => page_ok w h (fun X Y => if marked [point] X Y then 1 else f X Y) (with_pixels w h pixels))
    (draw_point w h point pixels).
Proof.
  intros Hp [Hx Hy]. pose proof Hp as ((Hw & Hh & Hs & Hz & _) & _). cbn [m_width m_height m_pixels with_pixels] in *.
  assert ((forall X Y, 0 <= X < w -> 0 <= Y < h -> point <> (Some X, Some Y)) ->
          page_ok w h (fun X Y => if marked [point] X Y then 1 else f X Y) (with_pixels w h pixels)) as Hsame.
  { intros Hne. apply (page_ok_ext _ _ f); [exact Hp|]. intros X Y HX HY. unfold marked.
    rewrite bool_decide_eq_false_2; [done|]. rewrite list_elem_of_singleton. intros E. by apply (Hne X Y). }
  destruct point as [[x|] [y|]]; cbn [draw_point fst snd from_option] in *; try (apply Hsame; congruence).
  destruct (Z.ltb_spec x w), (Z.ltb_spec y h); cbn [andb]; try (apply Hsame; intros X Y HX HY [= -> ->]; lia).
  pose proof (pix_range w h x y ltac:(lia) ltac:(lia)).
  rewrite checked_id by (unfold in_u, u64_max, u32_max in *; nia). cbn [mbind option_bind].
  rewrite checked_id by (unfold in_u, u64_max, u32_max in *; nia). cbn [ok_or raising map_err rbind].
  rewrite assign_in_range by lia. cbn [outcome]. by apply page_ok_set.
Qed.

Lemma marked_cons point points X Y : marked (point :: points) X Y = marked [point] X Y || marked points X Y.
Proof.
  unfold marked. destruct (decide ((Some X, Some Y) ∈ points)) as [H|H].
  - rewrite orb_true_intro by (right; by apply bool_decide_eq_true_2). apply bool_decide_eq_true_2. by right.
  - rewrite (bool_decide_eq_false_2 (_ ∈ points)), orb_false_r by done. apply bool_decide_ext. rewrite elem_of_cons, list_elem_of_singleton. tauto.
Qed.

Lemma draw_points_ok w h f pixels points :
  page_ok w h f (with_pixels w h pixels) -> Forall point_ok points ->
  safe (fun pixels => page_ok w h (fun X Y => if marked points X Y then 1 else f X Y) (with_pixels w h pixels))
    (for_each (draw_point w h) points pixels).
Proof.
  intros Hp Hl. revert f pixels Hp. induction Hl as [|point points Hpoint Hl IH]; intros f pixels Hp.
  { cbn. apply (page_ok_ext _ _ f); [exact Hp|]. intros X Y _ _. unfold marked. by rewrite bool_decide_eq_false_2 by (by intros ?%elem_of_nil). }
  cbn [for_each]. eapply outcome_bind; [by apply draw_point_ok|]. intros pixels' Hp'.
  eapply outcome_mono; [exact (IH _ _ Hp')|]. intros pixels'' Hp''. apply (page_ok_ext _ _ _ _ _ Hp'').
  intros X Y _ _. rewrite (marked_cons point points). by destruct (marked [point] X Y), (marked points X Y).
Qed.

Lemma cut_mark_points_ok left top label delta :
  0 <= left -> 0 <= top -> Forall point_ok (cut_mark_points left top label delta).
Proof.
  intros Hl Ht. assert (forall v, from_option (fun x => 0 <= x) True (checked u32_max v)) as Hc.
  { intros v. destruct (checked u32_max v) as [x|] eqn:E; [|done]. apply checked_Some in E as [[H _] ->]. exact H. }
  unfold cut_mark_points, u32_sub, u32_add. repeat constructor; cbn [fst snd from_option]; try done; try apply Hc.
  - destruct (checked u32_max (left + m_width label)); [apply Hc|done].
  - destruct (checked u32_max (top + m_height label)); [apply Hc|done].
Qed.

Lemma draw_cut_marks_ok w h f page left top label dpi :
  page_ok w h f page -> 0 <= left -> 0 <= top ->
  safe (page_ok w h (fun X Y => if marked (cut_marks_of left top label dpi) X Y then 1 else f X Y))
    (draw_cut_marks page left top label dpi).
Proof.
  intros Hp Hl Ht. unfold draw_cut_marks, dots_u32. destruct (checked _ _) as [dots|] eqn:Ed; [|done].
  apply checked_Some in Ed as [_ ->]. cbn [ok_or raising map_err rbind]. fold (cut_marks_of left top label dpi).
  pose proof Hp as (_ & Ew & Eh & _). rewrite Ew, Eh.
  eapply outcome_bind; [apply (draw_points_ok w h f)|].
  - unfold with_pixels. rewrite <- Ew, <- Eh at 2. by destruct page.
  - apply Forall_flat_map, list.Forall_forall. intros delta _. by apply cut_mark_points_ok.
  - intros pixels Hq. exact Hq.
Qed.

(** ** Composing pages *)

Section Compose.
Context (plan : SheetPlan) (limits : ProcessingLimits) (w h : Z).
Hypothesis Hlimits : export_limits limits.
Hypothesis pixels_fit : w * h <= max_canvas_pixels limits.
Context (place : SheetPlacement -> MonoRaster -> Result (Fault SheetError.t) MonoRaster).
Context (paint : SheetPlacement -> Z -> Z -> Z -> Z) (placed : SheetPlacement -> Prop).
Hypothesis place_ok : forall c f page, c ∈ placements plan -> page_ok w h f page ->
  safe (fun page => page_ok w h (fun X Y => paint c X Y (f X Y)) page /\ placed c) (place c page).

(** What the placements of a page show at a dot: the last one on top. *)
Definition painted (cs : list SheetPlacement) (X Y v : Z) : Z := foldl (fun v c => paint c X Y v) v cs.

Definition on_this_page (p : Z) : list SheetPlacement := List.filter (on_page p) (placements plan).

(** A page of the PDF has the size of the paper, and its dots are those of its placements. *)
Definition sheet_page (p : Z) (page : PackedPdfPage) : Prop :=
  page_width_um page = paper_width_um (layout plan) /\ page_height_um page = paper_height_um (layout plan) /\
  p_width (page_raster page) = w /\ p_height (page_raster page) = h /\
  Forall placed (on_this_page p) /\
  forall X Y, 0 <= X < 8 * stride_of w -> 0 <= Y < h ->
    get_bit (p_bytes (page_raster page)) (Z.to_nat (pack_bit w X Y)) = (X <? w) && (painted (on_this_page p) X Y 0 =? 1).

Lemma place_all_ok cs f page :
  (forall c, c ∈ cs -> c ∈ placements plan) -> page_ok w h f page ->
  safe (fun page => page_ok w h (fun X Y => painted cs X Y (f X Y)) page /\ Forall placed cs) (for_each place cs page).
Proof using place_ok.
  revert f page. induction cs as [|c cs IH]; intros f page Hin Hp; [by split|]. cbn [for_each painted foldl].
  eapply outcome_bind; [apply place_ok; [apply Hin; left|exact Hp]|]. intros page' [Hp' Hc].
  eapply outcome_mono; [exact (IH _ _ (fun c H => Hin c (list_elem_of_further _ _ _ H)) Hp')|].
  intros page'' [Hp'' Hcs]. split; [exact Hp''|by constructor].
Qed.

Lemma blank_page_ok page m : mono_try_new w h m = Ok page -> m <= u32_max -> 0 <= w -> 0 <= h -> page_ok w h (fun _ _ => 0) page.
Proof.
  intros E Hm Hw Hh. unfold mono_try_new, checked_pixel_len in E. inv_ok E.
  destruct ((w =? 0) || (h =? 0)) eqn:Hz; [done|]. inv_ok Hx. apply checked_Some in Hx0 as [_ ->]. apply checked_Some in Hx as [_ ->].
  subst page. assert (0 < w /\ 0 < h /\ w * h <= u32_max) as (Hw' & Hh' & Hs) by blia.
  destruct (mono_of_pixels w h (replicate (Z.to_nat (w * h)) 0) (fun _ _ => 0)) as [Hq Hpx]; try done.
  - rewrite zlen_replicate. lia.
  - intros x y Hx Hy. apply lookup_replicate. pose proof (pix_range w h x y Hx Hy). split; [done|lia].
  - by left.
Qed.

Lemma compose_page_ok p pages :
  0 <= w -> 0 <= h ->
  safe (fun pages' => exists page, pages' = pages ++ [page] /\ sheet_page p page) (compose_page place plan limits w h p pages).
Proof using Hlimits pixels_fit place_ok.
  intros Hw Hh. pose proof Hlimits as (Hc & _). unfold compose_page.
  destruct (mono_try_new w h (max_canvas_pixels limits)) as [page|] eqn:Enew; [|done]. cbn [raising map_err rbind].
  apply blank_page_ok in Enew; [|lia|done..].
  eapply outcome_bind; [apply place_all_ok; [|exact Enew]; intros c Hin; apply list_elem_of_In, List.filter_In in Hin as [Hin _]; by apply list_elem_of_In|].
  intros drawn [(Hwf & Ew & Eh & Hdots) Hplaced].
  pose proof Hwf as (Hw0 & Hh0 & _). rewrite Ew in Hw0. rewrite Eh in Hh0.
  destruct (from_mono_wf drawn (max_canvas_pixels limits)) as (Efrom & _ & _); [done|rewrite Ew; nia|by unfold pixels_of; rewrite Ew, Eh|].
  rewrite Efrom. cbn [from_raster outcome rbind]. eexists. split; [done|]. unfold sheet_page.
  cbn [page_raster page_width_um page_height_um]. split_and!; [done|done|exact Ew|exact Eh|exact Hplaced|].
  intros X Y HX HY. destruct (pack_msb_spec drawn Hwf) as (bytes & Eb & _ & _ & Hbits).
  rewrite Ew, Eh in Hbits. unfold packed_of. cbn [p_bytes]. rewrite Eb, Hbits by done.
  destruct (Z.ltb_spec X w); [|done]. cbn [andb]. f_equal. specialize (Hdots X Y ltac:(lia) HY). unfold dot in Hdots. by rewrite Ew in Hdots.
Qed.

Lemma compose_loop_ok l pages :
  0 <= w -> 0 <= h ->
  safe (fun pages' => exists news, pages' = pages ++ news /\ Forall2 sheet_page l news) (for_each (compose_page place plan limits w h) l pages).
Proof using Hlimits pixels_fit place_ok.
  intros Hw Hh. revert pages. induction l as [|p l IH]; intros pages; [exists []; by rewrite app_nil_r|]. cbn [for_each].
  eapply outcome_bind; [by apply compose_page_ok|]. intros pages' (page & -> & Hpage).
  eapply outcome_mono; [apply IH|]. intros pages'' (news & -> & Hnews). exists (page :: news).
  split; [by rewrite <- app_assoc|by constructor].
Qed.
End Compose.

(** ** The PDF of a sheet *)

(** The PDF of pages, each composed of its placements. *)
Definition sheet_pdf (plan : SheetPlan) (options : SheetOptions) (limits : ProcessingLimits)
    (paint : Z -> Z -> SheetPlacement -> Z -> Z -> Z -> Z) (placed : Z -> Z -> SheetPlacement -> Prop) (out : list Z) : Prop :=
  exists w h pages,
    paper_dots (layout plan) (dpi options) limits = Ok (w, h) /\
    Forall2 (sheet_page plan w h (paint w h) (placed w h)) (seqZ 0 (page_count plan)) pages /\
    out = pdf_text (page_tree pages) /\ zlen out <= max_output_bytes limits.

Lemma exported_ok pages limits :
  export_limits limits ->
  safe (fun out => out = pdf_text (page_tree pages) /\ zlen out <= max_output_bytes limits) (raising (export_pages pages limits)).
Proof.
  intros (_ & _ & Hout & _). apply safe_raising. intros out E. unfold export_pages in E. apply map_err_Ok in E.
  apply pdf_packed_pages_spec in E as (_ & _ & Hr & ->); [|done]. split; [done|].
  pose proof (zlen_pdf_text (page_tree pages)). pose proof (room_of_page_tree pages). lia.
Qed.

Lemma sheet_pdf_ok plan options limits place paint placed :
  export_limits limits ->
  (forall w h, paper_dots (layout plan) (dpi options) limits = Ok (w, h) -> forall c f page, c ∈ placements plan -> page_ok w h f page ->
     safe (fun page => page_ok w h (fun X Y => paint w h c X Y (f X Y)) page /\ placed w h c) (place c page)) ->
  safe (sheet_pdf plan options limits paint placed)
    (let? pages := compose_pages place plan options limits in raising (export_pages pages limits)).
Proof.
  intros Hlimits Hplace. unfold compose_pages. destruct (paper_dots _ _ _) as [[w h]|] eqn:Ed; [|done]. cbn [raising map_err rbind].
  pose proof (paper_dots_inv _ _ _ _ _ Ed) as ([Hw _] & [Hh _] & Hwh).
  assert (w * h <= max_canvas_pixels limits) as Hfit.
  { unfold paper_dots in Ed. inv_ok Ed. injection Ed as -> ->. rewrite Hwh in Hx1. injection Hx1 as <-. blia. }
  eapply outcome_bind; [apply (compose_loop_ok plan limits w h Hlimits Hfit place (paint w h) (placed w h) (Hplace w h eq_refl)); done|].
  intros pages (news & -> & Hnews). cbn [app]. eapply outcome_mono; [by apply exported_ok|]. intros out [-> Hout].
  exists w, h, news. by split_and!.
Qed.

(** ** Placements *)

(** Where the slot of a placement begins, in dots. *)
Definition left_of (plan : SheetPlan) (options : SheetOptions) (c : SheetPlacement) : Z :=
  micrometres_to_dots (x_um (slot_at (layout plan) (slot c))) (dpi options).
Definition top_of (plan : SheetPlan) (options : SheetOptions) (c : SheetPlacement) : Z :=
  micrometres_to_dots (y_um (slot_at (layout plan) (slot c))) (dpi options).

(** The indices that an accepted plan uses are in range. *)
Definition plan_of (count : Z) (plan : SheetPlan) : Prop :=
  zlen (placements plan) = count /\
  (forall i, 0 <= i < count -> exists c, placements plan !! Z.to_nat i = Some c /\ item c = i) /\
  forall c, c ∈ placements plan ->
    0 <= item c < count /\ 0 <= slot c < zlen (slots (layout plan)) /\ 0 <= page c < page_count plan.

Lemma planned_plan_of l first count :
  0 <= first < zlen (slots l) -> 0 <= count -> plan_of count (planned l first count).
Proof.
  intros Hf Hc. unfold plan_of, planned. cbn [placements layout page_count]. set (n := zlen (slots l)) in *. split_and!.
  - rewrite zlen_map. unfold zlen. rewrite length_seqZ. lia.
  - intros i Hi. exists (planned_placement n first i). split; [|done].
    apply list_lookup_fmap_Some. exists i. split; [done|]. apply lookup_seqZ. lia.
  - intros c Hin. apply list_elem_of_fmap in Hin as (i & -> & Hi%elem_of_seqZ). cbn [item slot page planned_placement].
    pose proof (Z.mod_pos_bound (first + i) n). split_and!; [lia|lia|lia|lia|apply Z.div_pos; lia|].
    apply Z.div_lt_upper_bound; [lia|]. pose proof (Z.mul_div_le (first + count + n - 1) n).
    pose proof (Z.mod_pos_bound (first + count + n - 1) n). pose proof (Z.div_mod (first + count + n - 1) n). lia.
Qed.

Lemma plan_plan_of input definition options limits p :
  plan_input_typed input options -> plan input definition options limits = Ok p -> plan_of (item_count input) p.
Proof.
  intros Hi E. apply sheet_plan_inv in E as (l & _ & (Hc & Hf & _) & ->); [|done].
  apply planned_plan_of; [|lia]. destruct Hi as (_ & ? & _). lia.
Qed.

Lemma index_slot {E} (layout : SheetLayout) i : 0 <= i < zlen (slots layout) -> index (E := E) (slots layout) i = Ok (slot_at layout i).
Proof.
  intros Hi. destruct (index_in_range (E := E) (slots layout) i Hi) as (s & -> & Hs). unfold slot_at.
  by rewrite (nth_lookup_Some _ _ _ _ Hs).
Qed.

(** The dots of a coordinate. *)
Lemma dots_safe (Q : Z -> Prop) um dpi :
  (in_u u32_max (micrometres_to_dots um dpi) -> Q (micrometres_to_dots um dpi)) -> safe Q (raising (dots_u32 um dpi)).
Proof. intros HQ. apply safe_raising. intros v E. unfold dots_u32 in E. apply ok_or_Ok, checked_Some in E as [Hv ->]. by apply HQ. Qed.

(** ** Sheets of rasters *)

Definition no_raster : MonoRaster := {| m_width := 0; m_height := 0; m_pixels := [] |}.
Definition no_item : SheetRasterItem := {| item_raster := no_raster; item_width_um := 0; item_height_um := 0 |}.

Section Rasters.
Context (items : list SheetRasterItem) (options : SheetOptions) (raster_options : SheetRasterOptions).
Hypothesis items_typed : Forall (fun i => raster_typed (item_raster i)) items.

Definition raster_of (c : SheetPlacement) : MonoRaster := item_raster (nth (Z.to_nat (item c)) items no_item).

(** The label, and over it its cut marks. *)
Definition paint_raster (plan : SheetPlan) (_ _ : Z) (c : SheetPlacement) (X Y v : Z) : Z :=
  let x := left_of plan options c in
  let y := top_of plan options c in
  if cut_marks raster_options && marked (cut_marks_of x y (raster_of c) (dpi options)) X Y then 1
  else over (raster_of c) x y X Y v.

Definition raster_placed (plan : SheetPlan) (w h : Z) (c : SheetPlacement) : Prop :=
  within w h (raster_of c) (left_of plan options c) (top_of plan options c).

Lemma place_raster_ok plan w h c f page :
  plan_of (zlen items) plan -> c ∈ placements plan -> page_ok w h f page ->
  safe (fun page => page_ok w h (fun X Y => paint_raster plan w h c X Y (f X Y)) page /\ raster_placed plan w h c)
    (place_on_page items plan options raster_options c page).
Proof using items_typed.
  intros (_ & _ & Hplan) Hin Hp. destruct (Hplan c Hin) as (Hitem & Hslot & _). unfold place_on_page.
  rewrite index_slot by done. cbn [rbind].
  eapply outcome_bind; [apply (dots_safe (fun x => x = left_of plan options c /\ in_u u32_max x)); done|]. intros x [-> Hx].
  eapply outcome_bind; [apply (dots_safe (fun y => y = top_of plan options c /\ in_u u32_max y)); done|]. intros y [-> Hy].
  destruct (index_in_range (E := SheetError.t) items (item c) Hitem) as (i & -> & Hi). cbn [rbind].
  assert (raster_of c = item_raster i) as Er by (unfold raster_of; by rewrite (nth_lookup_Some _ _ _ _ Hi)).
  pose proof (proj1 (list.Forall_forall _ _) items_typed i (list_elem_of_lookup_2 _ _ _ Hi)) as Ht. cbn beta in Ht.
  unfold raster_placed, paint_raster. rewrite Er.
  eapply outcome_bind; [by apply blit_page|]. intros page' [Hp' Hw].
  destruct (cut_marks raster_options); cbn [andb]; [|by split].
  eapply outcome_mono; [eapply draw_cut_marks_ok; [exact Hp'|apply Hx|apply Hy]|]. intros page'' Hp''. split; [exact Hp''|done].
Qed.

Lemma check_items_safe plan l i :
  plan_of (zlen items) plan -> 0 <= i -> i + zlen l <= zlen items -> panics (check_items plan options i l) = false.
Proof.
  intros Hplan. revert i. induction l as [|a l IH]; intros i Hi Hl; [done|]. rewrite zlen_cons in Hl. pose proof (zlen_nonneg l).
  cbn [check_items]. apply panics_bind; [|intros _ _; apply IH; lia]. unfold check_item.
  apply panics_bind; [by destruct (mono_validate _)|]. intros _ _. destruct Hplan as (_ & Hat & Hin).
  destruct (Hat i ltac:(lia)) as (c & Hc & _). destruct (Hin c (list_elem_of_lookup_2 _ _ _ Hc)) as (_ & Hslot & _).
  rewrite (proj2 (index_Ok (placements plan) i c) (conj Hi Hc)). cbn [rbind]. rewrite index_slot by done. cbn [rbind].
  do 3 (apply panics_bind; [apply panics_raising|]; intros ? _). by destruct (_ || _).
Qed.

End Rasters.

(** C38: sheets of rasters. Imposing rasters never panics. A success is the PDF of
    the planned pages, of the paper's size: every label lies within its page
    at the dots of its slot, and every dot of a page is that of the last label
    over it or one of its cut marks, and white elsewhere. *)
Theorem sheet_of_rasters items definition options raster_options limits :
  Forall (fun i => raster_typed (item_raster i)) items -> export_limits limits -> in_u usize_max (first_slot options) ->
  safe (fun out => exists first p,
          head items = Some first /\
          plan {| item_count := zlen items; input_width_um := item_width_um first; input_height_um := item_height_um first |}
            definition options limits = Ok p /\
          sheet_pdf p options limits (paint_raster items options raster_options p) (raster_placed items options p) out)
    (pdf_rasters items definition options raster_options limits).
Proof.
  intros Ht Hl Hf. unfold pdf_rasters. destruct items as [|first rest] eqn:Eitems; [done|]. rewrite <- Eitems in *.
  destruct (checked u32_max (zlen items)) as [count|] eqn:Ec; [|done]. apply checked_Some in Ec as [Hc ->].
  cbn [ok_or raising map_err rbind].
  destruct (plan _ definition options limits) as [p|] eqn:Ep; [|done]. cbn [raising map_err rbind].
  apply plan_plan_of in Ep as Hplan; [|by split]. cbn [item_count] in Hplan.
  apply (outcome_bind _ _ (fun _ => True)).
  { pose proof (check_items_safe items options p items 0 Hplan ltac:(lia) ltac:(lia)) as H. by destruct (check_items p options 0 items) as [|[]]. }
  intros _ _. unfold pdf_rasters_planned.
  eapply outcome_mono; [apply (sheet_pdf_ok p options limits _ (paint_raster items options raster_options p) (raster_placed items options p) Hl)|].
  - intros w h _ c f page Hin Hp. by apply place_raster_ok.
  - intros out Hout. exists first, p. split; [by rewrite Eitems|]. by split.
Qed.

(** ** Sheets of documents *)

(** A loop that only checks. *)
Lemma safe_for_all {E A} (Q : A -> Prop) (body : A -> unit -> Result (Fault E) unit) l :
  (forall a, a ∈ l -> safe (fun _ => Q a) (body a tt)) -> safe (fun _ => Forall Q l) (for_each body l tt).
Proof.
  induction l as [|a l IH]; intros Hb; [by constructor|]. cbn [for_each].
  eapply outcome_bind; [apply Hb; left|]. intros [] Ha.
  eapply outcome_mono; [apply IH; intros b Hin; apply Hb; by right|]. intros u Hl. by constructor.
Qed.

Section Documents.
Context `{TS : Typesetter} `{LT : !LawfulTypesetter} `{IC : ImageCodec} `{LC : !LawfulCodec} {Json : Type} `{JV : JsonView Json}.
Variable base64_decode : list Z -> option (list Z).
Variable sha256 : list Z -> list Z.
Context (documents : list (Document Json)) (options : SheetOptions) (limits : ProcessingLimits).

Hypothesis drawable_labels : Forall (fun d => drawable_document (with_dpi d (dpi options))) documents.
Hypothesis resource_limit : max_resource_pixels limits <= u32_max.

#[local] Abbreviation render_label := (render_label base64_decode sha256).

(** The label of a placement. *)
Definition label_of (c : SheetPlacement) : MonoRaster :=
  match documents !! Z.to_nat (item c) with
  | Some document => match render_label (item c) document options limits with Ok label => label | Err _ => no_raster end
  | None => no_raster
  end.

Definition paint_label (plan : SheetPlan) (_ _ : Z) (c : SheetPlacement) (X Y v : Z) : Z :=
  over (label_of c) (left_of plan options c) (top_of plan options c) X Y v.

(** The label is the document rendered at the density of the sheet, and lies within the page. *)
Definition label_placed (plan : SheetPlan) (w h : Z) (c : SheetPlacement) : Prop :=
  exists document, documents !! Z.to_nat (item c) = Some document /\
    render_label (item c) document options limits = Ok (label_of c) /\
    (m_width (label_of c), m_height (label_of c)) = media_dots (with_dpi document (dpi options)) /\
    within w h (label_of c) (left_of plan options c) (top_of plan options c).

(** The document of every placement is valid and of the size of its slot. *)
Definition document_checked (plan : SheetPlan) (document : Z * Document Json) : Prop :=
  let '(item, d) := document in
  validate base64_decode sha256 d = Ok tt /\
  exists c, placements plan !! Z.to_nat item = Some c /\
    has_size (media_width (media d)) (media_height (media d)) (slot_at (layout plan) (slot c)).

Lemma render_label_ok i document :
  drawable_document (with_dpi document (dpi options)) ->
  safe (fun label => mono_wf label /\ (m_width label, m_height label) = media_dots (with_dpi document (dpi options)))
    (render_label i document options limits).
Proof using resource_limit LT LC.
  intros Hd. unfold SheetDocuments.render_label, render_with_resource_limit.
  set (opts := {| option_dither := _; max_pixels := _ |}). set (lim := with_max_resource_pixels _ _).
  pose proof (render_safe base64_decode sha256 (with_dpi document (dpi options)) opts lim resource_limit ltac:(vm_compute; congruence) Hd) as H.
  destruct (render_with_limits _ _ _ opts lim) as [label|[e|]]; [|done|done]. cbn in H |- *. tauto.
Qed.

Lemma place_document_ok plan w h c f page :
  plan_of (zlen documents) plan -> c ∈ placements plan -> page_ok w h f page ->
  safe (fun page => page_ok w h (fun X Y => paint_label plan w h c X Y (f X Y)) page /\ label_placed plan w h c)
    (place_document base64_decode sha256 documents plan options limits c page).
Proof using drawable_labels resource_limit LT LC.
  intros (_ & _ & Hplan) Hin Hp. destruct (Hplan c Hin) as (Hitem & Hslot & _). unfold place_document.
  destruct (index_in_range (E := SheetError.t) documents (item c) Hitem) as (d & -> & Hd). cbn [rbind].
  pose proof (proj1 (list.Forall_forall _ _) drawable_labels d (list_elem_of_lookup_2 _ _ _ Hd)) as Hdraw. cbn beta in Hdraw.
  pose proof (render_label_ok (item c) d Hdraw) as Hrender.
  destruct (render_label (item c) d options limits) as [label|[e|]] eqn:El; [|done|done]. cbn [outcome rbind] in *.
  destruct Hrender as [Hwf Hdots]. rewrite index_slot by done. cbn [rbind].
  assert (label_of c = label) as Elabel by (unfold label_of; by rewrite Hd, El).
  eapply outcome_bind; [apply (dots_safe (fun x => x = left_of plan options c /\ in_u u32_max x)); done|]. intros x [-> Hx].
  eapply outcome_bind; [apply (dots_safe (fun y => y = top_of plan options c /\ in_u u32_max y)); done|]. intros y [-> Hy].
  unfold paint_label, label_placed. rewrite Elabel.
  eapply outcome_mono; [eapply blit_page; [exact Hp| |exact Hx|exact Hy]|].
  - destruct Hwf as (? & ? & _ & _ & Hb). unfold raster_typed. split_and!; [lia|lia|by apply bits_bytes].
  - intros page' [Hp' Hw]. split; [exact Hp'|]. exists d. by split_and!.
Qed.

Lemma check_documents_ok plan :
  plan_of (zlen documents) plan ->
  safe (fun _ => Forall (document_checked plan) (enumerate documents))
    (for_each (check_document base64_decode sha256 plan limits) (enumerate documents) tt).
Proof.
  intros (_ & Hat & Hplan). apply safe_for_all. intros [i d] [Hi _]%elem_of_enumerate. cbn [check_document document_checked].
  apply (outcome_bind _ _ (fun _ => True)); [by apply safe_raising|]. intros _ _.
  apply (outcome_bind _ _ (fun _ => validate base64_decode sha256 d = Ok tt)).
  { apply safe_map_raised; [apply validate_ends|]. by intros []. }
  intros _ Hv. destruct (Hat i Hi) as (c & Hc & _). destruct (Hplan c (list_elem_of_lookup_2 _ _ _ Hc)) as (_ & Hslot & _).
  rewrite (proj2 (index_Ok (placements plan) i c)) by (split; [lia|done]). cbn [rbind]. rewrite index_slot by done. cbn [rbind].
  apply safe_raising. intros [] E. split; [exact Hv|]. exists c. split; [exact Hc|]. by apply ensure_size_spec in E.
Qed.
End Documents.

(** C39: sheets of documents. Printing documents onto sheets never panics, as
    long as no stroke of a document has coordinates that wrap at the density of
    the sheet. A success is the PDF of the planned pages: every document is
    valid and has the size of its slot, it is rendered at the density of the
    sheet, lies within its page at the dots of its slot, and every dot of a page
    is that of the last label over it, and white elsewhere. *)
Theorem sheet_of_documents `{TS : Typesetter} `{LT : !LawfulTypesetter} `{IC : ImageCodec} `{LC : !LawfulCodec} {Json : Type} `{JV : JsonView Json}
    base64_decode sha256 (documents : list (Document Json)) definition options limits :
  Forall (fun d => drawable_document (with_dpi d (dpi options))) documents -> max_resource_pixels limits <= u32_max ->
  export_limits limits -> in_u usize_max (first_slot options) ->
  safe (fun out => exists first p,
          head documents = Some first /\
          plan {| item_count := zlen documents; input_width_um := media_width (media first); input_height_um := media_height (media first) |}
            definition options limits = Ok p /\
          Forall (document_checked base64_decode sha256 p) (enumerate documents) /\
          sheet_pdf p options limits (paint_label base64_decode sha256 documents options limits p)
            (label_placed base64_decode sha256 documents options limits p) out)
    (SheetDocuments.pdf base64_decode sha256 documents definition options limits).
Proof.
  intros Hd Hr Hl Hf. unfold SheetDocuments.pdf. destruct documents as [|first rest] eqn:Edocs; [done|]. rewrite <- Edocs in *.
  destruct (_ <? _); [done|].
  destruct (checked u32_max (zlen documents)) as [count|] eqn:Ec; [|done]. apply checked_Some in Ec as [Hc ->].
  cbn [ok_or raising map_err rbind].
  destruct (plan _ definition options limits) as [p|] eqn:Ep; [|done]. cbn [raising map_err rbind].
  apply plan_plan_of in Ep as Hplan; [|by split]. cbn [item_count] in Hplan.
  eapply outcome_bind; [apply (check_documents_ok base64_decode sha256 documents limits p Hplan)|]. intros u Hchecked.
  unfold pdf_documents_planned.
  eapply outcome_mono; [apply (sheet_pdf_ok p options limits _ (paint_label base64_decode sha256 documents options limits p)
    (label_placed base64_decode sha256 documents options limits p) Hl)|].
  - intros w h _ c f page Hin Hp. by apply place_document_ok.
  - intros out Hout. exists first, p. split; [by rewrite Edocs|]. by split_and!.
Qed.

(** ** Examples *)

(** Two slots of the sample label's size on one paper. *)
Definition sample_slot (x : Z) : SheetSlot := {| x_um := x; y_um := 125; width_um := 2000; height_um := 1000 |}.

Definition sample_sheet : SheetDefinition := Explicit {|
  layout_id := str "pair"; paper_width_um := 5000; paper_height_um := 1500; slots := [sample_slot 250; sample_slot 2500] |}.

Definition sample_dpi : SheetOptions := {| first_slot := 1; dpi := 203 |}.

#[local] Existing Instances sample_typesetter sample_codec sample_json.

Definition sample_items : list SheetRasterItem :=
  let item := {| item_raster := {| m_width := 16; m_height := 8; m_pixels := replicate 128 1 |}; item_width_um := 2000; item_height_um := 1000 |} in
  [item; item].

Lemma sheet_of_rasters_witness :
  exists out p, pdf_rasters sample_items sample_sheet sample_dpi {| cut_marks := true |} ProcessingLimits_default = Ok out /\
    page_count p = 2 /\
    sheet_pdf p sample_dpi ProcessingLimits_default (paint_raster sample_items sample_dpi {| cut_marks := true |} p)
      (raster_placed sample_items sample_dpi p) out.
Proof.
  assert (Forall (fun i => raster_typed (item_raster i)) sample_items) as Ht.
  { repeat constructor; by vm_compute. }
  pose proof (sheet_of_rasters sample_items sample_sheet sample_dpi {| cut_marks := true |} ProcessingLimits_default Ht
    default_export_limits ltac:(split; by vm_compute)) as H.
  assert (is_ok (pdf_rasters sample_items sample_sheet sample_dpi {| cut_marks := true |} ProcessingLimits_default) = true) as Hok by (by vm_compute).
  destruct (pdf_rasters _ _ _ _ _) as [out|]; [|discriminate Hok].
  destruct H as (first & p & Efirst & Ep & Hpdf). injection Efirst as <-. exists out, p. split; [reflexivity|]. split; [|exact Hpdf].
  match type of Ep with ?r = _ => assert (match r with Ok p => page_count p | Err _ => 0 end = 2) as E2 by (by vm_compute) end.
  by rewrite Ep in E2.
Defined.

Lemma sheet_of_documents_witness :
  exists out p, SheetDocuments.pdf (fun _ => None) (fun _ => []) [sample_label; sample_label] sample_sheet sample_dpi ProcessingLimits_default = Ok out /\
    sheet_pdf p sample_dpi ProcessingLimits_default
      (paint_label (fun _ => None) (fun _ => []) [sample_label; sample_label] sample_dpi ProcessingLimits_default p)
      (label_placed (fun _ => None) (fun _ => []) [sample_label; sample_label] sample_dpi ProcessingLimits_default p) out.
Proof.
  assert (Forall (fun d => drawable_document (with_dpi d (dpi sample_dpi))) [sample_label; sample_label]) as Hd.
  { constructor; [exact sample_drawable|constructor; [exact sample_drawable|constructor]]. }
  pose proof (sheet_of_documents (fun _ => None) (fun _ => []) [sample_label; sample_label] sample_sheet sample_dpi ProcessingLimits_default
    Hd ltac:(by vm_compute)
    default_export_limits ltac:(split; by vm_compute)) as H.
  assert (is_ok (SheetDocuments.pdf (fun _ => None) (fun _ => []) [sample_label; sample_label] sample_sheet sample_dpi ProcessingLimits_default) = true)
    as Hok by (by vm_compute).
  destruct (SheetDocuments.pdf _ _ _ _ _ _) as [out|]; [|discriminate Hok].
  destruct H as (first & p & _ & _ & _ & Hpdf). exists out, p. split; [reflexivity|exact Hpdf].
Defined.
