(* ===== verification/MeasureFacts.v ===== *)
(** Measurement: the bounds of the ink of an element, and of a document. *)

From stdpp Require Import base list list_numbers sets strings numbers option.
From S2P Require Import Prelude Text Capabilities ProtocolTypes MonoRaster MonoRasterFacts Document DocumentFacts Sheet RenderTypes Geometry GeometryFacts Canvas CanvasFacts PasteFacts TextDrawing DrawingFacts Resources Media Renderer RenderSamples RendererFacts.

#[local] Open Scope Z_scope.

(** ** Ink *)

Definition inked (r : GrayRaster) (x y : Z) : Prop := 0 <= x < g_width r /\ 0 <= y < g_height r /\ pixel r x y < 255.

(** [s] is the extent of the inked dots of [l]. *)
Definition extent_of (r : GrayRaster) (l : list (Z * Z)) (s : Z * Z * Z * Z * bool) : Prop :=
  let '(min_x, min_y, max_x, max_y, found) := s in
  (forall x y, (x, y) ∈ l -> pixel r x y < 255 -> found = true /\ min_x <= x < max_x /\ min_y <= y < max_y) /\
  (found = true ->
    (exists y, (min_x, y) ∈ l /\ pixel r min_x y < 255) /\ (exists x, (x, min_y) ∈ l /\ pixel r x min_y < 255) /\
    (exists y, (max_x - 1, y) ∈ l /\ pixel r (max_x - 1) y < 255) /\ (exists x, (x, max_y - 1) ∈ l /\ pixel r x (max_y - 1) < 255)) /\
  (found = false -> s = (g_width r, g_height r, 0, 0, false)).

(** One dot more. *)
Lemma extent_step r l x y s :
  0 <= x < g_width r -> 0 <= y < g_height r -> extent_of r l s ->
  extent_of r (l ++ [(x, y)])
    (let '(min_x, min_y, max_x, max_y, found) := s in
     if pixel r x y <? 255 then (Z.min min_x x, Z.min min_y y, Z.max max_x (x + 1), Z.max max_y (y + 1), true) else s).
Proof.
  destruct s as [[[[min_x min_y] max_x] max_y] found]. intros Hx Hy (Hin & Htight & Hblank). destruct (Z.ltb_spec (pixel r x y) 255) as [Hink|Hwhite].
  - split; [|split; [|done]].
    + intros x' y' [Hl|[= -> ->]%list_elem_of_singleton]%elem_of_app Hp; [|lia]. destruct (Hin x' y' Hl Hp) as (_ & ? & ?). split_and!; done || lia.
    + intros _. destruct found.
      * destruct (Htight eq_refl) as ((y1 & L1 & P1) & (x1 & L2 & P2) & (y2 & L3 & P3) & (x2 & L4 & P4)).
        destruct (Z.min_spec min_x x) as [[_ ->]|[_ ->]], (Z.min_spec min_y y) as [[_ ->]|[_ ->]],
          (Z.max_spec max_x (x + 1)) as [[_ ->]|[_ ->]], (Z.max_spec max_y (y + 1)) as [[_ ->]|[_ ->]]; rewrite ?Z.add_simpl_r;
        split_and!; eexists; setoid_rewrite elem_of_app; (split; [|eassumption]); first [by left|right; by apply list_elem_of_singleton].
      * injection (Hblank eq_refl) as -> -> -> ->. rewrite !Z.min_r, !Z.max_r, !Z.add_simpl_r by lia.
        split_and!; eexists; setoid_rewrite elem_of_app; (split; [|eassumption]); right; by apply list_elem_of_singleton.
  - split; [|split; [|done]].
    + intros x' y' [Hl|[= -> ->]%list_elem_of_singleton]%elem_of_app Hp; [by apply Hin|lia].
    + intros Hf. destruct (Htight Hf) as ((y1 & L1 & P1) & (x1 & L2 & P2) & (y2 & L3 & P3) & (x2 & L4 & P4)).
      split_and!; eexists; setoid_rewrite elem_of_app; (split; [by left|eassumption]).
Qed.

(** A loop over a list that extends a property of its prefixes. *)
Lemma for_each_prefix {E A S} (body : A -> S -> Result E S) (step : A -> S -> S) (I : list A -> S -> Prop) l done_ s :
  (forall a s, a ∈ l -> body a s = Ok (step a s)) ->
  (forall a prefix s, a ∈ l -> I prefix s -> I (prefix ++ [a]) (step a s)) -> I done_ s ->
  exists s', for_each body l s = Ok s' /\ I (done_ ++ l) s'.
Proof.
  revert done_ s. induction l as [|a l IH]; intros done_ s Hb Hi Hs; [exists s; by rewrite app_nil_r|].
  cbn [for_each]. rewrite Hb by left. cbn [rbind].
  destruct (IH (done_ ++ [a]) (step a s)) as (s' & E' & HI).
  - intros b s2 Hbl. apply Hb. by right.
  - intros b prefix s2 Hbl. apply Hi. by right.
  - apply Hi; [left|done].
  - exists s'. split; [done|]. by rewrite <- app_assoc in HI.
Qed.

Lemma ink_extent_spec r :
  gray_wf r -> exists s, ink_extent r = Ok s /\ extent_of r (coords (g_width r) (g_height r)) s.
Proof.
  intros Hr. unfold ink_extent.
  apply (for_each_prefix _ (fun a s => let '(x, y) := a in let '(min_x, min_y, max_x, max_y, found) := s in
    if pixel r x y <? 255 then (Z.min min_x x, Z.min min_y y, Z.max max_x (x + 1), Z.max max_y (y + 1), true) else s)
    (extent_of r) _ []).
  - intros [x y] [[[[a b] c] d] e] [Hx Hy]%elem_of_coords. pose proof Hr as (Hw & Hh & Hs & _).
    rewrite (idx32_small _ (g_height r)) by done. destruct (gray_pixel r x y Hr Hx Hy) as [-> _]. cbn [rbind]. by destruct (_ <? _).
  - intros [x y] prefix s [Hx Hy]%elem_of_coords Hs. exact (extent_step r prefix x y s Hx Hy Hs).
  - split_and!; [by intros x y ?%elem_of_nil|done|done].
Qed.

(** ** Micrometres *)

Lemma checked_i64_small v : i64_min <= v <= i64_max -> checked_i64 v = Some v.
Proof. intros Hv. unfold checked_i64. by destruct (Z.leb_spec i64_min v), (Z.leb_spec v i64_max); (done || lia). Qed.

Lemma div_ceil_spec a b : 0 < b -> (div_ceil a b - 1) * b < a <= div_ceil a b * b.
Proof.
  intros Hb. unfold div_ceil. pose proof (Z.div_mod (a + b - 1) b ltac:(lia)). pose proof (Z.mod_pos_bound (a + b - 1) b Hb). lia.
Qed.

Lemma dots_floor_spec v dpi :
  in_u u32_max v -> 0 < dpi ->
  exists um, dots_to_micrometres_floor v dpi = Ok um /\ 0 <= um <= 2 ^ 47 /\ um * dpi <= v * 25400 < (um + 1) * dpi.
Proof.
  intros [H0 Hv] Hd. unfold u32_max in Hv. unfold dots_to_micrometres_floor. rewrite (proj2 (Z.eqb_neq _ 0)) by lia.
  pose proof (Z.div_mod (v * 25400) dpi ltac:(lia)) as Hdm. pose proof (Z.mod_pos_bound (v * 25400) dpi Hd) as Hm.
  assert (0 <= v * 25400 / dpi <= v * 25400) as Hq. { split; [apply Z.div_pos; lia|]. apply Z.div_le_upper_bound; nia. }
  rewrite checked_i64_small by (unfold i64_min, i64_max; lia). eexists. split; [done|]. cbv [default id]. lia.
Qed.

Lemma dots_ceil_spec v dpi :
  in_u u32_max v -> 0 < dpi ->
  exists um, dots_to_micrometres_ceil v dpi = Ok um /\ 0 <= um <= 2 ^ 47 /\ (um - 1) * dpi < v * 25400 <= um * dpi.
Proof.
  intros [H0 Hv] Hd. unfold u32_max in Hv. unfold dots_to_micrometres_ceil. rewrite (proj2 (Z.eqb_neq _ 0)) by lia.
  pose proof (div_ceil_spec (v * 25400) dpi Hd) as Hc.
  assert (0 <= div_ceil (v * 25400) dpi <= v * 25400) as Hq by nia.
  rewrite checked_i64_small by (unfold i64_min, i64_max; lia). eexists. split; [done|]. cbv [default id]. lia.
Qed.

(** A dot of the head in micrometres is inside the bounds: [dpi] dots are 25,400 of them. *)
Definition dot_inside (b : Bounds) (dpi x y : Z) : Prop :=
  b_x b * dpi <= x * 25400 /\ (x + 1) * 25400 <= (b_x b + b_width b) * dpi /\
  b_y b * dpi <= y * 25400 /\ (y + 1) * 25400 <= (b_y b + b_height b) * dpi.

(** No side can move inwards by a micrometre. *)
Definition bounds_tight (r : GrayRaster) (b : Bounds) (dpi : Z) : Prop :=
  (exists x y, inked r x y /\ x * 25400 < (b_x b + 1) * dpi) /\ (exists x y, inked r x y /\ y * 25400 < (b_y b + 1) * dpi) /\
  (exists x y, inked r x y /\ (b_x b + b_width b - 1) * dpi < (x + 1) * 25400) /\
  (exists x y, inked r x y /\ (b_y b + b_height b - 1) * dpi < (y + 1) * 25400).

(** Bounds whose sums do not wrap. *)
Definition bounds_small (b : Bounds) : Prop :=
  0 <= b_x b /\ 0 <= b_y b /\ 0 < b_width b /\ 0 < b_height b /\ b_x b + b_width b <= 2 ^ 47 /\ b_y b + b_height b <= 2 ^ 47.

Lemma gray_ink_bounds_spec r dpi :
  gray_wf r -> 0 < dpi ->
  exists o, gray_ink_bounds r dpi = Ok o /\
    match o with
    | None => forall x y, ~ inked r x y
    | Some b => bounds_small b /\ (forall x y, inked r x y -> dot_inside b dpi x y) /\ bounds_tight r b dpi
    end.
Proof.
  intros Hr Hd. unfold gray_ink_bounds. destruct (ink_extent_spec r Hr) as ([[[[min_x min_y] max_x] max_y] found] & -> & Hin & Htight & _).
  cbn [rbind]. destruct found; cbn [negb].
  - assert (forall x y, (x, y) ∈ coords (g_width r) (g_height r) -> pixel r x y < 255 -> inked r x y) as Hink.
    { intros x y [? ?]%elem_of_coords ?. by unfold inked. }
    destruct (Htight eq_refl) as ((y1 & L1 & P1) & (x1 & L2 & P2) & (y2 & L3 & P3) & (x2 & L4 & P4)).
    pose proof (Hink _ _ L1 P1) as I1. pose proof (Hink _ _ L2 P2) as I2. pose proof (Hink _ _ L3 P3) as I3. pose proof (Hink _ _ L4 P4) as I4.
    destruct (Hin _ _ L1 P1) as (_ & ? & ?). destruct (Hin _ _ L2 P2) as (_ & ? & ?). destruct Hr as (_ & _ & Hs & _). unfold u32_max in Hs.
    assert (g_width r <= 4294967295 /\ g_height r <= 4294967295) as [? ?] by (unfold inked in *; nia).
    destruct (dots_floor_spec min_x dpi) as (x & -> & Bx & Ex); [unfold in_u, u32_max, inked in *; lia|done|].
    destruct (dots_floor_spec min_y dpi) as (y & -> & By & Ey); [unfold in_u, u32_max, inked in *; lia|done|].
    destruct (dots_ceil_spec max_x dpi) as (rx & -> & Brx & Erx); [unfold in_u, u32_max, inked in *; lia|done|].
    destruct (dots_ceil_spec max_y dpi) as (ry & -> & Bry & Ery); [unfold in_u, u32_max, inked in *; lia|done|].
    cbn [rbind]. rewrite !as_i64_id by (unfold i64_min, i64_max; lia). eexists. split; [done|].
    assert (x < rx /\ y < ry) as [? ?] by nia.
    split; [|split].
    + unfold bounds_small. cbn [b_x b_y b_width b_height]. lia.
    + intros px py (Hpx & Hpy & Hp). destruct (Hin px py) as (_ & ? & ?); [by apply elem_of_coords|done|].
      unfold dot_inside. cbn [b_x b_y b_width b_height]. rewrite !Zplus_minus. nia.
    + unfold bounds_tight. cbn [b_x b_y b_width b_height]. rewrite !Zplus_minus.
      split; [exists min_x, y1; split; [done|lia]|]. split; [exists x1, min_y; split; [done|lia]|].
      split; [exists (max_x - 1), y2; split; [done|lia]|]. exists x2, (max_y - 1). split; [done|lia].
  - eexists. split; [done|]. intros x y (Hx & Hy & Hp). destruct (Hin x y) as (? & _); [by apply elem_of_coords|done|done].
Qed.

(** ** Unions *)

Definition bounds_within (b o : Bounds) : Prop :=
  b_x o <= b_x b /\ b_y o <= b_y b /\ b_x b + b_width b <= b_x o + b_width o /\ b_y b + b_height b <= b_y o + b_height o.

Lemma union_spec l r :
  bounds_small l -> bounds_small r ->
  let u := union_physical_bounds l r in
  bounds_small u /\ bounds_within l u /\ bounds_within r u /\ forall o, bounds_within l o -> bounds_within r o -> bounds_within u o.
Proof.
  intros (? & ? & ? & ? & ? & ?) (? & ? & ? & ? & ? & ?). cbn zeta. unfold union_physical_bounds, bounds_small, bounds_within.
  rewrite (as_i64_id (b_x l + b_width l)), (as_i64_id (b_x r + b_width r)), (as_i64_id (b_y l + b_height l)), (as_i64_id (b_y r + b_height r))
    by (unfold i64_min, i64_max; lia).
  rewrite !as_i64_id by (unfold i64_min, i64_max; lia). cbn [b_x b_y b_width b_height].
  split; [lia|]. split; [lia|]. split; [lia|]. intros o (? & ? & ? & ?) (? & ? & ? & ?). lia.
Qed.

Lemma bounds_within_refl b : bounds_within b b.
Proof. unfold bounds_within. lia. Qed.

(** The least bounds around all of [l]. *)
Definition hull (l : list Bounds) (b : Bounds) : Prop :=
  (forall a, a ∈ l -> bounds_within a b) /\ forall o, (forall a, a ∈ l -> bounds_within a o) -> bounds_within b o.

Lemma reduce_bounds_spec l :
  Forall bounds_small l ->
  match reduce_bounds l with None => l = [] | Some b => l <> [] /\ bounds_small b /\ hull l b end.
Proof.
  destruct l as [|b l]; [done|]. intros [Hb Hl]%Forall_cons_1. cbn [reduce_bounds]. split; [done|].
  assert (forall l seen b, bounds_small b -> Forall bounds_small l -> hull seen b ->
    bounds_small (fold_left union_physical_bounds l b) /\ hull (seen ++ l) (fold_left union_physical_bounds l b)) as Hfold.
  { clear. induction l as [|a l IH]; intros seen b Hb Hl Hseen; [by rewrite app_nil_r|]. apply Forall_cons_1 in Hl as [Ha Hl].
    destruct (union_spec b a Hb Ha) as (Hu & Hbu & Hau & Hleast). cbn [fold_left].
    destruct (IH (seen ++ [a]) _ Hu Hl) as [Hs Hh]; [|by rewrite <- app_assoc in Hh].
    destruct Hseen as [Hin Hout]. split.
    - intros x [Hx| ->%list_elem_of_singleton]%elem_of_app; [|done]. specialize (Hin x Hx). unfold bounds_within in *. lia.
    - intros o Ho. apply Hleast; [apply Hout; intros x Hx; apply Ho, elem_of_app; by left|].
      apply Ho, elem_of_app. right. by apply list_elem_of_singleton. }
  apply (Hfold l [b] b Hb Hl). split; [intros x ->%list_elem_of_singleton; apply bounds_within_refl|].
  intros o Ho. apply Ho. by apply list_elem_of_singleton.
Qed.

(** ** Documents *)

Section Measurement.
Context `{TS : Typesetter} `{LT : !LawfulTypesetter} `{IC : ImageCodec} `{LC : !LawfulCodec} {Json : Type} `{JV : JsonView Json}.
Variable base64_decode : list Z -> option (list Z).
Variable sha256 : list Z -> list Z.
Implicit Types (doc : Document Json) (e : Element.t).

Lemma auto_height_safe doc limits e p : safe (fun _ => True) (auto_height_dots base64_decode e p doc limits).
Proof.
  unfold auto_height_dots. destruct e; try done. destruct overflow; try done. cbn zeta. apply (outcome_bind _ _ (fun _ => True)); [|done].
  destruct font_resource as [id|]; [|done]. apply (outcome_bind _ _ (fun _ => True)); [apply font_bytes_safe|]. intros bytes _.
  apply (outcome_bind _ _ (fun face => 0 < units_per_em face)).
  { apply safe_raising. intros face Hf%ok_or_Ok. by eapply face_scaled. }
  intros face Hface. apply (outcome_bind _ _ (fun _ => True)); [by apply embedded_wrap_safe|done].
Qed.

Lemma bottom_candidate_safe doc limits e p : safe (fun _ => True) (bottom_candidate base64_decode e p doc limits).
Proof.
  unfold bottom_candidate. destruct (pl_rotation p =? 0).
  - apply (outcome_bind _ _ (fun _ => True)); [apply auto_height_safe|done].
  - assert (in_u u64_max (diagonal_squared p)) as Hd.
    { unfold diagonal_squared. destruct (checked u64_max _) as [v|] eqn:Hv; [by apply checked_Some in Hv as [? ->]|done]. }
    destruct (integer_sqrt_ceil_spec _ Hd) as (r & -> & _). cbn [rbind]. apply (outcome_bind _ _ (fun _ => True)); [by apply safe_raising|done].
Qed.

Lemma measurement_height_safe doc limits : safe (fun h => 0 <= h <= u32_max) (measurement_height_dots base64_decode doc limits).
Proof.
  unfold measurement_height_dots. apply (outcome_bind _ _ (fun _ => True)).
  - apply safe_for_each; [done|]. intros e bottom _ _. destruct (_ || _); [done|]. apply safe_for_each; [done|]. intros zone b _ _.
    apply (outcome_bind _ _ (fun _ => True)); [apply bottom_candidate_safe|done].
  - intros bottom _. eapply outcome_mono; [apply u32_dots_safe|]. cbn. lia.
Qed.

(** [found] is what is reported of an instance: nothing when it leaves a white
    canvas white, else the bounds around the ink it leaves, and its names. *)
Definition reported doc limits (w h : Z) (i : Element.t * option (list Z)) (found : list MeasuredElementBounds) : Prop :=
  exists c budget, draw_instance base64_decode doc limits i (blank w h, budget_new (max_total_pixels limits)) = Ok (c, budget) /\
  match found with
  | [] => forall x y, ~ inked c x y
  | [f] =>
      source_element_id f = element_id (common (fst i)) /\ measured_zone_id f = snd i /\
      instance_id f = (match snd i with None => source_element_id f | Some zone => source_element_id f ++ [64] ++ zone end) /\
      bounds_small (measured_bounds f) /\ (forall x y, inked c x y -> dot_inside (measured_bounds f) (media_dpi (media doc)) x y) /\
      bounds_tight c (measured_bounds f) (media_dpi (media doc))
  | _ => False
  end.

(** What is measured of an element: its instances, unless it is a group. *)
Definition measured_instances doc e : list (Element.t * option (list Z)) := if is_group e then [] else instances doc e.

(** A loop that appends to a list. *)
Lemma safe_for_each_appending {E A B} (R : A -> list B -> Prop) (body : A -> list B -> Result (Fault E) (list B)) l s :
  (forall a s, a ∈ l -> safe (fun s' => exists r, s' = s ++ r /\ R a r) (body a s)) ->
  safe (fun s' => exists rs, s' = s ++ concat rs /\ Forall2 R l rs) (for_each body l s).
Proof.
  revert s. induction l as [|a l IH]; intros s Hb; cbn [for_each].
  - exists []. rewrite app_nil_r. by split.
  - eapply outcome_bind; [apply Hb; by left|]. intros s1 (r & -> & Hr). eapply outcome_mono; [apply IH; intros b s1 Hin; apply Hb; by right|].
    intros s2 (rs & -> & Hrs). exists (r :: rs). cbn [concat]. rewrite app_assoc. split; [done|by constructor].
Qed.

Lemma measure_in_zone_safe doc limits w h i found :
  max_resource_pixels limits <= u32_max -> max_canvas_pixels limits <= u32_max -> 0 < media_dpi (media doc) -> 0 <= w -> 0 <= h ->
  drawable (media_dpi (media doc)) (placement_px (common (fst i)) (media_dpi (media doc)) doc (snd i)) (fst i) ->
  safe (fun found' => exists r, found' = found ++ r /\ reported doc limits w h i r)
    (measure_in_zone base64_decode doc limits w h (fst i) (snd i) found).
Proof.
  intros Hr Hl Hdpi Hw Hh Hd. unfold measure_in_zone. cbn zeta.
  pose proof (new_canvas_safe w h _ Hw Hh Hl) as Hcanvas. destruct (new_canvas w h (max_canvas_pixels limits)) as [layer|[x|]] eqn:En; [|done..].
  apply new_canvas_blank in En as [-> Hblank]; [|done..]. cbn [rbind]. clear Hcanvas.
  pose proof (draw_safe base64_decode w h doc limits Hr Hl (fst i) (media_dpi (media doc)) (snd i) (blank w h, budget_new (max_total_pixels limits)) Hd) as Hdraw.
  destruct (draw _ _ _ _ _ _ _) as [[c b]|[x|]] eqn:Edraw; cbn [rbind fst];
    [|done|by apply Hdraw, canvas_ok_iff].
  assert (canvas_ok w h (c, b)) as (Hc & _)%canvas_ok_iff by (by apply Hdraw, canvas_ok_iff).
  destruct (gray_ink_bounds_spec c _ Hc Hdpi) as ([bounds|] & -> & Hb); cbn [rbind outcome].
  - eexists. split; [done|]. exists c, b. split; [exact Edraw|]. cbn [source_element_id measured_zone_id instance_id measured_bounds].
    destruct Hb as (? & ? & ?). by split_and!.
  - exists []. split; [by rewrite app_nil_r|]. by exists c, b.
Qed.

(** The whole of a measurement. *)
Definition measured doc limits (m : DocumentMeasurement) : Prop :=
  exists h layers reports, measurement_height_dots base64_decode doc limits = Ok h /\ drawing_order doc layers /\
    Forall2 (reported doc limits (fst (media_dots doc)) h) (flat_map (measured_instances doc) layers) reports /\
    measured_elements m = concat reports /\
    match content_bounds m with
    | None => measured_elements m = []
    | Some b => measured_elements m <> [] /\ bounds_small b /\ hull (map measured_bounds (measured_elements m)) b
    end.

Lemma reported_small doc limits w h l reports :
  Forall2 (reported doc limits w h) l reports -> Forall bounds_small (map measured_bounds (concat reports)).
Proof.
  intros H. induction H as [|i found l reports Hi _ IH]; [by constructor|]. cbn [concat]. rewrite map_app. apply Forall_app. split; [|exact IH].
  destruct Hi as (c & b & _ & Hf). destruct found as [|f [|]]; [by constructor| |done]. apply Forall_singleton. apply Hf.
Qed.

(** C30: Measurement never panics, for any document, fonts and pictures as
    long as no stroke has coordinates that wrap: it returns an error, or, for
    every visible element that is no group and every zone it is drawn in, the
    bounds of the ink it leaves on a white canvas of its own, in the order of
    drawing, and for the document the least bounds around them. The bounds
    contain every dot that is not white and no side of them can move inwards by
    a micrometre; there are none exactly when all is white. *)
Theorem document_measured doc limits :
  max_resource_pixels limits <= u32_max -> max_canvas_pixels limits <= u32_max -> in_u u16_max (media_dpi (media doc)) -> drawable_document doc ->
  safe (measured doc limits) (measure_with_limits base64_decode sha256 doc limits).
Proof.
  intros Hr Hl Hdpi Hd. unfold in_u in Hdpi. unfold measure_with_limits. eapply outcome_bind; [apply validated_safe|].
  intros ? Hv. apply validate_accepts, wf_media in Hv as (_ & _ & Hnz & _).
  cbn zeta. eapply outcome_bind; [apply u32_dots_safe|]. intros w [-> Hw].
  pose proof (measurement_height_safe doc limits) as Hh. destruct (measurement_height_dots base64_decode doc limits) as [h|[x|]] eqn:Eh; [|done..].
  cbn [rbind outcome] in *. apply (outcome_bind _ _ (fun _ => True)); [by apply safe_raising|]. intros pixels _. destruct (_ <? _); [done|].
  set (w := micrometres_to_dots (media_width _) _) in *.
  assert (forall found, for_each (fun e found => if is_group e || negb (effectively_visible e doc) then Ok found
      else for_each (measure_in_zone base64_decode doc limits w h e) (element_zones doc e) found) (by_z_order doc) found =
    for_each (fun i => measure_in_zone base64_decode doc limits w h (fst i) (snd i)) (flat_map (measured_instances doc) (by_z_order doc)) found) as ->.
  { intros found. rewrite for_each_flat_map. apply for_each_ext. intros e s. unfold measured_instances, instances.
    destruct (is_group e), (effectively_visible e doc); [done..| |done]. cbn [orb negb]. by rewrite for_each_map. }
  apply (outcome_bind _ _ (fun s => exists rs, s = [] ++ concat rs /\
    Forall2 (reported doc limits w h) (flat_map (measured_instances doc) (by_z_order doc)) rs)).
  - apply safe_for_each_appending. intros [e zone] found (e' & He' & Hin)%list_elem_of_In%in_flat_map.
    apply list_elem_of_In in He'. unfold by_z_order in He'. rewrite sort_by_key_Permutation in He'.
    assert (e = e') as ->.
    { unfold measured_instances, instances in Hin. destruct (is_group e'); [done|]. destruct (effectively_visible e' doc); [|done].
      apply in_map_iff in Hin as (z & [= -> ->] & _). done. }
    unfold drawable_document in Hd. rewrite list.Forall_forall in Hd. apply measure_in_zone_safe; try done; try lia. by apply Hd.
  - intros found (rs & -> & Hrs). cbn [outcome app]. exists h, (by_z_order doc), rs.
    pose proof (reduce_bounds_spec _ (reported_small _ _ _ _ _ _ Hrs)) as Hred.
    split; [exact Eh|]. split; [apply by_z_order_spec|]. split; [exact Hrs|]. split; [done|]. cbn [content_bounds measured_elements].
    destruct (reduce_bounds _) as [b|]; [|by apply map_eq_nil in Hred]. destruct Hred as (Hne & Hs & Hh'). split; [|done]. intros E. by rewrite E in Hne.
Qed.
End Measurement.

#[local] Existing Instances sample_typesetter sample_codec sample_json.

Lemma document_measured_witness :
  exists m, measure_with_limits (fun _ => None) (fun _ => []) sample_label ProcessingLimits_default = Ok m /\
  length (measured_elements m) = 3%nat /\ content_bounds m = Some {| b_x := 0; b_y := 0; b_width := 2002; b_height := 1001 |} /\
  measured (fun _ => None) sample_label ProcessingLimits_default m.
Proof.
  pose proof (document_measured (fun _ => None) (fun _ => []) sample_label ProcessingLimits_default
    ltac:(done) ltac:(done) ltac:(done) sample_drawable) as Hok.
  destruct (measure_with_limits _ _ _ _) as [m|e] eqn:E; [|exfalso; clear Hok; revert E; vm_compute; discriminate].
  exists m. split; [reflexivity|]. split; [|split; [|exact Hok]]; clear Hok.
  - revert E. vm_compute. intros [= <-]. reflexivity.
  - revert E. vm_compute. intros [= <-]. reflexivity.
Defined.
