(* ===== verification/PrinterRasterFacts.v ===== *)
(** The raster that a printer receives: packed rows of the head's width that
    the planner accepts. *)

From stdpp Require Import base list list_numbers sets strings numbers option.
From S2P Require Import Prelude Bits Text Capabilities ProtocolTypes Protocol ProtocolFacts MonoRaster MonoRasterFacts Document DocumentFacts Sheet RenderTypes Geometry Canvas CanvasFacts PasteFacts TextDrawing DrawingFacts Resources Media Renderer RenderSamples RendererFacts.

#[local] Open Scope Z_scope.

(** ** The head *)

Section Printer.
Context `{TS : Typesetter} `{LT : !LawfulTypesetter} `{IC : ImageCodec} `{LC : !LawfulCodec} {Json : Type} `{JV : JsonView Json}.
Variable base64_decode : list Z -> option (list Z).
Variable sha256 : list Z -> list Z.
Variable catalogues : MediaCatalogues.
Implicit Types (doc : Document Json).

(** A preset whose printable area does not wrap for this document. *)
Definition box_fits doc (printer : PrinterDefinition) : Prop :=
  forall preset w, brother_media catalogues printer doc = Some preset -> printable_width_dots preset = Some w ->
  0 <= w /\ w * default (media_dots doc).2 (positive (printable_length_dots preset)) <= u32_max.

Lemma positive_spec o v : positive o = Some v -> 0 < v.
Proof. destruct o as [w|]; cbn; [|done]. destruct (Z.ltb_spec 0 w); [|done]. by intros [= <-]. Qed.

Lemma fit_mono_safe r w h : mono_wf r -> 0 <= w -> 0 < h -> w * h <= u32_max -> safe mono_wf (fit_mono_to_box r w h).
Proof.
  intros Hr Hw Hh Hs. destruct (decide (w = 0)) as [->|Hne]; [done|].
  destruct (fit_mono_spec r w h Hr) as (out & -> & Hout & _); [lia..|]. done.
Qed.

Lemma too_large_safe {A} (Q : A -> Prop) (r : Checked A) : panics r = false -> (forall a, r = Ok a -> Q a) -> safe Q (too_large r).
Proof. apply safe_map_raised. Qed.

(** Placing on the head: the raster as wide as the head, as high as it was. *)
Lemma placed_ok r head align ox (q : MonoRaster -> Prop) :
  mono_wf r -> 0 <= head -> head * m_height r <= u32_max ->
  (forall m, mono_wf m -> m_width m = head -> m_height m = m_height r -> q m) ->
  panics (place_on_head r head align ox 0) = false /\ (forall m, place_on_head r head align ox 0 = Ok m -> q m).
Proof.
  intros Hr Hh Hs Hq. destruct (decide (head = 0)) as [->|Hne]; [done|].
  destruct (place_on_head_spec r head align ox 0 Hr) as (m & -> & Hm & Hmw & Hmh & _); [lia|by rewrite Z.max_id, Z.add_0_r|].
  split; [done|]. intros m' [= <-]. apply Hq; [done|done|lia].
Qed.

Lemma byte_aligned_ok r head align (q : MonoRaster -> Prop) :
  mono_wf r -> 0 <= head -> head * m_height r <= u32_max ->
  (forall m, mono_wf m -> m_width m = head -> m_height m = m_height r -> q m) ->
  panics (place_on_head_byte_aligned r head align 0 0) = false /\ (forall m, place_on_head_byte_aligned r head align 0 0 = Ok m -> q m).
Proof.
  intros Hr Hh Hs Hq. unfold place_on_head_byte_aligned. destruct (_ || _); [done|]. by apply placed_ok.
Qed.

(** What an option set must satisfy for any plan: density 1 to 8, copies within
    the limits, a cut interval, no LZO. *)
Definition acceptable (o : Options) (limits : ProcessingLimits) : Prop :=
  1 <= density o <= 8 /\ 1 <= copies o <= max_copies limits /\ (cut o = true -> cut_every o <> 0) /\ lzo o = false.

(** C29: Rendering for a printer never panics while no stroke has coordinates
    that wrap; the raster it returns has the bytes per row of the printer's head
    and is within the field widths of the print protocol. With acceptable
    options the planner builds a page from it, unless the printer is a Brother
    model and no media is given or the rows are not within those it admits; the
    plan is then accepted exactly when the copies of the page fit the limits,
    and it is those copies in one frame. *)
Theorem printer_raster_accepted doc printer options limits :
  max_resource_pixels limits <= u32_max -> max_canvas_pixels limits <= u32_max -> drawable_document doc ->
  (forall bytes, pd_width_bytes printer = Some bytes -> in_u u16_max bytes) -> box_fits doc printer ->
  limits_ok limits -> 0 < Capabilities.dpi printer ->
  safe (fun r => raster_ok r /\ pd_width_bytes printer = Some (width_bytes r) /\ zlen (data r) = width_bytes r * height r /\
      forall o, acceptable o limits ->
      ((exists body, plan_body printer r o = Ok body) <-> (protocol printer = Brother -> brother_admits printer r o)) /\
      forall body, plan_body printer r o = Ok body ->
      forall job, plan_with_limits printer r o limits = Ok job <->
        plan_fits (host_copies printer o) (ProtocolFacts.page printer body) limits /\
        job = framed printer (repeat_actions (host_copies printer o) (ProtocolFacts.page printer body)))
    (render_for_printer_with_limits base64_decode sha256 catalogues doc printer options limits).
Proof.
  intros Hres Hl Hd Hbytes Hbox Hlimits Hdpi. unfold render_for_printer_with_limits.
  eapply outcome_bind; [by apply render_safe|]. intros m (Hm & Hsize & _). cbn zeta. injection Hsize as Emw Emh.
  apply (outcome_bind _ _ mono_wf).
  { destruct (brother_media catalogues printer doc) as [preset|] eqn:Ep; cbn [mbind option_bind]; [|done].
    destruct (printable_width_dots preset) as [w|] eqn:Ew; [|done]. destruct (Hbox preset w Ep Ew) as [Hw Harea].
    unfold media_dots in Harea. cbn [snd] in Harea. rewrite <- Emh in Harea. apply fit_mono_safe; [done|done| |done].
    cbn [mbind option_bind]. pose proof (positive_spec (printable_length_dots preset)) as Hpos.
    destruct (positive _) as [v|]; [by apply Hpos|]. by destruct Hm as (_ & ? & _). }
  intros m1 Hm1. apply (outcome_bind _ _ mono_wf).
  { destruct (rotated printer); [|done]. destruct (quarter_spec true m1 Hm1) as (q & Eq & Hq & _).
    change (rotate m1 Clockwise90) with (rotate m1 (quarter true)). by rewrite Eq. }
  intros m2 Hm2. apply (outcome_bind _ _ (fun head => exists bytes, pd_width_bytes printer = Some bytes /\ head = bytes * 8)).
  { apply safe_raising. intros head Hhead%ok_or_Ok. unfold width_px in Hhead.
    destruct (pd_width_bytes printer) as [bytes|]; [|done]. injection Hhead as <-. by exists bytes. }
  intros head (bytes & Hb & ->). destruct (Hbytes bytes Hb) as [Hb0 Hb16].
  apply (outcome_bind _ _ (fun n => n = bytes * 8 * m_height m2)). { apply safe_raising. by intros n [_ ->]%ok_or_Ok%checked_Some. }
  intros n ->. destruct ((max_canvas_pixels limits <? _) || _) eqn:Hlim; [done|]. apply orb_false_iff in Hlim as [Hlim%Z.ltb_ge _].
  apply (outcome_bind _ _ (fun f => mono_wf f /\ m_width f = bytes * 8 /\ m_height f = m_height m2)).
  { destruct (brother_media catalogues printer doc ≫= offset_right_dots) as [offset|].
    - apply (outcome_bind _ _ (fun _ => True)); [by apply safe_raising|]. intros off _. destruct (placed_ok m2 (bytes * 8) FitRight (- off)
        (fun f => mono_wf f /\ m_width f = bytes * 8 /\ m_height f = m_height m2)) as [? ?]; [done|lia|lia|done|]. by apply too_large_safe.
    - destruct (byte_aligned_ok m2 (bytes * 8) (fit_of (alignment printer))
        (fun f => mono_wf f /\ m_width f = bytes * 8 /\ m_height f = m_height m2)) as [? ?]; [done|lia|lia|done|]. by apply too_large_safe. }
  intros f (Hf & Hfw & Hfh). destruct (pack_msb_spec f Hf) as (out & -> & Hout & Hlen & _). cbn [too_large map_raised map_err rbind outcome].
  unfold stride_of in Hlen. rewrite Hfw in Hlen. pose proof Hf as (Hf0 & Hfh0 & Harea & _). rewrite Hfw in Hf0, Harea. unfold u32_max, u16_max in *.
  assert ((bytes * 8 + 7) / 8 = bytes) as Estride by (symmetry; apply (Z.div_unique _ _ _ 7); lia).
  assert (as_u16 (div_ceil (bytes * 8) 8) = bytes) as Ewidth.
  { unfold div_ceil. replace (bytes * 8 + 8 - 1) with (bytes * 8 + 7) by lia. rewrite Estride. unfold as_u16. apply Z.mod_small. lia. }
  rewrite Ewidth. rewrite Estride in Hlen.
  assert (raster_ok {| width_bytes := bytes; height := m_height f; data := out |}) as Hok.
  { unfold raster_ok, in_u, u16_max, u32_max. cbn [width_bytes height data]. split_and!; [lia|lia|lia|nia|done]. }
  split_and!; [done|done|done|]. intros o (Hden & Hcop & Hcut & Hlzo). split.
  - apply plan_body_iff; [done|cbn [width_bytes]; lia|done].
  - intros body Hbody job. assert (0 <= copies o) as Hcopies by lia.
    pose proof (plan_with_limits_iff _ _ _ _ _ job Hbody Hok Hcopies Hlimits) as Hplan. cbn beta in Hplan. unfold plan_accepted in Hplan.
    split; [by intros (_ & ? & ?)%Hplan|]. intros [Hfits Hjob]. apply Hplan. exact (conj (conj Hlen (conj Hden (conj Hcop (conj Hcut Hlzo)))) (conj Hfits Hjob)).
Qed.
End Printer.

#[local] Existing Instances sample_typesetter sample_codec sample_json.

(** The label in the packed rows of a head of 48 bytes. *)
Definition sample_packed : Raster := Eval vm_compute in
  ok_value sample_raster
    (render_for_printer (fun _ => None) (fun _ => []) sample_catalogues sample_label (sample_printer M02) RenderOptions_default).

Lemma sample_packed_rendered :
  render_for_printer (fun _ => None) (fun _ => []) sample_catalogues sample_label (sample_printer M02) RenderOptions_default = Ok sample_packed.
Proof. by vm_compute. Qed.

Lemma printer_raster_accepted_witness :
  width_bytes sample_packed = 48 /\ height sample_packed = 8 /\
  exists job, plan_with_limits (sample_printer M02) sample_packed (sample_options 2) ProcessingLimits_default = Ok job.
Proof.
  pose proof (printer_raster_accepted (fun _ => None) (fun _ => []) sample_catalogues sample_label (sample_printer M02)
    RenderOptions_default ProcessingLimits_default ltac:(done) ltac:(done) sample_drawable) as Hok.
  pose proof sample_packed_rendered as E. unfold render_for_printer in E. rewrite E in Hok. destruct Hok as (_ & _ & _ & Hp).
  - intros bytes [= <-]. unfold in_u, u16_max. lia.
  - intros preset w Hm. discriminate Hm.
  - unfold limits_ok. decide_ranges.
  - reflexivity.
  - clear E. split; [reflexivity|]. split; [reflexivity|].
    destruct (Hp (sample_options 2)) as [_ Hplan]; [unfold acceptable; cbn; split_and!; lia || done|].
    eexists. eapply Hplan; [vm_compute; reflexivity|]. split; [|reflexivity]. vm_compute. split; discriminate.
Defined.
